(* ===== verification/_CoqProject ===== *)
-Q . S2P
Prelude.v
AesSpec.v
Ctaes.v
CtaesLanes.v
CtaesRefine.v
CtaesKeys.v
CtaesProofs.v
BlakeSpec.v
Blake.v
BlakeCore.v
BlakeClose.v
BlakeProofs.v
Sponge.v
Lyra2.v
Lyra2Spec.v
SpongeProofs.v
Lyra2Input.v
Lyra2Refine.v
Lyra2Theorems.v
Lcs.v
Consdiff.v
ConsdiffCalc.v
ConsdiffLcs.v
ConsdiffNav.v
ConsdiffEd.v
ConsdiffDoc.v
ConsdiffTheorems.v
TokenBucket.v
IntMath.v
MdHash.v
ShaSpec.v
Sha256.v
Sha512.v
Sha1.v
Ripemd160.v
ShaProofs.v
Hash.v
AesCbc.v
Crypter.v
CrypterTheorems.v
Merkle.v
MerkleProofs.v
MerkleTheorems.v
ArithUint.v
ArithUintProofs.v
Pow.v
PowTheorems.v
BlockIndex.v
BlockIndexProofs.v
BlockIndexTheorems.v
MedianTime.v
VersionBits.v
VersionBitsTheorems.v
BlockPow.v
Script.v
Interpreter.v
ScriptProofs.v
InterpreterProofs.v
SoftFork.v
P2pkh.v
ScriptTheorems.v
Serialize.v
Transaction.v
TransactionTheorems.v
SigHash.v
SigHashTheorems.v
Compressor.v
Coins.v
CoinsUndo.v
CoinsStore.v
TxVerify.v
CoinsTheorems.v
SeqLocks.v
Block.v
BlockTheorems.v
Connect.v
ConnectProofs.v
ConnectTheorems.v
CheckQueue.v
BestChain.v
