(* ===== verification/Prelude.v ===== *)
(** * GravityCoin: a verification development

    GravityCoin is a Bitcoin-derived coin daemon (C++) with a proof of work based on
    Lyra2 (C), an encrypted wallet, and an embedded Tor (C) for its connections.  This
    library models the parts of the program that compute: blocks, how they are checked,
    connected and disconnected and how the active chain is chosen, transactions with their
    serialization, scripts and signature hashes, the set of unspent outputs and the rules
    for spending them, the proof of work and the numbers behind it, the block index and the
    rules that read it, the queue of script checks and its threads, the hash functions, the
    Merkle trees, the wallet's encryption, and
    of the embedded Tor the consensus diffs, the rate limiting and the
    integer arithmetic.  Paths below are relative to [src/src/].

    ** How the parts fit together

    A header arrives and [CheckBlockHeader] (main.cpp) asks [CheckProofOfWork] (pow.cpp)
    whether [GetPoWHash] (primitives/block.cpp) meets the target of its bits; that hash
    is [LYRA2] (crypto/Lyra2Z) over the 80 octets of the header, cached by height; the
    comparison is done on [arith_uint256].  [AddToBlockIndex] then files the header under
    its double SHA-256, links it to its parent, gives it a skip pointer and the work
    accumulated so far.  The active chain ([CChain]), the locators and the BIP9 deployment
    states (versionbits.cpp) are read from that index.  The body of a block is committed
    to by a Merkle root (consensus/merkle.cpp) over the same double SHA-256.

    A transaction (primitives/transaction.h, read and written through serialize.h) is
    checked by [CheckTransaction], then against the unspent outputs by [CheckTxInputs] and
    [SequenceLocks] (main.cpp); each input is run by [VerifyScript] (script/interpreter.cpp)
    on the script of the output it spends, with a checker that verifies signatures of
    [SignatureHash].  [UpdateCoins] applies it to a [CCoinsViewCache] (coins.cpp), a cache
    over a cache over the database (txdb.cpp), and returns the undo data that
    [DisconnectBlock] needs to take it back; outputs are stored compressed (compressor.cpp).

    A block that has arrived is checked by [CheckBlock] and filed; [ActivateBestChain] then looks
    for the best candidate ([FindMostWorkChain]), takes the tip back to the fork
    ([DisconnectTip]) and connects the blocks of the other branch ([ConnectTip]) until the tip
    is better than it was.  [ConnectTip] runs [ConnectBlock] on a view over the coins: each
    transaction is checked and applied, the scripts are checked by the threads of
    [CCheckQueue], the coinbase is compared with the fees and the reward, and the view is flushed.

    The wallet
    keeps its keys in [CCryptoKeyStore] (wallet/crypter.cpp), encrypted with AES-256-CBC
    (crypto/aes.cpp over crypto/ctaes) under a master key that is itself encrypted under
    a key derived from the passphrase by iterated SHA-512; initialisation vectors and key
    identifiers come from the same hashes.

    ** Files

    Shared.
    - [Prelude]: fixed-width integers ([wrap], [fits]), bit lemmas, loops, bounds-checked
      buffers ([buf_write]), tactics and hint databases.

    Proof of work and block index.
    - [Sponge], [Lyra2]: crypto/Lyra2Z/Sponge.c, Lyra2.c, Lyra2Z.c; [Lyra2Spec] is the
      published algorithm; [SpongeProofs], [Lyra2Input], [Lyra2Refine],
      [Lyra2Theorems] relate them.
    - [Blake]: crypto/Lyra2Z/blake.c (BLAKE-224/256/384/512, compact and unrolled code)
      against [BlakeSpec]; [BlakeCore], [BlakeClose], [BlakeProofs].
    - [ArithUint]: arith_uint256.h and .cpp; [ArithUintProofs].
    - [Pow]: [CheckProofOfWork] of pow.cpp, [GetBlockProof] and
      [GetBlockProofEquivalentTime] of chain.cpp, with their meaning as numbers; [PowTheorems].
    - [BlockIndex]: [CBlockHeader], [CBlockIndex], [CChain] (chain.h, chain.cpp),
      [ZerocoinGetNHeight] (zerocoin.cpp) and [AddToBlockIndex] (main.cpp) over a heap of
      entries; [BlockIndexProofs], [BlockIndexTheorems]; [MedianTime]
      for [GetMedianTimePast].
    - [BlockPow]: [GetPoWHash] with its cache and [CheckBlockHeader], with the theorems.
    - [VersionBits]: versionbits.h and .cpp over the interface
      [ThresholdConditionChecker]; [VersionBitsTheorems].

    Scripts, transactions and unspent outputs.
    - [Script], [Interpreter]: script/script.h and .cpp, interpreter.h and .cpp over the
      class [BaseSignatureChecker]; results are an [outcome] (a value, a [ScriptError], an
      exception, or [Stuck] for undefined behaviour).  [ScriptProofs], [InterpreterProofs]
      (type safety), [SoftFork] (flags and signature encodings), [P2pkh], [ScriptTheorems].
    - [Serialize]: serialize.h, with the class [SerOk] of types that are read back.
    - [Transaction]: primitives/transaction.h and .cpp, amount.h and .cpp;
      [TransactionTheorems].
    - [SigHash]: the signature hashes and [TransactionSignatureChecker], and the
      copy of a transaction that is signed; [SigHashTheorems].
    - [Compressor]: compressor.h and .cpp, undo.h.
    - [Coins]: coins.h and .cpp, [CCoinsViewDB] of txdb.cpp, [UpdateCoins] and the undo
      functions of main.cpp, with the class [CCoinsViewOk] that states what a view promises, met by the database and by a cache over any view that meets it;
      [CoinsUndo], [CoinsStore], [CoinsTheorems].
    - [TxVerify]: [CheckTransaction], [CheckTxInputs] and the counts of signature operations
      of main.cpp, and what they decide.
    - [SeqLocks]: BIP 68 of main.cpp over the block index, with the theorems.

    Blocks and the active chain (main.cpp).
    - [Block]: [CheckTransaction], [CheckBlock], [ContextualCheckBlock], [IsSuperMajority], the
      witness commitment, and the class [OtherRules] for what zerocoin, sigma, instantsend and
      payment rules answer; [BlockTheorems].
    - [Connect]: [GetBlockSubsidy], [CheckInputs], [CScriptCheck], [ConnectBlock],
      [DisconnectBlock], [ConnectTip] and [DisconnectTip] on the coins, the chain and its caches;
      [ConnectProofs] describes a run of [ConnectBlock] by what each transaction does to the
      unspent outputs, [ConnectTheorems] what follows for the chain.
    - [CheckQueue]: checkqueue.h, as the steps its threads take in any order.
    - [BestChain]: [FindMostWorkChain], [PruneBlockIndexCandidates], [InvalidBlockFound],
      [ActivateBestChainStep], [ActivateBestChain], [InvalidateBlock] and [ReconsiderBlock] over the class [TipOps]; its laws
      [TipMoves] hold of the tip functions of [Connect] (instance [node_moves]).

    Hashing.
    - [MdHash]: the buffered hasher that sha256.cpp, sha512.cpp, sha1.cpp and
      ripemd160.cpp share, with the interface [StreamHash] its clients are proved against
      and its proof, and octets as numbers; [Sha256], [Sha512], [Sha1], [Ripemd160] the unrolled
      transforms; [ShaSpec] the standards; [ShaProofs].
    - [Hash]: hash.h, hash.cpp and the HMAC classes, and their correctness.
    - [Merkle]: consensus/merkle.cpp over any two-to-one hash; [MerkleProofs],
      [MerkleTheorems].

    Wallet.
    - [Ctaes]: crypto/ctaes/ctaes.c, bit-sliced as in the source, against [AesSpec]
      (FIPS-197); [CtaesLanes], [CtaesRefine], [CtaesKeys], [CtaesProofs].
    - [AesCbc]: crypto/aes.cpp over any cipher of the class [BlockCipher].
    - [Crypter]: wallet/crypter.cpp and the key store; [CrypterTheorems].

    Embedded Tor (tor/src/).
    - [Consdiff]: feature/dircommon/consdiff.c; [Lcs], [ConsdiffCalc], [ConsdiffLcs],
      [ConsdiffNav], [ConsdiffEd], [ConsdiffDoc], [ConsdiffTheorems].
    - [TokenBucket]: lib/evloop/token_bucket.c.
    - [IntMath]: lib/intmath/bits.c and muldiv.c.

    ** How code is represented

    Every function is a definition of its name.  A w-bit integer is a [Z] whose
    wrap-around is written out; an octet is a [Z] below 256.  Pointers into a buffer are
    a list with an offset, and an access out of range is [None]; a pointer to an index
    entry is an [option positive] into a heap [gmap].  [None] (or [Crash] in [Consdiff])
    stands for undefined behaviour, a failed assertion or a loop that has not ended, never
    for an error the code reports: those are the code's own return values.  Uninitialised
    memory is an argument (the [g] of a hasher, the garbage of a buffer), over which the
    theorems quantify, and so are failing allocations ([allocs]).

    Loops that are not structural take fuel: the number of rows for Lyra2, the height
    plus at most one for walks over the index, the length of the input for the byte
    loops, 32 for the 32-bit Merkle counter, the number of candidates for [FindMostWorkChain];
    the loop of [ActivateBestChain] takes its fuel as an argument, with a bound in C3.  The
    theorems say that a result is produced, so they also show that the fuel is enough and
    that the code ends.  A loop whose counter is narrower than its bound gives [None] where
    the counter would overflow: the row routines of the sponge from 2^31 columns on, the
    passes of Lyra2 from 2^63 - 1 on; C37 asks for fewer.

    ** What the theorems show

    - C1 to C5, the chain: blocks that were connected can be disconnected and leave everything as
      it was (C1); what an accepted block has been checked for, [CheckBlock]'s rules and those of
      [ConnectBlock] (C2); [ActivateBestChain] settles on the best valid chain (C3); the bound on
      the money supply (C4); [ConnectTip] always answers (C5).
    - C6 and C10, the script threads: for every interleaving the queue gives the sequential
      answer and [Wait()] returns.  C7, [FindMostWorkChain] finds the best usable candidate.
      C8 and C9, what [InvalidateBlock] leaves and how [ReconsiderBlock] restores it.
    - C11 to C15, the money: an accepted transaction is applied without a failed assertion
      and lowers the value of all unspent outputs by its fee and its unspendable outputs;
      stacked caches answer as one map; undo restores that map; the exact conditions
      [CheckTxInputs] and [CheckTransaction] decide.
    - C16 to C19, scripts: who can spend an output to a key hash; flags are soft forks; the
      interpreter is type safe and always answers.
    - C20 and C21, what a signature hash signs, and relative lock times.
    - C22 and C23, encodings: transactions, stored coins and undo data, with what becomes of a
      negative version.
    - C24 to C26, blocks: the witness commitment that is generated is accepted, what exactly
      [CheckBlock] decides, with the cached proof of work and the mark of a checked block in the
      statement, and a rejected block that passes when it is checked again.
    - C27 to C29, the target check: a header passes exactly when the Lyra2 digest of its 80
      octets is at most its target; the limb arithmetic is arithmetic modulo [2^256] with
      exact division.
    - C30, the block index.  C31, BIP9 from genesis.  C32, Merkle roots and duplicated
      leaves (CVE-2012-2459).  C33 and C34, the wallet: encrypted keys are found again, and what
      any calls leave in the clear, those of [EncryptKeys] that fail included.  C35, SHA-256 and
      SHA-512.  C36, AES is FIPS-197.  C37, Lyra2 computes its specification.
    - C38 and C39, consensus diffs: round trip and optimality.  C40, token buckets enforce the
      rate, unless the clock falls far back or a level is overdrawn past 32 bits.

    Beside these numbered theorems the files prove, in the same form, that a proof-of-work hash
    cached for a height or left zero by a failed allocation makes headers pass ([BlockPow]),
    that a damaged block is retried without end ([BestChain]), segregated-witness spends to a
    key hash, what SIGHASH_ALL commits to, relative lock times as opcode, BIP9 activation, the
    supermajority count, locators, script numbers and
    pushes, unspendable scripts, variable-length integers, the sum of outputs, skip list,
    active chain and work, Merkle branches, CBC and key derivation, HMAC and SipHash, the
    other members of the families (BLAKE-224/384/512, SHA-1, RIPEMD-160), the S-box circuit and the key
    schedule, the behaviour of Lyra2 on failing allocations and its visitation order, the
    digests accepted with a diff, the exact refill of a bucket and Tor's rounding
    functions.

    ** Hypotheses

    libsecp256k1 is a parameter: a class for the key store ([Secp256k1], laws
    [Secp256k1Ok]), [Verify] and [LowS] in [SigHash], [parse] in [Compressor] with the law
    [parse_compressed].  What the code of zerocoin, sigma, instantsend and payments answers is the
    class [OtherRules].  The sizes of types in memory are a class ([Abi], laws [AbiOk]).
    The theorems on the tip ask for an index as [AddToBlockIndex] keeps it ([index_good]), a
    block whose numbers have their width ([next_block]), and where they exclude every failed
    assertion, a block without zerocoin and sigma transactions, coins worth less than 2^61, and
    code of zerocoin and sigma that returns ([quiet]); a block that is marked as checked was
    passed by an earlier call of [CheckBlock] ([marked_block]).  C3 asks that the
    verdict on a block does not change ([verdicts]).  Tor's SHA3 digests
    are section variables.  The host is little-endian where the source reinterprets memory
    (Lyra2's matrix).  Message lengths are below [2^61] octets, so that the 64-bit length
    of the padding does not wrap.  Each theorem with hypotheses has an instance that
    applies it at concrete values.

    ** Not modelled

    - Retargeting (pow.cpp, [BorisRidiculouslyNamedDifficultyFunction]): OpenSSL big
      numbers, doubles and a fixed-point class.
    - The rest of main.cpp, txmempool.cpp, miner.cpp and script/: the mempool, block templates,
      signing, standardness, the processing of messages.
    - Of connecting blocks, undo data and indexes on disk and the updates of mempool, wallet and
      zerocoin state; of the choice of the chain, the arrival of blocks
      ([ReceivedBlockTransactions]), pruning of files,
      shutdown, warnings and notifications.
    - Of the coins views, memory accounting, cursors and the address and spent indexes; of
      [CheckTransaction] the rules of zerocoin and sigma; the signature cache.
    - Of the block index, file positions, transaction counts, the zerocoin and sigma fields
      and the disk format; of the key store, watch-only keys, scripts, notifications and
      locks; of [arith_uint256], doubles and hexadecimal strings.
    - Networking, RPC, databases and the GUI: input and output around this logic.
    - Zerocoin and Sigma: proofs over OpenSSL and secp256k1 groups.
    - libsecp256k1, LevelDB, UniValue, and Tor's vendored and generated code: third-party
      sources. *)

From stdpp Require Export base numbers list list_numbers option.
From Stdlib Require Import Btauto.
#[global] Set Default Goal Selector "!".
#[global] Unset Mangle Names.

Open Scope Z_scope.

(** ** Machine integers

    A [w]-bit unsigned C integer is a [Z] in the range given by [fits w]; every
    assignment to a [w]-bit variable goes through [wrap w]. *)

Definition wrap (w x : Z) : Z := x mod 2 ^ w.
Definition fits (w x : Z) : Prop := 0 <= x < 2 ^ w.

Abbreviation u8 := (wrap 8).
Abbreviation u16 := (wrap 16).
Abbreviation u32 := (wrap 32).
Abbreviation u64 := (wrap 64).

Declare Scope machine_scope.
Delimit Scope machine_scope with machine.
Infix "^^" := Z.lxor (at level 50, left associativity) : machine_scope.
Infix "&" := Z.land (at level 48, left associativity) : machine_scope.
Infix "<<" := Z.shiftl (at level 47, left associativity) : machine_scope.
Infix ">>" := Z.shiftr (at level 47, left associativity) : machine_scope.
Notation "x '.|' y" := (Z.lor x y) (at level 52, left associativity) : machine_scope.
Open Scope machine_scope.

Create Rewrite HintDb bits.
Create HintDb fits discriminated.

Lemma pow2_pos w : 0 <= w -> 0 < 2 ^ w.
Proof. intros; apply Z.pow_pos_nonneg; lia. Qed.

Lemma fits_0 w : 0 <= w -> fits w 0.
Proof. intros; split; [lia | by apply pow2_pos]. Qed.

Lemma wrap_fits w x : 0 <= w -> fits w (wrap w x).
Proof. intros; unfold fits, wrap; apply Z.mod_pos_bound, pow2_pos; lia. Qed.

Lemma wrap_id w x : fits w x -> wrap w x = x.
Proof. intros; by apply Z.mod_small. Qed.

Lemma wrap_testbit w x i :
  0 <= w -> 0 <= i -> Z.testbit (wrap w x) i = (i <? w) && Z.testbit x i.
Proof.
  intros; unfold wrap; destruct (Z.ltb_spec i w); simpl.
  - rewrite Z.mod_pow2_bits_low by lia; done.
  - rewrite Z.mod_pow2_bits_high by lia; done.
Qed.

Lemma fits_testbit w x i : fits w x -> w <= i -> Z.testbit x i = false.
Proof.
  intros [? ?] ?. destruct (Z.ltb_spec w 0).
  { rewrite (Z.pow_neg_r 2 w) in * by lia. lia. }
  rewrite <- (Z.mod_small x (2 ^ w)) by lia.
  rewrite Z.mod_pow2_bits_high by lia; done.
Qed.

(** Two [w]-bit words with the same bits are equal. *)
Lemma fits_bits_ext w x y :
  fits w x -> fits w y ->
  (forall i, 0 <= i < w -> Z.testbit x i = Z.testbit y i) -> x = y.
Proof.
  intros Hx Hy Heq. apply Z.bits_inj'; intros i Hi.
  destruct (Z.ltb_spec i w); [apply Heq; lia |].
  rewrite !(fits_testbit w) by (done || lia). done.
Qed.

Lemma testbits_fits w x :
  0 <= w -> 0 <= x -> (forall i, w <= i -> Z.testbit x i = false) -> fits w x.
Proof.
  intros Hw Hx Hhi. split; [done |].
  assert (x = wrap w x) as ->; [| by apply wrap_fits].
  apply Z.bits_inj'; intros i Hi. rewrite wrap_testbit by lia.
  destruct (Z.ltb_spec i w); [done | simpl; apply Hhi; lia].
Qed.

Lemma lxor_fits w x y : 0 <= w -> fits w x -> fits w y -> fits w (x ^^ y).
Proof.
  intros ? [? ?] [? ?]. apply testbits_fits; [done | by apply Z.lxor_nonneg |].
  intros; rewrite Z.lxor_spec, !(fits_testbit w) by (done || lia); done.
Qed.

Lemma lor_fits w x y : 0 <= w -> fits w x -> fits w y -> fits w (x .| y).
Proof.
  intros ? [? ?] [? ?]. apply testbits_fits; [done | by apply Z.lor_nonneg |].
  intros; rewrite Z.lor_spec, !(fits_testbit w) by (done || lia); done.
Qed.

Lemma land_fits_l w x y : 0 <= w -> fits w x -> fits w (x & y).
Proof.
  intros ? [? ?]. apply testbits_fits; [done | apply Z.land_nonneg; by left |].
  intros; rewrite Z.land_spec, (fits_testbit w x) by (done || lia); done.
Qed.

Lemma land_fits_r w x y : 0 <= w -> fits w y -> fits w (x & y).
Proof. intros; rewrite Z.land_comm; by apply land_fits_l. Qed.

Lemma shiftr_fits w x n : 0 <= w -> 0 <= n -> fits w x -> fits w (x >> n).
Proof.
  intros ? ? [? ?]. apply testbits_fits; [done | by apply Z.shiftr_nonneg |].
  intros; rewrite Z.shiftr_spec, (fits_testbit w) by (done || lia); done.
Qed.

Lemma fits_weaken w w' x : w <= w' -> fits w x -> fits w' x.
Proof.
  intros Hw [? ?]. split; [done |]. eapply Z.lt_le_trans; [done |].
  apply Z.pow_le_mono_r; lia.
Qed.

Lemma wrap_add_l w x y : wrap w (wrap w x + y) = wrap w (x + y).
Proof. unfold wrap. by rewrite Zplus_mod_idemp_l. Qed.

Lemma wrap_add_r w x y : wrap w (x + wrap w y) = wrap w (x + y).
Proof. unfold wrap. by rewrite Zplus_mod_idemp_r. Qed.

Lemma wrap_sub_l w x y : wrap w (wrap w x - y) = wrap w (x - y).
Proof. unfold wrap. by rewrite Zminus_mod_idemp_l. Qed.

Lemma wrap_sub_add w x y : fits w x -> wrap w (wrap w (x + y) - y) = x.
Proof.
  intros. rewrite wrap_sub_l. replace (x + y - y) with x by lia. by apply wrap_id.
Qed.

Lemma lxor_cancel_r x y : (x ^^ y) ^^ y = x.
Proof. by rewrite Z.lxor_assoc, Z.lxor_nilpotent, Z.lxor_0_r. Qed.

Lemma lxor_cancel_l x y : y ^^ (y ^^ x) = x.
Proof. by rewrite <- Z.lxor_assoc, Z.lxor_nilpotent, Z.lxor_0_l. Qed.

#[export] Hint Resolve fits_0 wrap_fits lxor_fits lor_fits land_fits_l land_fits_r
  shiftr_fits : fits.
#[export] Hint Extern 1 (_ <= _) => lia : fits.
#[export] Hint Rewrite Z.lxor_spec Z.land_spec Z.lor_spec Z.testbit_0_l : bits.
#[export] Hint Rewrite Z.shiftl_spec Z.shiftr_spec wrap_testbit using lia : bits.
#[export] Hint Rewrite Z.lnot_spec using lia : bits.

Ltac solve_fits := eauto 12 with fits.

(** Split every [Forall P (x :: l)] of the context. *)
Ltac forall_split :=
  repeat match goal with
  | H : Forall _ (_ :: _) |- _ =>
      let H1 := fresh "Hf" in let H2 := fresh "Hs" in
      apply Forall_cons_1 in H; destruct H as [H1 H2]
  end.

(** Prove [Forall P [x; y; ..]] with [tac] on each element. *)
Ltac forall_build tac :=
  repeat match goal with
  | |- Forall _ [] => apply Forall_nil_2
  | |- Forall _ (_ :: _) => apply Forall_cons_2; [solve [tac] |]
  end.

(** Words put together from a high and a low part. *)
Lemma lor_shift_add k a b : 0 <= k -> fits k b -> (a << k) .| b = a * 2 ^ k + b.
Proof.
  intros Hk Hb. rewrite <- Z.shiftl_mul_pow2 by done.
  assert (Hd : Z.land (a << k) b = 0).
  { apply Z.bits_inj'; intros i Hi. rewrite Z.land_spec, Z.testbit_0_l.
    destruct (Z.ltb_spec i k).
    - rewrite Z.shiftl_spec_low by lia. done.
    - rewrite (fits_testbit k b) by (done || lia). apply andb_false_r. }
  rewrite Z.add_nocarry_lxor by done.
  apply Z.bits_inj'; intros i Hi.
  pose proof (f_equal (fun x => Z.testbit x i) Hd) as Hdi. simpl in Hdi.
  rewrite Z.land_spec, Z.testbit_0_l in Hdi.
  rewrite Z.lor_spec, Z.lxor_spec.
  destruct (Z.testbit (a << k) i), (Z.testbit b i); done.
Qed.

(** A single bit of a number. *)
Lemma land_pow2 x l : 0 <= l -> Z.land x (2 ^ l) = if Z.testbit x l then 2 ^ l else 0.
Proof.
  intros Hl. apply Z.bits_inj'. intros i Hi. rewrite Z.land_spec, Z.pow2_bits_eqb by done.
  destruct (Z.eqb_spec l i) as [<-|Hne].
  - rewrite andb_true_r. destruct (Z.testbit x l) eqn:E; [| by rewrite Z.testbit_0_l].
    by rewrite Z.pow2_bits_true.
  - rewrite andb_false_r. destruct (Z.testbit x l); [| by rewrite Z.testbit_0_l].
    by rewrite Z.pow2_bits_false.
Qed.

(** ** Loops

    [for_loop n body s] is [for (i = 0; i < n; i++) s = body(i, s)]. *)

Definition for_loop {S : Type} (n : nat) (body : nat -> S -> S) (s : S) : S :=
  foldl (fun s i => body i s) s (seq 0 n).

Lemma for_loop_S {S} n (body : nat -> S -> S) s :
  for_loop (Datatypes.S n) body s = body n (for_loop n body s).
Proof. unfold for_loop. by rewrite seq_S, foldl_snoc. Qed.

(** Loop invariant rule. *)
Lemma for_loop_ind {S} (P : nat -> S -> Prop) n body s :
  P 0%nat s ->
  (forall i s, (i < n)%nat -> P i s -> P (Datatypes.S i) (body i s)) ->
  P n (for_loop n body s).
Proof.
  intros H0 Hstep. induction n as [|n IH]; [done |].
  rewrite for_loop_S. apply Hstep; [lia |]. apply IH. intros; apply Hstep; auto with lia.
Qed.

(** ** Folds *)

Lemma foldl_ext {A B} (f g : A -> B -> A) l a :
  (forall a x, x ∈ l -> f a x = g a x) -> foldl f a l = foldl g a l.
Proof.
  revert a. induction l as [|x l IH]; intros a H; [done |]. simpl.
  rewrite (H a x) by left. apply IH. intros. apply H. by right.
Qed.

Lemma foldl_fmap {A I J} (f : A -> J -> A) (g : I -> J) l a :
  foldl f a (g <$> l) = foldl (fun a i => f a (g i)) a l.
Proof. revert a. induction l; simpl; auto. Qed.

(** Two folds over the same indices stay related. *)
Lemma foldl_rel {A B I} (R : A -> B -> Prop) (f : A -> I -> A) (g : B -> I -> B) l a b :
  R a b -> (forall a b i, R a b -> R (f a i) (g b i)) -> R (foldl f a l) (foldl g b l).
Proof. intros H Hs. revert a b H. induction l; simpl; auto. Qed.

(** ** Lists as arrays *)

Lemma drop_nth_hd {A} (d : A) n l : hd d (drop n l) = nth n l d.
Proof. revert n; induction l; intros []; simpl; auto. Qed.

Lemma tail_drop {A} n (l : list A) : tail (drop n l) = drop (S n) l.
Proof. revert n; induction l; intros []; simpl; auto. Qed.

Lemma take_4_list {A} (d : A) l n :
  (n + 4 <= length l)%nat ->
  take 4 (drop n l) = [nth n l d; nth (n + 1) l d; nth (n + 2) l d; nth (n + 3) l d].
Proof.
  intros. rewrite <- !drop_nth_hd, <- !drop_drop.
  assert (4 <= length (drop n l))%nat by (rewrite length_drop; lia).
  destruct (drop n l) as [|? [|? [|? [|? ?]]]]; simpl in *; try lia. done.
Qed.

(** The length of a list of blocks of one size, put end to end. *)
Lemma length_concat_blocks {A} n (ls : list (list A)) :
  Forall (fun l => length l = n) ls -> length (concat ls) = (n * length ls)%nat.
Proof.
  intros Hls. induction Hls as [|l ls Hl Hls IH]; [simpl; lia |].
  cbn [concat length]. rewrite length_app, IH, Hl. lia.
Qed.

(** ** Fallible code *)

Lemma obind_Some {A B} (x : A) (k : A -> option B) : (Some x ≫= k) = k x.
Proof. done. Qed.

(** Run the binds whose first computation is known to succeed. *)
Ltac obind := repeat (rewrite obind_Some; cbv beta).

(** A counted loop whose body can fail. *)
Definition for_opt {S : Type} (n : nat) (body : nat -> S -> option S) (s : S) : option S :=
  for_loop n (fun i o => s ← o; body i s) (Some s).

Lemma for_opt_S {S} n (body : nat -> S -> option S) s :
  for_opt (Datatypes.S n) body s = (s ← for_opt n body s; body n s).
Proof. unfold for_opt. by rewrite for_loop_S. Qed.

(** A loop whose body succeeds and simulates a pure one. *)
Lemma for_opt_rel {S T} (R : nat -> S -> T -> Prop) n body (g : nat -> T -> T) s t :
  R 0%nat s t ->
  (forall i s t, (i < n)%nat -> R i s t ->
     exists s', body i s = Some s' /\ R (Datatypes.S i) s' (g i t)) ->
  exists s', for_opt n body s = Some s' /\ R n s' (for_loop n g t).
Proof.
  intros H0 Hstep. induction n as [|n IH]; [by exists s |].
  destruct IH as (s1 & E1 & H1); [intros; apply Hstep; auto with lia |].
  destruct (Hstep n s1 (for_loop n g t)) as (s2 & E2 & H2); [lia | done |].
  exists s2. rewrite for_opt_S, E1, obind_Some, for_loop_S. done.
Qed.

(** ** Memory blocks

    [buf_write off src buf] is [memcpy(buf + off, src, length src)]; it is [None]
    when the copy leaves the block. *)

Definition buf_write (off : Z) (src buf : list Z) : option (list Z) :=
  if (0 <=? off) && (off + Z.of_nat (length src) <=? Z.of_nat (length buf)) then
    Some (take (Z.to_nat off) buf ++ src ++ drop (Z.to_nat off + length src) buf)
  else None.

(** [buf_read off n buf]: the [n] elements at [off]. *)
Definition buf_read (off n : Z) (buf : list Z) : option (list Z) :=
  if (0 <=? off) && (0 <=? n) && (off + n <=? Z.of_nat (length buf)) then
    Some (take (Z.to_nat n) (drop (Z.to_nat off) buf))
  else None.

(** [buf_fill off v n buf] is [memset(buf + off, v, n)]. *)
Definition buf_fill (off v n : Z) (buf : list Z) : option (list Z) :=
  buf_write off (replicate (Z.to_nat n) v) buf.

Lemma buf_write_Some off src buf pre mid post :
  buf = pre ++ mid ++ post -> off = Z.of_nat (length pre) -> length src = length mid ->
  buf_write off src buf = Some (pre ++ src ++ post).
Proof.
  intros -> -> Hl. unfold buf_write. rewrite Nat2Z.id.
  replace (_ && _) with true
    by (symmetry; rewrite andb_true_iff, !Z.leb_le, !length_app; lia).
  rewrite take_app_length, <- drop_drop, drop_app_length, Hl, drop_app_length. done.
Qed.

Lemma buf_fill_Some off v n buf pre mid post :
  buf = pre ++ mid ++ post -> off = Z.of_nat (length pre) -> n = Z.of_nat (length mid) ->
  buf_fill off v n buf = Some (pre ++ replicate (length mid) v ++ post).
Proof.
  intros -> -> ->. unfold buf_fill. rewrite Nat2Z.id.
  apply buf_write_Some with mid; [done.. |]. apply length_replicate.
Qed.

Lemma buf_write_length off src buf buf' :
  buf_write off src buf = Some buf' -> length buf' = length buf.
Proof.
  unfold buf_write. destruct (_ && _) eqn:E; [| done]. intros [= <-].
  rewrite andb_true_iff, !Z.leb_le in E.
  rewrite !length_app, length_take, length_drop. lia.
Qed.

(** Reading an all-zero array, in range or not. *)
Lemma nth_zeros n k : nth k (replicate n 0) 0 = 0.
Proof. revert k. induction n; intros []; simpl; auto. Qed.
