(* ===== verification/AesSpec.v ===== *)
(** * AES as FIPS-197 specifies it

    The reference definitions [Ctaes] is proved to implement: arithmetic in
    GF(2^8), the S-box as inversion followed by the affine map, the byte-level
    round transformations on a 16-byte state in the standard's column-major
    order, the key expansion (FIPS-197 Fig. 11), the cipher (Fig. 5) and the
    inverse cipher (Fig. 12). *)

From S2P Require Import Prelude.
#[local] Open Scope Z_scope.

(** ** Bytes and bits *)

Definition byte_bits (b : Z) : list bool := Z.testbit b <$> seqZ 0 8.

Definition bits_byte (l : list bool) : Z :=
  foldr (fun (c : bool) acc => Z.b2z c + 2 * acc) 0 l.

(** ** GF(2^8) modulo x^8 + x^4 + x^3 + x + 1 *)

Definition xtime (a : Z) : Z :=
  u8 (a << 1) ^^ (if Z.testbit a 7 then 0x1b else 0).

Definition gmul (a b : Z) : Z :=
  fst (for_loop 8 (fun i '(acc, a) =>
         (if Z.testbit b (Z.of_nat i) then acc ^^ a else acc, xtime a)) (0, a)).

Fixpoint gpow (a : Z) (n : nat) : Z :=
  match n with O => 1 | S n => gmul a (gpow a n) end.

(** The multiplicative inverse; [0] is mapped to [0]. *)
Definition ginv (a : Z) : Z := gpow a 254.

(** ** The S-box (FIPS-197, 5.1.1 and 5.3.2) *)

Definition affine (b : Z) : Z :=
  bits_byte ((fun i => xorb (xorb (xorb (xorb (xorb (Z.testbit b i)
    (Z.testbit b ((i + 4) mod 8))) (Z.testbit b ((i + 5) mod 8)))
    (Z.testbit b ((i + 6) mod 8))) (Z.testbit b ((i + 7) mod 8)))
    (Z.testbit 0x63 i)) <$> seqZ 0 8).

Definition inv_affine (b : Z) : Z :=
  bits_byte ((fun i => xorb (xorb (xorb (Z.testbit b ((i + 2) mod 8))
    (Z.testbit b ((i + 5) mod 8))) (Z.testbit b ((i + 7) mod 8)))
    (Z.testbit 0x05 i)) <$> seqZ 0 8).

Definition sbox (b : Z) : Z := affine (ginv b).
Definition inv_sbox (b : Z) : Z := ginv (inv_affine b).

(** ** Round transformations on the 16-byte state [s[r + 4c]] *)

Definition sub_bytes (st : list Z) : list Z := sbox <$> st.
Definition inv_sub_bytes (st : list Z) : list Z := inv_sbox <$> st.

Definition permute (f : nat -> nat -> nat * nat) (st : list Z) : list Z :=
  c ← seq 0 4; r ← seq 0 4;
  let '(r', c') := f r c in [nth (r' + 4 * c') st 0].

Definition shift_rows : list Z -> list Z :=
  permute (fun r c => (r, (c + r) mod 4))%nat.
Definition inv_shift_rows : list Z -> list Z :=
  permute (fun r c => (r, (c + (4 - r)) mod 4))%nat.

(** Multiplication of a column by the polynomial with coefficients [p]. *)
Definition mul_column (p : list Z) (col : list Z) : list Z :=
  (fun r : nat => foldr Z.lxor 0
     ((fun k : nat => gmul (nth ((k + 4 - r) mod 4)%nat p 0) (nth k col 0)) <$> seq 0 4))
  <$> seq 0 4.

Definition column (st : list Z) (c : nat) : list Z := take 4 (drop (4 * c) st).

Definition mix_columns (st : list Z) : list Z :=
  c ← seq 0 4; mul_column [2; 3; 1; 1] (column st c).
Definition inv_mix_columns (st : list Z) : list Z :=
  c ← seq 0 4; mul_column [0x0e; 0x0b; 0x0d; 0x09] (column st c).

Definition xor_bytes : list Z -> list Z -> list Z := zip_with Z.lxor.

(** ** Key expansion *)

Definition rot_word (w : list Z) : list Z :=
  match w with a :: t => t ++ [a] | [] => [] end.
Definition sub_word (w : list Z) : list Z := sbox <$> w.
Definition rcon (j : nat) : list Z := [gpow 2 (j - 1); 0; 0; 0].

Definition next_word (nk : nat) (ws : list (list Z)) : list Z :=
  let i := length ws in
  let temp := nth (i - 1) ws [] in
  let temp :=
    if decide (i mod nk = 0)%nat then xor_bytes (sub_word (rot_word temp)) (rcon (i / nk))
    else if decide (6 < nk /\ i mod nk = 4)%nat then sub_word temp
    else temp in
  xor_bytes (nth (i - nk) ws []) temp.

Fixpoint expand (nk n : nat) (ws : list (list Z)) : list (list Z) :=
  match n with O => ws | S n => expand nk n (ws ++ [next_word nk ws]) end.

Definition key_words (nk : nat) (key : list Z) : list (list Z) :=
  (fun i => take 4 (drop (4 * i) key)) <$> seq 0 nk.

(** All [4 * (nr + 1)] words of the schedule. *)
Definition key_expansion (nk nr : nat) (key : list Z) : list (list Z) :=
  expand nk (4 * (nr + 1) - nk) (key_words nk key).

Definition round_key (ws : list (list Z)) (r : nat) : list Z :=
  mjoin (take 4 (drop (4 * r) ws)).

(** ** Cipher and inverse cipher *)

Definition enc_round (rk : nat -> list Z) (st : list Z) (i : nat) : list Z :=
  xor_bytes (mix_columns (shift_rows (sub_bytes st))) (rk i).

Definition cipher (nr : nat) (rk : nat -> list Z) (inp : list Z) : list Z :=
  let st := foldl (enc_round rk) (xor_bytes inp (rk 0%nat)) (seq 1 (nr - 1)) in
  xor_bytes (shift_rows (sub_bytes st)) (rk nr).

Definition dec_round (rk : nat -> list Z) (st : list Z) (i : nat) : list Z :=
  inv_mix_columns (xor_bytes (inv_sub_bytes (inv_shift_rows st)) (rk i)).

Definition inv_cipher (nr : nat) (rk : nat -> list Z) (inp : list Z) : list Z :=
  let st := foldl (dec_round rk) (xor_bytes inp (rk nr)) (reverse (seq 1 (nr - 1))) in
  xor_bytes (inv_sub_bytes (inv_shift_rows st)) (rk 0%nat).
