(* ===== verification/Ctaes.v ===== *)
(** * crypto/ctaes/ctaes.c: the constant-time bit-sliced AES

    [AES_state] is the struct of eight 16-bit slices: bit [4r + c] of slice [i]
    is bit [i] of the state byte in row [r], column [c].  Every function of
    ctaes.c is a definition of the same name; a pointer that the C code advances
    is an index, an array a list, and each store to a [uint16_t] is wrapped. *)

From S2P Require Import Prelude.
#[local] Open Scope Z_scope.

(** ** State *)

Record AES_state := mkState { slice : list Z }.

Definition zero_state : AES_state := mkState (replicate 8 0).

#[export] Instance AES_state_inhabited : Inhabited AES_state := populate zero_state.
#[export] Instance AES_state_eq_dec : EqDecision AES_state.
Proof. solve_decision. Defined.

(** Eight slices of 16 bits each. *)
Definition state_wf (s : AES_state) : Prop :=
  length (slice s) = 8%nat /\ Forall (fits 16) (slice s).

(** ** Loading and saving *)

(** [s->slice[i] |= (byte & 1) << (r * 4 + c); byte >>= 1;] for the 8 slices. *)
Definition LoadByte (s : AES_state) (byte : Z) (r c : nat) : AES_state :=
  fst (for_loop 8 (fun i '(s, byte) =>
    (mkState (alter (fun v => u16 (v .| ((byte & 1) << Z.of_nat (r * 4 + c)))) i (slice s)),
     u8 (byte >> 1))) (s, byte)).

Definition LoadBytes (s : AES_state) (data16 : list Z) : AES_state :=
  fst (for_loop 4 (fun c st =>
    for_loop 4 (fun r '(s, data16) =>
      (LoadByte s (hd 0 data16) r c, tail data16)) st) (s, data16)).

Definition SaveBytes (s : AES_state) : list Z :=
  for_loop 4 (fun c out =>
    for_loop 4 (fun r out =>
      out ++ [for_loop 8 (fun b v =>
                u8 (v .| (((nth b (slice s) 0 >> Z.of_nat (r * 4 + c)) & 1) << Z.of_nat b))) 0])
      out) [].

(** ** The S-box circuit

    The gates are taken from a class, so that the same circuit can be evaluated
    on the 16-bit slices (the code) and on one bit lane (the proof). *)

Class Gates (W : Type) := {
  gxor : W -> W -> W;
  gand : W -> W -> W;
  gor : W -> W -> W;
  gnot : W -> W;
}.

(** C's operators on [uint16_t]. *)
#[export] Instance gates_u16 : Gates Z := {|
  gxor := Z.lxor; gand := Z.land; gor := Z.lor; gnot x := u16 (Z.lnot x)
|}.

#[export] Instance gates_bool : Gates bool := {|
  gxor := xorb; gand := andb; gor := orb; gnot := negb
|}.

Section Circuit.
Context {W : Type} `{!Gates W}.

(** The values the linear layer hands to the non-linear one. *)
Inductive sub_top :=
| SubTop (T1 T2 T3 T4 T6 T8 T9 T10 T13 T14 T15 T16 T17 T19 T20 T22 T23 T24 T25
          T26 T27 D : W).

(** The outputs of the non-linear layer. *)
Inductive sub_mid :=
| SubMid (M46 M47 M48 M49 M50 M51 M52 M53 M54 M55 M56 M57 M58 M59 M60 M61 M62
          M63 : W).

(** [SubBytes], "Undo linear postprocessing" (the [inv] branch). *)
Definition SubBytes_pre_inv (U0 U1 U2 U3 U4 U5 U6 U7 : W) : sub_top :=
  let T23 := gxor U0 U3 in
  let T22 := gnot (gxor U1 U3) in
  let T2 := gnot (gxor U0 U1) in
  let T1 := gxor U3 U4 in
  let T24 := gnot (gxor U4 U7) in
  let R5 := gxor U6 U7 in
  let T8 := gnot (gxor U1 T23) in
  let T19 := gxor T22 R5 in
  let T9 := gnot (gxor U7 T1) in
  let T10 := gxor T2 T24 in
  let T13 := gxor T2 R5 in
  let T3 := gxor T1 R5 in
  let T25 := gnot (gxor U2 T1) in
  let R13 := gxor U1 U6 in
  let T17 := gnot (gxor U2 T19) in
  let T20 := gxor T24 R13 in
  let T4 := gxor U4 T8 in
  let R17 := gnot (gxor U2 U5) in
  let R18 := gnot (gxor U5 U6) in
  let R19 := gnot (gxor U2 U4) in
  let D := gxor U0 R17 in
  let T6 := gxor T22 R17 in
  let T16 := gxor R13 R19 in
  let T27 := gxor T1 R18 in
  let T15 := gxor T10 T27 in
  let T14 := gxor T10 R18 in
  let T26 := gxor T3 T16 in
  SubTop T1 T2 T3 T4 T6 T8 T9 T10 T13 T14 T15 T16 T17 T19 T20 T22 T23 T24
  T25 T26 T27 D.

(** [SubBytes], "Linear preprocessing". *)
Definition SubBytes_pre (U0 U1 U2 U3 U4 U5 U6 U7 : W) : sub_top :=
  let T1 := gxor U0 U3 in
  let T2 := gxor U0 U5 in
  let T3 := gxor U0 U6 in
  let T4 := gxor U3 U5 in
  let T5 := gxor U4 U6 in
  let T6 := gxor T1 T5 in
  let T7 := gxor U1 U2 in
  let T8 := gxor U7 T6 in
  let T9 := gxor U7 T7 in
  let T10 := gxor T6 T7 in
  let T11 := gxor U1 U5 in
  let T12 := gxor U2 U5 in
  let T13 := gxor T3 T4 in
  let T14 := gxor T6 T11 in
  let T15 := gxor T5 T11 in
  let T16 := gxor T5 T12 in
  let T17 := gxor T9 T16 in
  let T18 := gxor U3 U7 in
  let T19 := gxor T7 T18 in
  let T20 := gxor T1 T19 in
  let T21 := gxor U6 U7 in
  let T22 := gxor T7 T21 in
  let T23 := gxor T2 T22 in
  let T24 := gxor T2 T10 in
  let T25 := gxor T20 T17 in
  let T26 := gxor T3 T16 in
  let T27 := gxor T1 T12 in
  let D := U7 in
  SubTop T1 T2 T3 T4 T6 T8 T9 T10 T13 T14 T15 T16 T17 T19 T20 T22 T23 T24
  T25 T26 T27 D.

(** [SubBytes], "Non-linear transformation". *)
Definition SubBytes_nonlinear (T : sub_top) : sub_mid :=
  match T with
  | SubTop T1 T2 T3 T4 T6 T8 T9 T10 T13 T14 T15 T16 T17 T19 T20 T22 T23 T24
  T25 T26 T27 D =>
  let M1 := gand T13 T6 in
  let M6 := gand T3 T16 in
  let M11 := gand T1 T15 in
  let M13 := gxor (gand T4 T27) M11 in
  let M15 := gxor (gand T2 T10) M11 in
  let M20 := gxor (gxor (gxor T14 M1) (gand T23 T8)) M13 in
  let M21 := gxor (gxor (gxor (gand T19 D) M1) T24) M15 in
  let M22 := gxor (gxor (gxor T26 M6) (gand T22 T9)) M13 in
  let M23 := gxor (gxor (gxor (gand T20 T17) M6) M15) T25 in
  let M25 := gand M22 M20 in
  let M37 := gxor M21 (gand (gxor M20 M21) (gxor M23 M25)) in
  let M38 := gxor (gxor M20 M25) (gor M21 (gand M20 M23)) in
  let M39 := gxor M23 (gand (gxor M22 M23) (gxor M21 M25)) in
  let M40 := gxor (gxor M22 M25) (gor M23 (gand M21 M22)) in
  let M41 := gxor M38 M40 in
  let M42 := gxor M37 M39 in
  let M43 := gxor M37 M38 in
  let M44 := gxor M39 M40 in
  let M45 := gxor M42 M41 in
  let M46 := gand M44 T6 in
  let M47 := gand M40 T8 in
  let M48 := gand M39 D in
  let M49 := gand M43 T16 in
  let M50 := gand M38 T9 in
  let M51 := gand M37 T17 in
  let M52 := gand M42 T15 in
  let M53 := gand M45 T27 in
  let M54 := gand M41 T10 in
  let M55 := gand M44 T13 in
  let M56 := gand M40 T23 in
  let M57 := gand M39 T19 in
  let M58 := gand M43 T3 in
  let M59 := gand M38 T22 in
  let M60 := gand M37 T20 in
  let M61 := gand M42 T1 in
  let M62 := gand M45 T4 in
  let M63 := gand M41 T2 in
  SubMid M46 M47 M48 M49 M50 M51 M52 M53 M54 M55 M56 M57 M58 M59 M60 M61 M62
  M63
  end.

(** [SubBytes], "Undo linear preprocessing" (the [inv] branch). *)
Definition SubBytes_post_inv (M : sub_mid) : list W :=
  match M with
  | SubMid M46 M47 M48 M49 M50 M51 M52 M53 M54 M55 M56 M57 M58 M59 M60 M61
  M62 M63 =>
  let P0 := gxor M52 M61 in
  let P1 := gxor M58 M59 in
  let P2 := gxor M54 M62 in
  let P3 := gxor M47 M50 in
  let P4 := gxor M48 M56 in
  let P5 := gxor M46 M51 in
  let P6 := gxor M49 M60 in
  let P7 := gxor P0 P1 in
  let P8 := gxor M50 M53 in
  let P9 := gxor M55 M63 in
  let P10 := gxor M57 P4 in
  let P11 := gxor P0 P3 in
  let P12 := gxor M46 M48 in
  let P13 := gxor M49 M51 in
  let P14 := gxor M49 M62 in
  let P15 := gxor M54 M59 in
  let P16 := gxor M57 M61 in
  let P17 := gxor M58 P2 in
  let P18 := gxor M63 P5 in
  let P19 := gxor P2 P3 in
  let P20 := gxor P4 P6 in
  let P22 := gxor P2 P7 in
  let P23 := gxor P7 P8 in
  let P24 := gxor P5 P7 in
  let P25 := gxor P6 P10 in
  let P26 := gxor P9 P11 in
  let P27 := gxor P10 P18 in
  let P28 := gxor P11 P25 in
  let P29 := gxor P15 P20 in
  [ gxor P9 P16;
    gxor P14 P23;
    gxor P19 P24;
    gxor P23 P27;
    gxor P12 P22;
    gxor P17 P28;
    gxor P26 P29;
    gxor P13 P22 ]
  end.

(** [SubBytes], "Linear postprocessing". *)
Definition SubBytes_post (M : sub_mid) : list W :=
  match M with
  | SubMid M46 M47 M48 M49 M50 M51 M52 M53 M54 M55 M56 M57 M58 M59 M60 M61
  M62 M63 =>
  let L0 := gxor M61 M62 in
  let L1 := gxor M50 M56 in
  let L2 := gxor M46 M48 in
  let L3 := gxor M47 M55 in
  let L4 := gxor M54 M58 in
  let L5 := gxor M49 M61 in
  let L6 := gxor M62 L5 in
  let L7 := gxor M46 L3 in
  let L8 := gxor M51 M59 in
  let L9 := gxor M52 M53 in
  let L10 := gxor M53 L4 in
  let L11 := gxor M60 L2 in
  let L12 := gxor M48 M51 in
  let L13 := gxor M50 L0 in
  let L14 := gxor M52 M61 in
  let L15 := gxor M55 L1 in
  let L16 := gxor M56 L0 in
  let L17 := gxor M57 L1 in
  let L18 := gxor M58 L8 in
  let L19 := gxor M63 L4 in
  let L20 := gxor L0 L1 in
  let L21 := gxor L1 L7 in
  let L22 := gxor L3 L12 in
  let L23 := gxor L18 L2 in
  let L24 := gxor L15 L9 in
  let L25 := gxor L6 L10 in
  let L26 := gxor L7 L9 in
  let L27 := gxor L8 L10 in
  let L28 := gxor L11 L14 in
  let L29 := gxor L11 L17 in
  [ gnot (gxor L6 L23);
    gnot (gxor L13 L27);
    gxor L25 L29;
    gxor L20 L22;
    gxor L6 L21;
    gnot (gxor L19 L28);
    gnot (gxor L16 L26);
    gxor L6 L24 ]
  end.

(** The whole of [SubBytes] on the array of slices: [U0] is [slice[7]], ..., [U7]
    is [slice[0]]. *)
Definition SubBytes_slices (inv : bool) (sl : list W) : list W :=
  match sl with
  | [U7; U6; U5; U4; U3; U2; U1; U0] =>
      let T := if inv then SubBytes_pre_inv U0 U1 U2 U3 U4 U5 U6 U7
               else SubBytes_pre U0 U1 U2 U3 U4 U5 U6 U7 in
      let M := SubBytes_nonlinear T in
      if inv then SubBytes_post_inv M else SubBytes_post M
  | _ => sl
  end.
End Circuit.
Arguments sub_top : clear implicits.
Arguments sub_mid : clear implicits.

Definition SubBytes (s : AES_state) (inv : bool) : AES_state :=
  mkState (SubBytes_slices inv (slice s)).

(** ** Row and column operations *)

Definition BIT_RANGE (from to : Z) : Z := ((1 << (to - from)) - 1) << from.
Definition BIT_RANGE_LEFT (x from to shift : Z) : Z := (x & BIT_RANGE from to) << shift.
Definition BIT_RANGE_RIGHT (x from to shift : Z) : Z := (x & BIT_RANGE from to) >> shift.

Definition ShiftRows (s : AES_state) : AES_state :=
  mkState ((fun v => u16
    ((v & BIT_RANGE 0 4) .|
     BIT_RANGE_LEFT v 4 5 3 .| BIT_RANGE_RIGHT v 5 8 1 .|
     BIT_RANGE_LEFT v 8 10 2 .| BIT_RANGE_RIGHT v 10 12 2 .|
     BIT_RANGE_LEFT v 12 15 1 .| BIT_RANGE_RIGHT v 15 16 3)) <$> slice s).

Definition InvShiftRows (s : AES_state) : AES_state :=
  mkState ((fun v => u16
    ((v & BIT_RANGE 0 4) .|
     BIT_RANGE_LEFT v 4 7 1 .| BIT_RANGE_RIGHT v 7 8 3 .|
     BIT_RANGE_LEFT v 8 10 2 .| BIT_RANGE_RIGHT v 10 12 2 .|
     BIT_RANGE_LEFT v 12 13 3 .| BIT_RANGE_RIGHT v 13 16 1)) <$> slice s).

Definition ROT (x b : Z) : Z := (x >> (b * 4)) .| (x << ((4 - b) * 4)).

(** The forward half: multiplication by a(x). *)
Definition MixColumns_fwd (s : AES_state) : AES_state :=
  match slice s with
  | [s0; s1; s2; s3; s4; s5; s6; s7] =>
      let s0_01 := u16 (s0 ^^ ROT s0 1) in let s0_123 := u16 (ROT s0_01 1 ^^ ROT s0 3) in
      let s1_01 := u16 (s1 ^^ ROT s1 1) in let s1_123 := u16 (ROT s1_01 1 ^^ ROT s1 3) in
      let s2_01 := u16 (s2 ^^ ROT s2 1) in let s2_123 := u16 (ROT s2_01 1 ^^ ROT s2 3) in
      let s3_01 := u16 (s3 ^^ ROT s3 1) in let s3_123 := u16 (ROT s3_01 1 ^^ ROT s3 3) in
      let s4_01 := u16 (s4 ^^ ROT s4 1) in let s4_123 := u16 (ROT s4_01 1 ^^ ROT s4 3) in
      let s5_01 := u16 (s5 ^^ ROT s5 1) in let s5_123 := u16 (ROT s5_01 1 ^^ ROT s5 3) in
      let s6_01 := u16 (s6 ^^ ROT s6 1) in let s6_123 := u16 (ROT s6_01 1 ^^ ROT s6 3) in
      let s7_01 := u16 (s7 ^^ ROT s7 1) in let s7_123 := u16 (ROT s7_01 1 ^^ ROT s7 3) in
      mkState
        [ s7_01 ^^ s0_123;
          s7_01 ^^ s0_01 ^^ s1_123;
          s1_01 ^^ s2_123;
          s7_01 ^^ s2_01 ^^ s3_123;
          s7_01 ^^ s3_01 ^^ s4_123;
          s4_01 ^^ s5_123;
          s5_01 ^^ s6_123;
          s6_01 ^^ s7_123 ]
  | _ => s
  end.

(** The extra multiplication by {04}x^2 + {05} of the reverse direction. *)
Definition MixColumns_inv_tail (s : AES_state) : AES_state :=
  match slice s with
  | [s0; s1; s2; s3; s4; s5; s6; s7] =>
      let t0_02 := u16 (s0 ^^ ROT s0 2) in
      let t1_02 := u16 (s1 ^^ ROT s1 2) in
      let t2_02 := u16 (s2 ^^ ROT s2 2) in
      let t3_02 := u16 (s3 ^^ ROT s3 2) in
      let t4_02 := u16 (s4 ^^ ROT s4 2) in
      let t5_02 := u16 (s5 ^^ ROT s5 2) in
      let t6_02 := u16 (s6 ^^ ROT s6 2) in
      let t7_02 := u16 (s7 ^^ ROT s7 2) in
      mkState
        [ s0 ^^ t6_02;
          s1 ^^ (t6_02 ^^ t7_02);
          s2 ^^ (t0_02 ^^ t7_02);
          s3 ^^ (t1_02 ^^ t6_02);
          s4 ^^ (t2_02 ^^ t6_02 ^^ t7_02);
          s5 ^^ (t3_02 ^^ t7_02);
          s6 ^^ t4_02;
          s7 ^^ t5_02 ]
  | _ => s
  end.

Definition MixColumns (s : AES_state) (inv : bool) : AES_state :=
  let s := MixColumns_fwd s in
  if inv then MixColumns_inv_tail s else s.

Definition AddRoundKey (s round : AES_state) : AES_state :=
  mkState (zip_with Z.lxor (slice s) (slice round)).

(** ** Key setup *)

Definition GetOneColumn (a : AES_state) (c : nat) : AES_state :=
  mkState ((fun v => (v >> Z.of_nat c) & 0x1111) <$> slice a).

(** Returns the new [s] and the new [r]. *)
Definition KeySetupColumnMix (s r a : AES_state) (c1 c2 : nat) : AES_state * AES_state :=
  let s' := zip_with (fun v w => v ^^ ((w >> Z.of_nat c2) & 0x1111)) (slice s) (slice a) in
  let r' := zip_with (fun v w => u16 (v .| ((w & 0x1111) << Z.of_nat c1))) (slice r) s' in
  (mkState s', mkState r').

Definition KeySetupTransform (s r : AES_state) : AES_state :=
  mkState (zip_with (fun v w => u16 (((v >> 4) .| (v << 12)) ^^ w)) (slice s) (slice r)).

Definition MultX (s : AES_state) : AES_state :=
  match slice s with
  | [s0; s1; s2; s3; s4; s5; s6; top] =>
      mkState [top; s0 ^^ top; s1; s2 ^^ top; s3 ^^ top; s4; s5; s6]
  | _ => s
  end.

(** The loop variables of [AES_setup]. *)
Record setup_state := mkSetup {
  ks_rounds : list AES_state;
  ks_column : AES_state;
  ks_rcon : AES_state;
  ks_pos : nat;
}.

(** One iteration of the word-generating loop. *)
Definition AES_setup_step (nkeywords : nat) (st : setup_state) (i : nat) : setup_state :=
  let '(mkSetup rounds column rcon pos) := st in
  let '(column, rcon) :=
    if decide (pos = 0)%nat then
      (KeySetupTransform (SubBytes column false) rcon, MultX rcon)
    else if decide (6 < nkeywords /\ pos = 4)%nat then (SubBytes column false, rcon)
    else (column, rcon) in
  let pos := if decide (S pos = nkeywords) then 0%nat else S pos in
  let '(column, r) :=
    KeySetupColumnMix column (rounds !!! (i / 4)%nat) (rounds !!! ((i - nkeywords) / 4)%nat)
      (i mod 4)%nat ((i - nkeywords) mod 4)%nat in
  mkSetup (<[(i / 4)%nat := r]> rounds) column rcon pos.

(** The first [nkeywords] columns, straight from the key. *)
Definition AES_setup_load (key : list Z) (nkeywords : nat) (rounds : list AES_state)
  : list AES_state :=
  fst (for_loop nkeywords (fun i st =>
    for_loop 4 (fun r '(rounds, key) =>
      (alter (fun s => LoadByte s (hd 0 key) r (i mod 4)%nat) (i / 4)%nat rounds, tail key)) st)
    (rounds, key)).

Definition AES_setup (key : list Z) (nkeywords nrounds : nat) : list AES_state :=
  let rcon := mkState [1; 0; 0; 0; 0; 0; 0; 0] in
  let rounds := replicate (nrounds + 1) zero_state in
  let rounds := AES_setup_load key nkeywords rounds in
  let column := GetOneColumn (rounds !!! ((nkeywords - 1) / 4)%nat) ((nkeywords - 1) mod 4)%nat in
  ks_rounds (foldl (AES_setup_step nkeywords) (mkSetup rounds column rcon 0)
                   (seq nkeywords (4 * (nrounds + 1) - nkeywords))).

(** ** Block encryption and decryption *)

Definition AES_encrypt (rounds : list AES_state) (nrounds : nat) (plain16 : list Z) : list Z :=
  let s := LoadBytes zero_state plain16 in
  let s := AddRoundKey s (rounds !!! 0%nat) in
  let s := foldl (fun s round =>
             let s := SubBytes s false in
             let s := ShiftRows s in
             let s := MixColumns s false in
             AddRoundKey s (rounds !!! round)) s (seq 1 (nrounds - 1)) in
  let s := SubBytes s false in
  let s := ShiftRows s in
  let s := AddRoundKey s (rounds !!! nrounds) in
  SaveBytes s.

(** [rounds] starts at [nrounds] and is decremented on every use. *)
Definition AES_decrypt (rounds : list AES_state) (nrounds : nat) (cipher16 : list Z) : list Z :=
  let s := LoadBytes zero_state cipher16 in
  let s := AddRoundKey s (rounds !!! nrounds) in
  let s := foldl (fun s round =>
             let s := InvShiftRows s in
             let s := SubBytes s true in
             let s := AddRoundKey s (rounds !!! (nrounds - round)%nat) in
             MixColumns s true) s (seq 1 (nrounds - 1)) in
  let s := InvShiftRows s in
  let s := SubBytes s true in
  let s := AddRoundKey s (rounds !!! 0%nat) in
  SaveBytes s.

(** [while (blocks--) { f(...); cipher16 += 16; plain16 += 16; }] *)
Fixpoint each_block (f : list Z -> list Z) (blocks : nat) (inp : list Z) : list Z :=
  match blocks with
  | O => []
  | S blocks => f (take 16 inp) ++ each_block f blocks (drop 16 inp)
  end.

(** ** The public interface *)

Record AES128_ctx := mkAES128 { rk128 : list AES_state }.
Record AES192_ctx := mkAES192 { rk192 : list AES_state }.
Record AES256_ctx := mkAES256 { rk256 : list AES_state }.

Definition AES128_init (key16 : list Z) : AES128_ctx := mkAES128 (AES_setup key16 4 10).
Definition AES128_encrypt (ctx : AES128_ctx) (blocks : nat) (plain16 : list Z) : list Z :=
  each_block (AES_encrypt (rk128 ctx) 10) blocks plain16.
Definition AES128_decrypt (ctx : AES128_ctx) (blocks : nat) (cipher16 : list Z) : list Z :=
  each_block (AES_decrypt (rk128 ctx) 10) blocks cipher16.

Definition AES192_init (key24 : list Z) : AES192_ctx := mkAES192 (AES_setup key24 6 12).
Definition AES192_encrypt (ctx : AES192_ctx) (blocks : nat) (plain16 : list Z) : list Z :=
  each_block (AES_encrypt (rk192 ctx) 12) blocks plain16.
Definition AES192_decrypt (ctx : AES192_ctx) (blocks : nat) (cipher16 : list Z) : list Z :=
  each_block (AES_decrypt (rk192 ctx) 12) blocks cipher16.

Definition AES256_init (key32 : list Z) : AES256_ctx := mkAES256 (AES_setup key32 8 14).
Definition AES256_encrypt (ctx : AES256_ctx) (blocks : nat) (plain16 : list Z) : list Z :=
  each_block (AES_encrypt (rk256 ctx) 14) blocks plain16.
Definition AES256_decrypt (ctx : AES256_ctx) (blocks : nat) (cipher16 : list Z) : list Z :=
  each_block (AES_decrypt (rk256 ctx) 14) blocks cipher16.
