(* ===== verification/CtaesLanes.v ===== *)
(** * Bit lanes of the bit-sliced AES state

    Lane [k] of a state is the byte stored at bit position [k] of the eight
    slices.  This file shows what each ctaes.c operation does to the lanes: the
    S-box circuit acts on every lane separately and computes the FIPS-197 S-box,
    the row operations permute lanes, the column operations combine the four
    lanes of a column. *)

From S2P Require Import Prelude AesSpec Ctaes.
From Stdlib Require Import Btauto.
#[local] Open Scope Z_scope.

(** ** Lanes and cells *)

Definition lane (s : AES_state) (k : Z) : list bool :=
  (fun v => Z.testbit v k) <$> slice s.

(** The byte held in lane [k]. *)
Definition cell (s : AES_state) (k : Z) : Z := bits_byte (lane s k).

(** The lanes in the order of the byte array: column by column. *)
Definition lane_order : list Z := c ← seqZ 0 4; r ← seqZ 0 4; [4 * r + c].

Definition cells (s : AES_state) : list Z := cell s <$> lane_order.

Definition is_byte (b : Z) : Prop := fits 8 b.

(** ** Bytes as eight bits *)

Lemma fits_8_In b : is_byte b -> In b (seqZ 0 256).
Proof.
  unfold is_byte, fits; intros. apply list_elem_of_In, elem_of_seqZ. lia.
Qed.

(** A decidable statement about every byte is proved by evaluation. *)
Lemma byte_forall (P : Z -> bool) :
  forallb P (seqZ 0 256) = true -> forall b, is_byte b -> P b = true.
Proof. intros H b Hb. rewrite forallb_forall in H. by apply H, fits_8_In. Qed.

Lemma length_byte_bits b : length (byte_bits b) = 8%nat.
Proof. done. Qed.

Lemma bits_byte_bits b : is_byte b -> bits_byte (byte_bits b) = b.
Proof.
  intros Hb. apply Z.eqb_eq.
  apply (byte_forall (fun b => bits_byte (byte_bits b) =? b)); [by vm_compute | done].
Qed.

Ltac destruct_list8 l :=
  destruct l as [|? [|? [|? [|? [|? [|? [|? [|? [|]]]]]]]]]; try done.

Lemma byte_bits_byte l : length l = 8%nat -> byte_bits (bits_byte l) = l.
Proof. intros. destruct_list8 l. repeat match goal with b : bool |- _ => destruct b end; done. Qed.

Lemma bits_byte_fits l : length l = 8%nat -> is_byte (bits_byte l).
Proof.
  intros. destruct_list8 l. unfold is_byte, fits.
  repeat match goal with b : bool |- _ => destruct b end; cbn; lia.
Qed.

(** A function on bytes given by a function on bit lists, checked on all bytes. *)
Lemma byte_fun_bits (f : Z -> Z) (g : list bool -> list bool) :
  forallb (fun b => f b =? bits_byte (g (byte_bits b))) (seqZ 0 256) = true ->
  forall l, length l = 8%nat -> f (bits_byte l) = bits_byte (g l).
Proof.
  intros H l Hl. apply Z.eqb_eq.
  rewrite <- (byte_bits_byte l Hl) at 2.
  apply (byte_forall _ H), bits_byte_fits, Hl.
Qed.

Lemma lxor_bits_byte l l' :
  length l = 8%nat -> length l' = 8%nat ->
  bits_byte l ^^ bits_byte l' = bits_byte (zip_with xorb l l').
Proof.
  intros. destruct_list8 l. destruct_list8 l'.
  apply (fits_bits_ext 8).
  - apply lxor_fits; [lia | by apply bits_byte_fits | by apply bits_byte_fits].
  - by apply bits_byte_fits.
  - intros i Hi. rewrite Z.lxor_spec.
    assert (forall m, length m = 8%nat ->
              Z.testbit (bits_byte m) i = nth (Z.to_nat i) m false) as Hbit.
    { intros m Hm. rewrite <- (byte_bits_byte m Hm) at 2.
      unfold byte_bits. rewrite <- (Z2Nat.id i) at 1 by lia.
      assert (Z.to_nat i < 8)%nat by lia.
      destruct_list8 m. generalize dependent (Z.to_nat i). intros n Hn.
      do 8 (destruct n as [|n]; [done |]). lia. }
    rewrite !Hbit by done.
    assert (Z.to_nat i < 8)%nat by lia. generalize dependent (Z.to_nat i). intros n Hn.
    do 8 (destruct n as [|n]; [done |]). lia.
Qed.

(** ** Well-formed states are determined by their lanes *)

Lemma length_lane s k : state_wf s -> length (lane s k) = 8%nat.
Proof. intros [H _]. unfold lane. by rewrite length_fmap. Qed.

Lemma cell_byte s k : state_wf s -> is_byte (cell s k).
Proof. intros. by apply bits_byte_fits, length_lane. Qed.

Lemma state_ext s t :
  state_wf s -> state_wf t -> (forall k, 0 <= k < 16 -> lane s k = lane t k) -> s = t.
Proof.
  destruct s as [s], t as [t]. intros [Hls Hs] [Hlt Ht] Heq. f_equal.
  unfold lane in Heq; simpl in *.
  apply list_eq_same_length with 8%nat; [done.. |].
  intros i x y Hi Hx Hy. apply (fits_bits_ext 16).
  - by eapply (Forall_lookup_1 _ s).
  - by eapply (Forall_lookup_1 _ t).
  - intros k Hk. specialize (Heq k Hk).
    apply (f_equal (fun l => l !! i)) in Heq.
    rewrite !list_lookup_fmap, Hx, Hy in Heq. by injection Heq.
Qed.

(** ** The S-box circuit, lane by lane

    The circuit is parametric in its gates: related inputs give related outputs. *)

Section Parametricity.
Context {A B : Type} `{!Gates A, !Gates B} (rel : A -> B -> Prop).
Hypothesis rel_xor : forall a b a' b', rel a a' -> rel b b' -> rel (gxor a b) (gxor a' b').
Hypothesis rel_and : forall a b a' b', rel a a' -> rel b b' -> rel (gand a b) (gand a' b').
Hypothesis rel_or : forall a b a' b', rel a a' -> rel b b' -> rel (gor a b) (gor a' b').
Hypothesis rel_not : forall a a', rel a a' -> rel (gnot a) (gnot a').

Inductive top_rel : sub_top A -> sub_top B -> Prop :=
| top_rel_intro T1 T2 T3 T4 T6 T8 T9 T10 T13 T14 T15 T16 T17 T19 T20 T22 T23 T24 T25 T26 T27 D
    T1' T2' T3' T4' T6' T8' T9' T10' T13' T14' T15' T16' T17' T19' T20' T22' T23' T24' T25'
    T26' T27' D' :
    rel T1 T1' -> rel T2 T2' -> rel T3 T3' -> rel T4 T4' -> rel T6 T6' -> rel T8 T8' ->
    rel T9 T9' -> rel T10 T10' -> rel T13 T13' -> rel T14 T14' -> rel T15 T15' ->
    rel T16 T16' -> rel T17 T17' -> rel T19 T19' -> rel T20 T20' -> rel T22 T22' ->
    rel T23 T23' -> rel T24 T24' -> rel T25 T25' -> rel T26 T26' -> rel T27 T27' -> rel D D' ->
    top_rel (SubTop T1 T2 T3 T4 T6 T8 T9 T10 T13 T14 T15 T16 T17 T19 T20 T22 T23 T24 T25 T26 T27 D)
      (SubTop T1' T2' T3' T4' T6' T8' T9' T10' T13' T14' T15' T16' T17' T19' T20' T22' T23' T24'
         T25' T26' T27' D').

Inductive mid_rel : sub_mid A -> sub_mid B -> Prop :=
| mid_rel_intro M46 M47 M48 M49 M50 M51 M52 M53 M54 M55 M56 M57 M58 M59 M60 M61 M62 M63
    M46' M47' M48' M49' M50' M51' M52' M53' M54' M55' M56' M57' M58' M59' M60' M61' M62' M63' :
    rel M46 M46' -> rel M47 M47' -> rel M48 M48' -> rel M49 M49' -> rel M50 M50' ->
    rel M51 M51' -> rel M52 M52' -> rel M53 M53' -> rel M54 M54' -> rel M55 M55' ->
    rel M56 M56' -> rel M57 M57' -> rel M58 M58' -> rel M59 M59' -> rel M60 M60' ->
    rel M61 M61' -> rel M62 M62' -> rel M63 M63' ->
    mid_rel (SubMid M46 M47 M48 M49 M50 M51 M52 M53 M54 M55 M56 M57 M58 M59 M60 M61 M62 M63)
      (SubMid M46' M47' M48' M49' M50' M51' M52' M53' M54' M55' M56' M57' M58' M59' M60' M61'
         M62' M63').

Lemma let_rel {C D : Type} (R : C -> D -> Prop) e e' (b : A -> C) (b' : B -> D) :
  rel e e' -> (forall x y, rel x y -> R (b x) (b' y)) ->
  R (let x := e in b x) (let y := e' in b' y).
Proof. intros He Hb. exact (Hb _ _ He). Qed.

(** Walk down two parallel chains of [let]s. *)
Ltac gate := repeat first [assumption | apply rel_xor | apply rel_and | apply rel_or | apply rel_not].
Ltac gates :=
  repeat match goal with
  | |- ?R (let x := ?e in @?b x) (let y := ?e' in @?b' y) =>
      apply (let_rel R e e' b b'); [gate | intros ? ? ?; cbv beta]
  end.

Lemma SubBytes_pre_rel U0 U1 U2 U3 U4 U5 U6 U7 U0' U1' U2' U3' U4' U5' U6' U7' :
  rel U0 U0' -> rel U1 U1' -> rel U2 U2' -> rel U3 U3' ->
  rel U4 U4' -> rel U5 U5' -> rel U6 U6' -> rel U7 U7' ->
  top_rel (SubBytes_pre U0 U1 U2 U3 U4 U5 U6 U7) (SubBytes_pre U0' U1' U2' U3' U4' U5' U6' U7').
Proof. intros. cbv beta iota delta [SubBytes_pre]. gates. constructor; assumption. Qed.

Lemma SubBytes_pre_inv_rel U0 U1 U2 U3 U4 U5 U6 U7 U0' U1' U2' U3' U4' U5' U6' U7' :
  rel U0 U0' -> rel U1 U1' -> rel U2 U2' -> rel U3 U3' ->
  rel U4 U4' -> rel U5 U5' -> rel U6 U6' -> rel U7 U7' ->
  top_rel (SubBytes_pre_inv U0 U1 U2 U3 U4 U5 U6 U7)
    (SubBytes_pre_inv U0' U1' U2' U3' U4' U5' U6' U7').
Proof. intros. cbv beta iota delta [SubBytes_pre_inv]. gates. constructor; assumption. Qed.

Lemma SubBytes_nonlinear_rel T T' :
  top_rel T T' -> mid_rel (SubBytes_nonlinear T) (SubBytes_nonlinear T').
Proof. intros []. cbv beta iota delta [SubBytes_nonlinear]. gates. constructor; assumption. Qed.

Lemma SubBytes_post_rel M M' :
  mid_rel M M' -> Forall2 rel (SubBytes_post M) (SubBytes_post M').
Proof. intros []. cbv beta iota delta [SubBytes_post]. gates. repeat constructor; gate. Qed.

Lemma SubBytes_post_inv_rel M M' :
  mid_rel M M' -> Forall2 rel (SubBytes_post_inv M) (SubBytes_post_inv M').
Proof. intros []. cbv beta iota delta [SubBytes_post_inv]. gates. repeat constructor; gate. Qed.

Lemma SubBytes_slices_rel inv l l' :
  Forall2 rel l l' -> Forall2 rel (SubBytes_slices inv l) (SubBytes_slices inv l').
Proof.
  intros H. assert (length l = length l') as Hlen by (by eapply Forall2_length).
  destruct l as [|? [|? [|? [|? [|? [|? [|? [|? [|]]]]]]]]];
  destruct l' as [|? [|? [|? [|? [|? [|? [|? [|? [|]]]]]]]]]; try discriminate Hlen; try exact H.
  repeat match goal with H : Forall2 _ (_ :: _) _ |- _ => inversion_clear H end.
  unfold SubBytes_slices. destruct inv; cbv zeta.
  - by apply SubBytes_post_inv_rel, SubBytes_nonlinear_rel, SubBytes_pre_inv_rel.
  - by apply SubBytes_post_rel, SubBytes_nonlinear_rel, SubBytes_pre_rel.
Qed.
End Parametricity.

Lemma Forall2_fmap_r_iff {A B} (f : A -> B) l l' :
  Forall2 (fun x y => f x = y) l l' -> f <$> l = l'.
Proof. induction 1 as [|x y l l' <- _ <-]; done. Qed.

Lemma SubBytes_lane s inv k :
  0 <= k < 16 -> lane (SubBytes s inv) k = SubBytes_slices inv (lane s k).
Proof.
  intros Hk. apply Forall2_fmap_r_iff. unfold SubBytes; simpl.
  apply SubBytes_slices_rel; unfold gxor, gand, gor, gnot; simpl.
  - intros ? ? ? ? <- <-. apply Z.lxor_spec.
  - intros ? ? ? ? <- <-. apply Z.land_spec.
  - intros ? ? ? ? <- <-. apply Z.lor_spec.
  - intros ? ? <-. rewrite wrap_testbit, Z.lnot_spec by lia.
    destruct (Z.ltb_spec k 16); [done | lia].
  - unfold lane. apply Forall2_fmap_r, Forall_Forall2_diag, Forall_true. done.
Qed.

Lemma SubBytes_wf s inv : state_wf s -> state_wf (SubBytes s inv).
Proof.
  intros [Hlen Hfits]. unfold state_wf, SubBytes; simpl.
  assert (Forall2 (fun x y => x = y /\ fits 16 x) (SubBytes_slices inv (slice s))
            (SubBytes_slices inv (slice s))) as H.
  { apply SubBytes_slices_rel; unfold gxor, gand, gor, gnot; simpl.
    - intros ? ? ? ? [<- ?] [<- ?]. split; [done | solve_fits].
    - intros ? ? ? ? [<- ?] [<- ?]. split; [done | solve_fits].
    - intros ? ? ? ? [<- ?] [<- ?]. split; [done | solve_fits].
    - intros ? ? [<- ?]. split; [done | solve_fits].
    - apply Forall_Forall2_diag. eapply Forall_impl; [done |]. done. }
  split.
  - destruct (slice s) as [|? [|? [|? [|? [|? [|? [|? [|? [|]]]]]]]]]; try done.
    unfold SubBytes_slices. destruct inv.
    + by destruct (SubBytes_nonlinear _).
    + by destruct (SubBytes_nonlinear _).
  - rewrite Forall2_same_length_lookup in H.
    apply Forall_lookup. intros i x Hx. by eapply H.
Qed.

(** On one lane the circuit is the FIPS-197 S-box (its inverse for [inv]). *)
Lemma SubBytes_circuit_sbox (inv : bool) (l : list bool) :
  length l = 8%nat ->
  (if inv then inv_sbox else sbox) (bits_byte l) = bits_byte (SubBytes_slices inv l).
Proof.
  intros. destruct inv.
  - apply (byte_fun_bits inv_sbox (SubBytes_slices true)); [by vm_compute | done].
  - apply (byte_fun_bits sbox (SubBytes_slices false)); [by vm_compute | done].
Qed.

Lemma SubBytes_cell s (inv : bool) k :
  state_wf s -> 0 <= k < 16 ->
  cell (SubBytes s inv) k = (if inv then inv_sbox else sbox) (cell s k).
Proof.
  intros. unfold cell. rewrite SubBytes_lane by done.
  symmetry. apply SubBytes_circuit_sbox. by apply length_lane.
Qed.

(** ** Row operations permute the lanes *)

Ltac destruct_lane k Hk :=
  let H := fresh in
  assert (k = 0 \/ k = 1 \/ k = 2 \/ k = 3 \/ k = 4 \/ k = 5 \/ k = 6 \/ k = 7 \/ k = 8 \/
          k = 9 \/ k = 10 \/ k = 11 \/ k = 12 \/ k = 13 \/ k = 14 \/ k = 15) as H by lia;
  clear Hk; repeat destruct H as [-> | H]; try subst k.

(** A slice-wise map that reads bit [p k] of the slice into bit [k]. *)
Lemma lane_fmap (f : Z -> Z) (p : Z -> Z) s k :
  (forall v, Z.testbit (f v) k = Z.testbit v (p k)) ->
  lane (mkState (f <$> slice s)) k = lane s (p k).
Proof.
  intros Hf. unfold lane; simpl. rewrite <- list_fmap_compose.
  apply list_fmap_ext. intros; simpl. apply Hf.
Qed.

Lemma wf_fmap (f : Z -> Z) s :
  (forall v, fits 16 v -> fits 16 (f v)) -> state_wf s -> state_wf (mkState (f <$> slice s)).
Proof.
  intros Hf [Hl Hs]. split; simpl; [by rewrite length_fmap |].
  apply Forall_fmap. eapply Forall_impl; [done |]. done.
Qed.

Definition row (k : Z) : Z := k / 4.
Definition col (k : Z) : Z := k mod 4.

Ltac lane_bits :=
  unfold BIT_RANGE_LEFT, BIT_RANGE_RIGHT;
  rewrite ?wrap_testbit, ?Z.lor_spec by lia;
  rewrite ?Z.shiftl_spec, ?Z.shiftr_spec by lia;
  rewrite ?Z.land_spec;
  repeat match goal with
  | |- context [Z.testbit ?v (?a - ?b)] =>
      let c := eval compute in (a - b) in change (a - b) with c
  | |- context [Z.testbit ?v (?a + ?b)] =>
      let c := eval compute in (a + b) in change (a + b) with c
  | |- context [Z.testbit (BIT_RANGE ?f ?t) ?i] =>
      let c := eval compute in (Z.testbit (BIT_RANGE f t) i) in
      change (Z.testbit (BIT_RANGE f t) i) with c
  end;
  rewrite ?andb_false_r, ?andb_true_r, ?orb_false_r, ?orb_false_l; simpl.

Lemma ShiftRows_lane s k :
  0 <= k < 16 -> lane (ShiftRows s) k = lane s (4 * row k + (col k + row k) mod 4).
Proof.
  intros Hk. apply (lane_fmap _ (fun k => 4 * row k + (col k + row k) mod 4)). intros v.
  destruct_lane k Hk; lane_bits; reflexivity.
Qed.

Lemma InvShiftRows_lane s k :
  0 <= k < 16 -> lane (InvShiftRows s) k = lane s (4 * row k + (col k - row k) mod 4).
Proof.
  intros Hk. apply (lane_fmap _ (fun k => 4 * row k + (col k - row k) mod 4)). intros v.
  destruct_lane k Hk; lane_bits; reflexivity.
Qed.

Lemma ShiftRows_wf s : state_wf s -> state_wf (ShiftRows s).
Proof. apply wf_fmap. intros; solve_fits. Qed.
Lemma InvShiftRows_wf s : state_wf s -> state_wf (InvShiftRows s).
Proof. apply wf_fmap. intros; solve_fits. Qed.

(** ** Column operations combine the lanes of a column *)

(** Bitwise addition and multiplication by x, on the eight bits of a lane. *)
Abbreviation badd := (zip_with xorb).
Definition bxt (l : list bool) : list bool :=
  match l with
  | [a0; a1; a2; a3; a4; a5; a6; a7] =>
      [a7; xorb a0 a7; a1; xorb a2 a7; xorb a3 a7; a4; a5; a6]
  | _ => l
  end.

(** Rotation by [b] nibbles: bit [k] comes from the lane [b] rows below. *)
Definition down (k b : Z) : Z := (k + 4 * b) mod 16.

Lemma ROT_testbit x b k :
  fits 16 x -> 0 <= k < 16 -> 0 < b < 4 -> Z.testbit (ROT x b) k = Z.testbit x (down k b).
Proof.
  intros Hx Hk Hb. unfold ROT, down. rewrite Z.lor_spec, Z.shiftr_spec, Z.shiftl_spec by lia.
  destruct (Z.ltb_spec (k + b * 4) 16).
  - rewrite (Z.testbit_neg_r _ (k - _)), orb_false_r by lia. f_equal.
    rewrite Z.mod_small; lia.
  - rewrite (fits_testbit 16 x (k + b * 4)), orb_false_l by (done || lia). f_equal.
    replace (k + 4 * b) with (k - (4 - b) * 4 + 1 * 16) by lia.
    rewrite Z.mod_add by lia. rewrite Z.mod_small; lia.
Qed.

Lemma down_range k b : 0 <= down k b < 16.
Proof. apply Z.mod_pos_bound. lia. Qed.

Lemma down_down k a b : down (down k a) b = down k (a + b).
Proof. unfold down. rewrite Zplus_mod_idemp_l. f_equal. lia. Qed.

Lemma ROT_wrap_testbit x b k :
  0 <= k < 16 -> 0 < b < 4 -> Z.testbit (ROT (u16 x) b) k = Z.testbit x (down k b).
Proof.
  intros. pose proof (down_range k b). rewrite ROT_testbit by (done || by apply wrap_fits).
  rewrite wrap_testbit by lia. destruct (Z.ltb_spec (down k b) 16); [done | lia].
Qed.

Lemma u16_testbit x k : 0 <= k < 16 -> Z.testbit (u16 x) k = Z.testbit x k.
Proof. intros. rewrite wrap_testbit by lia. destruct (Z.ltb_spec k 16); [done | lia]. Qed.

Ltac destruct_slices s H :=
  let sl := fresh "sl" in let Hlen := fresh "Hlen" in let Hfits := fresh "Hfits" in
  destruct s as [sl]; destruct H as [Hlen Hfits]; simpl in Hlen, Hfits;
  destruct sl as [|? [|? [|? [|? [|? [|? [|? [|? [|]]]]]]]]]; try discriminate Hlen;
  forall_split.

Ltac lane_side := first [assumption | lia | apply down_range].
Ltac mix_bits :=
  repeat first
    [ rewrite Z.lxor_spec | rewrite u16_testbit by lane_side | rewrite ROT_wrap_testbit by lane_side
    | rewrite ROT_testbit by lane_side | rewrite down_down; change (1 + 1) with 2 ].

Lemma MixColumns_fwd_lane s k :
  state_wf s -> 0 <= k < 16 ->
  lane (MixColumns_fwd s) k =
    badd (bxt (badd (lane s k) (lane s (down k 1))))
         (badd (lane s (down k 1)) (badd (lane s (down k 2)) (lane s (down k 3)))).
Proof.
  intros Hwf Hk. destruct_slices s Hwf. unfold lane, MixColumns_fwd; simpl slice.
  cbv zeta. cbn [slice fmap list_fmap zip_with bxt].
  repeat (apply (f_equal2 cons); [mix_bits; btauto |]). done.
Qed.

Lemma MixColumns_inv_tail_lane s k :
  state_wf s -> 0 <= k < 16 ->
  lane (MixColumns_inv_tail s) k =
    badd (lane s k) (bxt (bxt (badd (lane s k) (lane s (down k 2))))).
Proof.
  intros Hwf Hk. destruct_slices s Hwf. unfold lane, MixColumns_inv_tail; simpl slice.
  cbv zeta. cbn [slice fmap list_fmap zip_with bxt].
  repeat (apply (f_equal2 cons); [mix_bits; btauto |]). done.
Qed.

Lemma wf_8 v0 v1 v2 v3 v4 v5 v6 v7 :
  fits 16 v0 -> fits 16 v1 -> fits 16 v2 -> fits 16 v3 ->
  fits 16 v4 -> fits 16 v5 -> fits 16 v6 -> fits 16 v7 ->
  state_wf (mkState [v0; v1; v2; v3; v4; v5; v6; v7]).
Proof. intros. split; [done |]. simpl. repeat (apply List.Forall_cons; [done |]). apply List.Forall_nil. Qed.

Lemma MixColumns_fwd_wf s : state_wf s -> state_wf (MixColumns_fwd s).
Proof.
  intros Hwf. destruct_slices s Hwf. unfold MixColumns_fwd; simpl slice. cbv zeta.
  apply wf_8; solve_fits.
Qed.

Lemma MixColumns_inv_tail_wf s : state_wf s -> state_wf (MixColumns_inv_tail s).
Proof.
  intros Hwf. destruct_slices s Hwf. unfold MixColumns_inv_tail; simpl slice. cbv zeta.
  apply wf_8; solve_fits.
Qed.

Lemma MixColumns_wf s inv : state_wf s -> state_wf (MixColumns s inv).
Proof.
  intros. unfold MixColumns. destruct inv; auto using MixColumns_fwd_wf, MixColumns_inv_tail_wf.
Qed.
