(* ===== verification/CtaesRefine.v ===== *)
(** * The bit-sliced operations compute the FIPS-197 transformations

    [cells s], the sixteen bytes of a state in array order, is the abstraction
    function: each operation of [Ctaes] commutes with the corresponding operation
    of [AesSpec].  The file ends with the block functions for arbitrary round keys. *)

From S2P Require Import Prelude AesSpec Ctaes CtaesLanes.
From Stdlib Require Import Btauto.
#[local] Open Scope Z_scope.

Create HintDb aes discriminated.
#[export] Hint Resolve SubBytes_wf ShiftRows_wf InvShiftRows_wf MixColumns_wf : aes.

(** ** Multiplication by the MixColumns coefficients, on bits *)

Definition bmul (c : Z) (l : list bool) : list bool :=
  foldr (fun i acc => if Z.testbit c (Z.of_nat i) then badd (Nat.iter i bxt l) acc else acc)
    (replicate 8 false) (seq 0 4).

Lemma gmul_bmul c l :
  In c [1; 2; 3; 9; 0x0b; 0x0d; 0x0e] -> length l = 8%nat ->
  gmul c (bits_byte l) = bits_byte (bmul c l).
Proof.
  intros Hc Hl. apply byte_fun_bits; [| done].
  repeat destruct Hc as [<- | Hc]; try done; by vm_compute.
Qed.

Lemma length_badd l l' : length l = 8%nat -> length l' = 8%nat -> length (badd l l') = 8%nat.
Proof. intros H H'. rewrite length_zip_with, H, H'. done. Qed.

Lemma length_bxt l : length l = 8%nat -> length (bxt l) = 8%nat.
Proof. intros. destruct_list8 l. Qed.

Lemma length_bmul c l : length l = 8%nat -> length (bmul c l) = 8%nat.
Proof.
  intros Hl. unfold bmul. simpl.
  repeat case_match; auto 20 using length_badd, length_bxt.
Qed.

(** What the code computes for the byte below which lie [b], [c] and [d]. *)
Definition mix_fwd (a b c d : list bool) : list bool := badd (bxt (badd a b)) (badd b (badd c d)).
Definition mix_bwd (a b c d : list bool) : list bool :=
  badd (mix_fwd a b c d) (bxt (bxt (badd (mix_fwd a b c d) (mix_fwd c d a b)))).

Ltac column_bits A B C D :=
  destruct_list8 A; destruct_list8 B; destruct_list8 C; destruct_list8 D;
  cbn; repeat (apply (f_equal2 cons); [btauto |]); reflexivity.

Lemma mix_fwd_poly A B C D :
  length A = 8%nat -> length B = 8%nat -> length C = 8%nat -> length D = 8%nat ->
  mix_fwd A B C D = badd (bmul 2 A) (badd (bmul 3 B) (badd (bmul 1 C) (bmul 1 D))).
Proof. intros. column_bits A B C D. Qed.

Lemma mix_bwd_poly A B C D :
  length A = 8%nat -> length B = 8%nat -> length C = 8%nat -> length D = 8%nat ->
  mix_bwd A B C D = badd (bmul 0x0e A) (badd (bmul 0x0b B) (badd (bmul 0x0d C) (bmul 0x09 D))).
Proof. intros. column_bits A B C D. Qed.

(** Equality of exclusive-ors up to associativity and commutativity. *)
Ltac lxor_ac := apply Z.bits_inj'; intros; rewrite ?Z.lxor_spec, ?Z.testbit_0_l; btauto.

Lemma mul_column_coeffs p0 p1 p2 p3 a b c d :
  mul_column [p0; p1; p2; p3] [a; b; c; d] =
    [ gmul p0 a ^^ (gmul p1 b ^^ (gmul p2 c ^^ gmul p3 d));
      gmul p0 b ^^ (gmul p1 c ^^ (gmul p2 d ^^ gmul p3 a));
      gmul p0 c ^^ (gmul p1 d ^^ (gmul p2 a ^^ gmul p3 b));
      gmul p0 d ^^ (gmul p1 a ^^ (gmul p2 b ^^ gmul p3 c)) ].
Proof.
  unfold mul_column.
  cbn [seq fmap list_fmap nth foldr Nat.modulo Nat.divmod Nat.sub Nat.add fst snd].
  repeat (apply (f_equal2 cons); [lxor_ac |]). done.
Qed.

(** Solves the three conditions "the list has eight bits". *)
Ltac len8 := auto 12 using length_badd, length_bxt, length_bmul.

Lemma mul_column_bits p0 p1 p2 p3 f A B C D :
  (forall A B C D, length A = 8%nat -> length B = 8%nat -> length C = 8%nat -> length D = 8%nat ->
     f A B C D = badd (bmul p0 A) (badd (bmul p1 B) (badd (bmul p2 C) (bmul p3 D)))) ->
  Forall (fun p => In p [1; 2; 3; 9; 0x0b; 0x0d; 0x0e]) [p0; p1; p2; p3] ->
  length A = 8%nat -> length B = 8%nat -> length C = 8%nat -> length D = 8%nat ->
  mul_column [p0; p1; p2; p3] [bits_byte A; bits_byte B; bits_byte C; bits_byte D] =
    [bits_byte (f A B C D); bits_byte (f B C D A); bits_byte (f C D A B); bits_byte (f D A B C)].
Proof.
  intros Hf Hp HA HB HC HD. forall_split.
  rewrite mul_column_coeffs, !gmul_bmul, !lxor_bits_byte, !Hf by len8. done.
Qed.

(** ** Cells of the transformed states *)

Lemma cells_unfold s :
  cells s = [cell s 0; cell s 4; cell s 8; cell s 12; cell s 1; cell s 5; cell s 9; cell s 13;
             cell s 2; cell s 6; cell s 10; cell s 14; cell s 3; cell s 7; cell s 11; cell s 15].
Proof. done. Qed.

Lemma length_cells s : length (cells s) = 16%nat.
Proof. done. Qed.

Lemma cells_bytes s : state_wf s -> Forall is_byte (cells s).
Proof. intros. rewrite cells_unfold. repeat (apply List.Forall_cons; [by apply cell_byte |]). done. Qed.

Lemma SubBytes_cells s inv :
  state_wf s -> cells (SubBytes s inv) = (if inv then inv_sub_bytes else sub_bytes) (cells s).
Proof.
  intros. rewrite !cells_unfold, !SubBytes_cell by (done || lia). by destruct inv.
Qed.

Lemma ShiftRows_cells s : cells (ShiftRows s) = shift_rows (cells s).
Proof. rewrite !cells_unfold. unfold cell. rewrite !ShiftRows_lane by lia. done. Qed.

Lemma InvShiftRows_cells s : cells (InvShiftRows s) = inv_shift_rows (cells s).
Proof. rewrite !cells_unfold. unfold cell. rewrite !InvShiftRows_lane by lia. done. Qed.

Lemma MixColumns_fwd_cell s k :
  state_wf s -> 0 <= k < 16 ->
  cell (MixColumns s false) k =
    bits_byte (mix_fwd (lane s k) (lane s (down k 1)) (lane s (down k 2)) (lane s (down k 3))).
Proof. intros. unfold cell, MixColumns. by rewrite MixColumns_fwd_lane. Qed.

Lemma down_period k b : down k (b + 4) = down k b.
Proof. unfold down. replace (k + 4 * (b + 4)) with (k + 4 * b + 1 * 16) by lia. by rewrite Z.mod_add. Qed.

Lemma MixColumns_bwd_cell s k :
  state_wf s -> 0 <= k < 16 ->
  cell (MixColumns s true) k =
    bits_byte (mix_bwd (lane s k) (lane s (down k 1)) (lane s (down k 2)) (lane s (down k 3))).
Proof.
  intros. unfold cell, MixColumns.
  rewrite MixColumns_inv_tail_lane, !MixColumns_fwd_lane
    by (done || apply down_range || by apply MixColumns_fwd_wf).
  rewrite !down_down. unfold mix_bwd, mix_fwd.
  change (2 + 3) with (1 + 4). change (2 + 2) with (0 + 4). rewrite !down_period.
  by replace (down k 0) with k by (unfold down; rewrite Z.mod_small; lia).
Qed.

Lemma MixColumns_cells s inv :
  state_wf s ->
  cells (MixColumns s inv) = (if inv then inv_mix_columns else mix_columns) (cells s).
Proof.
  intros Hwf. rewrite !cells_unfold. destruct inv.
  - rewrite !MixColumns_bwd_cell by (done || lia). unfold inv_mix_columns, column, cell.
    cbn [seq mbind list_bind drop take Nat.mul Nat.add].
    rewrite !(mul_column_bits _ _ _ _ mix_bwd)
      by (apply mix_bwd_poly || by apply length_lane || (repeat constructor; simpl; tauto)).
    done.
  - rewrite !MixColumns_fwd_cell by (done || lia). unfold mix_columns, column, cell.
    cbn [seq mbind list_bind drop take Nat.mul Nat.add].
    rewrite !(mul_column_bits _ _ _ _ mix_fwd)
      by (apply mix_fwd_poly || by apply length_lane || (repeat constructor; simpl; tauto)).
    done.
Qed.

Lemma AddRoundKey_wf s r : state_wf s -> state_wf r -> state_wf (AddRoundKey s r).
Proof.
  intros Hs Hr. destruct_slices s Hs. destruct_slices r Hr. unfold AddRoundKey; simpl.
  apply wf_8; solve_fits.
Qed.
#[export] Hint Resolve AddRoundKey_wf : aes.

Lemma AddRoundKey_cell s r k :
  state_wf s -> state_wf r -> cell (AddRoundKey s r) k = cell s k ^^ cell r k.
Proof.
  intros Hs Hr. unfold cell. rewrite lxor_bits_byte by (by apply length_lane). f_equal.
  destruct_slices s Hs. destruct_slices r Hr.
  unfold lane, AddRoundKey; simpl. by rewrite !Z.lxor_spec.
Qed.

Lemma AddRoundKey_cells s r :
  state_wf s -> state_wf r -> cells (AddRoundKey s r) = xor_bytes (cells s) (cells r).
Proof. intros. rewrite !cells_unfold, !AddRoundKey_cell by done. done. Qed.

(** ** Loading and saving *)

Lemma land_1_b2z x : x & 1 = Z.b2z (Z.testbit x 0).
Proof. change 1 with (Z.ones 1). rewrite Z.land_ones by lia. by rewrite Z.bit0_mod. Qed.

(** One byte of [SaveBytes]. *)
Lemma save_byte (sl : list Z) (k : Z) :
  0 <= k ->
  for_loop 8 (fun b v => u8 (v .| (((nth b sl 0 >> k) & 1) << Z.of_nat b))) 0 =
    bits_byte ((fun b => Z.testbit (nth b sl 0) k) <$> seq 0 8).
Proof.
  intros. cbn [for_loop foldl seq fmap list_fmap].
  rewrite !land_1_b2z, !Z.shiftr_spec, !Z.add_0_l by lia.
  generalize (Z.testbit (nth 0 sl 0) k), (Z.testbit (nth 1 sl 0) k), (Z.testbit (nth 2 sl 0) k),
    (Z.testbit (nth 3 sl 0) k), (Z.testbit (nth 4 sl 0) k), (Z.testbit (nth 5 sl 0) k),
    (Z.testbit (nth 6 sl 0) k), (Z.testbit (nth 7 sl 0) k).
  intros [] [] [] [] [] [] [] []; reflexivity.
Qed.

Lemma SaveBytes_cells s : state_wf s -> SaveBytes s = cells s.
Proof.
  intros Hwf. rewrite cells_unfold. destruct_slices s Hwf. unfold cell, lane, SaveBytes.
  unfold for_loop at 1 2. cbn [foldl seq app]. rewrite !save_byte by lia. done.
Qed.

(** [LoadByte] ors the bits of the byte into lane [4r + c]. *)
Lemma shifted_bit_testbit x p k :
  0 <= p -> 0 <= k -> Z.testbit ((x & 1) << p) k = (k =? p) && Z.testbit x 0.
Proof.
  intros. rewrite Z.shiftl_spec, land_1_b2z by lia. destruct (Z.eqb_spec k p) as [-> | Hne].
  - rewrite Z.sub_diag. by destruct (Z.testbit x 0).
  - destruct (Z.ltb_spec k p).
    + rewrite Z.testbit_neg_r by lia. done.
    + destruct (Z.testbit x 0); [| by rewrite Z.testbit_0_l].
      apply Z.bits_above_log2; simpl; lia.
Qed.

Lemma LoadByte_unroll v0 v1 v2 v3 v4 v5 v6 v7 b r c :
  let ld v x := u16 (v .| ((x & 1) << Z.of_nat (r * 4 + c))) in
  let next x := u8 (x >> 1) in
  LoadByte (mkState [v0; v1; v2; v3; v4; v5; v6; v7]) b r c =
    mkState [ld v0 (Nat.iter 0 next b); ld v1 (Nat.iter 1 next b); ld v2 (Nat.iter 2 next b); ld v3 (Nat.iter 3 next b);
             ld v4 (Nat.iter 4 next b); ld v5 (Nat.iter 5 next b); ld v6 (Nat.iter 6 next b);
             ld v7 (Nat.iter 7 next b)].
Proof. done. Qed.

Lemma next_testbit n b :
  is_byte b -> Z.testbit (Nat.iter n (fun x => u8 (x >> 1)) b) 0 = Z.testbit b (Z.of_nat n).
Proof.
  intros Hb. assert (forall i, 0 <= i ->
    Z.testbit (Nat.iter n (fun x => u8 (x >> 1)) b) i = Z.testbit b (i + Z.of_nat n)) as H.
  { induction n as [|n IH]; intros i Hi; [simpl; f_equal; lia |].
    rewrite Nat.iter_succ, wrap_testbit, Z.shiftr_spec, IH by lia.
    destruct (Z.ltb_spec i 8); simpl; [f_equal; lia |].
    symmetry; apply (fits_testbit 8); [done | lia]. }
  rewrite H by lia. f_equal.
Qed.

Lemma LoadByte_wf s b r c : state_wf s -> state_wf (LoadByte s b r c).
Proof.
  intros Hs. destruct_slices s Hs. rewrite LoadByte_unroll. cbv zeta. apply wf_8; solve_fits.
Qed.
#[export] Hint Resolve LoadByte_wf : aes.

Lemma LoadByte_lane s b (r c : nat) k :
  state_wf s -> is_byte b -> 0 <= k < 16 ->
  lane (LoadByte s b r c) k =
    if decide (k = 4 * Z.of_nat r + Z.of_nat c)
    then zip_with orb (lane s k) (byte_bits b) else lane s k.
Proof.
  intros Hs Hb Hk. destruct_slices s Hs. rewrite LoadByte_unroll. cbv zeta.
  unfold lane, byte_bits. cbn [slice fmap list_fmap].
  rewrite !u16_testbit, !Z.lor_spec, !shifted_bit_testbit, !next_testbit by (done || lia).
  destruct (Z.eqb_spec k (Z.of_nat (r * 4 + c))); case_decide; try lia; [done |].
  by rewrite !orb_false_r.
Qed.

Lemma zero_state_wf : state_wf zero_state.
Proof. apply wf_8; solve_fits. Qed.
#[export] Hint Resolve zero_state_wf : aes.

Lemma zero_state_lane k : lane zero_state k = replicate 8 false.
Proof. unfold lane. simpl. by rewrite !Z.testbit_0_l. Qed.

Ltac destruct_list16 l :=
  destruct l as [|? [|? [|? [|? [|? [|? [|? [|? [|? [|? [|? [|? [|? [|? [|? [|? [|]]]]]]]]]]]]]]]]];
  try done.

(** The position in the byte array of the byte in lane [k], and the state after
    the first [n] bytes of [data] have been loaded. *)
Definition cell_index (k : Z) : nat := Z.to_nat (4 * col k + row k).

Definition loaded (s : AES_state) (n : nat) (data : list Z) : Prop :=
  state_wf s /\
  forall k, 0 <= k < 16 ->
    lane s k = if decide (cell_index k < n)%nat then byte_bits (nth (cell_index k) data 0)
               else replicate 8 false.

Lemma cell_index_spec k (r c : nat) :
  0 <= k < 16 -> (r < 4)%nat -> (c < 4)%nat ->
  cell_index k = (4 * c + r)%nat <-> k = 4 * Z.of_nat r + Z.of_nat c.
Proof. intros. unfold cell_index, col, row. Z.to_euclidean_division_equations. lia. Qed.

Lemma LoadByte_loaded s data (r c : nat) :
  (r < 4)%nat -> (c < 4)%nat -> is_byte (nth (4 * c + r) data 0) ->
  loaded s (4 * c + r) data ->
  loaded (LoadByte s (nth (4 * c + r) data 0) r c) (S (4 * c + r)) data.
Proof.
  intros Hr Hc Hb [Hwf Hl]. split; [auto with aes |]. intros k Hk.
  rewrite LoadByte_lane, Hl by done. pose proof (cell_index_spec k r c Hk Hr Hc) as Hidx.
  case_decide as Hk'.
  - apply Hidx in Hk'. rewrite Hk'. rewrite decide_False, decide_True by lia. done.
  - assert (cell_index k <> 4 * c + r)%nat by tauto. repeat case_decide; (done || lia).
Qed.

Lemma loaded_zero data : loaded zero_state 0 data.
Proof.
  split; [auto with aes |]. intros. rewrite decide_False by lia. apply zero_state_lane.
Qed.

Lemma nth_byte data n : Forall is_byte data -> is_byte (nth n data 0).
Proof.
  intros H. destruct (nth_in_or_default n data 0) as [Hin | ->].
  - by eapply List.Forall_forall.
  - unfold is_byte; solve_fits.
Qed.

Lemma LoadBytes_loaded data :
  Forall is_byte data -> loaded (LoadBytes zero_state data) 16 data.
Proof.
  intros Hb. unfold LoadBytes.
  enough (forall c, (c <= 4)%nat -> exists s,
    for_loop c (fun c st => for_loop 4 (fun r '(s, data16) =>
      (LoadByte s (hd 0 data16) r c, tail data16)) st) (zero_state, data)
    = (s, drop (4 * c) data) /\ loaded s (4 * c) data) as H.
  { destruct (H 4%nat) as (s & -> & Hs); [lia | done]. }
  induction c as [|c IH]; intros Hc; [exists zero_state; split; [done | apply loaded_zero] |].
  destruct IH as (s & Heq & Hs); [lia |]. rewrite for_loop_S, Heq.
  enough (forall r, (r <= 4)%nat -> exists s',
    for_loop r (fun r '(s, data16) => (LoadByte s (hd 0 data16) r c, tail data16))
      (s, drop (4 * c) data) = (s', drop (4 * c + r) data) /\ loaded s' (4 * c + r) data) as H.
  { replace (4 * S c)%nat with (4 * c + 4)%nat by lia. by apply H. }
  induction r as [|r IHr]; intros Hr; [exists s; by rewrite Nat.add_0_r |].
  destruct IHr as (s' & Heq' & Hs'); [lia |].
  rewrite for_loop_S, Heq', drop_nth_hd, tail_drop, Nat.add_succ_r.
  eexists; split; [done |]. apply LoadByte_loaded; (lia || done || by apply nth_byte).
Qed.

(** Loading sixteen bytes into the zero state makes them its cells. *)
Lemma loaded_cells s data :
  length data = 16%nat -> Forall is_byte data -> loaded s 16 data -> cells s = data.
Proof.
  intros Hlen Hb [_ Hl]. rewrite cells_unfold. unfold cell.
  rewrite !Hl by lia. destruct_list16 data. forall_split.
  repeat (apply (f_equal2 cons); [by apply bits_byte_bits |]). done.
Qed.

Lemma LoadBytes_cells data :
  length data = 16%nat -> Forall is_byte data -> cells (LoadBytes zero_state data) = data.
Proof. intros. apply loaded_cells; [done | done | by apply LoadBytes_loaded]. Qed.

Lemma LoadBytes_wf data : Forall is_byte data -> state_wf (LoadBytes zero_state data).
Proof. intros. by apply LoadBytes_loaded. Qed.
#[export] Hint Resolve LoadBytes_wf : aes.

(** ** The block functions, for any round keys *)

Definition rk_cells (rounds : list AES_state) (r : nat) : list Z := cells (rounds !!! r).

Lemma lookup_total_wf (rounds : list AES_state) r : Forall state_wf rounds -> state_wf (rounds !!! r).
Proof.
  intros H. rewrite list_lookup_total_alt. destruct (rounds !! r) eqn:E; simpl.
  - by eapply Forall_lookup_1.
  - apply zero_state_wf.
Qed.
#[export] Hint Resolve lookup_total_wf : aes.

Definition abs (s : AES_state) (st : list Z) : Prop := state_wf s /\ cells s = st.

Lemma AES_encrypt_refines rounds nr plain :
  Forall state_wf rounds -> length plain = 16%nat -> Forall is_byte plain ->
  AES_encrypt rounds nr plain = cipher nr (rk_cells rounds) plain.
Proof.
  intros Hr Hlen Hb. unfold AES_encrypt, cipher. cbv zeta.
  match goal with |- context [foldl ?f ?a _] => set (fC := f); set (a0 := a) end.
  assert (abs (foldl fC a0 (seq 1 (nr - 1)))
    (foldl (enc_round (rk_cells rounds)) (xor_bytes plain (rk_cells rounds 0%nat))
       (seq 1 (nr - 1)))) as [Hwf <-].
  { apply foldl_rel.
    - split; [unfold a0; auto with aes |]. unfold a0.
      by rewrite AddRoundKey_cells, LoadBytes_cells by auto with aes.
    - intros s st i [Hs <-]. unfold fC. split; [auto 10 with aes |].
      rewrite AddRoundKey_cells, MixColumns_cells, ShiftRows_cells, SubBytes_cells
        by auto 10 with aes. done. }
  rewrite SaveBytes_cells, AddRoundKey_cells, ShiftRows_cells, SubBytes_cells by auto 10 with aes.
  done.
Qed.

Lemma reverse_seq nr : reverse (seq 1 (nr - 1)) = (fun r => nr - r)%nat <$> seq 1 (nr - 1).
Proof.
  apply list_eq_same_length with (nr - 1)%nat.
  - by rewrite length_fmap, length_seq.
  - by rewrite length_reverse, length_seq.
  - intros i x y Hi Hx Hy.
    rewrite reverse_lookup in Hx by (rewrite length_seq; lia).
    rewrite length_seq in Hx. rewrite list_lookup_fmap in Hy.
    rewrite lookup_seq_lt in Hx by lia. rewrite lookup_seq_lt in Hy by lia.
    injection Hx as <-. injection Hy as <-. lia.
Qed.

Lemma AES_decrypt_refines rounds nr inp :
  Forall state_wf rounds -> length inp = 16%nat -> Forall is_byte inp ->
  AES_decrypt rounds nr inp = inv_cipher nr (rk_cells rounds) inp.
Proof.
  intros Hr Hlen Hb. unfold AES_decrypt, inv_cipher. cbv zeta.
  rewrite reverse_seq, foldl_fmap.
  match goal with |- context [foldl ?f ?a _] => set (fC := f); set (a0 := a) end.
  assert (abs (foldl fC a0 (seq 1 (nr - 1)))
    (foldl (fun st i => dec_round (rk_cells rounds) st (nr - i)%nat)
       (xor_bytes inp (rk_cells rounds nr)) (seq 1 (nr - 1)))) as [Hwf <-].
  { apply foldl_rel.
    - split; [unfold a0; auto with aes |]. unfold a0.
      by rewrite AddRoundKey_cells, LoadBytes_cells by auto with aes.
    - intros s st i [Hs <-]. unfold fC. split; [auto 10 with aes |].
      rewrite MixColumns_cells, AddRoundKey_cells, SubBytes_cells, InvShiftRows_cells
        by auto 10 with aes. done. }
  rewrite SaveBytes_cells, AddRoundKey_cells, SubBytes_cells, InvShiftRows_cells by auto 10 with aes.
  done.
Qed.
