(* ===== verification/CtaesKeys.v ===== *)
(** * The bit-sliced key schedule computes the FIPS-197 key expansion *)

From S2P Require Import Prelude AesSpec Ctaes CtaesLanes CtaesRefine.
From Stdlib Require Import Btauto.
#[local] Open Scope Z_scope.

(** ** Columns *)

Definition col_lane (c r : Z) : Z := 4 * r + c.

Definition col_cells (s : AES_state) (c : Z) : list Z :=
  [cell s (col_lane c 0); cell s (col_lane c 1); cell s (col_lane c 2); cell s (col_lane c 3)].

Definition col_zero (s : AES_state) (c : Z) : Prop :=
  forall r, 0 <= r < 4 -> lane s (col_lane c r) = replicate 8 false.

Lemma cells_columns s :
  cells s = col_cells s 0 ++ col_cells s 1 ++ col_cells s 2 ++ col_cells s 3.
Proof. done. Qed.

(** ** Lanes of the key-setup operations *)

Lemma mask_1111 k : 0 <= k < 16 -> Z.testbit 0x1111 k = (k mod 4 =? 0).
Proof. intros Hk. destruct_lane k Hk; reflexivity. Qed.

Lemma fits_1111 : fits 16 0x1111.
Proof. unfold fits; lia. Qed.
#[local] Hint Resolve fits_1111 : fits.

Lemma GetOneColumn_wf a c : state_wf a -> state_wf (GetOneColumn a c).
Proof. apply wf_fmap. intros. solve_fits. Qed.
#[export] Hint Resolve GetOneColumn_wf : aes.

Lemma GetOneColumn_lane a (c : nat) r :
  0 <= r < 4 -> lane (GetOneColumn a c) (col_lane 0 r) = lane a (col_lane (Z.of_nat c) r).
Proof.
  intros. unfold col_lane, GetOneColumn.
  apply (lane_fmap _ (fun _ => 4 * r + Z.of_nat c)). intros v.
  rewrite Z.land_spec, mask_1111, Z.shiftr_spec by lia.
  replace ((4 * r + 0) mod 4 =? 0) with true by
    (symmetry; apply Z.eqb_eq; Z.to_euclidean_division_equations; lia).
  rewrite andb_true_r. f_equal. lia.
Qed.

Lemma KeySetupTransform_wf s r : state_wf s -> state_wf r -> state_wf (KeySetupTransform s r).
Proof.
  intros Hs Hr. destruct_slices s Hs. destruct_slices r Hr. unfold KeySetupTransform; simpl.
  apply wf_8; solve_fits.
Qed.
#[export] Hint Resolve KeySetupTransform_wf : aes.

Lemma KeySetupTransform_cell s r k :
  state_wf s -> state_wf r -> 0 <= k < 16 ->
  cell (KeySetupTransform s r) k = cell s (down k 1) ^^ cell r k.
Proof.
  intros Hs Hr Hk. unfold cell. rewrite lxor_bits_byte by (by apply length_lane). f_equal.
  destruct_slices s Hs. destruct_slices r Hr. unfold lane, KeySetupTransform.
  cbn [slice zip_with fmap list_fmap].
  repeat match goal with |- context [(?v >> 4) .| (?v << 12)] =>
    change ((v >> 4) .| (v << 12)) with (ROT v 1) end.
  repeat (apply (f_equal2 cons); [mix_bits; reflexivity |]). done.
Qed.

Lemma MultX_wf s : state_wf s -> state_wf (MultX s).
Proof. intros Hs. destruct_slices s Hs. unfold MultX; simpl. apply wf_8; solve_fits. Qed.
#[export] Hint Resolve MultX_wf : aes.

Lemma MultX_cell s k : state_wf s -> cell (MultX s) k = gmul 2 (cell s k).
Proof.
  intros Hs. unfold cell. rewrite gmul_bmul by (simpl; tauto || by apply length_lane). f_equal.
  destruct_slices s Hs. unfold lane, MultX. cbn [slice fmap list_fmap].
  rewrite !Z.lxor_spec. cbn. repeat (apply (f_equal2 cons); [btauto |]). done.
Qed.

(** [KeySetupColumnMix] adds column [c2] of [a] to column 0 of [s] ... *)
Lemma KeySetupColumnMix_wf s r a c1 c2 :
  state_wf s -> state_wf r -> state_wf a ->
  state_wf (KeySetupColumnMix s r a c1 c2).1 /\ state_wf (KeySetupColumnMix s r a c1 c2).2.
Proof.
  intros Hs Hr Ha. destruct_slices s Hs. destruct_slices r Hr. destruct_slices a Ha.
  unfold KeySetupColumnMix; simpl. split; apply wf_8; solve_fits.
Qed.

Lemma ColumnMix_s_cell s r a c1 (c2 : nat) i :
  state_wf s -> state_wf r -> state_wf a -> (c2 < 4)%nat -> 0 <= i < 4 ->
  cell (KeySetupColumnMix s r a c1 c2).1 (col_lane 0 i) =
    cell s (col_lane 0 i) ^^ cell a (col_lane (Z.of_nat c2) i).
Proof.
  intros Hs Hr Ha Hc Hi. unfold cell. rewrite lxor_bits_byte by (by apply length_lane). f_equal.
  rewrite <- (GetOneColumn_lane a c2) by done.
  destruct_slices s Hs. destruct_slices a Ha. unfold KeySetupColumnMix, GetOneColumn, lane.
  cbn [fst slice zip_with fmap list_fmap]. by rewrite !Z.lxor_spec.
Qed.

(** ... and ors the sum into column [c1] of [r]. *)
Lemma ColumnMix_r_lane s r a (c1 : nat) c2 k :
  state_wf s -> state_wf r -> state_wf a -> (c1 < 4)%nat -> 0 <= k < 16 ->
  lane (KeySetupColumnMix s r a c1 c2).2 k =
    if decide (k mod 4 = Z.of_nat c1)
    then zip_with orb (lane r k) (lane (KeySetupColumnMix s r a c1 c2).1 (k - Z.of_nat c1))
    else lane r k.
Proof.
  intros Hs Hr Ha Hc Hk.
  assert (forall v w, Z.testbit (u16 (v .| ((w & 0x1111) << Z.of_nat c1))) k =
    if decide (k mod 4 = Z.of_nat c1) then Z.testbit v k || Z.testbit w (k - Z.of_nat c1)
    else Z.testbit v k) as Hbit.
  { intros v w. rewrite u16_testbit, Z.lor_spec, Z.shiftl_spec by lia.
    destruct (Z.ltb_spec k (Z.of_nat c1)).
    - rewrite (Z.testbit_neg_r _ (k - _)), orb_false_r by lia.
      rewrite decide_False; [done |]. rewrite Z.mod_small; lia.
    - rewrite Z.land_spec, mask_1111 by lia. case_decide as Hd.
      + replace ((k - Z.of_nat c1) mod 4 =? 0) with true; [by rewrite andb_true_r |].
        symmetry. apply Z.eqb_eq. Z.to_euclidean_division_equations. lia.
      + replace ((k - Z.of_nat c1) mod 4 =? 0) with false;
          [by rewrite andb_false_r, orb_false_r |].
        symmetry. apply Z.eqb_neq. Z.to_euclidean_division_equations. lia. }
  destruct_slices s Hs. destruct_slices r Hr. destruct_slices a Ha.
  unfold KeySetupColumnMix, lane. cbn [fst snd slice zip_with fmap list_fmap].
  rewrite !Hbit. by case_decide.
Qed.

(** ** The schedule loop *)

Record sched_inv (nk nr : nat) (ws : list (list Z)) (st : setup_state) : Prop := {
  si_len : length (ks_rounds st) = (nr + 1)%nat;
  si_wf : Forall state_wf (ks_rounds st);
  si_done : forall j, (j < length ws)%nat ->
    col_cells (ks_rounds st !!! (j / 4)%nat) (Z.of_nat (j mod 4)) = nth j ws [];
  si_todo : forall j, (length ws <= j < 4 * (nr + 1))%nat ->
    col_zero (ks_rounds st !!! (j / 4)%nat) (Z.of_nat (j mod 4));
  si_col_wf : state_wf (ks_column st);
  si_col : col_cells (ks_column st) 0 = nth (length ws - 1) ws [];
  si_rcon_wf : state_wf (ks_rcon st);
  si_rcon : col_cells (ks_rcon st) 0 = rcon ((length ws + nk - 1) / nk);
  si_pos : ks_pos st = (length ws mod nk)%nat;
}.

Lemma gpow_byte n : is_byte (gpow 2 n).
Proof.
  induction n as [|n IH]; simpl; [unfold is_byte, fits; lia |].
  rewrite <- (bits_byte_bits (gpow 2 n)) by done.
  rewrite gmul_bmul by (simpl; tauto || done).
  by apply bits_byte_fits, length_bmul.
Qed.

Lemma MultX_rcon s j :
  (0 < j)%nat -> state_wf s -> col_cells s 0 = rcon j -> col_cells (MultX s) 0 = rcon (S j).
Proof.
  intros Hj Hs H. unfold col_cells in *. rewrite !MultX_cell by done.
  injection H as H0 H1 H2 H3. rewrite H0, H1, H2, H3. unfold rcon.
  replace (S j - 1)%nat with (S (j - 1)) by lia. done.
Qed.

Lemma SubBytes_col s c :
  state_wf s -> 0 <= c < 4 -> col_cells (SubBytes s false) c = sub_word (col_cells s c).
Proof.
  intros. unfold col_cells, col_lane. rewrite !SubBytes_cell by (done || lia). done.
Qed.

Lemma KeySetupTransform_col s r :
  state_wf s -> state_wf r ->
  col_cells (KeySetupTransform s r) 0 = xor_bytes (rot_word (col_cells s 0)) (col_cells r 0).
Proof.
  intros. unfold col_cells, col_lane. rewrite !KeySetupTransform_cell by (done || lia). done.
Qed.

Lemma xor_bytes_comm l l' : xor_bytes l l' = xor_bytes l' l.
Proof. revert l'. induction l; intros []; simpl; auto. rewrite Z.lxor_comm. f_equal; auto. Qed.

(** The word that goes into the addition, and the round constant for the next one. *)
Definition temp_word (nk : nat) (ws : list (list Z)) : list Z :=
  let i := length ws in
  let temp := nth (i - 1) ws [] in
  if decide (i mod nk = 0)%nat then xor_bytes (sub_word (rot_word temp)) (rcon (i / nk))
  else if decide (6 < nk /\ i mod nk = 4)%nat then sub_word temp
  else temp.

Definition transform (nk : nat) (st : setup_state) : AES_state * AES_state :=
  let '(mkSetup _ column rcon pos) := st in
  if decide (pos = 0)%nat then (KeySetupTransform (SubBytes column false) rcon, MultX rcon)
  else if decide (6 < nk /\ pos = 4)%nat then (SubBytes column false, rcon)
  else (column, rcon).

Lemma ceil_step nk i : (0 < nk)%nat ->
  ((S i + nk - 1) / nk = if decide (i mod nk = 0) then S ((i + nk - 1) / nk)
                         else (i + nk - 1) / nk)%nat.
Proof.
  intros Hnk. pose proof (Nat.div_mod i nk ltac:(lia)) as Hi.
  pose proof (Nat.mod_upper_bound i nk ltac:(lia)).
  set (q := (i / nk)%nat) in *. set (m := (i mod nk)%nat) in *.
  assert ((S i + nk - 1) / nk = S q)%nat as ->.
  { symmetry. apply (Nat.div_unique _ _ _ m); lia. }
  case_decide as Hm.
  - f_equal. apply (Nat.div_unique _ _ _ (nk - 1)); lia.
  - apply (Nat.div_unique _ _ _ (m - 1)); lia.
Qed.

Lemma ceil_exact nk i : (0 < nk)%nat -> (i mod nk = 0)%nat -> ((i + nk - 1) / nk = i / nk)%nat.
Proof.
  intros Hnk Hm. pose proof (Nat.div_mod i nk ltac:(lia)).
  symmetry. apply (Nat.div_unique _ _ _ (nk - 1)); lia.
Qed.

Lemma transform_inv nk nr ws st :
  (0 < nk)%nat -> (nk <= length ws)%nat -> sched_inv nk nr ws st ->
  let '(column, rc) := transform nk st in
  state_wf column /\ state_wf rc /\ col_cells column 0 = temp_word nk ws /\
  col_cells rc 0 = rcon ((S (length ws) + nk - 1) / nk).
Proof.
  intros Hnk Hlen [Hl Hwf Hd Ht Hcw Hc Hrw Hrc Hp]. destruct st as [rounds column rc pos].
  cbn [transform ks_rounds ks_column ks_rcon ks_pos] in *. subst pos. unfold temp_word. cbv zeta. rewrite <- Hc, (ceil_step nk) by lia.
  destruct (decide (length ws mod nk = 0)%nat) as [Hm | Hm].
  - split_and!; [auto with aes | auto with aes | |].
    + rewrite KeySetupTransform_col, SubBytes_col, Hrc, ceil_exact by (auto with aes || lia).
      done.
    + apply MultX_rcon; [| done | done]. apply Nat.div_str_pos. lia.
  - destruct (decide (6 < nk /\ length ws mod nk = 4)%nat); simpl;
      split_and!; auto with aes; by rewrite SubBytes_col.
Qed.

(** The new word lands in column [i mod 4] of round key [i / 4]; every other column
    stays as it was. *)
Lemma ColumnMix_r_cols s r a (c1 c2 : nat) c :
  state_wf s -> state_wf r -> state_wf a -> (c1 < 4)%nat -> (c2 < 4)%nat -> 0 <= c < 4 ->
  (c = Z.of_nat c1 -> col_zero r c ->
   col_cells (KeySetupColumnMix s r a c1 c2).2 c =
     xor_bytes (col_cells s 0) (col_cells a (Z.of_nat c2))) /\
  (c <> Z.of_nat c1 ->
   forall i, 0 <= i < 4 ->
     lane (KeySetupColumnMix s r a c1 c2).2 (col_lane c i) = lane r (col_lane c i)).
Proof.
  intros Hs Hr Ha Hc1 Hc2 Hc.
  assert (forall i, 0 <= i < 4 -> (col_lane c i) mod 4 = c) as Hmod.
  { intros i Hi. unfold col_lane. Z.to_euclidean_division_equations. lia. }
  split.
  - intros -> Hz.
    assert (forall i, 0 <= i < 4 ->
      cell (KeySetupColumnMix s r a c1 c2).2 (col_lane (Z.of_nat c1) i) =
      cell s (col_lane 0 i) ^^ cell a (col_lane (Z.of_nat c2) i)) as Hcell.
    { intros i Hi. rewrite <- (ColumnMix_s_cell s r a c1) by done. unfold cell at 1.
      rewrite ColumnMix_r_lane, Hmod, decide_True, Hz by (done || unfold col_lane; lia).
      unfold col_lane at 1. replace (4 * i + Z.of_nat c1 - Z.of_nat c1) with (col_lane 0 i)
        by (unfold col_lane; lia).
      unfold cell. f_equal. pose proof (KeySetupColumnMix_wf s r a c1 c2 Hs Hr Ha) as [H _].
      pose proof (length_lane _ (col_lane 0 i) H) as Hlen.
      destruct (lane _ _) as [|? [|? [|? [|? [|? [|? [|? [|? [|]]]]]]]]]; done. }
    unfold col_cells. rewrite !Hcell by lia. done.
  - intros Hne i Hi. rewrite ColumnMix_r_lane, Hmod, decide_False by (done || unfold col_lane; lia).
    done.
Qed.

Lemma AES_setup_step_eq nk st i :
  AES_setup_step nk st i =
    let '(column, rc) := transform nk st in
    let mix := KeySetupColumnMix column (ks_rounds st !!! (i / 4)%nat)
                 (ks_rounds st !!! ((i - nk) / 4)%nat) (i mod 4)%nat ((i - nk) mod 4)%nat in
    mkSetup (<[(i / 4)%nat := mix.2]> (ks_rounds st)) mix.1 rc
      (if decide (S (ks_pos st) = nk) then 0%nat else S (ks_pos st)).
Proof.
  destruct st as [rounds column rc pos]. unfold AES_setup_step, transform.
  cbn [ks_rounds ks_column ks_rcon ks_pos]. repeat case_decide; done.
Qed.

Lemma next_word_temp nk ws : next_word nk ws = xor_bytes (nth (length ws - nk) ws []) (temp_word nk ws).
Proof. done. Qed.

Lemma mod_succ_wrap nk i : (0 < nk)%nat ->
  (if decide (S (i mod nk) = nk) then 0 else S (i mod nk))%nat = (S i mod nk)%nat.
Proof.
  intros. pose proof (Nat.div_mod i nk ltac:(lia)). pose proof (Nat.mod_upper_bound i nk ltac:(lia)).
  case_decide.
  - apply (Nat.mod_unique _ _ (S (i / nk))); lia.
  - apply (Nat.mod_unique _ _ (i / nk)); lia.
Qed.

Lemma div_mod_4_eq i j : (i / 4 = j / 4)%nat -> (i mod 4 = j mod 4)%nat -> i = j.
Proof.
  intros. pose proof (Nat.div_mod i 4 ltac:(lia)). pose proof (Nat.div_mod j 4 ltac:(lia)). lia.
Qed.

Lemma col_cells_lanes s t c :
  (forall i, 0 <= i < 4 -> lane s (col_lane c i) = lane t (col_lane c i)) ->
  col_cells s c = col_cells t c.
Proof. intros H. unfold col_cells, cell. rewrite !H by lia. done. Qed.

Lemma mod_4_lt i : (i mod 4 < 4)%nat.
Proof. by apply Nat.mod_upper_bound. Qed.

Section Step.
Context (nk nr : nat) (ws : list (list Z)) (st : setup_state).
Let i := length ws.
Hypothesis Hnk : (0 < nk)%nat.
Hypothesis Hi : (nk <= i < 4 * (nr + 1))%nat.
Hypothesis Hinv : sched_inv nk nr ws st.

Let column := (transform nk st).1.
Let mix := KeySetupColumnMix column (ks_rounds st !!! (i / 4)%nat)
  (ks_rounds st !!! ((i - nk) / 4)%nat) (i mod 4)%nat ((i - nk) mod 4)%nat.

Lemma step_column : state_wf column /\ col_cells column 0 = temp_word nk ws.
Proof.
  pose proof (transform_inv nk nr ws st Hnk ltac:(subst i; lia) Hinv) as H.
  subst column. destruct (transform nk st). tauto.
Qed.

Lemma step_round_wf j : state_wf (ks_rounds st !!! j).
Proof. apply lookup_total_wf, Hinv. Qed.

(** The column of the new word. *)
Lemma step_new_col : col_cells mix.2 (Z.of_nat (i mod 4)) = next_word nk ws.
Proof.
  destruct step_column as [Hc Ht].
  destruct (ColumnMix_r_cols column (ks_rounds st !!! (i / 4)%nat)
    (ks_rounds st !!! ((i - nk) / 4)%nat) (i mod 4) ((i - nk) mod 4) (Z.of_nat (i mod 4)))
    as [H _]; auto using step_round_wf, mod_4_lt.
  { pose proof (mod_4_lt i). lia. }
  subst mix. rewrite H; [| done | apply Hinv; subst i; lia].
  rewrite Ht, (si_done _ _ _ _ Hinv) by (subst i; lia).
  by rewrite xor_bytes_comm, next_word_temp.
Qed.

Lemma step_new_column : col_cells mix.1 0 = next_word nk ws.
Proof.
  destruct step_column as [Hc Ht].
  unfold col_cells at 1. subst mix.
  rewrite !ColumnMix_s_cell by (auto using step_round_wf, mod_4_lt || lia).
  rewrite next_word_temp, xor_bytes_comm, <- Ht.
  rewrite <- (si_done _ _ _ _ Hinv (length ws - nk)%nat) by (subst i; lia). done.
Qed.

(** Columns other than [i] are unchanged. *)
Lemma step_other_col j :
  j <> i -> forall r, 0 <= r < 4 ->
  lane (<[(i / 4)%nat := mix.2]> (ks_rounds st) !!! (j / 4)%nat) (col_lane (Z.of_nat (j mod 4)) r) =
  lane (ks_rounds st !!! (j / 4)%nat) (col_lane (Z.of_nat (j mod 4)) r).
Proof.
  intros Hj r Hr. destruct (decide (j / 4 = i / 4)%nat) as [Heq | Hne].
  - assert (i / 4 < length (ks_rounds st))%nat.
    { rewrite (si_len _ _ _ _ Hinv). apply Nat.Div0.div_lt_upper_bound. lia. }
    rewrite Heq, list_lookup_total_insert_eq by done.
    destruct step_column as [Hc _].
    edestruct (ColumnMix_r_cols column (ks_rounds st !!! (i / 4)%nat)
      (ks_rounds st !!! ((i - nk) / 4)%nat) (i mod 4) ((i - nk) mod 4) (Z.of_nat (j mod 4)))
      as [_ Hl]; auto using step_round_wf, mod_4_lt.
    { pose proof (mod_4_lt j). lia. }
    apply Hl; [| done]. intros Hmod. apply Hj, div_mod_4_eq; [done | lia].
  - by rewrite list_lookup_total_insert_ne.
Qed.

Lemma sched_inv_step :
  sched_inv nk nr (ws ++ [next_word nk ws]) (AES_setup_step nk st i).
Proof.
  pose proof (transform_inv nk nr ws st Hnk ltac:(subst i; lia) Hinv) as Htr.
  pose proof step_new_col as Hnc. pose proof step_new_column as Hncol.
  pose proof step_other_col as Hoc.
  rewrite AES_setup_step_eq. subst mix column.
  destruct (transform nk st) as [column rc] eqn:Etr. cbn [fst snd] in *.
  destruct Htr as (Hcw & Hrw & Ht & Hrc).
  set (mix := KeySetupColumnMix column _ _ _ _) in *.
  pose proof (KeySetupColumnMix_wf column (ks_rounds st !!! (i / 4)%nat)
    (ks_rounds st !!! ((i - nk) / 4)%nat) (i mod 4) ((i - nk) mod 4) Hcw
    (step_round_wf _) (step_round_wf _)) as [Hw1 Hw2].
  assert (i / 4 < length (ks_rounds st))%nat as Hlt.
  { rewrite (si_len _ _ _ _ Hinv). apply Nat.Div0.div_lt_upper_bound. lia. }
  assert (length (ws ++ [next_word nk ws]) = S i) as Hlen by (rewrite length_app; simpl; lia).
  split; cbn [ks_rounds ks_column ks_rcon ks_pos]; rewrite ?Hlen.
  - rewrite length_insert. apply Hinv.
  - apply Forall_insert; [apply Hinv | done].
  - intros j Hj. destruct (decide (j = i)) as [-> | Hne].
    + rewrite list_lookup_total_insert_eq by done. subst i.
      rewrite app_nth2, Nat.sub_diag by lia. done.
    + rewrite (col_cells_lanes _ _ _ (Hoc j Hne)), app_nth1 by (subst i; lia).
      apply Hinv. subst i; lia.
  - intros j Hj r Hr. rewrite Hoc by lia. apply Hinv; [subst i; lia | done].
  - done.
  - rewrite Hncol. subst i. replace (S (length ws) - 1)%nat with (length ws) by lia.
    rewrite app_nth2, Nat.sub_diag by lia. done.
  - done.
  - by subst i.
  - rewrite (si_pos _ _ _ _ Hinv). subst i. by apply mod_succ_wrap.
Qed.
End Step.

(** ** Loading the key *)

Definition key_loaded (nr : nat) (key : list Z) (n : nat) (rounds : list AES_state) : Prop :=
  length rounds = (nr + 1)%nat /\
  forall j, (j <= nr)%nat -> loaded (rounds !!! j) (min 16 (n - 16 * j)) (drop (16 * j) key).

Lemma key_loaded_step nr key i r rounds :
  Forall is_byte key -> (r < 4)%nat -> (i / 4 <= nr)%nat ->
  key_loaded nr key (4 * i + r) rounds ->
  key_loaded nr key (4 * i + S r)
    (alter (fun s => LoadByte s (nth (4 * i + r) key 0) r (i mod 4)%nat) (i / 4)%nat rounds).
Proof.
  intros Hb Hr Hi [Hlen Hl]. split; [by rewrite length_alter |]. intros j Hj.
  pose proof (Nat.div_mod i 4 ltac:(lia)) as Hdm. pose proof (mod_4_lt i).
  rewrite list_lookup_total_alt. destruct (decide (j = i / 4)%nat) as [-> | Hne].
  - rewrite list_lookup_alter_eq. specialize (Hl (i / 4)%nat Hi).
    rewrite list_lookup_total_alt in Hl.
    destruct (rounds !! (i / 4)%nat) as [s|] eqn:E;
      [| apply lookup_ge_None in E; lia].
    cbn [fmap option_fmap option_map default from_option] in *. unfold id in *.
    replace (nth (4 * i + r) key 0)
      with (nth (4 * (i mod 4) + r) (drop (16 * (i / 4)) key) 0)
      by (rewrite <- !drop_nth_hd, drop_drop; f_equal; f_equal; lia).
    replace (min 16 _) with (S (4 * (i mod 4) + r)) by lia.
    apply LoadByte_loaded; [lia | lia | apply nth_byte, Forall_drop, Hb |].
    replace (4 * (i mod 4) + r)%nat with (min 16 (4 * i + r - 16 * (i / 4))) by lia. done.
  - rewrite list_lookup_alter_ne by done. specialize (Hl j Hj).
    rewrite list_lookup_total_alt in Hl.
    replace (min 16 (4 * i + S r - 16 * j)) with (min 16 (4 * i + r - 16 * j)); [done |].
    destruct (decide (j < i / 4)%nat); lia.
Qed.

Lemma AES_setup_load_loaded nr nk key :
  Forall is_byte key -> (nk <= 4 * (nr + 1))%nat ->
  key_loaded nr key (4 * nk) (AES_setup_load key nk (replicate (nr + 1) zero_state)).
Proof.
  intros Hb Hnk. unfold AES_setup_load.
  enough (forall n, (n <= nk)%nat -> exists rounds,
    for_loop n (fun i st => for_loop 4 (fun r '(rounds, key) =>
      (alter (fun s => LoadByte s (hd 0 key) r (i mod 4)%nat) (i / 4)%nat rounds, tail key)) st)
      (replicate (nr + 1) zero_state, key) = (rounds, drop (4 * n) key) /\
    key_loaded nr key (4 * n) rounds) as H.
  { by destruct (H nk ltac:(lia)) as (rounds & -> & Hl). }
  induction n as [|n IH]; intros Hn.
  { eexists; split; [done |]. split; [by rewrite length_replicate |]. intros j Hj.
    rewrite list_lookup_total_alt, lookup_replicate_2 by lia. apply loaded_zero. }
  destruct IH as (rounds & Heq & Hl); [lia |]. rewrite for_loop_S, Heq.
  enough (forall r, (r <= 4)%nat -> exists rounds',
    for_loop r (fun r '(rounds, key) =>
      (alter (fun s => LoadByte s (hd 0 key) r (n mod 4)%nat) (n / 4)%nat rounds, tail key))
      (rounds, drop (4 * n) key) = (rounds', drop (4 * n + r) key) /\
    key_loaded nr key (4 * n + r) rounds') as H.
  { replace (4 * S n)%nat with (4 * n + 4)%nat by lia. by apply H. }
  induction r as [|r IHr]; intros Hr; [exists rounds; by rewrite Nat.add_0_r |].
  destruct IHr as (rounds' & Heq' & Hl'); [lia |].
  rewrite for_loop_S, Heq', drop_nth_hd, tail_drop, Nat.add_succ_r.
  eexists; split; [done |]. rewrite <- Nat.add_succ_r. apply key_loaded_step; [done | lia | | done].
  apply Nat.lt_succ_r, Nat.Div0.div_lt_upper_bound. lia.
Qed.

Lemma loaded_lane s n data c r :
  (c < 4)%nat -> (r < 4)%nat -> loaded s n data ->
  lane s (col_lane (Z.of_nat c) (Z.of_nat r)) =
    if decide (4 * c + r < n)%nat then byte_bits (nth (4 * c + r) data 0) else replicate 8 false.
Proof.
  intros Hc Hr [_ Hl]. unfold col_lane. rewrite Hl by lia.
  replace (cell_index _) with (4 * c + r)%nat; [done |].
  symmetry. apply cell_index_spec; lia.
Qed.

Lemma key_loaded_col nr key nk rounds j :
  Forall is_byte key -> length key = (4 * nk)%nat -> (j < nk <= 4 * (nr + 1))%nat ->
  key_loaded nr key (4 * nk) rounds ->
  col_cells (rounds !!! (j / 4)%nat) (Z.of_nat (j mod 4)) = take 4 (drop (4 * j) key).
Proof.
  intros Hb Hk Hj [Hlen Hl]. rewrite (take_4_list 0) by lia.
  pose proof (Nat.div_mod j 4 ltac:(lia)). pose proof (mod_4_lt j).
  specialize (Hl (j / 4)%nat ltac:(apply Nat.lt_succ_r, Nat.Div0.div_lt_upper_bound; lia)).
  assert (forall r, (r < 4)%nat ->
    cell (rounds !!! (j / 4)%nat) (col_lane (Z.of_nat (j mod 4)) (Z.of_nat r)) =
    nth (4 * j + r) key 0) as Hc.
  { intros r Hr. unfold cell.
    rewrite (loaded_lane _ _ _ (j mod 4) r ltac:(lia) ltac:(lia) Hl), decide_True by lia.
    rewrite bits_byte_bits by (apply nth_byte, Forall_drop, Hb).
    rewrite <- !drop_nth_hd, drop_drop. f_equal. f_equal. lia. }
  pose proof (Hc 0%nat ltac:(lia)) as Hc0. rewrite Nat.add_0_r in Hc0.
  rewrite <- Hc0, <- (Hc 1%nat), <- (Hc 2%nat), <- (Hc 3%nat) by lia. done.
Qed.

Lemma sched_inv_init nk nr key :
  (0 < nk <= 4 * (nr + 1))%nat -> length key = (4 * nk)%nat -> Forall is_byte key ->
  let rounds := AES_setup_load key nk (replicate (nr + 1) zero_state) in
  sched_inv nk nr (key_words nk key)
    (mkSetup rounds
       (GetOneColumn (rounds !!! ((nk - 1) / 4)%nat) ((nk - 1) mod 4)%nat)
       (mkState [1; 0; 0; 0; 0; 0; 0; 0]) 0).
Proof.
  intros Hnk Hk Hb rounds.
  pose proof (AES_setup_load_loaded nr nk key Hb ltac:(lia)) as Hl. fold rounds in Hl.
  assert (length (key_words nk key) = nk) as Hws by (unfold key_words; by rewrite length_fmap, length_seq).
  assert (forall j, (j < nk)%nat -> nth j (key_words nk key) [] = take 4 (drop (4 * j) key)) as Hw.
  { intros j Hj. apply nth_lookup_Some. unfold key_words.
    by rewrite list_lookup_fmap, lookup_seq_lt. }
  assert (forall j, (j <= nr)%nat -> state_wf (rounds !!! j)) as Hwf by (intros j Hj; by apply Hl).
  assert (forall j, (j < 4 * (nr + 1) -> j / 4 <= nr)%nat) as Hdiv.
  { intros. apply Nat.lt_succ_r, Nat.Div0.div_lt_upper_bound. lia. }
  split; cbn [ks_rounds ks_column ks_rcon ks_pos]; rewrite ?Hws.
  - apply Hl.
  - apply Forall_lookup. intros j s Hj. pose proof (lookup_lt_Some _ _ _ Hj).
    destruct Hl as [Hlen _]. specialize (Hwf j ltac:(lia)).
    by rewrite (list_lookup_total_correct _ _ _ Hj) in Hwf.
  - intros j Hj. rewrite Hw by done. apply key_loaded_col with (nr := nr) (nk := nk); (done || lia).
  - intros j Hj r Hr. rewrite <- (Z2Nat.id r) by lia.
    destruct Hl as [_ Hl]. specialize (Hl (j / 4)%nat ltac:(auto with lia)).
    pose proof (Nat.div_mod j 4 ltac:(lia)). pose proof (mod_4_lt j).
    rewrite (loaded_lane _ _ _ (j mod 4) (Z.to_nat r) ltac:(lia) ltac:(lia) Hl), decide_False by lia.
    done.
  - apply GetOneColumn_wf, Hwf, Hdiv. lia.
  - rewrite Hw by lia. rewrite <- (key_loaded_col nr key nk rounds) by (done || lia).
    unfold col_cells, cell. rewrite !GetOneColumn_lane by lia. done.
  - apply wf_8; unfold fits; lia.
  - replace ((nk + nk - 1) / nk)%nat with 1%nat; [done |].
    apply (Nat.div_unique _ _ _ (nk - 1)); lia.
  - by rewrite Nat.Div0.mod_same.
Qed.

(** ** The whole schedule *)

Lemma sched_inv_expand nk nr n ws st :
  (0 < nk <= length ws)%nat -> (length ws + n <= 4 * (nr + 1))%nat -> sched_inv nk nr ws st ->
  sched_inv nk nr (expand nk n ws) (foldl (AES_setup_step nk) st (seq (length ws) n)).
Proof.
  revert ws st. induction n as [|n IH]; intros ws st Hnk Hn Hinv; [done |]. simpl.
  replace (S (length ws)) with (length (ws ++ [next_word nk ws])) by (rewrite length_app; simpl; lia).
  apply IH; [rewrite length_app; simpl; lia.. |].
  apply sched_inv_step; (done || lia).
Qed.

Lemma length_expand nk n ws : length (expand nk n ws) = (length ws + n)%nat.
Proof.
  revert ws. induction n as [|n IH]; intros ws; simpl; [lia |].
  rewrite IH, length_app. simpl. lia.
Qed.

Definition round_keys_refine (nk nr : nat) (key : list Z) (rounds : list AES_state) : Prop :=
  length rounds = (nr + 1)%nat /\ Forall state_wf rounds /\
  forall r, (r <= nr)%nat -> rk_cells rounds r = round_key (key_expansion nk nr key) r.

Lemma AES_setup_refines nk nr key :
  (0 < nk <= 4 * (nr + 1))%nat -> length key = (4 * nk)%nat -> Forall is_byte key ->
  round_keys_refine nk nr key (AES_setup key nk nr).
Proof.
  intros Hnk Hk Hb.
  assert (length (key_words nk key) = nk) as Hws by (unfold key_words; by rewrite length_fmap, length_seq).
  pose proof (sched_inv_init nk nr key Hnk Hk Hb) as Hinit.
  apply (sched_inv_expand nk nr (4 * (nr + 1) - nk)) in Hinit; [| lia | lia].
  rewrite Hws in Hinit. fold (key_expansion nk nr key) in Hinit.
  assert (length (key_expansion nk nr key) = 4 * (nr + 1))%nat as Hl.
  { unfold key_expansion. rewrite length_expand, Hws. lia. }
  unfold AES_setup. cbv zeta.
  set (st := foldl (AES_setup_step nk) _ _) in *. destruct Hinit as [Hlen Hwf Hd _ _ _ _ _ _].
  split_and!; [done | done |]. intros r Hr. unfold rk_cells, round_key.
  rewrite cells_columns, (take_4_list []) by lia.
  assert (forall c, (c < 4)%nat -> ((4 * r + c) / 4 = r /\ (4 * r + c) mod 4 = c)%nat) as Hdm.
  { intros c Hc. split; symmetry;
      [apply (Nat.div_unique _ _ _ c) | apply (Nat.mod_unique _ _ r)]; lia. }
  assert (forall c, (c < 4)%nat -> nth (4 * r + c) (key_expansion nk nr key) [] =
    col_cells (ks_rounds st !!! r) (Z.of_nat c)) as Hcol.
  { intros c Hc. rewrite <- Hd by lia. destruct (Hdm c Hc) as [-> ->]. done. }
  pose proof (Hcol 0%nat ltac:(lia)) as Hc0. rewrite Nat.add_0_r in Hc0.
  rewrite Hc0, !Hcol by lia. done.
Qed.
