(* ===== verification/CtaesProofs.v ===== *)
(** * Correctness of ctaes.c

    The public functions implement AES-128, AES-192 and AES-256 as FIPS-197
    defines them, and decryption undoes encryption. *)

From S2P Require Import Prelude AesSpec Ctaes CtaesLanes CtaesRefine CtaesKeys.
#[local] Open Scope Z_scope.

(** ** Inverses on states *)

Lemma cell_inj s t k : state_wf s -> state_wf t -> cell s k = cell t k -> lane s k = lane t k.
Proof.
  intros Hs Ht H. unfold cell in H. apply (f_equal byte_bits) in H.
  by rewrite !byte_bits_byte in H by (by apply length_lane).
Qed.

Lemma inv_sbox_sbox b : is_byte b -> inv_sbox (sbox b) = b.
Proof.
  intros Hb. apply Z.eqb_eq. apply (byte_forall (fun b => inv_sbox (sbox b) =? b)); [| done].
  by vm_compute.
Qed.

Lemma SubBytes_inv s : state_wf s -> SubBytes (SubBytes s false) true = s.
Proof.
  intros Hs. apply state_ext; [auto with aes | done |]. intros k Hk.
  apply cell_inj; [auto with aes | done |].
  rewrite !SubBytes_cell by auto with aes. by apply inv_sbox_sbox, cell_byte.
Qed.

Lemma ShiftRows_inv s : state_wf s -> InvShiftRows (ShiftRows s) = s.
Proof.
  intros Hs. apply state_ext; [auto with aes | done |]. intros k Hk.
  rewrite InvShiftRows_lane by done.
  assert (0 <= 4 * row k + (col k - row k) mod 4 < 16)
    by (unfold row, col; Z.to_euclidean_division_equations; lia).
  rewrite ShiftRows_lane by done. f_equal.
  unfold row, col. Z.to_euclidean_division_equations. lia.
Qed.

Lemma AddRoundKey_inv s r : state_wf s -> state_wf r -> AddRoundKey (AddRoundKey s r) r = s.
Proof.
  intros Hs Hr. apply state_ext; [auto with aes | done |]. intros k Hk.
  apply cell_inj; [auto with aes | done |].
  rewrite !AddRoundKey_cell by auto with aes. apply lxor_cancel_r.
Qed.

Lemma mix_bwd_fwd A B C D :
  length A = 8%nat -> length B = 8%nat -> length C = 8%nat -> length D = 8%nat ->
  mix_bwd (mix_fwd A B C D) (mix_fwd B C D A) (mix_fwd C D A B) (mix_fwd D A B C) = A.
Proof. intros. column_bits A B C D. Qed.

Lemma MixColumns_inv s : state_wf s -> MixColumns (MixColumns s false) true = s.
Proof.
  intros Hs. apply state_ext; [auto with aes | done |]. intros k Hk.
  apply cell_inj; [auto with aes | done |].
  rewrite MixColumns_bwd_cell by auto with aes. unfold cell. f_equal.
  assert (forall j, 0 <= j < 16 -> lane (MixColumns s false) j =
    mix_fwd (lane s j) (lane s (down j 1)) (lane s (down j 2)) (lane s (down j 3))) as Hl.
  { intros j Hj. unfold MixColumns. by rewrite MixColumns_fwd_lane. }
  rewrite !Hl by (done || apply down_range). rewrite !down_down.
  change (1 + 3) with (0 + 4). change (2 + 2) with (0 + 4). change (2 + 3) with (1 + 4).
  change (3 + 1) with (0 + 4). change (3 + 2) with (1 + 4). change (3 + 3) with (2 + 4).
  change (1 + 1) with 2. change (1 + 2) with 3. change (2 + 1) with 3.
  rewrite !down_period. replace (down k 0) with k by (unfold down; rewrite Z.mod_small; lia).
  apply mix_bwd_fwd; by apply length_lane.
Qed.

Lemma LoadBytes_SaveBytes s : state_wf s -> LoadBytes zero_state (SaveBytes s) = s.
Proof.
  intros Hs. pose proof (cells_bytes s Hs) as Hb. rewrite SaveBytes_cells by done.
  apply state_ext; [auto with aes | done |]. intros k Hk.
  apply cell_inj; [auto with aes | done |].
  pose proof (LoadBytes_cells (cells s) (length_cells s) Hb) as H.
  rewrite !cells_unfold in H. rewrite cells_unfold.
  injection H; intros. destruct_lane k Hk; assumption.
Qed.

(** ** Decryption undoes encryption, for any round keys *)

Section RoundTrip.
Context (rounds : list AES_state) (nr : nat).
Hypothesis Hwf : Forall state_wf rounds.

Let E (s : AES_state) (i : nat) : AES_state :=
  AddRoundKey (MixColumns (ShiftRows (SubBytes s false)) false) (rounds !!! i).
Let D (s : AES_state) (i : nat) : AES_state :=
  MixColumns (AddRoundKey (SubBytes (InvShiftRows s) true) (rounds !!! i)) true.

Lemma rounds_E_wf l s : state_wf s -> state_wf (foldl E s l).
Proof. revert s. induction l; intros; simpl; [done |]. subst E. auto 10 with aes. Qed.

Lemma rounds_cancel l s :
  state_wf s ->
  foldl D (ShiftRows (SubBytes (foldl E s l) false)) (reverse l) = ShiftRows (SubBytes s false).
Proof.
  induction l as [|i l IH] using rev_ind; intros Hs; [done |].
  rewrite foldl_snoc, reverse_snoc. cbn [foldl].
  pose proof (rounds_E_wf l s Hs) as Hl.
  assert (D (ShiftRows (SubBytes (E (foldl E s l) i) false)) i =
          ShiftRows (SubBytes (foldl E s l) false)) as ->; [| by apply IH].
  unfold D, E at 1.
  rewrite ShiftRows_inv, SubBytes_inv, AddRoundKey_inv, MixColumns_inv by auto 10 with aes. done.
Qed.

Lemma AES_decrypt_encrypt plain :
  length plain = 16%nat -> Forall is_byte plain ->
  AES_decrypt rounds nr (AES_encrypt rounds nr plain) = plain.
Proof.
  intros Hlen Hb. set (s0 := AddRoundKey (LoadBytes zero_state plain) (rounds !!! 0%nat)).
  assert (state_wf s0) as Hs0 by (subst s0; auto with aes).
  assert (AES_encrypt rounds nr plain = SaveBytes (AddRoundKey
    (ShiftRows (SubBytes (foldl E s0 (seq 1 (nr - 1))) false)) (rounds !!! nr))) as -> by done.
  pose proof (rounds_E_wf (seq 1 (nr - 1)) s0 Hs0).
  unfold AES_decrypt. cbv zeta. rewrite LoadBytes_SaveBytes, AddRoundKey_inv by auto 10 with aes.
  match goal with |- context [foldl ?f ?a (seq 1 (nr - 1))] =>
    replace (foldl f a (seq 1 (nr - 1))) with (foldl D a (reverse (seq 1 (nr - 1))))
      by (by rewrite reverse_seq, foldl_fmap) end.
  rewrite rounds_cancel by done.
  rewrite ShiftRows_inv, SubBytes_inv by auto with aes. unfold s0.
  rewrite AddRoundKey_inv, SaveBytes_cells by auto with aes. by apply LoadBytes_cells.
Qed.
End RoundTrip.

(** ** Blocks *)

(** [n] consecutive blocks, each transformed on its own. *)
Definition blocks16 (n : nat) (inp : list Z) : list (list Z) :=
  (fun i => take 16 (drop (16 * i) inp)) <$> seq 0 n.
Definition ecb (f : list Z -> list Z) (n : nat) (inp : list Z) : list Z :=
  mjoin (f <$> blocks16 n inp).

Lemma blocks16_S n inp : blocks16 (S n) inp = take 16 inp :: blocks16 n (drop 16 inp).
Proof.
  unfold blocks16. cbn [seq fmap list_fmap]. rewrite Nat.mul_0_r, drop_0. f_equal.
  rewrite <- (fmap_S_seq 0 n), <- list_fmap_compose. apply list_fmap_ext. intros _ i _.
  unfold compose. rewrite drop_drop. do 2 f_equal. lia.
Qed.

Lemma each_block_ecb f n inp : each_block f n inp = ecb f n inp.
Proof.
  revert inp. induction n as [|n IH]; intros inp; [done |].
  unfold ecb. rewrite blocks16_S. simpl. f_equal. apply IH.
Qed.

(** A block input: [n] blocks of sixteen bytes. *)
Definition block_input (n : nat) (inp : list Z) : Prop :=
  length inp = (16 * n)%nat /\ Forall is_byte inp.

Lemma block_input_S n inp :
  block_input (S n) inp -> block_input 1 (take 16 inp) /\ block_input n (drop 16 inp).
Proof.
  intros [Hl Hb]. split; split; [rewrite length_take; lia | by apply Forall_take
    | rewrite length_drop; lia | by apply Forall_drop].
Qed.

Lemma each_block_ext f g n inp :
  (forall b, block_input 1 b -> f b = g b) -> block_input n inp ->
  each_block f n inp = each_block g n inp.
Proof.
  intros Hfg. revert inp. induction n as [|n IH]; intros inp Hin; [done |].
  apply block_input_S in Hin as [H1 H2]. simpl. by rewrite Hfg, IH.
Qed.

Lemma each_block_inv f g n inp :
  (forall b, block_input 1 b -> f (g b) = b /\ length (g b) = 16%nat) -> block_input n inp ->
  each_block f n (each_block g n inp) = inp.
Proof.
  intros Hfg. revert inp. induction n as [|n IH]; intros inp Hin.
  { destruct Hin as [Hl _]. by destruct inp. }
  apply block_input_S in Hin as [H1 H2]. simpl.
  destruct (Hfg _ H1) as [Hf Hl]. rewrite take_app_length', drop_app_length' by done.
  rewrite Hf, IH by done. apply take_drop.
Qed.

Lemma length_AES_encrypt rounds nr b :
  Forall state_wf rounds -> block_input 1 b -> length (AES_encrypt rounds nr b) = 16%nat.
Proof. done. Qed.

Lemma cipher_ext nr rk rk' inp :
  (forall r, (r <= nr)%nat -> rk r = rk' r) -> cipher nr rk inp = cipher nr rk' inp.
Proof.
  intros H. unfold cipher. cbv zeta. rewrite !H by lia. f_equal. do 2 f_equal.
  apply foldl_ext. intros st i Hi. unfold enc_round.
  apply elem_of_seq in Hi. by rewrite H by lia.
Qed.

Lemma inv_cipher_ext nr rk rk' inp :
  (forall r, (r <= nr)%nat -> rk r = rk' r) -> inv_cipher nr rk inp = inv_cipher nr rk' inp.
Proof.
  intros H. unfold inv_cipher. cbv zeta. rewrite !H by lia. f_equal. do 2 f_equal.
  apply foldl_ext. intros st i Hi. unfold dec_round.
  apply elem_of_reverse, elem_of_seq in Hi. by rewrite H by lia.
Qed.

(** ** The three key sizes *)

Inductive variant := AES128 | AES192 | AES256.

(** Key length in words and number of rounds (FIPS-197, Fig. 4). *)
Definition Nk (v : variant) : nat := match v with AES128 => 4 | AES192 => 6 | AES256 => 8 end.
Definition Nr (v : variant) : nat := match v with AES128 => 10 | AES192 => 12 | AES256 => 14 end.

(** Key setup followed by encryption (decryption) of [blocks] blocks, through the
    public functions. *)
Definition run_encrypt (v : variant) (key : list Z) (blocks : nat) (inp : list Z) : list Z :=
  match v with
  | AES128 => AES128_encrypt (AES128_init key) blocks inp
  | AES192 => AES192_encrypt (AES192_init key) blocks inp
  | AES256 => AES256_encrypt (AES256_init key) blocks inp
  end.

Definition run_decrypt (v : variant) (key : list Z) (blocks : nat) (inp : list Z) : list Z :=
  match v with
  | AES128 => AES128_decrypt (AES128_init key) blocks inp
  | AES192 => AES192_decrypt (AES192_init key) blocks inp
  | AES256 => AES256_decrypt (AES256_init key) blocks inp
  end.

Definition valid_key (v : variant) (key : list Z) : Prop :=
  length key = (4 * Nk v)%nat /\ Forall is_byte key.

Definition fips_encrypt (v : variant) (key : list Z) : nat -> list Z -> list Z :=
  ecb (cipher (Nr v) (round_key (key_expansion (Nk v) (Nr v) key))).
Definition fips_decrypt (v : variant) (key : list Z) : nat -> list Z -> list Z :=
  ecb (inv_cipher (Nr v) (round_key (key_expansion (Nk v) (Nr v) key))).

Lemma run_encrypt_eq v key n inp :
  run_encrypt v key n inp = each_block (AES_encrypt (AES_setup key (Nk v) (Nr v)) (Nr v)) n inp.
Proof. by destruct v. Qed.

Lemma run_decrypt_eq v key n inp :
  run_decrypt v key n inp = each_block (AES_decrypt (AES_setup key (Nk v) (Nr v)) (Nr v)) n inp.
Proof. by destruct v. Qed.

Lemma setup_variant v key :
  valid_key v key -> round_keys_refine (Nk v) (Nr v) key (AES_setup key (Nk v) (Nr v)).
Proof. intros [Hl Hb]. apply AES_setup_refines; [destruct v; simpl; lia | done | done]. Qed.

Lemma seqZ_bytes a n : 0 <= a -> a + n <= 256 -> Forall is_byte (seqZ a n).
Proof. intros. apply Forall_forall. intros x Hx. apply list_elem_of_In, elem_of_seqZ in Hx. unfold is_byte, fits. lia. Qed.

(** ** Properties *)

(** C36. Encryption with any of the three key sizes is FIPS-197 encryption: for
    every key of the right length and every whole number of blocks, the output of
    [AESnnn_encrypt] on the context built by [AESnnn_init] is block by block the
    standard's cipher under the standard's key expansion. *)
Theorem aes_encrypt_is_fips197 v key n inp :
  valid_key v key -> block_input n inp -> run_encrypt v key n inp = fips_encrypt v key n inp.
Proof.
  intros Hk Hin. destruct (setup_variant v key Hk) as (_ & Hwf & Hrk).
  rewrite run_encrypt_eq. unfold fips_encrypt. rewrite <- each_block_ecb.
  apply each_block_ext; [| done]. intros b [Hl Hb].
  rewrite AES_encrypt_refines by done. by apply cipher_ext.
Qed.

Lemma aes_encrypt_is_fips197_witness :
  run_encrypt AES256 (seqZ 0 32) 2 (seqZ 0 32) = fips_encrypt AES256 (seqZ 0 32) 2 (seqZ 0 32).
Proof.
  apply aes_encrypt_is_fips197; (split; [reflexivity | by apply seqZ_bytes]).
Defined.

(** Decryption is the FIPS-197 inverse cipher, in the same sense. *)
Theorem aes_decrypt_is_fips197 v key n inp :
  valid_key v key -> block_input n inp -> run_decrypt v key n inp = fips_decrypt v key n inp.
Proof.
  intros Hk Hin. destruct (setup_variant v key Hk) as (_ & Hwf & Hrk).
  rewrite run_decrypt_eq. unfold fips_decrypt. rewrite <- each_block_ecb.
  apply each_block_ext; [| done]. intros b [Hl Hb].
  rewrite AES_decrypt_refines by done. by apply inv_cipher_ext.
Qed.

Lemma aes_decrypt_is_fips197_witness :
  run_decrypt AES192 (seqZ 0 24) 1 (seqZ 7 16) = fips_decrypt AES192 (seqZ 0 24) 1 (seqZ 7 16).
Proof.
  apply aes_decrypt_is_fips197; (split; [reflexivity | by apply seqZ_bytes]).
Defined.

(** Decryption undoes encryption: for each key size, every key and every
    message made of whole blocks, decrypting the ciphertext under the same key
    gives back the message. *)
Theorem aes_roundtrip v key n inp :
  valid_key v key -> block_input n inp ->
  run_decrypt v key n (run_encrypt v key n inp) = inp.
Proof.
  intros Hk Hin. destruct (setup_variant v key Hk) as (_ & Hwf & _).
  rewrite run_decrypt_eq, run_encrypt_eq. apply each_block_inv; [| done].
  intros b Hb. split; [| by apply length_AES_encrypt].
  destruct Hb. by apply AES_decrypt_encrypt.
Qed.

Lemma aes_roundtrip_witness :
  run_decrypt AES128 (seqZ 0 16) 3 (run_encrypt AES128 (seqZ 0 16) 3 (seqZ 100 48)) = seqZ 100 48.
Proof.
  apply aes_roundtrip; (split; [reflexivity | by apply seqZ_bytes]).
Defined.

(** The gate-level S-box: on every well-formed state the bit-sliced circuit
    applies the FIPS-197 S-box (inversion in GF(2^8), then the affine map), or its
    inverse when [inv] is set, to each of the sixteen bytes at once. *)
Theorem subbytes_circuit_is_sbox s inv :
  state_wf s ->
  SaveBytes (SubBytes s inv) = (if inv then inv_sub_bytes else sub_bytes) (SaveBytes s).
Proof. intros. rewrite !SaveBytes_cells by auto with aes. by apply SubBytes_cells. Qed.

Lemma subbytes_circuit_is_sbox_witness :
  SaveBytes (SubBytes (LoadBytes zero_state (seqZ 80 16)) false) =
    sub_bytes (SaveBytes (LoadBytes zero_state (seqZ 80 16))).
Proof.
  apply (subbytes_circuit_is_sbox _ false), LoadBytes_wf. by apply seqZ_bytes.
Defined.

(** The key schedule: [AES_setup] fills [nrounds + 1] well-formed round keys
    whose bytes are the FIPS-197 key expansion of the key, for each key size. *)
Theorem aes_setup_is_key_expansion v key :
  valid_key v key ->
  let rounds := AES_setup key (Nk v) (Nr v) in
  length rounds = S (Nr v) /\ Forall state_wf rounds /\
  forall r, (r <= Nr v)%nat ->
    SaveBytes (rounds !!! r) = round_key (key_expansion (Nk v) (Nr v) key) r.
Proof.
  intros Hk. destruct (setup_variant v key Hk) as (Hl & Hwf & Hrk). cbv zeta.
  split_and!; [lia | done |]. intros r Hr.
  rewrite SaveBytes_cells by auto with aes. by apply Hrk.
Qed.

Lemma aes_setup_is_key_expansion_witness :
  SaveBytes (AES_setup (seqZ 0 16) 4 10 !!! 10%nat) =
    round_key (key_expansion 4 10 (seqZ 0 16)) 10.
Proof.
  apply (aes_setup_is_key_expansion AES128 (seqZ 0 16)); [| reflexivity].
  split; [reflexivity | by apply seqZ_bytes].
Defined.

(** The FIPS-197 appendix C vectors, evaluated on the model of the code. *)
Example fips197_c1 :
  run_encrypt AES128 (seqZ 0 16) 1 ((fun i => 17 * i) <$> seqZ 0 16) =
    [0x69; 0xc4; 0xe0; 0xd8; 0x6a; 0x7b; 0x04; 0x30; 0xd8; 0xcd; 0xb7; 0x80; 0x70; 0xb4; 0xc5; 0x5a].
Proof. vm_compute. reflexivity. Qed.

Example fips197_c3 :
  run_encrypt AES256 (seqZ 0 32) 1 ((fun i => 17 * i) <$> seqZ 0 16) =
    [0x8e; 0xa2; 0xb7; 0xca; 0x51; 0x67; 0x45; 0xbf; 0xea; 0xfc; 0x49; 0x90; 0x4b; 0x49; 0x60; 0x89].
Proof. vm_compute. reflexivity. Qed.
