(* ===== verification/BlakeSpec.v ===== *)
(** * The BLAKE family, as a specification

    A transcription of the BLAKE hash functions (version 1.2 of the submission
    document: 14 rounds for 224/256, 16 rounds for 384/512) at the level of bit
    strings: compression function, padding, block counter and iteration.  The
    streaming implementation of [Blake.v] is proved to refine [blake_hash]. *)

From S2P Require Import Prelude.
#[local] Open Scope Z_scope.

(** ** Bit strings *)

(** Big-endian value of a bit string. *)
Definition bits_val (l : list bool) : Z := foldl (fun a b => 2 * a + Z.b2z b) 0 l.

(** The [n] low bits of [x], most significant first. *)
Definition val_bits (n : nat) (x : Z) : list bool :=
  (fun i => Z.testbit x (Z.of_nat (n - 1 - i))) <$> seq 0 n.

(** Octet strings as bit strings, most significant bit of each octet first. *)
Definition byte_bits (b : Z) : list bool := val_bits 8 b.
Definition bytes_bits (l : list Z) : list bool := l ≫= byte_bits.

(** Cut a list into pieces of [n] elements. *)
Fixpoint chunks {A} (fuel n : nat) (l : list A) : list (list A) :=
  match fuel, l with
  | S fuel, _ :: _ => take n l :: chunks fuel n (drop n l)
  | _, _ => []
  end.

(** ** Parameters of a BLAKE instance *)

Record family := Family {
  wbytes : nat;                 (** octets in a word: 4 or 8 *)
  rounds : nat;
  constants : list Z;
  rot1 : Z; rot2 : Z; rot3 : Z; rot4 : Z;
}.

(** An instance adds the initial value, the digest length in words and the bit
    that separates the zero padding from the length. *)
Record variant := Variant {
  fam : family;
  iv : list Z;
  out_words : nat;
  mark : bool;
}.

Definition wbits (f : family) : Z := 8 * Z.of_nat (wbytes f).
Definition block_bits (f : family) : Z := 16 * wbits f.

(** ** The compression function *)

Definition permutations : list (list nat) :=
  [[ 0; 1; 2; 3; 4; 5; 6; 7; 8; 9;10;11;12;13;14;15];
   [14;10; 4; 8; 9;15;13; 6; 1;12; 0; 2;11; 7; 5; 3];
   [11; 8;12; 0; 5; 2;15;13;10;14; 3; 6; 7; 1; 9; 4];
   [ 7; 9; 3; 1;13;12;11;14; 2; 6; 5;10; 4; 0;15; 8];
   [ 9; 0; 5; 7; 2; 4;10;15;14; 1;11;12; 6; 8; 3;13];
   [ 2;12; 6;10; 0;11; 8; 3; 4;13; 7; 5;15;14; 1; 9];
   [12; 5; 1;15;14;13; 4;10; 0; 7; 6; 3; 9; 2; 8;11];
   [13;11; 7;14;12; 1; 3; 9; 5; 0;15; 4; 8; 6; 2;10];
   [ 6;15;14; 9;11; 3; 0; 8;12; 2;13; 7; 1; 4;10; 5];
   [10; 2; 8; 4; 7; 6; 1; 5;15;11; 9;14; 3;12;13; 0]]%nat.

(** The permutation used by round [r] (they repeat with period ten). *)
Definition perm (r i : nat) : nat := nth i (nth (r mod 10) permutations []) 0%nat.

(** Rotation of a [w]-bit word to the right. *)
Definition rotr (w x n : Z) : Z := x / 2 ^ n + (x mod 2 ^ n) * 2 ^ (w - n).

Section Compression.
Context (f : family).
Abbreviation w := (wbits f).

(** The function G on the four words of a column or diagonal. *)
Definition mix (m0 m1 c0 c1 a b c d : Z) : Z * Z * Z * Z :=
  let a := wrap w (a + b + (m0 ^^ c1)) in
  let d := rotr w (d ^^ a) (rot1 f) in
  let c := wrap w (c + d) in
  let b := rotr w (b ^^ c) (rot2 f) in
  let a := wrap w (a + b + (m1 ^^ c0)) in
  let d := rotr w (d ^^ a) (rot3 f) in
  let c := wrap w (c + d) in
  let b := rotr w (b ^^ c) (rot4 f) in
  (a, b, c, d).

(** G_i of round [r] applied to the cells [ia ib ic id] of the state. *)
Definition mix_at (r i ia ib ic id : nat) (m v : list Z) : list Z :=
  let j := perm r (2 * i) in
  let k := perm r (2 * i + 1) in
  let '(a, b, c, d) :=
    mix (nth j m 0) (nth k m 0) (nth j (constants f) 0) (nth k (constants f) 0)
        (nth ia v 0) (nth ib v 0) (nth ic v 0) (nth id v 0) in
  <[ia := a]> (<[ib := b]> (<[ic := c]> (<[id := d]> v))).

(** One round: the four columns, then the four diagonals. *)
Definition round (m : list Z) (v : list Z) (r : nat) : list Z :=
  foldl (fun v '(i, (ia, ib, ic, id)) => mix_at r i ia ib ic id m v) v
    [(0, (0, 4, 8, 12)); (1, (1, 5, 9, 13)); (2, (2, 6, 10, 14)); (3, (3, 7, 11, 15));
     (4, (0, 5, 10, 15)); (5, (1, 6, 11, 12)); (6, (2, 7, 8, 13)); (7, (3, 4, 9, 14))]%nat.

(** Initial state: chaining value, salt and counter masked by constants. *)
Definition init_state (h s : list Z) (t : Z) : list Z :=
  let t0 := wrap w t in
  let t1 := wrap w (t / 2 ^ w) in
  h ++ zip_with Z.lxor (s ++ [t0; t0; t1; t1]) (take 8 (constants f)).

(** Final chaining value. *)
Definition finalize (h s v : list Z) : list Z :=
  zip_with Z.lxor h (zip_with Z.lxor (s ++ s) (zip_with Z.lxor (take 8 v) (drop 8 v))).

Definition compress (h s : list Z) (t : Z) (m : list Z) : list Z :=
  finalize h s (foldl (round m) (init_state h s t) (seq 0 (rounds f))).

(** The sixteen words of a block given as a bit string. *)
Definition block_words (blk : list bool) : list Z :=
  bits_val <$> chunks 16 (8 * wbytes f) blk.
End Compression.

(** ** Padding, counter and iteration *)

(** The message, a one, the least number of zeros that leaves room for the
    mark and the two-word length, the mark, the length. *)
Definition padding (v : variant) (msg : list bool) : list bool :=
  let len := Z.of_nat (length msg) in
  let zeros := (block_bits (fam v) - 2 * wbits (fam v) - 2 - len) mod block_bits (fam v) in
  msg ++ [true] ++ replicate (Z.to_nat zeros) false ++ [mark v]
      ++ val_bits (16 * wbytes (fam v)) len.

(** The counter of block [i]: the number of message bits hashed once the block
    has been taken in, and zero when the block holds no message bit. *)
Definition counter (v : variant) (len : Z) (i : nat) : Z :=
  let bb := block_bits (fam v) in
  if Z.of_nat i * bb <? len then Z.min len ((Z.of_nat i + 1) * bb) else 0.

Definition blake_blocks (v : variant) (msg : list bool) : list (list bool) :=
  let p := padding v msg in
  chunks (length p) (Z.to_nat (block_bits (fam v))) p.

(** The chaining value after all the blocks. *)
Definition blake_chain (v : variant) (salt : list Z) (msg : list bool) : list Z :=
  foldl (fun h '(i, blk) =>
           compress (fam v) h salt (counter v (Z.of_nat (length msg)) i)
             (block_words (fam v) blk))
        (iv v) (imap pair (blake_blocks v msg)).

(** The digest, as a bit string. *)
Definition blake_hash (v : variant) (salt : list Z) (msg : list bool) : list bool :=
  take (out_words v) (blake_chain v salt msg) ≫= val_bits (8 * wbytes (fam v)).

(** ** The four instances *)

(** The first 1024 bits of the fractional part of pi, by words. *)
Definition pi_words64 : list Z :=
  [0x243F6A8885A308D3; 0x13198A2E03707344; 0xA4093822299F31D0; 0x082EFA98EC4E6C89;
   0x452821E638D01377; 0xBE5466CF34E90C6C; 0xC0AC29B7C97C50DD; 0x3F84D5B5B5470917;
   0x9216D5D98979FB1B; 0xD1310BA698DFB5AC; 0x2FFD72DBD01ADFB7; 0xB8E1AFED6A267E96;
   0xBA7C9045F12C7F99; 0x24A19947B3916CF7; 0x0801F2E2858EFC16; 0x636920D871574E69].
Definition pi_words32 : list Z :=
  take 16 (pi_words64 ≫= fun x => [x / 2 ^ 32; x mod 2 ^ 32]).

Definition small_family : family := Family 4 14 pi_words32 16 12 8 7.
Definition big_family : family := Family 8 16 pi_words64 32 25 16 11.

(** Initial values of SHA-224, SHA-256, SHA-384 and SHA-512. *)
Definition sha224_iv : list Z :=
  [0xC1059ED8; 0x367CD507; 0x3070DD17; 0xF70E5939;
   0xFFC00B31; 0x68581511; 0x64F98FA7; 0xBEFA4FA4].
Definition sha256_iv : list Z :=
  [0x6A09E667; 0xBB67AE85; 0x3C6EF372; 0xA54FF53A;
   0x510E527F; 0x9B05688C; 0x1F83D9AB; 0x5BE0CD19].
Definition sha384_iv : list Z :=
  [0xCBBB9D5DC1059ED8; 0x629A292A367CD507; 0x9159015A3070DD17; 0x152FECD8F70E5939;
   0x67332667FFC00B31; 0x8EB44A8768581511; 0xDB0C2E0D64F98FA7; 0x47B5481DBEFA4FA4].
Definition sha512_iv : list Z :=
  [0x6A09E667F3BCC908; 0xBB67AE8584CAA73B; 0x3C6EF372FE94F82B; 0xA54FF53A5F1D36F1;
   0x510E527FADE682D1; 0x9B05688C2B3E6C1F; 0x1F83D9ABFB41BD6B; 0x5BE0CD19137E2179].

Definition BLAKE224 : variant := Variant small_family sha224_iv 7 false.
Definition BLAKE256 : variant := Variant small_family sha256_iv 8 true.
Definition BLAKE384 : variant := Variant big_family sha384_iv 6 false.
Definition BLAKE512 : variant := Variant big_family sha512_iv 8 true.

Definition no_salt : list Z := [0; 0; 0; 0].

(** Test vector: the one-octet message 00 of the submission document, appendix B. *)
Example blake256_one_zero_octet :
  bits_val (blake_hash BLAKE256 no_salt (bytes_bits [0])) =
  0x0CE8D4EF4DD7CD8D62DFDED9D4EDB0A774AE6A41929A74DA23109E8F11139C87.
Proof. vm_compute. reflexivity. Qed.
