(* ===== verification/Blake.v ===== *)
(** * blake.c: the BLAKE-224/256/384/512 implementation

    A model of [src/src/crypto/Lyra2Z/blake.c] with the macros it uses from
    [sph_types.h] and the contexts of [sph_blake.h].  The source writes every
    routine twice, for 32-bit words ("small") and 64-bit words ("big"); the two
    copies differ in the literals, in the G macro and in the word codecs, which
    are the fields of [flavour], so each routine is one definition here and the
    two source routines ([blake32], [blake64], ...) are its instances.

    The buffers are lists of octets; a write outside a buffer makes the routine
    return [None], so that the theorems of [BlakeProofs.v] that a routine
    returns [Some] also show that it stays inside its buffers.  Words are
    decoded and encoded by the portable (byte-wise) branches of [sph_types.h]. *)

From S2P Require Import Prelude.
#[local] Open Scope Z_scope.

(** ** Constants *)

Definition IV224 : list Z :=
  [0xC1059ED8; 0x367CD507; 0x3070DD17; 0xF70E5939;
   0xFFC00B31; 0x68581511; 0x64F98FA7; 0xBEFA4FA4].
Definition IV256 : list Z :=
  [0x6A09E667; 0xBB67AE85; 0x3C6EF372; 0xA54FF53A;
   0x510E527F; 0x9B05688C; 0x1F83D9AB; 0x5BE0CD19].
Definition IV384 : list Z :=
  [0xCBBB9D5DC1059ED8; 0x629A292A367CD507; 0x9159015A3070DD17; 0x152FECD8F70E5939;
   0x67332667FFC00B31; 0x8EB44A8768581511; 0xDB0C2E0D64F98FA7; 0x47B5481DBEFA4FA4].
Definition IV512 : list Z :=
  [0x6A09E667F3BCC908; 0xBB67AE8584CAA73B; 0x3C6EF372FE94F82B; 0xA54FF53A5F1D36F1;
   0x510E527FADE682D1; 0x9B05688C2B3E6C1F; 0x1F83D9ABFB41BD6B; 0x5BE0CD19137E2179].

(** Message word order of the compact rounds. *)
Definition sigma : list (list nat) :=
  [[ 0; 1; 2; 3; 4; 5; 6; 7; 8; 9;10;11;12;13;14;15];
   [14;10; 4; 8; 9;15;13; 6; 1;12; 0; 2;11; 7; 5; 3];
   [11; 8;12; 0; 5; 2;15;13;10;14; 3; 6; 7; 1; 9; 4];
   [ 7; 9; 3; 1;13;12;11;14; 2; 6; 5;10; 4; 0;15; 8];
   [ 9; 0; 5; 7; 2; 4;10;15;14; 1;11;12; 6; 8; 3;13];
   [ 2;12; 6;10; 0;11; 8; 3; 4;13; 7; 5;15;14; 1; 9];
   [12; 5; 1;15;14;13; 4;10; 0; 7; 6; 3; 9; 2; 8;11];
   [13;11; 7;14;12; 1; 3; 9; 5; 0;15; 4; 8; 6; 2;10];
   [ 6;15;14; 9;11; 3; 0; 8;12; 2;13; 7; 1; 4;10; 5];
   [10; 2; 8; 4; 7; 6; 1; 5;15;11; 9;14; 3;12;13; 0];
   [ 0; 1; 2; 3; 4; 5; 6; 7; 8; 9;10;11;12;13;14;15];
   [14;10; 4; 8; 9;15;13; 6; 1;12; 0; 2;11; 7; 5; 3];
   [11; 8;12; 0; 5; 2;15;13;10;14; 3; 6; 7; 1; 9; 4];
   [ 7; 9; 3; 1;13;12;11;14; 2; 6; 5;10; 4; 0;15; 8];
   [ 9; 0; 5; 7; 2; 4;10;15;14; 1;11;12; 6; 8; 3;13];
   [ 2;12; 6;10; 0;11; 8; 3; 4;13; 7; 5;15;14; 1; 9]]%nat.

(** Message word order of the unrolled rounds: the macros [Z00] .. [Z9F]. *)
Definition Zmac : list (list nat) :=
  [[ 0; 1; 2; 3; 4; 5; 6; 7; 8; 9;10;11;12;13;14;15];
   [14;10; 4; 8; 9;15;13; 6; 1;12; 0; 2;11; 7; 5; 3];
   [11; 8;12; 0; 5; 2;15;13;10;14; 3; 6; 7; 1; 9; 4];
   [ 7; 9; 3; 1;13;12;11;14; 2; 6; 5;10; 4; 0;15; 8];
   [ 9; 0; 5; 7; 2; 4;10;15;14; 1;11;12; 6; 8; 3;13];
   [ 2;12; 6;10; 0;11; 8; 3; 4;13; 7; 5;15;14; 1; 9];
   [12; 5; 1;15;14;13; 4;10; 0; 7; 6; 3; 9; 2; 8;11];
   [13;11; 7;14;12; 1; 3; 9; 5; 0;15; 4; 8; 6; 2;10];
   [ 6;15;14; 9;11; 3; 0; 8;12; 2;13; 7; 1; 4;10; 5];
   [10; 2; 8; 4; 7; 6; 1; 5;15;11; 9;14; 3;12;13; 0]]%nat.

Definition CS : list Z :=
  [0x243F6A88; 0x85A308D3; 0x13198A2E; 0x03707344;
   0xA4093822; 0x299F31D0; 0x082EFA98; 0xEC4E6C89;
   0x452821E6; 0x38D01377; 0xBE5466CF; 0x34E90C6C;
   0xC0AC29B7; 0xC97C50DD; 0x3F84D5B5; 0xB5470917].
Definition CB : list Z :=
  [0x243F6A8885A308D3; 0x13198A2E03707344; 0xA4093822299F31D0; 0x082EFA98EC4E6C89;
   0x452821E638D01377; 0xBE5466CF34E90C6C; 0xC0AC29B7C97C50DD; 0x3F84D5B5B5470917;
   0x9216D5D98979FB1B; 0xD1310BA698DFB5AC; 0x2FFD72DBD01ADFB7; 0xB8E1AFED6A267E96;
   0xBA7C9045F12C7F99; 0x24A19947B3916CF7; 0x0801F2E2858EFC16; 0x636920D871574E69].

Definition salt_zero_small : list Z := [0; 0; 0; 0].
Definition salt_zero_big : list Z := [0; 0; 0; 0].

(** The macros [CS0] .. [CSF] and [CB0] .. [CBF]. *)
Definition CSmac : list Z :=
  [0x243F6A88; 0x85A308D3; 0x13198A2E; 0x03707344;
   0xA4093822; 0x299F31D0; 0x082EFA98; 0xEC4E6C89;
   0x452821E6; 0x38D01377; 0xBE5466CF; 0x34E90C6C;
   0xC0AC29B7; 0xC97C50DD; 0x3F84D5B5; 0xB5470917].
Definition CBmac : list Z :=
  [0x243F6A8885A308D3; 0x13198A2E03707344; 0xA4093822299F31D0; 0x082EFA98EC4E6C89;
   0x452821E638D01377; 0xBE5466CF34E90C6C; 0xC0AC29B7C97C50DD; 0x3F84D5B5B5470917;
   0x9216D5D98979FB1B; 0xD1310BA698DFB5AC; 0x2FFD72DBD01ADFB7; 0xB8E1AFED6A267E96;
   0xBA7C9045F12C7F99; 0x24A19947B3916CF7; 0x0801F2E2858EFC16; 0x636920D871574E69].

(** ** Word arithmetic (sph_types.h) *)

Definition SPH_T32 (x : Z) : Z := x & 0xFFFFFFFF.
Definition SPH_ROTL32 (x n : Z) : Z := SPH_T32 (u32 (x << n) .| (x >> (32 - n))).
Definition SPH_ROTR32 (x n : Z) : Z := SPH_ROTL32 x (32 - n).
Definition SPH_T64 (x : Z) : Z := x & 0xFFFFFFFFFFFFFFFF.
Definition SPH_ROTL64 (x n : Z) : Z := SPH_T64 (u64 (x << n) .| (x >> (64 - n))).
Definition SPH_ROTR64 (x n : Z) : Z := SPH_ROTL64 x (64 - n).

(** [src] is the octet string starting at the pointer. *)
Definition sph_dec32be_aligned (src : list Z) : Z :=
  (nth 0 src 0 << 24) .| (nth 1 src 0 << 16) .| (nth 2 src 0 << 8) .| nth 3 src 0.
Definition sph_dec64be_aligned (src : list Z) : Z :=
  (nth 0 src 0 << 56) .| (nth 1 src 0 << 48) .| (nth 2 src 0 << 40) .| (nth 3 src 0 << 32)
  .| (nth 4 src 0 << 24) .| (nth 5 src 0 << 16) .| (nth 6 src 0 << 8) .| nth 7 src 0.

(** The octets stored; a store into an [unsigned char] keeps the low eight bits. *)
Definition sph_enc32be (v : Z) : list Z :=
  [u8 (v >> 24); u8 (v >> 16); u8 (v >> 8); u8 v].
Definition sph_enc64be (v : Z) : list Z :=
  [u8 (v >> 56); u8 (v >> 48); u8 (v >> 40); u8 (v >> 32);
   u8 (v >> 24); u8 (v >> 16); u8 (v >> 8); u8 v].

(** ** The G macros *)

Definition GS (m0 m1 c0 c1 a b c d : Z) : Z * Z * Z * Z :=
  let a := SPH_T32 (a + b + (m0 ^^ c1)) in
  let d := SPH_ROTR32 (d ^^ a) 16 in
  let c := SPH_T32 (c + d) in
  let b := SPH_ROTR32 (b ^^ c) 12 in
  let a := SPH_T32 (a + b + (m1 ^^ c0)) in
  let d := SPH_ROTR32 (d ^^ a) 8 in
  let c := SPH_T32 (c + d) in
  let b := SPH_ROTR32 (b ^^ c) 7 in
  (a, b, c, d).

Definition GB (m0 m1 c0 c1 a b c d : Z) : Z * Z * Z * Z :=
  let a := SPH_T64 (a + b + (m0 ^^ c1)) in
  let d := SPH_ROTR64 (d ^^ a) 32 in
  let c := SPH_T64 (c + d) in
  let b := SPH_ROTR64 (b ^^ c) 25 in
  let a := SPH_T64 (a + b + (m1 ^^ c0)) in
  let d := SPH_ROTR64 (d ^^ a) 16 in
  let c := SPH_T64 (c + d) in
  let b := SPH_ROTR64 (b ^^ c) 11 in
  (a, b, c, d).

(** ** The two flavours *)

Record flavour := Flavour {
  word_bits : Z;                    (** width of the word type *)
  word_size : nat;                  (** its octets *)
  SPH_T : Z -> Z;
  G : Z -> Z -> Z -> Z -> Z -> Z -> Z -> Z -> Z * Z * Z * Z;
  C_array : list Z;                 (** constants, compact code *)
  C_macros : list Z;                (** constants, unrolled code *)
  dec_be : list Z -> Z;
  enc_be : Z -> list Z;
  n_rounds : nat;                   (** bound of the compact round loop *)
  round_calls : list nat;           (** arguments of the unrolled ROUND calls *)
  sizeof_buf : Z;
  t_inc : Z;                        (** counter increment per block *)
  T0_reset : Z;                     (** SPH_C32(0xFFFFFE00) *)
  T1_reset : Z;
  bit_limit : Z;                    (** one-block test of close *)
  pad_end : Z;                      (** index of the octet that carries the mark *)
  th_off : Z;
  tl_off : Z;
}.

Definition small : flavour := {|
  word_bits := 32; word_size := 4; SPH_T := SPH_T32; G := GS;
  C_array := CS; C_macros := CSmac;
  dec_be := sph_dec32be_aligned; enc_be := sph_enc32be;
  n_rounds := 14; round_calls := [0; 1; 2; 3; 4; 5; 6; 7; 8; 9; 0; 1; 2; 3]%nat;
  sizeof_buf := 64; t_inc := 512;
  T0_reset := 0xFFFFFE00; T1_reset := 0xFFFFFFFF;
  bit_limit := 446; pad_end := 55; th_off := 56; tl_off := 60 |}.

Definition big : flavour := {|
  word_bits := 64; word_size := 8; SPH_T := SPH_T64; G := GB;
  C_array := CB; C_macros := CBmac;
  dec_be := sph_dec64be_aligned; enc_be := sph_enc64be;
  n_rounds := 16; round_calls := [0; 1; 2; 3; 4; 5; 6; 7; 8; 9; 0; 1; 2; 3; 4; 5]%nat;
  sizeof_buf := 128; t_inc := 1024;
  T0_reset := 0xFFFFFFFFFFFFFC00; T1_reset := 0xFFFFFFFFFFFFFFFF;
  bit_limit := 894; pad_end := 111; th_off := 112; tl_off := 120 |}.

(** The context [sph_blake_small_context] / [sph_blake_big_context]. *)
Record context := Context_ {
  sc_buf : list Z;
  sc_ptr : Z;
  sc_H : list Z;
  sc_S : list Z;
  sc_T0 : Z;
  sc_T1 : Z;
}.

Section Routines.
Context (F : flavour).

(** *** Rounds and compression *)

(** The sixteen message words read from the buffer. *)
Definition load_words (buf : list Z) : list Z :=
  (fun i => dec_be F (drop (word_size F * i) buf)) <$> seq 0 16.

(** The eight G applications shared by both ROUND macros: [Mx i] and [Cx i]
    are the message word and the constant selected for position [i]. *)
Definition round_body (Mx Cx : nat -> Z) (V : list Z) : list Z :=
  match V with
  | [V0; V1; V2; V3; V4; V5; V6; V7; V8; V9; VA; VB; VC; VD; VE; VF] =>
      let '(V0, V4, V8, VC) := G F (Mx 0%nat) (Mx 1%nat) (Cx 0%nat) (Cx 1%nat) V0 V4 V8 VC in
      let '(V1, V5, V9, VD) := G F (Mx 2%nat) (Mx 3%nat) (Cx 2%nat) (Cx 3%nat) V1 V5 V9 VD in
      let '(V2, V6, VA, VE) := G F (Mx 4%nat) (Mx 5%nat) (Cx 4%nat) (Cx 5%nat) V2 V6 VA VE in
      let '(V3, V7, VB, VF) := G F (Mx 6%nat) (Mx 7%nat) (Cx 6%nat) (Cx 7%nat) V3 V7 VB VF in
      let '(V0, V5, VA, VF) := G F (Mx 8%nat) (Mx 9%nat) (Cx 8%nat) (Cx 9%nat) V0 V5 VA VF in
      let '(V1, V6, VB, VC) := G F (Mx 10%nat) (Mx 11%nat) (Cx 10%nat) (Cx 11%nat) V1 V6 VB VC in
      let '(V2, V7, V8, VD) := G F (Mx 12%nat) (Mx 13%nat) (Cx 12%nat) (Cx 13%nat) V2 V7 V8 VD in
      let '(V3, V4, V9, VE) := G F (Mx 14%nat) (Mx 15%nat) (Cx 14%nat) (Cx 15%nat) V3 V4 V9 VE in
      [V0; V1; V2; V3; V4; V5; V6; V7; V8; V9; VA; VB; VC; VD; VE; VF]
  | _ => V
  end.

(** ROUND_S / ROUND_B, compact: through the table [sigma] and the array. *)
Definition ROUND_compact (M V : list Z) (r : nat) : list Z :=
  round_body (fun i => nth (nth i (nth r sigma []) 0%nat) M 0)
             (fun i => nth (nth i (nth r sigma []) 0%nat) (C_array F) 0) V.

(** ROUND_S / ROUND_B, unrolled: through the [Z] macros and [CSx] / [CBx]. *)
Definition ROUND (M V : list Z) (r : nat) : list Z :=
  round_body (fun i => nth (nth i (nth r Zmac []) 0%nat) M 0)
             (fun i => nth (nth i (nth r Zmac []) 0%nat) (C_macros F) 0) V.

(** The assignments to V0 .. VF that open the compression. *)
Definition V_init (H S : list Z) (T0 T1 : Z) : list Z :=
  let c i := nth i (C_macros F) 0 in
  [nth 0 H 0; nth 1 H 0; nth 2 H 0; nth 3 H 0; nth 4 H 0; nth 5 H 0; nth 6 H 0; nth 7 H 0;
   nth 0 S 0 ^^ c 0%nat; nth 1 S 0 ^^ c 1%nat; nth 2 S 0 ^^ c 2%nat; nth 3 S 0 ^^ c 3%nat;
   T0 ^^ c 4%nat; T0 ^^ c 5%nat; T1 ^^ c 6%nat; T1 ^^ c 7%nat].

(** The updates [H0 ^= S0 ^ V0 ^ V8] .. that close it. *)
Definition H_final (H S V : list Z) : list Z :=
  let h i := nth i H 0 in let s i := nth i S 0 in let v i := nth i V 0 in
  [h 0%nat ^^ (s 0%nat ^^ v 0%nat ^^ v 8%nat); h 1%nat ^^ (s 1%nat ^^ v 1%nat ^^ v 9%nat);
   h 2%nat ^^ (s 2%nat ^^ v 2%nat ^^ v 10%nat); h 3%nat ^^ (s 3%nat ^^ v 3%nat ^^ v 11%nat);
   h 4%nat ^^ (s 0%nat ^^ v 4%nat ^^ v 12%nat); h 5%nat ^^ (s 1%nat ^^ v 5%nat ^^ v 13%nat);
   h 6%nat ^^ (s 2%nat ^^ v 6%nat ^^ v 14%nat); h 7%nat ^^ (s 3%nat ^^ v 7%nat ^^ v 15%nat)].

Definition COMPRESS_compact (H S : list Z) (T0 T1 : Z) (buf : list Z) : list Z :=
  let V := V_init H S T0 T1 in
  let M := load_words buf in
  let V := for_loop (n_rounds F) (fun r V => ROUND_compact M V r) V in
  H_final H S V.

Definition COMPRESS (H S : list Z) (T0 T1 : Z) (buf : list Z) : list Z :=
  let V := V_init H S T0 T1 in
  let M := load_words buf in
  let V := foldl (ROUND M) V (round_calls F) in
  H_final H S V.

(** *** Streaming *)

Definition blake_init (sc : context) (iv salt : list Z) : context :=
  {| sc_buf := sc_buf sc; sc_ptr := 0; sc_H := iv; sc_S := salt; sc_T0 := 0; sc_T1 := 0 |}.

(** The [while (len > 0)] loop; the locals are the fields of the context, which
    READ_STATE loads before the loop and WRITE_STATE stores after it. *)
Fixpoint blake_loop (fuel : nat) (sc : context) (data : list Z) : option context :=
  match fuel with
  | O => None
  | S fuel =>
      let len := Z.of_nat (length data) in
      if 0 <? len then
        let clen := u64 (sizeof_buf F - sc_ptr sc) in
        let clen := if len <? clen then len else clen in
        b ← buf_write (sc_ptr sc) (take (Z.to_nat clen) data) (sc_buf sc);
        let p := u64 (sc_ptr sc + clen) in
        let data := drop (Z.to_nat clen) data in
        if p =? sizeof_buf F then
          let t0 := SPH_T F (sc_T0 sc + t_inc F) in
          let t1 := if t0 <? t_inc F then SPH_T F (sc_T1 sc + 1) else sc_T1 sc in
          blake_loop fuel
            {| sc_buf := b; sc_ptr := 0; sc_H := COMPRESS (sc_H sc) (sc_S sc) t0 t1 b;
               sc_S := sc_S sc; sc_T0 := t0; sc_T1 := t1 |} data
        else
          blake_loop fuel
            {| sc_buf := b; sc_ptr := p; sc_H := sc_H sc; sc_S := sc_S sc;
               sc_T0 := sc_T0 sc; sc_T1 := sc_T1 sc |} data
      else Some sc
  end.

(** blake32 / blake64: take [data] in.  Every iteration consumes an octet, so
    [length data + 1] iterations are enough. *)
Definition blake_update (sc : context) (data : list Z) : option context :=
  if Z.of_nat (length data) <? u64 (sizeof_buf F - sc_ptr sc) then
    b ← buf_write (sc_ptr sc) data (sc_buf sc);
    Some {| sc_buf := b; sc_ptr := u64 (sc_ptr sc + Z.of_nat (length data));
            sc_H := sc_H sc; sc_S := sc_S sc; sc_T0 := sc_T0 sc; sc_T1 := sc_T1 sc |}
  else blake_loop (S (length data)) sc data.

Definition set_T (sc : context) (t0 t1 : Z) : context :=
  {| sc_buf := sc_buf sc; sc_ptr := sc_ptr sc; sc_H := sc_H sc; sc_S := sc_S sc;
     sc_T0 := t0; sc_T1 := t1 |}.

(** The output loop [for (k = 0; k < out_size; k++) sph_enc32be(out + 4 k, H[k])]. *)
Definition write_digest (H : list Z) (out_size : nat) (dst : list Z) : option (list Z) :=
  for_loop out_size
    (fun k dst => dst ← dst;
       buf_write (Z.of_nat (word_size F * k)) (enc_be F (nth k H 0)) dst) (Some dst).

(** blake32_close / blake64_close.  [u0] is the uninitialised local buffer
    [u.buf], [dst] the caller's output buffer; the result is the context left
    behind and the output buffer. *)
Definition blake_close (sc : context) (ub n : Z) (u0 dst : list Z) (out_size : nat)
    : option (context * list Z) :=
  let p := sc_ptr sc in
  let bit_len := u32 (u32 (u32 p << 3) + n) in
  let z := 0x80 >> n in
  u ← buf_write p [((ub & u32 (- z)) .| z) & 0xFF] u0;
  let tl := wrap (word_bits F) (sc_T0 sc + bit_len) in
  let th := sc_T1 sc in
  let sc :=
    if (p =? 0) && (n =? 0) then set_T sc (T0_reset F) (T1_reset F)
    else if sc_T0 sc =? 0 then
      set_T sc (wrap (word_bits F) (T0_reset F + bit_len)) (SPH_T F (sc_T1 sc - 1))
    else set_T sc (wrap (word_bits F) (sc_T0 sc - u32 (t_inc F - bit_len))) (sc_T1 sc) in
  sc ← (if bit_len <=? bit_limit F then
    u ← buf_fill (p + 1) 0 (u64 (pad_end F - p)) u;
    u ← (if Nat.eqb out_size 8 then
           buf_write (pad_end F) [nth (Z.to_nat (pad_end F)) u 0 .| 1] u else Some u);
    u ← buf_write (th_off F) (enc_be F th) u;
    u ← buf_write (tl_off F) (enc_be F tl) u;
    blake_update sc (drop (Z.to_nat p) u)
  else
    u ← buf_fill (p + 1) 0 (u64 (sizeof_buf F - 1 - p)) u;
    sc ← blake_update sc (drop (Z.to_nat p) u);
    let sc := set_T sc (T0_reset F) (T1_reset F) in
    u ← buf_fill 0 0 (th_off F) u;
    u ← (if Nat.eqb out_size 8 then buf_write (pad_end F) [1] u else Some u);
    u ← buf_write (th_off F) (enc_be F th) u;
    u ← buf_write (tl_off F) (enc_be F tl) u;
    blake_update sc u);
  out ← write_digest (sc_H sc) out_size dst;
  Some (sc, out).
End Routines.

(** ** The routines of the source *)

(** Both sets of macros: with [SPH_COMPACT_BLAKE_32] / [_64] and without. *)
Definition ROUND_S_compact := ROUND_compact small.
Definition ROUND_S := ROUND small.
Definition ROUND_B_compact := ROUND_compact big.
Definition ROUND_B := ROUND big.
Definition COMPRESS32_compact := COMPRESS_compact small.
Definition COMPRESS32 := COMPRESS small.
Definition COMPRESS64_compact := COMPRESS_compact big.
Definition COMPRESS64 := COMPRESS big.
Definition blake32_init := blake_init.
Definition blake32 := blake_update small.
Definition blake32_close := blake_close small.
Definition blake64_init := blake_init.
Definition blake64 := blake_update big.
Definition blake64_close := blake_close big.

Definition sph_blake224_init (cc : context) : context := blake32_init cc IV224 salt_zero_small.
Definition sph_blake224 (cc : context) (data : list Z) : option context := blake32 cc data.
Definition sph_blake224_addbits_and_close (cc : context) (ub n : Z) (u0 dst : list Z)
    : option (context * list Z) :=
  '(cc, out) ← blake32_close cc ub n u0 dst 7;
  Some (sph_blake224_init cc, out).
Definition sph_blake224_close (cc : context) (u0 dst : list Z) : option (context * list Z) :=
  sph_blake224_addbits_and_close cc 0 0 u0 dst.

Definition sph_blake256_init (cc : context) : context := blake32_init cc IV256 salt_zero_small.
Definition sph_blake256 (cc : context) (data : list Z) : option context := blake32 cc data.
Definition sph_blake256_addbits_and_close (cc : context) (ub n : Z) (u0 dst : list Z)
    : option (context * list Z) :=
  '(cc, out) ← blake32_close cc ub n u0 dst 8;
  Some (sph_blake256_init cc, out).
Definition sph_blake256_close (cc : context) (u0 dst : list Z) : option (context * list Z) :=
  sph_blake256_addbits_and_close cc 0 0 u0 dst.

Definition sph_blake384_init (cc : context) : context := blake64_init cc IV384 salt_zero_big.
Definition sph_blake384 (cc : context) (data : list Z) : option context := blake64 cc data.
Definition sph_blake384_addbits_and_close (cc : context) (ub n : Z) (u0 dst : list Z)
    : option (context * list Z) :=
  '(cc, out) ← blake64_close cc ub n u0 dst 6;
  Some (sph_blake384_init cc, out).
Definition sph_blake384_close (cc : context) (u0 dst : list Z) : option (context * list Z) :=
  sph_blake384_addbits_and_close cc 0 0 u0 dst.

Definition sph_blake512_init (cc : context) : context := blake64_init cc IV512 salt_zero_big.
Definition sph_blake512 (cc : context) (data : list Z) : option context := blake64 cc data.
Definition sph_blake512_addbits_and_close (cc : context) (ub n : Z) (u0 dst : list Z)
    : option (context * list Z) :=
  '(cc, out) ← blake64_close cc ub n u0 dst 8;
  Some (sph_blake512_init cc, out).
Definition sph_blake512_close (cc : context) (u0 dst : list Z) : option (context * list Z) :=
  sph_blake512_addbits_and_close cc 0 0 u0 dst.
