(* ===== verification/BlakeCore.v ===== *)
(** * blake.c: the compression function and the streaming interface

    [flavour_ok F f] states what the streaming code of [Blake.v] needs from a
    flavour: its macros, codecs and literals implement the family [f] of
    [BlakeSpec.v].  The instances for [small] and [big] discharge it; from it the
    file derives that COMPRESS is the specified compression of a block of octets
    and that the compact and the unrolled code agree. *)

From S2P Require Import Prelude BlakeSpec Blake.
#[local] Open Scope Z_scope.

(** ** Words *)

Lemma rotr_fits w x n : 0 <= n <= w -> fits w x -> fits w (rotr w x n).
Proof.
  intros [? ?] [? Hx]. unfold rotr, fits.
  assert (E : 2 ^ w = 2 ^ (w - n) * 2 ^ n) by (rewrite <- Z.pow_add_r by lia; f_equal; lia).
  pose proof (pow2_pos n). pose proof (pow2_pos (w - n)).
  pose proof (Z.mod_pos_bound x (2 ^ n)).
  assert (0 <= x / 2 ^ n < 2 ^ (w - n)).
  { split; [apply Z.div_pos; lia | apply Z.div_lt_upper_bound; lia]. }
  nia.
Qed.

(** The shift-and-or idiom is the rotation. *)
Lemma rotr_idiom w x n :
  0 < n < w -> fits w x -> wrap w (x << (w - n)) .| (x >> n) = rotr w x n.
Proof.
  intros Hn Hx.
  assert (E : 2 ^ w = 2 ^ n * 2 ^ (w - n)) by (rewrite <- Z.pow_add_r by lia; f_equal; lia).
  pose proof (pow2_pos n). pose proof (pow2_pos (w - n)).
  assert (Hsh : wrap w (x << (w - n)) = (x mod 2 ^ n) << (w - n)).
  { unfold wrap. rewrite !Z.shiftl_mul_pow2, E by lia. apply Z.mul_mod_distr_r; lia. }
  assert (Hr : (x >> n) = x / 2 ^ n) by (rewrite Z.shiftr_div_pow2 by lia; done).
  assert (fits (w - n) (x / 2 ^ n)).
  { destruct Hx. split; [apply Z.div_pos; lia | apply Z.div_lt_upper_bound; lia]. }
  rewrite Hsh, Hr, lor_shift_add by (done || lia). apply Z.add_comm.
Qed.

Lemma rotl_idiom w x n :
  0 < n < w -> fits w x -> wrap w (wrap w (x << (w - n)) .| (x >> n)) = rotr w x n.
Proof.
  intros. rewrite rotr_idiom by done. apply wrap_id, rotr_fits; [lia | done].
Qed.

Lemma SPH_T32_wrap x : SPH_T32 x = u32 x.
Proof. apply (Z.land_ones x 32). lia. Qed.

Lemma SPH_T64_wrap x : SPH_T64 x = u64 x.
Proof. apply (Z.land_ones x 64). lia. Qed.

Lemma SPH_ROTR32_rotr x n : 0 < n < 32 -> fits 32 x -> SPH_ROTR32 x n = rotr 32 x n.
Proof.
  intros. unfold SPH_ROTR32, SPH_ROTL32. rewrite SPH_T32_wrap.
  replace (32 - (32 - n)) with n by lia. by apply rotl_idiom.
Qed.

Lemma SPH_ROTR64_rotr x n : 0 < n < 64 -> fits 64 x -> SPH_ROTR64 x n = rotr 64 x n.
Proof.
  intros. unfold SPH_ROTR64, SPH_ROTL64. rewrite SPH_T64_wrap.
  replace (64 - (64 - n)) with n by lia. by apply rotl_idiom.
Qed.

#[export] Hint Resolve rotr_fits : fits.

(** ** Bit strings and octets *)

Lemma length_val_bits n x : length (val_bits n x) = n.
Proof. unfold val_bits. by rewrite length_fmap, length_seq. Qed.

Lemma val_bits_app n m x :
  val_bits (n + m) x = val_bits n (x >> Z.of_nat m) ++ val_bits m x.
Proof.
  unfold val_bits. rewrite seq_app, fmap_app. f_equal.
  - apply list_fmap_ext. intros i j Hij. apply lookup_seq in Hij as [-> ?].
    rewrite Z.shiftr_spec by lia. f_equal. lia.
  - change (0 + n)%nat with n. replace (seq n m) with (Nat.add n <$> seq 0 m)
      by (rewrite fmap_add_seq; f_equal; lia).
    rewrite <- list_fmap_compose. apply list_fmap_ext. intros i j Hij.
    apply lookup_seq in Hij as [-> ?]. simpl. f_equal. lia.
Qed.

Lemma val_bits_wrap n x : val_bits n (wrap (Z.of_nat n) x) = val_bits n x.
Proof.
  unfold val_bits. apply list_fmap_ext. intros i j Hij. apply lookup_seq in Hij as [-> ?].
  rewrite wrap_testbit by lia. destruct (Z.ltb_spec (Z.of_nat (n - 1 - (0 + i))) (Z.of_nat n)); [done | lia].
Qed.

Lemma bits_val_app l1 l2 :
  bits_val (l1 ++ l2) = bits_val l1 * 2 ^ Z.of_nat (length l2) + bits_val l2.
Proof.
  assert (G : forall l a, foldl (fun a b => 2 * a + Z.b2z b) a l
                          = a * 2 ^ Z.of_nat (length l) + bits_val l).
  { unfold bits_val. induction l as [|b l IH]; intros a; [simpl; lia |].
    cbn [foldl length]. rewrite IH, (IH (2 * 0 + _)).
    rewrite Nat2Z.inj_succ, Z.pow_succ_r by lia. lia. }
  unfold bits_val at 1. rewrite foldl_app, G. done.
Qed.

(** [bits_val] inverts [val_bits] on values that fit. *)
Lemma bits_val_val_bits n x : fits (Z.of_nat n) x -> bits_val (val_bits n x) = x.
Proof.
  revert x. induction n as [|n IH]; intros x Hx.
  { destruct Hx. change (bits_val (val_bits 0 x)) with 0. lia. }
  replace (S n) with (n + 1)%nat by lia.
  rewrite val_bits_app, bits_val_app, length_val_bits, IH.
  - rewrite Z.shiftr_div_pow2 by lia.
    change (bits_val (val_bits 1 x)) with (2 * 0 + Z.b2z (Z.testbit x 0)).
    rewrite Z.bit0_mod. change (2 ^ Z.of_nat 1) with 2. pose proof (Z.div_mod x 2). lia.
  - destruct Hx as [? Hx]. rewrite Nat2Z.inj_succ, Z.pow_succ_r in Hx by lia.
    rewrite Z.shiftr_div_pow2 by lia. change (2 ^ Z.of_nat 1) with 2.
    split; [apply Z.div_pos; lia | apply Z.div_lt_upper_bound; lia].
Qed.

Lemma length_bytes_bits l : length (bytes_bits l) = (8 * length l)%nat.
Proof.
  induction l as [|b l IH]; [done |].
  change (bytes_bits (b :: l)) with (byte_bits b ++ bytes_bits l).
  rewrite length_app, IH. unfold byte_bits. rewrite length_val_bits. simpl. lia.
Qed.

Lemma bytes_bits_cons b l : bytes_bits (b :: l) = byte_bits b ++ bytes_bits l.
Proof. done. Qed.

Lemma bytes_bits_app l1 l2 : bytes_bits (l1 ++ l2) = bytes_bits l1 ++ bytes_bits l2.
Proof. unfold bytes_bits. by rewrite bind_app. Qed.

(** Value of an octet string, one octet at a time. *)
Lemma bits_val_bytes_snoc l b :
  fits 8 b -> bits_val (bytes_bits (l ++ [b])) = bits_val (bytes_bits l) * 2 ^ 8 + b.
Proof.
  intros. rewrite bytes_bits_app, bits_val_app. f_equal.
  change (bytes_bits [b]) with (byte_bits b ++ []). rewrite app_nil_r.
  by apply bits_val_val_bits.
Qed.

Lemma byte_bits_u8 x : byte_bits (u8 x) = byte_bits x.
Proof. apply (val_bits_wrap 8). Qed.

(** The word codecs. *)
Lemma dec_be_step a b k : 0 <= k -> fits 8 b -> (a << (k + 8)) .| (b << k) = ((a * 2 ^ 8 + b) << k).
Proof.
  intros. rewrite <- (lor_shift_add 8), Z.shiftl_lor, Z.shiftl_shiftl by (done || lia).
  by rewrite (Z.add_comm 8).
Qed.

Lemma sph_dec32be_val b0 b1 b2 b3 rest :
  Forall (fits 8) [b0; b1; b2; b3] ->
  sph_dec32be_aligned (b0 :: b1 :: b2 :: b3 :: rest) = bits_val (bytes_bits [b0; b1; b2; b3]).
Proof.
  intros. forall_split. unfold sph_dec32be_aligned; cbn [nth].
  change (b0 << 24) with (b0 << (16 + 8)). rewrite dec_be_step by (done || lia).
  change 16 with (8 + 8). rewrite dec_be_step by (done || lia).
  rewrite lor_shift_add by (done || lia).
  change [b0; b1; b2; b3] with (((([] ++ [b0]) ++ [b1]) ++ [b2]) ++ [b3]).
  rewrite !bits_val_bytes_snoc by done. change (bits_val (bytes_bits [])) with 0. lia.
Qed.

Lemma sph_dec64be_val b0 b1 b2 b3 b4 b5 b6 b7 rest :
  Forall (fits 8) [b0; b1; b2; b3; b4; b5; b6; b7] ->
  sph_dec64be_aligned (b0 :: b1 :: b2 :: b3 :: b4 :: b5 :: b6 :: b7 :: rest)
  = bits_val (bytes_bits [b0; b1; b2; b3; b4; b5; b6; b7]).
Proof.
  intros. forall_split. unfold sph_dec64be_aligned; cbn [nth].
  change (b0 << 56) with (b0 << (48 + 8)). rewrite dec_be_step by (done || lia).
  change 48 with (40 + 8). rewrite dec_be_step by (done || lia).
  change 40 with (32 + 8). rewrite dec_be_step by (done || lia).
  change 32 with (24 + 8). rewrite dec_be_step by (done || lia).
  change 24 with (16 + 8). rewrite dec_be_step by (done || lia).
  change 16 with (8 + 8). rewrite dec_be_step by (done || lia).
  rewrite lor_shift_add by (done || lia).
  change [b0; b1; b2; b3; b4; b5; b6; b7]
    with (((((((([] ++ [b0]) ++ [b1]) ++ [b2]) ++ [b3]) ++ [b4]) ++ [b5]) ++ [b6]) ++ [b7]).
  rewrite !bits_val_bytes_snoc by done. change (bits_val (bytes_bits [])) with 0. lia.
Qed.

Lemma sph_enc32be_bits v : bytes_bits (sph_enc32be v) = val_bits 32 v.
Proof.
  unfold sph_enc32be. rewrite !bytes_bits_cons, !byte_bits_u8. unfold byte_bits.
  change 32%nat with (8 + (8 + (8 + 8)))%nat. rewrite !val_bits_app. by rewrite app_nil_r.
Qed.

Lemma sph_enc64be_bits v : bytes_bits (sph_enc64be v) = val_bits 64 v.
Proof.
  unfold sph_enc64be. rewrite !bytes_bits_cons, !byte_bits_u8. unfold byte_bits.
  change 64%nat with (8 + (8 + (8 + (8 + (8 + (8 + (8 + 8)))))))%nat.
  rewrite !val_bits_app. by rewrite app_nil_r.
Qed.

(** ** What the streaming code relies on *)

Class flavour_ok (F : flavour) (f : family) := {
  ok_word : (0 < wbytes f)%nat /\ 8 * Z.of_nat (wbytes f) <= 64;
  ok_divide : (block_bits f | 2 ^ wbits f);
  ok_word_bits : word_bits F = wbits f;
  ok_word_size : word_size F = wbytes f;
  ok_constants : length (constants f) = 16%nat /\ Forall (fits (wbits f)) (constants f);
  ok_C_array : C_array F = constants f;
  ok_C_macros : C_macros F = constants f;
  ok_T x : SPH_T F x = wrap (wbits f) x;
  ok_G m0 m1 c0 c1 a b c d :
    Forall (fits (wbits f)) [a; b; c; d] ->
    G F m0 m1 c0 c1 a b c d = mix f m0 m1 c0 c1 a b c d;
  ok_rots : Forall (fun n => 0 <= n <= wbits f) [rot1 f; rot2 f; rot3 f; rot4 f];
  ok_dec src :
    Forall (fits 8) src -> (wbytes f <= length src)%nat ->
    dec_be F src = bits_val (bytes_bits (take (wbytes f) src));
  ok_enc v : bytes_bits (enc_be F v) = val_bits (8 * wbytes f) v;
  ok_enc_wf v : length (enc_be F v) = wbytes f /\ Forall (fits 8) (enc_be F v);
  ok_n_rounds : n_rounds F = rounds f /\ (rounds f <= 16)%nat;
  ok_round_calls : round_calls F = (fun r => r mod 10)%nat <$> seq 0 (rounds f);
  ok_sizeof_buf : sizeof_buf F = 16 * Z.of_nat (wbytes f);
  ok_t_inc : t_inc F = block_bits f;
  ok_T0_reset : T0_reset F = 2 ^ wbits f - block_bits f;
  ok_T1_reset : T1_reset F = 2 ^ wbits f - 1;
  ok_bit_limit : bit_limit F = block_bits f - 2 * wbits f - 2;
  ok_pad_end : pad_end F = 14 * Z.of_nat (wbytes f) - 1;
  ok_th_off : th_off F = 14 * Z.of_nat (wbytes f);
  ok_tl_off : tl_off F = 15 * Z.of_nat (wbytes f);
}.

Lemma GS_mix m0 m1 c0 c1 a b c d :
  Forall (fits 32) [a; b; c; d] ->
  GS m0 m1 c0 c1 a b c d = mix small_family m0 m1 c0 c1 a b c d.
Proof.
  intros. forall_split. unfold GS, mix. rewrite !SPH_T32_wrap.
  change (wbits small_family) with 32. cbn [rot1 rot2 rot3 rot4 small_family].
  rewrite !SPH_ROTR32_rotr by (lia || solve_fits). done.
Qed.

Lemma GB_mix m0 m1 c0 c1 a b c d :
  Forall (fits 64) [a; b; c; d] ->
  GB m0 m1 c0 c1 a b c d = mix big_family m0 m1 c0 c1 a b c d.
Proof.
  intros. forall_split. unfold GB, mix. rewrite !SPH_T64_wrap.
  change (wbits big_family) with 64. cbn [rot1 rot2 rot3 rot4 big_family].
  rewrite !SPH_ROTR64_rotr by (lia || solve_fits). done.
Qed.

(** A range check on closed words. *)
Definition fitsb (w x : Z) : bool := (0 <=? x) && (x <? 2 ^ w).

Lemma fitsb_forall w l : forallb (fitsb w) l = true -> Forall (fits w) l.
Proof.
  unfold fitsb, fits. rewrite forallb_forall, Forall_forall. intros H x Hx.
  apply H in Hx. lia.
Qed.

Lemma enc_bytes_fits l : Forall (fits 8) ((fun x => u8 x) <$> l).
Proof. apply Forall_fmap, Forall_true. intros x. apply wrap_fits. lia. Qed.

#[export] Instance small_ok : flavour_ok small small_family.
Proof.
  split; try reflexivity.
  - cbn. lia.
  - by exists (2 ^ 23).
  - split; [done | by apply fitsb_forall].
  - intros x. apply SPH_T32_wrap.
  - intros. by apply GS_mix.
  - forall_build ltac:(vm_compute; split; discriminate).
  - intros src Hb Hl. cbn [wbytes small_family] in *.
    destruct src as [|? [|? [|? [|? ?]]]]; simpl in Hl; try lia.
    apply sph_dec32be_val. forall_split. forall_build done.
  - intros v. apply sph_enc32be_bits.
  - intros v. split; [done |].
    exact (enc_bytes_fits [v >> 24; v >> 16; v >> 8; v]).
  - cbn. lia.
Qed.

#[export] Instance big_ok : flavour_ok big big_family.
Proof.
  split; try reflexivity.
  - cbn. lia.
  - by exists (2 ^ 54).
  - split; [done | by apply fitsb_forall].
  - intros x. apply SPH_T64_wrap.
  - intros. by apply GB_mix.
  - forall_build ltac:(vm_compute; split; discriminate).
  - intros src Hb Hl. cbn [wbytes big_family] in *.
    destruct src as [|? [|? [|? [|? [|? [|? [|? [|? ?]]]]]]]]; simpl in Hl; try lia.
    apply sph_dec64be_val. forall_split. forall_build done.
  - intros v. apply sph_enc64be_bits.
  - intros v. split; [done |].
    exact (enc_bytes_fits
             [v >> 56; v >> 48; v >> 40; v >> 32; v >> 24; v >> 16; v >> 8; v]).
  - cbn. lia.
Qed.

(** ** Cutting octet strings *)

Lemma chunks_seq {A} n k (l : list A) :
  (0 < k)%nat -> length l = (n * k)%nat ->
  chunks n k l = (fun i => take k (drop (k * i) l)) <$> seq 0 n.
Proof.
  intros Hk. revert l. induction n as [|n IH]; intros l Hl; [done |].
  destruct l as [|x l]; [simpl in Hl; lia |].
  cbn [chunks]. rewrite IH by (rewrite length_drop, Hl; lia).
  rewrite <- cons_seq, <- fmap_S_seq. cbn [fmap list_fmap].
  rewrite Nat.mul_0_r. f_equal. rewrite <- list_fmap_compose.
  apply list_fmap_ext. intros i j Hij. simpl. f_equal.
  rewrite drop_drop. f_equal. lia.
Qed.

Lemma take_bytes_bits k l : take (8 * k) (bytes_bits l) = bytes_bits (take k l).
Proof.
  rewrite <- (take_drop k l) at 1. rewrite bytes_bits_app.
  destruct (decide (k <= length l)%nat).
  - rewrite take_app_length' by (rewrite length_bytes_bits, length_take; lia). done.
  - rewrite take_ge; rewrite drop_ge by lia; [apply app_nil_r |].
    rewrite length_app, length_bytes_bits, length_take. change (bytes_bits []) with (@nil bool). simpl. lia.
Qed.

Lemma drop_bytes_bits k l : drop (8 * k) (bytes_bits l) = bytes_bits (drop k l).
Proof.
  rewrite <- (take_drop k l) at 1. rewrite bytes_bits_app.
  destruct (decide (k <= length l)%nat).
  - rewrite drop_app_length' by (rewrite length_bytes_bits, length_take; lia). done.
  - rewrite drop_ge; [by rewrite drop_ge by lia |].
    rewrite length_app, !length_bytes_bits, length_take, length_drop. lia.
Qed.

(** ** Rounds and compression *)

Lemma sigma_row r : (r < 16)%nat -> nth r sigma [] = nth (r mod 10) permutations [].
Proof. intros. do 16 (destruct r as [|r]; [reflexivity |]). lia. Qed.

Lemma Zmac_row r : (r < 10)%nat -> nth r Zmac [] = nth (r mod 10) permutations [].
Proof. intros. do 10 (destruct r as [|r]; [reflexivity |]). lia. Qed.

Section Core.
Context {F : flavour} {f : family} `{OK : !flavour_ok F f}.
Abbreviation w := (wbits f).

Lemma wbits_pos : 0 < w <= 64.
Proof. destruct ok_word. unfold wbits. lia. Qed.

Lemma wfits_lxor x y : fits w x -> fits w y -> fits w (x ^^ y).
Proof. pose proof wbits_pos. apply lxor_fits. lia. Qed.

Lemma mix_fits m0 m1 c0 c1 a b c d a' b' c' d' :
  Forall (fits w) [a; b; c; d] ->
  mix f m0 m1 c0 c1 a b c d = (a', b', c', d') -> Forall (fits w) [a'; b'; c'; d'].
Proof.
  intros Hf E. pose proof wbits_pos. pose proof ok_rots. forall_split.
  injection E as <- <- <- <-.
  forall_build ltac:(repeat (apply wrap_fits || apply rotr_fits || apply wfits_lxor); lia || done).
Qed.

Lemma mix_at_eq r i ia ib ic id m v a b c d :
  mix f (nth (perm r (2 * i)) m 0) (nth (perm r (2 * i + 1)) m 0)
        (nth (perm r (2 * i)) (constants f) 0) (nth (perm r (2 * i + 1)) (constants f) 0)
        (nth ia v 0) (nth ib v 0) (nth ic v 0) (nth id v 0) = (a, b, c, d) ->
  mix_at f r i ia ib ic id m v = <[ia := a]> (<[ib := b]> (<[ic := c]> (<[id := d]> v))).
Proof. unfold mix_at. intros ->. done. Qed.

(** The eight G macros of a round are the eight G_i of the specification. *)
Lemma round_body_spec r M V :
  length V = 16%nat -> Forall (fits w) V ->
  let V' := round_body F (fun i => nth (perm r i) M 0)
              (fun i => nth (perm r i) (constants f) 0) V in
  V' = round f M V r /\ length V' = 16%nat /\ Forall (fits w) V'.
Proof.
  intros Hl Hf. unfold round. cbn [foldl].
  do 16 (destruct V as [|? V]; [discriminate |]). destruct V; [| discriminate].
  forall_split. cbv beta iota zeta delta [round_body].
  do 8 (rewrite ok_G by (forall_build done);
    match goal with |- context [match mix f ?m0 ?m1 ?c0 ?c1 ?a ?b ?c ?d with _ => _ end] =>
      let E := fresh "E" in
      destruct (mix f m0 m1 c0 c1 a b c d) as [[[? ?] ?] ?] eqn:E;
      match goal with |- context [mix_at f r ?i ?ia ?ib ?ic ?id M (?x :: ?l)] =>
        erewrite (mix_at_eq r i ia ib ic id M (x :: l)) by exact E end;
      apply mix_fits in E; [| forall_build done]; forall_split
    end; cbn [insert list_insert]).
  split; [done |]. split; [done |]. forall_build done.
Qed.

Lemma ROUND_compact_spec r M V :
  (r < 16)%nat -> length V = 16%nat -> Forall (fits w) V ->
  ROUND_compact F M V r = round f M V r.
Proof.
  intros. unfold ROUND_compact. rewrite sigma_row, ok_C_array by done.
  by apply round_body_spec.
Qed.

Lemma ROUND_spec r M V :
  length V = 16%nat -> Forall (fits w) V ->
  ROUND F M V (r mod 10) = round f M V r.
Proof.
  intros. unfold ROUND. rewrite Zmac_row, ok_C_macros by (apply Nat.mod_upper_bound; lia).
  rewrite Nat.Div0.mod_mod. by apply round_body_spec.
Qed.

Lemma round_wf r M V :
  length V = 16%nat -> Forall (fits w) V ->
  length (round f M V r) = 16%nat /\ Forall (fits w) (round f M V r).
Proof. intros Hl Hf. destruct (round_body_spec r M V Hl Hf) as (<- & ? & ?). done. Qed.

Lemma rounds_wf l M V :
  length V = 16%nat -> Forall (fits w) V ->
  length (foldl (round f M) V l) = 16%nat /\ Forall (fits w) (foldl (round f M) V l).
Proof.
  revert V. induction l as [|r l IH]; intros V Hl Hf; [done |].
  cbn [foldl]. apply IH; by apply round_wf.
Qed.

(** Any two round macros that agree with the specification on well-formed
    states agree with it over a list of rounds. *)
Lemma rounds_spec (R : list Z -> nat -> list Z) (g : nat -> nat) l M V :
  (forall r V, r ∈ l -> length V = 16%nat -> Forall (fits w) V -> R V (g r) = round f M V r) ->
  length V = 16%nat -> Forall (fits w) V ->
  foldl R V (g <$> l) = foldl (round f M) V l.
Proof.
  revert V. induction l as [|r l IH]; intros V HR Hl Hf; [done |].
  cbn [fmap list_fmap foldl]. rewrite HR by (left || done).
  apply IH; [intros; apply HR; [by right | done..] | by apply round_wf..].
Qed.

Lemma zip_lxor_fits l1 l2 :
  Forall (fits w) l1 -> Forall (fits w) l2 -> Forall (fits w) (zip_with Z.lxor l1 l2).
Proof.
  intros H1. revert l2. induction H1; intros l2 H2; [constructor |].
  destruct H2; [constructor |]. apply Forall_cons_2; [by apply wfits_lxor | auto].
Qed.

Lemma V_init_spec h s t :
  length h = 8%nat -> length s = 4%nat ->
  V_init F h s (wrap w t) (wrap w (t / 2 ^ w)) = init_state f h s t.
Proof.
  intros Hh Hs. unfold V_init, init_state. rewrite ok_C_macros.
  destruct ok_constants as [Hc _].
  do 8 (destruct h as [|? h]; [discriminate |]). destruct h; [| discriminate].
  do 4 (destruct s as [|? s]; [discriminate |]). destruct s; [| discriminate].
  destruct (constants f) as [|? [|? [|? [|? [|? [|? [|? [|? ?]]]]]]]]; try discriminate.
  done.
Qed.

Lemma init_state_wf h s t :
  length h = 8%nat -> length s = 4%nat -> Forall (fits w) h -> Forall (fits w) s ->
  length (init_state f h s t) = 16%nat /\ Forall (fits w) (init_state f h s t).
Proof.
  intros Hh Hs Hfh Hfs. unfold init_state. destruct ok_constants as [Hc Hfc].
  pose proof wbits_pos. split.
  - rewrite length_app, length_zip_with, length_app, length_take, Hh, Hs, Hc. done.
  - apply Forall_app_2; [done |]. apply zip_lxor_fits; [| by apply Forall_take].
    apply Forall_app_2; [done |]. forall_build ltac:(apply wrap_fits; lia).
Qed.

Lemma H_final_spec h s v :
  length h = 8%nat -> length s = 4%nat -> length v = 16%nat ->
  H_final h s v = finalize h s v.
Proof.
  intros Hh Hs Hv. unfold H_final, finalize.
  do 8 (destruct h as [|? h]; [discriminate |]). destruct h; [| discriminate].
  do 4 (destruct s as [|? s]; [discriminate |]). destruct s; [| discriminate].
  do 16 (destruct v as [|? v]; [discriminate |]). destruct v; [| discriminate].
  cbn. by rewrite !Z.lxor_assoc.
Qed.

Lemma finalize_wf h s v :
  length h = 8%nat -> length s = 4%nat -> length v = 16%nat ->
  Forall (fits w) h -> Forall (fits w) s -> Forall (fits w) v ->
  length (finalize h s v) = 8%nat /\ Forall (fits w) (finalize h s v).
Proof.
  intros Hh Hs Hv ???. unfold finalize. split.
  - rewrite !length_zip_with, length_app, length_take, length_drop, Hh, Hs, Hv. done.
  - apply zip_lxor_fits; [done |]. apply zip_lxor_fits; [by apply Forall_app_2 |].
    apply zip_lxor_fits; [by apply Forall_take | by apply Forall_drop].
Qed.

(** The words read from the buffer are those of the block of bits. *)
Lemma load_words_spec b :
  length b = (16 * wbytes f)%nat -> Forall (fits 8) b ->
  load_words F b = block_words f (bytes_bits b).
Proof.
  intros Hl Hb. destruct ok_word as [? _]. unfold load_words, block_words.
  rewrite chunks_seq by (rewrite ?length_bytes_bits; lia).
  rewrite <- list_fmap_compose, ok_word_size. apply list_fmap_ext. intros i j Hij.
  apply lookup_seq in Hij as [-> ?]. cbn [Nat.add compose].
  rewrite ok_dec by (try apply Forall_drop; rewrite ?length_drop; done || nia).
  replace (8 * wbytes f * i)%nat with (8 * (wbytes f * i))%nat by lia.
  by rewrite drop_bytes_bits, take_bytes_bits.
Qed.

(** The compression macro is the specified compression function. *)
Lemma COMPRESS_spec h s t b :
  length h = 8%nat -> length s = 4%nat -> length b = (16 * wbytes f)%nat ->
  Forall (fits w) h -> Forall (fits w) s -> Forall (fits 8) b ->
  COMPRESS F h s (wrap w t) (wrap w (t / 2 ^ w)) b
  = compress f h s t (block_words f (bytes_bits b)).
Proof.
  intros Hh Hs Hb Hfh Hfs Hfb. unfold COMPRESS, compress.
  rewrite V_init_spec, load_words_spec, ok_round_calls by done.
  destruct (init_state_wf h s t) as [? ?]; [done.. |].
  rewrite (rounds_spec _ _ _ (block_words f (bytes_bits b))); [| | done..].
  - apply H_final_spec; [done.. |]. by apply rounds_wf.
  - intros. by apply ROUND_spec.
Qed.

Lemma compress_wf h s t m :
  length h = 8%nat -> length s = 4%nat -> Forall (fits w) h -> Forall (fits w) s ->
  length (compress f h s t m) = 8%nat /\ Forall (fits w) (compress f h s t m).
Proof.
  intros. destruct (init_state_wf h s t) as [? ?]; [done.. |].
  apply finalize_wf; try done; by apply rounds_wf.
Qed.

(** The compact code computes the same as the unrolled code. *)
Lemma COMPRESS_compact_spec h s t b :
  length h = 8%nat -> length s = 4%nat -> length b = (16 * wbytes f)%nat ->
  Forall (fits w) h -> Forall (fits w) s -> Forall (fits 8) b ->
  COMPRESS_compact F h s (wrap w t) (wrap w (t / 2 ^ w)) b
  = compress f h s t (block_words f (bytes_bits b)).
Proof.
  intros Hh Hs Hb Hfh Hfs Hfb. unfold COMPRESS_compact, compress, for_loop.
  destruct ok_n_rounds as [-> Hn].
  rewrite V_init_spec, load_words_spec by done.
  destruct (init_state_wf h s t) as [? ?]; [done.. |].
  rewrite <- (list_fmap_id (seq 0 (rounds f))) at 1.
  rewrite (rounds_spec _ _ _ (block_words f (bytes_bits b))); [| | done..].
  - apply H_final_spec; [done.. |]. by apply rounds_wf.
  - intros r V Hr ? ?. apply ROUND_compact_spec; [| done..].
    apply elem_of_seq in Hr. lia.
Qed.
End Core.

(** * blake.c: the streaming interface

    The contexts of [Blake.v] as representations of the message taken in so far,
    and the padding done by close.  Everything is proved for an arbitrary flavour
    through [flavour_ok]. *)

#[local] Open Scope Z_scope.

(** A sequence of update calls. *)
Definition updates (upd : context -> list Z -> option context) (sc : context)
    (chunks : list (list Z)) : option context :=
  foldl (fun o d => sc ← o; upd sc d) (Some sc) chunks.

Section Stream.
Context {F : flavour} {f : family} `{OK : !flavour_ok F f}.
Abbreviation w := (wbits f).
Abbreviation bb := (block_bits f).
Abbreviation bsz := (16 * wbytes f)%nat.
Lemma bb_bsz : bb = 8 * Z.of_nat bsz.
Proof. unfold block_bits, wbits. lia. Qed.

Lemma bsz_bounds : (16 <= bsz <= 128)%nat.
Proof. destruct (ok_word (F := F)). lia. Qed.

(** The carry test of the counter. *)
Lemma counter_step t :
  let t0 := wrap w (wrap w t + bb) in
  t0 = wrap w (t + bb) /\
  (if t0 <? bb then wrap w (wrap w (t / 2 ^ w) + 1) else wrap w (t / 2 ^ w))
  = wrap w ((t + bb) / 2 ^ w).
Proof.
  cbv zeta. rewrite wrap_add_l. split; [done |]. rewrite wrap_add_l.
  pose proof (wbits_pos (F := F)) as Hw.
  assert (Hbb : 0 < bb <= 2 ^ w).
  { rewrite bb_bsz. pose proof bsz_bounds.
    assert (8 * Z.of_nat bsz = 16 * w) as -> by (unfold wbits; lia).
    assert (w = 8 \/ 16 <= w) as [-> | ?] by (unfold wbits; lia); [lia |].
    pose proof (Z.pow_gt_lin_r 2 (w - 8)).
    replace w with (8 + (w - 8)) at 3 by lia. rewrite Z.pow_add_r by lia. lia. }
  pose proof (Z.div_mod t (2 ^ w)) as Ht. pose proof (Z.mod_pos_bound t (2 ^ w)) as Hm.
  set (q := t / 2 ^ w) in *. set (r := t mod 2 ^ w) in *.
  destruct (Z.ltb_spec (r + bb) (2 ^ w)).
  - assert (wrap w (t + bb) = r + bb) as ->.
    { unfold wrap. symmetry. apply Z.mod_unique with q; lia. }
    assert ((t + bb) / 2 ^ w = q) as ->.
    { symmetry. apply Z.div_unique with (r + bb); lia. }
    destruct (Z.ltb_spec (r + bb) bb); [lia | done].
  - assert (wrap w (t + bb) = r + bb - 2 ^ w) as ->.
    { unfold wrap. symmetry. apply Z.mod_unique with (q + 1); lia. }
    assert ((t + bb) / 2 ^ w = q + 1) as ->.
    { symmetry. apply Z.div_unique with (r + bb - 2 ^ w); lia. }
    destruct (Z.ltb_spec (r + bb - 2 ^ w) bb); [done | lia].
Qed.

Context (salt : list Z) (Hsalt : length salt = 4%nat) (Hsaltf : Forall (fits w) salt).

(** The compression of one block of octets at counter [t]. *)
Definition step_block (h : list Z) (t : Z) (b : list Z) : list Z :=
  compress f h salt t (block_words f (bytes_bits b)).

(** Absorb full blocks, the counter being [t] before the first one. *)
Fixpoint absorb (h : list Z) (t : Z) (bs : list (list Z)) : list Z :=
  match bs with
  | [] => h
  | b :: bs => absorb (step_block h (t + bb) b) (t + bb) bs
  end.

Lemma absorb_app h t bs bs' :
  absorb h t (bs ++ bs') = absorb (absorb h t bs) (t + bb * Z.of_nat (length bs)) bs'.
Proof.
  revert h t. induction bs as [|b bs IH]; intros h t; simpl.
  - f_equal. lia.
  - rewrite IH. f_equal. lia.
Qed.

(** The two counter words hold [t] (which may be negative, modulo two words). *)
Definition counts (sc : context) (t : Z) : Prop :=
  sc_T0 sc = wrap w t /\ sc_T1 sc = wrap w (t / 2 ^ w).

(** [sc] has chaining value [h], counter [t] and pending octets [tl]. *)
Record holds (sc : context) (h : list Z) (t : Z) (tl : list Z) : Prop := {
  holds_H : sc_H sc = h;
  holds_S : sc_S sc = salt;
  holds_T : counts sc t;
  holds_ptr : sc_ptr sc = Z.of_nat (length tl);
  holds_lt : (length tl < bsz)%nat;
  holds_buf : exists rest, sc_buf sc = tl ++ rest /\ length (sc_buf sc) = bsz;
  holds_bytes : Forall (fits 8) tl;
  holds_words : length h = 8%nat /\ Forall (fits w) h;
}.

Lemma step_block_wf h t b :
  length h = 8%nat -> Forall (fits w) h ->
  length (step_block h t b) = 8%nat /\ Forall (fits w) (step_block h t b).
Proof. intros. by apply (compress_wf (F := F)). Qed.

(** The outcome of taking octets in: [tl ++ data] has been cut into full blocks,
    which were compressed, and a new pending part. *)
Definition took (sc' : context) (h : list Z) (t : Z) (input : list Z) : Prop :=
  exists bs tl', input = concat bs ++ tl' /\ Forall (fun b => length b = bsz) bs /\
    holds sc' (absorb h t bs) (t + bb * Z.of_nat (length bs)) tl'.

Lemma holds_bufwrite sc h t tl d :
  holds sc h t tl -> (length tl + length d <= bsz)%nat ->
  exists rest, buf_write (sc_ptr sc) d (sc_buf sc) = Some ((tl ++ d) ++ rest) /\
    length ((tl ++ d) ++ rest) = bsz.
Proof.
  intros [] Hd. destruct holds_buf0 as (rest & Hb & Hl).
  rewrite Hb in *. rewrite length_app in Hl.
  exists (drop (length d) rest).
  rewrite (buf_write_Some _ _ _ tl (take (length d) rest) (drop (length d) rest)).
  - rewrite <- app_assoc. split; [done |].
    rewrite !length_app, length_drop. lia.
  - by rewrite take_drop.
  - done.
  - rewrite length_take. lia.
Qed.

(** A call that does not fill the buffer. *)
Lemma holds_partial sc h t tl d b :
  holds sc h t tl -> Forall (fits 8) d -> (length tl + length d < bsz)%nat ->
  (exists rest, b = (tl ++ d) ++ rest) -> length b = bsz ->
  holds {| sc_buf := b; sc_ptr := u64 (sc_ptr sc + Z.of_nat (length d)); sc_H := sc_H sc;
           sc_S := sc_S sc; sc_T0 := sc_T0 sc; sc_T1 := sc_T1 sc |} h t (tl ++ d).
Proof.
  intros [] Hd Hlt [rest ->] Hb. pose proof bsz_bounds. split; cbn; try done.
  - rewrite holds_ptr0, length_app, wrap_id; [lia |]. unfold fits. lia.
  - rewrite length_app. lia.
  - eauto.
  - by apply Forall_app_2.
Qed.

(** A full buffer is compressed. *)
Lemma holds_block sc h t tl d b :
  holds sc h t tl -> Forall (fits 8) d -> length b = bsz -> b = tl ++ d ->
  let t0 := SPH_T F (sc_T0 sc + t_inc F) in
  let t1 := if t0 <? t_inc F then SPH_T F (sc_T1 sc + 1) else sc_T1 sc in
  holds {| sc_buf := b; sc_ptr := 0; sc_H := COMPRESS F (sc_H sc) (sc_S sc) t0 t1 b;
           sc_S := sc_S sc; sc_T0 := t0; sc_T1 := t1 |}
        (step_block h (t + bb) b) (t + bb) [].
Proof.
  intros [] Hd Hb ->. cbv zeta. destruct holds_T0 as [-> ->].
  destruct holds_words0 as [Hh Hhf].
  rewrite !ok_T, ok_t_inc. destruct (counter_step t) as [E0 E1]. rewrite E1, E0.
  subst h. rewrite holds_S0, COMPRESS_spec by (done || by apply Forall_app_2).
  pose proof bsz_bounds. split; cbn; try done; try lia.
  - eexists; split; [done |]. done.
  - by apply step_block_wf.
Qed.

Lemma blake_loop_takes fuel sc h t tl data :
  holds sc h t tl -> Forall (fits 8) data -> (length data < fuel)%nat ->
  exists sc', blake_loop F fuel sc data = Some sc' /\ took sc' h t (tl ++ data).
Proof.
  revert sc h t tl data. induction fuel as [|fuel IH]; intros sc h t tl data Hs Hd Hf; [lia |].
  cbn [blake_loop]. destruct (Z.ltb_spec 0 (Z.of_nat (length data))) as [Hpos | Hz].
  2: { exists sc. split; [done |]. destruct data; [| simpl in *; lia].
       exists [], tl. split; [by rewrite app_nil_r |]. split; [constructor |].
       cbn. by rewrite Z.mul_0_r, Z.add_0_r. }
  pose proof (holds_lt _ _ _ _ Hs) as Hlt. pose proof bsz_bounds as Hbs.
  rewrite (holds_ptr _ _ _ _ Hs), ok_sizeof_buf, (wrap_id 64 (_ - _)) by (unfold fits; lia).
  set (k := Nat.min (length data) (bsz - length tl)).
  replace (if Z.of_nat (length data) <? _ then _ else _) with (Z.of_nat k)
    by (destruct (Z.ltb_spec (Z.of_nat (length data))
          (16 * Z.of_nat (wbytes f) - Z.of_nat (length tl))); lia).
  rewrite Nat2Z.id, <- (holds_ptr _ _ _ _ Hs).
  assert (Hk : length (take k data) = k) by (rewrite length_take; lia).
  destruct (holds_bufwrite sc h t tl (take k data)) as (rest & -> & Hb); [done | lia |].
  cbn [mbind option_bind]. rewrite <- (take_drop k data), Forall_app in Hd.
  destruct Hd as [Hd1 Hd2]. rewrite (holds_ptr _ _ _ _ Hs).
  rewrite (wrap_id 64 (_ + _)) by (unfold fits; lia).
  destruct (Z.eqb_spec (Z.of_nat (length tl) + Z.of_nat k) (16 * Z.of_nat (wbytes f))) as [Hfull | Hpart].
  - assert (rest = []) as ->.
    { rewrite !length_app in Hb. destruct rest; [done | simpl in Hb; lia]. }
    rewrite app_nil_r in *.
    pose proof (holds_block _ _ _ _ _ _ Hs Hd1 Hb eq_refl) as Hs'.
    destruct (IH _ _ _ _ (drop k data) Hs' Hd2) as (sc' & -> & bs & tl' & Heq & Hbs' & Hh).
    { rewrite length_drop. lia. }
    exists sc'. split; [done |]. exists ((tl ++ take k data) :: bs), tl'.
    split; [| split].
    + rewrite <- (take_drop k data) at 1. cbn [concat]. rewrite <- !app_assoc.
      cbn in Heq. by rewrite Heq.
    + by apply Forall_cons_2.
    + cbn [absorb length]. replace (t + bb * Z.of_nat (S (length bs)))
        with (t + bb + bb * Z.of_nat (length bs)) by lia. done.
  - pose proof (holds_partial sc h t tl (take k data) _ Hs Hd1 ltac:(lia) ltac:(eauto) Hb) as Hs'.
    rewrite Hk, (holds_ptr _ _ _ _ Hs), (wrap_id 64 (_ + _)) in Hs' by (unfold fits; lia).
    assert (Hdrop : drop k data = []) by (apply drop_ge; lia).
    destruct (IH _ _ _ _ (drop k data) Hs' Hd2) as (sc' & -> & Ht); [rewrite Hdrop; simpl; lia |].
    exists sc'. split; [done |]. by rewrite <- app_assoc, take_drop in Ht.
Qed.

Lemma blake_update_takes sc h t tl data :
  holds sc h t tl -> Forall (fits 8) data ->
  exists sc', blake_update F sc data = Some sc' /\ took sc' h t (tl ++ data).
Proof.
  intros Hs Hd. unfold blake_update. pose proof (holds_lt _ _ _ _ Hs). pose proof bsz_bounds.
  destruct (Z.ltb_spec (Z.of_nat (length data)) (u64 (sizeof_buf F - sc_ptr sc))) as [Hlt | Hge].
  2: { apply blake_loop_takes; [done.. | lia]. }
  rewrite (holds_ptr _ _ _ _ Hs), ok_sizeof_buf, wrap_id in Hlt by (unfold fits; lia).
  destruct (holds_bufwrite sc h t tl data) as (rest & -> & Hb); [done | lia |].
  cbn [mbind option_bind]. eexists; split; [done |].
  exists [], (tl ++ data). split; [done |]. split; [constructor |].
  cbn. rewrite Z.mul_0_r, Z.add_0_r. apply holds_partial; eauto. lia.
Qed.

(** A sequence of calls takes in the concatenation. *)
Lemma updates_take sc h t tl chunks :
  holds sc h t tl -> Forall (Forall (fits 8)) chunks ->
  exists sc', updates (blake_update F) sc chunks = Some sc' /\ took sc' h t (tl ++ concat chunks).
Proof.
  intros Hs Hc. revert sc h t tl Hs. unfold updates.
  induction Hc as [|d chunks Hd Hc IH]; intros sc h t tl Hs.
  { exists sc. split; [done |]. exists [], tl. cbn.
    rewrite Z.mul_0_r, Z.add_0_r, app_nil_r. done. }
  cbn [foldl]. destruct (blake_update_takes sc h t tl d Hs Hd) as (sc1 & E1 & bs & tl1 & Eq & Hbs & Hs1).
  cbn [mbind option_bind]. rewrite E1.
  destruct (IH _ _ _ _ Hs1) as (sc2 & E2 & bs' & tl2 & Eq' & Hbs' & Hs2).
  exists sc2. split; [done |]. exists (bs ++ bs'), tl2. split; [| split].
  - cbn [concat]. rewrite app_assoc, Eq, <- app_assoc, Eq', concat_app, app_assoc. done.
  - by apply Forall_app_2.
  - rewrite absorb_app, length_app. replace (t + bb * Z.of_nat (length bs + length bs'))
      with (t + bb * Z.of_nat (length bs) + bb * Z.of_nat (length bs')) by lia. done.
Qed.
End Stream.
