(* ===== verification/BlakeClose.v ===== *)
(** * blake.c: padding and finalisation

    What close does to the pending octets: the counter of the last blocks, the
    padding octets written into its local buffer, and the digest. *)

From S2P Require Import Prelude BlakeSpec Blake BlakeCore.
#[local] Open Scope Z_scope.

(** ** Padding octets as bits *)

Lemma byte_bits_explicit b :
  byte_bits b = [Z.testbit b 7; Z.testbit b 6; Z.testbit b 5; Z.testbit b 4;
                 Z.testbit b 3; Z.testbit b 2; Z.testbit b 1; Z.testbit b 0].
Proof. done. Qed.

(** The octet that carries the last [n] message bits and the one bit. *)
Lemma final_byte_bits ub n :
  0 <= n <= 7 ->
  let z := 0x80 >> n in
  byte_bits (((ub & u32 (- z)) .| z) & 0xFF)
  = take (Z.to_nat n) (byte_bits ub) ++ [true] ++ replicate (7 - Z.to_nat n) false.
Proof.
  intros Hn. assert (n = 0 \/ n = 1 \/ n = 2 \/ n = 3 \/ n = 4 \/ n = 5 \/ n = 6 \/ n = 7) as Hc by lia.
  destruct_or! Hc; subst n; cbv zeta; rewrite !byte_bits_explicit;
    rewrite !Z.land_spec, !Z.lor_spec, !Z.land_spec; cbn;
    by rewrite ?andb_true_r, ?andb_false_r, ?orb_false_r, ?orb_true_r.
Qed.

Lemma final_byte_fits ub z : fits 8 (((ub & u32 (- z)) .| z) & 0xFF).
Proof. apply land_fits_r; [lia |]. split; lia. Qed.

Lemma bytes_bits_zeros k : bytes_bits (replicate k 0) = replicate (8 * k) false.
Proof.
  induction k as [|k IH]; [done |]. cbn [replicate]. rewrite bytes_bits_cons, IH.
  replace (8 * S k)%nat with (8 + 8 * k)%nat by lia. by rewrite replicate_add.
Qed.

(** That octet followed by zero octets. *)
Lemma pad_octets ub n j :
  0 <= n <= 7 ->
  let z := 0x80 >> n in
  let zb := ((ub & u32 (- z)) .| z) & 0xFF in
  bytes_bits (zb :: replicate j 0)
  = take (Z.to_nat n) (byte_bits ub) ++ [true] ++ replicate (7 - Z.to_nat n + 8 * j) false
  /\ Forall (fits 8) (zb :: replicate j 0).
Proof.
  intros Hn z zb. split.
  - rewrite bytes_bits_cons. unfold zb, z. rewrite final_byte_bits, bytes_bits_zeros by done.
    rewrite <- !app_assoc. f_equal. cbn [app]. by rewrite <- replicate_add.
  - apply Forall_cons_2; [apply final_byte_fits |]. apply Forall_replicate. split; lia.
Qed.

Lemma byte_bits_or1 b : byte_bits (b .| 1) = take 7 (byte_bits b) ++ [true].
Proof.
  rewrite !byte_bits_explicit, !Z.lor_spec. cbn.
  by rewrite !orb_false_r, orb_true_r.
Qed.

(** Setting the low bit of the last octet replaces the last bit. *)
Lemma bytes_bits_or1 Y y bits :
  bytes_bits (Y ++ [y]) = bits ++ [false] ->
  bytes_bits (Y ++ [y .| 1]) = bits ++ [true].
Proof.
  rewrite !bytes_bits_app, !bytes_bits_cons, byte_bits_or1. cbn [bytes_bits].
  change (bytes_bits []) with (@nil bool). rewrite !app_nil_r.
  assert (byte_bits y = take 7 (byte_bits y) ++ drop 7 (byte_bits y)) as -> by (by rewrite take_drop).
  assert (Hd : exists b, drop 7 (byte_bits y) = [b]) by (rewrite byte_bits_explicit; eauto).
  destruct Hd as [b ->]. rewrite take_app_length' by (by rewrite byte_bits_explicit).
  rewrite !app_assoc. intros [E ->]%app_inj_tail. by rewrite E.
Qed.

(** ** Arithmetic of the counter *)

Section NoCarry.
Context (d M x : Z) (Hd : 0 < d) (HM : 0 < M) (dM : (d | M)) (dx : (d | x)).

Lemma mod_multiple : (d | x mod M).
Proof.
  rewrite (Z.mod_eq x M) by lia. apply Z.divide_sub_r; [done |].
  by apply Z.divide_mul_l.
Qed.

Lemma mod_gap : x mod M + d <= M.
Proof.
  pose proof (Z.mod_pos_bound x M HM) as Hm. destruct mod_multiple as [q Hq].
  destruct dM as [k Hk]. rewrite Hq in *. rewrite Hk in Hm |- *.
  assert (q < k) by (apply (Z.mul_lt_mono_pos_r d); lia). nia.
Qed.

Lemma div_no_carry b : 0 <= b < d -> (x + b) / M = x / M.
Proof.
  intros. pose proof mod_gap. pose proof (Z.mod_pos_bound x M HM).
  symmetry. apply Z.div_unique with (x mod M + b); [lia |].
  pose proof (Z.div_mod x M). lia.
Qed.

Lemma div_borrow b :
  0 <= b < d -> (x + b - d) / M = if x mod M =? 0 then x / M - 1 else x / M.
Proof.
  intros. pose proof mod_gap. pose proof (Z.mod_pos_bound x M HM) as Hm.
  pose proof (Z.div_mod x M) as E.
  assert (d <= M) by (apply Z.divide_pos_le; done).
  destruct (Z.eqb_spec (x mod M) 0) as [E0 | E0].
  - symmetry. apply Z.div_unique with (M + b - d); lia.
  - assert (d <= x mod M) by (apply Z.divide_pos_le; [lia | apply mod_multiple]).
    symmetry. apply Z.div_unique with (x mod M + b - d); lia.
Qed.
End NoCarry.

(** ** Close *)

Section Close.
Context {F : flavour} {f : family} `{OK : !flavour_ok F f}.
Abbreviation w := (wbits f).
Abbreviation bb := (block_bits f).
Abbreviation bsz := (16 * wbytes f)%nat.

Lemma pow_w_pos : 0 < 2 ^ w.
Proof. pose proof (wbits_pos (F := F)). apply pow2_pos. lia. Qed.

(** The literals the source resets the counter to stand for minus one block. *)
Lemma reset_counter : T0_reset F = wrap w (- bb) /\ T1_reset F = wrap w (- bb / 2 ^ w).
Proof.
  pose proof pow_w_pos. pose proof (bsz_bounds (F := F)). rewrite ok_T0_reset, ok_T1_reset.
  assert (bb <= 2 ^ w). { apply Z.divide_pos_le; [done | apply ok_divide]. }
  assert (0 < bb) by (rewrite bb_bsz; lia).
  assert (- bb / 2 ^ w = -1) as ->.
  { symmetry. apply Z.div_unique with (2 ^ w - bb); lia. }
  unfold wrap. split.
  - apply Z.mod_unique with (-1); lia.
  - apply Z.mod_unique with (-1); lia.
Qed.

Context (salt : list Z) (Hsalt : length salt = 4%nat) (Hsaltf : Forall (fits w) salt).
Abbreviation Holds := (holds (f := f) salt).
Abbreviation Took := (took (f := f) salt).
Abbreviation Step := (step_block (f := f) salt).

Lemma holds_set_T sc h t t' tl :
  Holds sc h t tl -> Holds (set_T sc (wrap w t') (wrap w (t' / 2 ^ w))) h t' tl.
Proof. intros []. by split. Qed.

(** The counter of the block that holds the last message bits, minus the
    increment the update will add. *)
Definition last_count (x bl : Z) : Z := if bl =? 0 then 0 else x + bl.

Lemma close_counter sc h x tl n :
  Holds sc h x tl -> (bb | x) -> 0 <= n <= 7 ->
  let bl := 8 * Z.of_nat (length tl) + n in
  Holds
    (if (sc_ptr sc =? 0) && (n =? 0) then set_T sc (T0_reset F) (T1_reset F)
     else if sc_T0 sc =? 0 then
       set_T sc (wrap (word_bits F) (T0_reset F + bl)) (SPH_T F (sc_T1 sc - 1))
     else set_T sc (wrap (word_bits F) (sc_T0 sc - u32 (t_inc F - bl))) (sc_T1 sc))
    h (last_count x bl - bb) tl.
Proof.
  intros Hs Hx Hn bl. pose proof pow_w_pos as Hpow. pose proof (bsz_bounds (F := F)) as Hbsz.
  pose proof bb_bsz (f := f) as Hbb. pose proof (holds_lt _ _ _ _ _ Hs) as Hlt.
  rewrite (holds_ptr _ _ _ _ _ Hs). destruct (holds_T _ _ _ _ _ Hs) as [E0 E1].
  destruct reset_counter as [R0 R1]. unfold last_count.
  destruct (Z.eqb_spec bl 0) as [Hz | Hnz].
  - rewrite (proj2 (andb_true_iff _ _)) by lia. rewrite R0, R1.
    by apply holds_set_T with x.
  - rewrite (proj2 (andb_false_iff _ _)) by lia.
    pose proof (div_borrow bb (2 ^ w) x ltac:(lia) Hpow ok_divide Hx bl ltac:(lia)) as Hb.
    rewrite E0, E1, ok_word_bits, ok_t_inc, ok_T. unfold wrap at 1.
    destruct (Z.eqb_spec (x mod 2 ^ w) 0) as [Ez | Ez].
    + rewrite R0, wrap_add_l.
      replace (wrap w (- bb + bl)) with (wrap w (x + bl - bb)).
      2: { unfold wrap. replace (x + bl - bb) with (x + (- bb + bl)) by lia.
           by rewrite <- Zplus_mod_idemp_l, Ez. }
      rewrite wrap_sub_l, <- Hb. by apply holds_set_T with x.
    + rewrite (wrap_id 32 (bb - bl)) by (unfold fits; lia). rewrite wrap_sub_l.
      replace (x - (bb - bl)) with (x + bl - bb) by lia. rewrite <- Hb.
      by apply holds_set_T with x.
Qed.

(** Exactly one block of input is compressed and leaves nothing pending. *)
Lemma took_one sc' h t input :
  Took sc' h t input -> length input = bsz ->
  Holds sc' (Step h (t + bb) input) (t + bb) [].
Proof.
  intros (bs & tl & -> & Hbs & Hs) Hl. pose proof (holds_lt _ _ _ _ _ Hs).
  pose proof (bsz_bounds (F := F)). rewrite length_app in Hl.
  destruct Hbs as [|b bs Hb Hbs]; [simpl in *; lia |]. cbn [concat] in *.
  rewrite length_app in Hl.
  destruct Hbs as [|b' bs Hb' Hbs]; [| cbn [concat] in *; rewrite length_app in Hl; lia].
  destruct tl; [| simpl in Hl; lia]. rewrite !app_nil_r.
  cbn [absorb length] in Hs. by rewrite Z.mul_1_r in Hs.
Qed.

(** *** The local buffer *)

Lemma write_length_words {A} (k : list Z -> option A) th tl Q rest :
  length Q = (14 * wbytes f)%nat -> length rest = (2 * wbytes f)%nat ->
  (u ← buf_write (th_off F) (enc_be F th) (Q ++ rest);
   u ← buf_write (tl_off F) (enc_be F tl) u; k u)
  = k (Q ++ enc_be F th ++ enc_be F tl).
Proof.
  intros HQ Hr. destruct (ok_enc_wf (F := F) (f := f) th) as [Hth _].
  destruct (ok_enc_wf (F := F) (f := f) tl) as [Htl _]. rewrite ok_th_off, ok_tl_off.
  rewrite (buf_write_Some _ _ _ Q (take (wbytes f) rest) (drop (wbytes f) rest));
    [| by rewrite take_drop | lia | rewrite length_take; lia].
  obind.
  rewrite (buf_write_Some _ _ _ (Q ++ enc_be F th) (drop (wbytes f) rest) []);
    [| by rewrite app_nil_r, app_assoc | rewrite length_app; lia | rewrite length_drop; lia].
  obind. by rewrite app_nil_r, <- app_assoc.
Qed.

Lemma length_words_bits x bl :
  (bb | x) -> 0 <= bl < bb ->
  bytes_bits (enc_be F (wrap w (x / 2 ^ w)) ++ enc_be F (wrap w (wrap w x + bl)))
  = val_bits (16 * wbytes f) (x + bl).
Proof.
  intros Hx Hbl. pose proof pow_w_pos. rewrite wrap_add_l, bytes_bits_app, !ok_enc.
  assert (Ew : w = Z.of_nat (8 * wbytes f)) by (unfold wbits; lia).
  rewrite Ew, !val_bits_wrap, <- Ew.
  rewrite <- (div_no_carry bb (2 ^ w) x ltac:(lia) ltac:(done) ok_divide Hx bl Hbl).
  replace (16 * wbytes f)%nat with (8 * wbytes f + 8 * wbytes f)%nat by lia.
  rewrite val_bits_app, <- Ew, Z.shiftr_div_pow2; [done | unfold wbits; lia].
Qed.

(** Setting the low bit of the octet at [pad_end], the last one of [pre ++ L]. *)
Lemma write_mark (last : bool) pre L bits rest :
  L <> [] -> length (pre ++ L) = (14 * wbytes f)%nat -> Forall (fits 8) L ->
  bytes_bits L = bits ++ [false] ->
  exists P,
    (if last then
       buf_write (pad_end F) [nth (Z.to_nat (pad_end F)) ((pre ++ L) ++ rest) 0 .| 1]
         ((pre ++ L) ++ rest)
     else Some ((pre ++ L) ++ rest)) = Some ((pre ++ P) ++ rest)
    /\ length P = length L /\ Forall (fits 8) P /\ bytes_bits P = bits ++ [last].
Proof.
  intros Hne Hl Hf Hb. destruct last; [| by exists L].
  destruct (exists_last Hne) as (Y & y & ->). rewrite !length_app in Hl. cbn [length] in Hl.
  rewrite ok_pad_end.
  replace (nth _ _ 0) with y.
  2: { rewrite <- !app_assoc, !app_nth2 by lia.
       replace (_ - _ - _)%nat with 0%nat by lia. done. }
  exists (Y ++ [y .| 1]).
  rewrite (buf_write_Some _ _ _ (pre ++ Y) [y] rest);
    [| by rewrite <- !app_assoc | rewrite length_app; lia | done].
  split; [by rewrite <- !app_assoc |]. split; [by rewrite !length_app |]. split.
  - apply Forall_app in Hf as [? Hy]. apply Forall_app_2; [done |]. forall_split.
    forall_build ltac:(apply lor_fits; [lia | done | split; lia]).
  - by apply bytes_bits_or1.
Qed.

(** The padding octets when one block is enough. *)
Lemma pad_one_block {A} (k : list Z -> option A) p (ub n : Z) pre post (last : bool) th tl :
  let z := 0x80 >> n in
  let zb := ((ub & u32 (- z)) .| z) & 0xFF in
  length pre = p -> length (pre ++ zb :: post) = bsz -> 0 <= n <= 7 ->
  8 * Z.of_nat p + n <= bit_limit F ->
  exists P,
    (u ← buf_fill (Z.of_nat p + 1) 0 (u64 (pad_end F - Z.of_nat p)) (pre ++ zb :: post);
     u ← (if last then buf_write (pad_end F) [nth (Z.to_nat (pad_end F)) u 0 .| 1] u else Some u);
     u ← buf_write (th_off F) (enc_be F th) u;
     u ← buf_write (tl_off F) (enc_be F tl) u; k u)
    = k (pre ++ P ++ enc_be F th ++ enc_be F tl)
    /\ length P = (14 * wbytes f - p)%nat /\ Forall (fits 8) P
    /\ bytes_bits P = (take (Z.to_nat n) (byte_bits ub) ++ [true]
         ++ replicate (Z.to_nat (bit_limit F - (8 * Z.of_nat p + n))) false) ++ [last].
Proof.
  intros z zb Hp Hl Hn Hlim. rewrite ok_bit_limit in Hlim |- *.
  pose proof (bsz_bounds (F := F)) as Hbs. rewrite length_app in Hl. cbn [length] in Hl.
  assert (Hlb : bb - 2 * w - 2 = 8 * (14 * Z.of_nat (wbytes f)) - 2) by (unfold block_bits, wbits; lia).
  set (j := (14 * wbytes f - 1 - p)%nat).
  rewrite ok_pad_end, (wrap_id 64) by (unfold fits; lia). unfold buf_fill.
  replace (Z.to_nat (14 * Z.of_nat (wbytes f) - 1 - Z.of_nat p)) with j by lia.
  rewrite (buf_write_Some _ _ _ (pre ++ [zb]) (take j post) (drop j post));
    [| by rewrite <- app_assoc, take_drop | rewrite length_app; simpl; lia
     | rewrite length_replicate, length_take; lia].
  obind. destruct (pad_octets ub n j Hn) as [HL HLf].
  replace ((pre ++ [zb]) ++ replicate j 0 ++ drop j post)
    with ((pre ++ zb :: replicate j 0) ++ drop j post) by (by rewrite <- !app_assoc).
  destruct (write_mark last pre (zb :: replicate j 0) (take (Z.to_nat n) (byte_bits ub) ++ [true]
     ++ replicate (Z.to_nat (bb - 2 * w - 2 - (8 * Z.of_nat p + n))) false) (drop j post))
    as (P & E & HP & HPf & HPb); [done | | done | |].
  { rewrite length_app. simpl. rewrite length_replicate. lia. }
  { etrans; [exact HL |]. rewrite <- !app_assoc. do 2 f_equal.
    change [false] with (replicate 1 false). rewrite <- replicate_add. f_equal. lia. }
  rewrite ok_pad_end in E. rewrite E. obind. exists P. cbn [length] in HP.
  rewrite length_replicate in HP.
  rewrite write_length_words by (rewrite ?length_app, ?length_drop; lia).
  split; [by rewrite <- app_assoc |]. split; [lia | done].
Qed.

(** The second block when one is not enough. *)
Lemma pad_second_block {A} (k : list Z -> option A) u (last : bool) th tl :
  length u = bsz ->
  exists P,
    (u ← buf_fill 0 0 (th_off F) u;
     u ← (if last then buf_write (pad_end F) [1] u else Some u);
     u ← buf_write (th_off F) (enc_be F th) u;
     u ← buf_write (tl_off F) (enc_be F tl) u; k u)
    = k (P ++ enc_be F th ++ enc_be F tl)
    /\ length P = (14 * wbytes f)%nat /\ Forall (fits 8) P
    /\ bytes_bits P = replicate (8 * (14 * wbytes f) - 1) false ++ [last].
Proof.
  intros Hu. pose proof (bsz_bounds (F := F)) as Hbs. unfold buf_fill.
  set (j := (14 * wbytes f)%nat). replace (Z.to_nat (th_off F)) with j by (rewrite ok_th_off; lia).
  rewrite (buf_write_Some _ _ _ [] (take j u) (drop j u));
    [| by rewrite take_drop | done | rewrite length_replicate, length_take; lia].
  obind. cbn [app].
  assert (Hz : Forall (fits 8) (replicate j 0)) by (apply Forall_replicate; split; lia).
  assert (Hr : replicate j 0 = replicate (j - 1) 0 ++ [0]).
  { change [0] with (replicate 1 0). rewrite <- replicate_add. f_equal. lia. }
  destruct (write_mark last [] (replicate j 0) (replicate (8 * j - 1) false) (drop j u))
    as (P & E & HP & HPf & HPb); [| | done | |].
  { rewrite Hr. by destruct (replicate (j - 1) 0). }
  { simpl. by rewrite length_replicate. }
  { rewrite bytes_bits_zeros. change [false] with (replicate 1 false).
    rewrite <- replicate_add. f_equal. lia. }
  cbn [app] in E. rewrite ok_pad_end in E |- *. rewrite Hr in E at 1.
  rewrite <- app_assoc, app_nth2 in E by (rewrite length_replicate; lia).
  rewrite length_replicate in E. replace (Z.to_nat _ - _)%nat with 0%nat in E by lia.
  change (nth 0 ([0] ++ drop j u) 0 .| 1) with 1 in E. rewrite E. obind.
  rewrite length_replicate in HP. exists P.
  rewrite write_length_words by (rewrite ?length_drop; lia). done.
Qed.

(** *** The digest *)

Lemma write_digest_spec h out dst :
  length h = 8%nat -> (out <= 8)%nat -> (wbytes f * out <= length dst)%nat ->
  write_digest F h out dst = Some ((take out h ≫= enc_be F) ++ drop (wbytes f * out) dst)
  /\ length (take out h ≫= enc_be F) = (wbytes f * out)%nat.
Proof.
  intros Hh. unfold write_digest. rewrite ok_word_size.
  induction out as [|k IH]; intros Ho Hd.
  { cbn. rewrite Nat.mul_0_r. done. }
  destruct IH as [E El]; [lia.. |]. rewrite for_loop_S, E. obind.
  destruct (lookup_lt_is_Some_2 h k) as [v Hv]; [lia |].
  rewrite (nth_lookup_Some h k 0 v Hv), (take_S_r h k v Hv), bind_app.
  destruct (ok_enc_wf (F := F) (f := f) v) as [He _].
  cbn [mbind list_bind]. rewrite app_nil_r, length_app, El, He. split; [| lia].
  rewrite (buf_write_Some _ _ _ (take k h ≫= enc_be F) (take (wbytes f) (drop (wbytes f * k) dst))
    (drop (wbytes f) (drop (wbytes f * k) dst)));
    [| by rewrite take_drop | lia | rewrite length_take, length_drop; lia].
  rewrite <- app_assoc, drop_drop. do 4 f_equal. lia.
Qed.

(** *** The whole of close *)

(** The last blocks [fbs] of the padded message, with their counters. *)
Definition last_blocks (x : Z) (tl : list Z) (ub n : Z) (last : bool)
    (cs : list Z) (fbs : list (list Z)) : Prop :=
  let bl := 8 * Z.of_nat (length tl) + n in
  Forall (fun b => length b = bsz) fbs /\
  cs = last_count x bl :: replicate (length fbs - 1) 0 /\ fbs <> [] /\
  bytes_bits (concat fbs)
  = bytes_bits tl ++ take (Z.to_nat n) (byte_bits ub) ++ [true]
      ++ replicate (Z.to_nat ((bb - 2 * w - 2 - bl) mod bb)) false ++ [last]
      ++ val_bits (16 * wbytes f) (x + bl).

Definition step_blocks (h : list Z) (cs : list Z) (fbs : list (list Z)) : list Z :=
  foldl (fun h '(c, b) => Step h c b) h (zip cs fbs).

Lemma enc_fits v : Forall (fits 8) (enc_be F v).
Proof. apply (ok_enc_wf (F := F) (f := f)). Qed.

Lemma enc_length v : length (enc_be F v) = wbytes f.
Proof. apply (ok_enc_wf (F := F) (f := f)). Qed.

(** An update with exactly the octets that complete the block. *)
Lemma update_last sc h t tl P :
  Holds sc h (t - bb) tl -> Forall (fits 8) P -> length (tl ++ P) = bsz ->
  exists sc', blake_update F sc P = Some sc' /\ Holds sc' (Step h t (tl ++ P)) t [].
Proof.
  intros Hs HP Hl. destruct (blake_update_takes salt Hsalt Hsaltf sc h _ tl P Hs HP) as (sc' & E & Ht).
  apply took_one in Ht; [| done]. replace (t - bb + bb) with t in Ht by lia. eauto.
Qed.

Lemma close_one sc h x tl ub n u0 (last : bool) th tlen :
  let bl := 8 * Z.of_nat (length tl) + n in
  let z := 0x80 >> n in
  let zb := ((ub & u32 (- z)) .| z) & 0xFF in
  Holds sc h (last_count x bl - bb) tl -> (bb | x) -> 0 <= n <= 7 -> length u0 = bsz ->
  bl <= bit_limit F -> th = wrap w (x / 2 ^ w) -> tlen = wrap w (wrap w x + bl) ->
  exists sc' fbs cs,
    (u ← buf_fill (Z.of_nat (length tl) + 1) 0 (u64 (pad_end F - Z.of_nat (length tl)))
           (take (length tl) u0 ++ zb :: drop (S (length tl)) u0);
     u ← (if last then buf_write (pad_end F) [nth (Z.to_nat (pad_end F)) u 0 .| 1] u else Some u);
     u ← buf_write (th_off F) (enc_be F th) u;
     u ← buf_write (tl_off F) (enc_be F tlen) u;
     blake_update F sc (drop (Z.to_nat (Z.of_nat (length tl))) u)) = Some sc'
    /\ Holds sc' (step_blocks h cs fbs) (List.last cs 0) []
    /\ last_blocks x tl ub n last cs fbs.
Proof.
  intros bl z zb Hs Hx Hn Hu Hbl -> ->. pose proof (holds_lt _ _ _ _ _ Hs). subst zb z.
  destruct (pad_one_block (fun u => blake_update F sc (drop (Z.to_nat (Z.of_nat (length tl))) u))
    (length tl) ub n (take (length tl) u0) (drop (S (length tl)) u0) last
    (wrap w (x / 2 ^ w)) (wrap w (wrap w x + bl))) as (P & -> & HP & HPf & HPb); [| | done..|].
  { rewrite length_take. lia. }
  { rewrite length_app. cbn [length]. rewrite length_take, length_drop. lia. }
  rewrite Nat2Z.id, drop_app_length' by (rewrite length_take; lia).
  set (data := P ++ _).
  assert (Hd : length (tl ++ data) = bsz).
  { unfold data. rewrite !length_app, !enc_length.
    rewrite ok_bit_limit in Hbl. unfold block_bits, wbits in *. lia. }
  destruct (update_last sc h (last_count x bl) tl data) as (sc' & -> & Hs'); [done | | done |].
  { unfold data. auto using Forall_app_2, enc_fits. }
  exists sc', [tl ++ data], [last_count x bl]. split; [done |]. split; [done |].
  split; [by apply Forall_cons_2 |]. split; [done |]. split; [done |].
  cbn [concat]. rewrite app_nil_r. unfold data. rewrite !bytes_bits_app, HPb, <- bytes_bits_app.
  rewrite ok_bit_limit in Hbl |- *. rewrite length_words_bits by (done || unfold block_bits, wbits in *; lia).
  fold bl. rewrite Z.mod_small by (unfold block_bits, wbits in *; lia).
  rewrite <- !app_assoc. done.
Qed.

Lemma close_two sc h x tl ub n u0 (last : bool) th tlen :
  let bl := 8 * Z.of_nat (length tl) + n in
  let z := 0x80 >> n in
  let zb := ((ub & u32 (- z)) .| z) & 0xFF in
  Holds sc h (last_count x bl - bb) tl -> (bb | x) -> 0 <= n <= 7 -> length u0 = bsz ->
  bit_limit F < bl -> th = wrap w (x / 2 ^ w) -> tlen = wrap w (wrap w x + bl) ->
  exists sc' fbs cs,
    (u ← buf_fill (Z.of_nat (length tl) + 1) 0 (u64 (sizeof_buf F - 1 - Z.of_nat (length tl)))
           (take (length tl) u0 ++ zb :: drop (S (length tl)) u0);
     sc ← blake_update F sc (drop (Z.to_nat (Z.of_nat (length tl))) u);
     u ← buf_fill 0 0 (th_off F) u;
     u ← (if last then buf_write (pad_end F) [1] u else Some u);
     u ← buf_write (th_off F) (enc_be F th) u;
     u ← buf_write (tl_off F) (enc_be F tlen) u;
     blake_update F (set_T sc (T0_reset F) (T1_reset F)) u) = Some sc'
    /\ Holds sc' (step_blocks h cs fbs) (List.last cs 0) []
    /\ last_blocks x tl ub n last cs fbs.
Proof.
  intros bl z zb Hs Hx Hn Hu Hbl -> ->. pose proof (holds_lt _ _ _ _ _ Hs).
  pose proof (bsz_bounds (F := F)). rewrite ok_sizeof_buf, (wrap_id 64) by (unfold fits; lia).
  set (j := (bsz - 1 - length tl)%nat).
  assert (Hj : length (drop (S (length tl)) u0) = j) by (rewrite length_drop; lia).
  rewrite (buf_fill_Some _ _ _ _ (take (length tl) u0 ++ [zb]) (drop (S (length tl)) u0) []), Hj;
    [| by rewrite app_nil_r, <- app_assoc | rewrite length_app, length_take; simpl; lia | lia].
  obind. rewrite app_nil_r, <- app_assoc, Nat2Z.id.
  rewrite drop_app_length' by (rewrite length_take; lia). cbn [app].
  destruct (pad_octets ub n j Hn) as [HL HLf]. fold z zb in HL, HLf.
  destruct (update_last sc h (last_count x bl) tl (zb :: replicate j 0)) as (sc1 & -> & Hs1); [done | done | |].
  { rewrite length_app. simpl. rewrite length_replicate. lia. }
  obind.
  destruct (pad_second_block (fun u => blake_update F (set_T sc1 (T0_reset F) (T1_reset F)) u)
    (take (length tl) u0 ++ zb :: replicate j 0) last (wrap w (x / 2 ^ w))
    (wrap w (wrap w x + bl))) as (P & -> & HP & HPf & HPb).
  { rewrite length_app, length_take. simpl. rewrite length_replicate. lia. }
  set (data := P ++ _).
  assert (Hd : length data = bsz). { unfold data. rewrite !length_app, !enc_length. lia. }
  destruct reset_counter as [-> ->]. apply holds_set_T with (t' := - bb) in Hs1.
  destruct (update_last _ _ 0 [] data Hs1) as (sc' & -> & Hs2); [| done |].
  { unfold data. auto using Forall_app_2, enc_fits. }
  exists sc', [tl ++ zb :: replicate j 0; data], [last_count x bl; 0].
  split; [done |]. split; [done |]. split; [| split; [done | split; [done |]]].
  { apply Forall_cons_2; [| by apply Forall_cons_2].
    rewrite length_app. simpl. rewrite length_replicate. lia. }
  cbn [concat]. rewrite app_nil_r. unfold data.
  rewrite !bytes_bits_app, HL, HPb, <- bytes_bits_app.
  rewrite ok_bit_limit in Hbl. rewrite length_words_bits by (done || unfold block_bits, wbits in *; lia).
  rewrite <- !app_assoc. do 3 f_equal. rewrite !app_assoc, <- replicate_add. do 3 f_equal.
  fold bl. rewrite <- (Z.mod_unique _ bb (-1) (bb - 2 * w - 2 - bl + bb)) by (unfold block_bits, wbits in *; lia).
  unfold block_bits, wbits in *. lia.
Qed.

(** Close compresses the last blocks of the padded message and writes the
    digest over the first octets of [dst]. *)
Lemma blake_close_spec sc h x tl ub n u0 dst out :
  Holds sc h x tl -> (bb | x) -> 0 <= n <= 7 -> length u0 = bsz ->
  (out <= 8)%nat -> (wbytes f * out <= length dst)%nat ->
  exists sc' fbs cs,
    blake_close F sc ub n u0 dst out
    = Some (sc', (take out (step_blocks h cs fbs) ≫= enc_be F) ++ drop (wbytes f * out) dst)
    /\ length (take out (step_blocks h cs fbs) ≫= enc_be F) = (wbytes f * out)%nat
    /\ length (sc_buf sc') = bsz
    /\ last_blocks x tl ub n (Nat.eqb out 8) cs fbs.
Proof.
  intros Hs Hx Hn Hu Ho Hd. pose proof (holds_lt _ _ _ _ _ Hs). pose proof (bsz_bounds (F := F)).
  destruct (holds_T _ _ _ _ _ Hs) as [E0 E1]. pose proof (holds_ptr _ _ _ _ _ Hs) as Ep.
  unfold blake_close. rewrite Ep.
  set (bl := 8 * Z.of_nat (length tl) + n).
  replace (u32 (u32 (u32 (Z.of_nat (length tl)) << 3) + n)) with bl.
  2: { rewrite (wrap_id 32 (Z.of_nat _)) by (unfold fits; lia). rewrite Z.shiftl_mul_pow2 by lia.
       change (2 ^ 3) with 8. rewrite (wrap_id 32 (_ * _)) by (unfold fits; lia).
       rewrite wrap_id by (unfold fits; lia). unfold bl. lia. }
  rewrite (buf_write_Some _ _ _ (take (length tl) u0) (take 1 (drop (length tl) u0))
             (drop (S (length tl)) u0));
    [| | rewrite length_take; lia | rewrite length_take, length_drop; cbn [length]; lia].
  2: { replace (S (length tl)) with (length tl + 1)%nat by lia.
       by rewrite <- drop_drop, !take_drop. }
  obind. pose proof (close_counter sc h x tl n Hs Hx Hn) as Hc. cbv zeta in Hc. fold bl in Hc.
  rewrite Ep in Hc. set (sc1 := if _ && _ then _ else _) in *. rewrite E0, E1, ok_word_bits.
  match goal with |- context [(if bl <=? bit_limit F then ?A else ?B) ≫= _] =>
    assert (Hfin : exists sc' fbs cs, (if bl <=? bit_limit F then A else B) = Some sc' /\
      Holds sc' (step_blocks h cs fbs) (List.last cs 0) [] /\
      last_blocks x tl ub n (Nat.eqb out 8) cs fbs) end.
  { destruct (Z.leb_spec bl (bit_limit F)).
    - exact (close_one sc1 h x tl ub n u0 (Nat.eqb out 8) _ _ Hc Hx Hn Hu ltac:(done) eq_refl eq_refl).
    - exact (close_two sc1 h x tl ub n u0 (Nat.eqb out 8) _ _ Hc Hx Hn Hu ltac:(done) eq_refl eq_refl). }
  destruct Hfin as (sc' & fbs & cs & E & Hs' & Hlast). cbv zeta in E |- *.
  rewrite E. obind. rewrite (holds_H _ _ _ _ _ Hs').
  destruct (holds_words _ _ _ _ _ Hs') as [Hl _].
  destruct (write_digest_spec (step_blocks h cs fbs) out dst) as [-> Hlen]; [done.. |].
  obind. destruct (holds_buf _ _ _ _ _ Hs') as (? & _ & ?). by exists sc', fbs, cs.
Qed.
End Close.
