(* ===== verification/BlakeProofs.v ===== *)
(** * blake.c: correctness

    The properties of [Blake.v]: hashing a message in pieces gives the digest of
    the specification, for every way of cutting the message; the two code paths
    of the compression agree; contexts can be reused. *)

From S2P Require Import Prelude BlakeSpec Blake BlakeCore BlakeClose.
#[local] Open Scope Z_scope.

(** ** The blocks of the padded message *)

Lemma chunks_concat {A} n (ls : list (list A)) fuel :
  (0 < n)%nat -> Forall (fun l => length l = n) ls -> (length ls <= fuel)%nat ->
  chunks fuel n (concat ls) = ls.
Proof.
  intros Hn Hls. revert fuel. induction Hls as [|l ls Hl Hls IH]; intros fuel Hf; [by destruct fuel |].
  cbn [length] in Hf. destruct fuel as [|fuel]; [lia |]. cbn [concat].
  destruct l as [|x l]; [simpl in Hl; lia |].
  change (chunks (S fuel) n ((x :: l) ++ concat ls))
    with (take n ((x :: l) ++ concat ls) :: chunks fuel n (drop n ((x :: l) ++ concat ls))).
  rewrite take_app_length', drop_app_length', IH by (done || lia). done.
Qed.

Lemma concat_bytes_bits ls : concat (bytes_bits <$> ls) = bytes_bits (concat ls).
Proof.
  induction ls as [|l ls IH]; [done |]. cbn [fmap list_fmap concat].
  by rewrite bytes_bits_app, <- IH.
Qed.

(** An indexed fold as a fold over the zipped indices. *)
Lemma foldl_imap {A B} (K : A -> Z -> B -> A) (c : nat -> Z) h k ls :
  foldl (fun h '(i, b) => K h (c i) b) h (imap (fun i b => ((k + i)%nat, b)) ls)
  = foldl (fun h '(t, b) => K h t b) h (zip (c <$> seq k (length ls)) ls).
Proof.
  revert h k. induction ls as [|b ls IH]; intros h k; [done |].
  cbn [length seq fmap list_fmap zip zip_with foldl imap].
  rewrite Nat.add_0_r, <- IH. f_equal. apply imap_ext. intros i y Hy. simpl. f_equal. lia.
Qed.

Lemma foldl_zip_fmap {A B C} (K : A -> Z -> C -> A) (g : B -> C) h cs ls :
  foldl (fun h '(t, b) => K h t b) h (zip cs (g <$> ls))
  = foldl (fun h '(t, b) => K h t (g b)) h (zip cs ls).
Proof.
  revert h cs. induction ls as [|l ls IH]; intros h [|c cs]; [done.. |].
  apply IH.
Qed.

Section Hash.
Context {F : flavour} {f : family} `{OK : !flavour_ok F f}.
Abbreviation w := (wbits f).
Abbreviation bb := (block_bits f).
Abbreviation bsz := (16 * wbytes f)%nat.
Context (salt : list Z) (v : variant) (Hv : fam v = f).

Lemma absorb_zip h k bs :
  absorb (f := f) salt h (bb * Z.of_nat k) bs
  = foldl (fun h '(c, b) => step_block (f := f) salt h c b) h
      (zip ((fun i => (Z.of_nat i + 1) * bb) <$> seq k (length bs)) bs).
Proof.
  revert h k. induction bs as [|b bs IH]; intros h k; [done |].
  cbn [absorb length seq fmap list_fmap zip zip_with foldl].
  replace (bb * Z.of_nat k + bb) with (bb * Z.of_nat (S k)) by lia.
  rewrite IH. do 2 f_equal. lia.
Qed.

(** The message cut into full blocks [bs], pending octets [tl] and [n] bits. *)
Context (bs : list (list Z)) (tl : list Z) (ub n : Z).
Context (Hbs : Forall (fun b => length b = bsz) bs) (Htl : (length tl < bsz)%nat) (Hn : 0 <= n <= 7).
Definition msg_bits : list bool := bytes_bits (concat bs ++ tl) ++ take (Z.to_nat n) (byte_bits ub).
Abbreviation x := (bb * Z.of_nat (length bs)).
Abbreviation bl := (8 * Z.of_nat (length tl) + n).

Lemma length_msg_bits : Z.of_nat (length msg_bits) = x + bl.
Proof.
  unfold msg_bits. rewrite length_app, length_bytes_bits, length_app, length_take.
  rewrite (length_concat_blocks bsz) by done. rewrite byte_bits_explicit. simpl length.
  unfold block_bits, wbits. lia.
Qed.

Lemma counters_spec cs fbs :
  last_blocks (f := f) x tl ub n (mark v) cs fbs ->
  counter v (x + bl) <$> seq 0 (length bs + length fbs)
  = ((fun i => (Z.of_nat i + 1) * bb) <$> seq 0 (length bs)) ++ cs.
Proof.
  intros (_ & -> & Hne & _). pose proof (bsz_bounds (F := F)) as Hbz.
  assert (Hbb : 0 < bb) by (rewrite bb_bsz; lia).
  assert (Hbl : 0 <= bl < bb) by (rewrite bb_bsz; lia).
  rewrite seq_app, fmap_app. f_equal.
  - apply list_fmap_ext. intros i j Hij. apply lookup_seq in Hij as [-> ?].
    unfold counter. rewrite Hv. rewrite (proj2 (Z.ltb_lt _ _)) by nia.
    apply Z.min_r. nia.
  - destruct fbs as [|b fbs]; [done |]. cbn [length seq fmap list_fmap].
    replace (S (length fbs) - 1)%nat with (length fbs) by lia. f_equal.
    + unfold counter, last_count. rewrite Hv.
      destruct (Z.ltb_spec (Z.of_nat (0 + length bs) * bb) (x + bl)), (Z.eqb_spec bl 0);
        try (rewrite Z.min_l by lia); lia.
    + apply list_eq. intros i. rewrite list_lookup_fmap.
      destruct (decide (i < length fbs)%nat).
      * rewrite lookup_seq_lt, lookup_replicate_2 by done. cbn [fmap option_fmap option_map].
        unfold counter. rewrite Hv, (proj2 (Z.ltb_ge _ _)); [done | nia].
      * rewrite !lookup_ge_None_2 by (rewrite ?length_seq, ?length_replicate; lia). done.
Qed.

(** The padded message is the full blocks followed by the last blocks. *)
Lemma padding_blocks cs fbs :
  last_blocks (f := f) x tl ub n (mark v) cs fbs ->
  blake_blocks v msg_bits = bytes_bits <$> (bs ++ fbs).
Proof.
  intros (Hfbs & _ & _ & Hbits). pose proof (bsz_bounds (F := F)) as Hbz.
  assert (Hpad : padding v msg_bits = concat (bytes_bits <$> (bs ++ fbs))).
  { rewrite concat_bytes_bits, concat_app, bytes_bits_app, Hbits.
    unfold padding. rewrite Hv, length_msg_bits. unfold msg_bits.
    rewrite bytes_bits_app, <- !app_assoc. do 5 f_equal. f_equal.
    replace (bb - 2 * w - 2 - (x + bl)) with (bb - 2 * w - 2 - bl + (- Z.of_nat (length bs)) * bb) by lia.
    rewrite Z.mod_add by (rewrite bb_bsz; lia). done. }
  assert (Hall : Forall (fun l => length l = Z.to_nat bb) (bytes_bits <$> (bs ++ fbs))).
  { apply Forall_fmap. assert (Hboth : Forall (fun b => length b = bsz) (bs ++ fbs))
      by (by apply Forall_app_2).
    revert Hboth. apply Forall_impl.
    intros b Hb. simpl. rewrite length_bytes_bits, Hb, bb_bsz. lia. }
  unfold blake_blocks. rewrite Hpad, Hv. apply chunks_concat; [rewrite bb_bsz; lia | done |].
  rewrite (length_concat_blocks (Z.to_nat bb)) by done. rewrite bb_bsz. nia.
Qed.

Lemma blake_chain_blocks cs fbs :
  last_blocks (f := f) x tl ub n (mark v) cs fbs ->
  blake_chain v salt msg_bits
  = step_blocks (f := f) salt (absorb (f := f) salt (iv v) 0 bs) cs fbs.
Proof.
  intros Hl. unfold blake_chain. rewrite (padding_blocks cs fbs) by done.
  rewrite length_msg_bits, Hv.
  pose proof (foldl_imap (fun h t b => compress f h salt t (block_words f b))
    (counter v (x + bl)) (iv v) 0 (bytes_bits <$> (bs ++ fbs))) as E. cbn [Nat.add] in E.
  etrans; [exact E |]. rewrite length_fmap, length_app, (counters_spec cs fbs) by done.
  rewrite foldl_zip_fmap. replace (absorb salt (iv v) 0 bs)
    with (absorb (f := f) salt (iv v) (bb * Z.of_nat 0) bs) by (by rewrite Z.mul_0_r).
  rewrite absorb_zip, zip_with_app by (by rewrite length_fmap, length_seq).
  by rewrite foldl_app.
Qed.
End Hash.

(** ** A whole hashing session *)

Section Session.
Context {F : flavour} {f : family} `{OK : !flavour_ok F f}.
Abbreviation w := (wbits f).
Abbreviation bsz := (16 * wbytes f)%nat.
Context (salt : list Z) (Hsalt : length salt = 4%nat) (Hsaltf : Forall (fits w) salt).
Context (v : variant) (Hv : fam v = f).
Context (Hiv : length (iv v) = 8%nat) (Hivf : Forall (fits w) (iv v)).
Context (Hout : (out_words v <= 8)%nat) (Hmark : mark v = Nat.eqb (out_words v) 8).

Lemma init_holds sc :
  length (sc_buf sc) = bsz -> holds (f := f) salt (blake_init sc (iv v) salt) (iv v) 0 [].
Proof.
  intros Hb. pose proof (bsz_bounds (F := F)). pose proof (wbits_pos (F := F)).
  split; cbn; try done; try lia. by exists (sc_buf sc).
Qed.

Lemma enc_words_bits l : bytes_bits (l ≫= enc_be F) = l ≫= val_bits (8 * wbytes f).
Proof.
  induction l as [|y l IH]; [done |]. cbn [mbind list_bind].
  by rewrite bytes_bits_app, ok_enc, IH.
Qed.

Lemma enc_words_fits l : Forall (fits 8) (l ≫= enc_be F).
Proof.
  induction l as [|y l IH]; [constructor |]. cbn [mbind list_bind].
  apply Forall_app_2; [apply (ok_enc_wf (F := F) (f := f)) | done].
Qed.

Lemma session_spec sc0 chunks ub n u0 dst :
  length (sc_buf sc0) = bsz -> Forall (Forall (fits 8)) chunks -> 0 <= n <= 7 ->
  length u0 = bsz -> (wbytes f * out_words v <= length dst)%nat ->
  exists sc' digest,
    (sc ← updates (blake_update F) (blake_init sc0 (iv v) salt) chunks;
     blake_close F sc ub n u0 dst (out_words v))
    = Some (sc', digest ++ drop (length digest) dst)
    /\ length digest = (wbytes f * out_words v)%nat
    /\ bytes_bits digest
       = blake_hash v salt (bytes_bits (concat chunks) ++ take (Z.to_nat n) (byte_bits ub))
    /\ Forall (fits 8) digest /\ length (sc_buf sc') = bsz.
Proof.
  intros Hb Hc Hn Hu Hd. pose proof (init_holds sc0 Hb) as H0.
  destruct (updates_take salt Hsalt Hsaltf _ _ _ _ chunks H0 Hc) as (sc1 & -> & bs & tl & Heq & Hbs & H1).
  cbn [app] in Heq. rewrite Z.add_0_l in H1. obind.
  destruct (blake_close_spec salt Hsalt Hsaltf sc1 _ _ tl ub n u0 dst (out_words v) H1)
    as (sc' & fbs & cs & -> & Hl & Hbuf & Hlast); [by apply Z.divide_factor_l | done.. |].
  rewrite <- Hmark in Hlast.
  exists sc'. eexists. rewrite Hl. split; [done |]. split; [done |].
  split; [| split; [apply enc_words_fits | done]].
  rewrite enc_words_bits. unfold blake_hash. rewrite Heq, Hv.
  rewrite <- (blake_chain_blocks (F := F) salt v Hv bs tl ub n Hbs (holds_lt _ _ _ _ _ H1) Hn cs fbs Hlast).
  done.
Qed.
End Session.

(** What a session with an [init], [update], [close] interface must do: from any
    context with a buffer of [size] octets, for every cut of the message, it
    writes the digest of the message over the first octets of the output, leaves
    the rest of it alone, and leaves a freshly initialised context behind. *)
Definition session_correct (v : variant) (size : nat) (init : context -> context)
    (upd : context -> list Z -> option context)
    (close : context -> Z -> Z -> list Z -> list Z -> option (context * list Z)) : Prop :=
  forall cc chunks ub n u0 dst,
    length (sc_buf cc) = size -> Forall (Forall (fits 8)) chunks -> 0 <= n <= 7 ->
    length u0 = size -> (wbytes (fam v) * out_words v <= length dst)%nat ->
    exists cc' digest,
      (cc ← updates upd (init cc) chunks; close cc ub n u0 dst)
      = Some (cc', digest ++ drop (length digest) dst)
      /\ length digest = (wbytes (fam v) * out_words v)%nat
      /\ bytes_bits digest
         = blake_hash v no_salt (bytes_bits (concat chunks) ++ take (Z.to_nat n) (byte_bits ub))
      /\ Forall (fits 8) digest /\ cc' = init cc' /\ length (sc_buf cc') = size.

Lemma session_correct_intro F v ivl salt out :
  flavour_ok F (fam v) -> iv v = ivl -> salt = no_salt -> out_words v = out ->
  length ivl = 8%nat -> Forall (fits (wbits (fam v))) ivl ->
  (out <= 8)%nat -> mark v = Nat.eqb out 8 ->
  session_correct v (16 * wbytes (fam v)) (fun cc => blake_init cc ivl salt) (blake_update F)
    (fun cc ub n u0 dst => '(cc, o) ← blake_close F cc ub n u0 dst out;
                           Some (blake_init cc ivl salt, o)).
Proof.
  intros OK <- -> <- Hiv Hivf Ho Hm cc chunks ub n u0 dst Hb Hc Hn Hu Hd.
  pose proof (wbits_pos (F := F)) as Hw.
  assert (Hz : Forall (fits (wbits (fam v))) no_salt) by (unfold no_salt; forall_build ltac:(apply fits_0; lia)).
  destruct (session_spec no_salt eq_refl Hz v eq_refl Hiv Hivf Ho Hm cc chunks ub n u0 dst Hb Hc Hn Hu Hd)
    as (sc' & digest & E & Hl & Hbits & Hfits & Hbuf).
  destruct (updates _ _ chunks) as [sc|]; [| done]. rewrite obind_Some in E |- *.
  rewrite E. obind. by exists (blake_init sc' (iv v) no_salt), digest.
Qed.

(** BLAKE-256: from any context, any sequence of [sph_blake256] calls followed
    by [sph_blake256_addbits_and_close] (with 0 to 7 extra bits) returns, stays
    inside its buffers, writes exactly the BLAKE-256 digest of the concatenated
    message, leaves the rest of the output alone and leaves an initialised
    context behind, whatever the uninitialised local buffer held. *)
Theorem sph_blake256_correct :
  session_correct BLAKE256 64 sph_blake256_init sph_blake256 sph_blake256_addbits_and_close.
Proof.
  exact (session_correct_intro small BLAKE256 IV256 salt_zero_small 8 _ eq_refl eq_refl eq_refl
    eq_refl ltac:(by apply fitsb_forall) ltac:(lia) eq_refl).
Qed.

Lemma sph_blake256_correct_witness :
  let cc := Context_ (replicate 64 7) 3 [] [] 1 2 in
  exists cc' digest,
    (cc ← updates sph_blake256 (sph_blake256_init cc) [[1; 2]; []; [3]];
     sph_blake256_addbits_and_close cc 0xA0 3 (replicate 64 9) (replicate 70 5))
    = Some (cc', digest ++ drop (length digest) (replicate 70 5))
    /\ length digest = 32%nat
    /\ bytes_bits digest = blake_hash BLAKE256 no_salt (bytes_bits [1; 2; 3] ++ [true; false; true])
    /\ Forall (fits 8) digest /\ cc' = sph_blake256_init cc' /\ length (sc_buf cc') = 64%nat.
Proof.
  apply (sph_blake256_correct (Context_ (replicate 64 7) 3 [] [] 1 2) [[1; 2]; []; [3]] 0xA0 3
    (replicate 64 9) (replicate 70 5)); [reflexivity | | lia | reflexivity | vm_compute; lia].
  forall_build ltac:(by apply fitsb_forall).
Defined.

(** The same for BLAKE-512, the 64-bit code. *)
Theorem sph_blake512_correct :
  session_correct BLAKE512 128 sph_blake512_init sph_blake512 sph_blake512_addbits_and_close.
Proof.
  exact (session_correct_intro big BLAKE512 IV512 salt_zero_big 8 _ eq_refl eq_refl eq_refl
    eq_refl ltac:(by apply fitsb_forall) ltac:(lia) eq_refl).
Qed.

Lemma sph_blake512_correct_witness :
  let cc := Context_ (replicate 128 7) 3 [] [] 1 2 in
  exists cc' digest,
    (cc ← updates sph_blake512 (sph_blake512_init cc) [[1; 2]; []; [3]];
     sph_blake512_addbits_and_close cc 0xA0 3 (replicate 128 9) (replicate 70 5))
    = Some (cc', digest ++ drop (length digest) (replicate 70 5))
    /\ length digest = 64%nat
    /\ bytes_bits digest = blake_hash BLAKE512 no_salt (bytes_bits [1; 2; 3] ++ [true; false; true])
    /\ Forall (fits 8) digest /\ cc' = sph_blake512_init cc' /\ length (sc_buf cc') = 128%nat.
Proof.
  apply (sph_blake512_correct (Context_ (replicate 128 7) 3 [] [] 1 2) [[1; 2]; []; [3]] 0xA0 3
    (replicate 128 9) (replicate 70 5)); [reflexivity | | lia | reflexivity | vm_compute; lia].
  forall_build ltac:(by apply fitsb_forall).
Defined.

(** The same for BLAKE-224, whose padding has no mark bit. *)
Theorem sph_blake224_correct :
  session_correct BLAKE224 64 sph_blake224_init sph_blake224 sph_blake224_addbits_and_close.
Proof.
  exact (session_correct_intro small BLAKE224 IV224 salt_zero_small 7 _ eq_refl eq_refl eq_refl
    eq_refl ltac:(by apply fitsb_forall) ltac:(lia) eq_refl).
Qed.

Lemma sph_blake224_correct_witness :
  let cc := Context_ (replicate 64 7) 3 [] [] 1 2 in
  exists cc' digest,
    (cc ← updates sph_blake224 (sph_blake224_init cc) [[1; 2]; []; [3]];
     sph_blake224_addbits_and_close cc 0xA0 3 (replicate 64 9) (replicate 70 5))
    = Some (cc', digest ++ drop (length digest) (replicate 70 5))
    /\ length digest = 28%nat
    /\ bytes_bits digest = blake_hash BLAKE224 no_salt (bytes_bits [1; 2; 3] ++ [true; false; true])
    /\ Forall (fits 8) digest /\ cc' = sph_blake224_init cc' /\ length (sc_buf cc') = 64%nat.
Proof.
  apply (sph_blake224_correct (Context_ (replicate 64 7) 3 [] [] 1 2) [[1; 2]; []; [3]] 0xA0 3
    (replicate 64 9) (replicate 70 5)); [reflexivity | | lia | reflexivity | vm_compute; lia].
  forall_build ltac:(by apply fitsb_forall).
Defined.

(** The same for BLAKE-384. *)
Theorem sph_blake384_correct :
  session_correct BLAKE384 128 sph_blake384_init sph_blake384 sph_blake384_addbits_and_close.
Proof.
  exact (session_correct_intro big BLAKE384 IV384 salt_zero_big 6 _ eq_refl eq_refl eq_refl
    eq_refl ltac:(by apply fitsb_forall) ltac:(lia) eq_refl).
Qed.

Lemma sph_blake384_correct_witness :
  let cc := Context_ (replicate 128 7) 3 [] [] 1 2 in
  exists cc' digest,
    (cc ← updates sph_blake384 (sph_blake384_init cc) [[1; 2]; []; [3]];
     sph_blake384_addbits_and_close cc 0xA0 3 (replicate 128 9) (replicate 70 5))
    = Some (cc', digest ++ drop (length digest) (replicate 70 5))
    /\ length digest = 48%nat
    /\ bytes_bits digest = blake_hash BLAKE384 no_salt (bytes_bits [1; 2; 3] ++ [true; false; true])
    /\ Forall (fits 8) digest /\ cc' = sph_blake384_init cc' /\ length (sc_buf cc') = 128%nat.
Proof.
  apply (sph_blake384_correct (Context_ (replicate 128 7) 3 [] [] 1 2) [[1; 2]; []; [3]] 0xA0 3
    (replicate 128 9) (replicate 70 5)); [reflexivity | | lia | reflexivity | vm_compute; lia].
  forall_build ltac:(by apply fitsb_forall).
Defined.

(** The compact and the unrolled compression agree, in either flavour. *)
Lemma compress_compact_unrolled F f (OK : flavour_ok F f) h s t0 t1 b :
  length h = 8%nat -> length s = 4%nat -> length b = (16 * wbytes f)%nat ->
  Forall (fits (wbits f)) h -> Forall (fits (wbits f)) s -> Forall (fits 8) b ->
  fits (wbits f) t0 -> fits (wbits f) t1 ->
  COMPRESS_compact F h s t0 t1 b = COMPRESS F h s t0 t1 b.
Proof.
  intros Hh Hs Hb Hhf Hsf Hbf H0 H1.
  pose proof (wbits_pos (F := F)) as Hw.
  set (t := t1 * 2 ^ wbits f + t0).
  assert (E0 : t0 = wrap (wbits f) t).
  { unfold wrap, t. rewrite Z.add_comm, Z.mod_add by (pose proof (pow2_pos (wbits f)); lia).
    symmetry. by apply Z.mod_small. }
  assert (E1 : t1 = wrap (wbits f) (t / 2 ^ wbits f)).
  { unfold t. rewrite Z.div_add_l, Z.div_small, Z.add_0_r by (done || pose proof (pow2_pos (wbits f)); lia).
    symmetry. by apply wrap_id. }
  rewrite E0, E1, COMPRESS_spec, COMPRESS_compact_spec by done. done.
Qed.

(** The compact code (table [sigma], round loop) and the unrolled one (macros,
    fixed sequence of rounds) compute the same chaining value: the choice made by
    [SPH_COMPACT_BLAKE_32] and [SPH_COMPACT_BLAKE_64] cannot change a digest. *)
Theorem compact_unrolled_agree :
  (forall h s t0 t1 b,
     length h = 8%nat -> length s = 4%nat -> length b = 64%nat ->
     Forall (fits 32) h -> Forall (fits 32) s -> Forall (fits 8) b -> fits 32 t0 -> fits 32 t1 ->
     COMPRESS32_compact h s t0 t1 b = COMPRESS32 h s t0 t1 b)
  /\ (forall h s t0 t1 b,
     length h = 8%nat -> length s = 4%nat -> length b = 128%nat ->
     Forall (fits 64) h -> Forall (fits 64) s -> Forall (fits 8) b -> fits 64 t0 -> fits 64 t1 ->
     COMPRESS64_compact h s t0 t1 b = COMPRESS64 h s t0 t1 b).
Proof.
  split; intros; [by apply (compress_compact_unrolled small small_family _)
                 | by apply (compress_compact_unrolled big big_family _)].
Qed.

Lemma compact_unrolled_agree_witness :
  COMPRESS32_compact IV256 salt_zero_small 512 0 (replicate 64 1)
  = COMPRESS32 IV256 salt_zero_small 512 0 (replicate 64 1).
Proof.
  apply (proj1 compact_unrolled_agree); try reflexivity.
  - by apply fitsb_forall.
  - by apply fitsb_forall.
  - by apply fitsb_forall.
  - split; [lia | vm_compute; reflexivity].
  - split; [lia | vm_compute; reflexivity].
Defined.
