(* ===== verification/Sponge.v ===== *)
(** * Sponge.c: the sponge of Lyra2

    A model of [src/src/crypto/Lyra2Z/Sponge.c] and of the macros of [Sponge.h].
    The sponge state is a list of sixteen 64-bit words.  The memory matrix is
    one flat list of words and a row pointer is an index into it, so rows passed
    to a routine may overlap; an access outside the matrix gives [None].

    The source writes the twelve words of a block one assignment at a time
    ([ptrWordOut[0] = ..; .. ptrWordOut[11] = ..]).  Assignment [j] only touches
    word [j] behind each pointer, and the pointers are always block-aligned,
    hence equal or a block apart, so such a group is one block read or write. *)

From S2P Require Import Prelude.
#[local] Open Scope Z_scope.

Definition BLOCK_LEN_INT64 : Z := 12.
Definition BLOCK_LEN_BYTES : Z := BLOCK_LEN_INT64 * 8.
Definition BLOCK_LEN_BLAKE2_SAFE_INT64 : Z := 8.
Definition BLOCK_LEN_BLAKE2_SAFE_BYTES : Z := BLOCK_LEN_BLAKE2_SAFE_INT64 * 8.

Definition blake2b_IV : list Z :=
  [0x6a09e667f3bcc908; 0xbb67ae8584caa73b; 0x3c6ef372fe94f82b; 0xa54ff53a5f1d36f1;
   0x510e527fade682d1; 0x9b05688c2b3e6c1f; 0x1f83d9abfb41bd6b; 0x5be0cd19137e2179].

(** ** The permutation *)

Definition rotr64 (w c : Z) : Z := (w >> c) .| u64 (w << (64 - c)).

(** The macro [G]. *)
Definition G_lyra (a b c d : Z) : Z * Z * Z * Z :=
  let a := u64 (a + b) in
  let d := rotr64 (d ^^ a) 32 in
  let c := u64 (c + d) in
  let b := rotr64 (b ^^ c) 24 in
  let a := u64 (a + b) in
  let d := rotr64 (d ^^ a) 16 in
  let c := u64 (c + d) in
  let b := rotr64 (b ^^ c) 63 in
  (a, b, c, d).

Definition ROUND_LYRA (v : list Z) : list Z :=
  match v with
  | [v0; v1; v2; v3; v4; v5; v6; v7; v8; v9; v10; v11; v12; v13; v14; v15] =>
      let '(v0, v4, v8, v12) := G_lyra v0 v4 v8 v12 in
      let '(v1, v5, v9, v13) := G_lyra v1 v5 v9 v13 in
      let '(v2, v6, v10, v14) := G_lyra v2 v6 v10 v14 in
      let '(v3, v7, v11, v15) := G_lyra v3 v7 v11 v15 in
      let '(v0, v5, v10, v15) := G_lyra v0 v5 v10 v15 in
      let '(v1, v6, v11, v12) := G_lyra v1 v6 v11 v12 in
      let '(v2, v7, v8, v13) := G_lyra v2 v7 v8 v13 in
      let '(v3, v4, v9, v14) := G_lyra v3 v4 v9 v14 in
      [v0; v1; v2; v3; v4; v5; v6; v7; v8; v9; v10; v11; v12; v13; v14; v15]
  | _ => v
  end.

Definition blake2bLyra (v : list Z) : list Z := for_loop 12 (fun _ => ROUND_LYRA) v.
Definition reducedBlake2bLyra (v : list Z) : list Z := ROUND_LYRA v.

(** ** State *)

Definition initState : list Z := replicate 8 0 ++ blake2b_IV.

(** [state[j] ^= x[j]] for the words of [x]. *)
Definition xor_state (state x : list Z) : list Z :=
  zip_with Z.lxor (take (length x) state) x ++ drop (length x) state.

(** Little-endian octets of the state, as [memcpy] copies them. *)
Definition le_bytes (x : Z) : list Z :=
  [u8 x; u8 (x >> 8); u8 (x >> 16); u8 (x >> 24);
   u8 (x >> 32); u8 (x >> 40); u8 (x >> 48); u8 (x >> 56)].
Definition words_bytes (l : list Z) : list Z := l ≫= le_bytes.

(** [squeeze(state, out, len)]: the state and the output buffer afterwards. *)
Definition squeeze (state out : list Z) (len : Z) : option (list Z * list Z) :=
  let fullBlocks := len / BLOCK_LEN_BYTES in
  '(state, out, ptr) ←
    for_opt (Z.to_nat fullBlocks) (fun _ '(state, out, ptr) =>
      src ← buf_read 0 BLOCK_LEN_BYTES (words_bytes state);
      out ← buf_write ptr src out;
      Some (blake2bLyra state, out, ptr + BLOCK_LEN_BYTES)) (state, out, 0);
  src ← buf_read 0 (len mod BLOCK_LEN_BYTES) (words_bytes state);
  out ← buf_write ptr src out;
  Some (state, out).

Definition absorbBlock (state mem : list Z) (ptr : Z) : option (list Z) :=
  blk ← buf_read ptr BLOCK_LEN_INT64 mem;
  Some (blake2bLyra (xor_state state blk)).

Definition absorbBlockBlake2Safe (state mem : list Z) (ptr : Z) : option (list Z) :=
  blk ← buf_read ptr BLOCK_LEN_BLAKE2_SAFE_INT64 mem;
  Some (blake2bLyra (xor_state state blk)).

(** ** Rows *)

(** Word-wise operations on blocks. *)
Definition xor_block (a b : list Z) : list Z := zip_with Z.lxor a b.
Definition add_block (a b : list Z) : list Z := zip_with (fun x y => u64 (x + y)) a b.

(** The rate part of the state, and the same rotated by one word
    ([state[11]; state[0]; .. ; state[10]]). *)
Definition rate (state : list Z) : list Z := take 12 state.
Definition rotW (blk : list Z) : list Z := drop 11 blk ++ take 11 blk.

(** [for (i = 0; i < nCols; i++)]: the counter is an [int], which overflows where it cannot
    reach [nCols]. *)
Definition for_cols {S : Type} (nCols : Z) (body : nat -> S -> option S) (s : S) : option S :=
  if nCols <? 2 ^ 31 then for_opt (Z.to_nat nCols) body s else None.

Definition reducedSqueezeRow0 (state mem : list Z) (rowOut nCols : Z)
    : option (list Z * list Z) :=
  '(state, mem, _) ←
    for_cols nCols (fun _ '(state, mem, ptrWord) =>
      mem ← buf_write ptrWord (rate state) mem;
      Some (reducedBlake2bLyra state, mem, ptrWord - BLOCK_LEN_INT64))
      (state, mem, rowOut + (nCols - 1) * BLOCK_LEN_INT64);
  Some (state, mem).

Definition reducedDuplexRow1 (state mem : list Z) (rowIn rowOut nCols : Z)
    : option (list Z * list Z) :=
  '(state, mem, _, _) ←
    for_cols nCols (fun _ '(state, mem, ptrWordIn, ptrWordOut) =>
      blkIn ← buf_read ptrWordIn BLOCK_LEN_INT64 mem;
      let state := reducedBlake2bLyra (xor_state state blkIn) in
      mem ← buf_write ptrWordOut (xor_block blkIn (rate state)) mem;
      Some (state, mem, ptrWordIn + BLOCK_LEN_INT64, ptrWordOut - BLOCK_LEN_INT64))
      (state, mem, rowIn, rowOut + (nCols - 1) * BLOCK_LEN_INT64);
  Some (state, mem).

Definition reducedDuplexRowSetup (state mem : list Z) (rowIn rowInOut rowOut nCols : Z)
    : option (list Z * list Z) :=
  '(state, mem, _, _, _) ←
    for_cols nCols (fun _ '(state, mem, ptrWordIn, ptrWordInOut, ptrWordOut) =>
      blkIn ← buf_read ptrWordIn BLOCK_LEN_INT64 mem;
      blkInOut ← buf_read ptrWordInOut BLOCK_LEN_INT64 mem;
      let state := reducedBlake2bLyra (xor_state state (add_block blkIn blkInOut)) in
      mem ← buf_write ptrWordOut (xor_block blkIn (rate state)) mem;
      blkInOut ← buf_read ptrWordInOut BLOCK_LEN_INT64 mem;
      mem ← buf_write ptrWordInOut (xor_block blkInOut (rotW (rate state))) mem;
      Some (state, mem, ptrWordIn + BLOCK_LEN_INT64, ptrWordInOut + BLOCK_LEN_INT64,
            ptrWordOut - BLOCK_LEN_INT64))
      (state, mem, rowIn, rowInOut, rowOut + (nCols - 1) * BLOCK_LEN_INT64);
  Some (state, mem).

Definition reducedDuplexRow (state mem : list Z) (rowIn rowInOut rowOut nCols : Z)
    : option (list Z * list Z) :=
  '(state, mem, _, _, _) ←
    for_cols nCols (fun _ '(state, mem, ptrWordIn, ptrWordInOut, ptrWordOut) =>
      blkIn ← buf_read ptrWordIn BLOCK_LEN_INT64 mem;
      blkInOut ← buf_read ptrWordInOut BLOCK_LEN_INT64 mem;
      let state := reducedBlake2bLyra (xor_state state (add_block blkIn blkInOut)) in
      blkOut ← buf_read ptrWordOut BLOCK_LEN_INT64 mem;
      mem ← buf_write ptrWordOut (xor_block blkOut (rate state)) mem;
      blkInOut ← buf_read ptrWordInOut BLOCK_LEN_INT64 mem;
      mem ← buf_write ptrWordInOut (xor_block blkInOut (rotW (rate state))) mem;
      Some (state, mem, ptrWordIn + BLOCK_LEN_INT64, ptrWordInOut + BLOCK_LEN_INT64,
            ptrWordOut + BLOCK_LEN_INT64))
      (state, mem, rowIn, rowInOut, rowOut);
  Some (state, mem).
