(* ===== verification/Lyra2.v ===== *)
(** * Lyra2.c and Lyra2Z.c

    A model of [LYRA2] and [LYRA2_old] ([src/src/crypto/Lyra2Z/Lyra2.c]) and of
    [lyra2z_hash] ([Lyra2Z.c]).

    - The three allocations are an argument ([allocs]): each may fail, and the
      routine then returns -1.
    - The matrix is first used as octets (password, salt, basil, padding) and then
      as 64-bit words; the host is little-endian.
    - Indices are [int64_t] and sizes [uint64_t]; the conversions the source
      relies on are written out ([s64], [u64]).
    - Every access outside the matrix, the row table or a caller's buffer, and
      every loop that does not end within its fuel or whose counter overflows, gives [None].
    - [LYRA2_old] is the same code with another stride for the input blocks. *)

From S2P Require Import Prelude Blake Sponge.
#[local] Open Scope Z_scope.

(** Conversion to [int64_t]. *)
Definition s64 (x : Z) : Z := let y := u64 x in if y <? 2 ^ 63 then y else y - 2 ^ 64.

(** Which of the allocations (matrix, row table, state) succeed. *)
Record allocs := Allocs { alloc_matrix : bool; alloc_rows : bool; alloc_state : bool }.

(** The octets of the matrix as words. *)
Definition le_word (bs : list Z) : Z :=
  foldr (fun b acc => (acc << 8) .| b) 0 bs.
Fixpoint bytes_words (n : nat) (bs : list Z) : list Z :=
  match n with
  | O => []
  | S n => le_word (take 8 bs) :: bytes_words n (drop 8 bs)
  end.

(** The locals of [LYRA2] that its loops update. *)
Record locals := Locals {
  row : Z; prev : Z; rowa : Z; step : Z; window : Z; gap : Z;
  state : list Z; matrix : list Z;
}.

Section LYRA2.
Context (nRows nCols : Z).

Definition ROW_LEN_INT64 : Z := s64 (BLOCK_LEN_INT64 * nCols).
Definition ROW_LEN_BYTES : Z := s64 (ROW_LEN_INT64 * 8).

(** [memMatrix[i]], the table filled by the loop over the rows. *)
Definition memMatrix (i : Z) : option Z :=
  if (0 <=? i) && (i <? nRows) then Some (i * ROW_LEN_INT64) else None.

(** Lay out pwd || salt || basil || 10*1 padding at the start of the matrix.
    Returns the number of input blocks and the octets of the matrix. *)
Definition place_input (mem : list Z) (kLen : Z) (pwd : list Z) (pwdlen : Z)
    (salt : list Z) (saltlen timeCost : Z) : option (Z * list Z) :=
  let nBlocksInput := u64 (u64 (saltlen + pwdlen + 6 * 8) / BLOCK_LEN_BLAKE2_SAFE_BYTES + 1) in
  mem ← buf_fill 0 0 (u64 (nBlocksInput * BLOCK_LEN_BLAKE2_SAFE_BYTES)) mem;
  let ptrByte := 0 in
  src ← buf_read 0 pwdlen pwd;
  mem ← buf_write ptrByte src mem;
  let ptrByte := ptrByte + pwdlen in
  src ← buf_read 0 saltlen salt;
  mem ← buf_write ptrByte src mem;
  let ptrByte := ptrByte + saltlen in
  mem ← buf_write ptrByte (le_bytes kLen) mem;
  let ptrByte := ptrByte + 8 in
  mem ← buf_write ptrByte (le_bytes pwdlen) mem;
  let ptrByte := ptrByte + 8 in
  mem ← buf_write ptrByte (le_bytes saltlen) mem;
  let ptrByte := ptrByte + 8 in
  mem ← buf_write ptrByte (le_bytes timeCost) mem;
  let ptrByte := ptrByte + 8 in
  mem ← buf_write ptrByte (le_bytes nRows) mem;
  let ptrByte := ptrByte + 8 in
  mem ← buf_write ptrByte (le_bytes nCols) mem;
  let ptrByte := ptrByte + 8 in
  mem ← buf_write ptrByte [0x80] mem;
  let ptrByte := nBlocksInput * BLOCK_LEN_BLAKE2_SAFE_BYTES - 1 in
  last ← buf_read ptrByte 1 mem;
  mem ← buf_write ptrByte [hd 0 last ^^ 0x01] mem;
  Some (nBlocksInput, mem).

(** The absorbing loop; [stride] is the increment of [ptrWord] in words. *)
Definition absorb_input (stride nBlocksInput : Z) (st mem : list Z) : option (list Z) :=
  '(st, _) ←
    for_opt (Z.to_nat nBlocksInput) (fun _ '(st, ptrWord) =>
      st ← absorbBlockBlake2Safe st mem ptrWord;
      Some (st, ptrWord + stride)) (st, 0);
  Some st.

(** The index updates at the end of an iteration of the setup loop, which has
    left the state [st] and the matrix [mem]. *)
Definition setup_advance (l : locals) (st mem : list Z) : locals :=
  let rowa' := s64 (rowa l + step l) & s64 (window l - 1) in
  let prev' := row l in
  let row' := s64 (row l + 1) in
  if rowa' =? 0 then
    {| row := row'; prev := prev'; rowa := rowa'; step := s64 (window l + gap l);
       window := s64 (window l * 2); gap := s64 (- gap l); state := st; matrix := mem |}
  else
    {| row := row'; prev := prev'; rowa := rowa'; step := step l;
       window := window l; gap := gap l; state := st; matrix := mem |}.

(** The do-while loop of the setup phase. *)
Fixpoint setup_loop (fuel : nat) (l : locals) : option locals :=
  match fuel with
  | O => None
  | S fuel =>
      pIn ← memMatrix (prev l);
      pInOut ← memMatrix (rowa l);
      pOut ← memMatrix (row l);
      '(st, mem) ← reducedDuplexRowSetup (state l) (matrix l) pIn pInOut pOut nCols;
      let l := setup_advance l st mem in
      if u64 (row l) <? nRows then setup_loop fuel l else Some l
  end.

(** [row = (row + step) % nRows]: the sum is converted to [uint64_t]. *)
Definition wander_next (r stp : Z) : Z := s64 (u64 (r + stp) mod nRows).

(** The inner do-while loop of the wandering phase. *)
Fixpoint wander_loop (fuel : nat) (l : locals) : option locals :=
  match fuel with
  | O => None
  | S fuel =>
      let rowa' := s64 (hd 0 (state l) mod nRows) in
      pIn ← memMatrix (prev l);
      pInOut ← memMatrix rowa';
      pOut ← memMatrix (row l);
      '(st, mem) ← reducedDuplexRow (state l) (matrix l) pIn pInOut pOut nCols;
      let l :=
        {| row := wander_next (row l) (step l); prev := row l; rowa := rowa';
           step := step l; window := window l; gap := gap l; state := st; matrix := mem |} in
      if negb (row l =? 0) then wander_loop fuel l else Some l
  end.

(** [step = (tau % 2 == 0) ? -1 : nRows / 2 - 1], of type [uint64_t]. *)
Definition wander_step (tau : Z) : Z :=
  s64 (if tau mod 2 =? 0 then u64 (-1) else u64 (nRows / 2 - 1)).

Definition set_row (l : locals) (r : Z) : locals :=
  {| row := r; prev := prev l; rowa := rowa l; step := step l; window := window l;
     gap := gap l; state := state l; matrix := matrix l |}.
Definition set_step (l : locals) (s : Z) : locals :=
  {| row := row l; prev := prev l; rowa := rowa l; step := s; window := window l;
     gap := gap l; state := state l; matrix := matrix l |}.

(** The loop over [tau = 1 .. timeCost]; [tau] is an [int64_t], which has to pass [timeCost]. *)
Definition wander (timeCost : Z) (l : locals) : option locals :=
  if timeCost <? 2 ^ 63 - 1 then
    for_opt (Z.to_nat timeCost) (fun i l =>
      wander_loop (Z.to_nat nRows) (set_step l (wander_step (Z.of_nat i + 1)))) l
  else None.

(** The locals at the start of the setup loop. *)
Definition setup_start (st mem : list Z) : locals :=
  {| row := 2; prev := 1; rowa := 0; step := 1; window := 2; gap := 1;
     state := st; matrix := mem |}.

(** The whole routine: the return code and the key buffer. *)
Definition lyra2_with_stride (stride : Z) (a : allocs) (K : list Z) (kLen : Z)
    (pwd : list Z) (pwdlen : Z) (salt : list Z) (saltlen timeCost : Z)
    : option (Z * list Z) :=
  if negb (alloc_matrix a) then Some (-1, K) else
  let size := s64 (s64 nRows * ROW_LEN_BYTES) in
  let bytes := replicate (Z.to_nat size) 0 in
  if negb (alloc_rows a) then Some (-1, K) else
  '(nBlocksInput, bytes) ← place_input bytes kLen pwd pwdlen salt saltlen timeCost;
  if negb (alloc_state a) then Some (-1, K) else
  let wholeMatrix := bytes_words (Z.to_nat (size / 8)) bytes in
  st ← absorb_input stride nBlocksInput initState wholeMatrix;
  p0 ← memMatrix 0;
  p1 ← memMatrix 1;
  '(st, mem) ← reducedSqueezeRow0 st wholeMatrix p0 nCols;
  '(st, mem) ← reducedDuplexRow1 st mem p0 p1 nCols;
  l ← setup_loop (Z.to_nat nRows) (setup_start st mem);
  l ← wander timeCost (set_row l 0);
  pa ← memMatrix (rowa l);
  st ← absorbBlock (state l) (matrix l) pa;
  '(_, K) ← squeeze st K (u32 kLen);
  Some (0, K).
End LYRA2.

Definition LYRA2 (a : allocs) (K : list Z) (kLen : Z) (pwd : list Z) (pwdlen : Z)
    (salt : list Z) (saltlen timeCost nRows nCols : Z) : option (Z * list Z) :=
  lyra2_with_stride nRows nCols BLOCK_LEN_BLAKE2_SAFE_INT64 a K kLen pwd pwdlen salt saltlen timeCost.

Definition LYRA2_old (a : allocs) (K : list Z) (kLen : Z) (pwd : list Z) (pwdlen : Z)
    (salt : list Z) (saltlen timeCost nRows nCols : Z) : option (Z * list Z) :=
  lyra2_with_stride nRows nCols BLOCK_LEN_BLAKE2_SAFE_BYTES a K kLen pwd pwdlen salt saltlen timeCost.

(** [lyra2z_hash(input, output)].  The uninitialised locals are arguments: the
    context, the local buffer of close, and the two digests [hashA], [hashB] as
    octets.  The return code of [LYRA2] is ignored, as in the source. *)
Definition lyra2z_hash (a : allocs) (ctx : context) (u0 hashA hashB : list Z)
    (input output : list Z) : option (list Z) :=
  let ctx := sph_blake256_init ctx in
  data ← buf_read 0 80 input;
  ctx ← sph_blake256 ctx data;
  '(_, hashA) ← sph_blake256_close ctx u0 hashA;
  '(_, hashB) ← LYRA2 a hashB 32 hashA 32 hashA 32 8 8 8;
  src ← buf_read 0 32 hashB;
  buf_write 0 src output.
