(* ===== verification/Lyra2Spec.v ===== *)
(** * Lyra2, as a specification

    Lyra2 over a matrix of [R] x [C] blocks of twelve words, with the sponge built
    on BLAKE2b's round (without message or constants).  The visitation orders are
    given in closed form: the row revisited while row [r] is being set up, and the
    list of rows a wandering pass goes through.  The code of [Lyra2.v], which
    computes both incrementally over a flat array of words, is proved to refine
    this specification. *)

From S2P Require Import Prelude BlakeSpec.
#[local] Open Scope Z_scope.

(** ** The sponge *)

(** BLAKE2b's G is BLAKE's with other rotations; no message, no constants. *)
Definition blake2b_family : family := Family 8 12 (replicate 16 0) 32 24 16 63.
Definition b2_round (st : list Z) : list Z := round blake2b_family (replicate 16 0) st 0.
Definition b2_rounds (n : nat) (st : list Z) : list Z := Nat.iter n b2_round st.

Definition sponge_iv : list Z := replicate 8 0 ++ sha512_iv.

Definition block_xor (a b : list Z) : list Z := zip_with Z.lxor a b.
Definition block_add (a b : list Z) : list Z := zip_with (fun x y => wrap 64 (x + y)) a b.
Definition rot_word (b : list Z) : list Z :=
  match reverse b with [] => [] | x :: l => x :: reverse l end.

(** XOR a block into the first words of the state. *)
Definition inject (st b : list Z) : list Z := zip_with Z.lxor st b ++ drop (length b) st.
Definition bitrate (st : list Z) : list Z := take 12 st.

(** ** The input: 10*1 padding, little-endian words, blocks of eight *)

Definition le64 (x : Z) : list Z := (fun i => wrap 8 (x / 2 ^ (8 * Z.of_nat i))) <$> seq 0 8.
Definition le_val (bs : list Z) : Z := foldr (fun b acc => b + 2 ^ 8 * acc) 0 bs.

Definition pad10star1 (body : list Z) : list Z :=
  let z := (63 - length body mod 64)%nat in
  match z with
  | O => body ++ [0x81]
  | S z => body ++ [0x80] ++ replicate z 0 ++ [0x01]
  end.

(** Password, salt and the integer parameters ("basil"). *)
Definition lyra2_input (kLen : Z) (pwd salt : list Z) (timeCost nRows nCols : Z) : list Z :=
  pad10star1 (pwd ++ salt ++ le64 kLen ++ le64 (Z.of_nat (length pwd))
    ++ le64 (Z.of_nat (length salt)) ++ le64 timeCost ++ le64 nRows ++ le64 nCols).

Definition words (bs : list Z) : list Z := le_val <$> chunks (length bs) 8 bs.

(** Absorb the whole input, eight words at a time. *)
Definition absorb_all (bs : list Z) : list Z :=
  foldl (fun st b => b2_rounds 12 (inject st b)) sponge_iv (chunks (length bs) 8 (words bs)).

Section Matrix.
Context (R C : nat).

(** The matrix in row-major order. *)
Definition cell (r c : nat) : nat := (r * C + c)%nat.
Definition at_ (M : list (list Z)) (r c : nat) : list Z := nth (cell r c) M [].
Definition put (M : list (list Z)) (r c : nat) (b : list Z) : list (list Z) :=
  <[cell r c := b]> M.

(** M[0][C-1-i] = H.squeeze() *)
Definition squeeze_row (s : list Z * list (list Z)) : list Z * list (list Z) :=
  for_loop C (fun i '(st, M) => (b2_round st, put M 0 (C - 1 - i) (bitrate st))) s.

(** M[1][C-1-i] = M[0][i] xor H.duplex(M[0][i]) *)
Definition duplex_row1 (s : list Z * list (list Z)) : list Z * list (list Z) :=
  for_loop C (fun i '(st, M) =>
    let st := b2_round (inject st (at_ M 0 i)) in
    (st, put M 1 (C - 1 - i) (block_xor (at_ M 0 i) (bitrate st)))) s.

(** rand = H.duplex(M[prev][i] + M[row*][i]);
    M[row][C-1-i] = M[prev][i] xor rand; M[row*][i] ^= rotW(rand) *)
Definition setup_row (p ra r : nat) (s : list Z * list (list Z)) : list Z * list (list Z) :=
  for_loop C (fun i '(st, M) =>
    let st := b2_round (inject st (block_add (at_ M p i) (at_ M ra i))) in
    let M := put M r (C - 1 - i) (block_xor (at_ M p i) (bitrate st)) in
    (st, put M ra i (block_xor (at_ M ra i) (rot_word (bitrate st))))) s.

(** rand = H.duplex(M[prev][i] + M[row*][i]);
    M[row][i] ^= rand; M[row*][i] ^= rotW(rand) *)
Definition wander_row (p ra r : nat) (s : list Z * list (list Z)) : list Z * list (list Z) :=
  for_loop C (fun i '(st, M) =>
    let st := b2_round (inject st (block_add (at_ M p i) (at_ M ra i))) in
    let M := put M r i (block_xor (at_ M r i) (bitrate st)) in
    (st, put M ra i (block_xor (at_ M ra i) (rot_word (bitrate st))))) s.

(** *** Setup *)

(** The window of row [r] is the largest power of two not above it; its rows are
    revisited in steps of about half the window. *)
Definition window_step (w : nat) : nat :=
  match w with
  | 2%nat => 1
  | _ => if Nat.even (Nat.log2 w) then w / 2 + 1 else w / 2 - 1
  end.
Definition revisit (r : nat) : nat :=
  let w := (2 ^ Nat.log2 r)%nat in ((r - w) * window_step w mod w)%nat.

Definition setup_rows (s : list Z * list (list Z)) : list Z * list (list Z) :=
  for_loop (R - 2) (fun i s => setup_row (i + 1) (revisit (i + 2)) (i + 2) s) s.

(** *** Wandering *)

(** The rows of pass [tau]: multiples of R/2 - 1 until they come back to row 0
    when [tau] is odd; row 0 and then downwards from (2^64 - 1) mod R when [tau]
    is even. *)
Definition visits (tau : nat) : list nat :=
  if Nat.odd tau then
    (fun k => k * (R / 2 - 1) mod R)%nat <$> seq 0 (R / Nat.gcd (R / 2 - 1) R)
  else 0%nat :: reverse (seq 1 (Z.to_nat ((2 ^ 64 - 1) mod Z.of_nat R))).

(** State, matrix, previous row and last row picked. *)
Definition wander_visit (s : list Z * list (list Z) * nat * nat) (r : nat)
    : list Z * list (list Z) * nat * nat :=
  let '(st, M, p, _) := s in
  let ra := Z.to_nat (hd 0 st mod Z.of_nat R) in
  let '(st, M) := wander_row p ra r (st, M) in
  (st, M, r, ra).

Definition wander_passes (T : nat) (s : list Z * list (list Z) * nat * nat)
    : list Z * list (list Z) * nat * nat :=
  for_loop T (fun i s => foldl wander_visit s (visits (i + 1))) s.
End Matrix.

(** *** Output *)

(** The first [n] octets of the output stream. *)
Definition squeeze_stream (st : list Z) (n : nat) : list Z :=
  take n (seq 0 (n / 96 + 1) ≫= fun i => bitrate (b2_rounds (12 * i) st) ≫= le64).

(** The matrix as first laid out: the padded input, then zeros. *)
Definition initial_matrix (R C : nat) (input : list Z) : list (list Z) :=
  chunks (R * C) 12 (words (input ++ replicate (R * C * 96 - length input) 0)).

Definition lyra2 (kLen : nat) (pwd salt : list Z) (T R C : nat) : list Z :=
  let input := lyra2_input (Z.of_nat kLen) pwd salt (Z.of_nat T) (Z.of_nat R) (Z.of_nat C) in
  let s := (absorb_all input, initial_matrix R C input) in
  let '(st, M) := setup_rows R C (duplex_row1 C (squeeze_row C s)) in
  let '(st, M, _, ra) := wander_passes R C T (st, M, (R - 1)%nat, revisit R) in
  squeeze_stream (b2_rounds 12 (inject st (at_ C M ra 0))) kLen.
