(* ===== verification/SpongeProofs.v ===== *)
(** * Sponge.c: refinement of the row operations

    The permutation is BLAKE2b's round and is invertible; each row routine, run on
    the flat matrix, performs the corresponding operation on blocks. *)

From S2P Require Import Prelude BlakeSpec BlakeCore Sponge Lyra2Spec.
#[local] Open Scope Z_scope.

Definition wf_state (st : list Z) : Prop := length st = 16%nat /\ Forall (fits 64) st.
Definition wf_block (b : list Z) : Prop := length b = 12%nat /\ Forall (fits 64) b.

(** ** The permutation *)

Abbreviation b2_mix := (mix blake2b_family 0 0 0 0).

Lemma rotr64_rotr x n : 0 < n < 64 -> fits 64 x -> rotr64 x n = rotr 64 x n.
Proof. intros. unfold rotr64. rewrite Z.lor_comm. by apply rotr_idiom. Qed.

Lemma G_lyra_mix a b c d :
  Forall (fits 64) [a; b; c; d] -> G_lyra a b c d = b2_mix a b c d.
Proof.
  intros. forall_split. unfold G_lyra, mix. change (wbits blake2b_family) with 64.
  cbn [rot1 rot2 rot3 rot4 blake2b_family]. change (0 ^^ 0) with 0. rewrite !Z.add_0_r.
  rewrite !rotr64_rotr by (lia || solve_fits). done.
Qed.

Lemma b2_mix_fits a b c d a' b' c' d' :
  Forall (fits 64) [a; b; c; d] -> b2_mix a b c d = (a', b', c', d') ->
  Forall (fits 64) [a'; b'; c'; d'].
Proof.
  intros Hf E. forall_split. injection E as <- <- <- <-.
  change (wbits blake2b_family) with 64. cbn [rot1 rot2 rot3 rot4 blake2b_family].
  forall_build ltac:(solve_fits).
Qed.

Lemma b2_mix_at i ia ib ic id v a b c d :
  b2_mix (nth ia v 0) (nth ib v 0) (nth ic v 0) (nth id v 0) = (a, b, c, d) ->
  mix_at blake2b_family 0 i ia ib ic id (replicate 16 0) v
  = <[ia := a]> (<[ib := b]> (<[ic := c]> (<[id := d]> v))).
Proof.
  intros E. unfold mix_at. change (constants blake2b_family) with (replicate 16 0).
  rewrite !nth_zeros, E. done.
Qed.

(** The source's round is BLAKE2b's, and keeps the state well formed. *)
Lemma ROUND_LYRA_spec v :
  wf_state v -> ROUND_LYRA v = b2_round v /\ wf_state (ROUND_LYRA v).
Proof.
  intros [Hl Hf]. unfold b2_round, round. cbn [foldl].
  do 16 (destruct v as [|? v]; [discriminate |]). destruct v; [| discriminate].
  forall_split. cbv beta iota zeta delta [ROUND_LYRA].
  do 8 (rewrite G_lyra_mix by (forall_build done);
    match goal with |- context [match b2_mix ?a ?b ?c ?d with _ => _ end] =>
      let E := fresh "E" in
      destruct (b2_mix a b c d) as [[[? ?] ?] ?] eqn:E;
      match goal with |- context [mix_at _ 0 ?i ?ia ?ib ?ic ?id _ (?x :: ?l)] =>
        rewrite (b2_mix_at i ia ib ic id (x :: l) _ _ _ _ E) end;
      apply b2_mix_fits in E; [| forall_build done]; forall_split
    end; cbn [insert list_insert]).
  split; [done |]. split; [done |]. forall_build done.
Qed.

Lemma b2_round_wf v : wf_state v -> wf_state (b2_round v).
Proof. intros Hv. by destruct (ROUND_LYRA_spec v Hv) as [<- ?]. Qed.

Lemma b2_rounds_wf n v : wf_state v -> wf_state (b2_rounds n v).
Proof. intros Hv. induction n as [|n IH]; [done |]. by apply b2_round_wf. Qed.

Lemma blake2bLyra_spec v : wf_state v -> blake2bLyra v = b2_rounds 12 v.
Proof.
  intros Hv. unfold blake2bLyra.
  assert (H : forall n, for_loop n (fun _ : nat => ROUND_LYRA) v = b2_rounds n v); [| done].
  induction n as [|n IH]; [done |]. rewrite for_loop_S, IH.
  apply ROUND_LYRA_spec. by apply b2_rounds_wf.
Qed.

(** ** Invertibility *)

(** Left rotation undoes the right one. *)
Definition rotl64 (x n : Z) : Z := rotr 64 x (64 - n).

Lemma rotl64_rotr x n : 0 < n < 64 -> fits 64 x -> rotl64 (rotr64 x n) n = x.
Proof.
  intros Hn Hx. rewrite rotr64_rotr by done. unfold rotl64, rotr.
  assert (E : 2 ^ 64 = 2 ^ n * 2 ^ (64 - n)) by (rewrite <- Z.pow_add_r by lia; f_equal; lia).
  pose proof (pow2_pos n). pose proof (pow2_pos (64 - n)).
  assert (0 <= x / 2 ^ n < 2 ^ (64 - n)).
  { destruct Hx. split; [apply Z.div_pos; lia | apply Z.div_lt_upper_bound; lia]. }
  rewrite Z.div_add, Z.mod_add, (Z.div_small (x / 2 ^ n)), (Z.mod_small (x / 2 ^ n)) by lia.
  replace (64 - (64 - n)) with n by lia. pose proof (Z.div_mod x (2 ^ n)). lia.
Qed.

Definition G_inv (a b c d : Z) : Z * Z * Z * Z :=
  let b := rotl64 b 63 ^^ c in
  let c := u64 (c - d) in
  let d := rotl64 d 16 ^^ a in
  let a := u64 (a - b) in
  let b := rotl64 b 24 ^^ c in
  let c := u64 (c - d) in
  let d := rotl64 d 32 ^^ a in
  let a := u64 (a - b) in
  (a, b, c, d).

Lemma rotr64_fits x n : 0 < n < 64 -> fits 64 x -> fits 64 (rotr64 x n).
Proof. intros. rewrite rotr64_rotr by done. apply rotr_fits; [lia | done]. Qed.

Lemma G_inv_G a b c d :
  Forall (fits 64) [a; b; c; d] ->
  (let '(a, b, c, d) := G_lyra a b c d in G_inv a b c d) = (a, b, c, d).
Proof.
  intros. forall_split. cbv zeta beta iota delta [G_lyra]. unfold G_inv.
  repeat match goal with
  | |- context [rotl64 (rotr64 ?x ?n) ?n] =>
      rewrite (rotl64_rotr x n) by (lia || eauto 12 using rotr64_fits with fits)
  | |- context [(?x ^^ ?y) ^^ ?y] => rewrite (lxor_cancel_r x y)
  | |- context [u64 (u64 (?x + ?y) - ?y)] =>
      rewrite (wrap_sub_add 64 x y) by (eauto 12 using rotr64_fits with fits)
  end. done.
Qed.

Lemma G_inv_eq a b c d a' b' c' d' :
  Forall (fits 64) [a; b; c; d] -> G_lyra a b c d = (a', b', c', d') ->
  G_inv a' b' c' d' = (a, b, c, d) /\ Forall (fits 64) [a'; b'; c'; d'].
Proof.
  intros Hf E. split.
  - pose proof (G_inv_G a b c d Hf) as H. by rewrite E in H.
  - rewrite G_lyra_mix in E by done. by apply b2_mix_fits in E.
Qed.

(** The round run backwards. *)
Definition ROUND_inv (v : list Z) : list Z :=
  match v with
  | [v0; v1; v2; v3; v4; v5; v6; v7; v8; v9; v10; v11; v12; v13; v14; v15] =>
      let '(v3, v4, v9, v14) := G_inv v3 v4 v9 v14 in
      let '(v2, v7, v8, v13) := G_inv v2 v7 v8 v13 in
      let '(v1, v6, v11, v12) := G_inv v1 v6 v11 v12 in
      let '(v0, v5, v10, v15) := G_inv v0 v5 v10 v15 in
      let '(v3, v7, v11, v15) := G_inv v3 v7 v11 v15 in
      let '(v2, v6, v10, v14) := G_inv v2 v6 v10 v14 in
      let '(v1, v5, v9, v13) := G_inv v1 v5 v9 v13 in
      let '(v0, v4, v8, v12) := G_inv v0 v4 v8 v12 in
      [v0; v1; v2; v3; v4; v5; v6; v7; v8; v9; v10; v11; v12; v13; v14; v15]
  | _ => v
  end.

Lemma ROUND_inv_ROUND v : wf_state v -> ROUND_inv (ROUND_LYRA v) = v.
Proof.
  intros [Hl Hf].
  do 16 (destruct v as [|? v]; [discriminate |]). destruct v; [| discriminate].
  forall_split. cbv beta iota zeta delta [ROUND_LYRA].
  do 8 (match goal with |- context [match G_lyra ?a ?b ?c ?d with _ => _ end] =>
      let E := fresh "E" in
      destruct (G_lyra a b c d) as [[[? ?] ?] ?] eqn:E;
      apply G_inv_eq in E as [? ?]; [| forall_build done]; forall_split end).
  cbv beta iota zeta delta [ROUND_inv].
  do 8 match goal with H : G_inv ?a ?b ?c ?d = _ |- context [G_inv ?a ?b ?c ?d] =>
    rewrite H end. done.
Qed.

(** ** Blocks *)

Lemma xor_state_inject st b :
  (length b <= length st)%nat -> xor_state st b = inject st b.
Proof.
  intros Hl. unfold xor_state, inject. f_equal.
  revert st Hl. induction b as [|x b IH]; intros [|y st] Hl; simpl in *; try done; try lia.
  f_equal. apply IH. lia.
Qed.

Lemma rotW_rot_word b : length b = 12%nat -> rotW b = rot_word b.
Proof.
  intros Hl. do 12 (destruct b as [|? b]; [discriminate |]). destruct b; [| discriminate]. done.
Qed.

Lemma zip_wf (f : Z -> Z -> Z) a b :
  (forall x y, fits 64 x -> fits 64 y -> fits 64 (f x y)) ->
  Forall (fits 64) a -> Forall (fits 64) b -> Forall (fits 64) (zip_with f a b).
Proof.
  intros Hf Ha. revert b. induction Ha; intros b Hb; [constructor |].
  destruct Hb; [constructor |]. apply Forall_cons_2; auto.
Qed.

Lemma inject_wf st b :
  wf_state st -> (length b <= 16)%nat -> Forall (fits 64) b -> wf_state (inject st b).
Proof.
  intros [Hl Hf] Hb Hbf. split.
  - unfold inject. rewrite length_app, length_zip_with, length_drop, Hl. lia.
  - apply Forall_app_2; [| by apply Forall_drop]. apply zip_wf; [| done..].
    intros; solve_fits.
Qed.

Lemma block_xor_wf a b : wf_block a -> wf_block b -> wf_block (block_xor a b).
Proof.
  intros [Ha Haf] [Hb Hbf]. split; [unfold block_xor; rewrite length_zip_with; lia |].
  apply zip_wf; [| done..]. intros; solve_fits.
Qed.

Lemma block_add_wf a b : wf_block a -> wf_block b -> wf_block (block_add a b).
Proof.
  intros [Ha Haf] [Hb Hbf]. split; [unfold block_add; rewrite length_zip_with; lia |].
  apply zip_wf; [| done..]. intros; solve_fits.
Qed.

Lemma bitrate_wf st : wf_state st -> wf_block (bitrate st).
Proof.
  intros [Hl Hf]. split; [unfold bitrate; rewrite length_take; lia | by apply Forall_take].
Qed.

Lemma rot_word_wf b : wf_block b -> wf_block (rot_word b).
Proof.
  intros [Hl Hf]. rewrite <- rotW_rot_word by done. unfold rotW. split.
  - rewrite length_app, length_drop, length_take. lia.
  - apply Forall_app_2; [by apply Forall_drop | by apply Forall_take].
Qed.

Create HintDb lyra discriminated.
#[export] Hint Resolve b2_round_wf b2_rounds_wf block_xor_wf block_add_wf bitrate_wf
  rot_word_wf : lyra.

(** The same operations under their names in the code and in the specification. *)
Lemma rate_eq : rate = bitrate.
Proof. done. Qed.

Lemma xor_block_eq : xor_block = block_xor.
Proof. done. Qed.

Lemma add_block_eq : add_block = block_add.
Proof. done. Qed.

(** One step of the duplex, as the code and as the specification write it. *)
Lemma duplex_step st b :
  wf_state st -> wf_block b ->
  reducedBlake2bLyra (xor_state st b) = b2_round (inject st b)
  /\ wf_state (b2_round (inject st b)).
Proof.
  intros Hs [Hl Hf]. pose proof (proj1 Hs).
  assert (wf_state (inject st b)) by (apply inject_wf; [done | lia | done]).
  rewrite xor_state_inject by lia. split; [by apply ROUND_LYRA_spec | by apply b2_round_wf].
Qed.

(** ** The flat matrix *)

Section Flat.
Context (M : list (list Z)) (HM : Forall (fun b => length b = 12%nat) M).

Lemma concat_split k :
  (k < length M)%nat ->
  exists pre post, concat M = pre ++ nth k M [] ++ post /\ length pre = (12 * k)%nat
    /\ length (nth k M []) = 12%nat
    /\ forall b, concat (<[k := b]> M) = pre ++ b ++ post.
Proof.
  intros Hk. exists (concat (take k M)), (concat (drop (S k) M)).
  destruct (lookup_lt_is_Some_2 M k Hk) as [x Hx].
  rewrite (nth_lookup_Some M k [] x Hx).
  pose proof (take_drop_middle M k x Hx) as E.
  split; [by rewrite <- E at 1; rewrite concat_app |]. split; [| split].
  - rewrite (length_concat_blocks 12) by (by apply Forall_take). rewrite length_take. lia.
  - by eapply (proj1 (Forall_lookup _ _) HM).
  - intros b. rewrite insert_take_drop by done. by rewrite concat_app.
Qed.

Lemma read_cell k p :
  (k < length M)%nat -> p = 12 * Z.of_nat k ->
  buf_read p 12 (concat M) = Some (nth k M []).
Proof.
  intros Hk ->. destruct (concat_split k Hk) as (pre & post & E & Hp & Hb & _).
  unfold buf_read. rewrite E, !length_app, Hp, Hb.
  replace (_ && _) with true by (symmetry; rewrite !andb_true_iff, !Z.leb_le; lia).
  rewrite drop_app_length' by lia. rewrite take_app_length' by (rewrite Hb; lia). done.
Qed.

Lemma write_cell k p b :
  (k < length M)%nat -> p = 12 * Z.of_nat k -> length b = 12%nat ->
  buf_write p b (concat M) = Some (concat (<[k := b]> M)).
Proof.
  intros Hk -> Hl. destruct (concat_split k Hk) as (pre & post & E & Hp & Hb & Hins).
  rewrite Hins. apply buf_write_Some with (nth k M []); [done | lia | lia].
Qed.
End Flat.

(** ** The row routines *)

Section Rows.
Context (R C : nat).

Definition wf_mat (M : list (list Z)) : Prop :=
  length M = (R * C)%nat /\ Forall wf_block M.

(** The code's state and flat matrix represent a state and a matrix of blocks. *)
Definition rep (s : list Z * list Z) (t : list Z * list (list Z)) : Prop :=
  s.1 = t.1 /\ wf_state t.1 /\ s.2 = concat t.2 /\ wf_mat t.2.

Lemma rep_intro st M : wf_state st -> wf_mat M -> rep (st, concat M) (st, M).
Proof. by split. Qed.

Lemma wf_mat_lengths M : wf_mat M -> Forall (fun b => length b = 12%nat) M.
Proof. intros [_ H]. revert H. apply Forall_impl. by intros b []. Qed.

Lemma cell_lt r c : (r < R)%nat -> (c < C)%nat -> (cell C r c < R * C)%nat.
Proof. unfold cell. nia. Qed.

Lemma at_wf M r c : wf_mat M -> (r < R)%nat -> (c < C)%nat -> wf_block (at_ C M r c).
Proof.
  intros [Hl HM] Hr Hc. pose proof (cell_lt r c Hr Hc).
  destruct (lookup_lt_is_Some_2 M (cell C r c)) as [b Hb]; [lia |].
  unfold at_. rewrite (nth_lookup_Some M _ [] b Hb). by eapply (proj1 (Forall_lookup _ _) HM).
Qed.

Lemma put_wf M r c b : wf_mat M -> wf_block b -> wf_mat (put C M r c b).
Proof.
  intros [Hl HM] Hb. split; [unfold put; by rewrite length_insert |].
  by apply Forall_insert.
Qed.

Lemma read_at M r c p :
  wf_mat M -> (r < R)%nat -> (c < C)%nat -> p = 12 * Z.of_nat (cell C r c) ->
  buf_read p BLOCK_LEN_INT64 (concat M) = Some (at_ C M r c).
Proof.
  intros HM Hr Hc ->. pose proof (cell_lt r c Hr Hc).
  apply read_cell; [by apply wf_mat_lengths | destruct HM; lia | done].
Qed.

Lemma write_at M r c p b :
  wf_mat M -> (r < R)%nat -> (c < C)%nat -> p = 12 * Z.of_nat (cell C r c) -> wf_block b ->
  buf_write p b (concat M) = Some (concat (put C M r c b)).
Proof.
  intros HM Hr Hc -> [Hb _]. pose proof (cell_lt r c Hr Hc).
  apply write_cell; [by apply wf_mat_lengths | destruct HM; lia | done | done].
Qed.

(** A row pointer. *)
Definition row_ptr (r : nat) : Z := 12 * Z.of_nat (cell C r 0).

Ltac cell_eq := unfold row_ptr, cell, BLOCK_LEN_INT64 in *; lia.

(** Simulate the column loop of the goal by the loop [g], under the relation [Rel]. *)
Ltac column_loop Rel g t :=
  match goal with |- context [for_opt ?n ?body ?s0] =>
    let s' := fresh "s'" in let E := fresh "E" in let H := fresh "H" in
    destruct (for_opt_rel Rel n body g s0 t) as (s' & E & H); [| | rewrite E] end.

Lemma for_cols_ok {S} (body : nat -> S -> option S) s : Z.of_nat C < 2 ^ 31 -> for_cols (Z.of_nat C) body s = for_opt C body s.
Proof. intros H. unfold for_cols. by rewrite (proj2 (Z.ltb_lt _ _) H), Nat2Z.id. Qed.

Lemma reducedSqueezeRow0_refines st mem t :
  Z.of_nat C < 2 ^ 31 -> rep (st, mem) t -> (0 < R)%nat ->
  exists s', reducedSqueezeRow0 st mem (row_ptr 0) (Z.of_nat C) = Some s'
    /\ rep s' (squeeze_row C t).
Proof.
  intros HC31 Hrep HR. unfold reducedSqueezeRow0, squeeze_row. rewrite for_cols_ok by done.
  column_loop (fun (i : nat) '(st, mem, p) t =>
      rep (st, mem) t /\ p = row_ptr 0 + (Z.of_nat C - 1 - Z.of_nat i) * 12)
    (fun i '(st, M) => (b2_round st, put C M 0 (C - 1 - i) (bitrate st))) t.
  - split; [done | cell_eq].
  - intros i [[sta mema] p] [stb M] Hi [(Hs & Hw & Hm & HM) ->]. cbn in Hs, Hw, Hm, HM. subst.
    rewrite (write_at M 0 (C - 1 - i) (row_ptr 0 + _)) by (eauto with lyra; lia || cell_eq). obind.
    eexists; split; [reflexivity |]. cbv beta iota. split; [| cell_eq].
    destruct (ROUND_LYRA_spec stb Hw) as [E ?]. unfold reducedBlake2bLyra. rewrite E.
    apply rep_intro; [by apply b2_round_wf |]. apply put_wf; eauto with lyra.
  - destruct s' as [[st' mem'] p']. obind. exists (st', mem'). by destruct H.
Qed.

Lemma reducedDuplexRow1_refines st mem t :
  Z.of_nat C < 2 ^ 31 -> rep (st, mem) t -> (1 < R)%nat ->
  exists s', reducedDuplexRow1 st mem (row_ptr 0) (row_ptr 1) (Z.of_nat C) = Some s'
    /\ rep s' (duplex_row1 C t).
Proof.
  intros HC31 Hrep HR. unfold reducedDuplexRow1, duplex_row1. rewrite for_cols_ok by done.
  column_loop (fun (i : nat) '(st, mem, p, q) t =>
      rep (st, mem) t /\ p = row_ptr 0 + Z.of_nat i * 12
      /\ q = row_ptr 1 + (Z.of_nat C - 1 - Z.of_nat i) * 12)
    (fun i '(st, M) =>
      let st := b2_round (inject st (at_ C M 0 i)) in
      (st, put C M 1 (C - 1 - i) (block_xor (at_ C M 0 i) (bitrate st)))) t.
  - split; [done | cell_eq].
  - intros i [[[sta mema] p] q] [stb M] Hi [(Hs & Hw & Hm & HM) [-> ->]].
    cbn in Hs, Hw, Hm, HM. subst.
    rewrite (read_at M 0 i (row_ptr 0 + _)) by (done || lia || cell_eq). obind.
    assert (Hb : wf_block (at_ C M 0 i)) by (apply at_wf; done || lia).
    destruct (duplex_step stb (at_ C M 0 i) Hw Hb) as [-> Hw']. cbv zeta.
    rewrite rate_eq, xor_block_eq.
    rewrite (write_at M 1 (C - 1 - i) (row_ptr 1 + _)) by (eauto with lyra; lia || cell_eq). obind.
    eexists; split; [reflexivity |]. cbv beta iota zeta. split; [| cell_eq].
    apply rep_intro; [exact Hw' |]. apply put_wf; eauto with lyra.
  - destruct s' as [[[st' mem'] p'] q']. obind. exists (st', mem'). by destruct H.
Qed.

Lemma reducedDuplexRowSetup_refines st mem t pr ra r :
  Z.of_nat C < 2 ^ 31 -> rep (st, mem) t -> (pr < R)%nat -> (ra < R)%nat -> (r < R)%nat ->
  exists s', reducedDuplexRowSetup st mem (row_ptr pr) (row_ptr ra) (row_ptr r) (Z.of_nat C) = Some s'
    /\ rep s' (setup_row C pr ra r t).
Proof.
  intros HC31 Hrep Hpr Hra Hr. unfold reducedDuplexRowSetup, setup_row. rewrite for_cols_ok by done.
  column_loop (fun (i : nat) '(st, mem, p, q, o) t =>
      rep (st, mem) t /\ p = row_ptr pr + Z.of_nat i * 12 /\ q = row_ptr ra + Z.of_nat i * 12
      /\ o = row_ptr r + (Z.of_nat C - 1 - Z.of_nat i) * 12)
    (fun i '(st, M) =>
      let st := b2_round (inject st (block_add (at_ C M pr i) (at_ C M ra i))) in
      let M := put C M r (C - 1 - i) (block_xor (at_ C M pr i) (bitrate st)) in
      (st, put C M ra i (block_xor (at_ C M ra i) (rot_word (bitrate st))))) t.
  - split; [done | cell_eq].
  - intros i [[[[sta mema] p] q] o] [stb M] Hi [(Hs & Hw & Hm & HM) (-> & -> & ->)].
    cbn in Hs, Hw, Hm, HM. subst.
    rewrite (read_at M pr i (row_ptr pr + _)), (read_at M ra i (row_ptr ra + _)) by (done || lia || cell_eq). obind.
    assert (Hb1 : wf_block (at_ C M pr i)) by (by apply at_wf).
    assert (Hb2 : wf_block (at_ C M ra i)) by (by apply at_wf).
    destruct (duplex_step stb (block_add (at_ C M pr i) (at_ C M ra i)) Hw) as [E Hw']; [by apply block_add_wf |].
    rewrite add_block_eq, E, rate_eq, xor_block_eq. cbv zeta. set (st' := b2_round _) in *.
    assert (Hx : wf_block (block_xor (at_ C M pr i) (bitrate st'))) by eauto with lyra.
    rewrite (write_at M r (C - 1 - i) (row_ptr r + _)) by (done || lia || cell_eq). obind.
    set (M' := put C M r (C - 1 - i) _). assert (HM' : wf_mat M') by (by apply put_wf).
    rewrite (read_at M' ra i (row_ptr ra + _)) by (done || lia || cell_eq). obind.
    assert (Hb3 : wf_block (at_ C M' ra i)) by (by apply at_wf).
    rewrite rotW_rot_word by (by apply bitrate_wf).
    rewrite (write_at M' ra i (row_ptr ra + _)) by (eauto with lyra; lia || cell_eq). obind.
    eexists; split; [reflexivity |]. cbv beta iota zeta. split; [| cell_eq].
    apply rep_intro; [exact Hw' |]. apply put_wf; eauto with lyra.
  - destruct s' as [[[[st' mem'] p'] q'] o']. obind. exists (st', mem'). by destruct H.
Qed.

Lemma reducedDuplexRow_refines st mem t pr ra r :
  Z.of_nat C < 2 ^ 31 -> rep (st, mem) t -> (pr < R)%nat -> (ra < R)%nat -> (r < R)%nat ->
  exists s', reducedDuplexRow st mem (row_ptr pr) (row_ptr ra) (row_ptr r) (Z.of_nat C) = Some s'
    /\ rep s' (wander_row C pr ra r t).
Proof.
  intros HC31 Hrep Hpr Hra Hr. unfold reducedDuplexRow, wander_row. rewrite for_cols_ok by done.
  column_loop (fun (i : nat) '(st, mem, p, q, o) t =>
      rep (st, mem) t /\ p = row_ptr pr + Z.of_nat i * 12 /\ q = row_ptr ra + Z.of_nat i * 12
      /\ o = row_ptr r + Z.of_nat i * 12)
    (fun i '(st, M) =>
      let st := b2_round (inject st (block_add (at_ C M pr i) (at_ C M ra i))) in
      let M := put C M r i (block_xor (at_ C M r i) (bitrate st)) in
      (st, put C M ra i (block_xor (at_ C M ra i) (rot_word (bitrate st))))) t.
  - split; [done | cell_eq].
  - intros i [[[[sta mema] p] q] o] [stb M] Hi [(Hs & Hw & Hm & HM) (-> & -> & ->)].
    cbn in Hs, Hw, Hm, HM. subst.
    rewrite (read_at M pr i (row_ptr pr + _)), (read_at M ra i (row_ptr ra + _)) by (done || lia || cell_eq). obind.
    assert (Hb1 : wf_block (at_ C M pr i)) by (by apply at_wf).
    assert (Hb2 : wf_block (at_ C M ra i)) by (by apply at_wf).
    assert (Hb4 : wf_block (at_ C M r i)) by (by apply at_wf).
    destruct (duplex_step stb (block_add (at_ C M pr i) (at_ C M ra i)) Hw) as [E Hw']; [by apply block_add_wf |].
    rewrite add_block_eq, E, rate_eq, xor_block_eq. cbv zeta. set (st' := b2_round _) in *.
    rewrite (read_at M r i (row_ptr r + _)) by (done || lia || cell_eq). obind.
    assert (Hx : wf_block (block_xor (at_ C M r i) (bitrate st'))) by eauto with lyra.
    rewrite (write_at M r i (row_ptr r + _)) by (done || lia || cell_eq). obind.
    set (M' := put C M r i _). assert (HM' : wf_mat M') by (by apply put_wf).
    rewrite (read_at M' ra i (row_ptr ra + _)) by (done || lia || cell_eq). obind.
    assert (Hb3 : wf_block (at_ C M' ra i)) by (by apply at_wf).
    rewrite rotW_rot_word by (by apply bitrate_wf).
    rewrite (write_at M' ra i (row_ptr ra + _)) by (eauto with lyra; lia || cell_eq). obind.
    eexists; split; [reflexivity |]. cbv beta iota zeta. split; [| cell_eq].
    apply rep_intro; [exact Hw' |]. apply put_wf; eauto with lyra.
  - destruct s' as [[[[st' mem'] p'] q'] o']. obind. exists (st', mem'). by destruct H.
Qed.
End Rows.
