(* ===== verification/Lyra2Input.v ===== *)
(** * Lyra2.c: the input phase and the order of the rows

    Laying the password, the salt and the parameters out in the matrix, reading it
    back as words, and absorbing it. *)

From S2P Require Import Prelude BlakeSpec BlakeCore Sponge Lyra2 Lyra2Spec SpongeProofs.
#[local] Open Scope Z_scope.

(** ** Octets and words *)

Lemma le_bytes_le64 x : le_bytes x = le64 x.
Proof.
  unfold le_bytes. rewrite !Z.shiftr_div_pow2 by lia. unfold le64. cbn [seq fmap list_fmap].
  rewrite <- (Z.div_1_r x) at 1. done.
Qed.

Lemma le64_fits x : Forall (fits 8) (le64 x).
Proof. rewrite <- le_bytes_le64. unfold le_bytes. forall_build ltac:(apply wrap_fits; lia). Qed.

Lemma le_word_val bs : Forall (fits 8) bs -> le_word bs = le_val bs.
Proof.
  intros Hf. induction Hf as [|b bs Hb Hf IH]; [done |]. unfold le_word in *. cbn [foldr le_val].
  rewrite IH, lor_shift_add by (done || lia). fold (le_val bs). lia.
Qed.

Lemma le_val_fits bs : Forall (fits 8) bs -> fits (8 * Z.of_nat (length bs)) (le_val bs).
Proof.
  intros Hf. induction Hf as [|b bs Hb Hf IH]; [split; cbn; lia |].
  destruct Hb, IH. change (le_val (b :: bs)) with (b + 2 ^ 8 * le_val bs).
  cbn [length]. replace (8 * Z.of_nat (S (length bs))) with (8 + 8 * Z.of_nat (length bs)) by lia.
  unfold fits. rewrite Z.pow_add_r by lia. lia.
Qed.

(** Surplus fuel does not matter once the list is used up. *)
Lemma chunks_fuel {A} n k (l : list A) fuel :
  length l = (n * k)%nat -> (0 < k)%nat -> (n <= fuel)%nat -> chunks fuel k l = chunks n k l.
Proof.
  intros Hl Hk. revert l fuel Hl. induction n as [|n IH]; intros l fuel Hl Hf.
  { destruct l; [| done]. by destruct fuel. }
  destruct fuel as [|fuel]; [lia |]. destruct l as [|x l]; [done |].
  cbn [chunks]. f_equal. apply IH; [rewrite length_drop; lia | lia].
Qed.

Lemma concat_chunks {A} n k (l : list A) :
  (0 < k)%nat -> length l = (n * k)%nat -> concat (chunks n k l) = l.
Proof.
  intros Hk. revert l. induction n as [|n IH]; intros l Hl; [by destruct l |].
  destruct l as [|x l]; [simpl in Hl; lia |]. cbn [chunks concat].
  rewrite IH by (rewrite length_drop; lia). apply take_drop.
Qed.

Lemma chunks_Forall {A} (P : A -> Prop) n k (l : list A) :
  (0 < k)%nat -> length l = (n * k)%nat -> Forall P l ->
  Forall (fun b => length b = k /\ Forall P b) (chunks n k l) /\ length (chunks n k l) = n.
Proof.
  intros Hk. revert l. induction n as [|n IH]; intros l Hl HP; [destruct l; [by split | done] |].
  destruct l as [|x l]; [simpl in Hl; lia |]. cbn [chunks length].
  destruct (IH (drop k (x :: l))) as [H1 H2]; [rewrite length_drop; lia | by apply Forall_drop |].
  split; [| by rewrite H2]. apply Forall_cons_2; [| done].
  split; [rewrite length_take; lia | by apply Forall_take].
Qed.

Lemma bytes_words_words n bs :
  length bs = (n * 8)%nat -> Forall (fits 8) bs -> bytes_words n bs = words bs.
Proof.
  intros Hl Hf. unfold words. rewrite (chunks_fuel n) by lia.
  revert bs Hl Hf. induction n as [|n IH]; intros bs Hl Hf; [by destruct bs |].
  destruct bs as [|b bs]; [simpl in Hl; lia |]. cbn [bytes_words chunks].
  cbn [fmap list_fmap]. rewrite le_word_val by (by apply Forall_take).
  f_equal. apply IH; [rewrite length_drop; lia | by apply Forall_drop].
Qed.

Lemma words_wf n bs :
  length bs = (n * 8)%nat -> Forall (fits 8) bs ->
  length (words bs) = n /\ Forall (fits 64) (words bs).
Proof.
  intros Hl Hf. unfold words. rewrite (chunks_fuel n) by lia.
  destruct (chunks_Forall (fits 8) n 8 bs) as [H1 H2]; [lia | done | done |].
  rewrite length_fmap, H2. split; [done |]. apply Forall_fmap.
  revert H1. apply Forall_impl. intros b [Hb Hbf]. simpl.
  pose proof (le_val_fits b Hbf) as H. by rewrite Hb in H.
Qed.

Lemma words_app n m bs cs :
  length bs = (n * 8)%nat -> length cs = (m * 8)%nat -> words (bs ++ cs) = words bs ++ words cs.
Proof.
  intros Hb Hc. unfold words.
  rewrite (chunks_fuel (n + m) 8 (bs ++ cs)) by (rewrite ?length_app; lia).
  rewrite (chunks_fuel n 8 bs), (chunks_fuel m 8 cs) by lia.
  revert bs Hb. induction n as [|n IH]; intros bs Hb; [by destruct bs |].
  destruct bs as [|b bs]; [simpl in Hb; lia |].
  change ((b :: bs) ++ cs) with (b :: (bs ++ cs)).
  cbn [Nat.add chunks]. cbn [fmap list_fmap app]. f_equal.
  - change (b :: bs ++ cs) with ((b :: bs) ++ cs). rewrite take_app_le by lia. done.
  - change (b :: bs ++ cs) with ((b :: bs) ++ cs). rewrite drop_app_le by lia.
    apply IH. rewrite length_drop. lia.
Qed.

(** ** Laying the input out *)

(** Writing behind what has been written so far, in a block that is zero there. *)
Lemma write_zeros (d src : list Z) n off :
  off = Z.of_nat (length d) -> (length src <= n)%nat ->
  buf_write off src (d ++ replicate n 0) = Some ((d ++ src) ++ replicate (n - length src) 0).
Proof.
  intros -> Hn. rewrite <- app_assoc.
  apply buf_write_Some with (replicate (length src) 0); [| done | by rewrite length_replicate].
  f_equal. rewrite <- replicate_add. f_equal. lia.
Qed.

Lemma read_prefix l (n : Z) : n = Z.of_nat (length l) -> buf_read 0 n l = Some l.
Proof.
  intros ->. unfold buf_read.
  replace (_ && _) with true by (symmetry; rewrite !andb_true_iff, !Z.leb_le; lia).
  rewrite Nat2Z.id. simpl. by rewrite take_ge.
Qed.

Section Place.
Context (kLen timeCost nRows nCols : Z) (pwd salt : list Z).
Context (Hpwd : Forall (fits 8) pwd) (Hsalt : Forall (fits 8) salt).
Definition body : list Z :=
  pwd ++ salt ++ le64 kLen ++ le64 (Z.of_nat (length pwd)) ++ le64 (Z.of_nat (length salt))
    ++ le64 timeCost ++ le64 nRows ++ le64 nCols.
Abbreviation input := (lyra2_input kLen pwd salt timeCost nRows nCols).
Definition n_blocks : nat := ((length pwd + length salt + 48) / 64 + 1)%nat.

Lemma length_body : length body = (length pwd + length salt + 48)%nat.
Proof. unfold body. rewrite !length_app. simpl. lia. Qed.

Lemma length_input : length input = (64 * n_blocks)%nat.
Proof.
  unfold lyra2_input. fold body. unfold pad10star1, n_blocks. rewrite <- length_body.
  pose proof (Nat.div_mod_eq (length body) 64). pose proof (Nat.mod_upper_bound (length body) 64).
  destruct (63 - length body mod 64)%nat eqn:E;
    rewrite !length_app; cbn [length]; rewrite ?length_replicate; lia.
Qed.

Lemma input_fits : Forall (fits 8) input.
Proof.
  assert (Hb : Forall (fits 8) body).
  { unfold body. auto 12 using Forall_app_2, le64_fits. }
  unfold lyra2_input. fold body. unfold pad10star1.
  destruct (63 - length body mod 64)%nat.
  - apply Forall_app_2; [done |]. forall_build ltac:(split; lia).
  - apply Forall_app_2; [done |]. apply Forall_cons_2; [split; lia |].
    apply Forall_app_2; [apply Forall_replicate; split; lia |]. forall_build ltac:(split; lia).
Qed.

(** The byte at the end of the last block closes the padding. *)
Lemma close_padding z n :
  z = (63 - length body mod 64)%nat ->
  let p := 64 * Z.of_nat n_blocks - 1 in
  let mem := (body ++ [0x80]) ++ replicate (z + n) 0 in
  (last ← buf_read p 1 mem; buf_write p [hd 0 last ^^ 0x01] mem)
  = Some (input ++ replicate n 0).
Proof.
  intros Hz p mem. pose proof length_input as Hl. unfold lyra2_input in Hl |- *. fold body in Hl |- *.
  unfold pad10star1 in Hl |- *. rewrite <- Hz in Hl |- *.
  assert (Hone : forall pre b post, length pre = Z.to_nat p -> 0 <= p ->
    (last ← buf_read p 1 (pre ++ b :: post);
     buf_write p [hd 0 last ^^ 0x01] (pre ++ b :: post))
    = Some (pre ++ (b ^^ 0x01) :: post)).
  { intros pre b post Hp Hp0. unfold buf_read.
    replace (_ && _) with true
      by (symmetry; rewrite !andb_true_iff, !Z.leb_le, length_app; cbn [length]; lia).
    rewrite drop_app_length' by done. obind. change (hd 0 (take (Z.to_nat 1) (b :: post))) with b.
    apply (buf_write_Some p [b ^^ 1] _ pre [b] post); [done | lia | done]. }
  unfold mem. destruct z as [|z].
  - cbn [Nat.add]. rewrite length_app in Hl. cbn [length] in Hl.
    rewrite <- !app_assoc. cbn [app]. rewrite Hone by lia. done.
  - rewrite !length_app in Hl. cbn [length] in Hl. rewrite length_replicate in Hl.
    replace (replicate (S z + n) 0) with (replicate z 0 ++ 0 :: replicate n 0).
    2: { replace (S z + n)%nat with (z + S n)%nat by lia. by rewrite replicate_add. }
    rewrite !app_assoc, Hone; [| rewrite !length_app, length_replicate; simpl; lia | lia].
    rewrite <- !app_assoc. done.
Qed.

Lemma place_input_spec N :
  (64 * n_blocks <= N)%nat -> Z.of_nat N < 2 ^ 63 ->
  place_input nRows nCols (replicate N 0) kLen pwd (Z.of_nat (length pwd)) salt
    (Z.of_nat (length salt)) timeCost
  = Some (Z.of_nat n_blocks, input ++ replicate (N - 64 * n_blocks) 0).
Proof.
  intros HN Hsz. unfold place_input. rewrite !le_bytes_le64.
  pose proof length_body as Hlb. set (L := length body) in *.
  pose proof (Nat.div_mod_eq L 64). pose proof (Nat.mod_upper_bound L 64).
  assert (Hnb : n_blocks = (L / 64 + 1)%nat) by (unfold n_blocks; by rewrite <- Hlb).
  assert (EnB : u64 (u64 (Z.of_nat (length salt) + Z.of_nat (length pwd) + 6 * 8)
                 / BLOCK_LEN_BLAKE2_SAFE_BYTES + 1) = Z.of_nat n_blocks).
  { replace (Z.of_nat (length salt) + _ + _) with (Z.of_nat L) by lia.
    rewrite (wrap_id 64 (Z.of_nat L)) by (unfold fits; lia).
    change BLOCK_LEN_BLAKE2_SAFE_BYTES with (Z.of_nat 64).
    rewrite <- Nat2Z.inj_div, wrap_id by (unfold fits; lia). lia. }
  rewrite EnB. change BLOCK_LEN_BLAKE2_SAFE_BYTES with 64.
  rewrite (wrap_id 64 (Z.of_nat n_blocks * 64)) by (unfold fits; lia).
  rewrite (buf_fill_Some 0 0 _ _ [] (replicate (n_blocks * 64) 0) (replicate (N - n_blocks * 64) 0)).
  2: { simpl. rewrite <- replicate_add. f_equal. lia. }
  2: { done. }
  2: { rewrite length_replicate. lia. }
  obind. rewrite length_replicate. cbn [app]. rewrite <- replicate_add.
  replace (n_blocks * 64 + (N - n_blocks * 64))%nat with N by lia.
  change (replicate N 0) with ([] ++ replicate N 0).
  rewrite !read_prefix by done. obind. rewrite !Z.add_0_l.
  do 9 (rewrite write_zeros by (rewrite ?length_app; simpl length; lia); obind).
  change (length (le64 _)) with 8%nat. cbn [length].
  replace (((((((([] ++ pwd) ++ salt) ++ le64 kLen) ++ le64 (Z.of_nat (length pwd)))
    ++ le64 (Z.of_nat (length salt))) ++ le64 timeCost) ++ le64 nRows) ++ le64 nCols)
    with body by (unfold body; by rewrite <- !app_assoc).
  replace (Z.of_nat n_blocks * 64 - 1) with (64 * Z.of_nat n_blocks - 1) by lia.
  pose proof (close_padding (63 - L mod 64) (N - 64 * n_blocks) eq_refl) as Hc. cbv zeta in Hc. fold L in Hc.
  replace (_ - 1)%nat with (63 - L mod 64 + (N - 64 * n_blocks))%nat by lia.
  revert Hc. destruct (buf_read _ 1 _) as [last|]; [| done]. obind. intros Hc. by rewrite Hc.
Qed.

(** ** Absorbing *)

Lemma words_input : length (words input) = (8 * n_blocks)%nat /\ Forall (fits 64) (words input).
Proof. apply words_wf; [rewrite length_input; lia | apply input_fits]. Qed.

Lemma initState_wf : wf_state initState.
Proof. split; [done |]. by apply fitsb_forall. Qed.

(** Absorbing a block of eight words. *)
Lemma absorb_step st b :
  wf_state st -> length b = 8%nat -> Forall (fits 64) b ->
  blake2bLyra (xor_state st b) = b2_rounds 12 (inject st b)
  /\ wf_state (b2_rounds 12 (inject st b)).
Proof.
  intros Hs Hl Hf. pose proof (proj1 Hs).
  assert (wf_state (inject st b)) by (apply inject_wf; [done | lia | done]).
  rewrite xor_state_inject by lia. split; [by apply blake2bLyra_spec | by apply b2_rounds_wf].
Qed.

Lemma absorb_all_loop :
  absorb_all input
  = for_loop n_blocks (fun i st => b2_rounds 12 (inject st (take 8 (drop (8 * i) (words input)))))
      sponge_iv.
Proof.
  unfold absorb_all. destruct words_input as [Hl _].
  rewrite (chunks_fuel n_blocks), chunks_seq by (rewrite ?length_input; lia).
  by rewrite foldl_fmap.
Qed.

Lemma absorb_input_spec rest :
  exists st, absorb_input BLOCK_LEN_BLAKE2_SAFE_INT64 (Z.of_nat n_blocks) initState (words input ++ rest)
    = Some st /\ st = absorb_all input /\ wf_state st.
Proof.
  destruct words_input as [Hl Hf]. unfold absorb_input. rewrite Nat2Z.id, absorb_all_loop.
  destruct (for_opt_rel (fun (i : nat) '(st, p) t => st = t /\ wf_state t /\ p = 8 * Z.of_nat i) n_blocks
    (fun _ '(st, ptrWord) =>
       st ← absorbBlockBlake2Safe st (words input ++ rest) ptrWord;
       Some (st, ptrWord + BLOCK_LEN_BLAKE2_SAFE_INT64))
    (fun i st => b2_rounds 12 (inject st (take 8 (drop (8 * i) (words input)))))
    (initState, 0) sponge_iv) as ([st p] & -> & -> & Hw & _).
  - split; [done |]. split; [apply initState_wf | done].
  - intros i [st p] t Hi (-> & Hw & ->). unfold absorbBlockBlake2Safe.
    assert (Hr : buf_read (8 * Z.of_nat i) BLOCK_LEN_BLAKE2_SAFE_INT64 (words input ++ rest)
            = Some (take 8 (drop (8 * i) (words input)))).
    { unfold buf_read, BLOCK_LEN_BLAKE2_SAFE_INT64.
      replace (_ && _) with true
        by (symmetry; rewrite !andb_true_iff, !Z.leb_le, length_app; lia).
      replace (Z.to_nat (8 * Z.of_nat i)) with (8 * i)%nat by lia.
      rewrite drop_app_le, take_app_le by (rewrite ?length_drop; simpl; lia). done. }
    rewrite Hr. obind.
    destruct (absorb_step t (take 8 (drop (8 * i) (words input)))) as [-> ?]; [done | | |].
    { rewrite length_take, length_drop. lia. }
    { by apply Forall_take, Forall_drop. }
    eexists; split; [reflexivity |]. split; [reflexivity |].
    split; [done | unfold BLOCK_LEN_BLAKE2_SAFE_INT64; lia].
  - obind. eauto.
Qed.

(** The words of the matrix, as blocks. *)
Lemma initial_matrix_spec R C :
  (64 * n_blocks <= R * C * 96)%nat ->
  let bytes := input ++ replicate (R * C * 96 - length input) 0 in
  bytes_words (R * C * 12) bytes = concat (initial_matrix R C input)
  /\ wf_mat R C (initial_matrix R C input)
  /\ exists rest, concat (initial_matrix R C input) = words input ++ rest.
Proof.
  intros HN bytes. pose proof length_input as Hl.
  assert (Hb : length bytes = (R * C * 12 * 8)%nat).
  { unfold bytes. rewrite length_app, length_replicate. lia. }
  assert (Hf : Forall (fits 8) bytes).
  { apply Forall_app_2; [apply input_fits |]. apply Forall_replicate. split; lia. }
  destruct (words_wf _ _ Hb Hf) as [Hw Hwf]. unfold initial_matrix. fold bytes.
  rewrite concat_chunks by lia. split; [by apply bytes_words_words |]. split.
  - destruct (chunks_Forall (fits 64) (R * C) 12 (words bytes)) as [H1 H2]; [lia | lia | done |].
    by split.
  - exists (words (replicate (R * C * 96 - length input) 0)). unfold bytes.
    apply (words_app (8 * n_blocks) (R * C * 12 - 8 * n_blocks)); [lia | rewrite length_replicate; lia].
Qed.
End Place.

(** * Lyra2.c: visitation orders

    The arithmetic behind the row indices: the window of the setup phase is
    revisited completely, and a wandering pass comes back to row 0. *)

#[local] Open Scope nat_scope.

(** ** Setup *)

Lemma window_bounds r : 2 <= r -> 2 ^ Nat.log2 r <= r < 2 * 2 ^ Nat.log2 r /\ 1 <= Nat.log2 r.
Proof.
  intros Hr. pose proof (Nat.log2_spec r) as H. rewrite Nat.pow_succ_r' in H.
  split; [lia |]. apply (Nat.log2_le_mono 2 r) in Hr. done.
Qed.

(** The step of the next window, from the present one. *)
Lemma window_step_S k :
  1 <= k -> window_step (2 ^ S k) = if Nat.even k then 2 ^ k - 1 else 2 ^ k + 1.
Proof.
  intros Hk. unfold window_step. rewrite Nat.log2_pow2 by lia.
  assert (E : 2 ^ S k = 4 * 2 ^ (k - 1)).
  { replace (S k) with (2 + (k - 1)) by lia. by rewrite Nat.pow_add_r. }
  assert (Hpos : 2 ^ (k - 1) <> 0) by (apply Nat.pow_nonzero; lia).
  assert (Hw : forall a b : nat, match 2 ^ S k with 2 => a | _ => b end = b).
  { intros. rewrite E. destruct (2 ^ (k - 1)) as [|m]; [done |].
    replace (4 * S m) with (S (S (S (4 * m + 1)))) by lia. done. }
  rewrite Hw, Nat.pow_succ_r', Nat.mul_comm, Nat.div_mul by lia.
  rewrite Nat.even_succ, <- Nat.negb_even. by destruct (Nat.even k).
Qed.

(** The step of a window is odd. *)
Lemma window_step_odd k : 1 <= k -> Nat.Odd (window_step (2 ^ k)).
Proof.
  intros Hk. destruct k as [|[|k]]; [lia | by exists 0 |]. rewrite window_step_S by lia.
  assert (Hpos : 2 ^ k <> 0) by (apply Nat.pow_nonzero; lia). rewrite Nat.pow_succ_r'.
  destruct (Nat.even (S k)); [exists (2 ^ k - 1); lia | exists (2 ^ k); lia].
Qed.

(** An odd factor does not help to divide a power of two. *)
Lemma odd_divide_pow2 k s t : Nat.Odd s -> Nat.divide (2 ^ k) (t * s) -> Nat.divide (2 ^ k) t.
Proof.
  intros Hs. revert t. induction k as [|k IH]; intros t Hd; [exists t; simpl; lia |].
  rewrite Nat.pow_succ_r' in Hd |- *.
  assert (He : Nat.Even (t * s)).
  { destruct Hd as [q Hq]. exists (q * 2 ^ k). rewrite Hq. lia. }
  assert (Nat.Even t) as [t' ->].
  { destruct (Nat.Even_or_Odd t) as [? | Ho]; [done |]. exfalso.
    assert (Nat.Odd (t * s)) by (destruct Ho as [a ->], Hs as [b ->]; exists (2 * a * b + a + b); lia).
    by apply (Nat.Even_Odd_False (t * s)). }
  apply Nat.mul_divide_mono_l, IH.
  apply Nat.mul_divide_cancel_l with 2; [lia |]. by rewrite Nat.mul_assoc.
Qed.

Lemma window_step_nonzero k t :
  1 <= k -> 0 < t < 2 ^ k -> (t * window_step (2 ^ k)) mod 2 ^ k <> 0.
Proof.
  intros Hk Ht H0. apply Nat.Lcm0.mod_divide in H0.
  apply odd_divide_pow2 in H0; [| by apply window_step_odd].
  apply Nat.divide_pos_le in H0; lia.
Qed.

Lemma revisit_lt r : 2 <= r -> revisit r < 2 ^ Nat.log2 r.
Proof. intros. apply Nat.mod_upper_bound, Nat.pow_nonzero. lia. Qed.

(** Adding the step gives the row revisited next; it is zero exactly when the
    window has been gone through. *)
Lemma revisit_next r :
  2 <= r ->
  let w := 2 ^ Nat.log2 r in
  (revisit r + window_step w) mod w = revisit (r + 1)
  /\ (revisit (r + 1) = 0 <-> r + 1 = 2 * w)
  /\ Nat.log2 (r + 1) = if decide (r + 1 = 2 * w) then S (Nat.log2 r) else Nat.log2 r.
Proof.
  intros Hr w. pose proof (window_bounds r Hr) as [Hw Hk]. fold w in Hw.
  assert (Hpos : w <> 0) by (apply Nat.pow_nonzero; lia).
  assert (E : (revisit r + window_step w) mod w = ((r + 1 - w) * window_step w) mod w).
  { unfold revisit. fold w. rewrite Nat.Div0.add_mod_idemp_l. f_equal. nia. }
  destruct (decide (r + 1 = 2 * w)) as [Hfull | Hpart].
  - assert (El : Nat.log2 (r + 1) = S (Nat.log2 r)).
    { rewrite Hfull. unfold w. rewrite <- Nat.pow_succ_r'. apply Nat.log2_pow2. lia. }
    assert (Ez : revisit (r + 1) = 0).
    { unfold revisit. rewrite El, Nat.pow_succ_r'. fold w. rewrite Hfull, Nat.sub_diag. simpl.
      apply Nat.Div0.mod_0_l. }
    rewrite E, Ez. split; [| by split].
    rewrite Hfull. replace (2 * w - w) with w by lia. by rewrite Nat.mul_comm, Nat.Div0.mod_mul.
  - assert (El : Nat.log2 (r + 1) = Nat.log2 r).
    { apply Nat.log2_unique; [lia |]. rewrite Nat.pow_succ_r'. fold w. lia. }
    assert (Ev : revisit (r + 1) = ((r + 1 - w) * window_step w) mod w).
    { unfold revisit. by rewrite El. }
    rewrite E, Ev. split; [done |]. split; [| done]. split; [| lia]. intros H0. exfalso.
    apply (window_step_nonzero (Nat.log2 r) (r + 1 - w)); [done | unfold w in *; lia | done].
Qed.

(** Within its window, the rows revisited are pairwise different: every row of
    the window is revisited exactly once. *)
Lemma revisit_injective k t t' :
  1 <= k -> t < 2 ^ k -> t' < 2 ^ k ->
  revisit (2 ^ k + t) = revisit (2 ^ k + t') -> t = t'.
Proof.
  intros Hk Ht Ht'.
  assert (El : forall u, u < 2 ^ k -> Nat.log2 (2 ^ k + u) = k).
  { intros u Hu. apply Nat.log2_unique; [lia |]. rewrite Nat.pow_succ_r'. lia. }
  assert (Er : forall u, u < 2 ^ k -> revisit (2 ^ k + u) = (u * window_step (2 ^ k)) mod 2 ^ k).
  { intros u Hu. unfold revisit. rewrite El by done. do 2 f_equal. lia. }
  rewrite !Er by done.
  assert (Hwlog : forall a b, a < b -> b < 2 ^ k ->
    (a * window_step (2 ^ k)) mod 2 ^ k <> (b * window_step (2 ^ k)) mod 2 ^ k).
  { intros a b Hab Hb E. apply (window_step_nonzero k (b - a)); [done | lia |].
    rewrite Nat.mul_sub_distr_r. apply Nat.Lcm0.mod_divide.
    set (x := a * _) in *. set (y := b * _) in *.
    assert (x <= y) by (unfold x, y; nia).
    pose proof (Nat.div_mod_eq x (2 ^ k)). pose proof (Nat.div_mod_eq y (2 ^ k)).
    exists (y / 2 ^ k - x / 2 ^ k). rewrite Nat.mul_sub_distr_r. lia. }
  intros E. destruct (lt_eq_lt_dec t t') as [[? | ?] | ?]; [| done |];
    exfalso; eapply Hwlog; eauto.
Qed.

(** ** Wandering *)

(** [walk nxt r vs]: from row [r], the rows [vs] follow, none of them 0, and the
    row after the last one is 0. *)
Fixpoint walk (nxt : nat -> nat) (r : nat) (vs : list nat) : Prop :=
  match vs with
  | [] => nxt r = 0
  | r' :: vs => nxt r = r' /\ r' <> 0 /\ walk nxt r' vs
  end.

(** Odd passes: multiples of a step. *)
Section Multiples.
Context (R s : nat) (HR : 0 < R).
Abbreviation g := (Nat.gcd s R).
Abbreviation mult := (fun k => (k * s) mod R).

Lemma gcd_pos : g <> 0.
Proof. intros E. apply Nat.gcd_eq_0 in E. lia. Qed.

Lemma period_mul : R / g * g = R.
Proof.
  pose proof gcd_pos. destruct (Nat.gcd_divide_r s R) as [q Hq].
  rewrite Hq at 1. rewrite Nat.div_mul by done. lia.
Qed.

Lemma multiple_zero k : mult k = 0 <-> Nat.divide (R / g) k.
Proof.
  pose proof gcd_pos as Hg. pose proof period_mul as Hp.
  rewrite Nat.Lcm0.mod_divide. split.
  - intros Hd. apply Nat.gauss with (s / g).
    + destruct Hd as [q Hq]. exists q. destruct (Nat.gcd_divide_l s R) as [a Ha].
      rewrite Ha at 1. rewrite Nat.div_mul by done.
      apply (Nat.mul_cancel_r _ _ g); [done |]. rewrite <- !Nat.mul_assoc, Hp, <- Hq.
      rewrite Ha at 2. lia.
    + rewrite Nat.gcd_comm. apply Nat.gcd_div_gcd; done.
  - intros [q ->]. destruct (Nat.gcd_divide_l s R) as [a Ha]. exists (q * a).
    set (P := R / g) in *. set (G := g) in *. clearbody P G. rewrite Ha, <- Hp. lia.
Qed.

Lemma walk_multiples nxt m k :
  (forall r, r < R -> nxt r = (r + s) mod R) -> m + k + 1 = R / g ->
  walk nxt (mult k) ((fun k => (k * s) mod R) <$> seq (S k) m).
Proof.
  intros Hn. revert k. induction m as [|m IH]; intros k Hk.
  - cbn. rewrite Hn by (apply Nat.mod_upper_bound; lia).
    rewrite Nat.Div0.add_mod_idemp_l. replace (k * s + s) with ((k + 1) * s) by lia.
    apply multiple_zero. simpl in Hk. rewrite Hk. apply Nat.divide_refl.
  - cbn [seq fmap list_fmap walk].
    rewrite Hn by (apply Nat.mod_upper_bound; lia). split; [| split].
    + rewrite Nat.Div0.add_mod_idemp_l. f_equal. lia.
    + intros H0. apply multiple_zero in H0. apply Nat.divide_pos_le in H0; lia.
    + apply IH. lia.
Qed.

Lemma period_bounds : 1 <= R / g <= R.
Proof. pose proof gcd_pos. pose proof period_mul. nia. Qed.
End Multiples.

(** Even passes: downwards. *)
Lemma walk_down nxt k :
  (forall j, j < k -> nxt (S j) = j) -> 0 < k -> walk nxt k (reverse (seq 1 (k - 1))).
Proof.
  intros Hn. induction k as [|k IH]; intros Hk; [lia |].
  replace (S k - 1) with k by lia. destruct k as [|k]; [apply Hn; lia |].
  rewrite seq_S, reverse_app. cbn [reverse rev_append app walk].
  change (1 + k) with (S k).
  split; [apply Hn; lia |]. split; [lia |].
  replace k with (S k - 1) at 2 by lia. apply IH; [| lia]. intros j Hj. apply Hn. lia.
Qed.

(** The rows of a pass, as a walk from row 0. *)
Lemma visits_walk R tau (nxt : nat -> nat) :
  0 < R ->
  (if Nat.odd tau then forall r, r < R -> nxt r = (r + (R / 2 - 1)) mod R
   else nxt 0 = Z.to_nat ((2 ^ 64 - 1) mod Z.of_nat R)%Z /\ forall j, S j < R -> nxt (S j) = j) ->
  exists vs, visits R tau = 0 :: vs /\ walk nxt 0 vs /\ length vs < R /\ Forall (fun r => r < R) vs.
Proof.
  intros HR Hn. unfold visits. destruct (Nat.odd tau).
  - set (s := R / 2 - 1) in *. pose proof (period_bounds R s HR) as Hb.
    exists ((fun k => (k * s) mod R) <$> seq 1 (R / Nat.gcd s R - 1)).
    split; [| split; [| split]].
    + destruct (R / Nat.gcd s R) as [|n] eqn:E; [lia |]. cbn [seq fmap list_fmap].
      replace (S n - 1) with n by lia. simpl. by rewrite Nat.Div0.mod_0_l.
    + pose proof (walk_multiples R s HR nxt (R / Nat.gcd s R - 1) 0 Hn) as Hwk. simpl in Hwk.
      rewrite Nat.Div0.mod_0_l in Hwk. apply Hwk. lia.
    + rewrite length_fmap, length_seq. lia.
    + apply Forall_fmap, Forall_true. intros k. apply Nat.mod_upper_bound. lia.
  - destruct Hn as [H0 Hn]. set (k := Z.to_nat _) in *.
    assert (Hk : k < R).
    { unfold k. pose proof (Z.mod_pos_bound (2 ^ 64 - 1) (Z.of_nat R)). lia. }
    exists (reverse (seq 1 k)). split; [done |]. split; [| split].
    + destruct k as [|k]; [done |]. rewrite seq_S, reverse_app. cbn [reverse rev_append app walk].
      split; [done |]. split; [lia |].
      pose proof (walk_down nxt (S k)) as Hd. replace (S k - 1) with k in Hd by lia.
      apply Hd; [| lia]. intros j Hj. apply Hn. lia.
    + rewrite length_reverse, length_seq. lia.
    + apply Forall_reverse, Forall_seq. intros j Hj. lia.
Qed.

(** ** Complete passes *)

Lemma NoDup_permutation_seq l n :
  NoDup l -> length l = n -> Forall (fun r => r < n) l -> l ≡ₚ seq 0 n.
Proof.
  intros Hn Hl Hf. apply submseteq_length_Permutation.
  - apply NoDup_submseteq; [done |]. intros x Hx. apply elem_of_seq.
    rewrite (Forall_forall _ l) in Hf. specialize (Hf x). rewrite list_elem_of_In in Hx. specialize (Hf Hx). lia.
  - by rewrite length_seq, Hl.
Qed.

(** An odd factor permutes the residues of a power of two. *)
Lemma odd_multiples_injective k s a b :
  Nat.Odd s -> a < 2 ^ k -> b < 2 ^ k -> (a * s) mod 2 ^ k = (b * s) mod 2 ^ k -> a = b.
Proof.
  intros Hs.
  assert (Hwlog : forall a b, a < b -> b < 2 ^ k -> (a * s) mod 2 ^ k <> (b * s) mod 2 ^ k).
  { clear a b. intros a b Hab Hb E.
    assert (Hd : Nat.divide (2 ^ k) ((b - a) * s)).
    { rewrite Nat.mul_sub_distr_r. set (x := a * s) in *. set (y := b * s) in *.
      assert (x <= y) by (unfold x, y; nia).
      pose proof (Nat.div_mod_eq x (2 ^ k)). pose proof (Nat.div_mod_eq y (2 ^ k)).
      exists (y / 2 ^ k - x / 2 ^ k). rewrite Nat.mul_sub_distr_r. lia. }
    apply odd_divide_pow2 in Hd; [| done]. apply Nat.divide_pos_le in Hd; lia. }
  intros Ha Hb E. destruct (lt_eq_lt_dec a b) as [[? | ?] | ?]; [| done |];
    exfalso; eapply Hwlog; eauto.
Qed.

Lemma visits_pow2 k tau : 2 <= k <= 64 -> visits (2 ^ k) tau ≡ₚ seq 0 (2 ^ k).
Proof.
  intros Hk. assert (Hpos : 2 ^ k <> 0) by (apply Nat.pow_nonzero; lia).
  unfold visits. destruct (Nat.odd tau).
  - assert (E : 2 ^ k = 2 * (2 * 2 ^ (k - 2))).
    { rewrite <- !Nat.pow_succ_r'. f_equal. lia. }
    assert (Hp2 : 2 ^ (k - 2) <> 0) by (apply Nat.pow_nonzero; lia).
    assert (Hs : Nat.Odd (2 ^ k / 2 - 1)).
    { rewrite E, (Nat.mul_comm 2 (2 * _)), Nat.div_mul by lia. exists (2 ^ (k - 2) - 1). lia. }
    set (s := 2 ^ k / 2 - 1) in *.
    assert (Hg : Nat.gcd s (2 ^ k) = 1).
    { apply Nat.divide_1_r. destruct (Nat.gcd_divide_r s (2 ^ k)) as [q Hq].
      assert (Hodd : Nat.Odd (Nat.gcd s (2 ^ k))).
      { destruct (Nat.Even_or_Odd (Nat.gcd s (2 ^ k))) as [[g' Hg'] | ?]; [| done]. exfalso.
        destruct (Nat.gcd_divide_l s (2 ^ k)) as [p Hp]. apply (Nat.Even_Odd_False s); [| done].
        exists (p * g'). lia. }
      assert (Hd : Nat.divide (2 ^ k) q).
      { apply (odd_divide_pow2 k (Nat.gcd s (2 ^ k))); [done |]. rewrite <- Hq. apply Nat.divide_refl. }
      apply Nat.divide_pos_le in Hd; [exists 1; nia |]. nia. }
    rewrite Hg, Nat.div_1_r. apply NoDup_permutation_seq.
    + apply NoDup_fmap_2_strong; [| apply NoDup_seq]. intros a b Ha Hb.
      apply elem_of_seq in Ha, Hb. apply (odd_multiples_injective k s); [done | lia | lia].
    + by rewrite length_fmap, length_seq.
    + apply Forall_fmap, Forall_true. intros a. by apply Nat.mod_upper_bound.
  - assert (Em : Z.to_nat ((2 ^ 64 - 1) mod Z.of_nat (2 ^ k)) = 2 ^ k - 1).
    { rewrite Nat2Z.inj_pow. change (Z.of_nat 2) with 2%Z.
      rewrite <- (Z.mod_unique (2 ^ 64 - 1) (2 ^ Z.of_nat k) (2 ^ (64 - Z.of_nat k) - 1) (2 ^ Z.of_nat k - 1)).
      - change 2%Z with (Z.of_nat 2) at 1. rewrite <- Nat2Z.inj_pow. lia.
      - pose proof (Z.pow_pos_nonneg 2 (Z.of_nat k)). lia.
      - replace (2 ^ 64)%Z with (2 ^ Z.of_nat k * 2 ^ (64 - Z.of_nat k))%Z; [lia |].
        rewrite <- Z.pow_add_r by lia. f_equal. lia. }
    rewrite Em, reverse_Permutation. destruct (2 ^ k) as [|n]; [done |].
    replace (S n - 1) with n by lia. done.
Qed.
