(* ===== verification/Lyra2Refine.v ===== *)
(** * Lyra2.c: refinement

    Each phase of [LYRA2] on the flat matrix performs the phase of the
    specification; put together, [LYRA2] computes the specified key. *)

From S2P Require Import Prelude BlakeSpec BlakeCore Sponge Lyra2 Lyra2Spec SpongeProofs Lyra2Input.
#[local] Open Scope Z_scope.

Lemma s64_id x : - 2 ^ 63 <= x < 2 ^ 63 -> s64 x = x.
Proof.
  intros Hx. unfold s64, wrap. destruct (Z.ltb_spec x 0).
  - assert (E : x mod 2 ^ 64 = x + 2 ^ 64) by (symmetry; apply Z.mod_unique with (-1); lia).
    rewrite E. destruct (Z.ltb_spec (x + 2 ^ 64) (2 ^ 63)); lia.
  - rewrite Z.mod_small by lia. destruct (Z.ltb_spec x (2 ^ 63)); lia.
Qed.

(** ** The indices of the setup loop *)

(** The index locals when row [r] is about to be set up. *)
Record setup_idx (r : nat) (l : locals) : Prop := {
  si_row : row l = Z.of_nat r;
  si_prev : prev l = Z.of_nat (r - 1);
  si_rowa : rowa l = Z.of_nat (revisit r);
  si_window : window l = 2 ^ Z.of_nat (Nat.log2 r);
  si_step : step l = Z.of_nat (window_step (2 ^ Nat.log2 r));
  si_gap : gap l = if Nat.even (Nat.log2 r) then -1 else 1;
}.

Lemma window_Z k : 2 ^ Z.of_nat k = Z.of_nat (2 ^ k).
Proof. by rewrite Nat2Z.inj_pow. Qed.

(** The index computed with a mask is the next row to revisit. *)
Lemma masked_step r :
  (2 <= r)%nat -> Z.of_nat r < 2 ^ 62 ->
  s64 (Z.of_nat (revisit r) + Z.of_nat (window_step (2 ^ Nat.log2 r)))
    & s64 (2 ^ Z.of_nat (Nat.log2 r) - 1) = Z.of_nat (revisit (r + 1)).
Proof.
  intros Hr Hmax. pose proof (window_bounds r) as [Hw Hk]; [lia |].
  pose proof (revisit_lt r). destruct (revisit_next r) as [E _]; [lia |]. cbv zeta in E.
  assert (Hst : (window_step (2 ^ Nat.log2 r) <= 2 ^ Nat.log2 r)%nat).
  { destruct (Nat.log2 r) as [|[|k]]; [lia | vm_compute; lia |].
    rewrite window_step_S, (Nat.pow_succ_r' 2 (S k)) by lia.
    assert (2 ^ S k <> 0)%nat by (apply Nat.pow_nonzero; lia). destruct (Nat.even (S k)); lia. }
  rewrite !s64_id by (rewrite ?window_Z; lia).
  replace (2 ^ Z.of_nat (Nat.log2 r) - 1) with (Z.ones (Z.of_nat (Nat.log2 r)))
    by (rewrite Z.ones_equiv; lia).
  rewrite Z.land_ones, window_Z, <- Nat2Z.inj_add, <- Nat2Z.inj_mod, E by lia. done.
Qed.

Lemma setup_idx_next r l st mem :
  setup_idx r l -> (2 <= r)%nat -> Z.of_nat r < 2 ^ 62 ->
  setup_idx (r + 1) (setup_advance l st mem).
Proof.
  intros [] Hr Hmax. unfold setup_advance. cbv zeta.
  rewrite si_row0, si_rowa0, si_window0, si_step0, si_gap0, masked_step by done.
  rewrite (s64_id (Z.of_nat r + 1)) by lia.
  destruct (revisit_next r) as (_ & Hz & Hlog); [lia |].
  pose proof (window_bounds r) as [Hw Hk]; [lia |].
  destruct (Z.eqb_spec (Z.of_nat (revisit (r + 1))) 0) as [E | E].
  - assert (Efull : (r + 1 = 2 * 2 ^ Nat.log2 r)%nat) by (apply Hz; lia).
    rewrite decide_True in Hlog by done.
    assert (Hp : 2 ^ Z.of_nat (Nat.log2 r) = Z.of_nat (2 ^ Nat.log2 r)) by apply window_Z.
    split; cbn; rewrite ?Hlog; try done; try lia.
    + rewrite s64_id, Nat2Z.inj_succ, Z.pow_succ_r by lia. lia.
    + rewrite window_step_S by lia. destruct (Nat.even (Nat.log2 r)); rewrite s64_id by lia; lia.
    + rewrite Nat.even_succ, <- Nat.negb_even. by destruct (Nat.even (Nat.log2 r)).
  - rewrite decide_False in Hlog by (intros Hf; apply Hz in Hf; lia).
    split; cbn; rewrite ?Hlog; try done; lia.
Qed.

Lemma setup_advance_data l st mem :
  state (setup_advance l st mem) = st /\ matrix (setup_advance l st mem) = mem.
Proof. unfold setup_advance. by destruct (_ =? 0). Qed.

Lemma setup_start_idx st mem : setup_idx 2 (setup_start st mem).
Proof. by split. Qed.

Section Phases.
Context (R C : nat) (HR : (3 <= R)%nat) (HC : (1 <= C)%nat)
  (Hsize : Z.of_nat (R * C * 96) < 2 ^ 63) (HC31 : Z.of_nat C < 2 ^ 31).

Lemma row_len : ROW_LEN_INT64 (Z.of_nat C) = 12 * Z.of_nat C.
Proof. unfold ROW_LEN_INT64, BLOCK_LEN_INT64. apply s64_id. nia. Qed.

Lemma rows_bound : Z.of_nat R < 2 ^ 62.
Proof. nia. Qed.

Lemma memMatrix_row r i :
  (r < R)%nat -> i = Z.of_nat r -> memMatrix (Z.of_nat R) (Z.of_nat C) i = Some (row_ptr C r).
Proof.
  intros Hr ->. unfold memMatrix.
  replace (_ && _) with true by (symmetry; rewrite andb_true_iff, Z.leb_le, Z.ltb_lt; lia).
  rewrite row_len. unfold row_ptr, cell. f_equal. nia.
Qed.

(** *** Setup *)

(** The locals when row [r] is about to be set up, with the state and matrix. *)
Definition setup_inv (r : nat) (l : locals) (t : list Z * list (list Z)) : Prop :=
  setup_idx r l /\ rep R C (state l, matrix l) t.

Definition setup_step (s : list Z * list (list Z)) (i : nat) : list Z * list (list Z) :=
  setup_row C (i + 1) (revisit (i + 2)) (i + 2) s.

Lemma setup_loop_refines fuel r l t :
  setup_inv r l t -> (2 <= r < R)%nat -> (R - r <= fuel)%nat ->
  exists l', setup_loop (Z.of_nat R) (Z.of_nat C) fuel l = Some l'
    /\ setup_inv R l' (foldl setup_step t (seq (r - 2) (R - r))).
Proof.
  revert r l t. induction fuel as [|fuel IH]; intros r l t Hi Hr Hf; [lia |].
  cbn [setup_loop]. pose proof (window_bounds r) as [Hw _]; [lia |]. pose proof (revisit_lt r).
  destruct Hi as [Hi Hrep0]. pose proof Hi as [Er Ep Ea _ _ _].
  rewrite (memMatrix_row (r - 1) (prev l)), (memMatrix_row (revisit r) (rowa l)),
    (memMatrix_row r (row l)) by (done || lia). obind.
  destruct (reducedDuplexRowSetup_refines R C (state l) (matrix l) t (r - 1) (revisit r) r)
    as ([st mem] & -> & Hrep); [done | done | lia.. |]. obind. cbv zeta.
  pose proof rows_bound. assert (Hn : setup_inv (r + 1) (setup_advance l st mem)
                              (setup_row C (r - 1) (revisit r) r t)).
  { split; [apply setup_idx_next; done || lia |]. by destruct (setup_advance_data l st mem) as [-> ->]. }
  set (l' := setup_advance l st mem) in *.
  replace (R - r)%nat with (S (R - (r + 1))) by lia. cbn [seq foldl].
  assert (Es : setup_step t (r - 2) = setup_row C (r - 1) (revisit r) r t).
  { unfold setup_step. do 2 f_equal; [lia | f_equal; lia | lia]. }
  rewrite Es, (si_row _ _ (proj1 Hn)), wrap_id by (unfold fits; lia).
  destruct (Z.ltb_spec (Z.of_nat (r + 1)) (Z.of_nat R)).
  - destruct (IH (r + 1)%nat l' _ Hn) as (l2 & -> & H2); [lia.. |]. exists l2. split; [done |].
    by replace (S (r - 2)) with (r + 1 - 2)%nat by lia.
  - assert (r + 1 = R)%nat as <- by lia. rewrite Nat.sub_diag. exists l'. done.
Qed.

(** *** Wandering *)

Definition wander_rep (l : locals) (s : list Z * list (list Z) * nat * nat) : Prop :=
  let '(st, M, p, ra) := s in
  rep R C (state l, matrix l) (st, M) /\ prev l = Z.of_nat p /\ (p < R)%nat
  /\ rowa l = Z.of_nat ra /\ (ra < R)%nat.

(** The next row of a pass with the given step. *)
Definition next_row (stp : Z) (r : nat) : nat :=
  Z.to_nat (u64 (Z.of_nat r + stp) mod Z.of_nat R).

Lemma next_row_lt stp r : (next_row stp r < R)%nat.
Proof.
  unfold next_row. pose proof (Z.mod_pos_bound (u64 (Z.of_nat r + stp)) (Z.of_nat R)). lia.
Qed.

Lemma wander_loop_refines fuel vs r l s :
  row l = Z.of_nat r -> (r < R)%nat -> wander_rep l s ->
  walk (next_row (step l)) r vs -> (length vs < fuel)%nat ->
  exists l', wander_loop (Z.of_nat R) (Z.of_nat C) fuel l = Some l'
    /\ row l' = 0 /\ wander_rep l' (foldl (wander_visit R C) s (r :: vs)).
Proof.
  revert vs r l s. induction fuel as [|fuel IH]; intros vs r l s Er Hr Hs Hw Hf; [lia |].
  destruct s as [[[st M] p] ra0]. destruct Hs as (Hrep & Ep & Hp & _ & _).
  cbn [wander_loop]. pose proof rows_bound.
  assert (Est : state l = st) by (by destruct Hrep). subst st.
  set (ra := Z.to_nat (hd 0 (state l) mod Z.of_nat R)).
  pose proof (Z.mod_pos_bound (hd 0 (state l)) (Z.of_nat R)).
  assert (Era : s64 (hd 0 (state l) mod Z.of_nat R) = Z.of_nat ra) by (rewrite s64_id by lia; lia).
  assert (Hra : (ra < R)%nat) by lia.
  rewrite Era, (memMatrix_row p (prev l)), (memMatrix_row ra (Z.of_nat ra)), (memMatrix_row r (row l)) by (done || lia).
  obind.
  destruct (reducedDuplexRow_refines R C (state l) (matrix l) (state l, M) p ra r)
    as ([st' mem'] & -> & Hrep'); [done | done | lia.. |]. obind. cbv zeta.
  assert (Ern : wander_next (Z.of_nat R) (row l) (step l) = Z.of_nat (next_row (step l) r)).
  { unfold wander_next. pose proof (next_row_lt (step l) r). unfold next_row in *. rewrite Er.
    pose proof (Z.mod_pos_bound (u64 (Z.of_nat r + step l)) (Z.of_nat R)).
    rewrite s64_id by lia. lia. }
  rewrite Ern. cbn [row]. set (l' := {| row := _ |}).
  assert (Hs' : wander_rep l' (wander_visit R C (state l, M, p, ra0) r)).
  { cbn [wander_visit]. fold ra. destruct (wander_row C p ra r (state l, M)) as [st2 M2].
    cbn. rewrite Er. split; [done | lia]. }
  cbn [foldl]. destruct vs as [|r' vs]; cbn [walk] in Hw.
  - rewrite Hw. exists l'. split; [done |]. split; [by unfold l'; cbn [row]; rewrite Hw | exact Hs'].
  - destruct Hw as (En & Hne & Hw). rewrite En.
    replace (negb (Z.of_nat r' =? 0)) with true
      by (symmetry; apply negb_true_iff, Z.eqb_neq; lia).
    cbn [length] in Hf.
    destruct (IH vs r' l' (wander_visit R C (state l, M, p, ra0) r)) as (l2 & -> & H2); [by unfold l'; cbn [row]; rewrite En | | exact Hs' | done | lia |].
    { rewrite <- En. apply next_row_lt. }
    eauto.
Qed.

(** The steps of the passes move as the specification says. *)
Lemma wander_step_walk tau :
  (if Nat.odd tau then forall r, (r < R)%nat ->
      next_row (wander_step (Z.of_nat R) (Z.of_nat tau)) r = (r + (R / 2 - 1)) mod R
   else next_row (wander_step (Z.of_nat R) (Z.of_nat tau)) 0 = Z.to_nat ((2 ^ 64 - 1) mod Z.of_nat R)
     /\ forall j, (S j < R)%nat -> next_row (wander_step (Z.of_nat R) (Z.of_nat tau)) (S j) = j)%nat.
Proof.
  pose proof rows_bound as Hb. unfold wander_step.
  replace (Z.of_nat tau mod 2) with (if Nat.odd tau then 1 else 0).
  2: { rewrite Zmod_odd.
       destruct (Nat.Even_or_Odd tau) as [[k ->] | [k ->]].
       - rewrite Nat.odd_even, Nat2Z.inj_mul, Z.odd_mul. done.
       - rewrite Nat.odd_odd, Nat2Z.inj_add, Nat2Z.inj_mul, Z.odd_add, Z.odd_mul. done. }
  destruct (Nat.odd tau); cbn [Z.eqb].
  - intros r Hr. change 2 with (Z.of_nat 2). rewrite <- Nat2Z.inj_div.
    assert (1 <= R / 2)%nat by (apply Nat.div_le_lower_bound; lia).
    assert (R / 2 <= R)%nat by (apply Nat.Div0.div_le_upper_bound; lia).
    rewrite (wrap_id 64), s64_id by (unfold fits; lia). unfold next_row.
    rewrite (wrap_id 64) by (unfold fits; lia).
    replace (Z.of_nat r + (Z.of_nat (R / 2) - 1)) with (Z.of_nat (r + (R / 2 - 1))) by lia.
    by rewrite <- Nat2Z.inj_mod, Nat2Z.id.
  - assert (E : s64 (u64 (-1)) = -1) by reflexivity. rewrite E. unfold next_row. split; [done |].
    intros j Hj. replace (Z.of_nat (S j) + -1) with (Z.of_nat j) by lia.
    rewrite wrap_id, Z.mod_small by (unfold fits; lia). lia.
Qed.

Lemma wander_refines T l s :
  Z.of_nat T < 2 ^ 63 - 1 -> row l = 0 -> wander_rep l s ->
  exists l', wander (Z.of_nat R) (Z.of_nat C) (Z.of_nat T) l = Some l'
    /\ wander_rep l' (wander_passes R C T s).
Proof.
  intros HT Hrow Hs. unfold wander, wander_passes. rewrite (proj2 (Z.ltb_lt _ _) HT), !Nat2Z.id.
  destruct (for_opt_rel (fun (_ : nat) l s => row l = 0 /\ wander_rep l s) T
    (fun i l => wander_loop (Z.of_nat R) (Z.of_nat C) R
                  (set_step l (wander_step (Z.of_nat R) (Z.of_nat i + 1))))
    (fun i s => foldl (wander_visit R C) s (visits R (i + 1))) l s) as (l' & -> & _ & H'); [done | | eauto].
  intros i la sa Hi [Hr Ha].
  replace (Z.of_nat i + 1) with (Z.of_nat (i + 1)) by lia.
  set (tau := (i + 1)%nat). set (stp := wander_step (Z.of_nat R) (Z.of_nat tau)).
  destruct (visits_walk R tau (next_row stp)) as (vs & -> & Hw & Hl & _); [lia | apply wander_step_walk |].
  apply (wander_loop_refines R vs 0 (set_step la stp) sa); done || lia.
Qed.

(** The last block absorbed. *)
Lemma absorbBlock_refines st mem t ra :
  rep R C (st, mem) t -> (ra < R)%nat ->
  absorbBlock st mem (row_ptr C ra) = Some (b2_rounds 12 (inject t.1 (at_ C t.2 ra 0)))
  /\ wf_state (b2_rounds 12 (inject t.1 (at_ C t.2 ra 0))).
Proof.
  intros (Es & Hs & Em & HM) Hra. cbn in Es, Em. subst. unfold absorbBlock.
  rewrite (read_at R C t.2 ra 0) by (done || lia). obind.
  destruct (at_wf R C t.2 ra 0 HM Hra ltac:(lia)) as [Hl Hf]. pose proof (proj1 Hs).
  assert (wf_state (inject t.1 (at_ C t.2 ra 0))) by (apply inject_wf; [done | lia | done]).
  rewrite xor_state_inject, blake2bLyra_spec by (done || lia). split; [done | by apply b2_rounds_wf].
Qed.
End Phases.

(** ** Squeezing the key *)

Lemma words_bytes_le64 l : words_bytes l = l ≫= le64.
Proof. unfold words_bytes. apply list_bind_ext; [apply le_bytes_le64 | done]. Qed.

Lemma length_bind_le64 l : length (l ≫= le64) = (8 * length l)%nat.
Proof.
  induction l as [|x l IH]; [done |]. cbn [mbind list_bind]. rewrite length_app, IH. simpl. lia.
Qed.

Lemma b2_rounds_add n m st : b2_rounds n (b2_rounds m st) = b2_rounds (n + m) st.
Proof. unfold b2_rounds. by rewrite Nat.iter_add. Qed.

(** The octets a squeezed block contributes. *)
Lemma read_state st n :
  wf_state st -> (n <= 96)%nat ->
  buf_read 0 (Z.of_nat n) (words_bytes st) = Some (take n (bitrate st ≫= le64)).
Proof.
  intros [Hl _] Hn. rewrite words_bytes_le64. unfold buf_read.
  replace (_ && _) with true
    by (symmetry; rewrite !andb_true_iff, !Z.leb_le, length_bind_le64, Hl; lia).
  rewrite Nat2Z.id. simpl drop. f_equal.
  rewrite <- (take_drop 12 st) at 1. rewrite bind_app. unfold bitrate.
  apply take_app_le. rewrite length_bind_le64, length_take. lia.
Qed.

Definition stream (st : list Z) (k : nat) : list Z :=
  seq 0 k ≫= fun i => bitrate (b2_rounds (12 * i) st) ≫= le64.

Lemma stream_S st k : stream st (S k) = stream st k ++ (bitrate (b2_rounds (12 * k) st) ≫= le64).
Proof. unfold stream. rewrite seq_S, bind_app. cbn. by rewrite app_nil_r. Qed.

Lemma length_bitrate_le64 st : wf_state st -> length (bitrate st ≫= le64) = 96%nat.
Proof. intros Hs. rewrite length_bind_le64. destruct (bitrate_wf st Hs) as [-> _]. done. Qed.

Lemma length_stream st k : wf_state st -> length (stream st k) = (96 * k)%nat.
Proof.
  intros Hs. induction k as [|k IH]; [done |].
  rewrite stream_S, length_app, IH, length_bitrate_le64 by (by apply b2_rounds_wf). lia.
Qed.

Lemma squeeze_refines st K n :
  wf_state st -> (n <= length K)%nat ->
  exists st', squeeze st K (Z.of_nat n) = Some (st', squeeze_stream st n ++ drop n K)
    /\ length (squeeze_stream st n) = n.
Proof.
  intros Hs Hn. unfold squeeze. change BLOCK_LEN_BYTES with (Z.of_nat 96).
  rewrite <- Nat2Z.inj_div, <- Nat2Z.inj_mod, Nat2Z.id.
  pose proof (Nat.div_mod_eq n 96) as Hdm. pose proof (Nat.mod_upper_bound n 96).
  set (q := (n / 96)%nat) in *. set (m := (n mod 96)%nat) in *.
  destruct (for_opt_rel (fun (i : nat) '(s, out, p) (_ : unit) =>
      s = b2_rounds (12 * i) st /\ out = stream st i ++ drop (96 * i) K /\ p = 96 * Z.of_nat i) q
    (fun _ '(state, out, ptr) =>
      src ← buf_read 0 (Z.of_nat 96) (words_bytes state);
      out ← buf_write ptr src out;
      Some (blake2bLyra state, out, ptr + Z.of_nat 96)) (fun _ _ => ()) (st, K, 0) ())
    as ([[s out] p] & -> & -> & -> & ->).
  - done.
  - intros i [[s out] p] [] Hi (-> & -> & ->).
    assert (Hw : wf_state (b2_rounds (12 * i) st)) by (by apply b2_rounds_wf).
    pose proof (length_stream st i Hs) as Hls. pose proof (length_bitrate_le64 _ Hw) as Hlb.
    rewrite (read_state _ 96), take_ge by (done || lia). obind.
    rewrite (buf_write_Some _ _ _ (stream st i) (take 96 (drop (96 * i) K)) (drop 96 (drop (96 * i) K)));
      [| by rewrite take_drop | lia | rewrite length_take, length_drop; lia].
    obind. eexists; split; [reflexivity |]. split; [| split; [| lia]].
    + rewrite blake2bLyra_spec, b2_rounds_add by done. f_equal. lia.
    + rewrite stream_S, <- app_assoc, drop_drop. do 3 f_equal. lia.
  - obind. assert (Hw : wf_state (b2_rounds (12 * q) st)) by (by apply b2_rounds_wf).
    pose proof (length_stream st q Hs) as Hls. pose proof (length_bitrate_le64 _ Hw) as Hlb.
    rewrite (read_state _ m) by (done || lia). obind.
    assert (Hlm : length (take m (bitrate (b2_rounds (12 * q) st) ≫= le64)) = m)
      by (rewrite length_take; lia).
    rewrite (buf_write_Some _ _ _ (stream st q) (take m (drop (96 * q) K)) (drop m (drop (96 * q) K)));
      [| by rewrite take_drop | lia | rewrite Hlm, length_take, length_drop; lia].
    obind.
    assert (Ess : squeeze_stream st n = stream st q ++ take m (bitrate (b2_rounds (12 * q) st) ≫= le64)).
    { unfold squeeze_stream. fold q. replace (q + 1)%nat with (S q) by lia.
      fold (stream st (S q)). rewrite stream_S, take_app_ge by lia. do 2 f_equal. lia. }
    rewrite Ess. eexists. split; [| rewrite length_app; lia].
    rewrite <- app_assoc, drop_drop. do 5 f_equal. lia.
Qed.
