(* ===== verification/Lyra2Theorems.v ===== *)
(** * Lyra2.c and Lyra2Z.c: properties

    [LYRA2] computes the specified key, stays inside its buffers and ends; its
    permutation is invertible; the order in which it visits the rows.  Lemmas, then the
    theorems. *)

From S2P Require Import Prelude BlakeSpec Blake BlakeCore BlakeProofs Sponge Lyra2 Lyra2Spec SpongeProofs Lyra2Input Lyra2Refine.
#[local] Open Scope Z_scope.

(** What a caller of [LYRA2] has to provide: at least three rows and a column, a
    matrix that can be addressed and holds the padded input, a key buffer. *)
Record lyra2_call (K : list Z) (kLen : nat) (pwd salt : list Z) (R C : nat) : Prop := {
  call_rows : (3 <= R)%nat;
  call_cols : (1 <= C)%nat;
  call_counter : Z.of_nat C < 2 ^ 31;
  call_size : Z.of_nat (R * C * 96) < 2 ^ 63;
  call_input : (64 * n_blocks pwd salt <= R * C * 96)%nat;
  call_key : (kLen <= length K)%nat /\ Z.of_nat kLen < 2 ^ 32;
  call_pwd : Forall (fits 8) pwd;
  call_salt : Forall (fits 8) salt;
}.

(** ** The whole routine *)

Section Whole.
Context (K : list Z) (kLen : nat) (pwd salt : list Z) (T R C : nat).
Context (Hcall : lyra2_call K kLen pwd salt R C).
Abbreviation input :=
  (lyra2_input (Z.of_nat kLen) pwd salt (Z.of_nat T) (Z.of_nat R) (Z.of_nat C)).

Lemma matrix_size :
  s64 (s64 (Z.of_nat R) * ROW_LEN_BYTES (Z.of_nat C)) = Z.of_nat (R * C * 96).
Proof.
  destruct Hcall. pose proof (rows_bound R C call_rows0 call_cols0 call_size0).
  unfold ROW_LEN_BYTES. rewrite (row_len R C call_rows0 call_cols0 call_size0).
  rewrite (s64_id (Z.of_nat R)) by lia. rewrite (s64_id (12 * Z.of_nat C * 8)) by nia.
  rewrite s64_id by nia. lia.
Qed.

(** The part that follows the allocations. *)
Lemma place_bytes :
  place_input (Z.of_nat R) (Z.of_nat C) (replicate (R * C * 96) 0) (Z.of_nat kLen) pwd
    (Z.of_nat (length pwd)) salt (Z.of_nat (length salt)) (Z.of_nat T)
  = Some (Z.of_nat (n_blocks pwd salt), input ++ replicate (R * C * 96 - length input) 0).
Proof.
  destruct Hcall. rewrite place_input_spec, length_input by done. done.
Qed.

Lemma lyra2_refines :
  Z.of_nat T < 2 ^ 63 - 1 ->
  LYRA2 (Allocs true true true) K (Z.of_nat kLen) pwd (Z.of_nat (length pwd)) salt
    (Z.of_nat (length salt)) (Z.of_nat T) (Z.of_nat R) (Z.of_nat C)
  = Some (0, lyra2 kLen pwd salt T R C ++ drop kLen K)
  /\ length (lyra2 kLen pwd salt T R C) = kLen.
Proof.
  intros HT. pose proof matrix_size as Esz. pose proof place_bytes as Epl.
  destruct Hcall as [HR HC HC31 Hsz Hin [HK Hk32] Hpwd Hsalt].
  unfold LYRA2, lyra2_with_stride. cbn [alloc_matrix alloc_rows alloc_state negb].
  rewrite Esz, !Nat2Z.id, Epl. obind.
  replace (Z.to_nat (Z.of_nat (R * C * 96) / 8)) with (R * C * 12)%nat.
  2: { change 8 with (Z.of_nat 8). rewrite <- Nat2Z.inj_div, Nat2Z.id.
       replace (R * C * 96)%nat with (R * C * 12 * 8)%nat by lia. by rewrite Nat.div_mul. }
  destruct (initial_matrix_spec (Z.of_nat kLen) (Z.of_nat T) (Z.of_nat R) (Z.of_nat C)
    pwd salt Hpwd Hsalt R C Hin) as (-> & HM0 & rest & Erest).
  destruct (absorb_input_spec (Z.of_nat kLen) (Z.of_nat T) (Z.of_nat R) (Z.of_nat C)
    pwd salt Hpwd Hsalt rest) as (st0 & Eabs & -> & Hst0).
  rewrite <- Erest in Eabs. rewrite Eabs. obind.
  rewrite !(memMatrix_row R C HR HC Hsz 0 0) by (done || lia).
  rewrite !(memMatrix_row R C HR HC Hsz 1 1) by (done || lia). obind.
  destruct (reducedSqueezeRow0_refines R C (absorb_all input) (concat (initial_matrix R C input))
    (absorb_all input, initial_matrix R C input)) as ([st1 m1] & -> & H1); [done | by split | lia |]. obind.
  destruct (reducedDuplexRow1_refines R C st1 m1 _ HC31 H1) as ([st2 m2] & -> & H2); [lia |]. obind.
  destruct (setup_loop_refines R C HR HC Hsz HC31 R 2 (setup_start st2 m2) _
    (conj (setup_start_idx st2 m2) H2)) as (l3 & -> & Hi3 & H3); [lia.. |]. obind.
  replace (foldl _ _ (seq (2 - 2) (R - 2)))
    with (setup_rows R C (duplex_row1 C (squeeze_row C (absorb_all input, initial_matrix R C input))))
    in H3 by done.
  unfold lyra2. destruct (setup_rows R C _) as [st M].
  pose proof (revisit_lt R) as Hrv. pose proof (window_bounds R) as Hwb.
  destruct (wander_refines R C HR HC Hsz HC31 T (set_row l3 0) (st, M, (R - 1)%nat, revisit R))
    as (l4 & -> & H4); [done | done | |].
  { destruct Hi3. cbn. split; [done |]. lia. }
  obind. destruct (wander_passes R C T _) as [[[st4 M4] p4] ra4].
  destruct H4 as (H4 & _ & _ & Era & Hra).
  rewrite (memMatrix_row R C HR HC Hsz ra4) by done. obind.
  destruct (absorbBlock_refines R C HR HC Hsz (state l4) (matrix l4) (st4, M4) ra4 H4 Hra) as [-> Hw]. obind.
  cbn [fst snd] in Hw |- *. rewrite wrap_id by (unfold fits; lia).
  destruct (squeeze_refines (b2_rounds 12 (inject st4 (at_ C M4 ra4 0))) K kLen Hw HK) as (st5 & -> & Hlen).
  obind. done.
Qed.
End Whole.

(** ** Collisions of the old stride *)

Lemma bytes_words_split k n bs :
  (k <= n)%nat ->
  bytes_words n bs = bytes_words k (take (8 * k) bs) ++ bytes_words (n - k) (drop (8 * k) bs).
Proof.
  revert n bs. induction k as [|k IH]; intros n bs Hk; [by rewrite Nat.sub_0_r |].
  destruct n as [|n]; [lia |]. cbn [bytes_words]. rewrite (IH n) by lia.
  replace (8 * S k)%nat with (8 + 8 * k)%nat by lia.
  rewrite take_take, Nat.min_l, <- take_drop_commute, drop_drop by lia. done.
Qed.

Lemma length_bytes_words n bs : length (bytes_words n bs) = n.
Proof. revert bs. induction n as [|n IH]; intros bs; [done |]. cbn. by rewrite IH. Qed.

(** Equal behaviour of the bodies gives equal loops. *)
Lemma for_opt_ext {S} n (f g : nat -> S -> option S) (P : nat -> S -> Prop) s :
  P 0%nat s ->
  (forall i s, (i < n)%nat -> P i s -> f i s = g i s) ->
  (forall i s s', (i < n)%nat -> P i s -> g i s = Some s' -> P (Datatypes.S i) s') ->
  for_opt n f s = for_opt n g s /\ forall s', for_opt n g s = Some s' -> P n s'.
Proof.
  intros H0 He Hp. induction n as [|n IH]; [split; [done |]; by intros s' [= <-] |].
  destruct IH as [E IH]; [intros; apply He; auto with lia.. | intros; eapply Hp; eauto with lia |].
  rewrite !for_opt_S, E. destruct (for_opt n g s) as [s1|]; [| by split].
  specialize (IH s1 eq_refl). rewrite !obind_Some. split; [apply He; auto with lia |].
  intros s' Hs'. eapply Hp; eauto with lia.
Qed.

(** Two matrices that agree on the words the old stride reads are absorbed alike. *)
Lemma absorb_old_agree n st A B B' D :
  length A = 8%nat -> length B = 56%nat -> length B' = 56%nat ->
  absorb_input BLOCK_LEN_BLAKE2_SAFE_BYTES n st (A ++ B ++ D)
  = absorb_input BLOCK_LEN_BLAKE2_SAFE_BYTES n st (A ++ B' ++ D).
Proof.
  intros HA HB HB'. unfold absorb_input. f_equal.
  apply (for_opt_ext (Z.to_nat n) _ _ (fun (i : nat) '(_, p) => p = 64 * Z.of_nat i)); [done | |].
  - intros i [s p] Hi ->. unfold absorbBlockBlake2Safe. do 2 f_equal.
    unfold buf_read. rewrite !length_app, HA, HB, HB'.
    destruct (_ && _) eqn:E; [| done]. f_equal. destruct i as [|i].
    + change (Z.to_nat (64 * Z.of_nat 0)) with 0%nat. rewrite !drop_0.
      rewrite !take_app_length' by (rewrite HA; done). done.
    + rewrite !app_assoc, !drop_app_ge by (rewrite length_app; lia).
      rewrite !length_app, HA, HB, HB'. done.
  - intros i [s p] s' Hi -> Hs. destruct (absorbBlockBlake2Safe _ _ _); [| done].
    injection Hs as <-. unfold BLOCK_LEN_BLAKE2_SAFE_BYTES, BLOCK_LEN_BLAKE2_SAFE_INT64. lia.
Qed.

(** Filling row 0 forgets what it held. *)
Lemma squeeze_row_forgets C st M M' :
  length M = length M' -> (C <= length M)%nat -> drop C M = drop C M' ->
  squeeze_row C (st, M) = squeeze_row C (st, M').
Proof.
  intros Hl HC Hd.
  set (body := fun i '(st, M) => (b2_round st, put C M 0 (C - 1 - i) (bitrate st))).
  assert (Hind : forall n, (n <= C)%nat -> exists st' N N',
    for_loop n body (st, M) = (st', N) /\ for_loop n body (st, M') = (st', N')
    /\ length N = length M /\ length N' = length M /\ drop (C - n) N = drop (C - n) N').
  { induction n as [|n IH]; intros Hn.
    { exists st, M, M'. rewrite Nat.sub_0_r. done. }
    destruct IH as (st' & N & N' & E1 & E2 & L1 & L2 & E); [lia |].
    rewrite !for_loop_S, E1, E2. exists (b2_round st'), (put C N 0 (C - 1 - n) (bitrate st')),
      (put C N' 0 (C - 1 - n) (bitrate st')).
    split; [reflexivity |]. split; [reflexivity |]. unfold put, cell. cbn [Nat.mul Nat.add].
    rewrite !length_insert. split; [exact L1 |]. split; [exact L2 |].
    replace (C - S n)%nat with (C - 1 - n)%nat by lia.
    rewrite !insert_take_drop by lia.
    rewrite !drop_app_length' by (rewrite length_take; lia).
    replace (S (C - 1 - n)) with (C - n)%nat by lia. by rewrite E. }
  destruct (Hind C) as (st' & N & N' & E1 & E2 & _ & _ & E); [done |].
  unfold squeeze_row. fold body. rewrite E1, E2. rewrite Nat.sub_diag in E. rewrite !drop_0 in E. by rewrite E.
Qed.

Lemma absorb_input_wf stride n st mem st' :
  Forall (fits 64) mem -> wf_state st -> absorb_input stride n st mem = Some st' -> wf_state st'.
Proof.
  intros Hm Hs. unfold absorb_input.
  match goal with |- context [for_opt ?k ?body ?s0] =>
    destruct (for_opt_ext k body body (fun _ '(s, _) => wf_state s) s0) as [_ Hinv]; [done | done | |] end.
  - intros i [s p] [s' p'] Hi Hw. unfold absorbBlockBlake2Safe, buf_read.
    destruct (_ && _) eqn:E; [| done]. rewrite !andb_true_iff, !Z.leb_le in E. obind.
    set (b := take _ _). intros Heq.
    destruct (absorb_step s b Hw) as [Ea Hw']; [| by apply Forall_take, Forall_drop |].
    { unfold b. rewrite length_take, length_drop. unfold BLOCK_LEN_BLAKE2_SAFE_INT64 in *. lia. }
    rewrite Ea in Heq. by simplify_eq.
  - destruct (for_opt _ _ _) as [[s p]|]; [| done]. obind. intros [= <-]. by apply (Hinv (s, p)).
Qed.

Lemma chunks_drop {A} j n k (l : list A) : drop j (chunks n k l) = chunks (n - j) k (drop (j * k) l).
Proof.
  revert n l. induction j as [|j IH]; intros n l; [by rewrite Nat.sub_0_r |].
  destruct n as [|n]; [done |]. destruct l as [|x l].
  { rewrite !drop_nil. cbn [chunks]. by destruct (S n - S j)%nat. }
  cbn [chunks drop]. rewrite IH, drop_drop. f_equal.
Qed.

(** The three parts of a matrix that holds an input of at most eight blocks. *)
Lemma input_words_split n (inp : list Z) N :
  (64 <= n)%nat -> (64 <= length inp <= 512)%nat -> (512 <= N)%nat ->
  let bytes := inp ++ replicate (N - length inp) 0 in
  exists B, length B = 56%nat /\
    bytes_words n bytes
    = bytes_words 8 (take 64 inp) ++ B ++ bytes_words (n - 64) (replicate (N - 512) 0).
Proof.
  intros Hn Hi HN bytes. rewrite (bytes_words_split 8), (bytes_words_split 56 (n - 8)) by lia.
  exists (bytes_words 56 (take (8 * 56) (drop (8 * 8) bytes))).
  rewrite length_bytes_words. split; [done |]. unfold bytes. f_equal.
  - rewrite take_app_le by (simpl; lia). done.
  - f_equal. rewrite drop_drop, drop_app_ge by (simpl; lia).
    replace (n - 8 - 56)%nat with (n - 64)%nat by lia. f_equal.
    rewrite drop_replicate. f_equal. simpl. lia.
Qed.

Section Collision.
Context (a : allocs) (K : list Z) (kLen T R C : nat).
Abbreviation input p s :=
  (lyra2_input (Z.of_nat kLen) p s (Z.of_nat T) (Z.of_nat R) (Z.of_nat C)).

Lemma take_input p s :
  (64 <= length p + length s)%nat -> take 64 (input p s) = take 64 (p ++ s).
Proof.
  intros Hl. unfold lyra2_input, pad10star1. rewrite (app_assoc p s).
  destruct (63 - _)%nat; rewrite <- !app_assoc, (app_assoc p s);
    rewrite take_app_le by (rewrite length_app; lia); done.
Qed.

Context (pwd salt pwd' salt' : list Z).
Context (Hcall : lyra2_call K kLen pwd salt R C) (Hcall' : lyra2_call K kLen pwd' salt' R C).
Context (Hlp : length pwd = length pwd') (Hls : length salt = length salt').
Context (H64 : (64 <= length pwd + length salt)%nat) (H8 : (n_blocks pwd salt <= 8)%nat).
Context (HC : (6 <= C)%nat) (Hpre : take 64 (pwd ++ salt) = take 64 (pwd' ++ salt')).

(** The two matrices agree on the words the old stride reads and outside row 0. *)
Lemma old_matrices :
  exists A B B' D, length A = 8%nat /\ length B = 56%nat /\ length B' = 56%nat
    /\ concat (initial_matrix R C (input pwd salt)) = A ++ B ++ D
    /\ concat (initial_matrix R C (input pwd' salt')) = A ++ B' ++ D
    /\ Forall (fits 64) (A ++ B' ++ D).
Proof.
  destruct Hcall as [HR _ _ Hsz Hin _ Hpf Hsf], Hcall' as [_ _ _ _ Hin' _ Hpf' Hsf'].
  assert (Enb : n_blocks pwd salt = n_blocks pwd' salt') by (unfold n_blocks; by rewrite Hlp, Hls).
  assert (1 <= n_blocks pwd salt)%nat by (unfold n_blocks; lia).
  assert (HRC : (18 <= R * C)%nat) by nia.
  destruct (initial_matrix_spec (Z.of_nat kLen) (Z.of_nat T) (Z.of_nat R) (Z.of_nat C)
    pwd salt Hpf Hsf R C Hin) as (Ew & _ & _).
  destruct (initial_matrix_spec (Z.of_nat kLen) (Z.of_nat T) (Z.of_nat R) (Z.of_nat C)
    pwd' salt' Hpf' Hsf' R C Hin') as (Ew' & HM' & _).
  pose proof (length_input (Z.of_nat kLen) (Z.of_nat T) (Z.of_nat R) (Z.of_nat C) pwd salt) as Hl.
  pose proof (length_input (Z.of_nat kLen) (Z.of_nat T) (Z.of_nat R) (Z.of_nat C) pwd' salt') as Hl'.
  rewrite <- Enb in Hl'. set (n := (R * C)%nat) in *. clearbody n.
  destruct (input_words_split (n * 12) (input pwd salt) (n * 96)) as (B & HB & EB); [lia.. |].
  destruct (input_words_split (n * 12) (input pwd' salt') (n * 96)) as (B' & HB' & EB'); [lia.. |].
  rewrite take_input in EB by done. rewrite take_input, <- Hpre in EB' by lia.
  exists (bytes_words 8 (take 64 (pwd ++ salt))), B, B', (bytes_words (n * 12 - 64) (replicate (n * 96 - 512) 0)).
  rewrite <- Ew, <- Ew', EB, EB', <- EB', Ew', length_bytes_words. do 5 (split; [done |]).
  apply Forall_concat. destruct HM' as [_ HM']. revert HM'. apply Forall_impl. by intros ? [].
Qed.

(** Row 0 is overwritten, so from then on the two runs are the same. *)
Lemma squeeze_row0_agree st M M' A B B' D :
  wf_state st -> wf_mat R C M -> wf_mat R C M' ->
  length A = 8%nat -> length B = 56%nat -> length B' = 56%nat ->
  concat M = A ++ B ++ D -> concat M' = A ++ B' ++ D ->
  reducedSqueezeRow0 st (concat M) (row_ptr C 0) (Z.of_nat C)
  = reducedSqueezeRow0 st (concat M') (row_ptr C 0) (Z.of_nat C).
Proof.
  intros Hs HM HM' HA HB HB' E E'. destruct Hcall as [HR _ HC31 _ _ _ _ _].
  assert (Ech : forall N, wf_mat R C N -> N = chunks (R * C) 12 (concat N)).
  { intros N HN. symmetry. apply chunks_concat; [lia | by eapply wf_mat_lengths |]. by destruct HN as [-> _]. }
  assert (Ed : drop C M = drop C M').
  { rewrite (Ech M HM), (Ech M' HM'), !chunks_drop, E, E'. f_equal.
    rewrite !app_assoc, !drop_app_ge by (rewrite length_app; lia).
    by rewrite !length_app, HA, HB, HB'. }
  assert (Hrow : squeeze_row C (st, M) = squeeze_row C (st, M')).
  { destruct HM as [Hl _], HM' as [Hl' _]. apply squeeze_row_forgets; [lia | nia | done]. }
  destruct (reducedSqueezeRow0_refines R C st (concat M) (st, M)) as ([s1 m1] & -> & R1); [done | by split | lia |].
  destruct (reducedSqueezeRow0_refines R C st (concat M') (st, M')) as ([s2 m2] & -> & R2); [done | by split | lia |].
  rewrite Hrow in R1. destruct R1 as (E1 & _ & F1 & _), R2 as (E2 & _ & F2 & _).
  cbn in E1, F1, E2, F2. congruence.
Qed.

Lemma old_stride_collision :
  LYRA2_old a K (Z.of_nat kLen) pwd (Z.of_nat (length pwd)) salt (Z.of_nat (length salt))
    (Z.of_nat T) (Z.of_nat R) (Z.of_nat C)
  = LYRA2_old a K (Z.of_nat kLen) pwd' (Z.of_nat (length pwd')) salt' (Z.of_nat (length salt'))
    (Z.of_nat T) (Z.of_nat R) (Z.of_nat C).
Proof.
  pose proof (matrix_size K kLen pwd salt R C Hcall) as Esz.
  pose proof (place_bytes K kLen pwd salt T R C Hcall) as Epl.
  pose proof (place_bytes K kLen pwd' salt' T R C Hcall') as Epl'.
  pose proof Hcall as [HR HC1 _ Hsz Hin _ Hpf Hsf]. pose proof Hcall' as [_ _ _ _ Hin' _ Hpf' Hsf'].
  assert (Enb : n_blocks pwd salt = n_blocks pwd' salt') by (unfold n_blocks; by rewrite Hlp, Hls).
  unfold LYRA2_old, lyra2_with_stride. rewrite Esz, !Nat2Z.id, Epl, Epl', <- Enb. obind.
  repeat destruct (negb _); try done.
  replace (Z.to_nat (Z.of_nat (R * C * 96) / 8)) with (R * C * 12)%nat.
  2: { change 8 with (Z.of_nat 8). rewrite <- Nat2Z.inj_div, Nat2Z.id.
       replace (R * C * 96)%nat with (R * C * 12 * 8)%nat by lia. by rewrite Nat.div_mul. }
  destruct (initial_matrix_spec (Z.of_nat kLen) (Z.of_nat T) (Z.of_nat R) (Z.of_nat C)
    pwd salt Hpf Hsf R C Hin) as (-> & HM & _).
  destruct (initial_matrix_spec (Z.of_nat kLen) (Z.of_nat T) (Z.of_nat R) (Z.of_nat C)
    pwd' salt' Hpf' Hsf' R C Hin') as (-> & HM' & _).
  destruct old_matrices as (A & B & B' & D & HA & HB & HB' & E & E' & Hf).
  rewrite E at 1. rewrite E' at 1. rewrite (absorb_old_agree _ _ A B B' D) by done.
  destruct (absorb_input _ _ _ _) as [st|] eqn:Est; [| done]. obind.
  rewrite !(memMatrix_row R C HR HC1 Hsz 0 0) by (done || lia).
  rewrite !(memMatrix_row R C HR HC1 Hsz 1 1) by (done || lia). obind.
  rewrite (squeeze_row0_agree st _ _ A B B' D
    (absorb_input_wf _ _ _ _ _ Hf initState_wf Est) HM HM' HA HB HB' E E'). done.
Qed.
End Collision.

(** * Lyra2.c and Lyra2Z.c: the theorems *)

#[local] Open Scope Z_scope.

(** The conditions on a call with concrete arguments. *)
Ltac solve_call :=
  split;
  [ lia | lia | vm_compute; reflexivity | vm_compute; reflexivity | vm_compute; lia
  | split; [vm_compute; lia | vm_compute; reflexivity]
  | apply fitsb_forall; reflexivity | apply fitsb_forall; reflexivity ].

(** C37. [LYRA2] computes the specified key: for at least three rows, one
    to 2^31 - 1 columns (the rows are filled with an [int] counter), fewer than 2^63 - 1
    passes, a matrix below 2^63 octets that holds the padded input, and a key
    buffer of at least [kLen] octets, it returns 0, never leaves the matrix, the
    row table or the key buffer, every loop ends within its fuel, and the key is
    the one of the closed-form specification, written over the first [kLen] octets. *)
Theorem lyra2_computes_spec K kLen pwd salt T R C :
  lyra2_call K kLen pwd salt R C -> Z.of_nat T < 2 ^ 63 - 1 ->
  LYRA2 (Allocs true true true) K (Z.of_nat kLen) pwd (Z.of_nat (length pwd)) salt
    (Z.of_nat (length salt)) (Z.of_nat T) (Z.of_nat R) (Z.of_nat C)
  = Some (0, lyra2 kLen pwd salt T R C ++ drop kLen K)
  /\ length (lyra2 kLen pwd salt T R C) = kLen.
Proof. intros. by apply lyra2_refines. Qed.

Lemma lyra2_computes_spec_witness :
  LYRA2 (Allocs true true true) (replicate 40 7) 33 [1; 2; 3] 3 [4; 5] 2 3 5 2
  = Some (0, lyra2 33 [1; 2; 3] [4; 5] 3 5 2 ++ replicate 7 7)
  /\ length (lyra2 33 [1; 2; 3] [4; 5] 3 5 2) = 33%nat.
Proof.
  apply (lyra2_computes_spec (replicate 40 7) 33 [1; 2; 3] [4; 5] 3 5 2); [solve_call | lia].
Defined.

(** When one of its three allocations fails, [LYRA2] returns -1 and leaves the
    key buffer untouched. *)
Theorem lyra2_alloc_failure a K kLen pwd salt T R C :
  lyra2_call K kLen pwd salt R C ->
  alloc_matrix a && alloc_rows a && alloc_state a = false ->
  LYRA2 a K (Z.of_nat kLen) pwd (Z.of_nat (length pwd)) salt
    (Z.of_nat (length salt)) (Z.of_nat T) (Z.of_nat R) (Z.of_nat C) = Some (-1, K).
Proof.
  intros Hc Ha. unfold LYRA2, lyra2_with_stride.
  destruct a as [[] [] []]; cbn in Ha |- *; try done.
  rewrite (matrix_size K kLen pwd salt R C Hc), Nat2Z.id.
  rewrite (place_bytes K kLen pwd salt T R C Hc). done.
Qed.

Lemma lyra2_alloc_failure_witness :
  LYRA2 (Allocs true true false) (replicate 40 7) 33 [1; 2; 3] 3 [4; 5] 2 3 5 2
  = Some (-1, replicate 40 7).
Proof.
  apply (lyra2_alloc_failure (Allocs true true false) (replicate 40 7) 33 [1; 2; 3] [4; 5] 3 5 2);
    [| reflexivity].
  solve_call.
Defined.

(** The round of the sponge is BLAKE2b's round on an all-zero message, keeps
    sixteen 64-bit words, and is undone by running its additions, XORs and
    rotations backwards. *)
Theorem round_lyra_permutation v :
  wf_state v ->
  ROUND_LYRA v = b2_round v /\ wf_state (ROUND_LYRA v) /\ ROUND_inv (ROUND_LYRA v) = v.
Proof.
  intros Hv. destruct (ROUND_LYRA_spec v Hv). split; [done |]. split; [done |].
  by apply ROUND_inv_ROUND.
Qed.

Lemma round_lyra_permutation_witness :
  ROUND_LYRA initState = b2_round initState /\ wf_state (ROUND_LYRA initState)
  /\ ROUND_inv (ROUND_LYRA initState) = initState.
Proof.
  apply (round_lyra_permutation initState). split; [reflexivity |]. by apply fitsb_forall.
Defined.

(** The full sponge permutation loses nothing: distinct states have distinct
    images. *)
Theorem blake2bLyra_injective v v' :
  wf_state v -> wf_state v' -> v <> v' -> blake2bLyra v <> blake2bLyra v'.
Proof.
  intros Hv Hv' Hne E. apply Hne. revert E. unfold blake2bLyra.
  assert (Hw : forall n u, wf_state u -> wf_state (for_loop n (fun _ => ROUND_LYRA) u)).
  { intros n u Hu. induction n as [|n IH]; [done |]. rewrite for_loop_S. by apply ROUND_LYRA_spec. }
  generalize 12%nat. intros n. induction n as [|n IH]; intros E; [done |].
  apply IH. rewrite !for_loop_S in E.
  rewrite <- (ROUND_inv_ROUND _ (Hw n v Hv)), <- (ROUND_inv_ROUND _ (Hw n v' Hv')). by f_equal.
Qed.

Lemma blake2bLyra_injective_witness :
  blake2bLyra initState <> blake2bLyra (replicate 16 1).
Proof.
  apply (blake2bLyra_injective initState (replicate 16 1)); [| | discriminate];
    (split; [reflexivity | by apply fitsb_forall]).
Defined.

(** ** Visitation *)

(** The rows a wandering pass goes through, as its do-while loop computes them. *)
Fixpoint pass_rows (nRows stp : Z) (fuel : nat) (r : Z) : option (list Z) :=
  match fuel with
  | O => None
  | S fuel =>
      let r' := wander_next nRows r stp in
      if negb (r' =? 0) then l ← pass_rows nRows stp fuel r'; Some (r :: l) else Some [r]
  end.

Lemma pass_rows_walk R stp fuel r vs :
  (0 < R)%nat -> Z.of_nat R < 2 ^ 63 -> walk (next_row R stp) r vs -> (length vs < fuel)%nat ->
  pass_rows (Z.of_nat R) stp fuel (Z.of_nat r) = Some (Z.of_nat <$> (r :: vs)).
Proof.
  intros HR HR63. revert r vs. induction fuel as [|fuel IH]; intros r vs Hw Hf; [lia |].
  cbn [pass_rows].
  assert (En : wander_next (Z.of_nat R) (Z.of_nat r) stp = Z.of_nat (next_row R stp r)).
  { unfold wander_next, next_row. pose proof (Z.mod_pos_bound (u64 (Z.of_nat r + stp)) (Z.of_nat R)).
    rewrite s64_id by lia. lia. }
  rewrite En. destruct vs as [|r' vs]; cbn [walk] in Hw.
  - by rewrite Hw.
  - destruct Hw as (-> & Hne & Hw).
    replace (negb _) with true by (symmetry; apply negb_true_iff, Z.eqb_neq; lia).
    cbn [length] in Hf. rewrite (IH r' vs) by (done || lia). done.
Qed.

Lemma pass_rows_visits R tau :
  (3 <= R)%nat -> Z.of_nat (R * 96) < 2 ^ 63 ->
  pass_rows (Z.of_nat R) (wander_step (Z.of_nat R) (Z.of_nat tau)) R 0
  = Some (Z.of_nat <$> visits R tau).
Proof.
  intros HR Hsz.
  pose proof (wander_step_walk R 1 HR ltac:(lia) ltac:(by rewrite Nat.mul_1_r)) tau as Hn.
  destruct (visits_walk R tau _ ltac:(lia) Hn) as (vs & -> & Hw & Hl & _).
  apply (pass_rows_walk R _ R 0 vs); [lia | lia | done | done].
Qed.

(** A wandering pass ends, after at most [nRows] iterations, and visits exactly
    the rows of the closed form: the multiples of nRows/2 - 1 modulo nRows in an
    odd pass, row 0 and then (2^64 - 1) mod nRows down to 1 in an even one. *)
Theorem wander_pass_rows R tau :
  (3 <= R)%nat -> Z.of_nat (R * 96) < 2 ^ 63 ->
  pass_rows (Z.of_nat R) (wander_step (Z.of_nat R) (Z.of_nat tau)) R 0
  = Some (Z.of_nat <$> visits R tau).
Proof. apply pass_rows_visits. Qed.

Lemma wander_pass_rows_witness :
  pass_rows 8 (wander_step 8 3) 8 0 = Some [0; 3; 6; 1; 4; 7; 2; 5].
Proof. exact (wander_pass_rows 8 3 ltac:(lia) ltac:(vm_compute; reflexivity)). Defined.

(** With a power-of-two number of rows every pass visits every row exactly
    once, as the design of Lyra2 intends; the proof-of-work of [lyra2z_hash] (eight
    rows) is such a case. *)
Theorem wander_covers_pow2 k tau :
  (2 <= k <= 56)%nat ->
  exists rows, pass_rows (2 ^ Z.of_nat k) (wander_step (2 ^ Z.of_nat k) (Z.of_nat tau)) (2 ^ k) 0
    = Some (Z.of_nat <$> rows) /\ rows ≡ₚ seq 0 (2 ^ k).
Proof.
  intros Hk. exists (visits (2 ^ k) tau).
  assert (H4 : (4 <= 2 ^ k)%nat) by (apply (Nat.pow_le_mono_r 2 2 k); lia).
  assert (H56 : (2 ^ Z.of_nat k <= 2 ^ 56)%Z) by (apply Z.pow_le_mono_r; lia).
  rewrite window_Z in H56 |- *. split; [apply pass_rows_visits; lia |].
  apply visits_pow2. lia.
Qed.

Lemma wander_covers_pow2_witness :
  exists rows, pass_rows (2 ^ Z.of_nat 3) (wander_step (2 ^ Z.of_nat 3) (Z.of_nat 2)) (2 ^ 3) 0
    = Some (Z.of_nat <$> rows) /\ rows ≡ₚ seq 0 (2 ^ 3).
Proof. apply (wander_covers_pow2 3 2). lia. Defined.

(** With the 330 rows of the coin's block hash, an odd pass only visits the
    165 even rows and an even pass only the rows 0 to 15: the sum [row + step] is
    reduced modulo nRows as an unsigned 64-bit number, and the odd step 164 shares
    the factor 2 with 330, so the odd rows above 15 are never the visited row. *)
Theorem wander_330_rows tau :
  exists rows, pass_rows 330 (wander_step 330 (Z.of_nat tau)) 330 0 = Some rows
    /\ length rows = (if Nat.odd tau then 165 else 16)%nat
    /\ Forall (fun r => Z.even r = true \/ r <= 15) rows.
Proof.
  exists (Z.of_nat <$> visits 330 tau).
  split; [apply (pass_rows_visits 330 tau); [lia | vm_compute; reflexivity] |].
  assert (Hb : forall l, forallb (fun r => Z.even r || (r <=? 15)) l = true ->
    Forall (fun r => Z.even r = true \/ r <= 15) l).
  { intros l Hl. rewrite forallb_forall in Hl. rewrite Forall_forall. intros r Hr.
    apply Hl in Hr. apply orb_true_iff in Hr as [? | ?]; [by left | right; lia]. }
  unfold visits. destruct (Nat.odd tau);
    (split; [vm_compute; reflexivity | apply Hb; vm_compute; reflexivity]).
Qed.

(** During setup, while the rows 2^k .. 2^(k+1) - 1 are filled, every row below
    2^k is revisited exactly once, whatever the data. *)
Theorem setup_revisits_window st mem k :
  (1 <= k <= 60)%nat ->
  let at_iter t := Nat.iter t (fun l => setup_advance l st mem) (setup_start st mem) in
  let rows := (fun t => rowa (at_iter (2 ^ k - 2 + t)%nat)) <$> seq 0 (2 ^ k) in
  (forall t, (t < 2 ^ k)%nat -> row (at_iter (2 ^ k - 2 + t)%nat) = Z.of_nat (2 ^ k + t))
  /\ rows ≡ₚ Z.of_nat <$> seq 0 (2 ^ k).
Proof.
  intros Hk at_iter rows.
  assert (H2 : (2 <= 2 ^ k)%nat) by (apply (Nat.pow_le_mono_r 2 1 k); lia).
  assert (H60 : (2 ^ Z.of_nat k <= 2 ^ 60)%Z) by (apply Z.pow_le_mono_r; lia).
  rewrite window_Z in H60.
  assert (Hidx : forall t, (t <= 2 ^ k + 2 ^ k)%nat -> setup_idx (2 + t) (at_iter t)).
  { induction t as [|t IH]; intros Ht; [apply setup_start_idx |].
    replace (2 + S t)%nat with (2 + t + 1)%nat by lia.
    apply setup_idx_next; [apply IH; lia | lia | lia]. }
  assert (Hr : forall t, (t < 2 ^ k)%nat -> setup_idx (2 ^ k + t) (at_iter (2 ^ k - 2 + t)%nat)).
  { intros t Ht. replace (2 ^ k + t)%nat with (2 + (2 ^ k - 2 + t))%nat by lia. apply Hidx. lia. }
  split; [intros t Ht; by destruct (Hr t Ht) |].
  assert (E : rows = Z.of_nat <$> ((fun t => revisit (2 ^ k + t)) <$> seq 0 (2 ^ k))).
  { unfold rows. rewrite <- list_fmap_compose. apply list_fmap_ext. intros i t Hit.
    apply lookup_seq in Hit as [-> ?]. cbn. by destruct (Hr i). }
  rewrite E. apply fmap_Permutation, NoDup_permutation_seq.
  - apply NoDup_fmap_2_strong; [| apply NoDup_seq]. intros a b Ha Hb.
    apply elem_of_seq in Ha, Hb. apply revisit_injective; lia.
  - by rewrite length_fmap, length_seq.
  - apply Forall_fmap. rewrite Forall_forall. intros t Ht. rewrite <- list_elem_of_In in Ht.
    apply elem_of_seq in Ht. cbn. pose proof (revisit_lt (2 ^ k + t)).
    rewrite (Nat.log2_unique (2 ^ k + t) k) in *; [lia | lia |].
    rewrite Nat.pow_succ_r'. lia.
Qed.

Lemma setup_revisits_window_witness :
  (fun t => rowa (Nat.iter (6 + t) (fun l => setup_advance l [] []) (setup_start [] []))) <$> seq 0 8
  ≡ₚ Z.of_nat <$> seq 0 8.
Proof. exact (proj2 (setup_revisits_window [] [] 3 ltac:(lia))). Defined.

(** [LYRA2_old] advances its input pointer by sixty-four words instead of
    eight, so of an input of up to eight blocks it only reads the first 64 octets:
    two password/salt pairs of the same lengths that agree on those collide. *)
Theorem lyra2_old_collides a K kLen T R C pwd salt pwd' salt' :
  lyra2_call K kLen pwd salt R C -> lyra2_call K kLen pwd' salt' R C ->
  length pwd = length pwd' -> length salt = length salt' ->
  (64 <= length pwd + length salt)%nat -> (length pwd + length salt <= 463)%nat -> (6 <= C)%nat ->
  take 64 (pwd ++ salt) = take 64 (pwd' ++ salt') ->
  LYRA2_old a K (Z.of_nat kLen) pwd (Z.of_nat (length pwd)) salt (Z.of_nat (length salt))
    (Z.of_nat T) (Z.of_nat R) (Z.of_nat C)
  = LYRA2_old a K (Z.of_nat kLen) pwd' (Z.of_nat (length pwd')) salt' (Z.of_nat (length salt'))
    (Z.of_nat T) (Z.of_nat R) (Z.of_nat C).
Proof.
  intros Hc Hc' Hlp Hls H64 H8 HC Hpre. apply old_stride_collision; try done.
  unfold n_blocks. pose proof (Nat.Div0.div_le_mono (length pwd + length salt + 48) 511 64) as Hd.
  change (511 / 64)%nat with 7%nat in Hd. lia.
Qed.

Lemma lyra2_old_collides_witness :
  LYRA2_old (Allocs true true true) (replicate 32 0) 32 (replicate 64 1) 64 [2] 1 1 3 6
  = LYRA2_old (Allocs true true true) (replicate 32 0) 32 (replicate 64 1) 64 [3] 1 1 3 6
  /\ LYRA2_old (Allocs true true true) (replicate 32 0) 32 (replicate 64 1) 64 [2] 1 1 3 6 <> None.
Proof.
  split; [| vm_compute; discriminate].
  apply (lyra2_old_collides (Allocs true true true) (replicate 32 0) 32 1 3 6
    (replicate 64 1) [2] (replicate 64 1) [3]); try reflexivity; try solve_call; vm_compute; lia.
Defined.

(** ** lyra2z_hash *)

(** The BLAKE-256 stage of [lyra2z_hash]. *)
Lemma lyra2z_blake_stage ctx u0 hashA input :
  length (sc_buf ctx) = 64%nat -> length u0 = 64%nat -> length hashA = 32%nat ->
  Forall (fits 8) input ->
  exists ctx' h,
    (ctx ← sph_blake256 (sph_blake256_init ctx) input; sph_blake256_close ctx u0 hashA) = Some (ctx', h)
    /\ length h = 32%nat /\ Forall (fits 8) h
    /\ bytes_bits h = blake_hash BLAKE256 no_salt (bytes_bits input).
Proof.
  intros Hb Hu HA Hi.
  pose proof (session_correct_intro small BLAKE256 IV256 salt_zero_small 8 _ eq_refl eq_refl eq_refl
    eq_refl ltac:(by apply fitsb_forall) ltac:(lia) eq_refl) as Hsess.
  destruct (Hsess ctx [input] 0 0 u0 hashA) as (cc' & d & E & Hl & Hbits & Hf & _).
  - done.
  - forall_build done.
  - lia.
  - done.
  - cbn. lia.
  - assert (Hl32 : length d = 32%nat) by (rewrite Hl; reflexivity).
    exists cc', d. split; [| split; [done |]].
    + rewrite Hl32, (drop_ge hashA) in E by lia. rewrite app_nil_r in E. exact E.
    + split; [done |]. rewrite Hbits. cbn [concat]. by rewrite !app_nil_r.
Qed.

Lemma lyra2z_call h hashB :
  length h = 32%nat -> length hashB = 32%nat -> Forall (fits 8) h -> lyra2_call hashB 32 h h 8 8.
Proof.
  intros Hh HB Hf. split; try done; try lia.
  unfold n_blocks. rewrite Hh. vm_compute. lia.
Qed.

(** [lyra2z_hash] of an 80-octet header, whatever its uninitialised locals
    hold, writes Lyra2 (T = 8, 8 x 8 matrix, 32 octets) of the BLAKE-256 digest used
    as password and as salt, over the first 32 octets of the output. *)
Theorem lyra2z_hash_correct ctx u0 hashA hashB input output :
  length (sc_buf ctx) = 64%nat -> length u0 = 64%nat ->
  length hashA = 32%nat -> length hashB = 32%nat ->
  length input = 80%nat -> Forall (fits 8) input -> (32 <= length output)%nat ->
  exists h, bytes_bits h = blake_hash BLAKE256 no_salt (bytes_bits input) /\ length h = 32%nat
    /\ lyra2z_hash (Allocs true true true) ctx u0 hashA hashB input output
       = Some (lyra2 32 h h 8 8 8 ++ drop 32 output).
Proof.
  intros Hb Hu HA HB Hi Hf Ho.
  destruct (lyra2z_blake_stage ctx u0 hashA input Hb Hu HA Hf) as (ctx' & h & E & Hl & Hhf & Hbits).
  exists h. split; [done |]. split; [done |]. unfold lyra2z_hash. cbv zeta.
  rewrite read_prefix by (by rewrite Hi). obind.
  revert E. destruct (sph_blake256 (sph_blake256_init ctx) input) as [c1|]; [| done].
  obind. intros E. rewrite E. obind.
  destruct (lyra2_refines hashB 32 h h 8 8 8 (lyra2z_call h hashB Hl HB Hhf) ltac:(lia)) as [EL Hlen].
  rewrite Hl in EL. change (Z.of_nat 32) with 32 in EL. change (Z.of_nat 8) with 8 in EL.
  rewrite EL. clear EL. revert Hlen. generalize (lyra2 32 h h 8 8 8). intros d Hlen.
  obind. rewrite (drop_ge hashB), app_nil_r by lia.
  rewrite read_prefix by (by rewrite Hlen). obind.
  apply (buf_write_Some 0 _ _ [] (take 32 output) (drop 32 output));
    [by rewrite take_drop | done | rewrite Hlen, length_take; lia].
Qed.

Lemma lyra2z_hash_correct_witness :
  exists h, bytes_bits h = blake_hash BLAKE256 no_salt (bytes_bits (replicate 80 1)) /\ length h = 32%nat
    /\ lyra2z_hash (Allocs true true true) (Context_ (replicate 64 9) 5 [] [] 0 0) (replicate 64 8)
         (replicate 32 7) (replicate 32 6) (replicate 80 1) (replicate 33 5)
       = Some (lyra2 32 h h 8 8 8 ++ [5]).
Proof.
  apply (lyra2z_hash_correct (Context_ (replicate 64 9) 5 [] [] 0 0) (replicate 64 8)
    (replicate 32 7) (replicate 32 6) (replicate 80 1) (replicate 33 5)); try reflexivity.
  - apply fitsb_forall. reflexivity.
  - vm_compute. lia.
Defined.

(** [lyra2z_hash] ignores the return code of [LYRA2]: when an allocation fails
    it reports the uninitialised contents of its local [hashB] as the hash. *)
Theorem lyra2z_hash_alloc_failure a ctx u0 hashA hashB input output :
  length (sc_buf ctx) = 64%nat -> length u0 = 64%nat ->
  length hashA = 32%nat -> length hashB = 32%nat ->
  length input = 80%nat -> Forall (fits 8) input -> (32 <= length output)%nat ->
  alloc_matrix a = false ->
  lyra2z_hash a ctx u0 hashA hashB input output = Some (hashB ++ drop 32 output).
Proof.
  intros Hb Hu HA HB Hi Hf Ho Ha.
  destruct (lyra2z_blake_stage ctx u0 hashA input Hb Hu HA Hf) as (ctx' & h & E & _).
  unfold lyra2z_hash. cbv zeta. rewrite read_prefix by (by rewrite Hi). obind.
  revert E. destruct (sph_blake256 (sph_blake256_init ctx) input) as [c1|]; [| done].
  obind. intros E. rewrite E. obind.
  unfold LYRA2, lyra2_with_stride. rewrite Ha. cbn [negb]. obind.
  rewrite read_prefix by (by rewrite HB). obind.
  apply (buf_write_Some 0 _ _ [] (take 32 output) (drop 32 output));
    [by rewrite take_drop | done | rewrite length_take; lia].
Qed.

Lemma lyra2z_hash_alloc_failure_witness :
  lyra2z_hash (Allocs false true true) (Context_ (replicate 64 9) 5 [] [] 0 0) (replicate 64 8)
    (replicate 32 7) (replicate 32 6) (replicate 80 1) (replicate 33 5)
  = Some (replicate 32 6 ++ [5]).
Proof.
  apply (lyra2z_hash_alloc_failure (Allocs false true true) (Context_ (replicate 64 9) 5 [] [] 0 0)
    (replicate 64 8) (replicate 32 7) (replicate 32 6) (replicate 80 1) (replicate 33 5)); try reflexivity.
  - apply fitsb_forall. reflexivity.
  - vm_compute. lia.
Defined.
