(* ===== verification/Lcs.v ===== *)
(** * Longest common subsequences

    The length of a longest common subsequence of two lists: a recursive
    definition, its characterisation, and the equations a dynamic-programming or
    a divide-and-conquer computation relies on. *)

From S2P Require Import Prelude.
#[local] Open Scope nat_scope.

Section Lcs.
Context {A : Type} `{!EqDecision A}.
Implicit Types a b c s : list A.

Fixpoint lcs a : list A -> nat :=
  match a with
  | [] => fun _ => 0
  | x :: a' =>
      fix with_x b :=
        match b with
        | [] => 0
        | y :: b' => if decide (x = y) then S (lcs a' b') else with_x b' `max` lcs a' b
        end
  end.

Definition common s a b : Prop := s `sublist_of` a /\ s `sublist_of` b.

(** [n] is the length of a longest common subsequence. *)
Definition is_lcs a b (n : nat) : Prop :=
  (exists s, common s a b /\ length s = n) /\ forall s, common s a b -> length s <= n.

Lemma is_lcs_unique a b n m : is_lcs a b n -> is_lcs a b m -> n = m.
Proof.
  intros [(s & Hs & <-) Hn] [(t & Ht & <-) Hm].
  specialize (Hn t Ht). specialize (Hm s Hs). lia.
Qed.

Lemma common_cons x a b s :
  common s (x :: a) (x :: b) -> length s <= S (length (tail s)) /\ common (tail s) a b \/ s = [].
Proof.
  intros [H1 H2]. destruct s as [|y s]; [by right |]. left. split; [done |]. cbn.
  apply sublist_cons_r in H1, H2.
  assert (forall l, y :: s `sublist_of` l -> s `sublist_of` l) as Hw.
  { intros l Hl. etransitivity; [apply (sublist_cons y s s); done | done]. }
  split; [destruct H1 as [H1 | (t & [= -> <-] & H1)] | destruct H2 as [H2 | (t & [= -> <-] & H2)]]; auto.
Qed.

(** The recursive definition is right. *)
Lemma lcs_is_lcs a b : is_lcs a b (lcs a b).
Proof.
  revert b. induction a as [|x a IHa]; intros b.
  { split; [exists []; split; [split; apply sublist_nil_l | done] |].
    intros s [H%sublist_nil_r _]. by rewrite H. }
  induction b as [|y b IHb].
  { split; [exists []; split; [split; apply sublist_nil_l | done] |].
    intros s [_ H%sublist_nil_r]. by rewrite H. }
  cbn [lcs]. destruct (decide (x = y)) as [<- | Hne].
  - destruct (IHa b) as [(s & [H1 H2] & Hl) Hmax]. split.
    + exists (x :: s). split; [split; by apply sublist_skip | cbn; lia].
    + intros t Ht. destruct (common_cons x a b t Ht) as [[Hle Hc] | ->]; [| cbn; lia].
      specialize (Hmax _ Hc). lia.
  - destruct IHb as [(s & [H1 H2] & Hl) Hmax], (IHa (y :: b)) as [(s' & [H1' H2'] & Hl') Hmax'].
    split.
    + destruct (Nat.max_spec ((fix with_x b := match b with [] => 0 | y :: b' =>
        if decide (x = y) then S (lcs a b') else with_x b' `max` lcs a b end) b) (lcs a (y :: b)))
        as [[_ ->] | [_ ->]].
      * exists s'. split; [split; [by apply sublist_cons | done] | done].
      * exists s. split; [split; [done | by apply sublist_cons] | done].
    + intros t [T1 T2]. pose proof T1 as T1'. pose proof T2 as T2'.
      apply sublist_cons_r in T1 as [T1 | (u & -> & T1)]; [specialize (Hmax' t (conj T1 T2)); lia |].
      apply sublist_cons_r in T2 as [T2 | (v & [= E _] & T2)]; [| done].
      specialize (Hmax _ (conj T1' T2)). cbn [lcs] in Hmax. lia.
Qed.

Lemma lcs_eq a b n : is_lcs a b n -> lcs a b = n.
Proof. intros. eapply is_lcs_unique; [apply lcs_is_lcs | done]. Qed.

Lemma common_le s a b : common s a b -> length s <= lcs a b.
Proof. intros H. by apply lcs_is_lcs. Qed.

Lemma lcs_common a b : exists s, common s a b /\ length s = lcs a b.
Proof. by destruct (lcs_is_lcs a b). Qed.

Lemma lcs_nil_l b : lcs [] b = 0.
Proof. done. Qed.

Lemma lcs_nil_r a : lcs a [] = 0.
Proof. by destruct a. Qed.

(** ** Reversal, appending *)

Lemma sublist_reverse a b : a `sublist_of` b -> reverse a `sublist_of` reverse b.
Proof.
  intros H. induction H as [|x a b H IH | x a b H IH]; [done | |]; rewrite !reverse_cons.
  - by apply sublist_app.
  - etransitivity; [apply IH | apply sublist_inserts_r; done].
Qed.

Lemma lcs_reverse a b : lcs (reverse a) (reverse b) = lcs a b.
Proof.
  apply lcs_eq. destruct (lcs_is_lcs a b) as [(s & [H1 H2] & Hl) Hmax]. split.
  - exists (reverse s). split; [split; by apply sublist_reverse | by rewrite length_reverse].
  - intros t [T1 T2]. rewrite <- (length_reverse t). apply Hmax.
    split; [rewrite <- (reverse_involutive a) | rewrite <- (reverse_involutive b)]; by apply sublist_reverse.
Qed.

(** The equations of the dynamic programming. *)
Lemma lcs_snoc_eq a b x : lcs (a ++ [x]) (b ++ [x]) = S (lcs a b).
Proof.
  rewrite <- lcs_reverse, !reverse_snoc. cbn [lcs]. rewrite decide_True by done. by rewrite lcs_reverse.
Qed.

Lemma lcs_cons_ne x y a b :
  x <> y -> lcs (x :: a) (y :: b) = lcs (x :: a) b `max` lcs a (y :: b).
Proof. intros H. cbn [lcs]. by rewrite decide_False. Qed.

Lemma lcs_snoc_ne a b x y :
  x <> y -> lcs (a ++ [x]) (b ++ [y]) = lcs (a ++ [x]) b `max` lcs a (b ++ [y]).
Proof.
  intros H. rewrite <- (lcs_reverse (a ++ [x]) (b ++ [y])), !reverse_snoc, lcs_cons_ne by done.
  rewrite <- (reverse_snoc a), <- (reverse_snoc b), !lcs_reverse. done.
Qed.

Lemma lcs_app_le a1 a2 b1 b2 : lcs a1 b1 + lcs a2 b2 <= lcs (a1 ++ a2) (b1 ++ b2).
Proof.
  destruct (lcs_common a1 b1) as (s & [H1 H2] & <-), (lcs_common a2 b2) as (t & [T1 T2] & <-).
  rewrite <- length_app. apply common_le. split; by apply sublist_app.
Qed.

(** Hirschberg's equation: some cut of [c] is optimal. *)
Lemma lcs_app_split a b c :
  exists k, k <= length c /\ lcs (a ++ b) c = lcs a (take k c) + lcs b (drop k c).
Proof.
  destruct (lcs_common (a ++ b) c) as (s & [H1 H2] & Hl).
  apply sublist_app_r in H1 as (s1 & s2 & -> & H1 & H1').
  apply sublist_app_l in H2 as (c1 & c2 & -> & H2 & H2').
  exists (length c1). rewrite length_app. split; [lia |].
  rewrite take_app_length, drop_app_length.
  pose proof (lcs_app_le a b c1 c2). pose proof (common_le s1 a c1 (conj H1 H2)).
  pose proof (common_le s2 b c2 (conj H1' H2')). rewrite length_app in Hl. lia.
Qed.

(** Equal ends can be put aside. *)
Lemma lcs_prefix p a b : lcs (p ++ a) (p ++ b) = length p + lcs a b.
Proof.
  induction p as [|x p IH]; [done |]. cbn [app lcs length]. rewrite decide_True by done. rewrite IH. lia.
Qed.

Lemma lcs_suffix a b q : lcs (a ++ q) (b ++ q) = lcs a b + length q.
Proof.
  rewrite <- lcs_reverse, !reverse_app, lcs_prefix, lcs_reverse, length_reverse. lia.
Qed.

(** One line against a list. *)
Lemma lcs_singleton_in x b : x ∈ b -> lcs [x] b = 1.
Proof.
  intros H. apply lcs_eq. split.
  - exists [x]. split; [split; [done | by apply singleton_sublist_l] | done].
  - intros s [Hs _]. apply sublist_length in Hs. done.
Qed.

Lemma lcs_singleton_notin x b : x ∉ b -> lcs [x] b = 0.
Proof.
  intros H. apply lcs_eq. split.
  - exists []. split; [split; apply sublist_nil_l | done].
  - intros s [H1 H2]. destruct s as [|y s]; [done |]. exfalso. apply H.
    assert (y ∈ [x]) as Hy by (eapply sublist_subseteq; [done | by left]).
    apply list_elem_of_singleton in Hy as ->. eapply sublist_subseteq; [done | by left].
Qed.

Lemma lcs_comm a b : lcs a b = lcs b a.
Proof.
  apply lcs_eq. destruct (lcs_is_lcs b a) as [(s & [H1 H2] & Hl) Hmax]. split.
  - by exists s.
  - intros t [T1 T2]. by apply Hmax.
Qed.
End Lcs.
