(* ===== verification/Consdiff.v ===== *)
(** * consdiff.c: consensus diffs of the embedded Tor

    A model of [src/src/tor/src/feature/dircommon/consdiff.c]: splitting a
    consensus into lines, finding the lines that differ, writing an ed script,
    applying one, and the digests around it; with the helpers it calls from
    [lib/encoding/binascii.c], [lib/string/parse_int.c] and
    [lib/smartlist_core/smartlist_split.c].

    A line is the list of its octets.  A routine returns [Ok], or [Null] where the
    source returns NULL or an error code, or [Crash] where an assertion fails, an
    index is out of range or the fuel of a loop runs out; [ConsdiffTheorems.v]
    shows that the latter never happens.  The two digests are parameters. *)

From S2P Require Import Prelude.
From Stdlib Require Strings.Ascii Strings.String.
Import Strings.String.StringSyntax.
#[local] Open Scope Z_scope.

(** ** Results *)

Inductive res (A : Type) : Type :=
  | Ok (a : A)
  | Null
  | Crash.
Arguments Ok {A} a.
Arguments Null {A}.
Arguments Crash {A}.

#[export] Instance res_ret : MRet res := @Ok.
#[export] Instance res_bind : MBind res := fun A B k m =>
  match m with Ok a => k a | Null => Null | Crash => Crash end.

(** [tor_assert]. *)
Definition check (b : bool) : res unit := if b then Ok tt else Crash.

(** [smartlist_get] and other indexed reads. *)
Definition get {A} (l : list A) (i : nat) : res A :=
  match l !! i with Some x => Ok x | None => Crash end.

(** Indexed write. *)
Definition set_at {A} (i : nat) (x : A) (l : list A) : res (list A) :=
  if (i <? length l)%nat then Ok (<[i := x]> l) else Crash.

(** [for (i = 0; i < n; i++)]. *)
Definition for_res {S : Type} (n : nat) (body : nat -> S -> res S) (s : S) : res S :=
  for_loop n (fun i o => s ← o; body i s) (Ok s).

(** ** Lines *)

Abbreviation line := (list Z).

(** A C string literal. *)
Definition str (s : String.string) : line :=
  (fun a => Z.of_nat (Ascii.nat_of_ascii a)) <$> String.list_ascii_of_string s.
Arguments str s%_string_scope.

Definition ns_diff_version : line := str "network-status-diff-version 1".
Definition hash_token : line := str "hash".

(** [fast_memeq(a, b, n)]. *)
Definition memeq (a b : line) (n : nat) : bool := bool_decide (take n a = take n b).

Definition lines_eq (a b : line) : bool :=
  Nat.eqb (length a) (length b) && memeq a b (length a).

Definition line_str_eq (a b : line) : bool := lines_eq a b.

Definition line_starts_with_str (a b : line) : bool :=
  (length b <=? length a)%nat && memeq a b (length b).

(** ** Slices and longest common subsequences *)

Record slice := Slice { s_list : list line; s_offset : nat; s_len : nat }.

(** [smartlist_slice(list, start, end)] with an explicit end. *)
Definition smartlist_slice (l : list line) (start end_ : nat) : res slice :=
  _ ← check (start <=? length l)%nat;
  _ ← check (start <=? end_)%nat;
  Ok {| s_list := l; s_offset := start; s_len := end_ - start |}.

(** The index visited at step [i] in the given direction. *)
Definition dir_index (s : slice) (forward : bool) (i : nat) : nat :=
  if forward then s_offset s + i else s_offset s + (s_len s - 1) - i.

Definition lcs_lengths (slice1 slice2 : slice) (forward : bool) : res (list Z) :=
  for_res (s_len slice1) (fun i result =>
    line1 ← get (s_list slice1) (dir_index slice1 forward i);
    let prev := result in
    for_res (s_len slice2) (fun j result =>
      line2 ← get (s_list slice2) (dir_index slice2 forward j);
      if lines_eq line1 line2 then
        p ← get prev j;
        set_at (S j) (p + 1) result
      else
        r ← get result j;
        p ← get prev (S j);
        set_at (S j) (Z.max r p) result) result)
    (replicate (S (s_len slice2)) 0).

(** The two loops of [trim_slices]; in the second one the indices [i1] and [i2]
    stay at the last line of each slice. *)
Fixpoint trim_start (fuel : nat) (s1 s2 : slice) : res (slice * slice) :=
  match fuel with
  | O => Crash
  | S fuel =>
      if (0 <? s_len s1)%nat && (0 <? s_len s2)%nat then
        line1 ← get (s_list s1) (s_offset s1);
        line2 ← get (s_list s2) (s_offset s2);
        if negb (lines_eq line1 line2) then Ok (s1, s2)
        else trim_start fuel (Slice (s_list s1) (S (s_offset s1)) (s_len s1 - 1))
                             (Slice (s_list s2) (S (s_offset s2)) (s_len s2 - 1))
      else Ok (s1, s2)
  end.

Fixpoint trim_end (fuel : nat) (s1 s2 : slice) : res (slice * slice) :=
  match fuel with
  | O => Crash
  | S fuel =>
      if (0 <? s_len s1)%nat && (0 <? s_len s2)%nat then
        line1 ← get (s_list s1) (s_offset s1 + s_len s1 - 1);
        line2 ← get (s_list s2) (s_offset s2 + s_len s2 - 1);
        if negb (lines_eq line1 line2) then Ok (s1, s2)
        else trim_end fuel (Slice (s_list s1) (s_offset s1) (s_len s1 - 1))
                           (Slice (s_list s2) (s_offset s2) (s_len s2 - 1))
      else Ok (s1, s2)
  end.

Definition trim_slices (slice1 slice2 : slice) : res (slice * slice) :=
  '(s1, s2) ← trim_start (S (s_len slice1)) slice1 slice2;
  trim_end (S (s_len s1)) s1 s2.

(** First index of the slice whose line equals [string]; -1 is [None]. *)
Fixpoint slice_pos_loop (l : list line) (string : line) (i n : nat) : res (option nat) :=
  match n with
  | O => Ok None
  | S n =>
      el ← get l i;
      if lines_eq el string then Ok (Some i) else slice_pos_loop l string (S i) n
  end.
Definition smartlist_slice_string_pos (s : slice) (string : line) : res (option nat) :=
  slice_pos_loop (s_list s) string (s_offset s) (s_len s).

Definition set_changed (changed1 changed2 : list bool) (slice1 slice2 : slice)
    : res (list bool * list bool) :=
  _ ← check (Nat.eqb (s_len slice1) 0 || Nat.eqb (s_len slice1) 1);
  '(toskip, changed1) ←
    (if Nat.eqb (s_len slice1) 1 then
       line_common ← get (s_list slice1) (s_offset slice1);
       toskip ← smartlist_slice_string_pos slice2 line_common;
       match toskip with
       | None => changed1 ← set_at (s_offset slice1) true changed1; Ok (None, changed1)
       | Some p => Ok (Some p, changed1)
       end
     else Ok (None, changed1));
  changed2 ←
    for_res (s_len slice2) (fun k changed2 =>
      let i := (s_offset slice2 + k)%nat in
      if negb (bool_decide (toskip = Some i)) then set_at i true changed2 else Ok changed2)
      changed2;
  Ok (changed1, changed2).

Definition optimal_column_to_split (top bot slice2 : slice) : res nat :=
  lens_top ← lcs_lengths top slice2 true;
  lens_bot ← lcs_lengths bot slice2 false;
  '(column, _) ←
    for_res (S (s_len slice2)) (fun i '(column, max_sum) =>
      a ← get lens_top i;
      b ← get lens_bot (s_len slice2 - i);
      let sum := a + b in
      if max_sum <? sum then Ok (i, sum) else Ok (column, max_sum)) (0%nat, -1);
  Ok column.

(** The recursion halves the first slice, so its length bounds the depth. *)
Fixpoint calc_changes (fuel : nat) (slice1 slice2 : slice) (changed1 changed2 : list bool)
    : res (list bool * list bool) :=
  match fuel with
  | O => Crash
  | S fuel =>
      '(slice1, slice2) ← trim_slices slice1 slice2;
      if (s_len slice1 <=? 1)%nat then set_changed changed1 changed2 slice1 slice2
      else if (s_len slice2 <=? 1)%nat then
        '(changed2, changed1) ← set_changed changed2 changed1 slice2 slice1;
        Ok (changed1, changed2)
      else
        let mid := (s_len slice1 / 2)%nat in
        top ← smartlist_slice (s_list slice1) (s_offset slice1) (s_offset slice1 + mid);
        bot ← smartlist_slice (s_list slice1) (s_offset slice1 + mid)
                (s_offset slice1 + s_len slice1);
        mid2 ← optimal_column_to_split top bot slice2;
        left ← smartlist_slice (s_list slice2) (s_offset slice2) (s_offset slice2 + mid2);
        right ← smartlist_slice (s_list slice2) (s_offset slice2 + mid2)
                  (s_offset slice2 + s_len slice2);
        '(changed1, changed2) ← calc_changes fuel top left changed1 changed2;
        calc_changes fuel bot right changed1 changed2
  end.

(** ** Router lines *)

Definition NOT_VALID_BASE64 : Z := 255.
Definition base64_compare_table : list Z :=
  [255; 255; 255; 255; 255; 255; 255; 255; 255; 255; 255; 255; 255; 255; 255; 255;
   255; 255; 255; 255; 255; 255; 255; 255; 255; 255; 255; 255; 255; 255; 255; 255;
   255; 255; 255; 255; 255; 255; 255; 255; 255; 255; 255; 62; 255; 255; 255; 63;
   52; 53; 54; 55; 56; 57; 58; 59; 60; 61; 255; 255; 255; 255; 255; 255;
   255; 0; 1; 2; 3; 4; 5; 6; 7; 8; 9; 10; 11; 12; 13; 14;
   15; 16; 17; 18; 19; 20; 21; 22; 23; 24; 25; 255; 255; 255; 255; 255;
   255; 26; 27; 28; 29; 30; 31; 32; 33; 34; 35; 36; 37; 38; 39; 40;
   41; 42; 43; 44; 45; 46; 47; 48; 49; 50; 51; 255; 255; 255; 255; 255;
   255; 255; 255; 255; 255; 255; 255; 255; 255; 255; 255; 255; 255; 255; 255; 255;
   255; 255; 255; 255; 255; 255; 255; 255; 255; 255; 255; 255; 255; 255; 255; 255;
   255; 255; 255; 255; 255; 255; 255; 255; 255; 255; 255; 255; 255; 255; 255; 255;
   255; 255; 255; 255; 255; 255; 255; 255; 255; 255; 255; 255; 255; 255; 255; 255;
   255; 255; 255; 255; 255; 255; 255; 255; 255; 255; 255; 255; 255; 255; 255; 255;
   255; 255; 255; 255; 255; 255; 255; 255; 255; 255; 255; 255; 255; 255; 255; 255;
   255; 255; 255; 255; 255; 255; 255; 255; 255; 255; 255; 255; 255; 255; 255; 255;
   255; 255; 255; 255; 255; 255; 255; 255; 255; 255; 255; 255; 255; 255; 255; 255].

Definition base64_value (c : Z) : Z := nth (Z.to_nat c) base64_compare_table NOT_VALID_BASE64.

(** [memchr]: what follows the first occurrence of [c]. *)
Fixpoint after_char (c : Z) (s : line) : option line :=
  match s with
  | [] => None
  | x :: s => if x =? c then Some s else after_char c s
  end.

Fixpoint base64_prefix (s : line) : line :=
  match s with
  | [] => []
  | x :: s => if base64_value x =? NOT_VALID_BASE64 then [] else x :: base64_prefix s
  end.

(** The identity hash of a router line; [None] where the source returns -1. *)
Definition get_id_hash (l : line) : option line :=
  if (length l <? 2)%nat then None
  else
    hash ← after_char 32 (drop 2 l);
    match base64_prefix hash with [] => None | h => Some h end.

Definition is_valid_router_entry (l : line) : bool :=
  if (length l <? 2)%nat || negb (memeq l (str "r ") 2) then false
  else match get_id_hash l with Some _ => true | None => false end.

(** The scan of [next_router]: [cur] is the candidate. *)
Fixpoint next_router_loop (cons : list line) (fuel : nat) (cur : Z) : res Z :=
  match fuel with
  | O => Crash
  | S fuel =>
      let len := Z.of_nat (length cons) in
      if len <=? cur then Ok len
      else
        l ← get cons (Z.to_nat cur);
        if is_valid_router_entry l then Ok cur else next_router_loop cons fuel (cur + 1)
  end.
Definition next_router (cons : list line) (cur : Z) : res Z :=
  let len := Z.of_nat (length cons) in
  _ ← check ((-1 <=? cur) && (cur <? len));
  next_router_loop cons (S (length cons)) (cur + 1).

(** The comparison loop on two octet strings; it reads the first octet of each
    before it tests for the end. *)
Fixpoint base64cmp_loop (a b : line) : res Z :=
  match a, b with
  | ca :: a, cb :: b =>
      let av := base64_value ca in
      let bv := base64_value cb in
      if av =? NOT_VALID_BASE64 then
        if bv =? NOT_VALID_BASE64 then Ok 0 else Ok (-1)
      else if bv =? NOT_VALID_BASE64 then Ok 1
      else if av <? bv then Ok (-1)
      else if bv <? av then Ok 1
      else
        match a, b with
        | [], [] => Ok 0
        | [], _ => Ok (-1)
        | _, [] => Ok 1
        | _, _ => base64cmp_loop a b
        end
  | _, _ => Crash
  end.

(** A hash is [None] when its pointer is NULL. *)
Definition base64cmp (hash1 hash2 : option line) : res Z :=
  match hash1, hash2 with
  | None, None => Ok 0
  | None, Some _ => Ok (-1)
  | Some _, None => Ok 1
  | Some a, Some b => base64cmp_loop a b
  end.

Record router_id_iterator := Iter { last_hash : option line; hash : option line }.
Definition ROUTER_ID_ITERATOR_INIT : router_id_iterator := Iter None None.

Definition find_next_router_line (cons : list line) (idx : Z) (iter : router_id_iterator)
    : res (Z * router_id_iterator) :=
  idx ← next_router cons idx;
  if idx <? Z.of_nat (length cons) then
    let last := hash iter in
    l ← get cons (Z.to_nat idx);
    match get_id_hash l with
    | None => Null
    | Some h =>
        c ← base64cmp (Some h) last;
        if c <=? 0 then Null else Ok (idx, Iter last (Some h))
    end
  else Ok (idx, iter).

(** ** Generating the ed script *)

Definition START_OF_SIGNATURES_SECTION : line := str "directory-signature ".

(** ["%d"] of a non-negative number. *)
Fixpoint dec_loop (fuel : nat) (n : Z) (acc : line) : line :=
  match fuel with
  | O => acc
  | S fuel =>
      let acc := (48 + n mod 10) :: acc in
      if n / 10 =? 0 then acc else dec_loop fuel (n / 10) acc
  end.
Definition dec (n : nat) : line := dec_loop (S n) (Z.of_nat n) [].

(** The index of the first line with the prefix. *)
Fixpoint find_prefix (pre : line) (l : list line) : option nat :=
  match l with
  | [] => None
  | x :: l => if line_starts_with_str x pre then Some O else S <$> find_prefix pre l
  end.

(** The consensus without its signatures, and the command that deletes them. *)
Definition preprocess_consensus (cons : list line) : list line * option line :=
  match find_prefix START_OF_SIGNATURES_SECTION cons with
  | Some dirsig_idx => (take dirsig_idx cons, Some (dec (dirsig_idx + 1) ++ str ",$d"))
  | None => (cons, None)
  end.

Definition MAX_LINE_COUNT : Z := 10000.

Section Gen.
Context (cons1 cons2 : list line).
Definition len1 : Z := Z.of_nat (length cons1).
Definition len2 : Z := Z.of_nat (length cons2).

(** The inner loop: advance the lower position until the hashes match. *)
Fixpoint match_loop (fuel : nat) (i1 i2 : Z) (iter1 iter2 : router_id_iterator) (cmp : Z)
    : res (Z * Z * router_id_iterator * router_id_iterator) :=
  match fuel with
  | O => Crash
  | S fuel =>
      if cmp =? 0 then Ok (i1, i2, iter1, iter2)
      else if (i1 <? len1) && (cmp <? 0) then
        '(i1, iter1) ← find_next_router_line cons1 i1 iter1;
        if i1 =? len1 then Ok (i1, len2, iter1, iter2)
        else
          cmp ← base64cmp (hash iter1) (hash iter2);
          match_loop fuel i1 i2 iter1 iter2 cmp
      else if (i2 <? len2) && (0 <? cmp) then
        '(i2, iter2) ← find_next_router_line cons2 i2 iter2;
        if i2 =? len2 then Ok (len1, i2, iter1, iter2)
        else
          cmp ← base64cmp (hash iter1) (hash iter2);
          match_loop fuel i1 i2 iter1 iter2 cmp
      else Ok (len1, len2, iter1, iter2)
  end.

(** Fuel that is enough for both loops: every iteration moves an index. *)
Definition nav_fuel : nat := length cons1 + length cons2 + 3.

(** The outer loop: cut both lists at common routers and compare the pieces. *)
Fixpoint segment_loop (fuel : nat) (i1 i2 start1 start2 : Z)
    (iter1 iter2 : router_id_iterator) (changed1 changed2 : list bool)
    : res (list bool * list bool) :=
  match fuel with
  | O => Crash
  | S fuel =>
      if (i1 <? len1) || (i2 <? len2) then
        '(i1, iter1) ← (if i1 <? len1 then find_next_router_line cons1 i1 iter1
                        else Ok (i1, iter1));
        '(i2, iter2) ← (if i2 <? len2 then find_next_router_line cons2 i2 iter2
                        else Ok (i2, iter2));
        '(i1, i2, iter1, iter2) ←
          (if (i1 <? len1) || (i2 <? len2) then
             cmp ← base64cmp (hash iter1) (hash iter2);
             match_loop nav_fuel i1 i2 iter1 iter2 cmp
           else Ok (i1, i2, iter1, iter2));
        if (MAX_LINE_COUNT <? i1 - start1) || (MAX_LINE_COUNT <? i2 - start2) then Null
        else
          sl1 ← smartlist_slice cons1 (Z.to_nat start1) (Z.to_nat i1);
          sl2 ← smartlist_slice cons2 (Z.to_nat start2) (Z.to_nat i2);
          '(changed1, changed2) ← calc_changes (S (s_len sl1)) sl1 sl2 changed1 changed2;
          segment_loop fuel i1 i2 i1 i2 iter1 iter2 changed1 changed2
      else Ok (changed1, changed2)
  end.

(** *** Writing the commands, from the end *)

(** [n] stands for the index n - 1; the start of the run of changed lines that
    ends there. *)
Fixpoint run_start (changed : list bool) (n : nat) : res nat :=
  match n with
  | O => Ok O
  | S m => c ← get changed m; if (c : bool) then run_start changed m else Ok n
  end.

Definition is_changed (changed : list bool) (n : nat) : res bool :=
  match n with O => Ok false | S m => get changed m end.

(** The lines [start2x .. end2] of the target; a line "." cannot be added. *)
Fixpoint added_lines (i n : nat) : res (list line) :=
  match n with
  | O => Ok []
  | S n =>
      l ← get cons2 i;
      if line_str_eq l (str ".") then Null
      else rest ← added_lines (S i) n; Ok (l :: rest)
  end.

(** The command for [deleted] lines from [start1x] and [added] lines. *)
Definition command (start1x deleted : nat) (added : bool) : line :=
  if added then
    match deleted with
    | O => dec start1x ++ str "a"
    | S O => dec (start1x + 1) ++ str "c"
    | _ => dec (start1x + 1) ++ str "," ++ dec (start1x + deleted) ++ str "c"
    end
  else
    match deleted with
    | S O => dec (start1x + 1) ++ str "d"
    | _ => dec (start1x + 1) ++ str "," ++ dec (start1x + deleted) ++ str "d"
    end.

(** The loop over both lists; [n1] and [n2] stand for i1 + 1 and i2 + 1. *)
Fixpoint emit_loop (fuel : nat) (changed1 changed2 : list bool) (n1 n2 : nat)
    (result : list line) : res (list line) :=
  match fuel with
  | O => Crash
  | S fuel =>
      if (0 <? n1)%nat || (0 <? n2)%nat then
        c1 ← is_changed changed1 n1;
        c2 ← is_changed changed2 n2;
        if negb c1 && negb c2 then
          emit_loop fuel changed1 changed2 (n1 - 1) (n2 - 1) result
        else
          m1 ← run_start changed1 n1;
          m2 ← run_start changed2 n2;
          let start1x := m1 in
          let start2x := m2 in
          let added := (n2 - m2)%nat in
          let deleted := (n1 - m1)%nat in
          if Nat.eqb added 0 then
            emit_loop fuel changed1 changed2 m1 m2 (result ++ [command start1x deleted false])
          else
            new ← added_lines start2x added;
            emit_loop fuel changed1 changed2 m1 m2
              (result ++ [command start1x deleted true] ++ new ++ [str "."])
      else Ok result
  end.
End Gen.

Definition gen_ed_diff (cons1_orig cons2 : list line) : res (list line) :=
  let '(cons1, remove_trailer) := preprocess_consensus cons1_orig in
  let result := match remove_trailer with Some t => [t] | None => [] end in
  '(changed1, changed2) ←
    segment_loop cons1 cons2 (nav_fuel cons1 cons2) (-1) (-1) 0 0
      ROUTER_ID_ITERATOR_INIT ROUTER_ID_ITERATOR_INIT
      (replicate (length cons1) false) (replicate (length cons2) false);
  emit_loop cons2 (S (length cons1 + length cons2)) changed1 changed2
    (length cons1) (length cons2) result.

(** ** Applying an ed script *)

Definition INT32_MAX : Z := 0x7fffffff.
Definition TOR_ISDIGIT (c : Z) : bool := (48 <=? c) && (c <=? 57).

(** [strtol] in base 10 on a string that starts with a digit: the value of the
    longest run of digits, and what follows it. *)
Fixpoint strtol_digits (acc : Z) (s : line) : Z * line :=
  match s with
  | c :: s' => if TOR_ISDIGIT c then strtol_digits (10 * acc + (c - 48)) s' else (acc, s)
  | [] => (acc, [])
  end.

(** [tor_parse_long(s, 10, min, max, &ok, &next)] on such a string; [None] when
    [ok] is 0.  A value that overflows a [long] is out of [min .. max] as well. *)
Definition tor_parse_long (s : line) (min max : Z) : option (Z * line) :=
  let '(r, next) := strtol_digits 0 s in
  if (r <? min) || (max <? r) then None else Some (r, next).

Definition get_linenum (s : line) : option (Z * line) :=
  if negb (TOR_ISDIGIT (hd 0 s)) then None else tor_parse_long s 0 INT32_MAX.

(** A parsed command: start, end, action. *)
Record ed_command := EdCommand { ed_start : Z; ed_end : Z; ed_action : Z }.

Definition char_a : Z := 97.
Definition char_c : Z := 99.
Definition char_d : Z := 100.

(** The parsing and checking of a command line; [n] is the length of the base
    consensus and [j] the lines of it still to be written.  The line is used as a
    NUL-terminated string, so reading past its end gives 0. *)
Definition parse_command (l : line) (n j : Z) : option ed_command :=
  if 127 <? Z.of_nat (length l) then None else
  '(start, ptr) ← get_linenum l;
  '(end_, had_range, end_was_eof, ptr) ←
    (if hd 0 ptr =? 44 then
       let ptr := tail ptr in
       '(end_, eof, ptr) ←
         (if hd 0 ptr =? 36 then Some (n, true, tail ptr)
          else '(e, p) ← get_linenum ptr; Some (e, false, p));
       if end_ <=? start then None else Some (end_, true, eof, ptr)
     else Some (start, false, false, ptr));
  if j <? end_ then None else
  if hd 0 ptr =? 0 then None else
  if negb (hd 0 (tail ptr) =? 0) then None else
  let action := hd 0 ptr in
  if negb ((action =? char_a) || (action =? char_c) || (action =? char_d)) then None else
  if (end_was_eof : bool) && negb (action =? char_d) then None else
  if (had_range : bool) && (action =? char_a) then None else
  Some {| ed_start := start; ed_end := end_; ed_action := action |}.

(** [for (; j > end; --j) smartlist_add(cons2, cons1[j-1])]: the lines added. *)
Fixpoint copy_lines (cons1 : list line) (count : nat) (j : Z) : res (list line) :=
  match count with
  | O => Ok []
  | S count =>
      l ← get cons1 (Z.to_nat (j - 1));
      rest ← copy_lines cons1 count (j - 1);
      Ok (l :: rest)
  end.

(** The lines before the terminating ".", and the script after it. *)
Fixpoint until_dot (diff : list line) : option (list line * list line) :=
  match diff with
  | [] => None
  | l :: diff =>
      if line_str_eq l (str ".") then Some ([], diff)
      else '(body, rest) ← until_dot diff; Some (l :: body, rest)
  end.

(** The loop over the script ([diff] is what is left of it).  [acc] is [cons2],
    which is built from its last line backwards. *)
Fixpoint apply_loop (cons1 : list line) (fuel : nat) (diff : list line) (j : Z)
    (acc : list line) : res (list line) :=
  match fuel with
  | O => Crash
  | S fuel =>
      match diff with
      | [] =>
          rest ← copy_lines cons1 (Z.to_nat j) j;
          Ok (reverse (acc ++ rest))
      | l :: diff =>
          match parse_command l (Z.of_nat (length cons1)) j with
          | None => Null
          | Some cmd =>
              kept ← copy_lines cons1 (Z.to_nat (j - ed_end cmd)) j;
              let acc := acc ++ kept in
              let j := Z.min j (ed_end cmd) in
              (* while (--j >= start); *)
              let j :=
                if (ed_action cmd =? char_c) || (ed_action cmd =? char_d) then
                  Z.min (j - 1) (ed_start cmd - 1)
                else j in
              if (ed_action cmd =? char_a) || (ed_action cmd =? char_c) then
                match until_dot diff with
                | None => Null
                | Some ([], _) => Null
                | Some (body, rest) => apply_loop cons1 fuel rest j (acc ++ reverse body)
                end
              else apply_loop cons1 fuel diff j acc
          end
      end
  end.

Definition apply_ed_diff (cons1 diff : list line) (diff_starting_line : nat) : res (list line) :=
  apply_loop cons1 (S (length diff)) (drop diff_starting_line diff)
    (Z.of_nat (length cons1)) [].

(** ** Digests and documents *)

Definition DIGEST256_LEN : nat := 32.
Definition HEX_DIGEST256_LEN : nat := 64.

Definition hex_digits : line := str "0123456789ABCDEF".
Definition base16_encode (src : line) : line :=
  src ≫= fun b => [nth (Z.to_nat (b >> 4)) hex_digits 0; nth (Z.to_nat (b & 0xf)) hex_digits 0].

(** -1 is [None]. *)
Definition hex_decode_digit (c : Z) : option Z :=
  if (48 <=? c) && (c <=? 57) then Some (c - 48)
  else if (65 <=? c) && (c <=? 70) then Some (c - 55)
  else if (97 <=? c) && (c <=? 102) then Some (c - 87)
  else None.

Fixpoint base16_decode_loop (src : line) : option line :=
  match src with
  | c1 :: c2 :: src =>
      v1 ← hex_decode_digit c1;
      v2 ← hex_decode_digit c2;
      rest ← base16_decode_loop src;
      Some (((v1 << 4) .| v2) :: rest)
  | _ => Some []
  end.
Definition base16_decode (destlen : nat) (src : line) : option line :=
  if negb (Nat.even (length src)) then None
  else if (destlen <? length src / 2)%nat then None
  else base16_decode_loop src.

(** The C string in a buffer: the octets before the first NUL. *)
Fixpoint c_string (s : line) : line :=
  match s with
  | [] => []
  | x :: s => if x =? 0 then [] else x :: c_string s
  end.

(** [smartlist_split_string(sl, str, " ", 0, 0)]. *)
Fixpoint split_space (s : line) (cur : line) : list line :=
  match s with
  | [] => [reverse cur]
  | x :: s => if x =? 32 then reverse cur :: split_space s [] else split_space s (x :: cur)
  end.
Definition smartlist_split_string (s : line) : list line := split_space s [].

Definition consdiff_gen_diff (cons1 cons2 : list line) (digest1 digest2 : line)
    : res (list line) :=
  ed_diff ← gen_ed_diff cons1 cons2;
  ed_cons2 ← apply_ed_diff cons1 ed_diff 0;
  let cons2_eq :=
    Nat.eqb (length cons2) (length ed_cons2) &&
    forallb (fun '(l1, l2) => lines_eq l1 l2) (zip cons2 ed_cons2) in
  if negb cons2_eq then Null
  else
    Ok ([ns_diff_version;
         hash_token ++ str " " ++ base16_encode digest1 ++ str " " ++ base16_encode digest2]
        ++ ed_diff).

(** 1, the error code, is [Null]. *)
Definition consdiff_get_digests (diff : list line) : res (line * line) :=
  if (length diff <? 2)%nat then Null
  else
    format ← get diff 0;
    if negb (line_str_eq format ns_diff_version) then Null
    else
      line2 ← get diff 1;
      let hash_words := smartlist_split_string (c_string line2) in
      match hash_words with
      | [tok; cons1_hash_hex; cons2_hash_hex] =>
          if negb (bool_decide (tok = hash_token)) then Null
          else if negb (Nat.eqb (length cons1_hash_hex) HEX_DIGEST256_LEN
                        && Nat.eqb (length cons2_hash_hex) HEX_DIGEST256_LEN) then Null
          else
            match base16_decode DIGEST256_LEN cons1_hash_hex,
                  base16_decode DIGEST256_LEN cons2_hash_hex with
            | Some d1, Some d2 =>
                if Nat.eqb (length d1) DIGEST256_LEN && Nat.eqb (length d2) DIGEST256_LEN
                then Ok (d1, d2) else Null
            | _, _ => Null
            end
      | _ => Null
      end.

Definition CONSENSUS_LINE_MAX_LEN : nat := Z.to_nat (1 << 20).

(** [memchr(s, '\n', ..)]: the line and what follows its newline. *)
Fixpoint cut_line (s : line) : option (line * line) :=
  match s with
  | [] => None
  | x :: s => if x =? 10 then Some ([], s) else '(l, rest) ← cut_line s; Some (x :: l, rest)
  end.

(** -1 is [Null]. *)
Fixpoint split_lines_loop (fuel : nat) (s : line) (out : list line) : res (list line) :=
  match fuel with
  | O => Crash
  | S fuel =>
      match s with
      | [] => Ok out
      | _ =>
          match cut_line s with
          | None => Null
          | Some (l, rest) =>
              if (CONSENSUS_LINE_MAX_LEN <? length l)%nat then Null
              else split_lines_loop fuel rest (out ++ [l])
          end
      end
  end.
Definition consensus_split_lines (s : line) : res (list line) :=
  split_lines_loop (S (length s)) s [].

Definition consensus_join_lines (inp : list line) : line := inp ≫= fun l => l ++ [10].

Section Digests.
(** SHA3-256 of a document and of its signed part ([crypto_digest256] and
    [router_get_networkstatus_v3_sha3_as_signed]); [None] is a failure. *)
Context (compute_digest compute_digest_as_signed : line -> option line).

Definition consdiff_apply_diff (cons1 diff : list line) (digest1 : line) : res line :=
  '(e_cons1_hash, e_cons2_hash) ← consdiff_get_digests diff;
  if negb (bool_decide (digest1 = e_cons1_hash)) then Null
  else
    cons2 ← apply_ed_diff cons1 diff 2;
    let cons2_str := c_string (consensus_join_lines cons2) in
    match compute_digest cons2_str with
    | None => Null
    | Some cons2_digest =>
        if negb (bool_decide (cons2_digest = e_cons2_hash)) then Null
        else Ok cons2_str
    end.

Definition consensus_diff_generate (cons1 cons2 : line) : res line :=
  match compute_digest_as_signed cons1, compute_digest cons2 with
  | Some d1, Some d2 =>
      lines1 ← consensus_split_lines cons1;
      lines2 ← consensus_split_lines cons2;
      result ← consdiff_gen_diff lines1 lines2 d1 d2;
      Ok (consensus_join_lines result)
  | _, _ => Null
  end.

Definition consensus_diff_apply (consensus diff : line) : res line :=
  match compute_digest_as_signed consensus with
  | None => Null
  | Some d1 =>
      lines1 ← consensus_split_lines consensus;
      lines2 ← consensus_split_lines diff;
      consdiff_apply_diff lines1 lines2 d1
  end.
End Digests.

Definition looks_like_a_consensus_diff (document : line) : bool :=
  (length ns_diff_version <=? length document)%nat
  && memeq document ns_diff_version (length ns_diff_version).
