(* ===== verification/ConsdiffCalc.v ===== *)
(** * consdiff.c: which lines changed

    [calc_changes] marks lines as changed so that, reading both slices without
    the marked lines, the same text remains; it never fails. *)

From S2P Require Import Prelude Consdiff.
#[local] Open Scope nat_scope.

(** ** The result monad *)

Lemma rbind_Ok {A B} (x : A) (k : A -> res B) : (Ok x ≫= k) = k x.
Proof. done. Qed.

Ltac rbind := repeat (rewrite rbind_Ok; cbv beta iota zeta).

Lemma get_Some {A} (l : list A) i x : l !! i = Some x -> get l i = Ok x.
Proof. unfold get. by intros ->. Qed.

Lemma get_lt {A} (l : list A) i : i < length l -> exists x, get l i = Ok x /\ l !! i = Some x.
Proof. intros H. destruct (lookup_lt_is_Some_2 l i H) as [x Hx]. exists x. by rewrite (get_Some _ _ _ Hx). Qed.

Lemma set_at_lt {A} i (x : A) l : i < length l -> set_at i x l = Ok (<[i := x]> l).
Proof. intros H. unfold set_at. by rewrite (proj2 (Nat.ltb_lt _ _) H). Qed.

Lemma for_res_S {S} n (body : nat -> S -> res S) s :
  for_res (Datatypes.S n) body s = (s ← for_res n body s; body n s).
Proof. unfold for_res. by rewrite for_loop_S. Qed.

(** Invariant rule: a body that succeeds under the invariant keeps the loop going. *)
Lemma for_res_ind {S} (P : nat -> S -> Prop) n (body : nat -> S -> res S) s :
  P 0 s ->
  (forall i s, i < n -> P i s -> exists s', body i s = Ok s' /\ P (Datatypes.S i) s') ->
  exists s', for_res n body s = Ok s' /\ P n s'.
Proof.
  intros H0 Hstep. induction n as [|n IH]; [by exists s |].
  destruct IH as (s1 & E1 & H1); [intros; apply Hstep; auto with lia |].
  destruct (Hstep n s1) as (s2 & E2 & H2); [lia | done |].
  exists s2. by rewrite for_res_S, E1, rbind_Ok.
Qed.

Lemma lines_eq_spec a b : lines_eq a b = true <-> a = b.
Proof.
  unfold lines_eq, memeq. rewrite andb_true_iff, Nat.eqb_eq, bool_decide_eq_true. split.
  - intros [Hl Ht]. rewrite (take_ge a), (take_ge b) in Ht by lia. done.
  - by intros ->.
Qed.

(** ** Lines left unmarked *)

(** The lines of [l] in the range [off .. off + n - 1] that are not marked in [c]. *)
Definition unch (c : list bool) (l : list line) (off n : nat) : list line :=
  seq off n ≫= fun i => match c !! i with Some false => option_list (l !! i) | _ => [] end.

Lemma unch_app c l off a b : unch c l off (a + b) = unch c l off a ++ unch c l (off + a) b.
Proof. unfold unch. by rewrite seq_app, bind_app. Qed.

Lemma unch_0 c l off : unch c l off 0 = [].
Proof. done. Qed.

Lemma unch_1 c l off :
  unch c l off 1 = match c !! off with Some false => option_list (l !! off) | _ => [] end.
Proof. unfold unch. cbn. apply app_nil_r. Qed.

Lemma unch_ext c c' l l' off off' n :
  (forall k, k < n -> c !! (off + k) = c' !! (off' + k) /\ l !! (off + k) = l' !! (off' + k)) ->
  unch c l off n = unch c' l' off' n.
Proof.
  revert off off'. induction n as [|n IH]; intros off off' H; [done |].
  replace (S n) with (1 + n) by lia. rewrite !unch_app, !unch_1.
  destruct (H 0) as [Hc Hl]; [lia |]. rewrite !Nat.add_0_r in Hc, Hl. rewrite Hc, Hl. f_equal.
  apply IH. intros k Hk. rewrite <- !Nat.add_assoc. apply H. lia.
Qed.

Lemma unch_marked c l off n :
  (forall k, k < n -> c !! (off + k) = Some true) -> unch c l off n = [].
Proof.
  revert off. induction n as [|n IH]; intros off H; [done |].
  replace (S n) with (1 + n) by lia. rewrite unch_app, unch_1.
  specialize (H 0) as H0. rewrite Nat.add_0_r in H0. rewrite H0 by lia. cbn.
  apply IH. intros k Hk. rewrite <- Nat.add_assoc. apply H. lia.
Qed.

(** ** Specification of a marking step *)

Definition slice_ok (s : slice) (c : list bool) : Prop :=
  s_offset s + s_len s <= length (s_list s) /\ length (s_list s) = length c.

(** No line of the slice is marked yet. *)
Definition clean (s : slice) (c : list bool) : Prop :=
  forall k, k < s_len s -> c !! (s_offset s + k) = Some false.

(** [c'] differs from [c] only inside the slice. *)
Definition only_in (s : slice) (c c' : list bool) : Prop :=
  length c' = length c /\
  forall i, i < s_offset s \/ s_offset s + s_len s <= i -> c' !! i = c !! i.

Definition unch_slice (s : slice) (c : list bool) : list line :=
  unch c (s_list s) (s_offset s) (s_len s).

(** Marking the lines of two slices so that the same lines remain. *)
Definition marks (s1 s2 : slice) (c1 c2 : list bool) (r : list bool * list bool) : Prop :=
  only_in s1 c1 r.1 /\ only_in s2 c2 r.2 /\ unch_slice s1 r.1 = unch_slice s2 r.2.

Lemma only_in_refl s c : only_in s c c.
Proof. by split. Qed.

(** ** Trimming *)

(** [t1] and [t2] are [s1] and [s2] without [a] equal lines at the start and [b]
    equal lines at the end. *)
Definition trimmed (s1 s2 t1 t2 : slice) : Prop :=
  exists a b, s_list t1 = s_list s1 /\ s_list t2 = s_list s2
    /\ s_offset t1 = s_offset s1 + a /\ s_offset t2 = s_offset s2 + a
    /\ s_len s1 = a + s_len t1 + b /\ s_len s2 = a + s_len t2 + b
    /\ (forall k, k < a -> s_list s1 !! (s_offset s1 + k) = s_list s2 !! (s_offset s2 + k))
    /\ (forall k, k < b -> s_list s1 !! (s_offset t1 + s_len t1 + k)
                         = s_list s2 !! (s_offset t2 + s_len t2 + k)).

Lemma trimmed_refl s1 s2 : trimmed s1 s2 s1 s2.
Proof. exists 0, 0. repeat split; lia. Qed.

Lemma trim_start_spec fuel s1 s2 c1 c2 :
  slice_ok s1 c1 -> slice_ok s2 c2 -> s_len s1 < fuel ->
  exists t1 t2, trim_start fuel s1 s2 = Ok (t1, t2)
    /\ exists a, s_list t1 = s_list s1 /\ s_list t2 = s_list s2
    /\ s_offset t1 = s_offset s1 + a /\ s_offset t2 = s_offset s2 + a
    /\ s_len s1 = a + s_len t1 /\ s_len s2 = a + s_len t2
    /\ forall k, k < a -> s_list s1 !! (s_offset s1 + k) = s_list s2 !! (s_offset s2 + k).
Proof.
  revert s1 s2. induction fuel as [|fuel IH]; intros s1 s2 [H1 L1] [H2 L2] Hf; [lia |].
  cbn [trim_start].
  destruct (_ && _) eqn:E; [| exists s1, s2; split; [done |]; exists 0; repeat split; lia].
  rewrite andb_true_iff, !Nat.ltb_lt in E.
  destruct (get_lt (s_list s1) (s_offset s1)) as (x & Ex & Hx); [lia |].
  destruct (get_lt (s_list s2) (s_offset s2)) as (y & Ey & Hy); [lia |].
  rewrite Ex, Ey. rbind. destruct (lines_eq x y) eqn:Exy; cbn [negb].
  2: { exists s1, s2. split; [done |]. exists 0. repeat split; lia. }
  apply lines_eq_spec in Exy as ->.
  destruct (IH (Slice (s_list s1) (S (s_offset s1)) (s_len s1 - 1))
               (Slice (s_list s2) (S (s_offset s2)) (s_len s2 - 1)))
    as (t1 & t2 & -> & a & E1 & E2 & O1 & O2 & N1 & N2 & Heq); [by split; cbn; lia.. | cbn; lia |].
  exists t1, t2. split; [done |]. cbn in *. exists (S a). repeat split; try done; try lia.
  intros [|k] Hk; [by rewrite !Nat.add_0_r, Hx, Hy |].
  rewrite !Nat.add_succ_r. apply Heq. lia.
Qed.

Lemma trim_end_spec fuel s1 s2 c1 c2 :
  slice_ok s1 c1 -> slice_ok s2 c2 -> s_len s1 < fuel ->
  exists t1 t2, trim_end fuel s1 s2 = Ok (t1, t2)
    /\ exists b, s_list t1 = s_list s1 /\ s_list t2 = s_list s2
    /\ s_offset t1 = s_offset s1 /\ s_offset t2 = s_offset s2
    /\ s_len s1 = s_len t1 + b /\ s_len s2 = s_len t2 + b
    /\ forall k, k < b -> s_list s1 !! (s_offset t1 + s_len t1 + k)
                        = s_list s2 !! (s_offset t2 + s_len t2 + k).
Proof.
  revert s1 s2. induction fuel as [|fuel IH]; intros s1 s2 [H1 L1] [H2 L2] Hf; [lia |].
  cbn [trim_end].
  destruct (_ && _) eqn:E; [| exists s1, s2; split; [done |]; exists 0; repeat split; lia].
  rewrite andb_true_iff, !Nat.ltb_lt in E.
  destruct (get_lt (s_list s1) (s_offset s1 + s_len s1 - 1)) as (x & Ex & Hx); [lia |].
  destruct (get_lt (s_list s2) (s_offset s2 + s_len s2 - 1)) as (y & Ey & Hy); [lia |].
  rewrite Ex, Ey. rbind. destruct (lines_eq x y) eqn:Exy; cbn [negb].
  2: { exists s1, s2. split; [done |]. exists 0. repeat split; lia. }
  apply lines_eq_spec in Exy as ->.
  destruct (IH (Slice (s_list s1) (s_offset s1) (s_len s1 - 1))
               (Slice (s_list s2) (s_offset s2) (s_len s2 - 1)))
    as (t1 & t2 & -> & b & E1 & E2 & O1 & O2 & N1 & N2 & Heq); [by split; cbn; lia.. | cbn; lia |].
  exists t1, t2. split; [done |]. cbn in *. exists (S b). repeat split; try done; try lia.
  intros k Hk. destruct (decide (k < b)); [by apply Heq |].
  replace (s_offset t1 + s_len t1 + k) with (s_offset s1 + s_len s1 - 1) by lia.
  replace (s_offset t2 + s_len t2 + k) with (s_offset s2 + s_len s2 - 1) by lia. by rewrite Hx, Hy.
Qed.

Lemma trim_slices_spec s1 s2 c1 c2 :
  slice_ok s1 c1 -> slice_ok s2 c2 ->
  exists t1 t2, trim_slices s1 s2 = Ok (t1, t2) /\ trimmed s1 s2 t1 t2.
Proof.
  intros Hs1 Hs2. unfold trim_slices.
  destruct (trim_start_spec (S (s_len s1)) s1 s2 c1 c2)
    as (u1 & u2 & -> & a & E1 & E2 & O1 & O2 & N1 & N2 & Ha); [done.. | lia |].
  rbind. destruct Hs1 as [H1 L1], Hs2 as [H2 L2].
  destruct (trim_end_spec (S (s_len u1)) u1 u2 c1 c2)
    as (t1 & t2 & -> & b & F1 & F2 & P1 & P2 & M1 & M2 & Hb);
    [by split; rewrite ?E1; lia | by split; rewrite ?E2; lia | lia |].
  exists t1, t2. split; [done |]. exists a, b. repeat split; try congruence; try lia; try done.
  intros k Hk. rewrite <- E1, <- E2. by apply Hb.
Qed.

(** Marking the trimmed slices marks the slices. *)
Lemma trimmed_marks s1 s2 t1 t2 c1 c2 r :
  trimmed s1 s2 t1 t2 -> clean s1 c1 -> clean s2 c2 -> marks t1 t2 c1 c2 r -> marks s1 s2 c1 c2 r.
Proof.
  intros (a & b & E1 & E2 & O1 & O2 & N1 & N2 & Ha & Hb) Hc1 Hc2 ([L1 F1] & [L2 F2] & Hu).
  split; [split; [done |]; intros i Hi; apply F1; lia |].
  split; [split; [done |]; intros i Hi; apply F2; lia |].
  unfold unch_slice in *. rewrite N1, N2, !unch_app. rewrite E1, E2, O1, O2 in Hu.
  f_equal; [f_equal |].
  - apply unch_ext. intros k Hk. split; [| by apply Ha].
    rewrite F1, F2, Hc1, Hc2 by lia. done.
  - done.
  - apply unch_ext. intros k Hk. split.
    + rewrite F1, F2 by lia. rewrite <- !Nat.add_assoc, Hc1, Hc2 by lia. done.
    + rewrite !Nat.add_assoc, <- O1, <- O2. by apply Hb.
Qed.

(** ** Marking one line against a slice *)

(** The position found is the first line of the range equal to the string. *)
Lemma slice_pos_loop_spec l string i n :
  i + n <= length l ->
  (slice_pos_loop l string i n = Ok None /\ forall k, k < n -> l !! (i + k) <> Some string)
  \/ exists p, slice_pos_loop l string i n = Ok (Some p) /\ i <= p < i + n /\ l !! p = Some string.
Proof.
  revert i. induction n as [|n IH]; intros i Hi; cbn [slice_pos_loop]; [left; split; [done | lia] |].
  destruct (get_lt l i) as (x & -> & Hx); [lia |]. rbind.
  destruct (lines_eq x string) eqn:E.
  { apply lines_eq_spec in E as ->. right. exists i. split; [done |]. split; [lia | done]. }
  assert (x <> string) by (intros ->; by rewrite (proj2 (lines_eq_spec string string)) in E).
  destruct (IH (S i)) as [[-> Hno] | (p & -> & Hp & Hl)]; [lia | |].
  - left. split; [done |]. intros [|k] Hk; [rewrite Nat.add_0_r; congruence |].
    rewrite Nat.add_succ_r. apply Hno. lia.
  - right. exists p. split; [done |]. split; [lia | done].
Qed.

(** The loop of [set_changed]: mark the slice, one position excepted. *)
Lemma mark_all_spec (skip : option nat) s c :
  slice_ok s c -> clean s c ->
  exists c', for_res (s_len s) (fun k c =>
      if negb (bool_decide (skip = Some (s_offset s + k))) then set_at (s_offset s + k) true c
      else Ok c) c = Ok c'
    /\ only_in s c c'
    /\ forall k, k < s_len s -> c' !! (s_offset s + k) = Some (negb (bool_decide (skip = Some (s_offset s + k)))).
Proof.
  intros [Hs Hl] Hc.
  destruct (for_res_ind (fun n c' => length c' = length c
      /\ (forall i, i < s_offset s \/ s_offset s + n <= i -> c' !! i = c !! i)
      /\ forall k, k < n -> c' !! (s_offset s + k) = Some (negb (bool_decide (skip = Some (s_offset s + k)))))
    (s_len s) (fun k c =>
      if negb (bool_decide (skip = Some (s_offset s + k))) then set_at (s_offset s + k) true c
      else Ok c) c)
    as (c' & -> & Hlen & Hout & Hin); [split; [done |]; split; [done | lia] | |].
  - intros i c0 Hi (Hlen & Hout & Hin).
    assert (Hnew : c0 !! (s_offset s + i) = Some false) by (rewrite Hout by lia; by apply Hc).
    destruct (bool_decide (skip = Some (s_offset s + i))) eqn:Hskip; cbn [negb].
    + exists c0. split; [done |]. split; [done |]. split; [intros; apply Hout; lia |].
      intros k Hk. destruct (decide (k = i)) as [-> |]; [by rewrite Hskip | apply Hin; lia].
    + exists (<[s_offset s + i := true]> c0). rewrite set_at_lt by lia. split; [done |].
      split; [by rewrite length_insert |]. split.
      * intros j Hj. rewrite list_lookup_insert_ne by lia. apply Hout. lia.
      * intros k Hk. destruct (decide (k = i)) as [-> |].
        -- rewrite list_lookup_insert_eq by lia. by rewrite Hskip.
        -- rewrite list_lookup_insert_ne by lia. apply Hin. lia.
  - exists c'. by split.
Qed.

(** One unmarked line in a range leaves exactly that line. *)
Lemma unch_single c l off n p x :
  off <= p < off + n -> l !! p = Some x ->
  (forall k, k < n -> c !! (off + k) = Some (negb (bool_decide (Some p = Some (off + k))))) ->
  unch c l off n = [x].
Proof.
  intros Hp Hx Hc.
  replace n with ((p - off) + (1 + (off + n - S p))) by lia. rewrite !unch_app, unch_1.
  rewrite unch_marked; [| intros k Hk; rewrite Hc, bool_decide_eq_false_2 by (lia || (intros [=]; lia)); done].
  replace (off + (p - off)) with p by lia.
  rewrite unch_marked.
  - replace (c !! p) with (c !! (off + (p - off))) by (f_equal; lia).
    rewrite Hc, bool_decide_eq_true_2 by (f_equal; lia). cbn. by rewrite Hx.
  - intros k Hk. replace (p + 1 + k) with (off + (p + 1 + k - off)) by lia.
    rewrite Hc, bool_decide_eq_false_2 by (lia || (intros [=]; lia)). done.
Qed.

Lemma set_changed_spec s1 s2 c1 c2 :
  s_len s1 <= 1 -> slice_ok s1 c1 -> slice_ok s2 c2 -> clean s1 c1 -> clean s2 c2 ->
  exists r, set_changed c1 c2 s1 s2 = Ok r /\ marks s1 s2 c1 c2 r.
Proof.
  intros Hlen Hs1 Hs2 Hc1 Hc2. unfold set_changed.
  replace (check _) with (Ok tt)
    by (destruct (s_len s1) as [|[|?]]; [done | done | lia]).
  rbind. destruct (Nat.eqb_spec (s_len s1) 1) as [H1 | H1].
  - destruct Hs1 as [Ho1 Hl1].
    destruct (get_lt (s_list s1) (s_offset s1)) as (x & -> & Hx); [lia |]. rbind.
    unfold smartlist_slice_string_pos.
    destruct (slice_pos_loop_spec (s_list s2) x (s_offset s2) (s_len s2))
      as [[-> Hno] | (p & -> & Hp & Hxp)]; [apply Hs2 | |]; rbind.
    + rewrite set_at_lt by lia. rbind.
      destruct (mark_all_spec None s2 c2) as (c2' & -> & Hin & Hm); [done.. |]. rbind.
      exists (<[s_offset s1 := true]> c1, c2'). split; [done |]. unfold marks, unch_slice. cbn [fst snd].
      split; [| split; [done |]].
      * split; [by rewrite length_insert |]. intros i Hi. apply list_lookup_insert_ne. lia.
      * rewrite !unch_marked; [done | |].
        -- intros k Hk. by rewrite Hm, bool_decide_eq_false_2.
        -- intros k Hk. replace (s_offset s1 + k) with (s_offset s1) by lia.
           apply list_lookup_insert_eq. lia.
    + destruct (mark_all_spec (Some p) s2 c2) as (c2' & -> & Hin & Hm); [done.. |]. rbind.
      exists (c1, c2'). split; [done |].
      unfold marks, unch_slice. cbn [fst snd]. split; [apply only_in_refl | split; [done |]].
      rewrite H1, unch_1.
      rewrite <- (Nat.add_0_r (s_offset s1)) at 1. rewrite Hc1, Hx by lia. cbn.
      symmetry. by apply unch_single with p.
  - rbind. destruct (mark_all_spec None s2 c2) as (c2' & -> & Hin & Hm); [done.. |]. rbind.
    exists (c1, c2'). split; [done |].
      unfold marks, unch_slice. cbn [fst snd]. split; [apply only_in_refl | split; [done |]].
    replace (s_len s1) with 0 by lia. rewrite unch_0.
    symmetry. apply unch_marked. intros k Hk. by rewrite Hm, bool_decide_eq_false_2.
Qed.

(** ** Divide and conquer *)

Lemma dir_index_lt s c fwd i : slice_ok s c -> i < s_len s -> dir_index s fwd i < length (s_list s).
Proof. intros [H ?] Hi. unfold dir_index. destruct fwd; lia. Qed.

Lemma lcs_lengths_Ok s1 s2 c1 c2 fwd :
  slice_ok s1 c1 -> slice_ok s2 c2 ->
  exists r, lcs_lengths s1 s2 fwd = Ok r /\ length r = S (s_len s2).
Proof.
  intros H1 H2. unfold lcs_lengths.
  apply (for_res_ind (fun _ r => length r = S (s_len s2))); [apply length_replicate |].
  intros i prev Hi Hprev.
  destruct (get_lt (s_list s1) (dir_index s1 fwd i)) as (x & -> & _); [by eapply dir_index_lt |].
  rbind. apply (for_res_ind (fun _ r => length r = S (s_len s2))); [done |].
  intros j r Hj Hr.
  destruct (get_lt (s_list s2) (dir_index s2 fwd j)) as (y & -> & _); [by eapply dir_index_lt |].
  rbind. destruct (lines_eq x y).
  - destruct (get_lt prev j) as (p & -> & _); [lia |]. rbind.
    rewrite set_at_lt by lia. eexists. split; [done |]. by rewrite length_insert.
  - destruct (get_lt r j) as (q & -> & _); [lia |]. rbind.
    destruct (get_lt prev (S j)) as (p & -> & _); [lia |]. rbind.
    rewrite set_at_lt by lia. eexists. split; [done |]. by rewrite length_insert.
Qed.

Lemma optimal_column_Ok top bot s2 c1 c2 :
  slice_ok top c1 -> slice_ok bot c1 -> slice_ok s2 c2 ->
  exists col, optimal_column_to_split top bot s2 = Ok col /\ col <= s_len s2.
Proof.
  intros Ht Hb H2. unfold optimal_column_to_split.
  destruct (lcs_lengths_Ok top s2 c1 c2 true) as (lt & -> & Hlt); [done.. |]. rbind.
  destruct (lcs_lengths_Ok bot s2 c1 c2 false) as (lb & -> & Hlb); [done.. |]. rbind.
  match goal with |- context [for_res ?n ?body ?s] =>
    destruct (for_res_ind (fun _ r => r.1 <= s_len s2) n body s) as ([col m] & -> & Hcol) end.
  - cbn. lia.
  - intros i [col m] Hi Hcol.
    destruct (get_lt lt i) as (a & -> & _); [lia |]. rbind.
    destruct (get_lt lb (s_len s2 - i)) as (b & -> & _); [lia |]. rbind.
    destruct (m <? a + b)%Z; eexists; (split; [done |]); cbn in *; lia.
  - rbind. by exists col.
Qed.

Lemma smartlist_slice_Ok l a b :
  a <= b -> a <= length l ->
  smartlist_slice l a b = Ok {| s_list := l; s_offset := a; s_len := b - a |}.
Proof.
  intros. unfold smartlist_slice, check. by rewrite !(proj2 (Nat.leb_le _ _)) by lia.
Qed.

(** Marking the two halves marks the whole. *)
Lemma marks_split l1 l2 o1 n1 m1 o2 n2 m2 c1 c2 r r' :
  m1 <= n1 -> m2 <= n2 ->
  marks (Slice l1 o1 m1) (Slice l2 o2 m2) c1 c2 r ->
  marks (Slice l1 (o1 + m1) (n1 - m1)) (Slice l2 (o2 + m2) (n2 - m2)) r.1 r.2 r' ->
  marks (Slice l1 o1 n1) (Slice l2 o2 n2) c1 c2 r'.
Proof.
  intros Hm1 Hm2 ([L1 F1] & [L2 F2] & Hu) ([L1' F1'] & [L2' F2'] & Hu').
  unfold marks, only_in, unch_slice in *. cbn [s_list s_offset s_len] in *.
  split; [split; [congruence |]; intros i Hi; rewrite F1', F1 by lia; done |].
  split; [split; [congruence |]; intros i Hi; rewrite F2', F2 by lia; done |].
  replace n1 with (m1 + (n1 - m1)) by lia. replace n2 with (m2 + (n2 - m2)) by lia.
  rewrite !unch_app. f_equal; [| done].
  rewrite (unch_ext r'.1 r.1 l1 l1 o1 o1) by (intros k Hk; rewrite F1' by lia; done).
  rewrite (unch_ext r'.2 r.2 l2 l2 o2 o2) by (intros k Hk; rewrite F2' by lia; done). done.
Qed.

(** What [calc_changes] with a given fuel promises. *)
Definition calc_ok (fuel : nat) : Prop := forall s1 s2 c1 c2,
  s_len s1 < fuel -> slice_ok s1 c1 -> slice_ok s2 c2 -> clean s1 c1 -> clean s2 c2 ->
  exists r, calc_changes fuel s1 s2 c1 c2 = Ok r /\ marks s1 s2 c1 c2 r.

(** The recursive case. *)
Definition calc_split (fuel : nat) (t1 t2 : slice) (c1 c2 : list bool) : res (list bool * list bool) :=
  top ← smartlist_slice (s_list t1) (s_offset t1) (s_offset t1 + s_len t1 / 2);
  bot ← smartlist_slice (s_list t1) (s_offset t1 + s_len t1 / 2) (s_offset t1 + s_len t1);
  mid2 ← optimal_column_to_split top bot t2;
  left ← smartlist_slice (s_list t2) (s_offset t2) (s_offset t2 + mid2);
  right ← smartlist_slice (s_list t2) (s_offset t2 + mid2) (s_offset t2 + s_len t2);
  '(c1, c2) ← calc_changes fuel top left c1 c2;
  calc_changes fuel bot right c1 c2.

Lemma calc_split_spec fuel t1 t2 c1 c2 :
  calc_ok fuel -> 1 < s_len t1 <= fuel ->
  slice_ok t1 c1 -> slice_ok t2 c2 -> clean t1 c1 -> clean t2 c2 ->
  exists r, calc_split fuel t1 t2 c1 c2 = Ok r /\ marks t1 t2 c1 c2 r.
Proof.
  intros IH Hf T1 T2 D1 D2. unfold calc_split.
  destruct t1 as [l1 o1 n1], t2 as [l2 o2 n2]. destruct T1 as [T1 L1], T2 as [T2 L2].
  cbn [s_list s_offset s_len] in *.
  assert (0 < n1 / 2 < n1) by (split; [apply Nat.div_str_pos; lia | apply Nat.div_lt; lia]).
  remember (n1 / 2) as m1 eqn:Em. clear Em. rewrite !smartlist_slice_Ok by lia. rbind.
  replace (o1 + m1 - o1) with m1 by lia. replace (o1 + n1 - (o1 + m1)) with (n1 - m1) by lia.
  destruct (optimal_column_Ok (Slice l1 o1 m1) (Slice l1 (o1 + m1) (n1 - m1)) (Slice l2 o2 n2) c1 c2)
    as (m2 & -> & Hm2); [by split; cbn; lia.. |]. cbn [s_len] in Hm2. rbind.
  rewrite !smartlist_slice_Ok by lia. rbind.
  replace (o2 + m2 - o2) with m2 by lia. replace (o2 + n2 - (o2 + m2)) with (n2 - m2) by lia.
  destruct (IH (Slice l1 o1 m1) (Slice l2 o2 m2) c1 c2) as ([r1 r2] & -> & Hr).
  { cbn. lia. } { by split; cbn; lia. } { by split; cbn; lia. }
  { intros k Hk. apply D1. cbn in Hk |- *. lia. } { intros k Hk. apply D2. cbn in Hk |- *. lia. }
  rbind. pose proof Hr as ([P1 F1] & [P2 F2] & _). cbn [fst snd s_list s_offset s_len] in *.
  destruct (IH (Slice l1 (o1 + m1) (n1 - m1)) (Slice l2 (o2 + m2) (n2 - m2)) r1 r2) as (r & -> & Hr').
  { cbn. lia. } { by split; cbn; lia. } { by split; cbn; lia. }
  { intros k Hk. cbn in Hk |- *. rewrite F1, <- Nat.add_assoc by lia. apply D1. cbn. lia. }
  { intros k Hk. cbn in Hk |- *. rewrite F2, <- Nat.add_assoc by lia. apply D2. cbn. lia. }
  exists r. split; [done |]. by apply (marks_split l1 l2 o1 n1 m1 o2 n2 m2 c1 c2 (r1, r2) r); [lia.. | |].
Qed.

(** [calc_changes] always succeeds, and marks its slices so that the same lines
    remain unmarked on both sides. *)
Lemma calc_changes_spec fuel : calc_ok fuel.
Proof.
  induction fuel as [|fuel IH]; intros s1 s2 c1 c2 Hf H1 H2 C1 C2; [lia |].
  cbn [calc_changes].
  destruct (trim_slices_spec s1 s2 c1 c2) as (t1 & t2 & -> & Htrim); [done.. |]. rbind.
  pose proof Htrim as (a & b & E1 & E2 & O1 & O2 & N1 & N2 & _).
  pose proof H1 as [G1 L1]. pose proof H2 as [G2 L2].
  assert (slice_ok t1 c1) as T1 by (split; rewrite E1; lia).
  assert (slice_ok t2 c2) as T2 by (split; rewrite E2; lia).
  assert (clean t1 c1) as D1 by (intros k Hk; rewrite O1, <- Nat.add_assoc; apply C1; lia).
  assert (clean t2 c2) as D2 by (intros k Hk; rewrite O2, <- Nat.add_assoc; apply C2; lia).
  destruct (Nat.leb_spec (s_len t1) 1).
  { destruct (set_changed_spec t1 t2 c1 c2) as (r & -> & Hr); [done.. |].
    exists r. split; [done |]. by eapply trimmed_marks. }
  destruct (Nat.leb_spec (s_len t2) 1).
  { destruct (set_changed_spec t2 t1 c2 c1) as ([r2 r1] & -> & M2 & M1 & Hu); [done.. |]. rbind.
    exists (r1, r2). split; [done |]. eapply trimmed_marks; [done.. |]. by repeat split; try apply M1; try apply M2. }
  destruct (calc_split_spec fuel t1 t2 c1 c2) as (r & Hr & Hm); [done | lia | done.. |].
  exists r. split; [exact Hr |]. by eapply trimmed_marks.
Qed.
