(* ===== verification/ConsdiffLcs.v ===== *)
(** * consdiff.c: the comparison is optimal

    [lcs_lengths] is the dynamic program for the lengths of longest common
    subsequences, [optimal_column_to_split] finds the best cut, and the lines
    [calc_changes] leaves unmarked form a longest common subsequence. *)

From S2P Require Import Prelude Lcs Consdiff ConsdiffCalc.
#[local] Open Scope nat_scope.

(** The lines of a slice, and in the order in which a direction visits them. *)
Definition slice_lines (s : slice) : list line := take (s_len s) (drop (s_offset s) (s_list s)).
Definition dir_lines (s : slice) (forward : bool) : list line :=
  if forward then slice_lines s else reverse (slice_lines s).

Lemma slice_lines_length s c : slice_ok s c -> length (slice_lines s) = s_len s.
Proof. intros [H _]. unfold slice_lines. rewrite length_take, length_drop. lia. Qed.

Lemma slice_lines_lookup s i : i < s_len s -> slice_lines s !! i = s_list s !! (s_offset s + i).
Proof. intros H. unfold slice_lines. by rewrite lookup_take_lt, lookup_drop. Qed.

Lemma dir_lines_length s c fwd : slice_ok s c -> length (dir_lines s fwd) = s_len s.
Proof. intros H. destruct fwd; cbn [dir_lines]; rewrite ?length_reverse; by eapply slice_lines_length. Qed.

Lemma dir_lines_lookup s c fwd i :
  slice_ok s c -> i < s_len s -> dir_lines s fwd !! i = s_list s !! dir_index s fwd i.
Proof.
  intros Hs Hi. unfold dir_lines, dir_index. pose proof (slice_lines_length s c Hs) as Hl.
  destruct fwd; [by apply slice_lines_lookup |].
  rewrite reverse_lookup by lia. rewrite Hl, slice_lines_lookup by lia. f_equal. lia.
Qed.

(** ** The dynamic program *)

Section Table.
Context (A B : list line).

(** Row [i]: the lengths for the first [i] lines of [A]. *)
Definition is_row (i : nat) (r : list Z) : Prop :=
  length r = S (length B)
  /\ forall j, j <= length B -> r !! j = Some (Z.of_nat (lcs (take i A) (take j B))).

(** Row [i + 1] up to column [j], row [i] after it. *)
Definition is_mixed (i j : nat) (r : list Z) : Prop :=
  length r = S (length B)
  /\ (forall k, k <= j -> r !! k = Some (Z.of_nat (lcs (take (S i) A) (take k B))))
  /\ (forall k, j < k <= length B -> r !! k = Some (Z.of_nat (lcs (take i A) (take k B)))).

Lemma row_0 : is_row 0 (replicate (S (length B)) 0%Z).
Proof.
  split; [apply length_replicate |]. intros j Hj. rewrite take_0, lcs_nil_l.
  apply lookup_replicate_2. lia.
Qed.

Lemma mixed_0 i r : is_row i r -> is_mixed i 0 r.
Proof.
  intros [Hl H]. split; [done |]. split; [| intros; apply H; lia].
  intros k Hk. replace k with 0 by lia. rewrite H by lia. by rewrite !take_0, !lcs_nil_r.
Qed.

Lemma mixed_end i r : is_mixed i (length B) r -> is_row (S i) r.
Proof. intros (Hl & H & _). split; [done |]. intros j Hj. by apply H. Qed.

(** One cell. *)
Lemma mixed_step i j x y prev r :
  A !! i = Some x -> B !! j = Some y -> is_row i prev -> is_mixed i j r ->
  exists r', (if lines_eq x y then p ← get prev j; set_at (S j) (p + 1)%Z r
              else q ← get r j; p ← get prev (S j); set_at (S j) (Z.max q p) r) = Ok r'
    /\ is_mixed i (S j) r'.
Proof.
  intros Hx Hy [Lp Hp] (Lr & Hlo & Hhi). pose proof (lookup_lt_Some _ _ _ Hy).
  assert (forall v, v = Z.of_nat (lcs (take (S i) A) (take (S j) B)) ->
            is_mixed i (S j) (<[S j := v]> r)) as Hset.
  { intros v ->. split; [by rewrite length_insert |]. split; intros k Hk.
    - destruct (decide (k = S j)) as [-> | ?]; [apply list_lookup_insert_eq; lia |].
      rewrite list_lookup_insert_ne by done. apply Hlo. lia.
    - rewrite list_lookup_insert_ne by lia. apply Hhi. lia. }
  rewrite (take_S_r A i x Hx), (take_S_r B j y Hy) in Hset.
  destruct (lines_eq x y) eqn:E.
  - apply lines_eq_spec in E as ->. rewrite (get_Some _ _ _ (Hp j ltac:(lia))). rbind.
    rewrite set_at_lt by lia. eexists. split; [done |]. apply Hset. rewrite lcs_snoc_eq. lia.
  - rewrite (get_Some _ _ _ (Hlo j ltac:(lia))), (get_Some _ _ _ (Hp (S j) ltac:(lia))). rbind.
    rewrite set_at_lt by lia. eexists. split; [done |]. apply Hset.
    rewrite (take_S_r A i x Hx), (take_S_r B j y Hy), lcs_snoc_ne; [lia |].
    intros ->. by rewrite (proj2 (lines_eq_spec y y)) in E.
Qed.
End Table.

Lemma lcs_lengths_spec s1 s2 c1 c2 fwd :
  slice_ok s1 c1 -> slice_ok s2 c2 ->
  exists r, lcs_lengths s1 s2 fwd = Ok r
    /\ is_row (dir_lines s1 fwd) (dir_lines s2 fwd) (s_len s1) r.
Proof.
  intros H1 H2. unfold lcs_lengths.
  pose proof (dir_lines_length s1 c1 fwd H1) as N1. pose proof (dir_lines_length s2 c2 fwd H2) as N2.
  apply (for_res_ind (is_row (dir_lines s1 fwd) (dir_lines s2 fwd))).
  { rewrite <- N2. apply row_0. }
  intros i prev Hi Hprev.
  destruct (get_lt (s_list s1) (dir_index s1 fwd i)) as (x & -> & Hx); [by eapply dir_index_lt |]. rbind.
  rewrite <- (dir_lines_lookup s1 c1) in Hx by done.
  match goal with |- context [for_res ?n ?body ?s] =>
    destruct (for_res_ind (is_mixed (dir_lines s1 fwd) (dir_lines s2 fwd) i) n body s) as (r & -> & Hr) end.
  - by apply mixed_0.
  - intros j r Hj Hr.
    destruct (get_lt (s_list s2) (dir_index s2 fwd j)) as (y & -> & Hy); [by eapply dir_index_lt |]. rbind.
    rewrite <- (dir_lines_lookup s2 c2) in Hy by done. by apply mixed_step.
  - exists r. split; [done |]. apply mixed_end. by rewrite N2.
Qed.

(** ** The best cut *)

(** The value of cutting the second slice after [k] lines. *)
Definition cut_value (top bot s2 : slice) (k : nat) : nat :=
  lcs (slice_lines top) (take k (slice_lines s2)) + lcs (slice_lines bot) (drop k (slice_lines s2)).

Lemma optimal_column_spec top bot s2 c1 c2 :
  slice_ok top c1 -> slice_ok bot c1 -> slice_ok s2 c2 ->
  exists col, optimal_column_to_split top bot s2 = Ok col /\ col <= s_len s2
    /\ forall k, k <= s_len s2 -> cut_value top bot s2 k <= cut_value top bot s2 col.
Proof.
  intros Ht Hb H2. unfold optimal_column_to_split.
  pose proof (slice_lines_length top c1 Ht) as Nt. pose proof (slice_lines_length bot c1 Hb) as Nb.
  pose proof (slice_lines_length s2 c2 H2) as N2.
  destruct (lcs_lengths_spec top s2 c1 c2 true Ht H2) as (lt & -> & Llt & Hlt). rbind.
  destruct (lcs_lengths_spec bot s2 c1 c2 false Hb H2) as (lb & -> & Llb & Hlb). rbind.
  cbn [dir_lines] in *. rewrite length_reverse in *. rewrite N2 in *.
  match goal with |- context [for_res ?n ?body ?s] =>
    destruct (for_res_ind (fun i '(col, m) => (i = 0 /\ m = (-1)%Z) \/
      (col < i /\ m = Z.of_nat (cut_value top bot s2 col)
       /\ forall k, k < i -> cut_value top bot s2 k <= cut_value top bot s2 col)) n body s)
      as ([col m] & -> & Hcol) end.
  - by left.
  - intros i [col m] Hi Hinv.
    rewrite (get_Some _ _ _ (Hlt i ltac:(lia))), (get_Some _ _ _ (Hlb (s_len s2 - i) ltac:(lia))). rbind.
    rewrite (take_ge (slice_lines top)), (take_ge (reverse (slice_lines bot))) by (rewrite ?length_reverse; lia).
    assert (lcs (reverse (slice_lines bot)) (take (s_len s2 - i) (reverse (slice_lines s2)))
            = lcs (slice_lines bot) (drop i (slice_lines s2))) as ->.
    { rewrite take_reverse, N2, lcs_reverse. do 2 f_equal. lia. }
    rewrite <- Nat2Z.inj_add. change (lcs _ _ + lcs _ _) with (cut_value top bot s2 i).
    destruct (Z.ltb_spec m (Z.of_nat (cut_value top bot s2 i))) as [Hlt' | Hge];
      (eexists; split; [done |]); right.
    + split; [lia |]. split; [done |]. intros k Hk.
      destruct (decide (k = i)) as [-> |]; [lia |].
      destruct Hinv as [[-> _] | (? & -> & Hall)]; [lia |]. specialize (Hall k ltac:(lia)). lia.
    + destruct Hinv as [[_ ->] | (? & -> & Hall)]; [lia |]. split; [lia |]. split; [done |].
      intros k Hk. destruct (decide (k = i)) as [-> |]; [lia | apply Hall; lia].
  - rbind. exists col. destruct Hcol as [[? _] | (? & _ & Hall)]; [lia |].
    split; [done |]. split; [lia |]. intros k Hk. apply Hall. lia.
Qed.

(** Cutting there loses nothing. *)
Lemma optimal_cut_value top bot s2 col :
  col <= length (slice_lines s2) ->
  (forall k, k <= length (slice_lines s2) -> cut_value top bot s2 k <= cut_value top bot s2 col) ->
  cut_value top bot s2 col = lcs (slice_lines top ++ slice_lines bot) (slice_lines s2).
Proof.
  intros Hcol Hbest.
  destruct (lcs_app_split (slice_lines top) (slice_lines bot) (slice_lines s2)) as (k & Hk & E).
  specialize (Hbest k Hk). unfold cut_value in *.
  pose proof (lcs_app_le (slice_lines top) (slice_lines bot) (take col (slice_lines s2)) (drop col (slice_lines s2))) as H.
  rewrite take_drop in H. lia.
Qed.

(** ** Optimality of the marks *)

(** The unmarked lines are as many as a longest common subsequence has. *)
Definition optimal (s1 s2 : slice) (r : list bool * list bool) : Prop :=
  length (unch_slice s1 r.1) = lcs (slice_lines s1) (slice_lines s2).

(** Lines [off .. off + n - 1] of [l]. *)
Definition sub (l : list line) (off n : nat) : list line := take n (drop off l).

Lemma sub_app l off a b : sub l off (a + b) = sub l off a ++ sub l (off + a) b.
Proof.
  unfold sub. rewrite <- (drop_drop l a off). generalize (drop off l). intros k.
  rewrite <- (take_drop a k) at 1. rewrite take_app, take_take, length_take.
  destruct (decide (a <= length k)).
  - rewrite (Nat.min_r (a + b) a), (Nat.min_l a (length k)) by lia. do 2 f_equal. lia.
  - rewrite !(drop_ge k) by lia. rewrite !take_nil, !app_nil_r, !(take_ge k) by lia. done.
Qed.

Lemma sub_length l off n : off + n <= length l -> length (sub l off n) = n.
Proof. intros. unfold sub. rewrite length_take, length_drop. lia. Qed.

Lemma sub_ext l l' off off' n :
  (forall k, k < n -> l !! (off + k) = l' !! (off' + k)) -> sub l off n = sub l' off' n.
Proof.
  intros H. apply list_eq. intros k. unfold sub. destruct (decide (k < n)).
  - rewrite !lookup_take_lt, !lookup_drop by done. by apply H.
  - by rewrite !lookup_take_ge by lia.
Qed.

Lemma unch_clean c l off n :
  off + n <= length l -> (forall k, k < n -> c !! (off + k) = Some false) -> unch c l off n = sub l off n.
Proof.
  revert off. induction n as [|n IH]; intros off Hl Hc; [done |].
  rewrite <- Nat.add_1_l, unch_app, sub_app. f_equal.
  - rewrite unch_1. specialize (Hc 0 ltac:(lia)) as H0. rewrite Nat.add_0_r in H0. rewrite H0.
    destruct (lookup_lt_is_Some_2 l off) as [x Hx]; [lia |]. unfold sub. by rewrite (drop_S _ _ _ Hx), Hx.
  - apply IH; [lia |]. intros k Hk. rewrite <- Nat.add_assoc. apply Hc. lia.
Qed.

(** Trimming equal ends keeps optimality. *)
Lemma trimmed_optimal s1 s2 t1 t2 c1 c2 r :
  slice_ok s1 c1 -> slice_ok s2 c2 -> trimmed s1 s2 t1 t2 -> clean s1 c1 ->
  marks t1 t2 c1 c2 r -> optimal t1 t2 r -> optimal s1 s2 r.
Proof.
  intros [H1 _] [H2 _] (a & b & E1 & E2 & O1 & O2 & N1 & N2 & Ha & Hb) Hc ([L F] & _) Hopt.
  unfold optimal, unch_slice, slice_lines in *. fold (sub (s_list s1) (s_offset s1) (s_len s1)).
  fold (sub (s_list s2) (s_offset s2) (s_len s2)).
  fold (sub (s_list t1) (s_offset t1) (s_len t1)) in Hopt.
  fold (sub (s_list t2) (s_offset t2) (s_len t2)) in Hopt.
  rewrite N1, N2, !unch_app, !sub_app, E1, E2 in *.
  rewrite (unch_clean r.1 (s_list s1) (s_offset s1) a), (unch_clean r.1 (s_list s1) _ b); [| lia | | lia |].
  - replace (sub (s_list s2) (s_offset s2) a) with (sub (s_list s1) (s_offset s1) a) by (apply sub_ext; exact Ha).
    replace (sub (s_list s2) (s_offset s2 + (a + s_len t2)) b)
      with (sub (s_list s1) (s_offset s1 + (a + s_len t1)) b).
    2: { apply sub_ext. intros k Hk. specialize (Hb k Hk). rewrite O1, O2 in Hb.
         by rewrite !Nat.add_assoc. }
    rewrite lcs_suffix, lcs_prefix, !length_app. rewrite <- O1, <- O2, Hopt. done.
  - intros k Hk. rewrite F by lia. rewrite <- Nat.add_assoc. apply Hc. lia.
  - intros k Hk. rewrite F by lia. apply Hc. lia.
Qed.

(** One line or none against a slice. *)
Lemma set_changed_optimal s1 s2 c1 c2 r :
  s_len s1 <= 1 -> slice_ok s1 c1 -> slice_ok s2 c2 -> clean s1 c1 -> clean s2 c2 ->
  set_changed c1 c2 s1 s2 = Ok r -> optimal s1 s2 r.
Proof.
  intros Hlen [H1 L1] [H2 L2] Hc1 Hc2. unfold set_changed, optimal, unch_slice.
  destruct (check _) as [[] | |]; try done. rbind. destruct (Nat.eqb_spec (s_len s1) 1) as [E1 | E1].
  - rewrite E1. destruct (get_lt (s_list s1) (s_offset s1)) as (x & -> & Hx); [lia |]. rbind.
    assert (slice_lines s1 = [x]) as -> by (unfold slice_lines; by rewrite E1, (drop_S _ _ _ Hx)).
    assert (forall p, s_offset s2 <= p < s_offset s2 + s_len s2 -> s_list s2 !! p = Some x -> x ∈ slice_lines s2) as Hin.
    { intros p Hp Hpx. apply (list_elem_of_lookup_2 _ (p - s_offset s2)).
      rewrite slice_lines_lookup by lia. rewrite <- Hpx. f_equal. lia. }
    unfold smartlist_slice_string_pos. rewrite unch_1.
    destruct (slice_pos_loop_spec (s_list s2) x (s_offset s2) (s_len s2) H2)
      as [[-> Hno] | (p & -> & Hp & Hxp)]; rbind.
    + rewrite set_at_lt by lia. rbind. destruct (for_res _ _ _) as [c2' | |]; try done. intros [= <-].
      cbn [fst]. rewrite list_lookup_insert_eq by lia. rewrite lcs_singleton_notin; [done |].
      intros (i & Hi)%list_elem_of_lookup_1. pose proof (lookup_lt_Some _ _ _ Hi) as Hl.
      rewrite (slice_lines_length s2 c2) in Hl by done. rewrite slice_lines_lookup in Hi by done. by apply (Hno i).
    + destruct (for_res _ _ _) as [c2' | |]; try done. intros [= <-]. cbn [fst].
      specialize (Hc1 0 ltac:(lia)). rewrite Nat.add_0_r in Hc1. rewrite Hc1, Hx, lcs_singleton_in; [done |].
      by apply (Hin p).
  - replace (s_len s1) with 0 by lia. unfold slice_lines at 1. replace (s_len s1) with 0 by lia. done.
Qed.

Lemma optimal_swap s1 s2 c1 c2 r1 r2 :
  marks s1 s2 c1 c2 (r1, r2) -> optimal s2 s1 (r2, r1) -> optimal s1 s2 (r1, r2).
Proof.
  intros (_ & _ & Hu) Hopt. unfold optimal in *. cbn [fst snd] in *. by rewrite Hu, lcs_comm.
Qed.

(** Marking the halves at a best cut. *)
Lemma split_optimal l1 l2 o1 n1 m1 o2 n2 m2 r r' :
  m1 <= n1 -> m2 <= n2 -> o1 + n1 <= length l1 -> o2 + n2 <= length l2 ->
  (forall k, k <= n2 -> cut_value (Slice l1 o1 m1) (Slice l1 (o1 + m1) (n1 - m1)) (Slice l2 o2 n2) k
     <= cut_value (Slice l1 o1 m1) (Slice l1 (o1 + m1) (n1 - m1)) (Slice l2 o2 n2) m2) ->
  optimal (Slice l1 o1 m1) (Slice l2 o2 m2) r ->
  marks (Slice l1 (o1 + m1) (n1 - m1)) (Slice l2 (o2 + m2) (n2 - m2)) r.1 r.2 r' ->
  optimal (Slice l1 (o1 + m1) (n1 - m1)) (Slice l2 (o2 + m2) (n2 - m2)) r' ->
  optimal (Slice l1 o1 n1) (Slice l2 o2 n2) r'.
Proof.
  intros Hm1 Hm2 B1 B2 Hbest Hopt ([L F] & _) Hopt'. unfold optimal, unch_slice in *.
  cbn [s_list s_offset s_len] in *.
  assert (slice_lines (Slice l1 o1 n1)
          = slice_lines (Slice l1 o1 m1) ++ slice_lines (Slice l1 (o1 + m1) (n1 - m1))) as ->.
  { unfold slice_lines. cbn [s_list s_offset s_len].
    replace n1 with (m1 + (n1 - m1)) at 1 by lia. apply (sub_app l1 o1 m1 (n1 - m1)). }
  assert (length (slice_lines (Slice l2 o2 n2)) = n2) as N2 by (apply sub_length; done).
  rewrite <- (optimal_cut_value _ _ (Slice l2 o2 n2) m2) by (rewrite N2; done).
  unfold cut_value.
  replace (take m2 (slice_lines (Slice l2 o2 n2))) with (slice_lines (Slice l2 o2 m2)).
  2: { unfold slice_lines. cbn [s_list s_offset s_len]. rewrite take_take. f_equal. lia. }
  replace (drop m2 (slice_lines (Slice l2 o2 n2))) with (slice_lines (Slice l2 (o2 + m2) (n2 - m2))).
  2: { unfold slice_lines. cbn [s_list s_offset s_len]. by rewrite skipn_firstn_comm, drop_drop. }
  rewrite <- Hopt, <- Hopt'. replace n1 with (m1 + (n1 - m1)) at 1 by lia. rewrite unch_app, length_app.
  rewrite (unch_ext r'.1 r.1 l1 l1 o1 o1) by (intros k Hk; rewrite F by lia; done). done.
Qed.

(** What [calc_changes] with a given fuel promises. *)
Definition calc_optimal (fuel : nat) : Prop := forall s1 s2 c1 c2 r,
  s_len s1 < fuel -> slice_ok s1 c1 -> slice_ok s2 c2 -> clean s1 c1 -> clean s2 c2 ->
  calc_changes fuel s1 s2 c1 c2 = Ok r -> optimal s1 s2 r.

Lemma calc_split_optimal fuel t1 t2 c1 c2 r :
  calc_optimal fuel -> 1 < s_len t1 <= fuel ->
  slice_ok t1 c1 -> slice_ok t2 c2 -> clean t1 c1 -> clean t2 c2 ->
  calc_split fuel t1 t2 c1 c2 = Ok r -> optimal t1 t2 r.
Proof.
  intros IH Hf T1 T2 D1 D2. unfold calc_split.
  destruct t1 as [l1 o1 n1], t2 as [l2 o2 n2]. destruct T1 as [T1 L1], T2 as [T2 L2].
  cbn [s_list s_offset s_len] in *.
  assert (0 < n1 / 2 < n1) by (split; [apply Nat.div_str_pos; lia | apply Nat.div_lt; lia]).
  remember (n1 / 2) as m1 eqn:Em. clear Em. rewrite !smartlist_slice_Ok by lia. rbind.
  replace (o1 + m1 - o1) with m1 by lia. replace (o1 + n1 - (o1 + m1)) with (n1 - m1) by lia.
  destruct (optimal_column_spec (Slice l1 o1 m1) (Slice l1 (o1 + m1) (n1 - m1)) (Slice l2 o2 n2) c1 c2)
    as (m2 & -> & Hm2 & Hbest); [by split; cbn; lia.. |]. cbn [s_len] in Hm2, Hbest. rbind.
  rewrite !smartlist_slice_Ok by lia. rbind.
  replace (o2 + m2 - o2) with m2 by lia. replace (o2 + n2 - (o2 + m2)) with (n2 - m2) by lia.
  assert (slice_ok (Slice l1 o1 m1) c1) by (by split; cbn; lia).
  assert (slice_ok (Slice l2 o2 m2) c2) by (by split; cbn; lia).
  assert (clean (Slice l1 o1 m1) c1) by (intros k Hk; apply D1; cbn in Hk |- *; lia).
  assert (clean (Slice l2 o2 m2) c2) by (intros k Hk; apply D2; cbn in Hk |- *; lia).
  destruct (calc_changes_spec fuel (Slice l1 o1 m1) (Slice l2 o2 m2) c1 c2) as ([r1 r2] & Er & Hr); try done.
  { cbn. lia. }
  pose proof (IH (Slice l1 o1 m1) (Slice l2 o2 m2) c1 c2 (r1, r2) ltac:(cbn; lia) ltac:(done) ltac:(done) ltac:(done) ltac:(done) Er) as Hopt.
  rewrite Er. rbind. destruct Hr as ([P1 F1] & [P2 F2] & _). cbn [fst snd s_list s_offset s_len] in *.
  assert (slice_ok (Slice l1 (o1 + m1) (n1 - m1)) r1) by (by split; cbn; lia).
  assert (slice_ok (Slice l2 (o2 + m2) (n2 - m2)) r2) by (by split; cbn; lia).
  assert (clean (Slice l1 (o1 + m1) (n1 - m1)) r1).
  { intros k Hk. cbn in Hk |- *. rewrite F1, <- Nat.add_assoc by lia. apply D1. cbn. lia. }
  assert (clean (Slice l2 (o2 + m2) (n2 - m2)) r2).
  { intros k Hk. cbn in Hk |- *. rewrite F2, <- Nat.add_assoc by lia. apply D2. cbn. lia. }
  destruct (calc_changes_spec fuel (Slice l1 (o1 + m1) (n1 - m1)) (Slice l2 (o2 + m2) (n2 - m2)) r1 r2)
    as (r' & Er' & Hr'); try done; [cbn; lia |].
  rewrite Er'. intros [= <-].
  apply (split_optimal l1 l2 o1 n1 m1 o2 n2 m2 (r1, r2)); [lia.. | done | done | done |].
  by apply (IH _ _ r1 r2); [cbn; lia | ..].
Qed.

Lemma calc_changes_optimal_spec fuel : calc_optimal fuel.
Proof.
  induction fuel as [|fuel IH]; intros s1 s2 c1 c2 r Hf H1 H2 C1 C2; [lia |].
  cbn [calc_changes].
  destruct (trim_slices_spec s1 s2 c1 c2) as (t1 & t2 & -> & Htrim); [done.. |]. rbind.
  pose proof Htrim as (a & b & E1 & E2 & O1 & O2 & N1 & N2 & _).
  pose proof H1 as [G1 L1]. pose proof H2 as [G2 L2].
  assert (slice_ok t1 c1) as T1 by (split; rewrite E1; lia).
  assert (slice_ok t2 c2) as T2 by (split; rewrite E2; lia).
  assert (clean t1 c1) as D1 by (intros k Hk; rewrite O1, <- Nat.add_assoc; apply C1; lia).
  assert (clean t2 c2) as D2 by (intros k Hk; rewrite O2, <- Nat.add_assoc; apply C2; lia).
  destruct (Nat.leb_spec (s_len t1) 1).
  { destruct (set_changed_spec t1 t2 c1 c2) as (r' & Er & Hr); [done.. |]. intros E.
    rewrite Er in E. injection E as ->. eapply trimmed_optimal; try done. by eapply set_changed_optimal. }
  destruct (Nat.leb_spec (s_len t2) 1).
  { destruct (set_changed_spec t2 t1 c2 c1) as ([r2 r1] & Er & M2 & M1 & Hu); [done.. |].
    rewrite Er. rbind. intros [= <-].
    assert (marks t1 t2 c1 c2 (r1, r2)) as Hm by (by repeat split; try apply M1; try apply M2).
    eapply trimmed_optimal; try done. eapply optimal_swap; [done |]. by eapply set_changed_optimal. }
  intros E. destruct (calc_split_spec fuel t1 t2 c1 c2 (calc_changes_spec fuel)) as (r' & Er & Hr);
    [lia | done.. |].
  change (calc_split fuel t1 t2 c1 c2 = Ok r) in E. rewrite Er in E. injection E as ->.
  eapply trimmed_optimal; try done. by apply (calc_split_optimal fuel t1 t2 c1 c2 r IH); [lia | ..].
Qed.

(** What is left unmarked is a subsequence. *)
Lemma unch_sublist c l off n : off + n <= length l -> unch c l off n `sublist_of` sub l off n.
Proof.
  revert off. induction n as [|n IH]; intros off Hl; [done |].
  rewrite <- Nat.add_1_l, unch_app, sub_app. apply sublist_app; [| apply IH; lia].
  destruct (lookup_lt_is_Some_2 l off) as [x Hx]; [lia |].
  rewrite unch_1, Hx. unfold sub. rewrite (drop_S _ _ _ Hx).
  destruct (c !! off) as [[]|]; [apply sublist_nil_l | done | apply sublist_nil_l].
Qed.

Lemma unch_sublist_all c l : unch c l 0 (length l) `sublist_of` l.
Proof.
  pose proof (unch_sublist c l 0 (length l) ltac:(lia)) as H. unfold sub in H.
  by rewrite drop_0, firstn_all in H.
Qed.
