(* ===== verification/ConsdiffNav.v ===== *)
(** * consdiff.c: walking over the router entries

    The two cursors of [gen_ed_diff] always stay inside their documents, every
    iteration moves one of them forward, and the pieces between two common
    routers are handed to [calc_changes]; the marks obtained leave the same text
    in both documents.  [routers_sorted] is the condition under which the walk
    is not abandoned. *)

From S2P Require Import Prelude Consdiff ConsdiffCalc.
#[local] Open Scope Z_scope.

(** ** Hashes *)

Lemma get_id_hash_nonempty l h : get_id_hash l = Some h -> h <> [].
Proof.
  unfold get_id_hash. destruct (_ <? _)%nat; [done |].
  destruct (after_char _ _) as [s|]; [| done]. cbn. destruct (base64_prefix s); [done |].
  by intros [= <-].
Qed.

(** The comparison succeeds on two non-empty strings: it never reads past the
    end of either. *)
Lemma base64cmp_loop_Ok a b : a <> [] -> b <> [] -> exists c, base64cmp_loop a b = Ok c.
Proof.
  revert b. induction a as [|x a IH]; intros [|y b] Ha Hb; try done. cbn [base64cmp_loop].
  repeat (case_match; try by eexists). by apply IH.
Qed.

Definition hash_ok (h : option line) : Prop := h <> Some [].

Lemma base64cmp_Ok h1 h2 : hash_ok h1 -> hash_ok h2 -> exists c, base64cmp h1 h2 = Ok c.
Proof.
  intros H1 H2. destruct h1 as [a|], h2 as [b|]; cbn; try by eexists.
  apply base64cmp_loop_Ok; intros ->; [by apply H1 | by apply H2].
Qed.

(** ** Order of the router entries *)

(** The identities of the router lines increase strictly, starting above [last]. *)
Fixpoint sorted_from (last : option line) (cons : list line) : bool :=
  match cons with
  | [] => true
  | l :: rest =>
      if is_valid_router_entry l then
        match get_id_hash l with
        | Some h =>
            match base64cmp (Some h) last with
            | Ok c => (0 <? c) && sorted_from (Some h) rest
            | _ => false
            end
        | None => false
        end
      else sorted_from last rest
  end.
Definition routers_sorted (cons : list line) : bool := sorted_from None cons.

(** ** Finding the next router *)

(** The next router line after [cur], or the end; what is skipped holds none. *)
Lemma next_router_loop_spec cons fuel cur :
  0 <= cur <= Z.of_nat (length cons) -> Z.of_nat (length cons) - cur < Z.of_nat fuel ->
  exists r, next_router_loop cons fuel cur = Ok r
    /\ cur <= r <= Z.of_nat (length cons)
    /\ (forall l, cons !! Z.to_nat r = Some l -> is_valid_router_entry l = true)
    /\ (forall last, sorted_from last (drop (Z.to_nat cur) cons)
                     = sorted_from last (drop (Z.to_nat r) cons)).
Proof.
  revert cur. induction fuel as [|fuel IH]; intros cur Hcur Hf; [lia |].
  cbn [next_router_loop]. destruct (Z.leb_spec (Z.of_nat (length cons)) cur) as [Hend | Hin].
  - exists (Z.of_nat (length cons)). split; [done |]. split; [lia |].
    replace cur with (Z.of_nat (length cons)) by lia. split; [| done].
    intros l Hl. apply lookup_lt_Some in Hl. lia.
  - destruct (get_lt cons (Z.to_nat cur)) as (x & -> & Hx); [lia |]. rbind.
    destruct (is_valid_router_entry x) eqn:Ev.
    + exists cur. split; [done |]. split; [lia |]. split; [| done]. by intros l [= <-]%(eq_trans (eq_sym Hx)).
    + destruct (IH (cur + 1)) as (r & -> & Hr & Hv & Hs); [lia.. |].
      exists r. split; [done |]. split; [lia |]. split; [done |]. intros last.
      rewrite (drop_S _ _ _ Hx). cbn [sorted_from]. rewrite Ev, <- Hs. do 2 f_equal. lia.
Qed.

Lemma next_router_spec cons cur :
  -1 <= cur < Z.of_nat (length cons) ->
  exists r, next_router cons cur = Ok r
    /\ cur < r <= Z.of_nat (length cons)
    /\ (forall l, cons !! Z.to_nat r = Some l -> is_valid_router_entry l = true)
    /\ (forall last, sorted_from last (drop (Z.to_nat (cur + 1)) cons)
                     = sorted_from last (drop (Z.to_nat r) cons)).
Proof.
  intros Hcur. unfold next_router, check. cbv zeta.
  replace (_ && _) with true by (symmetry; rewrite andb_true_iff, Z.leb_le, Z.ltb_lt; lia). rbind.
  destruct (next_router_loop_spec cons (S (length cons)) (cur + 1)) as (r & -> & Hr & Hv & Hs); [lia.. |].
  exists r. split; [done |]. split; [lia | done].
Qed.

(** A cursor: it lies inside the document and its hash is not empty. *)
Definition cursor_ok (cons : list line) (i : Z) (it : router_id_iterator) : Prop :=
  -1 <= i <= Z.of_nat (length cons) /\ hash_ok (hash it).

(** The routers still ahead of the cursor are in order. *)
Definition ahead_sorted (cons : list line) (i : Z) (it : router_id_iterator) : bool :=
  sorted_from (hash it) (drop (Z.to_nat (i + 1)) cons).

(** [find_next_router_line] moves the cursor forward, or finds two routers that
    are out of order. *)
Lemma find_next_router_line_spec cons i it :
  cursor_ok cons i it -> i < Z.of_nat (length cons) ->
  (exists i' it', find_next_router_line cons i it = Ok (i', it')
     /\ i < i' /\ cursor_ok cons i' it'
     /\ (ahead_sorted cons i it = true -> ahead_sorted cons i' it' = true))
  \/ (find_next_router_line cons i it = Null /\ ahead_sorted cons i it = false).
Proof.
  intros [Hi Hh] Hlt. unfold find_next_router_line, ahead_sorted.
  destruct (next_router_spec cons i) as (r & -> & Hr & Hv & Hs); [lia |]. rbind. rewrite Hs.
  destruct (Z.ltb_spec r (Z.of_nat (length cons))) as [Hr' | Hr'].
  2: { left. exists r, it. split; [done |]. split; [lia |]. split; [by split; [lia |] |].
       rewrite !drop_ge by lia. done. }
  destruct (get_lt cons (Z.to_nat r)) as (x & -> & Hx); [lia |]. rbind.
  rewrite (drop_S _ _ _ Hx). cbn [sorted_from]. rewrite (Hv x Hx).
  destruct (get_id_hash x) as [h|] eqn:Eh; [| by right].
  assert (hash_ok (Some h)) by (intros [= ->]; by apply get_id_hash_nonempty in Eh).
  destruct (base64cmp_Ok (Some h) (hash it)) as [c ->]; [done.. |]. rbind.
  destruct (Z.leb_spec c 0); [right; by destruct (Z.ltb_spec 0 c); [lia |] |].
  left. exists r, (Iter (hash it) (Some h)). split; [done |]. split; [lia |].
  split; [by split; [lia |] |]. intros [_ Hsort]%andb_prop. cbn [hash].
  by replace (Z.to_nat (r + 1)) with (S (Z.to_nat r)) by lia.
Qed.

(** ** The walk *)

Section Walk.
Context (cons1 cons2 : list line).
Abbreviation L1 := (Z.of_nat (length cons1)).
Abbreviation L2 := (Z.of_nat (length cons2)).

Lemma ahead_sorted_end cons it : ahead_sorted cons (Z.of_nat (length cons)) it = true.
Proof. unfold ahead_sorted. by rewrite drop_ge by lia. Qed.

Lemma cursor_ok_end cons i it : cursor_ok cons i it -> cursor_ok cons (Z.of_nat (length cons)) it.
Proof. intros [? ?]. by split; [lia |]. Qed.

(** The positions reached from [i1], [i2]: not behind them, inside the
    documents, with the order of the routers ahead kept. *)
Definition reached (i1 i2 : Z) (it1 it2 : router_id_iterator)
    (p : Z * Z * router_id_iterator * router_id_iterator) : Prop :=
  let '(j1, j2, jt1, jt2) := p in
  i1 <= j1 /\ i2 <= j2 /\ cursor_ok cons1 j1 jt1 /\ cursor_ok cons2 j2 jt2
  /\ (ahead_sorted cons1 i1 it1 = true -> ahead_sorted cons1 j1 jt1 = true)
  /\ (ahead_sorted cons2 i2 it2 = true -> ahead_sorted cons2 j2 jt2 = true).

Definition unsorted (i1 i2 : Z) (it1 it2 : router_id_iterator) : Prop :=
  ahead_sorted cons1 i1 it1 = false \/ ahead_sorted cons2 i2 it2 = false.

Lemma reached_trans i1 i2 it1 it2 j1 j2 jt1 jt2 p :
  reached i1 i2 it1 it2 (j1, j2, jt1, jt2) -> reached j1 j2 jt1 jt2 p -> reached i1 i2 it1 it2 p.
Proof. destruct p as [[[k1 k2] kt1] kt2]. unfold reached. intuition lia. Qed.

Lemma reached_unsorted i1 i2 it1 it2 j1 j2 jt1 jt2 :
  reached i1 i2 it1 it2 (j1, j2, jt1, jt2) -> unsorted j1 j2 jt1 jt2 -> unsorted i1 i2 it1 it2.
Proof.
  unfold reached, unsorted. intros (_ & _ & _ & _ & H1 & H2) [H | H].
  - left. destruct (ahead_sorted cons1 i1 it1); [rewrite H1 in H; done | done].
  - right. destruct (ahead_sorted cons2 i2 it2); [rewrite H2 in H; done | done].
Qed.

(** One cursor advances, by a step of the walk. *)
Lemma reached_1 i1 i2 it1 it2 j1 jt1 :
  i1 < j1 -> cursor_ok cons1 j1 jt1 -> cursor_ok cons2 i2 it2 ->
  (ahead_sorted cons1 i1 it1 = true -> ahead_sorted cons1 j1 jt1 = true) ->
  reached i1 i2 it1 it2 (j1, i2, jt1, it2).
Proof. unfold reached. intros. split_and!; try done; lia. Qed.

Lemma reached_2 i1 i2 it1 it2 j2 jt2 :
  i2 < j2 -> cursor_ok cons1 i1 it1 -> cursor_ok cons2 j2 jt2 ->
  (ahead_sorted cons2 i2 it2 = true -> ahead_sorted cons2 j2 jt2 = true) ->
  reached i1 i2 it1 it2 (i1, j2, it1, jt2).
Proof. unfold reached. intros. split_and!; try done; lia. Qed.

(** Both cursors jump to the end. *)
Lemma reached_end i1 i2 it1 it2 :
  cursor_ok cons1 i1 it1 -> cursor_ok cons2 i2 it2 -> reached i1 i2 it1 it2 (L1, L2, it1, it2).
Proof.
  intros C1 C2. pose proof C1 as [? _]. pose proof C2 as [? _].
  unfold reached. rewrite !ahead_sorted_end.
  split_and!; try done; try lia; by eapply cursor_ok_end.
Qed.

Lemma reached_refl i1 i2 it1 it2 :
  cursor_ok cons1 i1 it1 -> cursor_ok cons2 i2 it2 -> reached i1 i2 it1 it2 (i1, i2, it1, it2).
Proof. unfold reached. intros. by split_and!. Qed.

(** A walk that reaches a position, or is abandoned because routers are out of
    order. *)
Definition walks (m : res (Z * Z * router_id_iterator * router_id_iterator))
    (i1 i2 : Z) (it1 it2 : router_id_iterator) : Prop :=
  (exists p, m = Ok p /\ reached i1 i2 it1 it2 p) \/ (m = Null /\ unsorted i1 i2 it1 it2).

Lemma walks_trans m i1 i2 it1 it2 j1 j2 jt1 jt2 :
  reached i1 i2 it1 it2 (j1, j2, jt1, jt2) -> walks m j1 j2 jt1 jt2 -> walks m i1 i2 it1 it2.
Proof.
  intros R [(p & -> & Hp) | [-> Hu]].
  - left. exists p. split; [done |]. by eapply reached_trans.
  - right. split; [done |]. by eapply reached_unsorted.
Qed.

Lemma walks_Ok p i1 i2 it1 it2 : reached i1 i2 it1 it2 p -> walks (Ok p) i1 i2 it1 it2.
Proof. left. by exists p. Qed.

Lemma match_loop_spec fuel i1 i2 it1 it2 cmp :
  cursor_ok cons1 i1 it1 -> cursor_ok cons2 i2 it2 ->
  (L1 - i1) + (L2 - i2) < Z.of_nat fuel ->
  walks (match_loop cons1 cons2 fuel i1 i2 it1 it2 cmp) i1 i2 it1 it2.
Proof.
  revert i1 i2 it1 it2 cmp. induction fuel as [|fuel IH]; intros i1 i2 it1 it2 cmp C1 C2 Hf.
  { pose proof C1 as [? _]. pose proof C2 as [? _]. lia. }
  cbn [match_loop]. unfold len1, len2.
  destruct (cmp =? 0); [by apply walks_Ok, reached_refl |].
  destruct ((i1 <? L1) && (cmp <? 0)) eqn:B1.
  { rewrite andb_true_iff, Z.ltb_lt in B1. destruct B1 as [B1 _].
    destruct (find_next_router_line_spec cons1 i1 it1 C1 B1)
      as [(j1 & jt1 & -> & Hj & Cj & Sj) | [-> ?]]; [| by right; split; [| left]]. rbind.
    eapply walks_trans; [by apply (reached_1 i1 i2 it1 it2 j1 jt1) |].
    destruct (Z.eqb_spec j1 L1) as [-> | _]; [by apply walks_Ok, reached_end |].
    destruct (base64cmp_Ok (hash jt1) (hash it2)) as [c ->]; [apply Cj | apply C2 |]. rbind.
    apply IH; [done | done | lia]. }
  destruct ((i2 <? L2) && (0 <? cmp)) eqn:B2; [| by apply walks_Ok, reached_end].
  rewrite andb_true_iff, Z.ltb_lt in B2. destruct B2 as [B2 _].
  destruct (find_next_router_line_spec cons2 i2 it2 C2 B2)
    as [(j2 & jt2 & -> & Hj & Cj & Sj) | [-> ?]]; [| by right; split; [| right]]. rbind.
  eapply walks_trans; [by apply (reached_2 i1 i2 it1 it2 j2 jt2) |].
  destruct (Z.eqb_spec j2 L2) as [-> | _]; [by apply walks_Ok, reached_end |].
  destruct (base64cmp_Ok (hash it1) (hash jt2)) as [c ->]; [apply C1 | apply Cj |]. rbind.
  apply IH; [done | done | lia].
Qed.

(** One cursor of the outer loop: it advances unless it is at the end. *)
Lemma advance_cursor cons i it :
  cursor_ok cons i it ->
  (exists j jt, (if i <? Z.of_nat (length cons) then find_next_router_line cons i it else Ok (i, it))
                = Ok (j, jt)
     /\ i <= j /\ (i < Z.of_nat (length cons) -> i < j) /\ 0 <= j /\ cursor_ok cons j jt
     /\ (ahead_sorted cons i it = true -> ahead_sorted cons j jt = true))
  \/ ((if i <? Z.of_nat (length cons) then find_next_router_line cons i it else Ok (i, it)) = Null
      /\ ahead_sorted cons i it = false).
Proof.
  intros C. pose proof C as [Hi _]. destruct (Z.ltb_spec i (Z.of_nat (length cons))) as [Hlt | Hge].
  - destruct (find_next_router_line_spec cons i it C Hlt) as [(j & jt & -> & Hj & Cj & Sj) | ?]; [| by right].
    left. exists j, jt. split_and!; try done; lia.
  - left. exists i, it. split_and!; try done; lia.
Qed.

(** An iteration of the outer loop, up to the cut, in front of a continuation. *)
Lemma outer_step {A} (K : Z -> Z -> router_id_iterator -> router_id_iterator -> res A) i1 i2 it1 it2 :
  cursor_ok cons1 i1 it1 -> cursor_ok cons2 i2 it2 -> i1 < L1 \/ i2 < L2 ->
  let m :=
    '(i1, it1) ← (if i1 <? L1 then find_next_router_line cons1 i1 it1 else Ok (i1, it1));
    '(i2, it2) ← (if i2 <? L2 then find_next_router_line cons2 i2 it2 else Ok (i2, it2));
    '(i1, i2, it1, it2) ←
      (if (i1 <? L1) || (i2 <? L2) then
         cmp ← base64cmp (hash it1) (hash it2);
         match_loop cons1 cons2 (nav_fuel cons1 cons2) i1 i2 it1 it2 cmp
       else Ok (i1, i2, it1, it2));
    K i1 i2 it1 it2 in
  (exists j1 j2 jt1 jt2, m = K j1 j2 jt1 jt2
     /\ reached i1 i2 it1 it2 (j1, j2, jt1, jt2) /\ 0 <= j1 /\ 0 <= j2
     /\ (L1 - j1) + (L2 - j2) < (L1 - i1) + (L2 - i2))
  \/ (m = Null /\ unsorted i1 i2 it1 it2).
Proof.
  intros C1 C2 Hlt. cbv zeta.
  destruct (advance_cursor cons1 i1 it1 C1)
    as [(k1 & kt1 & -> & G1 & P1 & N1 & D1 & S1) | [-> ?]]; [| by right; split; [| left]]. rbind.
  destruct (advance_cursor cons2 i2 it2 C2)
    as [(k2 & kt2 & -> & G2 & P2 & N2 & D2 & S2) | [-> ?]]; [| by right; split; [| right]]. rbind.
  assert (reached i1 i2 it1 it2 (k1, k2, kt1, kt2)) as R by (unfold reached; by split_and!).
  assert (walks (if (k1 <? L1) || (k2 <? L2) then
                   cmp ← base64cmp (hash kt1) (hash kt2);
                   match_loop cons1 cons2 (nav_fuel cons1 cons2) k1 k2 kt1 kt2 cmp
                 else Ok (k1, k2, kt1, kt2)) k1 k2 kt1 kt2) as W.
  { destruct (_ || _); [| by apply walks_Ok, reached_refl].
    destruct (base64cmp_Ok (hash kt1) (hash kt2)) as [c ->]; [apply D1 | apply D2 |]. rbind.
    apply match_loop_spec; [done.. |]. unfold nav_fuel. lia. }
  destruct W as [([[[j1 j2] jt1] jt2] & -> & Hp) | [-> Hu]]; rbind.
  - left. exists j1, j2, jt1, jt2. split; [done |]. split; [by eapply reached_trans |].
    destruct Hp as (Q1 & Q2 & _). destruct Hlt as [H | H]; [specialize (P1 H) | specialize (P2 H)]; lia.
  - right. split; [done |]. by eapply reached_unsorted.
Qed.

(** ** The marks of the outer loop *)

(** Nothing is marked from [start] on. *)
Definition fresh_from (cons : list line) (start : Z) (c : list bool) : Prop :=
  0 <= start /\ length c = length cons
  /\ forall k, start <= Z.of_nat k < Z.of_nat (length cons) -> c !! k = Some false.

(** Marking the piece between [start] and [j] extends the common text. *)
Lemma mark_segment s1 s2 j1 j2 c1 c2 :
  fresh_from cons1 s1 c1 -> fresh_from cons2 s2 c2 -> s1 <= j1 <= L1 -> s2 <= j2 <= L2 ->
  unch c1 cons1 0 (Z.to_nat s1) = unch c2 cons2 0 (Z.to_nat s2) ->
  exists sl1 sl2 r1 r2,
    smartlist_slice cons1 (Z.to_nat s1) (Z.to_nat j1) = Ok sl1
    /\ smartlist_slice cons2 (Z.to_nat s2) (Z.to_nat j2) = Ok sl2
    /\ calc_changes (S (s_len sl1)) sl1 sl2 c1 c2 = Ok (r1, r2)
    /\ fresh_from cons1 j1 r1 /\ fresh_from cons2 j2 r2
    /\ unch r1 cons1 0 (Z.to_nat j1) = unch r2 cons2 0 (Z.to_nat j2).
Proof.
  intros (P1 & N1 & F1) (P2 & N2 & F2) H1 H2 Hu.
  rewrite !smartlist_slice_Ok by lia. do 2 eexists.
  edestruct (calc_changes_spec (S (Z.to_nat j1 - Z.to_nat s1))) as ([r1 r2] & Hr & [M1 O1] & [M2 O2] & Hs);
    cycle 5.
  { exists r1, r2. split; [done |]. split; [done |]. split; [exact Hr |].
    unfold unch_slice in Hs. cbn [fst snd s_list s_offset s_len] in *. split; [| split].
    - split; [lia |]. split; [congruence |]. intros k Hk. rewrite O1 by lia. apply F1. lia.
    - split; [lia |]. split; [congruence |]. intros k Hk. rewrite O2 by lia. apply F2. lia.
    - replace (Z.to_nat j1) with (Z.to_nat s1 + (Z.to_nat j1 - Z.to_nat s1))%nat by lia.
      replace (Z.to_nat j2) with (Z.to_nat s2 + (Z.to_nat j2 - Z.to_nat s2))%nat by lia.
      rewrite !unch_app. f_equal; [| done].
      rewrite (unch_ext r1 c1 cons1 cons1 0 0) by (intros k Hk; rewrite O1 by lia; done).
      rewrite (unch_ext r2 c2 cons2 cons2 0 0) by (intros k Hk; rewrite O2 by lia; done). done. }
  - cbn. lia.
  - split; cbn; lia.
  - split; cbn; lia.
  - intros k Hk. cbn in *. apply F1. lia.
  - intros k Hk. cbn in *. apply F2. lia.
Qed.

(** Both documents are in order and short enough not to be refused. *)
Definition acceptable (i1 i2 : Z) (it1 it2 : router_id_iterator) : Prop :=
  ahead_sorted cons1 i1 it1 = true /\ ahead_sorted cons2 i2 it2 = true
  /\ L1 <= MAX_LINE_COUNT /\ L2 <= MAX_LINE_COUNT.

(** The state of the outer loop: the cursors are at the cuts, except at first. *)
Definition at_cut (i start : Z) : Prop := i = start \/ (i = -1 /\ start = 0).

(** The end of an iteration, once the cut is known. *)
Definition cut_at (fuel : nat) (s1 s2 : Z) (c1 c2 : list bool)
    (j1 j2 : Z) (jt1 jt2 : router_id_iterator) : res (list bool * list bool) :=
  if (MAX_LINE_COUNT <? j1 - s1) || (MAX_LINE_COUNT <? j2 - s2) then Null
  else
    sl1 ← smartlist_slice cons1 (Z.to_nat s1) (Z.to_nat j1);
    sl2 ← smartlist_slice cons2 (Z.to_nat s2) (Z.to_nat j2);
    '(c1, c2) ← calc_changes (S (s_len sl1)) sl1 sl2 c1 c2;
    segment_loop cons1 cons2 fuel j1 j2 j1 j2 jt1 jt2 c1 c2.

Lemma segment_loop_S fuel i1 i2 s1 s2 it1 it2 c1 c2 :
  segment_loop cons1 cons2 (S fuel) i1 i2 s1 s2 it1 it2 c1 c2 =
  if (i1 <? L1) || (i2 <? L2) then
    '(i1, it1) ← (if i1 <? L1 then find_next_router_line cons1 i1 it1 else Ok (i1, it1));
    '(i2, it2) ← (if i2 <? L2 then find_next_router_line cons2 i2 it2 else Ok (i2, it2));
    '(i1, i2, it1, it2) ←
      (if (i1 <? L1) || (i2 <? L2) then
         cmp ← base64cmp (hash it1) (hash it2);
         match_loop cons1 cons2 (nav_fuel cons1 cons2) i1 i2 it1 it2 cmp
       else Ok (i1, i2, it1, it2));
    cut_at fuel s1 s2 c1 c2 i1 i2 it1 it2
  else Ok (c1, c2).
Proof. reflexivity. Qed.

Lemma segment_loop_spec fuel i1 i2 s1 s2 it1 it2 c1 c2 :
  cursor_ok cons1 i1 it1 -> cursor_ok cons2 i2 it2 -> at_cut i1 s1 -> at_cut i2 s2 ->
  fresh_from cons1 s1 c1 -> fresh_from cons2 s2 c2 ->
  unch c1 cons1 0 (Z.to_nat s1) = unch c2 cons2 0 (Z.to_nat s2) ->
  (L1 - i1) + (L2 - i2) < Z.of_nat fuel ->
  (exists r1 r2, segment_loop cons1 cons2 fuel i1 i2 s1 s2 it1 it2 c1 c2 = Ok (r1, r2)
     /\ length r1 = length cons1 /\ length r2 = length cons2
     /\ unch r1 cons1 0 (length cons1) = unch r2 cons2 0 (length cons2))
  \/ (segment_loop cons1 cons2 fuel i1 i2 s1 s2 it1 it2 c1 c2 = Null
      /\ ~ acceptable i1 i2 it1 it2).
Proof.
  revert i1 i2 s1 s2 it1 it2 c1 c2.
  induction fuel as [|fuel IH]; intros i1 i2 s1 s2 it1 it2 c1 c2 C1 C2 A1 A2 F1 F2 Hu Hf.
  { pose proof C1 as [? _]. pose proof C2 as [? _]. lia. }
  rewrite segment_loop_S. destruct ((i1 <? L1) || (i2 <? L2)) eqn:B.
  2: { rewrite orb_false_iff, !Z.ltb_ge in B. left. exists c1, c2. split; [done |].
       pose proof C1 as [? _]. pose proof C2 as [? _]. pose proof F1 as (_ & ? & _).
       pose proof F2 as (_ & ? & _).
       replace (Z.to_nat s1) with (length cons1) in Hu by (destruct A1 as [| []]; lia).
       replace (Z.to_nat s2) with (length cons2) in Hu by (destruct A2 as [| []]; lia). done. }
  rewrite orb_true_iff, !Z.ltb_lt in B.
  destruct (outer_step (cut_at fuel s1 s2 c1 c2) i1 i2 it1 it2 C1 C2 B)
    as [(j1 & j2 & jt1 & jt2 & -> & R & P1 & P2 & Hm) | [-> Hun]]; cycle 1.
  { right. split; [done |]. unfold acceptable, unsorted in *. intros (? & ? & _). destruct Hun; congruence. }
  destruct R as (G1 & G2 & D1 & D2 & S1 & S2). unfold cut_at.
  assert (s1 <= j1 <= L1) by (destruct A1 as [| []], D1; lia).
  assert (s2 <= j2 <= L2) by (destruct A2 as [| []], D2; lia).
  destruct (_ || _) eqn:Big.
  { right. split; [done |]. unfold acceptable. rewrite orb_true_iff, !Z.ltb_lt in Big.
    pose proof F1 as (? & _). pose proof F2 as (? & _). lia. }
  destruct (mark_segment s1 s2 j1 j2 c1 c2) as (sl1 & sl2 & r1 & r2 & -> & -> & Hc & Q1 & Q2 & Hu');
    [done.. |]. rbind. rewrite Hc. rbind.
  destruct (IH j1 j2 j1 j2 jt1 jt2 r1 r2) as [? | [-> Hna]]; try done; [by left | by left | lia | by left |].
  right. split; [done |]. intros (? & ? & ? & ?). apply Hna. unfold acceptable. auto.
Qed.
End Walk.
