(* ===== verification/ConsdiffEd.v ===== *)
(** * consdiff.c: the ed script written is the ed script read

    Decimal numbers and command lines survive printing and parsing, and the script
    [gen_ed_diff] writes from the marks of both documents is turned back into the
    target by [apply_ed_diff].  The second part takes generation and application as a
    whole. *)

From Stdlib Require Strings.Ascii Strings.String.
From stdpp Require Import sets.
From S2P Require Import Prelude Consdiff ConsdiffCalc ConsdiffNav.
Import Strings.String.StringSyntax.
#[local] Open Scope Z_scope.

(** ** Decimal numbers *)

Lemma strtol_digits_dec_loop f n acc :
  0 <= n < Z.of_nat f -> strtol_digits 0 (dec_loop f n acc) = strtol_digits n acc.
Proof.
  revert n acc. induction f as [|f IH]; intros n acc Hn; [lia |]. cbn [dec_loop].
  pose proof (Z.div_mod n 10 ltac:(lia)) as E. pose proof (Z.mod_pos_bound n 10 ltac:(lia)) as M.
  assert (D : TOR_ISDIGIT (48 + n mod 10) = true)
    by (unfold TOR_ISDIGIT; rewrite andb_true_iff, !Z.leb_le; lia).
  destruct (Z.eqb_spec (n / 10) 0) as [H0 | H0].
  - cbn [strtol_digits]. rewrite D. f_equal. lia.
  - rewrite IH by (split; [apply Z.div_pos; lia |]; lia).
    cbn [strtol_digits]. rewrite D. f_equal. lia.
Qed.

Lemma dec_loop_app f n acc rest : dec_loop f n acc ++ rest = dec_loop f n (acc ++ rest).
Proof.
  revert n acc. induction f as [|f IH]; intros n acc; [done |]. cbn [dec_loop].
  destruct (_ =? 0); [done | apply IH].
Qed.

Lemma dec_loop_hd f n acc : TOR_ISDIGIT (hd 0 acc) = true -> TOR_ISDIGIT (hd 0 (dec_loop f n acc)) = true.
Proof.
  revert n acc. induction f as [|f IH]; intros n acc H; [done |]. cbn [dec_loop].
  assert (TOR_ISDIGIT (48 + n mod 10) = true).
  { pose proof (Z.mod_pos_bound n 10 ltac:(lia)). unfold TOR_ISDIGIT. rewrite andb_true_iff, !Z.leb_le. lia. }
  destruct (_ =? 0); [done | by apply IH].
Qed.

Lemma dec_hd n rest : TOR_ISDIGIT (hd 0 (dec n ++ rest)) = true.
Proof.
  unfold dec. rewrite dec_loop_app. cbn [dec_loop app].
  assert (TOR_ISDIGIT (48 + Z.of_nat n mod 10) = true).
  { pose proof (Z.mod_pos_bound (Z.of_nat n) 10 ltac:(lia)).
    unfold TOR_ISDIGIT. rewrite andb_true_iff, !Z.leb_le. lia. }
  destruct (_ =? 0); [done | by apply dec_loop_hd].
Qed.

Lemma dec_loop_length k f n acc :
  0 <= n < 10 ^ Z.of_nat (S k) -> (length (dec_loop f n acc) <= S k + length acc)%nat.
Proof.
  revert f n acc. induction k as [|k IH]; intros [|f] n acc Hn; cbn [dec_loop length]; try lia.
  - rewrite Z.div_small by lia. cbn. lia.
  - destruct (_ =? 0); [cbn; lia |].
    rewrite (IH f (n / 10)); [cbn; lia |].
    rewrite (Nat2Z.inj_succ (S k)), Z.pow_succ_r in Hn by lia.
    split; [apply Z.div_pos; lia | apply Z.div_lt_upper_bound; lia].
Qed.

Lemma dec_length n : Z.of_nat n <= INT32_MAX -> (length (dec n) <= 10)%nat.
Proof.
  intros H. unfold dec. rewrite (dec_loop_length 9); [cbn; lia |].
  unfold INT32_MAX in H. cbn. lia.
Qed.

(** A printed line number is read back. *)
Lemma get_linenum_dec n rest :
  Z.of_nat n <= INT32_MAX -> TOR_ISDIGIT (hd 0 rest) = false ->
  get_linenum (dec n ++ rest) = Some (Z.of_nat n, rest).
Proof.
  intros Hn Hr. unfold get_linenum, tor_parse_long. rewrite dec_hd. cbn [negb].
  unfold dec. rewrite dec_loop_app, strtol_digits_dec_loop by lia. cbn [app].
  replace (strtol_digits _ rest) with (Z.of_nat n, rest) by (destruct rest; cbn in *; by rewrite ?Hr).
  destruct (Z.ltb_spec (Z.of_nat n) 0); [lia |]. destruct (Z.ltb_spec INT32_MAX (Z.of_nat n)); [lia |].
  done.
Qed.

(** ** Command lines *)

Lemma short_line (l : line) : (length l <= 127)%nat -> (127 <? Z.of_nat (length l)) = false.
Proof. intros. apply Z.ltb_ge. lia. Qed.

(** ["<n><action>"]. *)
Lemma parse_single s x n j :
  x = char_a \/ x = char_c \/ x = char_d -> Z.of_nat s <= INT32_MAX -> Z.of_nat s <= j ->
  parse_command (dec s ++ [x]) n j = Some (EdCommand (Z.of_nat s) (Z.of_nat s) x).
Proof.
  intros Hx Hs Hj. pose proof (dec_length s Hs) as Hl. unfold parse_command.
  rewrite short_line by (rewrite length_app; cbn [length]; lia).
  rewrite get_linenum_dec by (destruct Hx as [-> | [-> | ->]]; done).
  destruct (Z.ltb_spec j (Z.of_nat s)); [lia |].
  destruct Hx as [-> | [-> | ->]]; cbn; destruct (Z.ltb_spec j (Z.of_nat s)); by try lia.
Qed.

(** ["<s>,<e><action>"]. *)
Lemma parse_range s e x n j :
  x = char_c \/ x = char_d -> (s < e)%nat -> Z.of_nat e <= INT32_MAX -> Z.of_nat e <= j ->
  parse_command (dec s ++ [44] ++ dec e ++ [x]) n j = Some (EdCommand (Z.of_nat s) (Z.of_nat e) x).
Proof.
  intros Hx Hse He Hj. pose proof (dec_length s ltac:(lia)) as Hl1. pose proof (dec_length e He) as Hl2.
  unfold parse_command. rewrite short_line by (rewrite !length_app; cbn [length]; lia).
  rewrite get_linenum_dec by (try done; lia). obind. cbv iota. cbn [app hd tail]. rewrite Z.eqb_refl.
  destruct (Z.eqb_spec (hd 0 (dec e ++ [x])) 36) as [E | _].
  { pose proof (dec_hd e [x]) as D. by rewrite E in D. }
  rewrite get_linenum_dec by (try done; destruct Hx as [-> | ->]; done). obind. cbv iota.
  destruct (Z.leb_spec (Z.of_nat e) (Z.of_nat s)); [lia |]. obind. cbv iota.
  destruct (Z.ltb_spec j (Z.of_nat e)); [lia |].
  by destruct Hx as [-> | ->].
Qed.

(** ["<s>,$d"]. *)
Lemma parse_trailer s n j :
  Z.of_nat s <= INT32_MAX -> Z.of_nat s < n -> n <= j ->
  parse_command (dec s ++ str ",$d") n j = Some (EdCommand (Z.of_nat s) n char_d).
Proof.
  intros Hs Hn Hj. pose proof (dec_length s Hs) as Hl.
  change (str ",$d") with [44; 36; 100]. unfold parse_command. rewrite short_line by (rewrite !length_app; cbn [length]; lia).
  rewrite get_linenum_dec by done. obind. cbv iota.
  cbn [hd tail]. rewrite Z.eqb_refl. cbn.
  destruct (Z.leb_spec n (Z.of_nat s)); [lia |]. cbn.
  destruct (Z.ltb_spec j n); [lia |]. done.
Qed.

(** The same command is refused when it would delete nothing or a single line. *)
Lemma parse_trailer_refused s n j :
  Z.of_nat s <= INT32_MAX -> n <= Z.of_nat s -> parse_command (dec s ++ str ",$d") n j = None.
Proof.
  intros Hs Hn. pose proof (dec_length s Hs) as Hl.
  change (str ",$d") with [44; 36; 100]. unfold parse_command. rewrite short_line by (rewrite !length_app; cbn [length]; lia).
  rewrite get_linenum_dec by done. obind. cbv iota.
  cbn [hd tail]. rewrite Z.eqb_refl. cbn.
  by destruct (Z.leb_spec n (Z.of_nat s)); [| lia].
Qed.

(** ** Applying one command *)

(** The lines [a .. b - 1]. *)
Definition seg (l : list line) (a b : nat) : list line := take (b - a) (drop a l).

Lemma seg_same l a : seg l a a = [].
Proof. unfold seg. by rewrite Nat.sub_diag. Qed.

Lemma seg_cons l a b x : (a < b)%nat -> l !! a = Some x -> seg l a b = x :: seg l (S a) b.
Proof.
  intros Hab Hx. unfold seg. rewrite (drop_S _ _ _ Hx).
  by replace (b - a)%nat with (S (b - S a)) by lia.
Qed.

Lemma seg_snoc l a b x : (a <= b)%nat -> l !! b = Some x -> seg l a (S b) = seg l a b ++ [x].
Proof.
  intros Hab Hx. unfold seg. replace (S b - a)%nat with (S (b - a)) by lia.
  apply take_S_r. rewrite lookup_drop. by replace (a + (b - a))%nat with b by lia.
Qed.

Lemma seg_drop l a b : (a <= b)%nat -> seg l a b ++ drop b l = drop a l.
Proof.
  intros Hab. unfold seg. replace (drop b l) with (drop (b - a) (drop a l)).
  - apply take_drop.
  - rewrite drop_drop. f_equal. lia.
Qed.

Lemma copy_lines_spec base cnt j :
  (cnt <= j <= length base)%nat ->
  copy_lines base cnt (Z.of_nat j) = Ok (reverse (seg base (j - cnt) j)).
Proof.
  revert j. induction cnt as [|cnt IH]; intros j Hj; cbn [copy_lines].
  - by rewrite Nat.sub_0_r, seg_same.
  - destruct j as [|j]; [lia |].
    replace (Z.of_nat (S j) - 1) with (Z.of_nat j) by lia. rewrite Nat2Z.id.
    destruct (get_lt base j) as (x & -> & Hx); [lia |]. rbind. rewrite IH by lia. rbind.
    cbn [Nat.sub]. by rewrite (seg_snoc _ _ _ _ (Nat.le_sub_l _ _) Hx), reverse_app.
Qed.

(** [script] turns the first [n1] lines of [base] into the first [n2] lines of
    [target], when the rest of the target is already written. *)
Definition rewrites (base target : list line) (script : list line) (n1 n2 : nat) : Prop :=
  forall j acc f, (n1 <= j <= length base)%nat ->
    acc ++ reverse (seg base n1 j) = reverse (drop n2 target) ->
    (length script < f)%nat ->
    apply_loop base f script (Z.of_nat j) acc = Ok target.

Lemma rewrites_nil base target : rewrites base target [] 0 0.
Proof.
  intros j acc [|f] Hj Hacc Hf; [cbn in Hf; lia |]. cbn [apply_loop].
  rewrite Nat2Z.id, copy_lines_spec by lia. rbind. rewrite Nat.sub_diag, Hacc, drop_0.
  by rewrite reverse_involutive.
Qed.

(** A line common to both. *)
Lemma rewrites_same base target script n1 n2 x :
  base !! n1 = Some x -> target !! n2 = Some x ->
  rewrites base target script n1 n2 -> rewrites base target script (S n1) (S n2).
Proof.
  intros H1 H2 H j acc f Hj Hacc Hf. apply H; [lia | | done].
  rewrite (seg_cons _ _ _ _ (proj1 Hj) H1), (drop_S _ _ _ H2), !reverse_cons, app_assoc. by rewrite Hacc.
Qed.

Lemma until_dot_app new rest :
  Forall (fun l => l <> str ".") new -> until_dot (new ++ [str "."] ++ rest) = Some (new, rest).
Proof.
  intros H. induction H as [|l new Hl _ IH]; cbn [until_dot app].
  - unfold line_str_eq. by rewrite (proj2 (lines_eq_spec _ _)).
  - destruct (line_str_eq l (str ".")) eqn:E; [by apply lines_eq_spec in E |].
    cbn [app] in IH. rewrite IH. done.
Qed.

(** What follows a command: the new lines and a dot, if there are new lines. *)
Definition command_body (new : list line) : list line :=
  match new with [] => [] | _ => new ++ [str "."] end.

(** The index left by a command that ends at line [n1] and deletes from [m1]. *)
Lemma parse_written m1 n1 (added : bool) n j :
  (m1 <= n1)%nat -> added = true \/ (m1 < n1)%nat -> Z.of_nat n1 <= INT32_MAX -> Z.of_nat n1 <= j ->
  exists cmd, parse_command (command m1 (n1 - m1) added) n j = Some cmd
    /\ ed_end cmd = Z.of_nat n1
    /\ (ed_action cmd =? char_a) || (ed_action cmd =? char_c) = added
    /\ (if (ed_action cmd =? char_c) || (ed_action cmd =? char_d)
        then Z.min (Z.of_nat n1 - 1) (ed_start cmd - 1) else Z.of_nat n1) = Z.of_nat m1.
Proof.
  intros Hm Hd Hn Hj. unfold command.
  change (str "a") with [char_a]. change (str "c") with [char_c]. change (str "d") with [char_d].
  change (str ",") with [44].
  destruct (n1 - m1)%nat as [|[|d]] eqn:Ed; destruct added; try (destruct Hd; [done | lia]).
  - rewrite parse_single by (auto; lia). eexists. split; [done |]. cbn. split_and!; try done; lia.
  - rewrite parse_single by (auto; lia). eexists. split; [done |]. cbn. split_and!; try done; lia.
  - rewrite parse_single by (auto; lia). eexists. split; [done |]. cbn. split_and!; try done; lia.
  - replace (m1 + S (S d))%nat with n1 by lia.
    rewrite parse_range by (auto; lia). eexists. split; [done |]. cbn. split_and!; try done; lia.
  - replace (m1 + S (S d))%nat with n1 by lia.
    rewrite parse_range by (auto; lia). eexists. split; [done |]. cbn. split_and!; try done; lia.
Qed.

Lemma rewrites_command base target script m1 n1 m2 n2 :
  Z.of_nat (length base) <= INT32_MAX ->
  (m1 <= n1 <= length base)%nat -> (m2 <= n2 <= length target)%nat -> (m1 < n1 \/ m2 < n2)%nat ->
  Forall (fun l => l <> str ".") (seg target m2 n2) ->
  rewrites base target script m1 m2 ->
  rewrites base target
    (command m1 (n1 - m1) (negb (Nat.eqb (n2 - m2) 0)) :: command_body (seg target m2 n2) ++ script) n1 n2.
Proof.
  intros Hmax H1 H2 Hd Hnew H j acc [|f] Hj Hacc Hf; [cbn in Hf; lia |]. cbn [apply_loop].
  destruct (parse_written m1 n1 (negb (Nat.eqb (n2 - m2) 0)) (Z.of_nat (length base)) (Z.of_nat j))
    as (cmd & -> & He & Ha & Hs); [lia | | lia.. |].
  { destruct (Nat.eqb_spec (n2 - m2) 0); [right; lia | by left]. }
  rewrite He. replace (Z.to_nat (Z.of_nat j - Z.of_nat n1)) with (j - n1)%nat by lia.
  rewrite copy_lines_spec by lia. rbind. replace (j - (j - n1))%nat with n1 by lia.
  replace (Z.min (Z.of_nat j) (Z.of_nat n1)) with (Z.of_nat n1) by lia. rewrite Hs, Ha, Hacc.
  cbn [length] in Hf. rewrite length_app in Hf.
  assert (length (seg target m2 n2) = (n2 - m2)%nat) as Hlen
    by (unfold seg; rewrite length_take, length_drop; lia).
  destruct (Nat.eqb_spec (n2 - m2) 0) as [E | E]; cbn [negb].
  - replace n2 with m2 in * by lia. rewrite seg_same in Hf |- *. cbn in Hf |- *.
    apply H; [lia | by rewrite seg_same, app_nil_r | lia].
  - pose proof (seg_drop target m2 n2 ltac:(lia)) as Hdrop.
    destruct (seg target m2 n2) as [|x new] eqn:Eseg; [cbn in Hlen; lia |]. cbn [command_body] in Hf |- *.
    rewrite <- (app_assoc (x :: new)), until_dot_app by done.
    rewrite <- reverse_app, Hdrop. apply H; [lia | by rewrite seg_same, app_nil_r |].
    rewrite length_app in Hf. cbn in Hf. lia.
Qed.

(** ** Writing the script *)

Lemma is_changed_spec c n :
  (n <= length c)%nat ->
  exists b, is_changed c n = Ok b
    /\ (b = true -> (0 < n)%nat /\ c !! (n - 1)%nat = Some true)
    /\ (b = false -> n = 0%nat \/ ((0 < n)%nat /\ c !! (n - 1)%nat = Some false)).
Proof.
  intros Hn. destruct n as [|m]; cbn [is_changed].
  - exists false. split; [done |]. split; [done | by left].
  - destruct (get_lt c m) as (b & -> & Hb); [lia |]. exists b. rewrite Nat.sub_1_r. cbn [Nat.pred].
    split; [done |]. split; [intros ->; split; [lia | done] |]. intros ->. right. split; [lia | done].
Qed.

(** The run of marked lines that ends at [n]. *)
Lemma run_start_spec c n :
  (n <= length c)%nat ->
  exists m, run_start c n = Ok m /\ (m <= n)%nat
    /\ (forall k, (m <= k < n)%nat -> c !! k = Some true)
    /\ ((0 < n)%nat -> c !! (n - 1)%nat = Some true -> (m < n)%nat).
Proof.
  induction n as [|n IH]; intros Hn; cbn [run_start].
  - exists 0%nat. split_and!; lia || done.
  - destruct (get_lt c n) as (b & -> & Hb); [lia |]. rbind. rewrite Nat.sub_1_r. cbn [Nat.pred].
    destruct b.
    + destruct IH as (m & -> & Hm & Hall & _); [lia |]. exists m. split_and!; [done | lia | | lia].
      intros k Hk. destruct (decide (k = n)) as [-> |]; [done | apply Hall; lia].
    + exists (S n). split_and!; [done | lia | lia | congruence].
Qed.

Lemma added_lines_spec target i n :
  (i + n <= length target)%nat ->
  (added_lines target i n = Ok (seg target i (i + n))
   /\ Forall (fun l => l <> str ".") (seg target i (i + n)))
  \/ (added_lines target i n = Null /\ str "." ∈ target).
Proof.
  revert i. induction n as [|n IH]; intros i Hi; cbn [added_lines].
  - left. by rewrite Nat.add_0_r, seg_same.
  - destruct (get_lt target i) as (x & -> & Hx); [lia |]. rbind.
    destruct (line_str_eq x (str ".")) eqn:E.
    { right. apply lines_eq_spec in E as ->. split; [done |]. by eapply list_elem_of_lookup_2. }
    assert (x <> str ".") by (intros ->; by rewrite (proj2 (lines_eq_spec _ _)) in E).
    rewrite (seg_cons _ i (i + S n) x) by (lia || done).
    replace (i + S n)%nat with (S i + n)%nat by lia.
    destruct (IH (S i)) as [[-> Hf] | [-> Hd]]; [lia | |]; rbind.
    + left. split; [done |]. by apply Forall_cons_2.
    + by right.
Qed.

Section Emit.
Context (base target : list line) (c1 c2 : list bool).
Hypothesis (Hmax : Z.of_nat (length base) <= INT32_MAX).
Hypothesis (Hc1 : (length c1 <= length base)%nat) (Hc2 : length c2 = length target).

(** The same text remains before [n1] and before [n2]. *)
Definition agree (n1 n2 : nat) : Prop := unch c1 base 0 n1 = unch c2 target 0 n2.

Lemma unch_snoc c l n x :
  c !! n = Some false -> l !! n = Some x -> unch c l 0 (S n) = unch c l 0 n ++ [x].
Proof. intros Hc Hl. by rewrite <- Nat.add_1_r, unch_app, unch_1, Nat.add_0_l, Hc, Hl. Qed.

(** If neither line before the cursors is marked, both exist and are equal. *)
Lemma agree_same n1 n2 :
  (n1 <= length c1)%nat -> (n2 <= length c2)%nat -> (0 < n1 \/ 0 < n2)%nat ->
  n1 = 0%nat \/ ((0 < n1)%nat /\ c1 !! (n1 - 1)%nat = Some false) ->
  n2 = 0%nat \/ ((0 < n2)%nat /\ c2 !! (n2 - 1)%nat = Some false) ->
  agree n1 n2 ->
  exists m1 m2 x, n1 = S m1 /\ n2 = S m2
    /\ base !! m1 = Some x /\ target !! m2 = Some x /\ agree m1 m2.
Proof.
  intros L1 L2 Hpos U1 U2 Hag. unfold agree in *.
  destruct n1 as [|m1], n2 as [|m2]; [lia | | |].
  - destruct U2 as [| [_ U2]]; [lia |]. rewrite Nat.sub_1_r in U2. cbn in U2.
    destruct (lookup_lt_is_Some_2 target m2) as [y Hy]; [lia |].
    rewrite (unch_snoc _ _ _ _ U2 Hy) in Hag. symmetry in Hag. by apply app_nil in Hag as [_ ?].
  - destruct U1 as [| [_ U1]]; [lia |]. rewrite Nat.sub_1_r in U1. cbn in U1.
    destruct (lookup_lt_is_Some_2 base m1) as [y Hy]; [lia |].
    rewrite (unch_snoc _ _ _ _ U1 Hy) in Hag. by apply app_nil in Hag as [_ ?].
  - destruct U1 as [| [_ U1]]; [lia |]. rewrite Nat.sub_1_r in U1. cbn in U1.
    destruct U2 as [| [_ U2]]; [lia |]. rewrite Nat.sub_1_r in U2. cbn in U2.
    destruct (lookup_lt_is_Some_2 base m1) as [x Hx]; [lia |].
    destruct (lookup_lt_is_Some_2 target m2) as [y Hy]; [lia |].
    rewrite (unch_snoc _ _ _ _ U1 Hx), (unch_snoc _ _ _ _ U2 Hy) in Hag.
    apply app_inj_tail in Hag as [Hag ->]. by exists m1, m2, y.
Qed.

Lemma unch_run c l m n :
  (m <= n)%nat -> (forall k, (m <= k < n)%nat -> c !! k = Some true) -> unch c l 0 n = unch c l 0 m.
Proof.
  intros Hmn Hall. replace n with (m + (n - m))%nat by lia. rewrite unch_app, (unch_marked c l (0 + m)).
  - apply app_nil_r.
  - intros k Hk. apply Hall. lia.
Qed.

(** The loop either writes a script that rewrites the base into the target, or
    meets a line "." to be added. *)
Definition writes (m : res (list line)) (result : list line) (n1 n2 : nat) : Prop :=
  (exists script, m = Ok (result ++ script) /\ rewrites base target script n1 n2)
  \/ (m = Null /\ str "." ∈ target).

Definition emit_ok (fuel : nat) : Prop := forall n1 n2 result,
  (n1 <= length c1)%nat -> (n2 <= length c2)%nat -> (n1 + n2 < fuel)%nat -> agree n1 n2 ->
  writes (emit_loop target fuel c1 c2 n1 n2 result) result n1 n2.

Lemma command_body_app new : new <> [] -> command_body new = new ++ [str "."].
Proof. by destruct new. Qed.

(** The command for the runs that end at [n1] and [n2] and start at [m1] and [m2]. *)
Lemma emit_command fuel m1 n1 m2 n2 result :
  emit_ok fuel -> (m1 <= n1 <= length c1)%nat -> (m2 <= n2 <= length c2)%nat ->
  (m1 < n1 \/ m2 < n2)%nat -> (m1 + m2 < fuel)%nat -> agree m1 m2 ->
  writes
    (if Nat.eqb (n2 - m2) 0 then
       emit_loop target fuel c1 c2 m1 m2 (result ++ [command m1 (n1 - m1) false])
     else
       new ← added_lines target m2 (n2 - m2);
       emit_loop target fuel c1 c2 m1 m2
         (result ++ [command m1 (n1 - m1) true] ++ new ++ [str "."])) result n1 n2.
Proof.
  intros IH M1 M2 Hlt Hf Hag.
  destruct (added_lines_spec target m2 (n2 - m2)) as [[Hal Hnd] | [Hal Hd]]; [lia | |].
  2: { rewrite Hal. destruct (Nat.eqb_spec (n2 - m2) 0) as [E | E]; [| by right]. by rewrite E in Hal. }
  replace (m2 + (n2 - m2))%nat with n2 in * by lia. rewrite Hal.
  destruct (Nat.eqb_spec (n2 - m2) 0) as [E | E]; rbind.
  - destruct (IH m1 m2 (result ++ [command m1 (n1 - m1) false])) as [(script & -> & Hs) | ?];
      [lia.. | done | | by right].
    left. eexists. split; [by rewrite <- app_assoc |].
    pose proof (rewrites_command base target script m1 n1 m2 n2) as Hcmd.
    rewrite E in Hcmd. replace n2 with m2 in * by lia. rewrite seg_same in Hcmd. apply Hcmd; try done; lia.
  - destruct (IH m1 m2 (result ++ [command m1 (n1 - m1) true] ++ seg target m2 n2 ++ [str "."]))
      as [(script & -> & Hs) | ?]; [lia.. | done | | by right].
    left. eexists. split; [by rewrite <- app_assoc |].
    pose proof (rewrites_command base target script m1 n1 m2 n2) as Hcmd.
    rewrite (proj2 (Nat.eqb_neq _ _) E), command_body_app in Hcmd.
    + rewrite <- !app_assoc in *. apply Hcmd; try done; lia.
    + intros Es%(f_equal length). unfold seg in Es. rewrite length_take, length_drop in Es. cbn in Es. lia.
Qed.

Lemma emit_loop_spec fuel : emit_ok fuel.
Proof.
  induction fuel as [|fuel IH]; intros n1 n2 result L1 L2 Hf Hag; [lia |].
  cbn [emit_loop]. destruct (_ || _) eqn:Hpos.
  2: { rewrite orb_false_iff, !Nat.ltb_ge in Hpos. left. exists []. rewrite app_nil_r. split; [done |].
       replace n1 with 0%nat by lia. replace n2 with 0%nat by lia. apply rewrites_nil. }
  rewrite orb_true_iff, !Nat.ltb_lt in Hpos.
  destruct (is_changed_spec c1 n1) as (b1 & -> & T1 & F1); [done |]. rbind.
  destruct (is_changed_spec c2 n2) as (b2 & -> & T2 & F2); [done |]. rbind.
  destruct (negb b1 && negb b2) eqn:Hb.
  { rewrite andb_true_iff, !negb_true_iff in Hb. destruct Hb as [-> ->].
    destruct (agree_same n1 n2) as (m1 & m2 & x & -> & -> & Hx1 & Hx2 & Hag'); auto.
    rewrite !Nat.sub_1_r. cbn [Nat.pred].
    destruct (IH m1 m2 result) as [(script & -> & Hs) | ?]; [lia.. | done | | by right].
    left. exists script. split; [done |]. by eapply rewrites_same. }
  destruct (run_start_spec c1 n1) as (m1 & -> & M1 & R1 & P1); [done |]. rbind.
  destruct (run_start_spec c2 n2) as (m2 & -> & M2 & R2 & P2); [done |]. rbind.
  assert (m1 < n1 \/ m2 < n2)%nat.
  { destruct b1; [left; apply P1; by apply T1 |]. destruct b2; [right; apply P2; by apply T2 | done]. }
  apply emit_command; [done | lia.. |].
  unfold agree. by rewrite <- (unch_run _ _ m1 n1), <- (unch_run _ _ m2 n2).
Qed.
End Emit.

(** * consdiff.c: generating and applying, at the level of lines

    [gen_ed_diff] never fails an assertion; it is refused only for documents
    whose routers are out of order, that have too long a piece, or that add a
    line "."; and the script it returns rewrites the base into the target.
    [apply_ed_diff] is safe on every script. *)

Import Strings.String.StringSyntax.
#[local] Open Scope Z_scope.

(** ** The signatures of the base *)

Lemma find_prefix_lt pre l k : find_prefix pre l = Some k -> (k < length l)%nat.
Proof.
  revert k. induction l as [|x l IH]; intros k; cbn [find_prefix]; [done |].
  destruct (line_starts_with_str x pre); [intros [= <-]; cbn; lia |].
  destruct (find_prefix pre l) as [i|]; [| done]. intros [= <-]. specialize (IH i eq_refl). cbn. lia.
Qed.

(** The part of the base that is compared. *)
Definition unsigned_part (cons : list line) : list line := (preprocess_consensus cons).1.

(** The number of lines of the signature section. *)
Definition signature_lines (cons : list line) : nat := length cons - length (unsigned_part cons).

Lemma preprocess_spec cons :
  exists k, (k <= length cons)%nat /\ unsigned_part cons = take k cons
    /\ ((k < length cons)%nat /\ preprocess_consensus cons = (take k cons, Some (dec (k + 1) ++ str ",$d"))
        \/ k = length cons /\ preprocess_consensus cons = (take k cons, None)).
Proof.
  unfold unsigned_part, preprocess_consensus. destruct (find_prefix _ cons) as [k|] eqn:E.
  - apply find_prefix_lt in E. exists k. split; [lia |]. split; [done |]. by left.
  - exists (length cons). split; [lia |]. rewrite take_ge by lia. split; [done |]. by right.
Qed.

(** ** Generation *)

(** What makes [gen_ed_diff] give up. *)
Definition diffable (cons1 cons2 : list line) : Prop :=
  routers_sorted (unsigned_part cons1) = true /\ routers_sorted cons2 = true
  /\ Z.of_nat (length (unsigned_part cons1)) <= MAX_LINE_COUNT
  /\ Z.of_nat (length cons2) <= MAX_LINE_COUNT
  /\ str "." ∉ cons2.

#[export] Instance diffable_dec cons1 cons2 : Decision (diffable cons1 cons2).
Proof. unfold diffable. apply _. Defined.

Lemma fresh_start cons : fresh_from cons 0 (replicate (length cons) false).
Proof.
  split; [lia |]. split; [apply length_replicate |]. intros k Hk. apply lookup_replicate_2. lia.
Qed.

Lemma cursor_start cons : cursor_ok cons (-1) ROUTER_ID_ITERATOR_INIT.
Proof. split; [lia | done]. Qed.

(** The marks of both documents. *)
Lemma gen_marks cons1 cons2 :
  (exists r1 r2,
     segment_loop cons1 cons2 (nav_fuel cons1 cons2) (-1) (-1) 0 0
       ROUTER_ID_ITERATOR_INIT ROUTER_ID_ITERATOR_INIT
       (replicate (length cons1) false) (replicate (length cons2) false) = Ok (r1, r2)
     /\ length r1 = length cons1 /\ length r2 = length cons2
     /\ unch r1 cons1 0 (length cons1) = unch r2 cons2 0 (length cons2))
  \/ (segment_loop cons1 cons2 (nav_fuel cons1 cons2) (-1) (-1) 0 0
       ROUTER_ID_ITERATOR_INIT ROUTER_ID_ITERATOR_INIT
       (replicate (length cons1) false) (replicate (length cons2) false) = Null
      /\ ~ (routers_sorted cons1 = true /\ routers_sorted cons2 = true
            /\ Z.of_nat (length cons1) <= MAX_LINE_COUNT /\ Z.of_nat (length cons2) <= MAX_LINE_COUNT)).
Proof.
  apply (segment_loop_spec cons1 cons2); try apply cursor_start; try apply fresh_start; try by right.
  - done.
  - unfold nav_fuel. lia.
Qed.

(** [gen_ed_diff]: it succeeds on diffable documents, never fails an assertion,
    and its script, after the command that deletes the signatures, rewrites the
    unsigned part of the base into the target. *)
Lemma gen_ed_diff_spec base target :
  Z.of_nat (length base) <= INT32_MAX ->
  (exists script,
     gen_ed_diff base target = Ok (option_list (preprocess_consensus base).2 ++ script)
     /\ rewrites base target script (length (unsigned_part base)) (length target))
  \/ (gen_ed_diff base target = Null /\ ~ diffable base target).
Proof.
  intros Hmax. unfold gen_ed_diff, diffable.
  destruct (preprocess_spec base) as (k & Hk & Hu & Hpre). rewrite Hu.
  set (c1 := take k base) in *.
  assert (length c1 = k) as Hlen by (subst c1; rewrite length_take; lia).
  destruct (preprocess_consensus base) as [c1' tr] eqn:Ep. cbn [snd].
  assert (c1' = c1) as -> by (destruct Hpre as [[_ [= -> _]] | [_ [= -> _]]]; done).
  destruct (gen_marks c1 target) as [(r1 & r2 & -> & N1 & N2 & Hag) | [-> Hno]];
    [| right; split; [done |]; tauto].
  rbind. replace (match tr with Some t => [t] | None => [] end) with (option_list tr) by (by destruct tr).
  destruct (emit_loop_spec base target r1 r2 Hmax ltac:(lia) N2 (S (length c1 + length target))
              (length c1) (length target) (option_list tr)) as [(script & -> & Hs) | [-> Hd]]; [lia.. | | |].
  - unfold agree. rewrite <- Hag. apply unch_ext. intros i Hi. split; [done |].
    subst c1. rewrite lookup_take_lt by lia. done.
  - left. by exists script.
  - right. split; [done |]. tauto.
Qed.

(** The script rewrites the base, unless the signature section is a single line. *)
Lemma apply_gen_ed_diff base target ed :
  Z.of_nat (length base) <= INT32_MAX -> signature_lines base <> 1%nat ->
  gen_ed_diff base target = Ok ed ->
  forall hdr, apply_ed_diff base (hdr ++ ed) (length hdr) = Ok target.
Proof.
  intros Hmax Hsig Hgen hdr. unfold signature_lines in Hsig.
  destruct (gen_ed_diff_spec base target Hmax) as [(script & E & Hs) | [E _]]; [| congruence].
  rewrite Hgen in E. injection E as ->. unfold apply_ed_diff. rewrite drop_app_length.
  destruct (preprocess_spec base) as (k & Hk & Hu & Hpre). rewrite Hu, length_take in *.
  replace (k `min` length base)%nat with k in * by lia.
  destruct Hpre as [[Hlt ->] | [-> ->]]; cbn [snd].
  - change (option_list (Some ?t)) with [t]. rewrite length_app. cbn [app apply_loop length].
    rewrite parse_trailer by lia. cbn [ed_end ed_action ed_start].
    rewrite Z.sub_diag. cbn [Z.to_nat copy_lines]. rbind. rewrite Z.min_id. cbn [orb].
    change (char_d =? char_c) with false. change (char_d =? char_d) with true.
    change (char_d =? char_a) with false. cbn [orb].
    replace (Z.min _ _) with (Z.of_nat k) by lia. apply Hs; [lia | | lia].
    rewrite seg_same, drop_ge by lia. done.
  - change (option_list None) with (@nil line). cbn [app].
    apply Hs; [lia | | rewrite length_app; lia]. rewrite seg_same, drop_ge by lia. done.
Qed.

(** With a signature section of one line the command "N,$d" names a range of one
    line, which the parser refuses. *)
Lemma apply_gen_refused base target ed :
  Z.of_nat (length base) <= INT32_MAX -> signature_lines base = 1%nat ->
  gen_ed_diff base target = Ok ed -> apply_ed_diff base ed 0 = Null.
Proof.
  intros Hmax Hsig Hgen. unfold signature_lines in Hsig.
  destruct (gen_ed_diff_spec base target Hmax) as [(script & E & _) | [E _]]; [| congruence].
  rewrite Hgen in E. injection E as ->. unfold apply_ed_diff. rewrite drop_0.
  destruct (preprocess_spec base) as (k & Hk & Hu & Hpre). rewrite Hu, length_take in *.
  destruct Hpre as [[Hlt ->] | [-> ->]]; cbn [snd]; [| lia].
  change (option_list (Some ?t)) with [t]. cbn [app apply_loop length].
  by rewrite parse_trailer_refused by lia.
Qed.

(** ** Safety of the application *)

Lemma strtol_digits_nonneg acc s : 0 <= acc -> 0 <= (strtol_digits acc s).1.
Proof.
  revert acc. induction s as [|c s IH]; intros acc H; cbn [strtol_digits]; [done |].
  destruct (TOR_ISDIGIT c) eqn:E; [| done]. apply IH.
  unfold TOR_ISDIGIT in E. rewrite andb_true_iff, !Z.leb_le in E. lia.
Qed.

Lemma get_linenum_nonneg s v rest : get_linenum s = Some (v, rest) -> 0 <= v.
Proof.
  unfold get_linenum, tor_parse_long. destruct (negb _); [done |].
  pose proof (strtol_digits_nonneg 0 s ltac:(lia)).
  destruct (strtol_digits 0 s) as [r t]. by destruct (_ || _); [| intros [= -> _]].
Qed.

(** An accepted command does not reach beyond the lines left. *)
Lemma parse_command_bounds l n j cmd :
  parse_command l n j = Some cmd -> 0 <= ed_start cmd <= ed_end cmd /\ ed_end cmd <= j.
Proof.
  unfold parse_command. destruct (127 <? _); [done |].
  destruct (get_linenum l) as [[s p]|] eqn:Es; [| done]. apply get_linenum_nonneg in Es. obind. cbv iota.
  match goal with |- (?m ≫= _) = _ -> _ => destruct m as [[[[e r] eof] q]|] eqn:Em; [| done] end.
  assert (s <= e) as Hse.
  { destruct (hd 0 p =? 44); [| injection Em; intros; subst; lia].
    match goal with H : (?m ≫= _) = _ |- _ => destruct m as [[[e' b] t]|]; [| done] end.
    cbn in Em. destruct (Z.leb_spec e' s); [done |]. injection Em; intros; subst; lia. }
  obind. cbv iota. destruct (Z.ltb_spec j e); [done |].
  repeat (case_match; try done). all: intros [= <-]; cbn; lia.
Qed.

Lemma copy_lines_Ok base cnt j :
  Z.of_nat cnt <= j <= Z.of_nat (length base) ->
  exists r, copy_lines base cnt j = Ok r /\ forall l, l ∈ r -> l ∈ base.
Proof.
  intros Hj. rewrite <- (Z2Nat.id j), copy_lines_spec by lia. eexists. split; [done |].
  intros l. rewrite elem_of_reverse. unfold seg. intros H.
  by apply subseteq_take, subseteq_drop in H.
Qed.

Lemma until_dot_elem diff body rest l :
  until_dot diff = Some (body, rest) -> (length rest < length diff)%nat /\ (l ∈ body ++ rest -> l ∈ diff).
Proof.
  revert body. induction diff as [|x diff IH]; intros body; cbn [until_dot]; [done |].
  destruct (line_str_eq x (str ".")).
  - intros [= <- <-]. split; [cbn; lia |]. cbn. set_solver.
  - destruct (until_dot diff) as [[b r]|] eqn:E; [| done]. cbn. intros [= <- ->].
    destruct (IH b) as [Hl He]; [done |]. split; [cbn; lia |]. cbn. set_solver.
Qed.

(** Applying any script to any base: the run ends without an access out of range,
    and every line of the result comes from the base or from the script. *)
Lemma apply_loop_safe base f diff j acc :
  -1 <= j <= Z.of_nat (length base) -> (length diff < f)%nat ->
  apply_loop base f diff j acc = Null
  \/ exists out, apply_loop base f diff j acc = Ok out
       /\ forall l, l ∈ out -> l ∈ acc \/ l ∈ base \/ l ∈ diff.
Proof.
  revert diff j acc. induction f as [|f IH]; intros diff j acc Hj Hf; [lia |]. cbn [apply_loop].
  destruct diff as [|l0 diff].
  { destruct (copy_lines_Ok base (Z.to_nat j) (Z.max 0 j)) as (r & Hr & Hin); [lia |].
    replace (copy_lines base (Z.to_nat j) j) with (Ok r).
    - right. eexists. split; [done |]. intros l. rewrite elem_of_reverse. set_solver.
    - destruct (Z.max_spec 0 j) as [[? E] | [? E]]; rewrite E in Hr; [done |].
      replace (Z.to_nat j) with 0%nat in * by lia. done. }
  destruct (parse_command _ _ _) as [cmd|] eqn:Ep; [| by left].
  apply parse_command_bounds in Ep as [Hs He].
  destruct (copy_lines_Ok base (Z.to_nat (j - ed_end cmd)) j) as (kept & -> & Hkept); [lia |]. rbind.
  remember (if (ed_action cmd =? char_c) || _ then _ else _) as j' eqn:Ej.
  assert (-1 <= j' <= Z.of_nat (length base)) as Hj' by (subst j'; destruct (_ || _); lia).
  clear Ej. cbn in Hf. destruct (_ || _).
  - destruct (until_dot diff) as [[body rest]|] eqn:Eu; [| by left].
    destruct body as [|b body]; [by left |].
    assert (length rest < length diff)%nat by (by apply (until_dot_elem _ _ _ []) in Eu as [? _]).
    destruct (IH rest j' ((acc ++ kept) ++ reverse (b :: body))) as [-> | (out & -> & Hout)]; [done | lia | by left |].
    right. exists out. split; [done |]. intros l Hl. apply (until_dot_elem _ _ _ l) in Eu as [_ Hin].
    specialize (Hout l Hl). rewrite !elem_of_app, elem_of_reverse in Hout. rewrite elem_of_app in Hin. set_solver.
  - destruct (IH diff j' (acc ++ kept)) as [-> | (out & -> & Hout)]; [done | lia | by left |].
    right. exists out. split; [done |]. set_solver.
Qed.

Lemma apply_ed_diff_total base diff n :
  apply_ed_diff base diff n = Null
  \/ exists out, apply_ed_diff base diff n = Ok out /\ forall l, l ∈ out -> l ∈ base \/ l ∈ diff.
Proof.
  unfold apply_ed_diff.
  destruct (apply_loop_safe base (S (length diff)) (drop n diff) (Z.of_nat (length base)) [])
    as [? | (out & -> & Hout)]; [lia | rewrite length_drop; lia | by left |].
  right. exists out. split; [done |]. intros l Hl. destruct (Hout l Hl) as [H | [H | H]].
  - by apply not_elem_of_nil in H.
  - by left.
  - right. by apply subseteq_drop in H.
Qed.
