(* ===== verification/ConsdiffDoc.v ===== *)
(** * consdiff.c: documents, header and digests

    Splitting a document into lines and joining lines are inverse; the digests
    survive the header of a diff; every line of a script can be written into a
    diff document. *)

From stdpp Require Import sets.
From S2P Require Import Prelude Consdiff ConsdiffCalc ConsdiffEd.
From Stdlib Require Strings.Ascii Strings.String.
Import Strings.String.StringSyntax.
#[local] Open Scope Z_scope.

(** ** Lines and documents *)

(** A line that can be stored in a document. *)
Definition storable (l : line) : Prop := (10 ∉ l) /\ (length l <= CONSENSUS_LINE_MAX_LEN)%nat.

Lemma cut_line_app l rest : 10 ∉ l -> cut_line (l ++ 10 :: rest) = Some (l, rest).
Proof.
  induction l as [|x l IH]; intros H; cbn [cut_line app]; [done |].
  apply not_elem_of_cons in H as [Hx H].
  rewrite (proj2 (Z.eqb_neq x 10)), IH by done. done.
Qed.

Lemma cut_line_Some s l rest : cut_line s = Some (l, rest) -> s = l ++ 10 :: rest /\ 10 ∉ l.
Proof.
  revert l. induction s as [|x s IH]; intros l; cbn [cut_line]; [done |].
  destruct (Z.eqb_spec x 10) as [-> | Hx].
  - intros [= <- <-]. split; [done | apply not_elem_of_nil].
  - destruct (cut_line s) as [[l' r]|]; [| done]. cbn. intros [= <- ->].
    destruct (IH l' eq_refl) as [-> Hl]. split; [done |]. by apply not_elem_of_cons.
Qed.

Lemma join_cons l ls : consensus_join_lines (l :: ls) = l ++ 10 :: consensus_join_lines ls.
Proof. unfold consensus_join_lines. cbn. by rewrite <- app_assoc. Qed.

Lemma join_app a b : consensus_join_lines (a ++ b) = consensus_join_lines a ++ consensus_join_lines b.
Proof. unfold consensus_join_lines. by rewrite bind_app. Qed.

Lemma split_lines_loop_join fuel ls out :
  Forall storable ls -> (length (consensus_join_lines ls) < fuel)%nat ->
  split_lines_loop fuel (consensus_join_lines ls) out = Ok (out ++ ls).
Proof.
  intros H. revert fuel out. induction H as [|l ls [Hn Hl] _ IH]; intros [|fuel] out Hf; try lia;
    cbn [split_lines_loop].
  - by rewrite app_nil_r.
  - rewrite join_cons in *. rewrite cut_line_app by done.
    rewrite (proj2 (Nat.ltb_ge _ _)) by lia. rewrite length_app in Hf. cbn in Hf.
    destruct (l ++ 10 :: consensus_join_lines ls) eqn:E; [by destruct l |].
    rewrite IH by lia. by rewrite <- app_assoc.
Qed.

(** Joined lines are split again. *)
Lemma split_join ls : Forall storable ls -> consensus_split_lines (consensus_join_lines ls) = Ok ls.
Proof. intros H. unfold consensus_split_lines. by rewrite split_lines_loop_join by (done || lia). Qed.

(** A document that is split is joined again, and its lines can be stored; the
    splitting never runs out of range. *)
Lemma split_lines_loop_spec fuel s out :
  (length s < fuel)%nat ->
  split_lines_loop fuel s out = Null
  \/ exists ls, split_lines_loop fuel s out = Ok (out ++ ls)
       /\ consensus_join_lines ls = s /\ Forall storable ls.
Proof.
  revert s out. induction fuel as [|fuel IH]; intros s out Hf; [lia |]. cbn [split_lines_loop].
  destruct s as [|x s].
  { right. exists []. by rewrite app_nil_r. }
  destruct (cut_line (x :: s)) as [[l rest]|] eqn:E; [| by left].
  apply cut_line_Some in E as [E Hn]. rewrite E in Hf. rewrite length_app in Hf. cbn in Hf.
  destruct (Nat.ltb_spec CONSENSUS_LINE_MAX_LEN (length l)); [by left |].
  destruct (IH rest (out ++ [l])) as [-> | (ls & -> & Hj & Hs)]; [lia | by left |].
  right. exists (l :: ls). rewrite <- app_assoc. split; [done |].
  rewrite join_cons, Hj, E. split; [done |]. by apply Forall_cons_2.
Qed.

Lemma split_spec s :
  consensus_split_lines s = Null
  \/ exists ls, consensus_split_lines s = Ok ls /\ consensus_join_lines ls = s /\ Forall storable ls.
Proof.
  unfold consensus_split_lines. destruct (split_lines_loop_spec (S (length s)) s []) as [? | (ls & -> & H)];
    [lia | by left |]. right. by exists ls.
Qed.

Lemma split_Ok s ls :
  consensus_split_lines s = Ok ls -> consensus_join_lines ls = s /\ Forall storable ls.
Proof. intros H. destruct (split_spec s) as [E | (ls' & E & Hj)]; congruence. Qed.

(** ** C strings *)

Lemma c_string_id s : 0 ∉ s -> c_string s = s.
Proof.
  induction s as [|x s IH]; intros H; cbn [c_string]; [done |].
  apply not_elem_of_cons in H as [Hx H]. rewrite (proj2 (Z.eqb_neq x 0)) by done. by rewrite IH.
Qed.

(** A token without spaces, followed by a space or by the end. *)
Lemma split_space_token t rest cur :
  32 ∉ t -> split_space (t ++ 32 :: rest) cur = (reverse cur ++ t) :: split_space rest [].
Proof.
  revert cur. induction t as [|x t IH]; intros cur H; cbn [split_space app].
  - by rewrite app_nil_r.
  - apply not_elem_of_cons in H as [Hx H]. rewrite (proj2 (Z.eqb_neq x 32)) by done.
    rewrite IH by done. by rewrite reverse_cons, <- app_assoc.
Qed.

Lemma split_space_last t cur : 32 ∉ t -> split_space t cur = [reverse cur ++ t].
Proof.
  revert cur. induction t as [|x t IH]; intros cur H; cbn [split_space].
  - by rewrite app_nil_r.
  - apply not_elem_of_cons in H as [Hx H]. rewrite (proj2 (Z.eqb_neq x 32)) by done.
    rewrite IH by done. by rewrite reverse_cons, <- app_assoc.
Qed.

(** ** Hexadecimal digests *)

Lemma hex_digit_roundtrip v :
  0 <= v < 16 -> hex_decode_digit (nth (Z.to_nat v) hex_digits 0) = Some v.
Proof.
  intros Hv. rewrite <- (Z2Nat.id v) by lia. rewrite Nat2Z.id.
  assert (Z.to_nat v < 16)%nat as H by lia. revert H. generalize (Z.to_nat v) as n. clear v Hv. intros n H.
  do 16 (destruct n as [|n]; [reflexivity |]). lia.
Qed.

(** A hexadecimal digit is neither a space, a newline nor a NUL. *)
Lemma hex_digit_range n : (n < 16)%nat -> 48 <= nth n hex_digits 0 <= 70.
Proof. intros H. do 16 (destruct n as [|n]; [vm_compute; split; done |]). lia. Qed.

Lemma nibbles b : fits 8 b -> 0 <= b >> 4 < 16 /\ 0 <= b & 0xf < 16.
Proof.
  intros [H0 H1]. change 0xf with (Z.ones 4). rewrite Z.shiftr_div_pow2, Z.land_ones by lia.
  split; [split; [apply Z.div_pos; lia | apply Z.div_lt_upper_bound; lia] |].
  by apply Z.mod_pos_bound.
Qed.

Lemma nibbles_join b : fits 8 b -> ((b >> 4) << 4) .| (b & 0xf) = b.
Proof.
  intros Hb. apply Z.bits_inj'. intros i Hi. change 0xf with (Z.ones 4). autorewrite with bits.
  rewrite Z.testbit_ones by lia.
  destruct (Z.ltb_spec i 4); [rewrite Z.testbit_neg_r by lia; cbn | rewrite Z.shiftr_spec by lia].
  - rewrite (proj2 (Z.leb_le 0 i)) by lia. by rewrite andb_true_r.
  - replace (i - 4 + 4) with i by lia. rewrite (proj2 (Z.leb_le 0 i)) by lia. cbn. by rewrite andb_false_r, orb_false_r.
Qed.

Lemma base16_encode_cons b d :
  base16_encode (b :: d) =
  nth (Z.to_nat (b >> 4)) hex_digits 0 :: nth (Z.to_nat (b & 0xf)) hex_digits 0 :: base16_encode d.
Proof. done. Qed.

Lemma base16_encode_length d : length (base16_encode d) = (2 * length d)%nat.
Proof. induction d as [|b d IH]; [done |]. rewrite base16_encode_cons. cbn [length]. lia. Qed.

(** Decoding inverts encoding. *)
Lemma base16_roundtrip d n :
  Forall (fits 8) d -> (length d <= n)%nat -> base16_decode n (base16_encode d) = Some d.
Proof.
  intros Hd Hn. unfold base16_decode. rewrite base16_encode_length.
  rewrite Nat.even_mul, Nat.even_2. cbn [orb negb].
  rewrite Nat.mul_comm, Nat.div_mul by lia. rewrite (proj2 (Nat.ltb_ge _ _)) by lia.
  clear Hn. induction Hd as [|b d Hb _ IH]; [done |]. rewrite base16_encode_cons. cbn [base16_decode_loop].
  destruct (nibbles b Hb). rewrite !hex_digit_roundtrip by done. obind. rewrite IH. obind.
  by rewrite nibbles_join.
Qed.

Lemma base16_encode_range d c : Forall (fits 8) d -> c ∈ base16_encode d -> 48 <= c <= 70.
Proof.
  intros Hd. induction Hd as [|b d Hb _ IH]; [by intros H%not_elem_of_nil |].
  rewrite base16_encode_cons, !elem_of_cons. destruct (nibbles b Hb).
  intros [-> | [-> | Hc]]; [apply hex_digit_range; lia.. | by apply IH].
Qed.

(** ** The header of a diff *)

Definition digest_ok (d : line) : Prop := length d = DIGEST256_LEN /\ Forall (fits 8) d.

Definition hash_line (d1 d2 : line) : line :=
  hash_token ++ str " " ++ base16_encode d1 ++ str " " ++ base16_encode d2.

Lemma hash_line_range d1 d2 c :
  digest_ok d1 -> digest_ok d2 -> c ∈ hash_line d1 d2 -> c = 32 \/ 48 <= c.
Proof.
  intros [_ H1] [_ H2]. unfold hash_line. rewrite !elem_of_app.
  change hash_token with [104; 97; 115; 104]. change (str " ") with [32].
  intros [H | [H | [H | [H | H]]]].
  - right. set_unfold. lia.
  - left. set_solver.
  - right. apply base16_encode_range in H; [lia | done].
  - left. set_solver.
  - right. apply base16_encode_range in H; [lia | done].
Qed.

(** The digests written in the header are read back. *)
Lemma get_digests_header d1 d2 rest :
  digest_ok d1 -> digest_ok d2 ->
  consdiff_get_digests (ns_diff_version :: hash_line d1 d2 :: rest) = Ok (d1, d2).
Proof.
  intros Hd1 Hd2. pose proof Hd1 as [L1 F1]. pose proof Hd2 as [L2 F2].
  unfold consdiff_get_digests. cbn [length Nat.ltb Nat.leb].
  unfold get. cbn [lookup list_lookup]. rbind.
  unfold line_str_eq. rewrite (proj2 (lines_eq_spec _ _) eq_refl). cbn [negb].
  rewrite c_string_id by (intros H; apply (hash_line_range d1 d2) in H; [lia | done..]).
  unfold smartlist_split_string, hash_line.
  change (hash_token ++ str " " ++ base16_encode d1 ++ str " " ++ base16_encode d2)
    with (hash_token ++ 32 :: (base16_encode d1 ++ 32 :: base16_encode d2)).
  rewrite split_space_token by (vm_compute; set_solver).
  rewrite split_space_token by (intros H; apply base16_encode_range in H; [lia | done]).
  rewrite split_space_last by (intros H; apply base16_encode_range in H; [lia | done]).
  cbn [reverse rev_append app]. rewrite bool_decide_eq_true_2 by done. cbn [negb].
  rewrite !base16_encode_length, L1, L2. cbn [Nat.mul Nat.add DIGEST256_LEN HEX_DIGEST256_LEN Nat.eqb andb negb].
  rewrite !base16_roundtrip by (done || lia). rewrite L1, L2. done.
Qed.

(** ** The lines of a script *)

Lemma line_max_ge : (1000 <= CONSENSUS_LINE_MAX_LEN)%nat.
Proof. unfold CONSENSUS_LINE_MAX_LEN. change (1 << 20) with 1048576. lia. Qed.

Lemma dec_loop_range f n acc c :
  c ∈ dec_loop f n acc -> 48 <= c <= 57 \/ c ∈ acc.
Proof.
  revert n acc. induction f as [|f IH]; intros n acc; cbn [dec_loop]; [by right |].
  pose proof (Z.mod_pos_bound n 10 ltac:(lia)).
  destruct (_ =? 0); [| intros Hc; apply IH in Hc as [? | Hc]; [by left |]; revert Hc];
    (intros [-> | Hc]%elem_of_cons; [left; lia | by right]).
Qed.

Lemma dec_range n c : c ∈ dec n -> 48 <= c <= 57.
Proof. intros H. apply dec_loop_range in H as [? | H]; [done | by apply not_elem_of_nil in H]. Qed.

(** Two numbers of at most ten digits and at most five other characters. *)
Lemma command_storable m d added :
  Z.of_nat (m + d) < INT32_MAX -> storable (command m d added).
Proof.
  intros Hm. pose proof line_max_ge. pose proof (dec_length m ltac:(lia)).
  pose proof (dec_length (m + 1) ltac:(lia)). pose proof (dec_length (m + d) ltac:(lia)).
  unfold command. change (str "a") with [97]. change (str "c") with [99]. change (str "d") with [100].
  change (str ",") with [44].
  split; [| destruct added, d as [|[|d]]; rewrite !length_app; cbn [length]; lia].
  destruct added, d as [|[|d]]; rewrite !not_elem_of_app;
    split_and!; try (intros Hc%dec_range; lia); set_solver.
Qed.

Lemma trailer_storable n : Z.of_nat n <= INT32_MAX -> storable (dec n ++ str ",$d").
Proof.
  intros Hn. pose proof line_max_ge. pose proof (dec_length n Hn). change (str ",$d") with [44; 36; 100].
  split; [| rewrite length_app; cbn [length]; lia].
  rewrite not_elem_of_app. split; [intros Hc%dec_range; lia | set_solver].
Qed.

Lemma dot_storable : storable (str ".").
Proof. pose proof line_max_ge. change (str ".") with [46]. split; [set_solver | cbn [length]; lia]. Qed.

Lemma added_lines_Forall (P : line -> Prop) target i n new :
  Forall P target -> added_lines target i n = Ok new -> Forall P new.
Proof.
  intros HP. revert i new. induction n as [|n IH]; intros i new; cbn [added_lines].
  - intros [= <-]. apply Forall_nil_2.
  - unfold get. destruct (target !! i) as [x|] eqn:E; [| done]. rbind.
    destruct (line_str_eq x (str ".")); [done |].
    destruct (added_lines target (S i) n) as [rest | |] eqn:Er; try done. intros [= <-].
    apply Forall_cons_2; [by eapply Forall_lookup_1 | by eapply IH].
Qed.

Lemma emit_loop_storable target fuel c1 c2 n1 n2 result out :
  Forall storable target -> Z.of_nat n1 < INT32_MAX -> Forall storable result ->
  emit_loop target fuel c1 c2 n1 n2 result = Ok out -> Forall storable out.
Proof.
  intros Ht. revert n1 n2 result. induction fuel as [|fuel IH]; intros n1 n2 result Hn Hr; cbn [emit_loop]; [done |].
  destruct (_ || _); [| by intros [= <-]].
  destruct (is_changed c1 n1) as [b1 | |]; try done. destruct (is_changed c2 n2) as [b2 | |]; try done. rbind.
  destruct (negb b1 && negb b2); [apply IH; [lia | done] |].
  destruct (run_start c1 n1) as [m1 | |] eqn:E1; try done. destruct (run_start c2 n2) as [m2 | |]; try done. rbind.
  assert (m1 <= n1)%nat as Hm.
  { revert E1. clear. induction n1 as [|n IH]; cbn [run_start]; [intros [= <-]; lia |].
    destruct (get c1 n) as [[] | |]; try done; rbind; [| intros [= <-]; lia].
    intros E. apply IH in E. lia. }
  pose proof (command_storable m1 (n1 - m1)) as Hcmd.
  destruct (Nat.eqb _ 0).
  - apply IH; [lia |]. apply Forall_app_2; [done |]. apply Forall_cons_2; [apply Hcmd; lia | apply Forall_nil_2].
  - destruct (added_lines target m2 (n2 - m2)) as [new | |] eqn:Ea; try done. rbind.
    apply IH; [lia |]. repeat apply Forall_app_2; try done.
    + apply Forall_cons_2; [apply Hcmd; lia | apply Forall_nil_2].
    + exact (added_lines_Forall _ _ _ _ _ Ht Ea).
    + apply Forall_cons_2; [apply dot_storable | apply Forall_nil_2].
Qed.

Lemma gen_ed_diff_storable base target ed :
  Z.of_nat (length base) < INT32_MAX -> Forall storable target ->
  gen_ed_diff base target = Ok ed -> Forall storable ed.
Proof.
  intros Hb Ht. unfold gen_ed_diff. destruct (preprocess_spec base) as (k & Hk & _ & Hpre).
  destruct (preprocess_consensus base) as [c1 tr].
  destruct (segment_loop _ _ _ _ _ _ _ _ _ _ _) as [[r1 r2] | |]; try done. rbind.
  apply emit_loop_storable; [done | |].
  - assert (c1 = take k base) as -> by (destruct Hpre as [[_ [= -> _]] | [_ [= -> _]]]; done).
    rewrite length_take. lia.
  - destruct Hpre as [[? [= _ ->]] | [_ [= _ ->]]]; [| apply Forall_nil_2].
    apply Forall_cons_2; [apply trailer_storable; lia | apply Forall_nil_2].
Qed.

Lemma header_storable d1 d2 :
  digest_ok d1 -> digest_ok d2 -> storable ns_diff_version /\ storable (hash_line d1 d2).
Proof.
  intros H1 H2. pose proof line_max_ge. split; split.
  - vm_compute. set_solver.
  - change (length ns_diff_version) with 29%nat. lia.
  - intros Hc. apply (hash_line_range d1 d2) in Hc; [lia | done..].
  - destruct H1 as [L1 _], H2 as [L2 _]. unfold hash_line.
    rewrite !length_app, !base16_encode_length, L1, L2.
    change (length hash_token) with 4%nat. change (length (str " ")) with 1%nat. unfold DIGEST256_LEN. lia.
Qed.
