(* ===== verification/ConsdiffTheorems.v ===== *)
(** * consdiff.c: properties

    The correctness of consensus diffs: what [consensus_diff_generate] writes,
    [consensus_diff_apply] turns back into the target; both are safe on every
    input; and what an accepted diff guarantees. *)

From stdpp Require Import sets.
From S2P Require Import Prelude Lcs Consdiff ConsdiffCalc ConsdiffLcs ConsdiffNav ConsdiffEd ConsdiffDoc.
From Stdlib Require Strings.Ascii Strings.String.
Import Strings.String.StringSyntax.
#[local] Open Scope Z_scope.

(** ** Diffs as lines *)

Lemma lines_equal_refl (l : list line) : forallb (fun '(l1, l2) => lines_eq l1 l2) (zip l l) = true.
Proof. induction l as [|x l IH]; [done |]. cbn. by rewrite (proj2 (lines_eq_spec x x) eq_refl), IH. Qed.

(** The self-check of [consdiff_gen_diff] passes, unless the signature section is
    a single line. *)
Lemma consdiff_gen_diff_Ok base target ed d1 d2 :
  Z.of_nat (length base) <= INT32_MAX -> signature_lines base <> 1%nat ->
  gen_ed_diff base target = Ok ed ->
  consdiff_gen_diff base target d1 d2 = Ok ([ns_diff_version; hash_line d1 d2] ++ ed).
Proof.
  intros Hmax Hsig Hgen. unfold consdiff_gen_diff. rewrite Hgen. rbind.
  rewrite (apply_gen_ed_diff base target ed Hmax Hsig Hgen [] : apply_ed_diff base ed 0 = Ok target). rbind.
  by rewrite Nat.eqb_refl, lines_equal_refl.
Qed.

Lemma consdiff_gen_diff_inv base target d1 d2 diff :
  Z.of_nat (length base) <= INT32_MAX -> consdiff_gen_diff base target d1 d2 = Ok diff ->
  exists ed, gen_ed_diff base target = Ok ed /\ signature_lines base <> 1%nat
    /\ diff = [ns_diff_version; hash_line d1 d2] ++ ed.
Proof.
  intros Hmax H. destruct (gen_ed_diff base target) as [ed | |] eqn:Eg;
    try (unfold consdiff_gen_diff in H; by rewrite Eg in H).
  destruct (decide (signature_lines base = 1%nat)) as [Hsig | Hsig].
  - unfold consdiff_gen_diff in H. rewrite Eg, rbind_Ok, (apply_gen_refused base target ed) in H by done. done.
  - exists ed. rewrite (consdiff_gen_diff_Ok base target ed) in H by done. by injection H as <-.
Qed.

Lemma gen_ed_diff_no_crash base target :
  Z.of_nat (length base) <= INT32_MAX -> gen_ed_diff base target <> Crash.
Proof. intros H. destruct (gen_ed_diff_spec base target H) as [(? & -> & _) | [-> _]]; done. Qed.

Lemma consdiff_gen_diff_no_crash base target d1 d2 :
  Z.of_nat (length base) <= INT32_MAX -> consdiff_gen_diff base target d1 d2 <> Crash.
Proof.
  intros Hmax. unfold consdiff_gen_diff. pose proof (gen_ed_diff_no_crash base target Hmax) as Hg.
  destruct (gen_ed_diff base target) as [ed | |]; try done. rbind.
  destruct (apply_ed_diff_total base ed 0) as [-> | (out & -> & _)]; [done |]. rbind.
  by destruct (negb _).
Qed.

Lemma get_digests_no_crash diff : consdiff_get_digests diff <> Crash.
Proof.
  unfold consdiff_get_digests. destruct diff as [|a [|b diff]]; try done. cbn [length Nat.ltb Nat.leb].
  unfold get. cbn [lookup list_lookup]. rbind. repeat (case_match; try done).
Qed.

(** ** Documents *)

Section Documents.
(** The two digest functions; a digest is 32 octets. *)
Context (compute_digest compute_digest_as_signed : line -> option line).
Context (Hdigest : forall s d, compute_digest s = Some d -> digest_ok d).
Context (Hsigned : forall s d, compute_digest_as_signed s = Some d -> digest_ok d).

(** A diff made of the header and a script is applied like the script. *)
Lemma apply_document c1 l1 l2 ed d1 d2 :
  consensus_split_lines c1 = Ok l1 -> compute_digest_as_signed c1 = Some d1 ->
  compute_digest (consensus_join_lines l2) = Some d2 -> 0 ∉ consensus_join_lines l2 ->
  Z.of_nat (length l1) < INT32_MAX -> signature_lines l1 <> 1%nat ->
  Forall storable l2 -> gen_ed_diff l1 l2 = Ok ed ->
  consensus_diff_apply compute_digest compute_digest_as_signed c1
    (consensus_join_lines ([ns_diff_version; hash_line d1 d2] ++ ed))
  = Ok (consensus_join_lines l2).
Proof.
  intros E1 D1 D2 Hnul Hmax Hsig Hst Hgen. unfold consensus_diff_apply.
  pose proof (Hsigned _ _ D1) as O1. pose proof (Hdigest _ _ D2) as O2.
  rewrite D1, E1. rbind. rewrite split_join.
  2: { destruct (header_storable d1 d2); [done.. |].
       repeat apply Forall_cons_2; [done.. |]. by eapply gen_ed_diff_storable. }
  rbind. unfold consdiff_apply_diff. cbn [app]. rewrite get_digests_header by done. rbind.
  rewrite bool_decide_eq_true_2 by done. cbn [negb].
  rewrite (apply_gen_ed_diff l1 l2 ed ltac:(lia) Hsig Hgen [ns_diff_version; hash_line d1 d2] :
             apply_ed_diff l1 (ns_diff_version :: hash_line d1 d2 :: ed) 2 = Ok l2). rbind.
  rewrite c_string_id, D2 by done. by rewrite bool_decide_eq_true_2.
Qed.

(** Two documents that can be diffed: [l1] and [l2] are their lines. *)
Definition diff_ready (c1 c2 : line) (l1 l2 : list line) : Prop :=
  consensus_split_lines c1 = Ok l1 /\ consensus_split_lines c2 = Ok l2
  /\ diffable l1 l2 /\ signature_lines l1 <> 1%nat
  /\ Z.of_nat (length l1) < INT32_MAX /\ 0 ∉ c2.

(** C38. Consensus diffs work: for two documents whose router entries are in
    order (and which have at most 10000 lines, no line "." and not exactly one
    line of signatures), generation succeeds, its output is recognised as a diff,
    and applying it to the first document gives the second one, octet for octet. *)
Theorem consensus_diff_roundtrip c1 c2 l1 l2 d1 d2 :
  diff_ready c1 c2 l1 l2 ->
  compute_digest_as_signed c1 = Some d1 -> compute_digest c2 = Some d2 ->
  exists diff,
    consensus_diff_generate compute_digest compute_digest_as_signed c1 c2 = Ok diff
    /\ looks_like_a_consensus_diff diff = true
    /\ consensus_diff_apply compute_digest compute_digest_as_signed c1 diff = Ok c2.
Proof.
  intros (E1 & E2 & Hd & Hsig & Hmax & Hnul) D1 D2.
  destruct (split_Ok _ _ E2) as [J2 S2].
  destruct (gen_ed_diff_spec l1 l2 ltac:(lia)) as [(script & Hgen & _) | [_ Hno]]; [| done].
  exists (consensus_join_lines ([ns_diff_version; hash_line d1 d2] ++ option_list (preprocess_consensus l1).2 ++ script)).
  split_and!.
  - unfold consensus_diff_generate. rewrite D1, D2, E1. rbind. rewrite E2. rbind.
    by rewrite (consdiff_gen_diff_Ok l1 l2 _ d1 d2 ltac:(lia) Hsig Hgen).
  - cbn [app]. rewrite join_cons. unfold looks_like_a_consensus_diff, memeq.
    rewrite length_app, take_app_length, (take_ge ns_diff_version) by lia.
    rewrite bool_decide_eq_true_2, andb_true_r by done. apply Nat.leb_le. lia.
  - rewrite <- J2. eapply apply_document; try done; by rewrite J2.
Qed.

(** Whatever two documents a diff was generated for, applying it to the first
    gives the second. *)
Theorem consensus_diff_generate_sound c1 c2 l1 diff :
  consensus_split_lines c1 = Ok l1 -> Z.of_nat (length l1) < INT32_MAX -> 0 ∉ c2 ->
  consensus_diff_generate compute_digest compute_digest_as_signed c1 c2 = Ok diff ->
  consensus_diff_apply compute_digest compute_digest_as_signed c1 diff = Ok c2.
Proof.
  intros E1 Hmax Hnul. unfold consensus_diff_generate.
  destruct (compute_digest_as_signed c1) as [d1|] eqn:D1; [| done].
  destruct (compute_digest c2) as [d2|] eqn:D2; [| done]. rewrite E1. rbind.
  destruct (consensus_split_lines c2) as [l2 | |] eqn:E2; try done. rbind.
  destruct (consdiff_gen_diff l1 l2 d1 d2) as [r | |] eqn:Er; try done. intros [= <-].
  apply consdiff_gen_diff_inv in Er as (ed & Hgen & Hsig & ->); [| lia].
  destruct (split_Ok _ _ E2) as [J2 S2]. rewrite <- J2. eapply apply_document; try done; by rewrite J2.
Qed.
End Documents.

(** *** Safety, for any digest functions *)

Lemma consdiff_apply_diff_no_crash cd l1 diff d : consdiff_apply_diff cd l1 diff d <> Crash.
Proof.
  unfold consdiff_apply_diff. pose proof (get_digests_no_crash diff) as H.
  destruct (consdiff_get_digests diff) as [[e1 e2] | |]; try done. rbind.
  destruct (negb _); [done |].
  destruct (apply_ed_diff_total l1 diff 2) as [-> | (out & -> & _)]; [done |]. rbind.
  by repeat case_match.
Qed.

(** Applying is safe on untrusted input: whatever the base and the diff are, the
    routine ends without a failed assertion or an access out of range. *)
Theorem consensus_diff_apply_safe cd cs consensus diff :
  consensus_diff_apply cd cs consensus diff <> Crash.
Proof.
  unfold consensus_diff_apply. destruct (cs consensus) as [d1|]; [| done].
  destruct (split_spec consensus) as [-> | (l1 & -> & _)]; [done |]. rbind.
  destruct (split_spec diff) as [-> | (l2 & -> & _)]; [done |]. rbind.
  apply consdiff_apply_diff_no_crash.
Qed.

(** Generating ends, without a failed assertion or an access out of range, for
    any two documents of fewer than 2^31 lines. *)
Theorem consensus_diff_generate_safe cd cs c1 c2 :
  (forall l1, consensus_split_lines c1 = Ok l1 -> Z.of_nat (length l1) <= INT32_MAX) ->
  consensus_diff_generate cd cs c1 c2 <> Crash.
Proof.
  intros Hmax. unfold consensus_diff_generate.
  destruct (cs c1) as [d1|]; [| done]. destruct (cd c2) as [d2|]; [| done].
  destruct (split_spec c1) as [-> | (l1 & E1 & _)]; [done |]. rewrite E1. rbind.
  destruct (split_spec c2) as [-> | (l2 & -> & _)]; [done |]. rbind.
  pose proof (consdiff_gen_diff_no_crash l1 l2 d1 d2 (Hmax l1 E1)).
  by destruct (consdiff_gen_diff l1 l2 d1 d2).
Qed.

(** ** Scripts *)

(** The script written for two lists of lines, applied to the first, gives the
    second: the divide-and-conquer comparison, the runs of changed lines, the
    commands and their parsing fit together. *)
Theorem ed_script_correct base target ed :
  Z.of_nat (length base) <= INT32_MAX -> signature_lines base <> 1%nat ->
  gen_ed_diff base target = Ok ed -> apply_ed_diff base ed 0 = Ok target.
Proof. intros Hmax Hsig Hgen. exact (apply_gen_ed_diff base target ed Hmax Hsig Hgen []). Qed.

(** A base with exactly one line of signatures can never be diffed: the command
    "N,$d" written to delete it is refused by the parser, and the self-check that
    is meant never to fail makes the generation fail. *)
Theorem one_line_signature_refused base target d1 d2 :
  Z.of_nat (length base) <= INT32_MAX -> signature_lines base = 1%nat ->
  consdiff_gen_diff base target d1 d2 = Null.
Proof.
  intros Hmax Hsig. unfold consdiff_gen_diff.
  destruct (gen_ed_diff_spec base target Hmax) as [(script & Hgen & _) | [-> _]]; [| done].
  rewrite Hgen. rbind. by rewrite (apply_gen_refused base target _ Hmax Hsig Hgen).
Qed.

(** Applying a script, trusted or not, makes up no line: each line of the result
    is a line of the base or a line of the script. *)
Theorem applied_lines_origin base diff n out l :
  apply_ed_diff base diff n = Ok out -> l ∈ out -> l ∈ base \/ l ∈ diff.
Proof.
  intros E Hl. destruct (apply_ed_diff_total base diff n) as [Hn | (out' & Ho & H)]; [congruence |].
  apply H. congruence.
Qed.

(** An accepted diff was made for this base and produces the announced document:
    the two digests of its header are those of the base and of the result. *)
Theorem consensus_diff_apply_digests cd cs consensus diff out :
  consensus_diff_apply cd cs consensus diff = Ok out ->
  exists lines d1 d2, consensus_split_lines diff = Ok lines
    /\ consdiff_get_digests lines = Ok (d1, d2)
    /\ cs consensus = Some d1 /\ cd out = Some d2.
Proof.
  unfold consensus_diff_apply. destruct (cs consensus) as [d1|] eqn:D1; [| done].
  destruct (consensus_split_lines consensus) as [l1 | |]; try done. rbind.
  destruct (consensus_split_lines diff) as [lines | |] eqn:E2; try done. rbind.
  unfold consdiff_apply_diff.
  destruct (consdiff_get_digests lines) as [[e1 e2] | |] eqn:Ed; try done. rbind.
  destruct (bool_decide (d1 = e1)) eqn:B1; [| done]. apply bool_decide_eq_true in B1 as <-. cbn [negb].
  destruct (apply_ed_diff l1 lines 2) as [l2 | |]; try done. rbind.
  destruct (cd (c_string (consensus_join_lines l2))) as [d2|] eqn:D2; [| done].
  destruct (bool_decide (d2 = e2)) eqn:B2; [| done]. apply bool_decide_eq_true in B2 as <-. cbn [negb].
  intros [= <-]. by exists lines, d1, d2.
Qed.

(** C39. The comparison always succeeds and is optimal: without the lines it marks as
    changed both lists are the same text, and that text is a longest common
    subsequence of the two lists. *)
Theorem calc_changes_optimal l1 l2 :
  exists r1 r2 kept,
    calc_changes (S (length l1)) (Slice l1 0 (length l1)) (Slice l2 0 (length l2))
      (replicate (length l1) false) (replicate (length l2) false) = Ok (r1, r2)
    /\ unch r1 l1 0 (length l1) = kept /\ unch r2 l2 0 (length l2) = kept
    /\ kept `sublist_of` l1 /\ kept `sublist_of` l2
    /\ forall s, s `sublist_of` l1 -> s `sublist_of` l2 -> (length s <= length kept)%nat.
Proof.
  set (s1 := Slice l1 0 (length l1)). set (s2 := Slice l2 0 (length l2)).
  set (c1 := replicate (length l1) false). set (c2 := replicate (length l2) false).
  assert (slice_ok s1 c1) as O1 by (unfold s1, c1; split; cbn; rewrite ?length_replicate; lia).
  assert (slice_ok s2 c2) as O2 by (unfold s2, c2; split; cbn; rewrite ?length_replicate; lia).
  assert (clean s1 c1) as D1 by (intros k Hk; apply lookup_replicate_2; cbn in *; lia).
  assert (clean s2 c2) as D2 by (intros k Hk; apply lookup_replicate_2; cbn in *; lia).
  destruct (calc_changes_spec (S (length l1)) s1 s2 c1 c2) as ([r1 r2] & E & _ & _ & Hu); [cbn; lia | done.. |].
  pose proof (calc_changes_optimal_spec (S (length l1)) s1 s2 c1 c2 (r1, r2) ltac:(cbn; lia) O1 O2 D1 D2 E) as Ho.
  unfold optimal, unch_slice, slice_lines, s1, s2 in *. cbn [fst snd s_list s_offset s_len] in *.
  rewrite !drop_0, !firstn_all in Ho.
  exists r1, r2, (unch r1 l1 0 (length l1)). split; [exact E |]. split; [done |]. split; [done |].
  split; [apply unch_sublist_all |]. split; [rewrite Hu; apply unch_sublist_all |].
  intros s Hs1 Hs2. rewrite Ho. apply common_le. by split.
Qed.

(** Splitting and joining are inverse: [ls] are the lines of the document [s]
    exactly when [s] is their concatenation and each of them is free of newlines
    and at most [CONSENSUS_LINE_MAX_LEN] octets long. *)
Theorem split_lines_iff s ls :
  consensus_split_lines s = Ok ls
  <-> consensus_join_lines ls = s
      /\ Forall (fun l => 10 ∉ l /\ (length l <= CONSENSUS_LINE_MAX_LEN)%nat) ls.
Proof.
  split; [apply split_Ok |]. intros [<- H]. by apply split_join.
Qed.

(** The digests of a diff's header survive being written in hexadecimal and
    parsed again, whatever follows the header. *)
Theorem header_digests_roundtrip d1 d2 rest :
  digest_ok d1 -> digest_ok d2 ->
  consdiff_get_digests
    ([ns_diff_version;
      hash_token ++ str " " ++ base16_encode d1 ++ str " " ++ base16_encode d2] ++ rest)
  = Ok (d1, d2).
Proof. intros H1 H2. exact (get_digests_header d1 d2 rest H1 H2). Qed.

(** ** Witnesses *)

(** Two small consensuses, and a toy digest of the right size. *)
Definition ex_base : line := consensus_join_lines
  [str "network-status-version 3"; str "r alice AAAA 1"; str "s Fast"; str "r bob BBBB 2"; str "s Exit";
   str "directory-footer"; str "directory-signature x"; str "abcd"].
Definition ex_target : line := consensus_join_lines
  [str "network-status-version 3"; str "valid-until 5"; str "r alice AAAA 1"; str "s Fast Guard";
   str "r carol CCCC 3"; str "s Exit"; str "directory-footer"; str "directory-signature y"; str "efgh"].
Definition toy_digest (s : line) : option line := Some (replicate 31 0 ++ [u8 (foldr Z.add 0 s)]).

Definition ex_lines (s : line) : list line :=
  match consensus_split_lines s with Ok l => l | _ => [] end.

Lemma toy_digest_ok s d : toy_digest s = Some d -> digest_ok d.
Proof.
  intros [= <-]. split; [done |].
  forall_build ltac:(first [by apply fits_0 | by apply wrap_fits]).
Qed.

Lemma consensus_diff_roundtrip_witness :
  exists diff,
    consensus_diff_generate toy_digest toy_digest ex_base ex_target = Ok diff
    /\ looks_like_a_consensus_diff diff = true
    /\ consensus_diff_apply toy_digest toy_digest ex_base diff = Ok ex_target.
Proof.
  apply (consensus_diff_roundtrip toy_digest toy_digest toy_digest_ok toy_digest_ok
    ex_base ex_target (ex_lines ex_base) (ex_lines ex_target)
    (replicate 31 0 ++ [u8 (foldr Z.add 0 ex_base)]) (replicate 31 0 ++ [u8 (foldr Z.add 0 ex_target)]));
    [| reflexivity | reflexivity].
  split; [vm_compute; reflexivity |]. split; [vm_compute; reflexivity |].
  split; [apply (bool_decide_unpack _); vm_compute; exact I |].
  split; [vm_compute; lia |]. split; [vm_compute; reflexivity |].
  apply (bool_decide_unpack _). vm_compute. exact I.
Defined.

Lemma consensus_diff_generate_sound_witness :
  exists diff,
    consensus_diff_generate toy_digest toy_digest ex_base ex_target = Ok diff
    /\ consensus_diff_apply toy_digest toy_digest ex_base diff = Ok ex_target.
Proof.
  destruct (consensus_diff_generate toy_digest toy_digest ex_base ex_target) as [diff | |] eqn:E;
    [| vm_compute in E; discriminate E | vm_compute in E; discriminate E].
  exists diff. split; [reflexivity |].
  apply (consensus_diff_generate_sound toy_digest toy_digest toy_digest_ok toy_digest_ok
    ex_base ex_target (ex_lines ex_base) diff); [vm_compute; reflexivity | vm_compute; reflexivity | | exact E].
  apply (bool_decide_unpack _). vm_compute. exact I.
Defined.

Lemma consensus_diff_generate_safe_witness :
  consensus_diff_generate toy_digest toy_digest ex_base ex_target <> Crash.
Proof.
  apply (consensus_diff_generate_safe toy_digest toy_digest ex_base ex_target).
  intros l1 E. assert (consensus_split_lines ex_base = Ok (ex_lines ex_base)) as E' by (vm_compute; reflexivity).
  rewrite E' in E. injection E as <-. vm_compute. discriminate.
Defined.

Definition ex_script : list line :=
  match gen_ed_diff (ex_lines ex_base) (ex_lines ex_target) with Ok d => d | _ => [] end.

Lemma ed_script_correct_witness :
  length ex_script = 12%nat
  /\ apply_ed_diff (ex_lines ex_base) ex_script 0 = Ok (ex_lines ex_target).
Proof.
  split; [vm_compute; reflexivity |].
  apply (ed_script_correct (ex_lines ex_base) (ex_lines ex_target) ex_script);
    [vm_compute; discriminate | vm_compute; lia | vm_compute; reflexivity].
Defined.

(** The base without the last line of its signatures. *)
Lemma one_line_signature_refused_witness :
  consdiff_gen_diff (take 7 (ex_lines ex_base)) (ex_lines ex_target) [] [] = Null.
Proof.
  apply (one_line_signature_refused (take 7 (ex_lines ex_base)) (ex_lines ex_target) [] []);
    [vm_compute; discriminate | vm_compute; reflexivity].
Defined.

Lemma applied_lines_origin_witness :
  str "s Exit" ∈ ex_lines ex_base \/ str "s Exit" ∈ ex_script.
Proof.
  apply (applied_lines_origin (ex_lines ex_base) ex_script 0 (ex_lines ex_target) (str "s Exit"));
    [vm_compute; reflexivity |].
  apply (bool_decide_unpack _). vm_compute. exact I.
Defined.

Definition ex_diff : line :=
  match consensus_diff_generate toy_digest toy_digest ex_base ex_target with Ok d => d | _ => [] end.

Lemma consensus_diff_apply_digests_witness :
  exists lines d1 d2, consensus_split_lines ex_diff = Ok lines
    /\ consdiff_get_digests lines = Ok (d1, d2)
    /\ toy_digest ex_base = Some d1 /\ toy_digest ex_target = Some d2.
Proof.
  apply (consensus_diff_apply_digests toy_digest toy_digest ex_base ex_diff ex_target).
  vm_compute. reflexivity.
Defined.

Lemma header_digests_roundtrip_witness :
  consdiff_get_digests
    ([ns_diff_version;
      hash_token ++ str " " ++ base16_encode (replicate 32 0xAB) ++ str " "
        ++ base16_encode (replicate 32 0x01)] ++ ex_script)
  = Ok (replicate 32 0xAB, replicate 32 0x01).
Proof.
  apply (header_digests_roundtrip (replicate 32 0xAB) (replicate 32 0x01) ex_script);
    (split; [reflexivity |]; apply Forall_replicate; vm_compute; split; [discriminate | reflexivity]).
Defined.
