(* ===== verification/TokenBucket.v ===== *)
(** * token_bucket.c: rate limiting in the embedded Tor

    A model of [src/src/tor/src/lib/evloop/token_bucket.c] and of the inline
    functions of [token_bucket.h], and the guarantee it gives: the traffic
    allowed since a reset is at most the burst plus the rate times the time elapsed, unless
    the clock falls far back or a level is overdrawn past the 32 bits.

    Levels are [int32_t], rates, times and steps [uint32_t], the gap a [size_t] of
    64 bits and amounts [ssize_t]; every conversion is written out.  A division by a
    zero rate gives [None].  The conversion of clock ticks to milliseconds is the one
    of [lib/time/compat_time.c] for platforms with [clock_gettime]. *)

From S2P Require Import Prelude.
#[local] Open Scope Z_scope.

(** Conversion to [int32_t]. *)
Definition s32 (x : Z) : Z := let y := u32 x in if y <? 2 ^ 31 then y else y - 2 ^ 32.

Definition TOKEN_BUCKET_MAX_BURST : Z := 0x7fffffff.
Definition TICKS_PER_STEP : Z := 16.
Definition TB_READ : Z := 1.
Definition TB_WRITE : Z := 2.

Record token_bucket_cfg := Cfg { cfg_rate : Z; cfg_burst : Z }.
Record token_bucket_raw := Raw { bucket : Z }.
Record token_bucket_rw := Rw {
  cfg : token_bucket_cfg;
  read_bucket : token_bucket_raw;
  write_bucket : token_bucket_raw;
  last_refilled_at_timestamp : Z;
}.

(** ** Raw buckets *)

Definition token_bucket_cfg_init (rate burst : Z) : token_bucket_cfg :=
  let burst := if TOKEN_BUCKET_MAX_BURST <? burst then TOKEN_BUCKET_MAX_BURST else burst in
  {| cfg_rate := rate; cfg_burst := s32 burst |}.

Definition token_bucket_raw_reset (c : token_bucket_cfg) : token_bucket_raw := Raw (cfg_burst c).

Definition token_bucket_raw_adjust (b : token_bucket_raw) (c : token_bucket_cfg) : token_bucket_raw :=
  Raw (Z.min (bucket b) (cfg_burst c)).

(** The bucket afterwards, and whether it was empty and no longer is. *)
Definition token_bucket_raw_refill_steps (b : token_bucket_raw) (c : token_bucket_cfg) (elapsed : Z)
    : option (token_bucket_raw * bool) :=
  let was_empty := bucket b <=? 0 in
  let gap := u64 (u64 (cfg_burst c) - u64 (bucket b)) in
  if cfg_rate c =? 0 then None
  else
    let level :=
      if gap / cfg_rate c <? elapsed then cfg_burst c
      else s32 (u32 (bucket b) + u32 (cfg_rate c * elapsed)) in
    Some (Raw level, was_empty && (0 <? level)).

(** The bucket afterwards, and whether it became empty. *)
Definition token_bucket_raw_dec (b : token_bucket_raw) (n : Z) : token_bucket_raw * bool :=
  if n <? 0 then (b, false)
  else (Raw (s32 (bucket b - n)), (0 <? bucket b) && (bucket b <=? n)).

Definition token_bucket_raw_get (b : token_bucket_raw) : Z :=
  if 0 <=? bucket b then bucket b else 0.

(** ** Read-write buckets *)

Definition STAMP_TICKS_PER_SECOND : Z := 953.
Definition monotime_coarse_stamp_units_to_approx_msec (units : Z) : Z :=
  u64 (units * 1000) / STAMP_TICKS_PER_SECOND.

Definition rate_per_sec_to_rate_per_step (rate : Z) : Z :=
  let units := u64 (rate * TICKS_PER_STEP) in
  let val := u32 (monotime_coarse_stamp_units_to_approx_msec units / 1000) in
  if val =? 0 then 1 else val.

Definition token_bucket_rw_adjust (b : token_bucket_rw) (rate burst : Z) : token_bucket_rw :=
  let c := token_bucket_cfg_init (rate_per_sec_to_rate_per_step rate) burst in
  {| cfg := c;
     read_bucket := token_bucket_raw_adjust (read_bucket b) c;
     write_bucket := token_bucket_raw_adjust (write_bucket b) c;
     last_refilled_at_timestamp := last_refilled_at_timestamp b |}.

Definition token_bucket_rw_reset (b : token_bucket_rw) (now_ts : Z) : token_bucket_rw :=
  {| cfg := cfg b;
     read_bucket := token_bucket_raw_reset (cfg b);
     write_bucket := token_bucket_raw_reset (cfg b);
     last_refilled_at_timestamp := now_ts |}.

Definition token_bucket_rw_init (rate burst now_ts : Z) : token_bucket_rw :=
  let b := Rw (Cfg 0 0) (Raw 0) (Raw 0) 0 in
  token_bucket_rw_reset (token_bucket_rw_adjust b rate burst) now_ts.

(** The bucket afterwards and the flags returned. *)
Definition token_bucket_rw_refill (b : token_bucket_rw) (now_ts : Z)
    : option (token_bucket_rw * Z) :=
  let elapsed_ticks := u32 (now_ts - last_refilled_at_timestamp b) in
  if 0xffffffff - 300 * 1000 <? elapsed_ticks then Some (b, 0)
  else
    let elapsed_steps := elapsed_ticks / TICKS_PER_STEP in
    if elapsed_steps =? 0 then Some (b, 0)
    else
      '(rd, r_flag) ← token_bucket_raw_refill_steps (read_bucket b) (cfg b) elapsed_steps;
      '(wr, w_flag) ← token_bucket_raw_refill_steps (write_bucket b) (cfg b) elapsed_steps;
      let flags := (if (r_flag : bool) then TB_READ else 0) .| (if (w_flag : bool) then TB_WRITE else 0) in
      Some ({| cfg := cfg b; read_bucket := rd; write_bucket := wr;
               last_refilled_at_timestamp := now_ts |}, flags).

Definition token_bucket_rw_dec_read (b : token_bucket_rw) (n : Z) : token_bucket_rw * bool :=
  let '(rd, empty) := token_bucket_raw_dec (read_bucket b) n in
  ({| cfg := cfg b; read_bucket := rd; write_bucket := write_bucket b;
      last_refilled_at_timestamp := last_refilled_at_timestamp b |}, empty).

Definition token_bucket_rw_dec_write (b : token_bucket_rw) (n : Z) : token_bucket_rw * bool :=
  let '(wr, empty) := token_bucket_raw_dec (write_bucket b) n in
  ({| cfg := cfg b; read_bucket := read_bucket b; write_bucket := wr;
      last_refilled_at_timestamp := last_refilled_at_timestamp b |}, empty).

Definition token_bucket_rw_dec (b : token_bucket_rw) (n_read n_written : Z) : token_bucket_rw * Z :=
  let '(b, r) := token_bucket_rw_dec_read b n_read in
  let '(b, w) := token_bucket_rw_dec_write b n_written in
  (b, (if (r : bool) then TB_READ else 0) .| (if (w : bool) then TB_WRITE else 0)).

Definition token_bucket_rw_get_read (b : token_bucket_rw) : Z := token_bucket_raw_get (read_bucket b).
Definition token_bucket_rw_get_write (b : token_bucket_rw) : Z := token_bucket_raw_get (write_bucket b).

(** * token_bucket.c: properties

    A refill is exact in spite of the mixed integer widths, and a bucket enforces
    its rate: what it lets through is bounded by the burst and the time elapsed. *)

#[local] Open Scope Z_scope.

(** ** Machine integers *)

Lemma s32_id x : - 2 ^ 31 <= x < 2 ^ 31 -> s32 x = x.
Proof.
  intros H. unfold s32, wrap. destruct (Z.ltb_spec x 0).
  - replace (x mod 2 ^ 32) with (x + 2 ^ 32) by (apply (Z.mod_unique _ _ (-1)); lia).
    destruct (Z.ltb_spec (x + 2 ^ 32) (2 ^ 31)); lia.
  - rewrite Z.mod_small by lia. by destruct (Z.ltb_spec x (2 ^ 31)); [| lia].
Qed.

Lemma s32_add_wraps x y : s32 (u32 x + u32 y) = s32 (x + y).
Proof. unfold s32. by rewrite wrap_add_l, wrap_add_r. Qed.

Lemma s32_period x : s32 (x + 2 ^ 32) = s32 x.
Proof.
  unfold s32. replace (u32 (x + 2 ^ 32)) with (u32 x); [done |].
  unfold wrap. replace (x + 2 ^ 32) with (x + 1 * 2 ^ 32) by lia. by rewrite Z.mod_add by lia.
Qed.

(** ** Well-formed buckets *)

Definition cfg_ok (c : token_bucket_cfg) : Prop :=
  1 <= cfg_rate c < 2 ^ 32 /\ 0 <= cfg_burst c <= TOKEN_BUCKET_MAX_BURST.

(** The level is a 32-bit number and does not exceed the burst. *)
Definition level_ok (c : token_bucket_cfg) (b : token_bucket_raw) : Prop :=
  - 2 ^ 31 <= bucket b <= cfg_burst c.

Lemma cfg_init_ok rate burst :
  0 <= burst < 2 ^ 32 -> cfg_ok (token_bucket_cfg_init (rate_per_sec_to_rate_per_step rate) burst).
Proof.
  intros Hb. unfold token_bucket_cfg_init, cfg_ok, TOKEN_BUCKET_MAX_BURST, rate_per_sec_to_rate_per_step.
  cbn [cfg_rate cfg_burst]. split.
  - destruct (Z.eqb_spec (u32 (monotime_coarse_stamp_units_to_approx_msec
      (u64 (rate * TICKS_PER_STEP)) / 1000)) 0) as [_ | H]; [lia |].
    match goal with |- 1 <= u32 ?x < _ => pose proof (wrap_fits 32 x ltac:(lia)) as [? ?] end. lia.
  - destruct (Z.ltb_spec 0x7fffffff burst); rewrite s32_id; lia.
Qed.

(** ** Refilling *)

(** The [size_t] gap is the number of tokens missing. *)
Lemma gap_exact c b :
  cfg_ok c -> level_ok c b -> u64 (u64 (cfg_burst c) - u64 (bucket b)) = cfg_burst c - bucket b.
Proof.
  intros [_ Hb] Hl. unfold level_ok, TOKEN_BUCKET_MAX_BURST in *. unfold wrap.
  rewrite <- Zminus_mod. apply Z.mod_small. lia.
Qed.

Lemma raw_refill_exact c b elapsed :
  cfg_ok c -> level_ok c b -> 0 <= elapsed < 2 ^ 32 ->
  let level := Z.min (cfg_burst c) (bucket b + cfg_rate c * elapsed) in
  token_bucket_raw_refill_steps b c elapsed = Some (Raw level, (bucket b <=? 0) && (0 <? level)).
Proof.
  intros Hc Hl He level. unfold token_bucket_raw_refill_steps. rewrite gap_exact by done.
  destruct Hc as [Hr Hb]. unfold level_ok, TOKEN_BUCKET_MAX_BURST in *.
  rewrite (proj2 (Z.eqb_neq (cfg_rate c) 0)) by lia.
  assert ((if (cfg_burst c - bucket b) / cfg_rate c <? elapsed then cfg_burst c
           else s32 (u32 (bucket b) + u32 (cfg_rate c * elapsed))) = level) as ->; [| done].
  destruct (Z.ltb_spec ((cfg_burst c - bucket b) / cfg_rate c) elapsed) as [Hlt | Hge].
  - pose proof (Z.mul_succ_div_gt (cfg_burst c - bucket b) (cfg_rate c) ltac:(lia)).
    unfold level. nia.
  - pose proof (Z.mul_div_le (cfg_burst c - bucket b) (cfg_rate c) ltac:(lia)).
    rewrite s32_add_wraps, s32_id; unfold level; nia.
Qed.

Lemma raw_dec_exact c b n :
  cfg_ok c -> level_ok c b -> 0 <= n -> - 2 ^ 31 <= bucket b - n ->
  token_bucket_raw_dec b n = (Raw (bucket b - n), (0 <? bucket b) && (bucket b <=? n)).
Proof.
  intros [_ Hb] Hl Hn Hlow. unfold token_bucket_raw_dec, level_ok, TOKEN_BUCKET_MAX_BURST in *.
  rewrite (proj2 (Z.ltb_ge n 0)) by lia. rewrite s32_id by lia. done.
Qed.

(** ** The configured rate *)

(** Tokens per step of sixteen ticks, of which there are 953 in a second. *)
Definition steps_rate (rate : Z) : Z := Z.max 1 (rate * 16 / 953).

Lemma rate_per_step rate :
  0 <= rate < 2 ^ 32 -> rate_per_sec_to_rate_per_step rate = steps_rate rate.
Proof.
  intros Hr. unfold steps_rate, rate_per_sec_to_rate_per_step, monotime_coarse_stamp_units_to_approx_msec,
    TICKS_PER_STEP, STAMP_TICKS_PER_SECOND.
  rewrite (wrap_id 64 (rate * 16)) by (split; lia).
  rewrite (wrap_id 64 (rate * 16 * 1000)) by (split; lia).
  rewrite Z.div_div, (Z.mul_comm 953), <- Z.div_div, Z.div_mul by lia.
  assert (0 <= rate * 16 / 953 < 2 ^ 32).
  { split; [apply Z.div_pos; lia | apply Z.div_lt_upper_bound; lia]. }
  rewrite wrap_id by done. destruct (Z.eqb_spec (rate * 16 / 953) 0); lia.
Qed.

Lemma steps_rate_le rate' rate : rate' <= rate -> steps_rate rate' <= steps_rate rate.
Proof. intros H. unfold steps_rate. pose proof (Z.div_le_mono (rate' * 16) (rate * 16) 953 ltac:(lia) ltac:(lia)). lia. Qed.

Lemma cfg_burst_min rate burst :
  0 <= burst < 2 ^ 32 ->
  cfg_burst (token_bucket_cfg_init rate burst) = Z.min burst TOKEN_BUCKET_MAX_BURST.
Proof.
  intros Hb. unfold token_bucket_cfg_init, TOKEN_BUCKET_MAX_BURST. cbn [cfg_burst].
  destruct (Z.ltb_spec 0x7fffffff burst); rewrite s32_id; lia.
Qed.

(** ** Traces *)

(** A rate and a burst that may be configured, at most the given ones. *)
Definition config_within (rate burst rate' burst' : Z) : Prop := 0 <= rate' <= rate /\ 0 <= burst' <= burst.

(** The states a bucket passes through: created with a rate and a burst, then refilled,
    drained, adjusted to another rate and burst and reset, in any order; all the rates
    and bursts are at most [rate] and [burst].  [t0] is the time, in clock ticks, at which
    it was created or last reset, [now] the highest time since then and [rd], [wr] the octets
    read and written since then; the 32-bit timestamps are the times modulo 2^32.  The clock
    may stand still, jump ahead or fall back, but for a refill no more than 300000 ticks
    behind [now]; a negative amount is refused and an amount may exceed the level, as long
    as the level stays a 32-bit number. *)
Inductive reached (rate burst : Z) : token_bucket_rw -> Z -> Z -> Z -> Z -> Prop :=
  | reached_init rate' burst' t :
      config_within rate burst rate' burst' ->
      reached rate burst (token_bucket_rw_init rate' burst' (u32 t)) t t 0 0
  | reached_adjust b t0 now rd wr rate' burst' :
      reached rate burst b t0 now rd wr -> config_within rate burst rate' burst' ->
      reached rate burst (token_bucket_rw_adjust b rate' burst') t0 now rd wr
  | reached_reset b t0 now rd wr t :
      reached rate burst b t0 now rd wr ->
      reached rate burst (token_bucket_rw_reset b (u32 t)) t t 0 0
  | reached_refill b t0 now rd wr t b' flags :
      reached rate burst b t0 now rd wr -> now - 300000 <= t ->
      token_bucket_rw_refill b (u32 t) = Some (b', flags) ->
      reached rate burst b' t0 (Z.max now t) rd wr
  | reached_read b t0 now rd wr n :
      reached rate burst b t0 now rd wr -> - 2 ^ 31 <= bucket (read_bucket b) - n ->
      reached rate burst (token_bucket_rw_dec_read b n).1 t0 now (rd + Z.max 0 n) wr
  | reached_write b t0 now rd wr n :
      reached rate burst b t0 now rd wr -> - 2 ^ 31 <= bucket (write_bucket b) - n ->
      reached rate burst (token_bucket_rw_dec_write b n).1 t0 now rd (wr + Z.max 0 n).

(** The most a bucket may have let through at a time [d] after its last reset. *)
Definition allowance (rate burst d : Z) : Z :=
  Z.min burst TOKEN_BUCKET_MAX_BURST + steps_rate rate * (d / TICKS_PER_STEP).

Lemma allowance_mono rate burst d d' : d <= d' -> allowance rate burst d <= allowance rate burst d'.
Proof.
  intros H. unfold allowance, steps_rate.
  pose proof (Z.div_le_mono d d' TICKS_PER_STEP ltac:(done) H). nia.
Qed.

(** What was let through and what is left never exceed the burst and the refills
    earned up to the last one, at the real time [last]. *)
Record invariant (rate burst : Z) (b : token_bucket_rw) (t0 now rd wr : Z) : Prop := {
  inv_cfg : cfg_ok (cfg b) /\ cfg_rate (cfg b) <= steps_rate rate
    /\ cfg_burst (cfg b) <= Z.min burst TOKEN_BUCKET_MAX_BURST;
  inv_read : level_ok (cfg b) (read_bucket b);
  inv_write : level_ok (cfg b) (write_bucket b);
  inv_last : exists last, t0 <= last <= now /\ last_refilled_at_timestamp b = u32 last
    /\ rd + bucket (read_bucket b) <= allowance rate burst (last - t0)
    /\ wr + bucket (write_bucket b) <= allowance rate burst (last - t0);
}.

Section Bounded.
Context (rate burst : Z) (Hrate : 0 <= rate < 2 ^ 32) (Hburst : 0 <= burst < 2 ^ 32).

Lemma config_ok rate' burst' :
  config_within rate burst rate' burst' ->
  let c := token_bucket_cfg_init (rate_per_sec_to_rate_per_step rate') burst' in
  cfg_ok c /\ cfg_rate c <= steps_rate rate /\ cfg_burst c <= Z.min burst TOKEN_BUCKET_MAX_BURST.
Proof using Hrate Hburst.
  intros [Hr Hb] c. subst c. split; [apply cfg_init_ok; lia |]. rewrite cfg_burst_min by lia. cbn [token_bucket_cfg_init cfg_rate].
  rewrite rate_per_step by lia. pose proof (steps_rate_le rate' rate ltac:(lia)). lia.
Qed.

(** The elapsed steps computed from 32-bit timestamps never exceed the real ones. *)
Lemma elapsed_le last t :
  last <= t -> 0 <= u32 (u32 t - u32 last) / TICKS_PER_STEP <= (t - last) / TICKS_PER_STEP.
Proof.
  intros H. unfold wrap, TICKS_PER_STEP. rewrite <- Zminus_mod.
  pose proof (Z.mod_pos_bound (t - last) (2 ^ 32) ltac:(lia)).
  pose proof (Z.mod_le (t - last) (2 ^ 32) ltac:(lia) ltac:(lia)).
  split; [apply Z.div_pos; lia | apply Z.div_le_mono; lia].
Qed.

Lemma steps_add a b : 0 <= a -> 0 <= b ->
  a / TICKS_PER_STEP + b / TICKS_PER_STEP <= (a + b) / TICKS_PER_STEP.
Proof.
  intros Ha Hb. unfold TICKS_PER_STEP. apply Z.div_le_lower_bound; [lia |].
  pose proof (Z.mul_div_le a 16 ltac:(lia)). pose proof (Z.mul_div_le b 16 ltac:(lia)). lia.
Qed.

(** A clock that fell back by at most 300000 ticks is more than 2^32 - 1 - 300000 ahead. *)
Lemma fallen_back last t :
  last - 300000 <= t < last -> (0xffffffff - 300 * 1000 <? u32 (u32 t - u32 last)) = true.
Proof using.
  intros H. apply Z.ltb_lt. unfold wrap. rewrite <- Zminus_mod.
  rewrite <- (Z.mod_unique (t - last) (2 ^ 32) (-1) (t - last + 2 ^ 32)) by lia. lia.
Qed.

Lemma invariant_refill b t0 now rd wr t b' flags :
  invariant rate burst b t0 now rd wr -> now - 300000 <= t ->
  token_bucket_rw_refill b (u32 t) = Some (b', flags) -> invariant rate burst b' t0 (Z.max now t) rd wr.
Proof using.
  intros [(Hok & Hcr & Hcb) Hr Hw (last & Hlast & Hts & HR & HW)] Ht.
  unfold token_bucket_rw_refill. rewrite Hts.
  assert (invariant rate burst b t0 (Z.max now t) rd wr) as Hsame.
  { split; try done. exists last. split_and!; try done; lia. }
  destruct (Z.ltb_spec t last) as [Hback | Hahead].
  { rewrite fallen_back by lia. by intros [= <- _]. }
  destruct (_ <? _); [by intros [= <- _] |]. destruct (_ =? 0); [by intros [= <- _] |].
  pose proof (elapsed_le last t Hahead) as [He0 He].
  set (e := u32 (u32 t - u32 last) / TICKS_PER_STEP) in *.
  assert (0 <= e < 2 ^ 32) as Hrange.
  { split; [done |]. unfold e, TICKS_PER_STEP. pose proof (wrap_fits 32 (u32 t - u32 last) ltac:(lia)) as [? ?].
    apply Z.div_lt_upper_bound; lia. }
  rewrite !(raw_refill_exact (cfg b)) by done. obind. cbv iota. obind. intros [= <- _].
  pose proof Hok as [[Hcr0 _] [Hcb0 _]]. pose proof (steps_add (last - t0) (t - last) ltac:(lia) ltac:(lia)) as Hadd.
  replace (last - t0 + (t - last)) with (t - t0) in Hadd by lia. unfold level_ok, allowance in *.
  split; cbn [cfg read_bucket write_bucket bucket last_refilled_at_timestamp]; unfold level_ok; cbn [bucket]; [done | nia | nia |].
  exists t. split; [lia |]. split; [done |]. unfold allowance. split; nia.
Qed.

(** Draining one side keeps the invariant, adjusting the bucket and resetting it too. *)
Lemma raw_dec_any c b n :
  cfg_ok c -> level_ok c b -> - 2 ^ 31 <= bucket b - n -> bucket (token_bucket_raw_dec b n).1 = bucket b - Z.max 0 n.
Proof using.
  intros Hc Hl Hn. destruct (Z.ltb_spec n 0) as [H|H].
  - unfold token_bucket_raw_dec. rewrite (proj2 (Z.ltb_lt n 0)) by done. cbn [fst]. lia.
  - rewrite (raw_dec_exact c) by done. cbn [fst bucket]. lia.
Qed.

Lemma invariant_dec_read b t0 now rd wr n :
  invariant rate burst b t0 now rd wr -> - 2 ^ 31 <= bucket (read_bucket b) - n ->
  invariant rate burst (token_bucket_rw_dec_read b n).1 t0 now (rd + Z.max 0 n) wr.
Proof using.
  intros [(Hok & Hcr & Hcb) Hr Hw (last & Hlast & Hts & HR & HW)] Hn. pose proof (raw_dec_any _ _ n Hok Hr Hn) as E.
  unfold token_bucket_rw_dec_read. destruct (token_bucket_raw_dec _ n) as [rb e]. cbn [fst] in *.
  split; cbn [cfg read_bucket write_bucket last_refilled_at_timestamp]; try done.
  - unfold level_ok in *. rewrite E. lia.
  - exists last. rewrite E. split_and!; try done; lia.
Qed.

Lemma invariant_dec_write b t0 now rd wr n :
  invariant rate burst b t0 now rd wr -> - 2 ^ 31 <= bucket (write_bucket b) - n ->
  invariant rate burst (token_bucket_rw_dec_write b n).1 t0 now rd (wr + Z.max 0 n).
Proof using.
  intros [(Hok & Hcr & Hcb) Hr Hw (last & Hlast & Hts & HR & HW)] Hn. pose proof (raw_dec_any _ _ n Hok Hw Hn) as E.
  unfold token_bucket_rw_dec_write. destruct (token_bucket_raw_dec _ n) as [wb e]. cbn [fst] in *.
  split; cbn [cfg read_bucket write_bucket last_refilled_at_timestamp]; try done.
  - unfold level_ok in *. rewrite E. lia.
  - exists last. rewrite E. split_and!; try done; lia.
Qed.

Lemma invariant_adjust b t0 now rd wr rate' burst' :
  invariant rate burst b t0 now rd wr -> config_within rate burst rate' burst' ->
  invariant rate burst (token_bucket_rw_adjust b rate' burst') t0 now rd wr.
Proof using Hrate Hburst.
  intros [_ Hr Hw (last & Hlast & Hts & HR & HW)] Hc%config_ok. pose proof Hc as ([_ Hb] & _).
  unfold token_bucket_rw_adjust, token_bucket_raw_adjust, level_ok in *.
  set (c := token_bucket_cfg_init _ burst') in *. clearbody c.
  split; cbn [cfg read_bucket write_bucket bucket last_refilled_at_timestamp]; unfold level_ok; cbn [bucket]; [done | lia | lia |].
  exists last. split_and!; try done; lia.
Qed.

Lemma invariant_reset b t :
  cfg_ok (cfg b) /\ cfg_rate (cfg b) <= steps_rate rate /\ cfg_burst (cfg b) <= Z.min burst TOKEN_BUCKET_MAX_BURST ->
  invariant rate burst (token_bucket_rw_reset b (u32 t)) t t 0 0.
Proof using.
  intros Hc. pose proof Hc as ([_ Hb] & _ & Hm). unfold token_bucket_rw_reset, token_bucket_raw_reset.
  split; cbn [cfg read_bucket write_bucket last_refilled_at_timestamp]; unfold level_ok; cbn [bucket]; [done | lia | lia |].
  exists t. unfold allowance. rewrite Z.sub_diag. change (0 / TICKS_PER_STEP) with 0. split_and!; (done || lia).
Qed.

Lemma reached_invariant b t0 now rd wr :
  reached rate burst b t0 now rd wr -> invariant rate burst b t0 now rd wr.
Proof using Hrate Hburst.
  induction 1.
  - apply invariant_reset. by apply config_ok.
  - by apply invariant_adjust.
  - eapply invariant_reset, inv_cfg. done.
  - by eapply invariant_refill.
  - by apply invariant_dec_read.
  - by apply invariant_dec_write.
Qed.

End Bounded.

(** In seconds: the tokens earned in [d] ticks are at most [rate] per second. *)
Lemma earned_per_second rate d :
  60 <= rate -> 0 <= d -> Z.max 1 (rate * 16 / 953) * (d / TICKS_PER_STEP) <= rate * d / 953.
Proof.
  intros Hr Hd. unfold TICKS_PER_STEP.
  assert (1 <= rate * 16 / 953) by (apply Z.div_le_lower_bound; lia). rewrite Z.max_r by lia.
  pose proof (Z.mul_div_le (rate * 16) 953 ltac:(lia)). pose proof (Z.mul_div_le d 16 ltac:(lia)).
  pose proof (Z.div_pos d 16 ltac:(lia) ltac:(lia)).
  apply Z.div_le_lower_bound; [lia |]. nia.
Qed.

(** ** Properties *)

(** C40. A token bucket enforces its rate.  In every state reached from a new bucket by
    refills, reads, writes, changes of the rate and burst and resets, as long as no level is
    overdrawn below -2^31 and no refill finds the clock more than 300000 ticks behind the
    highest time since the last reset: what was let through since then plus what is left (a
    level overdrawn is negative) is at most the burst plus the tokens of the steps elapsed, for
    the highest rate and burst configured; for a rate of at least 60 octets per second, that
    is at most the rate times the seconds (of 953 ticks) elapsed.  The wrap-around of the
    32-bit clock does not break the bound, nor do such smaller falls of the clock. *)
Theorem token_bucket_rate_limit rate burst b t0 now rd wr :
  0 <= rate < 2 ^ 32 -> 0 <= burst < 2 ^ 32 -> reached rate burst b t0 now rd wr ->
  let limit := Z.min burst TOKEN_BUCKET_MAX_BURST
               + Z.max 1 (rate * 16 / 953) * ((now - t0) / TICKS_PER_STEP) in
  rd + bucket (read_bucket b) <= limit /\ wr + bucket (write_bucket b) <= limit
  /\ (60 <= rate -> limit <= Z.min burst TOKEN_BUCKET_MAX_BURST + rate * (now - t0) / 953).
Proof.
  intros Hr Hb H limit. destruct (reached_invariant _ _ Hr Hb _ _ _ _ _ H) as [_ _ _ (last & Hlast & _ & HR & HW)].
  pose proof (allowance_mono rate burst (last - t0) (now - t0) ltac:(lia)) as Hm. change limit with (allowance rate burst (now - t0)).
  split; [lia |]. split; [lia |].
  intros H60. unfold allowance, steps_rate. pose proof (earned_per_second rate (now - t0) H60 ltac:(lia)). lia.
Qed.

(** Past these conditions it fails: a clock 300001 ticks back looks as if it were 2^32 -
    300001 ahead and refills a bucket that was just emptied to its burst, and an overdraft
    below -2^31 leaves a positive level. *)
Example refill_after_jump_back :
  let b := (token_bucket_rw_dec_read (token_bucket_rw_init 1000 500 1000000) 500).1 in
  bucket (read_bucket b) = 0 /\
  option_map (fun r => bucket (read_bucket r.1)) (token_bucket_rw_refill b (1000000 - 300000)) = Some 0 /\
  option_map (fun r => bucket (read_bucket r.1)) (token_bucket_rw_refill b (1000000 - 300001)) = Some 500.
Proof. vm_compute. done. Qed.

(** A refill is exact: for any 32-bit level up to the burst, any rate and any number
    of steps, the mixed signed, unsigned, 32-bit and 64-bit arithmetic gives the
    minimum of the burst and the level plus rate times steps, and the flag tells
    whether the bucket left the empty state. *)
Theorem token_bucket_refill_exact c b elapsed :
  cfg_ok c -> level_ok c b -> 0 <= elapsed < 2 ^ 32 ->
  let level := Z.min (cfg_burst c) (bucket b + cfg_rate c * elapsed) in
  token_bucket_raw_refill_steps b c elapsed = Some (Raw level, (bucket b <=? 0) && (0 <? level)).
Proof. intros Hc Hl He. by apply raw_refill_exact. Qed.

(** Draining subtracts, and reports when a positive level is used up; a level that
    would fall below -2^31 wraps around to a non-negative one. *)
Theorem token_bucket_dec_levels c b n :
  cfg_ok c -> level_ok c b -> 0 <= n < 2 ^ 31 ->
  token_bucket_raw_dec b n =
    (Raw (if - 2 ^ 31 <=? bucket b - n then bucket b - n else bucket b - n + 2 ^ 32),
     (0 <? bucket b) && (bucket b <=? n)).
Proof.
  intros Hc Hl Hn. destruct (Z.leb_spec (- 2 ^ 31) (bucket b - n)) as [H | H].
  - by apply (raw_dec_exact c); [| | lia |].
  - destruct Hc as [_ Hb]. unfold token_bucket_raw_dec, level_ok, TOKEN_BUCKET_MAX_BURST in *.
    rewrite (proj2 (Z.ltb_ge n 0)) by lia. rewrite <- s32_period, s32_id by lia. done.
Qed.

(** ** Witnesses *)

(** A bucket of 1000 octets per second and a burst of 500, drained by 400, refilled
    after two seconds across the wrap-around of the clock, refilled again with a clock a
    hundred ticks back, adjusted to half the rate and drained by 300. *)
Lemma token_bucket_rate_limit_witness :
  exists b,
    reached 1000 500 b (2 ^ 32 - 953) (2 ^ 32 + 953) (400 + 300) 0
    /\ 700 + bucket (read_bucket b) <= 500 + 16 * 119.
Proof.
  set (b0 := token_bucket_rw_init 1000 500 (u32 (2 ^ 32 - 953))).
  set (b1 := (token_bucket_rw_dec_read b0 400).1).
  set (b2 := match token_bucket_rw_refill b1 (u32 (2 ^ 32 + 953)) with Some (b, _) => b | None => b1 end).
  set (b3 := token_bucket_rw_adjust b2 500 500).
  assert (reached 1000 500 (token_bucket_rw_dec_read b3 300).1 (2 ^ 32 - 953) (2 ^ 32 + 953) (400 + 300) 0) as H.
  { apply (reached_read _ _ b3 _ _ 400 0 300); [| vm_compute; discriminate].
    apply reached_adjust; [| unfold config_within; lia].
    apply (reached_refill _ _ b2 _ (2 ^ 32 + 953) 400 0 (2 ^ 32 + 853) b2 0); [| lia | vm_compute; reflexivity].
    apply (reached_refill _ _ b1 _ (2 ^ 32 - 953) 400 0 (2 ^ 32 + 953) b2 0); [| lia | vm_compute; reflexivity].
    apply (reached_read _ _ b0 _ _ 0 0 400); [apply reached_init; unfold config_within; lia | vm_compute; discriminate]. }
  exists (token_bucket_rw_dec_read b3 300).1. split; [exact H |].
  destruct (token_bucket_rate_limit 1000 500 _ (2 ^ 32 - 953) (2 ^ 32 + 953) (400 + 300) 0
    ltac:(lia) ltac:(lia) H) as [HR _]. exact HR.
Defined.

Lemma token_bucket_refill_exact_witness :
  token_bucket_raw_refill_steps (Raw (- 2 ^ 31)) (Cfg 4000000000 0x7fffffff) 1
  = Some (Raw (4000000000 - 2 ^ 31), true).
Proof.
  apply (token_bucket_refill_exact (Cfg 4000000000 0x7fffffff) (Raw (- 2 ^ 31)) 1);
    unfold cfg_ok, level_ok, TOKEN_BUCKET_MAX_BURST; cbn [cfg_rate cfg_burst bucket]; lia.
Defined.

Lemma token_bucket_dec_levels_witness :
  token_bucket_raw_dec (Raw (- 2 ^ 31)) 1 = (Raw (2 ^ 31 - 1), false).
Proof.
  apply (token_bucket_dec_levels (Cfg 1 5) (Raw (- 2 ^ 31)) 1);
    unfold cfg_ok, level_ok, TOKEN_BUCKET_MAX_BURST; cbn [cfg_rate cfg_burst bucket]; lia.
Defined.
