(* ===== verification/IntMath.v ===== *)
(** * lib/intmath of the embedded Tor

    Models of [src/src/tor/src/lib/intmath/bits.c] and [muldiv.c]: logarithms,
    powers of two, population count, rounding to multiples and reduction of
    fractions, on [uint64_t], [uint32_t] and [unsigned] (32 bits); then their properties. *)

From S2P Require Import Prelude.
#[local] Open Scope Z_scope.

(** ** bits.c *)

(** One test of [tor_log2]: [if (u64 >= 1 << k) { u64 >>= k; r += k; }]. *)
Definition log2_step (k : Z) (s : Z * Z) : Z * Z :=
  let '(u64, r) := s in
  if (1 << k) <=? u64 then (u64 >> k, r + k) else (u64, r).

Definition tor_log2 (u64 : Z) : Z :=
  let s := log2_step 32 (u64, 0) in
  let s := log2_step 16 s in
  let s := log2_step 8 s in
  let s := log2_step 4 s in
  let '(u64, r) := log2_step 2 s in
  if (1 << 1) <=? u64 then r + 1 else r.

Definition round_to_power_of_2 (u : Z) : Z :=
  if u =? 0 then 1
  else
    let lg2 := tor_log2 u in
    let low := u64 (1 << lg2) in
    if lg2 =? 63 then low
    else
      let high := u64 (1 << (lg2 + 1)) in
      if u64 (high - u) <? u64 (u - low) then high else low.

Definition nybble_table : list Z := [0; 1; 1; 2; 1; 2; 2; 3; 1; 2; 2; 3; 2; 3; 3; 4].
Definition n_bits_set_u8 (v : Z) : Z :=
  nth (Z.to_nat (v & 15)) nybble_table 0 + nth (Z.to_nat (v >> 4)) nybble_table 0.

(** ** muldiv.c *)

(** The three rounding functions, for unsigned integers of [w] bits; a zero divisor
    fails the assertion. *)
Definition round_to_next_multiple (w number divisor : Z) : option Z :=
  let MAX := 2 ^ w - 1 in
  if divisor =? 0 then None
  else if wrap w (MAX - divisor + 1) <? number then Some MAX
  else
    let number := wrap w (number + (divisor - 1)) in
    Some (wrap w (number - number mod divisor)).

Definition round_to_next_multiple_of : Z -> Z -> option Z := round_to_next_multiple 32.
Definition round_uint32_to_next_multiple_of : Z -> Z -> option Z := round_to_next_multiple 32.
Definition round_uint64_to_next_multiple_of : Z -> Z -> option Z := round_to_next_multiple 64.

(** Euclid's loop. *)
Fixpoint gcd64_loop (fuel : nat) (a b : Z) : option Z :=
  match fuel with
  | O => None
  | S fuel => if b =? 0 then Some a else gcd64_loop fuel b (a mod b)
  end.

(** Two iterations halve [b], so 130 are enough for 64 bits. *)
Definition gcd64 (a b : Z) : option Z := gcd64_loop 130 a b.

(** The fraction afterwards; [None] is a division by zero. *)
Definition simplify_fraction64 (numer denom : Z) : option (Z * Z) :=
  gcd ← gcd64 numer denom;
  if gcd =? 0 then None else Some (numer / gcd, denom / gcd).

(** * lib/intmath: properties *)

#[local] Open Scope Z_scope.

(** ** Logarithm *)

(** The invariant of the tests: what is left of [u] has at most [w] bits, and its
    logarithm and [r] add up. *)
Definition log2_inv (u w : Z) (s : Z * Z) : Prop :=
  1 <= s.1 < 2 ^ w /\ Z.log2 u = s.2 + Z.log2 s.1.

Lemma log2_step_inv u k s : 0 < k -> log2_inv u (2 * k) s -> log2_inv u k (log2_step k s).
Proof.
  intros Hk [Hs Hl]. destruct s as [v r]. unfold log2_step, log2_inv in *. cbn [fst snd] in *.
  rewrite Z.shiftl_1_l. destruct (Z.leb_spec (2 ^ k) v) as [Hge | Hlt]; cbn [fst snd].
  - rewrite Z.shiftr_div_pow2 by lia. pose proof (pow2_pos k ltac:(lia)). split; [split |].
    + apply Z.div_le_lower_bound; lia.
    + apply Z.div_lt_upper_bound; [lia |]. rewrite <- Z.pow_add_r by lia.
      replace (k + k) with (2 * k) by lia. lia.
    + rewrite <- Z.shiftr_div_pow2, Z.log2_shiftr by lia.
      assert (k <= Z.log2 v) by (apply Z.log2_le_pow2; lia). lia.
  - split; [lia | done].
Qed.

Lemma tor_log2_correct u : 1 <= u < 2 ^ 64 -> tor_log2 u = Z.log2 u.
Proof.
  intros Hu. unfold tor_log2.
  assert (log2_inv u (2 * 1) (log2_step 2 (log2_step 4 (log2_step 8 (log2_step 16 (log2_step 32 (u, 0))))))) as H.
  { do 5 (apply (log2_step_inv u); [lia |]). split; [done |]. cbn. lia. }
  destruct (log2_step 2 _) as [v r]. destruct H as [[H1 H4] Hl]. cbn [fst snd] in *.
  change (2 ^ (2 * 1)) with 4 in H4. change (1 << 1) with 2. rewrite Hl.
  destruct (Z.leb_spec 2 v).
  - replace (Z.log2 v) with 1; [done |]. symmetry. apply Z.log2_unique; lia.
  - replace v with 1 by lia. cbn. lia.
Qed.

(** ** Multiples *)

Lemma next_multiple_spec n d :
  0 <= n -> 0 < d ->
  let x := n + (d - 1) - (n + (d - 1)) mod d in
  n <= x < n + d /\ (d | x) /\ forall y, n <= y -> (d | y) -> x <= y.
Proof.
  intros Hn Hd x. pose proof (Z.mod_pos_bound (n + (d - 1)) d Hd) as Hm.
  assert (d | x) as Hdiv by (apply (proj1 (Z.mod_divide x d ltac:(lia))); unfold x; by rewrite Zminus_mod_idemp_r, Z.sub_diag).
  assert (n <= x < n + d) as Hx by (unfold x; lia).
  split; [done |]. split; [done |]. intros y Hy [q ->]. destruct Hdiv as [p Hp].
  clearbody x. clear Hm. subst x. assert (p < q + 1) by nia. nia.
Qed.

Lemma round_next_multiple_small w n d :
  0 <= w -> 0 <= n -> 0 < d -> n + d <= 2 ^ w ->
  round_to_next_multiple w n d = Some (n + (d - 1) - (n + (d - 1)) mod d).
Proof.
  intros Hw Hn Hd Hfit. unfold round_to_next_multiple. rewrite (proj2 (Z.eqb_neq d 0)) by lia.
  pose proof (next_multiple_spec n d Hn Hd) as [Hx _].
  rewrite (wrap_id w (2 ^ w - 1 - d + 1)) by (split; lia).
  destruct (Z.ltb_spec (2 ^ w - 1 - d + 1) n); [lia |].
  rewrite (wrap_id w (n + (d - 1))) by (split; lia).
  rewrite wrap_id by (split; lia). done.
Qed.

Lemma round_next_multiple_big w n d :
  0 <= w -> 0 <= n < 2 ^ w -> 0 < d < 2 ^ w -> 2 ^ w < n + d ->
  round_to_next_multiple w n d = Some (2 ^ w - 1).
Proof.
  intros Hw Hn Hd Hfit. unfold round_to_next_multiple. rewrite (proj2 (Z.eqb_neq d 0)) by lia.
  rewrite (wrap_id w (2 ^ w - 1 - d + 1)) by (split; lia).
  by destruct (Z.ltb_spec (2 ^ w - 1 - d + 1) n); [| lia].
Qed.

(** ** Greatest common divisor *)

(** Two iterations at least halve [b]. *)
Lemma mod_mod_half b c : 0 < c < b -> 2 * (b mod c) < b.
Proof.
  intros H. pose proof (Z.mod_pos_bound b c ltac:(lia)). pose proof (Z.div_mod b c ltac:(lia)) as E.
  assert (1 <= b / c) by (apply Z.div_le_lower_bound; lia). nia.
Qed.

Lemma gcd64_loop_spec k : forall fuel a b,
  0 <= a -> 0 <= b < 2 ^ Z.of_nat k -> (2 * k + 2 <= fuel)%nat -> gcd64_loop fuel a b = Some (Z.gcd a b).
Proof.
  induction k as [|k IH]; intros fuel a b Ha Hb Hf.
  - destruct fuel as [|fuel]; [lia |]. cbn [gcd64_loop]. change (2 ^ Z.of_nat 0) with 1 in Hb.
    replace b with 0 by lia. cbn. f_equal. rewrite Z.gcd_0_r. lia.
  - destruct fuel as [|[|fuel]]; [lia.. |]. cbn [gcd64_loop].
    destruct (Z.eqb_spec b 0) as [-> | Hb0]; [f_equal; rewrite Z.gcd_0_r; lia |].
    rewrite (Z.gcd_comm a b), <- (Z.gcd_mod a b), (Z.gcd_comm (a mod b)) by done.
    pose proof (Z.mod_pos_bound a b ltac:(lia)) as Hm.
    destruct (Z.eqb_spec (a mod b) 0) as [-> | Hm0]; [f_equal; rewrite Z.gcd_0_r; lia |].
    rewrite (Z.gcd_comm b), <- (Z.gcd_mod b (a mod b)), (Z.gcd_comm (b mod _)) by done.
    pose proof (mod_mod_half b (a mod b) ltac:(lia)). pose proof (Z.mod_pos_bound b (a mod b) ltac:(lia)).
    rewrite Nat2Z.inj_succ, Z.pow_succ_r in Hb by lia. apply IH; lia.
Qed.

Lemma gcd64_correct a b : 0 <= a -> 0 <= b < 2 ^ 64 -> gcd64 a b = Some (Z.gcd a b).
Proof. intros Ha Hb. apply (gcd64_loop_spec 64); [done | done | lia]. Qed.

(** ** Population count *)

Lemma n_bits_set_u8_count v :
  0 <= v < 256 -> n_bits_set_u8 v = foldr Z.add 0 ((fun i => Z.b2z (Z.testbit v i)) <$> seqZ 0 8).
Proof.
  intros Hv. rewrite <- (Z2Nat.id v) by lia. assert (Z.to_nat v < 256)%nat as H by lia. revert H.
  generalize (Z.to_nat v). clear v Hv. intros n Hn.
  assert (Forall (fun n => n_bits_set_u8 (Z.of_nat n)
    = foldr Z.add 0 ((fun i => Z.b2z (Z.testbit (Z.of_nat n) i)) <$> seqZ 0 8)) (seq 0 256)) as H
    by (apply (bool_decide_unpack _); vm_compute; exact I).
  rewrite list.Forall_forall in H. apply H. apply elem_of_seq. lia.
Qed.

(** ** Properties *)

Lemma pow2_between k j : 0 <= k -> 0 <= j -> 2 ^ j <= 2 ^ k \/ 2 * 2 ^ k <= 2 ^ j.
Proof.
  intros Hk Hj. destruct (Z.le_gt_cases j k); [left; by apply Z.pow_le_mono_r |].
  right. rewrite <- Z.pow_succ_r by done. apply Z.pow_le_mono_r; lia.
Qed.

(** [tor_log2] is the integer logarithm, and [round_to_power_of_2] returns the power
    of two that is closest to its argument among those that fit in 64 bits; of two
    that are equally close it returns the lower one. *)
Theorem round_to_power_of_2_closest u :
  0 <= u < 2 ^ 64 ->
  tor_log2 u = Z.log2 u
  /\ exists k, 0 <= k < 64 /\ round_to_power_of_2 u = 2 ^ k
       /\ forall j, 0 <= j < 64 ->
            Z.abs (2 ^ k - u) < Z.abs (2 ^ j - u) \/ (Z.abs (2 ^ k - u) = Z.abs (2 ^ j - u) /\ 2 ^ k <= 2 ^ j).
Proof.
  intros Hu. unfold round_to_power_of_2. destruct (Z.eqb_spec u 0) as [-> | Hu0].
  { split; [done |]. exists 0. split; [lia |]. split; [done |]. intros j Hj.
    pose proof (pow2_pos j ltac:(lia)). change (2 ^ 0) with 1. lia. }
  rewrite tor_log2_correct by lia. split; [done |].
  pose proof (Z.log2_spec u ltac:(lia)) as [Hlo Hhi]. pose proof (Z.log2_nonneg u) as Hk.
  assert (Z.log2 u < 64) as Hk64 by (apply Z.log2_lt_pow2; lia).
  set (k := Z.log2 u) in *. rewrite Z.pow_succ_r in Hhi by done. pose proof (pow2_pos k Hk) as Hpos.
  rewrite !Z.shiftl_1_l, (wrap_id 64 (2 ^ k)) by (split; lia).
  destruct (Z.eqb_spec k 63) as [E | E].
  - exists k. split; [lia |]. split; [done |]. intros j Hj.
    destruct (pow2_between k j Hk ltac:(lia)); [lia |].
    pose proof (Z.pow_le_mono_r 2 j 63 ltac:(lia) ltac:(lia)) as Hj63. rewrite <- E in Hj63. lia.
  - assert (2 ^ (k + 1) <= 2 ^ 63) by (apply Z.pow_le_mono_r; lia).
    rewrite Z.add_1_r, Z.pow_succ_r in * by done.
    rewrite (wrap_id 64 (2 * 2 ^ k)), (wrap_id 64 (2 * 2 ^ k - u)), (wrap_id 64 (u - 2 ^ k)) by (split; lia).
    destruct (Z.ltb_spec (2 * 2 ^ k - u) (u - 2 ^ k)).
    + exists (Z.succ k). rewrite Z.pow_succ_r by done. split; [lia |]. split; [done |]. intros j Hj.
      destruct (pow2_between k j Hk ltac:(lia)); [lia |].
      destruct (pow2_between (k + 1) j ltac:(lia) ltac:(lia)); rewrite Z.add_1_r, Z.pow_succ_r in * by done; lia.
    + exists k. split; [lia |]. split; [done |]. intros j Hj.
      destruct (pow2_between k j Hk ltac:(lia)); lia.
Qed.

(** Each rounding function returns the lowest multiple of the divisor that is not
    below the number, as long as number + divisor fits; above that it returns the
    largest integer of its type, even where a multiple exists: 4294967290 is a
    multiple of 10, and is rounded to 4294967295. *)
Theorem round_to_next_multiple_lowest w f n d :
  (w, f) ∈ [(32, round_to_next_multiple_of); (32, round_uint32_to_next_multiple_of);
            (64, round_uint64_to_next_multiple_of)] ->
  0 <= n < 2 ^ w -> 0 < d < 2 ^ w ->
  (n + d <= 2 ^ w -> exists x, f n d = Some x
     /\ n <= x /\ (d | x) /\ forall y, n <= y -> (d | y) -> x <= y)
  /\ (2 ^ w < n + d -> f n d = Some (2 ^ w - 1))
  /\ round_to_next_multiple_of 4294967290 10 = Some 4294967295.
Proof.
  intros Hf Hn Hd. assert (0 <= w /\ f = round_to_next_multiple w) as [Hw ->].
  { rewrite !elem_of_cons in Hf. destruct Hf as [[= -> ->] | [[= -> ->] | [[= -> ->] | []%not_elem_of_nil]]]; done. }
  split; [| split; [| done]].
  - intros Hfit. rewrite round_next_multiple_small by lia.
    eexists. split; [done |]. destruct (next_multiple_spec n d ltac:(lia) ltac:(lia)) as ([? _] & ? & ?). done.
  - intros Hbig. by apply round_next_multiple_big.
Qed.

(** [simplify_fraction64] ends, and returns the fraction in lowest terms. *)
Theorem simplify_fraction_lowest numer denom :
  0 <= numer < 2 ^ 64 -> 0 < denom < 2 ^ 64 ->
  exists n d, simplify_fraction64 numer denom = Some (n, d)
    /\ 0 < d /\ numer * d = n * denom /\ Z.gcd n d = 1.
Proof.
  intros Hn Hd. unfold simplify_fraction64. rewrite gcd64_correct by lia. obind.
  pose proof (Z.gcd_nonneg numer denom). set (g := Z.gcd numer denom) in *.
  assert (g <> 0) as Hg by (intros [_ ?]%Z.gcd_eq_0; lia).
  rewrite (proj2 (Z.eqb_neq g 0)) by done.
  destruct (Z.gcd_divide_l numer denom) as [a Ha], (Z.gcd_divide_r numer denom) as [b Hb]. fold g in Ha, Hb.
  exists (numer / g), (denom / g). split; [done |].
  assert (numer / g = a) as -> by (rewrite Ha; by apply Z.div_mul).
  assert (denom / g = b) as -> by (rewrite Hb; by apply Z.div_mul).
  split; [nia |]. split; [nia |].
  pose proof (Z.gcd_div_gcd numer denom g Hg eq_refl) as E. rewrite Ha, Hb, !Z.div_mul in E by done. done.
Qed.

Lemma round_to_power_of_2_closest_witness :
  round_to_power_of_2 96 = 64 /\ tor_log2 96 = 6.
Proof.
  destruct (round_to_power_of_2_closest 96 ltac:(lia)) as [E _]. split; [reflexivity | exact E].
Defined.

Lemma round_to_next_multiple_lowest_witness :
  round_uint32_to_next_multiple_of 4294967295 2 = Some (2 ^ 32 - 1).
Proof.
  destruct (round_to_next_multiple_lowest 32 round_uint32_to_next_multiple_of 4294967295 2) as (_ & H & _);
    [right; left | lia | lia |]. apply H. lia.
Defined.

Lemma simplify_fraction_lowest_witness :
  exists n d, simplify_fraction64 48 36 = Some (n, d) /\ 0 < d /\ 48 * d = n * 36 /\ Z.gcd n d = 1.
Proof. apply (simplify_fraction_lowest 48 36); lia. Defined.
