(* ===== verification/MdHash.v ===== *)
(** * Buffered Merkle-Damgard hashing (crypto/sha256.cpp, sha512.cpp, sha1.cpp, ripemd160.cpp)

    [CSHA256], [CSHA512], [CSHA1] and [CRIPEMD160] keep the chaining value [s], a
    block buffer [buf] and the number of octets taken in [bytes], and their
    [Write], [Finalize] and [Reset] are the same code at different block sizes.
    [Section Hasher] models that code over the block size and the compression
    function.  The specification is the padded message cut into blocks and folded
    through the compression function.  [StreamHash] is what the hashers promise to
    their clients (HMAC, CHash256, the Merkle trees, the wallet's key
    derivation), and [md_stream_ok] discharges it, in the second part.  Lists of octets as
    numbers come last. *)

From S2P Require Import Prelude.
#[local] Open Scope Z_scope.

(** ** Octets of machine words (crypto/common.h) *)

(** The [n] octets of [x], most significant first: [WriteBE32], [WriteBE64]. *)
Definition be_bytes (n : nat) (x : Z) : list Z :=
  (fun i => Z.shiftr x (8 * (Z.of_nat n - 1 - Z.of_nat i)) mod 2 ^ 8) <$> seq 0 n.

(** Least significant first: [WriteLE32], [WriteLE64]. *)
Definition le_bytes (n : nat) (x : Z) : list Z :=
  (fun i => Z.shiftr x (8 * Z.of_nat i) mod 2 ^ 8) <$> seq 0 n.

(** [ReadBE32], [ReadBE64]: the number whose octets are [bs]. *)
Definition be_value (bs : list Z) : Z := foldl (fun acc b => 256 * acc + b) 0 bs.

(** [ReadLE32], [ReadLE64]. *)
Definition le_value (bs : list Z) : Z := foldr (fun b acc => b + 256 * acc) 0 bs.

(** The [n] octets at [off]. *)
Definition octets (off n : nat) (bs : list Z) : list Z := take n (drop off bs).

(** The local variables of the unrolled transforms. *)
Record vars8 := mkVars8 { v8_a : Z; v8_b : Z; v8_c : Z; v8_d : Z; v8_e : Z; v8_f : Z; v8_g : Z; v8_h : Z }.
Record vars5 := mkVars5 { v5_a : Z; v5_b : Z; v5_c : Z; v5_d : Z; v5_e : Z }.
Record words16 := mkWords {
  wd_0 : Z; wd_1 : Z; wd_2 : Z; wd_3 : Z; wd_4 : Z; wd_5 : Z; wd_6 : Z; wd_7 : Z;
  wd_8 : Z; wd_9 : Z; wd_10 : Z; wd_11 : Z; wd_12 : Z; wd_13 : Z; wd_14 : Z; wd_15 : Z
}.

(** ** The hasher classes *)

Record md := mkMd {
  md_s : list Z;
  md_buf : list Z;
  md_bytes : Z;
}.

Section Hasher.
Context (B : Z).
Context (Transform : list Z -> list Z -> list Z).

(** [while (end >= data + B) { Transform(s, data); bytes += B; data += B; }] *)
Fixpoint md_full (fuel : nat) (c : md) (data : list Z) : md * list Z :=
  match fuel with
  | O => (c, data)
  | S fuel =>
      if B <=? Z.of_nat (length data) then
        md_full fuel (mkMd (Transform (md_s c) (take (Z.to_nat B) data)) (md_buf c)
                           (u64 (md_bytes c + B)))
                (drop (Z.to_nat B) data)
      else (c, data)
  end.

Definition md_Write (c : md) (data : list Z) : option md :=
  let len := Z.of_nat (length data) in
  let bufsize := md_bytes c mod B in
  '(c, data, bufsize) ←
    (if negb (bufsize =? 0) && (B <=? u64 (bufsize + len)) then
       head ← buf_read 0 (B - bufsize) data;
       buf ← buf_write bufsize head (md_buf c);
       Some (mkMd (Transform (md_s c) buf) buf (u64 (md_bytes c + (B - bufsize))),
             drop (Z.to_nat (B - bufsize)) data, 0)
     else Some (c, data, bufsize));
  let '(c, data) := md_full (length data) c data in
  if 0 <? Z.of_nat (length data) then
    buf ← buf_write bufsize data (md_buf c);
    Some (mkMd (md_s c) buf (u64 (md_bytes c + Z.of_nat (length data))))
  else Some c.

(** [Finalize]: [padc] is 119 or 239, [sizedesc] fills the length field and
    [output] writes the chaining value out. *)
Context (padc : Z) (sizedesc : Z -> list Z) (output : list Z -> list Z).

Definition md_Finalize (c : md) : option (list Z * md) :=
  let desc := sizedesc (u64 (md_bytes c << 3)) in
  let pad := 128 :: replicate (Z.to_nat (B - 1)) 0 in
  chunk ← buf_read 0 (1 + ((padc - (md_bytes c mod B)) mod B)) pad;
  c ← md_Write c chunk;
  c ← md_Write c desc;
  Some (output (md_s c), c).

Context (init : list Z).

(** The constructor leaves [buf] as it finds it: [garbage] are its octets. *)
Definition md_new (garbage : list Z) : md := mkMd init garbage 0.

Definition md_Reset (c : md) : md := mkMd init (md_buf c) 0.

End Hasher.

(** ** Specification: padded message, blocks, fold *)

(** Cut a message of a whole number of blocks. *)
Fixpoint cut (fuel B : nat) (m : list Z) : list (list Z) :=
  match fuel with
  | O => []
  | S fuel => if decide (m = []) then [] else take B m :: cut fuel B (drop B m)
  end.

Definition blocks (B : nat) (m : list Z) : list (list Z) := cut (length m) B m.

(** One [1] bit, the least number of zero octets, the message length in bits. *)
Definition md_pad (B L : nat) (field : Z -> list Z) (m : list Z) : list Z :=
  let n := Z.of_nat (length m) in
  let k := (- (n + 1 + Z.of_nat L)) mod Z.of_nat B in
  m ++ [128] ++ replicate (Z.to_nat k) 0 ++ field (8 * n).

Definition md_digest (B L : nat) (field : Z -> list Z)
    (compress : list Z -> list Z -> list Z) (iv : list Z) (out : list Z -> list Z)
    (m : list Z) : list Z :=
  out (foldl compress iv (blocks B (md_pad B L field m))).

(** ** What a hasher promises

    [sh_holds c m]: the context has taken in [m].  [sh_used c]: the context can be
    reset. *)

Class StreamHash := {
  sh_ctx : Type;
  sh_new : list Z -> sh_ctx;
  sh_write : sh_ctx -> list Z -> option sh_ctx;
  sh_finalize : sh_ctx -> option (list Z * sh_ctx);
  sh_reset : sh_ctx -> sh_ctx;
  sh_bufsize : nat;
  sh_size : nat;
}.

Class StreamHashOk (H : StreamHash) (digest : list Z -> list Z) := {
  sh_holds : sh_ctx -> list Z -> Prop;
  sh_used : sh_ctx -> Prop;
  sh_new_ok g : length g = sh_bufsize -> sh_holds (sh_new g) [];
  sh_reset_ok c : sh_used c -> sh_holds (sh_reset c) [];
  sh_write_ok c m d :
    sh_holds c m -> Forall (fits 8) d -> Z.of_nat (length m + length d) < 2 ^ 61 ->
    exists c', sh_write c d = Some c' /\ sh_holds c' (m ++ d);
  sh_finalize_ok c m :
    sh_holds c m -> Z.of_nat (length m) < 2 ^ 61 ->
    exists c', sh_finalize c = Some (digest m, c') /\ sh_used c';
  sh_digest_wf m : Forall (fits 8) m ->
    length (digest m) = sh_size /\ Forall (fits 8) (digest m);
}.

(** Write the chunks in turn, then finalize. *)
Definition sh_run {H : StreamHash} (g : list Z) (chunks : list (list Z)) : option (list Z) :=
  c ← foldl (fun o d => c ← o; sh_write c d) (Some (sh_new g)) chunks;
  fst <$> sh_finalize c.

(** However the message is split, the digest is that of the whole. *)
Lemma sh_run_ok {H digest} `{OK : !StreamHashOk H digest} g chunks :
  length g = sh_bufsize -> Forall (fits 8) (concat chunks) ->
  Z.of_nat (length (concat chunks)) < 2 ^ 61 ->
  sh_run g chunks = Some (digest (concat chunks)).
Proof.
  intros Hg Hb Hlen. unfold sh_run.
  assert (Hgen : forall c m, sh_holds c m -> Z.of_nat (length (m ++ concat chunks)) < 2 ^ 61 ->
    exists c', foldl (fun o d => c ← o; sh_write c d) (Some c) chunks = Some c' /\
               sh_holds c' (m ++ concat chunks)).
  { clear Hlen. induction chunks as [|d ds IH]; intros c m Hc Hlen.
    - exists c. simpl. by rewrite app_nil_r.
    - cbn [concat] in *. apply Forall_app in Hb as [Hd Hds]. rewrite !length_app in Hlen.
      destruct (sh_write_ok c m d) as (c1 & E1 & H1); [done | done | lia |].
      cbn [foldl]. rewrite obind_Some, E1, app_assoc. apply IH; [done | done |].
      rewrite !length_app. lia. }
  destruct (Hgen (sh_new g) []) as (c & -> & Hc); [by apply sh_new_ok | done |].
  rewrite obind_Some. destruct (sh_finalize_ok c _ Hc Hlen) as (c' & -> & _). done.
Qed.

(** * Buffered Merkle-Damgard hashing: the hashers implement their specification

    For any compression function: a context that has taken in [m] holds the fold of
    the full blocks of [m] and its unfinished tail; [Write] extends [m], [Finalize]
    returns the digest of [m].  The result is an instance of [StreamHashOk]. *)

#[local] Open Scope Z_scope.

(** ** Cutting into blocks *)

Lemma cut_concat fuel B (bs : list (list Z)) :
  (0 < B)%nat -> Forall (fun b => length b = B) bs -> (length bs <= fuel)%nat ->
  cut fuel B (concat bs) = bs.
Proof.
  intros HB. revert fuel. induction bs as [|b bs IH]; intros fuel Hbs Hf.
  { by destruct fuel. }
  forall_split. destruct fuel as [|fuel]; [simpl in Hf; lia |]. cbn [concat cut].
  destruct (decide _) as [E|_].
  { apply (f_equal length) in E. rewrite length_app in E. simpl in E. lia. }
  rewrite take_app_length', drop_app_length' by done. f_equal. apply IH; [done |].
  simpl in Hf. lia.
Qed.

Lemma blocks_concat B (bs : list (list Z)) :
  (0 < B)%nat -> Forall (fun b => length b = B) bs -> blocks B (concat bs) = bs.
Proof.
  intros HB Hbs. apply cut_concat; [done | done |].
  rewrite (length_concat_blocks B) by done. nia.
Qed.

Lemma concat_blocks B (m : list Z) :
  (0 < B)%nat -> (length m mod B = 0)%nat ->
  exists bs, m = concat bs /\ Forall (fun b => length b = B) bs.
Proof.
  intros HB Hm. apply Nat.Lcm0.mod_divide in Hm as [n Hn]. revert m Hn.
  induction n as [|n IH]; intros m Hn.
  { destruct m; [| done]. by exists []. }
  destruct (IH (drop B m)) as (bs & E & Hbs); [rewrite length_drop; lia |].
  exists (take B m :: bs). cbn [concat]. rewrite <- E, take_drop. split; [done |].
  apply Forall_cons_2; [rewrite length_take; lia | done].
Qed.

Lemma length_be_bytes n x : length (be_bytes n x) = n.
Proof. unfold be_bytes. by rewrite length_fmap, length_seq. Qed.

Lemma be_bytes_fits n x : Forall (fits 8) (be_bytes n x).
Proof.
  unfold be_bytes. apply list.Forall_forall. intros b Hb.
  apply list_elem_of_fmap in Hb as (i & -> & _). by apply wrap_fits.
Qed.

Lemma length_le_bytes n x : length (le_bytes n x) = n.
Proof. unfold le_bytes. by rewrite length_fmap, length_seq. Qed.

Lemma le_bytes_fits n x : Forall (fits 8) (le_bytes n x).
Proof.
  unfold le_bytes. apply list.Forall_forall. intros b Hb.
  apply list_elem_of_fmap in Hb as (i & -> & _). by apply wrap_fits.
Qed.

#[export] Hint Resolve be_bytes_fits le_bytes_fits : fits.

(** ** The hypotheses on a hasher *)

Class MdOk (B L : nat) (Transform : list Z -> list Z -> list Z) (padc : Z)
    (sizedesc : Z -> list Z) (output : list Z -> list Z) (init : list Z)
    (field : Z -> list Z) (compress : list Z -> list Z -> list Z) (iv : list Z)
    (size : nat) := {
  md_wf : list Z -> Prop;
  md_sizes : (L + 1 < B <= 128)%nat;
  md_padc : padc = 2 * Z.of_nat B - 1 - Z.of_nat L;
  md_Transform s b : md_wf s -> length b = B -> Forall (fits 8) b ->
    Transform s b = compress s b;
  md_compress_wf s b : md_wf s -> length b = B -> Forall (fits 8) b ->
    md_wf (compress s b);
  md_init : init = iv;
  md_iv_wf : md_wf iv;
  md_sizedesc x : 0 <= x < 2 ^ 64 -> sizedesc x = field x;
  md_field x : length (field x) = L /\ Forall (fits 8) (field x);
  md_output s : md_wf s -> length (output s) = size /\ Forall (fits 8) (output s);
}.

Section Stream.
Context {B L : nat} {Transform : list Z -> list Z -> list Z} {padc : Z}
  {sizedesc : Z -> list Z} {output : list Z -> list Z} {init : list Z}
  {field : Z -> list Z} {compress : list Z -> list Z -> list Z} {iv : list Z} {size : nat}
  `{OK : !MdOk B L Transform padc sizedesc output init field compress iv size}.

Abbreviation ZB := (Z.of_nat B).

(** [c] has folded the blocks [bs] and holds the tail [tl]. *)
Record holds_at (c : md) (bs : list (list Z)) (tl : list Z) : Prop := {
  at_blocks : Forall (fun b => length b = B) bs;
  at_bytes : Forall (fits 8) (concat bs ++ tl);
  at_tail : (length tl < B)%nat;
  at_s : md_s c = foldl compress iv bs;
  at_buf : exists rest, md_buf c = tl ++ rest /\ length (md_buf c) = B;
  at_count : md_bytes c = Z.of_nat (length (concat bs ++ tl));
}.

Definition holds (c : md) (m : list Z) : Prop :=
  exists bs tl, m = concat bs ++ tl /\ holds_at c bs tl.

Lemma fold_wf bs :
  Forall (fun b => length b = B) bs -> Forall (fits 8) (concat bs) -> md_wf (foldl compress iv bs).
Proof.
  induction bs as [|b bs IH] using rev_ind; intros Hl Hb; [apply md_iv_wf |].
  rewrite foldl_snoc. apply Forall_app in Hl as [Hl Hl1]. rewrite concat_app in Hb.
  apply Forall_app in Hb as [Hb Hb1]. cbn [concat] in Hb1. rewrite app_nil_r in Hb1.
  forall_split. apply md_compress_wf; auto.
Qed.

Lemma bufsize_tail c bs tl : holds_at c bs tl -> md_bytes c mod ZB = Z.of_nat (length tl).
Proof.
  intros []. rewrite at_count0, length_app, (length_concat_blocks B) by done.
  pose proof md_sizes. symmetry. apply Z.mod_unique_pos with (Z.of_nat (length bs)); lia.
Qed.

(** Compress one more block, taken from anywhere, when the tail fills up. *)
Lemma md_holds_block c bs tl d buf :
  holds_at c bs tl -> Forall (fits 8) d -> (length tl + length d = B)%nat ->
  length buf = B -> Z.of_nat (length (concat bs ++ tl) + length d) < 2 ^ 63 ->
  holds_at (mkMd (Transform (md_s c) (tl ++ d)) buf (u64 (md_bytes c + Z.of_nat (length d))))
           (bs ++ [tl ++ d]) [].
Proof.
  intros [] Hd Hl Hbuf Hlen. apply Forall_app in at_bytes0 as [Hbs Htl].
  assert (concat (bs ++ [tl ++ d]) ++ [] = concat bs ++ tl ++ d) as Hc
    by (rewrite concat_app; simpl; by rewrite !app_nil_r).
  split; cbn [md_s md_buf md_bytes]; rewrite ?Hc.
  - apply Forall_app; split; [done |]. forall_build ltac:(rewrite length_app; lia).
  - by rewrite !Forall_app.
  - pose proof md_sizes. simpl. lia.
  - rewrite foldl_snoc, at_s0. apply md_Transform;
      [by apply fold_wf | rewrite length_app; lia | by apply Forall_app_2].
  - by exists buf.
  - rewrite at_count0, wrap_id by (unfold fits; lia). rewrite !length_app in *. lia.
Qed.

(** Full chunks straight from the input. *)
Lemma md_full_ok fuel c bs data :
  holds_at c bs [] -> Forall (fits 8) data -> (length data <= fuel)%nat ->
  Z.of_nat (length (concat bs) + length data) < 2 ^ 63 ->
  exists c' bs' rest, md_full ZB Transform fuel c data = (c', rest) /\
    concat bs ++ data = concat bs' ++ rest /\ (length rest < B)%nat /\ holds_at c' bs' [].
Proof.
  revert c bs data. induction fuel as [|fuel IH]; intros c bs data Hc Hd Hf Hlen.
  - pose proof md_sizes. exists c, bs, data. repeat split; [lia | apply Hc..].
  - cbn [md_full]. destruct (Z.leb_spec ZB (Z.of_nat (length data))) as [Hge|Hlt].
    + rewrite Nat2Z.id. set (hd := take B data). set (tl := drop B data).
      assert (data = hd ++ tl) as E by (symmetry; apply take_drop).
      assert (length hd = B) as Hhd by (unfold hd; rewrite length_take; lia).
      rewrite E in Hd, Hlen. apply Forall_app in Hd as [Hd1 Hd2]. rewrite length_app in Hlen.
      pose proof (md_holds_block c bs [] hd (md_buf c) Hc Hd1 Hhd) as Hb.
      destruct (at_buf _ _ _ Hc) as (rest & _ & Hbuf).
      specialize (Hb Hbuf). rewrite app_nil_r, Hhd in Hb. specialize (Hb ltac:(lia)).
      cbn [app] in Hb. pose proof md_sizes.
      destruct (IH _ _ tl Hb Hd2) as (c' & bs' & r & E1 & E2 & E3 & E4).
      * unfold tl. rewrite length_drop. lia.
      * rewrite concat_app, length_app. simpl. rewrite app_nil_r. lia.
      * exists c', bs', r. repeat split; try done; try apply E4.
        rewrite <- E2, concat_app, E. simpl. by rewrite app_nil_r, <- app_assoc.
    + exists c, bs, data. repeat split; [lia | apply Hc..].
Qed.

(** What remains goes to the buffer. *)
Lemma holds_rest c bs tl d :
  holds_at c bs tl -> Forall (fits 8) d -> (length tl + length d < B)%nat ->
  Z.of_nat (length (concat bs ++ tl) + length d) < 2 ^ 63 ->
  exists buf, buf_write (Z.of_nat (length tl)) d (md_buf c) = Some buf /\
    holds_at (mkMd (md_s c) buf (u64 (md_bytes c + Z.of_nat (length d)))) bs (tl ++ d).
Proof.
  intros Hc Hd Hlt Hlen. destruct Hc. destruct at_buf0 as (rest & Hb & Hl).
  rewrite Hb in *. rewrite length_app in Hl.
  exists (tl ++ d ++ drop (length d) rest). split.
  - apply buf_write_Some with (take (length d) rest); [by rewrite take_drop | done |].
    rewrite length_take. lia.
  - split; cbn [md_s md_buf md_bytes]; try done.
    + rewrite app_assoc. by apply Forall_app_2.
    + rewrite length_app. lia.
    + exists (drop (length d) rest). rewrite <- app_assoc. split; [done |].
      rewrite !length_app, length_drop. lia.
    + rewrite at_count0, wrap_id by (unfold fits; lia). rewrite !length_app in *. lia.
Qed.

Lemma holds_tail_write c bs tl d :
  holds_at c bs tl -> Forall (fits 8) d -> (length tl + length d < B)%nat ->
  Z.of_nat (length (concat bs ++ tl) + length d) < 2 ^ 63 ->
  exists c', (if 0 <? Z.of_nat (length d) then
      buf ← buf_write (Z.of_nat (length tl)) d (md_buf c);
      Some (mkMd (md_s c) buf (u64 (md_bytes c + Z.of_nat (length d))))
    else Some c) = Some c' /\ holds c' ((concat bs ++ tl) ++ d).
Proof.
  intros Hc Hd Hlt Hlen. destruct (Z.ltb_spec 0 (Z.of_nat (length d))).
  - destruct (holds_rest c bs tl d) as (buf & -> & H'); try done.
    rewrite obind_Some. eexists. split; [done |]. exists bs, (tl ++ d).
    by rewrite app_assoc.
  - destruct d; [| simpl in *; lia]. exists c. split; [done |]. exists bs, tl.
    by rewrite app_nil_r.
Qed.

(** The call when the buffer is empty. *)
Lemma write_aligned c bs data :
  holds_at c bs [] -> Forall (fits 8) data ->
  Z.of_nat (length (concat bs) + length data) < 2 ^ 63 ->
  exists c', (let '(c, data) := md_full ZB Transform (length data) c data in
    if 0 <? Z.of_nat (length data) then
      buf ← buf_write 0 data (md_buf c);
      Some (mkMd (md_s c) buf (u64 (md_bytes c + Z.of_nat (length data))))
    else Some c) = Some c' /\ holds c' (concat bs ++ data).
Proof.
  intros Hc Hd Hlen.
  destruct (md_full_ok (length data) c bs data Hc Hd) as (c1 & bs1 & r & E1 & E2 & E3 & E4);
    [lia | done |].
  rewrite E1, E2.
  assert (Forall (fits 8) r /\ Z.of_nat (length (concat bs1 ++ []) + length r) < 2 ^ 63)
    as [Hr Hrl].
  { split.
    - assert (Forall (fits 8) (concat bs1 ++ r)) as H; [| apply Forall_app in H as [_ H]; done].
      rewrite <- E2. apply Forall_app_2; [| done].
      pose proof (at_bytes _ _ _ Hc) as H. by rewrite app_nil_r in H.
    - rewrite app_nil_r, <- length_app, <- E2, length_app. lia. }
  destruct (holds_tail_write c1 bs1 [] r E4 Hr) as (c' & E & H); [simpl; lia | done |].
  rewrite app_nil_r in H. by exists c'.
Qed.

Lemma md_Write_ok c m d :
  holds c m -> Forall (fits 8) d -> Z.of_nat (length m + length d) < 2 ^ 63 ->
  exists c', md_Write ZB Transform c d = Some c' /\ holds c' (m ++ d).
Proof.
  intros (bs & tl & -> & Hc) Hd Hlen. unfold md_Write. cbv zeta.
  rewrite (bufsize_tail c bs tl Hc). pose proof (at_tail _ _ _ Hc) as Htl.
  pose proof md_sizes as HB.
  destruct (Z.eqb_spec (Z.of_nat (length tl)) 0) as [E0|E0]; cbn [negb andb].
  { rewrite obind_Some. destruct tl; [| simpl in E0; lia]. rewrite app_nil_r in *.
    by apply write_aligned. }
  rewrite wrap_id by (rewrite length_app in Hlen; unfold fits; lia).
  destruct (Z.leb_spec ZB (Z.of_nat (length tl) + Z.of_nat (length d))) as [Hge|Hlt].
  - set (k := (B - length tl)%nat). assert (ZB - Z.of_nat (length tl) = Z.of_nat k) as Ek by lia.
    rewrite Ek. set (hd := take k d). set (rst := drop k d).
    assert (length hd = k) as Hhd by (unfold hd; rewrite length_take; lia).
    assert (d = hd ++ rst) as E by (symmetry; apply take_drop).
    assert (buf_read 0 (Z.of_nat k) d = Some hd) as ->.
    { unfold buf_read. rewrite Nat2Z.id. change (Z.to_nat 0) with 0%nat. rewrite drop_0.
      destruct (_ && _) eqn:Eb; [done |]. exfalso. lia. }
    rewrite obind_Some. destruct (at_buf _ _ _ Hc) as (rest & Hbuf & Hbl).
    assert (length rest = length hd) as Hrest by (rewrite Hbuf, length_app in Hbl; lia).
    rewrite (buf_write_Some _ hd (md_buf c) tl rest []);
      [| by rewrite app_nil_r | done | done].
    rewrite obind_Some. cbv beta iota. rewrite app_nil_r.
    rewrite E in Hd, Hlen. apply Forall_app in Hd as [Hd1 Hd2].
    rewrite !length_app in Hlen.
    pose proof (md_holds_block c bs tl hd (tl ++ hd) Hc Hd1) as Hb. rewrite Hhd in Hb.
    specialize (Hb ltac:(lia)). rewrite !length_app in Hb.
    specialize (Hb ltac:(lia) ltac:(lia)). rewrite obind_Some, Nat2Z.id. fold rst.
    destruct (write_aligned _ _ rst Hb Hd2) as (c' & E' & H').
    + rewrite concat_app, length_app. simpl. rewrite app_nil_r, length_app. lia.
    + exists c'. split; [exact E' |]. rewrite concat_app in H'. simpl in H'.
      rewrite app_nil_r in H'. rewrite E. by rewrite <- !app_assoc in *.
  - rewrite obind_Some.
    assert (md_full ZB Transform (length d) c d = (c, d)) as ->.
    { destruct (length d) as [|n] eqn:En; [done |]. cbn [md_full].
      rewrite En. by destruct (Z.leb_spec ZB (Z.of_nat (S n))); [lia |]. }
    apply holds_tail_write; [done | done | lia | done].
Qed.

(** The padding chunk. *)
Lemma pad_chunk c m :
  holds c m ->
  let k := (- (Z.of_nat (length m) + 1 + Z.of_nat L)) mod ZB in
  buf_read 0 (1 + ((padc - md_bytes c mod ZB) mod ZB)) (128 :: replicate (Z.to_nat (ZB - 1)) 0)
  = Some (128 :: replicate (Z.to_nat k) 0) /\ 0 <= k < ZB.
Proof.
  intros (bs & tl & -> & Hc). cbv zeta. pose proof md_sizes as HB.
  rewrite (at_count _ _ _ Hc), (md_padc (padc := padc)). set (n := Z.of_nat (length (concat bs ++ tl))).
  assert ((2 * ZB - 1 - Z.of_nat L - n mod ZB) mod ZB = (- (n + 1 + Z.of_nat L)) mod ZB) as ->.
  { rewrite Zminus_mod_idemp_r. replace (2 * ZB - 1 - Z.of_nat L - n)
      with (- (n + 1 + Z.of_nat L) + 2 * ZB) by lia. apply Z_mod_plus_full. }
  pose proof (Z.mod_pos_bound (- (n + 1 + Z.of_nat L)) ZB ltac:(lia)) as Hk.
  set (k := (- (n + 1 + Z.of_nat L)) mod ZB) in *. split; [| done].
  clearbody k n. unfold buf_read. cbn [length]. rewrite length_replicate.
  destruct (_ && _) eqn:Eb; [clear Eb | rewrite !andb_false_iff, !Z.leb_gt in Eb; lia].
  change (Z.to_nat 0) with 0%nat. rewrite drop_0.
  replace (Z.to_nat (1 + k)) with (S (Z.to_nat k)) by lia. cbn [take].
  rewrite take_replicate, Nat.min_l by lia. done.
Qed.

Lemma length_md_pad m : Z.of_nat (length (md_pad B L field m)) mod ZB = 0.
Proof.
  pose proof md_sizes. destruct (md_field (8 * Z.of_nat (length m))) as [Hfl _].
  unfold md_pad. cbv zeta. set (k := (- (_ + 1 + _)) mod ZB).
  pose proof (Z.mod_pos_bound (- (Z.of_nat (length m) + 1 + Z.of_nat L)) ZB ltac:(lia)) as Hk.
  fold k in Hk. rewrite !length_app, length_replicate, Hfl. cbn [length].
  replace (Z.of_nat (_ + _)) with (k + (Z.of_nat (length m) + 1 + Z.of_nat L)) by lia.
  unfold k. rewrite Zplus_mod_idemp_l. by rewrite Z.add_opp_diag_l, Z.mod_0_l by lia.
Qed.

Lemma md_Finalize_ok c m :
  holds c m -> Z.of_nat (length m) < 2 ^ 61 ->
  exists c', md_Finalize ZB Transform padc sizedesc output c
    = Some (md_digest B L field compress iv output m, c') /\ length (md_buf c') = B.
Proof.
  intros Hc Hlen. pose proof md_sizes as HB.
  destruct (pad_chunk c m Hc) as [Hread Hk]. unfold md_Finalize. cbv zeta.
  rewrite Hread, obind_Some. set (k := (- (_ + 1 + _)) mod ZB) in *.
  assert (md_bytes c = Z.of_nat (length m)) as Hn by (destruct Hc as (? & ? & -> & []); done).
  assert (u64 (md_bytes c << 3) = 8 * Z.of_nat (length m)) as Hd.
  { rewrite Hn, Z.shiftl_mul_pow2 by lia. rewrite wrap_id; unfold fits; lia. }
  rewrite Hd, md_sizedesc by lia. destruct (md_field (8 * Z.of_nat (length m))) as [Hfl Hfb].
  assert (Forall (fits 8) (128 :: replicate (Z.to_nat k) 0)) as Hpb.
  { apply Forall_cons_2; [by unfold fits | apply Forall_replicate; by unfold fits]. }
  destruct (md_Write_ok c m _ Hc Hpb) as (c1 & -> & H1);
    [cbn [length]; rewrite length_replicate; lia |]. rewrite obind_Some.
  destruct (md_Write_ok c1 _ _ H1 Hfb) as (c2 & -> & H2);
    [rewrite length_app; cbn [length]; rewrite length_replicate; lia |]. rewrite obind_Some.
  exists c2. destruct H2 as (bs & tl & E & Hat).
  assert ((m ++ 128 :: replicate (Z.to_nat k) 0) ++ field (8 * Z.of_nat (length m))
          = md_pad B L field m) as Ep by (unfold md_pad; by rewrite <- !app_assoc).
  rewrite Ep in E.
  assert (tl = []) as ->.
  { destruct tl as [|z tl]; [done |]. exfalso.
    apply (f_equal (fun l => Z.of_nat (length l) mod ZB)) in E.
    rewrite length_app, (length_concat_blocks B) in E by apply Hat.
    pose proof (at_tail _ _ _ Hat). pose proof (at_blocks _ _ _ Hat).
    rewrite Nat2Z.inj_add, Nat2Z.inj_mul, Z.add_comm, (Z.mul_comm ZB), Z_mod_plus_full in E.
    rewrite (Z.mod_small (Z.of_nat (length (z :: tl)))) in E by lia.
    rewrite length_md_pad in E. simpl in E. lia. }
  rewrite app_nil_r in E. split; [| by destruct (at_buf _ _ _ Hat) as (? & _ & ?)].
  rewrite (at_s _ _ _ Hat). unfold md_digest. rewrite E, blocks_concat by (lia || apply Hat).
  done.
Qed.

(** The hasher as a stream hash. *)
Definition md_hash : StreamHash := {|
  sh_ctx := md;
  sh_new := md_new init;
  sh_write := md_Write ZB Transform;
  sh_finalize := md_Finalize ZB Transform padc sizedesc output;
  sh_reset := md_Reset init;
  sh_bufsize := B;
  sh_size := size;
|}.

Lemma holds_fresh buf : length buf = B -> holds (mkMd init buf 0) [].
Proof.
  intros Hb. exists [], []. split; [done |]. pose proof md_sizes.
  split; cbn [md_s md_buf md_bytes concat app length foldl]; try done; try lia.
  - apply md_init.
  - by exists buf.
Qed.

Lemma md_digest_wf m :
  Forall (fits 8) m ->
  length (md_digest B L field compress iv output m) = size /\
  Forall (fits 8) (md_digest B L field compress iv output m).
Proof.
  intros Hm. unfold md_digest. apply (md_output (output := output)). pose proof md_sizes.
  destruct (concat_blocks B (md_pad B L field m)) as (bs & E & Hbs); [lia | |].
  { apply (Nat2Z.inj _ 0). rewrite Nat2Z.inj_mod. apply length_md_pad. }
  rewrite E, blocks_concat by (done || lia). apply fold_wf; [done |]. rewrite <- E.
  unfold md_pad. destruct (md_field (8 * Z.of_nat (length m))) as [_ Hf].
  rewrite !Forall_app. repeat split; [done | | | done].
  - forall_build ltac:(by unfold fits).
  - apply Forall_replicate. by unfold fits.
Qed.

#[export] Program Instance md_stream_ok :
  StreamHashOk md_hash (md_digest B L field compress iv output) := {|
  sh_holds := holds;
  sh_used c := length (md_buf c) = B;
|}.
Next Obligation. intros; by apply holds_fresh. Qed.
Next Obligation. intros; by apply holds_fresh. Qed.
Next Obligation. intros; apply md_Write_ok; [done | done | lia]. Qed.
Next Obligation. intros; by apply md_Finalize_ok. Qed.
Next Obligation. intros; by apply md_digest_wf. Qed.

End Stream.

(** * Octets and little-endian numbers

    [le_bytes] and [le_value] are inverse to each other; how [le_value] splits over
    concatenation, and its range. *)

#[local] Open Scope Z_scope.

Abbreviation octets_ok := (Forall (fits 8)).

Lemma pow256 n : 2 ^ (8 * Z.of_nat n) = 256 ^ Z.of_nat n.
Proof. rewrite Z.pow_mul_r by lia. done. Qed.

Lemma le_value_cons b bs : le_value (b :: bs) = b + 256 * le_value bs.
Proof. done. Qed.

Lemma le_value_fits bs : octets_ok bs -> fits (8 * Z.of_nat (length bs)) (le_value bs).
Proof.
  unfold fits. induction 1 as [|b bs [? ?] Hbs IH]; [done |]. rewrite le_value_cons.
  cbn [length]. rewrite Nat2Z.inj_succ. replace (8 * Z.succ (Z.of_nat (length bs)))
    with (8 + 8 * Z.of_nat (length bs)) by lia.
  rewrite Z.pow_add_r by lia. change (2 ^ 8) with 256 in *. lia.
Qed.

Lemma le_value_app a b : le_value (a ++ b) = le_value a + 2 ^ (8 * Z.of_nat (length a)) * le_value b.
Proof.
  induction a as [|x a IH]; [cbn [app length]; change (le_value []) with 0; lia |].
  cbn [app length]. rewrite !le_value_cons, IH, Nat2Z.inj_succ.
  replace (8 * Z.succ (Z.of_nat (length a))) with (8 + 8 * Z.of_nat (length a)) by lia.
  rewrite Z.pow_add_r by lia. change (2 ^ 8) with 256. lia.
Qed.

Lemma le_bytes_S n x : le_bytes (S n) x = x mod 256 :: le_bytes n (x / 256).
Proof.
  unfold le_bytes. cbn [seq]. rewrite fmap_cons. change (8 * Z.of_nat 0) with 0. rewrite Z.shiftr_0_r.
  f_equal. rewrite <- fmap_S_seq, <- list_fmap_compose. apply list_fmap_ext. intros i y _. unfold compose.
  change 256 with (2 ^ 8) at 1. rewrite <- Z.shiftr_div_pow2, Z.shiftr_shiftr by lia.
  f_equal. f_equal. lia.
Qed.

Lemma le_value_le_bytes n x : le_value (le_bytes n x) = x mod 2 ^ (8 * Z.of_nat n).
Proof.
  revert x. induction n as [|n IH]; intros x; [by rewrite Z.mod_1_r |].
  rewrite le_bytes_S, le_value_cons, IH, Nat2Z.inj_succ.
  replace (8 * Z.succ (Z.of_nat n)) with (8 + 8 * Z.of_nat n) by lia.
  rewrite Z.pow_add_r by lia. change (2 ^ 8) with 256.
  pose proof (pow2_pos (8 * Z.of_nat n)). rewrite Z.rem_mul_r by lia. lia.
Qed.

Lemma le_value_le_bytes_id n x : fits (8 * Z.of_nat n) x -> le_value (le_bytes n x) = x.
Proof. intros. rewrite le_value_le_bytes. by apply wrap_id. Qed.

Lemma le_bytes_le_value bs : octets_ok bs -> le_bytes (length bs) (le_value bs) = bs.
Proof.
  induction 1 as [|b bs [? ?] Hbs IH]; [done |]. cbn [length]. rewrite le_bytes_S, le_value_cons.
  change (2 ^ 8) with 256 in *. f_equal.
  - rewrite Z.mul_comm, Z.mod_add by lia. by apply Z.mod_small.
  - rewrite Z.mul_comm, Z.div_add by lia. rewrite Z.div_small by lia. done.
Qed.

Lemma le_value_inj a b :
  octets_ok a -> octets_ok b -> length a = length b -> le_value a = le_value b -> a = b.
Proof. intros Ha Hb Hl Hv. rewrite <- (le_bytes_le_value a), <- (le_bytes_le_value b), Hl, Hv by done. done. Qed.

Lemma octets_ok_take n l : octets_ok l -> octets_ok (take n l).
Proof. apply Forall_take. Qed.
Lemma octets_ok_drop n l : octets_ok l -> octets_ok (drop n l).
Proof. apply Forall_drop. Qed.
Lemma octets_ok_app a b : octets_ok a -> octets_ok b -> octets_ok (a ++ b).
Proof. intros. by apply Forall_app_2. Qed.

#[export] Hint Resolve octets_ok_take octets_ok_drop octets_ok_app : fits.

(** A decidable property of octets holds when it holds of all 256. *)
Lemma octet_all (P : Z -> bool) : forallb P (seqZ 0 256) = true -> forall b, fits 8 b -> P b = true.
Proof.
  rewrite forallb_forall. intros HP b [? ?]. apply HP. apply list_elem_of_In, elem_of_seqZ.
  change (2 ^ 8) with 256 in *. lia.
Qed.

Lemma land_0x80 b : fits 8 b -> (b & 0x80 =? 0) = (b <? 128).
Proof. intros Hb. apply eqb_true_iff. revert b Hb. apply octet_all. by vm_compute. Qed.

Lemma land_0x7f b : fits 8 b -> b & 0x7f = if b <? 128 then b else b - 128.
Proof. intros Hb. apply Z.eqb_eq. revert b Hb. apply octet_all. by vm_compute. Qed.

Lemma lor_0x80 b : fits 8 b -> b < 128 -> b .| 0x80 = b + 128.
Proof.
  intros Hb Hlt. assert (H : (128 <=? b) || (b .| 0x80 =? b + 128) = true).
  { revert b Hb Hlt. intros b Hb _. revert b Hb. apply octet_all. by vm_compute. }
  apply orb_true_iff in H as [?|?]; lia.
Qed.
