(* ===== verification/ShaSpec.v ===== *)
(** * FIPS 180-4: SHA-1, SHA-256 and SHA-512; RIPEMD-160

    Reference definitions, from the standards.  The constants of the SHA-2 functions
    are computed from the primes (square roots for the initial value, cube roots for
    the round constants), not copied. *)

From S2P Require Import Prelude MdHash.
#[local] Open Scope Z_scope.

(** ** Words *)

Definition rotr (w n x : Z) : Z := Z.lor (Z.shiftr x n) (Z.shiftl x (w - n) mod 2 ^ w).
Definition rotl (w n x : Z) : Z := Z.lor (Z.shiftl x n mod 2 ^ w) (Z.shiftr x (w - n)).

Definition ch (x y z : Z) : Z := Z.lxor (Z.land x y) (Z.land (Z.lnot x) z).
Definition maj (x y z : Z) : Z := Z.lxor (Z.lxor (Z.land x y) (Z.land x z)) (Z.land y z).
Definition parity (x y z : Z) : Z := Z.lxor (Z.lxor x y) z.

(** The big-endian words of a block. *)
Definition be_words (nb n : nat) (b : list Z) : list Z :=
  (fun i => be_value (octets (nb * i) nb b)) <$> seq 0 n.

(** Wordwise sum of the chaining value and the result of the rounds. *)
Definition add_words (w : Z) (h s : list Z) : list Z :=
  zip_with (fun x y => (x + y) mod 2 ^ w) h s.

(** ** Constants *)

Definition primes : list Z :=
  [2; 3; 5; 7; 11; 13; 17; 19; 23; 29; 31; 37; 41; 43; 47; 53; 59; 61; 67; 71; 73; 79; 83; 89;
   97; 101; 103; 107; 109; 113; 127; 131; 137; 139; 149; 151; 157; 163; 167; 173; 179; 181; 191;
   193; 197; 199; 211; 223; 227; 229; 233; 239; 241; 251; 257; 263; 269; 271; 277; 281; 283; 293;
   307; 311; 313; 317; 331; 337; 347; 349; 353; 359; 367; 373; 379; 383; 389; 397; 401; 409].

(** Integer cube root, bit by bit from bit 79 down. *)
Definition cbrt (n : Z) : Z :=
  foldl (fun r i => let r' := r + 2 ^ Z.of_nat i in if r' ^ 3 <=? n then r' else r) 0
        (reverse (seq 0 80)).

(** The first [w] bits of the fractional parts. *)
Definition frac_sqrt (w p : Z) : Z := Z.sqrt (p * 2 ^ (2 * w)) mod 2 ^ w.
Definition frac_cbrt (w p : Z) : Z := cbrt (p * 2 ^ (3 * w)) mod 2 ^ w.

(** ** SHA-2 *)

Record sha2 := {
  s2_bytes : nat;           (** octets per word *)
  s2_rounds : nat;
  s2_S0 : Z * Z * Z;        (** rotations of Sigma0 *)
  s2_S1 : Z * Z * Z;
  s2_s0 : Z * Z * Z;        (** two rotations and the shift of sigma0 *)
  s2_s1 : Z * Z * Z;
}.

Section Sha2.
Context (F : sha2).
Definition s2_w : Z := 8 * Z.of_nat (s2_bytes F).

Definition big_sigma (r : Z * Z * Z) (x : Z) : Z :=
  let '(a, b, c) := r in Z.lxor (Z.lxor (rotr s2_w a x) (rotr s2_w b x)) (rotr s2_w c x).

Definition small_sigma (r : Z * Z * Z) (x : Z) : Z :=
  let '(a, b, c) := r in Z.lxor (Z.lxor (rotr s2_w a x) (rotr s2_w b x)) (Z.shiftr x c).

Definition s2_K : list Z := frac_cbrt s2_w <$> take (s2_rounds F) primes.
Definition s2_H0 : list Z := frac_sqrt s2_w <$> take 8 primes.

(** The message schedule, extended one word at a time. *)
Definition s2_next (W : list Z) (t : nat) : Z :=
  (small_sigma (s2_s1 F) (W !!! (t - 2)%nat) + W !!! (t - 7)%nat +
   small_sigma (s2_s0 F) (W !!! (t - 15)%nat) + W !!! (t - 16)%nat) mod 2 ^ s2_w.

Definition s2_schedule (M : list Z) : list Z :=
  foldl (fun W t => W ++ [s2_next W t]) M (seq 16 (s2_rounds F - 16)).

Definition s2_round (st : list Z) (k w : Z) : list Z :=
  match st with
  | [a; b; c; d; e; f; g; h] =>
      let T1 := h + big_sigma (s2_S1 F) e + ch e f g + k + w in
      let T2 := big_sigma (s2_S0 F) a + maj a b c in
      [(T1 + T2) mod 2 ^ s2_w; a; b; c; (d + T1) mod 2 ^ s2_w; e; f; g]
  | _ => st
  end.

Definition s2_compress (h b : list Z) : list Z :=
  let W := s2_schedule (be_words (s2_bytes F) 16 b) in
  add_words s2_w h (foldl (fun st kw => s2_round st kw.1 kw.2) h (zip s2_K W)).

Definition s2_out (h : list Z) : list Z := concat (be_bytes (s2_bytes F) <$> h).

(** The digest: blocks of sixteen words, a length field of two words. *)
Definition s2_digest : list Z -> list Z :=
  md_digest (16 * s2_bytes F) (2 * s2_bytes F) (be_bytes (2 * s2_bytes F))
    s2_compress s2_H0 s2_out.

End Sha2.

Definition SHA256 : sha2 := {|
  s2_bytes := 4; s2_rounds := 64;
  s2_S0 := (2, 13, 22); s2_S1 := (6, 11, 25); s2_s0 := (7, 18, 3); s2_s1 := (17, 19, 10);
|}.

Definition SHA512 : sha2 := {|
  s2_bytes := 8; s2_rounds := 80;
  s2_S0 := (28, 34, 39); s2_S1 := (14, 18, 41); s2_s0 := (1, 8, 7); s2_s1 := (19, 61, 6);
|}.

Definition sha256 : list Z -> list Z := s2_digest SHA256.
Definition sha512 : list Z -> list Z := s2_digest SHA512.

(** ** SHA-1 *)

Definition sha1_f (t : nat) : Z -> Z -> Z -> Z :=
  if (t <? 20)%nat then ch else if (t <? 40)%nat then parity
  else if (t <? 60)%nat then maj else parity.

(** The integer parts of [2^30] times the square roots of 2, 3, 5 and 10. *)
Definition sha1_K (t : nat) : Z :=
  Z.sqrt ((if (t <? 20)%nat then 2 else if (t <? 40)%nat then 3
           else if (t <? 60)%nat then 5 else 10) * 2 ^ 60).

Definition sha1_next (W : list Z) (t : nat) : Z :=
  rotl 32 1 (Z.lxor (Z.lxor (Z.lxor (W !!! (t - 3)%nat) (W !!! (t - 8)%nat))
                            (W !!! (t - 14)%nat)) (W !!! (t - 16)%nat)).

Definition sha1_schedule (M : list Z) : list Z :=
  foldl (fun W t => W ++ [sha1_next W t]) M (seq 16 64).

Definition sha1_round (st : list Z) (t : nat) (w : Z) : list Z :=
  match st with
  | [a; b; c; d; e] =>
      [(rotl 32 5 a + sha1_f t b c d + e + sha1_K t + w) mod 2 ^ 32; a; rotl 32 30 b; c; d]
  | _ => st
  end.

Definition sha1_compress (h b : list Z) : list Z :=
  let W := sha1_schedule (be_words 4 16 b) in
  add_words 32 h (foldl (fun st tw => sha1_round st tw.1 tw.2) h (zip (seq 0 80) W)).

Definition sha1_H0 : list Z := [0x67452301; 0xefcdab89; 0x98badcfe; 0x10325476; 0xc3d2e1f0].

Definition sha1 : list Z -> list Z :=
  md_digest 64 8 (be_bytes 8) sha1_compress sha1_H0 (fun h => concat (be_bytes 4 <$> h)).

(** * RIPEMD-160 (Dobbertin, Bosselaers and Preneel, 1996)

    The two lines of eighty steps with their message word orders, rotation amounts,
    boolean functions and constants. *)

#[local] Open Scope Z_scope.

Definition rmd_f (j : nat) (x y z : Z) : Z :=
  let n x := Z.lnot x mod 2 ^ 32 in
  match (j / 16)%nat with
  | 0%nat => Z.lxor (Z.lxor x y) z
  | 1%nat => Z.lor (Z.land x y) (Z.land (n x) z)
  | 2%nat => Z.lxor (Z.lor x (n y)) z
  | 3%nat => Z.lor (Z.land x z) (Z.land y (n z))
  | _ => Z.lxor x (Z.lor y (n z))
  end.

(** [2^30] times the square roots, and the cube roots, of 2, 3, 5 and 7. *)
Definition rmd_K (j : nat) : Z :=
  match (j / 16)%nat with
  | 0%nat => 0
  | 1%nat => Z.sqrt (2 * 2 ^ 60)
  | 2%nat => Z.sqrt (3 * 2 ^ 60)
  | 3%nat => Z.sqrt (5 * 2 ^ 60)
  | _ => Z.sqrt (7 * 2 ^ 60)
  end.

Definition rmd_K' (j : nat) : Z :=
  match (j / 16)%nat with
  | 0%nat => cbrt (2 * 2 ^ 90)
  | 1%nat => cbrt (3 * 2 ^ 90)
  | 2%nat => cbrt (5 * 2 ^ 90)
  | 3%nat => cbrt (7 * 2 ^ 90)
  | _ => 0
  end.

(** The permutation rho of the message words, and pi(i) = 9 i + 5 mod 16. *)
Definition rho : list nat := [7; 4; 13; 1; 10; 6; 15; 3; 12; 0; 9; 5; 2; 14; 11; 8]%nat.
Definition rmd_pi (i : nat) : nat := ((9 * i + 5) mod 16)%nat.

Fixpoint iter_rho (n i : nat) : nat :=
  match n with O => i | S n => iter_rho n (rho !!! i) end.

(** The left line takes the words in the orders id, rho, rho^2, rho^3, rho^4; the
    right line in the orders pi, rho pi, ... *)
Definition rmd_r (j : nat) : nat := iter_rho (j / 16) (j mod 16).
Definition rmd_r' (j : nat) : nat := iter_rho (j / 16) (rmd_pi (j mod 16)).

(** Rotation amounts, by round and message word. *)
Definition rmd_shift : list (list Z) :=
  [[11; 14; 15; 12; 5; 8; 7; 9; 11; 13; 14; 15; 6; 7; 9; 8];
   [12; 13; 11; 15; 6; 9; 9; 7; 12; 15; 11; 13; 7; 8; 7; 7];
   [13; 15; 14; 11; 7; 7; 6; 8; 13; 14; 13; 12; 5; 5; 6; 9];
   [14; 11; 12; 14; 8; 6; 5; 5; 15; 12; 15; 14; 9; 9; 8; 6];
   [15; 12; 13; 13; 9; 5; 8; 6; 14; 11; 12; 11; 8; 6; 5; 5]].

Definition rmd_s (j w : nat) : Z := (rmd_shift !!! (j / 16)%nat) !!! w.

(** One step of a line: function, word, constant and rotation. *)
Definition rmd_step (st : list Z) (f : Z -> Z -> Z -> Z) (x k s : Z) : list Z :=
  match st with
  | [a; b; c; d; e] =>
      let t := (rotl 32 s ((a + f b c d + x + k) mod 2 ^ 32) + e) mod 2 ^ 32 in
      [e; t; b; rotl 32 10 c; d]
  | _ => st
  end.

Definition rmd_left (X st : list Z) (j : nat) : list Z :=
  rmd_step st (rmd_f j) (X !!! rmd_r j) (rmd_K j) (rmd_s j (rmd_r j)).

Definition rmd_right (X st : list Z) (j : nat) : list Z :=
  rmd_step st (rmd_f (79 - j)) (X !!! rmd_r' j) (rmd_K' j) (rmd_s j (rmd_r' j)).

Definition rmd_compress (h b : list Z) : list Z :=
  let X := (fun i => le_value (octets (4 * i) 4 b)) <$> seq 0 16 in
  match foldl (rmd_left X) h (seq 0 80), foldl (rmd_right X) h (seq 0 80), h with
  | [a; b; c; d; e], [a'; b'; c'; d'; e'], [h0; h1; h2; h3; h4] =>
      [(h1 + c + d') mod 2 ^ 32; (h2 + d + e') mod 2 ^ 32; (h3 + e + a') mod 2 ^ 32;
       (h4 + a + b') mod 2 ^ 32; (h0 + b + c') mod 2 ^ 32]
  | _, _, _ => h
  end.

Definition ripemd160_spec : list Z -> list Z :=
  md_digest 64 8 (le_bytes 8) rmd_compress sha1_H0 (fun h => concat (le_bytes 4 <$> h)).
