(* ===== verification/Sha256.v ===== *)
(** * crypto/sha256.cpp: CSHA256

    The namespace [sha256] (the round functions and the unrolled [Transform]) and the
    class [CSHA256], whose [Write] and [Finalize] are the buffered hasher of [MdHash].
    Sums are reduced once, at the assignment to the 32-bit variable. *)

From S2P Require Import Prelude MdHash.
#[local] Open Scope Z_scope.

Module sha256.

Definition Ch (x y z : Z) : Z := z ^^ (x & (y ^^ z)).
Definition Maj (x y z : Z) : Z := (x & y) .| (z & (x .| y)).
Definition Sigma0 (x : Z) : Z := ((x >> 2) .| u32 (x << 30)) ^^ ((x >> 13) .| u32 (x << 19)) ^^ ((x >> 22) .| u32 (x << 10)).
Definition Sigma1 (x : Z) : Z := ((x >> 6) .| u32 (x << 26)) ^^ ((x >> 11) .| u32 (x << 21)) ^^ ((x >> 25) .| u32 (x << 7)).
Definition sigma0 (x : Z) : Z := ((x >> 7) .| u32 (x << 25)) ^^ ((x >> 18) .| u32 (x << 14)) ^^ (x >> 3).
Definition sigma1 (x : Z) : Z := ((x >> 17) .| u32 (x << 15)) ^^ ((x >> 19) .| u32 (x << 13)) ^^ (x >> 10).

(** One round; the new values of the reference parameters [d] and [h]. *)
Definition Round (a b c d e f g h k w : Z) : Z * Z :=
  let t1 := u32 (h + Sigma1 e + Ch e f g + k + w) in
  let t2 := u32 (Sigma0 a + Maj a b c) in
  (u32 (d + t1), u32 (t1 + t2)).

Definition Initialize : list Z :=
  [0x6a09e667; 0xbb67ae85; 0x3c6ef372; 0xa54ff53a;
   0x510e527f; 0x9b05688c; 0x1f83d9ab; 0x5be0cd19].

(** [ReadBE32(chunk + off)]. *)
Definition ReadBE32 (chunk : list Z) (off : nat) : Z := be_value (octets off 4 chunk).

(** [Transform], the first sixteen lines. *)
Definition Transform_0 (v : vars8) (chunk : list Z) : vars8 * words16 :=
  let '(mkVars8 a b c d e f g h) := v in
  let w0 := ReadBE32 chunk 0 in
  let '(d, h) := Round a b c d e f g h 0x428a2f98 w0 in
  let w1 := ReadBE32 chunk 4 in
  let '(c, g) := Round h a b c d e f g 0x71374491 w1 in
  let w2 := ReadBE32 chunk 8 in
  let '(b, f) := Round g h a b c d e f 0xb5c0fbcf w2 in
  let w3 := ReadBE32 chunk 12 in
  let '(a, e) := Round f g h a b c d e 0xe9b5dba5 w3 in
  let w4 := ReadBE32 chunk 16 in
  let '(h, d) := Round e f g h a b c d 0x3956c25b w4 in
  let w5 := ReadBE32 chunk 20 in
  let '(g, c) := Round d e f g h a b c 0x59f111f1 w5 in
  let w6 := ReadBE32 chunk 24 in
  let '(f, b) := Round c d e f g h a b 0x923f82a4 w6 in
  let w7 := ReadBE32 chunk 28 in
  let '(e, a) := Round b c d e f g h a 0xab1c5ed5 w7 in
  let w8 := ReadBE32 chunk 32 in
  let '(d, h) := Round a b c d e f g h 0xd807aa98 w8 in
  let w9 := ReadBE32 chunk 36 in
  let '(c, g) := Round h a b c d e f g 0x12835b01 w9 in
  let w10 := ReadBE32 chunk 40 in
  let '(b, f) := Round g h a b c d e f 0x243185be w10 in
  let w11 := ReadBE32 chunk 44 in
  let '(a, e) := Round f g h a b c d e 0x550c7dc3 w11 in
  let w12 := ReadBE32 chunk 48 in
  let '(h, d) := Round e f g h a b c d 0x72be5d74 w12 in
  let w13 := ReadBE32 chunk 52 in
  let '(g, c) := Round d e f g h a b c 0x80deb1fe w13 in
  let w14 := ReadBE32 chunk 56 in
  let '(f, b) := Round c d e f g h a b 0x9bdc06a7 w14 in
  let w15 := ReadBE32 chunk 60 in
  let '(e, a) := Round b c d e f g h a 0xc19bf174 w15 in
  (mkVars8 a b c d e f g h,
   mkWords w0 w1 w2 w3 w4 w5 w6 w7 w8 w9 w10 w11 w12 w13 w14 w15).

(** [Transform], the second sixteen lines. *)
Definition Transform_1 (v : vars8) (w : words16) : vars8 * words16 :=
  let '(mkVars8 a b c d e f g h) := v in
  let '(mkWords w0 w1 w2 w3 w4 w5 w6 w7 w8 w9 w10 w11 w12 w13 w14 w15) := w in
  let w0 := u32 (w0 + (sigma1 w14 + w9 + sigma0 w1)) in
  let '(d, h) := Round a b c d e f g h 0xe49b69c1 w0 in
  let w1 := u32 (w1 + (sigma1 w15 + w10 + sigma0 w2)) in
  let '(c, g) := Round h a b c d e f g 0xefbe4786 w1 in
  let w2 := u32 (w2 + (sigma1 w0 + w11 + sigma0 w3)) in
  let '(b, f) := Round g h a b c d e f 0x0fc19dc6 w2 in
  let w3 := u32 (w3 + (sigma1 w1 + w12 + sigma0 w4)) in
  let '(a, e) := Round f g h a b c d e 0x240ca1cc w3 in
  let w4 := u32 (w4 + (sigma1 w2 + w13 + sigma0 w5)) in
  let '(h, d) := Round e f g h a b c d 0x2de92c6f w4 in
  let w5 := u32 (w5 + (sigma1 w3 + w14 + sigma0 w6)) in
  let '(g, c) := Round d e f g h a b c 0x4a7484aa w5 in
  let w6 := u32 (w6 + (sigma1 w4 + w15 + sigma0 w7)) in
  let '(f, b) := Round c d e f g h a b 0x5cb0a9dc w6 in
  let w7 := u32 (w7 + (sigma1 w5 + w0 + sigma0 w8)) in
  let '(e, a) := Round b c d e f g h a 0x76f988da w7 in
  let w8 := u32 (w8 + (sigma1 w6 + w1 + sigma0 w9)) in
  let '(d, h) := Round a b c d e f g h 0x983e5152 w8 in
  let w9 := u32 (w9 + (sigma1 w7 + w2 + sigma0 w10)) in
  let '(c, g) := Round h a b c d e f g 0xa831c66d w9 in
  let w10 := u32 (w10 + (sigma1 w8 + w3 + sigma0 w11)) in
  let '(b, f) := Round g h a b c d e f 0xb00327c8 w10 in
  let w11 := u32 (w11 + (sigma1 w9 + w4 + sigma0 w12)) in
  let '(a, e) := Round f g h a b c d e 0xbf597fc7 w11 in
  let w12 := u32 (w12 + (sigma1 w10 + w5 + sigma0 w13)) in
  let '(h, d) := Round e f g h a b c d 0xc6e00bf3 w12 in
  let w13 := u32 (w13 + (sigma1 w11 + w6 + sigma0 w14)) in
  let '(g, c) := Round d e f g h a b c 0xd5a79147 w13 in
  let w14 := u32 (w14 + (sigma1 w12 + w7 + sigma0 w15)) in
  let '(f, b) := Round c d e f g h a b 0x06ca6351 w14 in
  let w15 := u32 (w15 + (sigma1 w13 + w8 + sigma0 w0)) in
  let '(e, a) := Round b c d e f g h a 0x14292967 w15 in
  (mkVars8 a b c d e f g h,
   mkWords w0 w1 w2 w3 w4 w5 w6 w7 w8 w9 w10 w11 w12 w13 w14 w15).

(** [Transform], the third sixteen lines. *)
Definition Transform_2 (v : vars8) (w : words16) : vars8 * words16 :=
  let '(mkVars8 a b c d e f g h) := v in
  let '(mkWords w0 w1 w2 w3 w4 w5 w6 w7 w8 w9 w10 w11 w12 w13 w14 w15) := w in
  let w0 := u32 (w0 + (sigma1 w14 + w9 + sigma0 w1)) in
  let '(d, h) := Round a b c d e f g h 0x27b70a85 w0 in
  let w1 := u32 (w1 + (sigma1 w15 + w10 + sigma0 w2)) in
  let '(c, g) := Round h a b c d e f g 0x2e1b2138 w1 in
  let w2 := u32 (w2 + (sigma1 w0 + w11 + sigma0 w3)) in
  let '(b, f) := Round g h a b c d e f 0x4d2c6dfc w2 in
  let w3 := u32 (w3 + (sigma1 w1 + w12 + sigma0 w4)) in
  let '(a, e) := Round f g h a b c d e 0x53380d13 w3 in
  let w4 := u32 (w4 + (sigma1 w2 + w13 + sigma0 w5)) in
  let '(h, d) := Round e f g h a b c d 0x650a7354 w4 in
  let w5 := u32 (w5 + (sigma1 w3 + w14 + sigma0 w6)) in
  let '(g, c) := Round d e f g h a b c 0x766a0abb w5 in
  let w6 := u32 (w6 + (sigma1 w4 + w15 + sigma0 w7)) in
  let '(f, b) := Round c d e f g h a b 0x81c2c92e w6 in
  let w7 := u32 (w7 + (sigma1 w5 + w0 + sigma0 w8)) in
  let '(e, a) := Round b c d e f g h a 0x92722c85 w7 in
  let w8 := u32 (w8 + (sigma1 w6 + w1 + sigma0 w9)) in
  let '(d, h) := Round a b c d e f g h 0xa2bfe8a1 w8 in
  let w9 := u32 (w9 + (sigma1 w7 + w2 + sigma0 w10)) in
  let '(c, g) := Round h a b c d e f g 0xa81a664b w9 in
  let w10 := u32 (w10 + (sigma1 w8 + w3 + sigma0 w11)) in
  let '(b, f) := Round g h a b c d e f 0xc24b8b70 w10 in
  let w11 := u32 (w11 + (sigma1 w9 + w4 + sigma0 w12)) in
  let '(a, e) := Round f g h a b c d e 0xc76c51a3 w11 in
  let w12 := u32 (w12 + (sigma1 w10 + w5 + sigma0 w13)) in
  let '(h, d) := Round e f g h a b c d 0xd192e819 w12 in
  let w13 := u32 (w13 + (sigma1 w11 + w6 + sigma0 w14)) in
  let '(g, c) := Round d e f g h a b c 0xd6990624 w13 in
  let w14 := u32 (w14 + (sigma1 w12 + w7 + sigma0 w15)) in
  let '(f, b) := Round c d e f g h a b 0xf40e3585 w14 in
  let w15 := u32 (w15 + (sigma1 w13 + w8 + sigma0 w0)) in
  let '(e, a) := Round b c d e f g h a 0x106aa070 w15 in
  (mkVars8 a b c d e f g h,
   mkWords w0 w1 w2 w3 w4 w5 w6 w7 w8 w9 w10 w11 w12 w13 w14 w15).

(** [Transform], the fourth sixteen lines. *)
Definition Transform_3 (v : vars8) (w : words16) : vars8 :=
  let '(mkVars8 a b c d e f g h) := v in
  let '(mkWords w0 w1 w2 w3 w4 w5 w6 w7 w8 w9 w10 w11 w12 w13 w14 w15) := w in
  let w0 := u32 (w0 + (sigma1 w14 + w9 + sigma0 w1)) in
  let '(d, h) := Round a b c d e f g h 0x19a4c116 w0 in
  let w1 := u32 (w1 + (sigma1 w15 + w10 + sigma0 w2)) in
  let '(c, g) := Round h a b c d e f g 0x1e376c08 w1 in
  let w2 := u32 (w2 + (sigma1 w0 + w11 + sigma0 w3)) in
  let '(b, f) := Round g h a b c d e f 0x2748774c w2 in
  let w3 := u32 (w3 + (sigma1 w1 + w12 + sigma0 w4)) in
  let '(a, e) := Round f g h a b c d e 0x34b0bcb5 w3 in
  let w4 := u32 (w4 + (sigma1 w2 + w13 + sigma0 w5)) in
  let '(h, d) := Round e f g h a b c d 0x391c0cb3 w4 in
  let w5 := u32 (w5 + (sigma1 w3 + w14 + sigma0 w6)) in
  let '(g, c) := Round d e f g h a b c 0x4ed8aa4a w5 in
  let w6 := u32 (w6 + (sigma1 w4 + w15 + sigma0 w7)) in
  let '(f, b) := Round c d e f g h a b 0x5b9cca4f w6 in
  let w7 := u32 (w7 + (sigma1 w5 + w0 + sigma0 w8)) in
  let '(e, a) := Round b c d e f g h a 0x682e6ff3 w7 in
  let w8 := u32 (w8 + (sigma1 w6 + w1 + sigma0 w9)) in
  let '(d, h) := Round a b c d e f g h 0x748f82ee w8 in
  let w9 := u32 (w9 + (sigma1 w7 + w2 + sigma0 w10)) in
  let '(c, g) := Round h a b c d e f g 0x78a5636f w9 in
  let w10 := u32 (w10 + (sigma1 w8 + w3 + sigma0 w11)) in
  let '(b, f) := Round g h a b c d e f 0x84c87814 w10 in
  let w11 := u32 (w11 + (sigma1 w9 + w4 + sigma0 w12)) in
  let '(a, e) := Round f g h a b c d e 0x8cc70208 w11 in
  let w12 := u32 (w12 + (sigma1 w10 + w5 + sigma0 w13)) in
  let '(h, d) := Round e f g h a b c d 0x90befffa w12 in
  let w13 := u32 (w13 + (sigma1 w11 + w6 + sigma0 w14)) in
  let '(g, c) := Round d e f g h a b c 0xa4506ceb w13 in
  let '(f, b) := Round c d e f g h a b 0xbef9a3f7 (u32 (w14 + (sigma1 w12 + w7 + sigma0 w15))) in
  let '(e, a) := Round b c d e f g h a 0xc67178f2 (u32 (w15 + (sigma1 w13 + w8 + sigma0 w0))) in
  mkVars8 a b c d e f g h.

(** One transformation, processing a 64-byte chunk. *)
Definition Transform (s chunk : list Z) : list Z :=
  let v := mkVars8 (s !!! 0%nat) (s !!! 1%nat) (s !!! 2%nat) (s !!! 3%nat) (s !!! 4%nat) (s !!! 5%nat) (s !!! 6%nat) (s !!! 7%nat) in
  let '(v, w) := Transform_0 v chunk in
  let '(v, w) := Transform_1 v w in
  let '(v, w) := Transform_2 v w in
  let '(mkVars8 a b c d e f g h) := Transform_3 v w in
  [u32 (s !!! 0%nat + a); u32 (s !!! 1%nat + b); u32 (s !!! 2%nat + c); u32 (s !!! 3%nat + d);
   u32 (s !!! 4%nat + e); u32 (s !!! 5%nat + f); u32 (s !!! 6%nat + g); u32 (s !!! 7%nat + h)].

(** ** [CSHA256] *)

Definition Write : md -> list Z -> option md := md_Write 64 Transform.

Definition sizedesc (bits : Z) : list Z := be_bytes 8 bits.

Definition output (s : list Z) : list Z := concat (be_bytes 4 <$> s).

Definition Finalize : md -> option (list Z * md) :=
  md_Finalize 64 Transform 119 sizedesc output.

Definition new : list Z -> md := md_new Initialize.
Definition Reset : md -> md := md_Reset Initialize.

End sha256.
