(* ===== verification/Sha1.v ===== *)
(** * crypto/sha1.cpp: CSHA1

    The namespace [sha1] and the class [CSHA1] over the buffered hasher of [MdHash]. *)

From S2P Require Import Prelude MdHash.
#[local] Open Scope Z_scope.

Module sha1c.

(** One round; the new values of the reference parameters [b] and [e]. *)
Definition Round (a b c d e f k w : Z) : Z * Z :=
  (u32 (b << 30) .| (b >> 2), u32 (e + ((u32 (a << 5) .| (a >> 27)) + f + k + w))).

Definition f1 (b c d : Z) : Z := d ^^ (b & (c ^^ d)).
Definition f2 (b c d : Z) : Z := b ^^ c ^^ d.
Definition f3 (b c d : Z) : Z := (b & c) .| (d & (b .| c)).

Definition left (x : Z) : Z := u32 (x << 1) .| (x >> 31).

Definition Initialize : list Z :=
  [0x67452301; 0xEFCDAB89; 0x98BADCFE; 0x10325476; 0xC3D2E1F0].

Definition k1 : Z := 0x5A827999.
Definition k2 : Z := 0x6ED9EBA1.
Definition k3 : Z := 0x8F1BBCDC.
Definition k4 : Z := 0xCA62C1D6.

Definition ReadBE32 (chunk : list Z) (off : nat) : Z := be_value (octets off 4 chunk).

(** [Transform], the first sixteen lines. *)
Definition Transform_0 (v : vars5) (chunk : list Z) : vars5 * words16 :=
  let '(mkVars5 a b c d e) := v in
  let w0 := ReadBE32 chunk 0 in
  let '(b, e) := Round a b c d e (f1 b c d) k1 w0 in
  let w1 := ReadBE32 chunk 4 in
  let '(a, d) := Round e a b c d (f1 a b c) k1 w1 in
  let w2 := ReadBE32 chunk 8 in
  let '(e, c) := Round d e a b c (f1 e a b) k1 w2 in
  let w3 := ReadBE32 chunk 12 in
  let '(d, b) := Round c d e a b (f1 d e a) k1 w3 in
  let w4 := ReadBE32 chunk 16 in
  let '(c, a) := Round b c d e a (f1 c d e) k1 w4 in
  let w5 := ReadBE32 chunk 20 in
  let '(b, e) := Round a b c d e (f1 b c d) k1 w5 in
  let w6 := ReadBE32 chunk 24 in
  let '(a, d) := Round e a b c d (f1 a b c) k1 w6 in
  let w7 := ReadBE32 chunk 28 in
  let '(e, c) := Round d e a b c (f1 e a b) k1 w7 in
  let w8 := ReadBE32 chunk 32 in
  let '(d, b) := Round c d e a b (f1 d e a) k1 w8 in
  let w9 := ReadBE32 chunk 36 in
  let '(c, a) := Round b c d e a (f1 c d e) k1 w9 in
  let w10 := ReadBE32 chunk 40 in
  let '(b, e) := Round a b c d e (f1 b c d) k1 w10 in
  let w11 := ReadBE32 chunk 44 in
  let '(a, d) := Round e a b c d (f1 a b c) k1 w11 in
  let w12 := ReadBE32 chunk 48 in
  let '(e, c) := Round d e a b c (f1 e a b) k1 w12 in
  let w13 := ReadBE32 chunk 52 in
  let '(d, b) := Round c d e a b (f1 d e a) k1 w13 in
  let w14 := ReadBE32 chunk 56 in
  let '(c, a) := Round b c d e a (f1 c d e) k1 w14 in
  let w15 := ReadBE32 chunk 60 in
  let '(b, e) := Round a b c d e (f1 b c d) k1 w15 in
  (mkVars5 a b c d e,
   mkWords w0 w1 w2 w3 w4 w5 w6 w7 w8 w9 w10 w11 w12 w13 w14 w15).

(** [Transform], the second sixteen lines. *)
Definition Transform_1 (v : vars5) (w : words16) : vars5 * words16 :=
  let '(mkVars5 a b c d e) := v in
  let '(mkWords w0 w1 w2 w3 w4 w5 w6 w7 w8 w9 w10 w11 w12 w13 w14 w15) := w in
  let w0 := left (w0 ^^ w13 ^^ w8 ^^ w2) in
  let '(a, d) := Round e a b c d (f1 a b c) k1 w0 in
  let w1 := left (w1 ^^ w14 ^^ w9 ^^ w3) in
  let '(e, c) := Round d e a b c (f1 e a b) k1 w1 in
  let w2 := left (w2 ^^ w15 ^^ w10 ^^ w4) in
  let '(d, b) := Round c d e a b (f1 d e a) k1 w2 in
  let w3 := left (w3 ^^ w0 ^^ w11 ^^ w5) in
  let '(c, a) := Round b c d e a (f1 c d e) k1 w3 in
  let w4 := left (w4 ^^ w1 ^^ w12 ^^ w6) in
  let '(b, e) := Round a b c d e (f2 b c d) k2 w4 in
  let w5 := left (w5 ^^ w2 ^^ w13 ^^ w7) in
  let '(a, d) := Round e a b c d (f2 a b c) k2 w5 in
  let w6 := left (w6 ^^ w3 ^^ w14 ^^ w8) in
  let '(e, c) := Round d e a b c (f2 e a b) k2 w6 in
  let w7 := left (w7 ^^ w4 ^^ w15 ^^ w9) in
  let '(d, b) := Round c d e a b (f2 d e a) k2 w7 in
  let w8 := left (w8 ^^ w5 ^^ w0 ^^ w10) in
  let '(c, a) := Round b c d e a (f2 c d e) k2 w8 in
  let w9 := left (w9 ^^ w6 ^^ w1 ^^ w11) in
  let '(b, e) := Round a b c d e (f2 b c d) k2 w9 in
  let w10 := left (w10 ^^ w7 ^^ w2 ^^ w12) in
  let '(a, d) := Round e a b c d (f2 a b c) k2 w10 in
  let w11 := left (w11 ^^ w8 ^^ w3 ^^ w13) in
  let '(e, c) := Round d e a b c (f2 e a b) k2 w11 in
  let w12 := left (w12 ^^ w9 ^^ w4 ^^ w14) in
  let '(d, b) := Round c d e a b (f2 d e a) k2 w12 in
  let w13 := left (w13 ^^ w10 ^^ w5 ^^ w15) in
  let '(c, a) := Round b c d e a (f2 c d e) k2 w13 in
  let w14 := left (w14 ^^ w11 ^^ w6 ^^ w0) in
  let '(b, e) := Round a b c d e (f2 b c d) k2 w14 in
  let w15 := left (w15 ^^ w12 ^^ w7 ^^ w1) in
  let '(a, d) := Round e a b c d (f2 a b c) k2 w15 in
  (mkVars5 a b c d e,
   mkWords w0 w1 w2 w3 w4 w5 w6 w7 w8 w9 w10 w11 w12 w13 w14 w15).

(** [Transform], the third sixteen lines. *)
Definition Transform_2 (v : vars5) (w : words16) : vars5 * words16 :=
  let '(mkVars5 a b c d e) := v in
  let '(mkWords w0 w1 w2 w3 w4 w5 w6 w7 w8 w9 w10 w11 w12 w13 w14 w15) := w in
  let w0 := left (w0 ^^ w13 ^^ w8 ^^ w2) in
  let '(e, c) := Round d e a b c (f2 e a b) k2 w0 in
  let w1 := left (w1 ^^ w14 ^^ w9 ^^ w3) in
  let '(d, b) := Round c d e a b (f2 d e a) k2 w1 in
  let w2 := left (w2 ^^ w15 ^^ w10 ^^ w4) in
  let '(c, a) := Round b c d e a (f2 c d e) k2 w2 in
  let w3 := left (w3 ^^ w0 ^^ w11 ^^ w5) in
  let '(b, e) := Round a b c d e (f2 b c d) k2 w3 in
  let w4 := left (w4 ^^ w1 ^^ w12 ^^ w6) in
  let '(a, d) := Round e a b c d (f2 a b c) k2 w4 in
  let w5 := left (w5 ^^ w2 ^^ w13 ^^ w7) in
  let '(e, c) := Round d e a b c (f2 e a b) k2 w5 in
  let w6 := left (w6 ^^ w3 ^^ w14 ^^ w8) in
  let '(d, b) := Round c d e a b (f2 d e a) k2 w6 in
  let w7 := left (w7 ^^ w4 ^^ w15 ^^ w9) in
  let '(c, a) := Round b c d e a (f2 c d e) k2 w7 in
  let w8 := left (w8 ^^ w5 ^^ w0 ^^ w10) in
  let '(b, e) := Round a b c d e (f3 b c d) k3 w8 in
  let w9 := left (w9 ^^ w6 ^^ w1 ^^ w11) in
  let '(a, d) := Round e a b c d (f3 a b c) k3 w9 in
  let w10 := left (w10 ^^ w7 ^^ w2 ^^ w12) in
  let '(e, c) := Round d e a b c (f3 e a b) k3 w10 in
  let w11 := left (w11 ^^ w8 ^^ w3 ^^ w13) in
  let '(d, b) := Round c d e a b (f3 d e a) k3 w11 in
  let w12 := left (w12 ^^ w9 ^^ w4 ^^ w14) in
  let '(c, a) := Round b c d e a (f3 c d e) k3 w12 in
  let w13 := left (w13 ^^ w10 ^^ w5 ^^ w15) in
  let '(b, e) := Round a b c d e (f3 b c d) k3 w13 in
  let w14 := left (w14 ^^ w11 ^^ w6 ^^ w0) in
  let '(a, d) := Round e a b c d (f3 a b c) k3 w14 in
  let w15 := left (w15 ^^ w12 ^^ w7 ^^ w1) in
  let '(e, c) := Round d e a b c (f3 e a b) k3 w15 in
  (mkVars5 a b c d e,
   mkWords w0 w1 w2 w3 w4 w5 w6 w7 w8 w9 w10 w11 w12 w13 w14 w15).

(** [Transform], the fourth sixteen lines. *)
Definition Transform_3 (v : vars5) (w : words16) : vars5 * words16 :=
  let '(mkVars5 a b c d e) := v in
  let '(mkWords w0 w1 w2 w3 w4 w5 w6 w7 w8 w9 w10 w11 w12 w13 w14 w15) := w in
  let w0 := left (w0 ^^ w13 ^^ w8 ^^ w2) in
  let '(d, b) := Round c d e a b (f3 d e a) k3 w0 in
  let w1 := left (w1 ^^ w14 ^^ w9 ^^ w3) in
  let '(c, a) := Round b c d e a (f3 c d e) k3 w1 in
  let w2 := left (w2 ^^ w15 ^^ w10 ^^ w4) in
  let '(b, e) := Round a b c d e (f3 b c d) k3 w2 in
  let w3 := left (w3 ^^ w0 ^^ w11 ^^ w5) in
  let '(a, d) := Round e a b c d (f3 a b c) k3 w3 in
  let w4 := left (w4 ^^ w1 ^^ w12 ^^ w6) in
  let '(e, c) := Round d e a b c (f3 e a b) k3 w4 in
  let w5 := left (w5 ^^ w2 ^^ w13 ^^ w7) in
  let '(d, b) := Round c d e a b (f3 d e a) k3 w5 in
  let w6 := left (w6 ^^ w3 ^^ w14 ^^ w8) in
  let '(c, a) := Round b c d e a (f3 c d e) k3 w6 in
  let w7 := left (w7 ^^ w4 ^^ w15 ^^ w9) in
  let '(b, e) := Round a b c d e (f3 b c d) k3 w7 in
  let w8 := left (w8 ^^ w5 ^^ w0 ^^ w10) in
  let '(a, d) := Round e a b c d (f3 a b c) k3 w8 in
  let w9 := left (w9 ^^ w6 ^^ w1 ^^ w11) in
  let '(e, c) := Round d e a b c (f3 e a b) k3 w9 in
  let w10 := left (w10 ^^ w7 ^^ w2 ^^ w12) in
  let '(d, b) := Round c d e a b (f3 d e a) k3 w10 in
  let w11 := left (w11 ^^ w8 ^^ w3 ^^ w13) in
  let '(c, a) := Round b c d e a (f3 c d e) k3 w11 in
  let w12 := left (w12 ^^ w9 ^^ w4 ^^ w14) in
  let '(b, e) := Round a b c d e (f2 b c d) k4 w12 in
  let w13 := left (w13 ^^ w10 ^^ w5 ^^ w15) in
  let '(a, d) := Round e a b c d (f2 a b c) k4 w13 in
  let w14 := left (w14 ^^ w11 ^^ w6 ^^ w0) in
  let '(e, c) := Round d e a b c (f2 e a b) k4 w14 in
  let w15 := left (w15 ^^ w12 ^^ w7 ^^ w1) in
  let '(d, b) := Round c d e a b (f2 d e a) k4 w15 in
  (mkVars5 a b c d e,
   mkWords w0 w1 w2 w3 w4 w5 w6 w7 w8 w9 w10 w11 w12 w13 w14 w15).

(** [Transform], the fifth sixteen lines. *)
Definition Transform_4 (v : vars5) (w : words16) : vars5 :=
  let '(mkVars5 a b c d e) := v in
  let '(mkWords w0 w1 w2 w3 w4 w5 w6 w7 w8 w9 w10 w11 w12 w13 w14 w15) := w in
  let w0 := left (w0 ^^ w13 ^^ w8 ^^ w2) in
  let '(c, a) := Round b c d e a (f2 c d e) k4 w0 in
  let w1 := left (w1 ^^ w14 ^^ w9 ^^ w3) in
  let '(b, e) := Round a b c d e (f2 b c d) k4 w1 in
  let w2 := left (w2 ^^ w15 ^^ w10 ^^ w4) in
  let '(a, d) := Round e a b c d (f2 a b c) k4 w2 in
  let w3 := left (w3 ^^ w0 ^^ w11 ^^ w5) in
  let '(e, c) := Round d e a b c (f2 e a b) k4 w3 in
  let w4 := left (w4 ^^ w1 ^^ w12 ^^ w6) in
  let '(d, b) := Round c d e a b (f2 d e a) k4 w4 in
  let w5 := left (w5 ^^ w2 ^^ w13 ^^ w7) in
  let '(c, a) := Round b c d e a (f2 c d e) k4 w5 in
  let w6 := left (w6 ^^ w3 ^^ w14 ^^ w8) in
  let '(b, e) := Round a b c d e (f2 b c d) k4 w6 in
  let w7 := left (w7 ^^ w4 ^^ w15 ^^ w9) in
  let '(a, d) := Round e a b c d (f2 a b c) k4 w7 in
  let w8 := left (w8 ^^ w5 ^^ w0 ^^ w10) in
  let '(e, c) := Round d e a b c (f2 e a b) k4 w8 in
  let w9 := left (w9 ^^ w6 ^^ w1 ^^ w11) in
  let '(d, b) := Round c d e a b (f2 d e a) k4 w9 in
  let w10 := left (w10 ^^ w7 ^^ w2 ^^ w12) in
  let '(c, a) := Round b c d e a (f2 c d e) k4 w10 in
  let w11 := left (w11 ^^ w8 ^^ w3 ^^ w13) in
  let '(b, e) := Round a b c d e (f2 b c d) k4 w11 in
  let w12 := left (w12 ^^ w9 ^^ w4 ^^ w14) in
  let '(a, d) := Round e a b c d (f2 a b c) k4 w12 in
  let '(e, c) := Round d e a b c (f2 e a b) k4 (left (w13 ^^ w10 ^^ w5 ^^ w15)) in
  let '(d, b) := Round c d e a b (f2 d e a) k4 (left (w14 ^^ w11 ^^ w6 ^^ w0)) in
  let '(c, a) := Round b c d e a (f2 c d e) k4 (left (w15 ^^ w12 ^^ w7 ^^ w1)) in
  mkVars5 a b c d e.

(** One transformation, processing a 64-byte chunk. *)
Definition Transform (s chunk : list Z) : list Z :=
  let v := mkVars5 (s !!! 0%nat) (s !!! 1%nat) (s !!! 2%nat) (s !!! 3%nat) (s !!! 4%nat) in
  let '(v, w) := Transform_0 v chunk in
  let '(v, w) := Transform_1 v w in
  let '(v, w) := Transform_2 v w in
  let '(v, w) := Transform_3 v w in
  let '(mkVars5 a b c d e) := Transform_4 v w in
  [u32 (s !!! 0%nat + a); u32 (s !!! 1%nat + b); u32 (s !!! 2%nat + c);
   u32 (s !!! 3%nat + d); u32 (s !!! 4%nat + e)].

(** ** [CSHA1] *)

Definition Write : md -> list Z -> option md := md_Write 64 Transform.

Definition sizedesc (bits : Z) : list Z := be_bytes 8 bits.

Definition output (s : list Z) : list Z := concat (be_bytes 4 <$> s).

Definition Finalize : md -> option (list Z * md) :=
  md_Finalize 64 Transform 119 sizedesc output.

Definition new : list Z -> md := md_new Initialize.
Definition Reset : md -> md := md_Reset Initialize.

End sha1c.
