(* ===== verification/ShaProofs.v ===== *)
(** * SHA-256, SHA-512, SHA-1 and RIPEMD-160: the unrolled transforms compute the standards

    The standard's schedule is a growing list; the code keeps a window of sixteen
    words.  [s2_window] relates the two for any member of the family; [transform_run]
    then executes the unrolled lines of the code against it. *)

From S2P Require Import Prelude MdHash ShaSpec Sha256 Sha512 Sha1 Ripemd160.
#[local] Open Scope Z_scope.

(** ** The boolean functions *)

Lemma ch_code x y z : z ^^ (x & (y ^^ z)) = ch x y z.
Proof.
  apply Z.bits_inj'. intros i Hi. unfold ch. autorewrite with bits.
  by destruct (Z.testbit x i), (Z.testbit y i), (Z.testbit z i).
Qed.

Lemma maj_code x y z : (x & y) .| (z & (x .| y)) = maj x y z.
Proof.
  apply Z.bits_inj'. intros i Hi. unfold maj. autorewrite with bits.
  by destruct (Z.testbit x i), (Z.testbit y i), (Z.testbit z i).
Qed.

(** ** The window of the schedule

    [R st k w] is a round, [next W t] the standard's next schedule word, [mix] the
    same word computed from the last sixteen. *)

Section Window.
Context {KT : Type} (R : list Z -> KT -> Z -> list Z).
Context (next : list Z -> nat -> Z) (mix : list Z -> Z).
Context (next_mix : forall W n, length W = (16 + n)%nat -> next W (16 + n) = mix (drop n W)).

Definition win_step (p : list Z * list Z) (k : KT) : list Z * list Z :=
  let w := mix p.2 in (R p.1 k w, tail p.2 ++ [w]).

Definition win_ext (W : list Z) (t : nat) : list Z := W ++ [next W t].

Lemma length_win_ext M n : length (foldl win_ext M (seq 16 n)) = (length M + n)%nat.
Proof.
  induction n as [|n IH]; [simpl; lia |].
  rewrite seq_S, foldl_snoc. unfold win_ext at 1. rewrite length_app, IH. simpl. lia.
Qed.

(** Rounds on the growing schedule are rounds on the window. *)
Lemma win_window st0 K1 K2 M :
  length M = 16%nat -> length K1 = 16%nat ->
  let st := foldl (fun st kw => R st kw.1 kw.2) st0 (zip K1 M) in
  foldl win_step (st, M) K2 =
  (foldl (fun st kw => R st kw.1 kw.2) st0
     (zip (K1 ++ K2) (foldl win_ext M (seq 16 (length K2)))),
   drop (length K2) (foldl win_ext M (seq 16 (length K2)))).
Proof using next_mix.
  intros HM HK. cbv zeta. induction K2 as [|k K2 IH] using rev_ind.
  { simpl. by rewrite app_nil_r, drop_0. }
  rewrite foldl_snoc, IH, length_app. cbn [length].
  replace (length K2 + 1)%nat with (S (length K2)) by lia. rewrite seq_S, foldl_snoc.
  set (W := foldl win_ext M (seq 16 (length K2))).
  assert (length W = (16 + length K2)%nat) as HW by (unfold W; rewrite length_win_ext; lia).
  assert (win_ext W (16 + length K2) = W ++ [mix (drop (length K2) W)]) as ->
    by (unfold win_ext; by rewrite next_mix).
  unfold win_step. cbn [fst snd].
  set (w := mix (drop (length K2) W)).
  rewrite app_assoc, zip_with_app by (rewrite length_app; lia).
  rewrite foldl_app. cbn [zip zip_with foldl fst snd]. f_equal.
  rewrite drop_app_le by lia. by rewrite tail_drop.
Qed.

End Window.

(** The window of SHA-2. *)
Definition s2_mix (F : sha2) (win : list Z) : Z :=
  wrap (s2_w F) (win !!! 0%nat + (small_sigma F (s2_s1 F) (win !!! 14%nat) + win !!! 9%nat +
                 small_sigma F (s2_s0 F) (win !!! 1%nat))).

Definition s2_step (F : sha2) : list Z * list Z -> Z -> list Z * list Z :=
  win_step (s2_round F) (s2_mix F).

Lemma s2_next_window F W n :
  length W = (16 + n)%nat -> s2_next F W (16 + n) = s2_mix F (drop n W).
Proof.
  intros HW. unfold s2_next, s2_mix, wrap. rewrite !lookup_total_drop.
  replace (n + 0)%nat with (16 + n - 16)%nat by lia.
  replace (n + 1)%nat with (16 + n - 15)%nat by lia.
  replace (n + 9)%nat with (16 + n - 7)%nat by lia.
  replace (n + 14)%nat with (16 + n - 2)%nat by lia. f_equal. lia.
Qed.

Lemma s2_compress_window F h b K1 K2 :
  s2_K F = K1 ++ K2 -> length K1 = 16%nat -> length K2 = (s2_rounds F - 16)%nat ->
  s2_compress F h b =
  add_words (s2_w F) h (foldl (s2_step F) (foldl (fun st kw => s2_round F st kw.1 kw.2) h
    (zip K1 (be_words (s2_bytes F) 16 b)), be_words (s2_bytes F) 16 b) K2).1.
Proof.
  intros HK H1 H2. unfold s2_step.
  rewrite (win_window _ (s2_next F) _ (s2_next_window F) h K1 K2) by done. cbn [fst].
  unfold s2_compress, s2_schedule. by rewrite HK, H2.
Qed.

(** Execute the unrolled lines: destruct the next round of the code and rewrite the
    round of the standard with it. *)
Ltac code_round Round round_eq :=
  match goal with
  | |- context [Round ?a ?b ?c ?d ?e ?f ?g ?h ?k ?w] =>
      tryif is_var w then idtac else (generalize w; intros ?)
  end;
  match goal with
  | |- context [Round ?a ?b ?c ?d ?e ?f ?g ?h ?k ?w] =>
      let E := fresh "E" in
      destruct (Round a b c d e f g h k w) as [? ?] eqn:E; cbv beta iota;
      rewrite (round_eq _ _ _ _ _ _ _ _ _ _ _ _ E); clear E
  end.

Ltac code_line Round round_eq step_eq :=
  rewrite step_eq; cbv beta zeta; code_round Round round_eq.

Definition vars8_list (v : vars8) : list Z :=
  let '(mkVars8 a b c d e f g h) := v in [a; b; c; d; e; f; g; h].

Definition words_list (w : words16) : list Z :=
  let '(mkWords w0 w1 w2 w3 w4 w5 w6 w7 w8 w9 w10 w11 w12 w13 w14 w15) := w in
  [w0; w1; w2; w3; w4; w5; w6; w7; w8; w9; w10; w11; w12; w13; w14; w15].

(** A group of sixteen lines that loads the words, one that extends them, the last one. *)
Definition group_load (F : sha2) (G : vars8 -> list Z -> vars8 * words16) (K : list Z) : Prop :=
  forall v chunk, let p := G v chunk in
  words_list p.2 = be_words (s2_bytes F) 16 chunk /\
  foldl (fun st kw => s2_round F st kw.1 kw.2) (vars8_list v)
    (zip K (be_words (s2_bytes F) 16 chunk)) = vars8_list p.1.

Definition group_mix (F : sha2) (G : vars8 -> words16 -> vars8 * words16) (K : list Z) : Prop :=
  forall v w, let p := G v w in
  foldl (s2_step F) (vars8_list v, words_list w) K = (vars8_list p.1, words_list p.2).

Definition group_last (F : sha2) (G : vars8 -> words16 -> vars8) (K : list Z) : Prop :=
  forall v w, (foldl (s2_step F) (vars8_list v, words_list w) K).1 = vars8_list (G v w).

Ltac group_lines v w G K n tac :=
  destruct v as [a b c d e f g h];
  destruct w as [w0 w1 w2 w3 w4 w5 w6 w7 w8 w9 w10 w11 w12 w13 w14 w15];
  unfold K, G; cbn [take drop foldl vars8_list words_list]; cbv beta iota zeta;
  do 16 tac; reflexivity.

Lemma words_out nb n (s : list Z) :
  length s = n ->
  length (concat (be_bytes nb <$> s)) = (n * nb)%nat /\ Forall (fits 8) (concat (be_bytes nb <$> s)).
Proof.
  intros <-. induction s as [|x s [IH1 IH2]]; [by simpl | ]. cbn [fmap list_fmap concat length].
  rewrite length_app, length_be_bytes, IH1. split; [lia |].
  apply Forall_app_2; [apply be_bytes_fits | done].
Qed.

(** ** SHA-256 *)

Lemma round256 a b c d e f g h k w d' h' :
  sha256.Round a b c d e f g h k w = (d', h') ->
  s2_round SHA256 [a; b; c; d; e; f; g; h] k w = [h'; a; b; c; d'; e; f; g].
Proof.
  intros [= <- <-]. unfold s2_round. change (s2_w SHA256) with 32.
  unfold sha256.Ch, sha256.Maj. rewrite ch_code, maj_code.
  change (big_sigma SHA256 (s2_S0 SHA256) a) with (sha256.Sigma0 a).
  change (big_sigma SHA256 (s2_S1 SHA256) e) with (sha256.Sigma1 e).
  by rewrite wrap_add_l, !wrap_add_r.
Qed.

Lemma step256 st w0 w1 w2 w3 w4 w5 w6 w7 w8 w9 w10 w11 w12 w13 w14 w15 k :
  s2_step SHA256 (st, [w0; w1; w2; w3; w4; w5; w6; w7; w8; w9; w10; w11; w12; w13; w14; w15]) k =
  let w := u32 (w0 + (sha256.sigma1 w14 + w9 + sha256.sigma0 w1)) in
  (s2_round SHA256 st k w, [w1; w2; w3; w4; w5; w6; w7; w8; w9; w10; w11; w12; w13; w14; w15; w]).
Proof. done. Qed.

Definition K256 : list Z := Eval vm_compute in s2_K SHA256.

Lemma s2_K256 : s2_K SHA256 = take 16 K256 ++ drop 16 K256.
Proof. by vm_compute. Qed.

Lemma group256_0 : group_load SHA256 sha256.Transform_0 (take 16 K256).
Proof.
  intros v chunk. cbv zeta.
  assert (words_list (sha256.Transform_0 v chunk).2 = be_words (s2_bytes SHA256) 16 chunk) as Hw
    by (by destruct v). split; [exact Hw |]. clear Hw.
  change (be_words (s2_bytes SHA256) 16 chunk) with
    ((fun i => sha256.ReadBE32 chunk (4 * i)) <$> seq 0 16).
  destruct v as [a b c d e f g h]. unfold K256, sha256.Transform_0.
  cbn [take zip zip_with fmap list_fmap seq foldl vars8_list fst snd]. cbv beta iota zeta.
  cbn [Nat.mul Nat.add].
  do 16 code_round sha256.Round round256. reflexivity.
Qed.

Lemma group256_1 : group_mix SHA256 sha256.Transform_1 (take 16 (drop 16 K256)).
Proof. intros v w. group_lines v w sha256.Transform_1 K256 16 ltac:(code_line sha256.Round round256 step256). Qed.

Lemma group256_2 : group_mix SHA256 sha256.Transform_2 (take 16 (drop 32 K256)).
Proof. intros v w. group_lines v w sha256.Transform_2 K256 16 ltac:(code_line sha256.Round round256 step256). Qed.

Lemma group256_3 : group_last SHA256 sha256.Transform_3 (drop 48 K256).
Proof. intros v w. group_lines v w sha256.Transform_3 K256 16 ltac:(code_line sha256.Round round256 step256). Qed.

Lemma Transform256_spec s b :
  length s = 8%nat -> sha256.Transform s b = s2_compress SHA256 s b.
Proof.
  intros Hs. rewrite (s2_compress_window SHA256 s b _ _ s2_K256) by done.
  destruct s as [|s0 [|s1 [|s2 [|s3 [|s4 [|s5 [|s6 [|s7 [|]]]]]]]]]; try discriminate Hs.
  unfold sha256.Transform. cbv zeta.
  change (mkVars8 _ _ _ _ _ _ _ _) with (mkVars8 s0 s1 s2 s3 s4 s5 s6 s7).
  destruct (group256_0 (mkVars8 s0 s1 s2 s3 s4 s5 s6 s7) b) as [Hw H0].
  cbn [vars8_list] in H0. rewrite H0, <- Hw. clear H0 Hw.
  destruct (sha256.Transform_0 _ b) as [v1 w1]. cbn [fst snd].
  destruct (sha256.Transform_1 v1 w1) as [v2 w2] eqn:E1.
  pose proof (group256_1 v1 w1) as H1. rewrite E1 in H1. cbn [fst snd] in H1.
  destruct (sha256.Transform_2 v2 w2) as [v3 w3] eqn:E2.
  pose proof (group256_2 v2 w2) as H2. rewrite E2 in H2. cbn [fst snd] in H2.
  rewrite <- (take_drop 16 (drop 16 K256)), foldl_app, H1, drop_drop; cbn [Nat.add].
  rewrite <- (take_drop 16 (drop 32 K256)), foldl_app, H2, drop_drop; cbn [Nat.add].
  rewrite group256_3.
  by destruct (sha256.Transform_3 v3 w3).
Qed.

Lemma length_s2_compress256 s b : length s = 8%nat -> length (s2_compress SHA256 s b) = 8%nat.
Proof.
  intros Hs. rewrite <- Transform256_spec by done. unfold sha256.Transform. cbv zeta.
  repeat case_match. done.
Qed.

#[export] Program Instance md_ok256 :
  MdOk 64 8 sha256.Transform 119 sha256.sizedesc sha256.output sha256.Initialize
       (be_bytes 8) (s2_compress SHA256) (s2_H0 SHA256) 32 := {|
  md_wf s := length s = 8%nat;
|}.
Next Obligation. lia. Qed.
Next Obligation. done. Qed.
Next Obligation. intros; by apply Transform256_spec. Qed.
Next Obligation. intros; by apply length_s2_compress256. Qed.
Next Obligation. by vm_compute. Qed.
Next Obligation. by vm_compute. Qed.
Next Obligation. done. Qed.
Next Obligation. intros; split; [apply length_be_bytes | apply be_bytes_fits]. Qed.
Next Obligation. intros; by apply (words_out 4 8). Qed.

(** ** SHA-512 *)

Lemma round512 a b c d e f g h k w d' h' :
  sha512.Round a b c d e f g h k w = (d', h') ->
  s2_round SHA512 [a; b; c; d; e; f; g; h] k w = [h'; a; b; c; d'; e; f; g].
Proof.
  intros [= <- <-]. unfold s2_round. change (s2_w SHA512) with 64.
  unfold sha512.Ch, sha512.Maj. rewrite ch_code, maj_code.
  change (big_sigma SHA512 (s2_S0 SHA512) a) with (sha512.Sigma0 a).
  change (big_sigma SHA512 (s2_S1 SHA512) e) with (sha512.Sigma1 e).
  by rewrite wrap_add_l, !wrap_add_r.
Qed.

Lemma step512 st w0 w1 w2 w3 w4 w5 w6 w7 w8 w9 w10 w11 w12 w13 w14 w15 k :
  s2_step SHA512 (st, [w0; w1; w2; w3; w4; w5; w6; w7; w8; w9; w10; w11; w12; w13; w14; w15]) k =
  let w := u64 (w0 + (sha512.sigma1 w14 + w9 + sha512.sigma0 w1)) in
  (s2_round SHA512 st k w, [w1; w2; w3; w4; w5; w6; w7; w8; w9; w10; w11; w12; w13; w14; w15; w]).
Proof. done. Qed.

Definition K512 : list Z := Eval vm_compute in s2_K SHA512.

Lemma s2_K512 : s2_K SHA512 = take 16 K512 ++ drop 16 K512.
Proof. by vm_compute. Qed.

Lemma group512_0 : group_load SHA512 sha512.Transform_0 (take 16 K512).
Proof.
  intros v chunk. cbv zeta.
  assert (words_list (sha512.Transform_0 v chunk).2 = be_words (s2_bytes SHA512) 16 chunk) as Hw
    by (by destruct v). split; [exact Hw |]. clear Hw.
  change (be_words (s2_bytes SHA512) 16 chunk) with
    ((fun i => sha512.ReadBE64 chunk (8 * i)) <$> seq 0 16).
  destruct v as [a b c d e f g h]. unfold K512, sha512.Transform_0.
  cbn [take zip zip_with fmap list_fmap seq foldl vars8_list fst snd]. cbv beta iota zeta.
  cbn [Nat.mul Nat.add].
  do 16 code_round sha512.Round round512. reflexivity.
Qed.

Lemma group512_1 : group_mix SHA512 sha512.Transform_1 (take 16 (drop 16 K512)).
Proof. intros v w. group_lines v w sha512.Transform_1 K512 16 ltac:(code_line sha512.Round round512 step512). Qed.

Lemma group512_2 : group_mix SHA512 sha512.Transform_2 (take 16 (drop 32 K512)).
Proof. intros v w. group_lines v w sha512.Transform_2 K512 16 ltac:(code_line sha512.Round round512 step512). Qed.

Lemma group512_3 : group_mix SHA512 sha512.Transform_3 (take 16 (drop 48 K512)).
Proof. intros v w. group_lines v w sha512.Transform_3 K512 16 ltac:(code_line sha512.Round round512 step512). Qed.

Lemma group512_4 : group_last SHA512 sha512.Transform_4 (drop 64 K512).
Proof. intros v w. group_lines v w sha512.Transform_4 K512 16 ltac:(code_line sha512.Round round512 step512). Qed.

Lemma Transform512_spec s b :
  length s = 8%nat -> sha512.Transform s b = s2_compress SHA512 s b.
Proof.
  intros Hs. rewrite (s2_compress_window SHA512 s b _ _ s2_K512) by done.
  destruct s as [|s0 [|s1 [|s2 [|s3 [|s4 [|s5 [|s6 [|s7 [|]]]]]]]]]; try discriminate Hs.
  unfold sha512.Transform. cbv zeta.
  change (mkVars8 _ _ _ _ _ _ _ _) with (mkVars8 s0 s1 s2 s3 s4 s5 s6 s7).
  destruct (group512_0 (mkVars8 s0 s1 s2 s3 s4 s5 s6 s7) b) as [Hw H0].
  cbn [vars8_list] in H0. rewrite H0, <- Hw. clear H0 Hw.
  destruct (sha512.Transform_0 _ b) as [v1 w1]. cbn [fst snd].
  destruct (sha512.Transform_1 v1 w1) as [v2 w2] eqn:E1.
  pose proof (group512_1 v1 w1) as H1. rewrite E1 in H1. cbn [fst snd] in H1.
  destruct (sha512.Transform_2 v2 w2) as [v3 w3] eqn:E2.
  pose proof (group512_2 v2 w2) as H2. rewrite E2 in H2. cbn [fst snd] in H2.
  destruct (sha512.Transform_3 v3 w3) as [v4 w4] eqn:E3.
  pose proof (group512_3 v3 w3) as H3. rewrite E3 in H3. cbn [fst snd] in H3.
  rewrite <- (take_drop 16 (drop 16 K512)), foldl_app, H1, drop_drop; cbn [Nat.add].
  rewrite <- (take_drop 16 (drop 32 K512)), foldl_app, H2, drop_drop; cbn [Nat.add].
  rewrite <- (take_drop 16 (drop 48 K512)), foldl_app, H3, drop_drop; cbn [Nat.add].
  rewrite group512_4.
  by destruct (sha512.Transform_4 v4 w4).
Qed.

Lemma length_s2_compress512 s b : length s = 8%nat -> length (s2_compress SHA512 s b) = 8%nat.
Proof.
  intros Hs. rewrite <- Transform512_spec by done. unfold sha512.Transform. cbv zeta.
  repeat case_match. done.
Qed.

#[export] Program Instance md_ok512 :
  MdOk 128 16 sha512.Transform 239 sha512.sizedesc sha512.output sha512.Initialize
       (be_bytes 16) (s2_compress SHA512) (s2_H0 SHA512) 64 := {|
  md_wf s := length s = 8%nat;
|}.
Next Obligation. lia. Qed.
Next Obligation. done. Qed.
Next Obligation. intros; by apply Transform512_spec. Qed.
Next Obligation. intros; by apply length_s2_compress512. Qed.
Next Obligation. by vm_compute. Qed.
Next Obligation. by vm_compute. Qed.
Next Obligation. 
  intros x Hx. unfold sha512.sizedesc, be_bytes. cbn [seq fmap list_fmap Nat.add replicate app].
  rewrite !(Z.shiftr_div_pow2 x) by lia.
  repeat f_equal; symmetry; rewrite Z.div_small; [done | lia | done | lia | done | lia | done | lia | done | lia | done | lia | done | lia | done | lia]. Qed.
Next Obligation. intros; split; [apply length_be_bytes | apply be_bytes_fits]. Qed.
Next Obligation. intros; by apply (words_out 8 8). Qed.

(** * SHA-1 and RIPEMD-160: the unrolled transforms compute the published functions *)

#[local] Open Scope Z_scope.

(** The state of the standard after [16 g] steps: the roles of the five variables
    move by one place at each line. *)
Definition vars5_list (g : nat) (v : vars5) : list Z :=
  let '(mkVars5 a b c d e) := v in
  match g with
  | 1%nat => [e; a; b; c; d]
  | 2%nat => [d; e; a; b; c]
  | 3%nat => [c; d; e; a; b]
  | 4%nat => [b; c; d; e; a]
  | _ => [a; b; c; d; e]
  end.

(** ** SHA-1 *)

Definition sha1_mix (win : list Z) : Z :=
  rotl 32 1 (win !!! 0%nat ^^ win !!! 13%nat ^^ win !!! 8%nat ^^ win !!! 2%nat).

Definition sha1_step : list Z * list Z -> nat -> list Z * list Z := win_step sha1_round sha1_mix.

Lemma sha1_next_window W n :
  length W = (16 + n)%nat -> sha1_next W (16 + n) = sha1_mix (drop n W).
Proof.
  intros HW. unfold sha1_next, sha1_mix. rewrite !lookup_total_drop.
  replace (n + 0)%nat with (16 + n - 16)%nat by lia.
  replace (n + 2)%nat with (16 + n - 14)%nat by lia.
  replace (n + 8)%nat with (16 + n - 8)%nat by lia.
  replace (n + 13)%nat with (16 + n - 3)%nat by lia. f_equal.
  rewrite (Z.lxor_comm _ (W !!! (16 + n - 16)%nat)), <- !Z.lxor_assoc. done.
Qed.

Lemma sha1_compress_window h b :
  sha1_compress h b =
  add_words 32 h (foldl sha1_step (foldl (fun st kw => sha1_round st kw.1 kw.2) h
    (zip (seq 0 16) (be_words 4 16 b)), be_words 4 16 b) (seq 16 64)).1.
Proof.
  unfold sha1_step.
  rewrite (win_window _ sha1_next _ sha1_next_window h (seq 0 16) (seq 16 64)) by reflexivity.
  cbn [fst]. change (seq 0 16 ++ seq 16 64) with (seq 0 80). rewrite length_seq. reflexivity.
Qed.

(** One line, by the third of the rounds it is in. *)
Lemma sha1_line t f k a b c d e w b' e' :
  (forall x y z, f x y z = sha1_f t x y z) -> k = sha1_K t ->
  sha1c.Round a b c d e (f b c d) k w = (b', e') ->
  sha1_round [a; b; c; d; e] t w = [e'; a; b'; c; d].
Proof.
  intros Hf -> [= <- <-]. rewrite Hf. unfold sha1_round. f_equal.
  change (rotl 32 5 a) with (u32 (a << 5) .| (a >> 27)).
  apply (f_equal (fun z => z mod 2 ^ 32)). lia.
Qed.

Lemma sha1_f1 b c d : sha1c.f1 b c d = ch b c d.
Proof. apply ch_code. Qed.
Lemma sha1_f3 b c d : sha1c.f3 b c d = maj b c d.
Proof. apply maj_code. Qed.
Lemma sha1_f2 b c d : sha1c.f2 b c d = parity b c d.
Proof. done. Qed.

Lemma sha1_step_code st w0 w1 w2 w3 w4 w5 w6 w7 w8 w9 w10 w11 w12 w13 w14 w15 k :
  sha1_step (st, [w0; w1; w2; w3; w4; w5; w6; w7; w8; w9; w10; w11; w12; w13; w14; w15]) k =
  let w := sha1c.left (w0 ^^ w13 ^^ w8 ^^ w2) in
  (sha1_round st k w, [w1; w2; w3; w4; w5; w6; w7; w8; w9; w10; w11; w12; w13; w14; w15; w]).
Proof. done. Qed.

Ltac sha1_bool := first [exact sha1_f1 | exact sha1_f2 | exact sha1_f3].

Ltac sha1_code_round :=
  match goal with
  | |- context [sha1c.Round ?a ?b ?c ?d ?e ?f ?k ?w] =>
      tryif is_var w then idtac else (generalize w; intros ?)
  end;
  match goal with
  | |- context [sha1c.Round ?a ?b ?c ?d ?e (?f ?x ?y ?z) ?k ?w] =>
      let E := fresh "E" in
      destruct (sha1c.Round a b c d e (f x y z) k w) as [? ?] eqn:E; cbv beta iota;
      match goal with
      | |- context [sha1_round [a; b; c; d; e] ?t w] =>
          rewrite (sha1_line t f k _ _ _ _ _ _ _ _ ltac:(sha1_bool) ltac:(by vm_compute) E)
      end; clear E
  end.

Ltac sha1_code_line := rewrite sha1_step_code; cbv beta zeta; sha1_code_round.

Ltac sha1_group G :=
  intros [a b c d e] [w0 w1 w2 w3 w4 w5 w6 w7 w8 w9 w10 w11 w12 w13 w14 w15];
  unfold G; cbn [seq foldl vars5_list words_list]; cbv beta iota zeta;
  do 16 sha1_code_line; reflexivity.

Lemma sha1_group_0 v chunk :
  let p := sha1c.Transform_0 v chunk in
  words_list p.2 = be_words 4 16 chunk /\
  foldl (fun st kw => sha1_round st kw.1 kw.2) (vars5_list 0 v) (zip (seq 0 16) (be_words 4 16 chunk))
  = vars5_list 1 p.1.
Proof.
  cbv zeta.
  assert (words_list (sha1c.Transform_0 v chunk).2 = be_words 4 16 chunk) as Hw
    by (by destruct v). split; [exact Hw |]. clear Hw.
  change (be_words 4 16 chunk) with ((fun i => sha1c.ReadBE32 chunk (4 * i)) <$> seq 0 16).
  destruct v as [a b c d e]. unfold sha1c.Transform_0.
  cbn [zip zip_with fmap list_fmap seq foldl vars5_list fst snd]. cbv beta iota zeta.
  cbn [Nat.mul Nat.add]. do 16 sha1_code_round. reflexivity.
Qed.

Lemma sha1_group_1 : forall v w, foldl sha1_step (vars5_list 1 v, words_list w) (seq 16 16) =
  (vars5_list 2 (sha1c.Transform_1 v w).1, words_list (sha1c.Transform_1 v w).2).
Proof. sha1_group sha1c.Transform_1. Qed.

Lemma sha1_group_2 : forall v w, foldl sha1_step (vars5_list 2 v, words_list w) (seq 32 16) =
  (vars5_list 3 (sha1c.Transform_2 v w).1, words_list (sha1c.Transform_2 v w).2).
Proof. sha1_group sha1c.Transform_2. Qed.

Lemma sha1_group_3 : forall v w, foldl sha1_step (vars5_list 3 v, words_list w) (seq 48 16) =
  (vars5_list 4 (sha1c.Transform_3 v w).1, words_list (sha1c.Transform_3 v w).2).
Proof. sha1_group sha1c.Transform_3. Qed.

Lemma sha1_group_4 : forall v w,
  (foldl sha1_step (vars5_list 4 v, words_list w) (seq 64 16)).1 = vars5_list 5 (sha1c.Transform_4 v w).
Proof. sha1_group sha1c.Transform_4. Qed.

Lemma Transform_sha1_spec s b :
  length s = 5%nat -> sha1c.Transform s b = sha1_compress s b.
Proof.
  intros Hs. rewrite sha1_compress_window.
  destruct s as [|s0 [|s1 [|s2 [|s3 [|s4 [|]]]]]]; try discriminate Hs.
  unfold sha1c.Transform. cbv zeta.
  change (mkVars5 _ _ _ _ _) with (mkVars5 s0 s1 s2 s3 s4).
  destruct (sha1_group_0 (mkVars5 s0 s1 s2 s3 s4) b) as [Hw H0].
  cbn [vars5_list] in H0. rewrite H0, <- Hw. clear H0 Hw.
  destruct (sha1c.Transform_0 _ b) as [v1 w1]. cbn [fst snd].
  change (seq 16 64) with (seq 16 16 ++ seq 32 16 ++ seq 48 16 ++ seq 64 16).
  rewrite foldl_app, sha1_group_1. destruct (sha1c.Transform_1 v1 w1) as [v2 w2]. cbn [fst snd].
  rewrite foldl_app, sha1_group_2. destruct (sha1c.Transform_2 v2 w2) as [v3 w3]. cbn [fst snd].
  rewrite foldl_app, sha1_group_3. destruct (sha1c.Transform_3 v3 w3) as [v4 w4]. cbn [fst snd].
  rewrite sha1_group_4. by destruct (sha1c.Transform_4 v4 w4).
Qed.

#[export] Program Instance md_ok_sha1 :
  MdOk 64 8 sha1c.Transform 119 sha1c.sizedesc sha1c.output sha1c.Initialize
       (be_bytes 8) sha1_compress sha1_H0 20 := {|
  md_wf s := length s = 5%nat;
|}.
Next Obligation. lia. Qed.
Next Obligation. done. Qed.
Next Obligation. intros; by apply Transform_sha1_spec. Qed.
Next Obligation.
  intros s b Hs _ _. rewrite <- Transform_sha1_spec by done. unfold sha1c.Transform. cbv zeta.
  by repeat case_match.
Qed.
Next Obligation. done. Qed.
Next Obligation. done. Qed.
Next Obligation. done. Qed.
Next Obligation. intros; split; [apply length_be_bytes | apply be_bytes_fits]. Qed.
Next Obligation. intros; by apply (words_out 4 5). Qed.

(** ** RIPEMD-160 *)

Lemma rmd_line f x k r a b c d e a' c' :
  ripemd160.Round a b c d e (f b c d) x k r = (a', c') ->
  rmd_step [a; b; c; d; e] f x k r = [e; a'; b; c'; d].
Proof. by intros [= <- <-]. Qed.

(** Word, rotation pairs of the steps [16 g .. 16 g + 15] of each line. *)
Definition rmd_table (r : nat -> nat) (g : nat) : list (nat * Z) :=
  (fun j => (r j, rmd_s j (r j))) <$> seq (16 * g) 16.

Definition rmd_run (X : list Z) (f : Z -> Z -> Z -> Z) (k : Z) (st : list Z)
    (tab : list (nat * Z)) : list Z :=
  foldl (fun st p => rmd_step st f (X !!! p.1) k p.2) st tab.

Ltac rmd_code_round :=
  match goal with
  | |- context [ripemd160.Round ?a ?b ?c ?d ?e (?f ?x ?y ?z) ?w ?k ?r] =>
      let E := fresh "E" in
      destruct (ripemd160.Round a b c d e (f x y z) w k r) as [? ?] eqn:E; cbv beta iota;
      rewrite (rmd_line f _ _ _ _ _ _ _ _ _ _ E); clear E
  end.

(** Steps of one group share their function and constant. *)
Ltac rmd_group_index j Hj :=
  cbn [seq Nat.mul Nat.add] in Hj;
  repeat (apply elem_of_cons in Hj as [-> | Hj];
    [cbn [fst snd]; f_equal; by vm_compute |]);
  by apply not_elem_of_nil in Hj.

Lemma rmd_left_0 X st :
  foldl (rmd_left X) st (seq 0 16) =
  rmd_run X ripemd160.f1 0 st (rmd_table rmd_r 0).
Proof.
  unfold rmd_run, rmd_table. rewrite foldl_fmap. apply foldl_ext. intros s j Hj. unfold rmd_left.
  rmd_group_index j Hj.
Qed.

Lemma rmd_right_0 X st :
  foldl (rmd_right X) st (seq 0 16) =
  rmd_run X ripemd160.f5 0x50A28BE6 st (rmd_table rmd_r' 0).
Proof.
  unfold rmd_run, rmd_table. rewrite foldl_fmap. apply foldl_ext. intros s j Hj. unfold rmd_right.
  rmd_group_index j Hj.
Qed.

Lemma rmd_left_1 X st :
  foldl (rmd_left X) st (seq 16 16) =
  rmd_run X ripemd160.f2 0x5A827999 st (rmd_table rmd_r 1).
Proof.
  unfold rmd_run, rmd_table. rewrite foldl_fmap. apply foldl_ext. intros s j Hj. unfold rmd_left.
  rmd_group_index j Hj.
Qed.

Lemma rmd_right_1 X st :
  foldl (rmd_right X) st (seq 16 16) =
  rmd_run X ripemd160.f4 0x5C4DD124 st (rmd_table rmd_r' 1).
Proof.
  unfold rmd_run, rmd_table. rewrite foldl_fmap. apply foldl_ext. intros s j Hj. unfold rmd_right.
  rmd_group_index j Hj.
Qed.

Lemma rmd_left_2 X st :
  foldl (rmd_left X) st (seq 32 16) =
  rmd_run X ripemd160.f3 0x6ED9EBA1 st (rmd_table rmd_r 2).
Proof.
  unfold rmd_run, rmd_table. rewrite foldl_fmap. apply foldl_ext. intros s j Hj. unfold rmd_left.
  rmd_group_index j Hj.
Qed.

Lemma rmd_right_2 X st :
  foldl (rmd_right X) st (seq 32 16) =
  rmd_run X ripemd160.f3 0x6D703EF3 st (rmd_table rmd_r' 2).
Proof.
  unfold rmd_run, rmd_table. rewrite foldl_fmap. apply foldl_ext. intros s j Hj. unfold rmd_right.
  rmd_group_index j Hj.
Qed.

Lemma rmd_left_3 X st :
  foldl (rmd_left X) st (seq 48 16) =
  rmd_run X ripemd160.f4 0x8F1BBCDC st (rmd_table rmd_r 3).
Proof.
  unfold rmd_run, rmd_table. rewrite foldl_fmap. apply foldl_ext. intros s j Hj. unfold rmd_left.
  rmd_group_index j Hj.
Qed.

Lemma rmd_right_3 X st :
  foldl (rmd_right X) st (seq 48 16) =
  rmd_run X ripemd160.f2 0x7A6D76E9 st (rmd_table rmd_r' 3).
Proof.
  unfold rmd_run, rmd_table. rewrite foldl_fmap. apply foldl_ext. intros s j Hj. unfold rmd_right.
  rmd_group_index j Hj.
Qed.

Lemma rmd_left_4 X st :
  foldl (rmd_left X) st (seq 64 16) =
  rmd_run X ripemd160.f5 0xA953FD4E st (rmd_table rmd_r 4).
Proof.
  unfold rmd_run, rmd_table. rewrite foldl_fmap. apply foldl_ext. intros s j Hj. unfold rmd_left.
  rmd_group_index j Hj.
Qed.

Lemma rmd_right_4 X st :
  foldl (rmd_right X) st (seq 64 16) =
  rmd_run X ripemd160.f1 0 st (rmd_table rmd_r' 4).
Proof.
  unfold rmd_run, rmd_table. rewrite foldl_fmap. apply foldl_ext. intros s j Hj. unfold rmd_right.
  rmd_group_index j Hj.
Qed.

Definition rmd_group_ok (G : vars5 -> vars5 -> words16 -> vars5 * vars5) (g : nat)
    (f : Z -> Z -> Z -> Z) (k : Z) (f' : Z -> Z -> Z -> Z) (k' : Z) : Prop :=
  forall v1 v2 w, let p := G v1 v2 w in
  rmd_run (words_list w) f k (vars5_list g v1) (rmd_table rmd_r g) = vars5_list (S g) p.1 /\
  rmd_run (words_list w) f' k' (vars5_list g v2) (rmd_table rmd_r' g) = vars5_list (S g) p.2.

Ltac rmd_group G R R' :=
  intros [a1 b1 c1 d1 e1] [a2 b2 c2 d2 e2]
    [w0 w1 w2 w3 w4 w5 w6 w7 w8 w9 w10 w11 w12 w13 w14 w15];
  match goal with |- context [rmd_table rmd_r ?g] =>
    let t := eval vm_compute in (rmd_table rmd_r g) in change (rmd_table rmd_r g) with t end;
  match goal with |- context [rmd_table rmd_r' ?g] =>
    let t := eval vm_compute in (rmd_table rmd_r' g) in change (rmd_table rmd_r' g) with t end;
  unfold G, R, R', rmd_run;
  cbn [foldl vars5_list words_list lookup_total list_lookup_total fst snd]; cbv beta iota zeta;
  do 32 rmd_code_round; split; reflexivity.

Lemma rmd_group_0 : rmd_group_ok ripemd160.Transform_0 0 ripemd160.f1 0 ripemd160.f5 0x50A28BE6.
Proof. rmd_group ripemd160.Transform_0 ripemd160.R11 ripemd160.R12. Qed.

Lemma rmd_group_1 : rmd_group_ok ripemd160.Transform_1 1 ripemd160.f2 0x5A827999 ripemd160.f4 0x5C4DD124.
Proof. rmd_group ripemd160.Transform_1 ripemd160.R21 ripemd160.R22. Qed.

Lemma rmd_group_2 : rmd_group_ok ripemd160.Transform_2 2 ripemd160.f3 0x6ED9EBA1 ripemd160.f3 0x6D703EF3.
Proof. rmd_group ripemd160.Transform_2 ripemd160.R31 ripemd160.R32. Qed.

Lemma rmd_group_3 : rmd_group_ok ripemd160.Transform_3 3 ripemd160.f4 0x8F1BBCDC ripemd160.f2 0x7A6D76E9.
Proof. rmd_group ripemd160.Transform_3 ripemd160.R41 ripemd160.R42. Qed.

Lemma rmd_group_4 : rmd_group_ok ripemd160.Transform_4 4 ripemd160.f5 0xA953FD4E ripemd160.f1 0.
Proof. rmd_group ripemd160.Transform_4 ripemd160.R51 ripemd160.R52. Qed.

Lemma Transform_rmd_spec s b :
  length s = 5%nat -> ripemd160.Transform s b = rmd_compress s b.
Proof.
  intros Hs. destruct s as [|s0 [|s1 [|s2 [|s3 [|s4 [|]]]]]]; try discriminate Hs.
  unfold ripemd160.Transform, rmd_compress. cbv zeta.
  change (mkVars5 _ _ _ _ _) with (mkVars5 s0 s1 s2 s3 s4). set (v := mkVars5 _ _ _ _ _).
  set (w := mkWords _ _ _ _ _ _ _ _ _ _ _ _ _ _ _ _).
  change ((fun i => le_value (octets (4 * i) 4 b)) <$> seq 0 16) with (words_list w).
  change (seq 0 80) with (seq 0 16 ++ seq 16 16 ++ seq 32 16 ++ seq 48 16 ++ seq 64 16).
  rewrite !foldl_app, rmd_left_0, rmd_left_1, rmd_left_2, rmd_left_3, rmd_left_4,
    rmd_right_0, rmd_right_1, rmd_right_2, rmd_right_3, rmd_right_4.
  destruct (rmd_group_0 v v w) as [E1 E2].
  change (vars5_list 0 v) with [s0; s1; s2; s3; s4] in E1, E2. rewrite E1, E2. clear E1 E2.
  destruct (ripemd160.Transform_0 v v w) as [v1 v1'].
  cbn [fst snd].
  destruct (rmd_group_1 v1 v1' w) as [-> ->]. destruct (ripemd160.Transform_1 v1 v1' w) as [v2 v2'].
  cbn [fst snd].
  destruct (rmd_group_2 v2 v2' w) as [-> ->]. destruct (ripemd160.Transform_2 v2 v2' w) as [v3 v3'].
  cbn [fst snd].
  destruct (rmd_group_3 v3 v3' w) as [-> ->]. destruct (ripemd160.Transform_3 v3 v3' w) as [v4 v4'].
  cbn [fst snd].
  destruct (rmd_group_4 v4 v4' w) as [-> ->]. destruct (ripemd160.Transform_4 v4 v4' w) as [[] []].
  done.
Qed.

Lemma le_words_out n (s : list Z) :
  length s = n ->
  length (concat (le_bytes 4 <$> s)) = (n * 4)%nat /\ Forall (fits 8) (concat (le_bytes 4 <$> s)).
Proof.
  intros <-. induction s as [|x s [IH1 IH2]]; [by simpl | ]. cbn [fmap list_fmap concat length].
  rewrite length_app, length_le_bytes, IH1. split; [lia |].
  apply Forall_app_2; [apply le_bytes_fits | done].
Qed.

#[export] Program Instance md_ok_rmd :
  MdOk 64 8 ripemd160.Transform 119 ripemd160.sizedesc ripemd160.output ripemd160.Initialize
       (le_bytes 8) rmd_compress sha1_H0 20 := {|
  md_wf s := length s = 5%nat;
|}.
Next Obligation. lia. Qed.
Next Obligation. done. Qed.
Next Obligation. intros; by apply Transform_rmd_spec. Qed.
Next Obligation.
  intros s b Hs _ _. rewrite <- Transform_rmd_spec by done. unfold ripemd160.Transform. cbv zeta.
  by repeat case_match.
Qed.
Next Obligation. done. Qed.
Next Obligation. done. Qed.
Next Obligation. done. Qed.
Next Obligation. intros; split; [apply length_le_bytes | apply le_bytes_fits]. Qed.
Next Obligation. intros; by apply (le_words_out 5). Qed.
