(* ===== verification/Hash.v ===== *)
(** * hash.h, hash.cpp, crypto/hmac_sha256.cpp and hmac_sha512.cpp

    The clients of the hashers: [CHash256], [CHash160], [CHash512], the [Hash]
    functions and HMAC are written against the [StreamHash] interface and
    instantiated with the classes of crypto/.  Below them MurmurHash3, SipHash and
    BIP32Hash.  The buffer of a freshly constructed hasher is indeterminate: the
    argument [g] stands for its octets.  The second part proves them correct. *)

From S2P Require Import Prelude MdHash ShaSpec Sha256 Sha512 Sha1 Ripemd160 ShaProofs.
#[local] Open Scope Z_scope.

Definition CSHA256 : StreamHash := {|
  sh_ctx := md; sh_new := sha256.new; sh_write := sha256.Write; sh_finalize := sha256.Finalize;
  sh_reset := sha256.Reset; sh_bufsize := 64; sh_size := 32;
|}.

Definition CSHA512 : StreamHash := {|
  sh_ctx := md; sh_new := sha512.new; sh_write := sha512.Write; sh_finalize := sha512.Finalize;
  sh_reset := sha512.Reset; sh_bufsize := 128; sh_size := 64;
|}.

Definition CSHA1 : StreamHash := {|
  sh_ctx := md; sh_new := sha1c.new; sh_write := sha1c.Write; sh_finalize := sha1c.Finalize;
  sh_reset := sha1c.Reset; sh_bufsize := 64; sh_size := 20;
|}.

Definition CRIPEMD160 : StreamHash := {|
  sh_ctx := md; sh_new := ripemd160.new; sh_write := ripemd160.Write;
  sh_finalize := ripemd160.Finalize; sh_reset := ripemd160.Reset; sh_bufsize := 64; sh_size := 20;
|}.

(** ** Hashing twice *)

(** [sha.Finalize(buf); sha.Reset().Write(buf, OUTPUT_SIZE).Finalize(hash);] *)
Definition twice_finalize (H : StreamHash) (sha : sh_ctx) : option (list Z * sh_ctx) :=
  '(buf, sha) ← sh_finalize sha;
  sha ← sh_write (sh_reset sha) buf;
  sh_finalize sha.

(** [CHash256] and [CHash512] wrap one hasher; [Write] and [Reset] are its own. *)
Definition CHash256 : StreamHash := {|
  sh_ctx := @sh_ctx CSHA256; sh_new := @sh_new CSHA256; sh_write := @sh_write CSHA256;
  sh_finalize := twice_finalize CSHA256; sh_reset := @sh_reset CSHA256;
  sh_bufsize := 64; sh_size := 32;
|}.

Definition CHash512 : StreamHash := {|
  sh_ctx := @sh_ctx CSHA512; sh_new := @sh_new CSHA512; sh_write := @sh_write CSHA512;
  sh_finalize := twice_finalize CSHA512; sh_reset := @sh_reset CSHA512;
  sh_bufsize := 128; sh_size := 64;
|}.

(** [CHash160::Finalize]: a new [CRIPEMD160], buffer [g], hashes the SHA-256 digest. *)
Definition CHash160_Finalize (g : list Z) (sha : md) : option (list Z * md) :=
  '(buf, sha) ← sha256.Finalize sha;
  r ← ripemd160.Write (ripemd160.new g) buf;
  '(hash, _) ← ripemd160.Finalize r;
  Some (hash, sha).

Definition CHash160 (g : list Z) : StreamHash := {|
  sh_ctx := md; sh_new := sha256.new; sh_write := sha256.Write;
  sh_finalize := CHash160_Finalize g; sh_reset := sha256.Reset; sh_bufsize := 64; sh_size := 20;
|}.

(** [Hash(b1, e1, ..)]: one, two or three ranges. *)
Definition Hash (g : list Z) (ranges : list (list Z)) : option (list Z) :=
  @sh_run CHash256 g ranges.

Definition Hash160 (g g' : list Z) (range : list Z) : option (list Z) :=
  @sh_run (CHash160 g') g [range].

Definition Hash512 (g : list Z) (ranges : list (list Z)) : option (list Z) :=
  @sh_run CHash512 g ranges.

(** ** HMAC *)

Record hmac (H : StreamHash) := mkHmac { hm_outer : sh_ctx; hm_inner : sh_ctx }.
Arguments mkHmac {H}.
Arguments hm_outer {H}.
Arguments hm_inner {H}.

Section Hmac.
Context (H : StreamHash) (B : nat).

(** The key, hashed when it is longer than a block, padded with zeros. *)
Definition hmac_rkey (g key : list Z) : option (list Z) :=
  if decide (length key <= B)%nat then Some (key ++ replicate (B - length key) 0)
  else
    c ← sh_write (sh_new g) key;
    '(d, _) ← sh_finalize c;
    Some (d ++ replicate (B - sh_size) 0).

Definition CHMAC_new (g key : list Z) : option (hmac H) :=
  rkey ← hmac_rkey g key;
  let rkey := (fun b => Z.lxor b 0x5c) <$> rkey in
  outer ← sh_write (sh_new g) rkey;
  let rkey := (fun b => Z.lxor b (Z.lxor 0x5c 0x36)) <$> rkey in
  inner ← sh_write (sh_new g) rkey;
  Some (mkHmac outer inner).

Definition CHMAC_Write (c : hmac H) (data : list Z) : option (hmac H) :=
  inner ← sh_write (hm_inner c) data;
  Some (mkHmac (hm_outer c) inner).

Definition CHMAC_Finalize (c : hmac H) : option (list Z) :=
  '(temp, _) ← sh_finalize (hm_inner c);
  outer ← sh_write (hm_outer c) temp;
  fst <$> sh_finalize outer.

(** Construct, write the chunks, finalize. *)
Definition CHMAC_run (g key : list Z) (chunks : list (list Z)) : option (list Z) :=
  c ← CHMAC_new g key;
  c ← foldl (fun o d => c ← o; CHMAC_Write c d) (Some c) chunks;
  CHMAC_Finalize c.

End Hmac.

Definition CHMAC_SHA256 : list Z -> list Z -> list (list Z) -> option (list Z) :=
  CHMAC_run CSHA256 64.
Definition CHMAC_SHA512 : list Z -> list Z -> list (list Z) -> option (list Z) :=
  CHMAC_run CSHA512 128.

Definition BIP32Hash (g chainCode : list Z) (nChild header : Z) (data : list Z)
    : option (list Z) :=
  let num := [(nChild >> 24) & 0xFF; (nChild >> 16) & 0xFF; (nChild >> 8) & 0xFF;
              (nChild >> 0) & 0xFF] in
  CHMAC_SHA512 g chainCode [[header]; data; num].

(** ** MurmurHash3 *)

Definition ROTL32 (x r : Z) : Z := u32 (x << r) .| (x >> (32 - r)).

Definition murmur_k (k1 : Z) : Z :=
  let k1 := u32 (k1 * 0xcc9e2d51) in
  let k1 := ROTL32 k1 15 in
  u32 (k1 * 0x1b873593).

(** The body: [nblocks] little-endian words. *)
Fixpoint murmur_body (n : nat) (h1 : Z) (data : list Z) : Z * list Z :=
  match n with
  | O => (h1, data)
  | S n =>
      let h1 := h1 ^^ murmur_k (le_value (take 4 data)) in
      let h1 := ROTL32 h1 13 in
      murmur_body n (u32 (h1 * 5 + 0xe6546b64)) (drop 4 data)
  end.

(** The tail: the [switch] falls through from three octets to one. *)
Definition murmur_tail (h1 : Z) (tail : list Z) : Z :=
  match tail with
  | [] => h1
  | [a] => h1 ^^ murmur_k (0 ^^ a)
  | [a; b] => h1 ^^ murmur_k (0 ^^ (b << 8) ^^ a)
  | a :: b :: c :: _ => h1 ^^ murmur_k (0 ^^ (c << 16) ^^ (b << 8) ^^ a)
  end.

Definition MurmurHash3 (nHashSeed : Z) (vDataToHash : list Z) : Z :=
  let h1 := nHashSeed in
  let h1 := if decide (vDataToHash = []) then h1 else
    let '(h1, tail) := murmur_body (length vDataToHash / 4) h1 vDataToHash in
    murmur_tail h1 tail in
  let h1 := u32 (h1 ^^ Z.of_nat (length vDataToHash)) in
  let h1 := h1 ^^ (h1 >> 16) in
  let h1 := u32 (h1 * 0x85ebca6b) in
  let h1 := h1 ^^ (h1 >> 13) in
  let h1 := u32 (h1 * 0xc2b2ae35) in
  h1 ^^ (h1 >> 16).

(** ** SipHash-2-4 *)

Definition ROTL (x b : Z) : Z := u64 (x << b) .| (x >> (64 - b)).

Record sipv := mkSipv { sv0 : Z; sv1 : Z; sv2 : Z; sv3 : Z }.

Definition SIPROUND (v : sipv) : sipv :=
  let '(mkSipv v0 v1 v2 v3) := v in
  let v0 := u64 (v0 + v1) in let v1 := ROTL v1 13 in let v1 := v1 ^^ v0 in
  let v0 := ROTL v0 32 in
  let v2 := u64 (v2 + v3) in let v3 := ROTL v3 16 in let v3 := v3 ^^ v2 in
  let v0 := u64 (v0 + v3) in let v3 := ROTL v3 21 in let v3 := v3 ^^ v0 in
  let v2 := u64 (v2 + v1) in let v1 := ROTL v1 17 in let v1 := v1 ^^ v2 in
  let v2 := ROTL v2 32 in
  mkSipv v0 v1 v2 v3.

Definition xor0 (v : sipv) (d : Z) : sipv := mkSipv (sv0 v ^^ d) (sv1 v) (sv2 v) (sv3 v).
Definition xor2 (v : sipv) (d : Z) : sipv := mkSipv (sv0 v) (sv1 v) (sv2 v ^^ d) (sv3 v).
Definition xor3 (v : sipv) (d : Z) : sipv := mkSipv (sv0 v) (sv1 v) (sv2 v) (sv3 v ^^ d).

(** [v3 ^= d; SIPROUND; SIPROUND; v0 ^= d;] *)
Definition sip_absorb (v : sipv) (d : Z) : sipv :=
  xor0 (SIPROUND (SIPROUND (xor3 v d))) d.

(** The last four rounds. *)
Definition sip_end (v : sipv) : Z :=
  let v := SIPROUND (SIPROUND (SIPROUND (SIPROUND (xor2 v 0xFF)))) in
  sv0 v ^^ sv1 v ^^ sv2 v ^^ sv3 v.

Record CSipHasher := mkSip { sip_v : sipv; sip_tmp : Z; sip_count : Z }.

Definition sip_init (k0 k1 : Z) : sipv :=
  mkSipv (0x736f6d6570736575 ^^ k0) (0x646f72616e646f6d ^^ k1)
         (0x6c7967656e657261 ^^ k0) (0x7465646279746573 ^^ k1).

Definition CSipHasher_new (k0 k1 : Z) : CSipHasher := mkSip (sip_init k0 k1) 0 0.

(** [Write(uint64_t)]: the assertion fails off an 8-octet boundary. *)
Definition CSipHasher_Write64 (c : CSipHasher) (data : Z) : option CSipHasher :=
  if sip_count c mod 8 =? 0 then
    Some (mkSip (sip_absorb (sip_v c) data) (sip_tmp c) (sip_count c + 8))
  else None.

(** One octet of [Write(data, size)]. *)
Definition sip_octet (c : CSipHasher) (b : Z) : CSipHasher :=
  let t := sip_tmp c .| (b << (8 * (sip_count c mod 8))) in
  let n := sip_count c + 1 in
  if (n & 7) =? 0 then mkSip (sip_absorb (sip_v c) t) 0 n else mkSip (sip_v c) t n.

Definition CSipHasher_Write (c : CSipHasher) (data : list Z) : CSipHasher :=
  foldl sip_octet c data.

Definition CSipHasher_Finalize (c : CSipHasher) : Z :=
  let t := sip_tmp c .| u64 (sip_count c << 56) in
  sip_end (sip_absorb (sip_v c) t).

(** [uint256::GetUint64(pos)]. *)
Definition GetUint64 (val : list Z) (pos : nat) : Z :=
  let ptr i := val !!! (8 * pos + i)%nat in
  ptr 0%nat .| (ptr 1%nat << 8) .| (ptr 2%nat << 16) .| (ptr 3%nat << 24) .|
  (ptr 4%nat << 32) .| (ptr 5%nat << 40) .| (ptr 6%nat << 48) .| (ptr 7%nat << 56).

Definition SipHashUint256 (k0 k1 : Z) (val : list Z) : Z :=
  let d := GetUint64 val 0 in
  let v := mkSipv (0x736f6d6570736575 ^^ k0) (0x646f72616e646f6d ^^ k1)
                  (0x6c7967656e657261 ^^ k0) (0x7465646279746573 ^^ k1 ^^ d) in
  let v := SIPROUND v in
  let v := SIPROUND v in
  let v := xor0 v d in
  let d := GetUint64 val 1 in
  let v := xor3 v d in
  let v := SIPROUND v in
  let v := SIPROUND v in
  let v := xor0 v d in
  let d := GetUint64 val 2 in
  let v := xor3 v d in
  let v := SIPROUND v in
  let v := SIPROUND v in
  let v := xor0 v d in
  let d := GetUint64 val 3 in
  let v := xor3 v d in
  let v := SIPROUND v in
  let v := SIPROUND v in
  let v := xor0 v d in
  let v := xor3 v (u64 (4 << 59)) in
  let v := SIPROUND v in
  let v := SIPROUND v in
  let v := xor0 v (u64 (4 << 59)) in
  let v := xor2 v 0xFF in
  let v := SIPROUND v in
  let v := SIPROUND v in
  let v := SIPROUND v in
  let v := SIPROUND v in
  sv0 v ^^ sv1 v ^^ sv2 v ^^ sv3 v.

(** * Hashing: the hashers and their clients compute the standard functions

    Instances of the stream interface for the classes of crypto/ and hash.h, HMAC
    proved against the interface (RFC 2104), and the two SipHash implementations. *)

#[local] Open Scope Z_scope.

(** ** Instances *)

#[export] Instance CSHA256_ok : StreamHashOk CSHA256 sha256 := md_stream_ok (OK := md_ok256).
#[export] Instance CSHA512_ok : StreamHashOk CSHA512 sha512 := md_stream_ok (OK := md_ok512).
#[export] Instance CSHA1_ok : StreamHashOk CSHA1 sha1 := md_stream_ok (OK := md_ok_sha1).
#[export] Instance CRIPEMD160_ok : StreamHashOk CRIPEMD160 ripemd160_spec :=
  md_stream_ok (OK := md_ok_rmd).

Section Twice.
Context {H : StreamHash} {digest : list Z -> list Z} `{OK : !StreamHashOk H digest}.
Context (small : Z.of_nat sh_size < 2 ^ 61).

Lemma twice_finalize_ok c m :
  sh_holds c m -> Forall (fits 8) m -> Z.of_nat (length m) < 2 ^ 61 ->
  exists c', twice_finalize H c = Some (digest (digest m), c') /\ sh_used c'.
Proof using OK small.
  intros Hc Hb Hm. unfold twice_finalize.
  destruct (sh_finalize_ok c m Hc Hm) as (c1 & -> & H1). rewrite obind_Some. cbv beta iota.
  destruct (sh_digest_wf m Hb) as [Hl Hf].
  destruct (sh_write_ok (sh_reset c1) [] (digest m)) as (c2 & -> & H2);
    [by apply sh_reset_ok | done | cbn [length Nat.add]; lia |].
  rewrite obind_Some. apply sh_finalize_ok; [done |]. cbn [app]. lia.
Qed.

End Twice.

(** The octets taken in are octets. *)
#[local] Obligation Tactic := idtac.

Definition dsha256 (m : list Z) : list Z := sha256 (sha256 m).
Definition dsha512 (m : list Z) : list Z := sha512 (sha512 m).
Definition hash160 (m : list Z) : list Z := ripemd160_spec (sha256 m).

#[export] Program Instance CHash256_ok : StreamHashOk CHash256 dsha256 := {|
  sh_holds c m := @sh_holds _ _ CSHA256_ok c m /\ Forall (fits 8) m;
  sh_used := @sh_used _ _ CSHA256_ok;
|}.
Next Obligation. intros g Hg. split; [by apply (sh_new_ok (H := CSHA256)) | done]. Qed.
Next Obligation. intros c Hc. split; [by apply (sh_reset_ok (H := CSHA256)) | done]. Qed.
Next Obligation.
  intros c m d [Hc Hm] Hd Hlen.
  destruct (sh_write_ok (H := CSHA256) c m d Hc Hd Hlen) as (c' & E & H').
  exists c'. split; [done |]. split; [done | by apply Forall_app_2].
Qed.
Next Obligation.
  intros c m [Hc Hm] Hlen. by apply (twice_finalize_ok (H := CSHA256)).
Qed.
Next Obligation.
  intros m Hm. apply (sh_digest_wf (H := CSHA256) (digest := sha256) (sha256 m)).
  by apply (sh_digest_wf (H := CSHA256) (digest := sha256)).
Qed.

#[export] Program Instance CHash512_ok : StreamHashOk CHash512 dsha512 := {|
  sh_holds c m := @sh_holds _ _ CSHA512_ok c m /\ Forall (fits 8) m;
  sh_used := @sh_used _ _ CSHA512_ok;
|}.
Next Obligation. intros g Hg. split; [by apply (sh_new_ok (H := CSHA512)) | done]. Qed.
Next Obligation. intros c Hc. split; [by apply (sh_reset_ok (H := CSHA512)) | done]. Qed.
Next Obligation.
  intros c m d [Hc Hm] Hd Hlen.
  destruct (sh_write_ok (H := CSHA512) c m d Hc Hd Hlen) as (c' & E & H').
  exists c'. split; [done |]. split; [done | by apply Forall_app_2].
Qed.
Next Obligation.
  intros c m [Hc Hm] Hlen. by apply (twice_finalize_ok (H := CSHA512)).
Qed.
Next Obligation.
  intros m Hm. apply (sh_digest_wf (H := CSHA512) (digest := sha512) (sha512 m)).
  by apply (sh_digest_wf (H := CSHA512) (digest := sha512)).
Qed.

Lemma CHash160_Finalize_ok g c m :
  length g = 64%nat -> sh_holds (H := CSHA256) c m -> Forall (fits 8) m ->
  Z.of_nat (length m) < 2 ^ 61 ->
  exists c', CHash160_Finalize g c = Some (hash160 m, c') /\ sh_used (H := CSHA256) c'.
Proof.
  intros Hg Hc Hb Hm. unfold CHash160_Finalize.
  destruct (sh_finalize_ok (H := CSHA256) c m Hc Hm) as (c1 & E1 & H1). cbn in E1.
  rewrite E1, obind_Some. cbv beta iota.
  destruct (sh_digest_wf (H := CSHA256) m Hb) as [Hl Hf]. cbn [sh_size CSHA256] in Hl.
  destruct (sh_write_ok (H := CRIPEMD160) (ripemd160.new g) [] (sha256 m)) as (c2 & E2 & H2);
    [by apply (sh_new_ok (H := CRIPEMD160)) | done | rewrite Hl; cbn [length]; lia |].
  cbn in E2. rewrite E2, obind_Some.
  destruct (sh_finalize_ok (H := CRIPEMD160) c2 _ H2) as (c3 & E3 & _);
    [cbn [app]; rewrite Hl; lia |].
  cbn in E3. rewrite E3, obind_Some. by exists c1.
Qed.

#[export] Program Instance CHash160_ok g (Hg : length g = 64%nat) :
  StreamHashOk (CHash160 g) hash160 := {|
  sh_holds c m := @sh_holds _ _ CSHA256_ok c m /\ Forall (fits 8) m;
  sh_used := @sh_used _ _ CSHA256_ok;
|}.
Next Obligation. intros g Hg g' Hg'. split; [by apply (sh_new_ok (H := CSHA256)) | done]. Qed.
Next Obligation. intros g Hg c Hc. split; [by apply (sh_reset_ok (H := CSHA256)) | done]. Qed.
Next Obligation.
  intros g Hg c m d [Hc Hm] Hd Hlen.
  destruct (sh_write_ok (H := CSHA256) c m d Hc Hd Hlen) as (c' & E & H').
  exists c'. split; [done |]. split; [done | by apply Forall_app_2].
Qed.
Next Obligation. intros g Hg c m [Hc Hm] Hlen. by apply CHash160_Finalize_ok. Qed.
Next Obligation.
  intros g Hg m Hm. apply (sh_digest_wf (H := CRIPEMD160) (digest := ripemd160_spec) (sha256 m)).
  by apply (sh_digest_wf (H := CSHA256) (digest := sha256)).
Qed.

(** ** HMAC (RFC 2104) *)

Section Hmac.
Context {H : StreamHash} {digest : list Z -> list Z} `{OK : !StreamHashOk H digest}.
Context (B : nat).

Definition hmac_key (key : list Z) : list Z :=
  let k := if decide (length key <= B)%nat then key else digest key in
  k ++ replicate (B - length k) 0.

Definition hmac_spec (key m : list Z) : list Z :=
  let K := hmac_key key in
  digest ((Z.lxor 0x5c <$> K) ++ digest ((Z.lxor 0x36 <$> K) ++ m)).

Context (HB : (sh_size <= B <= 1024)%nat).

Lemma hmac_key_wf key :
  Forall (fits 8) key -> length (hmac_key key) = B /\ Forall (fits 8) (hmac_key key).
Proof using OK HB.
  intros Hk. unfold hmac_key. cbv zeta. destruct (sh_digest_wf key Hk) as [Hl Hd].
  destruct (decide _).
  - rewrite length_app, length_replicate. split; [lia |].
    apply Forall_app_2; [done | apply Forall_replicate; by unfold fits].
  - rewrite length_app, length_replicate. split; [lia |].
    apply Forall_app_2; [done | apply Forall_replicate; by unfold fits].
Qed.

Lemma hmac_rkey_ok g key :
  length g = sh_bufsize -> Forall (fits 8) key -> Z.of_nat (length key) < 2 ^ 61 ->
  hmac_rkey H B g key = Some (hmac_key key).
Proof using OK.
  intros Hg Hk Hlen. unfold hmac_rkey, hmac_key. destruct (decide _); [done |].
  destruct (sh_write_ok (sh_new g) [] key) as (c & -> & H1);
    [by apply sh_new_ok | done | done |]. rewrite obind_Some.
  destruct (sh_finalize_ok c _ H1 Hlen) as (c' & -> & _). rewrite obind_Some. cbv beta iota.
  destruct (sh_digest_wf key Hk) as [Hl _]. cbv zeta. cbn [app]. by rewrite Hl.
Qed.

Lemma xor_pad_fits p (K : list Z) :
  fits 8 p -> Forall (fits 8) K -> Forall (fits 8) (Z.lxor p <$> K).
Proof.
  intros Hp HK. induction HK as [|b K Hb HK IH]; [apply Forall_nil_2 |].
  apply Forall_cons_2; [by apply lxor_fits | exact IH].
Qed.

(** The context after construction. *)
Lemma CHMAC_new_ok g key :
  length g = sh_bufsize -> Forall (fits 8) key -> Z.of_nat (length key) < 2 ^ 61 ->
  exists c, CHMAC_new H B g key = Some c /\
    sh_holds (hm_outer c) (Z.lxor 0x5c <$> hmac_key key) /\
    sh_holds (hm_inner c) (Z.lxor 0x36 <$> hmac_key key).
Proof using OK HB.
  intros Hg Hk Hlen. unfold CHMAC_new. rewrite hmac_rkey_ok by done. rewrite obind_Some.
  cbv zeta. destruct (hmac_key_wf key Hk) as [Hl Hf]. set (K := hmac_key key) in *.
  assert ((fun b => Z.lxor b 0x5c) <$> K = Z.lxor 0x5c <$> K) as E1
    by (apply list_fmap_ext; intros; apply Z.lxor_comm).
  assert ((fun b => Z.lxor b (Z.lxor 0x5c 0x36)) <$> (Z.lxor 0x5c <$> K) = Z.lxor 0x36 <$> K)
    as E2.
  { rewrite <- list_fmap_compose. apply list_fmap_ext. intros i b _. unfold compose.
    rewrite (Z.lxor_comm 0x5c b), Z.lxor_assoc. apply Z.lxor_comm. }
  rewrite E1, E2.
  destruct (sh_write_ok (sh_new g) [] (Z.lxor 0x5c <$> K)) as (o & -> & Ho);
    [by apply sh_new_ok | by apply xor_pad_fits | rewrite length_fmap; simpl; lia |].
  rewrite obind_Some.
  destruct (sh_write_ok (sh_new g) [] (Z.lxor 0x36 <$> K)) as (i & -> & Hi);
    [by apply sh_new_ok | by apply xor_pad_fits | rewrite length_fmap; simpl; lia |].
  rewrite obind_Some. by exists (mkHmac o i).
Qed.

Lemma CHMAC_run_ok g key chunks :
  length g = sh_bufsize -> Forall (fits 8) key -> Forall (fits 8) (concat chunks) ->
  Z.of_nat (length key) < 2 ^ 61 -> Z.of_nat (B + length (concat chunks)) < 2 ^ 61 ->
  CHMAC_run H B g key chunks = Some (hmac_spec key (concat chunks)).
Proof using OK HB.
  intros Hg Hk Hm Hkl Hml. unfold CHMAC_run.
  destruct (CHMAC_new_ok g key) as (c & -> & Ho & Hi); [done.. |]. rewrite obind_Some.
  destruct (hmac_key_wf key Hk) as [Hl Hf]. set (K := hmac_key key) in *.
  assert (Hgen : forall c m, sh_holds (hm_inner c) m -> Forall (fits 8) m ->
    Z.of_nat (length (m ++ concat chunks)) < 2 ^ 61 ->
    exists c', foldl (fun o d => c ← o; CHMAC_Write H c d) (Some c) chunks = Some c' /\
      hm_outer c' = hm_outer c /\ sh_holds (hm_inner c') (m ++ concat chunks)).
  { clear -OK Hm. induction chunks as [|d ds IH]; intros c m Hc Hmf Hlen.
    - exists c. cbn [concat]. by rewrite app_nil_r.
    - cbn [concat] in *. apply Forall_app in Hm as [Hd Hds]. rewrite !length_app in Hlen.
      destruct (sh_write_ok (hm_inner c) m d) as (c1 & E1 & H1); [done | done | lia |].
      cbn [foldl]. rewrite obind_Some. unfold CHMAC_Write at 2. rewrite E1, obind_Some, app_assoc.
      destruct (IH Hds (mkHmac (hm_outer c) c1) (m ++ d)) as (c' & -> & Eo & H');
        [done | by apply Forall_app_2 | rewrite !length_app; lia |]. by exists c'. }
  destruct (Hgen c _ Hi) as (c' & -> & Eo & Hi');
    [by apply xor_pad_fits | rewrite length_app, length_fmap, Hl; lia |].
  rewrite obind_Some. unfold CHMAC_Finalize.
  assert (Forall (fits 8) ((Z.lxor 0x36 <$> K) ++ concat chunks)) as Hf'
    by (apply Forall_app_2; [by apply xor_pad_fits | done]).
  destruct (sh_finalize_ok _ _ Hi') as (c2 & -> & _);
    [rewrite length_app, length_fmap, Hl; lia |]. rewrite obind_Some. cbv beta iota.
  destruct (sh_digest_wf _ Hf') as [Hdl Hdf]. rewrite Eo.
  destruct (sh_write_ok _ _ _ Ho Hdf) as (c3 & -> & H3); [rewrite length_fmap; lia |].
  rewrite obind_Some. destruct (sh_finalize_ok _ _ H3) as (c4 & -> & _);
    [rewrite length_app, length_fmap; lia |]. done.
Qed.

End Hmac.

Arguments hmac_spec {_} B key m : rename.
Arguments hmac_key digest B key : rename.

(** ** The classes of crypto/ *)

(** C35. However a message is split into [Write] calls and whatever the buffer of a new
    hasher contains, [CSHA256] and [CSHA512] never leave their buffers and return the
    FIPS 180-4 digest of the whole message (below 2^61 octets). *)
Theorem csha2_stream_correct g g' chunks :
  length g = 64%nat -> length g' = 128%nat -> Forall (fits 8) (concat chunks) ->
  Z.of_nat (length (concat chunks)) < 2 ^ 61 ->
  @sh_run CSHA256 g chunks = Some (sha256 (concat chunks)) /\
  @sh_run CSHA512 g' chunks = Some (sha512 (concat chunks)).
Proof. intros. split; by apply sh_run_ok. Qed.

Lemma csha2_stream_correct_witness :
  @sh_run CSHA256 (replicate 64 7) [[97]; [98; 99]] = Some (sha256 [97; 98; 99]) /\
  @sh_run CSHA512 (replicate 128 7) [[97]; [98; 99]] = Some (sha512 [97; 98; 99]).
Proof.
  apply (csha2_stream_correct (replicate 64 7) (replicate 128 7) [[97]; [98; 99]]);
    [done | done | cbn [concat app]; forall_build ltac:(by unfold fits) | done].
Defined.

(** The same for [CRIPEMD160] and [CSHA1]: RIPEMD-160 and SHA-1 as published. *)
Theorem cripemd160_csha1_stream_correct g chunks :
  length g = 64%nat -> Forall (fits 8) (concat chunks) ->
  Z.of_nat (length (concat chunks)) < 2 ^ 61 ->
  @sh_run CRIPEMD160 g chunks = Some (ripemd160_spec (concat chunks)) /\
  @sh_run CSHA1 g chunks = Some (sha1 (concat chunks)).
Proof. intros. split; by apply sh_run_ok. Qed.

Lemma cripemd160_csha1_stream_correct_witness :
  @sh_run CRIPEMD160 (replicate 64 7) [[97]; [98; 99]] = Some (ripemd160_spec [97; 98; 99]) /\
  @sh_run CSHA1 (replicate 64 7) [[97]; [98; 99]] = Some (sha1 [97; 98; 99]).
Proof.
  apply (cripemd160_csha1_stream_correct (replicate 64 7) [[97]; [98; 99]]);
    [done | cbn [concat app]; forall_build ltac:(by unfold fits) | done].
Defined.

(** [Hash] is SHA-256 applied twice to the concatenation of its ranges, and [Hash160]
    is RIPEMD-160 of SHA-256. *)
Theorem hash_functions_correct g g' ranges :
  length g = 64%nat -> length g' = 64%nat -> Forall (fits 8) (concat ranges) ->
  Z.of_nat (length (concat ranges)) < 2 ^ 61 ->
  Hash g ranges = Some (sha256 (sha256 (concat ranges))) /\
  Hash160 g g' (concat ranges) = Some (ripemd160_spec (sha256 (concat ranges))).
Proof.
  intros Hg Hg' Hb Hl. split.
  - by apply (sh_run_ok (H := CHash256) (digest := dsha256)).
  - pose proof (CHash160_ok g' Hg'). unfold Hash160.
    rewrite (sh_run_ok (H := CHash160 g') (digest := hash160)); cbn [concat];
      rewrite ?app_nil_r; done.
Qed.

Lemma hash_functions_correct_witness :
  Hash (replicate 64 7) [[1; 2]; [3]] = Some (sha256 (sha256 [1; 2; 3])) /\
  Hash160 (replicate 64 7) (replicate 64 9) [1; 2; 3] = Some (ripemd160_spec (sha256 [1; 2; 3])).
Proof.
  apply (hash_functions_correct (replicate 64 7) (replicate 64 9) [[1; 2]; [3]]);
    [done | done | cbn [concat app]; forall_build ltac:(by unfold fits) | done].
Defined.

(** [CHMAC_SHA256] and [CHMAC_SHA512] compute HMAC of RFC 2104, for keys of any
    length (a key longer than a block is hashed first) and any split of the message. *)
Theorem chmac_correct g g' key chunks :
  length g = 64%nat -> length g' = 128%nat -> Forall (fits 8) key ->
  Forall (fits 8) (concat chunks) -> Z.of_nat (length key) < 2 ^ 61 ->
  Z.of_nat (128 + length (concat chunks)) < 2 ^ 61 ->
  CHMAC_SHA256 g key chunks = Some (@hmac_spec sha256 64 key (concat chunks)) /\
  CHMAC_SHA512 g' key chunks = Some (@hmac_spec sha512 128 key (concat chunks)).
Proof.
  intros. split; apply CHMAC_run_ok; cbn [sh_bufsize sh_size CSHA256 CSHA512]; done || lia.
Qed.

Lemma chmac_correct_witness :
  CHMAC_SHA256 (replicate 64 7) [1; 2] [[3]; [4]] = Some (@hmac_spec sha256 64 [1; 2] [3; 4]) /\
  CHMAC_SHA512 (replicate 128 7) [1; 2] [[3]; [4]] = Some (@hmac_spec sha512 128 [1; 2] [3; 4]).
Proof.
  apply (chmac_correct (replicate 64 7) (replicate 128 7) [1; 2] [[3]; [4]]);
    first [reflexivity | cbn [concat app]; by forall_build ltac:(by unfold fits)].
Defined.

(** ** SipHash *)

(** The specialised function, with its steps named. *)
Lemma SipHashUint256_absorbs k0 k1 val :
  SipHashUint256 k0 k1 val =
  sip_end (foldl sip_absorb (sip_init k0 k1)
    [GetUint64 val 0; GetUint64 val 1; GetUint64 val 2; GetUint64 val 3; u64 (32 << 56)]).
Proof. unfold SipHashUint256, sip_end, sip_absorb. cbn [foldl]. cbv zeta. reflexivity. Qed.

(** Eight octets from a boundary make one word. *)
Lemma sip_octets_word v n val pos :
  n mod 8 = 0 ->
  foldl sip_octet (mkSip v 0 n) ((fun i => val !!! (8 * pos + i)%nat) <$> seq 0 8) =
  mkSip (sip_absorb v (GetUint64 val pos)) 0 (n + 8).
Proof.
  intros Hn. unfold GetUint64. cbv zeta. cbn [fmap list_fmap seq foldl].
  generalize (val !!! (8 * pos + 0)%nat), (val !!! (8 * pos + 1)%nat),
    (val !!! (8 * pos + 2)%nat), (val !!! (8 * pos + 3)%nat), (val !!! (8 * pos + 4)%nat),
    (val !!! (8 * pos + 5)%nat), (val !!! (8 * pos + 6)%nat), (val !!! (8 * pos + 7)%nat).
  intros b0 b1 b2 b3 b4 b5 b6 b7.
  assert (Hand : forall k, (n + k) & 7 = (n + k) mod 8) by (intros; apply (Z.land_ones _ 3); lia).
  assert (Hmod : forall k, 0 <= k < 8 -> (n + k) mod 8 = k).
  { intros k Hk. rewrite <- Zplus_mod_idemp_l, Hn. by apply Z.mod_small. }
  assert (Hstep : forall v t k b, 0 <= k < 7 ->
    sip_octet (mkSip v t (n + k)) b = mkSip v (t .| (b << (8 * k))) (n + (k + 1))).
  { intros v' t k b Hk. unfold sip_octet. cbn [sip_v sip_tmp sip_count].
    rewrite <- Z.add_assoc, Hand, !Hmod by lia. by destruct (Z.eqb_spec (k + 1) 0); [lia |]. }
  assert (Hlast : forall v t b,
    sip_octet (mkSip v t (n + 7)) b = mkSip (sip_absorb v (t .| (b << 56))) 0 (n + 8)).
  { intros v' t b. unfold sip_octet. cbn [sip_v sip_tmp sip_count].
    rewrite (Hmod 7) by lia. replace (n + 7 + 1) with (n + 8) by lia.
    rewrite Hand, <- Zplus_mod_idemp_l, Hn. reflexivity. }
  replace n with (n + 0) at 1 by lia.
  rewrite (Hstep _ _ 0), (Hstep _ _ 1), (Hstep _ _ 2), (Hstep _ _ 3), (Hstep _ _ 4),
    (Hstep _ _ 5), (Hstep _ _ 6) by lia.
  exact (Hlast _ _ _).
Qed.

Lemma split_words (val : list Z) :
  length val = 32%nat ->
  val = concat ((fun p => (fun i => val !!! (8 * p + i)%nat) <$> seq 0 8) <$> seq 0 4).
Proof.
  intros Hlen. do 32 (destruct val as [|? val]; [discriminate Hlen |]).
  destruct val; [reflexivity | discriminate Hlen].
Qed.

(** The specialised SipHash of a 256-bit blob is what the general hasher computes,
    whether the blob is written as four words or as thirty-two octets. *)
Theorem siphash_uint256_agrees k0 k1 val :
  length val = 32%nat ->
  CSipHasher_Finalize (CSipHasher_Write (CSipHasher_new k0 k1) val) = SipHashUint256 k0 k1 val /\
  (c ← CSipHasher_Write64 (CSipHasher_new k0 k1) (GetUint64 val 0);
   c ← CSipHasher_Write64 c (GetUint64 val 1);
   c ← CSipHasher_Write64 c (GetUint64 val 2);
   c ← CSipHasher_Write64 c (GetUint64 val 3);
   Some (CSipHasher_Finalize c)) = Some (SipHashUint256 k0 k1 val).
Proof.
  intros Hlen. rewrite SipHashUint256_absorbs. split; [| reflexivity].
  unfold CSipHasher_Write, CSipHasher_new. rewrite (split_words val Hlen) at 1.
  change (seq 0 4) with [0%nat; 1%nat; 2%nat; 3%nat]. cbn [fmap list_fmap concat].
  rewrite !foldl_app, !sip_octets_word by done. reflexivity.
Qed.

Lemma siphash_uint256_agrees_witness :
  CSipHasher_Finalize (CSipHasher_Write (CSipHasher_new 1 2) (replicate 32 5))
  = SipHashUint256 1 2 (replicate 32 5).
Proof. by apply (siphash_uint256_agrees 1 2 (replicate 32 5)). Defined.
