(* ===== verification/AesCbc.v ===== *)
(** * crypto/aes.cpp: block ciphers and CBC mode

    The C++ classes around ctaes, and [CBCEncrypt] and [CBCDecrypt] over any block
    cipher.  Pointers are buffers with an offset; every access is bounds-checked and
    an access out of range is [None].  The second part proves CBC mode correct. *)

From S2P Require Import Prelude AesSpec Ctaes CtaesLanes CtaesRefine CtaesKeys CtaesProofs MdHash.
#[local] Open Scope Z_scope.

Definition AES_BLOCKSIZE : Z := 16.

(** ** The block classes *)

Definition AES128Encrypt_Encrypt (ctx : AES128_ctx) (plaintext : list Z) : list Z :=
  AES128_encrypt ctx 1 plaintext.
Definition AES128Decrypt_Decrypt (ctx : AES128_ctx) (ciphertext : list Z) : list Z :=
  AES128_decrypt ctx 1 ciphertext.
Definition AES256Encrypt_Encrypt (ctx : AES256_ctx) (plaintext : list Z) : list Z :=
  AES256_encrypt ctx 1 plaintext.
Definition AES256Decrypt_Decrypt (ctx : AES256_ctx) (ciphertext : list Z) : list Z :=
  AES256_decrypt ctx 1 ciphertext.

(** ** CBC mode *)

(** The locals of [CBCEncrypt]: the mixed block, the offset of [data], the octets
    written and the output buffer. *)
Record cbc_enc := mkEnc { ce_mixed : list Z; ce_data : Z; ce_written : Z; ce_out : list Z }.

Section Cbc.
Context (Encrypt : list Z -> list Z).

(** Body of [while (written + AES_BLOCKSIZE <= size)]. *)
Definition cbc_enc_block (data : list Z) (s : cbc_enc) : option cbc_enc :=
  blk ← buf_read (ce_data s) AES_BLOCKSIZE data;
  let mixed := zip_with Z.lxor (ce_mixed s) blk in
  out ← buf_write (ce_written s) (Encrypt mixed) (ce_out s);
  mixed ← buf_read (ce_written s) AES_BLOCKSIZE out;
  Some (mkEnc mixed (ce_data s + AES_BLOCKSIZE) (ce_written s + AES_BLOCKSIZE) out).

Fixpoint cbc_enc_loop (fuel : nat) (data : list Z) (size : Z) (s : cbc_enc) : option cbc_enc :=
  if ce_written s + AES_BLOCKSIZE <=? size then
    match fuel with
    | O => None
    | S fuel => s ← cbc_enc_block data s; cbc_enc_loop fuel data size s
    end
  else Some s.

(** The padded last block. *)
Definition cbc_enc_pad (data : list Z) (padsize : Z) (s : cbc_enc) : option cbc_enc :=
  rest ← buf_read (ce_data s) padsize data;
  let fill := replicate (Z.to_nat (AES_BLOCKSIZE - padsize)) (AES_BLOCKSIZE - padsize) in
  let mixed := zip_with Z.lxor (ce_mixed s) (rest ++ fill) in
  out ← buf_write (ce_written s) (Encrypt mixed) (ce_out s);
  Some (mkEnc mixed (ce_data s + padsize) (ce_written s + AES_BLOCKSIZE) out).

(** [data] and [out] are [None] for a null pointer; the result is the return value
    and the output buffer. *)
Definition CBCEncrypt (iv : list Z) (data : option (list Z)) (size : Z) (pad : bool)
    (out : option (list Z)) : option (Z * option (list Z)) :=
  let padsize := Z.rem size AES_BLOCKSIZE in
  match data, out with
  | Some data, Some buf =>
      if size =? 0 then Some (0, out)
      else if negb pad && negb (padsize =? 0) then Some (0, out)
      else
        s ← cbc_enc_loop (Z.to_nat size) data size (mkEnc iv 0 0 buf);
        s ← (if pad then cbc_enc_pad data padsize s else Some s);
        Some (ce_written s, Some (ce_out s))
  | _, _ => Some (0, out)
  end.

Context (Decrypt : list Z -> list Z).

(** The locals of [CBCDecrypt]: [prev] points to the last cipher block, [cd_pos] is
    the offset of [out]. *)
Record cbc_dec := mkDec { cd_prev : list Z; cd_written : Z; cd_pos : Z; cd_out : list Z }.

Definition cbc_dec_block (data : list Z) (s : cbc_dec) : option cbc_dec :=
  blk ← buf_read (cd_written s) AES_BLOCKSIZE data;
  out ← buf_write (cd_pos s) (zip_with Z.lxor (Decrypt blk) (cd_prev s)) (cd_out s);
  Some (mkDec blk (cd_written s + AES_BLOCKSIZE) (cd_pos s + AES_BLOCKSIZE) out).

Fixpoint cbc_dec_loop (fuel : nat) (data : list Z) (size : Z) (s : cbc_dec) : option cbc_dec :=
  if negb (cd_written s =? size) then
    match fuel with
    | O => None
    | S fuel => s ← cbc_dec_block data s; cbc_dec_loop fuel data size s
    end
  else Some s.

(** [for (int i = AES_BLOCKSIZE; i != 0; i--) fail |= (i > AES_BLOCKSIZE - padsize) &
    ( *out-- != padsize)], from the last octet [pos] down; [n] is [i]. *)
Fixpoint cbc_check_pad (n : nat) (out : list Z) (pos padsize : Z) (fail : bool) : option bool :=
  match n with
  | O => Some fail
  | S n' =>
      b ← buf_read pos 1 out;
      let fail := fail || ((AES_BLOCKSIZE - padsize <? Z.of_nat n) && negb (hd 0 b =? padsize)) in
      cbc_check_pad n' out (pos - 1) padsize fail
  end.

Definition CBCDecrypt (iv : list Z) (data : option (list Z)) (size : Z) (pad : bool)
    (out : option (list Z)) : option (Z * option (list Z)) :=
  match data, out with
  | Some data, Some buf =>
      if size =? 0 then Some (0, out)
      else if negb (Z.rem size AES_BLOCKSIZE =? 0) then Some (0, out)
      else
        s ← cbc_dec_loop (Z.to_nat size) data size (mkDec iv 0 0 buf);
        if pad then
          b ← buf_read (cd_pos s - 1) 1 (cd_out s);
          let padsize := hd 0 b in
          let fail := (padsize =? 0) || (AES_BLOCKSIZE <? padsize) in
          let padsize := if fail then 0 else padsize in
          fail ← cbc_check_pad 16 (cd_out s) (cd_pos s - 1) padsize fail;
          Some (if fail : bool then 0 else cd_written s - padsize, Some (cd_out s))
        else Some (cd_written s, Some (cd_out s))
  | _, _ => Some (0, out)
  end.

End Cbc.

(** ** The CBC classes *)

Record AES256CBC := mkCbc256 { c256_ctx : AES256_ctx; c256_pad : bool; c256_iv : list Z }.
Record AES128CBC := mkCbc128 { c128_ctx : AES128_ctx; c128_pad : bool; c128_iv : list Z }.

Definition AES256CBC_new (key ivIn : list Z) (padIn : bool) : AES256CBC :=
  mkCbc256 (AES256_init key) padIn ivIn.
Definition AES128CBC_new (key ivIn : list Z) (padIn : bool) : AES128CBC :=
  mkCbc128 (AES128_init key) padIn ivIn.

Definition AES256CBCEncrypt_Encrypt (c : AES256CBC) (data : option (list Z)) (size : Z)
    (out : option (list Z)) : option (Z * option (list Z)) :=
  CBCEncrypt (AES256Encrypt_Encrypt (c256_ctx c)) (c256_iv c) data size (c256_pad c) out.

Definition AES256CBCDecrypt_Decrypt (c : AES256CBC) (data : option (list Z)) (size : Z)
    (out : option (list Z)) : option (Z * option (list Z)) :=
  CBCDecrypt (AES256Decrypt_Decrypt (c256_ctx c)) (c256_iv c) data size (c256_pad c) out.

Definition AES128CBCEncrypt_Encrypt (c : AES128CBC) (data : option (list Z)) (size : Z)
    (out : option (list Z)) : option (Z * option (list Z)) :=
  CBCEncrypt (AES128Encrypt_Encrypt (c128_ctx c)) (c128_iv c) data size (c128_pad c) out.

Definition AES128CBCDecrypt_Decrypt (c : AES128CBC) (data : option (list Z)) (size : Z)
    (out : option (list Z)) : option (Z * option (list Z)) :=
  CBCDecrypt (AES128Decrypt_Decrypt (c128_ctx c)) (c128_iv c) data size (c128_pad c) out.

(** * crypto/aes.cpp: CBC mode is correct over any block cipher

    The loops of [CBCEncrypt] and [CBCDecrypt] compute the recursive definition of CBC
    (NIST SP 800-38A) with PKCS #7 padding, stay in their buffers, and decryption
    undoes encryption for every cipher satisfying [BlockCipher]; the AES classes are
    instances. *)

#[local] Open Scope Z_scope.

(** ** Specification *)

Abbreviation xor := (zip_with Z.lxor).

Definition is_block (b : list Z) : Prop := length b = 16%nat /\ Forall (fits 8) b.

Class BlockCipher (E D : list Z -> list Z) := {
  bc_enc b : is_block b -> is_block (E b);
  bc_dec b : is_block b -> is_block (D b);
  bc_inv b : is_block b -> D (E b) = b;
}.

Fixpoint cbc_e (E : list Z -> list Z) (iv : list Z) (bs : list (list Z)) : list (list Z) :=
  match bs with
  | [] => []
  | b :: bs => let c := E (xor iv b) in c :: cbc_e E c bs
  end.

Fixpoint cbc_d (D : list Z -> list Z) (iv : list Z) (cs : list (list Z)) : list (list Z) :=
  match cs with
  | [] => []
  | c :: cs => xor (D c) iv :: cbc_d D c cs
  end.

(** PKCS #7: between one and sixteen octets, each holding their number. *)
Definition pkcs7 (m : list Z) : list Z :=
  let k := (16 - length m mod 16)%nat in m ++ replicate k (Z.of_nat k).

(** The message of a padded one, if the padding is well formed. *)
Definition unpkcs7 (p : list Z) : option (list Z) :=
  let k := default 0 (p !! (length p - 1)%nat) in
  if (1 <=? k) && (k <=? 16) && bool_decide (drop (length p - Z.to_nat k) p = replicate (Z.to_nat k) k)
  then Some (take (length p - Z.to_nat k) p) else None.

(** ** Blocks *)

Lemma xor_block a b : is_block a -> is_block b -> is_block (xor a b).
Proof.
  intros [La Fa] [Lb Fb]. split; [rewrite length_zip_with; lia |].
  clear La Lb. revert b Fb. induction Fa as [|x a Hx Fa IH]; intros b Fb; [apply Forall_nil_2 |].
  destruct Fb as [|y b Hy Fb]; [apply Forall_nil_2 |].
  apply Forall_cons_2; [by apply lxor_fits | by apply IH].
Qed.

Lemma xor_comm a b : xor a b = xor b a.
Proof. revert b. induction a as [|x a IH]; intros [|y b]; simpl; [done.. |]. by rewrite Z.lxor_comm, IH. Qed.

Lemma xor_xor a b : length a = length b -> xor (xor a b) a = b.
Proof.
  revert b. induction a as [|x a IH]; intros [|y b] Hl; try done. simpl in *.
  rewrite IH by lia. f_equal. by rewrite (Z.lxor_comm x y), lxor_cancel_r.
Qed.

Lemma cbc_e_blocks `{BlockCipher E D} iv bs :
  is_block iv -> Forall is_block bs ->
  Forall is_block (cbc_e E iv bs) /\ length (cbc_e E iv bs) = length bs.
Proof.
  intros Hiv Hbs. revert iv Hiv. induction Hbs as [|b bs Hb Hbs IH]; intros iv Hiv; [done |].
  cbn [cbc_e length]. cbv zeta. assert (is_block (E (xor iv b))) by (by apply bc_enc, xor_block).
  destruct (IH (E (xor iv b))) as [H1 H2]; [done |]. split; [by apply Forall_cons_2 | lia].
Qed.

Lemma cbc_d_blocks `{BlockCipher E D} iv cs :
  is_block iv -> Forall is_block cs ->
  Forall is_block (cbc_d D iv cs) /\ length (cbc_d D iv cs) = length cs.
Proof.
  intros Hiv Hcs. revert iv Hiv. induction Hcs as [|c cs Hc Hcs IH]; intros iv Hiv; [done |].
  cbn [cbc_d length]. destruct (IH c Hc) as [H1 H2]. split; [| lia].
  apply Forall_cons_2; [by apply xor_block; [apply bc_dec |] | done].
Qed.

(** The mode is invertible. *)
Lemma cbc_inverse `{BlockCipher E D} iv bs :
  is_block iv -> Forall is_block bs -> cbc_d D iv (cbc_e E iv bs) = bs.
Proof.
  intros Hiv Hbs. revert iv Hiv. induction Hbs as [|b bs Hb Hbs IH]; intros iv Hiv; [done |].
  cbn [cbc_e cbc_d]. cbv zeta.
  rewrite bc_inv by (by apply xor_block). rewrite xor_xor by (destruct Hiv, Hb; lia).
  f_equal. apply IH. by apply bc_enc, xor_block.
Qed.

Lemma pkcs7_blocks m :
  Forall (fits 8) m -> exists bs tail, m = concat bs ++ tail /\ (length tail < 16)%nat /\
    Forall is_block bs /\
    is_block (tail ++ replicate (16 - length tail) (Z.of_nat (16 - length tail))) /\
    pkcs7 m = concat (bs ++ [tail ++ replicate (16 - length tail) (Z.of_nat (16 - length tail))]).
Proof.
  intros Hm. set (n := (16 * (length m / 16))%nat).
  assert (n <= length m)%nat by (unfold n; pose proof (Nat.Div0.div_mod (length m) 16); lia).
  destruct (concat_blocks 16 (take n m)) as (bs & E & Hbs).
  { lia. } { rewrite length_take, Nat.min_l by lia. unfold n. rewrite Nat.mul_comm. apply Nat.Div0.mod_mul. }
  exists bs, (drop n m). set (tail := drop n m).
  assert (length tail = (length m mod 16)%nat) as Ht
    by (unfold tail, n; rewrite length_drop; pose proof (Nat.Div0.div_mod (length m) 16); lia).
  pose proof (Nat.mod_upper_bound (length m) 16 ltac:(lia)).
  assert (m = concat bs ++ tail) as Em by (rewrite <- E; symmetry; apply take_drop).
  split_and!; [done | lia | | |].
  - assert (Forall (fits 8) (concat bs)) as Hf by (rewrite <- E; by apply Forall_take).
    clear -Hbs Hf. induction Hbs as [|b bs Hb Hbs IH]; [apply Forall_nil_2 |].
    cbn [concat] in Hf. apply Forall_app in Hf as [H1 H2].
    apply Forall_cons_2; [done | by apply IH].
  - split; [rewrite length_app, length_replicate; lia |].
    apply Forall_app_2; [by apply Forall_drop |].
    apply Forall_replicate. unfold fits. lia.
  - unfold pkcs7. cbv zeta. rewrite <- Ht, concat_app. cbn [concat]. rewrite app_nil_r, app_assoc.
    by rewrite <- Em.
Qed.

Lemma unpkcs7_pkcs7 m : Forall (fits 8) m -> unpkcs7 (pkcs7 m) = Some m.
Proof.
  intros Hm. unfold pkcs7, unpkcs7. cbv zeta. set (k := (16 - length m mod 16)%nat).
  assert (1 <= k <= 16)%nat by (unfold k; pose proof (Nat.mod_upper_bound (length m) 16); lia).
  assert ((m ++ replicate k (Z.of_nat k)) !! (length (m ++ replicate k (Z.of_nat k)) - 1)%nat
    = Some (Z.of_nat k)) as ->.
  { rewrite length_app, length_replicate, lookup_app_r by lia.
    apply lookup_replicate_2. lia. }
  change (default 0 (Some (Z.of_nat k))) with (Z.of_nat k).
  rewrite Nat2Z.id, length_app, length_replicate, Nat.add_sub.
  rewrite drop_app_length, take_app_length, bool_decide_true by done.
  destruct (Z.leb_spec 1 (Z.of_nat k)), (Z.leb_spec (Z.of_nat k) 16); done || lia.
Qed.

(** ** The encryption loop *)

Lemma buf_read_mid (pre mid post : list Z) off n :
  off = Z.of_nat (length pre) -> n = Z.of_nat (length mid) ->
  buf_read off n (pre ++ mid ++ post) = Some mid.
Proof.
  intros -> ->. unfold buf_read. rewrite !Nat2Z.id.
  destruct (_ && _) eqn:E; [| rewrite !andb_false_iff, !Z.leb_gt, !length_app in E; lia].
  by rewrite drop_app_length, take_app_length.
Qed.

(** The last cipher block, from which the next one is chained. *)
Fixpoint chain (E : list Z -> list Z) (iv : list Z) (bs : list (list Z)) : list Z :=
  match bs with [] => iv | b :: bs => chain E (E (xor iv b)) bs end.

Section Loops.
Context {E D : list Z -> list Z} `{BC : !BlockCipher E D}.

Lemma chain_block iv bs : is_block iv -> Forall is_block bs -> is_block (chain E iv bs).
Proof using BC.
  intros Hiv Hbs. revert iv Hiv. induction Hbs as [|b bs Hb Hbs IH]; intros iv Hiv; [done |].
  apply IH. by apply bc_enc, xor_block.
Qed.

Lemma cbc_e_snoc iv bs b :
  cbc_e E iv (bs ++ [b]) = cbc_e E iv bs ++ [E (xor (chain E iv bs) b)].
Proof. revert iv. induction bs as [|a bs IH]; intros iv; [done |]. simpl. by rewrite IH. Qed.

Lemma cbc_enc_loop_ok fuel pre bs tail opre orest mixed size :
  is_block mixed -> Forall is_block bs -> (length tail < 16)%nat -> length opre = length pre ->
  (16 * length bs <= length orest)%nat -> (length bs <= fuel)%nat ->
  size = Z.of_nat (length pre + 16 * length bs + length tail) ->
  cbc_enc_loop E fuel (pre ++ concat bs ++ tail) size
    (mkEnc mixed (Z.of_nat (length pre)) (Z.of_nat (length pre)) (opre ++ orest)) =
  Some (mkEnc (chain E mixed bs) (Z.of_nat (length pre + 16 * length bs))
    (Z.of_nat (length pre + 16 * length bs))
    (opre ++ concat (cbc_e E mixed bs) ++ drop (16 * length bs) orest)).
Proof using BC.
  intros Hm Hbs Ht Ho Hr Hf Hs. revert fuel pre opre orest mixed size Hm Ho Hr Hf Hs.
  induction Hbs as [|b bs Hb Hbs IH]; intros fuel pre opre orest mixed size Hm Ho Hr Hf Hs.
  - destruct fuel; cbn [cbc_enc_loop ce_written]; unfold AES_BLOCKSIZE;
      (destruct (Z.leb_spec (Z.of_nat (length pre) + 16) size); [cbn [length] in Hs; lia |]);
      cbn [chain cbc_e concat length app]; rewrite Nat.mul_0_r, Nat.add_0_r, drop_0; done.
  - destruct fuel as [|fuel]; [cbn [length] in Hf; lia |]. cbn [length] in *.
    cbn [cbc_enc_loop ce_written]. unfold AES_BLOCKSIZE at 1.
    destruct (Z.leb_spec (Z.of_nat (length pre) + 16) size); [| lia].
    pose proof Hb as [Lb _]. set (c := E (xor mixed b)).
    assert (is_block c) as Hc by (by apply bc_enc, xor_block). pose proof Hc as [Lc _].
    unfold cbc_enc_block. cbn [ce_data ce_mixed ce_written ce_out concat].
    rewrite <- app_assoc, buf_read_mid by (done || unfold AES_BLOCKSIZE; lia).
    rewrite obind_Some. fold c.
    rewrite (buf_write_Some _ c (opre ++ orest) opre (take 16 orest) (drop 16 orest))
      by (try (by rewrite take_drop); try lia; rewrite length_take; lia).
    rewrite obind_Some, buf_read_mid, obind_Some by (done || unfold AES_BLOCKSIZE; lia).
    rewrite (app_assoc pre b), (app_assoc opre c). unfold AES_BLOCKSIZE.
    replace (Z.of_nat (length pre) + 16) with (Z.of_nat (length (pre ++ b)))
      by (rewrite length_app; lia).
    rewrite obind_Some, (IH fuel (pre ++ b) (opre ++ c) (drop 16 orest) c size);
      rewrite ?length_app, ?length_drop; try done; try lia.
    cbn [chain cbc_e concat]. fold c. rewrite drop_drop, <- !app_assoc.
    do 2 f_equal; [lia | lia |]. do 3 f_equal. f_equal. lia.
Qed.

(** Encryption with padding. *)
Lemma CBCEncrypt_pad iv m out :
  is_block iv -> Forall (fits 8) m -> m <> [] -> (length m + 16 <= length out)%nat ->
  exists bs, concat bs = pkcs7 m /\ Forall is_block bs /\
  CBCEncrypt E iv (Some m) (Z.of_nat (length m)) true (Some out) =
  Some (Z.of_nat (length (pkcs7 m)),
        Some (concat (cbc_e E iv bs) ++ drop (length (pkcs7 m)) out)).
Proof using BC.
  intros Hiv Hm Hne Hout. destruct (pkcs7_blocks m Hm) as (bs & tl & Em & Ht & Hbs & Hlast & Ep).
  set (lst := tl ++ _) in *. exists (bs ++ [lst]).
  assert (Forall is_block (bs ++ [lst])) as Hall
    by (apply Forall_app_2; [done | by apply Forall_cons_2]).
  split; [done |]. split; [done |].
  assert (length (concat bs) = (16 * length bs)%nat) as Lbs.
  { apply length_concat_blocks. eapply Forall_impl; [| exact Hbs]. by intros ? []. }
  assert (length m = (16 * length bs + length tl)%nat) as Lm by (rewrite Em, length_app; lia).
  assert (length (pkcs7 m) = (16 * length bs + 16)%nat) as Lp.
  { rewrite Ep, concat_app, length_app, Lbs. cbn [concat]. rewrite app_nil_r.
    destruct Hlast as [-> _]. done. }
  assert (length m <> 0%nat) as Hm0 by (by destruct m).
  remember (Z.of_nat (length m)) as sz eqn:Hsz. remember (length (pkcs7 m)) as lp eqn:Hlp.
  unfold CBCEncrypt. cbv zeta. destruct (Z.eqb_spec sz 0); [lia |]. cbn [negb andb].
  assert (Z.rem sz AES_BLOCKSIZE = Z.of_nat (length tl)) as ->.
  { rewrite Z.rem_mod_nonneg by (unfold AES_BLOCKSIZE; lia). unfold AES_BLOCKSIZE.
    symmetry. apply Z.mod_unique with (Z.of_nat (length bs)); lia. }
  rewrite Em. pose proof (cbc_enc_loop_ok (Z.to_nat sz) [] bs tl [] out iv sz Hiv Hbs Ht eq_refl ltac:(lia) ltac:(lia) ltac:(cbn [length]; lia)) as HL.
  cbn [app length] in HL. change (Z.of_nat 0) with 0 in HL. rewrite HL, obind_Some.
  set (X := concat (cbc_e E iv bs)).
  assert (length X = (16 * length bs)%nat) as LX.
  { unfold X. destruct (cbc_e_blocks iv bs Hiv Hbs) as [H1 H2].
    rewrite (length_concat_blocks 16), H2; [done |].
    eapply Forall_impl; [| exact H1]. by intros ? []. }
  unfold cbc_enc_pad. cbn [ce_data ce_mixed ce_written ce_out Nat.add].
  pose proof (buf_read_mid (concat bs) tl []) as Hrd. rewrite app_nil_r in Hrd.
  rewrite Hrd, obind_Some by (rewrite ?Lbs; done).
  replace (replicate (Z.to_nat (AES_BLOCKSIZE - Z.of_nat (length tl)))
             (AES_BLOCKSIZE - Z.of_nat (length tl)))
    with (replicate (16 - length tl) (Z.of_nat (16 - length tl)))
    by (unfold AES_BLOCKSIZE; f_equal; lia).
  fold lst. set (c := E (xor (chain E iv bs) lst)).
  assert (is_block c) as [Lc _] by (by apply bc_enc, xor_block; [apply chain_block |]).
  rewrite (buf_write_Some _ c _ X (take 16 (drop (16 * length bs) out))
    (drop 16 (drop (16 * length bs) out)))
    by (try (by rewrite take_drop); try lia; rewrite length_take, length_drop; lia).
  rewrite obind_Some, obind_Some. cbn [ce_written ce_out]. rewrite drop_drop, cbc_e_snoc, concat_app.
  fold X c. cbn [concat]. rewrite app_nil_r, <- app_assoc, Lp. unfold AES_BLOCKSIZE.
  do 2 f_equal. lia.
Qed.

(** ** The decryption loop *)

Lemma cbc_dec_loop_ok fuel pre cs opre orest prev size :
  is_block prev -> Forall is_block cs -> length opre = length pre ->
  (16 * length cs <= length orest)%nat -> (length cs <= fuel)%nat ->
  size = Z.of_nat (length pre + 16 * length cs) ->
  exists prev', cbc_dec_loop D fuel (pre ++ concat cs) size
    (mkDec prev (Z.of_nat (length pre)) (Z.of_nat (length pre)) (opre ++ orest)) =
  Some (mkDec prev' size size
    (opre ++ concat (cbc_d D prev cs) ++ drop (16 * length cs) orest)).
Proof using BC.
  intros Hm Hcs Ho Hr Hf Hs. revert fuel pre opre orest prev size Hm Ho Hr Hf Hs.
  induction Hcs as [|c cs Hc Hcs IH]; intros fuel pre opre orest prev size Hm Ho Hr Hf Hs.
  - exists prev. cbn [length concat cbc_d] in *. rewrite Nat.mul_0_r, Nat.add_0_r in *.
    subst size. destruct fuel; cbn [cbc_dec_loop cd_written]; rewrite Z.eqb_refl; done.
  - destruct fuel as [|fuel]; [cbn [length] in Hf; lia |]. cbn [length] in *.
    cbn [cbc_dec_loop cd_written].
    destruct (Z.eqb_spec (Z.of_nat (length pre)) size); [lia |]. cbn [negb].
    pose proof Hc as [Lc _]. set (p := xor (D c) prev).
    assert (is_block p) as Hp by (by apply xor_block; [apply bc_dec |]). pose proof Hp as [Lp _].
    unfold cbc_dec_block. cbn [cd_pos cd_prev cd_written cd_out concat].
    rewrite buf_read_mid by (done || unfold AES_BLOCKSIZE; lia). rewrite obind_Some. fold p.
    rewrite (buf_write_Some _ p (opre ++ orest) opre (take 16 orest) (drop 16 orest))
      by (try (by rewrite take_drop); try lia; rewrite length_take; lia).
    rewrite obind_Some, obind_Some, (app_assoc pre c), (app_assoc opre p). unfold AES_BLOCKSIZE.
    replace (Z.of_nat (length pre) + 16) with (Z.of_nat (length (pre ++ c)))
      by (rewrite length_app; lia).
    destruct (IH fuel (pre ++ c) (opre ++ p) (drop 16 orest) c size) as [prev' ->];
      rewrite ?length_app, ?length_drop; try done; try lia.
    exists prev'. cbn [cbc_d concat]. fold p. rewrite drop_drop, <- !app_assoc.
    do 2 f_equal. do 3 f_equal. f_equal. lia.
Qed.

(** The padding check looks at the last [padsize] octets, [r] from the end on. *)
Lemma cbc_check_pad_ok n (pre r post : list Z) padsize fail :
  length r = n -> (n <= 16)%nat -> 0 <= padsize ->
  cbc_check_pad n (pre ++ reverse r ++ post) (Z.of_nat (length pre + n) - 1) padsize fail =
  Some (fail || existsb (fun b => negb (b =? padsize)) (take (Z.to_nat padsize - (16 - n)) r)).
Proof.
  revert r post fail. induction n as [|n IH]; intros r post fail Hr Hn Hp.
  { destruct r; [| done]. cbn [cbc_check_pad]. rewrite take_nil. cbn [existsb]. by rewrite orb_false_r. }
  destruct r as [|x r]; [done |]. cbn [length] in Hr. cbn [cbc_check_pad].
  rewrite reverse_cons, <- app_assoc.
  assert (buf_read (Z.of_nat (length pre + S n) - 1) 1 (pre ++ reverse r ++ [x] ++ post) = Some [x])
    as ->.
  { rewrite app_assoc. apply buf_read_mid; [rewrite length_app, length_reverse; lia | done]. }
  rewrite obind_Some. cbn [hd].
  replace (Z.of_nat (length pre + S n) - 1 - 1) with (Z.of_nat (length pre + n) - 1) by lia.
  rewrite IH by lia. f_equal. rewrite <- orb_assoc. f_equal. unfold AES_BLOCKSIZE.
  destruct (Z.ltb_spec (16 - padsize) (Z.of_nat (S n))).
  - replace (Z.to_nat padsize - (16 - S n))%nat with (S (Z.to_nat padsize - (16 - n))) by lia.
    done.
  - replace (Z.to_nat padsize - (16 - S n))%nat with 0%nat by lia.
    by replace (Z.to_nat padsize - (16 - n))%nat with 0%nat by lia.
Qed.

Lemma existsb_all_eq k (l : list Z) :
  existsb (fun b => negb (b =? k)) l = false <-> l = replicate (length l) k.
Proof.
  induction l as [|x l IH]; [done |]. cbn [existsb length replicate]. rewrite orb_false_iff, IH.
  destruct (Z.eqb_spec x k) as [->|Hne]; cbn [negb]; split; intros HH;
    [by f_equal; apply HH | by injection HH | by destruct HH | by injection HH].
Qed.

(** What the check decides: the padding of PKCS #7. *)
Lemma check_pad_unpkcs7 (P post : list Z) :
  (16 <= length P)%nat -> Forall (fits 8) P ->
  let k := default 0 (P !! (length P - 1)%nat) in
  let bad := (k =? 0) || (AES_BLOCKSIZE <? k) in
  let k' := if bad then 0 else k in
  exists fail, cbc_check_pad 16 (P ++ post) (Z.of_nat (length P) - 1) k' bad = Some fail /\
    (if fail then 0 else Z.of_nat (length P) - k') = Z.of_nat (length (default [] (unpkcs7 P))).
Proof.
  intros HP Hb. cbv zeta. set (k := default 0 (P !! (length P - 1)%nat)).
  assert (0 <= k) as Hk0.
  { unfold k. destruct (lookup_lt_is_Some_2 P (length P - 1)) as [x Hx]; [lia |]. rewrite Hx.
    change (0 <= x). pose proof (Forall_lookup_1 _ _ _ _ Hb Hx) as []. done. }
  set (r := reverse (drop (length P - 16) P)).
  assert (P ++ post = take (length P - 16) P ++ reverse r ++ post) as ->
    by (unfold r; by rewrite reverse_involutive, app_assoc, take_drop).
  assert (length r = 16%nat) as Hr by (unfold r; rewrite length_reverse, length_drop; lia).
  replace (Z.of_nat (length P) - 1)
    with (Z.of_nat (length (take (length P - 16) P) + 16) - 1)
    by (rewrite length_take; lia).
  unfold unpkcs7. cbv zeta. fold k. unfold AES_BLOCKSIZE.
  assert (k = 0 \/ 16 < k \/ 1 <= k <= 16) as [->|[Hk|Hk]] by lia.
  { cbn [Z.eqb orb]. rewrite (cbc_check_pad_ok 16 _ r) by lia. by eexists. }
  { replace ((k =? 0) || (16 <? k)) with true by lia. rewrite (cbc_check_pad_ok 16 _ r) by lia.
    eexists. split; [done |]. cbn [orb]. replace (k <=? 16) with false by lia.
    by rewrite andb_false_r. }
  replace ((k =? 0) || (16 <? k)) with false by lia.
  replace ((1 <=? k) && (k <=? 16)) with true by lia. cbn [andb].
  rewrite (cbc_check_pad_ok 16 _ r) by lia. eexists. split; [done |]. cbn [orb].
  change (16 - 16)%nat with 0%nat. rewrite Nat.sub_0_r.
  assert (take (Z.to_nat k) r = reverse (drop (length P - Z.to_nat k) P)) as ->.
  { unfold r. rewrite take_reverse, length_drop, drop_drop. do 2 f_equal. lia. }
  destruct (existsb _ _) eqn:Ee.
  - rewrite bool_decide_false; [done |]. intros Heq.
    rewrite Heq, reverse_replicate in Ee. 
    assert (existsb (fun b => negb (b =? k)) (replicate (Z.to_nat k) k) = false); [| congruence].
    apply existsb_all_eq. by rewrite length_replicate.
  - rewrite bool_decide_true.
    + change (default [] (Some ?x)) with x. rewrite length_take. lia.
    + apply existsb_all_eq, (f_equal reverse) in Ee.
      rewrite reverse_involutive, length_reverse, length_drop, reverse_replicate in Ee.
      rewrite Ee. f_equal. lia.
Qed.

Lemma CBCDecrypt_pad iv cs out :
  is_block iv -> Forall is_block cs -> cs <> [] -> (16 * length cs <= length out)%nat ->
  let P := concat (cbc_d D iv cs) in
  CBCDecrypt D iv (Some (concat cs)) (Z.of_nat (length (concat cs))) true (Some out) =
  Some (Z.of_nat (length (default [] (unpkcs7 P))), Some (P ++ drop (length P) out)).
Proof using BC.
  intros Hiv Hcs Hne Hout. cbv zeta.
  assert (length (concat cs) = (16 * length cs)%nat) as Lcs.
  { apply length_concat_blocks. eapply Forall_impl; [| exact Hcs]. by intros ? []. }
  destruct (cbc_d_blocks iv cs Hiv Hcs) as [Hd Ld]. set (P := concat (cbc_d D iv cs)).
  assert (length P = (16 * length cs)%nat) as LP.
  { unfold P. rewrite (length_concat_blocks 16), Ld; [done |].
    eapply Forall_impl; [| exact Hd]. by intros ? []. }
  assert (Forall (fits 8) P) as FP.
  { unfold P. clear -Hd. induction Hd as [|b bs [_ Hb] Hbs IH]; [apply Forall_nil_2 |].
    by apply Forall_app_2. }
  assert (length cs <> 0%nat) as Hc0 by (by destruct cs).
  unfold CBCDecrypt. cbv zeta. rewrite Lcs.
  destruct (Z.eqb_spec (Z.of_nat (16 * length cs)) 0); [lia |].
  assert (Z.rem (Z.of_nat (16 * length cs)) AES_BLOCKSIZE = 0) as ->.
  { rewrite Z.rem_mod_nonneg by (unfold AES_BLOCKSIZE; lia). unfold AES_BLOCKSIZE.
    rewrite Nat2Z.inj_mul, Z.mul_comm. apply Z_mod_mult. }
  cbn [Z.eqb negb].
  destruct (cbc_dec_loop_ok (Z.to_nat (Z.of_nat (16 * length cs))) [] cs [] out iv
    (Z.of_nat (16 * length cs)) Hiv Hcs eq_refl ltac:(lia) ltac:(lia) ltac:(done)) as [prev' HL].
  cbn [app length] in HL. change (Z.of_nat 0) with 0 in HL. rewrite HL, obind_Some.
  cbn [cd_pos cd_out cd_written]. fold P. rewrite <- LP.
  destruct (lookup_lt_is_Some_2 P (length P - 1)) as [x Hx]; [lia |].
  assert (buf_read (Z.of_nat (length P) - 1) 1 (P ++ drop (length P) out) = Some [x]) as ->.
  { pose proof (take_drop_middle P _ x Hx) as HP. rewrite drop_ge in HP by lia.
    rewrite <- HP at 2. rewrite <- app_assoc. apply buf_read_mid; [| done].
    rewrite length_take. lia. }
  rewrite obind_Some. cbn [hd].
  destruct (check_pad_unpkcs7 P (drop (length P) out) ltac:(lia) FP) as (fail & E1 & E2).
  rewrite Hx in E1, E2. change (default 0 (Some x)) with x in E1, E2.
  rewrite E1, obind_Some. by rewrite E2.
Qed.

(** Decrypting what was encrypted, into any buffer that is large enough. *)
Lemma CBC_roundtrip iv m out out' :
  is_block iv -> Forall (fits 8) m -> m <> [] -> (length m + 16 <= length out)%nat ->
  (length (pkcs7 m) <= length out')%nat ->
  exists c rest, 
    CBCEncrypt E iv (Some m) (Z.of_nat (length m)) true (Some out) =
      Some (Z.of_nat (length (pkcs7 m)), Some (c ++ rest)) /\ length c = length (pkcs7 m) /\
    Forall (fits 8) c /\
    CBCDecrypt D iv (Some c) (Z.of_nat (length c)) true (Some out') =
      Some (Z.of_nat (length m), Some (pkcs7 m ++ drop (length (pkcs7 m)) out')).
Proof using BC.
  intros Hiv Hm Hne Hout Hout'.
  destruct (CBCEncrypt_pad iv m out) as (bs & Ep & Hbs & HE); [done.. |].
  destruct (cbc_e_blocks iv bs Hiv Hbs) as [He Le].
  exists (concat (cbc_e E iv bs)), (drop (length (pkcs7 m)) out). split; [exact HE |].
  assert (length (concat (cbc_e E iv bs)) = length (pkcs7 m)) as L.
  { rewrite <- Ep, !(length_concat_blocks 16), Le; [done | |];
      (eapply Forall_impl; [| done]; by intros ? []). }
  split; [done |]. split.
  { clear -He. induction He as [|b l [_ Hb] Hbs IH]; [apply Forall_nil_2 |]. by apply Forall_app_2. }
  assert (bs <> []) as Hne'.
  { intros ->. unfold pkcs7 in Ep. cbn in Ep. symmetry in Ep. apply app_nil in Ep as [-> _]. done. }
  rewrite (CBCDecrypt_pad iv (cbc_e E iv bs) out'); [| done | done | |].
  - rewrite (cbc_inverse iv bs Hiv Hbs), Ep, unpkcs7_pkcs7 by done. done.
  - intros E0. by destruct bs.
  - rewrite Le, <- (length_concat_blocks 16), Ep; [done |].
    eapply Forall_impl; [| exact Hbs]. by intros ? [].
Qed.

End Loops.

(** ** The AES classes *)

Lemma foldl_state_wf {I} (f : AES_state -> I -> AES_state) l s :
  (forall s i, state_wf s -> state_wf (f s i)) -> state_wf s -> state_wf (foldl f s l).
Proof. intros Hf. revert s. induction l; intros s Hs; simpl; auto. Qed.

Lemma save_block s : state_wf s -> is_block (SaveBytes s).
Proof.
  intros Hs. rewrite SaveBytes_cells by done. split; [apply length_cells | by apply cells_bytes].
Qed.

Lemma aes_block_cipher v key :
  valid_key v key -> let rk := AES_setup key (Nk v) (Nr v) in
  BlockCipher (each_block (AES_encrypt rk (Nr v)) 1) (each_block (AES_decrypt rk (Nr v)) 1).
Proof.
  intros Hk. cbv zeta. destruct (setup_variant v key Hk) as (_ & Hwf & _).
  set (rk := AES_setup key (Nk v) (Nr v)) in *.
  assert (Hrk : forall r, state_wf (rk !!! r)) by auto with aes.
  assert (Hone : forall f b, length b = 16%nat -> each_block f 1 b = f b).
  { intros f b Hb. cbn [each_block]. rewrite take_ge, app_nil_r by lia. done. }
  assert (HE : forall b, is_block b -> is_block (AES_encrypt rk (Nr v) b)).
  { intros b [Hl Hb]. unfold AES_encrypt. cbv zeta. apply save_block.
    assert (state_wf (foldl (fun s i => AddRoundKey (MixColumns (ShiftRows (SubBytes s false)) false)
      (rk !!! i)) (AddRoundKey (LoadBytes zero_state b) (rk !!! 0%nat)) (seq 1 (Nr v - 1)))).
    { apply foldl_state_wf; [intros; auto 10 with aes | auto with aes]. }
    auto 10 with aes. }
  split.
  - intros b Hb. rewrite Hone by apply Hb. by apply HE.
  - intros b [Hl Hb]. rewrite Hone by done. unfold AES_decrypt. cbv zeta. apply save_block.
    match goal with |- state_wf (AddRoundKey (SubBytes (InvShiftRows ?x) true) _) =>
      assert (state_wf x) end.
    { apply foldl_state_wf; [intros; auto 10 with aes | auto 10 with aes]. }
    auto 10 with aes.
  - intros b Hb. rewrite (Hone (AES_encrypt rk (Nr v)) b) by apply Hb.
    rewrite Hone by apply (HE b Hb). destruct Hb. by apply AES_decrypt_encrypt.
Qed.

#[export] Instance aes256_cipher key :
  valid_key AES256 key ->
  BlockCipher (AES256Encrypt_Encrypt (AES256_init key)) (AES256Decrypt_Decrypt (AES256_init key)).
Proof. intros Hk. exact (aes_block_cipher AES256 key Hk). Qed.

#[export] Instance aes128_cipher key :
  valid_key AES128 key ->
  BlockCipher (AES128Encrypt_Encrypt (AES128_init key)) (AES128Decrypt_Decrypt (AES128_init key)).
Proof. intros Hk. exact (aes_block_cipher AES128 key Hk). Qed.
