(* ===== verification/Crypter.v ===== *)
(** * wallet/crypter.cpp: wallet encryption

    [CCrypter] (passphrase to key derivation, AES-256-CBC of a vector) and
    [CCryptoKeyStore] (keys in the clear or encrypted under a master key).  Operations
    return [None] only for an access out of range or a failed assertion; a [bool] is
    the C++ return value.  Private and public keys: libsecp256k1 is a parameter
    ([Class Secp256k1]). *)

From stdpp Require Import gmap sorting.
From S2P Require Import Prelude Ctaes MdHash Sha512 Hash AesCbc.
#[local] Open Scope Z_scope.

Definition WALLET_CRYPTO_KEY_SIZE : nat := 32.
Definition WALLET_CRYPTO_SALT_SIZE : nat := 8.
Definition WALLET_CRYPTO_IV_SIZE : nat := 16.

(** [std::vector::resize]. *)
Definition vector_resize (n : nat) (v : list Z) : list Z := take n v ++ replicate (n - length v) 0.

(** ** [CCrypter] *)

Record CCrypter := mkCrypter { chKey : list Z; chIV : list Z; fKeySet : bool }.

(** [for (i = 0; i != count - 1; i++) di.Reset().Write(buf, 64).Finalize(buf);] *)
Fixpoint derive_loop (n : nat) (di : md) (buf : list Z) : option (list Z) :=
  match n with
  | O => Some buf
  | S n =>
      di ← sha512.Write (sha512.Reset di) buf;
      '(buf, di) ← sha512.Finalize di;
      derive_loop n di buf
  end.

(** The key and the initialisation vector; [None] inside for the return value 0.
    [count] is at least 1 here: the callers pass [nRounds >= 1]. *)
Definition BytesToKeySHA512AES (g chSalt strKeyData : list Z) (count : nat)
    : option (option (list Z * list Z)) :=
  if decide (count = 0%nat) then Some None
  else
    di ← sha512.Write (sha512.new g) strKeyData;
    di ← (if decide (chSalt = []) then Some di else sha512.Write di chSalt);
    '(buf, di) ← sha512.Finalize di;
    buf ← derive_loop (count - 1) di buf;
    Some (Some (take WALLET_CRYPTO_KEY_SIZE buf,
                take WALLET_CRYPTO_IV_SIZE (drop WALLET_CRYPTO_KEY_SIZE buf))).

Definition SetKeyFromPassphrase (g : list Z) (c : CCrypter) (strKeyData chSalt : list Z)
    (nRounds nDerivationMethod : nat) : option (bool * CCrypter) :=
  if decide (nRounds < 1)%nat then Some (false, c)
  else if decide (length chSalt <> WALLET_CRYPTO_SALT_SIZE) then Some (false, c)
  else
    r ← (if decide (nDerivationMethod = 0%nat)
         then BytesToKeySHA512AES g chSalt strKeyData nRounds else Some None);
    match r with
    | Some (key, iv) => Some (true, mkCrypter key iv true)
    | None => Some (false, mkCrypter (replicate 32 0) (replicate 16 0) (fKeySet c))
    end.

Definition SetKey (c : CCrypter) (chNewKey chNewIV : list Z) : bool * CCrypter :=
  if decide (length chNewKey <> WALLET_CRYPTO_KEY_SIZE) then (false, c)
  else if decide (length chNewIV <> WALLET_CRYPTO_IV_SIZE) then (false, c)
  else (true, mkCrypter chNewKey chNewIV true).

(** The returned vector is the second parameter after the call. *)
Definition CCrypter_Encrypt (c : CCrypter) (vchPlaintext vchCiphertext : list Z)
    : option (bool * list Z) :=
  if negb (fKeySet c) then Some (false, vchCiphertext)
  else
    let vchCiphertext := vector_resize (length vchPlaintext + 16) vchCiphertext in
    let enc := AES256CBC_new (chKey c) (chIV c) true in
    '(nLen, out) ← AES256CBCEncrypt_Encrypt enc (Some vchPlaintext)
                     (Z.of_nat (length vchPlaintext)) (Some vchCiphertext);
    let vchCiphertext := default [] out in
    if nLen <? Z.of_nat (length vchPlaintext) then Some (false, vchCiphertext)
    else Some (true, vector_resize (Z.to_nat nLen) vchCiphertext).

Definition CCrypter_Decrypt (c : CCrypter) (vchCiphertext vchPlaintext : list Z)
    : option (bool * list Z) :=
  if negb (fKeySet c) then Some (false, vchPlaintext)
  else
    let vchPlaintext := vector_resize (length vchCiphertext) vchPlaintext in
    let dec := AES256CBC_new (chKey c) (chIV c) true in
    '(nLen, out) ← AES256CBCDecrypt_Decrypt dec (Some vchCiphertext)
                     (Z.of_nat (length vchCiphertext)) (Some vchPlaintext);
    let vchPlaintext := default [] out in
    if nLen =? 0 then Some (false, vchPlaintext)
    else Some (true, vector_resize (Z.to_nat nLen) vchPlaintext).

(** A new [CCrypter]: its arrays are indeterminate ([garbage]). *)
Definition CCrypter_new (garbage : list Z * list Z) : CCrypter :=
  mkCrypter garbage.1 garbage.2 false.

Section Secret.
Context (garbage : list Z * list Z).

Definition EncryptSecret (vMasterKey vchPlaintext nIV vchCiphertext : list Z)
    : option (bool * list Z) :=
  let chIV := take WALLET_CRYPTO_IV_SIZE nIV in
  let '(ok, c) := SetKey (CCrypter_new garbage) vMasterKey chIV in
  if negb ok then Some (false, vchCiphertext)
  else CCrypter_Encrypt c vchPlaintext vchCiphertext.

Definition DecryptSecret (vMasterKey vchCiphertext nIV vchPlaintext : list Z)
    : option (bool * list Z) :=
  let chIV := take WALLET_CRYPTO_IV_SIZE nIV in
  let '(ok, c) := SetKey (CCrypter_new garbage) vMasterKey chIV in
  if negb ok then Some (false, vchPlaintext)
  else CCrypter_Decrypt c vchCiphertext vchPlaintext.

End Secret.

(** ** Keys *)

(** [CKey]: the octets are meaningful when [fValid]. *)
Record CKey := mkKey { fValid : bool; fCompressed : bool; key_vch : list Z }.

(** What the key classes take from libsecp256k1: validity of a private key, the
    serialized public key (compressed or not), and whether a fresh signature by the
    private key verifies under a public key. *)
Class Secp256k1 := {
  seckey_verify : list Z -> bool;
  pubkey_create : bool -> list Z -> list Z;
  sign_verify : list Z -> list Z -> bool;
}.

(** A public key is its serialization. *)
Definition CPubKey_IsCompressed (pub : list Z) : bool := bool_decide (length pub = 33%nat).

(** The map of encrypted keys and the state of the key store. *)
Record CCryptoKeyStore := mkStore {
  mapKeys : gmap (list Z) CKey;
  mapWatchKeys : gmap (list Z) (list Z);
  mapCryptedKeys : gmap (list Z) (list Z * list Z);
  vMasterKey : list Z;
  fUseCrypto : bool;
  fDecryptionThoroughlyChecked : bool;
}.

Definition CCryptoKeyStore_new : CCryptoKeyStore := mkStore ∅ ∅ ∅ [] false false.

(** [std::map] iterates in the order of its keys, [memcmp] on the octets. *)
Fixpoint key_le (a b : list Z) : bool :=
  match a, b with
  | [], _ => true
  | _ :: _, [] => false
  | x :: a, y :: b => (x <? y) || ((x =? y) && key_le a b)
  end.

Definition map_iter {V} (m : gmap (list Z) V) : list (list Z * V) :=
  merge_sort (fun p q => Is_true (key_le p.1 q.1)) (map_to_list m).

Section KeyStore.
Context `{EC : Secp256k1}.

(** Octets of the buffers of new hashers, and of a new [CCrypter]. *)
Context (g g' : list Z) (garbage : list Z * list Z).

(** [CKey::Set]. *)
Definition CKey_Set (k : CKey) (data : list Z) (fCompressedIn : bool) : CKey :=
  if decide (length data <> 32%nat) then mkKey false (fCompressed k) (key_vch k)
  else if seckey_verify data then mkKey true fCompressedIn data
  else mkKey false (fCompressed k) (key_vch k).

(** [CKey::GetPubKey] asserts validity. *)
Definition CKey_GetPubKey (k : CKey) : option (list Z) :=
  if fValid k then Some (pubkey_create (fCompressed k) (key_vch k)) else None.

Definition CKey_VerifyPubKey (k : CKey) (pub : list Z) : bool :=
  if negb (eqb (CPubKey_IsCompressed pub) (fCompressed k)) then false
  else sign_verify (key_vch k) pub.

(** [CKey(key.begin(), key.end())]: 32 octets, none for an invalid key. *)
Definition CKey_bytes (k : CKey) : list Z := if fValid k then key_vch k else [].

Definition CPubKey_GetHash (pub : list Z) : option (list Z) := Hash g [pub].
Definition CPubKey_GetID (pub : list Z) : option (list Z) := Hash160 g g' pub.

Definition DecryptKey (vMasterKey vchCryptedSecret vchPubKey : list Z) (key : CKey)
    : option (bool * CKey) :=
  h ← CPubKey_GetHash vchPubKey;
  '(ok, vchSecret) ← DecryptSecret garbage vMasterKey vchCryptedSecret h [];
  if negb (ok : bool) then Some (false, key)
  else if decide (length vchSecret <> 32%nat) then Some (false, key)
  else
    let key := CKey_Set key vchSecret (CPubKey_IsCompressed vchPubKey) in
    Some (CKey_VerifyPubKey key vchPubKey, key).

(** ** [CCryptoKeyStore] *)

Definition IsCrypted (s : CCryptoKeyStore) : bool := fUseCrypto s.

Definition IsLocked (s : CCryptoKeyStore) : bool :=
  if negb (IsCrypted s) then false else bool_decide (vMasterKey s = []).

Definition SetCrypted (s : CCryptoKeyStore) : bool * CCryptoKeyStore :=
  if fUseCrypto s then (true, s)
  else if decide (mapKeys s <> ∅) then (false, s)
  else (true, mkStore (mapKeys s) (mapWatchKeys s) (mapCryptedKeys s) (vMasterKey s) true
                      (fDecryptionThoroughlyChecked s)).

Definition Lock (s : CCryptoKeyStore) : bool * CCryptoKeyStore :=
  let '(ok, s) := SetCrypted s in
  if negb ok then (false, s)
  else (true, mkStore (mapKeys s) (mapWatchKeys s) (mapCryptedKeys s) [] (fUseCrypto s)
                      (fDecryptionThoroughlyChecked s)).

(** The scan of [Unlock]: [keyPass] and [keyFail]; it stops at the first key once the
    store has been checked thoroughly. *)
Fixpoint unlock_scan (vMasterKeyIn : list Z) (thorough : bool)
    (entries : list (list Z * (list Z * list Z))) (keyPass : bool) : option (bool * bool) :=
  match entries with
  | [] => Some (keyPass, false)
  | (_, (vchPubKey, vchCryptedSecret)) :: entries =>
      '(ok, _) ← DecryptKey vMasterKeyIn vchCryptedSecret vchPubKey (mkKey false false []);
      if negb (ok : bool) then Some (keyPass, true)
      else if thorough then Some (true, false)
      else unlock_scan vMasterKeyIn thorough entries true
  end.

Definition Unlock (s : CCryptoKeyStore) (vMasterKeyIn : list Z)
    : option (bool * CCryptoKeyStore) :=
  let '(ok, s) := SetCrypted s in
  if negb ok then Some (false, s)
  else
    '(keyPass, keyFail) ← unlock_scan vMasterKeyIn (fDecryptionThoroughlyChecked s)
                            (map_iter (mapCryptedKeys s)) false;
    if (keyFail : bool) || negb keyPass then Some (false, s)
    else Some (true, mkStore (mapKeys s) (mapWatchKeys s) (mapCryptedKeys s) vMasterKeyIn
                             (fUseCrypto s) true).

Definition AddCryptedKey (s : CCryptoKeyStore) (vchPubKey vchCryptedSecret : list Z)
    : option (bool * CCryptoKeyStore) :=
  let '(ok, s) := SetCrypted s in
  if negb ok then Some (false, s)
  else
    id ← CPubKey_GetID vchPubKey;
    Some (true, mkStore (mapKeys s) (mapWatchKeys s)
                  (<[id := (vchPubKey, vchCryptedSecret)]> (mapCryptedKeys s))
                  (vMasterKey s) (fUseCrypto s) (fDecryptionThoroughlyChecked s)).

(** [CBasicKeyStore::AddKeyPubKey]. *)
Definition Basic_AddKeyPubKey (s : CCryptoKeyStore) (key : CKey) (pubkey : list Z)
    : option (bool * CCryptoKeyStore) :=
  id ← CPubKey_GetID pubkey;
  Some (true, mkStore (<[id := key]> (mapKeys s)) (mapWatchKeys s) (mapCryptedKeys s)
                (vMasterKey s) (fUseCrypto s) (fDecryptionThoroughlyChecked s)).

Definition AddKeyPubKey (s : CCryptoKeyStore) (key : CKey) (pubkey : list Z)
    : option (bool * CCryptoKeyStore) :=
  if negb (IsCrypted s) then Basic_AddKeyPubKey s key pubkey
  else if IsLocked s then Some (false, s)
  else
    h ← CPubKey_GetHash pubkey;
    '(ok, vchCryptedSecret) ← EncryptSecret garbage (vMasterKey s) (CKey_bytes key) h [];
    if negb (ok : bool) then Some (false, s)
    else
      '(ok, s) ← AddCryptedKey s pubkey vchCryptedSecret;
      Some (ok : bool, s).

Definition HaveKey (s : CCryptoKeyStore) (address : list Z) : bool :=
  if negb (IsCrypted s) then bool_decide (is_Some (mapKeys s !! address))
  else bool_decide (is_Some (mapCryptedKeys s !! address)).

(** [GetKey]: the return value and the output parameter. *)
Definition GetKey (s : CCryptoKeyStore) (address : list Z) (keyOut : CKey)
    : option (bool * CKey) :=
  if negb (IsCrypted s) then
    match mapKeys s !! address with
    | Some k => Some (true, k)
    | None => Some (false, keyOut)
    end
  else
    match mapCryptedKeys s !! address with
    | Some (vchPubKey, vchCryptedSecret) =>
        DecryptKey (vMasterKey s) vchCryptedSecret vchPubKey keyOut
    | None => Some (false, keyOut)
    end.

(** [CBasicKeyStore::GetPubKey]. *)
Definition Basic_GetPubKey (s : CCryptoKeyStore) (address out : list Z)
    : option (bool * list Z) :=
  match mapKeys s !! address with
  | Some key => pub ← CKey_GetPubKey key; Some (true, pub)
  | None =>
      match mapWatchKeys s !! address with
      | Some pub => Some (true, pub)
      | None => Some (false, out)
      end
  end.

Definition CCryptoKeyStore_GetPubKey (s : CCryptoKeyStore) (address out : list Z)
    : option (bool * list Z) :=
  if negb (IsCrypted s) then Basic_GetPubKey s address out
  else
    match mapCryptedKeys s !! address with
    | Some (pub, _) => Some (true, pub)
    | None => Basic_GetPubKey s address out
    end.

(** The loop of [EncryptKeys] over [mapKeys]; it stops at the first failure. *)
Fixpoint encrypt_each (vMasterKeyIn : list Z) (entries : list (list Z * CKey))
    (s : CCryptoKeyStore) : option (bool * CCryptoKeyStore) :=
  match entries with
  | [] => Some (true, s)
  | (_, key) :: entries =>
      vchPubKey ← CKey_GetPubKey key;
      h ← CPubKey_GetHash vchPubKey;
      '(ok, vchCryptedSecret) ← EncryptSecret garbage vMasterKeyIn (CKey_bytes key) h [];
      if negb (ok : bool) then Some (false, s)
      else
        '(ok, s) ← AddCryptedKey s vchPubKey vchCryptedSecret;
        if negb (ok : bool) then Some (false, s)
        else encrypt_each vMasterKeyIn entries s
  end.

Definition EncryptKeys (s : CCryptoKeyStore) (vMasterKeyIn : list Z)
    : option (bool * CCryptoKeyStore) :=
  if decide (mapCryptedKeys s <> ∅) then Some (false, s)
  else if IsCrypted s then Some (false, s)
  else
    let s := mkStore (mapKeys s) (mapWatchKeys s) (mapCryptedKeys s) (vMasterKey s) true
                     (fDecryptionThoroughlyChecked s) in
    '(ok, s) ← encrypt_each vMasterKeyIn (map_iter (mapKeys s)) s;
    if negb (ok : bool) then Some (false, s)
    else Some (true, mkStore ∅ (mapWatchKeys s) (mapCryptedKeys s) (vMasterKey s)
                             (fUseCrypto s) (fDecryptionThoroughlyChecked s)).

End KeyStore.
