(* ===== verification/CrypterTheorems.v ===== *)
(** * wallet/crypter.cpp: an encrypted wallet gives its keys back

    Composition of the AES, CBC, SHA and RIPEMD results: key derivation, the
    encryption of secrets, and the key store through its life cycle; the theorems come
    last. *)

From stdpp Require Import gmap sorting.
From S2P Require Import Prelude Ctaes CtaesLanes CtaesProofs MdHash ShaSpec Sha512 Hash AesCbc Crypter.
#[local] Open Scope Z_scope.

(** ** Vectors *)

Lemma vector_resize_ge n v : (length v <= n)%nat -> length (vector_resize n v) = n.
Proof. intros. unfold vector_resize. rewrite length_app, length_take, length_replicate. lia. Qed.

Lemma length_vector_resize n v : length (vector_resize n v) = n.
Proof. unfold vector_resize. rewrite length_app, length_take, length_replicate. lia. Qed.

Lemma vector_resize_app (a b : list Z) n : n = length a -> vector_resize n (a ++ b) = a.
Proof.
  intros ->. unfold vector_resize. rewrite take_app_length, length_app.
  replace (length a - (length a + length b))%nat with 0%nat by lia. by rewrite app_nil_r.
Qed.

(** ** Encrypting and decrypting a secret *)

Definition master_ok (mk : list Z) : Prop := length mk = 32%nat /\ Forall (fits 8) mk.

Lemma master_valid mk : master_ok mk -> valid_key AES256 mk.
Proof. done. Qed.

Lemma SetKey_ok c mk iv :
  master_ok mk -> is_block iv -> SetKey c mk iv = (true, mkCrypter mk iv true).
Proof.
  intros [Hm _] [Hi _]. unfold SetKey, WALLET_CRYPTO_KEY_SIZE, WALLET_CRYPTO_IV_SIZE.
  by rewrite decide_False, decide_False by auto.
Qed.

Lemma length_pkcs7 m : (length m < length (pkcs7 m) <= length m + 16)%nat.
Proof.
  unfold pkcs7. cbv zeta. rewrite length_app, length_replicate.
  pose proof (Nat.mod_upper_bound (length m) 16). lia.
Qed.

Lemma CCrypter_roundtrip mk iv m buf buf' :
  master_ok mk -> is_block iv -> Forall (fits 8) m -> m <> [] ->
  exists ct, CCrypter_Encrypt (mkCrypter mk iv true) m buf = Some (true, ct) /\
    length ct = length (pkcs7 m) /\ Forall (fits 8) ct /\
    CCrypter_Decrypt (mkCrypter mk iv true) ct buf' = Some (true, m).
Proof.
  intros Hmk Hiv Hm Hne. pose proof (length_pkcs7 m) as Hp.
  assert (length m <> 0%nat) as Hm0 by (by destruct m).
  pose proof (aes256_cipher mk (master_valid mk Hmk)) as BC.
  set (out := vector_resize (length m + 16) buf).
  set (out' := vector_resize (length (pkcs7 m)) buf').
  destruct (CBC_roundtrip iv m out out') as (ct & rest & HE & Hl & Hf & HD);
    [done | done | done | unfold out; by rewrite length_vector_resize
     | unfold out'; by rewrite length_vector_resize |].
  exists ct. unfold CCrypter_Encrypt, CCrypter_Decrypt. cbn [fKeySet chKey chIV negb].
  unfold AES256CBCEncrypt_Encrypt, AES256CBCDecrypt_Decrypt, AES256CBC_new.
  cbn [c256_ctx c256_pad c256_iv]. cbv zeta. fold out. rewrite HE, obind_Some.
  change (default [] (Some ?x)) with x.
  destruct (Z.ltb_spec (Z.of_nat (length (pkcs7 m))) (Z.of_nat (length m))); [lia |].
  rewrite Nat2Z.id, vector_resize_app by lia. split_and!; [done.. |].
  rewrite Hl. fold out'. rewrite Hl in HD. rewrite HD, obind_Some.
  destruct (Z.eqb_spec (Z.of_nat (length m)) 0); [lia |].
  rewrite Nat2Z.id. unfold pkcs7 at 1. cbv zeta.
  change (default [] (Some ?x)) with x. rewrite <- app_assoc, vector_resize_app by done. done.
Qed.

Lemma secret_roundtrip garbage mk iv m buf :
  master_ok mk -> length iv = 32%nat -> Forall (fits 8) iv -> Forall (fits 8) m -> m <> [] ->
  exists ct, EncryptSecret garbage mk m iv buf = Some (true, ct) /\
    forall garbage' buf', DecryptSecret garbage' mk ct iv buf' = Some (true, m).
Proof.
  intros Hmk Hl Hf Hm Hne.
  assert (is_block (take WALLET_CRYPTO_IV_SIZE iv)) as Hiv.
  { split; [| by apply Forall_take]. unfold WALLET_CRYPTO_IV_SIZE. rewrite length_take. lia. }
  unfold EncryptSecret, DecryptSecret. cbv zeta.
  rewrite SetKey_ok by done. cbn [negb].
  destruct (CCrypter_roundtrip mk _ m buf [] Hmk Hiv Hm Hne) as (ct & HE & _ & _ & _).
  exists ct. split; [done |]. intros garbage' buf'. rewrite SetKey_ok by done. cbn [negb].
  destruct (CCrypter_roundtrip mk _ m buf buf' Hmk Hiv Hm Hne) as (ct' & HE' & _ & _ & HD).
  rewrite HE in HE'. by injection HE' as ->.
Qed.

(** ** Key derivation *)

Lemma derive_loop_ok n di buf :
  @sh_used CSHA512 sha512 _ di -> length buf = 64%nat -> Forall (fits 8) buf ->
  derive_loop n di buf = Some (Nat.iter n sha512 buf).
Proof.
  revert di buf. induction n as [|n IH]; intros di buf Hdi Hl Hb; [done |].
  cbn [derive_loop].
  destruct (sh_write_ok (H := CSHA512) (digest := sha512) (sha512.Reset di) [] buf)
    as (c1 & E1 & H1);
    [by apply (sh_reset_ok (H := CSHA512)) | done | rewrite Hl; cbn [length]; lia |].
  cbn [sh_write CSHA512] in E1. rewrite E1, obind_Some.
  destruct (sh_finalize_ok (H := CSHA512) c1 _ H1) as (c2 & E2 & H2);
    [cbn [app]; rewrite Hl; lia |].
  cbn [sh_finalize CSHA512 app] in E2. rewrite E2, obind_Some.
  destruct (sh_digest_wf (H := CSHA512) (digest := sha512) buf Hb) as [Hl' Hb'].
  rewrite IH by done. f_equal. symmetry. apply Nat.iter_succ_r.
Qed.

Lemma BytesToKey_ok g salt pass count :
  length g = 128%nat -> Forall (fits 8) salt -> Forall (fits 8) pass ->
  Z.of_nat (length pass + length salt) < 2 ^ 61 -> (0 < count)%nat ->
  let D := Nat.iter count sha512 (pass ++ salt) in
  BytesToKeySHA512AES g salt pass count = Some (Some (take 32 D, take 16 (drop 32 D))) /\
  length D = 64%nat /\ Forall (fits 8) D.
Proof.
  intros Hg Hs Hp Hlen Hc. cbv zeta.
  assert (Forall (fits 8) (pass ++ salt)) as Hps by (by apply Forall_app_2).
  destruct (sh_digest_wf (H := CSHA512) (digest := sha512) _ Hps) as [Hl Hb].
  destruct count as [|n]; [lia |].
  assert (Nat.iter (S n) sha512 (pass ++ salt) = Nat.iter n sha512 (sha512 (pass ++ salt))) as ->
    by apply Nat.iter_succ_r.
  split; cycle 1.
  { clear Hc. induction n as [|n IH]; [done |]. cbn [Nat.iter].
    apply (sh_digest_wf (H := CSHA512) (digest := sha512)), IH. }
  unfold BytesToKeySHA512AES. rewrite decide_False by lia.
  destruct (sh_write_ok (H := CSHA512) (digest := sha512) (sha512.new g) [] pass)
    as (c1 & E1 & H1);
    [by apply (sh_new_ok (H := CSHA512)) | done | cbn [length]; lia |].
  cbn [sh_write CSHA512 app] in E1, H1. rewrite E1, obind_Some.
  match goal with |- ((if ?d then ?a else ?b) ≫= _) = _ =>
    assert (exists c2, (if d then a else b) = Some c2 /\
      sh_holds (H := CSHA512) (digest := sha512) c2 (pass ++ salt)) as (c2 & -> & H2) end.
  { case_decide as Hsalt; [subst salt |].
    - exists c1. rewrite app_nil_r. done.
    - by apply (sh_write_ok (H := CSHA512)). }
  rewrite obind_Some.
  destruct (sh_finalize_ok (H := CSHA512) c2 _ H2) as (c3 & E3 & H3); [rewrite length_app; lia |].
  cbn [sh_finalize CSHA512] in E3. rewrite E3, obind_Some.
  rewrite (derive_loop_ok _ c3) by done. rewrite obind_Some. cbn [Nat.sub].
  by rewrite Nat.sub_0_r.
Qed.

(** ** The key store *)

(** What is relied on of libsecp256k1: a serialized public key has 33 or 65 octets, and
    a signature by a valid private key verifies under its own public key. *)
Class Secp256k1Ok (EC : Secp256k1) := {
  ec_pub sk c : seckey_verify sk = true ->
    length (pubkey_create c sk) = (if c then 33 else 65)%nat /\ Forall (fits 8) (pubkey_create c sk);
  ec_sign sk c : seckey_verify sk = true -> sign_verify sk (pubkey_create c sk) = true;
}.

Section Store.
Context `{ECOK : !Secp256k1Ok EC}.
Context (g g' : list Z) (garbage : list Z * list Z).
Context (Hg : length g = 64%nat) (Hg' : length g' = 64%nat).

Definition key_ok (k : CKey) : Prop :=
  fValid k = true /\ length (key_vch k) = 32%nat /\ Forall (fits 8) (key_vch k) /\
  seckey_verify (key_vch k) = true.

Definition pub_of (k : CKey) : list Z := pubkey_create (fCompressed k) (key_vch k).
Definition id_of (k : CKey) : list Z := hash160 (pub_of k).

Lemma pub_of_wf k :
  key_ok k -> length (pub_of k) = (if fCompressed k then 33 else 65)%nat /\
  Forall (fits 8) (pub_of k).
Proof. intros (_ & _ & _ & Hk). by apply ec_pub. Qed.

Lemma pubkey_GetHash_ok pub :
  Forall (fits 8) pub -> Z.of_nat (length pub) < 2 ^ 61 ->
  CPubKey_GetHash g pub = Some (dsha256 pub).
Proof.
  intros Hb Hl. unfold CPubKey_GetHash, Hash.
  rewrite (sh_run_ok (H := CHash256) (digest := dsha256)); cbn [concat]; rewrite ?app_nil_r; done.
Qed.

Lemma GetID_ok pub :
  Forall (fits 8) pub -> Z.of_nat (length pub) < 2 ^ 61 ->
  CPubKey_GetID g g' pub = Some (hash160 pub).
Proof.
  intros Hb Hl. unfold CPubKey_GetID, Hash160. pose proof (CHash160_ok g' Hg').
  rewrite (sh_run_ok (H := CHash160 g') (digest := hash160)); cbn [concat];
    rewrite ?app_nil_r; done.
Qed.

(** [ct] is an encryption of the private key of [k] under [mk]. *)
Definition encrypts (mk : list Z) (k : CKey) (ct : list Z) : Prop :=
  forall gb buf, DecryptSecret gb mk ct (dsha256 (pub_of k)) buf = Some (true, key_vch k).

Lemma dsha256_wf m : Forall (fits 8) m -> length (dsha256 m) = 32%nat /\ Forall (fits 8) (dsha256 m).
Proof. intros. by apply (sh_digest_wf (H := CHash256)). Qed.

Lemma EncryptSecret_key mk k :
  master_ok mk -> key_ok k ->
  exists ct, EncryptSecret garbage mk (CKey_bytes k) (dsha256 (pub_of k)) [] = Some (true, ct) /\
    encrypts mk k ct.
Proof.
  intros Hmk Hk. destruct (pub_of_wf k Hk) as [_ Hp]. destruct (dsha256_wf _ Hp) as [Hl Hf].
  destruct Hk as (Hv & Hkl & Hkf & _). unfold CKey_bytes. rewrite Hv.
  apply secret_roundtrip; [done.. |]. intros E. by rewrite E in Hkl.
Qed.

Lemma DecryptKey_ok mk k ct kout :
  key_ok k -> encrypts mk k ct ->
  DecryptKey g garbage mk ct (pub_of k) kout = Some (true, k).
Proof.
  intros Hk Henc. destruct (pub_of_wf k Hk) as [Hpl Hp]. unfold DecryptKey.
  rewrite pubkey_GetHash_ok by (done || (rewrite Hpl; destruct (fCompressed k); lia)).
  rewrite obind_Some, Henc, obind_Some. cbn [negb].
  destruct Hk as (Hv & Hkl & Hkf & Hok). rewrite decide_False by auto.
  assert (CPubKey_IsCompressed (pub_of k) = fCompressed k) as Hc.
  { unfold CPubKey_IsCompressed. rewrite Hpl. by destruct (fCompressed k). }
  rewrite Hc. unfold CKey_Set. rewrite decide_False by auto. rewrite Hok.
  assert (mkKey true (fCompressed k) (key_vch k) = k) as -> by (destruct k; simpl in *; by subst).
  unfold CKey_VerifyPubKey. rewrite Hc, eqb_reflx. cbn [negb]. unfold pub_of.
  by rewrite ec_sign.
Qed.

(** Every key of [keys] is encrypted in [m], under its own identifier. *)
Definition covers (mk : list Z) (keys : list CKey) (m : gmap (list Z) (list Z * list Z)) : Prop :=
  forall k, k ∈ keys -> exists ct, m !! id_of k = Some (pub_of k, ct) /\ encrypts mk k ct.

Lemma encrypt_each_ok mk entries s :
  master_ok mk -> fUseCrypto s = true ->
  Forall (fun p => key_ok p.2 /\ p.1 = id_of p.2) entries -> NoDup entries.*1 ->
  exists m', encrypt_each g g' garbage mk entries s =
    Some (true, mkStore (mapKeys s) (mapWatchKeys s) m' (vMasterKey s) true
                  (fDecryptionThoroughlyChecked s)) /\
    covers mk entries.*2 m' /\
    (forall id, id ∉ entries.*1 -> m' !! id = mapCryptedKeys s !! id).
Proof.
  intros Hmk Hu Hall. revert s Hu. induction Hall as [|[id k] es [Hk Hid] Hall IH]; intros s Hu Hnd.
  { exists (mapCryptedKeys s). destruct s. simpl in *. subst. split_and!; [done | | done].
    intros k Hk. by apply not_elem_of_nil in Hk. }
  cbn [fst snd fmap list_fmap] in *. inversion Hnd as [|? ? Hni Hnd1]; subst; rename Hnd1 into Hnd0.
  destruct (pub_of_wf k Hk) as [Hpl Hp].
  assert (Z.of_nat (length (pub_of k)) < 2 ^ 61) as Hpl'
    by (rewrite Hpl; destruct (fCompressed k); lia).
  cbn [encrypt_each]. unfold CKey_GetPubKey. destruct Hk as (Hv & Hkr).
  rewrite Hv, obind_Some. fold (pub_of k). rewrite pubkey_GetHash_ok, obind_Some by done.
  destruct (EncryptSecret_key mk k Hmk (conj Hv Hkr)) as (ct & HE & Henc).
  rewrite HE, obind_Some. cbn [negb]. unfold AddCryptedKey, SetCrypted. rewrite Hu. cbn [negb].
  rewrite GetID_ok, !obind_Some by done. cbn [negb]. fold (id_of k).
  match goal with |- context [encrypt_each _ _ _ _ _ ?s1] => destruct (IH s1) as (m' & -> & Hc & Hr) end;
    [done | done |].
  exists m'. cbn [mapKeys mapWatchKeys vMasterKey fDecryptionThoroughlyChecked] in *.
  split_and!; [done | |].
  - intros k0 [->|Hk0]%elem_of_cons; [| by apply Hc]. exists ct. split; [| done].
    rewrite Hr by done. cbn [mapCryptedKeys]. apply lookup_insert_eq.
  - intros id0 [Hn1 Hn2]%not_elem_of_cons. rewrite Hr by done. cbn [mapCryptedKeys].
    by apply lookup_insert_ne.
Qed.

(** ** Iterating over a map *)

#[local] Instance key_le_dec {V} (p q : list Z * V) : Decision (Is_true (key_le p.1 q.1)).
Proof. apply _. Defined.

Lemma map_iter_perm {V} (m : gmap (list Z) V) : map_iter m ≡ₚ map_to_list m.
Proof. apply merge_sort_Permutation. Qed.

Lemma elem_of_map_iter {V} (m : gmap (list Z) V) id v : (id, v) ∈ map_iter m <-> m !! id = Some v.
Proof. rewrite map_iter_perm. apply elem_of_map_to_list. Qed.

Lemma map_iter_NoDup {V} (m : gmap (list Z) V) : NoDup (map_iter m).*1.
Proof. rewrite map_iter_perm. apply NoDup_fst_map_to_list. Qed.

(** A store whose keys are valid and filed under their own identifiers. *)
Definition keyed (s : CCryptoKeyStore) : Prop :=
  forall id k, mapKeys s !! id = Some k -> key_ok k /\ id = id_of k.

(** The encrypted form of [keys]: each of them can be decrypted with [mk]. *)
Definition encrypted_as (mk : list Z) (keys : gmap (list Z) CKey) (s : CCryptoKeyStore) : Prop :=
  fUseCrypto s = true /\ mapKeys s = ∅ /\
  forall id, match keys !! id with
    | Some k => key_ok k /\ exists ct, mapCryptedKeys s !! id = Some (pub_of k, ct) /\ encrypts mk k ct
    | None => mapCryptedKeys s !! id = None
    end.

Lemma EncryptKeys_ok mk s :
  master_ok mk -> fUseCrypto s = false -> mapCryptedKeys s = ∅ -> keyed s ->
  exists s', EncryptKeys g g' garbage s mk = Some (true, s') /\
    encrypted_as mk (mapKeys s) s' /\ vMasterKey s' = vMasterKey s /\
    fDecryptionThoroughlyChecked s' = fDecryptionThoroughlyChecked s.
Proof.
  intros Hmk Hu Hc Hkeyed. unfold EncryptKeys, IsCrypted. rewrite decide_False, Hu by auto.
  set (s1 := mkStore _ _ _ _ true _).
  assert (Forall (fun p => key_ok p.2 /\ p.1 = id_of p.2) (map_iter (mapKeys s1))) as Hall.
  { apply list.Forall_forall. intros [id k] Hin. apply elem_of_map_iter in Hin. by apply Hkeyed. }
  destruct (encrypt_each_ok mk (map_iter (mapKeys s1)) s1 Hmk eq_refl Hall (map_iter_NoDup _))
    as (m' & -> & Hcov & Hrest).
  rewrite obind_Some. cbn [negb]. eexists. split; [done |]. split; [| done].
  split; [done |]. split; [done |]. intros id. cbn [mapCryptedKeys].
  destruct (mapKeys s !! id) as [k|] eqn:Ek.
  - destruct (Hkeyed id k Ek) as [Hok ->]. split; [done |]. apply Hcov.
    apply list_elem_of_fmap. exists (id_of k, k). split; [done |]. by apply elem_of_map_iter.
  - rewrite Hrest; [cbn [mapCryptedKeys s1]; by rewrite Hc, lookup_empty |].
    intros ([id' k] & -> & Hin)%list_elem_of_fmap. apply elem_of_map_iter in Hin. cbn in *. congruence.
Qed.

(** ** Unlocking *)

Lemma unlock_scan_ok mk keys s thorough entries pass :
  encrypted_as mk keys s -> (forall p, p ∈ entries -> mapCryptedKeys s !! p.1 = Some p.2) ->
  unlock_scan g garbage mk thorough entries pass =
    Some (pass || negb (bool_decide (entries = [])), false).
Proof.
  intros (_ & _ & Henc). revert pass. induction entries as [|[id [pub ct]] es IH]; intros pass Hin.
  { cbn. by rewrite orb_false_r. }
  cbn [unlock_scan]. assert (mapCryptedKeys s !! id = Some (pub, ct)) as E
    by (apply (Hin (id, (pub, ct))); left).
  specialize (Henc id) as Hid. destruct (keys !! id) as [k|]; [| congruence].
  destruct Hid as (Hk & ct' & E' & He). rewrite E in E'. injection E' as -> ->.
  rewrite (DecryptKey_ok mk k) by done. rewrite obind_Some. cbn [negb].
  rewrite bool_decide_false by done. cbn [negb]. rewrite orb_true_r.
  destruct thorough; [done |]. rewrite IH by (intros; apply Hin; by right). done.
Qed.

Lemma Unlock_ok mk keys s :
  encrypted_as mk keys s -> keys <> ∅ ->
  exists s', Unlock g garbage s mk = Some (true, s') /\ encrypted_as mk keys s' /\
    vMasterKey s' = mk /\ fDecryptionThoroughlyChecked s' = true.
Proof.
  intros Henc Hne. pose proof Henc as (Hu & Hk & Hall). unfold Unlock, SetCrypted. rewrite Hu.
  cbn [negb]. rewrite (unlock_scan_ok mk keys s) by (done || (intros [id v] Hp; by apply elem_of_map_iter)).
  rewrite obind_Some. cbn [orb].
  assert (map_iter (mapCryptedKeys s) <> []) as Hmi.
  { apply map_choose in Hne as (id & k & E). specialize (Hall id). rewrite E in Hall.
    destruct Hall as (_ & ct & E' & _). apply elem_of_map_iter in E'. intros Hnil.
    rewrite Hnil in E'. by apply not_elem_of_nil in E'. }
  rewrite bool_decide_false by done. cbn [negb orb]. eexists. split; [done |].
  split_and!; [| done | done]. split_and!; [done.. |]. exact Hall.
Qed.

(** ** The life of a store *)

(** The calls other than [EncryptKeys], each with any arguments and any result. *)
Inductive ks_step : CCryptoKeyStore -> CCryptoKeyStore -> Prop :=
| step_add s k pub b s' : AddKeyPubKey g g' garbage s k pub = Some (b, s') -> ks_step s s'
| step_add_crypted s pub ct b s' : AddCryptedKey g g' s pub ct = Some (b, s') -> ks_step s s'
| step_lock s b s' : Lock s = (b, s') -> ks_step s s'
| step_unlock s mk b s' : Unlock g garbage s mk = Some (b, s') -> ks_step s s'.

(** The stores a new one becomes under any calls, with the keys that were in the clear
    when a call of [EncryptKeys] failed, if one did: it has then set [fUseCrypto] and
    encrypted some of the keys. *)
Inductive ks_run : CCryptoKeyStore -> option (gmap (list Z) CKey) -> Prop :=
| run_new : ks_run CCryptoKeyStore_new None
| run_step s f s' : ks_run s f -> ks_step s s' -> ks_run s' f
| run_encrypt s f mk (b : bool) s' :
    ks_run s f -> EncryptKeys g g' garbage s mk = Some (b, s') ->
    ks_run s' (if b || IsCrypted s then f else Some (mapKeys s)).

(** The comment on [fUseCrypto], and the state a failed encryption leaves: no clear key in
    a crypted store but the ones that [EncryptKeys] failed on, no master key and no
    encrypted key in a clear one. *)
Definition ks_inv (s : CCryptoKeyStore) (f : option (gmap (list Z) CKey)) : Prop :=
  if fUseCrypto s then mapKeys s = default ∅ f else f = None /\ vMasterKey s = [] /\ mapCryptedKeys s = ∅.

Lemma SetCrypted_inv s f b s' :
  ks_inv s f -> SetCrypted s = (b, s') ->
  if b then fUseCrypto s' = true /\ mapKeys s' = default ∅ f /\ vMasterKey s' = vMasterKey s else s' = s.
Proof.
  unfold ks_inv, SetCrypted. intros Hs E. destruct (fUseCrypto s) eqn:Eu.
  { by injection E as <- <-. }
  destruct Hs as [-> _]. case_decide as Hk; injection E as <- <-; [done |]. cbn. split_and!; [done | | done].
  by destruct (decide (mapKeys s = ∅)).
Qed.

Lemma AddCryptedKey_inv s f pub ct b s' :
  ks_inv s f -> AddCryptedKey g g' s pub ct = Some (b, s') -> ks_inv s' f.
Proof.
  unfold AddCryptedKey. intros Hs E. destruct (SetCrypted s) as [ok s1] eqn:E1.
  apply (SetCrypted_inv s f) in E1; [| done]. destruct ok; cbn [negb] in E; [| by simplify_eq].
  destruct E1 as (Hu & Hk & _). destruct (CPubKey_GetID g g' pub); [| done].
  rewrite obind_Some in E. injection E as <- <-. unfold ks_inv. cbn. by rewrite Hu.
Qed.

Lemma ks_step_inv s f s' : ks_inv s f -> ks_step s s' -> ks_inv s' f.
Proof.
  intros Hs Hst. destruct Hst as [s k pub b s' E|s pub ct b s' E|s b s' E|s mk b s' E].
  - unfold AddKeyPubKey, IsCrypted in E. destruct (fUseCrypto s) eqn:Eu; cbn [negb] in E.
    + destruct (IsLocked s); [by simplify_eq |].
      destruct (CPubKey_GetHash g pub); [| done]. rewrite obind_Some in E.
      destruct (EncryptSecret _ _ _ _ _) as [[ok ct]|]; [| done]. rewrite obind_Some in E.
      destruct ok; cbn [negb] in E; [| by simplify_eq].
      destruct (AddCryptedKey g g' s pub ct) as [[b' s1]|] eqn:Ea; [| done].
      rewrite obind_Some in E. injection E as <- <-. by eapply AddCryptedKey_inv.
    + unfold Basic_AddKeyPubKey in E. destruct (CPubKey_GetID g g' pub); [| done].
      rewrite obind_Some in E. injection E as <- <-. unfold ks_inv in *. by rewrite Eu in *.
  - by eapply AddCryptedKey_inv.
  - unfold Lock in E. destruct (SetCrypted s) as [ok s1] eqn:E1.
    apply (SetCrypted_inv s f) in E1; [| done]. destruct ok; cbn [negb] in E; [| by simplify_eq].
    destruct E1 as (Hu & Hk & _). injection E as <- <-. unfold ks_inv. cbn. by rewrite Hu.
  - unfold Unlock in E. destruct (SetCrypted s) as [ok s1] eqn:E1.
    apply (SetCrypted_inv s f) in E1; [| done]. destruct ok; cbn [negb] in E; [| by simplify_eq].
    destruct E1 as (Hu & Hk & _). destruct (unlock_scan _ _ _ _ _ _) as [[p q]|]; [| done].
    rewrite obind_Some in E. destruct (q || negb p); injection E as <- <-;
      unfold ks_inv; cbn; by rewrite Hu.
Qed.

(** The loop of [EncryptKeys] leaves the clear keys where they are, whatever it returns. *)
Lemma encrypt_each_keeps mk es s b s' :
  fUseCrypto s = true -> encrypt_each g g' garbage mk es s = Some (b, s') ->
  fUseCrypto s' = true /\ mapKeys s' = mapKeys s.
Proof.
  revert s. induction es as [|[i k] es IH]; intros s Hu E; cbn [encrypt_each] in E; [by simplify_eq |].
  destruct (CKey_GetPubKey k) as [pub|]; [| done]. rewrite obind_Some in E.
  destruct (CPubKey_GetHash g pub); [| done]. rewrite obind_Some in E.
  destruct (EncryptSecret _ _ _ _ _) as [[[] ct]|]; [| rewrite obind_Some in E; cbn [negb] in E; by simplify_eq | done].
  rewrite obind_Some in E. cbn [negb] in E. unfold AddCryptedKey, SetCrypted in E. rewrite Hu in E. cbn [negb] in E.
  destruct (CPubKey_GetID g g' pub); [| done]. rewrite !obind_Some in E. cbn [negb] in E.
  apply IH in E; [| done]. exact E.
Qed.

Lemma EncryptKeys_inv s f mk b s' :
  ks_inv s f -> EncryptKeys g g' garbage s mk = Some (b, s') ->
  ks_inv s' (if b || IsCrypted s then f else Some (mapKeys s)).
Proof.
  unfold EncryptKeys, IsCrypted. intros Hs E. unfold ks_inv in Hs. destruct (fUseCrypto s) eqn:Eu.
  { rewrite orb_true_r. unfold ks_inv. case_decide; injection E as <- <-; by rewrite Eu. }
  destruct Hs as (-> & _ & Hc). rewrite decide_False in E by (intros H; by apply H).
  destruct (encrypt_each _ _ _ _ _ _) as [[ok s1]|] eqn:Ee; [| done]. rewrite obind_Some in E.
  apply encrypt_each_keeps in Ee as [Hu Hk]; [| done]. cbn [mapKeys] in Hk. rewrite orb_false_r.
  destruct ok; injection E as <- <-; unfold ks_inv; cbn; by rewrite Hu.
Qed.

Lemma ks_run_inv s f : ks_run s f -> ks_inv s f.
Proof.
  induction 1 as [| s f s' _ IH Hst | s f mk b s' _ IH E]; [by split_and! | by eapply ks_step_inv | by eapply EncryptKeys_inv].
Qed.

(** An empty master key decrypts nothing. *)
Lemma DecryptKey_no_master ct pub kout k :
  DecryptKey g garbage [] ct pub kout <> Some (true, k).
Proof.
  unfold DecryptKey. destruct (CPubKey_GetHash g pub) as [h|]; [| done]. rewrite obind_Some.
  unfold DecryptSecret, SetKey. cbv zeta. rewrite decide_True by done. cbn [negb].
  by rewrite obind_Some.
Qed.

End Store.

(** * wallet/crypter.cpp: theorems

    The properties of the wallet's encryption, with their instances. *)

#[local] Open Scope Z_scope.

(** An implementation of the curve interface, for the instances below: every 32-octet
    string is a private key and all keys verify. *)
Definition toy_curve : Secp256k1 := {|
  seckey_verify _ := true;
  pubkey_create c sk := if c then 2 :: replicate 32 1 else 4 :: replicate 64 1;
  sign_verify _ _ := true;
|}.

#[export] Instance toy_curve_ok : Secp256k1Ok toy_curve.
Proof.
  split; [| done]. intros sk c _. destruct c; (split; [done |]); cbn;
    forall_build ltac:(by unfold fits).
Qed.

Definition toy_key : CKey := mkKey true true (replicate 32 9).

Lemma toy_key_ok : key_ok (EC := toy_curve) toy_key.
Proof. split_and!; [done | done | | done]. cbn. forall_build ltac:(by unfold fits). Qed.

Lemma toy_master_ok : master_ok (replicate 32 5).
Proof. split; [done |]. cbn. forall_build ltac:(by unfold fits). Qed.

Definition toy_store : CCryptoKeyStore :=
  mkStore {[id_of (EC := toy_curve) toy_key := toy_key]} ∅ ∅ [] false false.

(** CBC with PKCS #7 padding over any block cipher: encryption writes whole blocks
    into a buffer with room for sixteen more octets than the message, without leaving
    it, and decryption of those blocks into any buffer of their size returns the length
    of the message and the message. *)
Theorem cbc_roundtrip E D iv m out out' :
  BlockCipher E D -> is_block iv -> Forall (fits 8) m -> m <> [] ->
  (length m + 16 <= length out)%nat -> (length (pkcs7 m) <= length out')%nat ->
  exists c rest,
    CBCEncrypt E iv (Some m) (Z.of_nat (length m)) true (Some out) =
      Some (Z.of_nat (length c), Some (c ++ rest)) /\
    exists rest', CBCDecrypt D iv (Some c) (Z.of_nat (length c)) true (Some out') =
      Some (Z.of_nat (length m), Some (m ++ rest')).
Proof.
  intros BC Hiv Hm Hne Ho Ho'.
  destruct (CBC_roundtrip iv m out out') as (c & rest & HE & Hl & _ & HD); [done.. |].
  exists c, rest. split; [by rewrite Hl |]. rewrite HD. unfold pkcs7 at 1. cbv zeta.
  eexists. by rewrite <- app_assoc.
Qed.

Lemma cbc_roundtrip_witness :
  exists c rest,
    CBCEncrypt (AES256Encrypt_Encrypt (AES256_init (replicate 32 5))) (replicate 16 3)
      (Some [1; 2; 3]) 3 true (Some (replicate 19 0)) = Some (Z.of_nat (length c), Some (c ++ rest)) /\
    exists rest', CBCDecrypt (AES256Decrypt_Decrypt (AES256_init (replicate 32 5))) (replicate 16 3)
      (Some c) (Z.of_nat (length c)) true (Some (replicate 16 0)) = Some (3, Some ([1; 2; 3] ++ rest')).
Proof.
  apply (cbc_roundtrip _ _ (replicate 16 3) [1; 2; 3] (replicate 19 0) (replicate 16 0)).
  - apply aes256_cipher, toy_master_ok.
  - split; [done |]. cbn. forall_build ltac:(by unfold fits).
  - forall_build ltac:(by unfold fits).
  - done.
  - cbn. lia.
  - cbn. lia.
Defined.

(** Decryption decides PKCS #7 padding exactly: for any non-empty ciphertext of whole
    blocks, the return value is the length of the message whose padding was written,
    and 0 when the decrypted octets do not end in well-formed padding. *)
Theorem cbc_decrypt_padding E D iv cs out :
  BlockCipher E D -> is_block iv -> Forall is_block cs -> cs <> [] ->
  (16 * length cs <= length out)%nat ->
  let P := concat (cbc_d D iv cs) in
  CBCDecrypt D iv (Some (concat cs)) (Z.of_nat (length (concat cs))) true (Some out) =
  Some (match unpkcs7 P with Some m => Z.of_nat (length m) | None => 0 end,
        Some (P ++ drop (length P) out)).
Proof.
  intros BC Hiv Hcs Hne Ho. cbv zeta. rewrite CBCDecrypt_pad by done.
  by destruct (unpkcs7 (concat (cbc_d D iv cs))).
Qed.

Lemma cbc_decrypt_padding_witness :
  let D := AES256Decrypt_Decrypt (AES256_init (replicate 32 5)) in
  let P := concat (cbc_d D (replicate 16 3) [replicate 16 7]) in
  CBCDecrypt D (replicate 16 3) (Some (replicate 16 7)) 16 true (Some (replicate 16 0)) =
  Some (match unpkcs7 P with Some m => Z.of_nat (length m) | None => 0 end,
        Some (P ++ drop (length P) (replicate 16 0))).
Proof.
  assert (forall v, fits 8 v -> is_block (replicate 16 v)) as Hb
    by (intros v Hv; split; [done | by apply Forall_replicate]).
  apply (cbc_decrypt_padding (AES256Encrypt_Encrypt (AES256_init (replicate 32 5))) _
           (replicate 16 3) [replicate 16 7] (replicate 16 0)).
  - apply aes256_cipher, toy_master_ok.
  - by apply Hb.
  - apply Forall_cons_2; [by apply Hb | apply Forall_nil_2].
  - done.
  - cbn. lia.
Defined.

(** Deriving the wallet key from a passphrase never leaves a buffer and iterates
    SHA-512 [nRounds] times over passphrase and salt; the first 32 octets become the AES
    key, the next 16 the initialisation vector.  A wrong salt length or zero rounds are
    refused. *)
Theorem passphrase_derivation g c pass salt nRounds :
  length g = 128%nat -> Forall (fits 8) salt -> Forall (fits 8) pass ->
  Z.of_nat (length pass + length salt) < 2 ^ 61 ->
  SetKeyFromPassphrase g c pass salt nRounds 0 =
  Some (if decide (nRounds = 0%nat \/ length salt <> 8%nat) then (false, c)
        else let D := Nat.iter nRounds sha512 (pass ++ salt) in
             (true, mkCrypter (take 32 D) (take 16 (drop 32 D)) true)).
Proof.
  intros Hg Hs Hp Hlen. unfold SetKeyFromPassphrase, WALLET_CRYPTO_SALT_SIZE.
  destruct (decide (nRounds < 1)%nat); [by rewrite decide_True by lia |].
  destruct (decide (length salt <> 8%nat)); [by rewrite decide_True by tauto |].
  rewrite (decide_True (P := 0%nat = 0%nat)) by done.
  destruct (BytesToKey_ok g salt pass nRounds) as [-> _]; [done.. | lia |].
  rewrite obind_Some, decide_False; [done |]. intros [->|]; [lia | done].
Qed.

Lemma passphrase_derivation_witness :
  SetKeyFromPassphrase (replicate 128 7) (CCrypter_new ([], [])) [112; 119] (replicate 8 1) 3 0 =
  Some (let D := Nat.iter 3 sha512 ([112; 119] ++ replicate 8 1) in
        (true, mkCrypter (take 32 D) (take 16 (drop 32 D)) true)).
Proof.
  rewrite (passphrase_derivation (replicate 128 7) _ [112; 119] (replicate 8 1) 3);
    [rewrite decide_False; [reflexivity | by intros [|]] | done
    | apply Forall_replicate; by unfold fits | forall_build ltac:(by unfold fits) | done].
Defined.

(** C33. Encrypting a wallet loses no key.  For a store whose keys are valid and filed under
    the hash of their public key, and any 32-octet master key: [EncryptKeys] succeeds
    and leaves no clear key; with the master key the store unlocks; and then [GetKey]
    returns, for every address, exactly the key it held before, or nothing where there
    was none. *)
Theorem wallet_encrypt_roundtrip (EC : Secp256k1) g g' garbage mk s :
  Secp256k1Ok EC -> length g = 64%nat -> length g' = 64%nat -> master_ok mk ->
  fUseCrypto s = false -> mapCryptedKeys s = ∅ -> keyed s -> mapKeys s <> ∅ ->
  exists s1 s2, EncryptKeys g g' garbage s mk = Some (true, s1) /\ mapKeys s1 = ∅ /\
    Unlock g garbage s1 mk = Some (true, s2) /\ IsLocked s2 = false /\
    forall id kout, GetKey g garbage s2 id kout =
      Some (match mapKeys s !! id with Some k => (true, k) | None => (false, kout) end).
Proof.
  intros ECOK Hg Hg' Hmk Hu Hc Hk Hne.
  destruct (EncryptKeys_ok g g' garbage Hg Hg' mk s) as (s1 & E1 & H1 & _ & _); [done.. |].
  destruct (Unlock_ok g g' garbage Hg Hg' mk (mapKeys s) s1) as (s2 & E2 & H2 & Hm & _); [done.. |].
  exists s1, s2. split_and!; [done | apply H1 | done | |].
  - destruct H2 as (Hu2 & _). unfold IsLocked, IsCrypted. rewrite Hu2, Hm. cbn [negb].
    apply bool_decide_eq_false. intros ->. by destruct Hmk.
  - intros id kout. destruct H2 as (Hu2 & _ & Hall). specialize (Hall id).
    unfold GetKey, IsCrypted. rewrite Hu2. cbn [negb]. destruct (mapKeys s !! id) as [k|].
    + destruct Hall as (Hok & ct & -> & Henc). rewrite Hm. by apply (DecryptKey_ok g g' garbage Hg Hg').
    + by rewrite Hall.
Qed.

Lemma wallet_encrypt_roundtrip_witness :
  exists s1 s2, EncryptKeys (EC := toy_curve) (replicate 64 0) (replicate 64 0) ([], []) toy_store
      (replicate 32 5) = Some (true, s1) /\ mapKeys s1 = ∅ /\
    Unlock (EC := toy_curve) (replicate 64 0) ([], []) s1 (replicate 32 5) = Some (true, s2) /\
    IsLocked s2 = false /\
    forall id kout, GetKey (EC := toy_curve) (replicate 64 0) ([], []) s2 id kout =
      Some (match mapKeys toy_store !! id with Some k => (true, k) | None => (false, kout) end).
Proof.
  apply (wallet_encrypt_roundtrip toy_curve (replicate 64 0) (replicate 64 0) ([], [])
           (replicate 32 5) toy_store).
  - apply toy_curve_ok.
  - reflexivity.
  - reflexivity.
  - apply toy_master_ok.
  - reflexivity.
  - reflexivity.
  - intros id k Hk. unfold toy_store in Hk. cbn [mapKeys] in Hk.
    apply lookup_singleton_Some in Hk as [<- <-]. split; [apply toy_key_ok | reflexivity].
  - unfold toy_store. cbn [mapKeys]. apply map_non_empty_singleton.
Defined.

(** A key added to a store is found again: in the clear store, or encrypted under the
    master key of an unlocked one, [GetKey] returns it under the hash of its public
    key. *)
Theorem keystore_add_get (EC : Secp256k1) g g' garbage s k :
  Secp256k1Ok EC -> length g = 64%nat -> length g' = 64%nat -> key_ok k ->
  (fUseCrypto s = true -> master_ok (vMasterKey s)) ->
  exists s', AddKeyPubKey g g' garbage s k (pub_of k) = Some (true, s') /\
    forall kout, GetKey g garbage s' (id_of k) kout = Some (true, k).
Proof.
  intros ECOK Hg Hg' Hk Hmk. destruct (pub_of_wf k Hk) as [Hpl Hp].
  assert (Z.of_nat (length (pub_of k)) < 2 ^ 61) as Hpl'
    by (rewrite Hpl; destruct (fCompressed k); lia).
  unfold AddKeyPubKey, IsCrypted. destruct (fUseCrypto s) eqn:Eu; cbn [negb].
  - specialize (Hmk eq_refl). unfold IsLocked, IsCrypted. rewrite Eu. cbn [negb].
    rewrite bool_decide_false by (intros E; rewrite E in Hmk; by destruct Hmk).
    rewrite (pubkey_GetHash_ok g) by done. rewrite obind_Some.
    destruct (EncryptSecret_key garbage (vMasterKey s) k Hmk Hk) as (ct & -> & Henc).
    rewrite obind_Some. cbn [negb]. unfold AddCryptedKey, SetCrypted. rewrite Eu. cbn [negb].
    rewrite (GetID_ok g g') by done. rewrite !obind_Some. eexists. split; [done |]. intros kout.
    unfold GetKey, IsCrypted. cbn [fUseCrypto mapCryptedKeys vMasterKey]. rewrite Eu. cbn [negb].
    unfold id_of. rewrite lookup_insert_eq. by apply (DecryptKey_ok g g' garbage Hg Hg').
  - unfold Basic_AddKeyPubKey. rewrite (GetID_ok g g') by done. rewrite obind_Some.
    eexists. split; [done |]. intros kout. unfold GetKey, IsCrypted. cbn [fUseCrypto mapKeys].
    rewrite Eu. cbn [negb]. unfold id_of. by rewrite lookup_insert_eq.
Qed.

Lemma keystore_add_get_witness :
  exists s', AddKeyPubKey (replicate 64 0) (replicate 64 0) ([], [])
      (mkStore ∅ ∅ ∅ (replicate 32 5) true false) toy_key (pub_of (EC := toy_curve) toy_key) = Some (true, s') /\
    forall kout, GetKey (EC := toy_curve) (replicate 64 0) ([], []) s' (id_of (EC := toy_curve) toy_key) kout
      = Some (true, toy_key).
Proof.
  apply (keystore_add_get toy_curve (replicate 64 0) (replicate 64 0) ([], [])
    (mkStore ∅ ∅ ∅ (replicate 32 5) true false) toy_key);
    [apply toy_curve_ok | done | done | apply toy_key_ok | intros _; apply toy_master_ok].
Defined.

(** C34. In every state a new store reaches by adding keys, locking, unlocking and calls of
    [EncryptKeys] that succeed or fail, with any arguments: a clear store has no master key
    and no encrypted key, and a crypted one holds no key in the clear -- unless a call of
    [EncryptKeys] failed on the way, which sets [fUseCrypto] first; from then on the store is
    crypted and the clear keys of that moment, and no others, are still in it (the wallet
    dies there, so that it can be loaded again unencrypted).  While the store is locked
    [GetKey] never returns a key. *)
Theorem keystore_invariant (EC : Secp256k1) g g' garbage s f :
  ks_run g g' garbage s f ->
  (fUseCrypto s = false -> f = None /\ vMasterKey s = [] /\ mapCryptedKeys s = ∅) /\
  (fUseCrypto s = true -> mapKeys s = match f with Some keys => keys | None => ∅ end) /\
  (IsLocked s = true -> forall id kout k, GetKey g garbage s id kout <> Some (true, k)).
Proof.
  intros Hr. pose proof (ks_run_inv g g' garbage s f Hr) as Hi. unfold ks_inv in Hi.
  split_and!; [intros Hu; by rewrite Hu in Hi | intros Hu; rewrite Hu in Hi; by destruct f |]. intros Hl id kout k.
  unfold IsLocked, IsCrypted in Hl. unfold GetKey, IsCrypted.
  destruct (fUseCrypto s); [| done]. cbn [negb] in *. apply bool_decide_eq_true in Hl.
  destruct (mapCryptedKeys s !! id) as [[pub ct]|]; [| done]. rewrite Hl.
  apply DecryptKey_no_master.
Qed.

(** A new store to which the key is added becomes [toy_store]. *)
Lemma toy_store_run : ks_run (EC := toy_curve) (replicate 64 0) (replicate 64 0) ([], []) toy_store None.
Proof.
  eapply run_step; [apply run_new |]. eapply (step_add (EC := toy_curve) _ _ _ _ toy_key (pub_of (EC := toy_curve) toy_key) true).
  unfold AddKeyPubKey, Basic_AddKeyPubKey. cbn [IsCrypted fUseCrypto CCryptoKeyStore_new negb].
  destruct (pub_of_wf (EC := toy_curve) toy_key toy_key_ok) as [Hpl Hp].
  rewrite (GetID_ok _ _) by (done || (rewrite Hpl; done)). rewrite obind_Some.
  cbn [CCryptoKeyStore_new mapKeys mapWatchKeys mapCryptedKeys vMasterKey fUseCrypto fDecryptionThoroughlyChecked].
  unfold toy_store, id_of. generalize (hash160 (pub_of (EC := toy_curve) toy_key)). reflexivity.
Qed.

(** What a call returns, by tests that compute. *)
Lemma returned_by_test {A} (r : option (bool * A)) (b : bool) (test : A -> bool) :
  match r with Some (b', a) => eqb b b' && test a | None => false end = true -> exists a, r = Some (b, a) /\ test a = true.
Proof. destruct r as [[b' a]|]; [| done]. intros [->%eqb_true_iff H]%andb_true_iff. by exists a. Qed.

(** Encryption with a master key of the wrong length fails on the key and leaves it in the
    clear in a crypted store; with one of 32 octets it leaves none, and once locked the store
    gives no key away. *)
Lemma keystore_invariant_witness :
  exists s1 s2,
    EncryptKeys (EC := toy_curve) (replicate 64 0) (replicate 64 0) ([], []) toy_store [] = Some (false, s1) /\
    fUseCrypto s1 = true /\ mapKeys s1 = mapKeys toy_store /\
    EncryptKeys (EC := toy_curve) (replicate 64 0) (replicate 64 0) ([], []) toy_store (replicate 32 5) = Some (true, s2) /\
    fUseCrypto s2 = true /\ mapKeys s2 = ∅ /\ IsLocked s2 = true /\
    GetKey (EC := toy_curve) (replicate 64 0) ([], []) s2 (id_of (EC := toy_curve) toy_key) toy_key <> Some (true, toy_key).
Proof.
  destruct (returned_by_test (EncryptKeys (EC := toy_curve) (replicate 64 0) (replicate 64 0) ([], []) toy_store []) false fUseCrypto)
    as (s1 & E1 & U1); [vm_compute; reflexivity |].
  destruct (returned_by_test (EncryptKeys (EC := toy_curve) (replicate 64 0) (replicate 64 0) ([], []) toy_store (replicate 32 5)) true
    (fun s => fUseCrypto s && IsLocked s)) as (s2 & E2 & [U2 L2]%andb_true_iff); [vm_compute; reflexivity |].
  exists s1, s2.
  pose proof toy_store_run as R0. change (mapKeys s1 = mapKeys toy_store) with (mapKeys s1 = match Some (mapKeys toy_store) with Some keys => keys | None => ∅ end).
  revert R0 E1 E2. generalize (replicate 64 0) as g. intros g R0 E1 E2.
  pose proof (run_encrypt g g ([], []) toy_store None [] false s1 R0 E1) as R1.
  pose proof (run_encrypt g g ([], []) toy_store None (replicate 32 5) true s2 R0 E2) as R2.
  destruct (keystore_invariant toy_curve g g ([], []) s1 _ R1) as (_ & K1 & _).
  destruct (keystore_invariant toy_curve g g ([], []) s2 _ R2) as (_ & K2 & G2).
  split_and!; [exact E1 | exact U1 | exact (K1 U1) | exact E2 | exact U2 | exact (K2 U2) | exact L2 | apply G2, L2].
Defined.
