(* ===== verification/Merkle.v ===== *)
(** * consensus/merkle.cpp: Merkle roots and branches in constant space

    [MerkleComputation] over any 256-bit type [U] and two-to-one hash; the functions
    of the file instantiate it with double SHA-256.  An index or a shift out of range,
    and a loop that does not end, are [None]. *)

From S2P Require Import Prelude MdHash Hash.
#[local] Open Scope Z_scope.

Section Merkle.
Context {U : Type} `{EqDecision U} (null : U) (hash2 : U -> U -> U).

(** The locals [inner], [matchlevel], [mutated] and the vector [*pbranch]. *)
Record mstate := mkM {
  m_inner : list U;
  m_matchlevel : Z;
  m_mutated : bool;
  m_branch : list U;
}.

(** [((uint32_t)1) << level]. *)
Definition bit32 (level : nat) : Z := u32 (1 << Z.of_nat level).

(** [!(count & (((uint32_t)1) << level))]; shifting by 32 or more is undefined. *)
Definition bit_clear (count : Z) (level : nat) : option bool :=
  if (level <? 32)%nat then Some (Z.land count (bit32 level) =? 0) else None.

(** [if (pbranch) { if (matchh) .. else if (matchlevel == level) .. }], with the sibling
    on the left ([inner[level]]) and on the right ([h]). *)
Definition push_branch (pbranch : bool) (level : nat) (left h : U) (matchh : bool) (st : mstate)
    : bool * mstate :=
  if pbranch then
    if matchh then
      (true, mkM (m_inner st) (m_matchlevel st) (m_mutated st) (m_branch st ++ [left]))
    else if m_matchlevel st =? Z.of_nat level then
      (true, mkM (m_inner st) (m_matchlevel st) (m_mutated st) (m_branch st ++ [h]))
    else (matchh, st)
  else (matchh, st).

(** The [for] loop over the low zero bits of [count]. *)
Fixpoint leaf_loop (fuel : nat) (pbranch : bool) (count : Z) (level : nat) (h : U) (matchh : bool)
    (st : mstate) : option (nat * U * bool * mstate) :=
  clear ← bit_clear count level;
  if (clear : bool) then
    match fuel with
    | O => None
    | S fuel =>
        left ← m_inner st !! level;
        let '(matchh, st) := push_branch pbranch level left h matchh st in
        let st := mkM (m_inner st) (m_matchlevel st) (m_mutated st || bool_decide (left = h))
                      (m_branch st) in
        leaf_loop fuel pbranch count (S level) (hash2 left h) matchh st
    end
  else Some (level, h, matchh, st).

(** One iteration of the loop over the leaves. *)
Definition add_leaf (leaves : list U) (pbranch : bool) (branchpos count : Z) (st : mstate)
    : option (Z * mstate) :=
  h ← leaves !! Z.to_nat count;
  let matchh := count =? branchpos in
  let count := u32 (count + 1) in
  '(level, h, matchh, st) ← leaf_loop 32 pbranch count 0 h matchh st;
  _ ← m_inner st !! level;
  Some (count, mkM (<[level := h]> (m_inner st))
                   (if (matchh : bool) then Z.of_nat level else m_matchlevel st)
                   (m_mutated st) (m_branch st)).

(** [while (count < leaves.size())]. *)
Fixpoint leaves_loop (fuel : nat) (leaves : list U) (pbranch : bool) (branchpos count : Z)
    (st : mstate) : option (Z * mstate) :=
  if count <? Z.of_nat (length leaves) then
    match fuel with
    | O => None
    | S fuel =>
        '(count, st) ← add_leaf leaves pbranch branchpos count st;
        leaves_loop fuel leaves pbranch branchpos count st
    end
  else Some (count, st).

(** [while (!(count & (1 << level))) level++;] *)
Fixpoint lowest_bit (fuel : nat) (count : Z) (level : nat) : option nat :=
  clear ← bit_clear count level;
  if (clear : bool) then
    match fuel with O => None | S fuel => lowest_bit fuel count (S level) end
  else Some level.

(** The inner loop of the final sweep. *)
Fixpoint sweep_up (fuel : nat) (pbranch : bool) (count : Z) (level : nat) (h : U) (matchh : bool)
    (st : mstate) : option (nat * U * bool * mstate) :=
  clear ← bit_clear count level;
  if (clear : bool) then
    match fuel with
    | O => None
    | S fuel =>
        left ← m_inner st !! level;
        let '(matchh, st) := push_branch pbranch level left h matchh st in
        sweep_up fuel pbranch count (S level) (hash2 left h) matchh st
    end
  else Some (level, h, matchh, st).

(** The final sweep: [while (count != (1 << level))]. *)
Fixpoint sweep (fuel : nat) (pbranch : bool) (count : Z) (level : nat) (h : U) (matchh : bool)
    (st : mstate) : option (U * mstate) :=
  if count =? bit32 level then Some (h, st)
  else
    match fuel with
    | O => None
    | S fuel =>
        let st := if pbranch && matchh
                  then mkM (m_inner st) (m_matchlevel st) (m_mutated st) (m_branch st ++ [h])
                  else st in
        let h := hash2 h h in
        let count := u32 (count + bit32 level) in
        '(level, h, matchh, st) ← sweep_up 32 pbranch count (S level) h matchh st;
        sweep fuel pbranch count level h matchh st
    end.

(** Root, mutation flag and branch. *)
Definition MerkleComputation (leaves : list U) (branchpos : Z) (pbranch : bool)
    : option (U * bool * list U) :=
  if decide (length leaves = 0%nat) then Some (null, false, [])
  else
    let st := mkM (replicate 32 null) (-1) false [] in
    '(count, st) ← leaves_loop (length leaves) leaves pbranch branchpos 0 st;
    level ← lowest_bit 32 count 0;
    h ← m_inner st !! level;
    let matchh := m_matchlevel st =? Z.of_nat level in
    '(h, st) ← sweep 32 pbranch count level h matchh st;
    Some (h, m_mutated st, m_branch st).

(** [branchpos] is -1 as a [uint32_t]. *)
Definition ComputeMerkleRoot (leaves : list U) : option (U * bool) :=
  '(root, mutated, _) ← MerkleComputation leaves (u32 (-1)) false;
  Some (root, mutated).

Definition ComputeMerkleBranch (leaves : list U) (position : Z) : option (list U) :=
  '(_, _, branch) ← MerkleComputation leaves position true;
  Some branch.

Definition ComputeMerkleRootFromBranch (leaf : U) (vMerkleBranch : list U) (nIndex : Z) : U :=
  (foldl (fun p b => let '(hash, nIndex) := p in
            ((if negb (Z.land nIndex 1 =? 0) then hash2 b hash else hash2 hash b), nIndex >> 1))
         (leaf, nIndex) vMerkleBranch).1.

End Merkle.

Arguments mstate : clear implicits.
Arguments mkM {U}.

(** ** Blocks

    [CHash256().Write(a, 32).Write(b, 32).Finalize(h)] on two blobs, and the leaves of a
    block: the transaction hashes, or the witness hashes with zero for the coinbase. *)

Definition hash_pair (g : list Z) (a b : list Z) : list Z := default [] (Hash g [a; b]).

Definition zero256 : list Z := replicate 32 0.

Section Block.
Context {Tx : Type} (GetHash GetWitnessHash : Tx -> list Z) (g : list Z).

Definition BlockMerkleRoot (vtx : list Tx) : option (list Z * bool) :=
  ComputeMerkleRoot zero256 (hash_pair g) (GetHash <$> vtx).

(** [leaves[0].SetNull()] is out of range for a block without transactions. *)
Definition BlockWitnessMerkleRoot (vtx : list Tx) : option (list Z * bool) :=
  match vtx with
  | [] => None
  | _ :: vtx => ComputeMerkleRoot zero256 (hash_pair g) (zero256 :: (GetWitnessHash <$> vtx))
  end.

Definition BlockMerkleBranch (vtx : list Tx) (position : Z) : option (list (list Z)) :=
  ComputeMerkleBranch zero256 (hash_pair g) (GetHash <$> vtx) position.

End Block.
