(* ===== verification/MerkleProofs.v ===== *)
(** * consensus/merkle.cpp: the constant-space computation builds the Merkle tree

    The specification builds the tree level by level, pairing neighbours and a last
    odd element with itself.  [nd k i] is the node [i] of level [k]; after [c] leaves the
    array [inner] holds [nd k (c / 2^k - 1)] at each set bit [k] of [c]. *)

From S2P Require Import Prelude MdHash ShaSpec Hash Merkle.
#[local] Open Scope nat_scope.

(** ** Bits of the counter *)

Lemma bit32_pow level : level < 32 -> bit32 level = Z.of_nat (2 ^ level).
Proof.
  intros Hl. unfold bit32. rewrite Z.shiftl_1_l, wrap_id; [by rewrite Nat2Z.inj_pow |].
  split; [apply Z.pow_nonneg; lia | apply Z.pow_lt_mono_r; lia].
Qed.

Lemma bit_clear_nat c level :
  level < 32 -> bit_clear (Z.of_nat c) level = Some (Nat.even (c / 2 ^ level)).
Proof.
  intros Hl. unfold bit_clear. rewrite (proj2 (Nat.ltb_lt _ _) Hl), bit32_pow by done. f_equal.
  rewrite Nat2Z.inj_pow, land_pow2 by lia.
  assert (Z.testbit (Z.of_nat c) (Z.of_nat level) = Nat.odd (c / 2 ^ level)) as ->.
  { rewrite Z.testbit_odd, Z.shiftr_div_pow2 by lia.
    replace (2 ^ Z.of_nat level)%Z with (Z.of_nat (2 ^ level)) by (by rewrite Nat2Z.inj_pow).
    rewrite <- Nat2Z.inj_div. apply eq_true_iff_eq. rewrite Z.odd_spec, Nat.odd_spec. split.
    - intros [m Hm]. exists (Z.to_nat m). lia.
    - intros [m Hm]. exists (Z.of_nat m). lia. }
  rewrite <- Nat.negb_even. destruct (Nat.even _); cbn [negb]; [done |].
  apply Z.eqb_neq. pose proof (Z.pow_pos_nonneg 2 (Z.of_nat level)). change (Z.of_nat 2) with 2%Z. lia.
Qed.

(** ** Division by powers of two *)

Lemma pow2_pos_nat k : 0 < 2 ^ k.
Proof. pose proof (Nat.pow_nonzero 2 k). lia. Qed.

Lemma div_pow2_S x k : x / 2 ^ S k = x / 2 ^ k / 2.
Proof. rewrite Nat.Div0.div_div. f_equal. simpl. lia. Qed.

Lemma div_pow2_le x k j : k <= j -> x / 2 ^ j = x / 2 ^ k / 2 ^ (j - k).
Proof.
  intros. rewrite Nat.Div0.div_div, <- Nat.pow_add_r. do 2 f_equal. lia.
Qed.

Lemma div_exact q k : q * 2 ^ k / 2 ^ k = q.
Proof. apply Nat.div_mul. pose proof (pow2_pos_nat k). lia. Qed.

(** The predecessor of a multiple. *)
Lemma div_pred q k : 0 < q -> (q * 2 ^ k - 1) / 2 ^ k = q - 1.
Proof.
  intros Hq. pose proof (pow2_pos_nat k). symmetry.
  apply (Nat.div_unique _ _ _ (2 ^ k - 1)); [lia |]. destruct q; [lia |].
  rewrite Nat.mul_comm. cbn [Nat.sub]. rewrite Nat.sub_0_r. lia.
Qed.

(** Above an odd multiple nothing carries. *)
Lemma div_odd_above q k j :
  0 < q -> Nat.odd q = true -> k < j -> q * 2 ^ k / 2 ^ j = (q * 2 ^ k - 1) / 2 ^ j.
Proof.
  intros Hq Ho Hj. rewrite (div_pow2_le (q * 2 ^ k) k j), (div_pow2_le (q * 2 ^ k - 1) k j) by lia.
  rewrite div_exact, div_pred by done. apply Nat.odd_spec in Ho as [m ->].
  rewrite !(div_pow2_le _ 1 (j - k)) by lia. change (2 ^ 1) with 2.
  replace (2 * m + 1 - 1) with (m * 2) by lia. rewrite Nat.div_mul by lia.
  by replace ((2 * m + 1) / 2) with m by (apply (Nat.div_unique _ _ _ 1); lia).
Qed.

(** Equal quotients stay equal above. *)
Lemma div_eq_above x y k j : k <= j -> x / 2 ^ k = y / 2 ^ k -> x / 2 ^ j = y / 2 ^ j.
Proof. intros Hj E. by rewrite (div_pow2_le x k j), (div_pow2_le y k j), E by done. Qed.

Lemma even_half q : Nat.even q = true -> exists r, q = 2 * r.
Proof. intros H. by apply Nat.even_spec in H. Qed.

Lemma odd_half q : Nat.even q = false -> exists r, q = 2 * r + 1.
Proof. intros H. apply Nat.odd_spec. by rewrite <- Nat.negb_even, H. Qed.

Section Tree.
Context {U : Type} `{EqDecision U} (null : U) (hash2 : U -> U -> U).

(** ** Specification *)

(** One level up. *)
Fixpoint pair_up (l : list U) : list U :=
  match l with
  | [] => []
  | [a] => [hash2 a a]
  | a :: b :: l => hash2 a b :: pair_up l
  end.

(** Up to a single node. *)
Fixpoint root_of (fuel : nat) (l : list U) : U :=
  match l with
  | [] => null
  | [x] => x
  | _ => match fuel with O => null | S fuel => root_of fuel (pair_up l) end
  end.

Definition merkle_root (leaves : list U) : U := root_of (length leaves) leaves.

Definition level (leaves : list U) (k : nat) : list U := Nat.iter k pair_up leaves.

Definition nd (leaves : list U) (k i : nat) : U := nth i (level leaves k) null.

Lemma pair_ind (P : list U -> Prop) :
  P [] -> (forall a, P [a]) -> (forall a b l, P l -> P (a :: b :: l)) -> forall l, P l.
Proof.
  intros H0 H1 H2 l. assert (P l /\ forall a, P (a :: l)) as [? _]; [| done].
  induction l as [|x l [IH1 IH2]]; [by split | split; [apply IH2 | intros; by apply H2]].
Qed.

Lemma length_pair_up l : length (pair_up l) = (length l + 1) / 2.
Proof.
  induction l as [|a|a b l IH] using pair_ind; [done | done |]. cbn [pair_up length]. rewrite IH.
  replace (S (S (length l)) + 1) with (length l + 1 + 1 * 2) by lia. rewrite Nat.div_add by lia. lia.
Qed.

Lemma nth_pair_up l i :
  2 * i + 1 < length l -> nth i (pair_up l) null = hash2 (nth (2 * i) l null) (nth (2 * i + 1) l null).
Proof.
  revert i. induction l as [|a|a b l IH] using pair_ind; intros i Hi; cbn [length] in Hi; [lia | lia |].
  destruct i as [|i]; [done |]. cbn [pair_up nth].
  replace (2 * S i) with (S (S (2 * i))) by lia. cbn [nth Nat.add]. apply IH. lia.
Qed.

Lemma nth_pair_up_last l i :
  2 * i + 1 = length l -> nth i (pair_up l) null = hash2 (nth (2 * i) l null) (nth (2 * i) l null).
Proof.
  revert i. induction l as [|a|a b l IH] using pair_ind; intros i Hi; cbn [length] in Hi; [lia | |].
  - by replace i with 0 by lia.
  - destruct i as [|i]; [lia |]. cbn [pair_up nth].
    replace (2 * S i) with (S (S (2 * i))) by lia. cbn [nth]. apply IH. lia.
Qed.

Section Leaves.
Context (leaves : list U).
Abbreviation n := (length leaves).
Abbreviation ND := (nd leaves).

Definition len (k : nat) : nat := length (level leaves k).

Lemma len_0 : len 0 = n.
Proof. done. Qed.

Lemma len_S k : len (S k) = (len k + 1) / 2.
Proof. apply length_pair_up. Qed.

(** The number of nodes of a level. *)
Lemma len_div k : len k = (n + 2 ^ k - 1) / 2 ^ k.
Proof.
  induction k as [|k IH]; [rewrite len_0; change (2 ^ 0) with 1; rewrite Nat.div_1_r; lia |].
  rewrite len_S, IH. pose proof (pow2_pos_nat k).
  replace ((n + 2 ^ k - 1) / 2 ^ k + 1) with ((n + 2 ^ S k - 1) / 2 ^ k).
  - symmetry. apply div_pow2_S.
  - replace (n + 2 ^ S k - 1) with (n + 2 ^ k - 1 + 1 * 2 ^ k) by (simpl; lia).
    rewrite Nat.div_add by lia. done.
Qed.

Lemma len_exact k q : n = q * 2 ^ k -> len k = q.
Proof.
  intros E. rewrite len_div, E. pose proof (pow2_pos_nat k). symmetry.
  apply (Nat.div_unique _ _ _ (2 ^ k - 1)); lia.
Qed.

Lemma len_inexact k : n mod 2 ^ k <> 0 -> len k = n / 2 ^ k + 1.
Proof.
  intros Hm. rewrite len_div. pose proof (pow2_pos_nat k).
  pose proof (Nat.mod_upper_bound n (2 ^ k)). pose proof (Nat.Div0.div_mod n (2 ^ k)).
  symmetry. apply (Nat.div_unique _ _ _ (n mod 2 ^ k - 1)); lia.
Qed.

(** A prefix of [c] leaves has whole subtrees up to [c / 2^k]. *)
Lemma len_ge c k q : c = q * 2 ^ k -> c <= n -> q <= len k.
Proof.
  intros -> Hc. rewrite len_div. pose proof (pow2_pos_nat k).
  apply Nat.div_le_lower_bound; lia.
Qed.

Lemma nd_S k i : 2 * i + 1 < len k -> ND (S k) i = hash2 (ND k (2 * i)) (ND k (2 * i + 1)).
Proof. intros. by apply nth_pair_up. Qed.

Lemma nd_S_last k i : 2 * i + 1 = len k -> ND (S k) i = hash2 (ND k (2 * i)) (ND k (2 * i)).
Proof. intros. by apply nth_pair_up_last. Qed.

Lemma root_of_level k :
  len k = 1 -> (forall j, j < k -> 1 < len j) -> merkle_root leaves = ND k 0.
Proof.
  intros Hk Hlt. unfold merkle_root.
  assert (Hgen : forall m fuel, m <= k -> k - m <= fuel ->
    root_of fuel (level leaves m) = ND k 0).
  { intros m fuel Hm. remember (k - m) as d eqn:Hd. revert m fuel Hm Hd.
    induction d as [|d IH]; intros m fuel Hm Hd Hf.
    - assert (m = k) as -> by lia. unfold len in Hk. unfold nd.
      destruct (level leaves k) as [|x [|]] eqn:E; try done. by destruct fuel.
    - assert (1 < len m) as H1 by (apply Hlt; lia). unfold len in H1.
      destruct fuel as [|fuel]; [lia |].
      assert (root_of (S fuel) (level leaves m) = root_of fuel (level leaves (S m))) as ->.
      { change (level leaves (S m)) with (pair_up (level leaves m)).
        destruct (level leaves m) as [|a [|b l]]; [simpl in H1; lia | simpl in H1; lia | done]. }
      apply IH; lia. }
  change leaves with (level leaves 0) at 2. apply Hgen; [lia |].
  destruct k as [|k]; [lia |]. rewrite Nat.sub_0_r.
  assert (1 < len k) as H1 by (apply Hlt; lia). rewrite len_div in H1.
  pose proof (pow2_pos_nat k) as Hp. pose proof (Nat.pow_gt_lin_r 2 k).
  assert (2 * 2 ^ k <= n + 2 ^ k - 1); [| lia].
  pose proof (Nat.Div0.mul_div_le (n + 2 ^ k - 1) (2 ^ k)). nia.
Qed.

(** ** The invariant of the loop over the leaves *)

Context (pbranch : bool) (pos : nat).

(** The sibling of the node above [pos] at level [k], itself at the end of an odd level. *)
Definition sib_idx (k : nat) : nat :=
  let i := pos / 2 ^ k in
  if Nat.even i then (if i + 1 <? len k then i + 1 else i) else i - 1.

Definition sibs (k : nat) : list U := (fun j => ND j (sib_idx j)) <$> seq 0 k.

Lemma sibs_S k : sibs (S k) = sibs k ++ [ND k (sib_idx k)].
Proof. unfold sibs. by rewrite seq_S, fmap_app. Qed.

Definition inner_ok (c : nat) (st : mstate U) : Prop :=
  length (m_inner st) = 32 /\
  forall k, k < 32 -> Nat.even (c / 2 ^ k) = false -> m_inner st !! k = Some (ND k (c / 2 ^ k - 1)).

(** Two equal neighbours among the whole subtrees of the first [c] leaves. *)
Definition mut (c : nat) : Prop :=
  exists k i, (2 * i + 2) * 2 ^ k <= c /\ ND k (2 * i) = ND k (2 * i + 1).

(** The node that depends on [pos] is at level at least [l]. *)
Definition owner (c l : nat) (st : mstate U) : Prop :=
  if decide (pos < c) then
    exists k, l <= k /\ m_matchlevel st = Z.of_nat k /\ Nat.even (c / 2 ^ k) = false /\
      pos / 2 ^ k = c / 2 ^ k - 1 /\ m_branch st = sibs k
  else m_matchlevel st = (-1)%Z /\ m_branch st = [].

Record leaves_inv (c : nat) (st : mstate U) : Prop := {
  li_inner : inner_ok c st;
  li_mut : m_mutated st = true <-> mut c;
  li_owner : pbranch = true -> owner c 0 st;
}.

(** While leaf [c] is merged: [q * 2^l = c + 1] leaves are below [h] and [inner]. *)
Record leaf_inv (c l q : nat) (h : U) (matchh : bool) (st : mstate U) : Prop := {
  lf_inner : inner_ok c st;
  lf_h : h = ND l (q - 1);
  lf_mut : m_mutated st = true <-> mut c \/
    exists k i, k < l /\ (2 * i + 2) * 2 ^ k = c + 1 /\ ND k (2 * i) = ND k (2 * i + 1);
  lf_match : pbranch = true ->
    if matchh then pos / 2 ^ l = q - 1 /\ m_branch st = sibs l
    else pos / 2 ^ l <> q - 1 /\ owner c l st;
}.

(** Matching at one level: what [push_branch] does to the branch. *)
Lemma push_branch_frame l left h matchh (st : mstate U) :
  let '(matchh', st') := push_branch (U := U) pbranch l left h matchh st in
  m_inner st' = m_inner st /\ m_matchlevel st' = m_matchlevel st /\ m_mutated st' = m_mutated st.
Proof. unfold push_branch. by repeat case_match; simplify_eq. Qed.

(** [x] holds [pos] in its left or right half, or not at all. *)
Lemma push_branch_ok c l r (matchh : bool) (st : mstate U) :
  pbranch = true -> 0 < r -> 2 * r - 1 < len l ->
  c / 2 ^ l = 2 * r - 1 ->
  (if matchh then pos / 2 ^ l = 2 * r - 1 /\ m_branch st = sibs l
   else pos / 2 ^ l <> 2 * r - 1 /\ owner c l st) ->
  let '(matchh', st') := push_branch pbranch l (ND l (2 * r - 2)) (ND l (2 * r - 1)) matchh st in
  if matchh' then pos / 2 ^ S l = r - 1 /\ m_branch st' = sibs (S l)
  else pos / 2 ^ S l <> r - 1 /\ owner c (S l) st'.
Proof.
  intros Hp Hr Hlen Hc Hm. unfold push_branch. rewrite Hp. destruct matchh.
  - destruct Hm as [Hm Hb]. cbn [m_branch]. rewrite div_pow2_S, Hm. split.
    + symmetry. apply (Nat.div_unique _ _ _ 1); lia.
    + rewrite sibs_S, Hb. do 3 f_equal. unfold sib_idx. rewrite Hm.
      replace (2 * r - 1) with (2 * (r - 1) + 1) by lia.
      rewrite Nat.even_add, Nat.even_mul. cbn. lia.
  - destruct Hm as [Hne Ho]. destruct (Z.eqb_spec (m_matchlevel st) (Z.of_nat l)) as [E|E].
    + unfold owner in Ho. destruct (decide (pos < c)) as [Hlt|Hge]; [| destruct Ho; lia].
      destruct Ho as (k & _ & Hk & _ & Hd & Hb). assert (k = l) as -> by lia.
      rewrite Hc in Hd. cbn [m_branch]. split.
      * rewrite div_pow2_S, Hd. symmetry. apply (Nat.div_unique _ _ _ 0); lia.
      * rewrite sibs_S, Hb. do 3 f_equal. unfold sib_idx. rewrite Hd.
        replace (2 * r - 1 - 1) with (2 * (r - 1)) by lia. rewrite Nat.even_mul. cbn [Nat.even orb].
        destruct (Nat.ltb_spec (2 * (r - 1) + 1) (len l)); lia.
    + unfold owner in *. destruct (decide (pos < c)) as [Hlt|Hge].
      * destruct Ho as (k & Hlk & Hk & He & Hd & Hb). assert (l <> k) by congruence. split; [| exists k; split_and!; [lia | done..]].
        intros Heq. assert (c / 2 ^ S l = r - 1) as Hc'.
        { rewrite div_pow2_S, Hc. symmetry. apply (Nat.div_unique _ _ _ 1); lia. }
        rewrite (div_eq_above pos c (S l) k) in Hd by (lia || congruence).
        destruct (c / 2 ^ k); [done | lia].
      * split; [| done]. pose proof (Nat.Div0.div_le_mono c pos (2 ^ l) ltac:(lia)).
        rewrite div_pow2_S. pose proof (Nat.Div0.div_le_mono (2 * r) (pos / 2 ^ l) 2 ltac:(lia)) as Hd.
        rewrite Nat.mul_comm, Nat.div_mul in Hd by lia. lia.
Qed.

Lemma inner_lookup c l r st :
  inner_ok c st -> l < 32 -> 0 < r -> c / 2 ^ l = 2 * r - 1 ->
  m_inner st !! l = Some (ND l (2 * r - 2)).
Proof.
  intros [_ Hi] Hl Hr Hc. rewrite Hi; [do 2 f_equal; lia | done |]. rewrite Hc.
  replace (2 * r - 1) with (2 * (r - 1) + 1) by lia. by rewrite Nat.even_add, Nat.even_mul.
Qed.

Lemma leaf_loop_ok fuel c l q h matchh st :
  q * 2 ^ l = c + 1 -> c + 1 <= n -> c + 1 <= 2 ^ 31 -> l < 32 -> fuel + l = 32 ->
  leaf_inv c l q h matchh st ->
  exists l' q' h' m' st', leaf_loop hash2 fuel pbranch (Z.of_nat (c + 1)) l h matchh st
    = Some (l', h', m', st') /\
    l' < 32 /\ q' * 2 ^ l' = c + 1 /\ Nat.even q' = false /\ leaf_inv c l' q' h' m' st'.
Proof.
  revert l q h matchh st. induction fuel as [|fuel IH]; intros l q h matchh st Hq Hn H31 Hl Hf Hinv;
    [lia |].
  cbn [leaf_loop]. rewrite bit_clear_nat, obind_Some, <- Hq, div_exact by done.
  destruct (Nat.even q) eqn:Eq; [| by exists l, q, h, matchh, st].
  destruct (even_half q Eq) as [r ->]. assert (0 < r) as Hr by (destruct r; [cbn [Nat.mul] in Hq; lia | lia]).
  destruct Hinv as [Hi Hh Hmu Hma].
  assert (c / 2 ^ l = 2 * r - 1) as Hc.
  { replace c with (2 * r * 2 ^ l - 1) by lia. apply div_pred. lia. }
  rewrite (inner_lookup c l r) by done. rewrite obind_Some, Hh.
  pose proof (len_ge (c + 1) l (2 * r)) as Hlen. specialize (Hlen ltac:(lia) Hn).
  pose proof (push_branch_frame l (ND l (2 * r - 2)) (ND l (2 * r - 1)) matchh st) as Hfr.
  pose proof (push_branch_ok c l r matchh st) as Hpush.
  destruct (push_branch pbranch l (ND l (2 * r - 2)) (ND l (2 * r - 1)) matchh st) as [m1 st1].
  destruct Hfr as (Fi & Fl & Fm). rewrite Hq.
  assert (Hlt : l < 31).
  { destruct (decide (l < 31)); [done |]. assert (l = 31) as -> by lia. clear -Hq H31 Hr. pose proof (pow2_pos_nat 31). nia. }
  apply (IH (S l) r); [simpl; lia | done | done | lia | lia |]. split.
  - destruct Hi as [Hi1 Hi2]. split; cbn [m_inner]; rewrite Fi; done.
  - replace (2 * r - 2) with (2 * (r - 1)) by lia. replace (2 * r - 1) with (2 * (r - 1) + 1) by lia.
    symmetry. apply nd_S. lia.
  - cbn [m_mutated]. rewrite Fm, orb_true_iff, Hmu, bool_decide_eq_true. split.
    + intros [[H|(k & i & Hk & He & HN)]|HN]; [by left | right; exists k, i; eauto with lia |].
      right. exists l, (r - 1). split_and!; [lia | nia |].
      by replace (2 * (r - 1)) with (2 * r - 2) by lia; replace (2 * r - 2 + 1) with (2 * r - 1) by lia.
    + intros [H|(k & i & Hk & He & HN)]; [by left; left |].
      destruct (decide (k = l)) as [->|]; [| left; right; exists k, i; eauto with lia].
      right. assert (2 * i + 2 = 2 * r) as Hir.
      { pose proof (pow2_pos_nat l). nia. }
      by replace (2 * r - 2) with (2 * i) by lia; replace (2 * r - 1) with (2 * i + 1) by lia.
  - intros Hp. specialize (Hpush Hp Hr ltac:(lia) Hc (Hma Hp)).
    destruct m1; [exact Hpush |]. destruct Hpush as [H1 H2]. split; [done |].
    unfold owner in *. by destruct (decide (pos < c)).
Qed.

(** A pair that ends at [c + 1] lies below its lowest set bit. *)
Lemma pair_below c l q k i :
  q * 2 ^ l = c + 1 -> Nat.even q = false -> (2 * i + 2) * 2 ^ k = c + 1 -> k < l.
Proof.
  intros Hq Ho Hk. destruct (decide (k < l)) as [|Hge]; [done | exfalso].
  replace k with (k - l + l) in Hk by lia. rewrite Nat.pow_add_r, Nat.mul_assoc, <- Hq in Hk.
  apply Nat.mul_cancel_r in Hk; [| pose proof (pow2_pos_nat l); lia].
  rewrite <- Hk, Nat.even_mul in Ho. replace (2 * i + 2) with (2 * (i + 1)) in Ho by lia.
  by rewrite Nat.even_mul in Ho.
Qed.

Lemma mut_S c l q :
  q * 2 ^ l = c + 1 -> Nat.even q = false ->
  (mut c \/ exists k i, k < l /\ (2 * i + 2) * 2 ^ k = c + 1 /\ ND k (2 * i) = ND k (2 * i + 1))
  <-> mut (c + 1).
Proof.
  intros Hq Ho. split.
  - intros [(k & i & Hle & HN)|(k & i & _ & Hle & HN)]; exists k, i; split; (lia || done).
  - intros (k & i & Hle & HN). destruct (decide ((2 * i + 2) * 2 ^ k = c + 1)) as [E|].
    + right. exists k, i. split_and!; [by eapply pair_below | done..].
    + left. exists k, i. split; [lia | done].
Qed.

(** Below the lowest set bit of [c + 1] all bits are clear, above it they are those of [c]. *)
Lemma inner_store c l q h st :
  q * 2 ^ l = c + 1 -> Nat.even q = false -> l < 32 -> inner_ok c st -> h = ND l (q - 1) ->
  inner_ok (c + 1) (mkM (<[l := h]> (m_inner st)) (m_matchlevel st) (m_mutated st) (m_branch st)).
Proof.
  intros Hq Ho Hl [Hlen Hi] ->. split; cbn [m_inner]; [by rewrite length_insert |].
  intros k Hk Hodd. destruct (Nat.lt_trichotomy k l) as [Hkl|[->|Hkl]].
  - exfalso. rewrite <- Hq in Hodd. replace l with (l - k - 1 + 1 + k) in Hodd by lia.
    rewrite !Nat.pow_add_r, !Nat.mul_assoc, div_exact, Nat.even_mul, orb_false_iff in Hodd.
    by destruct Hodd.
  - rewrite list_lookup_insert_eq by lia. by rewrite <- Hq, div_exact.
  - rewrite list_lookup_insert_ne by lia.
    assert (0 < q) by (destruct q; [done | lia]).
    assert ((c + 1) / 2 ^ k = c / 2 ^ k) as E.
    { rewrite <- Hq, (div_odd_above q l k) by (done || by rewrite <- Nat.negb_even, Ho).
      f_equal. lia. }
    rewrite E in Hodd |- *. by apply Hi.
Qed.

Context (branchpos : Z).
Context (Hpos : pbranch = true -> branchpos = Z.of_nat pos).

Lemma leaf_inv_start c x st :
  leaves !! c = Some x -> leaves_inv c st -> leaf_inv c 0 (c + 1) x (Z.of_nat c =? branchpos)%Z st.
Proof using Hpos.
  intros Hx [Hi Hmu Hm]. split; [done | | |].
  - rewrite Nat.add_sub. unfold nd, level. cbn [Nat.iter]. symmetry. by apply nth_lookup_Some.
  - rewrite Hmu. split; [by left | intros [|(k & i & Hk & _)]; [done | lia]].
  - intros Hp. rewrite (Hpos Hp). specialize (Hm Hp). change (2 ^ 0) with 1.
    rewrite !Nat.div_1_r, Nat.add_sub. unfold owner in Hm.
    destruct (Z.eqb_spec (Z.of_nat c) (Z.of_nat pos)) as [E|E].
    + apply Nat2Z.inj in E. subst. split; [done |].
      rewrite decide_False in Hm by lia. by destruct Hm as [_ ->].
    + split; [intros ->; done |]. exact Hm.
Qed.

Lemma owner_store c l q (matchh : bool) st h :
  q * 2 ^ l = c + 1 -> Nat.even q = false -> l < 32 ->
  (if matchh then pos / 2 ^ l = q - 1 /\ m_branch st = sibs l
   else pos / 2 ^ l <> q - 1 /\ owner c l st) ->
  owner (c + 1) 0 (mkM h (if matchh then Z.of_nat l else m_matchlevel st) (m_mutated st) (m_branch st)).
Proof.
  intros Hq Ho Hl Hm. unfold owner. cbn [m_matchlevel m_branch].
  assert (0 < q) as Hq0 by (destruct q; [done | lia]). pose proof (pow2_pos_nat l) as Hp.
  destruct matchh.
  - destruct Hm as [Hd Hb]. rewrite decide_True.
    + exists l. split_and!; [lia | done | by rewrite <- Hq, div_exact | | done].
      by rewrite <- Hq, div_exact.
    + pose proof (Nat.Div0.div_mod pos (2 ^ l)). pose proof (Nat.mod_upper_bound pos (2 ^ l)). nia.
  - destruct Hm as [Hne Hm]. unfold owner in Hm. destruct (decide (pos < c)) as [Hlt|Hge].
    + rewrite decide_True by lia. destruct Hm as (k & Hk & Hml & He & Hd & Hb).
      assert (l <> k).
      { intros <-. rewrite Hd in Hne. assert (c / 2 ^ l = q - 1) as Hc.
        { replace c with (q * 2 ^ l - 1) by lia. by apply div_pred. }
        rewrite Hc in He. replace q with (S (q - 1)) in Ho by lia.
        rewrite Nat.even_succ, <- Nat.negb_even, He in Ho. done. }
      assert ((c + 1) / 2 ^ k = c / 2 ^ k) as E.
      { rewrite <- Hq, (div_odd_above q l k) by (done || lia || by rewrite <- Nat.negb_even, Ho).
        f_equal. lia. }
      exists k. rewrite E. split_and!; [lia | done..].
    + destruct (decide (pos < c + 1)) as [Hlt|]; [| done].
      exfalso. apply Hne. replace pos with (q * 2 ^ l - 1) by lia. by apply div_pred.
Qed.

Lemma add_leaf_ok c st :
  c < n -> c + 1 <= 2 ^ 31 -> leaves_inv c st ->
  exists st', add_leaf hash2 leaves pbranch branchpos (Z.of_nat c) st = Some (Z.of_nat (c + 1), st') /\
    leaves_inv (c + 1) st'.
Proof using Hpos.
  intros Hc H31 Hinv. unfold add_leaf. rewrite Nat2Z.id.
  destruct (lookup_lt_is_Some_2 leaves c Hc) as [x Hx]. rewrite Hx, obind_Some.
  assert (u32 (Z.of_nat c + 1) = Z.of_nat (c + 1)) as ->.
  { rewrite wrap_id; [lia |]. apply Nat2Z.inj_le in H31. rewrite Nat2Z.inj_pow in H31.
    change (Z.of_nat 2) with 2%Z in H31. change (Z.of_nat 31) with 31%Z in H31. unfold fits. lia. }
  destruct (leaf_loop_ok 32 c 0 (c + 1) x (Z.of_nat c =? branchpos)%Z st)
    as (l & q & h & m & st1 & E & Hl & Hq & Ho & [Hi Hh Hmu Hm]);
    [rewrite Nat.pow_0_r; lia | lia | done | lia | done | by apply leaf_inv_start |].
  rewrite E, obind_Some. destruct (lookup_lt_is_Some_2 (m_inner st1) l) as [y Hy]; [by destruct Hi as [-> _] |].
  rewrite Hy, obind_Some. eexists. split; [done |]. split.
  - destruct (inner_store c l q h st1) as [H1 H2]; [done.. |]. by split.
  - cbn [m_mutated]. rewrite Hmu. by eapply mut_S.
  - intros Hp. apply (owner_store c l q); [done.. | by apply Hm].
Qed.

Lemma leaves_loop_ok fuel c st :
  c <= n -> n <= 2 ^ 31 -> n - c <= fuel -> leaves_inv c st ->
  exists st', leaves_loop hash2 fuel leaves pbranch branchpos (Z.of_nat c) st = Some (Z.of_nat n, st') /\
    leaves_inv n st'.
Proof using Hpos.
  revert c st. induction fuel as [|fuel IH]; intros c st Hc H31 Hf Hinv; cbn [leaves_loop].
  - assert (c = n) as -> by lia. rewrite Z.ltb_irrefl. by exists st.
  - destruct (Z.ltb_spec (Z.of_nat c) (Z.of_nat n)) as [Hlt|Hge].
    + destruct (add_leaf_ok c st) as (st1 & E & H1); [lia | lia | done |].
      rewrite E, obind_Some. apply IH; [lia | done | lia | done].
    + assert (c = n) as -> by lia. by exists st.
Qed.

End Leaves.
End Tree.
