(* ===== verification/MerkleTheorems.v ===== *)
(** * consensus/merkle.cpp: the final sweep of [MerkleComputation], and the theorems

    The sweep walks up the right edge of the tree.  At level [l] the counter is
    [len l * 2^l], the count the level would have with its last node whole. *)

From S2P Require Import Prelude MdHash ShaSpec Hash Merkle MerkleProofs.
#[local] Open Scope nat_scope.

(** A bit with room for another above it. *)
Lemma bit_of k q : k < 32 -> q * 2 ^ k <= 2 ^ 31 -> 1 < q -> k < 31.
Proof.
  intros Hk Hb Hq. destruct (decide (k < 31)); [done |]. assert (k = 31) as -> by lia.
  pose proof (pow2_pos_nat 31). clear -Hb Hq H. nia.
Qed.

Section Sweep.
Context {U : Type} `{EqDecision U} (null : U) (hash2 : U -> U -> U) (leaves : list U).
Context (pbranch : bool) (pos : nat).
Abbreviation n := (length leaves).
Abbreviation ND := (nd null hash2 leaves).
Abbreviation LEN := (len hash2 leaves).
Abbreviation SIBS := (sibs null hash2 leaves pos).
Abbreviation OWNER := (owner null hash2 leaves pos).
Context (Hn : 0 < n) (H31 : n <= 2 ^ 31) (Hpos : pbranch = true -> pos < n).

Lemma len_pos k : 0 < LEN k.
Proof using Hn H31 Hpos.
  rewrite len_div. pose proof (pow2_pos_nat k). apply Nat.div_str_pos. lia.
Qed.

(** The padded count stays below [2^31]. *)
Lemma len_bound k : k <= 31 -> LEN k * 2 ^ k <= 2 ^ 31.
Proof using Hn H31 Hpos.
  intros Hk. rewrite len_div. pose proof (pow2_pos_nat k) as Hp.
  replace 31 with (31 - k + k) in H31 |- * by lia. rewrite Nat.pow_add_r in H31 |- *.
  apply Nat.mul_le_mono_r. generalize dependent (2 ^ (31 - k)). intros m Hm.
  apply Nat.lt_succ_r. apply Nat.Div0.div_lt_upper_bound. nia.
Qed.

(** The edge invariant. *)
Record edge_inv (l : nat) (h : U) (matchh : bool) (st : mstate U) : Prop := {
  ed_lt : l < 32;
  ed_h : h = ND l (LEN l - 1);
  ed_inner : inner_ok null hash2 leaves n st;
  ed_tall : forall j, j < l -> 1 < LEN j;
  ed_match : pbranch = true ->
    if matchh then pos / 2 ^ l = LEN l - 1 /\ m_branch st = SIBS l
    else pos / 2 ^ l <> LEN l - 1 /\ OWNER n l st;
}.

(** A level that is not whole has one node more than its whole subtrees. *)
Lemma mod_S k : n mod 2 ^ k <> 0 -> n mod 2 ^ S k <> 0.
Proof using Hn H31 Hpos.
  intros Hk E. apply Hk. apply Nat.Lcm0.mod_divide in E as [m Em]. rewrite Em.
  replace (m * 2 ^ S k) with (m * 2 * 2 ^ k) by (simpl; lia). apply Nat.Div0.mod_mul.
Qed.

Lemma sweep_up_ok fuel l h matchh st :
  n mod 2 ^ l <> 0 -> fuel + l >= 32 -> edge_inv l h matchh st ->
  exists l' h' m' st',
    sweep_up hash2 fuel pbranch (Z.of_nat (LEN l * 2 ^ l)) l h matchh st = Some (l', h', m', st') /\
    l <= l' /\ Nat.even (LEN l') = false /\ LEN l' * 2 ^ l' = LEN l * 2 ^ l /\
    edge_inv l' h' m' st' /\ m_mutated st' = m_mutated st.
Proof using Hn H31 Hpos.
  revert l h matchh st. induction fuel as [|fuel IH]; intros l h matchh st Hmod Hf [Hl Hh Hi Ht Hm];
    [lia |].
  cbn [sweep_up]. rewrite bit_clear_nat, obind_Some, div_exact by done.
  destruct (Nat.even (LEN l)) eqn:Ee; [| by exists l, h, matchh, st].
  destruct (even_half _ Ee) as [r Hr]. pose proof (len_pos l) as Hlp.
  pose proof (len_inexact hash2 leaves l Hmod) as Hin. assert (n / 2 ^ l = 2 * r - 1) as Hc by lia.
  rewrite (inner_lookup null hash2 leaves n l r) by (done || lia). rewrite obind_Some.
  assert (h = ND l (2 * r - 1)) as -> by (by rewrite Hh, Hr).
  pose proof (push_branch_frame pbranch l (ND l (2 * r - 2)) (ND l (2 * r - 1)) matchh st) as Hfr.
  pose proof (push_branch_ok null hash2 leaves pbranch pos n l r matchh st) as Hpush.
  destruct (push_branch pbranch l (ND l (2 * r - 2)) (ND l (2 * r - 1)) matchh st) as [m1 st1].
  destruct Hfr as (Fi & Fl & Fm).
  assert (LEN (S l) = r) as HS.
  { rewrite len_S, Hr. symmetry. apply (Nat.div_unique _ _ _ 1); lia. }
  assert (LEN l * 2 ^ l = LEN (S l) * 2 ^ S l) as Ecount by (rewrite HS, Hr; simpl; lia).
  assert (l < 31) by (apply (bit_of l (LEN l)); [done | apply len_bound; lia | lia]).
  rewrite Ecount. destruct (IH (S l) (hash2 (ND l (2 * r - 2)) (ND l (2 * r - 1))) m1 st1)
    as (l' & h' & m' & st' & E & ? & ? & ? & ? & ?).
  - by apply mod_S.
  - lia.
  - split; [lia | | | |].
    + rewrite HS. replace (2 * r - 2) with (2 * (r - 1)) by lia.
      replace (2 * r - 1) with (2 * (r - 1) + 1) by lia. symmetry. apply nd_S. lia.
    + destruct Hi. split; rewrite Fi; done.
    + intros j Hj. destruct (decide (j = l)) as [->|]; [lia | apply Ht; lia].
    + intros Hp. rewrite HS. apply Hpush; [done | lia | lia | done |].
      rewrite Hr in Hm. by apply Hm.
  - exists l', h', m', st'. split_and!; [done | lia | done | lia | done | congruence].
Qed.

(** Combining the last node with itself. *)
Lemma dup_ok l h matchh st :
  Nat.even (LEN l) = false -> 1 < LEN l -> edge_inv l h matchh st ->
  let st' := if pbranch && matchh
             then mkM (m_inner st) (m_matchlevel st) (m_mutated st) (m_branch st ++ [h]) else st in
  LEN l * 2 ^ l + 2 ^ l = LEN (S l) * 2 ^ S l /\ n mod 2 ^ S l <> 0 /\
  m_mutated st' = m_mutated st /\ edge_inv (S l) (hash2 h h) matchh st'.
Proof using Hn H31 Hpos.
  intros Ho H1 [Hl Hh Hi Ht Hm] st'. destruct (odd_half _ Ho) as [r Hr].
  assert (LEN (S l) = r + 1) as HS.
  { rewrite len_S, Hr. symmetry. apply (Nat.div_unique _ _ _ 0); lia. }
  assert (l < 31) by (apply (bit_of l (LEN l)); [done | apply len_bound; lia | lia]).
  split_and!; [rewrite HS, Hr; simpl; lia | | subst st'; by destruct (_ && _) |].
  { intros E. apply Nat.Lcm0.mod_divide in E as [m Em].
    rewrite (len_exact hash2 leaves l (2 * m)) in Hr by (rewrite Em; simpl; lia). lia. }
  split; [lia | | subst st'; by destruct (_ && _) | |].
  - rewrite HS, Hh, Hr, !Nat.add_sub. symmetry. apply nd_S_last. lia.
  - intros j Hj. destruct (decide (j = l)) as [->|]; [lia | apply Ht; lia].
  - intros Hp. subst st'. specialize (Hm Hp). rewrite Hp, HS, Nat.add_sub, div_pow2_S. destruct matchh.
    + destruct Hm as [Hd Hb]. rewrite Hd, Hr, Nat.add_sub. cbn [m_branch andb]. split.
      { rewrite Nat.mul_comm, Nat.div_mul; lia. }
      rewrite sibs_S, Hb, Hh. do 3 f_equal. unfold sib_idx. rewrite Hd, Hr, Nat.add_sub, Nat.even_mul.
      cbn [orb Nat.even]. by rewrite Nat.ltb_irrefl.
    + destruct Hm as [Hne Hm]. cbn [andb]. unfold owner in *. rewrite decide_True in Hm |- * by auto.
      destruct Hm as (k & Hk & Hml & He & Hd & Hb).
      assert (pos / 2 ^ l <= LEN l - 1) as Hle.
      { pose proof (Hpos Hp). rewrite len_div. pose proof (pow2_pos_nat l).
        apply Nat.le_add_le_sub_r. rewrite <- Nat.div_add by lia. apply Nat.Div0.div_le_mono. lia. }
      split.
      { pose proof (Nat.Div0.div_lt_upper_bound (pos / 2 ^ l) 2 r). lia. }
      exists k. split_and!; [| done..]. destruct (decide (l = k)) as [<-|]; [exfalso | lia].
      destruct (decide (n mod 2 ^ l = 0)) as [E|E].
      * apply Nat.Lcm0.mod_divide in E as [m Em]. rewrite (len_exact hash2 leaves l m Em) in *.
        rewrite Em, div_exact in Hd. done.
      * rewrite (len_inexact hash2 leaves l E), Nat.add_1_r, Nat.even_succ, <- Nat.negb_even, He in Ho.
        done.
Qed.

Lemma sweep_ok fuel l h matchh st :
  32 <= fuel + l -> Nat.even (LEN l) = false -> edge_inv l h matchh st ->
  exists l' h' m' st',
    sweep hash2 fuel pbranch (Z.of_nat (LEN l * 2 ^ l)) l h matchh st = Some (h', st') /\
    LEN l' = 1 /\ edge_inv l' h' m' st' /\ m_mutated st' = m_mutated st.
Proof using Hn H31 Hpos.
  revert l h matchh st. induction fuel as [|fuel IH]; intros l h matchh st Hf Ho Hinv;
    pose proof (ed_lt _ _ _ _ Hinv) as Hl; [lia |].
  cbn [sweep]. rewrite bit32_pow by done. pose proof (pow2_pos_nat l).
  destruct (Z.eqb_spec (Z.of_nat (LEN l * 2 ^ l)) (Z.of_nat (2 ^ l))) as [E|E].
  - exists l, h, matchh, st. split_and!; [done | | done..]. apply Nat2Z.inj in E. nia.
  - pose proof (len_pos l). assert (LEN l <> 1) by (intros E1; rewrite E1, Nat.mul_1_l in E; done).
    destruct (dup_ok l h matchh st) as (Ecount & Hmod & Fm & Hinv'); [done | lia | done |].
    set (st1 := if pbranch && matchh then _ else _) in *.
    assert (l < 31) by (apply (bit_of l (LEN l)); [done | apply len_bound; lia | lia]).
    assert (u32 (Z.of_nat (LEN l * 2 ^ l) + Z.of_nat (2 ^ l)) = Z.of_nat (LEN (S l) * 2 ^ S l)) as ->.
    { rewrite <- Nat2Z.inj_add, Ecount. apply wrap_id. pose proof (len_bound (S l) ltac:(lia)) as Hb.
      apply Nat2Z.inj_le in Hb. rewrite (Nat2Z.inj_pow 2 31) in Hb.
      change (Z.of_nat 2) with 2%Z in Hb. change (Z.of_nat 31) with 31%Z in Hb. unfold fits. lia. }
    destruct (sweep_up_ok 32 (S l) (hash2 h h) matchh st1) as (l2 & h2 & m2 & st2 & E2 & ? & ? & Ec & ? & Fm2);
      [done | lia | done |].
    rewrite E2, obind_Some, <- Ec.
    destruct (IH l2 h2 m2 st2) as (l3 & h3 & m3 & st3 & E3 & ? & ? & ?); [lia | done | done |].
    exists l3, h3, m3, st3. split_and!; [done.. | congruence].
Qed.

End Sweep.

(** * consensus/merkle.cpp: roots, branches and the detection of duplicated leaves *)

#[local] Open Scope nat_scope.

Section Result.
Context {U : Type} `{EqDecision U} (null : U) (hash2 : U -> U -> U) (leaves : list U).
Abbreviation n := (length leaves).
Abbreviation ND := (nd null hash2 leaves).
Abbreviation LEN := (len hash2 leaves).

(** [while (!(count & (1 << level)))] stops at the lowest set bit. *)
Lemma lowest_bit_ok fuel l q :
  q * 2 ^ l = n -> 0 < n -> n <= 2 ^ 31 -> l < 32 -> 32 <= fuel + l ->
  exists l' q', lowest_bit fuel (Z.of_nat n) l = Some l' /\ l' < 32 /\ q' * 2 ^ l' = n /\
    Nat.even q' = false.
Proof.
  revert l q. induction fuel as [|fuel IH]; intros l q Hq H0 H31 Hl Hf; [lia |].
  cbn [lowest_bit]. rewrite bit_clear_nat, obind_Some, <- Hq, div_exact by done.
  destruct (Nat.even q) eqn:Eq; [| by exists l, q]. destruct (even_half q Eq) as [r ->].
  assert (l < 31).
  { apply (bit_of l (2 * r)); [done | lia |].
    destruct r; [cbn [Nat.mul] in Hq; lia | lia]. }
  rewrite Hq. apply (IH (S l) r); [simpl; lia | done | done | lia | lia].
Qed.

(** The height of the tree. *)
Lemma height_log2 l : 0 < n -> LEN l = 1 -> (forall j, j < l -> 1 < LEN j) -> l = Nat.log2_up n.
Proof.
  intros H0 H1 Ht. rewrite len_div in H1. pose proof (pow2_pos_nat l) as Hp.
  assert (n <= 2 ^ l) as Hle.
  { pose proof (Nat.Div0.div_mod (n + 2 ^ l - 1) (2 ^ l)).
    pose proof (Nat.mod_upper_bound (n + 2 ^ l - 1) (2 ^ l)). nia. }
  destruct l as [|l].
  - rewrite Nat.pow_0_r in Hle. replace n with 1 by lia. done.
  - specialize (Ht l ltac:(lia)). rewrite len_div in Ht. pose proof (pow2_pos_nat l).
    assert (2 ^ l < n).
    { pose proof (Nat.Div0.mul_div_le (n + 2 ^ l - 1) (2 ^ l)). nia. }
    symmetry. apply Nat.log2_up_unique; [lia | cbn [Nat.pred]; lia].
Qed.

Lemma leaves_inv_init pbranch pos :
  leaves_inv null hash2 leaves pbranch pos 0 (mkM (replicate 32 null) (-1) false []).
Proof.
  split.
  - split; [done |]. intros k _ Hk. rewrite Nat.Div0.div_0_l in Hk. done.
  - split; [done | intros (k & i & Hle & _)]. pose proof (pow2_pos_nat k). nia.
  - intros _. unfold owner. by rewrite decide_False by lia.
Qed.

(** Entering the sweep. *)
Lemma edge_start pbranch pos l q st :
  (pbranch = true -> pos < n) -> l < 32 -> q * 2 ^ l = n -> Nat.even q = false ->
  leaves_inv null hash2 leaves pbranch pos n st ->
  exists h, m_inner st !! l = Some h /\ LEN l = q /\
    edge_inv null hash2 leaves pbranch pos l h (m_matchlevel st =? Z.of_nat l)%Z st.
Proof.
  intros Hpos Hl Hq Ho [[Hlen Hi] _ Hown]. pose proof (len_exact hash2 leaves l q (eq_sym Hq)) as HL.
  assert (n / 2 ^ l = q) as Hd by (by rewrite <- Hq, div_exact).
  assert (1 <= q) by (destruct q; [done | lia]).
  exists (ND l (q - 1)). split_and!; [by rewrite Hi, Hd by (by rewrite ?Hd) | done |].
  split; [done | by rewrite HL | done | |].
  - intros j Hj. rewrite (len_exact hash2 leaves j (q * 2 ^ (l - j))).
    + pose proof (Nat.pow_gt_1 2 (l - j)). nia.
    + rewrite <- Hq, <- Nat.mul_assoc, <- Nat.pow_add_r. do 2 f_equal. lia.
  - intros Hp. specialize (Hown Hp). unfold owner in *. rewrite decide_True in Hown |- * by auto.
    destruct Hown as (k & _ & Hml & He & Hdk & Hb). rewrite HL, Hml.
    destruct (Z.eqb_spec (Z.of_nat k) (Z.of_nat l)) as [E|E].
    { apply Nat2Z.inj in E as ->. by rewrite Hdk, Hd. }
    assert (l < k).
    { destruct (Nat.lt_trichotomy l k) as [|[->|Hk]]; [done | done | exfalso].
      rewrite <- Hq in He. replace l with (l - k - 1 + 1 + k) in He by lia.
      by rewrite !Nat.pow_add_r, !Nat.mul_assoc, div_exact, !Nat.even_mul, orb_true_r in He. }
    split; [| exists k; split_and!; [lia | done..]]. intros Hpl.
    assert (pos / 2 ^ k = n / 2 ^ k) as Heq.
    { rewrite <- Hq, (div_odd_above q l k) by (lia || by rewrite <- Nat.negb_even, Ho).
      apply (div_eq_above _ _ l); [lia |]. rewrite div_pred by lia. done. }
    rewrite Heq in Hdk. destruct (n / 2 ^ k); [done | lia].
Qed.

(** The computation returns the root, the flag and the path. *)
Lemma MerkleComputation_ok pbranch pos branchpos :
  0 < n -> n <= 2 ^ 31 -> (pbranch = true -> pos < n /\ branchpos = Z.of_nat pos) ->
  exists mutated branch,
    MerkleComputation null hash2 leaves branchpos pbranch =
      Some (merkle_root null hash2 leaves, mutated, branch) /\
    (mutated = true <-> mut null hash2 leaves n) /\
    (pbranch = true -> branch = sibs null hash2 leaves pos (Nat.log2_up n)).
Proof.
  intros H0 H31 Hp. unfold MerkleComputation. rewrite decide_False by lia.
  destruct (leaves_loop_ok null hash2 leaves pbranch pos branchpos ltac:(by intros; apply Hp) n 0
    (mkM (replicate 32 null) (-1) false [])) as (st & E & Hinv);
    [lia | done | lia | apply leaves_inv_init |].
  change (Z.of_nat 0) with 0%Z in E. rewrite E, obind_Some.
  destruct (lowest_bit_ok 32 0 n) as (l & q & El & Hl & Hq & Ho); [rewrite Nat.pow_0_r; lia | lia.. |].
  rewrite El, obind_Some.
  assert (Hpos : pbranch = true -> pos < n) by (intros; by apply Hp).
  destruct (edge_start pbranch pos l q st) as (h & Eh & HL & He); [done.. |].
  rewrite Eh, obind_Some.
  destruct (sweep_ok null hash2 leaves pbranch pos H0 H31 Hpos 32 l h (m_matchlevel st =? Z.of_nat l)%Z st)
    as (l' & h' & m' & st' & Es & HL1 & [_ Hh' _ Ht Hm] & Fm); [lia | by rewrite HL | done |].
  rewrite HL, Hq in Es. rewrite Es, obind_Some. rewrite HL1 in *.
  pose proof (height_log2 l' H0 HL1 Ht) as Hlog. exists (m_mutated st'), (m_branch st'). split_and!.
  - do 3 f_equal. rewrite Hh'. symmetry. by apply root_of_level.
  - rewrite Fm. by destruct Hinv.
  - intros Hb. specialize (Hm Hb). rewrite <- Hlog. destruct m'; [by destruct Hm |].
    destruct Hm as [Hne _]. exfalso. apply Hne.
    pose proof (Nat.log2_up_spec n) as Hs. rewrite <- Hlog in Hs. apply Nat.div_small.
    destruct (decide (1 < n)) as [H1|H1]; [destruct (Hs H1); specialize (Hpos Hb); lia |].
    pose proof (pow2_pos_nat l'). specialize (Hpos Hb). lia.
Qed.

(** ** Branches *)

Lemma level_lt pos k : pos < n -> pos / 2 ^ k < LEN k.
Proof.
  intros Hp. rewrite len_div. pose proof (pow2_pos_nat k). apply Nat.Div0.div_lt_upper_bound.
  pose proof (Nat.Div0.div_mod (n + 2 ^ k - 1) (2 ^ k)).
  pose proof (Nat.mod_upper_bound (n + 2 ^ k - 1) (2 ^ k)). nia.
Qed.

(** Folding [k] siblings climbs [k] levels. *)
Lemma branch_climb pos k :
  pos < n ->
  foldl (fun p b => let '(hash, nIndex) := p in
           ((if negb (Z.land nIndex 1 =? 0)%Z then hash2 b hash else hash2 hash b), (nIndex >> 1)))
        (ND 0 pos, Z.of_nat pos) (sibs null hash2 leaves pos k)
  = (ND k (pos / 2 ^ k), Z.of_nat (pos / 2 ^ k)).
Proof.
  intros Hp. induction k as [|k IH].
  - rewrite Nat.pow_0_r, Nat.div_1_r. done.
  - rewrite sibs_S, foldl_app, IH. cbn [foldl]. pose proof (level_lt pos k Hp) as Hlt.
    rewrite div_pow2_S. unfold sib_idx. set (i := pos / 2 ^ k) in *.
    assert (Hshift : (Z.of_nat i >> 1)%Z = Z.of_nat (i / 2)) by
      (rewrite Z.shiftr_div_pow2 by lia; by rewrite Nat2Z.inj_div).
    rewrite Hshift. f_equal.
    assert (Z.land (Z.of_nat i) 1 = Z.of_nat (i mod 2)) as ->.
    { change 1%Z with (Z.ones 1). rewrite Z.land_ones by lia. by rewrite Nat2Z.inj_mod. }
    destruct (Nat.even i) eqn:Ei.
    + destruct (even_half i Ei) as [r Hr]. rewrite Hr, (Nat.mul_comm 2 r), Nat.Div0.mod_mul, Nat.div_mul by lia.
      cbn [Z.of_nat Z.eqb negb]. rewrite (Nat.mul_comm r 2).
      destruct (Nat.ltb_spec (2 * r + 1) (LEN k)); [by rewrite nd_S | by rewrite nd_S_last by lia].
    + destruct (odd_half i Ei) as [r Hr]. rewrite Hr.
      replace ((2 * r + 1) mod 2) with 1 by (apply (Nat.mod_unique _ _ r); lia).
      replace ((2 * r + 1) / 2) with r by (apply (Nat.div_unique _ _ _ 1); lia).
      cbn [Z.of_nat Z.eqb negb Pos.of_succ_nat]. rewrite Nat.add_sub. by rewrite nd_S by lia.
Qed.

(** The top level. *)
Lemma top_level :
  0 < n -> LEN (Nat.log2_up n) = 1 /\ merkle_root null hash2 leaves = ND (Nat.log2_up n) 0.
Proof.
  intros H0. assert (n <= 2 ^ Nat.log2_up n) as Hle.
  { destruct (decide (1 < n)) as [H1|H1]; [by apply Nat.log2_up_spec |].
    pose proof (pow2_pos_nat (Nat.log2_up n)). lia. }
  assert (LEN (Nat.log2_up n) = 1) as HL.
  { rewrite len_div. symmetry. apply (Nat.div_unique _ _ _ (n - 1)); lia. }
  split; [done |]. apply root_of_level; [done |].
  intros j Hj. rewrite len_div. pose proof (pow2_pos_nat j).
  assert (2 ^ j < n) by (apply Nat.log2_up_lt_pow2; [lia | done]).
  apply Nat.div_le_lower_bound; lia.
Qed.

Lemma branch_root pos x :
  leaves !! pos = Some x ->
  ComputeMerkleRootFromBranch hash2 x (sibs null hash2 leaves pos (Nat.log2_up n)) (Z.of_nat pos)
  = merkle_root null hash2 leaves.
Proof.
  intros Hx. pose proof (lookup_lt_Some _ _ _ Hx) as Hp. unfold ComputeMerkleRootFromBranch.
  assert (x = ND 0 pos) as -> by (symmetry; by apply nth_lookup_Some).
  rewrite branch_climb by done. cbn [fst]. destruct top_level as [HL ->]; [lia |].
  f_equal. pose proof (level_lt pos (Nat.log2_up n) Hp). lia.
Qed.

End Result.

(** ** Duplicated leaves *)

Section Collision.
Context {U : Type} `{EqDecision U} (null : U) (hash2 : U -> U -> U) (wf : U -> Prop).
Context (Hwf : forall a b, wf a -> wf b -> wf (hash2 a b)).

(** Two different pairs of well-formed values with one hash. *)
Definition collision : Prop :=
  exists a b c d, wf a /\ wf b /\ wf c /\ wf d /\ (a, b) <> (c, d) /\ hash2 a b = hash2 c d.

Lemma hash2_split a b c d :
  wf a -> wf b -> wf c -> wf d -> hash2 a b = hash2 c d -> collision \/ (a = c /\ b = d).
Proof.
  intros. destruct (decide ((a, b) = (c, d))) as [E|]; [right; by simplify_eq | left].
  by exists a, b, c, d.
Qed.

Lemma pair_up_wf l : Forall wf l -> Forall wf (pair_up hash2 l).
Proof using EqDecision0 Hwf.
  induction l as [|a|a b l IH] using pair_ind; intros Hl; cbn [pair_up];
    repeat rewrite Forall_cons_iff in Hl; repeat rewrite Forall_cons_iff; intuition auto.
Qed.

Lemma level_wf leaves k : Forall wf leaves -> Forall wf (level hash2 leaves k).
Proof using EqDecision0 Hwf. intros Hl. induction k as [|k IH]; [done |]. by apply pair_up_wf. Qed.

Lemma nd_wf leaves k i : Forall wf leaves -> i < len hash2 leaves k -> wf (nd null hash2 leaves k i).
Proof using EqDecision0 Hwf.
  intros Hl Hi. unfold nd. destruct (lookup_lt_is_Some_2 _ _ Hi) as [x Hx].
  rewrite (nth_lookup_Some _ _ _ _ Hx). eapply Forall_lookup_1; [by apply level_wf | done].
Qed.

(** Two lists with one parent level are equal, or one ends with a pair the other has once. *)
Lemma pair_up_inj l1 l2 :
  Forall wf l1 -> Forall wf l2 -> pair_up hash2 l1 = pair_up hash2 l2 ->
  collision \/ l1 = l2 \/
  (exists l x, (l1 = l ++ [x; x] /\ l2 = l ++ [x] \/ l2 = l ++ [x; x] /\ l1 = l ++ [x]) /\
               Nat.even (length l) = true).
Proof.
  revert l2. induction l1 as [|a|a b l1 IH] using pair_ind; intros l2 H1 H2 E.
  - right. left. by destruct l2 as [|? [|]].
  - destruct l2 as [|c [|d l2]]; [done | |]; cbn [pair_up] in E; simplify_list_eq;
      repeat rewrite Forall_cons_iff in H1; repeat rewrite Forall_cons_iff in H2; destruct_and?.
    + destruct (hash2_split a a c c) as [|[-> _]]; [done.. | by left | by auto].
    + destruct l2 as [|? [|]]; [| done..].
      destruct (hash2_split a a c d) as [|[-> ->]]; [done.. | by left |].
      right. right. exists [], d. auto.
  - destruct l2 as [|c [|d l2]]; [done | |]; cbn [pair_up] in E; simplify_list_eq;
      repeat rewrite Forall_cons_iff in H1; repeat rewrite Forall_cons_iff in H2; destruct_and?.
    + destruct l1 as [|? [|]]; [| done..].
      destruct (hash2_split a b c c) as [|[-> ->]]; [done.. | by left |].
      right. right. exists [], c. auto.
    + destruct (hash2_split a b c d) as [|[-> ->]]; [done.. | by left |].
      destruct (IH l2) as [|[->|(l & x & Hl & He)]]; [done.. | by left | by auto |].
      right. right. exists (c :: d :: l), x. split; [| done].
      destruct Hl as [[-> ->]|[-> ->]]; auto.
Qed.

(** A whole subtree equal to the padded one at the end of its level repeats a pair. *)
Lemma padded_eq leaves k i :
  Forall wf leaves -> (i + 1) * 2 ^ k <= length leaves -> length leaves mod 2 ^ k <> 0 ->
  nd null hash2 leaves k i = nd null hash2 leaves k (len hash2 leaves k - 1) ->
  collision \/ mut null hash2 leaves (length leaves).
Proof using EqDecision0 Hwf.
  intros Hl. revert i. induction k as [|k IH]; intros i Hi Hmod E; [done |].
  pose proof (pow2_pos_nat k) as Hp. pose proof (len_S hash2 leaves k) as HS.
  assert (Hle : (2 * i + 2) * 2 ^ k <= length leaves) by (simpl in Hi; lia).
  pose proof (len_ge hash2 leaves ((2 * i + 2) * 2 ^ k) k (2 * i + 2) eq_refl Hle) as Hlen.
  rewrite nd_S in E by lia. set (j := len hash2 leaves (S k) - 1) in *.
  destruct (decide (2 * j + 1 = len hash2 leaves k)) as [Ej|Ej].
  - rewrite (nd_S_last _ _ _ _ j Ej) in E.
    apply hash2_split in E as [|[E1 E2]]; [by left | | apply nd_wf; (done || lia)..].
    right. exists k, i. split; [done | congruence].
  - assert (len hash2 leaves k = 2 * j + 2) as Ej2.
    { pose proof (Nat.Div0.div_mod (len hash2 leaves k + 1) 2).
      pose proof (Nat.mod_upper_bound (len hash2 leaves k + 1) 2). lia. }
    rewrite (nd_S _ _ _ _ j) in E by lia.
    apply hash2_split in E as [|[_ E2]]; [by left | | apply nd_wf; (done || lia)..].
    destruct (decide (length leaves mod 2 ^ k = 0)) as [Em|Em].
    + exfalso. apply Hmod. apply Nat.Lcm0.mod_divide in Em as [m Em].
      rewrite (len_exact _ _ _ m Em) in Ej2. rewrite Em, Ej2.
      replace ((2 * j + 2) * 2 ^ k) with ((j + 1) * 2 ^ S k) by (simpl; lia). apply Nat.Div0.mod_mul.
    + apply (IH (2 * i + 1)); [lia | done |]. rewrite E2. f_equal. lia.
Qed.

(** A level that ends with a repeated pair betrays the list. *)
Lemma tail_pair_mut leaves k l x :
  Forall wf leaves -> level hash2 leaves k = l ++ [x; x] -> Nat.even (length l) = true ->
  collision \/ mut null hash2 leaves (length leaves).
Proof using EqDecision0 Hwf.
  intros Hl E He. destruct (even_half _ He) as [r Hr].
  assert (len hash2 leaves k = 2 * r + 2) as HL by (unfold len; rewrite E, length_app; simpl; lia).
  assert (nd null hash2 leaves k (2 * r) = x) as H1.
  { unfold nd. apply nth_lookup_Some. rewrite E, lookup_app_r by lia. by rewrite Hr, Nat.sub_diag. }
  assert (nd null hash2 leaves k (2 * r + 1) = x) as H2.
  { unfold nd. apply nth_lookup_Some. rewrite E, lookup_app_r by lia.
    by replace (2 * r + 1 - length l) with 1 by lia. }
  destruct (decide (length leaves mod 2 ^ k = 0)) as [Em|Em].
  - right. exists k, r. split; [| congruence]. apply Nat.Lcm0.mod_divide in Em as [m Em].
    rewrite (len_exact _ _ _ m Em) in HL. rewrite Em, HL. done.
  - pose proof (len_inexact hash2 leaves k Em) as Hin.
    apply (padded_eq leaves k (2 * r)); [done | | done |].
    + pose proof (Nat.Div0.mul_div_le (length leaves) (2 ^ k)). nia.
    + rewrite HL, H1. symmetry. by replace (2 * r + 2 - 1) with (2 * r + 1) by lia.
Qed.

(** Equal levels below, or a repeated pair. *)
Lemma level_inj l1 l2 k :
  Forall wf l1 -> Forall wf l2 -> level hash2 l1 k = level hash2 l2 k ->
  collision \/ l1 = l2 \/ mut null hash2 l1 (length l1) \/ mut null hash2 l2 (length l2).
Proof using EqDecision0 Hwf.
  intros H1 H2. induction k as [|k IH]; intros E; [by right; left |].
  destruct (pair_up_inj (level hash2 l1 k) (level hash2 l2 k))
    as [|[Ek|(l & x & Hl & He)]]; [by apply level_wf.. | done | by left | by apply IH |].
  destruct Hl as [[Ek _]|[Ek _]]; eapply tail_pair_mut in Ek as [|]; eauto.
Qed.

(** Trees of one height with one root. *)
Lemma root_inj l1 l2 :
  Forall wf l1 -> Forall wf l2 -> 0 < length l1 -> 0 < length l2 ->
  Nat.log2_up (length l1) = Nat.log2_up (length l2) ->
  merkle_root null hash2 l1 = merkle_root null hash2 l2 ->
  collision \/ l1 = l2 \/ mut null hash2 l1 (length l1) \/ mut null hash2 l2 (length l2).
Proof using EqDecision0 Hwf.
  intros H1 H2 P1 P2 Hh Hr. apply (level_inj l1 l2 (Nat.log2_up (length l1))); [done.. |].
  destruct (top_level null hash2 l1 P1) as [L1 R1]. destruct (top_level null hash2 l2 P2) as [L2 R2].
  rewrite <- Hh in L2, R2. rewrite R1, R2 in Hr. unfold nd, len in *.
  destruct (level hash2 l1 _) as [|x [|]]; [done | | done].
  destruct (level hash2 l2 _) as [|y [|]]; [done | | done]. cbn [nth] in Hr. by subst.
Qed.

End Collision.

(** ** Two hashes that agree on well-formed values build one tree *)

Section Agree.
Context {U : Type} `{EqDecision U} (null : U) (h1 h2 : U -> U -> U) (wf : U -> Prop).
Context (Hwf : forall a b, wf a -> wf b -> wf (h2 a b)).
Context (Heq : forall a b, wf a -> wf b -> h1 a b = h2 a b).
Context (leaves : list U) (Hl : Forall wf leaves).

Lemma pair_up_agree l : Forall wf l -> pair_up h1 l = pair_up h2 l.
Proof using Heq.
  induction l as [|a|a b l IH] using pair_ind; intros H; cbn [pair_up];
    repeat rewrite Forall_cons_iff in H; destruct_and?; [done | by rewrite Heq |].
  by rewrite Heq, IH.
Qed.

Lemma level_agree k : level h1 leaves k = level h2 leaves k.
Proof using EqDecision0 Hwf Heq Hl.
  induction k as [|k IH]; [done |]. change (pair_up h1 (level h1 leaves k) = pair_up h2 (level h2 leaves k)).
  rewrite IH. by apply pair_up_agree, (level_wf h2 wf).
Qed.

Lemma nd_agree k i : nd null h1 leaves k i = nd null h2 leaves k i.
Proof using EqDecision0 Hwf Heq Hl. unfold nd. by rewrite level_agree. Qed.

Lemma root_agree : 0 < length leaves -> merkle_root null h1 leaves = merkle_root null h2 leaves.
Proof using EqDecision0 Hwf Heq Hl.
  intros H0. destruct (top_level null h1 leaves H0) as [_ ->].
  destruct (top_level null h2 leaves H0) as [_ ->]. apply nd_agree.
Qed.

Lemma mut_agree c : mut null h1 leaves c <-> mut null h2 leaves c.
Proof using EqDecision0 Hwf Heq Hl.
  unfold mut. split; intros (k & i & Hle & E); exists k, i; (split; [done |]);
    rewrite !nd_agree in *; done.
Qed.

Lemma sibs_agree pos k : sibs null h1 leaves pos k = sibs null h2 leaves pos k.
Proof using EqDecision0 Hwf Heq Hl.
  unfold sibs. apply list_fmap_ext. intros i j _. unfold sib_idx, len.
  rewrite level_agree. apply nd_agree.
Qed.

End Agree.

(** ** Blocks *)

#[local] Open Scope Z_scope.

(** A [uint256]. *)
Definition blob256 (x : list Z) : Prop := length x = 32%nat /\ Forall (fits 8) x.

Definition dpair (a b : list Z) : list Z := sha256 (sha256 (a ++ b)).

Lemma dpair_blob a b : blob256 a -> blob256 b -> blob256 (dpair a b).
Proof.
  intros [_ Ha] [_ Hb]. apply (sh_digest_wf (H := CHash256) (digest := dsha256)).
  by apply Forall_app_2.
Qed.

Lemma hash_pair_blob g a b :
  length g = 64%nat -> blob256 a -> blob256 b -> hash_pair g a b = dpair a b.
Proof.
  intros Hg [La Ha] [Lb Hb]. unfold hash_pair, Hash.
  rewrite (sh_run_ok (H := CHash256) (digest := dsha256)); cbn [concat]; rewrite ?app_nil_r; try done.
  - by apply Forall_app_2.
  - rewrite length_app. lia.
Qed.

Lemma small_nat n : Z.of_nat n <= 2 ^ 31 -> (n <= 2 ^ 31)%nat.
Proof.
  intros H. apply Nat2Z.inj_le. rewrite Nat2Z.inj_pow. exact H.
Qed.

(** The root of the leaves and the flag, by [ComputeMerkleRoot]. *)
Lemma root_run g leaves :
  length g = 64%nat -> Forall blob256 leaves -> (0 < length leaves)%nat ->
  Z.of_nat (length leaves) <= 2 ^ 31 ->
  exists mutated,
    ComputeMerkleRoot zero256 (hash_pair g) leaves = Some (merkle_root zero256 dpair leaves, mutated) /\
    (mutated = true <-> mut zero256 dpair leaves (length leaves)).
Proof.
  intros Hg Hl H0 H31. unfold ComputeMerkleRoot.
  destruct (MerkleComputation_ok zero256 (hash_pair g) leaves false 0 (u32 (-1)))
    as (mutated & branch & -> & Hm & _); [done | by apply small_nat | done |].
  rewrite obind_Some. exists mutated.
  assert (forall a b, blob256 a -> blob256 b -> hash_pair g a b = dpair a b) by (intros; by apply hash_pair_blob).
  rewrite (root_agree zero256 (hash_pair g) dpair blob256 dpair_blob) by done. split; [done |].
  rewrite Hm. apply (mut_agree zero256 (hash_pair g) dpair blob256 dpair_blob); done.
Qed.

Lemma blobs_fmap {Tx} (f : Tx -> list Z) vtx :
  (forall tx, blob256 (f tx)) -> Forall blob256 (f <$> vtx).
Proof. intros H. by apply Forall_fmap, Forall_true. Qed.

Lemma zero256_blob : blob256 zero256.
Proof. split; [done |]. apply Forall_replicate. by unfold fits. Qed.

(** C32. [BlockMerkleRoot] and [BlockWitnessMerkleRoot] return, in constant space and without
    leaving the 32 inner hashes, the root of the level-by-level Merkle tree over double
    SHA-256 of the transaction hashes (witness hashes with a zero for the coinbase); the
    mutation flag is set exactly when two equal whole subtrees are siblings. *)
Theorem block_merkle_root_correct {Tx} (GetHash GetWitnessHash : Tx -> list Z) g tx vtx :
  length g = 64%nat -> (forall t, blob256 (GetHash t)) -> (forall t, blob256 (GetWitnessHash t)) ->
  Z.of_nat (length (tx :: vtx)) <= 2 ^ 31 ->
  let leaves := GetHash <$> tx :: vtx in
  let wleaves := zero256 :: (GetWitnessHash <$> vtx) in
  exists mutated wmutated,
    BlockMerkleRoot GetHash g (tx :: vtx) = Some (merkle_root zero256 dpair leaves, mutated) /\
    BlockWitnessMerkleRoot GetWitnessHash g (tx :: vtx)
      = Some (merkle_root zero256 dpair wleaves, wmutated) /\
    (mutated = true <-> mut zero256 dpair leaves (length leaves)) /\
    (wmutated = true <-> mut zero256 dpair wleaves (length wleaves)).
Proof.
  intros Hg Hh Hw Hn leaves wleaves.
  destruct (root_run g leaves) as (m & E & Hm); [done | by apply blobs_fmap | simpl; lia | |].
  { unfold leaves. by rewrite length_fmap. }
  destruct (root_run g wleaves) as (w & E' & Hm'); [done | | simpl; lia | |].
  { constructor; [apply zero256_blob | by apply blobs_fmap]. }
  { unfold wleaves. cbn [length] in Hn |- *. by rewrite length_fmap. }
  exists m, w. split_and!; done.
Qed.

(** Transactions given by their hash alone. *)
Definition toy_hash (t : Z) : list Z := replicate 32 (u8 t).

Lemma toy_blob t : blob256 (toy_hash t).
Proof. split; [done |]. apply Forall_replicate. apply wrap_fits. lia. Qed.

Lemma block_merkle_root_correct_witness :
  exists mutated wmutated,
    BlockMerkleRoot toy_hash (replicate 64 5) [1; 2; 3]
      = Some (merkle_root zero256 dpair (toy_hash <$> [1; 2; 3]), mutated) /\
    BlockWitnessMerkleRoot toy_hash (replicate 64 5) [1; 2; 3]
      = Some (merkle_root zero256 dpair (zero256 :: (toy_hash <$> [2; 3])), wmutated) /\
    (mutated = true <-> mut zero256 dpair (toy_hash <$> [1; 2; 3]) 3) /\
    (wmutated = true <-> mut zero256 dpair (zero256 :: (toy_hash <$> [2; 3])) 3).
Proof.
  apply (block_merkle_root_correct toy_hash toy_hash (replicate 64 5) 1 [2; 3]);
    [reflexivity | exact toy_blob | exact toy_blob | vm_compute; discriminate].
Defined.

(** The branch of [BlockMerkleBranch] at a position has one hash per level, is the
    list of the siblings on the way up, and [ComputeMerkleRootFromBranch] takes the
    transaction's hash along it back to the root. *)
Theorem block_merkle_branch_correct {Tx} (GetHash : Tx -> list Z) g vtx pos tx :
  length g = 64%nat -> (forall t, blob256 (GetHash t)) -> Z.of_nat (length vtx) <= 2 ^ 31 ->
  vtx !! pos = Some tx ->
  let leaves := GetHash <$> vtx in
  exists branch,
    BlockMerkleBranch GetHash g vtx (Z.of_nat pos) = Some branch /\
    length branch = Nat.log2_up (length vtx) /\
    branch = sibs zero256 dpair leaves pos (Nat.log2_up (length vtx)) /\
    ComputeMerkleRootFromBranch (hash_pair g) (GetHash tx) branch (Z.of_nat pos)
      = merkle_root zero256 dpair leaves.
Proof.
  intros Hg Hh Hn Hx leaves. pose proof (lookup_lt_Some _ _ _ Hx) as Hlt.
  assert (length leaves = length vtx) as Hlen by apply length_fmap.
  assert (Forall blob256 leaves) as Hl by (by apply blobs_fmap).
  assert (Hag : forall a b, blob256 a -> blob256 b -> hash_pair g a b = dpair a b)
    by (intros; by apply hash_pair_blob).
  unfold BlockMerkleBranch, ComputeMerkleBranch.
  destruct (MerkleComputation_ok zero256 (hash_pair g) leaves true pos (Z.of_nat pos))
    as (mutated & branch & E & _ & Hb);
    [lia | rewrite Hlen; by apply small_nat | split; [lia | done] |].
  fold leaves. rewrite E, obind_Some, (Hb eq_refl), Hlen. eexists. split_and!; [done | | |].
  - unfold sibs. by rewrite length_fmap, length_seq.
  - by apply (sibs_agree zero256 (hash_pair g) dpair blob256 dpair_blob).
  - rewrite <- Hlen, (branch_root zero256 (hash_pair g) leaves).
    + apply (root_agree zero256 (hash_pair g) dpair blob256 dpair_blob); [done | done | lia].
    + unfold leaves. by rewrite list_lookup_fmap, Hx.
Qed.

Lemma block_merkle_branch_correct_witness :
  exists branch,
    BlockMerkleBranch toy_hash (replicate 64 5) [1; 2; 3] 2 = Some branch /\
    length branch = 2%nat /\
    branch = sibs zero256 dpair (toy_hash <$> [1; 2; 3]) 2 2 /\
    ComputeMerkleRootFromBranch (hash_pair (replicate 64 5)) (toy_hash 3) branch 2
      = merkle_root zero256 dpair (toy_hash <$> [1; 2; 3]).
Proof.
  apply (block_merkle_branch_correct toy_hash (replicate 64 5) [1; 2; 3] 2 3);
    [reflexivity | exact toy_blob | vm_compute; discriminate | reflexivity].
Defined.

(** Against CVE-2012-2459: when two blocks of one tree height have equal Merkle roots
    and neither is flagged as mutated, their transaction hashes are the same, or two
    different 64-byte messages with one double SHA-256 are exhibited. *)
Theorem merkle_mutation_detected {Tx} (GetHash : Tx -> list Z) g vtx vtx' root :
  length g = 64%nat -> (forall t, blob256 (GetHash t)) ->
  vtx <> [] -> vtx' <> [] -> Z.of_nat (length vtx) <= 2 ^ 31 -> Z.of_nat (length vtx') <= 2 ^ 31 ->
  Nat.log2_up (length vtx) = Nat.log2_up (length vtx') ->
  BlockMerkleRoot GetHash g vtx = Some (root, false) ->
  BlockMerkleRoot GetHash g vtx' = Some (root, false) ->
  GetHash <$> vtx = GetHash <$> vtx' \/
  exists m m', length m = 64%nat /\ length m' = 64%nat /\ m <> m' /\
    sha256 (sha256 m) = sha256 (sha256 m').
Proof.
  intros Hg Hh H0 H0' Hn Hn' Hht E E'. unfold BlockMerkleRoot in *.
  destruct (root_run g (GetHash <$> vtx)) as (m & F & Hm);
    [done | by apply blobs_fmap | rewrite length_fmap; destruct vtx; [done | simpl; lia] | by rewrite length_fmap |].
  destruct (root_run g (GetHash <$> vtx')) as (m' & F' & Hm');
    [done | by apply blobs_fmap | rewrite length_fmap; destruct vtx'; [done | simpl; lia] | by rewrite length_fmap |].
  rewrite F in E. rewrite F' in E'. injection E as E ->. injection E' as E' ->.
  destruct (root_inj zero256 dpair blob256 dpair_blob (GetHash <$> vtx) (GetHash <$> vtx'))
    as [(a & b & c & d & Ha & Hb & Hc & Hd & Hne & Eh)|[?|[Hmut|Hmut]]];
    [by apply blobs_fmap.. | | | by rewrite !length_fmap | congruence | | by left | by apply Hm in Hmut | by apply Hm' in Hmut].
  - rewrite length_fmap. destruct vtx; [done | simpl; lia].
  - rewrite length_fmap. destruct vtx'; [done | simpl; lia].
  - right. destruct Ha as [La _], Hb as [Lb _], Hc as [Lc _], Hd as [Ld _].
    exists (a ++ b), (c ++ d). rewrite !length_app, La, Lb, Lc, Ld. split_and!; [done.. | | done].
    intros Hab. apply Hne. by apply app_inj_1 in Hab as [-> ->]; [| congruence].
Qed.

(** The root of three leaves. *)
Definition toy_root : list Z := merkle_root zero256 dpair (toy_hash <$> [1; 2; 3]).

Lemma merkle_mutation_detected_witness :
  toy_hash <$> [1; 2; 3] = toy_hash <$> [1; 258; 3] \/
  exists m m', length m = 64%nat /\ length m' = 64%nat /\ m <> m' /\
    sha256 (sha256 m) = sha256 (sha256 m').
Proof.
  apply (merkle_mutation_detected toy_hash (replicate 64 5) [1; 2; 3] [1; 258; 3] toy_root);
    [reflexivity | exact toy_blob | discriminate | discriminate | vm_compute; discriminate
    | vm_compute; discriminate | reflexivity | vm_compute; reflexivity | vm_compute; reflexivity].
Defined.

(** The example of the comment: the second list has the root of the first and is flagged. *)
Example cve_2012_2459 :
  ComputeMerkleRoot 0 (fun a b => a * 1000 + b + 1) [1; 2; 3; 4; 5; 6]
    = Some (merkle_root 0 (fun a b => a * 1000 + b + 1) [1; 2; 3; 4; 5; 6], false) /\
  ComputeMerkleRoot 0 (fun a b => a * 1000 + b + 1) [1; 2; 3; 4; 5; 6; 5; 6]
    = Some (merkle_root 0 (fun a b => a * 1000 + b + 1) [1; 2; 3; 4; 5; 6], true).
Proof. by vm_compute. Qed.

(** The limit: the sweep of 2^31 + 1 leaves overflows its counter and shifts by 32. *)
Lemma sweep_overflow h :
  sweep (fun a b : Z => 0) 32 false (2 ^ 31 + 1) 0 h false (mkM (replicate 32 0) (-1) false []) = None.
Proof. reflexivity. Qed.
