(* ===== verification/ArithUint.v ===== *)
(** * arith_uint256.h and arith_uint256.cpp: big unsigned integers

    [base_uint<BITS>] keeps [WIDTH = BITS / 32] limbs [pn] of 32 bits, least significant
    first.  A loop that reads and writes only limb [i] in step [i] recurses on the lists of
    limbs; the shifts, which scatter, index them.  [arith_uint256] is the instance with
    eight limbs. *)

From S2P Require Import Prelude MdHash.
#[local] Open Scope Z_scope.

Abbreviation base_uint := (list Z) (only parsing).

(** ** Construction *)

Section BaseUint.
Context (WIDTH : nat).

Definition base_uint_new : base_uint := replicate WIDTH 0.

(** [base_uint(uint64_t b)] and [operator=(uint64_t b)]. *)
Definition base_uint_of (b : Z) : base_uint := u32 b :: u32 (b >> 32) :: replicate (WIDTH - 2) 0.

(** [operator!]. *)
Definition op_isnull (a : base_uint) : bool := forallb (fun x => x =? 0) a.

Definition op_compl (a : base_uint) : base_uint := (fun x => u32 (Z.lnot x)) <$> a.

Definition op_xor (a b : base_uint) : base_uint := zip_with Z.lxor a b.
Definition op_and (a b : base_uint) : base_uint := zip_with Z.land a b.
Definition op_or (a b : base_uint) : base_uint := zip_with Z.lor a b.

(** ** Addition *)

(** [while (++pn[i] == 0 && i < WIDTH-1) i++;] *)
Fixpoint op_inc (a : base_uint) : base_uint :=
  match a with
  | [] => []
  | x :: a => let x := u32 (x + 1) in if x =? 0 then x :: op_inc a else x :: a
  end.

(** [while (--pn[i] == (uint32_t)-1 && i < WIDTH-1) i++;] *)
Fixpoint op_dec (a : base_uint) : base_uint :=
  match a with
  | [] => []
  | x :: a => let x := u32 (x - 1) in if x =? u32 (-1) then x :: op_dec a else x :: a
  end.

Fixpoint add_limbs (carry : Z) (a b : base_uint) : base_uint :=
  match a, b with
  | x :: a, y :: b =>
      let n := u64 (carry + x + y) in
      (n & 0xffffffff) :: add_limbs (n >> 32) a b
  | _, _ => []
  end.

Definition op_add (a b : base_uint) : base_uint := add_limbs 0 a b.

(** [operator-()]: complement, then increment. *)
Definition op_neg (a : base_uint) : base_uint := op_inc (op_compl a).

Definition op_sub (a b : base_uint) : base_uint := op_add a (op_neg b).

Definition op_add64 (a : base_uint) (b64 : Z) : base_uint := op_add a (base_uint_of b64).
Definition op_sub64 (a : base_uint) (b64 : Z) : base_uint := op_add a (op_neg (base_uint_of b64)).

(** ** Shifts *)

(** [pn[j] |= v]. *)
Definition or_at (j : nat) (v : Z) (pn : base_uint) : base_uint := <[j := (pn !!! j) .| v]> pn.

Definition op_shl (a : base_uint) (shift : Z) : base_uint :=
  let k := Z.to_nat (shift / 32) in
  let shift := shift mod 32 in
  for_loop WIDTH (fun i pn =>
    let pn := if (i + k + 1 <? WIDTH)%nat && negb (shift =? 0)
              then or_at (i + k + 1) ((a !!! i) >> (32 - shift)) pn else pn in
    if (i + k <? WIDTH)%nat then or_at (i + k) (u32 ((a !!! i) << shift)) pn else pn)
    (replicate WIDTH 0).

Definition op_shr (a : base_uint) (shift : Z) : base_uint :=
  let k := Z.to_nat (shift / 32) in
  let shift := shift mod 32 in
  for_loop WIDTH (fun i pn =>
    let pn := if (k + 1 <=? i)%nat && negb (shift =? 0)
              then or_at (i - k - 1) (u32 ((a !!! i) << (32 - shift))) pn else pn in
    if (k <=? i)%nat then or_at (i - k) ((a !!! i) >> shift) pn else pn)
    (replicate WIDTH 0).

(** ** Multiplication *)

Fixpoint mul32_limbs (carry b32 : Z) (a : base_uint) : base_uint :=
  match a with
  | x :: a =>
      let n := u64 (carry + b32 * x) in
      (n & 0xffffffff) :: mul32_limbs (n >> 32) b32 a
  | [] => []
  end.

Definition op_mul32 (a : base_uint) (b32 : Z) : base_uint := mul32_limbs 0 b32 a.

(** The inner loop: [pn[i + j]] for [i + j < WIDTH]. *)
Fixpoint mul_row (carry aj : Z) (pn b : base_uint) : base_uint :=
  match pn, b with
  | x :: pn, y :: b =>
      let n := u64 (carry + x + aj * y) in
      (n & 0xffffffff) :: mul_row (n >> 32) aj pn b
  | _, _ => []
  end.

Definition op_mul (a b : base_uint) : base_uint :=
  for_loop WIDTH (fun j pn => take j pn ++ mul_row 0 (a !!! j) (drop j pn) b) (base_uint_of 0).

(** ** Comparison *)

Fixpoint compare_from (n : nat) (a b : base_uint) : Z :=
  match n with
  | O => 0
  | S i => if a !!! i <? b !!! i then -1 else if b !!! i <? a !!! i then 1 else compare_from i a b
  end.

Definition CompareTo (a b : base_uint) : Z := compare_from WIDTH a b.

(** [memcmp(a.pn, b.pn, sizeof(a.pn)) == 0]. *)
Definition op_eq (a b : base_uint) : bool := bool_decide (a = b).

Definition op_gt (a b : base_uint) : bool := 0 <? CompareTo a b.
Definition op_lt (a b : base_uint) : bool := CompareTo a b <? 0.
Definition op_ge (a b : base_uint) : bool := 0 <=? CompareTo a b.
Definition op_le (a b : base_uint) : bool := CompareTo a b <=? 0.

Definition EqualTo (a : base_uint) (b : Z) : bool :=
  forallb (fun x => x =? 0) (drop 2 a) && (a !!! 1%nat =? b >> 32) && (a !!! 0%nat =? (b & 0xffffffff)).

(** ** Bit length *)

(** [for (int bits = 31; bits > 0; bits--) if (pn[pos] & 1 << bits) ..]. *)
Fixpoint limb_bits (bits : nat) (x : Z) : Z :=
  match bits with
  | O => 1
  | S b => if negb (Z.land x (u32 (1 << Z.of_nat bits)) =? 0) then Z.of_nat bits + 1 else limb_bits b x
  end.

Fixpoint bits_from (n : nat) (a : base_uint) : Z :=
  match n with
  | O => 0
  | S pos => if a !!! pos =? 0 then bits_from pos a else 32 * Z.of_nat pos + limb_bits 31 (a !!! pos)
  end.

Definition op_bits (a : base_uint) : Z := bits_from WIDTH a.

(** ** Division *)

(** [while (shift >= 0)], with [shift + 1] rounds left. *)
Fixpoint div_loop (rounds : nat) (num div pn : base_uint) : base_uint :=
  match rounds with
  | O => pn
  | S shift =>
      let '(num, pn) :=
        if op_ge num div then
          (op_sub num div, or_at (shift / 32) (u32 (1 << (Z.of_nat shift & 31))) pn)
        else (num, pn) in
      div_loop shift num (op_shr div 1) pn
  end.

(** [throw uint_error("Division by zero")] is [None]. *)
Definition op_div (a b : base_uint) : option base_uint :=
  let num_bits := op_bits a in
  let div_bits := op_bits b in
  if div_bits =? 0 then None
  else if num_bits <? div_bits then Some (base_uint_of 0)
  else
    let shift := num_bits - div_bits in
    Some (div_loop (Z.to_nat (shift + 1)) a (op_shl b shift) (base_uint_of 0)).

Definition GetLow64 (a : base_uint) : Z := (a !!! 0%nat) .| u64 ((a !!! 1%nat) << 32).

End BaseUint.

(** ** The compact encoding of [arith_uint256] *)

Definition arith_uint256_of : Z -> base_uint := base_uint_of 8.

(** The value, [*pfNegative] and [*pfOverflow]. *)
Definition SetCompact (nCompact : Z) : base_uint * bool * bool :=
  let nSize := nCompact >> 24 in
  let nWord := nCompact & 0x007fffff in
  let '(this, nWord) :=
    if nSize <=? 3 then
      let nWord := nWord >> (8 * (3 - nSize)) in (arith_uint256_of nWord, nWord)
    else (op_shl 8 (arith_uint256_of nWord) (8 * (nSize - 3)), nWord) in
  (this,
   negb (nWord =? 0) && negb (Z.land nCompact 0x00800000 =? 0),
   negb (nWord =? 0) && ((34 <? nSize) || ((0xff <? nWord) && (33 <? nSize)) ||
                         ((0xffff <? nWord) && (32 <? nSize)))).

(** A failed [assert] is [None]. *)
Definition GetCompact (a : base_uint) (fNegative : bool) : option Z :=
  let nSize := (op_bits 8 a + 7) / 8 in
  let nCompact :=
    if nSize <=? 3 then u32 (u64 (GetLow64 a << (8 * (3 - nSize))))
    else u32 (GetLow64 (op_shr 8 a (8 * (nSize - 3)))) in
  let '(nCompact, nSize) :=
    if negb (Z.land nCompact 0x00800000 =? 0) then (nCompact >> 8, nSize + 1) else (nCompact, nSize) in
  if negb (Z.land nCompact (u32 (Z.lnot 0x007fffff)) =? 0) then None
  else if negb (nSize <? 256) then None
  else
    let nCompact := nCompact .| u32 (nSize << 24) in
    Some (nCompact .| (if fNegative && negb (Z.land nCompact 0x007fffff =? 0) then 0x00800000 else 0)).

(** ** Conversion from and to [uint256] *)

Definition ArithToUint256 (a : base_uint) : list Z := concat (le_bytes 4 <$> a).

Definition UintToArith256 (a : list Z) : base_uint :=
  (fun x => le_value (octets (4 * x) 4 a)) <$> seq 0 8.
