(* ===== verification/ArithUintProofs.v ===== *)
(** * Big unsigned integers: the limb operations compute modulo [2^BITS]

    [val a] is the number of the limbs [a]; [limbs W a] says that [a] has [W] limbs of 32
    bits.  Each operation is described by the value of its result; shifts go through the
    bits of [val].  Multiplication, shifts and division have their own parts. *)

From S2P Require Import Prelude MdHash ArithUint.
#[local] Open Scope Z_scope.

Definition val (a : base_uint) : Z := foldr (fun x acc => x + 2 ^ 32 * acc) 0 a.

Definition limbs (W : nat) (a : base_uint) : Prop := length a = W /\ Forall (fits 32) a.

Lemma val_cons x a : val (x :: a) = x + 2 ^ 32 * val a.
Proof. done. Qed.

Lemma val_app a b : val (a ++ b) = val a + 2 ^ (32 * Z.of_nat (length a)) * val b.
Proof.
  induction a as [|x a IH]; [cbn [app length]; change (val []) with 0; rewrite Z.mul_0_r, Z.pow_0_r; lia |].
  cbn [app length]. rewrite !val_cons, IH. replace (32 * Z.of_nat (S (length a))) with (32 + 32 * Z.of_nat (length a)) by lia.
  rewrite Z.pow_add_r by lia. ring.
Qed.

Lemma val_replicate n : val (replicate n 0) = 0.
Proof. induction n as [|n IH]; [done |]. cbn [replicate]. rewrite val_cons, IH. lia. Qed.

Lemma limbs_cons W x a : limbs (S W) (x :: a) <-> fits 32 x /\ limbs W a.
Proof.
  unfold limbs. cbn [length]. rewrite Forall_cons_iff. split; [intros (? & ? & ?) | intros (? & ? & ?)];
    split_and!; (done || lia).
Qed.

Lemma limbs_replicate W : limbs W (replicate W 0).
Proof. split; [apply length_replicate | apply Forall_replicate; by unfold fits]. Qed.

Lemma limbs_inv W a : limbs (S W) a -> exists x a', a = x :: a' /\ fits 32 x /\ limbs W a'.
Proof. intros H. destruct a as [|x a]; [by destruct H |]. exists x, a. by apply limbs_cons in H. Qed.

Lemma val_fits W a : limbs W a -> fits (32 * Z.of_nat W) (val a).
Proof.
  revert a. induction W as [|W IH]; intros a Ha.
  - destruct Ha as [Hl _]. apply nil_length_inv in Hl as ->. by unfold fits.
  - apply limbs_inv in Ha as (x & a' & -> & Hx & Ha). specialize (IH _ Ha). rewrite val_cons.
    unfold fits in *. replace (32 * Z.of_nat (S W)) with (32 + 32 * Z.of_nat W) by lia.
    rewrite Z.pow_add_r by lia. nia.
Qed.

Lemma limbs_lookup W a i : limbs W a -> fits 32 (a !!! i).
Proof.
  intros [_ Ha]. destruct (decide (i < length a)%nat) as [Hi|Hi].
  - eapply Forall_lookup_1; [done |]. by apply list_lookup_lookup_total_lt.
  - rewrite list_lookup_total_alt, lookup_ge_None_2 by lia. by unfold fits.
Qed.

(** Bits of the number are bits of the limbs. *)
Lemma val_testbit a i :
  Forall (fits 32) a -> 0 <= i ->
  Z.testbit (val a) i = Z.testbit (nth (Z.to_nat (i / 32)) a 0) (i mod 32).
Proof.
  revert i. induction a as [|x a IH]; intros i Ha Hi.
  - change (val []) with 0. destruct (Z.to_nat (i / 32)); cbn [nth]; by rewrite !Z.testbit_0_l.
  - apply Forall_cons_iff in Ha as [Hx Ha]. rewrite val_cons.
    replace (x + 2 ^ 32 * val a) with (Z.lor x (val a << 32)).
    2:{ assert (Z.land x (val a << 32) = 0) as H0.
        { apply Z.bits_inj'. intros n Hn. rewrite Z.land_spec, Z.testbit_0_l, Z.shiftl_spec by lia.
          destruct (Z.ltb_spec n 32); [rewrite (Z.testbit_neg_r _ (n - 32)) by lia; apply andb_false_r |].
          by rewrite (fits_testbit 32 x n). }
        rewrite <- Z.lxor_lor, <- Z.add_nocarry_lxor, Z.shiftl_mul_pow2 by (done || lia). lia. }
    rewrite Z.lor_spec, Z.shiftl_spec by lia. destruct (Z.ltb_spec i 32) as [H|H].
    + rewrite (Z.testbit_neg_r _ (i - 32)), orb_false_r by lia. by rewrite Z.div_small, Z.mod_small by lia.
    + rewrite (fits_testbit 32 x i), orb_false_l, IH by (done || lia).
      replace i with (i - 32 + 1 * 32) at 3 4 by lia. rewrite Z.div_add, Z.mod_add by lia.
      rewrite Z2Nat.inj_add by (lia || apply Z.div_pos; lia). rewrite Nat.add_comm. done.
Qed.

Lemma val_inj W a b : limbs W a -> limbs W b -> val a = val b -> a = b.
Proof.
  revert a b. induction W as [|W IH]; intros a b Ha Hb E.
  - destruct Ha as [Ha _], Hb as [Hb _]. apply nil_length_inv in Ha as ->. by apply nil_length_inv in Hb as ->.
  - apply limbs_inv in Ha as (x & a' & -> & Hx & Ha). apply limbs_inv in Hb as (y & b' & -> & Hy & Hb).
    rewrite !val_cons in E. unfold fits in *. assert (x = y /\ val a' = val b') as [-> E'] by lia.
    f_equal. by apply IH.
Qed.

Lemma low_mask x : Z.land x 0xffffffff = wrap 32 x.
Proof. change 0xffffffff with (Z.ones 32). apply Z.land_ones. lia. Qed.

(** ** Addition *)

Lemma shr32 x : x >> 32 = x / 2 ^ 32.
Proof. apply Z.shiftr_div_pow2. lia. Qed.

(** The step every limb loop takes. *)
Lemma limb_step n : fits 64 n -> fits 32 (n & 0xffffffff) /\ fits 32 (n >> 32) /\
  (n & 0xffffffff) + 2 ^ 32 * (n >> 32) = n.
Proof.
  intros Hn. rewrite low_mask, shr32. split_and!; [apply wrap_fits; lia | | ].
  - unfold fits in *. split; [apply Z.div_pos; lia | apply Z.div_lt_upper_bound; lia].
  - unfold wrap. rewrite (Z.div_mod n (2 ^ 32)) at 3 by lia. lia.
Qed.

(** A result below [2^(32 W)] and its carry. *)
Lemma carry_out W r c n : fits (32 * Z.of_nat W) r -> r + 2 ^ (32 * Z.of_nat W) * c = n ->
  r = wrap (32 * Z.of_nat W) n.
Proof.
  intros Hr <-. unfold wrap. rewrite Z.mul_comm, Z.mod_add by (pose proof (pow2_pos (32 * Z.of_nat W)); lia).
  symmetry. by apply Z.mod_small.
Qed.

Lemma pow_limb W : 2 ^ (32 * Z.of_nat (S W)) = 2 ^ 32 * 2 ^ (32 * Z.of_nat W).
Proof. rewrite <- Z.pow_add_r by lia. f_equal. lia. Qed.

Lemma add_limbs_ok W carry a b :
  limbs W a -> limbs W b -> fits 32 carry -> limbs W (add_limbs carry a b) /\
  exists c, val (add_limbs carry a b) + 2 ^ (32 * Z.of_nat W) * c = carry + val a + val b.
Proof.
  revert carry a b. induction W as [|W IH]; intros carry a b Ha Hb Hc.
  - destruct Ha as [Ha _], Hb as [Hb _]. apply nil_length_inv in Ha as ->. apply nil_length_inv in Hb as ->.
    split; [done | exists carry]. cbn [add_limbs val foldr Z.of_nat Z.mul Z.pow]. lia.
  - apply limbs_inv in Ha as (x & a' & -> & Hx & Ha). apply limbs_inv in Hb as (y & b' & -> & Hy & Hb).
    cbn [add_limbs]. rewrite wrap_id by (unfold fits in *; lia).
    destruct (limb_step (carry + x + y)) as (H1 & H2 & H3); [unfold fits in *; lia |].
    destruct (IH _ a' b' Ha Hb H2) as [Hl [c E]]. split; [by apply limbs_cons |].
    exists c. rewrite !val_cons, pow_limb. lia.
Qed.

Lemma op_add_ok W a b :
  limbs W a -> limbs W b ->
  limbs W (op_add a b) /\ val (op_add a b) = wrap (32 * Z.of_nat W) (val a + val b).
Proof.
  intros Ha Hb. destruct (add_limbs_ok W 0 a b Ha Hb) as [Hl [c E]]; [by unfold fits |].
  split; [done |]. apply (carry_out W _ c); [by apply val_fits | done].
Qed.

Lemma op_compl_ok W a :
  limbs W a -> limbs W (op_compl a) /\ val (op_compl a) = 2 ^ (32 * Z.of_nat W) - 1 - val a.
Proof.
  revert a. induction W as [|W IH]; intros a Ha.
  - destruct Ha as [Ha _]. by apply nil_length_inv in Ha as ->.
  - apply limbs_inv in Ha as (x & a' & -> & Hx & Ha). destruct (IH _ Ha) as [Hl E].
    unfold op_compl in *. rewrite fmap_cons, limbs_cons, !val_cons, E, pow_limb.
    assert (u32 (Z.lnot x) = 2 ^ 32 - 1 - x) as ->.
    { unfold wrap, Z.lnot. rewrite <- (Z.mod_add _ 1) by lia. unfold fits in Hx. rewrite Z.mod_small; lia. }
    split; [split; [unfold fits in *; lia | done] | lia].
Qed.

Lemma op_inc_ok W a :
  limbs W a -> limbs W (op_inc a) /\ val (op_inc a) = wrap (32 * Z.of_nat W) (val a + 1).
Proof.
  revert a. induction W as [|W IH]; intros a Ha.
  - destruct Ha as [Ha _]. apply nil_length_inv in Ha as ->. split; [done |]. unfold wrap. symmetry. apply Z.mod_1_r.
  - apply limbs_inv in Ha as (x & a' & -> & Hx & Ha). destruct (IH _ Ha) as [Hl E].
    pose proof (val_fits _ _ Ha) as Hv. cbn [op_inc]. unfold wrap in *. rewrite pow_limb.
    assert (0 < 2 ^ (32 * Z.of_nat W)) as Hp by (apply pow2_pos; lia).
    set (P := 2 ^ (32 * Z.of_nat W)) in *. unfold fits in *. destruct (Z.eqb_spec ((x + 1) mod 2 ^ 32) 0) as [E0|E0].
    + assert (x = 2 ^ 32 - 1) as -> by (destruct (decide (x = 2 ^ 32 - 1)); [done | rewrite Z.mod_small in E0; lia]).
      rewrite limbs_cons, !val_cons, E. split; [split; [unfold fits; lia | done] |].
      replace (2 ^ 32 - 1 + 2 ^ 32 * val a' + 1) with (2 ^ 32 * (val a' + 1)) by lia.
      rewrite Z.mul_mod_distr_l by lia. replace ((2 ^ 32 - 1 + 1) mod 2 ^ 32) with 0 by done. lia.
    + assert (x <> 2 ^ 32 - 1) by (intros ->; done). rewrite (Z.mod_small (x + 1)) in * by lia.
      rewrite limbs_cons, !val_cons. split; [split; [unfold fits; lia | done] |].
      rewrite Z.mod_small; nia.
Qed.

Lemma op_dec_ok W a :
  limbs W a -> limbs W (op_dec a) /\ val (op_dec a) = wrap (32 * Z.of_nat W) (val a - 1).
Proof.
  revert a. induction W as [|W IH]; intros a Ha.
  - destruct Ha as [Ha _]. apply nil_length_inv in Ha as ->. split; [done |]. unfold wrap. symmetry. apply Z.mod_1_r.
  - apply limbs_inv in Ha as (x & a' & -> & Hx & Ha). destruct (IH _ Ha) as [Hl E].
    pose proof (val_fits _ _ Ha) as Hv. cbn [op_dec]. unfold wrap in *. rewrite pow_limb.
    assert (0 < 2 ^ (32 * Z.of_nat W)) as Hp by (apply pow2_pos; lia).
    set (P := 2 ^ (32 * Z.of_nat W)) in *. unfold fits in *.
    change (-1 mod 2 ^ 32) with (2 ^ 32 - 1).
    destruct (Z.eqb_spec ((x - 1) mod 2 ^ 32) (2 ^ 32 - 1)) as [E0|E0].
    + assert (x = 0) as -> by (destruct (decide (x = 0)); [done | rewrite Z.mod_small in E0; lia]).
      rewrite limbs_cons, !val_cons, E. split; [split; [unfold fits; apply Z.mod_pos_bound; lia | done] |].
      change ((0 - 1) mod 2 ^ 32) with (2 ^ 32 - 1).
      destruct (decide (val a' = 0)) as [Ez|Ez].
      * rewrite Ez. replace ((0 - 1) mod P) with (P - 1) by (symmetry; rewrite <- (Z.mod_add _ 1) by lia; rewrite Z.mod_small; lia).
        replace ((0 + 2 ^ 32 * 0 - 1) mod (2 ^ 32 * P)) with (2 ^ 32 * P - 1); [lia |].
        symmetry. rewrite <- (Z.mod_add _ 1) by lia. rewrite Z.mod_small; lia.
      * rewrite !Z.mod_small; nia.
    + assert (x <> 0) by (intros ->; done). rewrite (Z.mod_small (x - 1)) in * by lia.
      rewrite limbs_cons, !val_cons. split; [split; [unfold fits; lia | done] |].
      rewrite Z.mod_small; nia.
Qed.

Lemma op_neg_ok W a :
  limbs W a -> limbs W (op_neg a) /\ val (op_neg a) = wrap (32 * Z.of_nat W) (- val a).
Proof.
  intros Ha. destruct (op_compl_ok W a Ha) as [Hl E]. destruct (op_inc_ok W _ Hl) as [Hl' E'].
  split; [done |]. unfold op_neg. rewrite E', E. unfold wrap.
  replace (2 ^ (32 * Z.of_nat W) - 1 - val a + 1) with (- val a + 1 * 2 ^ (32 * Z.of_nat W)) by lia.
  apply Z.mod_add. pose proof (pow2_pos (32 * Z.of_nat W)). lia.
Qed.

Lemma op_sub_ok W a b :
  limbs W a -> limbs W b ->
  limbs W (op_sub a b) /\ val (op_sub a b) = wrap (32 * Z.of_nat W) (val a - val b).
Proof.
  intros Ha Hb. destruct (op_neg_ok W b Hb) as [Hl E]. destruct (op_add_ok W a _ Ha Hl) as [Hl' E'].
  split; [done |]. unfold op_sub. rewrite E', E, wrap_add_r. f_equal.
Qed.

Lemma base_uint_of_ok W b :
  (2 <= W)%nat -> fits 64 b -> limbs W (base_uint_of W b) /\ val (base_uint_of W b) = b.
Proof.
  intros HW Hb. destruct W as [|[|W]]; [lia | lia |]. unfold base_uint_of. cbn [Nat.sub]. rewrite Nat.sub_0_r.
  assert (fits 32 (b >> 32)) as Hh.
  { rewrite shr32. unfold fits in *. split; [apply Z.div_pos; lia | apply Z.div_lt_upper_bound; lia]. }
  rewrite (wrap_id 32 (b >> 32)) by done. split.
  - rewrite !limbs_cons. split_and!; [apply wrap_fits; lia | done | apply limbs_replicate].
  - rewrite !val_cons, val_replicate, shr32. unfold wrap. rewrite (Z.div_mod b (2 ^ 32)) at 3 by lia. lia.
Qed.

(** * Big unsigned integers: multiplication, comparison, bit length and shifts *)

#[local] Open Scope Z_scope.

(** ** Multiplication *)

Lemma mul32_limbs_ok W carry b a :
  limbs W a -> fits 32 b -> fits 32 carry -> limbs W (mul32_limbs carry b a) /\
  exists c, val (mul32_limbs carry b a) + 2 ^ (32 * Z.of_nat W) * c = carry + b * val a.
Proof.
  revert carry a. induction W as [|W IH]; intros carry a Ha Hb Hc.
  - destruct Ha as [Ha _]. apply nil_length_inv in Ha as ->. split; [done | exists carry].
    cbn [mul32_limbs val foldr Z.of_nat Z.mul Z.pow]. lia.
  - apply limbs_inv in Ha as (x & a' & -> & Hx & Ha). cbn [mul32_limbs].
    assert (fits 64 (carry + b * x)) as Hn by (unfold fits in *; nia). rewrite wrap_id by done.
    destruct (limb_step _ Hn) as (H1 & H2 & H3).
    destruct (IH _ a' Ha Hb H2) as [Hl [c E]]. split; [by apply limbs_cons |].
    exists c. rewrite !val_cons, pow_limb. lia.
Qed.

Lemma op_mul32_ok W a b :
  limbs W a -> fits 32 b ->
  limbs W (op_mul32 a b) /\ val (op_mul32 a b) = wrap (32 * Z.of_nat W) (val a * b).
Proof.
  intros Ha Hb. destruct (mul32_limbs_ok W 0 b a Ha Hb) as [Hl [c E]]; [by unfold fits |].
  split; [done |]. apply (carry_out W _ c); [by apply val_fits |]. unfold op_mul32. lia.
Qed.

(** The limbs above the accumulator's length do not matter. *)
Lemma mul_row_ok W carry aj pn b :
  limbs W pn -> Forall (fits 32) b -> (W <= length b)%nat -> fits 32 aj -> fits 32 carry ->
  limbs W (mul_row carry aj pn b) /\
  exists c, val (mul_row carry aj pn b) + 2 ^ (32 * Z.of_nat W) * c = carry + val pn + aj * val b.
Proof.
  revert carry pn b. induction W as [|W IH]; intros carry pn b Hp Hb Hl Ha Hc.
  - destruct Hp as [Hp _]. apply nil_length_inv in Hp as ->. split; [done |]. exists (carry + aj * val b).
    cbn [mul_row val foldr Z.of_nat]. rewrite Z.mul_0_r, Z.pow_0_r. change (foldr _ 0 b) with (val b). lia.
  - apply limbs_inv in Hp as (x & pn' & -> & Hx & Hp). destruct b as [|y b]; [cbn [length] in Hl; lia |].
    apply Forall_cons_iff in Hb as [Hy Hb]. cbn [mul_row].
    assert (fits 64 (carry + x + aj * y)) as Hn by (unfold fits in *; nia). rewrite wrap_id by done.
    destruct (limb_step _ Hn) as (H1 & H2 & H3). cbn [length] in Hl.
    destruct (IH _ pn' b Hp Hb ltac:(lia) Ha H2) as [Hl' [c E]]. split; [by apply limbs_cons |].
    exists c. rewrite !val_cons, pow_limb. lia.
Qed.

Lemma val_take_S j (a : base_uint) :
  (j < length a)%nat -> val (take (S j) a) = val (take j a) + 2 ^ (32 * Z.of_nat j) * (a !!! j).
Proof.
  intros Hj. rewrite (take_S_r _ _ (a !!! j)) by (by apply list_lookup_lookup_total_lt).
  rewrite val_app, length_take. rewrite Nat.min_l by lia. rewrite val_cons. change (val []) with 0. lia.
Qed.

Lemma op_mul_ok W a b :
  (2 <= W)%nat -> limbs W a -> limbs W b ->
  limbs W (op_mul W a b) /\ val (op_mul W a b) = wrap (32 * Z.of_nat W) (val a * val b).
Proof.
  intros HW Ha [Hb1 Hb2]. pose proof (base_uint_of_ok W 0 HW) as [H0 E0]; [by unfold fits |].
  assert (limbs W (op_mul W a b) /\ exists c,
    val (op_mul W a b) + 2 ^ (32 * Z.of_nat W) * c = val (take W a) * val b) as [Hl [c E]].
  { unfold op_mul. apply (for_loop_ind (fun j pn => limbs W pn /\
      exists c, val pn + 2 ^ (32 * Z.of_nat W) * c = val (take j a) * val b)).
    - split; [done | exists 0]. rewrite E0. rewrite take_0. change (val []) with 0. lia.
    - intros j pn Hj [[Hp1 Hp2] [c E]]. pose proof (limbs_lookup W a j Ha) as Haj. destruct Ha as [Ha1 Ha2].
      destruct (mul_row_ok (W - j) 0 (a !!! j) (drop j pn) b) as [[Hr1 Hr2] [c' E']];
        [split; [rewrite length_drop; lia | by apply Forall_drop] | done | lia | done | by unfold fits |].
      split.
      + split; [rewrite length_app, length_take, Hr1; lia | apply Forall_app_2; [by apply Forall_take | done]].
      + assert (val pn = val (take j pn) + 2 ^ (32 * Z.of_nat j) * val (drop j pn)) as Ep.
        { rewrite <- (take_drop j pn) at 1. rewrite val_app, length_take, Nat.min_l by lia. done. }
        exists (c + c'). rewrite val_app, length_take, Nat.min_l, val_take_S by lia.
        replace (32 * Z.of_nat W) with (32 * Z.of_nat j + 32 * Z.of_nat (W - j)) in * by lia.
        rewrite Z.pow_add_r in * by lia.
        generalize dependent (2 ^ (32 * Z.of_nat j)). intros P E Ep.
        generalize dependent (2 ^ (32 * Z.of_nat (W - j))). intros Q E' E.
        apply (f_equal (Z.mul P)) in E'. lia. }
  split; [done |]. destruct Ha as [Ha1 Ha2]. rewrite take_ge in E by lia.
  apply (carry_out W _ c); [by apply val_fits | done].
Qed.

(** ** Comparison *)

Lemma val_take_bound W a n : limbs W a -> (n <= W)%nat -> fits (32 * Z.of_nat n) (val (take n a)).
Proof.
  intros [Hl Hf] Hn. apply val_fits. split; [rewrite length_take; lia | by apply Forall_take].
Qed.

Lemma compare_from_ok W n a b :
  limbs W a -> limbs W b -> (n <= W)%nat ->
  compare_from n a b = match val (take n a) ?= val (take n b) with Lt => -1 | Eq => 0 | Gt => 1 end.
Proof.
  intros Ha Hb. induction n as [|n IH]; intros Hn; [done |]. cbn [compare_from].
  pose proof (val_take_bound W a n Ha ltac:(lia)) as Hva. pose proof (val_take_bound W b n Hb ltac:(lia)) as Hvb.
  rewrite IH by lia. destruct Ha as [La _], Hb as [Lb _]. rewrite !val_take_S by lia. unfold fits in *.
  set (P := 2 ^ (32 * Z.of_nat n)) in *.
  destruct (Z.ltb_spec (a !!! n) (b !!! n)) as [H|H].
  - replace (_ ?= _) with Lt; [done |]. symmetry. apply Z.compare_lt_iff. nia.
  - destruct (Z.ltb_spec (b !!! n) (a !!! n)) as [H'|H'].
    + replace (_ ?= _) with Gt; [done |]. symmetry. apply Z.compare_gt_iff. nia.
    + assert (a !!! n = b !!! n) as -> by lia. by rewrite Z.add_comm, (Z.add_comm (val (take n b))), Zcompare_plus_compat.
Qed.

Lemma CompareTo_ok W a b :
  limbs W a -> limbs W b ->
  CompareTo W a b = match val a ?= val b with Lt => -1 | Eq => 0 | Gt => 1 end.
Proof.
  intros Ha Hb. unfold CompareTo. rewrite (compare_from_ok W) by done.
  destruct Ha as [La _], Hb as [Lb _]. by rewrite !take_ge by lia.
Qed.

Lemma op_ge_ok W a b : limbs W a -> limbs W b -> op_ge W a b = (val b <=? val a).
Proof.
  intros Ha Hb. unfold op_ge. rewrite CompareTo_ok by done. unfold Z.leb at 2.
  rewrite (Z.compare_antisym (val a) (val b)). by destruct (val a ?= val b).
Qed.

Lemma op_gt_ok W a b : limbs W a -> limbs W b -> op_gt W a b = (val b <? val a).
Proof.
  intros Ha Hb. unfold op_gt. rewrite CompareTo_ok by done. unfold Z.ltb at 2.
  rewrite (Z.compare_antisym (val a) (val b)). by destruct (val a ?= val b).
Qed.

Lemma op_lt_ok W a b : limbs W a -> limbs W b -> op_lt W a b = (val a <? val b).
Proof.
  intros Ha Hb. unfold op_lt. rewrite CompareTo_ok by done. unfold Z.ltb at 2. by destruct (val a ?= val b).
Qed.

Lemma op_le_ok W a b : limbs W a -> limbs W b -> op_le W a b = (val a <=? val b).
Proof.
  intros Ha Hb. unfold op_le. rewrite CompareTo_ok by done. unfold Z.leb at 2. by destruct (val a ?= val b).
Qed.

Lemma forallb_zero a : Forall (fits 32) a -> forallb (fun x => x =? 0) a = (val a =? 0).
Proof.
  induction a as [|x a IH]; intros Ha; [done |]. apply Forall_cons_iff in Ha as [Hx Ha]. cbn [forallb].
  rewrite (IH Ha), val_cons. pose proof (val_fits (length a) a (conj eq_refl Ha)). unfold fits in *.
  destruct (Z.eqb_spec x 0), (Z.eqb_spec (val a) 0), (Z.eqb_spec (x + 2 ^ 32 * val a) 0); cbn [andb]; (done || lia).
Qed.

Lemma op_isnull_ok W a : limbs W a -> op_isnull a = (val a =? 0).
Proof. intros [_ Ha]. by apply forallb_zero. Qed.

Lemma EqualTo_ok W a b : (2 <= W)%nat -> limbs W a -> fits 64 b -> EqualTo a b = (val a =? b).
Proof.
  intros HW [La Ha] Hb. destruct a as [|x [|y a]]; [cbn [length] in La; lia.. |].
  apply Forall_cons_iff in Ha as [Hx Ha]. apply Forall_cons_iff in Ha as [Hy Ha].
  unfold EqualTo. change (drop 2 (x :: y :: a)) with a. rewrite (forallb_zero a Ha), !val_cons, low_mask, shr32.
  change ((x :: y :: a) !!! 1%nat) with y. change ((x :: y :: a) !!! 0%nat) with x.
  pose proof (val_fits (length a) a (conj eq_refl Ha)) as Hv. unfold wrap, fits in *.
  pose proof (Z.div_mod b (2 ^ 32) ltac:(lia)). pose proof (Z.mod_pos_bound b (2 ^ 32) ltac:(lia)).
  assert (0 <= b / 2 ^ 32 < 2 ^ 32) by (split; [apply Z.div_pos; lia | apply Z.div_lt_upper_bound; lia]).
  destruct (Z.eqb_spec (val a) 0), (Z.eqb_spec y (b / 2 ^ 32)), (Z.eqb_spec x (b mod 2 ^ 32)),
    (Z.eqb_spec (x + 2 ^ 32 * (y + 2 ^ 32 * val a)) b); cbn [andb]; (done || lia).
Qed.

(** ** Shifts *)

Lemma lookup_nth (a : base_uint) i : (i < length a)%nat -> a !!! i = nth i a 0.
Proof. intros Hi. symmetry. apply nth_lookup_Some. by apply list_lookup_lookup_total_lt. Qed.

Lemma nth_limb W a i : limbs W a -> fits 32 (nth i a 0).
Proof.
  intros [_ Ha]. destruct (decide (i < length a)%nat) as [Hi|Hi].
  - rewrite <- lookup_nth by done. eapply Forall_lookup_1; [done |]. by apply list_lookup_lookup_total_lt.
  - rewrite nth_overflow by lia. by unfold fits.
Qed.

Lemma or_at_nth W j v pn m :
  limbs W pn -> (j < W)%nat ->
  nth m (or_at j v pn) 0 = if decide (m = j) then (nth m pn 0) .| v else nth m pn 0.
Proof.
  intros [Hl _] Hj. unfold or_at. rewrite lookup_nth by lia. destruct (decide (m = j)) as [->|Hne].
  - apply nth_lookup_Some. apply list_lookup_insert_eq. lia.
  - rewrite !nth_lookup. by rewrite list_lookup_insert_ne.
Qed.

Lemma or_at_limbs W j v pn : limbs W pn -> fits 32 v -> limbs W (or_at j v pn).
Proof.
  intros Hp Hv. pose proof (limbs_lookup W pn j Hp). destruct Hp as [Hl Hf]. split; [by unfold or_at; rewrite length_insert |].
  apply Forall_insert; [done |]. by apply lor_fits.
Qed.

(** The two parts of a result limb. *)
Definition shl_limb (a : base_uint) (k : nat) (s : Z) (i m : nat) : Z :=
  (if decide (s <> 0 /\ (k + 1 <= m)%nat /\ (m - k - 1 < i)%nat) then nth (m - k - 1) a 0 >> (32 - s) else 0) .|
  (if decide ((k <= m)%nat /\ (m - k < i)%nat) then u32 (nth (m - k) a 0 << s) else 0).

Definition shr_limb (a : base_uint) (k : nat) (s : Z) (i m : nat) : Z :=
  (if decide (s <> 0 /\ (m + k + 1 < i)%nat) then u32 (nth (m + k + 1) a 0 << (32 - s)) else 0) .|
  (if decide ((m + k < i)%nat) then nth (m + k) a 0 >> s else 0).

Ltac limb_cases :=
  repeat case_decide; subst; rewrite ?Z.lor_0_l, ?Z.lor_0_r; try done; try lia.

Lemma op_shl_limbs W a shift :
  limbs W a -> 0 <= shift ->
  limbs W (op_shl W a shift) /\ forall m, (m < W)%nat ->
    nth m (op_shl W a shift) 0 = shl_limb a (Z.to_nat (shift / 32)) (shift mod 32) W m.
Proof.
  intros Ha Hs. unfold op_shl. set (k := Z.to_nat (shift / 32)). set (s := shift mod 32).
  assert (0 <= s < 32) as Hs32 by (apply Z.mod_pos_bound; lia).
  apply (for_loop_ind (fun i pn => limbs W pn /\ forall m, (m < W)%nat -> nth m pn 0 = shl_limb a k s i m)).
  - split; [apply limbs_replicate |]. intros m Hm. rewrite nth_zeros. unfold shl_limb.
    limb_cases.
  - intros i pn Hi [Hp E]. pose proof (nth_limb W a i Ha) as Hx. destruct Ha as [La _].
    rewrite lookup_nth by lia.
    set (pn1 := if _ && _ then _ else _).
    assert (limbs W pn1 /\ forall m, (m < W)%nat -> nth m pn1 0 =
      (if decide (s <> 0 /\ m = (i + k + 1)%nat) then (nth i a 0) >> (32 - s) else 0) .| nth m pn 0) as [Hp1 E1].
    { subst pn1. destruct (Nat.ltb_spec (i + k + 1) W) as [H1|H1], (Z.eqb_spec s 0) as [H2|H2]; cbn [andb negb];
        (split; [try done | intros m Hm; try (rewrite decide_False by lia; by rewrite Z.lor_0_l)]).
      - apply or_at_limbs; [done |]. apply shiftr_fits; [lia | lia | done].
      - rewrite (or_at_nth W) by done. rewrite Z.lor_comm. limb_cases. }
    destruct (Nat.ltb_spec (i + k) W) as [H1|H1].
    + split; [apply or_at_limbs; [done | apply wrap_fits; lia] |].
      intros m Hm. rewrite (or_at_nth W), E1, E by done. unfold shl_limb.
      limb_cases; repeat f_equal; lia.
    + split; [done |]. intros m Hm. rewrite E1, E by done. unfold shl_limb. limb_cases.
Qed.

Lemma op_shr_limbs W a shift :
  limbs W a -> 0 <= shift ->
  limbs W (op_shr W a shift) /\ forall m, (m < W)%nat ->
    nth m (op_shr W a shift) 0 = shr_limb a (Z.to_nat (shift / 32)) (shift mod 32) W m.
Proof.
  intros Ha Hs. unfold op_shr. set (k := Z.to_nat (shift / 32)). set (s := shift mod 32).
  assert (0 <= s < 32) as Hs32 by (apply Z.mod_pos_bound; lia).
  apply (for_loop_ind (fun i pn => limbs W pn /\ forall m, (m < W)%nat -> nth m pn 0 = shr_limb a k s i m)).
  - split; [apply limbs_replicate |]. intros m Hm. rewrite nth_zeros. unfold shr_limb.
    limb_cases.
  - intros i pn Hi [Hp E]. pose proof (nth_limb W a i Ha) as Hx. destruct Ha as [La _].
    rewrite lookup_nth by lia.
    set (pn1 := if _ && _ then _ else _).
    assert (limbs W pn1 /\ forall m, (m < W)%nat -> nth m pn1 0 =
      (if decide (s <> 0 /\ i = (m + k + 1)%nat) then u32 ((nth i a 0) << (32 - s)) else 0) .| nth m pn 0) as [Hp1 E1].
    { subst pn1. destruct (Nat.leb_spec (k + 1) i) as [H1|H1], (Z.eqb_spec s 0) as [H2|H2]; cbn [andb negb];
        (split; [try done | intros m Hm; try (rewrite decide_False by lia; by rewrite Z.lor_0_l)]).
      - apply or_at_limbs; [done |]. apply wrap_fits. lia.
      - rewrite (or_at_nth W) by (done || lia). rewrite Z.lor_comm. limb_cases. }
    destruct (Nat.leb_spec k i) as [H1|H1].
    + split; [apply or_at_limbs; [done | apply shiftr_fits; (lia || done)] |].
      intros m Hm. rewrite (or_at_nth W), E1, E by (done || lia). unfold shr_limb.
      limb_cases; repeat f_equal; lia.
    + split; [done |]. intros m Hm. rewrite E1, E by done. unfold shr_limb. limb_cases.
Qed.

(** * Big unsigned integers: shifts and bit length as numbers, division *)

#[local] Open Scope Z_scope.

(** Equal bits below the width. *)
Lemma val_bits_eq W a z :
  limbs W a -> fits (32 * Z.of_nat W) z ->
  (forall m t, (m < W)%nat -> 0 <= t < 32 -> Z.testbit (nth m a 0) t = Z.testbit z (32 * Z.of_nat m + t)) ->
  val a = z.
Proof.
  intros Ha Hz H. apply Z.bits_inj'. intros n Hn.
  destruct (Z.ltb_spec n (32 * Z.of_nat W)) as [Hlt|Hge].
  - rewrite val_testbit by (done || by destruct Ha).
    pose proof (Z.div_mod n 32 ltac:(lia)). pose proof (Z.mod_pos_bound n 32 ltac:(lia)).
    assert (0 <= n / 32) by (apply Z.div_pos; lia).
    rewrite H by (done || lia). f_equal. rewrite Z2Nat.id; lia.
  - pose proof (val_fits W a Ha). by rewrite !(fits_testbit (32 * Z.of_nat W)) by done.
Qed.

(** Bit [t] of limb [m] of a number, at an offset. *)
Lemma val_limb_bit W a j u :
  limbs W a -> 0 <= u < 32 -> Z.testbit (nth j a 0) u = Z.testbit (val a) (32 * Z.of_nat j + u).
Proof.
  intros [_ Ha] Hu. rewrite val_testbit by (done || lia).
  rewrite Z.mul_comm, Z.div_add_l, (Z.div_small u), Z.add_0_r, Nat2Z.id by lia.
  by rewrite Z.add_comm, Z.mod_add, Z.mod_small by lia.
Qed.

(** A part that is absent or has the bit clear. *)
Lemma part_clear P `{Decision P} x t :
  (P -> Z.testbit x t = false) -> Z.testbit (if decide P then x else 0) t = false.
Proof. intros Hx. case_decide; [by apply Hx | apply Z.testbit_0_l]. Qed.

Lemma op_shl_ok W a shift :
  limbs W a -> 0 <= shift ->
  limbs W (op_shl W a shift) /\ val (op_shl W a shift) = wrap (32 * Z.of_nat W) (val a << shift).
Proof.
  intros Ha Hs. destruct (op_shl_limbs W a shift Ha Hs) as [Hl E]. split; [done |].
  apply val_bits_eq with (W := W); [done | apply wrap_fits; lia |]. intros m t Hm Ht.
  rewrite E, wrap_testbit, Z.shiftl_spec by (done || lia). rewrite (proj2 (Z.ltb_lt _ _)) by lia. rewrite andb_true_l.
  unfold shl_limb. set (k := Z.to_nat (shift / 32)). set (s := shift mod 32).
  assert (0 <= s < 32) as Hs32 by (apply Z.mod_pos_bound; lia).
  assert (shift = 32 * Z.of_nat k + s) as Hsh.
  { subst k s. rewrite Z2Nat.id by (apply Z.div_pos; lia). apply Z.div_mod. lia. }
  rewrite Z.lor_spec. rewrite Hsh. clearbody k s. destruct (Z.ltb_spec t s) as [Hts|Hts].
  - rewrite (part_clear _ (u32 _)).
    2:{ intros _. rewrite wrap_testbit, Z.shiftl_spec, (Z.testbit_neg_r _ (t - s)) by lia.
        by rewrite andb_false_r. }
    rewrite orb_false_r. case_decide as Hd.
    + rewrite Z.shiftr_spec by lia. rewrite (val_limb_bit W) by (done || lia). f_equal. lia.
    + rewrite Z.testbit_0_l. symmetry. apply Z.testbit_neg_r. lia.
  - rewrite (part_clear _ (_ >> _)).
    2:{ intros _. rewrite Z.shiftr_spec by lia.
        apply (fits_testbit 32); [by apply (nth_limb W) | lia]. }
    rewrite orb_false_l. case_decide as Hd.
    + rewrite wrap_testbit, Z.shiftl_spec by lia. rewrite (proj2 (Z.ltb_lt _ _)) by lia.
      rewrite andb_true_l, (val_limb_bit W) by (done || lia). f_equal. lia.
    + rewrite Z.testbit_0_l. symmetry. apply Z.testbit_neg_r. lia.
Qed.

Lemma op_shr_ok W a shift :
  limbs W a -> 0 <= shift ->
  limbs W (op_shr W a shift) /\ val (op_shr W a shift) = val a >> shift.
Proof.
  intros Ha Hs. destruct (op_shr_limbs W a shift Ha Hs) as [Hl E]. split; [done |].
  pose proof (val_fits W a Ha) as Hv.
  apply val_bits_eq with (W := W); [done | apply shiftr_fits; (lia || done) |]. intros m t Hm Ht.
  rewrite E, Z.shiftr_spec by (done || lia).
  unfold shr_limb. set (k := Z.to_nat (shift / 32)). set (s := shift mod 32).
  assert (0 <= s < 32) as Hs32 by (apply Z.mod_pos_bound; lia).
  assert (shift = 32 * Z.of_nat k + s) as Hsh.
  { subst k s. rewrite Z2Nat.id by (apply Z.div_pos; lia). apply Z.div_mod. lia. }
  rewrite Z.lor_spec, Hsh. clearbody k s. destruct (Z.ltb_spec (t + s) 32) as [Hts|Hts].
  - rewrite (part_clear _ (u32 _)).
    2:{ intros _. rewrite wrap_testbit, Z.shiftl_spec, (Z.testbit_neg_r _ (t - (32 - s))) by lia. by rewrite andb_false_r. }
    rewrite orb_false_l. case_decide as Hd.
    + rewrite Z.shiftr_spec, (val_limb_bit W) by (done || lia). f_equal. lia.
    + rewrite Z.testbit_0_l. symmetry. apply (fits_testbit (32 * Z.of_nat W)); [done | lia].
  - rewrite (part_clear _ (_ >> _)).
    2:{ intros _. rewrite Z.shiftr_spec by lia.
        apply (fits_testbit 32); [by apply (nth_limb W) | lia]. }
    rewrite orb_false_r. case_decide as Hd.
    + rewrite wrap_testbit, Z.shiftl_spec by lia. rewrite (proj2 (Z.ltb_lt _ _)) by lia.
      rewrite andb_true_l, (val_limb_bit W) by (done || lia). f_equal. lia.
    + rewrite Z.testbit_0_l. symmetry. apply (fits_testbit (32 * Z.of_nat W)); [done | lia].
Qed.

(** ** Bit length *)

Definition bitlen (x : Z) : Z := if x =? 0 then 0 else Z.log2 x + 1.

Lemma bitlen_spec x : 0 < x -> 2 ^ (bitlen x - 1) <= x < 2 ^ bitlen x.
Proof.
  intros Hx. unfold bitlen. rewrite (proj2 (Z.eqb_neq x 0)) by lia. rewrite Z.add_simpl_r.
  pose proof (Z.log2_spec x Hx). by rewrite <- Z.add_1_r in *.
Qed.

Lemma bitlen_unique x b : 0 < b -> 2 ^ (b - 1) <= x < 2 ^ b -> bitlen x = b.
Proof.
  intros Hb Hx. assert (0 < 2 ^ (b - 1)) by (apply pow2_pos; lia). unfold bitlen.
  rewrite (proj2 (Z.eqb_neq x 0)) by lia. rewrite (Z.log2_unique x (b - 1)); [lia | lia |].
  replace (Z.succ (b - 1)) with b by lia. done.
Qed.

Lemma limb_bits_ok n x : (n < 32)%nat -> 0 < x < 2 ^ (Z.of_nat n + 1) -> limb_bits n x = bitlen x.
Proof.
  induction n as [|n IH]; intros Hn Hx; [by replace x with 1 by lia |]. cbn [limb_bits].
  rewrite Z.shiftl_1_l, wrap_id by (split; [apply Z.pow_nonneg; lia | apply Z.pow_lt_mono_r; lia]).
  rewrite land_pow2 by lia. destruct (Z.testbit x (Z.of_nat (S n))) eqn:E.
  - rewrite (proj2 (Z.eqb_neq _ 0)) by (pose proof (pow2_pos (Z.of_nat (S n))); lia). cbn [negb].
    symmetry. apply bitlen_unique; [lia |]. rewrite Z.add_simpl_r. split; [| lia].
    destruct (Z.le_gt_cases (2 ^ Z.of_nat (S n)) x); [done | exfalso].
    rewrite (fits_testbit (Z.of_nat (S n))) in E; [done | unfold fits; lia | lia].
  - cbn [Z.eqb negb]. apply IH; [lia |]. split; [lia |].
    replace (Z.of_nat n + 1) with (Z.of_nat (S n)) by lia.
    destruct (Z.lt_ge_cases x (2 ^ Z.of_nat (S n))) as [|Hge]; [done | exfalso].
    apply Z.testbit_false in E; [| lia].
    enough (x / 2 ^ Z.of_nat (S n) = 1) as E1 by (by rewrite E1 in E).
    symmetry. apply (Z.div_unique _ _ _ (x - 2 ^ Z.of_nat (S n))); [| lia].
    rewrite Z.pow_add_r in Hx by lia. lia.
Qed.

Lemma bits_from_ok W n a : limbs W a -> (n <= W)%nat -> bits_from n a = bitlen (val (take n a)).
Proof.
  intros Ha. induction n as [|n IH]; intros Hn; [done |]. cbn [bits_from].
  pose proof (val_take_bound W a n Ha ltac:(lia)) as Hv. pose proof (limbs_lookup W a n Ha) as Hx.
  assert (length a = W) as HL by (by destruct Ha). rewrite val_take_S by lia. unfold fits in *.
  destruct (Z.eqb_spec (a !!! n) 0) as [E|E].
  - rewrite E, Z.mul_0_r, Z.add_0_r. apply IH. lia.
  - rewrite limb_bits_ok by (first [lia | change (Z.of_nat 31 + 1) with 32; lia]).
    assert (0 < a !!! n) as Hpos by lia. pose proof (bitlen_spec _ Hpos) as Hb. set (b := bitlen (a !!! n)) in *.
    assert (0 < b).
    { unfold b, bitlen. rewrite (proj2 (Z.eqb_neq _ 0)) by done. pose proof (Z.log2_nonneg (a !!! n)). lia. }
    symmetry. apply bitlen_unique; [lia |].
    replace (32 * Z.of_nat n + b - 1) with (32 * Z.of_nat n + (b - 1)) by lia.
    rewrite !Z.pow_add_r by lia. generalize dependent (2 ^ (32 * Z.of_nat n)). intros P HP.
    generalize dependent (2 ^ b). generalize dependent (2 ^ (b - 1)). intros. nia.
Qed.

Lemma op_bits_ok W a : limbs W a -> op_bits W a = bitlen (val a).
Proof.
  intros Ha. unfold op_bits. rewrite (bits_from_ok W) by done. destruct Ha as [HL _]. by rewrite take_ge by lia.
Qed.

(** ** Division *)

Lemma or_bit_ok W shift pn :
  limbs W pn -> (Z.of_nat shift < 32 * Z.of_nat W) ->
  let pn' := or_at (shift / 32) (u32 (1 << (Z.of_nat shift & 31))) pn in
  limbs W pn' /\ val pn' = Z.lor (val pn) (2 ^ Z.of_nat shift).
Proof.
  intros Hp Hs pn'. assert (limbs W pn') as Hl by (apply or_at_limbs; [done | apply wrap_fits; lia]).
  assert (Z.of_nat shift & 31 = Z.of_nat shift mod 32) as E31.
  { change 31 with (Z.ones 5). by rewrite Z.land_ones by lia. }
  pose proof (Z.div_mod (Z.of_nat shift) 32 ltac:(lia)) as Hdm.
  pose proof (Z.mod_pos_bound (Z.of_nat shift) 32 ltac:(lia)) as Hmb.
  assert (Z.of_nat (shift / 32) = Z.of_nat shift / 32) as Ed by (by rewrite Nat2Z.inj_div).
  split; [done |]. pose proof (val_fits W pn Hp) as Hv. apply (val_bits_eq W); [done | |].
  { apply lor_fits; [lia | done |]. split; [apply Z.pow_nonneg; lia | apply Z.pow_lt_mono_r; lia]. }
  intros m t Hm Ht. subst pn'. rewrite (or_at_nth W) by (done || lia).
  rewrite Z.lor_spec, Z.pow2_bits_eqb by lia. case_decide as Hd.
  - rewrite Z.lor_spec, (val_limb_bit W) by done. f_equal. subst m.
    rewrite E31, wrap_testbit, Z.shiftl_spec by lia. rewrite (proj2 (Z.ltb_lt t 32)) by lia. rewrite andb_true_l.
    destruct (Z.eqb_spec (Z.of_nat shift) (32 * Z.of_nat (shift / 32) + t)) as [E|E].
    + replace (t - Z.of_nat shift mod 32) with 0 by lia. done.
    + destruct (Z.ltb_spec t (Z.of_nat shift mod 32)); [by rewrite Z.testbit_neg_r by lia |].
      change 1 with (2 ^ 0). rewrite Z.pow2_bits_eqb by lia. apply Z.eqb_neq. lia.
  - rewrite (val_limb_bit W) by done. destruct (Z.eqb_spec (Z.of_nat shift) (32 * Z.of_nat m + t)) as [E|E];
      [| by rewrite orb_false_r]. exfalso. apply Hd. apply Nat2Z.inj. rewrite Ed, E.
    rewrite Z.mul_comm, Z.div_add_l, Z.div_small by lia. lia.
Qed.

Lemma lor_multiple x s : 0 <= s -> (2 ^ (s + 1) | x) -> Z.lor x (2 ^ s) = x + 2 ^ s.
Proof.
  intros Hs [q ->]. assert (Z.land (q * 2 ^ (s + 1)) (2 ^ s) = 0) as H0.
  { rewrite land_pow2 by done. by rewrite Z.mul_pow2_bits_low by lia. }
  by rewrite <- Z.lxor_lor, <- Z.add_nocarry_lxor by done.
Qed.

(** The quotient so far is a multiple of [2^rounds], the rest below [d * 2^rounds]. *)
Lemma div_loop_ok W rounds num div pn d :
  (2 <= W)%nat -> limbs W num -> limbs W div -> limbs W pn -> 0 < d ->
  Z.of_nat rounds <= 32 * Z.of_nat W ->
  (0 < Z.of_nat rounds -> val div = d * 2 ^ (Z.of_nat rounds - 1)) ->
  val num < d * 2 ^ Z.of_nat rounds -> (2 ^ Z.of_nat rounds | val pn) ->
  limbs W (div_loop W rounds num div pn) /\
  exists r, 0 <= r < d /\ val (div_loop W rounds num div pn) * d + r = val pn * d + val num.
Proof.
  intros HW. revert num div pn. induction rounds as [|shift IH]; intros num div pn Hn Hd Hp Hd0 Hr Ed En Ep.
  - split; [done |]. exists (val num). cbn [div_loop]. change (Z.of_nat 0) with 0 in En. rewrite Z.pow_0_r in En.
    pose proof (val_fits W num Hn). unfold fits in *. lia.
  - cbn [div_loop]. rewrite op_ge_ok by done. specialize (Ed ltac:(lia)).
    replace (Z.of_nat (S shift) - 1) with (Z.of_nat shift) in Ed by lia.
    pose proof (op_shr_ok W div 1 Hd ltac:(lia)) as [Hd' Ed'].
    assert (0 < Z.of_nat shift -> val (op_shr W div 1) = d * 2 ^ (Z.of_nat shift - 1)) as Ed2.
    { intros H. rewrite Ed', Ed, Z.shiftr_div_pow2 by lia.
      replace (Z.of_nat shift) with (Z.of_nat shift - 1 + 1) at 1 by lia.
      rewrite Z.pow_add_r, Z.mul_assoc by lia. by rewrite Z.div_mul by lia. }
    replace (Z.of_nat (S shift)) with (Z.of_nat shift + 1) in * by lia.
    pose proof (pow2_pos (Z.of_nat shift) ltac:(lia)) as HP.
    assert (2 ^ (Z.of_nat shift + 1) = 2 ^ Z.of_nat shift * 2) as E2 by (by rewrite Z.pow_add_r by lia).
    pose proof (val_fits W num Hn) as Hnf.
    destruct (Z.leb_spec (val div) (val num)) as [Hge|Hlt].
    + destruct (op_sub_ok W num div Hn Hd) as [Hs Es].
      pose proof (val_fits W div Hd) as Hdf. rewrite wrap_id in Es by (unfold fits in *; lia).
      destruct (or_bit_ok W shift pn Hp ltac:(lia)) as [Ho Eo]. rewrite lor_multiple in Eo by (done || lia).
      destruct (IH (op_sub num div) (op_shr W div 1)
        (or_at (shift / 32) (u32 (1 << (Z.of_nat shift & 31))) pn)) as [Hl (r & Hr1 & Hr2)];
        [done.. | lia | done | rewrite Es, Ed; nia | | split; [done |]].
      { rewrite Eo. destruct Ep as [q ->]. exists (2 * q + 1). rewrite E2. ring. }
      exists r. split; [done |]. rewrite Hr2, Eo, Es, Ed. ring.
    + destruct (IH num (op_shr W div 1) pn) as [Hl (r & Hr1 & Hr2)]; [done.. | lia | done | lia | | split; [done |]].
      { destruct Ep as [q ->]. exists (q * 2). rewrite E2. ring. }
      by exists r.
Qed.

(** A divisor of zero is refused, else the quotient is exact. *)
Lemma op_div_ok W a b :
  (2 <= W)%nat -> limbs W a -> limbs W b ->
  if val b =? 0 then op_div W a b = None
  else exists q, op_div W a b = Some q /\ limbs W q /\ val q = val a / val b.
Proof.
  intros HW Ha Hb. unfold op_div. rewrite !op_bits_ok by done.
  pose proof (val_fits W a Ha) as Hfa. pose proof (val_fits W b Hb) as Hfb.
  destruct (base_uint_of_ok W 0 HW) as [Hz Ez]; [by unfold fits |].
  destruct (Z.eqb_spec (val b) 0) as [E|E]; [unfold bitlen at 1; by rewrite E |].
  assert (0 < val b) as Hb0 by (unfold fits in *; lia). pose proof (bitlen_spec _ Hb0) as Hsb.
  assert (1 <= bitlen (val b)) as Hb1.
  { unfold bitlen. rewrite (proj2 (Z.eqb_neq _ 0)) by done. pose proof (Z.log2_nonneg (val b)). lia. }
  rewrite (proj2 (Z.eqb_neq (bitlen (val b)) 0)) by lia.
  destruct (Z.ltb_spec (bitlen (val a)) (bitlen (val b))) as [Hlt|Hge].
  - eexists. split_and!; [done | done |]. rewrite Ez. symmetry. apply Z.div_small. split; [unfold fits in *; lia |].
    destruct (decide (val a = 0)) as [->|Ha0]; [done |].
    pose proof (bitlen_spec (val a) ltac:(unfold fits in *; lia)).
    assert (2 ^ bitlen (val a) <= 2 ^ (bitlen (val b) - 1)) by (apply Z.pow_le_mono_r; lia). lia.
  - assert (0 < val a) as Ha0.
    { destruct (decide (val a = 0)) as [E0|]; [| unfold fits in *; lia]. rewrite E0 in Hge.
      change (bitlen 0) with 0 in Hge. lia. }
    pose proof (bitlen_spec _ Ha0) as Hsa. remember (bitlen (val a) - bitlen (val b)) as s eqn:Hs.
    assert (bitlen (val a) <= 32 * Z.of_nat W) as Hw.
    { destruct (Z.le_gt_cases (bitlen (val a)) (32 * Z.of_nat W)); [done | exfalso].
      assert (2 ^ (32 * Z.of_nat W) <= 2 ^ (bitlen (val a) - 1)) by (apply Z.pow_le_mono_r; lia).
      unfold fits in *. lia. }
    destruct (op_shl_ok W b s Hb ltac:(lia)) as [Hd Ed].
    assert (2 ^ bitlen (val a) = 2 ^ bitlen (val b) * 2 ^ s) as Epow.
    { rewrite <- Z.pow_add_r by lia. f_equal. lia. }
    pose proof (pow2_pos s ltac:(lia)) as HPs.
    assert (2 ^ bitlen (val a) <= 2 ^ (32 * Z.of_nat W)) by (apply Z.pow_le_mono_r; lia).
    rewrite Z.shiftl_mul_pow2, wrap_id in Ed by (lia || unfold fits in *; nia).
    destruct (div_loop_ok W (Z.to_nat (s + 1)) a (op_shl W b s) (base_uint_of W 0) (val b)) as [Hl (r & Hr & Eq)];
      [done.. | rewrite Z2Nat.id; lia | | | |].
    + intros _. rewrite Z2Nat.id, Z.add_simpl_r by lia. done.
    + rewrite Z2Nat.id, Z.pow_add_r by lia.
      assert (2 ^ bitlen (val b) = 2 ^ (bitlen (val b) - 1) * 2) as Eb.
      { change 2 with (2 ^ 1) at 3. rewrite <- Z.pow_add_r by lia. f_equal. lia. }
      change (2 ^ 1) with 2. nia.
    + rewrite Ez. apply Z.divide_0_r.
    + eexists. split_and!; [done | done |]. rewrite Ez, Z.mul_0_l, Z.add_0_l in Eq.
      apply (Z.div_unique _ _ _ r); [by left | lia].
Qed.
