(* ===== verification/Pow.v ===== *)
(** * Proof of work: pow.cpp and the work of chain.cpp

    The target check on a block hash and the amount of work a target stands for, over the
    big integers of [ArithUint], and what they mean as numbers.  Of the consensus parameters only those read here are
    arguments. *)

From S2P Require Import Prelude MdHash ArithUint ArithUintProofs.
#[local] Open Scope Z_scope.

(** [int64_t] of a 64-bit pattern. *)
Definition to_int64 (x : Z) : Z := let y := u64 x in if y <? 2 ^ 63 then y else y - 2 ^ 64.

Definition CheckProofOfWork (hash : list Z) (nBits : Z) (powLimit : list Z) : bool :=
  let '(bnTarget, fNegative, fOverflow) := SetCompact nBits in
  if fNegative || EqualTo bnTarget 0 || fOverflow || op_gt 8 bnTarget (UintToArith256 powLimit) then false
  else if op_gt 8 (UintToArith256 hash) bnTarget then false
  else true.

Definition GetBlockProof (nBits : Z) : option base_uint :=
  let '(bnTarget, fNegative, fOverflow) := SetCompact nBits in
  if fNegative || fOverflow || EqualTo bnTarget 0 then Some (arith_uint256_of 0)
  else
    q ← op_div 8 (op_compl bnTarget) (op_add bnTarget (arith_uint256_of 1));
    Some (op_add q (arith_uint256_of 1)).

(** [to.nChainWork], [from.nChainWork] and [tip.nBits]; an exception is [None]. *)
Definition GetBlockProofEquivalentTime (to from : base_uint) (tip_nBits nPowTargetSpacing : Z) : option Z :=
  let '(r, sign) := if op_gt 8 to from then (op_sub to from, 1) else (op_sub from to, -1) in
  proof ← GetBlockProof tip_nBits;
  r ← op_div 8 (op_mul 8 r (arith_uint256_of (u64 nPowTargetSpacing))) proof;
  Some (if 63 <? op_bits 8 r then sign * (2 ^ 63 - 1) else to_int64 (u64 sign * GetLow64 r)).

(** * Proof of work: compact targets, the target check and the work of a block

    [compact_value] is the number of the documentation of [arith_uint256],
    [mantissa * 256^(exponent - 3)]. *)

#[local] Open Scope Z_scope.

Definition compact_size (c : Z) : Z := c / 2 ^ 24.
Definition compact_mant (c : Z) : Z := c mod 2 ^ 23.
Definition compact_neg (c : Z) : bool := Z.testbit c 23.

(** [256^e] times [m], rounded down for a negative [e]. *)
Definition scale (m e : Z) : Z := if e <? 0 then m / 2 ^ (8 * - e) else m * 2 ^ (8 * e).

Definition compact_value (c : Z) : Z := scale (compact_mant c) (compact_size c - 3).

Lemma limbs8 a : limbs 8 a -> fits 256 (val a).
Proof. apply val_fits. Qed.

Lemma of_ok b : fits 64 b -> limbs 8 (arith_uint256_of b) /\ val (arith_uint256_of b) = b.
Proof. apply base_uint_of_ok. lia. Qed.

Lemma sign_bit c : negb (Z.land c 0x00800000 =? 0) = Z.testbit c 23.
Proof.
  change 0x00800000 with (2 ^ 23). rewrite land_pow2 by lia. by destruct (Z.testbit c 23).
Qed.

Lemma mant_bound c : 0 <= compact_mant c < 2 ^ 23.
Proof. apply Z.mod_pos_bound. lia. Qed.

Lemma size_bound c : fits 32 c -> 0 <= compact_size c < 2 ^ 8.
Proof. intros Hc. unfold fits, compact_size in *. split; [apply Z.div_pos; lia | apply Z.div_lt_upper_bound; lia]. Qed.

(** The value fits 256 bits unless the flag is raised, for a non-zero mantissa. *)
Lemma overflow_flag m s :
  0 <= m < 2 ^ 23 -> 3 < s ->
  negb (m =? 0) && ((34 <? s) || ((0xff <? m) && (33 <? s)) || ((0xffff <? m) && (32 <? s)))
  = (2 ^ 256 <=? m * 2 ^ (8 * (s - 3))).
Proof.
  intros Hm Hs. destruct (Z.eqb_spec m 0) as [->|Hm0]; [cbn [negb andb]; symmetry; by apply Z.leb_gt |].
  cbn [negb andb]. destruct (Z.leb_spec s 32) as [H32|H32].
  - assert (m * 2 ^ (8 * (s - 3)) < 2 ^ 256).
    { assert (2 ^ (8 * (s - 3)) <= 2 ^ 232) by (apply Z.pow_le_mono_r; lia). nia. }
    rewrite (proj2 (Z.leb_gt _ _)) by done.
    rewrite (proj2 (Z.ltb_ge 34 s)), (proj2 (Z.ltb_ge 33 s)), (proj2 (Z.ltb_ge 32 s)) by lia.
    by rewrite !andb_false_r.
  - destruct (Z.ltb_spec 34 s) as [H34|H34].
    + assert (2 ^ 256 <= 2 ^ (8 * (s - 3))) by (apply Z.pow_le_mono_r; lia).
      symmetry. apply Z.leb_le. nia.
    + rewrite (proj2 (Z.ltb_lt 32 s)), andb_true_r by lia. cbn [orb].
      assert (s = 33 \/ s = 34) as [-> | ->] by lia; cbn [Z.ltb Z.compare Pos.compare Pos.compare_cont].
      * rewrite andb_false_r. cbn [orb]. change (8 * (33 - 3)) with 240. change (2 ^ 256) with (2 ^ 16 * 2 ^ 240).
        destruct (Z.ltb_spec 0xffff m), (Z.leb_spec (2 ^ 16 * 2 ^ 240) (m * 2 ^ 240)); (done || nia).
      * rewrite andb_true_r. change (8 * (34 - 3)) with 248. change (2 ^ 256) with (2 ^ 8 * 2 ^ 248).
        destruct (Z.ltb_spec 0xff m), (Z.ltb_spec 0xffff m), (Z.leb_spec (2 ^ 8 * 2 ^ 248) (m * 2 ^ 248)); (done || nia).
Qed.

Lemma SetCompact_ok c :
  fits 32 c ->
  exists a, SetCompact c = (a, negb (compact_value c =? 0) && compact_neg c, 2 ^ 256 <=? compact_value c) /\
    limbs 8 a /\ val a = wrap 256 (compact_value c).
Proof.
  intros Hc. pose proof (size_bound c Hc) as Hs. pose proof (mant_bound c) as Hm. unfold SetCompact.
  rewrite Z.shiftr_div_pow2 by lia. change (c / 2 ^ 24) with (compact_size c).
  assert (c & 0x007fffff = compact_mant c) as ->.
  { change 0x007fffff with (Z.ones 23). apply Z.land_ones. lia. }
  rewrite sign_bit. unfold compact_value, scale, compact_neg.
  destruct (Z.leb_spec (compact_size c) 3) as [H3|H3].
  - assert (compact_mant c >> (8 * (3 - compact_size c)) = compact_mant c / 2 ^ (8 * - (compact_size c - 3))) as Ew.
    { rewrite Z.shiftr_div_pow2 by lia. do 2 f_equal. lia. }
    rewrite Ew. set (w := compact_mant c / _) in *.
    assert (0 <= w < 2 ^ 23) as Hw.
    { subst w. pose proof (pow2_pos (8 * - (compact_size c - 3)) ltac:(lia)). split; [apply Z.div_pos; lia |].
      apply Z.div_lt_upper_bound; nia. }
    assert ((if compact_size c - 3 <? 0 then w else compact_mant c * 2 ^ (8 * (compact_size c - 3))) = w) as ->.
    { destruct (Z.ltb_spec (compact_size c - 3) 0) as [|H]; [done |]. subst w.
      replace (compact_size c - 3) with 0 by lia. rewrite Z.div_1_r. lia. }
    destruct (of_ok w) as [Hl E]; [unfold fits; lia |]. eexists. split; [| split; [exact Hl |]].
    + do 2 f_equal. rewrite (proj2 (Z.leb_gt _ w)) by lia.
      rewrite (proj2 (Z.ltb_ge 34 _)), (proj2 (Z.ltb_ge 33 _)), (proj2 (Z.ltb_ge 32 _)) by lia.
      by rewrite !andb_false_r.
    + rewrite E, wrap_id; [done | unfold fits; lia].
  - rewrite (proj2 (Z.ltb_ge (compact_size c - 3) 0)) by lia.
    destruct (of_ok (compact_mant c)) as [Hl E]; [unfold fits; lia |].
    destruct (op_shl_ok 8 _ (8 * (compact_size c - 3)) Hl ltac:(lia)) as [Hl' E'].
    eexists. split; [| split; [exact Hl' | rewrite E', E, Z.shiftl_mul_pow2 by lia; done]].
    rewrite overflow_flag by done. do 3 f_equal.
    pose proof (pow2_pos (8 * (compact_size c - 3)) ltac:(lia)).
    destruct (Z.eqb_spec (compact_mant c) 0) as [->|], (Z.eqb_spec (compact_mant c * 2 ^ (8 * (compact_size c - 3))) 0); (done || nia).
Qed.

Lemma compact_value_nonneg c : 0 <= compact_value c.
Proof.
  unfold compact_value, scale. pose proof (mant_bound c). destruct (Z.ltb_spec (compact_size c - 3) 0).
  - apply Z.div_pos; [lia | apply pow2_pos; lia].
  - pose proof (pow2_pos (8 * (compact_size c - 3))). nia.
Qed.

(** The largest number of 256 bits has no compact code. *)
Lemma compact_value_even c : compact_value c <> 2 ^ 256 - 1.
Proof.
  intros E. pose proof (mant_bound c) as Hm. unfold compact_value, scale in E.
  destruct (Z.ltb_spec (compact_size c - 3) 0) as [H|H].
  - assert (compact_mant c / 2 ^ (8 * - (compact_size c - 3)) <= compact_mant c); [| lia].
    pose proof (pow2_pos (8 * - (compact_size c - 3))). apply Z.div_le_upper_bound; nia.
  - destruct (decide (compact_size c - 3 = 0)) as [E0|E0].
    + rewrite E0 in E. change (2 ^ (8 * 0)) with 1 in E. lia.
    + replace (8 * (compact_size c - 3)) with (8 * (compact_size c - 3) - 1 + 1) in E by lia.
      rewrite Z.pow_add_r in E by lia. lia.
Qed.

(** ** The hash as a number *)

Lemma le_value_limb bs : length bs = 4%nat -> Forall (fits 8) bs -> fits 32 (le_value bs).
Proof.
  intros Hl Hf. destruct bs as [|a [|b [|c [|d [|]]]]]; try done.
  repeat (apply Forall_cons_iff in Hf as [? Hf]). unfold fits, le_value in *. cbn [foldr]. lia.
Qed.

Lemma UintToArith256_ok h :
  length h = 32%nat -> Forall (fits 8) h -> limbs 8 (UintToArith256 h) /\ val (UintToArith256 h) = le_value h.
Proof.
  intros Hl Hf. split.
  - split; [done |]. unfold UintToArith256. apply Forall_fmap, Forall_forall. intros x Hx.
    apply in_seq in Hx. apply le_value_limb.
    + unfold octets. rewrite length_take, length_drop. lia.
    + by apply Forall_take, Forall_drop.
  - do 33 (destruct h as [|? h]; [discriminate Hl || idtac |]); [| discriminate Hl].
    unfold UintToArith256, octets, val, le_value. cbn [seq fmap list_fmap Nat.mul Nat.add skipn firstn foldr]. 
    change (2 ^ 32) with 4294967296. lia.
Qed.

(** ** Encoding *)

Lemma GetLow64_ok a : limbs 8 a -> GetLow64 a = val a mod 2 ^ 64.
Proof.
  intros [Hl Ha]. destruct a as [|x [|y a]]; [done | done |].
  apply Forall_cons_iff in Ha as [Hx Ha]. apply Forall_cons_iff in Ha as [Hy Ha].
  unfold GetLow64. change ((x :: y :: a) !!! 1%nat) with y. change ((x :: y :: a) !!! 0%nat) with x.
  rewrite wrap_id, Z.lor_comm by (rewrite Z.shiftl_mul_pow2 by lia; unfold fits in *; lia).
  assert (Z.land (y << 32) x = 0) as H0.
  { apply Z.bits_inj'. intros n Hn. rewrite Z.land_spec, Z.testbit_0_l, Z.shiftl_spec by lia.
    destruct (Z.ltb_spec n 32); [by rewrite (Z.testbit_neg_r _ (n - 32)) by lia |].
    rewrite (fits_testbit 32 x n) by (done || lia). apply andb_false_r. }
  rewrite <- Z.lxor_lor, <- Z.add_nocarry_lxor, Z.shiftl_mul_pow2 by (done || lia). rewrite !val_cons.
  replace (x + 2 ^ 32 * (y + 2 ^ 32 * val a)) with (y * 2 ^ 32 + x + val a * 2 ^ 64) by lia.
  rewrite Z.mod_add, Z.mod_small by (unfold fits in *; lia). done.
Qed.

(** The bytes of a number. *)
Definition nbytes (v : Z) : Z := (bitlen v + 7) / 8.

Lemma nbytes_spec v : 0 < v -> 1 <= nbytes v /\ 2 ^ (8 * (nbytes v - 1)) <= v < 2 ^ (8 * nbytes v).
Proof.
  intros Hv. pose proof (bitlen_spec v Hv) as [H1 H2]. unfold nbytes.
  assert (1 <= bitlen v).
  { unfold bitlen. rewrite (proj2 (Z.eqb_neq _ 0)) by lia. pose proof (Z.log2_nonneg v). lia. }
  pose proof (Z.div_mod (bitlen v + 7) 8 ltac:(lia)). pose proof (Z.mod_pos_bound (bitlen v + 7) 8 ltac:(lia)).
  split; [lia | split].
  - etransitivity; [| exact H1]. apply Z.pow_le_mono_r; lia.
  - eapply Z.lt_le_trans; [exact H2 |]. apply Z.pow_le_mono_r; lia.
Qed.

(** The three top bytes. *)
Definition top3 (v : Z) : Z := scale v (3 - nbytes v).

Lemma top3_spec v : 0 < v -> 2 ^ 16 <= top3 v < 2 ^ 24.
Proof.
  intros Hv. destruct (nbytes_spec v Hv) as (H1 & H2 & H3). unfold top3, scale. set (s := nbytes v) in *.
  destruct (Z.ltb_spec (3 - s) 0) as [H|H].
  - replace (- (3 - s)) with (s - 3) by lia. pose proof (pow2_pos (8 * (s - 3)) ltac:(lia)).
    replace (8 * (s - 1)) with (16 + 8 * (s - 3)) in H2 by lia. replace (8 * s) with (24 + 8 * (s - 3)) in H3 by lia.
    rewrite Z.pow_add_r in H2, H3 by lia. split; [apply Z.div_le_lower_bound; lia | apply Z.div_lt_upper_bound; lia].
  - pose proof (pow2_pos (8 * (3 - s)) ltac:(lia)).
    assert (2 ^ 16 = 2 ^ (8 * (s - 1)) * 2 ^ (8 * (3 - s))) as -> by (rewrite <- Z.pow_add_r by lia; f_equal; lia).
    assert (2 ^ 24 = 2 ^ (8 * s) * 2 ^ (8 * (3 - s))) as -> by (rewrite <- Z.pow_add_r by lia; f_equal; lia).
    nia.
Qed.

(** The mantissa and exponent [GetCompact] chooses. *)
Definition norm_mant (v : Z) : Z := if 2 ^ 23 <=? top3 v then top3 v / 256 else top3 v.
Definition norm_exp (v : Z) : Z := (if 2 ^ 23 <=? top3 v then nbytes v + 1 else nbytes v).

Lemma norm_mant_spec v : 0 < v -> 2 ^ 15 <= norm_mant v < 2 ^ 23.
Proof.
  intros Hv. pose proof (top3_spec v Hv). unfold norm_mant. destruct (Z.leb_spec (2 ^ 23) (top3 v)); [| lia].
  split; [apply Z.div_le_lower_bound; lia | apply Z.div_lt_upper_bound; lia].
Qed.

(** The encoded number is the top of [v]. *)
Lemma norm_scale v : 0 < v ->
  scale (norm_mant v) (norm_exp v - 3) =
    (if norm_exp v <=? 3 then v else v / 2 ^ (8 * (norm_exp v - 3)) * 2 ^ (8 * (norm_exp v - 3))) /\
  (3 < norm_exp v -> norm_mant v = v / 2 ^ (8 * (norm_exp v - 3))).
Proof.
  intros Hv. destruct (nbytes_spec v Hv) as (H1 & H2 & H3). pose proof (top3_spec v Hv) as Ht.
  assert (Hgt : 3 < norm_exp v -> norm_mant v = v / 2 ^ (8 * (norm_exp v - 3))).
  { unfold norm_mant, norm_exp. destruct (Z.leb_spec (2 ^ 23) (top3 v)) as [Hb|Hb]; unfold top3, scale in *;
      set (s := nbytes v) in *; intros He; destruct (Z.ltb_spec (3 - s) 0) as [H|H]; try lia.
    - rewrite Z.div_div by (lia || apply pow2_pos; lia). replace (2 ^ (8 * - (3 - s)) * 256) with (2 ^ (8 * (s + 1 - 3))).
      2:{ change 256 with (2 ^ 8). rewrite <- Z.pow_add_r by lia. f_equal. lia. } done.
    - replace (3 - s) with 0 by lia. replace (s + 1 - 3) with 1 by lia. f_equal. lia.
    - do 2 f_equal. lia. }
  split; [| done]. unfold scale. destruct (Z.leb_spec (norm_exp v) 3) as [H|H].
  2:{ rewrite (proj2 (Z.ltb_ge _ 0)) by lia. by rewrite Hgt by done. }
  assert (scale (norm_mant v) (norm_exp v - 3) = v) as E; [| exact E].
  unfold norm_mant, norm_exp in *. destruct (Z.leb_spec (2 ^ 23) (top3 v)) as [Hb|Hb];
    unfold top3 in *; unfold scale in *; set (s := nbytes v) in *.
  - rewrite (proj2 (Z.ltb_ge (3 - s) 0)) by lia.
    replace (2 ^ (8 * (3 - s))) with (2 ^ (8 * (3 - (s + 1))) * 256).
    2:{ change 256 with (2 ^ 8). rewrite <- Z.pow_add_r by lia. f_equal. lia. }
    rewrite Z.mul_assoc, Z.div_mul by lia. destruct (Z.ltb_spec (s + 1 - 3) 0) as [H0|H0].
    + replace (- (s + 1 - 3)) with (3 - (s + 1)) by lia. apply Z.div_mul. pose proof (pow2_pos (8 * (3 - (s + 1)))). lia.
    + replace (s + 1 - 3) with 0 by lia. replace (3 - (s + 1)) with 0 by lia. lia.
  - rewrite (proj2 (Z.ltb_ge (3 - s) 0)) by lia. destruct (Z.ltb_spec (s - 3) 0) as [H0|H0].
    + replace (- (s - 3)) with (3 - s) by lia. apply Z.div_mul. pose proof (pow2_pos (8 * (3 - s))). lia.
    + replace (s - 3) with 0 by lia. replace (3 - s) with 0 by lia. lia.
Qed.

Lemma compact_pack m s :
  0 <= m < 2 ^ 23 -> 0 <= s < 2 ^ 8 -> let c := Z.lor m (u32 (s << 24)) in
  c = m + s * 2 ^ 24 /\ fits 32 c /\ compact_mant c = m /\ compact_size c = s /\ compact_neg c = false.
Proof.
  intros Hm Hs c. assert (c = m + s * 2 ^ 24) as E.
  { subst c. rewrite Z.shiftl_mul_pow2, wrap_id by (lia || unfold fits; lia).
    assert (Z.land m (s * 2 ^ 24) = 0) as H0.
    { apply Z.bits_inj'. intros n Hn. rewrite Z.land_spec, Z.testbit_0_l.
      destruct (Z.ltb_spec n 24); [by rewrite Z.mul_pow2_bits_low, andb_false_r by lia |].
      by rewrite (fits_testbit 23 m n) by (unfold fits; lia). }
    by rewrite <- Z.lxor_lor, <- Z.add_nocarry_lxor by done. }
  split; [done |]. unfold compact_mant, compact_size, compact_neg. rewrite E. split_and!.
  - unfold fits. lia.
  - replace (m + s * 2 ^ 24) with (m + (s * 2) * 2 ^ 23) by lia. rewrite Z.mod_add, Z.mod_small by lia. done.
  - rewrite Z.div_add, Z.div_small by lia. lia.
  - rewrite Z.testbit_false by lia. replace (m + s * 2 ^ 24) with (m + (s * 2) * 2 ^ 23) by lia.
    rewrite Z.div_add, Z.div_small by lia. apply Z.mod_mul. lia.
Qed.

Lemma testbit_top x n : 0 <= n -> 0 <= x < 2 ^ (n + 1) -> Z.testbit x n = (2 ^ n <=? x).
Proof.
  intros Hn Hx. rewrite Z.pow_add_r in Hx by lia. pose proof (pow2_pos n Hn).
  destruct (Z.leb_spec (2 ^ n) x) as [H0|H0].
  - apply Z.testbit_true; [done |]. enough (x / 2 ^ n = 1) as -> by done.
    symmetry. apply (Z.div_unique _ _ _ (x - 2 ^ n)); lia.
  - apply (fits_testbit n); [unfold fits; lia | lia].
Qed.

Lemma high_mask m : 0 <= m < 2 ^ 23 -> Z.land m (u32 (Z.lnot 0x007fffff)) = 0.
Proof.
  intros Hm. apply Z.bits_inj'. intros n Hn. rewrite Z.land_spec, Z.testbit_0_l.
  destruct (Z.ltb_spec n 23) as [H|H]; [| by rewrite (fits_testbit 23 m n) by (unfold fits; lia)].
  rewrite wrap_testbit, Z.lnot_spec by lia. change 0x007fffff with (Z.ones 23).
  rewrite Z.ones_spec_low by lia. by rewrite andb_false_r, andb_false_r.
Qed.

Lemma nbytes_256 v : fits 256 v -> 0 <= nbytes v <= 32.
Proof.
  intros Hv. destruct (decide (v = 0)) as [->|H0]; [by vm_compute |]. unfold fits in Hv.
  destruct (nbytes_spec v ltac:(lia)) as (H1 & H2 & _). split; [lia |].
  destruct (Z.le_gt_cases (nbytes v) 32) as [|H]; [done | exfalso].
  assert (2 ^ 256 <= 2 ^ (8 * (nbytes v - 1))) by (apply Z.pow_le_mono_r; lia). lia.
Qed.

(** The word before the sign adjustment. *)
Lemma first_word a :
  limbs 8 a -> 0 < val a ->
  (if nbytes (val a) <=? 3 then u32 (u64 (GetLow64 a << (8 * (3 - nbytes (val a)))))
   else u32 (GetLow64 (op_shr 8 a (8 * (nbytes (val a) - 3))))) = top3 (val a).
Proof.
  intros Ha Hv. pose proof (top3_spec _ Hv) as Ht. destruct (nbytes_spec _ Hv) as (H1 & H2 & H3).
  pose proof (nbytes_256 _ (limbs8 a Ha)) as Hn.
  unfold top3, scale in *. set (s := nbytes (val a)) in *. destruct (Z.leb_spec s 3) as [H|H].
  - rewrite (proj2 (Z.ltb_ge (3 - s) 0)) in * by lia.
    assert (2 ^ (8 * s) <= 2 ^ 24) by (apply Z.pow_le_mono_r; lia).
    rewrite GetLow64_ok, Z.mod_small, Z.shiftl_mul_pow2 by (done || lia).
    rewrite (wrap_id 64), wrap_id by (unfold fits; lia). done.
  - rewrite (proj2 (Z.ltb_lt (3 - s) 0)) in * by lia. replace (- (3 - s)) with (s - 3) in * by lia.
    destruct (op_shr_ok 8 a (8 * (s - 3)) Ha ltac:(lia)) as [Hl E].
    rewrite GetLow64_ok, E, Z.shiftr_div_pow2 by (done || lia).
    rewrite Z.mod_small, wrap_id by (unfold fits; lia). done.
Qed.

Lemma GetCompact_ok a :
  limbs 8 a -> 0 < val a ->
  GetCompact a false = Some (norm_mant (val a) .| u32 (norm_exp (val a) << 24)).
Proof.
  intros Ha Hv. unfold GetCompact. rewrite op_bits_ok by done.
  change ((bitlen (val a) + 7) / 8) with (nbytes (val a)). rewrite first_word by done.
  pose proof (top3_spec _ Hv) as Ht. pose proof (norm_mant_spec _ Hv) as Hm.
  pose proof (nbytes_256 _ (limbs8 a Ha)) as Hn. rewrite sign_bit, testbit_top by (cbn; lia).
  unfold norm_mant, norm_exp in *. destruct (Z.leb_spec (2 ^ 23) (top3 (val a))) as [H|H].
  - assert (top3 (val a) >> 8 = top3 (val a) / 256) as -> by (by rewrite Z.shiftr_div_pow2 by lia).
    rewrite high_mask by lia. rewrite (proj2 (Z.ltb_lt _ 256)) by lia. cbn [Z.eqb negb andb].
    by rewrite Z.lor_0_r.
  - rewrite high_mask by lia. rewrite (proj2 (Z.ltb_lt _ 256)) by lia. cbn [Z.eqb negb andb].
    by rewrite Z.lor_0_r.
Qed.

Lemma GetCompact_zero a : limbs 8 a -> val a = 0 -> GetCompact a false = Some 0.
Proof.
  intros Ha E. assert (a = replicate 8 0) as ->; [| by vm_compute].
  apply (val_inj 8); [done | apply limbs_replicate | by rewrite val_replicate].
Qed.

(** What the encoding of a positive number decodes to. *)
Lemma norm_value a :
  limbs 8 a -> 0 < val a ->
  let c := norm_mant (val a) .| u32 (norm_exp (val a) << 24) in
  fits 32 c /\ compact_neg c = false /\ compact_value c = scale (norm_mant (val a)) (norm_exp (val a) - 3) /\
  0 <= val a - compact_value c /\ (val a - compact_value c) * 2 ^ 15 < val a /\
  (forall m k, 0 <= m < 2 ^ 23 -> val a = scale m k -> compact_value c = val a).
Proof.
  intros Ha Hv c. pose proof (norm_mant_spec _ Hv) as Hm. pose proof (nbytes_256 _ (limbs8 a Ha)) as Hn.
  destruct (nbytes_spec _ Hv) as (H1 & _). destruct (norm_scale _ Hv) as [Es Em].
  assert (0 <= norm_exp (val a) < 2 ^ 8) as He by (unfold norm_exp; destruct (2 ^ 23 <=? top3 (val a)); lia).
  destruct (compact_pack (norm_mant (val a)) (norm_exp (val a))) as (_ & Hf & E1 & E2 & E3); [lia | done |].
  fold c in Hf, E1, E2, E3. unfold compact_value. rewrite E1, E2. clear E1 E2. split_and!; [done.. | | |].
  all: rewrite Es; destruct (Z.leb_spec (norm_exp (val a)) 3) as [H|H]; try lia; try done.
  all: specialize (Em H); remember (norm_exp (val a) - 3) as e eqn:Hex; pose proof (pow2_pos (8 * e) ltac:(lia)) as HP;
    pose proof (Z.div_mod (val a) (2 ^ (8 * e)) ltac:(lia)) as Hdm;
    pose proof (Z.mod_pos_bound (val a) (2 ^ (8 * e)) ltac:(lia)) as Hmb; rewrite <- Em in *; try nia.
  intros m k Hmk Ek. assert (e <= k) as Hk.
  { destruct (Z.le_gt_cases e k) as [|Hlt]; [done | exfalso].
    assert (val a < 2 ^ (8 * e + 15)); [| rewrite Z.pow_add_r in * by lia; nia].
    rewrite Ek. unfold scale. destruct (Z.ltb_spec k 0) as [H0|H0].
    - assert (2 ^ 23 <= 2 ^ (8 * e + 15)) by (apply Z.pow_le_mono_r; lia).
      assert (m / 2 ^ (8 * - k) <= m) by (apply Z.div_le_upper_bound; [apply pow2_pos; lia | pose proof (pow2_pos (8 * - k)); nia]).
      lia.
    - assert (2 ^ (23 + 8 * k) <= 2 ^ (8 * e + 15)) as Hle by (apply Z.pow_le_mono_r; lia).
      eapply Z.lt_le_trans; [| exact Hle]. rewrite Z.pow_add_r by lia.
      apply Z.mul_lt_mono_pos_r; [apply pow2_pos; lia | lia]. }
  assert (val a mod 2 ^ (8 * e) = 0) as E0; [| lia].
  unfold scale in Ek. rewrite (proj2 (Z.ltb_ge k 0)) in Ek by lia. rewrite Ek.
  replace (8 * k) with (8 * (k - e) + 8 * e) by lia. rewrite Z.pow_add_r, Z.mul_assoc by lia. apply Z.mod_mul. lia.
Qed.

(** ** The work of a block *)

Lemma block_proof_value nBits :
  fits 32 nBits ->
  exists p, GetBlockProof nBits = Some p /\ limbs 8 p /\
    val p = (if (negb (compact_neg nBits) && (0 <? compact_value nBits) && (compact_value nBits <? 2 ^ 256))%bool
             then 2 ^ 256 / (compact_value nBits + 1) else 0).
Proof.
  intros Hc. unfold GetBlockProof. destruct (SetCompact_ok nBits Hc) as (a & -> & Ha & Ev).
  destruct (of_ok 0) as [Hz Ez]; [by unfold fits |]. destruct (of_ok 1) as [H1 E1]; [by unfold fits |].
  rewrite (EqualTo_ok 8) by (done || lia || by unfold fits). rewrite Ev.
  pose proof (compact_value_nonneg nBits) as Hnn.
  destruct (Z.leb_spec (2 ^ 256) (compact_value nBits)) as [Ho|Ho].
  { rewrite orb_true_r. cbn [orb]. eexists. split_and!; [done | done |]. rewrite Ez, (proj2 (Z.ltb_ge _ (2 ^ 256))) by done.
    by rewrite andb_false_r. }
  rewrite wrap_id in Ev |- * by (unfold fits; lia). rewrite orb_false_r, (proj2 (Z.ltb_lt _ (2 ^ 256))), andb_true_r by done.
  destruct (Z.eqb_spec (compact_value nBits) 0) as [E0|E0].
  { rewrite orb_true_r. eexists. split_and!; [done | done |]. rewrite Ez, E0. cbn [Z.ltb Z.compare]. by rewrite andb_false_r. }
  rewrite (proj2 (Z.ltb_lt 0 _)), andb_true_r, orb_false_r by lia. cbn [negb andb].
  destruct (compact_neg nBits); [eexists; split_and!; [done | done | by rewrite Ez] |]. cbn [negb].
  destruct (op_compl_ok 8 a Ha) as [Hcl Ec]. destruct (op_add_ok 8 a _ Ha H1) as [Hd Ed]. rewrite E1 in Ed.
  set (t := compact_value nBits) in *. change (32 * Z.of_nat 8) with 256 in *.
  pose proof (op_div_ok 8 _ _ ltac:(lia) Hcl Hd) as Hdiv. rewrite Ed, Ec, Ev in Hdiv.
  destruct (decide (t = 2 ^ 256 - 1)) as [Et|Et].
  { exfalso. apply (compact_value_even nBits). done. }
  rewrite wrap_id in Hdiv by (unfold fits; lia). rewrite (proj2 (Z.eqb_neq _ 0)) in Hdiv by lia.
  destruct Hdiv as (q & -> & Hq & Eq). rewrite obind_Some. destruct (op_add_ok 8 q _ Hq H1) as [Hr Er].
  eexists. split_and!; [done | done |]. rewrite Er, E1, Eq.
  assert (2 ^ 256 / (t + 1) = (2 ^ 256 - 1 - t) / (t + 1) + 1) as ->.
  { replace (2 ^ 256) with (2 ^ 256 - 1 - t + 1 * (t + 1)) at 1 by lia. rewrite Z.div_add by lia. done. }
  apply wrap_id. split; [pose proof (Z.div_pos (2 ^ 256 - 1 - t) (t + 1)); lia |].
  assert ((2 ^ 256 - 1 - t) / (t + 1) <= (2 ^ 256 - 1 - t) / 2); [apply Z.div_le_compat_l; lia |].
  assert ((2 ^ 256 - 1 - t) / 2 < 2 ^ 255) by (apply Z.div_lt_upper_bound; lia). lia.
Qed.

Lemma block_proof_limbs nBits : fits 32 nBits -> exists p, GetBlockProof nBits = Some p /\ limbs 8 p.
Proof. intros H. destruct (block_proof_value nBits H) as (p & E & Hl & _). by exists p. Qed.

(** ** The target check *)

Lemma CheckProofOfWork_ok hash nBits powLimit :
  length hash = 32%nat -> Forall (fits 8) hash -> length powLimit = 32%nat -> Forall (fits 8) powLimit ->
  fits 32 nBits ->
  CheckProofOfWork hash nBits powLimit = true <->
  compact_neg nBits = false /\ 0 < compact_value nBits <= le_value powLimit /\
  le_value hash <= compact_value nBits.
Proof.
  intros Hl Hf Hl' Hf' Hc. unfold CheckProofOfWork.
  destruct (SetCompact_ok nBits Hc) as (a & -> & Ha & Ev).
  destruct (UintToArith256_ok hash Hl Hf) as [Hh Eh]. destruct (UintToArith256_ok powLimit Hl' Hf') as [Hp Ep].
  rewrite (EqualTo_ok 8), !op_gt_ok by (done || lia || by unfold fits). rewrite Eh, Ep, Ev.
  pose proof (limbs8 _ Hp) as Hpf. rewrite Ep in Hpf. pose proof (compact_value_nonneg nBits) as Hnn.
  unfold fits in *.
  destruct (Z.leb_spec (2 ^ 256) (compact_value nBits)) as [Ho|Ho].
  { rewrite orb_true_r. split; [done | lia]. }
  rewrite wrap_id by (unfold fits; lia). rewrite orb_false_r.
  destruct (compact_neg nBits), (Z.eqb_spec (compact_value nBits) 0), (Z.ltb_spec (le_value powLimit) (compact_value nBits)),
    (Z.ltb_spec (compact_value nBits) (le_value hash)); cbn [negb andb orb]; split; intros; try done; try lia; destruct_and?; try done; lia.
Qed.
