(* ===== verification/PowTheorems.v ===== *)
(** * Big integers and proof of work: theorems *)

From S2P Require Import Prelude MdHash ArithUint ArithUintProofs Pow.
#[local] Open Scope Z_scope.

(** C29. The limb arithmetic of [arith_uint256] is arithmetic modulo [2^256] on the numbers
    the limbs stand for: addition, subtraction, negation, both multiplications, both
    shifts, increment and decrement, exact floor division (refused only for zero), and
    comparison as numbers. *)
Theorem arith_uint256_correct a b s m :
  limbs 8 a -> limbs 8 b -> 0 <= s -> fits 32 m ->
  val (op_add a b) = wrap 256 (val a + val b) /\
  val (op_sub a b) = wrap 256 (val a - val b) /\
  val (op_neg a) = wrap 256 (- val a) /\
  val (op_inc a) = wrap 256 (val a + 1) /\ val (op_dec a) = wrap 256 (val a - 1) /\
  val (op_mul 8 a b) = wrap 256 (val a * val b) /\
  val (op_mul32 a m) = wrap 256 (val a * m) /\
  val (op_shl 8 a s) = wrap 256 (val a << s) /\ val (op_shr 8 a s) = val a >> s /\
  op_lt 8 a b = (val a <? val b) /\ op_ge 8 a b = (val b <=? val a) /\
  op_bits 8 a = (if val a =? 0 then 0 else Z.log2 (val a) + 1) /\
  (if val b =? 0 then op_div 8 a b = None
   else exists q, op_div 8 a b = Some q /\ limbs 8 q /\ val q = val a / val b).
Proof.
  intros Ha Hb Hs Hm. split_and!.
  - by apply (op_add_ok 8).
  - by apply (op_sub_ok 8).
  - by apply (op_neg_ok 8).
  - by apply (op_inc_ok 8).
  - by apply (op_dec_ok 8).
  - apply (op_mul_ok 8); [lia | done | done].
  - by apply (op_mul32_ok 8).
  - by apply (op_shl_ok 8).
  - by apply (op_shr_ok 8).
  - by apply op_lt_ok.
  - by apply op_ge_ok.
  - by apply op_bits_ok.
  - apply op_div_ok; [lia | done | done].
Qed.

Definition ten : base_uint := [10; 0; 0; 0; 0; 0; 0; 1].
Definition three : base_uint := [3; 0; 0; 0; 0; 0; 0; 0].

Lemma ten_limbs : limbs 8 ten.
Proof. split; [done |]. unfold ten. forall_build ltac:(by unfold fits). Qed.
Lemma three_limbs : limbs 8 three.
Proof. split; [done |]. unfold three. forall_build ltac:(by unfold fits). Qed.

Lemma arith_uint256_correct_witness :
  val (op_add ten three) = wrap 256 (val ten + val three) /\
  exists q, op_div 8 ten three = Some q /\ limbs 8 q /\ val q = val ten / val three.
Proof.
  destruct (arith_uint256_correct ten three 7 5 ten_limbs three_limbs) as (H1 & _ & _ & _ & _ & _ & _ & _ & _ & _ & _ & _ & H2);
    [lia | by unfold fits |]. exact (conj H1 H2).
Defined.

(** A compact target that is neither negative nor too large survives decoding and
    encoding: [GetCompact] of the decoded number decodes to the same number (its own code
    may be another, normalised one).  Encoding any number loses less than one part in
    [2^15], never rounds up, and is never read back as negative or overflowing. *)
Theorem compact_roundtrip a c :
  limbs 8 a -> fits 32 c ->
  (SetCompact c = (a, false, false) ->
     exists c', GetCompact a false = Some c' /\ SetCompact c' = (a, false, false)) /\
  (exists c' a', GetCompact a false = Some c' /\ SetCompact c' = (a', false, false) /\
     0 <= val a - val a' /\ (val a - val a') * 2 ^ 15 <= val a).
Proof.
  intros Ha Hc. assert (Hdec : forall c', fits 32 c' -> compact_neg c' = false -> compact_value c' <= val a ->
    0 <= compact_value c' -> exists a', SetCompact c' = (a', false, false) /\ limbs 8 a' /\ val a' = compact_value c').
  { intros c' Hf Hneg Hle H0. destruct (SetCompact_ok c' Hf) as (a' & E & Hl & Ev). pose proof (limbs8 a Ha) as Hv.
    unfold fits in Hv. exists a'. rewrite E, Hneg, andb_false_r, (proj2 (Z.leb_gt _ _)) by lia.
    split_and!; [done | done | rewrite Ev, wrap_id; [done | unfold fits; lia]]. }
  pose proof (limbs8 a Ha) as Hf. destruct (decide (val a = 0)) as [E0|E0].
  - assert (a = replicate 8 0) as -> by (apply (val_inj 8); [done | apply limbs_replicate | by rewrite val_replicate]).
    split; [intros _; exists 0; by vm_compute |]. exists 0, (replicate 8 0). split_and!; by vm_compute.
  - unfold fits in Hf. assert (0 < val a) as Hv by lia.
    destruct (norm_value a Ha Hv) as (Hcf & Hneg & _ & Hlo & Hhi & Hex). rewrite GetCompact_ok by done.
    set (c' := _ .| _) in *. pose proof (compact_value_nonneg c') as Hnn.
    destruct (Hdec c' Hcf Hneg ltac:(lia) Hnn) as (a' & E' & Hl' & Ev'). split.
    + intros E. exists c'. split; [done |]. rewrite E'. do 2 f_equal. apply (val_inj 8); [done | done |].
      rewrite Ev'. apply (Hex (compact_mant c) (compact_size c - 3)); [apply mant_bound |].
      destruct (SetCompact_ok c Hc) as (a2 & E2 & _ & Ev2). rewrite E in E2. injection E2 as <- _ Ho.
      rewrite Ev2. apply wrap_id. symmetry in Ho. apply Z.leb_gt in Ho. split; [| done].
      apply compact_value_nonneg.
    + exists c', a'. rewrite Ev'. split_and!; [done | done | lia | lia].
Qed.

Lemma compact_roundtrip_witness :
  exists c', GetCompact (SetCompact 0x1d00ffff).1.1 false = Some c' /\
    SetCompact c' = ((SetCompact 0x1d00ffff).1.1, false, false).
Proof.
  apply (compact_roundtrip (SetCompact 0x1d00ffff).1.1 0x1d00ffff);
    [| by unfold fits | vm_compute; reflexivity].
  destruct (SetCompact_ok 0x1d00ffff) as (a & E & Hl & _); [by unfold fits |]. rewrite E. exact Hl.
Defined.

(** C28. [CheckProofOfWork] accepts a hash exactly when the bits encode a positive target that
    fits 256 bits and does not exceed the limit, and the hash, read as a little-endian
    number, does not exceed the target. *)
Theorem check_proof_of_work_correct hash nBits powLimit :
  length hash = 32%nat -> Forall (fits 8) hash -> length powLimit = 32%nat -> Forall (fits 8) powLimit ->
  fits 32 nBits ->
  CheckProofOfWork hash nBits powLimit = true <->
  compact_neg nBits = false /\ 0 < compact_value nBits <= le_value powLimit /\
  le_value hash <= compact_value nBits.
Proof. apply CheckProofOfWork_ok. Qed.

Lemma check_proof_of_work_correct_witness :
  CheckProofOfWork (replicate 28 7 ++ replicate 4 0) 0x1d00ffff (replicate 28 255 ++ [0; 0; 0; 0]) = true <->
  compact_neg 0x1d00ffff = false /\
  0 < compact_value 0x1d00ffff <= le_value (replicate 28 255 ++ [0; 0; 0; 0]) /\
  le_value (replicate 28 7 ++ replicate 4 0) <= compact_value 0x1d00ffff.
Proof.
  apply (check_proof_of_work_correct (replicate 28 7 ++ replicate 4 0) 0x1d00ffff (replicate 28 255 ++ [0; 0; 0; 0]));
    [reflexivity | | reflexivity | | by unfold fits].
  - apply Forall_app_2; apply Forall_replicate; by unfold fits.
  - apply Forall_app_2; [apply Forall_replicate; by unfold fits | forall_build ltac:(by unfold fits)].
Defined.

(** The work [GetBlockProof] credits a block is the expected number of hashes
    [floor(2^256 / (target + 1))], though [2^256] has no representation; a negative, zero
    or overflowing target has no work, and the division never throws. *)
Theorem block_proof_correct nBits :
  fits 32 nBits ->
  exists p, GetBlockProof nBits = Some p /\ limbs 8 p /\
    val p = (if (negb (compact_neg nBits) && (0 <? compact_value nBits) && (compact_value nBits <? 2 ^ 256))%bool
             then 2 ^ 256 / (compact_value nBits + 1) else 0).
Proof. apply block_proof_value. Qed.

Lemma block_proof_correct_witness :
  exists p, GetBlockProof 0x1d00ffff = Some p /\ limbs 8 p /\
    val p = (if (negb (compact_neg 0x1d00ffff) && (0 <? compact_value 0x1d00ffff) && (compact_value 0x1d00ffff <? 2 ^ 256))%bool
             then 2 ^ 256 / (compact_value 0x1d00ffff + 1) else 0).
Proof. apply (block_proof_correct 0x1d00ffff). by unfold fits. Defined.

Lemma bitlen_le x n : 0 <= n -> 0 <= x -> (n <? bitlen x) = (2 ^ n <=? x).
Proof.
  intros Hn Hx. destruct (decide (x = 0)) as [->|H0].
  { change (bitlen 0) with 0. rewrite (proj2 (Z.ltb_ge n 0)) by done. symmetry. apply Z.leb_gt. by apply pow2_pos. }
  pose proof (bitlen_spec x ltac:(lia)) as [H1 H2]. destruct (Z.ltb_spec n (bitlen x)) as [H|H].
  - symmetry. apply Z.leb_le. etransitivity; [| exact H1]. apply Z.pow_le_mono_r; lia.
  - symmetry. apply Z.leb_gt. eapply Z.lt_le_trans; [exact H2 |]. apply Z.pow_le_mono_r; lia.
Qed.

Lemma to_int64_sign r : 0 <= r < 2 ^ 63 -> to_int64 (u64 1 * r) = r /\ to_int64 (u64 (-1) * r) = - r.
Proof.
  intros Hr. unfold to_int64. change (u64 1) with 1. change (u64 (-1)) with (2 ^ 64 - 1). split.
  - rewrite Z.mul_1_l, wrap_id by (unfold fits; lia). by rewrite (proj2 (Z.ltb_lt _ _)) by lia.
  - unfold wrap. destruct (decide (r = 0)) as [->|H0]; [done |].
    replace ((2 ^ 64 - 1) * r) with (2 ^ 64 - r + (r - 1) * 2 ^ 64) by lia.
    rewrite Z.mod_add, Z.mod_small by lia. rewrite (proj2 (Z.ltb_ge _ _)) by lia. lia.
Qed.

(** [GetBlockProofEquivalentTime] converts a difference of chain work into seconds at the
    work of the tip, [|to - from| * spacing / work] with the sign of the difference, and
    saturates at the largest [int64_t]; a tip without work makes it throw. *)
Theorem block_proof_equivalent_time_correct to from nBits spacing work :
  limbs 8 to -> limbs 8 from -> fits 63 spacing -> GetBlockProof nBits = Some work -> limbs 8 work ->
  Z.abs (val to - val from) * spacing < 2 ^ 256 ->
  GetBlockProofEquivalentTime to from nBits spacing =
  if val work =? 0 then None
  else Some ((if val from <? val to then 1 else -1) *
             Z.min (2 ^ 63 - 1) (Z.abs (val to - val from) * spacing / val work)).
Proof.
  intros Ht Hf Hs Hw Hwl Hsmall. unfold GetBlockProofEquivalentTime. rewrite op_gt_ok by done.
  pose proof (limbs8 _ Ht) as Htf. pose proof (limbs8 _ Hf) as Hff. unfold fits in Hs, Htf, Hff.
  assert (exists r, (if val from <? val to then (op_sub to from, 1) else (op_sub from to, -1)) =
    (r, if val from <? val to then 1 else -1) /\ limbs 8 r /\ val r = Z.abs (val to - val from)) as (r & -> & Hr & Er).
  { destruct (Z.ltb_spec (val from) (val to)); eexists; (split; [done |]).
    - destruct (op_sub_ok 8 to from) as [Hl E]; [done.. |]. split; [done |].
      change (32 * Z.of_nat 8) with 256 in E. rewrite E, wrap_id; [lia | unfold fits; lia].
    - destruct (op_sub_ok 8 from to) as [Hl E]; [done.. |]. split; [done |].
      change (32 * Z.of_nat 8) with 256 in E. rewrite E, wrap_id; [lia | unfold fits; lia]. }
  rewrite Hw, obind_Some, (wrap_id 64 spacing) by (unfold fits; lia).
  destruct (of_ok spacing) as [Hsl Es]; [unfold fits; lia |].
  destruct (op_mul_ok 8 r _ ltac:(lia) Hr Hsl) as [Hm Em].
  change (32 * Z.of_nat 8) with 256 in Em. rewrite Er, Es, wrap_id in Em by (unfold fits; lia).
  pose proof (op_div_ok 8 _ work ltac:(lia) Hm Hwl) as Hd. destruct (Z.eqb_spec (val work) 0) as [E0|E0]; [by rewrite Hd |].
  destruct Hd as (q & -> & Hq & Eq). rewrite obind_Some, op_bits_ok, GetLow64_ok by done. f_equal.
  rewrite <- Em, <- Eq. pose proof (limbs8 _ Hq) as Hqf. unfold fits in Hqf.
  rewrite bitlen_le by lia. destruct (Z.leb_spec (2 ^ 63) (val q)) as [H|H].
  - rewrite Z.min_l by lia. done.
  - rewrite Z.min_r, Z.mod_small by lia. destruct (to_int64_sign (val q)) as [E1 E2]; [lia |].
    destruct (val from <? val to); [rewrite E1 | rewrite E2]; lia.
Qed.

Lemma block_proof_equivalent_time_correct_witness :
  GetBlockProofEquivalentTime ten three 0x207fffff 150 =
  Some (1 * Z.min (2 ^ 63 - 1) (Z.abs (val ten - val three) * 150 / val (arith_uint256_of 2))).
Proof.
  apply (block_proof_equivalent_time_correct ten three 0x207fffff 150 (arith_uint256_of 2));
    [exact ten_limbs | exact three_limbs | by unfold fits | vm_compute; reflexivity
    | apply of_ok; by unfold fits | vm_compute; reflexivity].
Defined.
