(* ===== verification/BlockIndex.v ===== *)
(** * The block index: chain.h, chain.cpp, primitives/block.cpp and AddToBlockIndex of main.cpp

    Index entries live in a heap and point to each other ([pprev], [pskip]); a [CBlockIndex*]
    is an [option positive], [None] being NULL.  Reading through NULL or a dangling pointer
    is undefined behaviour and makes an operation [None], and so does a loop that outlives
    its fuel.  The zerocoin and sigma fields of an entry, its file positions and its
    transaction counts are not read by these operations and are left out. *)

From stdpp Require Import gmap sorting.
From S2P Require Import Prelude MdHash Hash ArithUint Pow.
#[local] Open Scope Z_scope.

(** ** Headers (primitives/block.h) *)

Record CBlockHeader := mkHeader {
  h_nVersion : Z;
  hashPrevBlock : list Z;
  h_hashMerkleRoot : list Z;
  h_nTime : Z;
  h_nBits : Z;
  h_nNonce : Z;
}.

(** The chunks [SerializationOp] writes; [nVersion] is an [int32_t]. *)
Definition SerializationOp (b : CBlockHeader) : list (list Z) :=
  [le_bytes 4 (h_nVersion b); hashPrevBlock b; h_hashMerkleRoot b;
   le_bytes 4 (h_nTime b); le_bytes 4 (h_nBits b); le_bytes 4 (h_nNonce b)].

(** [SerializeHash] of the header; [g] is the indeterminate buffer of the fresh hasher. *)
Definition GetHash (g : list Z) (b : CBlockHeader) : option (list Z) := Hash g (SerializationOp b).

(** ** Index entries (chain.h) *)

Record CBlockIndex := mkIndex {
  phashBlock : list Z;
  pprev : option positive;
  pskip : option positive;
  nHeight : Z;
  nChainWork : base_uint;
  nStatus : Z;
  nVersion : Z;
  hashMerkleRoot : list Z;
  nTime : Z;
  nBits : Z;
  nNonce : Z;
  nSequenceId : Z;
}.

Abbreviation heap := (gmap positive CBlockIndex).

(** [CBlockIndex(const CBlockHeader& block)]. *)
Definition CBlockIndex_new (block : CBlockHeader) : CBlockIndex :=
  mkIndex [] None None 0 (base_uint_new 8) 0 (h_nVersion block) (h_hashMerkleRoot block)
          (h_nTime block) (h_nBits block) (h_nNonce block) 0.

Definition set_hash (b : CBlockIndex) h := mkIndex h (pprev b) (pskip b) (nHeight b) (nChainWork b) (nStatus b)
  (nVersion b) (hashMerkleRoot b) (nTime b) (nBits b) (nNonce b) (nSequenceId b).
Definition set_prev (b : CBlockIndex) p h := mkIndex (phashBlock b) p (pskip b) h (nChainWork b) (nStatus b)
  (nVersion b) (hashMerkleRoot b) (nTime b) (nBits b) (nNonce b) (nSequenceId b).
Definition set_skip (b : CBlockIndex) s := mkIndex (phashBlock b) (pprev b) s (nHeight b) (nChainWork b) (nStatus b)
  (nVersion b) (hashMerkleRoot b) (nTime b) (nBits b) (nNonce b) (nSequenceId b).
Definition set_work (b : CBlockIndex) w := mkIndex (phashBlock b) (pprev b) (pskip b) (nHeight b) w (nStatus b)
  (nVersion b) (hashMerkleRoot b) (nTime b) (nBits b) (nNonce b) (nSequenceId b).
Definition set_status (b : CBlockIndex) s := mkIndex (phashBlock b) (pprev b) (pskip b) (nHeight b) (nChainWork b) s
  (nVersion b) (hashMerkleRoot b) (nTime b) (nBits b) (nNonce b) (nSequenceId b).

Definition BLOCK_VALID_TREE : Z := 2.
Definition BLOCK_VALID_MASK : Z := 7.
Definition BLOCK_FAILED_MASK : Z := 96.

(** The failed [assert] is [None]. *)
Definition RaiseValidity (nUpTo : Z) (b : CBlockIndex) : option (bool * CBlockIndex) :=
  if negb (Z.land nUpTo (u32 (Z.lnot BLOCK_VALID_MASK)) =? 0) then None
  else if negb (Z.land (nStatus b) BLOCK_FAILED_MASK =? 0) then Some (false, b)
  else if Z.land (nStatus b) BLOCK_VALID_MASK <? nUpTo then
    Some (true, set_status b (Z.land (nStatus b) (u32 (Z.lnot BLOCK_VALID_MASK)) .| nUpTo))
  else Some (false, b).

Definition GetBlockTime (b : CBlockIndex) : Z := nTime b.

(** ** Skip list (chain.cpp) *)

Definition InvertLowestOne (n : Z) : Z := Z.land n (n - 1).

Definition GetSkipHeight (height : Z) : Z :=
  if height <? 2 then 0
  else if negb (Z.land height 1 =? 0) then InvertLowestOne (InvertLowestOne (height - 1)) + 1
  else InvertLowestOne height.

Section Heap.
Context (H : heap).

(** [p->..]. *)
Definition deref (p : option positive) : option CBlockIndex := q ← p; H !! q.

Fixpoint ancestor_loop (fuel : nat) (height : Z) (pindexWalk : option positive) (heightWalk : Z)
    : option (option positive) :=
  if height <? heightWalk then
    match fuel with
    | O => None
    | S fuel =>
        let heightSkip := GetSkipHeight heightWalk in
        let heightSkipPrev := GetSkipHeight (heightWalk - 1) in
        b ← deref pindexWalk;
        match pskip b with
        | Some s =>
            if (heightSkip =? height) ||
               ((height <? heightSkip) &&
                negb ((heightSkipPrev <? heightSkip - 2) && (height <=? heightSkipPrev)))
            then ancestor_loop fuel height (Some s) heightSkip
            else ancestor_loop fuel height (pprev b) (heightWalk - 1)
        | None => ancestor_loop fuel height (pprev b) (heightWalk - 1)
        end
    end
  else Some pindexWalk.

Definition GetAncestor (this : positive) (height : Z) : option (option positive) :=
  b ← H !! this;
  if (nHeight b <? height) || (height <? 0) then Some None
  else ancestor_loop (Z.to_nat (nHeight b)) height (Some this) (nHeight b).

(** [BuildSkip()] on an entry. *)
Definition BuildSkip (b : CBlockIndex) : option CBlockIndex :=
  match pprev b with
  | None => Some b
  | Some q => s ← GetAncestor q (GetSkipHeight (nHeight b)); Some (set_skip b s)
  end.

(** The times of at most [n] entries from [pindex] back, oldest first. *)
Fixpoint past_times (n : nat) (pindex : option positive) (acc : list Z) : option (list Z) :=
  match n, pindex with
  | S n, Some p => b ← H !! p; past_times n (pprev b) (GetBlockTime b :: acc)
  | _, _ => Some acc
  end.

Definition nMedianTimeSpan : nat := 11.

(** [std::sort] leaves the sorted permutation. *)
Definition GetMedianTimePast (this : positive) : option Z :=
  times ← past_times nMedianTimeSpan (Some this) [];
  let sorted := merge_sort Z.le times in
  sorted !! (length sorted / 2)%nat.

(** ** CChain: the vector [vChain] *)

Definition chain_at (vChain : list (option positive)) (h : Z) : option positive :=
  if (h <? 0) || (Z.of_nat (length vChain) <=? h) then None else default None (vChain !! Z.to_nat h).

Definition Genesis (vChain : list (option positive)) : option positive :=
  if (0 <? length vChain)%nat then default None (vChain !! 0%nat) else None.

Definition Tip (vChain : list (option positive)) : option positive :=
  if (0 <? length vChain)%nat then default None (vChain !! (length vChain - 1)%nat) else None.

Definition Height (vChain : list (option positive)) : Z := Z.of_nat (length vChain) - 1.

Definition Contains (vChain : list (option positive)) (pindex : positive) : option bool :=
  b ← H !! pindex; Some (bool_decide (chain_at vChain (nHeight b) = Some pindex)).

Definition Next (vChain : list (option positive)) (pindex : positive) : option (option positive) :=
  b ← H !! pindex;
  c ← Contains vChain pindex;
  Some (if (c : bool) then chain_at vChain (nHeight b + 1) else None).

(** [while (pindex && vChain[pindex->nHeight] != pindex)]. *)
Fixpoint settip_loop (fuel : nat) (vChain : list (option positive)) (pindex : option positive)
    : option (list (option positive)) :=
  match pindex with
  | None => Some vChain
  | Some p =>
      b ← H !! p;
      x ← vChain !! Z.to_nat (nHeight b);
      if decide (x = Some p) then Some vChain
      else match fuel with
           | O => None
           | S fuel => settip_loop fuel (<[Z.to_nat (nHeight b) := Some p]> vChain) (pprev b)
           end
  end.

Definition SetTip (vChain : list (option positive)) (pindex : option positive) : option (list (option positive)) :=
  match pindex with
  | None => Some []
  | Some p =>
      b ← H !! p;
      let n := Z.to_nat (nHeight b + 1) in
      settip_loop n (take n vChain ++ replicate (n - length vChain) None) (Some p)
  end.

(** [while (pindex && !Contains(pindex)) pindex = pindex->pprev;] *)
Fixpoint fork_loop (fuel : nat) (vChain : list (option positive)) (pindex : option positive)
    : option (option positive) :=
  match pindex with
  | None => Some None
  | Some p =>
      c ← Contains vChain p;
      if (c : bool) then Some (Some p)
      else match fuel with
           | O => None
           | S fuel => b ← H !! p; fork_loop fuel vChain (pprev b)
           end
  end.

Definition FindFork (vChain : list (option positive)) (pindex : option positive) : option (option positive) :=
  match pindex with
  | None => Some None
  | Some p =>
      b ← H !! p;
      q ← (if Height vChain <? nHeight b then GetAncestor p (Height vChain) else Some (Some p));
      fork_loop (Z.to_nat (nHeight b) + 1) vChain q
  end.

(** The loop of [GetLocator]; [nStep] is an [int], its overflow is undefined. *)
Fixpoint locator_loop (fuel : nat) (vChain : list (option positive)) (nStep : Z) (vHave : list (list Z))
    (pindex : option positive) : option (list (list Z)) :=
  match pindex with
  | None => Some vHave
  | Some p =>
      b ← H !! p;
      let vHave := vHave ++ [phashBlock b] in
      if nHeight b =? 0 then Some vHave
      else
        let h := Z.max (nHeight b - nStep) 0 in
        c ← Contains vChain p;
        next ← (if (c : bool) then Some (chain_at vChain h) else GetAncestor p h);
        nStep ← (if (10 <? length vHave)%nat
                 then if nStep * 2 <? 2 ^ 31 then Some (nStep * 2) else None
                 else Some nStep);
        match fuel with
        | O => None
        | S fuel => locator_loop fuel vChain nStep vHave next
        end
  end.

Definition GetLocator (vChain : list (option positive)) (pindex : option positive) : option (list (list Z)) :=
  let pindex := match pindex with None => Tip vChain | _ => pindex end in
  match pindex with
  | None => Some []
  | Some p => b ← H !! p; locator_loop (Z.to_nat (nHeight b)) vChain 1 [] (Some p)
  end.

End Heap.

(** ** The index of main.cpp *)

Record index := mkIdx {
  ix_heap : heap;
  mapBlockIndex : gmap (list Z) positive;
  pindexBestHeader : option positive;
  setDirtyBlockIndex : gset positive;
}.

(** [ZerocoinGetNHeight(block)]. *)
Definition ZerocoinGetNHeight (ix : index) (block : CBlockHeader) : option Z :=
  match mapBlockIndex ix !! hashPrevBlock block with
  | Some q => b ← ix_heap ix !! q; Some (nHeight b + 1)
  | None => Some 0
  end.

(** [new] returns an address not in use. *)
Definition AddToBlockIndex (g : list Z) (block : CBlockHeader) (ix : index) : option (positive * index) :=
  hash ← GetHash g block;
  match mapBlockIndex ix !! hash with
  | Some p => Some (p, ix)
  | None =>
      let pindexNew := fresh (dom (ix_heap ix)) in
      let b := set_hash (CBlockIndex_new block) hash in
      let m := <[hash := pindexNew]> (mapBlockIndex ix) in
      let H0 := <[pindexNew := b]> (ix_heap ix) in
      b ← match m !! hashPrevBlock block with
          | Some q => prev ← H0 !! q; BuildSkip H0 (set_prev b (Some q) (nHeight prev + 1))
          | None => Some b
          end;
      let H1 := <[pindexNew := b]> (ix_heap ix) in
      work ← match pprev b with
             | Some q => prev ← H1 !! q; Some (nChainWork prev)
             | None => Some (arith_uint256_of 0)
             end;
      proof ← GetBlockProof (nBits b);
      '(_, b) ← RaiseValidity BLOCK_VALID_TREE (set_work b (op_add work proof));
      let H2 := <[pindexNew := b]> (ix_heap ix) in
      best ← match pindexBestHeader ix with
             | None => Some (Some pindexNew)
             | Some q => bb ← H2 !! q;
                 Some (if op_lt 8 (nChainWork bb) (nChainWork b) then Some pindexNew else Some q)
             end;
      Some (pindexNew, mkIdx H2 m best ({[pindexNew]} ∪ setDirtyBlockIndex ix))
  end.
