(* ===== verification/BlockIndexProofs.v ===== *)
(** * The block index: ancestors, active chain, forks and locators

    [back H n p] walks [n] steps along [pprev]; it is what the skip list computes faster.
    [chain_wf] is the invariant of the index entries.  Forks and locators are the second
    part. *)

From stdpp Require Import gmap sorting.
From S2P Require Import Prelude MdHash Hash ArithUint Pow BlockIndex.
#[local] Open Scope Z_scope.

(** ** Walking back *)

Fixpoint back (H : heap) (n : nat) (p : positive) : option positive :=
  match n with
  | O => Some p
  | S n => b ← H !! p; q ← pprev b; back H n q
  end.

(** The ancestor at a height, by walking. *)
Definition ancestor (H : heap) (p : positive) (h : Z) : option positive :=
  b ← H !! p;
  if (nHeight b <? h) || (h <? 0) then None else back H (Z.to_nat (nHeight b - h)) p.

Record entry_ok (H : heap) (p : positive) (b : CBlockIndex) : Prop := {
  eo_height : 0 <= nHeight b;
  eo_prev : match pprev b with
            | None => nHeight b = 0
            | Some q => exists b', H !! q = Some b' /\ nHeight b = nHeight b' + 1
            end;
  eo_skip : forall s, pskip b = Some s ->
    back H (Z.to_nat (nHeight b - GetSkipHeight (nHeight b))) p = Some s;
}.

Definition chain_wf (H : heap) : Prop := map_Forall (entry_ok H) H.

(** ** Skip heights *)

Lemma land_le_r x y : 0 <= x -> 0 <= y -> 0 <= Z.land x y <= y.
Proof.
  intros Hx Hy. split; [apply Z.land_nonneg; by right |].
  assert (0 <= y - Z.land x y); [| lia]. rewrite Z.sub_nocarry_ldiff.
  - apply Z.ldiff_nonneg. by left.
  - apply Z.bits_inj'. intros n Hn. rewrite Z.ldiff_spec, Z.land_spec, Z.testbit_0_l.
    by destruct (Z.testbit x n), (Z.testbit y n).
Qed.

Lemma invert_bound n : 1 <= n -> 0 <= InvertLowestOne n <= n - 1.
Proof. intros Hn. apply land_le_r; lia. Qed.

(** The skip goes strictly back. *)
Lemma skip_bound h : 1 <= h -> 0 <= GetSkipHeight h < h.
Proof.
  intros Hh. unfold GetSkipHeight. destruct (Z.ltb_spec h 2) as [H2|H2]; [lia |].
  destruct (negb _) eqn:E; [| pose proof (invert_bound h); lia].
  pose proof (invert_bound (h - 1) ltac:(lia)) as H1.
  destruct (decide (InvertLowestOne (h - 1) = 0)) as [->|H0].
  - change (InvertLowestOne 0) with 0. split; [lia |].
    destruct (decide (h = 2)) as [->|]; [discriminate E | lia].
  - pose proof (invert_bound (InvertLowestOne (h - 1)) ltac:(lia)). lia.
Qed.

(** ** Ancestors *)

Lemma back_add H m n p : back H (m + n) p = back H m p ≫= back H n.
Proof.
  revert p. induction m as [|m IH]; intros p; [done |]. cbn [Nat.add back].
  destruct (H !! p) as [b|]; [| done]. cbn. destruct (pprev b) as [q|]; [| done]. apply IH.
Qed.

Lemma back_mono H H' n p q : H ⊆ H' -> back H n p = Some q -> back H' n p = Some q.
Proof.
  intros Hs. revert p. induction n as [|n IH]; intros p; [done |]. cbn [back].
  destruct (H !! p) as [b|] eqn:E; [| done]. rewrite (lookup_weaken _ _ _ _ E Hs). cbn.
  destruct (pprev b) as [r|]; [| done]. apply IH.
Qed.

Section Wf.
Context (H : heap) (Hwf : chain_wf H).

Lemma entry p b : H !! p = Some b -> entry_ok H p b.
Proof using Hwf. apply Hwf. Qed.

(** Walking back [n] steps is possible down to height zero, and lands [n] lower. *)
Lemma back_some n p b :
  H !! p = Some b -> Z.of_nat n <= nHeight b ->
  exists q b', back H n p = Some q /\ H !! q = Some b' /\ nHeight b' = nHeight b - Z.of_nat n.
Proof using Hwf.
  revert p b. induction n as [|n IH]; intros p b Hp Hn; [exists p, b; split_and!; [done | done | lia] |].
  cbn [back]. rewrite Hp. cbn. pose proof (eo_prev _ _ _ (entry p b Hp)) as Hprev.
  destruct (pprev b) as [q|]; [| lia]. destruct Hprev as (b' & Hq & Eh). cbn.
  destruct (IH q b' Hq ltac:(lia)) as (r & b'' & E & Hr & Er). exists r, b''. split_and!; [done | done | lia].
Qed.

Lemma back_height n p b q :
  H !! p = Some b -> back H n p = Some q ->
  Z.of_nat n <= nHeight b /\ exists b', H !! q = Some b' /\ nHeight b' = nHeight b - Z.of_nat n.
Proof using Hwf.
  revert p b. induction n as [|n IH]; intros p b Hp Hn.
  - injection Hn as <-. pose proof (eo_height _ _ _ (entry p b Hp)). split; [lia |]. exists b. split; [done | lia].
  - cbn [back] in Hn. rewrite Hp in Hn. cbn in Hn. pose proof (eo_prev _ _ _ (entry p b Hp)) as Hprev.
    destruct (pprev b) as [r|]; [| done]. destruct Hprev as (b' & Hr & Eh). cbn in Hn.
    destruct (IH r b' Hr Hn) as (Hle & b'' & Hq & Eq). split; [lia |]. exists b''. split; [done | lia].
Qed.

(** From an ancestor on. *)
Lemma back_from p b h h' w :
  H !! p = Some b -> 0 <= h' <= h -> h <= nHeight b -> back H (Z.to_nat (nHeight b - h)) p = Some w ->
  back H (Z.to_nat (nHeight b - h')) p = back H (Z.to_nat (h - h')) w.
Proof.
  intros Hp Hh Hhb E. replace (Z.to_nat (nHeight b - h')) with (Z.to_nat (nHeight b - h) + Z.to_nat (h - h'))%nat by lia.
  by rewrite back_add, E.
Qed.

Lemma ancestor_loop_ok p b fuel height w hw :
  H !! p = Some b -> 0 <= height <= hw -> hw <= nHeight b ->
  back H (Z.to_nat (nHeight b - hw)) p = Some w -> hw - height <= Z.of_nat fuel ->
  ancestor_loop H fuel height (Some w) hw = Some (back H (Z.to_nat (nHeight b - height)) p).
Proof using Hwf.
  intros Hp. revert w hw. induction fuel as [|fuel IH]; intros w hw Hh Hhw Ew Hf; cbn [ancestor_loop].
  - assert (hw = height) as -> by lia. rewrite Z.ltb_irrefl, Ew. done.
  - destruct (Z.ltb_spec height hw) as [Hlt|Hge]; [| assert (hw = height) as -> by lia; by rewrite Ew].
    destruct (back_height _ _ _ _ Hp Ew) as (_ & bw & Hw & Ehw).
    assert (nHeight bw = hw) as Ebw by lia. unfold deref. rewrite obind_Some, Hw, obind_Some.
    assert (Hstep : ancestor_loop H fuel height (pprev bw) (hw - 1) = Some (back H (Z.to_nat (nHeight b - height)) p)).
    { pose proof (eo_prev _ _ _ (entry w bw Hw)) as Hprev. destruct (pprev bw) as [q|] eqn:Eq; [| lia].
      apply IH; [lia | lia | | lia].
      replace (Z.to_nat (nHeight b - (hw - 1))) with (Z.to_nat (nHeight b - hw) + 1)%nat by lia.
      rewrite back_add, Ew, obind_Some. cbn [back]. rewrite Hw, obind_Some, Eq. done. }
    pose proof (eo_skip _ _ _ (entry w bw Hw)) as Hskip. destruct (pskip bw) as [s|]; [| done].
    specialize (Hskip s eq_refl). rewrite Ebw in Hskip.
    destruct (_ || _) eqn:Ec; [| done]. pose proof (skip_bound hw ltac:(lia)) as Hsb.
    assert (height <= GetSkipHeight hw) as Hge.
    { apply orb_true_iff in Ec as [Ec|Ec]; [apply Z.eqb_eq in Ec; lia |].
      apply andb_true_iff in Ec as [Ec _]. apply Z.ltb_lt in Ec. lia. }
    apply IH; [lia | lia | | lia]. rewrite (back_from p b hw (GetSkipHeight hw) w) by (done || lia). done.
Qed.

Lemma GetAncestor_ok p b h : H !! p = Some b -> GetAncestor H p h = Some (ancestor H p h).
Proof using Hwf.
  intros Hp. unfold GetAncestor, ancestor. rewrite Hp, !obind_Some.
  destruct (Z.ltb_spec (nHeight b) h) as [H1|H1], (Z.ltb_spec h 0) as [H2|H2]; cbn [orb]; try done.
  apply ancestor_loop_ok; [done | lia | lia | by rewrite Z.sub_diag | lia].
Qed.

Lemma ancestor_in p b h :
  H !! p = Some b -> 0 <= h <= nHeight b ->
  exists q b', ancestor H p h = Some q /\ H !! q = Some b' /\ nHeight b' = h /\
    back H (Z.to_nat (nHeight b - h)) p = Some q.
Proof using Hwf.
  intros Hp Hh. destruct (back_some (Z.to_nat (nHeight b - h)) p b Hp) as (q & b' & E & Hq & Eh); [lia |].
  exists q, b'. unfold ancestor. rewrite Hp, obind_Some.
  rewrite (proj2 (Z.ltb_ge _ h)), (proj2 (Z.ltb_ge h 0)) by lia. cbn [orb]. split_and!; [done | done | lia | done].
Qed.

(** Ancestors of an ancestor. *)
Lemma ancestor_trans p b h h' q :
  H !! p = Some b -> ancestor H p h = Some q -> h' <= h -> ancestor H q h' = ancestor H p h'.
Proof using Hwf.
  intros Hp Eq Hh. assert (0 <= h <= nHeight b) as Hr.
  { unfold ancestor in Eq. rewrite Hp, obind_Some in Eq.
    destruct (Z.ltb_spec (nHeight b) h), (Z.ltb_spec h 0); cbn [orb] in Eq; try done; lia. }
  destruct (ancestor_in p b h Hp Hr) as (q' & b' & E & Hq & Ehb & Eb). rewrite Eq in E. injection E as <-.
  unfold ancestor. rewrite Hq, Hp, !obind_Some, Ehb.
  rewrite (proj2 (Z.ltb_ge h h')), (proj2 (Z.ltb_ge (nHeight b) h')) by lia.
  destruct (Z.ltb_spec h' 0); cbn [orb]; [done |]. symmetry. apply back_from; (done || lia).
Qed.

Lemma ancestor_self p b : H !! p = Some b -> ancestor H p (nHeight b) = Some p.
Proof using Hwf.
  intros Hp. pose proof (eo_height _ _ _ (entry p b Hp)). unfold ancestor.
  rewrite Hp, obind_Some, Z.ltb_irrefl, (proj2 (Z.ltb_ge _ 0)), Z.sub_diag by lia. done.
Qed.

Lemma ancestor_pprev p b : H !! p = Some b -> pprev b = ancestor H p (nHeight b - 1).
Proof using Hwf.
  intros Hp. pose proof (eo_prev _ _ _ (entry p b Hp)) as Hprev. pose proof (eo_height _ _ _ (entry p b Hp)) as Hnn.
  unfold ancestor. rewrite Hp, obind_Some, (proj2 (Z.ltb_ge (nHeight b) _)) by lia.
  destruct (Z.ltb_spec (nHeight b - 1) 0) as [H0|H0]; cbn [orb].
  - destruct (pprev b) as [q|]; [| done]. destruct Hprev as (b' & Hq & E).
    pose proof (eo_height _ _ _ (entry q b' Hq)). lia.
  - replace (Z.to_nat (nHeight b - (nHeight b - 1))) with 1%nat by lia. cbn [back]. rewrite Hp. cbn.
    by destruct (pprev b).
Qed.

(** ** The active chain *)

(** Every entry of the vector has the chain below it in the vector. *)
Definition chain_pre (v : list (option positive)) : Prop :=
  forall k q, v !! k = Some (Some q) ->
    exists b, H !! q = Some b /\ nHeight b = Z.of_nat k /\
      forall i, (i <= k)%nat -> v !! i = Some (ancestor H q (Z.of_nat i)).

(** The vector of a tip: its ancestors at the heights from 0. *)
Definition path (p : positive) (n : nat) : list (option positive) :=
  (fun i => ancestor H p (Z.of_nat i)) <$> seq 0 (S n).

Definition chain_of (v : list (option positive)) (tip : option positive) : Prop :=
  match tip with
  | None => v = []
  | Some p => exists b, H !! p = Some b /\ v = path p (Z.to_nat (nHeight b))
  end.

Lemma path_lookup p n i : (i <= n)%nat -> path p n !! i = Some (ancestor H p (Z.of_nat i)).
Proof. intros Hi. unfold path. rewrite list_lookup_fmap, lookup_seq_lt by lia. done. Qed.

Lemma path_pre p b : H !! p = Some b -> chain_pre (path p (Z.to_nat (nHeight b))).
Proof using Hwf.
  intros Hp k q Hk. pose proof (eo_height _ _ _ (entry p b Hp)) as Hnn.
  assert (k <= Z.to_nat (nHeight b))%nat as Hkn.
  { apply lookup_lt_Some in Hk. unfold path in Hk. rewrite length_fmap, length_seq in Hk. lia. }
  rewrite path_lookup in Hk by done. injection Hk as Eq.
  destruct (ancestor_in p b (Z.of_nat k) Hp ltac:(lia)) as (q' & b' & E & Hq & Eh & _).
  rewrite Eq in E. injection E as <-. exists b'. split_and!; [done | done |]. intros i Hi.
  rewrite path_lookup by lia. by rewrite (ancestor_trans p b (Z.of_nat k) (Z.of_nat i) q Hp Eq ltac:(lia)).
Qed.

Lemma chain_of_pre v tip : chain_of v tip -> chain_pre v.
Proof using Hwf.
  destruct tip as [p|]; [intros (b & Hp & ->); by apply path_pre | intros ->; by intros k q].
Qed.

(** Shrinking and growing keep the part that is there. *)
Lemma resize_pre v n : chain_pre v -> chain_pre (take n v ++ replicate (n - length v) None).
Proof.
  intros Hv k q Hk. apply lookup_app_Some in Hk as [Hk|[_ Hk]].
  2:{ apply lookup_replicate in Hk as [Hk _]. discriminate Hk. }
  pose proof (lookup_lt_Some _ _ _ Hk) as Hl. rewrite length_take in Hl.
  rewrite lookup_take_lt in Hk by lia. destruct (Hv k q Hk) as (b & Hq & Eh & Hi). exists b. split_and!; [done | done |].
  intros i Hik. rewrite lookup_app_l by (rewrite length_take; lia). rewrite lookup_take_lt by lia. by apply Hi.
Qed.

Lemma settip_loop_ok p b fuel v pindex k :
  H !! p = Some b -> length v = Z.to_nat (nHeight b + 1) -> -1 <= k <= nHeight b ->
  pindex = ancestor H p k -> chain_pre (take (Z.to_nat (k + 1)) v) ->
  (forall i, k < Z.of_nat i -> Z.of_nat i <= nHeight b -> v !! i = Some (ancestor H p (Z.of_nat i))) ->
  k + 1 <= Z.of_nat fuel ->
  settip_loop H fuel v pindex = Some (path p (Z.to_nat (nHeight b))).
Proof using Hwf.
  intros Hp. pose proof (eo_height _ _ _ (entry p b Hp)) as Hnn. revert v pindex k.
  assert (Hdone : forall v, length v = Z.to_nat (nHeight b + 1) ->
    (forall i, Z.of_nat i <= nHeight b -> v !! i = Some (ancestor H p (Z.of_nat i))) -> v = path p (Z.to_nat (nHeight b))).
  { intros v Hl Hv. apply list_eq_same_length with (n := Z.to_nat (nHeight b + 1)); [| done |].
    - unfold path. rewrite length_fmap, length_seq. lia.
    - intros i x y Hi Hx Hy. rewrite Hv in Hx by lia. rewrite path_lookup in Hy by lia. congruence. }
  induction fuel as [|fuel IH]; intros v pindex k Hl Hk -> Hpre Hv Hf.
  - assert (k = -1) as -> by lia. unfold ancestor. rewrite Hp, obind_Some, orb_comm. cbn [Z.ltb Z.compare orb settip_loop].
    f_equal. apply Hdone; [done |]. intros i Hi. apply Hv; lia.
  - destruct (decide (k = -1)) as [->|Hk1].
    { unfold ancestor. rewrite Hp, obind_Some, orb_comm. cbn [Z.ltb Z.compare orb settip_loop].
      f_equal. apply Hdone; [done |]. intros i Hi. apply Hv; lia. }
    destruct (ancestor_in p b k Hp ltac:(lia)) as (q & b' & E & Hq & Eh & _). rewrite E. cbn [settip_loop].
    rewrite Hq, obind_Some, Eh. destruct (lookup_lt_is_Some_2 v (Z.to_nat k)) as [x Hx]; [lia |].
    rewrite Hx, obind_Some. destruct (decide (x = Some q)) as [->|Hne].
    + f_equal. apply Hdone; [done |]. intros i Hi. destruct (decide (k < Z.of_nat i)) as [Hlt|Hge]; [by apply Hv |].
      destruct (Hpre (Z.to_nat k) q) as (b2 & _ & _ & Hi2); [by rewrite lookup_take_lt by lia |].
      specialize (Hi2 i ltac:(lia)). rewrite lookup_take_lt in Hi2 by lia. rewrite Hi2. f_equal.
      by rewrite (ancestor_trans p b k (Z.of_nat i) q Hp E ltac:(lia)).
    + apply (IH _ _ (k - 1)); [by rewrite length_insert | lia | | | | lia].
      * rewrite (ancestor_pprev q b' Hq), Eh. by apply (ancestor_trans p b k _ q Hp E); lia.
      * replace (Z.to_nat (k - 1 + 1)) with (Z.to_nat k) by lia. rewrite take_insert_ge by lia.
        replace (take (Z.to_nat k) v) with (take (Z.to_nat k) (take (Z.to_nat (k + 1)) v)) by (rewrite take_take; f_equal; lia).
        pose proof (resize_pre _ (Z.to_nat k) Hpre) as Hr. rewrite length_take in Hr.
        replace (Z.to_nat k - (Z.to_nat (k + 1) `min` length v))%nat with 0%nat in Hr by lia.
        by rewrite app_nil_r in Hr.
      * intros i Hki Hin. destruct (decide (i = Z.to_nat k)) as [->|].
        -- rewrite list_lookup_insert_eq by lia. rewrite Z2Nat.id by lia. by rewrite E.
        -- rewrite list_lookup_insert_ne by done. apply Hv; lia.
Qed.

Lemma SetTip_ok v tip p b :
  chain_of v tip -> H !! p = Some b -> SetTip H v (Some p) = Some (path p (Z.to_nat (nHeight b))).
Proof using Hwf.
  intros Hv Hp. pose proof (eo_height _ _ _ (entry p b Hp)) as Hnn. unfold SetTip. rewrite Hp, obind_Some.
  apply (settip_loop_ok p b _ _ _ (nHeight b)); [done | | lia | by rewrite ancestor_self | | lia | lia].
  - rewrite length_app, length_take, length_replicate. lia.
  - rewrite take_ge by (rewrite length_app, length_take, length_replicate; lia).
    eapply resize_pre, chain_of_pre, Hv.
Qed.

End Wf.

(** * The block index: forks and locators *)

#[local] Open Scope Z_scope.

(** The heights a locator names from height [h] on, [count] being named already. *)
Fixpoint locator_heights (fuel : nat) (step : Z) (count : nat) (h : Z) : list Z :=
  h :: if h =? 0 then []
       else match fuel with
            | O => []
            | S fuel => locator_heights fuel (if (10 <? S count)%nat then step * 2 else step) (S count)
                                        (Z.max (h - step) 0)
            end.

Section Chain.
Context (H : heap) (Hwf : chain_wf H) (v : list (option positive)) (tip : option positive).
Context (Hv : chain_of H v tip).

(** The entry of the chain at a height is the tip's ancestor. *)
Lemma chain_at_ok h :
  chain_at v h = match tip with Some t => ancestor H t h | None => None end.
Proof using Hwf Hv.
  unfold chain_at. destruct tip as [t|]; cbn [chain_of] in Hv.
  - destruct Hv as (b & Ht & ->). pose proof (eo_height _ _ _ (entry H Hwf t b Ht)) as Hnn.
    unfold path at 1. rewrite length_fmap, length_seq. unfold ancestor. rewrite Ht, obind_Some.
    destruct (Z.ltb_spec h 0) as [H0|H0]; cbn [orb]; [by rewrite orb_true_r |].
    rewrite orb_false_r. destruct (Z.leb_spec (Z.of_nat (S (Z.to_nat (nHeight b)))) h) as [H1|H1].
    + by rewrite (proj2 (Z.ltb_lt _ h)) by lia.
    + rewrite (proj2 (Z.ltb_ge _ h)) by lia. rewrite path_lookup by lia. cbn [default]. rewrite Z2Nat.id by lia.
      unfold ancestor. rewrite Ht, obind_Some, (proj2 (Z.ltb_ge _ h)), (proj2 (Z.ltb_ge h 0)) by lia. done.
  - rewrite Hv. destruct (h <? 0); [done |]. cbn [orb length]. by destruct (Z.of_nat 0 <=? h).
Qed.

Lemma Contains_ok p b :
  H !! p = Some b -> Contains H v p = Some (bool_decide (chain_at v (nHeight b) = Some p)).
Proof. intros Hp. unfold Contains. by rewrite Hp, obind_Some. Qed.

(** A block that is an ancestor of [p] and in the chain. *)
Definition common (p : positive) (h : Z) : Prop := exists q, ancestor H p h = Some q /\ chain_at v h = Some q.

(** The result of [FindFork] on [p]: the highest common block, if there is one. *)
Definition fork_point (p : positive) (r : option positive) : Prop :=
  match r with
  | Some f => exists h, ancestor H p h = Some f /\ chain_at v h = Some f /\ forall h', h < h' -> ~ common p h'
  | None => forall h', ~ common p h'
  end.

Lemma common_range p b h : H !! p = Some b -> common p h -> 0 <= h <= nHeight b /\ h <= Height v.
Proof.
  intros Hp (q & E1 & E2). unfold ancestor in E1. rewrite Hp, obind_Some in E1.
  destruct (Z.ltb_spec (nHeight b) h), (Z.ltb_spec h 0); cbn [orb] in E1; try done.
  unfold chain_at in E2. rewrite (proj2 (Z.ltb_ge h 0)) in E2 by lia. cbn [orb] in E2.
  destruct (Z.leb_spec (Z.of_nat (length v)) h); [done |]. unfold Height. lia.
Qed.

Lemma fork_loop_ok p b fuel k :
  H !! p = Some b -> -1 <= k <= nHeight b -> k + 1 <= Z.of_nat fuel ->
  (forall h', k < h' -> ~ common p h') ->
  exists r, fork_loop H fuel v (ancestor H p k) = Some r /\ fork_point p r.
Proof using Hwf.
  intros Hp. revert k. induction fuel as [|fuel IH]; intros k Hk Hf Hno.
  - assert (k = -1) as -> by lia. exists None. unfold ancestor at 1. rewrite Hp, obind_Some, orb_comm. split; [done |].
    intros h' Hc. pose proof (common_range p b h' Hp Hc). apply (Hno h'); [lia | done].
  - destruct (decide (k = -1)) as [->|Hk1].
    { exists None. unfold ancestor at 1. rewrite Hp, obind_Some, orb_comm. split; [done |].
      intros h' Hc. pose proof (common_range p b h' Hp Hc). apply (Hno h'); [lia | done]. }
    destruct (ancestor_in H Hwf p b k Hp ltac:(lia)) as (q & b' & E & Hq & Eh & _). rewrite E. cbn [fork_loop].
    rewrite (Contains_ok q b' Hq), obind_Some, Eh. destruct (bool_decide_reflect (chain_at v k = Some q)) as [Ec|Ec].
    + exists (Some q). split; [done |]. exists k. split_and!; done.
    + rewrite Hq, obind_Some, (ancestor_pprev H Hwf q b' Hq), Eh, (ancestor_trans H Hwf p b k _ q Hp E) by lia.
      apply IH; [lia | lia |]. intros h' Hh' Hc. destruct (decide (h' = k)) as [->|]; [| apply (Hno h'); [lia | done]].
      destruct Hc as (q' & E1 & E2). congruence.
Qed.

Lemma FindFork_ok p b :
  H !! p = Some b -> exists r, FindFork H v (Some p) = Some r /\ fork_point p r.
Proof using Hwf.
  intros Hp. pose proof (eo_height _ _ _ (entry H Hwf p b Hp)) as Hnn. unfold FindFork. rewrite Hp, obind_Some.
  assert (-1 <= Height v) as Hh by (unfold Height; lia).
  destruct (Z.ltb_spec (Height v) (nHeight b)) as [Hlt|Hge].
  - rewrite (GetAncestor_ok H Hwf p b) by done. rewrite obind_Some. apply (fork_loop_ok p b); [done | lia | lia |].
    intros h' Hh' Hc. pose proof (common_range p b h' Hp Hc). lia.
  - rewrite obind_Some, <- (ancestor_self H Hwf p b Hp). apply (fork_loop_ok p b); [done | lia | lia |].
    intros h' Hh' Hc. pose proof (common_range p b h' Hp Hc). lia.
Qed.

(** ** Locators *)

Definition hash_at (p : positive) (h : Z) : option (list Z) :=
  q ← ancestor H p h; b ← H !! q; Some (phashBlock b).

(** The step back, through the vector or the skip list. *)
Lemma step_back q b h :
  H !! q = Some b -> h <= nHeight b ->
  (if bool_decide (chain_at v (nHeight b) = Some q) then Some (chain_at v h) else GetAncestor H q h)
  = Some (ancestor H q h).
Proof using Hwf Hv.
  intros Hq Hh. destruct (bool_decide_reflect (chain_at v (nHeight b) = Some q)) as [Ec|_]; [| by apply (GetAncestor_ok H Hwf q b)].
  rewrite !chain_at_ok in *. destruct tip as [t|]; [| done]. destruct Hv as (bt & Ht & _). f_equal. symmetry.
  by apply (ancestor_trans H Hwf t bt (nHeight b)).
Qed.

Lemma locator_loop_ok p b fuel step vHave h :
  H !! p = Some b -> nHeight b < 2 ^ 30 -> 0 <= h <= nHeight b -> 1 <= step -> h + step <= nHeight b + 1 ->
  h <= Z.of_nat fuel ->
  exists hashes, locator_loop H fuel v step vHave (ancestor H p h) = Some (vHave ++ hashes) /\
    hash_at p <$> locator_heights fuel step (length vHave) h = Some <$> hashes.
Proof using Hwf Hv.
  intros Hp H30. revert step vHave h. induction fuel as [|fuel IH]; intros step vHave h Hh Hs Hsum Hf;
    destruct (ancestor_in H Hwf p b h Hp Hh) as (q & b' & E & Hq & Eh & _); rewrite E; cbn [locator_loop locator_heights].
  - assert (h = 0) as -> by lia. rewrite Hq, obind_Some, Eh. cbn [Z.eqb]. eexists. split; [done |].
    cbn. unfold hash_at. by rewrite E, obind_Some, Hq.
  - rewrite Hq, obind_Some, Eh. destruct (Z.eqb_spec h 0) as [->|H0].
    { eexists. split; [done |]. cbn. unfold hash_at. by rewrite E, obind_Some, Hq. }
    rewrite (Contains_ok q b' Hq), obind_Some. cbv beta.
    pose proof (step_back q b' (Z.max (h - step) 0) Hq ltac:(lia)) as Hsb. rewrite Eh in Hsb.
    rewrite Eh. rewrite Hsb, obind_Some. clear Hsb.
    rewrite (ancestor_trans H Hwf p b h _ q Hp E) by lia. rewrite length_app. cbn [length].
    rewrite Nat.add_1_r. set (step' := if (10 <? S (length vHave))%nat then step * 2 else step).
    assert ((if (10 <? S (length vHave))%nat then if step * 2 <? 2 ^ 31 then Some (step * 2) else None else Some step) = Some step') as ->.
    { subst step'. destruct (10 <? S (length vHave))%nat; [| done]. by rewrite (proj2 (Z.ltb_lt _ _)) by lia. }
    rewrite obind_Some. destruct (decide (h - step <= 0)) as [Hz|Hz].
    + rewrite Z.max_r by lia. destruct (ancestor_in H Hwf p b 0 Hp ltac:(lia)) as (q0 & b0 & E0 & Hq0 & Eh0 & _).
      assert (forall f w s, locator_loop H f v s w (ancestor H p 0) = Some (w ++ [phashBlock b0])) as Hlast.
      { intros f w s. rewrite E0. destruct f; cbn [locator_loop]; rewrite Hq0, obind_Some, Eh0; done. }
      assert (forall f s c, locator_heights f s c 0 = [0]) as Hlast' by (by intros []).
      rewrite Hlast, Hlast'. exists [phashBlock b'; phashBlock b0]. split; [by rewrite <- app_assoc |].
      cbn. unfold hash_at. by rewrite E, E0, !obind_Some, Hq, Hq0, !obind_Some.
    + rewrite Z.max_l by lia. destruct (IH step' (vHave ++ [phashBlock b']) (h - step)) as (hashes & El & Eh');
        [lia | subst step'; destruct (_ <? _)%nat; lia | subst step'; destruct (_ <? _)%nat; lia | lia |].
      exists (phashBlock b' :: hashes). rewrite El, <- app_assoc. split; [done |].
      rewrite length_app, Nat.add_1_r in Eh'. cbn [fmap list_fmap]. f_equal; [| exact Eh'].
      unfold hash_at. by rewrite E, obind_Some, Hq.
Qed.

End Chain.

(** ** The shape of a locator *)

Lemma locator_heights_last fuel step count h :
  0 <= h -> 1 <= step -> h <= Z.of_nat fuel -> exists l, locator_heights fuel step count h = l ++ [0].
Proof.
  revert step count h. induction fuel as [|fuel IH]; intros step count h Hh Hs Hf; cbn [locator_heights].
  - assert (h = 0) as -> by lia. by exists [].
  - destruct (Z.eqb_spec h 0) as [->|H0]; [by exists [] |].
    destruct (IH (if (10 <? S count)%nat then step * 2 else step) (S count) (Z.max (h - step) 0)) as [l ->];
      [lia | destruct (_ <? _)%nat; lia | lia |]. by exists (h :: l).
Qed.

Lemma locator_heights_double fuel step count h m :
  (10 <= count)%nat -> 0 <= h -> 1 <= step -> h <= step * (2 ^ Z.of_nat m - 1) ->
  (length (locator_heights fuel step count h) <= m + 1)%nat.
Proof.
  intros Hc. revert fuel step count h Hc. induction m as [|m IH]; intros fuel step count h Hc Hh Hs Hm.
  - change (2 ^ Z.of_nat 0) with 1 in Hm. assert (h = 0) as -> by lia. by destruct fuel.
  - destruct fuel as [|fuel]; cbn [locator_heights]; destruct (Z.eqb_spec h 0); cbn [length]; try lia.
    rewrite (proj2 (Nat.ltb_lt 10 (S count))) by lia.
    enough (length (locator_heights fuel (step * 2) (S count) (Z.max (h - step) 0)) <= m + 1)%nat by lia.
    apply IH; [lia | lia | lia |]. rewrite Nat2Z.inj_succ, Z.pow_succ_r in Hm by lia.
    assert (0 <= step * (2 ^ Z.of_nat m - 1)) by (pose proof (pow2_pos (Z.of_nat m)); nia). nia.
Qed.

(** Ten single steps, then doubling ones. *)
Lemma locator_heights_length fuel step count h m :
  step = 1 -> (count <= 10)%nat -> 0 <= h <= 2 ^ Z.of_nat m - 1 ->
  (length (locator_heights fuel step count h) <= 11 - count + m)%nat.
Proof.
  intros ->. intros Hc. remember (10 - count)%nat as d eqn:Hd. revert fuel count h Hc Hd.
  induction d as [|d IH]; intros fuel count h Hc Hd Hh.
  - pose proof (locator_heights_double fuel 1 count h m ltac:(lia) ltac:(lia) ltac:(lia) ltac:(lia)). lia.
  - destruct fuel as [|fuel]; cbn [locator_heights]; destruct (Z.eqb_spec h 0); cbn [length]; try lia.
    rewrite (proj2 (Nat.ltb_ge 10 (S count))) by lia.
    specialize (IH fuel (S count) (Z.max (h - 1) 0) ltac:(lia) ltac:(lia) ltac:(lia)). lia.
Qed.
