(* ===== verification/BlockIndexTheorems.v ===== *)
(** * The block index: adding a header, and the theorems *)

From stdpp Require Import gmap sorting.
From S2P Require Import Prelude MdHash ShaSpec Hash ArithUint ArithUintProofs Pow BlockIndex BlockIndexProofs.
#[local] Open Scope Z_scope.

(** ** The invariant of the index *)

Definition work_of (H : heap) (p : option positive) : Z :=
  match deref H p with Some b => val (nChainWork b) | None => 0 end.

Record index_ok (ix : index) : Prop := {
  io_wf : chain_wf (ix_heap ix);
  io_map : forall h p, mapBlockIndex ix !! h = Some p <->
    exists b, ix_heap ix !! p = Some b /\ phashBlock b = h;
  io_work : forall p b, ix_heap ix !! p = Some b ->
    limbs 8 (nChainWork b) /\ exists proof, GetBlockProof (nBits b) = Some proof /\
      val (nChainWork b) = wrap 256 (work_of (ix_heap ix) (pprev b) + val proof);
  io_best : match pindexBestHeader ix with
            | None => ix_heap ix = ∅
            | Some q => exists bb, ix_heap ix !! q = Some bb /\
                forall p b, ix_heap ix !! p = Some b -> val (nChainWork b) <= val (nChainWork bb)
            end;
}.

(** The fields of a header are in range. *)
Definition header_ok (b : CBlockHeader) : Prop :=
  length (hashPrevBlock b) = 32%nat /\ Forall (fits 8) (hashPrevBlock b) /\
  length (h_hashMerkleRoot b) = 32%nat /\ Forall (fits 8) (h_hashMerkleRoot b) /\
  fits 32 (h_nBits b).

(** The hash of a header is double SHA-256 of its 80 octets. *)
Definition block_hash (b : CBlockHeader) : list Z := sha256 (sha256 (concat (SerializationOp b))).

Lemma le_octets_fits n x : Forall (fits 8) (le_bytes n x).
Proof. unfold le_bytes. apply Forall_fmap, Forall_true. intros i. apply (wrap_fits 8). lia. Qed.

Lemma header_octets b :
  header_ok b -> Forall (fits 8) (concat (SerializationOp b)) /\ length (concat (SerializationOp b)) = 80%nat.
Proof.
  intros (L1 & F1 & L2 & F2 & _). unfold SerializationOp. cbn [concat]. split.
  - repeat (apply Forall_app_2; [first [apply le_octets_fits | done] |]). done.
  - rewrite !length_app, L1, L2. done.
Qed.

Lemma GetHash_ok g b : length g = 64%nat -> header_ok b -> GetHash g b = Some (block_hash b).
Proof.
  intros Hg Hb. destruct (header_octets b Hb) as [Hf Hl]. unfold GetHash, Hash.
  apply (sh_run_ok (H := CHash256) (digest := dsha256)); [done | done | rewrite Hl; done].
Qed.

Lemma entry_ok_mono H H' p b : H ⊆ H' -> entry_ok H p b -> entry_ok H' p b.
Proof.
  intros Hs [H1 H2 H3]. split; [done | |].
  - destruct (pprev b) as [q|]; [| done]. destruct H2 as (b' & Hq & E). exists b'. split; [| done].
    by eapply lookup_weaken.
  - intros s Es. eapply back_mono; [done | by apply H3].
Qed.

Lemma wf_insert H p b :
  chain_wf H -> H !! p = None -> entry_ok (<[p := b]> H) p b -> chain_wf (<[p := b]> H).
Proof.
  intros Hwf Hp Hb. apply map_Forall_insert_2; [done |]. eapply map_Forall_impl; [exact Hwf |].
  intros q bq. apply entry_ok_mono. by apply insert_subseteq.
Qed.

(** The entry built for a header below [prev]. *)
Definition linked (H0 : heap) (b : CBlockIndex) (prev : option positive) : option CBlockIndex :=
  match prev with
  | Some q => bq ← H0 !! q; BuildSkip H0 (set_prev b (Some q) (nHeight bq + 1))
  | None => Some b
  end.

Lemma linked_ok H p hash block prev :
  chain_wf H -> H !! p = None -> (forall q, prev = Some q -> is_Some (H !! q)) ->
  let b := set_hash (CBlockIndex_new block) hash in
  exists b', linked (<[p := b]> H) b prev = Some b' /\ pprev b' = prev /\ phashBlock b' = hash /\
    nBits b' = h_nBits block /\ nStatus b' = 0 /\ nTime b' = h_nTime block /\
    nHeight b' = (match deref H prev with Some bq => nHeight bq + 1 | None => 0 end) /\
    forall b2, pprev b2 = pprev b' -> pskip b2 = pskip b' -> nHeight b2 = nHeight b' ->
      entry_ok (<[p := b2]> H) p b2.
Proof.
  intros Hwf Hp Hprev b. set (H0 := <[p := b]> H). assert (chain_wf H0) as Hwf0.
  { apply wf_insert; [done | done |]. by split. }
  destruct prev as [q|].
  2:{ exists b. split_and!; try done. intros b2 E1 E2 E3. cbn in E1, E2, E3. split; rewrite ?E1, ?E2, ?E3; done. }
  destruct (Hprev q eq_refl) as [bq Hq]. assert (p <> q) as Hne by (intros ->; congruence).
  assert (H0 !! q = Some bq) as Hq0 by (unfold H0; by rewrite lookup_insert_ne).
  pose proof (eo_height _ _ _ (entry H Hwf q bq Hq)) as Hnn.
  pose proof (skip_bound (nHeight bq + 1) ltac:(lia)) as Hsk.
  destruct (ancestor_in H Hwf q bq (GetSkipHeight (nHeight bq + 1)) Hq ltac:(lia)) as (s & bs & _ & Hs & Ehs & Eb).
  assert (ancestor H0 q (GetSkipHeight (nHeight bq + 1)) = Some s) as Ea.
  { unfold ancestor. rewrite Hq0, obind_Some, (proj2 (Z.ltb_ge _ _)), (proj2 (Z.ltb_ge _ 0)) by lia. cbn [orb].
    eapply back_mono; [by apply insert_subseteq | done]. }
  cbn [linked]. rewrite Hq0, obind_Some. unfold BuildSkip. cbn [pprev set_prev nHeight].
  rewrite (GetAncestor_ok H0 Hwf0 q bq) by done. rewrite obind_Some, Ea.
  eexists. split; [done |]. split_and!; try done.
  { unfold deref. by rewrite obind_Some, Hq. }
  intros b2 E1 E2 E3. cbn in E1, E2, E3. split.
  - rewrite E3. lia.
  - rewrite E1, E3. exists bq. split; [by rewrite lookup_insert_ne | done].
  - intros s' Es'. rewrite E2 in Es'. injection Es' as <-. rewrite E3.
    replace (Z.to_nat (nHeight bq + 1 - GetSkipHeight (nHeight bq + 1)))
      with (S (Z.to_nat (nHeight bq - GetSkipHeight (nHeight bq + 1)))) by lia.
    cbn [back]. rewrite lookup_insert_eq, obind_Some, E1, obind_Some.
    eapply back_mono; [by apply insert_subseteq | done].
Qed.

Lemma work_of_insert H p b q : (forall r, q = Some r -> is_Some (H !! r)) -> H !! p = None ->
  work_of (<[p := b]> H) q = work_of H q.
Proof.
  intros Hq Hp. destruct q as [r|]; [| done]. unfold work_of, deref. rewrite !obind_Some, lookup_insert_ne; [done |].
  intros ->. destruct (Hq r eq_refl). congruence.
Qed.

Lemma prev_in H p b q : chain_wf H -> H !! p = Some b -> pprev b = Some q -> is_Some (H !! q).
Proof.
  intros Hwf Hp E. pose proof (eo_prev _ _ _ (entry H Hwf p b Hp)) as Hprev. rewrite E in Hprev.
  destruct Hprev as (b' & Hq & _). by exists b'.
Qed.

(** Extending the invariant with one entry. *)
Lemma index_ok_insert ix p b proof best dirty :
  index_ok ix -> ix_heap ix !! p = None -> mapBlockIndex ix !! phashBlock b = None ->
  (forall q, pprev b = Some q -> is_Some (ix_heap ix !! q)) ->
  entry_ok (<[p := b]> (ix_heap ix)) p b ->
  limbs 8 (nChainWork b) -> GetBlockProof (nBits b) = Some proof ->
  val (nChainWork b) = wrap 256 (work_of (ix_heap ix) (pprev b) + val proof) ->
  best = match pindexBestHeader ix with
         | None => Some p
         | Some q => if work_of (ix_heap ix) (Some q) <? val (nChainWork b) then Some p else Some q
         end ->
  index_ok (mkIdx (<[p := b]> (ix_heap ix)) (<[phashBlock b := p]> (mapBlockIndex ix)) best dirty).
Proof.
  intros [Hwf Hmap Hwork Hbest] Hp Hh Hprev He Hl Hproof Hval ->. split; cbn [ix_heap mapBlockIndex pindexBestHeader].
  - by apply wf_insert.
  - intros h q. rewrite lookup_insert_Some. rewrite Hmap. split.
    + intros [[<- <-]|[Hne (b' & Hq & E)]]; [exists b; by rewrite lookup_insert_eq |].
      exists b'. rewrite lookup_insert_ne by congruence. done.
    + intros (b' & Hq & E). apply lookup_insert_Some in Hq as [[<- <-]|[Hne Hq]]; [by left |].
      right. split; [| by exists b']. intros E'. assert (mapBlockIndex ix !! h = Some q) by (apply Hmap; eauto). congruence.
  - intros q b' Hq. apply lookup_insert_Some in Hq as [[<- <-]|[Hne Hq]].
    + split; [done |]. exists proof. by rewrite work_of_insert.
    + destruct (Hwork q b' Hq) as [Hl' (pr & Ep & Ev)]. split; [done |]. exists pr.
      rewrite work_of_insert; [done | | done]. intros r Er. by apply (prev_in _ q b').
  - destruct (pindexBestHeader ix) as [q|].
    + destruct Hbest as (bb & Hq & Hmax). assert (work_of (ix_heap ix) (Some q) = val (nChainWork bb)) as Ew.
      { unfold work_of, deref. by rewrite obind_Some, Hq. }
      rewrite Ew. destruct (Z.ltb_spec (val (nChainWork bb)) (val (nChainWork b))) as [Hlt|Hge].
      * exists b. rewrite lookup_insert_eq. split; [done |]. intros r b' Hr.
        apply lookup_insert_Some in Hr as [[<- <-]|[Hne Hr]]; [done |]. specialize (Hmax r b' Hr). lia.
      * exists bb. rewrite lookup_insert_ne by congruence. split; [done |]. intros r b' Hr.
        apply lookup_insert_Some in Hr as [[<- <-]|[Hne Hr]]; [done | by apply (Hmax r)].
    + exists b. rewrite lookup_insert_eq. split; [done |]. intros r b' Hr.
      apply lookup_insert_Some in Hr as [[<- <-]|[Hne Hr]]; [done |]. by rewrite Hbest, lookup_empty in Hr.
Qed.

(** C30. [AddToBlockIndex] keeps the block index consistent: every entry has its parent one
    height below, its skip pointer at the ancestor [GetSkipHeight] names, the accumulated
    work of its chain modulo [2^256], the map finds every entry by its hash, and the best
    header has the most work.  A known header is returned as it is; a new one gets a fresh
    entry below its parent and no other entry changes. *)
Theorem add_to_block_index_correct g block ix :
  length g = 64%nat -> header_ok block -> block_hash block <> hashPrevBlock block -> index_ok ix ->
  exists p ix', AddToBlockIndex g block ix = Some (p, ix') /\ index_ok ix' /\ ix_heap ix ⊆ ix_heap ix' /\
    mapBlockIndex ix' !! block_hash block = Some p /\
    (is_Some (mapBlockIndex ix !! block_hash block) -> ix' = ix) /\
    (mapBlockIndex ix !! block_hash block = None -> exists b, ix_heap ix' = <[p := b]> (ix_heap ix) /\
       ix_heap ix !! p = None /\ pprev b = mapBlockIndex ix !! hashPrevBlock block /\
       nBits b = h_nBits block /\ nTime b = h_nTime block).
Proof.
  intros Hg Hb Hne Hok. unfold AddToBlockIndex. rewrite GetHash_ok, obind_Some by done.
  set (hash := block_hash block) in *. destruct (mapBlockIndex ix !! hash) as [p|] eqn:Em.
  { exists p, ix. split_and!; [done.. | discriminate]. }
  set (p := fresh (dom (ix_heap ix))).
  assert (ix_heap ix !! p = None) as Hp by (apply not_elem_of_dom, is_fresh).
  assert (forall q, mapBlockIndex ix !! hashPrevBlock block = Some q -> is_Some (ix_heap ix !! q)) as Hprev.
  { intros q Hq. apply (io_map _ Hok) in Hq as (bq & Hq & _). by exists bq. }
  destruct (linked_ok (ix_heap ix) p hash block (mapBlockIndex ix !! hashPrevBlock block) (io_wf _ Hok) Hp Hprev)
    as (b & El & E1 & E2 & E3 & E4 & E5 & _ & Heo).
  rewrite lookup_insert_ne by done. unfold linked in El. rewrite El, obind_Some.
  destruct (block_proof_limbs (h_nBits block)) as (proof & Eproof & Hpl); [by destruct Hb as (_ & _ & _ & _ & ?) |].
  assert (exists work, limbs 8 work /\ val work = work_of (ix_heap ix) (pprev b) /\
    match pprev b with
    | Some q => prev ← (<[p := b]> (ix_heap ix)) !! q; Some (nChainWork prev)
    | None => Some (arith_uint256_of 0)
    end = Some work) as (work & Hwl & Hwv & ->).
  { rewrite E1. destruct (mapBlockIndex ix !! hashPrevBlock block) as [q|] eqn:Eq.
    - destruct (Hprev q eq_refl) as [bq Hq]. exists (nChainWork bq). destruct (io_work _ Hok q bq Hq) as [Hl _].
      split_and!; [done | unfold work_of, deref; by rewrite obind_Some, Hq |].
      rewrite lookup_insert_ne by congruence. by rewrite Hq, obind_Some.
    - destruct (of_ok 0) as [Hl Ev]; [by unfold fits |]. eexists. split_and!; [exact Hl | by rewrite Ev | done]. }
  rewrite obind_Some, E3, Eproof, obind_Some. unfold RaiseValidity. cbn [nStatus set_work]. rewrite E4.
  change (negb (Z.land BLOCK_VALID_TREE (u32 (Z.lnot BLOCK_VALID_MASK)) =? 0)) with false. cbv beta iota.
  change (negb (Z.land 0 BLOCK_FAILED_MASK =? 0)) with false. cbv beta iota.
  change (Z.land 0 BLOCK_VALID_MASK <? BLOCK_VALID_TREE) with true. cbv beta iota. rewrite obind_Some.
  set (b2 := set_status _ _). destruct (op_add_ok 8 work proof Hwl Hpl) as [Hl2 Ev2].
  assert (Hbest : match pindexBestHeader ix with
      | None => Some (Some p)
      | Some q => bb ← (<[p := b2]> (ix_heap ix)) !! q;
          Some (if op_lt 8 (nChainWork bb) (nChainWork b2) then Some p else Some q)
      end = Some (match pindexBestHeader ix with
         | None => Some p
         | Some q => if work_of (ix_heap ix) (Some q) <? val (nChainWork b2) then Some p else Some q
         end)).
  { pose proof (io_best _ Hok) as Hbb. destruct (pindexBestHeader ix) as [q|]; [| done].
    destruct Hbb as (bb & Hq & _). rewrite lookup_insert_ne by congruence. rewrite Hq, obind_Some.
    rewrite op_lt_ok by (done || by apply (io_work _ Hok q)). unfold work_of, deref. by rewrite obind_Some, Hq. }
  rewrite Hbest, obind_Some. eexists p, _. split; [done |]. split_and!.
  - rewrite <- E2. change (phashBlock b) with (phashBlock b2).
    apply (index_ok_insert ix p b2 proof); [done | done | cbn; by rewrite E2 | cbn; rewrite E1; apply Hprev
      | by apply Heo | exact Hl2 | cbn; by rewrite E3 | cbn [nChainWork pprev b2 set_status set_work]; by rewrite Ev2, Hwv | done].
  - by apply insert_subseteq.
  - apply lookup_insert_eq.
  - by intros [? ?].
  - intros _. exists b2. split_and!; done.
Qed.

(** ** A chain of three blocks and a fork *)

Definition toy_entry (h : Z) (prev skip : option positive) (height time : Z) : CBlockIndex :=
  mkIndex [h] prev skip height (arith_uint256_of (height + 1)) 2 2 (replicate 32 0) time 0x207fffff 0 0.

Definition toy_heap : heap :=
  <[1%positive := toy_entry 10 None None 0 100]>
  (<[2%positive := toy_entry 11 (Some 1%positive) (Some 1%positive) 1 200]>
  (<[3%positive := toy_entry 12 (Some 2%positive) (Some 1%positive) 2 300]>
  (<[4%positive := toy_entry 13 (Some 2%positive) (Some 1%positive) 2 250]> ∅))).

Lemma toy_wf : chain_wf toy_heap.
Proof.
  unfold chain_wf, toy_heap at 2. repeat apply map_Forall_insert_2; [.. | apply map_Forall_empty];
    (split; [done | | intros s E; revert E; by vm_compute]).
  - done.
  - exists (toy_entry 10 None None 0 100). done.
  - exists (toy_entry 11 (Some 1%positive) (Some 1%positive) 1 200). done.
  - exists (toy_entry 11 (Some 1%positive) (Some 1%positive) 1 200). done.
Qed.

Definition toy_header : CBlockHeader := mkHeader 2 (replicate 32 0) (replicate 32 1) 1000 0x1d00ffff 7.
Definition empty_index : index := mkIdx ∅ ∅ None ∅.

Lemma empty_index_ok : index_ok empty_index.
Proof.
  split; cbn [ix_heap mapBlockIndex pindexBestHeader empty_index].
  - apply map_Forall_empty.
  - intros h p. rewrite lookup_empty. split; [done | intros (b & Hb & _); by rewrite lookup_empty in Hb].
  - intros p b Hp. by rewrite lookup_empty in Hp.
  - done.
Qed.

Lemma toy_header_ok : header_ok toy_header.
Proof.
  unfold header_ok, toy_header. cbn [hashPrevBlock h_hashMerkleRoot h_nBits].
  split_and!; first [done | apply Forall_replicate; by unfold fits | by unfold fits].
Qed.

Lemma add_to_block_index_correct_witness :
  exists p ix', AddToBlockIndex (replicate 64 5) toy_header empty_index = Some (p, ix') /\ index_ok ix' /\
    mapBlockIndex ix' !! block_hash toy_header = Some p.
Proof.
  destruct (add_to_block_index_correct (replicate 64 5) toy_header empty_index) as (p & ix' & E & Hok & _ & Hm & _);
    [reflexivity | exact toy_header_ok | | exact empty_index_ok | exists p, ix'; exact (conj E (conj Hok Hm))].
  intros E. apply (f_equal (fun l => hd 0 l)) in E. vm_compute in E. discriminate E.
Defined.

(** [GetAncestor], which follows skip pointers where that pays, returns the entry the
    same number of single [pprev] steps away, NULL outside the chain's heights; it always
    ends, without reading through a null pointer. *)
Theorem get_ancestor_correct H p b h :
  chain_wf H -> H !! p = Some b ->
  GetAncestor H p h = Some (ancestor H p h) /\
  (0 <= h <= nHeight b -> exists q b', ancestor H p h = Some q /\ H !! q = Some b' /\ nHeight b' = h).
Proof.
  intros Hwf Hp. split; [by apply (GetAncestor_ok H Hwf p b) |]. intros Hh.
  destruct (ancestor_in H Hwf p b h Hp Hh) as (q & b' & E & Hq & Eh & _). by exists q, b'.
Qed.

Lemma get_ancestor_correct_witness : GetAncestor toy_heap 3 0 = Some (ancestor toy_heap 3 0).
Proof.
  apply (get_ancestor_correct toy_heap 3 (toy_entry 12 (Some 2%positive) (Some 1%positive) 2 300) 0 toy_wf).
  reflexivity.
Defined.

(** [SetTip] makes the active chain, whatever valid chain was there, the list of the
    ancestors of the new tip by height, though it stops at the first entry that is already
    right; [FindFork] then returns the highest block a branch shares with it, NULL when
    there is none. *)
Theorem active_chain_correct H v tip p b :
  chain_wf H -> chain_of H v tip -> H !! p = Some b ->
  exists v', SetTip H v (Some p) = Some v' /\ chain_of H v' (Some p) /\ Height v' = nHeight b /\
    (forall h, chain_at v' h = ancestor H p h) /\
    (forall q bq, H !! q = Some bq -> exists r, FindFork H v' (Some q) = Some r /\ fork_point H v' q r).
Proof.
  intros Hwf Hv Hp. exists (path H p (Z.to_nat (nHeight b))).
  assert (chain_of H (path H p (Z.to_nat (nHeight b))) (Some p)) as Hc by (by exists b).
  split_and!; [by apply (SetTip_ok H Hwf v tip) | done | | |].
  - unfold Height, path. rewrite length_fmap, length_seq. pose proof (eo_height _ _ _ (entry H Hwf p b Hp)). lia.
  - intros h. by rewrite (chain_at_ok H Hwf _ (Some p) Hc).
  - intros q bq Hq. by apply (FindFork_ok H Hwf _ q bq).
Qed.

Lemma active_chain_correct_witness :
  exists v', SetTip toy_heap [] (Some 3%positive) = Some v' /\
    exists r, FindFork toy_heap v' (Some 4%positive) = Some r /\ fork_point toy_heap v' 4%positive r.
Proof.
  destruct (active_chain_correct toy_heap [] None 3%positive (toy_entry 12 (Some 2%positive) (Some 1%positive) 2 300)
    toy_wf) as (v' & E & _ & _ & _ & Hf); [reflexivity | reflexivity |].
  exists v'. split; [exact E |]. exact (Hf 4%positive (toy_entry 13 (Some 2%positive) (Some 1%positive) 2 250) eq_refl).
Defined.

(** A locator names the hashes of the block itself, of the blocks just before it and then
    of ancestors at doubling distances, down to genesis, the same through the active chain's
    vector and through the skip list; for a height below [2^m] it has at most [11 + m]
    entries. *)
Theorem get_locator_correct H v tip p b m :
  chain_wf H -> chain_of H v tip -> H !! p = Some b -> nHeight b < 2 ^ 30 -> nHeight b < 2 ^ Z.of_nat m ->
  let heights := locator_heights (Z.to_nat (nHeight b)) 1 0 (nHeight b) in
  exists hashes, GetLocator H v (Some p) = Some hashes /\
    hash_at H p <$> heights = Some <$> hashes /\
    (exists l, heights = l ++ [0]) /\ (length hashes <= 11 + m)%nat.
Proof.
  intros Hwf Hv Hp H30 Hm heights. pose proof (eo_height _ _ _ (entry H Hwf p b Hp)) as Hnn.
  unfold GetLocator. rewrite Hp, obind_Some.
  destruct (locator_loop_ok H Hwf v tip Hv p b (Z.to_nat (nHeight b)) 1 [] (nHeight b)) as (hashes & E & Eh);
    [done | done | lia | lia | lia | lia |].
  rewrite (ancestor_self H Hwf p b Hp) in E. exists hashes. split_and!; [done | done | |].
  - apply locator_heights_last; lia.
  - apply (f_equal length) in Eh. rewrite !length_fmap in Eh. rewrite <- Eh.
    apply (locator_heights_length _ 1 0 (nHeight b) m); lia.
Qed.

Lemma get_locator_correct_witness :
  exists hashes, GetLocator toy_heap [] (Some 4%positive) = Some hashes /\
    hash_at toy_heap 4%positive <$> [2; 1; 0] = Some <$> hashes.
Proof.
  destruct (get_locator_correct toy_heap [] None 4%positive (toy_entry 13 (Some 2%positive) (Some 1%positive) 2 250) 2
    toy_wf) as (hashes & E & Eh & _); [reflexivity | reflexivity | reflexivity | reflexivity |].
  exists hashes. exact (conj E Eh).
Defined.
