(* ===== verification/MedianTime.v ===== *)
(** * GetMedianTimePast (chain.h): the median of the last eleven times, and its monotony

    [window H n p] is the times of [p] and of up to [n - 1] blocks before it.  A block later
    than the median of its parent, which is what a header must be to be accepted, has no
    lower a median. *)

From stdpp Require Import gmap sorting.
From S2P Require Import Prelude MdHash Hash ArithUint Pow BlockIndex BlockIndexProofs.
#[local] Open Scope Z_scope.

(** ** Order statistics *)

Definition count_ge (m : Z) (l : list Z) : nat := length (filter (fun x => m <= x) l).

Lemma count_ge_perm m l l' : l ≡ₚ l' -> count_ge m l = count_ge m l'.
Proof. intros E. unfold count_ge. by rewrite E. Qed.

Lemma count_ge_cons m x l : count_ge m (x :: l) = ((if decide (m <= x)%Z then 1 else 0) + count_ge m l)%nat.
Proof. unfold count_ge. rewrite filter_cons. by destruct (decide (m <= x)). Qed.

Lemma count_ge_app m l l' : count_ge m (l ++ l') = (count_ge m l + count_ge m l')%nat.
Proof. induction l as [|x l IH]; [done |]. cbn [app]. rewrite !count_ge_cons, IH. lia. Qed.

Lemma count_ge_le m l : (count_ge m l <= length l)%nat.
Proof. apply length_filter. Qed.

Lemma count_ge_all m l : Forall (fun x => m <= x) l -> count_ge m l = length l.
Proof.
  induction 1 as [|x l Hx Hl IH]; [done |]. rewrite count_ge_cons, decide_True, IH by done. done.
Qed.

(** In a sorted list the elements from position [i] on are the [length - i] largest. *)
Lemma sorted_count s i x m :
  StronglySorted Z.le s -> s !! i = Some x -> (m <= x <-> (length s - i <= count_ge m s)%nat).
Proof.
  intros Hs. revert i x. induction Hs as [|y s Hs IH Hy]; intros i x Hi; [done |].
  rewrite count_ge_cons. destruct i as [|i]; cbn [length].
  - injection Hi as ->. split.
    + intros Hm. rewrite decide_True by done. rewrite count_ge_all; [lia |].
      eapply Forall_impl; [| exact Hy]. cbn. lia.
    + intros Hc. pose proof (count_ge_le m s). destruct (decide (m <= x)); [done | lia].
  - cbn in Hi. rewrite (IH i x Hi). destruct (decide (m <= y)) as [Hm|Hm]; [| lia].
    assert (count_ge m s = length s) as Hall.
    { apply count_ge_all. eapply Forall_impl; [| exact Hy]. cbn. lia. }
    pose proof (lookup_lt_Some _ _ _ Hi). lia.
Qed.

Definition median (l : list Z) : option Z :=
  let sorted := merge_sort Z.le l in sorted !! (length sorted / 2)%nat.

Lemma median_count l x m :
  median l = Some x -> (m <= x <-> (length l - length l / 2 <= count_ge m l)%nat).
Proof.
  intros Hx. unfold median in Hx.
  pose proof (merge_sort_Permutation Z.le l) as Hp. pose proof (StronglySorted_merge_sort Z.le l) as Hs.
  rewrite (sorted_count _ _ _ m Hs Hx), (count_ge_perm m _ _ Hp), (Permutation_length Hp). done.
Qed.

Lemma median_some l : l <> [] -> is_Some (median l).
Proof.
  intros Hl. unfold median. apply lookup_lt_is_Some. rewrite (Permutation_length (merge_sort_Permutation Z.le l)).
  destruct l as [|x l]; [done |]. apply Nat.div_lt; cbn [length]; lia.
Qed.

(** The oldest element dropped, a newer one above the median added. *)
Lemma median_slide t w m x :
  median w = Some m -> median (t :: take 10 w) = Some x -> (length w <= 11)%nat -> m < t -> m <= x.
Proof.
  intros Hm Hx Hl Ht. apply (median_count _ _ m Hx). pose proof (proj1 (median_count _ _ m Hm) ltac:(lia)) as Hc.
  rewrite count_ge_cons, decide_True by lia. cbn [length]. rewrite length_take.
  pose proof (take_drop 10 w) as Etd. apply (f_equal (count_ge m)) in Etd. rewrite count_ge_app in Etd.
  pose proof (count_ge_le m (drop 10 w)) as Hd. rewrite length_drop in Hd.
  destruct (decide (length w = 11%nat)) as [E|E].
  - rewrite E in *. change (11 / 2)%nat with 5%nat in Hc. change (10 `min` 11)%nat with 10%nat.
    change (S 10 / 2)%nat with 5%nat. lia.
  - rewrite Nat.min_r by lia. pose proof (Nat.Div0.div_le_mono (length w) (S (length w)) 2 ltac:(lia)). lia.
Qed.

(** ** The window of a block *)

Fixpoint window (H : heap) (n : nat) (p : option positive) : list Z :=
  match n with
  | O => []
  | S n => match deref H p with
           | Some b => GetBlockTime b :: window H n (pprev b)
           | None => []
           end
  end.

Lemma window_length H n p : (length (window H n p) <= n)%nat.
Proof.
  revert p. induction n as [|n IH]; intros p; cbn [window]; [done |].
  destruct (deref H p) as [b|]; cbn [length]; [specialize (IH (pprev b)); lia | lia].
Qed.

Lemma window_take H n k p : (k <= n)%nat -> take k (window H n p) = window H k p.
Proof.
  revert k p. induction n as [|n IH]; intros k p Hk; [by replace k with 0%nat by lia |].
  destruct k as [|k]; [done |]. cbn [window]. destruct (deref H p) as [b|]; [| done].
  cbn [take firstn]. f_equal. apply IH. lia.
Qed.

Section Wf.
Context (H : heap) (Hwf : chain_wf H).

Lemma past_times_ok n p acc :
  (forall q, p = Some q -> is_Some (H !! q)) -> past_times H n p acc = Some (reverse (window H n p) ++ acc).
Proof using Hwf.
  revert p acc. induction n as [|n IH]; intros p acc Hp; [by destruct p |]. destruct p as [q|]; [| done].
  cbn [past_times window]. unfold deref. rewrite obind_Some. destruct (Hp q eq_refl) as [b Hq]. rewrite Hq, obind_Some.
  rewrite IH.
  - by rewrite reverse_cons, <- app_assoc.
  - intros r Er. pose proof (eo_prev _ _ _ (entry H Hwf q b Hq)) as Hprev. rewrite Er in Hprev.
    destruct Hprev as (b' & Hr & _). by exists b'.
Qed.

Lemma merge_sort_perm_eq l l' : l ≡ₚ l' -> merge_sort Z.le l = merge_sort Z.le l'.
Proof.
  intros E. apply (StronglySorted_unique Z.le); [apply StronglySorted_merge_sort; apply _ .. |].
  by rewrite !merge_sort_Permutation.
Qed.

Lemma GetMedianTimePast_ok p b :
  H !! p = Some b -> GetMedianTimePast H p = median (window H 11 (Some p)).
Proof using Hwf.
  intros Hp. unfold GetMedianTimePast. rewrite past_times_ok by (intros q [= <-]; by exists b).
  rewrite obind_Some, app_nil_r. unfold median. by rewrite (merge_sort_perm_eq (reverse _) _ (reverse_Permutation _)).
Qed.

Lemma mtp_some p b : H !! p = Some b -> exists m, GetMedianTimePast H p = Some m.
Proof using Hwf.
  intros Hp. rewrite (GetMedianTimePast_ok p b Hp). destruct (median_some (window H 11 (Some p))) as [m Hm]; [| by exists m].
  cbn [window]. unfold deref. rewrite obind_Some, Hp. done.
Qed.

(** The rule of [ContextualCheckBlockHeader] for the entries of the index. *)
Definition times_ok : Prop := forall p b q m, H !! p = Some b -> pprev b = Some q ->
  GetMedianTimePast H q = Some m -> m < GetBlockTime b.

Lemma mtp_step p b q m x :
  times_ok -> H !! p = Some b -> pprev b = Some q ->
  GetMedianTimePast H q = Some m -> GetMedianTimePast H p = Some x -> m <= x.
Proof using Hwf.
  intros Ht Hp Eq Hm Hx. pose proof (Ht p b q m Hp Eq Hm) as Hlt.
  pose proof (eo_prev _ _ _ (entry H Hwf p b Hp)) as Hprev. rewrite Eq in Hprev. destruct Hprev as (bq & Hq & _).
  rewrite (GetMedianTimePast_ok q bq Hq) in Hm. rewrite (GetMedianTimePast_ok p b Hp) in Hx.
  cbn [window] in Hx. unfold deref in Hx at 1. rewrite obind_Some, Hp in Hx.
  eapply (median_slide (GetBlockTime b) (window H 11 (Some q))); [done | | apply window_length | done].
  rewrite window_take by lia. rewrite Eq in Hx. exact Hx.
Qed.

(** Along ancestors. *)
Lemma mtp_back n p b q m x :
  times_ok -> H !! p = Some b -> back H n p = Some q ->
  GetMedianTimePast H q = Some m -> GetMedianTimePast H p = Some x -> m <= x.
Proof using Hwf.
  intros Ht. revert p b x. induction n as [|n IH]; intros p b x Hp Eb Hm Hx.
  - injection Eb as ->. rewrite Hm in Hx. by injection Hx as ->.
  - cbn [back] in Eb. rewrite Hp, obind_Some in Eb. destruct (pprev b) as [r|] eqn:Er; [| done]. rewrite obind_Some in Eb.
    pose proof (eo_prev _ _ _ (entry H Hwf p b Hp)) as Hprev. rewrite Er in Hprev. destruct Hprev as (br & Hr & _).
    destruct (mtp_some r br Hr) as [y Hy]. pose proof (IH r br y Hr Eb Hm Hy).
    pose proof (mtp_step p b r y x Ht Hp Er Hy Hx). lia.
Qed.

End Wf.
