(* ===== verification/VersionBits.v ===== *)
(** * versionbits.h and versionbits.cpp: BIP9 deployment states

    [AbstractThresholdConditionChecker] is an interface ([Class ThresholdConditionChecker]);
    [VersionBitsConditionChecker] implements it from the consensus parameters.  The cache
    maps an entry (NULL for the genesis parent) to a state.  Division by a zero period, a
    null dereference and an exhausted loop are [None].  The second part relates the cached
    computation to the state machine of BIP9. *)

From stdpp Require Import gmap.
From stdpp Require Import gmap sorting.
From S2P Require Import Prelude MdHash Hash ArithUint Pow BlockIndex BlockIndexProofs MedianTime.
#[local] Open Scope Z_scope.

Inductive ThresholdState :=
  | THRESHOLD_DEFINED
  | THRESHOLD_STARTED
  | THRESHOLD_LOCKED_IN
  | THRESHOLD_ACTIVE
  | THRESHOLD_FAILED.

#[export] Instance ThresholdState_eq_dec : EqDecision ThresholdState.
Proof. solve_decision. Defined.

Abbreviation ThresholdConditionCache := (gmap (option positive) ThresholdState).

Class ThresholdConditionChecker := {
  Condition : CBlockIndex -> bool;
  BeginTime : Z;
  EndTime : Z;
  Period : Z;
  Threshold : Z;
}.

Section Checker.
Context `{C : ThresholdConditionChecker} (H : heap).

(** [for (int i = 0; i < nPeriod; i++)], counting back from [pindexCount]. *)
Fixpoint count_loop (n : nat) (pindexCount : option positive) (count : Z) : option Z :=
  match n with
  | O => Some count
  | S n => b ← deref H pindexCount; count_loop n (pprev b) (if Condition b then count + 1 else count)
  end.

(** The [while] loop that walks back a period at a time; the vector is a stack. *)
Fixpoint walk_back (fuel : nat) (pindexPrev : option positive) (vToCompute : list positive)
    (cache : ThresholdConditionCache) : option (option positive * list positive * ThresholdConditionCache) :=
  match cache !! pindexPrev with
  | Some _ => Some (pindexPrev, vToCompute, cache)
  | None =>
      match pindexPrev with
      | None => Some (None, vToCompute, <[None := THRESHOLD_DEFINED]> cache)
      | Some q =>
          mtp ← GetMedianTimePast H q;
          if mtp <? BeginTime then Some (pindexPrev, vToCompute, <[pindexPrev := THRESHOLD_DEFINED]> cache)
          else match fuel with
               | O => None
               | S fuel =>
                   b ← H !! q;
                   p ← GetAncestor H q (nHeight b - Period);
                   walk_back fuel p (q :: vToCompute) cache
               end
      end
  end.

(** The [switch] on the state at [pindexPrev]. *)
Definition next_state (pindexPrev : positive) (state : ThresholdState) : option ThresholdState :=
  match state with
  | THRESHOLD_DEFINED =>
      mtp ← GetMedianTimePast H pindexPrev;
      Some (if EndTime <=? mtp then THRESHOLD_FAILED
            else if BeginTime <=? mtp then THRESHOLD_STARTED else state)
  | THRESHOLD_STARTED =>
      mtp ← GetMedianTimePast H pindexPrev;
      if EndTime <=? mtp then Some THRESHOLD_FAILED
      else
        count ← count_loop (Z.to_nat Period) (Some pindexPrev) 0;
        Some (if Threshold <=? count then THRESHOLD_LOCKED_IN else state)
  | THRESHOLD_LOCKED_IN => Some THRESHOLD_ACTIVE
  | THRESHOLD_FAILED | THRESHOLD_ACTIVE => Some state
  end.

(** [while (!vToCompute.empty())]. *)
Fixpoint walk_forward (vToCompute : list positive) (state : ThresholdState) (cache : ThresholdConditionCache)
    : option (ThresholdState * ThresholdConditionCache) :=
  match vToCompute with
  | [] => Some (state, cache)
  | q :: vToCompute =>
      s ← next_state q state;
      walk_forward vToCompute s (<[Some q := s]> cache)
  end.

Definition GetStateFor (pindexPrev : option positive) (cache : ThresholdConditionCache)
    : option (ThresholdState * ThresholdConditionCache) :=
  if Period =? 0 then None else
  '(pindexPrev, n) ← match pindexPrev with
      | None => Some (None, 0%nat)
      | Some p =>
          b ← H !! p;
          a ← GetAncestor H p (nHeight b - Z.rem (nHeight b + 1) Period);
          Some (a, S (Z.to_nat (nHeight b)))
      end;
  '(pindexPrev, vToCompute, cache) ← walk_back n pindexPrev [] cache;
  state ← cache !! pindexPrev;
  walk_forward vToCompute state cache.

End Checker.

(** ** The deployments of the consensus parameters *)

Record BIP9Deployment := mkDeployment { d_bit : Z; d_nStartTime : Z; d_nTimeout : Z }.

Record Params := mkParams {
  nRuleChangeActivationThreshold : Z;
  nMinerConfirmationWindow : Z;
  vDeployments : list BIP9Deployment;
}.

(** [((uint32_t)1) << bit]; a bit outside 0..31 is undefined. *)
Definition Mask (d : BIP9Deployment) : option Z :=
  if (0 <=? d_bit d) && (d_bit d <? 32) then Some (u32 (1 << d_bit d)) else None.

Definition VERSIONBITS_TOP_BITS : Z := 0x20000000.
(** [0xE0000000] converted to [int32_t]. *)
Definition VERSIONBITS_TOP_MASK : Z := 0xE0000000 - 2 ^ 32.

(** [int] of an [uint32_t]. *)
Definition to_int (x : Z) : Z := if x <? 2 ^ 31 then x else x - 2 ^ 32.

Definition VersionBitsConditionChecker (params : Params) (d : BIP9Deployment) (mask : Z) : ThresholdConditionChecker := {|
  Condition b := (Z.land (nVersion b) VERSIONBITS_TOP_MASK =? VERSIONBITS_TOP_BITS)
                 && negb (Z.land (u32 (nVersion b)) mask =? 0);
  BeginTime := d_nStartTime d;
  EndTime := d_nTimeout d;
  Period := to_int (nMinerConfirmationWindow params);
  Threshold := to_int (nRuleChangeActivationThreshold params);
|}.

Definition VersionBitsMask (params : Params) (pos : nat) : option Z :=
  d ← vDeployments params !! pos; Mask d.

(** [VersionBitsCache]: one cache per deployment. *)
Abbreviation VersionBitsCache := (list ThresholdConditionCache).

Definition VersionBitsState (H : heap) (pindexPrev : option positive) (params : Params) (pos : nat)
    (caches : VersionBitsCache) : option (ThresholdState * VersionBitsCache) :=
  d ← vDeployments params !! pos;
  mask ← Mask d;
  cache ← caches !! pos;
  '(s, cache) ← GetStateFor (C := VersionBitsConditionChecker params d mask) H pindexPrev cache;
  Some (s, <[pos := cache]> caches).

Definition VersionBitsCache_Clear (caches : VersionBitsCache) : VersionBitsCache := (fun _ => ∅) <$> caches.

(** * BIP9: the cached computation agrees with the specification

    The specification walks forward from genesis through every period without a cache and
    without the shortcut for early periods; [state_at p] is the state after the period that
    ends with [p].  [cache_ok] is the invariant of a cache. *)

#[local] Open Scope Z_scope.

Section Spec.
Context `{C : ThresholdConditionChecker} (H : heap).

Definition mtp (q : positive) : Z := default 0 (GetMedianTimePast H q).

(** The number of signalling blocks among the last [n]. *)
Fixpoint signals (n : nat) (p : option positive) : Z :=
  match n with
  | O => 0
  | S n => match deref H p with
           | Some b => (if Condition b then 1 else 0) + signals n (pprev b)
           | None => 0
           end
  end.

Definition bip9_step (s : ThresholdState) (q : positive) : ThresholdState :=
  match s with
  | THRESHOLD_DEFINED =>
      if EndTime <=? mtp q then THRESHOLD_FAILED else if BeginTime <=? mtp q then THRESHOLD_STARTED else THRESHOLD_DEFINED
  | THRESHOLD_STARTED =>
      if EndTime <=? mtp q then THRESHOLD_FAILED
      else if Threshold <=? signals (Z.to_nat Period) (Some q) then THRESHOLD_LOCKED_IN else THRESHOLD_STARTED
  | THRESHOLD_LOCKED_IN => THRESHOLD_ACTIVE
  | THRESHOLD_ACTIVE => THRESHOLD_ACTIVE
  | THRESHOLD_FAILED => THRESHOLD_FAILED
  end.

Definition height_of (q : positive) : Z := match H !! q with Some b => nHeight b | None => -1 end.

(** [k] periods back from [p]. *)
Fixpoint bip9_state (k : nat) (p : option positive) : ThresholdState :=
  match k, p with
  | S k, Some q => bip9_step (bip9_state k (ancestor H q (height_of q - Period))) q
  | _, _ => THRESHOLD_DEFINED
  end.

Definition state_at (p : option positive) : ThresholdState :=
  match p with
  | Some q => bip9_state (Z.to_nat ((height_of q + 1) / Period)) (Some q)
  | None => THRESHOLD_DEFINED
  end.

(** The last block of a period. *)
Definition boundary (q : positive) : Prop := is_Some (H !! q) /\ (height_of q + 1) mod Period = 0.

(** The block that decides the state for the child of [p]. *)
Definition period_end (p : option positive) : option positive :=
  q ← p; ancestor H q (height_of q - (height_of q + 1) mod Period).

Definition cache_ok (cache : ThresholdConditionCache) : Prop :=
  forall p s, cache !! p = Some s -> s = state_at p /\ (forall q, p = Some q -> boundary q).

End Spec.

Section Proofs.
Context `{C : ThresholdConditionChecker} (H : heap).
Context (Hwf : chain_wf H) (Htimes : times_ok H) (HP : 0 < Period) (Hbe : BeginTime <= EndTime).

Lemma height_lookup q b : H !! q = Some b -> height_of H q = nHeight b.
Proof. intros Hq. unfold height_of. by rewrite Hq. Qed.

Lemma mtp_ok q b : H !! q = Some b -> GetMedianTimePast H q = Some (mtp H q).
Proof using Hwf. intros Hq. destruct (mtp_some H Hwf q b Hq) as [m Hm]. unfold mtp. by rewrite Hm. Qed.

Lemma count_loop_ok n q b count :
  H !! q = Some b -> Z.of_nat n <= nHeight b + 1 ->
  count_loop H n (Some q) count = Some (count + signals H n (Some q)).
Proof using Hwf.
  revert q b count. induction n as [|n IH]; intros q b count Hq Hn; cbn [count_loop signals]; [by rewrite Z.add_0_r |].
  unfold deref. rewrite !obind_Some, Hq, obind_Some. pose proof (eo_prev _ _ _ (entry H Hwf q b Hq)) as Hprev.
  destruct (pprev b) as [r|] eqn:Er.
  - destruct Hprev as (br & Hr & Eh). rewrite (IH r br) by (done || lia). f_equal. destruct (Condition b); lia.
  - assert (n = 0%nat) as -> by lia. cbn [count_loop signals]. f_equal. destruct (Condition b); lia.
Qed.

(** A boundary is at least a period high. *)
Lemma boundary_height q b :
  boundary H q -> H !! q = Some b -> Period <= nHeight b + 1 /\ (nHeight b + 1) mod Period = 0.
Proof using Hwf HP.
  intros [_ Hm] Hq. rewrite (height_lookup q b Hq) in Hm. split; [| done].
  pose proof (eo_height _ _ _ (entry H Hwf q b Hq)). destruct (Z.le_gt_cases Period (nHeight b + 1)) as [|Hlt]; [done |].
  rewrite Z.mod_small in Hm by lia. lia.
Qed.

Lemma next_state_ok q s : boundary H q -> next_state H q s = Some (bip9_step H s q).
Proof using Hwf HP.
  intros Hb. pose proof Hb as [[b Hq] _]. destruct (boundary_height q b Hb Hq) as [Hh _].
  destruct s; cbn [next_state bip9_step]; try done; rewrite (mtp_ok q b Hq), obind_Some; [done |].
  destruct (EndTime <=? mtp H q); [done |]. rewrite (count_loop_ok _ q b) by (done || lia). by rewrite obind_Some.
Qed.

(** One period back from a boundary. *)
Lemma prev_boundary q b :
  boundary H q -> H !! q = Some b ->
  (nHeight b - Period = -1 /\ ancestor H q (nHeight b - Period) = None) \/
  (exists r br, ancestor H q (nHeight b - Period) = Some r /\ H !! r = Some br /\ boundary H r /\
     nHeight br = nHeight b - Period).
Proof using Hwf HP.
  intros Hb Hq. destruct (boundary_height q b Hb Hq) as [Hh Hm].
  destruct (decide (nHeight b - Period = -1)) as [E|E].
  - left. split; [done |]. unfold ancestor. rewrite Hq, obind_Some, E. by rewrite orb_true_r.
  - right. assert (0 <= nHeight b - Period <= nHeight b) as Hr0 by lia.
    destruct (ancestor_in H Hwf q b (nHeight b - Period) Hq Hr0) as (r & br & Er & Hr & Ehr & _).
    exists r, br. split_and!; [done | done | | done]. split; [by exists br |].
    rewrite (height_lookup r br Hr), Ehr. replace (nHeight b - Period + 1) with (nHeight b + 1 + (-1) * Period) by lia.
    by rewrite Z.mod_add by lia.
Qed.

Lemma state_at_step q b :
  boundary H q -> H !! q = Some b ->
  state_at H (Some q) = bip9_step H (state_at H (ancestor H q (nHeight b - Period))) q.
Proof using Hwf HP.
  intros Hb Hq. destruct (boundary_height q b Hb Hq) as [Hh Hm]. unfold state_at at 1.
  rewrite (height_lookup q b Hq). apply Z.div_exact in Hm; [| lia]. set (k := (nHeight b + 1) / Period) in *.
  assert (1 <= k) by nia. replace (Z.to_nat k) with (S (Z.to_nat (k - 1))) by lia. cbn [bip9_state].
  rewrite (height_lookup q b Hq). f_equal.
  destruct (prev_boundary q b Hb Hq) as [[E ->]|(r & br & -> & Hr & _ & Ehr)]; [by destruct (Z.to_nat (k - 1)) |].
  unfold state_at. rewrite (height_lookup r br Hr), Ehr. do 2 f_equal.
  replace (nHeight b - Period + 1) with ((k - 1) * Period) by lia. by rewrite Z.div_mul by lia.
Qed.

(** Before the start the state is DEFINED, and was all along. *)
Lemma early_defined q : boundary H q -> mtp H q < BeginTime -> state_at H (Some q) = THRESHOLD_DEFINED.
Proof using Hwf Htimes HP Hbe.
  intros Hb Hm. pose proof Hb as [[b Hq] _]. remember (Z.to_nat (nHeight b)) as n eqn:Hn.
  revert q b Hb Hq Hm Hn. induction n as [n IH] using (well_founded_induction lt_wf). intros q b Hb Hq Hm Hn.
  rewrite (state_at_step q b Hb Hq). assert (state_at H (ancestor H q (nHeight b - Period)) = THRESHOLD_DEFINED) as ->.
  { pose proof (eo_height _ _ _ (entry H Hwf q b Hq)).
    destruct (prev_boundary q b Hb Hq) as [[_ ->]|(r & br & Er & Hr & Hbr & Ehr)]; [done |]. rewrite Er.
    apply (IH (Z.to_nat (nHeight br)) ltac:(pose proof (eo_height _ _ _ (entry H Hwf r br Hr)); lia) r br); [done | done | | done].
    unfold ancestor in Er. rewrite Hq, obind_Some in Er. destruct (_ || _); [done |].
    pose proof (mtp_back H Hwf _ q b r _ _ Htimes Hq Er (mtp_ok r br Hr) (mtp_ok q b Hq)). lia. }
  cbn [bip9_step]. by rewrite (proj2 (Z.leb_gt EndTime _)), (proj2 (Z.leb_gt BeginTime _)) by lia.
Qed.

Lemma cache_ok_insert cache p :
  cache_ok H cache -> (forall q, p = Some q -> boundary H q) -> cache_ok H (<[p := state_at H p]> cache).
Proof. intros Hc Hp p' s Hs. apply lookup_insert_Some in Hs as [[<- <-]|[_ Hs]]; [done | by apply Hc]. Qed.

(** The stack holds the boundaries from just above [p] up to the one asked for. *)
Inductive stacked : option positive -> list positive -> option positive -> Prop :=
  | stacked_nil p : stacked p [] p
  | stacked_cons p q b st top :
      boundary H q -> H !! q = Some b -> p = ancestor H q (nHeight b - Period) ->
      stacked (Some q) st top -> stacked p (q :: st) top.

Lemma walk_forward_ok p st top cache :
  stacked p st top -> cache_ok H cache ->
  exists cache', walk_forward H st (state_at H p) cache = Some (state_at H top, cache') /\ cache_ok H cache'.
Proof using Hwf HP.
  intros Hst. revert cache. induction Hst as [p|p q b st top Hb Hq -> Hst IH]; intros cache Hc; cbn [walk_forward].
  - by exists cache.
  - rewrite next_state_ok, obind_Some by done. rewrite <- (state_at_step q b Hb Hq). apply IH.
    apply cache_ok_insert; [done |]. by intros r [= <-].
Qed.

Lemma walk_back_ok fuel p st top cache :
  cache_ok H cache -> stacked p st top -> (forall q, p = Some q -> boundary H q) ->
  (match p with Some q => height_of H q + 1 | None => 0 end) <= Z.of_nat fuel ->
  exists p' st' cache', walk_back H fuel p st cache = Some (p', st', cache') /\
    cache_ok H cache' /\ stacked p' st' top /\ cache' !! p' = Some (state_at H p').
Proof using Hwf Htimes HP Hbe.
  revert p st. induction fuel as [|fuel IH]; intros p st Hc Hst Hp Hf; cbn [walk_back];
    (destruct (cache !! p) as [s|] eqn:Es; [exists p, st, cache; destruct (Hc p s Es) as [-> _]; done |]).
  - destruct p as [q|].
    + destruct (Hp q eq_refl) as [[b Hq] _]. rewrite (height_lookup q b Hq) in Hf.
      pose proof (eo_height _ _ _ (entry H Hwf q b Hq)). lia.
    + exists None, st, (<[None := THRESHOLD_DEFINED]> cache). split_and!; [done | | done | by rewrite lookup_insert_eq].
      by apply (cache_ok_insert cache None).
  - destruct p as [q|].
    2:{ exists None, st, (<[None := THRESHOLD_DEFINED]> cache). split_and!; [done | | done | by rewrite lookup_insert_eq].
        by apply (cache_ok_insert cache None). }
    pose proof (Hp q eq_refl) as Hb. pose proof Hb as [[b Hq] _]. rewrite (mtp_ok q b Hq), obind_Some.
    destruct (Z.ltb_spec (mtp H q) BeginTime) as [Hlt|Hge].
    + rewrite <- (early_defined q Hb Hlt). eexists _, _, _. split_and!; [done | by apply cache_ok_insert | done | by rewrite lookup_insert_eq].
    + rewrite Hq, obind_Some, (GetAncestor_ok H Hwf q b _ Hq), obind_Some. rewrite (height_lookup q b Hq) in Hf.
      apply IH; [done | by eapply stacked_cons | |].
      * destruct (prev_boundary q b Hb Hq) as [[_ ->]|(r & br & -> & _ & Hbr & _)]; [done | by intros ? [= <-]].
      * destruct (prev_boundary q b Hb Hq) as [[_ ->]|(r & br & -> & Hr & _ & Ehr)]; [lia |].
        rewrite (height_lookup r br Hr). lia.
Qed.

Lemma period_end_ok p :
  (forall q, p = Some q -> is_Some (H !! q)) -> forall q, period_end H p = Some q ->
  boundary H q /\ exists r br, p = Some r /\ H !! r = Some br /\ height_of H q <= nHeight br.
Proof using Hwf HP.
  intros Hp q. destruct p as [r|]; [| done]. unfold period_end. rewrite obind_Some. intros E.
  destruct (Hp r eq_refl) as [br Hr]. rewrite (height_lookup r br Hr) in E.
  pose proof (eo_height _ _ _ (entry H Hwf r br Hr)). pose proof (Z.mod_pos_bound (nHeight br + 1) Period HP).
  assert (0 <= nHeight br - (nHeight br + 1) mod Period <= nHeight br) as Hr0.
  { unfold ancestor in E. rewrite Hr, obind_Some in E.
    destruct (Z.ltb_spec (nHeight br - (nHeight br + 1) mod Period) 0); [by rewrite orb_true_r in E | lia]. }
  destruct (ancestor_in H Hwf r br _ Hr Hr0) as (q' & bq & E' & Hq & Eh & _).
  rewrite E in E'. injection E' as <-. split.
  - split; [by exists bq |]. rewrite (height_lookup q bq Hq), Eh.
    replace (nHeight br - (nHeight br + 1) mod Period + 1) with (Period * ((nHeight br + 1) / Period)).
    2:{ pose proof (Z.div_mod (nHeight br + 1) Period). lia. }
    rewrite Z.mul_comm. apply Z.mod_mul. lia.
  - exists r, br. rewrite (height_lookup q bq Hq). split_and!; [done | done | lia].
Qed.

Lemma GetStateFor_ok p cache :
  (forall q, p = Some q -> is_Some (H !! q)) -> cache_ok H cache ->
  exists cache', GetStateFor H p cache = Some (state_at H (period_end H p), cache') /\ cache_ok H cache'.
Proof using Hwf Htimes HP Hbe.
  intros Hp Hc. unfold GetStateFor. rewrite (proj2 (Z.eqb_neq Period 0)) by lia.
  assert (exists n, match p with
      | None => Some (None, 0%nat)
      | Some p =>
          b ← H !! p;
          a ← GetAncestor H p (nHeight b - Z.rem (nHeight b + 1) Period);
          Some (a, S (Z.to_nat (nHeight b)))
      end = Some (period_end H p, n) /\
      (match period_end H p with Some q => height_of H q + 1 | None => 0 end) <= Z.of_nat n) as (n & -> & Hn).
  { destruct p as [r|]; [| by exists 0%nat]. destruct (Hp r eq_refl) as [br Hr]. rewrite Hr, obind_Some.
    pose proof (eo_height _ _ _ (entry H Hwf r br Hr)). rewrite (GetAncestor_ok H Hwf r br _ Hr), obind_Some.
    rewrite Z.rem_mod_nonneg by lia. exists (S (Z.to_nat (nHeight br))). split.
    - unfold period_end. by rewrite obind_Some, (height_lookup r br Hr).
    - destruct (period_end H (Some r)) as [q|] eqn:Eq; [| lia].
      destruct (period_end_ok (Some r) Hp q Eq) as (_ & r' & br' & [= <-] & Hr' & Hle).
      rewrite Hr in Hr'. injection Hr' as <-. lia. }
  rewrite obind_Some. cbv beta iota.
  destruct (walk_back_ok n (period_end H p) [] (period_end H p) cache) as (p' & st & cache' & -> & Hc' & Hst & Hs);
    [done | constructor | intros q Hq; by apply (period_end_ok p Hp q) | done |].
  rewrite obind_Some. cbv beta iota. rewrite Hs, obind_Some. by apply walk_forward_ok with (p := p').
Qed.

(** ** Where the state goes *)

(** [r] ends a period that begins after boundary [q] ended one, on its chain. *)
Definition later (q r : positive) (n : nat) : Prop :=
  boundary H r /\ height_of H r = height_of H q + Z.of_nat n * Period /\ ancestor H r (height_of H q) = Some q.

Lemma later_prev q r n b :
  boundary H q -> later q r (S n) -> H !! r = Some b ->
  exists r', ancestor H r (nHeight b - Period) = Some r' /\ later q r' n.
Proof using Hwf HP.
  intros Hb (Hbr & Eh & Ea) Hr. rewrite (height_lookup r b Hr) in Eh. pose proof Hb as [[bq Hq] _].
  pose proof (eo_height _ _ _ (entry H Hwf q bq Hq)). rewrite (height_lookup q bq Hq) in *.
  destruct (prev_boundary r b Hbr Hr) as [[E _]|(r' & br' & E & Hr' & Hb' & Eh')]; [nia |].
  exists r'. split; [done |]. split_and!; [done | |].
  - rewrite (height_lookup r' br' Hr'), (height_lookup q bq Hq). lia.
  - rewrite (height_lookup q bq Hq), <- Ea. apply (ancestor_trans H Hwf r b (nHeight b - Period)); [done | done | nia].
Qed.

Lemma later_0 q r : later q r 0 -> r = q.
Proof using Hwf.
  intros ([[b Hr] _] & Eh & Ea). rewrite (height_lookup r b Hr) in *.
  replace (height_of H q) with (nHeight b) in Ea by lia. rewrite (ancestor_self H Hwf r b Hr) in Ea. by injection Ea.
Qed.

Lemma terminal_state q r n s :
  boundary H q -> later q r n -> s = THRESHOLD_ACTIVE \/ s = THRESHOLD_FAILED ->
  state_at H (Some q) = s -> state_at H (Some r) = s.
Proof using Hwf HP.
  intros Hb Hl Hs Eq. revert r Hl. induction n as [|n IH]; intros r Hl; [by rewrite (later_0 q r Hl) |].
  pose proof Hl as ([[b Hr] _] & _). destruct (later_prev q r n b Hb Hl Hr) as (r' & E & Hl').
  destruct Hl as [Hbr _]. rewrite (state_at_step r b Hbr Hr), E, (IH r' Hl'). by destruct Hs as [-> | ->].
Qed.

Lemma locked_then_active q r n :
  boundary H q -> later q r (S n) -> state_at H (Some q) = THRESHOLD_LOCKED_IN -> state_at H (Some r) = THRESHOLD_ACTIVE.
Proof using Hwf HP.
  intros Hb. revert r. induction n as [|n IH]; intros r Hl Eq; pose proof Hl as ([[b Hr] _] & _);
    destruct (later_prev q r _ b Hb Hl Hr) as (r' & E & Hl'); destruct Hl as [Hbr _];
    rewrite (state_at_step r b Hbr Hr), E.
  - by rewrite (later_0 q r' Hl'), Eq.
  - by rewrite (IH r' Hl' Eq).
Qed.

End Proofs.

(** ** A growing index *)

Section Growth.
Context `{C : ThresholdConditionChecker} (H H' : heap).
Context (Hwf : chain_wf H) (Hwf' : chain_wf H') (Hsub : H ⊆ H').

Lemma deref_grow p : (forall q, p = Some q -> is_Some (H !! q)) -> deref H' p = deref H p.
Proof using Hsub.
  intros Hp. destruct p as [q|]; [| done]. destruct (Hp q eq_refl) as [b Hq]. unfold deref.
  rewrite !obind_Some, Hq. by apply (lookup_weaken H).
Qed.

Lemma prev_closed q b : H !! q = Some b -> forall r, pprev b = Some r -> is_Some (H !! r).
Proof using Hwf.
  intros Hq r Er. pose proof (eo_prev _ _ _ (entry H Hwf q b Hq)) as Hprev. rewrite Er in Hprev.
  destruct Hprev as (br & Hr & _). by exists br.
Qed.

Lemma window_grow n p : (forall q, p = Some q -> is_Some (H !! q)) -> window H' n p = window H n p.
Proof using Hwf Hsub.
  revert p. induction n as [|n IH]; intros p Hp; [done |]. cbn [window]. rewrite deref_grow by done.
  destruct p as [q|]; [| done]. destruct (Hp q eq_refl) as [b Hq]. unfold deref. rewrite obind_Some, Hq.
  f_equal. apply IH. by apply (prev_closed q b).
Qed.

Lemma signals_grow n p : (forall q, p = Some q -> is_Some (H !! q)) -> signals H' n p = signals H n p.
Proof using Hwf Hsub.
  revert p. induction n as [|n IH]; intros p Hp; [done |]. cbn [signals]. rewrite deref_grow by done.
  destruct p as [q|]; [| done]. destruct (Hp q eq_refl) as [b Hq]. unfold deref. rewrite obind_Some, Hq.
  f_equal. apply IH. by apply (prev_closed q b).
Qed.

Lemma height_grow q b : H !! q = Some b -> height_of H' q = height_of H q.
Proof using Hsub. intros Hq. unfold height_of. by rewrite Hq, (lookup_weaken H H' q b Hq Hsub). Qed.

Lemma ancestor_grow q b h : H !! q = Some b -> ancestor H' q h = ancestor H q h.
Proof using Hwf Hsub.
  intros Hq. destruct (decide (0 <= h <= nHeight b)) as [Hh|Hh].
  - destruct (ancestor_in H Hwf q b h Hq Hh) as (r & br & E & _ & _ & Eb). rewrite E. unfold ancestor.
    rewrite (lookup_weaken H H' q b Hq Hsub), obind_Some.
    rewrite (proj2 (Z.ltb_ge _ h)), (proj2 (Z.ltb_ge h 0)) by lia. by apply (back_mono H H').
  - unfold ancestor. rewrite (lookup_weaken H H' q b Hq Hsub), Hq, !obind_Some.
    destruct (Z.ltb_spec (nHeight b) h), (Z.ltb_spec h 0); cbn [orb]; (done || lia).
Qed.

Lemma mtp_grow q b : H !! q = Some b -> mtp H' q = mtp H q.
Proof using Hwf Hwf' Hsub.
  intros Hq. unfold mtp. rewrite (GetMedianTimePast_ok H Hwf q b Hq).
  rewrite (GetMedianTimePast_ok H' Hwf' q b (lookup_weaken H H' q b Hq Hsub)).
  by rewrite window_grow by (intros r [= <-]; by exists b).
Qed.

Lemma bip9_state_grow k p :
  (forall q, p = Some q -> is_Some (H !! q)) -> bip9_state H' k p = bip9_state H k p.
Proof using Hwf Hwf' Hsub.
  revert p. induction k as [|k IH]; intros p Hp; [done |]. destruct p as [q|]; [| done]. cbn [bip9_state].
  destruct (Hp q eq_refl) as [b Hq]. rewrite (height_grow q b Hq), (ancestor_grow q b _ Hq), IH.
  - unfold bip9_step. rewrite (mtp_grow q b Hq). by rewrite signals_grow by (intros r [= <-]; by exists b).
  - intros r Er. destruct (decide (0 <= height_of H q - Period <= nHeight b)) as [Hh|Hh].
    + destruct (ancestor_in H Hwf q b _ Hq Hh) as (r' & br & E & Hr & _). rewrite E in Er. injection Er as <-. by exists br.
    + unfold ancestor in Er. rewrite Hq, obind_Some in Er.
      destruct (Z.ltb_spec (nHeight b) (height_of H q - Period)), (Z.ltb_spec (height_of H q - Period) 0); cbn [orb] in Er; (done || lia).
Qed.

(** Cached states stay right when blocks are added. *)
Lemma cache_ok_grow cache : cache_ok H cache -> cache_ok H' cache.
Proof using Hwf Hwf' Hsub.
  intros Hc p s Hs. destruct (Hc p s Hs) as [-> Hb]. destruct p as [q|]; [| done].
  destruct (Hb q eq_refl) as [[b Hq] Hm]. split.
  - unfold state_at. rewrite (height_grow q b Hq). symmetry. apply bip9_state_grow. intros r [= <-]. by exists b.
  - intros r [= <-]. split; [exists b; by apply (lookup_weaken H) | by rewrite (height_grow q b Hq)].
Qed.

End Growth.
