(* ===== verification/VersionBitsTheorems.v ===== *)
(** * BIP9 deployments: theorems *)

From stdpp Require Import gmap sorting.
From S2P Require Import Prelude MdHash Hash ArithUint Pow BlockIndex BlockIndexProofs BlockIndexTheorems MedianTime VersionBits.
#[local] Open Scope Z_scope.

(** [GetMedianTimePast] is the median of the times of the last eleven blocks: at least
    half of them, itself included, are not earlier and more than half not later.  When every
    block is later than the median before it, as headers are required to be, the median
    never decreases from a block to its descendants. *)
Theorem median_time_past_correct H p b :
  chain_wf H -> H !! p = Some b ->
  exists m, GetMedianTimePast H p = Some m /\ m ∈ window H 11 (Some p) /\
    (length (window H 11 (Some p)) - length (window H 11 (Some p)) / 2 <= count_ge m (window H 11 (Some p)))%nat /\
    (count_ge (m + 1) (window H 11 (Some p)) < length (window H 11 (Some p)) - length (window H 11 (Some p)) / 2)%nat /\
    (times_ok H -> forall n q m', back H n p = Some q -> GetMedianTimePast H q = Some m' -> m' <= m).
Proof.
  intros Hwf Hp. destruct (mtp_some H Hwf p b Hp) as [m Hm]. exists m.
  pose proof Hm as Hmed. rewrite (GetMedianTimePast_ok H Hwf p b Hp) in Hmed. split_and!; [done | | | |].
  - unfold median in Hmed. apply list_elem_of_lookup_2 in Hmed. by rewrite merge_sort_Permutation in Hmed.
  - apply (median_count _ _ m Hmed). lia.
  - apply Nat.lt_nge. intros Hc. apply (median_count _ _ (m + 1) Hmed) in Hc. lia.
  - intros Ht n q m' Hb Hm'. by apply (mtp_back H Hwf n p b q).
Qed.

Lemma median_time_past_correct_witness :
  exists m, GetMedianTimePast toy_heap 3 = Some m /\ m ∈ window toy_heap 11 (Some 3%positive).
Proof.
  destruct (median_time_past_correct toy_heap 3 (toy_entry 12 (Some 2%positive) (Some 1%positive) 2 300) toy_wf)
    as (m & E & Hin & _); [reflexivity |]. exists m. exact (conj E Hin).
Defined.

(** The caches of all deployments. *)
Definition caches_ok (H : heap) (params : Params) (caches : VersionBitsCache) : Prop :=
  forall pos d mask cache, vDeployments params !! pos = Some d -> Mask d = Some mask -> caches !! pos = Some cache ->
    cache_ok (C := VersionBitsConditionChecker params d mask) H cache.

Definition deployment_ok (d : BIP9Deployment) : Prop := 0 <= d_bit d < 32 /\ d_nStartTime d <= d_nTimeout d.

Lemma VersionBitsState_ok H params pos d p caches :
  chain_wf H -> times_ok H -> 0 < nMinerConfirmationWindow params < 2 ^ 31 ->
  vDeployments params !! pos = Some d -> deployment_ok d -> (pos < length caches)%nat ->
  (forall q, p = Some q -> is_Some (H !! q)) -> caches_ok H params caches ->
  exists mask caches', Mask d = Some mask /\
    VersionBitsState H p params pos caches
      = Some (state_at (C := VersionBitsConditionChecker params d mask) H
                (period_end (C := VersionBitsConditionChecker params d mask) H p), caches') /\
    caches_ok H params caches' /\ length caches' = length caches.
Proof.
  intros Hwf Ht Hw Hd [Hbit Hse] Hpos Hp Hc. unfold VersionBitsState. rewrite Hd, obind_Some.
  assert (Mask d = Some (u32 (1 << d_bit d))) as Em.
  { unfold Mask. by rewrite (proj2 (Z.leb_le 0 _)), (proj2 (Z.ltb_lt _ 32)) by lia. }
  rewrite Em, obind_Some. destruct (lookup_lt_is_Some_2 caches pos Hpos) as [cache Hcache]. rewrite Hcache, obind_Some.
  pose (CK := VersionBitsConditionChecker params d (u32 (1 << d_bit d))).
  assert (0 < @Period CK) as HP by (cbn; unfold to_int; rewrite (proj2 (Z.ltb_lt _ (2 ^ 31))) by lia; lia).
  destruct (GetStateFor_ok (C := CK) H Hwf Ht HP Hse p cache Hp (Hc pos d _ cache Hd Em Hcache)) as (cache' & E & Hc').
  fold CK. rewrite E, obind_Some. exists (u32 (1 << d_bit d)), (<[pos := cache']> caches). split_and!; [done | done | | by rewrite length_insert].
  intros pos2 d2 mask2 cache2 Hd2 Em2 Hc2. destruct (decide (pos2 = pos)) as [->|Hne].
  - rewrite list_lookup_insert_eq in Hc2 by done. injection Hc2 as <-. rewrite Hd in Hd2. injection Hd2 as <-.
    rewrite Em in Em2. injection Em2 as <-. exact Hc'.
  - rewrite list_lookup_insert_ne in Hc2 by done. by apply (Hc pos2 d2 mask2).
Qed.

(** C31. [VersionBitsState] returns the BIP9 state of a deployment for the child of a block: the
    one obtained by running the state machine over every period from genesis, without cache
    and without the shortcut for periods before the start; whatever the caches answered
    before, they stay right. *)
Theorem version_bits_state_correct H params pos d p caches :
  chain_wf H -> times_ok H -> 0 < nMinerConfirmationWindow params < 2 ^ 31 ->
  vDeployments params !! pos = Some d -> deployment_ok d -> (pos < length caches)%nat ->
  (forall q, p = Some q -> is_Some (H !! q)) -> caches_ok H params caches ->
  exists mask caches', Mask d = Some mask /\
    VersionBitsState H p params pos caches
      = Some (state_at (C := VersionBitsConditionChecker params d mask) H
                (period_end (C := VersionBitsConditionChecker params d mask) H p), caches') /\
    caches_ok H params caches'.
Proof.
  intros Hwf Ht Hw Hd Hok Hpos Hp Hc.
  destruct (VersionBitsState_ok H params pos d p caches Hwf Ht Hw Hd Hok Hpos Hp Hc) as (mask & caches' & E1 & E2 & H3 & _). by exists mask, caches'.
Qed.

(** Every block of a short toy chain signals. *)
Definition toy_params : Params := mkParams 1 1 [mkDeployment 1 150 1000].

Lemma toy_times : times_ok toy_heap.
Proof.
  intros p b q m Hp. unfold toy_heap in Hp.
  do 4 (apply lookup_insert_Some in Hp as [[<- <-]|[_ Hp]];
    [intros Eq Hm; first [discriminate Eq | injection Eq as <-; vm_compute in Hm; injection Hm as <-; done] |]).
  by rewrite lookup_empty in Hp.
Qed.

Lemma version_bits_state_correct_witness :
  exists mask caches', Mask (mkDeployment 1 150 1000) = Some mask /\
    VersionBitsState toy_heap (Some 3%positive) toy_params 0 [∅]
      = Some (state_at (C := VersionBitsConditionChecker toy_params (mkDeployment 1 150 1000) mask) toy_heap
                (period_end (C := VersionBitsConditionChecker toy_params (mkDeployment 1 150 1000) mask) toy_heap (Some 3%positive)), caches') /\
    caches_ok toy_heap toy_params caches'.
Proof.
  apply (version_bits_state_correct toy_heap toy_params 0 (mkDeployment 1 150 1000) (Some 3%positive) [∅]);
    [exact toy_wf | exact toy_times | done | reflexivity | unfold deployment_ok; cbn; lia | cbn; lia | |].
  - intros q [= <-]. by eexists.
  - intros pos d mask cache _ _ Hc p s Hs. destruct pos; [injection Hc as <- | done]. by rewrite lookup_empty in Hs.
Defined.

(** A deployment that is STARTED and gets enough signalling blocks in a period before its
    timeout is LOCKED_IN at the end of that period, and ACTIVE for every block built on
    that chain from the end of the next period on, for ever. *)
Theorem version_bits_activation `{C : ThresholdConditionChecker} H q b n p cache :
  chain_wf H -> times_ok H -> 0 < Period -> BeginTime <= EndTime -> cache_ok H cache ->
  boundary H q -> H !! q = Some b ->
  state_at H (ancestor H q (nHeight b - Period)) = THRESHOLD_STARTED ->
  mtp H q < EndTime -> Threshold <= signals H (Z.to_nat Period) (Some q) ->
  (forall x, p = Some x -> is_Some (H !! x)) ->
  (exists r, period_end H p = Some r /\ later H q r (S n)) ->
  state_at H (Some q) = THRESHOLD_LOCKED_IN /\
  exists cache', GetStateFor H p cache = Some (THRESHOLD_ACTIVE, cache').
Proof.
  intros Hwf Ht HP Hbe Hc Hb Hq Es Hm Hs Hp (r & Er & Hl).
  assert (state_at H (Some q) = THRESHOLD_LOCKED_IN) as El.
  { rewrite (state_at_step H Hwf HP q b Hb Hq), Es. cbn [bip9_step].
    by rewrite (proj2 (Z.leb_gt _ _)), (proj2 (Z.leb_le _ _)) by done. }
  split; [done |]. destruct (GetStateFor_ok H Hwf Ht HP Hbe p cache Hp Hc) as (cache' & E & _).
  exists cache'. by rewrite E, Er, (locked_then_active H Hwf HP q r n Hb Hl El).
Qed.

(** A checker every block satisfies, with periods of one block. *)
Definition toy_checker : ThresholdConditionChecker :=
  {| Condition _ := true; BeginTime := 50; EndTime := 1000; Period := 1; Threshold := 1 |}.

Lemma version_bits_activation_witness :
  state_at (C := toy_checker) toy_heap (Some 2%positive) = THRESHOLD_LOCKED_IN /\
  exists cache', GetStateFor (C := toy_checker) toy_heap (Some 3%positive) ∅ = Some (THRESHOLD_ACTIVE, cache').
Proof.
  apply (version_bits_activation (C := toy_checker) toy_heap 2%positive
    (toy_entry 11 (Some 1%positive) (Some 1%positive) 1 200) 0 (Some 3%positive) ∅).
  - exact toy_wf.
  - exact toy_times.
  - reflexivity.
  - vm_compute. discriminate.
  - intros p s Hs. by rewrite lookup_empty in Hs.
  - split; [by eexists | reflexivity].
  - reflexivity.
  - vm_compute. reflexivity.
  - vm_compute. reflexivity.
  - vm_compute. discriminate.
  - intros x [= <-]. by eexists.
  - exists 3%positive. split; [vm_compute; reflexivity |]. split_and!; [split; [by eexists | reflexivity] | reflexivity..].
Defined.

(** ACTIVE and FAILED are final: once the end of a period is in one of them, so is the end
    of every later period on that chain; and states already cached stay right when blocks
    are added to the index. *)
Theorem version_bits_final `{C : ThresholdConditionChecker} H H' q r n s cache :
  chain_wf H -> chain_wf H' -> H ⊆ H' -> 0 < Period -> cache_ok H cache ->
  boundary H q -> later H q r n -> s = THRESHOLD_ACTIVE \/ s = THRESHOLD_FAILED ->
  state_at H (Some q) = s ->
  state_at H (Some r) = s /\ cache_ok H' cache.
Proof.
  intros Hwf Hwf' Hsub HP Hc Hb Hl Hs Eq. split; [by apply (terminal_state H Hwf HP q r n) |].
  by apply (cache_ok_grow H H' Hwf Hwf' Hsub).
Qed.

Definition toy_small : heap := delete 4%positive toy_heap.

Lemma toy_small_wf : chain_wf toy_small.
Proof.
  assert (toy_small = <[1%positive := toy_entry 10 None None 0 100]>
    (<[2%positive := toy_entry 11 (Some 1%positive) (Some 1%positive) 1 200]>
    (<[3%positive := toy_entry 12 (Some 2%positive) (Some 1%positive) 2 300]> ∅))) as E by (by vm_compute).
  unfold chain_wf. rewrite E at 2. repeat apply map_Forall_insert_2; [.. | apply map_Forall_empty];
    (split; [done | | intros s Es; revert Es; by vm_compute]).
  - done.
  - exists (toy_entry 10 None None 0 100). done.
  - exists (toy_entry 11 (Some 1%positive) (Some 1%positive) 1 200). done.
Qed.

Lemma version_bits_final_witness :
  state_at (C := toy_checker) toy_small (Some 3%positive) = THRESHOLD_ACTIVE /\
  cache_ok (C := toy_checker) toy_heap {[ None := THRESHOLD_DEFINED ]}.
Proof.
  apply (version_bits_final (C := toy_checker) toy_small toy_heap 3%positive 3%positive 0 THRESHOLD_ACTIVE).
  - exact toy_small_wf.
  - exact toy_wf.
  - apply delete_subseteq.
  - reflexivity.
  - intros p s Hs. apply lookup_singleton_Some in Hs as [<- <-]. split; [reflexivity | discriminate].
  - split; [by eexists | reflexivity].
  - split_and!; [split; [by eexists | reflexivity] | reflexivity..].
  - by left.
  - vm_compute. reflexivity.
Defined.
