(* ===== verification/BlockPow.v ===== *)
(** * Proof of work of a header: GetPoWHash (primitives/block.cpp) and CheckBlockHeader (main.cpp)

    The proof-of-work hash is Lyra2 over the 80 octets of the header, kept in the map
    [mapPoWHash] by height.  [fTestNet] says whether the network is the test network; the
    allocations inside Lyra2 are the argument [a].  The theorems follow the definitions. *)

From stdpp Require Import gmap.
From S2P Require Import Prelude Lyra2 Lyra2Spec Lyra2Input Lyra2Theorems MdHash ShaSpec Hash ArithUint ArithUintProofs Pow BlockIndex BlockIndexTheorems.
#[local] Open Scope Z_scope.

Abbreviation pow_cache := (gmap Z (list Z)).

(** The 80 octets at [BEGIN(nVersion)]: the fields lie one after the other. *)
Definition header_memory (b : CBlockHeader) : list Z :=
  le_bytes 4 (h_nVersion b) ++ hashPrevBlock b ++ h_hashMerkleRoot b ++
  le_bytes 4 (h_nTime b) ++ le_bytes 4 (h_nBits b) ++ le_bytes 4 (h_nNonce b).

(** [for (int i = 1; i < 0; i++)]: nothing is inserted. *)
Definition buildMapPoWHash (mapPoWHash : pow_cache) : pow_cache := mapPoWHash.

(** [std::map::insert]: an entry that is there stays. *)
Definition map_insert (k : Z) (v : list Z) (m : pow_cache) : pow_cache :=
  match m !! k with Some _ => m | None => <[k := v]> m end.

(** The return code of [LYRA2] is ignored; [powHash] starts as zero. *)
Definition GetPoWHash (a : allocs) (fTestNet : bool) (b : CBlockHeader) (nHeight : Z) (forceCalc : bool)
    (mapPoWHash : pow_cache) : option (list Z * pow_cache) :=
  let mapPoWHash :=
    if negb fTestNet && (nHeight <? 0) && negb (bool_decide (is_Some (mapPoWHash !! 1)))
    then buildMapPoWHash mapPoWHash else mapPoWHash in
  match (if negb fTestNet && negb forceCalc then mapPoWHash !! nHeight else None) with
  | Some h => Some (h, mapPoWHash)
  | None =>
      let m := header_memory b in
      '(_, powHash) ← LYRA2 a (replicate 32 0) 32 m 80 m 80 2 330 256;
      Some (powHash, map_insert nHeight powHash mapPoWHash)
  end.

Definition InvalidateCachedPoWHash (nHeight : Z) (mapPoWHash : pow_cache) : pow_cache :=
  if (0 <=? nHeight) && bool_decide (is_Some (mapPoWHash !! nHeight)) then delete nHeight mapPoWHash
  else mapPoWHash.

(** The result, [false] standing for [state.DoS(50, .., "high-hash")]. *)
Definition CheckBlockHeader (a : allocs) (fTestNet : bool) (ix : index) (block : CBlockHeader) (powLimit : list Z)
    (fCheckPOW : bool) (mapPoWHash : pow_cache) : option (bool * pow_cache) :=
  nHeight ← ZerocoinGetNHeight ix block;
  if negb fCheckPOW then Some (true, mapPoWHash)
  else
    '(h, mapPoWHash) ← GetPoWHash a fTestNet block nHeight false mapPoWHash;
    if CheckProofOfWork h (h_nBits block) powLimit then Some (true, mapPoWHash)
    else
      '(h, mapPoWHash) ← GetPoWHash a fTestNet block nHeight true mapPoWHash;
      Some (CheckProofOfWork h (h_nBits block) powLimit, mapPoWHash).

(** * Proof of work of a header: theorems

    [pow_hash b] is the Lyra2 digest the header is meant to be judged by. *)

#[local] Open Scope Z_scope.

Definition pow_hash (b : CBlockHeader) : list Z := lyra2 32 (header_memory b) (header_memory b) 2 330 256.

Lemma header_memory_ok b : header_ok b -> Forall (fits 8) (header_memory b) /\ length (header_memory b) = 80%nat.
Proof.
  intros Hb. destruct (header_octets b Hb) as [Hf Hl]. unfold SerializationOp in *. cbn [concat] in *.
  rewrite app_nil_r in *. done.
Qed.

Lemma pow_call b : header_ok b -> lyra2_call (replicate 32 0) 32 (header_memory b) (header_memory b) 330 256.
Proof.
  intros Hb. destruct (header_memory_ok b Hb) as [Hf Hl]. split; [lia | lia | lia | | | | done | done].
  - rewrite !Nat2Z.inj_mul. done.
  - unfold n_blocks. rewrite Hl. apply Nat2Z.inj_le. rewrite !Nat2Z.inj_mul. vm_compute. discriminate.
  - split; [by rewrite length_replicate | done].
Qed.

Lemma pow_run b :
  header_ok b ->
  LYRA2 (Allocs true true true) (replicate 32 0) 32 (header_memory b) 80 (header_memory b) 80 2 330 256
  = Some (0, pow_hash b).
Proof.
  intros Hb. destruct (lyra2_refines (replicate 32 0) 32 (header_memory b) (header_memory b) 2 330 256 (pow_call b Hb) ltac:(lia)) as [E Hl].
  destruct (header_memory_ok b Hb) as [_ Hlen]. rewrite Hlen in E. change (Z.of_nat 32) with 32 in E.
  change (Z.of_nat 80) with 80 in E. change (Z.of_nat 2) with 2 in E. change (Z.of_nat 330) with 330 in E.
  change (Z.of_nat 256) with 256 in E. rewrite E. clear E. unfold pow_hash.
  generalize (lyra2 32 (header_memory b) (header_memory b) 2 330 256). intros d.
  rewrite (drop_ge (replicate 32 0)) by (rewrite length_replicate; lia). rewrite app_nil_r. reflexivity.
Qed.

#[local] Opaque pow_hash.

(** What [powHash] holds after [LYRA2]: the digest, or the zero it started with when memory ran
    out. *)
Definition header_digest (a : allocs) (b : CBlockHeader) : list Z :=
  if alloc_matrix a && alloc_rows a && alloc_state a then pow_hash b else replicate 32 0.

Lemma header_digest_all b : header_digest (Allocs true true true) b = pow_hash b.
Proof. unfold header_digest. cbn [alloc_matrix alloc_rows alloc_state andb]. reflexivity. Qed.

Lemma header_run a b : header_ok b ->
  exists r, LYRA2 a (replicate 32 0) 32 (header_memory b) 80 (header_memory b) 80 2 330 256 = Some (r, header_digest a b).
Proof.
  intros Hb. unfold header_digest. destruct (alloc_matrix a && alloc_rows a && alloc_state a) eqn:Ea.
  - exists 0. rewrite !andb_true_iff in Ea. destruct a as [a1 a2 a3], Ea as [[Ha1 Ha2] Ha3]. cbn in Ha1, Ha2, Ha3. subst. by apply pow_run.
  - exists (-1). destruct (header_memory_ok b Hb) as [_ Hlen].
    pose proof (lyra2_alloc_failure a (replicate 32 0) 32 (header_memory b) (header_memory b) 2 330 256 (pow_call b Hb) Ea) as E.
    rewrite Hlen in E. exact E.
Qed.

Lemma GetPoWHash_run a t b h force m : header_ok b ->
  GetPoWHash a t b h force m =
    Some (match (if negb t && negb force then m !! h else None) with
          | Some ph => (ph, m)
          | None => (header_digest a b, map_insert h (header_digest a b) m) end).
Proof.
  intros Hb. unfold GetPoWHash, buildMapPoWHash.
  replace (if negb t && (h <? 0) && negb (bool_decide (is_Some (m !! 1))) then m else m) with m by (by destruct (_ && _)).
  destruct (if negb t && negb force then m !! h else None); [done |]. destruct (header_run a b Hb) as [r E].
  cbv zeta. rewrite E. by rewrite obind_Some.
Qed.

(** The header's own hash meets the target, or the one cached for its height does. *)
Definition header_work (a : allocs) (fTestNet : bool) (ix : index) (block : CBlockHeader) (powLimit : list Z) (m : pow_cache) : Prop :=
  exists h, ZerocoinGetNHeight ix block = Some h /\
    (CheckProofOfWork (header_digest a block) (h_nBits block) powLimit = true \/
     fTestNet = false /\ exists ph, m !! h = Some ph /\ CheckProofOfWork ph (h_nBits block) powLimit = true).

Lemma CheckBlockHeader_work a t ix block h powLimit m :
  header_ok block -> ZerocoinGetNHeight ix block = Some h ->
  exists ok m', CheckBlockHeader a t ix block powLimit true m = Some (ok, m') /\ (ok = true <-> header_work a t ix block powLimit m).
Proof.
  intros Hb Hh. unfold CheckBlockHeader, header_work. rewrite Hh, obind_Some. cbn [negb]. rewrite !(GetPoWHash_run a t block h) by done. obind.
  destruct (if negb t && negb false then m !! h else None) as [ph|] eqn:E.
  - assert (t = false /\ m !! h = Some ph) as [-> Em] by (by destruct t).
    destruct (CheckProofOfWork ph (h_nBits block) powLimit) eqn:Ep.
    + exists true, m. split; [done |]. split; [intros _ | done]. exists h. split; [done |]. right. split; [done |]. by exists ph.
    + rewrite (GetPoWHash_run a false block h) by done. rewrite obind_Some. cbn [negb andb]. eexists _, _. split; [reflexivity |]. split.
      * intros Eo. exists h. split; [done |]. by left.
      * intros (h' & [= <-] & [? | (_ & ph' & Em' & Ep')]); [done | congruence].
  - destruct (CheckProofOfWork (header_digest a block) (h_nBits block) powLimit) eqn:Ep.
    + eexists true, _. split; [reflexivity |]. split; [intros _ | done]. exists h. split; [done |]. by left.
    + rewrite (GetPoWHash_run a t block h) by done. rewrite obind_Some.
      replace (negb t && negb true) with false by (by destruct t). eexists _, _. split; [reflexivity |]. rewrite Ep. split; [done |].
      intros (h' & [= <-] & [? | (-> & ph & Em & Ep')]); [done |]. cbn in E. congruence.
Qed.

Lemma GetPoWHash_miss b h force m :
  header_ok b -> m !! h = None \/ force = true ->
  GetPoWHash (Allocs true true true) false b h force m = Some (pow_hash b, map_insert h (pow_hash b) m).
Proof.
  intros Hb Hm. unfold GetPoWHash, buildMapPoWHash.
  replace (if negb false && (h <? 0) && negb (bool_decide (is_Some (m !! 1))) then m else m) with m by (by destruct (_ && _)).
  assert ((if negb false && negb force then m !! h else None) = None) as ->.
  { destruct Hm as [-> | ->]; [by destruct (_ && _) | done]. }
  cbv zeta. rewrite (pow_run b Hb). rewrite obind_Some. reflexivity.
Qed.

Lemma GetPoWHash_hit a b h ph m : m !! h = Some ph -> GetPoWHash a false b h false m = Some (ph, m).
Proof.
  intros Hm. unfold GetPoWHash, buildMapPoWHash.
  replace (if negb false && (h <? 0) && negb (bool_decide (is_Some (m !! 1))) then m else m) with m by (by destruct (_ && _)).
  cbn [negb andb]. rewrite Hm. reflexivity.
Qed.

Lemma GetPoWHash_no_matrix a b h m :
  alloc_matrix a = false -> m !! h = None ->
  GetPoWHash a false b h false m = Some (replicate 32 0, <[h := replicate 32 0]> m).
Proof.
  intros Ha Hm. unfold GetPoWHash, buildMapPoWHash.
  replace (if negb false && (h <? 0) && negb (bool_decide (is_Some (m !! 1))) then m else m) with m by (by destruct (_ && _)).
  cbn [negb andb]. rewrite Hm. cbv zeta. unfold LYRA2, lyra2_with_stride. rewrite Ha. cbn [negb].
  rewrite obind_Some. unfold map_insert. rewrite Hm. reflexivity.
Qed.

(** C27. With no proof-of-work hash cached for its height, or its own, a header passes
    [CheckBlockHeader] exactly when Lyra2 (T = 2, 330 rows, 256 columns) of its 80 octets
    as password and salt meets the target of its bits; the hash is then cached. *)
Theorem check_block_header_correct ix block h powLimit m :
  header_ok block -> ZerocoinGetNHeight ix block = Some h ->
  m !! h = None \/ m !! h = Some (pow_hash block) ->
  exists m', CheckBlockHeader (Allocs true true true) false ix block powLimit true m
    = Some (CheckProofOfWork (pow_hash block) (h_nBits block) powLimit, m') /\
    m' !! h = Some (pow_hash block).
Proof.
  intros Hb Hh Hm. unfold CheckBlockHeader. rewrite Hh, obind_Some. cbn [negb].
  assert (exists m1, GetPoWHash (Allocs true true true) false block h false m = Some (pow_hash block, m1) /\
    m1 !! h = Some (pow_hash block)) as (m1 & -> & Hm1).
  { destruct Hm as [Hm|Hm].
    - rewrite GetPoWHash_miss by (done || by left). eexists. split; [reflexivity |]. unfold map_insert.
      rewrite Hm. apply lookup_insert_eq.
    - exists m. split; [| done]. by apply GetPoWHash_hit. }
  rewrite obind_Some. destruct (CheckProofOfWork (pow_hash block) (h_nBits block) powLimit) eqn:E;
    [exists m1; split; [reflexivity | exact Hm1] |].
  rewrite GetPoWHash_miss by (done || by right). rewrite obind_Some, E. eexists. split; [reflexivity |].
  unfold map_insert. by rewrite Hm1.
Qed.

(** The cache is keyed by height alone: once some hash that meets the target is cached for
    a height, [CheckBlockHeader] accepts every header with those bits at that height,
    without computing the header's own hash. *)
Theorem cached_pow_accepts_any_header a ix block h ph powLimit m :
  ZerocoinGetNHeight ix block = Some h -> m !! h = Some ph ->
  CheckProofOfWork ph (h_nBits block) powLimit = true ->
  CheckBlockHeader a false ix block powLimit true m = Some (true, m).
Proof.
  intros Hh Hm E. unfold CheckBlockHeader. rewrite Hh, obind_Some. cbn [negb].
  rewrite (GetPoWHash_hit a block h ph m Hm), obind_Some, E. reflexivity.
Qed.

(** When Lyra2 cannot allocate its matrix the header is judged by the zero hash, since the
    return code is ignored: any header whose bits are a valid target passes. *)
Theorem pow_alloc_failure_accepts a ix block h powLimit m :
  alloc_matrix a = false -> header_ok block -> ZerocoinGetNHeight ix block = Some h -> m !! h = None ->
  length powLimit = 32%nat -> Forall (fits 8) powLimit ->
  compact_neg (h_nBits block) = false -> 0 < compact_value (h_nBits block) <= le_value powLimit ->
  CheckBlockHeader a false ix block powLimit true m = Some (true, <[h := replicate 32 0]> m).
Proof.
  intros Ha Hb Hh Hm Hl Hf Hneg Hv. unfold CheckBlockHeader. rewrite Hh, obind_Some. cbn [negb].
  rewrite (GetPoWHash_no_matrix a block h m Ha Hm), obind_Some.
  rewrite (proj2 (CheckProofOfWork_ok (replicate 32 0) (h_nBits block) powLimit ltac:(done)
    ltac:(apply Forall_replicate; by unfold fits) Hl Hf ltac:(by destruct Hb as (_ & _ & _ & _ & ?)))); [reflexivity |].
  split_and!; [done | lia | lia |]. change (le_value (replicate 32 0)) with 0. lia.
Qed.

(** A proof-of-work limit, and an index that knows no parent. *)
Definition toy_limit : list Z := replicate 30 255 ++ [0; 0].

Lemma toy_limit_ok : length toy_limit = 32%nat /\ Forall (fits 8) toy_limit.
Proof.
  split; [done |]. apply Forall_app_2; [apply Forall_replicate; by unfold fits | forall_build ltac:(by unfold fits)].
Qed.

Lemma check_block_header_correct_witness :
  exists m', CheckBlockHeader (Allocs true true true) false empty_index toy_header toy_limit true ∅
    = Some (CheckProofOfWork (pow_hash toy_header) (h_nBits toy_header) toy_limit, m') /\
    m' !! 0 = Some (pow_hash toy_header).
Proof.
  apply (check_block_header_correct empty_index toy_header 0 toy_limit ∅ toy_header_ok);
    [reflexivity | left; apply lookup_empty].
Defined.

Lemma cached_pow_accepts_any_header_witness :
  CheckBlockHeader (Allocs true true true) false empty_index toy_header toy_limit true {[ 0 := replicate 32 0 ]}
  = Some (true, {[ 0 := replicate 32 0 ]}).
Proof.
  apply (cached_pow_accepts_any_header (Allocs true true true) empty_index toy_header 0 (replicate 32 0) toy_limit);
    [reflexivity | reflexivity | vm_compute; reflexivity].
Defined.

Lemma pow_alloc_failure_accepts_witness :
  CheckBlockHeader (Allocs false true true) false empty_index toy_header toy_limit true ∅
  = Some (true, {[ 0 := replicate 32 0 ]}).
Proof.
  apply (pow_alloc_failure_accepts (Allocs false true true) empty_index toy_header 0 toy_limit ∅);
    [reflexivity | exact toy_header_ok | reflexivity | apply lookup_empty | exact (proj1 toy_limit_ok)
    | exact (proj2 toy_limit_ok) | reflexivity | split; [reflexivity | vm_compute; discriminate]].
Defined.
