(* ===== verification/Script.v ===== *)
(** * Scripts: script/script.h and script/script.cpp

    A script is the list of its octets, and an iterator into it the list of the octets from
    there to the end: [end() - pc] is its length.  [opcodetype] is an octet, since the code
    casts any octet to it; the enumerators are the constants below. *)

From S2P Require Import Prelude MdHash.
#[local] Open Scope Z_scope.

Definition MAX_SCRIPT_ELEMENT_SIZE : Z := 520.
Definition MAX_OPS_PER_SCRIPT : Z := 201.
Definition MAX_PUBKEYS_PER_MULTISIG : Z := 20.
Definition MAX_SCRIPT_SIZE : Z := 10000.
Definition LOCKTIME_THRESHOLD : Z := 500000000.

(** ** [enum opcodetype] *)

Definition OP_0 : Z := 0x00.
Definition OP_FALSE : Z := OP_0.
Definition OP_PUSHDATA1 : Z := 0x4c.
Definition OP_PUSHDATA2 : Z := 0x4d.
Definition OP_PUSHDATA4 : Z := 0x4e.
Definition OP_1NEGATE : Z := 0x4f.
Definition OP_RESERVED : Z := 0x50.
Definition OP_1 : Z := 0x51.
Definition OP_TRUE : Z := OP_1.
Definition OP_2 : Z := 0x52.
Definition OP_3 : Z := 0x53.
Definition OP_4 : Z := 0x54.
Definition OP_5 : Z := 0x55.
Definition OP_6 : Z := 0x56.
Definition OP_7 : Z := 0x57.
Definition OP_8 : Z := 0x58.
Definition OP_9 : Z := 0x59.
Definition OP_10 : Z := 0x5a.
Definition OP_11 : Z := 0x5b.
Definition OP_12 : Z := 0x5c.
Definition OP_13 : Z := 0x5d.
Definition OP_14 : Z := 0x5e.
Definition OP_15 : Z := 0x5f.
Definition OP_16 : Z := 0x60.
Definition OP_NOP : Z := 0x61.
Definition OP_VER : Z := 0x62.
Definition OP_IF : Z := 0x63.
Definition OP_NOTIF : Z := 0x64.
Definition OP_VERIF : Z := 0x65.
Definition OP_VERNOTIF : Z := 0x66.
Definition OP_ELSE : Z := 0x67.
Definition OP_ENDIF : Z := 0x68.
Definition OP_VERIFY : Z := 0x69.
Definition OP_RETURN : Z := 0x6a.
Definition OP_TOALTSTACK : Z := 0x6b.
Definition OP_FROMALTSTACK : Z := 0x6c.
Definition OP_2DROP : Z := 0x6d.
Definition OP_2DUP : Z := 0x6e.
Definition OP_3DUP : Z := 0x6f.
Definition OP_2OVER : Z := 0x70.
Definition OP_2ROT : Z := 0x71.
Definition OP_2SWAP : Z := 0x72.
Definition OP_IFDUP : Z := 0x73.
Definition OP_DEPTH : Z := 0x74.
Definition OP_DROP : Z := 0x75.
Definition OP_DUP : Z := 0x76.
Definition OP_NIP : Z := 0x77.
Definition OP_OVER : Z := 0x78.
Definition OP_PICK : Z := 0x79.
Definition OP_ROLL : Z := 0x7a.
Definition OP_ROT : Z := 0x7b.
Definition OP_SWAP : Z := 0x7c.
Definition OP_TUCK : Z := 0x7d.
Definition OP_CAT : Z := 0x7e.
Definition OP_SUBSTR : Z := 0x7f.
Definition OP_LEFT : Z := 0x80.
Definition OP_RIGHT : Z := 0x81.
Definition OP_SIZE : Z := 0x82.
Definition OP_INVERT : Z := 0x83.
Definition OP_AND : Z := 0x84.
Definition OP_OR : Z := 0x85.
Definition OP_XOR : Z := 0x86.
Definition OP_EQUAL : Z := 0x87.
Definition OP_EQUALVERIFY : Z := 0x88.
Definition OP_RESERVED1 : Z := 0x89.
Definition OP_RESERVED2 : Z := 0x8a.
Definition OP_1ADD : Z := 0x8b.
Definition OP_1SUB : Z := 0x8c.
Definition OP_2MUL : Z := 0x8d.
Definition OP_2DIV : Z := 0x8e.
Definition OP_NEGATE : Z := 0x8f.
Definition OP_ABS : Z := 0x90.
Definition OP_NOT : Z := 0x91.
Definition OP_0NOTEQUAL : Z := 0x92.
Definition OP_ADD : Z := 0x93.
Definition OP_SUB : Z := 0x94.
Definition OP_MUL : Z := 0x95.
Definition OP_DIV : Z := 0x96.
Definition OP_MOD : Z := 0x97.
Definition OP_LSHIFT : Z := 0x98.
Definition OP_RSHIFT : Z := 0x99.
Definition OP_BOOLAND : Z := 0x9a.
Definition OP_BOOLOR : Z := 0x9b.
Definition OP_NUMEQUAL : Z := 0x9c.
Definition OP_NUMEQUALVERIFY : Z := 0x9d.
Definition OP_NUMNOTEQUAL : Z := 0x9e.
Definition OP_LESSTHAN : Z := 0x9f.
Definition OP_GREATERTHAN : Z := 0xa0.
Definition OP_LESSTHANOREQUAL : Z := 0xa1.
Definition OP_GREATERTHANOREQUAL : Z := 0xa2.
Definition OP_MIN : Z := 0xa3.
Definition OP_MAX : Z := 0xa4.
Definition OP_WITHIN : Z := 0xa5.
Definition OP_RIPEMD160 : Z := 0xa6.
Definition OP_SHA1 : Z := 0xa7.
Definition OP_SHA256 : Z := 0xa8.
Definition OP_HASH160 : Z := 0xa9.
Definition OP_HASH256 : Z := 0xaa.
Definition OP_CODESEPARATOR : Z := 0xab.
Definition OP_CHECKSIG : Z := 0xac.
Definition OP_CHECKSIGVERIFY : Z := 0xad.
Definition OP_CHECKMULTISIG : Z := 0xae.
Definition OP_CHECKMULTISIGVERIFY : Z := 0xaf.
Definition OP_NOP1 : Z := 0xb0.
Definition OP_CHECKLOCKTIMEVERIFY : Z := 0xb1.
Definition OP_NOP2 : Z := OP_CHECKLOCKTIMEVERIFY.
Definition OP_CHECKSEQUENCEVERIFY : Z := 0xb2.
Definition OP_NOP3 : Z := OP_CHECKSEQUENCEVERIFY.
Definition OP_NOP4 : Z := 0xb3.
Definition OP_NOP5 : Z := 0xb4.
Definition OP_NOP6 : Z := 0xb5.
Definition OP_NOP7 : Z := 0xb6.
Definition OP_NOP8 : Z := 0xb7.
Definition OP_NOP9 : Z := 0xb8.
Definition OP_NOP10 : Z := 0xb9.
Definition OP_SMALLINTEGER : Z := 0xfa.
Definition OP_PUBKEYS : Z := 0xfb.
Definition OP_PUBKEYHASH : Z := 0xfd.
Definition OP_PUBKEY : Z := 0xfe.
Definition OP_INVALIDOPCODE : Z := 0xff.
Definition OP_ZEROCOINMINT : Z := 0xc1.
Definition OP_ZEROCOINSPEND : Z := 0xc2.
Definition OP_SIGMAMINT : Z := 0xc3.
Definition OP_SIGMASPEND : Z := 0xc4.
Definition OP_ZEROCOINTOSIGMAREMINT : Z := 0xc8.

Create HintDb opcodes.
#[export] Hint Unfold OP_0 OP_FALSE OP_PUSHDATA1 OP_PUSHDATA2 OP_PUSHDATA4 OP_1NEGATE
OP_RESERVED OP_1 OP_TRUE OP_2 OP_3 OP_4 OP_5 OP_6 OP_7 OP_8 OP_9 OP_10 OP_11 OP_12 OP_13 OP_14
OP_15 OP_16 OP_NOP OP_VER OP_IF OP_NOTIF OP_VERIF OP_VERNOTIF OP_ELSE OP_ENDIF OP_VERIFY
OP_RETURN OP_TOALTSTACK OP_FROMALTSTACK OP_2DROP OP_2DUP OP_3DUP OP_2OVER OP_2ROT OP_2SWAP
OP_IFDUP OP_DEPTH OP_DROP OP_DUP OP_NIP OP_OVER OP_PICK OP_ROLL OP_ROT OP_SWAP OP_TUCK OP_CAT
OP_SUBSTR OP_LEFT OP_RIGHT OP_SIZE OP_INVERT OP_AND OP_OR OP_XOR OP_EQUAL OP_EQUALVERIFY
OP_RESERVED1 OP_RESERVED2 OP_1ADD OP_1SUB OP_2MUL OP_2DIV OP_NEGATE OP_ABS OP_NOT OP_0NOTEQUAL
OP_ADD OP_SUB OP_MUL OP_DIV OP_MOD OP_LSHIFT OP_RSHIFT OP_BOOLAND OP_BOOLOR OP_NUMEQUAL
OP_NUMEQUALVERIFY OP_NUMNOTEQUAL OP_LESSTHAN OP_GREATERTHAN OP_LESSTHANOREQUAL
OP_GREATERTHANOREQUAL OP_MIN OP_MAX OP_WITHIN OP_RIPEMD160 OP_SHA1 OP_SHA256 OP_HASH160
OP_HASH256 OP_CODESEPARATOR OP_CHECKSIG OP_CHECKSIGVERIFY OP_CHECKMULTISIG
OP_CHECKMULTISIGVERIFY OP_NOP1 OP_CHECKLOCKTIMEVERIFY OP_NOP2 OP_CHECKSEQUENCEVERIFY OP_NOP3
OP_NOP4 OP_NOP5 OP_NOP6 OP_NOP7 OP_NOP8 OP_NOP9 OP_NOP10 OP_SMALLINTEGER OP_PUBKEYS
OP_PUBKEYHASH OP_PUBKEY OP_INVALIDOPCODE OP_ZEROCOINMINT OP_ZEROCOINSPEND OP_SIGMAMINT
OP_SIGMASPEND OP_ZEROCOINTOSIGMAREMINT : opcodes.

(** Compare octets with opcodes by arithmetic. *)
Ltac unfold_ops := autounfold with opcodes in *.

Abbreviation len := (fun l => Z.of_nat (length l)).

(** [back()] of a vector, none when it is empty. *)
Definition vback {A} (v : list A) : option A := v !! (length v - 1)%nat.

(** ** Outcomes

    What a routine that may throw does: return, fail with a script error, throw an
    exception, or reach undefined behaviour or a failed assertion. *)

Inductive ScriptError :=
  | SCRIPT_ERR_OK | SCRIPT_ERR_UNKNOWN_ERROR | SCRIPT_ERR_EVAL_FALSE | SCRIPT_ERR_OP_RETURN
  | SCRIPT_ERR_SCRIPT_SIZE | SCRIPT_ERR_PUSH_SIZE | SCRIPT_ERR_OP_COUNT | SCRIPT_ERR_STACK_SIZE
  | SCRIPT_ERR_SIG_COUNT | SCRIPT_ERR_PUBKEY_COUNT
  | SCRIPT_ERR_VERIFY | SCRIPT_ERR_EQUALVERIFY | SCRIPT_ERR_CHECKMULTISIGVERIFY
  | SCRIPT_ERR_CHECKSIGVERIFY | SCRIPT_ERR_NUMEQUALVERIFY
  | SCRIPT_ERR_BAD_OPCODE | SCRIPT_ERR_DISABLED_OPCODE | SCRIPT_ERR_INVALID_STACK_OPERATION
  | SCRIPT_ERR_INVALID_ALTSTACK_OPERATION | SCRIPT_ERR_UNBALANCED_CONDITIONAL
  | SCRIPT_ERR_NEGATIVE_LOCKTIME | SCRIPT_ERR_UNSATISFIED_LOCKTIME
  | SCRIPT_ERR_SIG_HASHTYPE | SCRIPT_ERR_SIG_DER | SCRIPT_ERR_MINIMALDATA | SCRIPT_ERR_SIG_PUSHONLY
  | SCRIPT_ERR_SIG_HIGH_S | SCRIPT_ERR_SIG_NULLDUMMY | SCRIPT_ERR_PUBKEYTYPE | SCRIPT_ERR_CLEANSTACK
  | SCRIPT_ERR_MINIMALIF | SCRIPT_ERR_SIG_NULLFAIL
  | SCRIPT_ERR_DISCOURAGE_UPGRADABLE_NOPS | SCRIPT_ERR_DISCOURAGE_UPGRADABLE_WITNESS_PROGRAM
  | SCRIPT_ERR_WITNESS_PROGRAM_WRONG_LENGTH | SCRIPT_ERR_WITNESS_PROGRAM_WITNESS_EMPTY
  | SCRIPT_ERR_WITNESS_PROGRAM_MISMATCH | SCRIPT_ERR_WITNESS_MALLEATED
  | SCRIPT_ERR_WITNESS_MALLEATED_P2SH | SCRIPT_ERR_WITNESS_UNEXPECTED | SCRIPT_ERR_WITNESS_PUBKEYTYPE.

#[export] Instance ScriptError_eq_dec : EqDecision ScriptError.
Proof. solve_decision. Defined.

(** [scriptnum_error], [std::out_of_range] of [at], [runtime_error] of [popstack]. *)
Inductive exception := scriptnum_error | out_of_range | stack_empty.

Inductive outcome (A : Type) :=
  | Ret (a : A)
  | Fail (e : ScriptError)
  | Throw (x : exception)
  | Stuck.
Arguments Ret {A}.
Arguments Fail {A}.
Arguments Throw {A}.
Arguments Stuck {A}.

Definition obnd {A B} (m : outcome A) (k : A -> outcome B) : outcome B :=
  match m with Ret a => k a | Fail e => Fail e | Throw x => Throw x | Stuck => Stuck end.

Declare Scope script_scope.
Notation "'let*' p ':=' c1 'in' c2" := (obnd c1 (fun p => c2))
  (at level 100, p as pattern, c1 at next level, right associativity) : script_scope.
Delimit Scope script_scope with script.
#[global] Open Scope script_scope.

(** An access that must be in range. *)
Definition must {A} (o : option A) : outcome A := match o with Some a => Ret a | None => Stuck end.

(** ** [CScriptNum]: the value [m_value], an [int64_t] *)

Definition int64_min : Z := - 2 ^ 63.
Definition int64_max : Z := 2 ^ 63 - 1.

(** A signed result; overflow is undefined. *)
Definition int64 (x : Z) : outcome Z :=
  if (int64_min <=? x) && (x <=? int64_max) then Ret x else Stuck.

Definition set_vch (vch : list Z) : outcome Z :=
  match vback vch with
  | None => Ret 0
  | Some back =>
      if 8 <? len vch then Stuck
      else
        let result := foldl Z.lor 0 (imap (fun i b => b << (8 * Z.of_nat i)) vch) in
        if negb (back & 0x80 =? 0)
        then Ret (- (result & u64 (Z.lnot (0x80 << (8 * (len vch - 1))))))
        else int64 result
  end.

(** The test for a minimal encoding. *)
Definition non_minimal (vch : list Z) : bool :=
  match vback vch with
  | None => false
  | Some back =>
      (back & 0x7f =? 0) &&
      match vch !! (length vch - 2)%nat with
      | Some b => (len vch <=? 1) || (b & 0x80 =? 0)
      | None => true
      end
  end.

Definition CScriptNum (vch : list Z) (fRequireMinimal : bool) (nMaxNumSize : Z) : outcome Z :=
  if nMaxNumSize <? len vch then Throw scriptnum_error
  else if fRequireMinimal && non_minimal vch then Throw scriptnum_error
  else set_vch vch.

Definition nDefaultMaxNumSize : Z := 4.

(** [operator+=] and [operator-=] assert that the result is in range. *)
Definition num_add (m rhs : Z) : outcome Z := int64 (m + rhs).
Definition num_sub (m rhs : Z) : outcome Z := int64 (m - rhs).
Definition num_neg (m : Z) : outcome Z := if m =? int64_min then Stuck else Ret (- m).

Definition getint (m : Z) : Z :=
  if 2 ^ 31 - 1 <? m then 2 ^ 31 - 1 else if m <? - 2 ^ 31 then - 2 ^ 31 else m.

(** [while (absvalue)]: an octet a turn. *)
Fixpoint abs_octets (fuel : nat) (absvalue : Z) : list Z :=
  match fuel with
  | O => []
  | S fuel => if absvalue =? 0 then [] else (absvalue & 0xff) :: abs_octets fuel (absvalue >> 8)
  end.

Definition serialize (value : Z) : list Z :=
  if value =? 0 then []
  else
    let neg := value <? 0 in
    let result := abs_octets 8 (Z.abs value) in
    match vback result with
    | None => []
    | Some back =>
        if negb (back & 0x80 =? 0) then result ++ [if neg then 0x80 else 0]
        else if neg then <[(length result - 1)%nat := back .| 0x80]> result
        else result
    end.

(** ** [CScript] *)

(** [operator<<(const std::vector<unsigned char>&)]: the push of [b], appended. *)
Definition push_data (b : list Z) : list Z :=
  (if len b <? OP_PUSHDATA1 then [u8 (len b)]
   else if len b <=? 0xff then [OP_PUSHDATA1; u8 (len b)]
   else if len b <=? 0xffff then OP_PUSHDATA2 :: le_bytes 2 (len b)
   else OP_PUSHDATA4 :: le_bytes 4 (len b)) ++ b.

(** [push_int64]. *)
Definition push_int64 (n : Z) : list Z :=
  if (n =? -1) || ((1 <=? n) && (n <=? 16)) then [u8 (n + (OP_1 - 1))]
  else if n =? 0 then [OP_0]
  else push_data (serialize n).

(** [GetOp2]: whether an instruction was read, the iterator after it, the opcode and the
    data; when it fails the iterator stays where reading stopped. *)
Definition GetOp2 (pc : list Z) : bool * list Z * Z * list Z :=
  match pc with
  | [] => (false, [], OP_INVALIDOPCODE, [])
  | opcode :: pc =>
      let fail pc := (false, pc, OP_INVALIDOPCODE, []) in
      let data nSize pc :=
        if len pc <? nSize then fail pc
        else (true, drop (Z.to_nat nSize) pc, opcode, take (Z.to_nat nSize) pc) in
      if opcode <=? OP_PUSHDATA4 then
        if opcode <? OP_PUSHDATA1 then data opcode pc
        else if opcode =? OP_PUSHDATA1 then
          match pc with [] => fail pc | n :: pc => data n pc end
        else if opcode =? OP_PUSHDATA2 then
          if len pc <? 2 then fail pc else data (le_value (take 2 pc)) (drop 2 pc)
        else
          if len pc <? 4 then fail pc else data (le_value (take 4 pc)) (drop 4 pc)
      else if (opcode =? OP_SIGMASPEND) || (opcode =? OP_SIGMAMINT) then (true, [], opcode, pc)
      else (true, pc, opcode, [])
  end.

(** [DecodeOP_N]; the assertion holds wherever the code calls it. *)
Definition DecodeOP_N (opcode : Z) : outcome Z :=
  if opcode =? OP_0 then Ret 0
  else if (OP_1 <=? opcode) && (opcode <=? OP_16) then Ret (opcode - (OP_1 - 1)) else Stuck.

Definition EncodeOP_N (n : Z) : outcome Z :=
  if negb ((0 <=? n) && (n <=? 16)) then Stuck
  else if n =? 0 then Ret OP_0 else Ret (OP_1 + n - 1).

(** [while (end() - pc >= b.size() && std::equal(b.begin(), b.end(), pc))]. *)
Fixpoint skip_equal (fuel : nat) (b pc : list Z) (nFound : Z) : list Z * Z :=
  match fuel with
  | O => (pc, nFound)
  | S fuel =>
      if (len b <=? len pc) && bool_decide (take (length b) pc = b)
      then skip_equal fuel b (drop (length b) pc) (nFound + 1) else (pc, nFound)
  end.

(** The [do] loop: [result] so far, [pc2] where copying resumes. *)
Fixpoint fad_loop (fuel : nat) (b result pc2 pc : list Z) (nFound : Z) : option (list Z * list Z * Z) :=
  match fuel with
  | O => None
  | S fuel =>
      let result := result ++ take (length pc2 - length pc) pc2 in
      let '(pc, nFound) := skip_equal (length pc) b pc nFound in
      let pc2 := pc in
      let '(ok, pc, _, _) := GetOp2 pc in
      if (ok : bool) then fad_loop fuel b result pc2 pc nFound else Some (result, pc2, nFound)
  end.

Definition FindAndDelete (script b : list Z) : option (list Z * Z) :=
  if decide (b = []) then Some (script, 0)
  else
    '(result, pc2, nFound) ← fad_loop (S (length script)) b [] script script 0;
    Some (if 0 <? nFound then result ++ pc2 else script, nFound).

(** The instructions up to the first that cannot be read: opcodes, data, and whether the
    whole script was read. *)
Fixpoint parse_loop (fuel : nat) (pc : list Z) : list (Z * list Z) * bool :=
  match fuel with
  | O => ([], true)
  | S fuel =>
      if decide (pc = []) then ([], true)
      else
        let '(ok, pc, opcode, data) := GetOp2 pc in
        if (ok : bool) then
          let '(ops, all) := parse_loop fuel pc in ((opcode, data) :: ops, all)
        else ([], false)
  end.

(** [while (pc < end()) { if (!GetOp(pc, opcode, data)) ..; }] over the whole script. *)
Definition parse (script : list Z) : list (Z * list Z) * bool := parse_loop (length script) script.

Definition Find (script : list Z) (op : Z) : Z :=
  len (filter (fun o => o.1 = op) (parse script).1).

(** [GetSigOpCount(fAccurate)]: the count and [lastOpcode]. *)
Definition sigop_step (fAccurate : bool) (acc : Z * Z) (opcode : Z) : Z * Z :=
  let '(n, lastOpcode) := acc in
  (if (opcode =? OP_CHECKSIG) || (opcode =? OP_CHECKSIGVERIFY) then u32 (n + 1)
   else if (opcode =? OP_CHECKMULTISIG) || (opcode =? OP_CHECKMULTISIGVERIFY) then
     if fAccurate && (OP_1 <=? lastOpcode) && (lastOpcode <=? OP_16)
     then u32 (n + (lastOpcode - (OP_1 - 1))) else u32 (n + MAX_PUBKEYS_PER_MULTISIG)
   else n, opcode).

Definition GetSigOpCount (script : list Z) (fAccurate : bool) : Z :=
  (foldl (sigop_step fAccurate) (0, OP_INVALIDOPCODE) ((parse script).1.*1)).1.

(** The octet at index [i] of a script known to be long enough. *)
Definition oct (script : list Z) (i : nat) : Z := nth i script 0.

Definition IsPayToPublicKeyHash (script : list Z) : bool :=
  (len script =? 25) && (oct script 0 =? OP_DUP) && (oct script 1 =? OP_HASH160) &&
  (oct script 2 =? 0x14) && (oct script 23 =? OP_EQUALVERIFY) && (oct script 24 =? OP_CHECKSIG).

Definition IsPayToScriptHash (script : list Z) : bool :=
  (len script =? 23) && (oct script 0 =? OP_HASH160) && (oct script 1 =? 0x14) &&
  (oct script 22 =? OP_EQUAL).

Definition IsPayToWitnessScriptHash (script : list Z) : bool :=
  (len script =? 34) && (oct script 0 =? OP_0) && (oct script 1 =? 0x20).

(** The version and the program. *)
Definition IsWitnessProgram (script : list Z) : outcome (option (Z * list Z)) :=
  if (len script <? 4) || (42 <? len script) then Ret None
  else if negb (oct script 0 =? OP_0) && ((oct script 0 <? OP_1) || (OP_16 <? oct script 0)) then Ret None
  else if oct script 1 + 2 =? len script then
    let* version := DecodeOP_N (oct script 0) in Ret (Some (version, drop 2 script))
  else Ret None.

Definition first_is (op : Z) (script : list Z) : bool := (0 <? len script) && (oct script 0 =? op).

Definition IsZerocoinMint (script : list Z) : bool := first_is OP_ZEROCOINMINT script.
Definition script_IsZerocoinSpend (script : list Z) : bool := first_is OP_ZEROCOINSPEND script.
Definition IsSigmaMint (script : list Z) : bool := first_is OP_SIGMAMINT script.
Definition script_IsSigmaSpend (script : list Z) : bool := first_is OP_SIGMASPEND script.
Definition script_IsZerocoinRemint (script : list Z) : bool := first_is OP_ZEROCOINTOSIGMAREMINT script.

Definition canonical_push (opcode : Z) (data : list Z) : bool :=
  (OP_16 <? opcode) ||
  negb ((opcode <? OP_PUSHDATA1) && (OP_0 <? opcode) && (len data =? 1) && (oct data 0 <=? 16)) &&
  negb ((opcode =? OP_PUSHDATA1) && (len data <? OP_PUSHDATA1)) &&
  negb ((opcode =? OP_PUSHDATA2) && (len data <=? 0xFF)) &&
  negb ((opcode =? OP_PUSHDATA4) && (len data <=? 0xFFFF)).

Definition HasCanonicalPushes (script : list Z) : bool :=
  let '(ops, all) := parse script in all && forallb (fun o => canonical_push o.1 o.2) ops.

Definition IsPushOnly (script : list Z) : bool :=
  let '(ops, all) := parse script in all && forallb (fun o => o.1 <=? OP_16) ops.

Definition IsUnspendable (script : list Z) : bool :=
  ((0 <? len script) && (oct script 0 =? OP_RETURN)) || (MAX_SCRIPT_SIZE <? len script).

(** [GetSigOpCount(scriptSig)] of a script: the redeem script's count for pay-to-script-hash. *)
Definition GetSigOpCount_P2SH (script scriptSig : list Z) : Z :=
  if negb (IsPayToScriptHash script) then GetSigOpCount script true
  else
    let '(ops, all) := parse scriptSig in
    if negb all || existsb (fun o => OP_16 <? o.1) ops then 0
    else GetSigOpCount (default [] (snd <$> vback ops)) true.
