(* ===== verification/Interpreter.v ===== *)
(** * The script interpreter: script/interpreter.cpp and interpreter.h

    [EvalScript] and [VerifyScript] over any signature checker (the virtual class
    [BaseSignatureChecker]).  The stacks are lists with the top first: [stacktop s (-1)] is
    the head.  Exceptions are caught by [EvalScript]; [Stuck] is undefined behaviour or a
    failed assertion.  [g] and [g'] are the indeterminate octets of the buffers of new
    hashers. *)

From S2P Require Import Prelude MdHash Hash Script.
#[local] Open Scope Z_scope.

Abbreviation valtype := (list Z).

(** ** Flags *)

Definition SIGHASH_ALL : Z := 1.
Definition SIGHASH_NONE : Z := 2.
Definition SIGHASH_SINGLE : Z := 3.
Definition SIGHASH_ANYONECANPAY : Z := 0x80.

Definition SCRIPT_VERIFY_P2SH : Z := 1 << 0.
Definition SCRIPT_VERIFY_STRICTENC : Z := 1 << 1.
Definition SCRIPT_VERIFY_DERSIG : Z := 1 << 2.
Definition SCRIPT_VERIFY_LOW_S : Z := 1 << 3.
Definition SCRIPT_VERIFY_NULLDUMMY : Z := 1 << 4.
Definition SCRIPT_VERIFY_SIGPUSHONLY : Z := 1 << 5.
Definition SCRIPT_VERIFY_MINIMALDATA : Z := 1 << 6.
Definition SCRIPT_VERIFY_DISCOURAGE_UPGRADABLE_NOPS : Z := 1 << 7.
Definition SCRIPT_VERIFY_CLEANSTACK : Z := 1 << 8.
Definition SCRIPT_VERIFY_CHECKLOCKTIMEVERIFY : Z := 1 << 9.
Definition SCRIPT_VERIFY_CHECKSEQUENCEVERIFY : Z := 1 << 10.
Definition SCRIPT_VERIFY_WITNESS : Z := 1 << 11.
Definition SCRIPT_VERIFY_DISCOURAGE_UPGRADABLE_WITNESS_PROGRAM : Z := 1 << 12.
Definition SCRIPT_VERIFY_MINIMALIF : Z := 1 << 13.
Definition SCRIPT_VERIFY_NULLFAIL : Z := 1 << 14.
Definition SCRIPT_VERIFY_WITNESS_PUBKEYTYPE : Z := 1 << 15.

(** [flags & f] as a condition. *)
Definition has (flags f : Z) : bool := negb (flags & f =? 0).

Inductive SigVersion := SIGVERSION_BASE | SIGVERSION_WITNESS_V0.

#[export] Instance SigVersion_eq_dec : EqDecision SigVersion.
Proof. solve_decision. Defined.

(** The virtual methods, and [CPubKey::CheckLowS], which is decided by libsecp256k1. *)
Class BaseSignatureChecker := {
  CheckSig : list Z -> list Z -> list Z -> SigVersion -> outcome bool;
  CheckLockTime : Z -> outcome bool;
  CheckSequence : Z -> outcome bool;
  CheckLowS : list Z -> bool;
}.

(** ** Encodings *)

(** [for (i = 0; ..)]: the first octet that is not zero decides. *)
Fixpoint CastToBool (vch : valtype) : bool :=
  match vch with
  | [] => false
  | b :: rest => if negb (b =? 0) then negb (bool_decide (rest = []) && (b =? 0x80)) else CastToBool rest
  end.

Definition IsCompressedOrUncompressedPubKey (vchPubKey : valtype) : bool :=
  if len vchPubKey <? 33 then false
  else if oct vchPubKey 0 =? 0x04 then len vchPubKey =? 65
  else if (oct vchPubKey 0 =? 0x02) || (oct vchPubKey 0 =? 0x03) then len vchPubKey =? 33
  else false.

Definition IsCompressedPubKey (vchPubKey : valtype) : bool :=
  (len vchPubKey =? 33) && ((oct vchPubKey 0 =? 0x02) || (oct vchPubKey 0 =? 0x03)).

(** Reads outside the signature are [None]. *)
Definition IsValidSignatureEncoding (sig : valtype) : option bool :=
  if len sig <? 9 then Some false
  else if 73 <? len sig then Some false
  else
  s0 ← sig !! 0%nat; if negb (s0 =? 0x30) then Some false
  else
  s1 ← sig !! 1%nat; if negb (s1 =? len sig - 3) then Some false
  else
  lenR ← sig !! 3%nat; if len sig <=? 5 + lenR then Some false
  else
  lenS ← sig !! Z.to_nat (5 + lenR); if negb (lenR + lenS + 7 =? len sig) then Some false
  else
  s2 ← sig !! 2%nat; if negb (s2 =? 0x02) then Some false
  else if lenR =? 0 then Some false
  else
  s4 ← sig !! 4%nat; if negb (s4 & 0x80 =? 0) then Some false
  else
  nullR ← (if (1 <? lenR) && (s4 =? 0x00) then s5 ← sig !! 5%nat; Some (s5 & 0x80 =? 0) else Some false);
  if (nullR : bool) then Some false
  else
  sR4 ← sig !! Z.to_nat (lenR + 4); if negb (sR4 =? 0x02) then Some false
  else if lenS =? 0 then Some false
  else
  sR6 ← sig !! Z.to_nat (lenR + 6); if negb (sR6 & 0x80 =? 0) then Some false
  else
  nullS ← (if (1 <? lenS) && (sR6 =? 0x00) then sR7 ← sig !! Z.to_nat (lenR + 7); Some (sR7 & 0x80 =? 0)
           else Some false);
  Some (negb nullS).

Definition IsDefinedHashtypeSignature (vchSig : valtype) : bool :=
  match vback vchSig with
  | None => false
  | Some b =>
      let nHashType := b & u8 (Z.lnot SIGHASH_ANYONECANPAY) in
      negb ((nHashType <? SIGHASH_ALL) || (SIGHASH_SINGLE <? nHashType))
  end.

Definition CheckMinimalPush (data : valtype) (opcode : Z) : bool :=
  if len data =? 0 then opcode =? OP_0
  else if (len data =? 1) && (1 <=? oct data 0) && (oct data 0 <=? 16) then opcode =? OP_1 + (oct data 0 - 1)
  else if (len data =? 1) && (oct data 0 =? 0x81) then opcode =? OP_1NEGATE
  else if len data <=? 75 then opcode =? len data
  else if len data <=? 255 then opcode =? OP_PUSHDATA1
  else if len data <=? 65535 then opcode =? OP_PUSHDATA2
  else true.

(** ** The stack *)

(** [stack.at(stack.size() + i)], [i] negative. *)
Definition stacktop (s : list valtype) (i : Z) : outcome valtype :=
  if 0 <=? i then Throw out_of_range
  else match s !! Z.to_nat (- i - 1) with Some v => Ret v | None => Throw out_of_range end.

Definition popstack (s : list valtype) : outcome (list valtype) :=
  match s with [] => Throw stack_empty | _ :: s => Ret s end.

Definition swap (s : list valtype) (i j : Z) : outcome (list valtype) :=
  let* a := stacktop s i in
  let* b := stacktop s j in
  Ret (<[Z.to_nat (- i - 1) := b]> (<[Z.to_nat (- j - 1) := a]> s)).

Definition vchTrue : valtype := [1].
Definition vchFalse : valtype := [].
Definition vchBool (b : bool) : valtype := if b then vchTrue else vchFalse.

(** The local variables of [EvalScript]; [vfExec] has its back first. *)
Record eval := mkEval {
  e_pc : list Z;
  e_stack : list valtype;
  e_altstack : list valtype;
  e_vfExec : list bool;
  e_begincodehash : list Z;
  e_nOpCount : Z;
}.

Definition set_stack (st : eval) (s : list valtype) : eval :=
  mkEval (e_pc st) s (e_altstack st) (e_vfExec st) (e_begincodehash st) (e_nOpCount st).
Definition set_vfExec (st : eval) (v : list bool) : eval :=
  mkEval (e_pc st) (e_stack st) (e_altstack st) v (e_begincodehash st) (e_nOpCount st).

(** [switch]: the first case whose labels hold the value. *)
Fixpoint switch {A} (v : Z) (cases : list (list Z * A)) (dflt : A) : A :=
  match cases with
  | [] => dflt
  | (labels, a) :: cases => if existsb (Z.eqb v) labels then a else switch v cases dflt
  end.

(** ** The operations of [EvalScript] *)

Section Eval.
Context `{CK : BaseSignatureChecker} (g g' : list Z) (flags : Z) (sigversion : SigVersion).

Definition IsLowDERSignature (vchSig : valtype) : outcome unit :=
  let* ok := must (IsValidSignatureEncoding vchSig) in
  if negb ok then Fail SCRIPT_ERR_SIG_DER
  else if negb (CheckLowS (take (length vchSig - 1) vchSig)) then Fail SCRIPT_ERR_SIG_HIGH_S
  else Ret tt.

Definition CheckSignatureEncoding (vchSig : valtype) : outcome unit :=
  if decide (vchSig = []) then Ret tt
  else
    let* der := (if has flags (SCRIPT_VERIFY_DERSIG .| SCRIPT_VERIFY_LOW_S .| SCRIPT_VERIFY_STRICTENC)
                 then must (IsValidSignatureEncoding vchSig) else Ret true) in
    if negb der then Fail SCRIPT_ERR_SIG_DER
    else
      let* _ := (if has flags SCRIPT_VERIFY_LOW_S then IsLowDERSignature vchSig else Ret tt) in
      if has flags SCRIPT_VERIFY_STRICTENC && negb (IsDefinedHashtypeSignature vchSig)
      then Fail SCRIPT_ERR_SIG_HASHTYPE
      else Ret tt.

Definition CheckPubKeyEncoding (vchPubKey : valtype) : outcome unit :=
  if has flags SCRIPT_VERIFY_STRICTENC && negb (IsCompressedOrUncompressedPubKey vchPubKey)
  then Fail SCRIPT_ERR_PUBKEYTYPE
  else if has flags SCRIPT_VERIFY_WITNESS_PUBKEYTYPE && bool_decide (sigversion = SIGVERSION_WITNESS_V0) &&
          negb (IsCompressedPubKey vchPubKey)
  then Fail SCRIPT_ERR_WITNESS_PUBKEYTYPE
  else Ret tt.

Definition fRequireMinimal : bool := has flags SCRIPT_VERIFY_MINIMALDATA.

(** [CScriptNum(stacktop(i), fRequireMinimal)]. *)
Definition num_at (s : list valtype) (i nMaxNumSize : Z) : outcome Z :=
  let* v := stacktop s i in CScriptNum v fRequireMinimal nMaxNumSize.

(** [if (stack.size() < n) return set_error(..)]. *)
Definition need {A} (n : Z) (s : list valtype) (k : outcome A) : outcome A :=
  if len s <? n then Fail SCRIPT_ERR_INVALID_STACK_OPERATION else k.

(** A case that only touches the stack. *)
Definition on_stack (f : list valtype -> outcome (list valtype)) (st : eval) : outcome eval :=
  let* s := f (e_stack st) in Ret (set_stack st s).

(** [OP_1NEGATE], [OP_1] .. [OP_16] *)
Definition op_number (opcode : Z) : eval -> outcome eval := on_stack (fun s =>
  Ret (serialize (opcode - (OP_1 - 1)) :: s)).

Definition op_checklocktimeverify (st : eval) : outcome eval :=
  if negb (has flags SCRIPT_VERIFY_CHECKLOCKTIMEVERIFY) then
    if has flags SCRIPT_VERIFY_DISCOURAGE_UPGRADABLE_NOPS then Fail SCRIPT_ERR_DISCOURAGE_UPGRADABLE_NOPS
    else Ret st
  else need 1 (e_stack st) (
    let* nLockTime := num_at (e_stack st) (-1) 5 in
    if nLockTime <? 0 then Fail SCRIPT_ERR_NEGATIVE_LOCKTIME
    else
      let* ok := CheckLockTime nLockTime in
      if negb ok then Fail SCRIPT_ERR_UNSATISFIED_LOCKTIME else Ret st).

Definition SEQUENCE_LOCKTIME_DISABLE_FLAG : Z := 1 << 31.

Definition op_checksequenceverify (st : eval) : outcome eval :=
  if negb (has flags SCRIPT_VERIFY_CHECKSEQUENCEVERIFY) then
    if has flags SCRIPT_VERIFY_DISCOURAGE_UPGRADABLE_NOPS then Fail SCRIPT_ERR_DISCOURAGE_UPGRADABLE_NOPS
    else Ret st
  else need 1 (e_stack st) (
    let* nSequence := num_at (e_stack st) (-1) 5 in
    if nSequence <? 0 then Fail SCRIPT_ERR_NEGATIVE_LOCKTIME
    else if negb (nSequence & SEQUENCE_LOCKTIME_DISABLE_FLAG =? 0) then Ret st
    else
      let* ok := CheckSequence nSequence in
      if negb ok then Fail SCRIPT_ERR_UNSATISFIED_LOCKTIME else Ret st).

Definition op_nops (st : eval) : outcome eval :=
  if has flags SCRIPT_VERIFY_DISCOURAGE_UPGRADABLE_NOPS then Fail SCRIPT_ERR_DISCOURAGE_UPGRADABLE_NOPS
  else Ret st.

(** [OP_IF], [OP_NOTIF] *)
Definition op_if (opcode : Z) (fExec : bool) (st : eval) : outcome eval :=
  if negb fExec then Ret (set_vfExec st (false :: e_vfExec st))
  else if len (e_stack st) <? 1 then Fail SCRIPT_ERR_UNBALANCED_CONDITIONAL
  else
    let* vch := stacktop (e_stack st) (-1) in
    if bool_decide (sigversion = SIGVERSION_WITNESS_V0) && has flags SCRIPT_VERIFY_MINIMALIF &&
       ((1 <? len vch) || ((len vch =? 1) && negb (oct vch 0 =? 1)))
    then Fail SCRIPT_ERR_MINIMALIF
    else
      let fValue := CastToBool vch in
      let fValue := if opcode =? OP_NOTIF then negb fValue else fValue in
      let* s := popstack (e_stack st) in
      Ret (set_vfExec (set_stack st s) (fValue :: e_vfExec st)).

Definition op_else (st : eval) : outcome eval :=
  match e_vfExec st with
  | [] => Fail SCRIPT_ERR_UNBALANCED_CONDITIONAL
  | b :: v => Ret (set_vfExec st (negb b :: v))
  end.

Definition op_endif (st : eval) : outcome eval :=
  match e_vfExec st with
  | [] => Fail SCRIPT_ERR_UNBALANCED_CONDITIONAL
  | _ :: v => Ret (set_vfExec st v)
  end.

Definition op_verify : eval -> outcome eval := on_stack (fun s => need 1 s (
  let* v := stacktop s (-1) in
  if CastToBool v then popstack s else Fail SCRIPT_ERR_VERIFY)).

Definition op_toaltstack (st : eval) : outcome eval :=
  need 1 (e_stack st) (
    let* v := stacktop (e_stack st) (-1) in
    let* s := popstack (e_stack st) in
    Ret (mkEval (e_pc st) s (v :: e_altstack st) (e_vfExec st) (e_begincodehash st) (e_nOpCount st))).

Definition op_fromaltstack (st : eval) : outcome eval :=
  if len (e_altstack st) <? 1 then Fail SCRIPT_ERR_INVALID_ALTSTACK_OPERATION
  else
    let* v := stacktop (e_altstack st) (-1) in
    let* a := popstack (e_altstack st) in
    Ret (mkEval (e_pc st) (v :: e_stack st) a (e_vfExec st) (e_begincodehash st) (e_nOpCount st)).

Definition op_2drop : eval -> outcome eval := on_stack (fun s => need 2 s (
  let* s := popstack s in popstack s)).

Definition op_2dup : eval -> outcome eval := on_stack (fun s => need 2 s (
  let* vch1 := stacktop s (-2) in let* vch2 := stacktop s (-1) in
  Ret (vch2 :: vch1 :: s))).

Definition op_3dup : eval -> outcome eval := on_stack (fun s => need 3 s (
  let* vch1 := stacktop s (-3) in let* vch2 := stacktop s (-2) in let* vch3 := stacktop s (-1) in
  Ret (vch3 :: vch2 :: vch1 :: s))).

Definition op_2over : eval -> outcome eval := on_stack (fun s => need 4 s (
  let* vch1 := stacktop s (-4) in let* vch2 := stacktop s (-3) in
  Ret (vch2 :: vch1 :: s))).

(** [stack.erase(stack.end()-6, stack.end()-4)]. *)
Definition op_2rot : eval -> outcome eval := on_stack (fun s => need 6 s (
  let* vch1 := stacktop s (-6) in let* vch2 := stacktop s (-5) in
  Ret (vch2 :: vch1 :: take 4 s ++ drop 6 s))).

Definition op_2swap : eval -> outcome eval := on_stack (fun s => need 4 s (
  let* s := swap s (-4) (-2) in swap s (-3) (-1))).

Definition op_ifdup : eval -> outcome eval := on_stack (fun s => need 1 s (
  let* vch := stacktop s (-1) in
  Ret (if CastToBool vch then vch :: s else s))).

Definition op_depth : eval -> outcome eval := on_stack (fun s => Ret (serialize (len s) :: s)).

Definition op_drop : eval -> outcome eval := on_stack (fun s => need 1 s (popstack s)).

Definition op_dup : eval -> outcome eval := on_stack (fun s => need 1 s (
  let* vch := stacktop s (-1) in Ret (vch :: s))).

(** [stack.erase(stack.end() - 2)]. *)
Definition op_nip : eval -> outcome eval := on_stack (fun s => need 2 s (
  Ret (take 1 s ++ drop 2 s))).

Definition op_over : eval -> outcome eval := on_stack (fun s => need 2 s (
  let* vch := stacktop s (-2) in Ret (vch :: s))).

(** [OP_PICK], [OP_ROLL]; [stack.erase(stack.end()-n-1)]. *)
Definition op_pick_roll (opcode : Z) : eval -> outcome eval := on_stack (fun s => need 2 s (
  let* m := num_at s (-1) nDefaultMaxNumSize in
  let n := getint m in
  let* s := popstack s in
  if (n <? 0) || (len s <=? n) then Fail SCRIPT_ERR_INVALID_STACK_OPERATION
  else
    let* vch := stacktop s (- n - 1) in
    let s := if opcode =? OP_ROLL then take (Z.to_nat n) s ++ drop (Z.to_nat n + 1) s else s in
    Ret (vch :: s))).

Definition op_rot : eval -> outcome eval := on_stack (fun s => need 3 s (
  let* s := swap s (-3) (-2) in swap s (-2) (-1))).

Definition op_swap : eval -> outcome eval := on_stack (fun s => need 2 s (swap s (-2) (-1))).

(** [stack.insert(stack.end()-2, vch)]. *)
Definition op_tuck : eval -> outcome eval := on_stack (fun s => need 2 s (
  let* vch := stacktop s (-1) in Ret (take 2 s ++ vch :: drop 2 s))).

Definition op_size : eval -> outcome eval := on_stack (fun s => need 1 s (
  let* v := stacktop s (-1) in Ret (serialize (len v) :: s))).

(** [OP_EQUAL], [OP_EQUALVERIFY] *)
Definition op_equal (opcode : Z) : eval -> outcome eval := on_stack (fun s => need 2 s (
  let* vch1 := stacktop s (-2) in let* vch2 := stacktop s (-1) in
  let fEqual := bool_decide (vch1 = vch2) in
  let* s := popstack s in let* s := popstack s in
  let s := vchBool fEqual :: s in
  if opcode =? OP_EQUALVERIFY then (if fEqual then popstack s else Fail SCRIPT_ERR_EQUALVERIFY)
  else Ret s)).

Definition num1 (opcode bn : Z) : outcome Z :=
  if opcode =? OP_1ADD then num_add bn 1
  else if opcode =? OP_1SUB then num_sub bn 1
  else if opcode =? OP_NEGATE then num_neg bn
  else if opcode =? OP_ABS then (if bn <? 0 then num_neg bn else Ret bn)
  else if opcode =? OP_NOT then Ret (Z.b2z (bn =? 0))
  else if opcode =? OP_0NOTEQUAL then Ret (Z.b2z (negb (bn =? 0)))
  else Stuck.

(** [OP_1ADD] .. [OP_0NOTEQUAL] *)
Definition op_numeric1 (opcode : Z) : eval -> outcome eval := on_stack (fun s => need 1 s (
  let* bn := num_at s (-1) nDefaultMaxNumSize in
  let* bn := num1 opcode bn in
  let* s := popstack s in
  Ret (serialize bn :: s))).

Definition num2 (opcode bn1 bn2 : Z) : outcome Z :=
  if opcode =? OP_ADD then num_add bn1 bn2
  else if opcode =? OP_SUB then num_sub bn1 bn2
  else if opcode =? OP_BOOLAND then Ret (Z.b2z (negb (bn1 =? 0) && negb (bn2 =? 0)))
  else if opcode =? OP_BOOLOR then Ret (Z.b2z (negb (bn1 =? 0) || negb (bn2 =? 0)))
  else if opcode =? OP_NUMEQUAL then Ret (Z.b2z (bn1 =? bn2))
  else if opcode =? OP_NUMEQUALVERIFY then Ret (Z.b2z (bn1 =? bn2))
  else if opcode =? OP_NUMNOTEQUAL then Ret (Z.b2z (negb (bn1 =? bn2)))
  else if opcode =? OP_LESSTHAN then Ret (Z.b2z (bn1 <? bn2))
  else if opcode =? OP_GREATERTHAN then Ret (Z.b2z (bn2 <? bn1))
  else if opcode =? OP_LESSTHANOREQUAL then Ret (Z.b2z (bn1 <=? bn2))
  else if opcode =? OP_GREATERTHANOREQUAL then Ret (Z.b2z (bn2 <=? bn1))
  else if opcode =? OP_MIN then Ret (if bn1 <? bn2 then bn1 else bn2)
  else if opcode =? OP_MAX then Ret (if bn2 <? bn1 then bn1 else bn2)
  else Stuck.

(** [OP_ADD] .. [OP_MAX] *)
Definition op_numeric2 (opcode : Z) : eval -> outcome eval := on_stack (fun s => need 2 s (
  let* bn1 := num_at s (-2) nDefaultMaxNumSize in
  let* bn2 := num_at s (-1) nDefaultMaxNumSize in
  let* bn := num2 opcode bn1 bn2 in
  let* s := popstack s in let* s := popstack s in
  let s := serialize bn :: s in
  if opcode =? OP_NUMEQUALVERIFY then
    let* v := stacktop s (-1) in
    if CastToBool v then popstack s else Fail SCRIPT_ERR_NUMEQUALVERIFY
  else Ret s)).

Definition op_within : eval -> outcome eval := on_stack (fun s => need 3 s (
  let* bn1 := num_at s (-3) nDefaultMaxNumSize in
  let* bn2 := num_at s (-2) nDefaultMaxNumSize in
  let* bn3 := num_at s (-1) nDefaultMaxNumSize in
  let fValue := (bn2 <=? bn1) && (bn1 <? bn3) in
  let* s := popstack s in let* s := popstack s in let* s := popstack s in
  Ret (vchBool fValue :: s))).

(** [OP_RIPEMD160] .. [OP_HASH256] *)
Definition hash_of (opcode : Z) (vch : valtype) : option valtype :=
  if opcode =? OP_RIPEMD160 then @sh_run CRIPEMD160 g [vch]
  else if opcode =? OP_SHA1 then @sh_run CSHA1 g [vch]
  else if opcode =? OP_SHA256 then @sh_run CSHA256 g [vch]
  else if opcode =? OP_HASH160 then @sh_run (CHash160 g') g [vch]
  else @sh_run CHash256 g [vch].

Definition op_hash (opcode : Z) : eval -> outcome eval := on_stack (fun s => need 1 s (
  let* vch := stacktop s (-1) in
  let* vchHash := must (hash_of opcode vch) in
  let* s := popstack s in
  Ret (vchHash :: s))).

Definition op_codeseparator (st : eval) : outcome eval :=
  Ret (mkEval (e_pc st) (e_stack st) (e_altstack st) (e_vfExec st) (e_pc st) (e_nOpCount st)).

(** [scriptCode.FindAndDelete(CScript(vchSig))] in scripts before segregated witness. *)
Definition drop_signature (scriptCode : list Z) (vchSig : valtype) : outcome (list Z) :=
  if decide (sigversion = SIGVERSION_BASE)
  then must (fst <$> FindAndDelete scriptCode (push_data vchSig)) else Ret scriptCode.

(** [OP_CHECKSIG], [OP_CHECKSIGVERIFY] *)
Definition op_checksig (opcode : Z) (st : eval) : outcome eval := on_stack (fun s => need 2 s (
  let* vchSig := stacktop s (-2) in
  let* vchPubKey := stacktop s (-1) in
  let* scriptCode := drop_signature (e_begincodehash st) vchSig in
  let* _ := CheckSignatureEncoding vchSig in
  let* _ := CheckPubKeyEncoding vchPubKey in
  let* fSuccess := CheckSig vchSig vchPubKey scriptCode sigversion in
  if negb fSuccess && has flags SCRIPT_VERIFY_NULLFAIL && negb (len vchSig =? 0)
  then Fail SCRIPT_ERR_SIG_NULLFAIL
  else
    let* s := popstack s in let* s := popstack s in
    let s := vchBool fSuccess :: s in
    if opcode =? OP_CHECKSIGVERIFY then (if fSuccess then popstack s else Fail SCRIPT_ERR_CHECKSIGVERIFY)
    else Ret s)) st.

(** [for (int k = 0; k < nSigsCount; k++)]: the signatures are dropped from the code. *)
Fixpoint drop_signatures (n : nat) (s : list valtype) (isig : Z) (scriptCode : list Z) : outcome (list Z) :=
  match n with
  | O => Ret scriptCode
  | S n =>
      let* vchSig := stacktop s (- isig) in
      let* scriptCode := drop_signature scriptCode vchSig in
      drop_signatures n s (isig + 1) scriptCode
  end.

(** [while (fSuccess && nSigsCount > 0)]: one key a turn. *)
Fixpoint multisig_loop (fuel : nat) (s : list valtype) (scriptCode : list Z)
    (isig ikey nSigsCount nKeysCount : Z) : outcome bool :=
  if negb (0 <? nSigsCount) then Ret true
  else
    match fuel with
    | O => Stuck
    | S fuel =>
        let* vchSig := stacktop s (- isig) in
        let* vchPubKey := stacktop s (- ikey) in
        let* _ := CheckSignatureEncoding vchSig in
        let* _ := CheckPubKeyEncoding vchPubKey in
        let* fOk := CheckSig vchSig vchPubKey scriptCode sigversion in
        let isig := if (fOk : bool) then isig + 1 else isig in
        let nSigsCount := if (fOk : bool) then nSigsCount - 1 else nSigsCount in
        let ikey := ikey + 1 in
        let nKeysCount := nKeysCount - 1 in
        if nKeysCount <? nSigsCount then Ret false
        else multisig_loop fuel s scriptCode isig ikey nSigsCount nKeysCount
    end.

(** [while (i-- > 1)]: the arguments are popped. *)
Fixpoint multisig_clean (n : nat) (fSuccess : bool) (ikey2 : Z) (s : list valtype) : outcome (list valtype) :=
  match n with
  | O => Ret s
  | S n =>
      let* v := stacktop s (-1) in
      if negb fSuccess && has flags SCRIPT_VERIFY_NULLFAIL && (ikey2 =? 0) && negb (len v =? 0)
      then Fail SCRIPT_ERR_SIG_NULLFAIL
      else
        let* s := popstack s in
        multisig_clean n fSuccess (if 0 <? ikey2 then ikey2 - 1 else ikey2) s
  end.

(** [OP_CHECKMULTISIG], [OP_CHECKMULTISIGVERIFY] *)
Definition op_checkmultisig (opcode : Z) (st : eval) : outcome eval :=
  let s := e_stack st in
  need 1 s (
  let* m := num_at s (-1) nDefaultMaxNumSize in
  let nKeysCount := getint m in
  if (nKeysCount <? 0) || (MAX_PUBKEYS_PER_MULTISIG <? nKeysCount) then Fail SCRIPT_ERR_PUBKEY_COUNT
  else
  let nOpCount := e_nOpCount st + nKeysCount in
  if MAX_OPS_PER_SCRIPT <? nOpCount then Fail SCRIPT_ERR_OP_COUNT
  else
  let ikey := 2 in
  let ikey2 := nKeysCount + 2 in
  let i := 2 + nKeysCount in
  need i s (
  let* m := num_at s (- i) nDefaultMaxNumSize in
  let nSigsCount := getint m in
  if (nSigsCount <? 0) || (nKeysCount <? nSigsCount) then Fail SCRIPT_ERR_SIG_COUNT
  else
  let isig := i + 1 in
  let i := i + 1 + nSigsCount in
  need i s (
  let* scriptCode := drop_signatures (Z.to_nat nSigsCount) s isig (e_begincodehash st) in
  let* fSuccess := multisig_loop (Z.to_nat nKeysCount) s scriptCode isig ikey nSigsCount nKeysCount in
  let* s := multisig_clean (Z.to_nat (i - 1)) fSuccess ikey2 s in
  need 1 s (
  let* dummy := stacktop s (-1) in
  if has flags SCRIPT_VERIFY_NULLDUMMY && negb (len dummy =? 0) then Fail SCRIPT_ERR_SIG_NULLDUMMY
  else
  let* s := popstack s in
  let s := vchBool fSuccess :: s in
  let* s := (if opcode =? OP_CHECKMULTISIGVERIFY
             then (if fSuccess then popstack s else Fail SCRIPT_ERR_CHECKMULTISIGVERIFY) else Ret s) in
  Ret (mkEval (e_pc st) s (e_altstack st) (e_vfExec st) (e_begincodehash st) nOpCount))))).

(** The [switch (opcode)]. *)
Definition eval_cases (opcode : Z) (fExec : bool) : list (list Z * (eval -> outcome eval)) := [
  ([OP_1NEGATE; OP_1; OP_2; OP_3; OP_4; OP_5; OP_6; OP_7; OP_8; OP_9; OP_10; OP_11; OP_12; OP_13;
    OP_14; OP_15; OP_16], op_number opcode);
  ([OP_NOP], Ret);
  ([OP_CHECKLOCKTIMEVERIFY], op_checklocktimeverify);
  ([OP_CHECKSEQUENCEVERIFY], op_checksequenceverify);
  ([OP_NOP1; OP_NOP4; OP_NOP5; OP_NOP6; OP_NOP7; OP_NOP8; OP_NOP9; OP_NOP10], op_nops);
  ([OP_IF; OP_NOTIF], op_if opcode fExec);
  ([OP_ELSE], op_else);
  ([OP_ENDIF], op_endif);
  ([OP_VERIFY], op_verify);
  ([OP_RETURN], fun _ => Fail SCRIPT_ERR_OP_RETURN);
  ([OP_TOALTSTACK], op_toaltstack);
  ([OP_FROMALTSTACK], op_fromaltstack);
  ([OP_2DROP], op_2drop);
  ([OP_2DUP], op_2dup);
  ([OP_3DUP], op_3dup);
  ([OP_2OVER], op_2over);
  ([OP_2ROT], op_2rot);
  ([OP_2SWAP], op_2swap);
  ([OP_IFDUP], op_ifdup);
  ([OP_DEPTH], op_depth);
  ([OP_DROP], op_drop);
  ([OP_DUP], op_dup);
  ([OP_NIP], op_nip);
  ([OP_OVER], op_over);
  ([OP_PICK; OP_ROLL], op_pick_roll opcode);
  ([OP_ROT], op_rot);
  ([OP_SWAP], op_swap);
  ([OP_TUCK], op_tuck);
  ([OP_SIZE], op_size);
  ([OP_EQUAL; OP_EQUALVERIFY], op_equal opcode);
  ([OP_1ADD; OP_1SUB; OP_NEGATE; OP_ABS; OP_NOT; OP_0NOTEQUAL], op_numeric1 opcode);
  ([OP_ADD; OP_SUB; OP_BOOLAND; OP_BOOLOR; OP_NUMEQUAL; OP_NUMEQUALVERIFY; OP_NUMNOTEQUAL; OP_LESSTHAN;
    OP_GREATERTHAN; OP_LESSTHANOREQUAL; OP_GREATERTHANOREQUAL; OP_MIN; OP_MAX], op_numeric2 opcode);
  ([OP_WITHIN], op_within);
  ([OP_RIPEMD160; OP_SHA1; OP_SHA256; OP_HASH160; OP_HASH256], op_hash opcode);
  ([OP_CODESEPARATOR], op_codeseparator);
  ([OP_CHECKSIG; OP_CHECKSIGVERIFY], op_checksig opcode);
  ([OP_CHECKMULTISIG; OP_CHECKMULTISIGVERIFY], op_checkmultisig opcode)
].

Definition disabled_opcodes : list Z :=
  [OP_CAT; OP_SUBSTR; OP_LEFT; OP_RIGHT; OP_INVERT; OP_AND; OP_OR; OP_XOR; OP_2MUL; OP_2DIV; OP_MUL;
   OP_DIV; OP_MOD; OP_LSHIFT; OP_RSHIFT].

(** One turn of [while (pc < pend)]. *)
Definition eval_step (st : eval) : outcome eval :=
  let fExec := forallb id (e_vfExec st) in
  let '(ok, pc, opcode, vchPushValue) := GetOp2 (e_pc st) in
  if negb ok then Fail SCRIPT_ERR_BAD_OPCODE
  else if MAX_SCRIPT_ELEMENT_SIZE <? len vchPushValue then Fail SCRIPT_ERR_PUSH_SIZE
  else
    let nOpCount := if OP_16 <? opcode then e_nOpCount st + 1 else e_nOpCount st in
    if (OP_16 <? opcode) && (MAX_OPS_PER_SCRIPT <? nOpCount) then Fail SCRIPT_ERR_OP_COUNT
    else if existsb (Z.eqb opcode) disabled_opcodes then Fail SCRIPT_ERR_DISABLED_OPCODE
    else
      let st := mkEval pc (e_stack st) (e_altstack st) (e_vfExec st) (e_begincodehash st) nOpCount in
      let* st :=
        (if fExec && (0 <=? opcode) && (opcode <=? OP_PUSHDATA4) then
           if fRequireMinimal && negb (CheckMinimalPush vchPushValue opcode) then Fail SCRIPT_ERR_MINIMALDATA
           else Ret (set_stack st (vchPushValue :: e_stack st))
         else if fExec || ((OP_IF <=? opcode) && (opcode <=? OP_ENDIF)) then
           switch opcode (eval_cases opcode fExec) (fun _ => Fail SCRIPT_ERR_BAD_OPCODE) st
         else Ret st) in
      if 1000 <? len (e_stack st) + len (e_altstack st) then Fail SCRIPT_ERR_STACK_SIZE else Ret st.

Fixpoint eval_loop (fuel : nat) (st : eval) : outcome eval :=
  if decide (e_pc st = []) then Ret st
  else match fuel with O => Stuck | S fuel => let* st := eval_step st in eval_loop fuel st end.

(** [catch (...)]. *)
Definition catch {A} (m : outcome A) : outcome A :=
  match m with Throw _ => Fail SCRIPT_ERR_UNKNOWN_ERROR | m => m end.

(** The final stack, or the error. *)
Definition EvalScript (stack : list valtype) (script : list Z) : outcome (list valtype) :=
  if MAX_SCRIPT_SIZE <? len script then Fail SCRIPT_ERR_SCRIPT_SIZE
  else
    let* st := catch (eval_loop (length script) (mkEval script stack [] [] script 0)) in
    if decide (e_vfExec st = []) then Ret (e_stack st) else Fail SCRIPT_ERR_UNBALANCED_CONDITIONAL.

End Eval.

(** ** [VerifyScript] *)

Section Verify.
Context `{CK : BaseSignatureChecker} (g g' : list Z).

(** [CScript() << OP_DUP << OP_HASH160 << program << OP_EQUALVERIFY << OP_CHECKSIG]. *)
Definition p2pkh_script (h : list Z) : list Z :=
  [OP_DUP; OP_HASH160] ++ push_data h ++ [OP_EQUALVERIFY; OP_CHECKSIG].

(** The witness stack has its last element first, like the other stacks. *)
Definition VerifyWitnessProgram (witness : list valtype) (witversion : Z) (program : list Z) (flags : Z)
    : outcome unit :=
  let run stack scriptPubKey :=
    if existsb (fun v => MAX_SCRIPT_ELEMENT_SIZE <? len v) stack then Fail SCRIPT_ERR_PUSH_SIZE
    else
      let* stack := EvalScript g g' flags SIGVERSION_WITNESS_V0 stack scriptPubKey in
      match stack with
      | [v] => if CastToBool v then Ret tt else Fail SCRIPT_ERR_EVAL_FALSE
      | _ => Fail SCRIPT_ERR_EVAL_FALSE
      end in
  if witversion =? 0 then
    if len program =? 32 then
      match witness with
      | [] => Fail SCRIPT_ERR_WITNESS_PROGRAM_WITNESS_EMPTY
      | scriptPubKey :: stack =>
          let* hashScriptPubKey := must (@sh_run CSHA256 g [scriptPubKey]) in
          if decide (hashScriptPubKey = program) then run stack scriptPubKey
          else Fail SCRIPT_ERR_WITNESS_PROGRAM_MISMATCH
      end
    else if len program =? 20 then
      if negb (len witness =? 2) then Fail SCRIPT_ERR_WITNESS_PROGRAM_MISMATCH
      else run witness (p2pkh_script program)
    else Fail SCRIPT_ERR_WITNESS_PROGRAM_WRONG_LENGTH
  else if has flags SCRIPT_VERIFY_DISCOURAGE_UPGRADABLE_WITNESS_PROGRAM
  then Fail SCRIPT_ERR_DISCOURAGE_UPGRADABLE_WITNESS_PROGRAM
  else Ret tt.

(** [stack.resize(1)]: the bottom element. *)
Definition resize_1 (s : list valtype) : list valtype :=
  match s with [] => [[]] | _ => drop (length s - 1) s end.

(** [if (stack.empty() || !CastToBool(stack.back())) return set_error(EVAL_FALSE)]. *)
Definition require_true (s : list valtype) : outcome unit :=
  match s with
  | [] => Fail SCRIPT_ERR_EVAL_FALSE
  | v :: _ => if CastToBool v then Ret tt else Fail SCRIPT_ERR_EVAL_FALSE
  end.

(** The block on bare witness programs: [hadWitness] and the stack after it. *)
Definition verify_bare_witness (scriptSig scriptPubKey : list Z) (witness : list valtype) (flags : Z)
    (stack : list valtype) : outcome (bool * list valtype) :=
  if has flags SCRIPT_VERIFY_WITNESS then
    let* wp := IsWitnessProgram scriptPubKey in
    match wp with
    | Some (version, program) =>
        if negb (len scriptSig =? 0) then Fail SCRIPT_ERR_WITNESS_MALLEATED
        else let* _ := VerifyWitnessProgram witness version program flags in Ret (true, resize_1 stack)
    | None => Ret (false, stack)
    end
  else Ret (false, stack).

(** The block on pay-to-script-hash; [stackCopy] is the stack after [scriptSig]. *)
Definition verify_p2sh (scriptSig scriptPubKey : list Z) (witness : list valtype) (flags : Z)
    (hadWitness : bool) (stack stackCopy : list valtype) : outcome (bool * list valtype) :=
  if has flags SCRIPT_VERIFY_P2SH && IsPayToScriptHash scriptPubKey then
    if negb (IsPushOnly scriptSig) then Fail SCRIPT_ERR_SIG_PUSHONLY
    else match stackCopy with
    | [] => Stuck
    | pubKey2 :: stack =>
        let* stack := EvalScript g g' flags SIGVERSION_BASE stack pubKey2 in
        let* _ := require_true stack in
        if has flags SCRIPT_VERIFY_WITNESS then
          let* wp := IsWitnessProgram pubKey2 in
          match wp with
          | Some (version, program) =>
              if negb (bool_decide (scriptSig = push_data pubKey2)) then Fail SCRIPT_ERR_WITNESS_MALLEATED_P2SH
              else let* _ := VerifyWitnessProgram witness version program flags in Ret (true, resize_1 stack)
          | None => Ret (hadWitness, stack)
          end
        else Ret (hadWitness, stack)
    end
  else Ret (hadWitness, stack).

Definition VerifyScript (scriptSig scriptPubKey : list Z) (witness : option (list valtype)) (flags : Z)
    : outcome unit :=
  let witness := default [] witness in
  if has flags SCRIPT_VERIFY_SIGPUSHONLY && negb (IsPushOnly scriptSig) then Fail SCRIPT_ERR_SIG_PUSHONLY
  else
    let* stack := EvalScript g g' flags SIGVERSION_BASE [] scriptSig in
    let stackCopy := if has flags SCRIPT_VERIFY_P2SH then stack else [] in
    let* stack := EvalScript g g' flags SIGVERSION_BASE stack scriptPubKey in
    let* _ := require_true stack in
    let* (hadWitness, stack) := verify_bare_witness scriptSig scriptPubKey witness flags stack in
    let* (hadWitness, stack) := verify_p2sh scriptSig scriptPubKey witness flags hadWitness stack stackCopy in
    let* _ :=
      (if has flags SCRIPT_VERIFY_CLEANSTACK then
         if negb (has flags SCRIPT_VERIFY_P2SH && has flags SCRIPT_VERIFY_WITNESS) then Stuck
         else if negb (len stack =? 1) then Fail SCRIPT_ERR_CLEANSTACK else Ret tt
       else Ret tt) in
    if has flags SCRIPT_VERIFY_WITNESS then
      if negb (has flags SCRIPT_VERIFY_P2SH) then Stuck
      else if negb hadWitness && negb (len witness =? 0) then Fail SCRIPT_ERR_WITNESS_UNEXPECTED else Ret tt
    else Ret tt.

(** ** Counting signature operations in witnesses *)

Definition WitnessSigOps (witversion : Z) (witprogram : list Z) (witness : list valtype) : Z :=
  if witversion =? 0 then
    if len witprogram =? 20 then 1
    else match witness with
    | subscript :: _ => if len witprogram =? 32 then GetSigOpCount subscript true else 0
    | [] => 0
    end
  else 0.

(** [while (pc < scriptSig.end()) scriptSig.GetOp(pc, opcode, data);]: the data of the last. *)
Definition CountWitnessSigOps (scriptSig scriptPubKey : list Z) (witness : option (list valtype)) (flags : Z)
    : outcome Z :=
  if negb (has flags SCRIPT_VERIFY_WITNESS) then Ret 0
  else if negb (has flags SCRIPT_VERIFY_P2SH) then Stuck
  else
    let witness := default [] witness in
    let* wp := IsWitnessProgram scriptPubKey in
    match wp with
    | Some (version, program) => Ret (WitnessSigOps version program witness)
    | None =>
        if IsPayToScriptHash scriptPubKey && IsPushOnly scriptSig then
          let subscript := default [] (snd <$> vback (parse scriptSig).1) in
          let* wp := IsWitnessProgram subscript in
          match wp with
          | Some (version, program) => Ret (WitnessSigOps version program witness)
          | None => Ret 0
          end
        else Ret 0
    end.

End Verify.
