(* ===== verification/ScriptProofs.v ===== *)
(** * Scripts: numbers, pushes and parsing

    Script numbers are sign-magnitude, little-endian: [set_vch] and [serialize] are inverse
    on minimal encodings.  What [<<] pushes, [GetOp2] reads back; every instruction read
    moves the iterator forward. *)

From S2P Require Import Prelude MdHash Script.
#[local] Open Scope Z_scope.

(** ** Vectors *)

Lemma vback_snoc {A} (l : list A) x : vback (l ++ [x]) = Some x.
Proof.
  unfold vback. rewrite length_app. cbn [length]. replace (length l + 1 - 1)%nat with (length l) by lia.
  by rewrite list_lookup_middle.
Qed.

Lemma vback_nil {A} : vback (@nil A) = None.
Proof. done. Qed.

(** A vector is empty or has a last element. *)
Lemma list_snoc {A} (l : list A) : l = [] \/ exists l' x, l = l' ++ [x].
Proof. destruct l as [|x l _] using rev_ind; [by left | right; eauto]. Qed.

(** ** The value of a script number *)

Lemma lor_octets acc k vch :
  octets_ok vch -> 0 <= acc < 2 ^ (8 * Z.of_nat k) ->
  foldl Z.lor acc (imap (fun i b => b << (8 * Z.of_nat (k + i))) vch)
  = acc + 2 ^ (8 * Z.of_nat k) * le_value vch.
Proof.
  intros Hv. revert acc k. induction Hv as [|b vch [? ?] Hv IH]; intros acc k Hacc.
  { cbn. change (le_value []) with 0. lia. }
  rewrite imap_cons. cbn [foldl]. rewrite Nat.add_0_r.
  rewrite (Z.lor_comm acc), lor_shift_add by (unfold fits; lia).
  assert (E : 2 ^ (8 * Z.of_nat (S k)) = 2 ^ (8 * Z.of_nat k) * 256).
  { replace (8 * Z.of_nat (S k)) with (8 * Z.of_nat k + 8) by lia. by rewrite Z.pow_add_r by lia. }
  rewrite (imap_ext _ (fun i b => b << (8 * Z.of_nat (S k + i)))) by (intros; simpl; do 3 f_equal; lia).
  rewrite IH by (rewrite E; change (2 ^ 8) with 256 in *; nia).
  rewrite le_value_cons, E. change (2 ^ 8) with 256 in *. nia.
Qed.

Lemma lor_octets_0 vch :
  octets_ok vch -> foldl Z.lor 0 (imap (fun i b => b << (8 * Z.of_nat i)) vch) = le_value vch.
Proof.
  intros Hv. rewrite (imap_ext _ (fun i b => b << (8 * Z.of_nat (0 + i)))) by done.
  rewrite lor_octets by (done || (cbn; lia)). change (8 * Z.of_nat 0) with 0. lia.
Qed.

(** Clearing the sign bit. *)
Lemma land_clear_top x k :
  7 <= k < 64 -> 2 ^ k <= x < 2 ^ (k + 1) -> x & u64 (Z.lnot (0x80 << (k - 7))) = x - 2 ^ k.
Proof.
  intros Hk Hx. assert (Hlt : 0 <= x - 2 ^ k < 2 ^ k) by (rewrite Z.pow_add_r in Hx by lia; lia).
  assert (E : x = (1 << k) .| (x - 2 ^ k)) by (rewrite lor_shift_add by (unfold fits; lia); lia).
  assert (Hy : forall i, k <= i -> Z.testbit (x - 2 ^ k) i = false)
    by (intros; apply (fits_testbit k); [split|]; lia).
  rewrite E at 1. replace (0x80 << (k - 7)) with (1 << k)
    by (change 0x80 with (1 << 7); rewrite Z.shiftl_shiftl by lia; f_equal; lia).
  apply Z.bits_inj'. intros i Hi. rewrite Z.land_spec, Z.lor_spec, wrap_testbit, Z.lnot_spec by lia.
  rewrite Z.shiftl_1_l, Z.pow2_bits_eqb by lia. destruct (Z.eqb_spec k i) as [<-|Hne].
  - rewrite Hy by lia. by rewrite !andb_false_r.
  - cbn [orb negb]. rewrite andb_true_r. destruct (Z.ltb_spec i 64); [by rewrite andb_true_r |].
    rewrite Hy by lia. done.
Qed.

(** Sign and magnitude of a vector whose last octet is [b]. *)
Lemma set_vch_snoc vch b :
  octets_ok (vch ++ [b]) -> (length vch < 8)%nat ->
  set_vch (vch ++ [b]) =
    Ret (let m := le_value vch + 2 ^ (8 * Z.of_nat (length vch)) * (b mod 128) in
         if b <? 128 then m else - m).
Proof.
  intros Hok Hl. unfold set_vch. rewrite vback_snoc, length_app. cbn [length].
  rewrite (proj2 (Z.ltb_ge _ _)) by lia. rewrite lor_octets_0 by done.
  apply Forall_app in Hok as [Hv [Hb _]%Forall_cons_iff].
  pose proof (le_value_fits vch Hv) as [Hm1 Hm2]. pose proof Hb as [Hb1 Hb2]. change (2 ^ 8) with 256 in Hb2.
  assert (HS : le_value (vch ++ [b]) = le_value vch + 2 ^ (8 * Z.of_nat (length vch)) * b).
  { rewrite le_value_app, le_value_cons. change (le_value []) with 0. lia. }
  pose proof (pow2_pos (8 * Z.of_nat (length vch))) as Hp. rewrite land_0x80 by done.
  destruct (Z.ltb_spec b 128) as [Hlt|Hge]; cbn [negb].
  - rewrite Z.mod_small by lia. unfold int64, int64_min, int64_max. rewrite HS.
    assert (le_value vch + 2 ^ (8 * Z.of_nat (length vch)) * b < 2 ^ 63).
    { apply Z.lt_le_trans with (2 ^ (8 * Z.of_nat (length vch)) * 2 ^ 7); [nia |].
      rewrite <- Z.pow_add_r by lia. apply Z.pow_le_mono_r; lia. }
    rewrite (proj2 (Z.leb_le _ _)), (proj2 (Z.leb_le _ _)) by nia. done.
  - f_equal. f_equal. replace (b mod 128) with (b - 128)
      by (rewrite <- (Z.mod_add b (-1) 128), Z.mod_small by lia; lia).
    replace (8 * (Z.of_nat (length vch + 1) - 1)) with (8 * Z.of_nat (length vch) + 7 - 7) by lia.
    assert (E7 : 2 ^ (8 * Z.of_nat (length vch) + 7) = 2 ^ (8 * Z.of_nat (length vch)) * 128)
      by (rewrite Z.pow_add_r by lia; done).
    rewrite land_clear_top; [rewrite HS, E7; lia | lia |]. rewrite HS.
    replace (8 * Z.of_nat (length vch) + 7 + 1) with (8 * Z.of_nat (length vch) + 8) by lia.
    rewrite E7, Z.pow_add_r by lia. change (2 ^ 8) with 256. nia.
Qed.

Lemma abs_octets_step fuel x : x <> 0 -> abs_octets (S fuel) x = x mod 256 :: abs_octets fuel (x / 256).
Proof.
  intros. cbn [abs_octets]. rewrite (proj2 (Z.eqb_neq _ _)) by done.
  change 0xff with (Z.ones 8). rewrite Z.land_ones, Z.shiftr_div_pow2 by lia. done.
Qed.

Lemma abs_octets_ok fuel x : octets_ok (abs_octets fuel x).
Proof.
  revert x. induction fuel as [|fuel IH]; intros x; [by constructor |]. cbn [abs_octets].
  destruct (x =? 0); [by constructor |]. constructor; [| apply IH].
  change 0xff with (Z.ones 8). rewrite Z.land_ones by lia. by apply (wrap_fits 8).
Qed.

Lemma abs_octets_length fuel x : (length (abs_octets fuel x) <= fuel)%nat.
Proof.
  revert x. induction fuel as [|fuel IH]; intros x; [done |]. cbn [abs_octets].
  destruct (x =? 0); cbn [length]; [lia |]. specialize (IH (x >> 8)). lia.
Qed.

Lemma abs_octets_le_value v b fuel :
  octets_ok (v ++ [b]) -> b <> 0 -> (length v < fuel)%nat -> abs_octets fuel (le_value (v ++ [b])) = v ++ [b].
Proof.
  revert fuel. induction v as [|x v IH]; intros fuel Hok Hb Hl; destruct fuel as [|fuel]; try (simpl in Hl; lia).
  - apply Forall_cons_iff in Hok as [[? ?] _]. cbn [app]. rewrite le_value_cons.
    change (le_value []) with 0. rewrite abs_octets_step by lia. change (2 ^ 8) with 256 in *.
    rewrite Z.mul_0_r, Z.add_0_r, Z.mod_small, Z.div_small by lia. by destruct fuel.
  - cbn [app] in *. apply Forall_cons_iff in Hok as [[? ?] Hok]. rewrite le_value_cons.
    change (2 ^ 8) with 256 in *.
    assert (0 < le_value (v ++ [b])).
    { rewrite le_value_app, le_value_cons. change (le_value []) with 0.
      apply Forall_app in Hok as [Hv [[? ?] _]%Forall_cons_iff]. pose proof (le_value_fits v Hv) as [? ?].
      pose proof (pow2_pos (8 * Z.of_nat (length v))). nia. }
    rewrite abs_octets_step by lia. rewrite (Z.mul_comm 256), Z.mod_add, Z.div_add by lia.
    rewrite Z.mod_small, Z.div_small by lia. rewrite Z.add_0_l, IH by (done || (simpl in Hl; lia)). done.
Qed.

(** The octets of a positive number end with one that is not zero. *)
Lemma abs_octets_spec fuel x :
  0 < x < 2 ^ (8 * Z.of_nat fuel) ->
  exists v b, abs_octets fuel x = v ++ [b] /\ b <> 0 /\ le_value (v ++ [b]) = x /\ octets_ok (v ++ [b]) /\
    (length v < fuel)%nat.
Proof.
  revert x. induction fuel as [|fuel IH]; intros x Hx; [simpl in Hx; lia |].
  rewrite abs_octets_step by lia. pose proof (Z.mod_pos_bound x 256) as Hm.
  pose proof (Z.div_mod x 256). destruct (decide (x / 256 = 0)) as [E|E].
  - exists [], (x mod 256). rewrite E. split_and!; [by destruct fuel | lia | | | simpl; lia].
    + cbn [app]. rewrite le_value_cons. change (le_value []) with 0. lia.
    + repeat constructor; change (2 ^ 8) with 256; lia.
  - destruct (IH (x / 256)) as (v & b & -> & Hb & Hv & Hok & Hl).
    { split; [pose proof (Z.div_pos x 256); lia |]. apply Z.div_lt_upper_bound; [lia |].
      replace (8 * Z.of_nat (S fuel)) with (8 + 8 * Z.of_nat fuel) in Hx by lia.
      rewrite Z.pow_add_r in Hx by lia. change (2 ^ 8) with 256 in Hx. lia. }
    exists (x mod 256 :: v), b. cbn [app length]. split_and!; [done.. | | | lia].
    + rewrite le_value_cons, Hv. lia.
    + constructor; [change (fits 8 (x mod 256)); split; change (2 ^ 8) with 256; lia | done].
Qed.

(** ** Script numbers: encoding and decoding are inverse *)

Lemma insert_back {A} (l : list A) x y : <[(length (l ++ [x]) - 1)%nat := y]> (l ++ [x]) = l ++ [y].
Proof.
  rewrite length_app. cbn [length]. replace (length l + 1 - 1)%nat with (length l) by lia.
  rewrite insert_app_r_alt by lia. by rewrite Nat.sub_diag.
Qed.

(** [serialize] through the octets of the magnitude. *)
Lemma serialize_snoc n v b :
  n <> 0 -> abs_octets 8 (Z.abs n) = v ++ [b] -> fits 8 b ->
  serialize n =
    if b <? 128 then v ++ [if n <? 0 then b + 128 else b]
    else (v ++ [b]) ++ [if n <? 0 then 128 else 0].
Proof.
  intros Hn E Hb. unfold serialize. rewrite (proj2 (Z.eqb_neq _ _)), E, vback_snoc, land_0x80 by done.
  destruct (Z.ltb_spec b 128); [| done]. cbn [negb]. destruct (n <? 0); [| done].
  by rewrite insert_back, lor_0x80.
Qed.

Lemma non_minimal_snoc w c :
  octets_ok (w ++ [c]) ->
  non_minimal (w ++ [c]) = (c mod 128 =? 0) && match vback w with None => true | Some d => d <? 128 end.
Proof.
  intros [Hw [Hc _]%Forall_cons_iff]%Forall_app. unfold non_minimal. rewrite vback_snoc, land_0x7f by done.
  f_equal.
  - pose proof Hc as [? ?]. change (2 ^ 8) with 256 in *. destruct (Z.ltb_spec c 128).
    + by rewrite Z.mod_small by lia.
    + rewrite <- (Z.mod_add c (-1) 128), Z.mod_small by lia. done.
  - rewrite length_app. cbn [length]. destruct (list_snoc w) as [->|(w' & d & ->)].
    + rewrite vback_nil. done.
    + rewrite vback_snoc. apply Forall_app in Hw as [_ [Hd _]%Forall_cons_iff].
      rewrite <- app_assoc, length_app. cbn [length app].
      replace (length w' + 1 + 1 - 2)%nat with (length w') by lia.
      rewrite list_lookup_middle by done. rewrite land_0x80 by done.
      rewrite (proj2 (Z.leb_gt _ _)) by lia. done.
Qed.

(** A number is written minimally and read back. *)
Lemma serialize_spec n :
  - 2 ^ 63 < n < 2 ^ 63 ->
  octets_ok (serialize n) /\ (length (serialize n) <= 8)%nat /\ non_minimal (serialize n) = false /\
  set_vch (serialize n) = Ret n.
Proof.
  intros Hn. destruct (decide (n = 0)) as [->|Hn0]; [by split_and!; [constructor | cbn; lia | |] |].
  destruct (abs_octets_spec 8 (Z.abs n)) as (v & b & E & Hb0 & Hval & Hok & Hl); [cbn; lia |].
  pose proof Hok as [Hv [Hb _]%Forall_cons_iff]%Forall_app. pose proof Hb as [Hb1 Hb2].
  change (2 ^ 8) with 256 in Hb2. rewrite (serialize_snoc n v b) by done.
  assert (HV : le_value v + 2 ^ (8 * Z.of_nat (length v)) * b = Z.abs n).
  { rewrite <- Hval, le_value_app, le_value_cons. change (le_value []) with 0. lia. }
  pose proof (le_value_fits v Hv) as [Hv1 _].
  destruct (Z.ltb_spec b 128) as [Hlt|Hge].
  - assert (Hok' : octets_ok (v ++ [if n <? 0 then b + 128 else b])).
    { apply Forall_app_2; [done |]. constructor; [| constructor]. change (fits 8 (if n <? 0 then b + 128 else b)).
      unfold fits. change (2 ^ 8) with 256. destruct (n <? 0); lia. }
    assert (Hmod : (if n <? 0 then b + 128 else b) mod 128 = b).
    { destruct (n <? 0); [rewrite <- (Z.mod_add (b + 128) (-1) 128) by lia |]; rewrite Z.mod_small; lia. }
    split_and!; [done | rewrite length_app; cbn [length]; lia | |].
    + rewrite non_minimal_snoc, Hmod by done. by rewrite (proj2 (Z.eqb_neq _ _)).
    + rewrite set_vch_snoc, Hmod by done. cbv zeta. rewrite HV. f_equal.
      destruct (Z.ltb_spec n 0); [rewrite (proj2 (Z.ltb_ge _ _)) | rewrite (proj2 (Z.ltb_lt _ _))]; lia.
  - assert (Hl7 : (length v < 7)%nat).
    { destruct (decide (length v = 7%nat)) as [E7|]; [| lia]. rewrite E7 in HV. cbn in HV. lia. }
    assert (Hok' : octets_ok ((v ++ [b]) ++ [if n <? 0 then 128 else 0])).
    { apply Forall_app_2; [done |]. constructor; [| constructor]. destruct (n <? 0); done. }
    split_and!; [done | rewrite !length_app; cbn [length]; lia | |].
    + rewrite non_minimal_snoc, vback_snoc by done. rewrite (proj2 (Z.ltb_ge b 128)) by lia. apply andb_false_r.
    + rewrite set_vch_snoc by (done || (rewrite length_app; cbn [length]; lia)). cbv zeta.
      rewrite Hval. f_equal. destruct (Z.ltb_spec n 0); cbn -[Z.mul Z.add Z.pow]; rewrite Z.mul_0_r; lia.
Qed.

(** A minimal vector is what its number is written as. *)
Lemma set_vch_serialize vch n :
  octets_ok vch -> (length vch <= 8)%nat -> non_minimal vch = false -> set_vch vch = Ret n -> serialize n = vch.
Proof.
  intros Hok Hl Hmin Hn. destruct (list_snoc vch) as [->|(w & c & ->)]; [by injection Hn as <- |].
  rewrite length_app in Hl. cbn [length] in Hl. rewrite set_vch_snoc in Hn by (done || lia).
  injection Hn as Hn. rewrite non_minimal_snoc in Hmin by done.
  pose proof Hok as [Hw [Hc _]%Forall_cons_iff]%Forall_app. pose proof Hc as [Hc1 Hc2].
  change (2 ^ 8) with 256 in Hc2. pose proof (le_value_fits w Hw) as [Hw1 _].
  pose proof (pow2_pos (8 * Z.of_nat (length w))) as Hp.
  pose proof (Z.mod_pos_bound c 128) as Hm. pose proof (Z.div_mod c 128) as Hdm.
  assert (Hq : c / 128 = if c <? 128 then 0 else 1) by (destruct (Z.ltb_spec c 128); lia).
  destruct (decide (c mod 128 = 0)) as [E0|E0].
  - rewrite E0, Z.mul_0_r, Z.add_0_r in Hn. rewrite (proj2 (Z.eqb_eq _ _)) in Hmin by done.
    destruct (list_snoc w) as [->|(w' & d & ->)]; [done |]. rewrite vback_snoc in Hmin.
    cbn [andb] in Hmin. apply Z.ltb_ge in Hmin. rewrite length_app in Hl. cbn [length] in Hl.
    assert (0 < le_value (w' ++ [d])).
    { apply Forall_app in Hw as [Hw' _]. pose proof (le_value_fits w' Hw') as [? _].
      rewrite le_value_app, le_value_cons. change (le_value []) with 0.
      pose proof (pow2_pos (8 * Z.of_nat (length w'))). nia. }
    assert (Ha : Z.abs n = le_value (w' ++ [d])) by (destruct (c <? 128); lia).
    rewrite (serialize_snoc n w' d); [| destruct (c <? 128); lia | |].
    + rewrite (proj2 (Z.ltb_ge d 128)) by lia. f_equal. f_equal.
      destruct (Z.ltb_spec c 128); destruct (Z.ltb_spec n 0); lia.
    + rewrite Ha. apply abs_octets_le_value; [done | lia | lia].
    + apply Forall_app in Hw as [_ [Hd _]%Forall_cons_iff]. done.
  - assert (Ha : Z.abs n = le_value (w ++ [c mod 128])).
    { rewrite le_value_app, le_value_cons. change (le_value []) with 0.
      rewrite Z.mul_0_r, Z.add_0_r. destruct (c <? 128); nia. }
    rewrite (serialize_snoc n w (c mod 128)); [| destruct (c <? 128); nia | |].
    + rewrite (proj2 (Z.ltb_lt _ _)) by lia. f_equal. f_equal.
      destruct (Z.ltb_spec c 128); destruct (Z.ltb_spec n 0); nia.
    + rewrite Ha. apply abs_octets_le_value; [| done | lia].
      apply Forall_app_2; [done |]. constructor; [| constructor]. split; change (2 ^ 8) with 256; lia.
    + split; change (2 ^ 8) with 256; lia.
Qed.

(** The range of a number of [k] octets. *)
Lemma set_vch_bound vch :
  octets_ok vch -> (1 <= length vch <= 8)%nat ->
  exists n, set_vch vch = Ret n /\ Z.abs n < 2 ^ (8 * Z.of_nat (length vch) - 1).
Proof.
  intros Hok Hl. destruct (list_snoc vch) as [->|(w & c & ->)]; [simpl in Hl; lia |].
  rewrite length_app in *. cbn [length] in *. rewrite set_vch_snoc by (done || lia). eexists. split; [done |].
  apply Forall_app in Hok as [Hw _]. pose proof (le_value_fits w Hw) as [? ?].
  pose proof (Z.mod_pos_bound c 128). cbv zeta.
  replace (8 * Z.of_nat (length w + 1) - 1) with (8 * Z.of_nat (length w) + 7) by lia.
  rewrite Z.pow_add_r by lia. change (2 ^ 7) with 128. destruct (c <? 128); nia.
Qed.

(** ** Reading instructions *)

(** The iterator moves forward and stays inside the script. *)
Lemma GetOp2_suffix pc ok pc' opcode data :
  GetOp2 pc = (ok, pc', opcode, data) -> exists n, pc' = drop n pc /\ (pc <> [] -> (1 <= n)%nat).
Proof.
  unfold GetOp2. destruct pc as [|b pc]; [intros [= <- <- <- <-]; by exists 0%nat |].
  assert (Hd : forall n k, (if len (drop k pc) <? n then (false, drop k pc, OP_INVALIDOPCODE, [])
      else (true, drop (Z.to_nat n) (drop k pc), b, take (Z.to_nat n) (drop k pc))) = (ok, pc', opcode, data) ->
      exists m, pc' = drop m (b :: pc) /\ (b :: pc <> [] -> (1 <= m)%nat)).
  { intros n k. destruct (_ <? n); intros [= <- <- <- <-].
    - exists (S k). split; [done | lia].
    - exists (S (k + Z.to_nat n)). split; [| lia]. cbn [drop]. by rewrite drop_drop. }
  destruct (b <=? OP_PUSHDATA4).
  - destruct (b <? OP_PUSHDATA1); [apply (Hd b 0%nat) |]. destruct (b =? OP_PUSHDATA1).
    { destruct pc as [|n pc]; [intros [= <- <- <- <-]; exists 1%nat; split; [done | lia] |].
      intros E. apply (Hd n 1%nat E). }
    destruct (b =? OP_PUSHDATA2).
    + destruct (_ <? 2); [intros [= <- <- <- <-]; exists 1%nat; split; [done | lia] | apply (Hd _ 2%nat)].
    + destruct (_ <? 4); [intros [= <- <- <- <-]; exists 1%nat; split; [done | lia] | apply (Hd _ 4%nat)].
  - destruct (_ || _); intros [= <- <- <- <-].
    + exists (S (length pc)). split; [by rewrite drop_ge | lia].
    + exists 1%nat. split; [done | lia].
Qed.

Lemma GetOp2_shorter pc ok pc' opcode data :
  GetOp2 pc = (ok, pc', opcode, data) -> pc <> [] -> (length pc' < length pc)%nat.
Proof.
  intros E Hne. destruct (GetOp2_suffix _ _ _ _ _ E) as (n & -> & Hn). specialize (Hn Hne).
  rewrite length_drop. destruct pc; [done | simpl; lia].
Qed.

(** What it returns are octets of the script. *)
Lemma GetOp2_octets pc ok pc' opcode data :
  GetOp2 pc = (ok, pc', opcode, data) -> octets_ok pc -> octets_ok pc' /\ octets_ok data /\ fits 8 opcode.
Proof.
  intros E Hok. split; [destruct (GetOp2_suffix _ _ _ _ _ E) as (n & -> & _); by apply Forall_drop |].
  revert E. unfold GetOp2. destruct pc as [|b pc]; [by intros [= <- <- <- <-] |].
  apply Forall_cons_iff in Hok as [Hb Hok].
  assert (Hd : forall n k, (if len (drop k pc) <? n then (false, drop k pc, OP_INVALIDOPCODE, [])
      else (true, drop (Z.to_nat n) (drop k pc), b, take (Z.to_nat n) (drop k pc))) = (ok, pc', opcode, data) ->
      octets_ok data /\ fits 8 opcode).
  { intros n k. destruct (_ <? n); intros [= <- <- <- <-]; [done |]. split; [| done].
    by apply Forall_take, Forall_drop. }
  destruct (b <=? OP_PUSHDATA4).
  - destruct (b <? OP_PUSHDATA1); [apply (Hd b 0%nat) |]. destruct (b =? OP_PUSHDATA1).
    { destruct pc as [|n pc]; [by intros [= <- <- <- <-] |]. intros E. apply (Hd n 1%nat E). }
    destruct (b =? OP_PUSHDATA2).
    + destruct (_ <? 2); [by intros [= <- <- <- <-] | apply (Hd _ 2%nat)].
    + destruct (_ <? 4); [by intros [= <- <- <- <-] | apply (Hd _ 4%nat)].
  - destruct (_ || _); intros [= <- <- <- <-]; done.
Qed.

(** The opcode [<<] uses for data of a given size. *)
Definition push_opcode (b : list Z) : Z :=
  if len b <? OP_PUSHDATA1 then len b
  else if len b <=? 0xff then OP_PUSHDATA1 else if len b <=? 0xffff then OP_PUSHDATA2 else OP_PUSHDATA4.

Lemma le_value_take_bytes n x rest : fits (8 * Z.of_nat n) x -> le_value (take n (le_bytes n x ++ rest)) = x.
Proof. intros. rewrite take_app_length' by (by rewrite length_le_bytes). by apply le_value_le_bytes_id. Qed.

Lemma drop_bytes n x rest : drop n (le_bytes n x ++ rest) = rest.
Proof. by rewrite drop_app_length' by (by rewrite length_le_bytes). Qed.

(** What is pushed is read back. *)
Lemma GetOp2_push_data b rest :
  len b < 2 ^ 32 -> GetOp2 (push_data b ++ rest) = (true, rest, push_opcode b, b).
Proof.
  intros Hl. pose proof (Nat2Z.is_nonneg (length b)).
  assert (Hread : forall pc, pc = b ++ rest -> (if len pc <? len b then (false, pc, OP_INVALIDOPCODE, [])
    else (true, drop (Z.to_nat (len b)) pc, push_opcode b, take (Z.to_nat (len b)) pc))
    = (true, rest, push_opcode b, b)).
  { intros pc ->. rewrite length_app, (proj2 (Z.ltb_ge _ _)) by lia. rewrite Nat2Z.id.
    by rewrite drop_app_length, take_app_length. }
  unfold push_data. rewrite <- app_assoc. unfold push_opcode in *. unfold_ops.
  destruct (Z.ltb_spec (len b) 0x4c).
  { cbn [app GetOp2]. unfold GetOp2. unfold_ops. rewrite wrap_id by (split; [lia | cbn; lia]).
    rewrite (proj2 (Z.leb_le _ _)), (proj2 (Z.ltb_lt _ _)) by lia. apply Hread. done. }
  destruct (Z.leb_spec (len b) 0xff).
  { cbn [app]. unfold GetOp2. unfold_ops. rewrite wrap_id by (split; [lia | cbn; lia]).
    cbn -[Z.of_nat drop take]. by apply Hread. }
  destruct (Z.leb_spec (len b) 0xffff).
  - cbn [app]. unfold GetOp2. unfold_ops.
    rewrite le_value_take_bytes by (split; [lia | cbn; lia]). rewrite drop_bytes.
    rewrite (proj2 (Z.ltb_ge _ 2)) by (rewrite length_app, length_le_bytes; lia).
    cbn -[Z.of_nat drop take]. by apply Hread.
  - cbn [app]. unfold GetOp2. unfold_ops.
    rewrite le_value_take_bytes by (split; [lia | cbn; lia]). rewrite drop_bytes.
    rewrite (proj2 (Z.ltb_ge _ 4)) by (rewrite length_app, length_le_bytes; lia).
    cbn -[Z.of_nat drop take]. by apply Hread.
Qed.

(** ** [FindAndDelete] *)

Lemma skip_equal_spec fuel b pc nFound :
  b <> [] -> (length pc <= fuel)%nat ->
  exists n, (skip_equal fuel b pc nFound).1 = drop n pc /\
    ~ (take (length b) (skip_equal fuel b pc nFound).1 = b).
Proof.
  intros Hb. revert pc nFound. induction fuel as [|fuel IH]; intros pc nFound Hl.
  { exists 0%nat. split; [done |]. destruct pc; [| simpl in Hl; lia]. cbn. rewrite take_nil. congruence. }
  cbn [skip_equal]. destruct (Z.leb_spec (len b) (len pc)).
  - case_bool_decide as E; cbn [andb].
    + destruct (IH (drop (length b) pc) (nFound + 1)) as (n & -> & Hn).
      { rewrite length_drop. destruct b; [done | simpl in *; lia]. }
      exists (length b + n)%nat. by rewrite drop_drop in *.
    + by exists 0%nat.
  - exists 0%nat. split; [done |]. cbn [fst andb]. intros E. apply (f_equal length) in E.
    rewrite length_take in E. lia.
Qed.

Lemma skip_equal_none fuel b pc nFound : take (length b) pc <> b -> skip_equal fuel b pc nFound = (pc, nFound).
Proof. destruct fuel; [done |]. intros. cbn [skip_equal]. by rewrite bool_decide_eq_false_2, andb_false_r. Qed.

(** It returns, and what remains is no longer than the script. *)
Lemma fad_loop_total fuel b result pc2 pc nFound :
  b <> [] -> (length pc < fuel)%nat -> octets_ok result -> octets_ok pc2 -> octets_ok pc ->
  (length pc <= length pc2)%nat ->
  exists r p n, fad_loop fuel b result pc2 pc nFound = Some (r, p, n) /\ octets_ok (r ++ p) /\
    (length (r ++ p) <= length (result ++ pc2))%nat.
Proof.
  intros Hb. revert result pc2 pc nFound. induction fuel as [|fuel IH];
    intros result pc2 pc nFound Hl Hr H2 Hp Hle; [lia |].
  cbn [fad_loop]. destruct (skip_equal_spec (length pc) b pc nFound) as (n & En & _); [done | lia |].
  destruct (skip_equal (length pc) b pc nFound) as [pc' nf]. cbn [fst] in En. subst pc'.
  destruct (GetOp2 (drop n pc)) as [[[ok pc'] op] d] eqn:E.
  set (result' := result ++ take (length pc2 - length pc) pc2).
  assert (Hr' : octets_ok result') by (subst result'; auto using Forall_take, Forall_app_2).
  assert (Hd : octets_ok (drop n pc)) by by apply Forall_drop.
  assert (Hlen : (length (result' ++ drop n pc) <= length (result ++ pc2))%nat).
  { subst result'. rewrite !length_app, length_take, length_drop. lia. }
  destruct (decide (drop n pc = [])) as [En|En].
  { rewrite En in *. injection E as <- <- <- <-. eexists _, _, _. split; [done |]. by rewrite app_nil_r in *. }
  pose proof (GetOp2_shorter _ _ _ _ _ E En) as Hs.
  apply GetOp2_octets in E as (? & _ & _); [| done].
  destruct ok; [| eexists _, _, _; split; [done |]; split; [by apply Forall_app_2 | done]].
  destruct (IH result' (drop n pc) pc' nf) as (r & p & m & -> & ? & ?); [| done..| lia |].
  { rewrite length_drop in Hs. lia. }
  eexists _, _, _. split; [done |]. split; [done | lia].
Qed.

Lemma FindAndDelete_total script b :
  octets_ok script ->
  exists r n, FindAndDelete script b = Some (r, n) /\ octets_ok r /\ (length r <= length script)%nat.
Proof.
  intros Hs. unfold FindAndDelete. destruct (decide (b = [])); [by exists script, 0 |].
  destruct (fad_loop_total (S (length script)) b [] script script 0) as (r & p & n' & -> & Hrp & Hl);
    [done | lia | by constructor | done.. |].
  rewrite obind_Some. eexists _, _. split; [done |]. by destruct (0 <? n').
Qed.
