(* ===== verification/InterpreterProofs.v ===== *)
(** * The script interpreter: safety

    [safe P m]: the outcome [m] is a result satisfying [P], a script error, or the exception
    of a script number; never an access out of range, an empty stack popped, a failed
    assertion or undefined behaviour.  Each operation of [EvalScript] is safe and keeps the
    limits on elements and operations. *)

From S2P Require Import Prelude MdHash ShaSpec Hash Script Interpreter ScriptProofs.
#[local] Open Scope Z_scope.

Definition safe {A} (P : A -> Prop) (m : outcome A) : Prop :=
  match m with Ret a => P a | Fail _ => True | Throw x => x = scriptnum_error | Stuck => False end.

Lemma safe_obnd {A B} (P : A -> Prop) (Q : B -> Prop) m k :
  safe P m -> (forall a, P a -> safe Q (k a)) -> safe Q (obnd m k).
Proof. destruct m; cbn; auto. Qed.

Lemma safe_impl {A} (P Q : A -> Prop) m : safe P m -> (forall a, P a -> Q a) -> safe Q m.
Proof. destruct m; cbn; auto. Qed.

Lemma safe_if {A} (P : A -> Prop) (b : bool) m n :
  (b = true -> safe P m) -> (b = false -> safe P n) -> safe P (if b then m else n).
Proof. destruct b; auto. Qed.

Lemma safe_switch {A} (P : A -> Prop) v cases (dflt : A) :
  Forall (fun c => existsb (Z.eqb v) c.1 = true -> P c.2) cases -> P dflt -> P (switch v cases dflt).
Proof.
  induction 1 as [|[labels a] cases Ha _ IH]; intros Hd; [done |]. cbn [switch].
  destruct (existsb _ labels) eqn:E; auto.
Qed.

(** ** The stack *)

(** An element of the stack: octets, at most 520 of them. *)
Definition elem_ok (v : valtype) : Prop := octets_ok v /\ len v <= MAX_SCRIPT_ELEMENT_SIZE.

Abbreviation stack_ok := (Forall elem_ok).

Lemma stacktop_safe s i :
  stack_ok s -> - len s <= i < 0 -> safe elem_ok (stacktop s i).
Proof.
  intros Hs Hi. unfold stacktop. rewrite (proj2 (Z.leb_gt _ _)) by lia.
  destruct (s !! Z.to_nat (- i - 1)) as [v|] eqn:E.
  - cbn. eapply Forall_lookup_1; done.
  - apply lookup_ge_None in E. lia.
Qed.

Lemma popstack_safe s : stack_ok s -> 1 <= len s -> safe (fun s' => stack_ok s' /\ len s' = len s - 1) (popstack s).
Proof.
  intros Hs Hl. destruct s as [|v s]; [simpl in Hl; lia |]. cbn. apply Forall_cons_iff in Hs as [_ ?].
  split; [done | lia].
Qed.

Lemma swap_safe s i j :
  stack_ok s -> - len s <= i < 0 -> - len s <= j < 0 ->
  safe (fun s' => stack_ok s' /\ len s' = len s) (swap s i j).
Proof.
  intros Hs Hi Hj. unfold swap. eapply safe_obnd; [by apply stacktop_safe |]. intros a Ha.
  eapply safe_obnd; [by apply stacktop_safe |]. intros b Hb. cbn. rewrite !length_insert. split; [| done].
  by repeat apply Forall_insert.
Qed.

Lemma need_safe {A} (P : A -> Prop) n s m : (n <= len s -> safe P m) -> safe P (need n s m).
Proof. unfold need. destruct (Z.ltb_spec (len s) n); cbn; auto with lia. Qed.

Lemma serialize_elem n : elem_ok (serialize n).
Proof.
  unfold elem_ok, MAX_SCRIPT_ELEMENT_SIZE, serialize. destruct (n =? 0); [split; [by constructor | done] |].
  pose proof (abs_octets_ok 8 (Z.abs n)) as Hok. pose proof (abs_octets_length 8 (Z.abs n)) as Hl.
  destruct (list_snoc (abs_octets 8 (Z.abs n))) as [E|(v & b & E)]; rewrite E in *; [by split; [constructor |] |].
  rewrite vback_snoc. pose proof Hok as [Hv [Hb _]%Forall_cons_iff]%Forall_app.
  destruct (negb _) eqn:Eb; [| destruct (n <? 0); [| by split; [| lia]]].
  - rewrite length_app. cbn [length]. split; [| lia]. apply Forall_app_2; [done |].
    constructor; [by destruct (n <? 0) | constructor].
  - rewrite land_0x80 in Eb by done. apply negb_false_iff, Z.ltb_lt in Eb.
    rewrite insert_back, lor_0x80 by done. rewrite length_app in *. cbn [length] in *. split; [| lia].
    apply Forall_app_2; [done |]. destruct Hb. constructor; [| constructor]. split; change (2 ^ 8) with 256; lia.
Qed.

Lemma vchBool_elem b : elem_ok (vchBool b).
Proof. by destruct b; repeat constructor. Qed.

Create HintDb script.
#[export] Hint Resolve serialize_elem vchBool_elem : script.

(** A number read from the stack: at most [k] octets. *)
Lemma CScriptNum_safe v fMin k :
  octets_ok v -> 0 <= k <= 8 -> safe (fun n => Z.abs n < 2 ^ (8 * k)) (CScriptNum v fMin k).
Proof.
  intros Hv Hk. unfold CScriptNum. destruct (Z.ltb_spec k (len v)); [done |].
  destruct (fMin && _); [done |]. destruct (decide (v = [])) as [->|Hne].
  { cbn. apply pow2_pos. lia. }
  destruct (set_vch_bound v) as (n & -> & Hn); [done | destruct v; [done | simpl in *; lia] |].
  cbn. eapply Z.lt_le_trans; [done |]. apply Z.pow_le_mono_r; lia.
Qed.

(** ** The invariant of [EvalScript] *)

Definition eval_ok (st : eval) : Prop :=
  stack_ok (e_stack st) /\ stack_ok (e_altstack st) /\ octets_ok (e_pc st) /\
  octets_ok (e_begincodehash st) /\ len (e_pc st) <= MAX_SCRIPT_SIZE /\
  len (e_begincodehash st) <= MAX_SCRIPT_SIZE /\ 0 <= e_nOpCount st <= MAX_OPS_PER_SCRIPT.

(** The state after an operation: the invariant, and the iterator where it was. *)
Definition op_post (st st' : eval) : Prop := eval_ok st' /\ e_pc st' = e_pc st.

(** What [EvalScript] relies on: the checker returns on the data it is given. *)
Class CheckerOk (CK : BaseSignatureChecker) := {
  CheckSig_total sig pub code sv :
    elem_ok sig -> elem_ok pub -> octets_ok code -> len code <= MAX_SCRIPT_SIZE ->
    exists b, CheckSig sig pub code sv = Ret b;
  CheckLockTime_total n : exists b, CheckLockTime n = Ret b;
  CheckSequence_total n : exists b, CheckSequence n = Ret b;
}.

(** One step of an operation on the stack. *)
Ltac safe_step :=
  match goal with
  | |- safe _ (need _ _ _) => apply need_safe; intros ?
  | |- safe _ (obnd (stacktop _ _) _) =>
      eapply safe_obnd; [apply stacktop_safe; [done | lia] |]; intros ? ?
  | |- safe _ (obnd (popstack _) _) =>
      eapply safe_obnd; [apply popstack_safe; [done | lia] |]; intros ? [? ?]
  | |- safe _ (popstack (_ :: _)) => cbn [popstack safe]
  | |- safe _ (popstack _) => eapply safe_impl; [apply popstack_safe; [done | lia] |]; by intros ? [? ?]
  | |- safe _ (obnd (swap _ _ _) _) =>
      eapply safe_obnd; [apply swap_safe; [done | lia | lia] |]; intros ? [? ?]
  | |- safe _ (swap _ _ _) => eapply safe_impl; [apply swap_safe; [done | lia | lia] |]; by intros ? [? ?]
  | |- safe _ (Fail _) => exact I
  | |- safe _ (if ?b then _ else _) => apply safe_if; intros ?
  | |- safe (Forall _) (Ret _) => cbn [safe]
  | |- stack_ok (_ :: _) => apply Forall_cons_2; [solve [eauto with script] |]
  | |- stack_ok (_ ++ _) => apply Forall_app_2
  | |- stack_ok (take _ _) => apply Forall_take
  | |- stack_ok (drop _ _) => apply Forall_drop
  | |- stack_ok (if ?b then _ else _) => destruct b
  | |- stack_ok _ => done
  end.

Ltac safe_steps := repeat safe_step.

(** Both branches of the conditionals in sight. *)
Ltac safe_ifs := repeat match goal with |- safe _ (if _ then _ else _) => apply safe_if; intros ? end.

Section Safety.
Context `{CK : BaseSignatureChecker} `{!CheckerOk CK} (g g' : list Z).
Context (Hg : length g = 64%nat) (Hg' : length g' = 64%nat) (flags : Z) (sigversion : SigVersion).

Lemma num_at_safe s i k :
  stack_ok s -> - len s <= i < 0 -> 0 <= k <= 8 -> safe (fun n => Z.abs n < 2 ^ (8 * k)) (num_at flags s i k).
Proof.
  intros Hs Hi Hk. unfold num_at. eapply safe_obnd; [by apply stacktop_safe |].
  intros v [Hv _]. by apply CScriptNum_safe.
Qed.

Lemma on_stack_safe f st :
  (stack_ok (e_stack st) -> safe stack_ok (f (e_stack st))) -> eval_ok st -> safe (op_post st) (on_stack f st).
Proof.
  intros Hf (Hs & Ha & Hr). unfold on_stack. eapply safe_obnd; [by apply Hf |].
  intros s Hs'. cbn. by split_and!.
Qed.

(** The operations that only move elements. *)
Lemma stack_ops_safe st : eval_ok st ->
  Forall (fun h => safe (op_post st) (h st))
    [op_verify; op_2drop; op_2dup; op_3dup; op_2over; op_2rot; op_2swap; op_ifdup; op_depth; op_drop; op_dup;
     op_nip; op_over; op_rot; op_swap; op_tuck; op_size].
Proof.
  intros Hok. repeat apply Forall_cons_2; try apply Forall_nil_2.
  all: apply on_stack_safe; [| done]; intros Hs; safe_steps.
Qed.

Lemma op_number_safe opcode st : eval_ok st -> safe (op_post st) (op_number opcode st).
Proof. apply on_stack_safe. intros Hs. safe_steps. Qed.

Lemma op_equal_safe opcode st : eval_ok st -> safe (op_post st) (op_equal opcode st).
Proof.
  apply on_stack_safe. intros Hs. unfold op_equal. cbv zeta. safe_steps.
Qed.

Lemma op_pick_roll_safe opcode st : eval_ok st -> safe (op_post st) (op_pick_roll flags opcode st).
Proof.
  apply on_stack_safe. intros Hs. apply need_safe. intros Hl.
  eapply safe_obnd; [apply num_at_safe; [done | lia | done] |]. intros m _. cbv zeta. safe_step.
  apply safe_if; [done |]. intros [? ?]%orb_false_iff. safe_steps.
Qed.

(** Arithmetic on numbers of four octets never overflows. *)
Lemma int64_safe x : Z.abs x < 2 ^ 63 -> safe (fun _ => True) (int64 x).
Proof.
  intros Hx. unfold int64, int64_min, int64_max. apply safe_if; [done |].
  rewrite andb_false_iff, !Z.leb_gt. lia.
Qed.

Lemma num1_safe opcode bn :
  Z.abs bn < 2 ^ 32 -> existsb (Z.eqb opcode) [OP_1ADD; OP_1SUB; OP_NEGATE; OP_ABS; OP_NOT; OP_0NOTEQUAL] = true ->
  safe (fun _ => True) (num1 opcode bn).
Proof.
  intros Hb Hop. cbn [existsb] in Hop. unfold num1, num_add, num_sub, num_neg, int64_min.
  safe_ifs; try done; try (apply int64_safe; lia); try (cbn [safe]; lia).
  all: repeat (apply orb_true_iff in Hop as [Hop|Hop]); congruence.
Qed.

Lemma num2_safe opcode b1 b2 :
  Z.abs b1 < 2 ^ 32 -> Z.abs b2 < 2 ^ 32 ->
  existsb (Z.eqb opcode) [OP_ADD; OP_SUB; OP_BOOLAND; OP_BOOLOR; OP_NUMEQUAL; OP_NUMEQUALVERIFY; OP_NUMNOTEQUAL;
    OP_LESSTHAN; OP_GREATERTHAN; OP_LESSTHANOREQUAL; OP_GREATERTHANOREQUAL; OP_MIN; OP_MAX] = true ->
  safe (fun _ => True) (num2 opcode b1 b2).
Proof.
  intros H1 H2 Hop. cbn [existsb] in Hop. unfold num2, num_add, num_sub.
  safe_ifs; try done; try (apply int64_safe; lia).
  repeat (apply orb_true_iff in Hop as [Hop|Hop]); congruence.
Qed.

Lemma op_numeric1_safe opcode st :
  existsb (Z.eqb opcode) [OP_1ADD; OP_1SUB; OP_NEGATE; OP_ABS; OP_NOT; OP_0NOTEQUAL] = true ->
  eval_ok st -> safe (op_post st) (op_numeric1 flags opcode st).
Proof.
  intros Hop. apply on_stack_safe. intros Hs. apply need_safe. intros Hl.
  eapply safe_obnd; [apply num_at_safe; [done | lia | done] |]. intros bn Hbn.
  eapply safe_obnd; [by apply num1_safe |]. intros bn' _. safe_steps.
Qed.

Lemma op_numeric2_safe opcode st :
  existsb (Z.eqb opcode) [OP_ADD; OP_SUB; OP_BOOLAND; OP_BOOLOR; OP_NUMEQUAL; OP_NUMEQUALVERIFY; OP_NUMNOTEQUAL;
    OP_LESSTHAN; OP_GREATERTHAN; OP_LESSTHANOREQUAL; OP_GREATERTHANOREQUAL; OP_MIN; OP_MAX] = true ->
  eval_ok st -> safe (op_post st) (op_numeric2 flags opcode st).
Proof.
  intros Hop. apply on_stack_safe. intros Hs. apply need_safe. intros Hl.
  eapply safe_obnd; [apply num_at_safe; [done | lia | done] |]. intros b1 H1.
  eapply safe_obnd; [apply num_at_safe; [done | lia | done] |]. intros b2 H2.
  eapply safe_obnd; [by apply num2_safe |]. intros bn _. cbv zeta. do 2 safe_step.
  change (stacktop (serialize bn :: a0) (-1)) with (Ret (serialize bn)). cbn [obnd]. safe_steps.
Qed.

Lemma op_within_safe st : eval_ok st -> safe (op_post st) (op_within flags st).
Proof.
  apply on_stack_safe. intros Hs. apply need_safe. intros Hl.
  do 3 (eapply safe_obnd; [apply num_at_safe; [done | lia | done] |]; intros ? ?). cbv zeta. safe_steps.
Qed.

Lemma hash_of_safe opcode v : elem_ok v -> safe elem_ok (must (hash_of g g' opcode v)).
Proof.
  intros [Hv Hl]. unfold MAX_SCRIPT_ELEMENT_SIZE in Hl.
  assert (Hrun : forall (H : StreamHash) (digest : list Z -> list Z) (OK : StreamHashOk H digest),
    @sh_bufsize H = 64%nat -> (@sh_size H <= 64)%nat -> safe elem_ok (must (@sh_run H g [v]))).
  { intros H digest OK Hb Hsz. rewrite sh_run_ok.
    - cbn [must safe concat]. rewrite app_nil_r. destruct (sh_digest_wf v Hv) as [Hdl Hd].
      split; [done |]. unfold MAX_SCRIPT_ELEMENT_SIZE. lia.
    - congruence.
    - cbn [concat]. by rewrite app_nil_r.
    - cbn [concat]. rewrite app_nil_r. lia. }
  unfold hash_of. destruct (_ =? _); [apply (Hrun _ _ CRIPEMD160_ok); simpl; lia |].
  destruct (_ =? _); [apply (Hrun _ _ CSHA1_ok); simpl; lia |].
  destruct (_ =? _); [apply (Hrun _ _ CSHA256_ok); simpl; lia |].
  destruct (_ =? _); [apply (Hrun _ _ (CHash160_ok g' Hg')); simpl; lia |].
  apply (Hrun _ _ CHash256_ok); simpl; lia.
Qed.

Lemma op_hash_safe opcode st : eval_ok st -> safe (op_post st) (op_hash g g' opcode st).
Proof.
  apply on_stack_safe. intros Hs. do 2 safe_step.
  eapply safe_obnd; [by apply hash_of_safe |]. intros h Hh. safe_steps.
Qed.

(** ** Signatures *)

(** Reading a signature never leaves it. *)
Lemma IsValidSignatureEncoding_total sig : octets_ok sig -> exists b, IsValidSignatureEncoding sig = Some b.
Proof.
  intros Hok. assert (Hat : forall i, (i < length sig)%nat -> exists x, sig !! i = Some x /\ fits 8 x).
  { intros i Hi. apply lookup_lt_is_Some in Hi as [x Hx]. exists x. split; [done |].
    by eapply Forall_lookup_1 in Hok. }
  unfold IsValidSignatureEncoding. destruct (Z.ltb_spec (len sig) 9); [eauto |].
  destruct (Z.ltb_spec 73 (len sig)); [eauto |].
  destruct (Hat 0%nat) as (s0 & -> & _); [lia |]. rewrite obind_Some. destruct (negb _); [eauto |].
  destruct (Hat 1%nat) as (s1 & -> & _); [lia |]. rewrite obind_Some. destruct (negb _); [eauto |].
  destruct (Hat 3%nat) as (lenR & -> & [HR _]); [lia |]. rewrite obind_Some.
  destruct (Z.leb_spec (len sig) (5 + lenR)); [eauto |].
  destruct (Hat (Z.to_nat (5 + lenR))) as (lenS & -> & [HS _]); [lia |]. rewrite obind_Some.
  destruct (Z.eqb_spec (lenR + lenS + 7) (len sig)); [| eauto]. cbn [negb].
  destruct (Hat 2%nat) as (s2 & -> & _); [lia |]. rewrite obind_Some. destruct (negb _); [eauto |].
  destruct (lenR =? 0); [eauto |].
  destruct (Hat 4%nat) as (s4 & -> & _); [lia |]. rewrite obind_Some. destruct (negb _); [eauto |].
  destruct (Hat 5%nat) as (s5 & -> & _); [lia |].
  assert (Hn : exists b, (if (1 <? lenR) && (s4 =? 0) then s5 ← Some s5; Some (s5 & 0x80 =? 0) else Some false) = Some b)
    by (destruct (_ && _); [rewrite obind_Some |]; eauto).
  destruct Hn as [b ->]. rewrite obind_Some. destruct b; [eauto |].
  destruct (Hat (Z.to_nat (lenR + 4))) as (r4 & -> & _); [lia |]. rewrite obind_Some. destruct (negb _); [eauto |].
  destruct (Z.eqb_spec lenS 0); [eauto |].
  destruct (Hat (Z.to_nat (lenR + 6))) as (r6 & -> & _); [lia |]. rewrite obind_Some. destruct (negb _); [eauto |].
  destruct (Z.ltb_spec 1 lenS); [| by eauto].
  destruct (Hat (Z.to_nat (lenR + 7))) as (r7 & -> & _); [lia |].
  cbn [andb]. destruct (r6 =? 0); rewrite ?obind_Some; eauto.
Qed.

Lemma CheckSignatureEncoding_safe sig :
  octets_ok sig -> safe (fun _ => True) (CheckSignatureEncoding flags sig).
Proof.
  intros Hok. destruct (IsValidSignatureEncoding_total sig Hok) as [b E].
  unfold CheckSignatureEncoding, IsLowDERSignature. rewrite E. destruct (decide (sig = [])); [done |].
  repeat match goal with |- context [has flags ?f] => destruct (has flags f) end; destruct b;
    cbn [must obnd negb andb]; try done; repeat (case_match; cbn [obnd]; try done).
Qed.

Lemma CheckPubKeyEncoding_safe pub : safe (fun _ => True) (CheckPubKeyEncoding flags sigversion pub).
Proof. unfold CheckPubKeyEncoding. by safe_ifs. Qed.

Lemma CheckSig_safe sig pub code :
  elem_ok sig -> elem_ok pub -> octets_ok code -> len code <= MAX_SCRIPT_SIZE ->
  safe (fun _ => True) (CheckSig sig pub code sigversion).
Proof. intros. destruct (CheckSig_total sig pub code sigversion) as [b ->]; done. Qed.

Lemma drop_signature_safe code sig :
  octets_ok code -> len code <= MAX_SCRIPT_SIZE ->
  safe (fun c => octets_ok c /\ len c <= MAX_SCRIPT_SIZE) (drop_signature sigversion code sig).
Proof.
  intros Hc Hl. unfold drop_signature. destruct (decide _); [| done].
  destruct (FindAndDelete_total code (push_data sig) Hc) as (r & n & -> & Hr & Hrl).
  cbn. unfold MAX_SCRIPT_SIZE in *. split; [done | lia].
Qed.

(** Checking one signature, as both operations do. *)
Lemma check_one_safe {A} (P : A -> Prop) sig pub code (k : bool -> outcome A) :
  elem_ok sig -> elem_ok pub -> octets_ok code -> len code <= MAX_SCRIPT_SIZE -> (forall b, safe P (k b)) ->
  safe P (let* _ := CheckSignatureEncoding flags sig in let* _ := CheckPubKeyEncoding flags sigversion pub in
          let* b := CheckSig sig pub code sigversion in k b).
Proof.
  intros Hs Hp Hc Hl Hk. eapply safe_obnd; [by apply CheckSignatureEncoding_safe; destruct Hs |]. intros _ _.
  eapply safe_obnd; [apply CheckPubKeyEncoding_safe |]. intros _ _.
  eapply safe_obnd; [by apply CheckSig_safe |]. intros b _. apply Hk.
Qed.

Lemma op_checksig_safe opcode st : eval_ok st -> safe (op_post st) (op_checksig flags sigversion opcode st).
Proof.
  intros Hok. pose proof Hok as (_ & _ & _ & Hc & _ & Hl & _). revert Hok. apply on_stack_safe.
  intros Hs. do 3 safe_step. eapply safe_obnd; [by apply drop_signature_safe |]. intros code [? ?].
  apply check_one_safe; [done.. |]. intros b. cbv zeta. safe_steps.
Qed.

Lemma drop_signatures_safe n s isig code :
  stack_ok s -> 0 < isig -> isig + Z.of_nat n <= len s + 1 -> octets_ok code -> len code <= MAX_SCRIPT_SIZE ->
  safe (fun c => octets_ok c /\ len c <= MAX_SCRIPT_SIZE) (drop_signatures sigversion n s isig code).
Proof.
  intros Hs. revert isig code. induction n as [|n IH]; intros isig code Hi Hn Hc Hl; [done |].
  cbn [drop_signatures]. eapply safe_obnd; [apply stacktop_safe; [done | lia] |]. intros sig _.
  eapply safe_obnd; [by apply drop_signature_safe |]. intros c [? ?]. apply IH; lia || done.
Qed.

Lemma multisig_loop_safe fuel s code isig ikey nSigs nKeys :
  stack_ok s -> octets_ok code -> len code <= MAX_SCRIPT_SIZE -> 0 < isig -> 0 < ikey ->
  isig + nSigs <= len s + 1 -> ikey + nKeys <= len s + 1 -> nSigs <= nKeys -> nKeys <= Z.of_nat fuel ->
  safe (fun _ => True) (multisig_loop flags sigversion fuel s code isig ikey nSigs nKeys).
Proof.
  intros Hs Hc Hl. revert isig ikey nSigs nKeys.
  induction fuel as [|fuel IH]; intros isig ikey nSigs nKeys Hi Hk HiS HkK Hle Hf;
    cbn [multisig_loop]; (destruct (Z.ltb_spec 0 nSigs); [cbn [negb] | done]); [lia |].
  eapply safe_obnd; [apply stacktop_safe; [done | lia] |]. intros sig ?.
  eapply safe_obnd; [apply stacktop_safe; [done | lia] |]. intros pub ?.
  apply check_one_safe; [done.. |]. intros b. cbv zeta. apply safe_if; [done |]. intros ?%Z.ltb_ge.
  apply IH; destruct b; lia.
Qed.

Lemma multisig_clean_safe n b ikey2 s :
  stack_ok s -> Z.of_nat n <= len s ->
  safe (fun s' => stack_ok s' /\ len s' = len s - Z.of_nat n) (multisig_clean flags n b ikey2 s).
Proof.
  revert ikey2 s. induction n as [|n IH]; intros ikey2 s Hs Hn; [cbn; split; [done | lia] |].
  cbn [multisig_clean]. safe_step. apply safe_if; [done |]. intros _. safe_step.
  eapply safe_impl; [apply IH; [done | lia] |]. intros s' [? ?]. split; [done | lia].
Qed.

Lemma op_checkmultisig_safe opcode st :
  eval_ok st -> safe (op_post st) (op_checkmultisig flags sigversion opcode st).
Proof.
  intros (Hs & Ha & Hp & Hc & Hpl & Hcl & Hn). unfold op_checkmultisig. cbv zeta. safe_step.
  eapply safe_obnd; [apply num_at_safe; [done | lia | done] |]. intros m _.
  set (nKeys := getint m). apply safe_if; [done |]. intros [Hk1 Hk2]%orb_false_iff.
  apply safe_if; [done |]. intros Hop. safe_step.
  eapply safe_obnd; [apply num_at_safe; [done | lia | done] |]. intros m' _.
  set (nSigs := getint m'). apply safe_if; [done |]. intros [Hs1 Hs2]%orb_false_iff. safe_step.
  eapply safe_obnd; [apply drop_signatures_safe; [done | lia | lia | done | done] |]. intros code [? ?].
  eapply safe_obnd; [apply multisig_loop_safe; [done.. | | | | | |]; lia |]. intros b _.
  eapply safe_obnd; [apply multisig_clean_safe; [done | lia] |]. intros s' [? ?]. do 2 safe_step.
  apply safe_if; [done |]. intros _. safe_step.
  eapply (safe_obnd stack_ok); [safe_steps |]. intros s2 Hs2'. cbn. split; [| done].
  split_and!; cbn; [done.. | lia | lia].
Qed.

(** ** The other cases *)

Lemma op_lock_safe st : eval_ok st ->
  safe (op_post st) (op_checklocktimeverify flags st) /\ safe (op_post st) (op_checksequenceverify flags st) /\
  safe (op_post st) (op_nops flags st).
Proof.
  intros Hok. assert (Hret : safe (op_post st) (Ret st)) by done. pose proof Hok as (Hs & _). split_and!.
  - unfold op_checklocktimeverify. apply safe_if; intros _; [by safe_ifs |]. safe_step.
    eapply safe_obnd; [apply num_at_safe; [done | lia | done] |]. intros n _. apply safe_if; [done |]. intros _.
    destruct (CheckLockTime_total n) as [b ->]. cbn [obnd]. by safe_ifs.
  - unfold op_checksequenceverify. apply safe_if; intros _; [by safe_ifs |]. safe_step.
    eapply safe_obnd; [apply num_at_safe; [done | lia | done] |]. intros n _. apply safe_if; [done |]. intros _.
    apply safe_if; [done |]. intros _. destruct (CheckSequence_total n) as [b ->]. cbn [obnd]. by safe_ifs.
  - unfold op_nops. by safe_ifs.
Qed.

(** Changes that keep the stacks, or replace them by good ones. *)
Ltac post := cbn [safe]; unfold op_post, eval_ok in *; destruct_and?; cbn; split_and!;
  first [done | lia | apply Forall_cons_2; done].

Lemma op_control_safe opcode fExec st : eval_ok st ->
  safe (op_post st) (op_if flags sigversion opcode fExec st) /\ safe (op_post st) (op_else st) /\
  safe (op_post st) (op_endif st) /\ safe (op_post st) (op_codeseparator st).
Proof.
  intros Hok. pose proof Hok as (Hs & _). split_and!.
  - unfold op_if. cbv zeta. apply safe_if; intros _; [post |].
    apply safe_if; [done |]. intros ?%Z.ltb_ge. safe_step. apply safe_if; [done |]. intros _. safe_step. post.
  - unfold op_else. destruct (e_vfExec st); [done | post].
  - unfold op_endif. destruct (e_vfExec st); [done | post].
  - unfold op_codeseparator. post.
Qed.

Lemma op_alt_safe st : eval_ok st ->
  safe (op_post st) (op_toaltstack st) /\ safe (op_post st) (op_fromaltstack st).
Proof.
  intros Hok. pose proof Hok as (Hs & Ha & _). split.
  - unfold op_toaltstack. do 3 safe_step. post.
  - unfold op_fromaltstack. apply safe_if; [done |]. intros ?%Z.ltb_ge. do 2 safe_step. post.
Qed.

(** Every case of the [switch]. *)
Lemma eval_cases_safe opcode fExec st :
  eval_ok st ->
  safe (op_post st) (switch opcode (eval_cases g g' flags sigversion opcode fExec) (fun _ => Fail SCRIPT_ERR_BAD_OPCODE) st).
Proof.
  intros Hok. apply (safe_switch (fun h => safe (op_post st) (h st))); [| done].
  pose proof (stack_ops_safe st Hok) as Hst. repeat (apply Forall_cons_iff in Hst as [? Hst]). clear Hst.
  destruct (op_lock_safe st Hok) as (? & ? & ?). destruct (op_control_safe opcode fExec st Hok) as (? & ? & ? & ?).
  destruct (op_alt_safe st Hok) as (? & ?).
  unfold eval_cases. repeat apply Forall_cons_2; try apply Forall_nil_2; cbn [fst snd]; intros Hop; try done.
  all: auto using op_number_safe, op_pick_roll_safe, op_equal_safe, op_numeric1_safe, op_numeric2_safe,
    op_within_safe, op_hash_safe, op_checksig_safe, op_checkmultisig_safe.
Qed.

Definition stacks_size (st : eval) : Z := len (e_stack st) + len (e_altstack st).

Lemma eval_step_safe st :
  eval_ok st -> e_pc st <> [] ->
  safe (fun st' => eval_ok st' /\ (length (e_pc st') < length (e_pc st))%nat /\ stacks_size st' <= 1000)
    (eval_step g g' flags sigversion st).
Proof.
  intros Hok Hne. pose proof Hok as (Hs & Ha & Hp & Hc & Hpl & Hcl & Hn). unfold eval_step. cbv zeta.
  destruct (GetOp2 (e_pc st)) as [[[ok pc] opcode] data] eqn:E.
  pose proof (GetOp2_shorter _ _ _ _ _ E Hne) as Hsh. apply GetOp2_octets in E as (Hpc & Hd & _); [| done].
  apply safe_if; [done |]. intros _. apply safe_if; [done |]. intros Hdl%Z.ltb_ge.
  apply safe_if; [done |]. intros Hcount. apply safe_if; [done |]. intros _.
  set (n := if OP_16 <? opcode then _ else _) in *.
  assert (Hn' : 0 <= n <= MAX_OPS_PER_SCRIPT).
  { subst n. destruct (OP_16 <? opcode); [| done]. cbn [andb] in Hcount. lia. }
  set (st1 := mkEval pc _ _ _ _ n). assert (Hok1 : eval_ok st1) by (unfold eval_ok; cbn; split_and!; done || lia).
  eapply (safe_obnd (op_post st1)).
  - apply safe_if; intros _; [apply safe_if; intros _; [done |] | apply safe_if; intros _; [by apply eval_cases_safe | done]].
    cbn. split; [| done]. unfold eval_ok; cbn. split_and!; try done; try lia. by apply Forall_cons_2.
  - intros st2 [Hok2 Hpc2]. apply safe_if; [done |]. intros Hsz%Z.ltb_ge. cbn. rewrite Hpc2. by split_and!.
Qed.

Lemma eval_loop_safe fuel st :
  eval_ok st -> (length (e_pc st) <= fuel)%nat ->
  safe (fun st' => eval_ok st' /\ e_pc st' = [] /\ stacks_size st' <= Z.max 1000 (stacks_size st))
    (eval_loop g g' flags sigversion fuel st).
Proof.
  revert st. induction fuel as [|fuel IH]; intros st Hok Hl; cbn [eval_loop];
    (destruct (decide (e_pc st = [])) as [Hnil|Hne]; [split_and!; [done.. | lia] |]).
  { destruct (e_pc st); [done | simpl in Hl; lia]. }
  eapply safe_obnd; [by apply eval_step_safe |]. intros st1 (Hok1 & Hl1 & Hsz).
  eapply safe_impl; [apply IH; [done | lia] |]. intros st2 (? & ? & ?). split_and!; [done.. | lia].
Qed.

(** [EvalScript] returns a good stack or a script error: it ends, throws nothing, and never
    accesses a stack or the script out of range. *)
Lemma EvalScript_safe stack script :
  stack_ok stack -> octets_ok script ->
  (exists s, EvalScript g g' flags sigversion stack script = Ret s /\ stack_ok s /\ len s <= Z.max 1000 (len stack)) \/
  (exists e, EvalScript g g' flags sigversion stack script = Fail e).
Proof.
  intros Hs Hok. unfold EvalScript. destruct (Z.ltb_spec MAX_SCRIPT_SIZE (len script)); [eauto |].
  pose proof (eval_loop_safe (length script) (mkEval script stack [] [] script 0)) as Hsafe.
  destruct (eval_loop _ _ _ _ _ _) as [st|e|x|]; cbn [catch obnd]; [| eauto.. |].
  - destruct Hsafe as ((? & ? & _) & _ & Hsz); [unfold eval_ok; cbn; by split_and! | done |].
    destruct (decide _); [| eauto]. left. eexists. split_and!; [done.. |].
    unfold stacks_size in Hsz. cbn in Hsz. lia.
  - exfalso. apply Hsafe; [unfold eval_ok; cbn; by split_and! | done].
Qed.

End Safety.
