(* ===== verification/SoftFork.v ===== *)
(** * Script verification flags are soft forks; strict DER signatures

    [m ⊑ n]: whatever [m] returns, [n] returns.  With fewer flags every step of the
    interpreter returns at least what it returned with more. *)

From S2P Require Import Prelude MdHash Hash Script Interpreter ScriptProofs InterpreterProofs.
#[local] Open Scope Z_scope.

Definition refines {A} (m n : outcome A) : Prop := forall a, m = Ret a -> n = Ret a.
Infix "⊑" := refines (at level 70) : script_scope.

#[export] Instance refines_preorder {A} : PreOrder (@refines A).
Proof. split; [by intros m a | by intros m n o Hmn Hno a Ha%Hmn%Hno]. Qed.

Lemma refines_obnd {A B} (m m' : outcome A) (k k' : A -> outcome B) :
  m ⊑ m' -> (forall a, k a ⊑ k' a) -> obnd m k ⊑ obnd m' k'.
Proof. intros Hm Hk b. destruct m as [a| | |]; try done. cbn [obnd]. intros Hb. rewrite (Hm a) by done. by apply Hk. Qed.

(** A guard that fails less often. *)
Lemma refines_guard {A} (b b' : bool) e (m m' : outcome A) :
  (b' = true -> b = true) -> m ⊑ m' -> (if b then Fail e else m) ⊑ (if b' then Fail e else m').
Proof. intros Hb Hm. destruct b; [done |]. destruct b'; [by specialize (Hb eq_refl) | done]. Qed.

Lemma refines_if {A} (b : bool) (m m' n n' : outcome A) :
  m ⊑ m' -> n ⊑ n' -> (if b then m else n) ⊑ (if b then m' else n').
Proof. by destruct b. Qed.

Lemma refines_catch {A} (m m' : outcome A) : m ⊑ m' -> catch m ⊑ catch m'.
Proof. intros Hm a. destruct m as [x| | |]; try done. intros [= ->]. by rewrite (Hm a). Qed.

Lemma refines_switch {A B} (R : A -> B -> Prop) v cs cs' d d' :
  Forall2 (fun c c' => c.1 = c'.1 /\ R c.2 c'.2) cs cs' -> R d d' -> R (switch v cs d) (switch v cs' d').
Proof.
  induction 1 as [|[l a] [l' a'] cs cs' [Hl Ha] _ IH]; intros Hd; [done |]. cbn in Hl, Ha. subst l'. cbn [switch].
  destruct (existsb _ l); auto.
Qed.

(** ** Sets of flags *)

Definition flags_sub (F F' : Z) : Prop := F & F' = F.

Lemma has_mono F F' f : flags_sub F F' -> has F f = true -> has F' f = true.
Proof.
  unfold flags_sub, has. intros HF. rewrite !negb_true_iff, !Z.eqb_neq. intros Hne E. apply Hne.
  rewrite <- HF, <- Z.land_assoc, E. apply Z.land_0_r.
Qed.

(** Enabling a lock-time operation takes it out of the discouraged operations. *)
Definition nops_compatible (F F' : Z) : Prop :=
  has F SCRIPT_VERIFY_DISCOURAGE_UPGRADABLE_NOPS = true ->
  (has F' SCRIPT_VERIFY_CHECKLOCKTIMEVERIFY = true -> has F SCRIPT_VERIFY_CHECKLOCKTIMEVERIFY = true) /\
  (has F' SCRIPT_VERIFY_CHECKSEQUENCEVERIFY = true -> has F SCRIPT_VERIFY_CHECKSEQUENCEVERIFY = true).

(** The combinations the assertions of [VerifyScript] allow. *)
Definition flags_valid (F : Z) : Prop :=
  (has F SCRIPT_VERIFY_CLEANSTACK = true -> has F SCRIPT_VERIFY_WITNESS = true) /\
  (has F SCRIPT_VERIFY_WITNESS = true -> has F SCRIPT_VERIFY_P2SH = true).

Section Mono.
Context `{CK : BaseSignatureChecker} (g g' : list Z) (F F' : Z).
Context (Hsub : flags_sub F F') (Hnops : nops_compatible F F').

Lemma mono_has f : has F f = true -> has F' f = true.
Proof. by apply has_mono. Qed.

Lemma CScriptNum_mono v k : CScriptNum v (fRequireMinimal F') k ⊑ CScriptNum v (fRequireMinimal F) k.
Proof.
  unfold CScriptNum, fRequireMinimal. intros n. destruct (_ <? _); [done |].
  destruct (has F SCRIPT_VERIFY_MINIMALDATA) eqn:E; [by rewrite (mono_has _ E) |].
  destruct (_ && _); [done |]. done.
Qed.

Lemma num_at_mono s i k : num_at F' s i k ⊑ num_at F s i k.
Proof. apply refines_obnd; [done |]. intros v. apply CScriptNum_mono. Qed.

Lemma on_stack_mono f f' st : (forall s, f s ⊑ f' s) -> on_stack f st ⊑ on_stack f' st.
Proof. intros Hf. by apply refines_obnd. Qed.

Lemma need_mono {A} n s (m m' : outcome A) : m ⊑ m' -> need n s m ⊑ need n s m'.
Proof. unfold need. by destruct (_ <? _). Qed.

Lemma IsLow_encoding sig : IsLowDERSignature sig = Ret () -> IsValidSignatureEncoding sig = Some true.
Proof. unfold IsLowDERSignature. destruct (IsValidSignatureEncoding sig) as [[]|]; done. Qed.

Lemma CheckSignatureEncoding_mono sig : CheckSignatureEncoding F' sig ⊑ CheckSignatureEncoding F sig.
Proof.
  intros []. unfold CheckSignatureEncoding. destruct (decide (sig = [])); [done |].
  set (D := SCRIPT_VERIFY_DERSIG .| _ .| _).
  destruct (has F D) eqn:ED; [rewrite (mono_has _ ED) |].
  - destruct (must _) as [[]| | |]; try done. cbn [obnd negb]. intros HF.
    destruct (has F SCRIPT_VERIFY_LOW_S) eqn:EL; [rewrite (mono_has _ EL) in HF |].
    + destruct (IsLowDERSignature sig) as [[]| | |]; try done. cbn [obnd] in *.
      destruct (has F SCRIPT_VERIFY_STRICTENC) eqn:ES; [by rewrite (mono_has _ ES) in HF | done].
    + destruct (if has F' SCRIPT_VERIFY_LOW_S then _ else _) as [[]| | |]; try done. cbn [obnd] in *.
      destruct (has F SCRIPT_VERIFY_STRICTENC) eqn:ES; [by rewrite (mono_has _ ES) in HF | done].
  - assert (Hbit : forall f, Z.land f D = f -> has F f = false).
    { intros f Hf. destruct (has F f) eqn:E; [| done]. rewrite <- ED. symmetry. revert E. unfold has.
      rewrite !negb_true_iff, !Z.eqb_neq. intros Hne E. apply Hne. rewrite <- Hf, (Z.land_comm f), Z.land_assoc, E.
      apply Z.land_0_l. }
    rewrite (Hbit SCRIPT_VERIFY_LOW_S), (Hbit SCRIPT_VERIFY_STRICTENC) by done. done.
Qed.

Lemma CheckPubKeyEncoding_mono sv pub : CheckPubKeyEncoding F' sv pub ⊑ CheckPubKeyEncoding F sv pub.
Proof.
  unfold CheckPubKeyEncoding. apply refines_guard; [| apply refines_guard; [| done]];
    rewrite ?andb_true_iff; naive_solver eauto using mono_has.
Qed.

(** One step of a comparison of two runs. *)
Ltac mono_step :=
  match goal with
  | |- refines ?m ?m => reflexivity
  | |- need _ _ _ ⊑ need _ _ _ => apply need_mono
  | |- obnd _ _ ⊑ obnd _ _ => apply refines_obnd; [| intros ?]
  | |- num_at _ _ _ _ ⊑ _ => apply num_at_mono
  | |- CheckSignatureEncoding _ _ ⊑ _ => apply CheckSignatureEncoding_mono
  | |- CheckPubKeyEncoding _ _ _ ⊑ _ => apply CheckPubKeyEncoding_mono
  | |- (if ?b then Fail _ else _) ⊑ (if ?b' then Fail _ else _) =>
      apply refines_guard; [rewrite ?andb_true_iff; naive_solver eauto using mono_has |]
  | |- (if ?b then _ else _) ⊑ (if ?b then _ else _) => apply refines_if
  | |- on_stack _ _ ⊑ on_stack _ _ => apply on_stack_mono; intros ?
  end.

(** An operation behind a flag [f], a discouraged no-operation without it. *)
Lemma gated_mono f e (m m' : outcome eval) st :
  (has F SCRIPT_VERIFY_DISCOURAGE_UPGRADABLE_NOPS = true -> has F' f = true -> has F f = true) ->
  m' ⊑ m -> (forall st', m' = Ret st' -> st' = st) ->
  (if negb (has F' f) then if has F' SCRIPT_VERIFY_DISCOURAGE_UPGRADABLE_NOPS then Fail e else Ret st else m') ⊑
  (if negb (has F f) then if has F SCRIPT_VERIFY_DISCOURAGE_UPGRADABLE_NOPS then Fail e else Ret st else m).
Proof.
  intros Hf Hm Hst st'. destruct (has F f) eqn:EF; [rewrite (mono_has _ EF); apply Hm |]. cbn [negb].
  destruct (has F SCRIPT_VERIFY_DISCOURAGE_UPGRADABLE_NOPS) eqn:ED.
  - rewrite (mono_has _ ED). destruct (has F' f); [by specialize (Hf eq_refl eq_refl) | done].
  - destruct (has F' f); cbn [negb]; [by intros ->%Hst |]. by destruct (has F' _).
Qed.

Lemma op_lock_mono st :
  op_checklocktimeverify F' st ⊑ op_checklocktimeverify F st /\
  op_checksequenceverify F' st ⊑ op_checksequenceverify F st /\ op_nops F' st ⊑ op_nops F st.
Proof.
  split_and!.
  - apply gated_mono; [intros HD; by apply Hnops | repeat mono_step |]. intros st'. unfold need.
    destruct (_ <? _); [done |]. destruct (num_at _ _ _ _); try done. cbn [obnd]. destruct (_ <? _); [done |].
    destruct (CheckLockTime _) as [[]| | |]; try done. by intros [= ->].
  - apply gated_mono; [intros HD; by apply Hnops | repeat mono_step |]. intros st'. unfold need.
    destruct (_ <? _); [done |]. destruct (num_at _ _ _ _); try done. cbn [obnd]. destruct (_ <? _); [done |].
    destruct (negb (_ =? 0)); [by intros [= ->] |].
    destruct (CheckSequence _) as [[]| | |]; try done. by intros [= ->].
  - unfold op_nops. apply refines_guard; [apply mono_has | done].
Qed.

Lemma op_if_mono sv opcode fExec st : op_if F' sv opcode fExec st ⊑ op_if F sv opcode fExec st.
Proof. unfold op_if. cbv zeta. repeat mono_step. Qed.

Lemma op_pick_roll_mono opcode st : op_pick_roll F' opcode st ⊑ op_pick_roll F opcode st.
Proof. unfold op_pick_roll. cbv zeta. repeat mono_step. Qed.

Lemma op_numeric_mono opcode st :
  op_numeric1 F' opcode st ⊑ op_numeric1 F opcode st /\ op_numeric2 F' opcode st ⊑ op_numeric2 F opcode st /\
  op_within F' st ⊑ op_within F st.
Proof. unfold op_numeric1, op_numeric2, op_within. cbv zeta. split_and!; repeat mono_step. Qed.

Lemma op_checksig_mono sv opcode st : op_checksig F' sv opcode st ⊑ op_checksig F sv opcode st.
Proof. unfold op_checksig. cbv zeta. repeat mono_step. Qed.

Lemma multisig_loop_mono sv fuel s code isig ikey nSigs nKeys :
  multisig_loop F' sv fuel s code isig ikey nSigs nKeys ⊑ multisig_loop F sv fuel s code isig ikey nSigs nKeys.
Proof.
  revert isig ikey nSigs nKeys. induction fuel as [|fuel IH]; intros isig ikey nSigs nKeys; [done |].
  cbn [multisig_loop]. cbv zeta. apply refines_if; [done |]. repeat mono_step. apply IH.
Qed.

Lemma multisig_clean_mono n b ikey2 s : multisig_clean F' n b ikey2 s ⊑ multisig_clean F n b ikey2 s.
Proof.
  revert ikey2 s. induction n as [|n IH]; intros ikey2 s; [done |]. cbn [multisig_clean].
  repeat mono_step. apply IH.
Qed.

Lemma op_checkmultisig_mono sv opcode st : op_checkmultisig F' sv opcode st ⊑ op_checkmultisig F sv opcode st.
Proof.
  unfold op_checkmultisig. cbv zeta.
  repeat first [mono_step | apply multisig_loop_mono | apply multisig_clean_mono].
Qed.

Lemma eval_step_mono sv st : eval_step g g' F' sv st ⊑ eval_step g g' F sv st.
Proof.
  unfold eval_step. cbv zeta. destruct (GetOp2 (e_pc st)) as [[[ok pc] opcode] data].
  do 4 mono_step. set (st1 := mkEval _ _ _ _ _ _). apply refines_obnd; [| done].
  apply refines_if; [unfold fRequireMinimal; by mono_step |]. apply refines_if; [| done].
  apply (refines_switch (fun h h' => h st1 ⊑ h' st1)); [| done].
  destruct (op_lock_mono st1) as (? & ? & ?). destruct (op_numeric_mono opcode st1) as (? & ? & ?).
  unfold eval_cases. repeat apply Forall2_cons_2; try apply Forall2_nil_2; (split; [done |]); cbn [snd]; try done.
  all: auto using op_if_mono, op_pick_roll_mono, op_checksig_mono, op_checkmultisig_mono.
Qed.

Lemma eval_loop_mono sv fuel st : eval_loop g g' F' sv fuel st ⊑ eval_loop g g' F sv fuel st.
Proof.
  revert st. induction fuel as [|fuel IH]; intros st; [done |]. cbn [eval_loop].
  destruct (decide _); [done |]. apply refines_obnd; [apply eval_step_mono | done].
Qed.

Lemma EvalScript_mono sv stack script : EvalScript g g' F' sv stack script ⊑ EvalScript g g' F sv stack script.
Proof.
  unfold EvalScript. apply refines_if; [done |]. apply refines_obnd; [| done].
  apply refines_catch, eval_loop_mono.
Qed.

Lemma VerifyWitnessProgram_mono witness version program :
  VerifyWitnessProgram g g' witness version program F' ⊑ VerifyWitnessProgram g g' witness version program F.
Proof.
  assert (Hrun : forall stack script, (if existsb (fun v => MAX_SCRIPT_ELEMENT_SIZE <? len v) stack
      then Fail SCRIPT_ERR_PUSH_SIZE
      else let* stack := EvalScript g g' F' SIGVERSION_WITNESS_V0 stack script in
        match stack with [v] => if CastToBool v then Ret tt else Fail SCRIPT_ERR_EVAL_FALSE
        | _ => Fail SCRIPT_ERR_EVAL_FALSE end) ⊑
     (if existsb (fun v => MAX_SCRIPT_ELEMENT_SIZE <? len v) stack then Fail SCRIPT_ERR_PUSH_SIZE
      else let* stack := EvalScript g g' F SIGVERSION_WITNESS_V0 stack script in
        match stack with [v] => if CastToBool v then Ret tt else Fail SCRIPT_ERR_EVAL_FALSE
        | _ => Fail SCRIPT_ERR_EVAL_FALSE end)).
  { intros. apply refines_if; [done |]. apply refines_obnd; [apply EvalScript_mono | done]. }
  unfold VerifyWitnessProgram. cbv zeta. apply refines_if; [apply refines_if; [| apply refines_if; [| done]] |].
  - destruct witness as [|script stack]; [done |]. apply refines_obnd; [done |]. intros h.
    destruct (decide _); [apply Hrun | done].
  - apply refines_if; [done | apply Hrun].
  - by mono_step.
Qed.

(** What follows the two evaluations of [VerifyScript]. *)
Definition verify_tail (flags : Z) (sig pub : list Z) (w copy stack : list valtype) : outcome unit :=
  let* (hadWitness, stack) := verify_bare_witness g g' sig pub w flags stack in
  let* (hadWitness, stack) := verify_p2sh g g' sig pub w flags hadWitness stack
    (if has flags SCRIPT_VERIFY_P2SH then copy else []) in
  let* _ :=
    (if has flags SCRIPT_VERIFY_CLEANSTACK then
       if negb (has flags SCRIPT_VERIFY_P2SH && has flags SCRIPT_VERIFY_WITNESS) then Stuck
       else if negb (len stack =? 1) then Fail SCRIPT_ERR_CLEANSTACK else Ret tt
     else Ret tt) in
  if has flags SCRIPT_VERIFY_WITNESS then
    if negb (has flags SCRIPT_VERIFY_P2SH) then Stuck
    else if negb hadWitness && negb (len w =? 0) then Fail SCRIPT_ERR_WITNESS_UNEXPECTED else Ret tt
  else Ret tt.

(** With the witness rule on both sides the blocks agree. *)
Lemma verify_blocks_witness sig pub w s :
  has F SCRIPT_VERIFY_WITNESS = true -> has F SCRIPT_VERIFY_P2SH = true ->
  verify_bare_witness g g' sig pub w F' s ⊑ verify_bare_witness g g' sig pub w F s /\
  forall hw copy, verify_p2sh g g' sig pub w F' hw s copy ⊑ verify_p2sh g g' sig pub w F hw s copy.
Proof.
  intros HW HP. unfold verify_bare_witness, verify_p2sh. rewrite HW, HP, (mono_has _ HW), (mono_has _ HP). split.
  - apply refines_obnd; [done |]. intros [[v p]|]; [| done]. apply refines_if; [done |].
    apply refines_obnd; [apply VerifyWitnessProgram_mono | done].
  - intros hw copy. apply refines_if; [| done]. apply refines_if; [done |]. destruct copy as [|pub2 copy]; [done |].
    apply refines_obnd; [apply EvalScript_mono |]. intros s'. apply refines_obnd; [done |]. intros [].
    apply refines_obnd; [done |]. intros [[v p]|]; [| done]. apply refines_if; [done |].
    apply refines_obnd; [apply VerifyWitnessProgram_mono | done].
Qed.

(** Without it on the right, that side leaves [hadWitness] alone and does not fail. *)
Lemma verify_blocks_plain sig pub w s s' hw hw' copy r :
  has F SCRIPT_VERIFY_WITNESS = false ->
  verify_p2sh g g' sig pub w F' hw' s' (if has F' SCRIPT_VERIFY_P2SH then copy else []) = Ret r ->
  exists s2, verify_p2sh g g' sig pub w F hw s (if has F SCRIPT_VERIFY_P2SH then copy else []) = Ret (hw, s2).
Proof.
  intros HW Hr. unfold verify_p2sh in *. rewrite HW. destruct (has F SCRIPT_VERIFY_P2SH) eqn:EP; [| by eexists].
  rewrite (mono_has _ EP) in Hr. cbn [andb] in *. destruct (IsPayToScriptHash pub); [| by eexists].
  destruct (negb (IsPushOnly sig)); [done |]. destruct copy as [|pub2 copy]; [done |].
  destruct (EvalScript g g' F' SIGVERSION_BASE copy pub2) as [s1| | |] eqn:ES; try done. cbn [obnd] in Hr.
  rewrite (EvalScript_mono _ _ _ _ ES). cbn [obnd]. destruct (require_true s1) as [[]| | |]; try done. by eexists.
Qed.

Lemma verify_tail_mono sig pub w copy s :
  flags_valid F -> verify_tail F' sig pub w copy s ⊑ verify_tail F sig pub w copy s.
Proof.
  intros [HCS HWP]. destruct (has F SCRIPT_VERIFY_WITNESS) eqn:EW.
  - specialize (HWP eq_refl). unfold verify_tail. rewrite EW, HWP, (mono_has _ EW), (mono_has _ HWP).
    apply refines_obnd; [by apply verify_blocks_witness |]. intros [hw s3].
    apply refines_obnd; [by apply verify_blocks_witness |]. intros [hw4 s4]. apply refines_obnd; [| done].
    destruct (has F SCRIPT_VERIFY_CLEANSTACK) eqn:EC; [by rewrite (mono_has _ EC) |]. by intros [].
  - intros [] H. unfold verify_tail in *. rewrite EW.
    destruct (has F SCRIPT_VERIFY_CLEANSTACK); [by specialize (HCS eq_refl) |].
    destruct (verify_bare_witness g g' sig pub w F' s) as [[hw' s3]| | |]; try done. cbn [obnd] in H.
    destruct (verify_p2sh g g' sig pub w F' hw' s3 _) as [r| | |] eqn:E4; try done.
    unfold verify_bare_witness. rewrite EW. cbn [obnd].
    by destruct (verify_blocks_plain _ _ _ s _ false _ _ _ EW E4) as [s5 ->].
Qed.

Lemma VerifyScript_mono sig pub witness :
  flags_valid F -> VerifyScript g g' sig pub witness F' ⊑ VerifyScript g g' sig pub witness F.
Proof.
  intros Hv. unfold VerifyScript. cbv zeta. mono_step. apply refines_obnd; [apply EvalScript_mono |]. intros s1.
  apply refines_obnd; [apply EvalScript_mono |]. intros s2. apply refines_obnd; [done |]. intros [].
  by apply (verify_tail_mono sig pub (default [] witness) s1 s2).
Qed.

End Mono.

(** * Strict DER signatures: what [IsValidSignatureEncoding] accepts *)

#[local] Open Scope Z_scope.

(** A positive integer without padding: not empty, its first bit clear, and its first octet
    zero only when the next one would make it negative. *)
Definition der_integer (r : list Z) : Prop :=
  match r with
  | [] => False
  | [b] => b < 128
  | b :: c :: _ => b < 128 /\ (b = 0 -> 128 <= c)
  end.

(** [0x30 len 0x02 |R| R 0x02 |S| S hashtype]. *)
Definition der_layout (s0 s1 s2 : Z) (R : list Z) (s3 : Z) (S : list Z) (hashtype : Z) : list Z :=
  [s0; s1; s2; len R] ++ R ++ [s3; len S] ++ S ++ [hashtype].

Definition der_signature (sig : list Z) : Prop :=
  exists R S hashtype, sig = der_layout 0x30 (len R + len S + 4) 0x02 R 0x02 S hashtype /\
    der_integer R /\ der_integer S.

Lemma length_der_layout s0 s1 s2 R s3 S h : len (der_layout s0 s1 s2 R s3 S h) = len R + len S + 7.
Proof. unfold der_layout. rewrite !length_app. cbn [length]. lia. Qed.

(** An element of a list at the end of a known prefix. *)
Lemma lookup_at {A} (l pre post : list A) x n : l = pre ++ x :: post -> n = length pre -> l !! n = Some x.
Proof. intros -> ->. by apply list_lookup_middle. Qed.

Lemma layout_lookups s0 s1 s2 R s3 S h :
  let sig := der_layout s0 s1 s2 R s3 S h in
  sig !! Z.to_nat (5 + len R) = Some (len S) /\ sig !! Z.to_nat (len R + 4) = Some s3 /\
  (forall i b, R !! i = Some b -> sig !! (4 + i)%nat = Some b) /\
  (forall i b, S !! i = Some b -> sig !! Z.to_nat (len R + 6 + Z.of_nat i) = Some b).
Proof.
  cbv zeta. unfold der_layout. split_and!.
  - apply (lookup_at _ ([s0; s1; s2; len R] ++ R ++ [s3]) (S ++ [h])); [by rewrite <- !app_assoc |].
    rewrite !length_app. cbn [length]. lia.
  - apply (lookup_at _ ([s0; s1; s2; len R] ++ R) (len S :: S ++ [h])); [by rewrite <- !app_assoc |].
    rewrite !length_app. cbn [length]. lia.
  - intros i b Hi. rewrite lookup_app_r by (cbn; lia). cbn [length]. replace (4 + i - 4)%nat with i by lia.
    by apply lookup_app_l_Some.
  - intros i b Hi. rewrite !app_assoc. rewrite lookup_app_l.
    2: { rewrite !length_app. cbn [length]. apply lookup_lt_Some in Hi. lia. }
    rewrite lookup_app_r by (rewrite !length_app; cbn [length]; lia).
    rewrite <- Hi. f_equal. rewrite !length_app. cbn [length]. lia.
Qed.

(** The guard on a leading zero octet. *)
Lemma null_guard (sig r : list Z) (i : nat) :
  octets_ok r -> r <> [] -> (forall k b, r !! k = Some b -> sig !! (i + k)%nat = Some b) ->
  exists b0, sig !! i = Some b0 /\ fits 8 b0 /\
    (der_integer r <-> (b0 & 0x80 =? 0) = true /\
      (if (1 <? len r) && (b0 =? 0) then b1 ← sig !! (i + 1)%nat; Some (b1 & 0x80 =? 0) else Some false) = Some false).
Proof.
  intros Hok Hne Hsig. destruct r as [|b0 r]; [done |]. exists b0.
  pose proof (Hsig 0%nat b0 eq_refl) as H0. rewrite Nat.add_0_r in H0. apply Forall_cons_iff in Hok as [Hb0 Hok].
  split_and!; [done.. |]. rewrite land_0x80, Z.ltb_lt by done. destruct r as [|b1 r].
  { cbn. tauto. }
  rewrite (Hsig 1%nat b1) by done. apply Forall_cons_iff in Hok as [Hb1 _]. rewrite obind_Some, land_0x80 by done.
  cbn [der_integer length]. rewrite (proj2 (Z.ltb_lt 1 _)) by lia. cbn [andb].
  destruct (Z.eqb_spec b0 0); [| intuition lia]. destruct (Z.ltb_spec b1 128); [intuition (congruence || lia) |].
  intuition lia.
Qed.

Lemma layout_valid s0 s1 s2 R s3 S h :
  octets_ok (der_layout s0 s1 s2 R s3 S h) -> len R + len S + 7 <= 73 ->
  IsValidSignatureEncoding (der_layout s0 s1 s2 R s3 S h) = Some true <->
  (s0 = 0x30 /\ s1 = len R + len S + 4 /\ s2 = 0x02 /\ s3 = 0x02 /\ der_integer R /\ der_integer S).
Proof.
  intros Hok Hl. destruct (layout_lookups s0 s1 s2 R s3 S h) as (HlS & Hs3 & HR & HS).
  assert (HokR : octets_ok R /\ octets_ok S).
  { unfold der_layout in Hok. rewrite !Forall_app in Hok. tauto. }
  unfold IsValidSignatureEncoding. rewrite length_der_layout.
  destruct (Z.ltb_spec (len R + len S + 7) 9).
  { split; [done |]. intros (_ & _ & _ & _ & ? & ?). destruct R, S; cbn [length der_integer] in *; lia || done. }
  rewrite (proj2 (Z.ltb_ge 73 _)) by lia.
  change (der_layout s0 s1 s2 R s3 S h !! 0%nat) with (Some s0). rewrite obind_Some.
  destruct (Z.eqb_spec s0 0x30); [| naive_solver]. cbn [negb].
  change (der_layout s0 s1 s2 R s3 S h !! 1%nat) with (Some s1). rewrite obind_Some.
  destruct (Z.eqb_spec s1 (len R + len S + 7 - 3)); [cbn [negb] | split; [done |]; intros (_ & ? & _); lia].
  change (der_layout s0 s1 s2 R s3 S h !! 3%nat) with (Some (len R)). rewrite obind_Some.
  rewrite (proj2 (Z.leb_gt _ _)), HlS, obind_Some by lia. rewrite Z.eqb_refl. cbn [negb].
  change (der_layout s0 s1 s2 R s3 S h !! 2%nat) with (Some s2). rewrite obind_Some.
  destruct (Z.eqb_spec s2 0x02); [| naive_solver]. cbn [negb].
  destruct (decide (R = [])) as [->|HneR]; [cbn; naive_solver |].
  rewrite (proj2 (Z.eqb_neq (len R) 0)) by (destruct R; [done | cbn; lia]).
  destruct (null_guard (der_layout s0 s1 s2 R s3 S h) R 4) as (b4 & -> & _ & HdR); [tauto | done | done |].
  rewrite obind_Some. change (4 + 1)%nat with 5%nat in HdR. rewrite HdR.
  destruct (b4 & 0x80 =? 0); [| naive_solver]. cbn [negb].
  destruct (if (1 <? len R) && (b4 =? 0) then _ else _) as [[]|]; rewrite ?obind_Some; [naive_solver | | naive_solver].
  rewrite Hs3, obind_Some. destruct (Z.eqb_spec s3 0x02); [| naive_solver]. cbn [negb].
  destruct (decide (S = [])) as [->|HneS]; [cbn; naive_solver |].
  rewrite (proj2 (Z.eqb_neq (len S) 0)) by (destruct S; [done | cbn; lia]).
  destruct (null_guard (der_layout s0 s1 s2 R s3 S h) S (Z.to_nat (len R + 6))) as (b6 & -> & _ & HdS); [tauto | done | |].
  { intros k b Hk. rewrite <- (HS k b Hk). f_equal. lia. }
  rewrite obind_Some. replace (Z.to_nat (len R + 6) + 1)%nat with (Z.to_nat (len R + 7)) in HdS by lia. rewrite HdS.
  destruct (b6 & 0x80 =? 0); [| naive_solver]. cbn [negb].
  destruct (if (1 <? len S) && (b6 =? 0) then _ else _) as [[]|]; rewrite ?obind_Some; cbn [negb]; [naive_solver | | naive_solver].
  split; [intros _; split_and!; done || lia | done].
Qed.

(** Octets that pass the checks on lengths have the layout. *)
Lemma valid_layout sig :
  octets_ok sig -> IsValidSignatureEncoding sig = Some true ->
  exists s0 s1 s2 R s3 S h, sig = der_layout s0 s1 s2 R s3 S h /\ len sig <= 73.
Proof.
  intros Hok. unfold IsValidSignatureEncoding. destruct (Z.ltb_spec (len sig) 9); [done |].
  destruct (Z.ltb_spec 73 (len sig)); [done |].
  destruct sig as [|s0 [|s1 [|s2 [|lr sig]]]]; try (cbn in *; lia).
  change ((s0 :: s1 :: s2 :: lr :: sig) !! 0%nat) with (Some s0).
  change ((s0 :: s1 :: s2 :: lr :: sig) !! 1%nat) with (Some s1).
  change ((s0 :: s1 :: s2 :: lr :: sig) !! 3%nat) with (Some lr). rewrite !obind_Some. destruct (negb _); [done |]. destruct (negb _); [done |].
  destruct (Z.leb_spec (len (s0 :: s1 :: s2 :: lr :: sig)) (5 + lr)); [done |].
  apply Forall_cons_iff in Hok as [_ Hok]. apply Forall_cons_iff in Hok as [_ Hok].
  apply Forall_cons_iff in Hok as [_ Hok]. apply Forall_cons_iff in Hok as [[Hlr _] Hok]. cbn [length] in *.
  destruct (drop (Z.to_nat lr) sig) as [|s3 rest] eqn:Ed.
  { apply (f_equal length) in Ed. rewrite length_drop in Ed. cbn in Ed. lia. }
  assert (Hsig : sig = take (Z.to_nat lr) sig ++ s3 :: rest) by (rewrite <- Ed; by rewrite take_drop).
  assert (Hlen : length (take (Z.to_nat lr) sig) = Z.to_nat lr) by (rewrite length_take; lia).
  set (R := take (Z.to_nat lr) sig) in *. clearbody R. subst sig. clear Ed.
  destruct rest as [|ls rest]; [rewrite length_app in *; cbn [length] in *; lia |].
  rewrite (lookup_at _ (s0 :: s1 :: s2 :: lr :: R ++ [s3]) rest ls (Z.to_nat (5 + lr)));
    [| cbn [app]; by rewrite <- app_assoc | cbn [length]; rewrite length_app; cbn [length]; lia].
  rewrite obind_Some. rewrite length_app. cbn [length].
  destruct (Z.eqb_spec (lr + ls + 7) (Z.of_nat (S (S (S (S (length R + S (S (length rest)))))))));
    [| done]. intros _. destruct (list_snoc rest) as [->|(S' & h & ->)].
  { apply Forall_app in Hok as [_ Hok]. apply Forall_cons_iff in Hok as [_ Hok].
    apply Forall_cons_iff in Hok as [[? _] _]. cbn [length] in *. lia. }
  rewrite !length_app in *. cbn [length] in *.
  exists s0, s1, s2, R, s3, S', h. split.
  - unfold der_layout. cbn [app]. do 4 f_equal; [lia |]. do 2 f_equal. f_equal. lia.
  - revert H0. rewrite !length_app. cbn [length]. lia.
Qed.

Lemma IsValidSignatureEncoding_der sig :
  octets_ok sig -> IsValidSignatureEncoding sig = Some true <-> der_signature sig /\ len sig <= 73.
Proof.
  intros Hok. split.
  - intros Hv. destruct (valid_layout sig Hok Hv) as (s0 & s1 & s2 & R & s3 & S & h & -> & Hl).
    rewrite length_der_layout in Hl. apply layout_valid in Hv as (-> & -> & -> & -> & HR & HS); [| done..].
    rewrite length_der_layout. split; [| done]. by exists R, S, h.
  - intros [(R & S & h & -> & HR & HS) Hl]. rewrite length_der_layout in Hl. by apply layout_valid.
Qed.
