(* ===== verification/P2pkh.v ===== *)
(** * Running scripts: steps, answers and pay-to-public-key-hash

    One turn of the interpreter on an opcode and on a push, unspendable outputs, and the
    definite answer of [VerifyScript]; then the standard script of an address. *)

From S2P Require Import Prelude MdHash ShaSpec Hash Script Interpreter ScriptProofs InterpreterProofs SoftFork.
#[local] Open Scope Z_scope.

(** ** Running an instruction that is no push *)

Lemma GetOp2_op b pc :
  OP_PUSHDATA4 < b -> b <> OP_SIGMASPEND -> b <> OP_SIGMAMINT -> GetOp2 (b :: pc) = (true, pc, b, []).
Proof.
  intros Hb H1 H2. unfold GetOp2. rewrite (proj2 (Z.leb_gt _ _)) by done.
  rewrite (proj2 (Z.eqb_neq b OP_SIGMASPEND)), (proj2 (Z.eqb_neq b OP_SIGMAMINT)) by done. done.
Qed.

Section Run.
Context `{CK : BaseSignatureChecker} (g g' : list Z) (flags : Z) (sv : SigVersion).

(** The step on an executed opcode above [OP_16]. *)
Lemma eval_step_op b pc s alt vf code n :
  OP_16 < b -> b <> OP_SIGMASPEND -> b <> OP_SIGMAMINT -> existsb (Z.eqb b) disabled_opcodes = false ->
  forallb id vf = true -> n < MAX_OPS_PER_SCRIPT ->
  eval_step g g' flags sv (mkEval (b :: pc) s alt vf code n) =
    (let* st := switch b (eval_cases g g' flags sv b true) (fun _ => Fail SCRIPT_ERR_BAD_OPCODE)
                  (mkEval pc s alt vf code (n + 1)) in
     if 1000 <? len (e_stack st) + len (e_altstack st) then Fail SCRIPT_ERR_STACK_SIZE else Ret st).
Proof.
  intros Hb H1 H2 Hd Hvf Hn. unfold eval_step. cbn [e_pc e_stack e_altstack e_vfExec e_begincodehash e_nOpCount].
  rewrite GetOp2_op by (done || (unfold_ops; lia)). cbv zeta. cbn [negb]. rewrite Hvf, Hd.
  rewrite (proj2 (Z.ltb_ge MAX_SCRIPT_ELEMENT_SIZE _)) by done. rewrite (proj2 (Z.ltb_lt OP_16 b)) by done.
  rewrite (proj2 (Z.ltb_ge _ (n + 1))) by lia. cbn [andb orb].
  rewrite (proj2 (Z.leb_gt b OP_PUSHDATA4)) by (unfold_ops; lia). by rewrite andb_false_r.
Qed.

(** The step on a push. *)
Lemma eval_step_push b pc s alt vf code n :
  len b <= MAX_SCRIPT_ELEMENT_SIZE -> forallb id vf = true ->
  (fRequireMinimal flags = true -> CheckMinimalPush b (push_opcode b) = true) -> len s + len alt < 1000 ->
  eval_step g g' flags sv (mkEval (push_data b ++ pc) s alt vf code n) = Ret (mkEval pc (b :: s) alt vf code n).
Proof.
  intros Hl Hvf Hm Hsz. unfold eval_step. cbn [e_pc e_stack e_altstack e_vfExec e_begincodehash e_nOpCount].
  unfold MAX_SCRIPT_ELEMENT_SIZE in *. rewrite GetOp2_push_data by lia. cbv zeta. cbn [negb].
  rewrite (proj2 (Z.ltb_ge 520 _)) by lia.
  assert (Hop : 0 <= push_opcode b <= OP_PUSHDATA4).
  { unfold push_opcode. unfold_ops. repeat case_match; lia. }
  assert (H16 : (OP_16 <? push_opcode b) = false) by (apply Z.ltb_ge; revert Hop; unfold_ops; lia).
  rewrite H16, Hvf. cbn [andb]. rewrite (proj2 (Z.leb_le 0 _)), (proj2 (Z.leb_le _ OP_PUSHDATA4)) by lia.
  assert (Hdis : existsb (Z.eqb (push_opcode b)) disabled_opcodes = false).
  { apply not_true_iff_false. rewrite existsb_exists. intros (x & Hx & E%Z.eqb_eq). rewrite E in *.
    unfold disabled_opcodes in Hx. revert Hop. unfold_ops. simpl in Hx. intros. lia. }
  rewrite Hdis. cbn [andb]. destruct (fRequireMinimal flags) eqn:EM; [rewrite Hm by done |]; cbn [andb negb obnd];
    unfold set_stack; cbn [e_pc e_stack e_altstack e_vfExec e_begincodehash e_nOpCount length];
    rewrite (proj2 (Z.ltb_ge 1000 _)) by lia; done.
Qed.

(** A script that is unspendable fails on every stack. *)
Lemma EvalScript_unspendable stack script :
  IsUnspendable script = true -> exists e, EvalScript g g' flags sv stack script = Fail e.
Proof.
  unfold IsUnspendable, EvalScript. destruct (Z.ltb_spec MAX_SCRIPT_SIZE (len script)); [by eexists |].
  rewrite orb_false_r, andb_true_iff. intros [Hl Ho]. destruct script as [|b script]; [done |].
  apply Z.eqb_eq in Ho. cbn in Ho. subst b. cbn [length eval_loop].
  destruct (decide _); [done |]. rewrite eval_step_op by done. cbn. by eexists.
Qed.

(** A pay-to-script-hash output fails on the empty stack. *)
Lemma EvalScript_p2sh_empty script :
  IsPayToScriptHash script = true -> exists e, EvalScript g g' flags sv [] script = Fail e.
Proof.
  unfold IsPayToScriptHash, EvalScript. rewrite !andb_true_iff, !Z.eqb_eq. intros [[[Hl Ho] _] _].
  rewrite Hl. cbn [Z.ltb]. destruct script as [|b script]; [done |]. cbn in Ho. subst b. cbn [length eval_loop].
  destruct (decide _); [done |]. rewrite eval_step_op by done. cbn. by eexists.
Qed.

End Run.

(** ** [VerifyScript] *)

(** A definite answer. *)
Definition answers {A} (P : A -> Prop) (m : outcome A) : Prop :=
  (exists a, m = Ret a /\ P a) \/ exists e, m = Fail e.

Lemma answers_obnd {A B} (P : A -> Prop) (Q : B -> Prop) m k :
  answers P m -> (forall a, P a -> answers Q (k a)) -> answers Q (obnd m k).
Proof. intros [(a & -> & Ha)|(e & ->)] Hk; [by apply Hk |]. right. by exists e. Qed.

Lemma answers_ret {A} (P : A -> Prop) a : P a -> answers P (Ret a).
Proof. left. eauto. Qed.

Lemma answers_fail {A} (P : A -> Prop) e : answers P (Fail e).
Proof. right. eauto. Qed.

#[local] Hint Resolve answers_ret answers_fail : script.

Lemma IsWitnessProgram_answers script :
  octets_ok script -> answers (fun wp => forall v p, wp = Some (v, p) -> octets_ok p) (IsWitnessProgram script).
Proof.
  intros Hok. unfold IsWitnessProgram. destruct (_ || _); [by apply answers_ret |].
  destruct (Z.eqb_spec (oct script 0) OP_0) as [E0|E0]; cbn [negb andb].
  - rewrite E0. destruct (_ =? _); [| by apply answers_ret]. cbn. apply answers_ret.
    intros v p [= _ <-]. by apply Forall_drop.
  - destruct (_ || _) eqn:E1; [by apply answers_ret |]. apply orb_false_iff in E1 as [?%Z.ltb_ge ?%Z.ltb_ge].
    destruct (_ =? _); [| by apply answers_ret]. unfold DecodeOP_N.
    rewrite (proj2 (Z.eqb_neq _ _)), (proj2 (Z.leb_le _ _)), (proj2 (Z.leb_le _ _)) by done. cbn [andb obnd].
    apply answers_ret. intros v p [= _ <-]. by apply Forall_drop.
Qed.

Section VerifySafe.
Context `{CK : BaseSignatureChecker} `{!CheckerOk CK} (g g' : list Z).
Context (Hg : length g = 64%nat) (Hg' : length g' = 64%nat) (flags : Z).

Definition witness_ok (w : list valtype) : Prop := Forall (fun v => octets_ok v /\ len v < 2 ^ 61) w.

Lemma EvalScript_answers sv stack script :
  stack_ok stack -> octets_ok script -> answers stack_ok (EvalScript g g' flags sv stack script).
Proof using All.
  intros Hs Hk. destruct (EvalScript_safe g g' Hg Hg' flags sv stack script Hs Hk) as [(s & -> & ? & _)|(e & ->)];
    [by apply answers_ret | apply answers_fail].
Qed.

Lemma require_true_answers s : answers (fun _ => s <> []) (require_true s).
Proof. unfold require_true. destruct s as [|v s]; [apply answers_fail |]. destruct (CastToBool v); eauto with script. Qed.

Lemma VerifyWitnessProgram_answers w version program :
  witness_ok w -> octets_ok program -> answers (fun _ => True) (VerifyWitnessProgram g g' w version program flags).
Proof using All.
  intros Hw Hp. unfold VerifyWitnessProgram. cbv zeta.
  assert (Hrun : forall stack script, Forall (fun v => octets_ok v /\ len v < 2 ^ 61) stack -> octets_ok script ->
    answers (fun _ => True) (if existsb (fun v => MAX_SCRIPT_ELEMENT_SIZE <? len v) stack then Fail SCRIPT_ERR_PUSH_SIZE
      else let* stack := EvalScript g g' flags SIGVERSION_WITNESS_V0 stack script in
        match stack with [v] => if CastToBool v then Ret tt else Fail SCRIPT_ERR_EVAL_FALSE
        | _ => Fail SCRIPT_ERR_EVAL_FALSE end)).
  { intros stack script Hst Hsc. destruct (existsb _ stack) eqn:E; [apply answers_fail |].
    eapply answers_obnd; [apply EvalScript_answers; [| done] |].
    - apply list.Forall_forall. intros v Hv. pose proof (proj1 (list.Forall_forall _ _) Hst v Hv) as [? _]. split; [done |].
      apply not_true_iff_false in E. rewrite existsb_exists in E. apply Z.nlt_ge. intros Hlt. apply E.
      exists v. split; [by apply list_elem_of_In |]. by apply Z.ltb_lt.
    - intros [|v [|v' s]] _; eauto with script. destruct (CastToBool v); eauto with script. }
  destruct (version =? 0); [| destruct (has flags _); eauto with script].
  destruct (Z.eqb_spec (len program) 32).
  - destruct w as [|script stack]; [apply answers_fail |]. apply Forall_cons_iff in Hw as [[Hs1 Hs2] Hw].
    rewrite (sh_run_ok (digest := sha256)); cbn [concat]; rewrite ?app_nil_r; try done.
    cbn [must obnd]. destruct (decide _); [by apply Hrun | apply answers_fail].
  - destruct (Z.eqb_spec (len program) 20); [| apply answers_fail]. destruct (negb _); [apply answers_fail |].
    apply Hrun; [done |]. unfold p2pkh_script, push_data. rewrite (proj2 (Z.ltb_lt _ _)) by (unfold_ops; lia).
    repeat apply Forall_app_2; try done; repeat constructor; try done.
    + apply wrap_fits. lia.
    + apply wrap_fits. lia.
Qed.

(** [VerifyScript] accepts or fails with a script error. *)
Lemma VerifyScript_answers sig pub witness :
  flags_valid flags -> octets_ok sig -> octets_ok pub -> witness_ok (default [] witness) ->
  answers (fun _ => True) (VerifyScript g g' sig pub witness flags).
Proof using All.
  intros [HCS HWP] Hsig Hpub Hw. unfold VerifyScript. cbv zeta. set (w := default [] witness) in *.
  destruct (_ && negb (IsPushOnly sig)); [apply answers_fail |].
  eapply answers_obnd; [by apply EvalScript_answers |]. intros s1 Hs1.
  destruct (EvalScript_answers SIGVERSION_BASE s1 pub Hs1 Hpub) as [(s2 & E2 & Hs2)|(e & ->)]; [| apply answers_fail].
  rewrite E2. cbn [obnd]. eapply answers_obnd; [apply require_true_answers |]. intros _ _.
  eapply (answers_obnd (fun _ => True)).
  { unfold verify_bare_witness. destruct (has flags SCRIPT_VERIFY_WITNESS); [| by apply answers_ret].
    eapply answers_obnd; [by apply IsWitnessProgram_answers |]. intros [[v p]|] Hwp; [| by apply answers_ret].
    destruct (negb _); [apply answers_fail |].
    eapply answers_obnd; [apply VerifyWitnessProgram_answers; eauto |]. intros; by apply answers_ret. }
  intros [hw s3] _. eapply (answers_obnd (fun _ => True)).
  { unfold verify_p2sh. destruct (has flags SCRIPT_VERIFY_P2SH); [| by apply answers_ret]. cbn [andb].
    destruct (IsPayToScriptHash pub) eqn:EP; [| by apply answers_ret].
    destruct (negb (IsPushOnly sig)); [apply answers_fail |]. destruct s1 as [|pub2 s1].
    { destruct (EvalScript_p2sh_empty g g' flags SIGVERSION_BASE pub EP) as [e E]. congruence. }
    apply Forall_cons_iff in Hs1 as [[Hp2 _] Hs1].
    eapply answers_obnd; [by apply EvalScript_answers |]. intros s4 Hs4.
    eapply answers_obnd; [apply require_true_answers |]. intros _ _.
    destruct (has flags SCRIPT_VERIFY_WITNESS); [| by apply answers_ret].
    eapply answers_obnd; [by apply IsWitnessProgram_answers |]. intros [[v p]|] Hwp; [| by apply answers_ret].
    destruct (negb _); [apply answers_fail |].
    eapply answers_obnd; [apply VerifyWitnessProgram_answers; eauto |]. intros; by apply answers_ret. }
  intros [hw4 s4] _. eapply (answers_obnd (fun _ => True)).
  - destruct (has flags SCRIPT_VERIFY_CLEANSTACK); [| by apply answers_ret].
    rewrite HCS, HWP by auto. cbn [andb negb]. destruct (negb _); eauto with script.
  - intros _ _. destruct (has flags SCRIPT_VERIFY_WITNESS); [| by apply answers_ret]. rewrite HWP by done.
    cbn [negb]. destruct (_ && _); eauto with script.
Qed.

End VerifySafe.

(** * Spending a pay-to-public-key-hash output

    The interpreter run on the standard script of an address: the five instructions of the
    output after the two pushes of the input. *)

#[local] Open Scope Z_scope.

(** Data that [<<] pushes minimally. *)
Definition pushable (b : list Z) : Prop := 2 <= len b <= MAX_SCRIPT_ELEMENT_SIZE /\ octets_ok b.

Lemma pushable_minimal b : pushable b -> CheckMinimalPush b (push_opcode b) = true.
Proof.
  intros [[Hl Hu] _]. unfold MAX_SCRIPT_ELEMENT_SIZE in Hu. unfold CheckMinimalPush, push_opcode. unfold_ops.
  rewrite (proj2 (Z.eqb_neq (len b) 0)), (proj2 (Z.eqb_neq (len b) 1)) by lia. cbn [andb].
  destruct (Z.leb_spec (len b) 75).
  - rewrite (proj2 (Z.ltb_lt _ _)) by lia. apply Z.eqb_refl.
  - rewrite (proj2 (Z.ltb_ge _ _)) by lia. destruct (len b <=? 255); [done |].
    rewrite (proj2 (Z.leb_le (len b) 65535)) by lia. done.
Qed.

Lemma push_opcode_range b : 0 <= push_opcode b <= OP_PUSHDATA4.
Proof. unfold push_opcode. unfold_ops. repeat case_match; lia. Qed.

(** The first octet of a push of at least two octets. *)
Lemma push_data_first b : exists rest, push_data b = push_opcode b :: rest.
Proof.
  unfold push_data, push_opcode. pose proof (Nat2Z.is_nonneg (length b)). unfold_ops.
  destruct (Z.ltb_spec (len b) 0x4c); [rewrite wrap_id by (split; [lia | cbn; lia]); by eexists |].
  destruct (len b <=? 0xff); [by eexists |]. destruct (len b <=? 0xffff); by eexists.
Qed.

Lemma push_data_length b : (1 <= length (push_data b))%nat.
Proof. destruct (push_data_first b) as (r & ->). simpl. lia. Qed.

(** ** Scripts of pushes *)

Lemma parse_loop_push fuel b rest :
  len b < 2 ^ 32 -> parse_loop (S fuel) (push_data b ++ rest) =
    (let '(ops, all) := parse_loop fuel rest in ((push_opcode b, b) :: ops, all)).
Proof.
  intros Hl. cbn [parse_loop]. destruct (decide _) as [E|_].
  { destruct (push_data_first b) as (r & Er). by rewrite Er in E. }
  rewrite GetOp2_push_data by done. done.
Qed.

Definition push_all (l : list (list Z)) : list Z := concat (push_data <$> l).

Lemma parse_push_all l :
  Forall (fun b => len b < 2 ^ 32) l -> parse (push_all l) = ((fun b => (push_opcode b, b)) <$> l, true).
Proof.
  intros Hl. unfold parse, push_all.
  assert (Hf : (length l <= length (concat (push_data <$> l)))%nat).
  { clear Hl. induction l as [|b l IH]; [done |]. rewrite fmap_cons. cbn [concat length].
    rewrite length_app. pose proof (push_data_length b). lia. }
  revert Hf. generalize (length (concat (push_data <$> l))) as fuel.
  induction Hl as [|b l Hb Hl IH]; intros fuel Hf; [by destruct fuel |].
  destruct fuel as [|fuel]; [simpl in Hf; lia |]. rewrite !fmap_cons. cbn [concat].
  rewrite parse_loop_push by done. rewrite IH by (simpl in Hf; lia). done.
Qed.

Lemma IsPushOnly_push_all l : Forall (fun b => len b < 2 ^ 32) l -> IsPushOnly (push_all l) = true.
Proof.
  intros Hl. unfold IsPushOnly. rewrite parse_push_all by done. cbn [andb]. apply forallb_forall.
  intros o (b & -> & _)%list_elem_of_In%list_elem_of_fmap. cbn [fst]. pose proof (push_opcode_range b).
  unfold_ops. apply Z.leb_le. lia.
Qed.

(** ** Nothing to delete *)

(** The search passes over an instruction where the pattern does not start. *)
Lemma fad_loop_step fuel b result pc2 pc nFound pc' op d :
  take (length b) pc <> b -> GetOp2 pc = (true, pc', op, d) ->
  fad_loop (S fuel) b result pc2 pc nFound =
    fad_loop fuel b (result ++ take (length pc2 - length pc) pc2) pc pc' nFound.
Proof.
  intros Hne E. cbn [fad_loop]. rewrite skip_equal_none by done. by rewrite E.
Qed.

Lemma fad_loop_end fuel b result pc2 nFound :
  fad_loop (S fuel) b result pc2 [] nFound = Some (result ++ take (length pc2) pc2, [], nFound).
Proof. cbn. by rewrite Nat.sub_0_r. Qed.

Lemma FindAndDelete_p2pkh h sig :
  len h = 20 -> pushable sig -> sig <> h ->
  FindAndDelete (p2pkh_script h) (push_data sig) = Some (p2pkh_script h, 0).
Proof.
  intros Hh [Hs _] Hne. unfold FindAndDelete, MAX_SCRIPT_ELEMENT_SIZE in *.
  destruct (push_data_first sig) as (r & Er). pose proof (push_opcode_range sig) as Hop.
  destruct (decide _) as [E|_]; [by rewrite Er in E |].
  assert (Hno : forall x pc, OP_PUSHDATA4 < x -> take (length (push_data sig)) (x :: pc) <> push_data sig).
  { intros x pc Hx E. rewrite Er in E. cbn in E. injection E as E _. lia. }
  assert (Hno' : take (length (push_data sig)) (push_data h ++ [OP_EQUALVERIFY; OP_CHECKSIG]) <> push_data sig).
  { intros E. apply Hne. pose proof (take_drop (length (push_data sig)) (push_data h ++ [OP_EQUALVERIFY; OP_CHECKSIG])) as TD.
    rewrite E in TD. apply (f_equal GetOp2) in TD. rewrite !GetOp2_push_data in TD by lia. congruence. }
  assert (Hl : (5 <= length (p2pkh_script h))%nat).
  { unfold p2pkh_script. rewrite !length_app. pose proof (push_data_length h). cbn [length]. lia. }
  set (n := length (p2pkh_script h)) in *. replace (S n) with (S (S (S (S (S (S (n - 5))))))) by lia. clearbody n.
  assert (HX : exists r', fad_loop (S (S (S (S (S (S (n - 5))))))) (push_data sig) [] (p2pkh_script h) (p2pkh_script h) 0
    = Some (r', [], 0)).
  { unfold p2pkh_script at 2. cbn [app]. eexists.
    rewrite (fad_loop_step _ _ _ _ _ _ _ OP_DUP []) by (apply Hno || apply GetOp2_op; done).
    rewrite (fad_loop_step _ _ _ _ _ _ _ OP_HASH160 []) by (apply Hno || apply GetOp2_op; done).
    rewrite (fad_loop_step _ _ _ _ _ _ [OP_EQUALVERIFY; OP_CHECKSIG] (push_opcode h) h)
      by (apply Hno' || apply GetOp2_push_data; lia).
    rewrite (fad_loop_step _ _ _ _ _ _ _ OP_EQUALVERIFY []) by (apply Hno || apply GetOp2_op; done).
    rewrite (fad_loop_step _ _ _ _ _ _ _ OP_CHECKSIG []) by (apply Hno || apply GetOp2_op; done).
    apply fad_loop_end. }
  destruct HX as (r' & ->). done.
Qed.

(** ** The run *)

Section P2PKH.
Context `{CK : BaseSignatureChecker} (g g' : list Z) (flags : Z).
Context (Hg : length g = 64%nat) (Hg' : length g' = 64%nat).

Lemma eval_loop_step sv fuel st :
  e_pc st <> [] -> eval_loop g g' flags sv (S fuel) st = (let* st := eval_step g g' flags sv st in eval_loop g g' flags sv fuel st).
Proof. intros Hne. cbn [eval_loop]. by destruct (decide _). Qed.

Lemma push_data_app_ne b rest : push_data b ++ rest <> [].
Proof. destruct (push_data_first b) as (r & ->). done. Qed.

(** The input leaves the signature and the key on the stack. *)
Lemma EvalScript_pushes sv sig pub :
  pushable sig -> pushable pub -> EvalScript g g' flags sv [] (push_all [sig; pub]) = Ret [pub; sig].
Proof.
  intros Hs Hp. unfold EvalScript, push_all. cbn [fmap list_fmap concat].
  assert (Hlen : forall b, pushable b -> (1 <= length (push_data b))%nat /\ len (push_data b) <= 525).
  { intros b [[_ Hu] _]. split; [apply push_data_length |]. unfold MAX_SCRIPT_ELEMENT_SIZE in Hu.
    unfold push_data. rewrite length_app. repeat case_match; cbn [length]; rewrite ?length_le_bytes; lia. }
  destruct (Hlen _ Hs) as [Hs1 Hs2], (Hlen _ Hp) as [Hp1 Hp2].
  rewrite (proj2 (Z.ltb_ge _ _)) by (rewrite !length_app; cbn [length]; unfold MAX_SCRIPT_SIZE; lia).
  set (script := push_data sig ++ push_data pub ++ []).
  assert (Hf : (2 <= length script)%nat) by (unfold script; rewrite !length_app; lia).
  replace (length script) with (S (S (length script - 2))) by lia. generalize (length script - 2)%nat as f. intros f.
  pose proof (pushable_minimal _ Hs). pose proof (pushable_minimal _ Hp). destruct Hs as [[? ?] ?], Hp as [[? ?] ?].
  unfold script at 1. rewrite eval_loop_step by apply push_data_app_ne.
  rewrite eval_step_push by (done || cbn; lia). cbn [obnd].
  rewrite eval_loop_step by apply push_data_app_ne.
  rewrite eval_step_push by (done || cbn; lia). cbn [obnd]. by destruct f.
Qed.

(** What the signature check of the output answers. *)
Definition checksig_result (sv : SigVersion) (sig pub code : list Z) : outcome (list valtype) :=
  let* _ := CheckSignatureEncoding flags sig in
  let* _ := CheckPubKeyEncoding flags sv pub in
  let* fSuccess := CheckSig sig pub code sv in
  if negb fSuccess && has flags SCRIPT_VERIFY_NULLFAIL then Fail SCRIPT_ERR_SIG_NULLFAIL
  else Ret [vchBool fSuccess].

Lemma need_ok {A} n s (k : outcome A) : n <= len s -> need n s k = k.
Proof. intros. unfold need. by rewrite (proj2 (Z.ltb_ge _ _)). Qed.

Lemma stacktop_1 v s : stacktop (v :: s) (-1) = Ret v.
Proof. done. Qed.

Lemma stacktop_2 v w s : stacktop (v :: w :: s) (-2) = Ret w.
Proof. done. Qed.

Lemma op_checksig_p2pkh sv h sig pub n :
  len h = 20 -> pushable sig -> sig <> h ->
  op_checksig flags sv OP_CHECKSIG (mkEval [] [pub; sig] [] [] (p2pkh_script h) n) =
    (let* s := checksig_result sv sig pub (p2pkh_script h) in Ret (mkEval [] s [] [] (p2pkh_script h) n)).
Proof.
  intros Hh Hs Hne. unfold op_checksig, on_stack, checksig_result, set_stack.
  cbn [e_pc e_stack e_altstack e_vfExec e_begincodehash e_nOpCount].
  rewrite need_ok, stacktop_1, stacktop_2 by (cbn; lia).
  assert (Hd : drop_signature sv (p2pkh_script h) sig = Ret (p2pkh_script h)).
  { unfold drop_signature. destruct (decide _); [| done]. by rewrite FindAndDelete_p2pkh. }
  cbn [obnd]. rewrite Hd. cbn [obnd]. destruct (CheckSignatureEncoding flags sig); cbn [obnd]; try done.
  destruct (CheckPubKeyEncoding flags sv pub); cbn [obnd]; try done.
  destruct (CheckSig sig pub (p2pkh_script h) sv) as [ok| | |]; cbn [obnd]; try done.
  destruct Hs as [[Hl _] _]. rewrite (proj2 (Z.eqb_neq (len sig) 0)) by lia.
  destruct ok, (has flags SCRIPT_VERIFY_NULLFAIL); done.
Qed.

Lemma stack_small (st : eval) :
  len (e_stack st) + len (e_altstack st) <= 1000 ->
  (if 1000 <? len (e_stack st) + len (e_altstack st) then Fail SCRIPT_ERR_STACK_SIZE else Ret st) = Ret st.
Proof. intros. by rewrite (proj2 (Z.ltb_ge _ _)). Qed.

Lemma op_dup_cons v s pc alt vf code n :
  op_dup (mkEval pc (v :: s) alt vf code n) = Ret (mkEval pc (v :: v :: s) alt vf code n).
Proof. unfold op_dup, on_stack. by rewrite need_ok by (cbn; lia). Qed.

Lemma op_hash160_cons v s pc alt vf code n :
  pushable v ->
  op_hash g g' OP_HASH160 (mkEval pc (v :: s) alt vf code n) = Ret (mkEval pc (hash160 v :: s) alt vf code n).
Proof using Hg Hg'.
  intros [[_ Hu] Ho]. unfold op_hash, on_stack. cbn [e_stack]. rewrite need_ok by (cbn; lia).
  rewrite stacktop_1. cbn [obnd]. pose proof (CHash160_ok g' Hg') as OK.
  assert (E : hash_of g g' OP_HASH160 v = Some (hash160 v)).
  { change (hash_of g g' OP_HASH160 v) with (@sh_run (CHash160 g') g [v]).
    rewrite (sh_run_ok (H := CHash160 g') (digest := hash160)); cbn [concat]; rewrite ?app_nil_r; try done.
    unfold MAX_SCRIPT_ELEMENT_SIZE in Hu. lia. }
  by rewrite E.
Qed.

Lemma op_equalverify_cons v w s pc alt vf code n :
  op_equal OP_EQUALVERIFY (mkEval pc (v :: w :: s) alt vf code n) =
    if decide (w = v) then Ret (mkEval pc s alt vf code n) else Fail SCRIPT_ERR_EQUALVERIFY.
Proof.
  unfold op_equal, on_stack. cbn [e_stack]. rewrite need_ok by (cbn [length]; lia).
  rewrite stacktop_1, stacktop_2. cbn [obnd popstack Z.eqb OP_EQUALVERIFY].
  destruct (decide (w = v)); [rewrite bool_decide_eq_true_2 by done | rewrite bool_decide_eq_false_2 by done]; done.
Qed.

(** The output, run on a key and a signature. *)
Lemma EvalScript_p2pkh sv h sig pub :
  len h = 20 -> octets_ok h -> pushable sig -> pushable pub -> sig <> h ->
  EvalScript g g' flags sv [pub; sig] (p2pkh_script h) =
    if decide (hash160 pub = h) then catch (checksig_result sv sig pub (p2pkh_script h))
    else Fail SCRIPT_ERR_EQUALVERIFY.
Proof using Hg Hg'.
  intros Hh Hho Hs Hp Hne. unfold EvalScript.
  assert (Hl : length (p2pkh_script h) = 25%nat).
  { unfold p2pkh_script, push_data. rewrite (proj2 (Z.ltb_lt _ _)) by (unfold_ops; lia).
    rewrite !length_app. cbn [length]. lia. }
  rewrite Hl. cbn [Z.ltb]. rewrite (proj2 (Z.ltb_ge _ _)) by done.
  assert (Hph : pushable h) by (split; [unfold MAX_SCRIPT_ELEMENT_SIZE; lia | done]).
  pose proof (pushable_minimal _ Hph) as Hm.
  unfold p2pkh_script at 1. cbn [app].
  rewrite eval_loop_step, eval_step_op by done. change (switch OP_DUP _ _) with op_dup.
  rewrite op_dup_cons. cbn [obnd]. rewrite stack_small by done. cbn [obnd].
  rewrite eval_loop_step, eval_step_op by done. change (switch OP_HASH160 _ _) with (op_hash g g' OP_HASH160).
  rewrite op_hash160_cons by done. cbn [obnd]. rewrite stack_small by done. cbn [obnd].
  rewrite eval_loop_step, eval_step_push by (apply push_data_app_ne || done || (cbn [length]; unfold MAX_SCRIPT_ELEMENT_SIZE; lia)). cbn [obnd].
  rewrite eval_loop_step, eval_step_op by done. change (switch OP_EQUALVERIFY _ _) with (op_equal OP_EQUALVERIFY).
  rewrite op_equalverify_cons. destruct (decide _); [| done]. cbn [obnd]. rewrite stack_small by done. cbn [obnd].
  rewrite eval_loop_step, eval_step_op by done. change (switch OP_CHECKSIG _ _) with (op_checksig flags sv OP_CHECKSIG).
  rewrite op_checksig_p2pkh by done. unfold checksig_result.
  destruct (CheckSignatureEncoding flags sig); cbn [obnd]; try done.
  destruct (CheckPubKeyEncoding flags sv pub); cbn [obnd]; try done.
  destruct (CheckSig sig pub (p2pkh_script h) sv) as [[]| | |]; cbn [obnd negb andb]; try done.
  destruct (has flags SCRIPT_VERIFY_NULLFAIL); done.
Qed.

(** The key hash is met and the signature of the key is accepted. *)
Definition key_hash_spend (sv : SigVersion) (h sig pub : list Z) : Prop :=
  hash160 pub = h /\ CheckSignatureEncoding flags sig = Ret tt /\ CheckPubKeyEncoding flags sv pub = Ret tt /\
  CheckSig sig pub (p2pkh_script h) sv = Ret true.

Lemma key_hash_spend_iff {A} sv h sig pub (k : list valtype -> outcome A) (a : A) :
  k [vchTrue] = Ret a -> (forall b, k [vchFalse] <> Ret b) ->
  (let* s := (if decide (hash160 pub = h) then catch (checksig_result sv sig pub (p2pkh_script h))
              else Fail SCRIPT_ERR_EQUALVERIFY) in k s) = Ret a <-> key_hash_spend sv h sig pub.
Proof.
  intros Ht Hf. unfold key_hash_spend, checksig_result.
  destruct (decide _) as [Eh|]; [| cbn [obnd]; naive_solver].
  destruct (CheckSignatureEncoding flags sig) as [[]| | |]; cbn [obnd catch]; try naive_solver.
  destruct (CheckPubKeyEncoding flags sv pub) as [[]| | |]; cbn [obnd catch]; try naive_solver.
  destruct (CheckSig sig pub (p2pkh_script h) sv) as [[]| | |]; cbn [obnd catch negb andb]; [naive_solver | | naive_solver..].
  destruct (has flags SCRIPT_VERIFY_NULLFAIL); cbn [obnd catch vchBool]; naive_solver.
Qed.

(** ** Verification *)

Lemma p2pkh_script_shape h :
  len h = 20 -> p2pkh_script h = [OP_DUP; OP_HASH160; 20] ++ h ++ [OP_EQUALVERIFY; OP_CHECKSIG].
Proof.
  intros Hh. unfold p2pkh_script, push_data. rewrite Hh. done.
Qed.

Lemma VerifyScript_p2pkh h sig pub :
  flags_valid flags -> len h = 20 -> octets_ok h -> pushable sig -> pushable pub -> sig <> h ->
  VerifyScript g g' (push_all [sig; pub]) (p2pkh_script h) None flags = Ret tt <->
  key_hash_spend SIGVERSION_BASE h sig pub.
Proof using Hg Hg'.
  intros [HCS HWP] Hh Hho Hs Hp Hne. unfold VerifyScript. cbv zeta.
  rewrite IsPushOnly_push_all by (destruct Hs as [[] _], Hp as [[] _]; unfold MAX_SCRIPT_ELEMENT_SIZE in *;
    repeat constructor; lia).
  rewrite andb_false_r, EvalScript_pushes by done. cbn [obnd]. rewrite EvalScript_p2pkh by done.
  apply (key_hash_spend_iff SIGVERSION_BASE h sig pub); [| done].
  change (require_true [vchTrue]) with (Ret tt). cbn [obnd].
  assert (HW : IsWitnessProgram (p2pkh_script h) = Ret None).
  { rewrite p2pkh_script_shape by done. unfold IsWitnessProgram. by destruct (_ || _). }
  assert (HP : IsPayToScriptHash (p2pkh_script h) = false).
  { rewrite p2pkh_script_shape by done. unfold IsPayToScriptHash. cbn [app oct nth]. by rewrite andb_false_r. }
  unfold verify_bare_witness, verify_p2sh. rewrite HW, HP, (andb_false_r (has flags SCRIPT_VERIFY_P2SH)). cbn [obnd].
  destruct (has flags SCRIPT_VERIFY_WITNESS) eqn:EW; cbn [obnd].
  - rewrite HWP by done. by destruct (has flags SCRIPT_VERIFY_CLEANSTACK).
  - destruct (has flags SCRIPT_VERIFY_CLEANSTACK); [discriminate (HCS eq_refl) | done].
Qed.

(** A witness program of a key hash: its run on the empty stack. *)
Lemma EvalScript_program h :
  len h = 20 -> octets_ok h -> EvalScript g g' flags SIGVERSION_BASE [] ([OP_0] ++ push_data h) = Ret [h; []].
Proof.
  intros Hh Ho. assert (Hph : pushable h) by (split; [unfold MAX_SCRIPT_ELEMENT_SIZE; lia | done]).
  assert (Hl : length ([OP_0] ++ push_data h) = 22%nat).
  { unfold push_data. rewrite Hh. cbn [Z.ltb app length]. change (20 <? OP_PUSHDATA1) with true. cbn [app length]. lia. }
  unfold EvalScript. rewrite Hl. change (MAX_SCRIPT_SIZE <? Z.of_nat 22) with false. cbn iota.
  rewrite eval_loop_step by done. change [OP_0] with (push_data []).
  rewrite eval_step_push by (done || (cbn; unfold MAX_SCRIPT_ELEMENT_SIZE; lia)). cbn [obnd].
  rewrite <- (app_nil_r (push_data h)). rewrite eval_loop_step by apply push_data_app_ne.
  rewrite eval_step_push by (done || (intros _; by apply pushable_minimal) || (cbn [length]; unfold MAX_SCRIPT_ELEMENT_SIZE; lia)).
  done.
Qed.

Lemma VerifyWitnessProgram_key_hash h sig pub :
  len h = 20 -> octets_ok h -> pushable sig -> pushable pub -> sig <> h ->
  VerifyWitnessProgram g g' [pub; sig] 0 h flags = Ret tt <-> key_hash_spend SIGVERSION_WITNESS_V0 h sig pub.
Proof using Hg Hg'.
  intros Hh Ho Hs Hp Hne. unfold VerifyWitnessProgram. cbv zeta. rewrite Hh.
  change (0 =? 0) with true. change (20 =? 32) with false. change (20 =? 20) with true.
  change (negb (len [pub; sig] =? 2)) with false. cbn iota.
  pose proof Hs as [[_ Hsu] _]. pose proof Hp as [[_ Hpu] _]. cbn [existsb].
  rewrite (proj2 (Z.ltb_ge _ (len pub)) Hpu), (proj2 (Z.ltb_ge _ (len sig)) Hsu). cbn [orb].
  rewrite EvalScript_p2pkh by done. by apply key_hash_spend_iff.
Qed.

Lemma VerifyScript_p2wpkh h sig pub :
  flags_valid flags -> has flags SCRIPT_VERIFY_WITNESS = true -> len h = 20 -> octets_ok h ->
  pushable sig -> pushable pub -> sig <> h ->
  VerifyScript g g' [] ([OP_0] ++ push_data h) (Some [pub; sig]) flags = Ret tt <->
  CastToBool h = true /\ key_hash_spend SIGVERSION_WITNESS_V0 h sig pub.
Proof using Hg Hg'.
  intros [_ HWP] HW Hh Hho Hs Hp Hne. rewrite <- VerifyWitnessProgram_key_hash by done.
  unfold VerifyScript. cbv zeta. change (IsPushOnly []) with true. rewrite andb_false_r.
  change (EvalScript g g' flags SIGVERSION_BASE [] []) with (Ret (A := list valtype) []).
  cbn [obnd]. rewrite EvalScript_program by done. cbn [obnd require_true].
  destruct (CastToBool h); cbn [obnd]; [| naive_solver].
  assert (Hsh : [OP_0] ++ push_data h = OP_0 :: 20 :: h) by (unfold push_data; by rewrite Hh).
  assert (HWit : IsWitnessProgram (OP_0 :: 20 :: h) = Ret (Some (0, h))).
  { unfold IsWitnessProgram. cbn [length oct nth]. rewrite (proj2 (Z.ltb_ge _ 4)), (proj2 (Z.ltb_ge 42 _)) by lia.
    cbn [orb negb Z.eqb OP_0 andb]. rewrite (proj2 (Z.eqb_eq _ _)) by lia. done. }
  assert (HP : IsPayToScriptHash (OP_0 :: 20 :: h) = false) by (unfold IsPayToScriptHash; cbn [oct nth]; by rewrite andb_false_r).
  unfold verify_bare_witness, verify_p2sh. rewrite HW, HWP, Hsh, HWit, HP by done. cbn [obnd andb default id].
  change (negb (len [] =? 0)) with false. cbn iota. change (id [pub; sig]) with [pub; sig].
  destruct (VerifyWitnessProgram _ _ _ _ _ _) as [[]| | |]; cbn [obnd]; [| naive_solver..].
  by destruct (has flags SCRIPT_VERIFY_CLEANSTACK).
Qed.

End P2PKH.
