(* ===== verification/ScriptTheorems.v ===== *)
(** * Scripts: theorems

    Script numbers and pushes survive a round trip; the interpreter is safe on every
    input; unspendable scripts cannot be spent; signatures are strict DER; outputs to a key
    hash are spent exactly by a valid signature of the key; verification flags are soft
    forks. *)

From S2P Require Import Prelude MdHash ShaSpec Hash Script Interpreter ScriptProofs InterpreterProofs SoftFork P2pkh.
#[local] Open Scope Z_scope.

(** ** Numbers and pushes *)

(** script numbers round trip.  What [serialize] writes is at most eight octets, is
    accepted by the strictest [CScriptNum] and read back as the same number; and a vector
    that passes the minimality test is exactly what its number is written as. *)
Theorem scriptnum_roundtrip n vch m :
  - 2 ^ 63 < n < 2 ^ 63 -> octets_ok vch -> len vch <= 8 -> CScriptNum vch true 8 = Ret m ->
  CScriptNum (serialize n) true 8 = Ret n /\ serialize m = vch.
Proof.
  intros Hn Hok Hl. unfold CScriptNum. rewrite (proj2 (Z.ltb_ge _ _)) by done. cbn [andb].
  destruct (non_minimal vch) eqn:E; [done |]. intros Hm. destruct (serialize_spec n Hn) as (_ & Hl' & -> & ->).
  rewrite (proj2 (Z.ltb_ge _ _)) by lia. split; [done |]. apply set_vch_serialize; [done | lia | done..].
Qed.

Lemma scriptnum_roundtrip_witness :
  CScriptNum (serialize (-128)) true 8 = Ret (-128) /\ serialize (-255) = [255; 128].
Proof. apply (scriptnum_roundtrip (-128) [255; 128] (-255)); try done. by repeat constructor. Defined.

(** what a script pushes is what is parsed from it: the instructions of a sequence of
    pushes are those pushes, the whole script is read, and it counts as push only. *)
Theorem pushes_parse_back l :
  Forall (fun b => len b < 2 ^ 32) l ->
  parse (push_all l) = ((fun b => (push_opcode b, b)) <$> l, true) /\ IsPushOnly (push_all l) = true.
Proof. intros Hl. split; [by apply parse_push_all | by apply IsPushOnly_push_all]. Qed.

Lemma pushes_parse_back_witness :
  parse (push_all [[]; replicate 76 1]) = ([(0, []); (OP_PUSHDATA1, replicate 76 1)], true) /\
  IsPushOnly (push_all [[]; replicate 76 1]) = true.
Proof. apply (pushes_parse_back [[]; replicate 76 1]). repeat constructor. Defined.

(** [IsValidSignatureEncoding] reads only octets of the signature and accepts exactly the
    strict DER encodings of at most 73 octets: [0x30 len 0x02 |R| R 0x02 |S| S hashtype] with
    [R] and [S] minimal positive integers. *)
Theorem signature_encoding_is_der sig :
  octets_ok sig -> (IsValidSignatureEncoding sig = Some true <-> der_signature sig /\ len sig <= 73).
Proof. apply IsValidSignatureEncoding_der. Qed.

Lemma signature_encoding_is_der_witness :
  IsValidSignatureEncoding [0x30; 6; 2; 1; 5; 2; 1; 7; 1] = Some true <->
  der_signature [0x30; 6; 2; 1; 5; 2; 1; 7; 1] /\ len [0x30; 6; 2; 1; 5; 2; 1; 7; 1] <= 73.
Proof. apply (signature_encoding_is_der [0x30; 6; 2; 1; 5; 2; 1; 7; 1]). by repeat constructor. Defined.

(** ** The interpreter *)

(** A checker that answers the same to everything. *)
Definition const_checker (b : bool) : BaseSignatureChecker := {|
  CheckSig _ _ _ _ := Ret b; CheckLockTime _ := Ret b; CheckSequence _ := Ret b; CheckLowS _ := b |}.

#[export] Instance const_checker_ok b : CheckerOk (const_checker b).
Proof. split; intros; by exists b. Qed.

(** C18. the type of the stack.  Whatever the script, the flags and the checker,
    [EvalScript] run on a stack of octet vectors of at most 520 octets ends with such a stack
    of at most 1000 elements (or no more than it was given), or with a script error: no
    exception leaves it, no access of the stacks or of the script is out of range, and no
    signed integer overflows. *)
Theorem EvalScript_type_safe (CK : BaseSignatureChecker) (OK : CheckerOk CK) g g' flags sv stack script :
  length g = 64%nat -> length g' = 64%nat -> stack_ok stack -> octets_ok script ->
  (exists s, EvalScript g g' flags sv stack script = Ret s /\ stack_ok s /\ len s <= Z.max 1000 (len stack)) \/
  (exists e, EvalScript g g' flags sv stack script = Fail e).
Proof. intros Hg Hg' Hs Hk. by apply EvalScript_safe. Qed.

Lemma EvalScript_type_safe_witness :
  let r := @EvalScript (const_checker true) (replicate 64 0) (replicate 64 0) 0 SIGVERSION_BASE [[1]] [OP_DUP; 0x4c] in
  (exists s, r = Ret s /\ stack_ok s /\ len s <= Z.max 1000 (len [[1]])) \/ (exists e, r = Fail e).
Proof. apply (EvalScript_type_safe (const_checker true) _); try done; by repeat constructor. Defined.

(** C19. [VerifyScript] decides: with flags that satisfy its own assertions it accepts or
    returns a script error, for every input script, output script and witness. *)
Theorem VerifyScript_decides (CK : BaseSignatureChecker) (OK : CheckerOk CK) g g' flags sig pub witness :
  length g = 64%nat -> length g' = 64%nat -> flags_valid flags ->
  octets_ok sig -> octets_ok pub -> witness_ok (default [] witness) ->
  VerifyScript g g' sig pub witness flags = Ret tt \/ exists e, VerifyScript g g' sig pub witness flags = Fail e.
Proof.
  intros Hg Hg' Hf Hs Hp Hw.
  destruct (VerifyScript_answers g g' Hg Hg' flags sig pub witness Hf Hs Hp Hw) as [([] & -> & _)|]; eauto.
Qed.

Lemma VerifyScript_decides_witness :
  let r := @VerifyScript (const_checker true) (replicate 64 0) (replicate 64 0) [OP_1] [OP_0; 2; 3; 4] (Some [[7]])
    (SCRIPT_VERIFY_P2SH .| SCRIPT_VERIFY_WITNESS) in
  r = Ret tt \/ exists e, r = Fail e.
Proof. apply (VerifyScript_decides (const_checker true) _); try done; by repeat constructor. Defined.

(** outputs that [IsUnspendable] lets a node forget can never be spent: no input, no
    witness and no choice of flags makes [VerifyScript] accept them. *)
Theorem unspendable_never_verifies (CK : BaseSignatureChecker) g g' flags sig pub witness :
  IsUnspendable pub = true -> VerifyScript g g' sig pub witness flags <> Ret tt.
Proof.
  intros Hu. unfold VerifyScript. cbv zeta. destruct (_ && _); [done |].
  destruct (EvalScript _ _ _ _ [] sig) as [s| | |]; cbn [obnd]; try done.
  by destruct (EvalScript_unspendable g g' flags SIGVERSION_BASE s pub Hu) as (e & ->).
Qed.

Lemma unspendable_never_verifies_witness :
  @VerifyScript (const_checker true) [] [] [OP_1] [OP_RETURN; OP_1] None 0 <> Ret tt.
Proof. by apply (unspendable_never_verifies (const_checker true) [] [] 0 [OP_1] [OP_RETURN; OP_1]). Defined.

(** a pay-to-public-key-hash output is spent by a signature and a key exactly when the
    key hashes to the address, the encodings of both pass the checks the flags ask for, and
    the checker accepts the signature for the script. *)
Theorem p2pkh_spent_by_signature (CK : BaseSignatureChecker) g g' flags h sig pub :
  length g = 64%nat -> length g' = 64%nat -> flags_valid flags ->
  len h = 20 -> octets_ok h -> pushable sig -> pushable pub -> sig <> h ->
  VerifyScript g g' (push_all [sig; pub]) (p2pkh_script h) None flags = Ret tt <->
  hash160 pub = h /\ CheckSignatureEncoding flags sig = Ret tt /\
  CheckPubKeyEncoding flags SIGVERSION_BASE pub = Ret tt /\
  CheckSig sig pub (p2pkh_script h) SIGVERSION_BASE = Ret true.
Proof. intros. by apply VerifyScript_p2pkh. Qed.

Lemma p2pkh_spent_by_signature_witness :
  @VerifyScript (const_checker true) (replicate 64 0) (replicate 64 0)
    (push_all [[0x30; 6; 2; 1; 5; 2; 1; 7; 1]; 2 :: replicate 32 1])
    (p2pkh_script (hash160 (2 :: replicate 32 1))) None (SCRIPT_VERIFY_STRICTENC .| SCRIPT_VERIFY_MINIMALDATA) = Ret tt.
Proof.
  apply (p2pkh_spent_by_signature (const_checker true)); try (vm_compute; by split_and?).
  - apply (bool_decide_unpack (Forall (fits 8) _)). vm_compute. exact I.
  - split; [by vm_compute | by repeat constructor].
  - split; [by vm_compute | by repeat constructor].
Defined.

(** the same for the version 0 witness program of a key hash, spent by a witness with
    an empty input script; the program must moreover not be a false value, since it is run
    first as a script of pushes. *)
Theorem p2wpkh_spent_by_signature (CK : BaseSignatureChecker) g g' flags h sig pub :
  length g = 64%nat -> length g' = 64%nat -> flags_valid flags -> has flags SCRIPT_VERIFY_WITNESS = true ->
  len h = 20 -> octets_ok h -> pushable sig -> pushable pub -> sig <> h ->
  VerifyScript g g' [] ([OP_0] ++ push_data h) (Some [pub; sig]) flags = Ret tt <->
  CastToBool h = true /\ hash160 pub = h /\ CheckSignatureEncoding flags sig = Ret tt /\
  CheckPubKeyEncoding flags SIGVERSION_WITNESS_V0 pub = Ret tt /\
  CheckSig sig pub (p2pkh_script h) SIGVERSION_WITNESS_V0 = Ret true.
Proof. intros. by apply VerifyScript_p2wpkh. Qed.

Lemma p2wpkh_spent_by_signature_witness :
  @VerifyScript (const_checker true) (replicate 64 0) (replicate 64 0) []
    ([OP_0] ++ push_data (hash160 (2 :: replicate 32 1))) (Some [2 :: replicate 32 1; [0x30; 6; 2; 1; 5; 2; 1; 7; 1]])
    (SCRIPT_VERIFY_P2SH .| SCRIPT_VERIFY_WITNESS) = Ret tt.
Proof.
  apply (p2wpkh_spent_by_signature (const_checker true)); try (vm_compute; by split_and?).
  - apply (bool_decide_unpack (Forall (fits 8) _)). vm_compute. exact I.
  - split; [by vm_compute | by repeat constructor].
  - split; [by vm_compute | by repeat constructor].
Defined.

(** C17. verification flags are soft forks.  A node that checks more flags accepts only what a
    node that checks fewer of them accepts, provided a lock-time operation is not enabled
    over a rule that discouraged it as a no-op. *)
Theorem verification_flags_soft_fork (CK : BaseSignatureChecker) g g' F F' sig pub witness :
  flags_sub F F' -> nops_compatible F F' -> flags_valid F ->
  VerifyScript g g' sig pub witness F' = Ret tt -> VerifyScript g g' sig pub witness F = Ret tt.
Proof.
  intros Hsub Hn Hv E. exact (VerifyScript_mono g g' F F' Hsub Hn sig pub witness Hv tt E).
Qed.

Lemma verification_flags_soft_fork_witness :
  @VerifyScript (const_checker false) [] [] [OP_1] [OP_1; OP_NOP] None SCRIPT_VERIFY_P2SH = Ret tt.
Proof.
  apply (verification_flags_soft_fork (const_checker false) [] [] SCRIPT_VERIFY_P2SH
    (SCRIPT_VERIFY_P2SH .| SCRIPT_VERIFY_MINIMALDATA .| SCRIPT_VERIFY_SIGPUSHONLY)); done.
Defined.

(** The proviso is needed: with only [DISCOURAGE_UPGRADABLE_NOPS] the operation fails, and
    enabling it makes the script valid. *)
Example discouraged_nop_not_soft_fork :
  let run F := @VerifyScript (const_checker true) [] [] [OP_1] [OP_CHECKLOCKTIMEVERIFY] None F in
  run (SCRIPT_VERIFY_DISCOURAGE_UPGRADABLE_NOPS) = Fail SCRIPT_ERR_DISCOURAGE_UPGRADABLE_NOPS /\
  run (SCRIPT_VERIFY_DISCOURAGE_UPGRADABLE_NOPS .| SCRIPT_VERIFY_CHECKLOCKTIMEVERIFY) = Ret tt.
Proof. done. Qed.
