(* ===== verification/Serialize.v ===== *)
(** * Serialization: serialize.h and the stream of streams.h

    Writing appends octets to a stream, so what is written is the list of them.  Reading
    takes octets from the front of the rest of the stream: a [reader] returns the value and
    what is left, or [None] when [std::ios_base::failure] is thrown.  A signed integer is
    written like its two's complement.  The round trips of the types and of the
    variable-length integers follow. *)

From S2P Require Import Prelude MdHash Script.
#[local] Open Scope Z_scope.

Abbreviation reader A := (list Z -> option (A * list Z)).

(** A class with [Serialize] and [Unserialize]. *)
Record serializable (T : Type) := mkSer { Serialize : T -> list Z; Unserialize : reader T }.
Arguments mkSer {T}.
Arguments Serialize {T}.
Arguments Unserialize {T}.

Definition MAX_SIZE : Z := 0x02000000.

(** [CDataStream::read]. *)
Definition ser_read (nSize : Z) : reader (list Z) := fun s =>
  if len s <? nSize then None else Some (take (Z.to_nat nSize) s, drop (Z.to_nat nSize) s).

(** ** Integers *)

Definition ser_writedata8 (obj : Z) : list Z := le_bytes 1 obj.
Definition ser_writedata16 (obj : Z) : list Z := le_bytes 2 obj.
Definition ser_writedata32 (obj : Z) : list Z := le_bytes 4 obj.
Definition ser_writedata64 (obj : Z) : list Z := le_bytes 8 obj.
Definition ser_writedata32be (obj : Z) : list Z := rev (le_bytes 4 obj).

Definition ser_readle (n : Z) : reader Z := fun s => '(b, s) ← ser_read n s; Some (le_value b, s).
Definition ser_readdata8 : reader Z := ser_readle 1.
Definition ser_readdata16 : reader Z := ser_readle 2.
Definition ser_readdata32 : reader Z := ser_readle 4.
Definition ser_readdata64 : reader Z := ser_readle 8.
Definition ser_readdata32be : reader Z := fun s => '(b, s) ← ser_read 4 s; Some (le_value (rev b), s).

(** The conversion of an unsigned value to the signed type of the same width. *)
Definition to_signed (w x : Z) : Z := if x <? 2 ^ (w - 1) then x else x - 2 ^ w.

Definition uint8 : serializable Z := mkSer ser_writedata8 ser_readdata8.
Definition uint16 : serializable Z := mkSer ser_writedata16 ser_readdata16.
Definition uint32 : serializable Z := mkSer ser_writedata32 ser_readdata32.
Definition uint64 : serializable Z := mkSer ser_writedata64 ser_readdata64.
Definition int32 : serializable Z :=
  mkSer ser_writedata32 (fun s => '(x, s) ← ser_readdata32 s; Some (to_signed 32 x, s)).
Definition sint64 : serializable Z :=
  mkSer ser_writedata64 (fun s => '(x, s) ← ser_readdata64 s; Some (to_signed 64 x, s)).
Definition ser_bool : serializable bool :=
  mkSer (fun a : bool => ser_writedata8 (if a then 1 else 0)) (fun s => '(f, s) ← ser_readdata8 s; Some (negb (f =? 0), s)).

(** ** Compact sizes *)

Definition GetSizeOfCompactSize (nSize : Z) : Z :=
  if nSize <? 253 then 1 else if nSize <=? 0xffff then 1 + 2 else if nSize <=? 0xffffffff then 1 + 4 else 1 + 8.

Definition WriteCompactSize (nSize : Z) : list Z :=
  if nSize <? 253 then ser_writedata8 nSize
  else if nSize <=? 0xffff then ser_writedata8 253 ++ ser_writedata16 nSize
  else if nSize <=? 0xffffffff then ser_writedata8 254 ++ ser_writedata32 nSize
  else ser_writedata8 255 ++ ser_writedata64 nSize.

Definition ReadCompactSize : reader Z := fun s =>
  '(chSize, s) ← ser_readdata8 s;
  '(nSizeRet, s) ←
    (if chSize <? 253 then Some (chSize, s)
     else if chSize =? 253 then
       '(n, s) ← ser_readdata16 s; if n <? 253 then None else Some (n, s)
     else if chSize =? 254 then
       '(n, s) ← ser_readdata32 s; if n <? 0x10000 then None else Some (n, s)
     else
       '(n, s) ← ser_readdata64 s; if n <? 0x100000000 then None else Some (n, s));
  if MAX_SIZE <? nSizeRet then None else Some (nSizeRet, s).

(** ** Variable-length integers *)

(** The type argument [I]: its width, and the value an assignment stores; overflow of a
    signed type is undefined. *)
Record inttype := mkInt { it_bits : Z; it_conv : Z -> option Z }.
Definition unsigned_t (w : Z) : inttype := mkInt w (fun x => Some (wrap w x)).
Definition signed_t (w : Z) : inttype :=
  mkInt w (fun x => if (- 2 ^ (w - 1) <=? x) && (x <? 2 ^ (w - 1)) then Some x else None).

(** The digits [tmp[0]], [tmp[1]], ..: [fuel] is the size of [tmp], past which a write is
    out of bounds. *)
Fixpoint varint_digits (fuel : nat) (n : Z) (first : bool) : option (list Z) :=
  match fuel with
  | O => None
  | S fuel =>
      let d := (n & 0x7F) .| (if first then 0x00 else 0x80) in
      if n <=? 0x7F then Some [d] else ds ← varint_digits fuel ((n >> 7) - 1) false; Some (d :: ds)
  end.

Definition WriteVarInt (I : inttype) (n : Z) : option (list Z) :=
  @rev Z <$> varint_digits (Z.to_nat ((it_bits I + 6) / 7)) n true.

(** The number of turns; the loop ends since [n] decreases. *)
Fixpoint varint_size (fuel : nat) (n : Z) : Z :=
  match fuel with O => 0 | S fuel => if n <=? 0x7F then 1 else 1 + varint_size fuel ((n >> 7) - 1) end.
Definition GetSizeOfVarInt (I : inttype) (n : Z) : Z := varint_size (Z.to_nat (it_bits I)) n.

Fixpoint varint_read (I : inttype) (n : Z) (s : list Z) : option (Z * list Z) :=
  match s with
  | [] => None
  | chData :: s =>
      n ← it_conv I ((n << 7) .| (chData & 0x7F));
      if negb (chData & 0x80 =? 0) then n ← it_conv I (n + 1); varint_read I n s else Some (n, s)
  end.

Definition ReadVarInt (I : inttype) : reader Z := varint_read I 0.

(** ** Vectors *)

(** [for (; i < nMid; i++) Unserialize(is, v[i])]. *)
Fixpoint read_n {T} (get : reader T) (n : nat) : reader (list T) := fun s =>
  match n with
  | O => Some ([], s)
  | S n => '(x, s) ← get s; '(v, s) ← read_n get n s; Some (x :: v, s)
  end.

(** The elements come in batches of at most [B], so that a bogus size does not cause a large
    allocation: [while (i < nSize)]. *)
Fixpoint batch_loop {T} (get_many : nat -> reader (list T)) (fuel : nat) (B nSize i : Z) (v : list T)
    : reader (list T) := fun s =>
  if i <? nSize then
    match fuel with
    | O => None
    | S fuel =>
        let nMid := u32 (i + B) in
        let nMid := if nSize <? nMid then nSize else nMid in
        '(w, s) ← get_many (Z.to_nat (nMid - i)) s;
        batch_loop get_many fuel B nSize nMid (v ++ w) s
    end
  else Some (v, s).

(** Vectors and prevectors of octets: an opaque blob. *)
Definition byte_vector : serializable (list Z) := mkSer
  (fun v => WriteCompactSize (len v) ++ v)
  (fun s => '(nSize, s) ← ReadCompactSize s;
    batch_loop (fun n => ser_read (Z.of_nat n)) (Z.to_nat nSize) (1 + 4999999 / 1) nSize 0 [] s).

(** Vectors of [T], whose size in memory is [sizeof_T]. *)
Definition vector {T} (sizeof_T : Z) (c : serializable T) : serializable (list T) := mkSer
  (fun v => WriteCompactSize (len v) ++ concat (Serialize c <$> v))
  (fun s => '(nSize, s) ← ReadCompactSize s;
    batch_loop (read_n (Unserialize c)) (Z.to_nat nSize) (5000000 / sizeof_T) nSize 0 [] s).

(** [GetSerializeSize] of vectors, an [unsigned int]. *)
Definition byte_vector_size (v : list Z) : Z := u32 (GetSizeOfCompactSize (len v) + len v).
Definition vector_size {T} (size_T : T -> Z) (v : list T) : Z :=
  foldl (fun nSize x => u32 (nSize + size_T x)) (GetSizeOfCompactSize (len v)) v.

(** [uint256]: its 32 octets. *)
Definition uint256 : serializable (list Z) := mkSer (fun h => h) (ser_read 32).

(** [pair]. *)
Definition ser_pair {K T} (k : serializable K) (t : serializable T) : serializable (K * T) := mkSer
  (fun item => Serialize k item.1 ++ Serialize t item.2)
  (fun s => '(a, s) ← Unserialize k s; '(b, s) ← Unserialize t s; Some ((a, b), s)).

(** * Serialization: what is written is read back, and only that is read

    [SerOk c wf]: every value that satisfies [wf] survives a round trip, and a reader
    accepts nothing but what is written for some such value, so that encodings are unique. *)

#[local] Open Scope Z_scope.

Class SerOk {T} (c : serializable T) (wf : T -> Prop) := {
  ser_octets x : wf x -> octets_ok (Serialize c x);
  ser_unser x s : wf x -> Unserialize c (Serialize c x ++ s) = Some (x, s);
  unser_ser s x s' : octets_ok s -> Unserialize c s = Some (x, s') -> wf x /\ s = Serialize c x ++ s';
}.

(** Two values with the same octets are equal, whatever follows. *)
Lemma Serialize_inj {T} (c : serializable T) wf `{!SerOk c wf} x y s s' :
  wf x -> wf y -> Serialize c x ++ s = Serialize c y ++ s' -> x = y /\ s = s'.
Proof. intros Hx Hy E. pose proof (ser_unser (c := c) x s Hx) as Ex. rewrite E, ser_unser in Ex by done. by injection Ex. Qed.

(** ** Fixed-size data *)

Lemma ser_read_app n b s : len b = n -> ser_read n (b ++ s) = Some (b, s).
Proof.
  intros <-. unfold ser_read. rewrite length_app, (proj2 (Z.ltb_ge _ _)) by lia.
  by rewrite Nat2Z.id, take_app_length, drop_app_length.
Qed.

Lemma ser_read_inv n s b s' : 0 <= n -> ser_read n s = Some (b, s') -> s = b ++ s' /\ len b = n.
Proof.
  unfold ser_read. intros Hn. destruct (Z.ltb_spec (len s) n); [done |]. intros [= <- <-].
  rewrite take_drop. split; [done |]. rewrite length_take. lia.
Qed.

(** Take a reader apart: the octets it consumed and what it returned. *)
Ltac ser_inv :=
  repeat match goal with
  | H : Some _ = Some _ |- _ => injection H as H; subst
  | H : None = Some _ |- _ => discriminate H
  | H : (_ ≫= _) = Some _ |- _ => apply bind_Some in H as ([? ?] & ? & H)
  | H : (if ?b then None else _) = Some _ |- _ => destruct b eqn:?; [discriminate H |]
  | H : (if ?b then _ else None) = Some _ |- _ => destruct b eqn:?; [| discriminate H]
  end.

Lemma ser_readle_app n x s : fits (8 * Z.of_nat n) x -> ser_readle (Z.of_nat n) (le_bytes n x ++ s) = Some (x, s).
Proof.
  intros Hx. unfold ser_readle. rewrite ser_read_app by (by rewrite length_le_bytes).
  rewrite obind_Some. by rewrite le_value_le_bytes_id.
Qed.

Lemma ser_readle_inv n x s s' :
  octets_ok s -> ser_readle (Z.of_nat n) s = Some (x, s') -> fits (8 * Z.of_nat n) x /\ s = le_bytes n x ++ s'.
Proof.
  unfold ser_readle. intros Hs H. ser_inv.
  match goal with H : ser_read _ _ = _ |- _ => apply ser_read_inv in H as [-> Hl]; [| lia] end.
  apply Forall_app in Hs as [Hb _]. apply Nat2Z.inj in Hl. subst n. split; [by apply le_value_fits |].
  by rewrite le_bytes_le_value.
Qed.

Lemma octets_le_bytes n x : octets_ok (le_bytes n x).
Proof. unfold le_bytes. apply list.Forall_forall. intros b (i & -> & _)%list_elem_of_fmap. apply wrap_fits. lia. Qed.

Lemma le_ok n : SerOk (mkSer (le_bytes n) (ser_readle (Z.of_nat n))) (fits (8 * Z.of_nat n)).
Proof.
  split; cbn.
  - intros. apply octets_le_bytes.
  - intros. by apply ser_readle_app.
  - intros. by apply ser_readle_inv.
Qed.

#[export] Instance uint8_ok : SerOk uint8 (fits 8) := le_ok 1.
#[export] Instance uint16_ok : SerOk uint16 (fits 16) := le_ok 2.
#[export] Instance uint32_ok : SerOk uint32 (fits 32) := le_ok 4.
#[export] Instance uint64_ok : SerOk uint64 (fits 64) := le_ok 8.

(** Signed integers: two's complement. *)
Definition signed_fits (w x : Z) : Prop := - 2 ^ (w - 1) <= x < 2 ^ (w - 1).

Lemma to_signed_wrap w x : 0 < w -> signed_fits w x -> to_signed w (wrap w x) = x.
Proof.
  intros Hw [? ?]. unfold to_signed, wrap. assert (E : 2 ^ w = 2 * 2 ^ (w - 1)).
  { rewrite <- Z.pow_succ_r by lia. f_equal. lia. }
  destruct (Z.ltb_spec x 0).
  - rewrite <- (Z.mod_add x 1) by lia. rewrite Z.mod_small by lia. rewrite (proj2 (Z.ltb_ge _ _)); lia.
  - rewrite Z.mod_small by lia. by rewrite (proj2 (Z.ltb_lt _ _)).
Qed.

Lemma wrap_to_signed w x : fits w x -> wrap w (to_signed w x) = x.
Proof.
  intros [? ?]. unfold to_signed, wrap. destruct (x <? _); [by apply Z.mod_small |].
  rewrite <- (Z.mod_add (x - 2 ^ w) 1) by lia. rewrite Z.mod_small; lia.
Qed.

Lemma to_signed_fits w x : 0 < w -> fits w x -> signed_fits w (to_signed w x).
Proof.
  intros Hw [? ?]. unfold to_signed, signed_fits. assert (E : 2 ^ w = 2 * 2 ^ (w - 1)).
  { rewrite <- Z.pow_succ_r by lia. f_equal. lia. }
  destruct (Z.ltb_spec x (2 ^ (w - 1))); lia.
Qed.

Lemma le_bytes_wrap n x : le_bytes n (wrap (8 * Z.of_nat n) x) = le_bytes n x.
Proof.
  apply le_value_inj; [apply octets_le_bytes.. | by rewrite !length_le_bytes |].
  rewrite !le_value_le_bytes. unfold wrap. by rewrite Z.mod_mod by (pose proof (pow2_pos (8 * Z.of_nat n)); lia).
Qed.

Lemma signed_ok n :
  (0 < n)%nat ->
  SerOk (mkSer (le_bytes n) (fun s => '(x, s) ← ser_readle (Z.of_nat n) s; Some (to_signed (8 * Z.of_nat n) x, s)))
    (signed_fits (8 * Z.of_nat n)).
Proof.
  intros Hn. split; cbn.
  - intros. apply octets_le_bytes.
  - intros x s Hx. rewrite <- le_bytes_wrap, ser_readle_app by (apply wrap_fits; lia).
    rewrite obind_Some. by rewrite to_signed_wrap by (done || lia).
  - intros s x s' Hs H. ser_inv.
    match goal with H : ser_readle _ _ = _ |- _ => apply ser_readle_inv in H as [Hf ->]; [| done] end.
    split; [apply to_signed_fits; [lia | done] |]. by rewrite <- (le_bytes_wrap n (to_signed _ _)), wrap_to_signed.
Qed.

#[export] Instance int32_ok : SerOk int32 (signed_fits 32) := signed_ok 4 ltac:(lia).
#[export] Instance sint64_ok : SerOk sint64 (signed_fits 64) := signed_ok 8 ltac:(lia).

Definition hash_wf (h : list Z) : Prop := length h = 32%nat /\ octets_ok h.

#[export] Instance uint256_ok : SerOk uint256 hash_wf.
Proof.
  split; cbn.
  - by intros x [].
  - intros x s [Hl _]. apply ser_read_app. by rewrite Hl.
  - intros s x s' Hs [-> Hl]%ser_read_inv; [| done]. apply Forall_app in Hs as [? _]. split; [split; [lia | done] | done].
Qed.

(** ** Compact sizes *)

Lemma length_WriteCompactSize n : 0 <= n -> len (WriteCompactSize n) = GetSizeOfCompactSize n.
Proof.
  intros Hn. unfold WriteCompactSize, GetSizeOfCompactSize, ser_writedata8, ser_writedata16, ser_writedata32, ser_writedata64.
  repeat case_match; rewrite ?length_app, ?length_le_bytes; lia.
Qed.

Lemma octets_WriteCompactSize n : octets_ok (WriteCompactSize n).
Proof. unfold WriteCompactSize. repeat case_match; repeat apply Forall_app_2; apply octets_le_bytes. Qed.

Lemma ReadCompactSize_Write n s : 0 <= n <= MAX_SIZE -> ReadCompactSize (WriteCompactSize n ++ s) = Some (n, s).
Proof.
  unfold MAX_SIZE. intros Hn. unfold ReadCompactSize, WriteCompactSize, ser_readdata8, ser_readdata16,
    ser_readdata32, ser_writedata8, ser_writedata16, ser_writedata32.
  destruct (Z.ltb_spec n 253).
  - rewrite (ser_readle_app 1) by (split; cbn; lia). rewrite obind_Some, (proj2 (Z.ltb_lt n 253)) by done.
    rewrite obind_Some. by rewrite (proj2 (Z.ltb_ge _ n)) by (unfold MAX_SIZE; lia).
  - destruct (Z.leb_spec n 0xffff); rewrite ?(proj2 (Z.leb_le n 0xffffffff)) by lia.
    + rewrite <- app_assoc, (ser_readle_app 1) by (split; cbn; lia). rewrite obind_Some. cbn [Z.ltb Z.eqb Z.compare Pos.compare Pos.compare_cont Pos.eqb].
      rewrite (ser_readle_app 2) by (split; cbn; lia). rewrite obind_Some, (proj2 (Z.ltb_ge n 253)) by lia.
      rewrite obind_Some. by rewrite (proj2 (Z.ltb_ge _ n)) by (unfold MAX_SIZE; lia).
    + rewrite <- app_assoc, (ser_readle_app 1) by (split; cbn; lia). rewrite obind_Some. cbn [Z.ltb Z.eqb Z.compare Pos.compare Pos.compare_cont Pos.eqb].
      rewrite (ser_readle_app 4) by (split; cbn; lia). rewrite obind_Some, (proj2 (Z.ltb_ge n _)) by lia.
      rewrite obind_Some. by rewrite (proj2 (Z.ltb_ge _ n)) by (unfold MAX_SIZE; lia).
Qed.

(** Only canonical sizes are accepted. *)
Lemma ReadCompactSize_inv s n s' :
  octets_ok s -> ReadCompactSize s = Some (n, s') -> 0 <= n <= MAX_SIZE /\ s = WriteCompactSize n ++ s'.
Proof.
  intros Hs. unfold ReadCompactSize. intros H. apply bind_Some in H as ([c s1] & E1 & H).
  apply (ser_readle_inv 1) in E1 as [Hc ->]; [| done]. apply Forall_app in Hs as [_ Hs].
  apply bind_Some in H as ([m s2] & E2 & H). destruct (Z.ltb_spec MAX_SIZE m) as [|Hm]; [done |].
  injection H as <- <-. destruct Hc as [Hc0 Hc1]. change (2 ^ (8 * Z.of_nat 1)) with 256 in Hc1.
  destruct (Z.ltb_spec c 253) as [Hlt|Hge].
  { injection E2 as <- <-. split; [lia |]. unfold WriteCompactSize. by rewrite (proj2 (Z.ltb_lt _ _)). }
  destruct (Z.eqb_spec c 253) as [->|]; [| destruct (Z.eqb_spec c 254) as [->|]].
  - apply bind_Some in E2 as ([k s3] & [[? Hk] ->]%(ser_readle_inv 2) & E3); [| done].
    destruct (Z.ltb_spec k 253); [done |]. injection E3 as -> ->. split; [lia |].
    change (2 ^ (8 * Z.of_nat 2)) with 0x10000 in Hk. unfold WriteCompactSize.
    rewrite (proj2 (Z.ltb_ge _ _)), (proj2 (Z.leb_le _ _)) by lia. by rewrite <- app_assoc.
  - apply bind_Some in E2 as ([k s3] & [[? Hk] ->]%(ser_readle_inv 4) & E3); [| done].
    destruct (Z.ltb_spec k 0x10000); [done |]. injection E3 as -> ->. split; [lia |].
    change (2 ^ (8 * Z.of_nat 4)) with 0x100000000 in Hk. unfold WriteCompactSize.
    rewrite (proj2 (Z.ltb_ge _ _)), (proj2 (Z.leb_gt m 0xffff)), (proj2 (Z.leb_le _ _)) by lia. by rewrite <- app_assoc.
  - apply bind_Some in E2 as ([k s3] & [[? Hk] ->]%(ser_readle_inv 8) & E3); [| done].
    destruct (Z.ltb_spec k 0x100000000); [done |]. injection E3 as -> ->. unfold MAX_SIZE in Hm. lia.
Qed.

(** ** Vectors *)

(** A reader of [n] values at a time that may be split. *)
Class Splits {T} (get_many : nat -> reader (list T)) := {
  many_0 s : get_many 0%nat s = Some ([], s);
  many_add a b s : get_many (a + b)%nat s = '(v, s) ← get_many a s; '(w, s) ← get_many b s; Some (v ++ w, s);
}.

(** Reading in batches is reading everything. *)
Lemma batch_loop_many {T} (get_many : nat -> reader (list T)) `{!Splits get_many} fuel B nSize i v s :
  1 <= B -> 0 <= i <= nSize -> nSize + B < 2 ^ 32 -> nSize - i <= Z.of_nat fuel ->
  batch_loop get_many fuel B nSize i v s = '(w, s) ← get_many (Z.to_nat (nSize - i)) s; Some (v ++ w, s).
Proof.
  intros HB. revert i v s. induction fuel as [|fuel IH]; intros i v s Hi HS Hf; cbn [batch_loop].
  - rewrite (proj2 (Z.ltb_ge _ _)) by lia. replace (Z.to_nat (nSize - i)) with 0%nat by lia.
    rewrite many_0, obind_Some. by rewrite app_nil_r.
  - destruct (Z.ltb_spec i nSize) as [Hlt|Hge].
    + rewrite wrap_id by (split; lia). set (m := if nSize <? i + B then nSize else i + B).
      assert (Hm : i < m <= nSize) by (subst m; destruct (Z.ltb_spec nSize (i + B)); lia). clearbody m.
      replace (Z.to_nat (nSize - i)) with (Z.to_nat (m - i) + Z.to_nat (nSize - m))%nat by lia.
      rewrite many_add. destruct (get_many (Z.to_nat (m - i)) s) as [[w s1]|]; [| done]. rewrite !obind_Some.
      rewrite IH by lia. destruct (get_many (Z.to_nat (nSize - m)) s1) as [[w' s2]|]; [| done].
      rewrite !obind_Some. by rewrite app_assoc.
    + replace (Z.to_nat (nSize - i)) with 0%nat by lia. rewrite many_0, obind_Some. by rewrite app_nil_r.
Qed.

#[export] Instance ser_read_splits : Splits (fun n => ser_read (Z.of_nat n)).
Proof.
  split.
  - intros s. unfold ser_read. by rewrite (proj2 (Z.ltb_ge _ _)) by lia.
  - intros a b s. unfold ser_read. rewrite !Nat2Z.id.
    destruct (Z.ltb_spec (len s) (Z.of_nat a)) as [Ha|Ha]; [rewrite (proj2 (Z.ltb_lt _ _)) by lia; done |].
    rewrite obind_Some, length_drop.
    destruct (Z.ltb_spec (len s) (Z.of_nat (a + b))).
    + rewrite (proj2 (Z.ltb_lt _ _)) by lia. done.
    + rewrite (proj2 (Z.ltb_ge _ _)) by lia. rewrite obind_Some.
      by rewrite drop_drop, <- take_take_drop.
Qed.

#[export] Instance read_n_splits {T} (get : reader T) : Splits (read_n get).
Proof.
  split; [done |]. intros a b. induction a as [|a IH]; intros s; cbn [read_n Nat.add].
  - rewrite obind_Some. destruct (read_n get b s) as [[w s']|]; done.
  - destruct (get s) as [[x s1]|]; [| done]. rewrite !obind_Some, IH.
    destruct (read_n get a s1) as [[v s2]|]; [| done]. rewrite !obind_Some.
    by destruct (read_n get b s2) as [[w s3]|].
Qed.

Lemma read_n_ok {T} (c : serializable T) wf `{!SerOk c wf} v s :
  Forall wf v -> read_n (Unserialize c) (length v) (concat (Serialize c <$> v) ++ s) = Some (v, s).
Proof.
  induction 1 as [|x v Hx Hv IH]; [done |]. rewrite fmap_cons. cbn [concat length read_n].
  by rewrite <- app_assoc, ser_unser, obind_Some, IH.
Qed.

Lemma read_n_inv {T} (c : serializable T) wf `{!SerOk c wf} n s v s' :
  octets_ok s -> read_n (Unserialize c) n s = Some (v, s') ->
  Forall wf v /\ length v = n /\ s = concat (Serialize c <$> v) ++ s'.
Proof.
  revert s v s'. induction n as [|n IH]; intros s v s' Hs; cbn [read_n]; [by intros [= <- <-] |].
  intros H. apply bind_Some in H as ([x s1] & [Hx ->]%(unser_ser (c := c)) & H); [| done].
  apply Forall_app in Hs as [_ Hs]. apply bind_Some in H as ([w s2] & (Hw & <- & ->)%IH & H); [| done].
  injection H as <- <-. split_and!; [by constructor | done |]. rewrite fmap_cons. cbn [concat]. by rewrite app_assoc.
Qed.

Lemma concat_octets {T} (c : serializable T) wf `{!SerOk c wf} v : Forall wf v -> octets_ok (concat (Serialize c <$> v)).
Proof. induction 1; [constructor |]. rewrite fmap_cons. cbn [concat]. apply Forall_app_2; [by apply ser_octets | done]. Qed.

Definition bytes_wf (v : list Z) : Prop := len v <= MAX_SIZE /\ octets_ok v.

#[export] Instance byte_vector_ok : SerOk byte_vector bytes_wf.
Proof.
  split; cbn [Serialize Unserialize byte_vector].
  - intros v [_ Hv]. apply Forall_app_2; [apply octets_WriteCompactSize | done].
  - intros v s [Hl Hv]. rewrite <- app_assoc, ReadCompactSize_Write by lia. rewrite obind_Some.
    unfold MAX_SIZE in Hl. change (1 + 4999999 / 1) with 5000000.
    rewrite (batch_loop_many (fun n => ser_read (Z.of_nat n))) by lia. rewrite Z.sub_0_r, Nat2Z.id. by rewrite ser_read_app, obind_Some.
  - intros s v s' Hs H. apply bind_Some in H as ([n s1] & [Hn ->]%ReadCompactSize_inv & H); [| done].
    change (1 + 4999999 / 1) with 5000000 in H. rewrite (batch_loop_many (fun n => ser_read (Z.of_nat n))) in H by (unfold MAX_SIZE in Hn; lia).
    apply bind_Some in H as ([w s2] & [-> Hl]%ser_read_inv & H); [| lia]. injection H as <- <-.
    apply Forall_app in Hs as [_ [? _]%Forall_app]. rewrite Z.sub_0_r, Z2Nat.id in Hl by lia.
    split; [split; [lia | done] |]. cbn [app]. by rewrite Hl, app_assoc.
Qed.

Definition vector_wf {T} (wf : T -> Prop) (v : list T) : Prop := len v <= MAX_SIZE /\ Forall wf v.

(** [sizeof(T)] for which the batches are not empty. *)
Definition sizeof_ok (n : Z) : Prop := 0 < n <= 5000000.

Lemma vector_ok {T} (n : Z) (c : serializable T) wf `{!SerOk c wf} :
  sizeof_ok n -> SerOk (vector n c) (vector_wf wf).
Proof.
  intros [Hn1 Hn2]. assert (1 <= 5000000 / n) by (apply Z.div_le_lower_bound; lia).
  assert (5000000 / n <= 5000000) by (apply Z.div_le_upper_bound; nia).
  split; cbn [Serialize Unserialize vector].
  - intros v [_ Hv]. apply Forall_app_2; [apply octets_WriteCompactSize | by apply (concat_octets c wf)].
  - intros v s [Hl Hv]. rewrite <- app_assoc, ReadCompactSize_Write by lia. rewrite obind_Some.
    unfold MAX_SIZE in Hl. rewrite (batch_loop_many (read_n (Unserialize c))) by lia. rewrite Z.sub_0_r, Nat2Z.id.
    by rewrite (read_n_ok c wf), obind_Some.
  - intros s v s' Hs HR. apply bind_Some in HR as ([k s1] & [Hk ->]%ReadCompactSize_inv & HR); [| done].
    rewrite (batch_loop_many (read_n (Unserialize c))) in HR by (unfold MAX_SIZE in Hk; lia).
    apply Forall_app in Hs as [_ Hs].
    apply bind_Some in HR as ([w s2] & (Hw & Hl & ->)%(read_n_inv c wf) & HR); [| done].
    injection HR as <- <-. rewrite Z.sub_0_r in Hl.
    assert (El : len w = k) by lia. split; [split; [lia | done] |]. cbn [app]. by rewrite El, app_assoc.
Qed.

(** ** Pairs *)

#[export] Instance ser_pair_ok {K T} (k : serializable K) (t : serializable T) wk wt `{!SerOk k wk} `{!SerOk t wt} :
  SerOk (ser_pair k t) (fun p => wk p.1 /\ wt p.2).
Proof.
  split; cbn [Serialize Unserialize ser_pair].
  - intros [a b] [Ha Hb]. apply Forall_app_2; by apply ser_octets.
  - intros [a b] s [Ha Hb]. cbn in *. by rewrite <- app_assoc, ser_unser, obind_Some, ser_unser, obind_Some.
  - intros s [a b] s' Hs H. apply bind_Some in H as ([a' s1] & [Ha ->]%(unser_ser (c := k)) & H); [| done].
    apply Forall_app in Hs as [_ Hs]. apply bind_Some in H as ([b' s2] & [Hb ->]%(unser_ser (c := t)) & H); [| done].
    injection H as <- <- <-. cbn. split; [done |]. by rewrite app_assoc.
Qed.

(** * Variable-length integers: round trip, size and uniqueness *)

#[local] Open Scope Z_scope.

(** The low digit and the rest. *)
Lemma varint_split n : 0 <= n -> ((n >> 7) << 7) .| (n & 0x7F) = n.
Proof.
  intros Hn. rewrite lor_shift_add; [| lia |].
  - change 0x7F with (Z.ones 7). rewrite Z.land_ones, Z.shiftr_div_pow2 by lia. pose proof (Z.div_mod n (2 ^ 7)). lia.
  - change 0x7F with (Z.ones 7). rewrite Z.land_ones by lia. apply Z.mod_pos_bound. done.
Qed.

Lemma digit_land n : 0 <= n & 0x7F < 128.
Proof. change 0x7F with (Z.ones 7). rewrite Z.land_ones by lia. by apply Z.mod_pos_bound. Qed.

Lemma digit_more n : ((n & 0x7F) .| 0x80) & 0x7F = n & 0x7F /\ negb (((n & 0x7F) .| 0x80) & 0x80 =? 0) = true /\
  fits 8 ((n & 0x7F) .| 0x80).
Proof.
  pose proof (digit_land n) as Hd. set (d := n & 0x7F) in *. clearbody d.
  assert (H : (128 <=? d) || (((d .| 0x80) & 0x7F =? d) && negb ((d .| 0x80) & 0x80 =? 0) && (d .| 0x80 <? 256)) = true).
  { revert d Hd. intros d Hd. apply (octet_all (fun d => (128 <=? d) || (((d .| 0x80) & 0x7F =? d) &&
      negb ((d .| 0x80) & 0x80 =? 0) && (d .| 0x80 <? 256)))); [by vm_compute | split; cbn; lia]. }
  rewrite (proj2 (Z.leb_gt _ _)) in H by lia. cbn [orb] in H. rewrite !andb_true_iff in H.
  destruct H as [[H1 ->] H3]. split_and!; [lia | done | split]; [| change (2 ^ 8) with 256; lia].
  apply Z.lor_nonneg. lia.
Qed.

Lemma digit_last n : ((n & 0x7F) .| 0x00) & 0x7F = n & 0x7F /\ negb (((n & 0x7F) .| 0x00) & 0x80 =? 0) = false.
Proof.
  pose proof (digit_land n) as Hd. rewrite Z.lor_0_r. set (d := n & 0x7F) in *. clearbody d.
  rewrite land_0x80, land_0x7f by (split; cbn; lia). by rewrite (proj2 (Z.ltb_lt _ _)) by lia.
Qed.

Lemma shiftr7 n : 0 <= n -> 0 <= n >> 7 /\ 128 * (n >> 7) <= n < 128 * (n >> 7) + 128.
Proof.
  intros Hn. rewrite Z.shiftr_div_pow2 by lia. change (2 ^ 7) with 128.
  pose proof (Z.div_mod n 128). pose proof (Z.mod_pos_bound n 128). lia.
Qed.

Section Read.
Context (I : inttype) (N : Z) (Hconv : forall x, 0 <= x <= N -> it_conv I x = Some x).

(** One octet of a value that fits. *)
Lemma varint_read_digit x acc d s :
  0 <= x <= N -> acc = x >> 7 -> d & 0x7F = x & 0x7F -> (negb (d & 0x80 =? 0) = true -> x + 1 <= N) ->
  varint_read I acc (d :: s) = if negb (d & 0x80 =? 0) then varint_read I (x + 1) s else Some (x, s).
Proof using Hconv.
  intros Hx -> Ed Hm. cbn [varint_read]. rewrite Ed, varint_split, Hconv by lia. rewrite obind_Some.
  destruct (negb _); [| done]. by rewrite Hconv by lia.
Qed.

(** The digits before the last leave the accumulator at their value plus one. *)
Lemma varint_read_prefix fuel n ds s :
  varint_digits fuel n false = Some ds -> 0 <= n -> n + 1 <= N ->
  varint_read I 0 (rev ds ++ s) = varint_read I (n + 1) s.
Proof using Hconv.
  revert n ds s. induction fuel as [|fuel IH]; [done |]. intros n ds s H Hn HN. cbn [varint_digits] in H.
  destruct (digit_more n) as (E1 & E2 & _). pose proof (shiftr7 n Hn). destruct (Z.leb_spec n 0x7F).
  - injection H as <-. cbn [rev app]. rewrite (varint_read_digit n) by (done || lia). by rewrite E2.
  - apply bind_Some in H as (ds' & H & [= <-]). cbn [rev]. rewrite <- app_assoc. cbn [app].
    rewrite (IH ((n >> 7) - 1) ds') by (done || lia).
    rewrite (varint_read_digit n) by (done || lia). by rewrite E2.
Qed.

Lemma varint_read_digits fuel n ds s :
  varint_digits fuel n true = Some ds -> 0 <= n <= N -> varint_read I 0 (rev ds ++ s) = Some (n, s).
Proof using Hconv.
  intros H Hn. destruct fuel as [|fuel]; [done |]. cbn [varint_digits] in H.
  destruct (digit_last n) as (E1 & E2). pose proof (shiftr7 n). destruct (Z.leb_spec n 0x7F).
  - injection H as <-. cbn [rev app]. rewrite (varint_read_digit n) by (done || lia || (by rewrite E2)). by rewrite E2.
  - apply bind_Some in H as (ds' & H & [= <-]). cbn [rev]. rewrite <- app_assoc. cbn [app].
    rewrite (varint_read_prefix fuel ((n >> 7) - 1) ds') by (done || lia).
    rewrite (varint_read_digit n) by (done || lia || (by rewrite E2)). by rewrite E2.
Qed.

End Read.

(** Enough room in [tmp]; the size is the number of digits. *)
Lemma varint_digits_total fuel n b :
  (0 < fuel)%nat -> n < 2 ^ (7 * Z.of_nat fuel) ->
  exists ds, varint_digits fuel n b = Some ds /\ octets_ok ds /\ forall k, (fuel <= k)%nat -> varint_size k n = len ds.
Proof.
  revert n b. induction fuel as [|fuel IH]; intros n b Hf Hn; [lia |]. cbn [varint_digits].
  assert (Hd : fits 8 ((n & 0x7F) .| (if b then 0x00 else 0x80))).
  { destruct b; [rewrite Z.lor_0_r; pose proof (digit_land n); split; cbn; lia | apply digit_more]. }
  destruct (Z.leb_spec n 0x7F).
  - eexists. split; [done |]. split; [constructor; [done | constructor] |]. intros k Hk. destruct k as [|k]; [lia |].
    cbn [varint_size length]. by rewrite (proj2 (Z.leb_le _ _)).
  - assert (Hb : 0 < (n >> 7) /\ (n >> 7) - 1 < 2 ^ (7 * Z.of_nat fuel)).
    { pose proof (shiftr7 n). replace (7 * Z.of_nat (S fuel)) with (7 + 7 * Z.of_nat fuel) in Hn by lia.
      rewrite Z.pow_add_r in Hn by lia. change (2 ^ 7) with 128 in Hn. lia. }
    destruct fuel as [|fuel]; [cbn in Hb; lia |].
    destruct (IH ((n >> 7) - 1) false) as (ds & -> & Ho & Hs); [lia | lia |]. rewrite obind_Some. eexists. split; [done |].
    split; [by constructor |]. intros k Hk. destruct k as [|k]; [lia |]. cbn [varint_size length].
    rewrite (proj2 (Z.leb_gt _ _)), Hs by lia. lia.
Qed.

(** The types the code instantiates [VARINT] with hold every value up to their maximum. *)
Definition it_max (I : inttype) (N : Z) : Prop :=
  0 < it_bits I /\ N < 2 ^ it_bits I /\ forall x, 0 <= x <= N -> it_conv I x = Some x.

Lemma unsigned_max w : 0 < w -> it_max (unsigned_t w) (2 ^ w - 1).
Proof. intros Hw. split_and!; [done | cbn; lia |]. intros x Hx. cbn. f_equal. apply wrap_id. split; lia. Qed.

Lemma signed_max w : 0 < w -> it_max (signed_t w) (2 ^ (w - 1) - 1).
Proof.
  intros Hw. assert (2 ^ w = 2 * 2 ^ (w - 1)) by (rewrite <- Z.pow_succ_r by lia; f_equal; lia).
  pose proof (pow2_pos (w - 1)). split_and!; [done | cbn; lia |]. intros x Hx. cbn.
  by rewrite (proj2 (Z.leb_le _ _)), (proj2 (Z.ltb_lt _ _)) by lia.
Qed.

Lemma WriteVarInt_total I N n :
  it_max I N -> 0 <= n <= N ->
  exists ds, WriteVarInt I n = Some ds /\ octets_ok ds /\ GetSizeOfVarInt I n = len ds /\
    forall s, ReadVarInt I (ds ++ s) = Some (n, s).
Proof.
  intros (Hb & HN & Hc) Hn. unfold WriteVarInt, GetSizeOfVarInt.
  assert (Hdiv : it_bits I <= 7 * ((it_bits I + 6) / 7)).
  { pose proof (Z.div_mod (it_bits I + 6) 7). pose proof (Z.mod_pos_bound (it_bits I + 6) 7). lia. }
  assert (Hdiv' : 1 <= (it_bits I + 6) / 7 <= it_bits I).
  { pose proof (Z.div_mod (it_bits I + 6) 7). pose proof (Z.mod_pos_bound (it_bits I + 6) 7). lia. }
  destruct (varint_digits_total (Z.to_nat ((it_bits I + 6) / 7)) n true) as (ds & E & Ho & Hs); [lia | |].
  { rewrite Z2Nat.id by lia. eapply Z.lt_le_trans; [| apply Z.pow_le_mono_r; [lia | exact Hdiv]]. lia. }
  rewrite E. eexists. split; [done |]. split_and!.
  - by apply Forall_rev.
  - rewrite length_rev. apply Hs. lia.
  - intros s. unfold ReadVarInt. by apply (varint_read_digits I N Hc _ n ds s E).
Qed.

(** ** Uniqueness *)

(** Reading without overflow. *)
Definition exact_t : inttype := mkInt 64 Some.

Lemma digits_snoc fuel m c b :
  0 <= m -> varint_digits (S fuel) ((m + 1) * 128 + (c & 0x7F)) b =
    (ds ← varint_digits fuel m false; Some ((c & 0x7F) .| (if b then 0x00 else 0x80) :: ds)).
Proof.
  intros Hm. pose proof (digit_land c) as Hd. set (d := c & 0x7F) in *. set (x := (m + 1) * 128 + d).
  assert (E : x & 0x7F = d).
  { unfold x. change 0x7F with (Z.ones 7). rewrite Z.land_ones by lia. change (2 ^ 7) with 128.
    rewrite Z.add_comm, Z.mod_add by lia. by apply Z.mod_small. }
  assert (E' : (x >> 7) - 1 = m).
  { unfold x. rewrite Z.shiftr_div_pow2 by lia. change (2 ^ 7) with 128.
    rewrite Z.add_comm, Z.div_add by lia. rewrite Z.div_small by lia. lia. }
  cbn [varint_digits]. rewrite E, E'. by rewrite (proj2 (Z.leb_gt _ _)) by (unfold x; lia).
Qed.

Lemma varint_read_exact s : forall acc p n s',
  octets_ok s ->
  (acc = 0 /\ p = [] \/ exists m k, acc = m + 1 /\ 0 <= m /\ varint_digits k m false = Some (rev p)) ->
  varint_read exact_t acc s = Some (n, s') ->
  exists ds k, varint_digits k n true = Some (rev ds) /\ p ++ s = ds ++ s'.
Proof.
  induction s as [|c s IH]; intros acc p n s' Hs Hp H; [done |]. apply Forall_cons_iff in Hs as [Hc Hs].
  cbn [varint_read it_conv exact_t] in H. rewrite obind_Some in H. pose proof (digit_land c) as Hd.
  assert (Hacc : 0 <= acc) by (destruct Hp as [[-> _]|(m & k & -> & ? & _)]; lia).
  rewrite lor_shift_add in H by (lia || exact Hd). change (2 ^ 7) with 128 in H.
  assert (Hdig : forall b, exists k, varint_digits k (acc * 128 + (c & 0x7F)) b =
    Some ((c & 0x7F) .| (if b then 0x00 else 0x80) :: rev p)).
  { intros b. destruct Hp as [[-> ->]|(m & k & -> & Hm & Ek)].
    - exists 1%nat. cbn [varint_digits]. rewrite Z.mul_0_l, Z.add_0_l, (proj2 (Z.leb_le _ _)) by lia.
      cbn [rev]. do 3 f_equal. apply Z.eqb_eq, (octet_all (fun c => (c & 0x7F) & 0x7F =? c & 0x7F)); [by vm_compute | done].
    - exists (S k). by rewrite digits_snoc, Ek, obind_Some. }
  destruct (c & 0x80 =? 0) eqn:Ec; cbn [negb] in H.
  - injection H as <- <-. destruct (Hdig true) as (k & Ek). exists (p ++ [c]), k. rewrite rev_app_distr. cbn [rev app].
    split; [| by rewrite <- app_assoc]. rewrite Ek. do 2 f_equal. rewrite Z.lor_0_r, land_0x7f by done.
    rewrite land_0x80 in Ec by done. by rewrite Ec.
  - rewrite obind_Some in H. destruct (Hdig false) as (k & Ek).
    apply (IH _ (p ++ [c])) in H as (ds & k' & E1 & E2); [| done |].
    + exists ds, k'. split; [done |]. by rewrite <- app_assoc in E2.
    + right. exists (acc * 128 + (c & 0x7F)), k. split_and!; [done | lia |]. rewrite rev_app_distr. cbn [rev app].
      rewrite Ek. do 2 f_equal. rewrite land_0x80 in Ec by done. rewrite land_0x7f, Ec by done. apply Z.ltb_ge in Ec.
      destruct Hc as [? ?]. change (2 ^ 8) with 256 in *. rewrite lor_0x80 by (lia || split; cbn; lia). lia.
Qed.
