(* ===== verification/Transaction.v ===== *)
(** * Transactions: primitives/transaction.h and transaction.cpp, amount.h and amount.cpp

    The classes of a transaction, their serialization and the queries on them.  A [uint256]
    is the list of its 32 octets.  [CTransaction] and [CMutableTransaction] have the same
    fields; the cached [hash] of the former is what [GetHash] computes. *)

From S2P Require Import Prelude MdHash Hash Script Serialize.
#[local] Open Scope Z_scope.

(** ** Amounts *)

Definition COIN : Z := 100000000.
Definition MAX_MONEY : Z := 9999999 * COIN.
Definition MoneyRange (nValue : Z) : bool := (0 <=? nValue) && (nValue <=? MAX_MONEY).

(** [CFeeRate(nFeePaid, nBytes)]: satoshis per thousand octets; division truncates. *)
Definition CFeeRate (nFeePaid nBytes : Z) : outcome Z :=
  if int64_max <? nBytes then Stuck
  else if 0 <? nBytes then let* p := int64 (nFeePaid * 1000) in Ret (Z.quot p nBytes) else Ret 0.

Definition GetFee (nSatoshisPerK nBytes : Z) : outcome Z :=
  if int64_max <? nBytes then Stuck
  else
    let* p := int64 (nSatoshisPerK * nBytes) in
    let nFee := Z.quot p 1000 in
    Ret (if (nFee =? 0) && negb (nBytes =? 0) then
           if 0 <? nSatoshisPerK then 1 else if nSatoshisPerK <? 0 then -1 else nFee
         else nFee).

(** ** The classes *)

Definition SERIALIZE_TRANSACTION_NO_WITNESS : Z := 0x40000000.
Definition WITNESS_SCALE_FACTOR : Z := 1.
Definition SEQUENCE_FINAL : Z := 0xffffffff.
Definition SEQUENCE_LOCKTIME_TYPE_FLAG : Z := 1 << 22.
Definition SEQUENCE_LOCKTIME_MASK : Z := 0x0000ffff.

Record COutPoint := mkOut { out_hash : list Z; out_n : Z }.

Record CTxIn := mkTxIn { prevout : COutPoint; scriptSig : list Z; nSequence : Z; prevPubKey : list Z }.

Record CTxOut := mkTxOut { nValue : Z; scriptPubKey : list Z; nRounds : Z }.

(** [CTxInWitness]: the stack of a [CScriptWitness], in the order of the vector. *)
Abbreviation CTxInWitness := (list (list Z)).

Record CTransaction := mkTx {
  tx_nVersion : Z;
  vin : list CTxIn;
  vout : list CTxOut;
  vtxinwit : list CTxInWitness;
  nLockTime : Z;
}.

#[export] Instance COutPoint_eq_dec : EqDecision COutPoint.
Proof. solve_decision. Defined.
#[export] Instance CTxOut_eq_dec : EqDecision CTxOut.
Proof. solve_decision. Defined.

Definition uint256_IsNull (h : list Z) : bool := forallb (Z.eqb 0) h.
Definition uint256_null : list Z := replicate 32 0.

Definition COutPoint_null : COutPoint := mkOut uint256_null 0xffffffff.
Definition COutPoint_IsNull (o : COutPoint) : bool := uint256_IsNull (out_hash o) && (out_n o =? 0xffffffff).
Definition IsSigmaMintGroup (o : COutPoint) : bool := uint256_IsNull (out_hash o) && (1 <=? out_n o).

(** [CTxOut()], that is [SetNull]. *)
Definition CTxOut_null : CTxOut := mkTxOut (-1) [] (-10).
Definition CTxOut_IsNull (o : CTxOut) : bool := nValue o =? -1.

(** ** Serialization

    The sizes in memory only set how many elements a vector grows by while it is read. *)

Class Abi := { sizeof_CTxIn : Z; sizeof_CTxOut : Z; sizeof_valtype : Z }.

Definition COutPoint_ser : serializable COutPoint := mkSer
  (fun o => Serialize uint256 (out_hash o) ++ Serialize uint32 (out_n o))
  (fun s =>
    '(hash, s) ← Unserialize uint256 s;
    '(n, s) ← Unserialize uint32 s;
    Some (mkOut hash n, s)).

(** A new [CTxIn] is read into: [prevPubKey] is empty. *)
Definition CTxIn_ser : serializable CTxIn := mkSer
  (fun i => Serialize COutPoint_ser (prevout i) ++ Serialize byte_vector (scriptSig i) ++
    Serialize uint32 (nSequence i))
  (fun s =>
    '(prevout, s) ← Unserialize COutPoint_ser s;
    '(scriptSig, s) ← Unserialize byte_vector s;
    '(nSequence, s) ← Unserialize uint32 s;
    Some (mkTxIn prevout scriptSig nSequence [], s)).

Definition CTxOut_ser : serializable CTxOut := mkSer
  (fun o => Serialize sint64 (nValue o) ++ Serialize byte_vector (scriptPubKey o))
  (fun s =>
    '(nValue, s) ← Unserialize sint64 s;
    '(scriptPubKey, s) ← Unserialize byte_vector s;
    Some (mkTxOut nValue scriptPubKey (-10), s)).

Section Serialization.
Context `{Abi}.

Definition CTxInWitness_ser : serializable CTxInWitness := vector sizeof_valtype byte_vector.
Definition vin_ser : serializable (list CTxIn) := vector sizeof_CTxIn CTxIn_ser.
Definition vout_ser : serializable (list CTxOut) := vector sizeof_CTxOut CTxOut_ser.

(** [CTxInWitness::IsNull] and [CTxWitness::IsNull]. *)
Definition CTxInWitness_IsNull (w : CTxInWitness) : bool := len w =? 0.
Definition CTxWitness_IsNull (wit : list CTxInWitness) : bool := forallb CTxInWitness_IsNull wit.

(** [CTxWitness::SerializationOp]: a superfluous record throws. *)
Definition CTxWitness_write (wit : list CTxInWitness) : option (list Z) :=
  if CTxWitness_IsNull wit then None else Some (concat (Serialize CTxInWitness_ser <$> wit)).
Definition CTxWitness_read (n : nat) : reader (list CTxInWitness) := fun s =>
  '(wit, s) ← read_n (Unserialize CTxInWitness_ser) n s;
  if CTxWitness_IsNull wit then None else Some (wit, s).

(** [vtxinwit.resize(n)]. *)
Definition wit_resize (n : nat) (wit : list CTxInWitness) : list CTxInWitness :=
  take n wit ++ replicate (n - length wit) [].

Definition no_witness (nVersion : Z) : bool := negb (nVersion & SERIALIZE_TRANSACTION_NO_WITNESS =? 0).

(** Writing: the octets, and the transaction, whose witness vector has been resized when it
    is written.  [None]: the assertion fails. *)
Definition SerializeTransaction (nVersion : Z) (tx : CTransaction) : option (list Z * CTransaction) :=
  if len (vin tx) <? len (vtxinwit tx) then None
  else
    let flags := if negb (no_witness nVersion) && negb (CTxWitness_IsNull (vtxinwit tx)) then 1 else 0 in
    let ext := if negb (flags =? 0) then Serialize vin_ser [] ++ Serialize uint8 flags else [] in
    let wit := if negb (flags & 1 =? 0) then wit_resize (length (vin tx)) (vtxinwit tx) else vtxinwit tx in
    w ← (if negb (flags & 1 =? 0) then CTxWitness_write wit else Some []);
    Some (Serialize int32 (tx_nVersion tx) ++ ext ++ Serialize vin_ser (vin tx) ++
          Serialize vout_ser (vout tx) ++ w ++ Serialize uint32 (nLockTime tx),
          mkTx (tx_nVersion tx) (vin tx) (vout tx) wit (nLockTime tx)).

Definition UnserializeTransaction (nVersion : Z) : reader CTransaction := fun s =>
  '(ver, s) ← Unserialize int32 s;
  '(vin, s) ← Unserialize vin_ser s;
  '(flags, vin, vout, s) ←
    (if (len vin =? 0) && negb (no_witness nVersion) then
       '(flags, s) ← Unserialize uint8 s;
       if negb (flags =? 0) then
         '(vin, s) ← Unserialize vin_ser s;
         '(vout, s) ← Unserialize vout_ser s;
         Some (flags, vin, vout, s)
       else Some (flags, vin, [], s)
     else '(vout, s) ← Unserialize vout_ser s; Some (0, vin, vout, s));
  '(flags, wit, s) ←
    (if negb (flags & 1 =? 0) && negb (no_witness nVersion) then
       '(wit, s) ← CTxWitness_read (length vin) s; Some (flags ^^ 1, wit, s)
     else Some (flags, [], s));
  if negb (flags =? 0) then None
  else
    '(lock, s) ← Unserialize uint32 s;
    Some (mkTx ver vin vout wit lock, s).

(** ** Hashes and sizes *)

(** [SerializeHash(tx, SER_GETHASH, nVersion)]. *)
Definition tx_SerializeHash (g : list Z) (nVersion : Z) (tx : CTransaction) : option (list Z) :=
  '(b, _) ← SerializeTransaction nVersion tx; Hash g [b].

Definition GetHash (g : list Z) : CTransaction -> option (list Z) :=
  tx_SerializeHash g SERIALIZE_TRANSACTION_NO_WITNESS.
Definition GetWitnessHash (g : list Z) : CTransaction -> option (list Z) := tx_SerializeHash g 0.

(** [::GetSerializeSize]: what a [CSizeComputer] counts. *)
Definition tx_GetSerializeSize (nVersion : Z) (tx : CTransaction) : option Z :=
  '(b, _) ← SerializeTransaction nVersion tx; Some (u64 (len b)).

Definition PROTOCOL_VERSION : Z := 99029.

Definition GetTransactionWeight (tx : CTransaction) : option Z :=
  a ← tx_GetSerializeSize (PROTOCOL_VERSION .| SERIALIZE_TRANSACTION_NO_WITNESS) tx;
  b ← tx_GetSerializeSize PROTOCOL_VERSION tx;
  Some (to_signed 64 (u64 (a * (WITNESS_SCALE_FACTOR - 1) + b))).

(** [nTxSize] of 0 asks for the weight. *)
Definition CalculateModifiedSize (nTxSize : Z) (tx : CTransaction) : option Z :=
  nTxSize ← (if nTxSize =? 0
             then w ← GetTransactionWeight tx; Some (u32 (Z.quot (w + WITNESS_SCALE_FACTOR - 1) WITNESS_SCALE_FACTOR))
             else Some nTxSize);
  Some (foldl (fun n i => let offset := 41 + Z.min 110 (len (scriptSig i)) in if offset <? n then n - offset else n)
    nTxSize (vin tx)).

Definition nMinTxFee : Z := 1000000.
Definition DEFAULT_BLOCK_PRIORITY_SIZE : Z := 50000.
Definition DUST_SOFT_LIMIT : Z := 100000.
Definition MAX_BLOCK_SIZE : Z := 2000000.
Definition MAX_BLOCK_SIZE_GEN : Z := MAX_BLOCK_SIZE / 4.

Inductive GetMinFee_mode := GMF_BLOCK | GMF_RELAY | GMF_SEND.

#[global] Instance GetMinFee_mode_eq_dec : EqDecision GetMinFee_mode.
Proof using. solve_decision. Defined.

Definition GetMinFee (nBlockSize : Z) (fAllowFree : bool) (mode : GetMinFee_mode) (tx : CTransaction)
    : outcome Z :=
  let* nBytes := must (tx_GetSerializeSize PROTOCOL_VERSION tx) in
  let nBytes := u32 nBytes in
  let nNewBlockSize := u32 (nBlockSize + nBytes) in
  let* nMinFee := int64 ((1 + nBytes / 1000) * nMinTxFee) in
  let nMinFee :=
    if fAllowFree &&
       (nBytes <? (if decide (mode = GMF_SEND) then 5000 else DEFAULT_BLOCK_PRIORITY_SIZE - 1000))
    then 0 else nMinFee in
  let* nMinFee := foldl (fun m o => let* fee := m in
      if nValue o <? DUST_SOFT_LIMIT then int64 (fee + nMinTxFee) else Ret fee) (Ret nMinFee) (vout tx) in
  if negb (nBlockSize =? 1) && (MAX_BLOCK_SIZE_GEN / 2 <=? nNewBlockSize) && (MAX_BLOCK_SIZE_GEN <=? nNewBlockSize)
  then Ret MAX_MONEY
  else
    let* nMinFee :=
      (if negb (nBlockSize =? 1) && (MAX_BLOCK_SIZE_GEN / 2 <=? nNewBlockSize)
       then int64 (nMinFee * (MAX_BLOCK_SIZE_GEN / (MAX_BLOCK_SIZE_GEN - nNewBlockSize)))
       else Ret nMinFee) in
    Ret (if negb (MoneyRange nMinFee) then MAX_MONEY else nMinFee).

End Serialization.

(** ** Queries *)

Definition txin_IsZerocoinSpend (i : CTxIn) : bool :=
  COutPoint_IsNull (prevout i) && first_is OP_ZEROCOINSPEND (scriptSig i).
Definition txin_IsSigmaSpend (i : CTxIn) : bool :=
  IsSigmaMintGroup (prevout i) && first_is OP_SIGMASPEND (scriptSig i).
Definition txin_IsZerocoinRemint (i : CTxIn) : bool :=
  COutPoint_IsNull (prevout i) && first_is OP_ZEROCOINTOSIGMAREMINT (scriptSig i).

Definition IsCoinBase (tx : CTransaction) : bool :=
  match vin tx with
  | [i] => COutPoint_IsNull (prevout i) && ((len (scriptSig i) =? 0) ||
      (negb (oct (scriptSig i) 0 =? OP_ZEROCOINSPEND) && negb (oct (scriptSig i) 0 =? OP_ZEROCOINTOSIGMAREMINT)))
  | _ => false
  end.

Definition IsZerocoinSpend (tx : CTransaction) : bool := existsb txin_IsZerocoinSpend (vin tx).
Definition IsSigmaSpend (tx : CTransaction) : bool := existsb txin_IsSigmaSpend (vin tx).
Definition IsZerocoinRemint (tx : CTransaction) : bool := existsb txin_IsZerocoinRemint (vin tx).
Definition tx_IsZerocoinMint (tx : CTransaction) : bool :=
  existsb (fun o => IsZerocoinMint (scriptPubKey o)) (vout tx).
Definition tx_IsSigmaMint (tx : CTransaction) : bool :=
  if IsZerocoinRemint tx then false else existsb (fun o => IsSigmaMint (scriptPubKey o)) (vout tx).
Definition IsZerocoinTransaction (tx : CTransaction) : bool := IsZerocoinSpend tx || tx_IsZerocoinMint tx.
Definition IsZerocoinV3SigmaTransaction (tx : CTransaction) : bool :=
  IsSigmaSpend tx || tx_IsSigmaMint tx || IsZerocoinRemint tx.

(** [GetValueOut]: [Ret None] when it throws [std::runtime_error]; the addition comes
    before the range checks. *)
Fixpoint value_out (outs : list CTxOut) (nValueOut : Z) : outcome (option Z) :=
  match outs with
  | [] => Ret (Some nValueOut)
  | o :: outs =>
      let* nValueOut := int64 (nValueOut + nValue o) in
      if negb (MoneyRange (nValue o)) || negb (MoneyRange nValueOut) then Ret None else value_out outs nValueOut
  end.
Definition GetValueOut (tx : CTransaction) : outcome (option Z) := value_out (vout tx) 0.

(** [IsFinalTx] of main.cpp. *)
Definition IsFinalTx (tx : CTransaction) (nBlockHeight nBlockTime : Z) : bool :=
  if nLockTime tx =? 0 then true
  else if nLockTime tx <? (if nLockTime tx <? LOCKTIME_THRESHOLD then nBlockHeight else nBlockTime) then true
  else forallb (fun i => nSequence i =? SEQUENCE_FINAL) (vin tx).
