(* ===== verification/TransactionTheorems.v ===== *)
(** * Transactions: round trip and canonicity of their serialization, and the theorems *)

From S2P Require Import Prelude MdHash Hash Script Serialize Transaction.
#[local] Open Scope Z_scope.

(** ** Well-formed transactions: every field in the range of its type *)

Definition COutPoint_wf (o : COutPoint) : Prop := hash_wf (out_hash o) /\ fits 32 (out_n o).
Definition CTxIn_wf (i : CTxIn) : Prop :=
  COutPoint_wf (prevout i) /\ bytes_wf (scriptSig i) /\ fits 32 (nSequence i) /\ prevPubKey i = [].
Definition CTxOut_wf (o : CTxOut) : Prop :=
  signed_fits 64 (nValue o) /\ bytes_wf (scriptPubKey o) /\ nRounds o = -10.
Definition CTxInWitness_wf : CTxInWitness -> Prop := vector_wf bytes_wf.

Record tx_wf (tx : CTransaction) : Prop := {
  wf_version : signed_fits 32 (tx_nVersion tx);
  wf_vin : vector_wf CTxIn_wf (vin tx);
  wf_vout : vector_wf CTxOut_wf (vout tx);
  wf_wit : Forall CTxInWitness_wf (vtxinwit tx);
  wf_lock : fits 32 (nLockTime tx);
}.

(** The sizes in memory are smaller than a batch. *)
Class AbiOk (A : Abi) : Prop := {
  sizeof_CTxIn_ok : sizeof_ok sizeof_CTxIn;
  sizeof_CTxOut_ok : sizeof_ok sizeof_CTxOut;
  sizeof_valtype_ok : sizeof_ok sizeof_valtype;
}.

(** Read one field, in a proof and in a hypothesis. *)
Ltac ser_get c := rewrite <- ?app_assoc, ?app_nil_l; rewrite (ser_unser (c := c)) by done; rewrite obind_Some.
Ltac ser_ungot c H x s E :=
  apply bind_Some in H as ([x s] & [E ->]%(unser_ser (c := c)) & H); [| by eauto using Forall_app_2].

(** [injection] would unfold what is written. *)
Lemma Some_pair_inj {A B} (a a' : A) (b b' : B) : Some (a, b) = Some (a', b') -> a = a' /\ b = b'.
Proof. by intros [= -> ->]. Qed.

#[export] Instance COutPoint_ok : SerOk COutPoint_ser COutPoint_wf.
Proof.
  split; cbn [Serialize Unserialize COutPoint_ser].
  - intros o [Hh Hn]. apply Forall_app_2; [by apply (ser_octets (c := uint256)) | by apply (ser_octets (c := uint32))].
  - intros [h n] s [Hh Hn]. cbn [out_hash out_n] in *. ser_get uint256. by ser_get uint32.
  - intros s [h n] s' Hs H. ser_ungot uint256 H h' s1 Eh. apply Forall_app in Hs as [_ Hs].
    ser_ungot uint32 H n' s2 En. injection H as <- <- <-. split; [done |]. cbn [out_hash out_n]. by rewrite <- app_assoc.
Qed.

#[export] Instance CTxIn_ok : SerOk CTxIn_ser CTxIn_wf.
Proof.
  split; cbn [Serialize Unserialize CTxIn_ser].
  - intros i (Ho & Hs & Hn & _). apply Forall_app_2; [by apply (ser_octets (c := COutPoint_ser)) |].
    apply Forall_app_2; [by apply (ser_octets (c := byte_vector)) | by apply (ser_octets (c := uint32))].
  - intros [o sc n p] s (Ho & Hs & Hn & Hp). cbn [prevout scriptSig nSequence prevPubKey] in *. subst p.
    ser_get COutPoint_ser. ser_get byte_vector. by ser_get uint32.
  - intros s [o sc n p] s' Hs H. ser_ungot COutPoint_ser H o' s1 Eo. apply Forall_app in Hs as [_ Hs].
    ser_ungot byte_vector H sc' s2 Es. apply Forall_app in Hs as [_ Hs].
    ser_ungot uint32 H n' s3 En. injection H as <- <- <- <- <-. split; [done |]. cbn [prevout scriptSig nSequence].
    by rewrite <- !app_assoc.
Qed.

#[export] Instance CTxOut_ok : SerOk CTxOut_ser CTxOut_wf.
Proof.
  split; cbn [Serialize Unserialize CTxOut_ser].
  - intros o (Hv & Hs & _). apply Forall_app_2; [by apply (ser_octets (c := sint64)) | by apply (ser_octets (c := byte_vector))].
  - intros [v sc r] s (Hv & Hs & Hr). cbn [nValue scriptPubKey nRounds] in *. subst r. ser_get sint64. by ser_get byte_vector.
  - intros s [v sc r] s' Hs H. ser_ungot sint64 H v' s1 Ev. apply Forall_app in Hs as [_ Hs].
    ser_ungot byte_vector H sc' s2 Es. injection H as <- <- <- <-. split; [done |]. cbn [nValue scriptPubKey].
    by rewrite <- !app_assoc.
Qed.

Section Tx.
Context {A : Abi} {HA : AbiOk A}.

#[export] Instance vin_ok : SerOk vin_ser (vector_wf CTxIn_wf).
Proof using All. apply vector_ok; [apply _ | apply sizeof_CTxIn_ok]. Qed.
#[export] Instance vout_ok : SerOk vout_ser (vector_wf CTxOut_wf).
Proof using All. apply vector_ok; [apply _ | apply sizeof_CTxOut_ok]. Qed.
#[export] Instance CTxInWitness_ok : SerOk CTxInWitness_ser CTxInWitness_wf.
Proof using All. apply vector_ok; [apply _ | apply sizeof_valtype_ok]. Qed.

(** ** Witnesses *)

Lemma wit_resize_length n wit : (length wit <= n)%nat -> length (wit_resize n wit) = n.
Proof using. intros. unfold wit_resize. rewrite length_app, length_take, length_replicate. lia. Qed.

Lemma wit_resize_IsNull n wit : (length wit <= n)%nat -> CTxWitness_IsNull (wit_resize n wit) = CTxWitness_IsNull wit.
Proof using.
  intros Hl. unfold wit_resize, CTxWitness_IsNull. rewrite take_ge by done. rewrite forallb_app.
  replace (forallb CTxInWitness_IsNull (replicate _ [])) with true; [apply andb_true_r |].
  symmetry. apply forallb_forall. intros x ->%list_elem_of_In%elem_of_replicate_inv. done.
Qed.

Lemma wit_resize_wf n wit : Forall CTxInWitness_wf wit -> Forall CTxInWitness_wf (wit_resize n wit).
Proof using.
  intros. apply Forall_app_2; [by apply Forall_take |]. apply Forall_replicate. split; [done | constructor].
Qed.

Lemma CTxWitness_read_write n wit w s :
  Forall CTxInWitness_wf wit -> length wit = n -> CTxWitness_write wit = Some w ->
  CTxWitness_read n (w ++ s) = Some (wit, s) /\ octets_ok w.
Proof using All.
  unfold CTxWitness_write, CTxWitness_read. intros Hw <- H0. destruct (CTxWitness_IsNull wit) eqn:E; [done |].
  injection H0 as <-. rewrite (read_n_ok CTxInWitness_ser CTxInWitness_wf), obind_Some by done. rewrite E.
  split; [done |]. by apply (concat_octets CTxInWitness_ser CTxInWitness_wf).
Qed.

Lemma CTxWitness_read_inv n wit s s' :
  octets_ok s -> CTxWitness_read n s = Some (wit, s') ->
  Forall CTxInWitness_wf wit /\ length wit = n /\ CTxWitness_IsNull wit = false /\
  exists w, CTxWitness_write wit = Some w /\ s = w ++ s'.
Proof using All.
  unfold CTxWitness_write, CTxWitness_read. intros Hs H0.
  apply bind_Some in H0 as ([wit' s1] & (Hw & Hl & ->)%(read_n_inv CTxInWitness_ser CTxInWitness_wf) & H1); [| done].
  destruct (CTxWitness_IsNull wit') eqn:E; [done |]. injection H1 as <- <-. rewrite E. eauto 10.
Qed.

(** ** Transactions *)

(** What a round trip leaves of the witnesses: none, or one for each input. *)
Definition norm_wit (nVersion : Z) (tx : CTransaction) : list CTxInWitness :=
  if negb (no_witness nVersion) && negb (CTxWitness_IsNull (vtxinwit tx))
  then wit_resize (length (vin tx)) (vtxinwit tx) else [].

(** The formats that can be told apart: with witnesses enabled a transaction without inputs
    must have no outputs. *)
Definition readable (nVersion : Z) (tx : CTransaction) : Prop :=
  vin tx <> [] \/ vout tx = [] \/ no_witness nVersion = true.

Lemma vin_ser_nil : Serialize vin_ser [] = Serialize uint8 0.
Proof using. done. Qed.

(** The octets of a transaction. *)
Lemma SerializeTransaction_octets nVersion tx b tx' :
  tx_wf tx -> SerializeTransaction nVersion tx = Some (b, tx') -> octets_ok b.
Proof using All.
  intros [Hver Hin Hout Hwit Hlock]. unfold SerializeTransaction. destruct (Z.ltb_spec (len (vin tx)) (len (vtxinwit tx))); [done |].
  set (f := _ && _). set (wit := if negb ((if f then 1 else 0) & 1 =? 0) then _ else _). intros H0.
  apply bind_Some in H0 as (w & Ew & [<- <-]%Some_pair_inj).
  assert (Hw : octets_ok w).
  { destruct f; [| by injection Ew as <-]. subst wit. cbn in Ew.
    eapply (CTxWitness_read_write _ _ _ []); [| done | exact Ew]. by apply wit_resize_wf. }
  apply octets_ok_app; [by apply (ser_octets (c := int32)) |]. apply octets_ok_app.
  { destruct f; [| constructor]. apply octets_ok_app; [| by apply (ser_octets (c := uint8))].
    apply (ser_octets (c := vin_ser)). split; [done | constructor]. }
  apply octets_ok_app; [by apply (ser_octets (c := vin_ser)) |].
  apply octets_ok_app; [by apply (ser_octets (c := vout_ser)) |].
  apply octets_ok_app; [done | by apply (ser_octets (c := uint32))].
Qed.

(** What is written is read back. *)
Lemma Unserialize_SerializeTransaction nVersion tx b tx' s :
  tx_wf tx -> readable nVersion tx -> SerializeTransaction nVersion tx = Some (b, tx') ->
  UnserializeTransaction nVersion (b ++ s) =
    Some (mkTx (tx_nVersion tx) (vin tx) (vout tx) (norm_wit nVersion tx) (nLockTime tx), s).
Proof using All.
  intros [Hver Hin Hout Hwit Hlock] Hr. unfold SerializeTransaction, UnserializeTransaction, norm_wit.
  destruct (Z.ltb_spec (len (vin tx)) (len (vtxinwit tx))) as [|Hlen]; [done |].
  destruct (negb (no_witness nVersion) && negb (CTxWitness_IsNull (vtxinwit tx))) eqn:Ef.
  - apply andb_true_iff in Ef as [Enw Ewn]. change (negb (1 =? 0)) with true. change (negb (1 & 1 =? 0)) with true. cbn iota.
    intros H0. apply bind_Some in H0 as (w & Ew & [<- <-]%Some_pair_inj).
    apply (CTxWitness_read_write (length (vin tx)) _ _ (Serialize uint32 (nLockTime tx) ++ s)) in Ew as [Ew _];
      [| by apply wit_resize_wf | apply wit_resize_length; lia].
    ser_get int32. rewrite (ser_unser (c := vin_ser) []) by (split; [done | constructor]). rewrite obind_Some, Enw.
    change (Z.of_nat (length (@nil CTxIn)) =? 0) with true. cbn [andb]. ser_get uint8. change (negb (1 =? 0)) with true. cbn iota.
    ser_get vin_ser. ser_get vout_ser. rewrite obind_Some. change (negb (1 & 1 =? 0)) with true. cbn [andb].
    rewrite Ew, !obind_Some. change (negb (1 ^^ 1 =? 0)) with false. cbn iota. by ser_get uint32.
  - change (negb (0 =? 0)) with false. change (negb (0 & 1 =? 0)) with false. cbn iota. rewrite obind_Some.
    intros [<- <-]%Some_pair_inj. rewrite app_nil_l. ser_get int32. ser_get vin_ser.
    destruct (decide (vin tx = [])) as [Ev|Ev].
    + rewrite Ev. change (Z.of_nat (length (@nil CTxIn)) =? 0) with true. cbn [andb].
      destruct (negb (no_witness nVersion)) eqn:Enw.
      * destruct Hr as [?|[Eo|Hr]]; [done | | by rewrite Hr in Enw]. rewrite Eo.
        change (Serialize vout_ser []) with (Serialize uint8 0). ser_get uint8. cbn [negb Z.eqb]. rewrite obind_Some.
        change (negb (0 & 1 =? 0)) with false. cbn [andb negb Z.eqb]. rewrite obind_Some. cbn [Z.eqb negb]. by ser_get uint32.
      * ser_get vout_ser. rewrite !obind_Some. change (negb (0 & 1 =? 0)) with false. cbn [andb]. rewrite obind_Some.
        cbn [Z.eqb negb]. by ser_get uint32.
    + rewrite (proj2 (Z.eqb_neq (len (vin tx)) 0)) by (destruct (vin tx); [done | simpl; lia]). cbn [andb].
      ser_get vout_ser. rewrite !obind_Some. change (negb (0 & 1 =? 0)) with false. cbn [andb]. rewrite obind_Some.
      cbn [Z.eqb negb]. by ser_get uint32.
Qed.

Lemma wit_resize_id wit : wit_resize (length wit) wit = wit.
Proof using. unfold wit_resize. rewrite take_ge by done. by rewrite Nat.sub_diag, app_nil_r. Qed.

(** The two formats. *)
Lemma SerializeTransaction_basic nVersion ver vi vo lock :
  SerializeTransaction nVersion (mkTx ver vi vo [] lock) =
    Some (Serialize int32 ver ++ Serialize vin_ser vi ++ Serialize vout_ser vo ++ Serialize uint32 lock,
          mkTx ver vi vo [] lock).
Proof using.
  unfold SerializeTransaction. cbn [vin vout vtxinwit tx_nVersion nLockTime].
  rewrite (proj2 (Z.ltb_ge _ _)) by (cbn [length]; lia). cbn [CTxWitness_IsNull forallb negb]. rewrite andb_false_r.
  change (negb (0 =? 0)) with false. change (negb (0 & 1 =? 0)) with false. cbn iota. by rewrite obind_Some.
Qed.

Lemma SerializeTransaction_extended nVersion ver vi vo wit w lock :
  no_witness nVersion = false -> length wit = length vi -> CTxWitness_IsNull wit = false ->
  CTxWitness_write wit = Some w ->
  SerializeTransaction nVersion (mkTx ver vi vo wit lock) =
    Some (Serialize int32 ver ++ (Serialize vin_ser [] ++ Serialize uint8 1) ++ Serialize vin_ser vi ++
          Serialize vout_ser vo ++ w ++ Serialize uint32 lock, mkTx ver vi vo wit lock).
Proof using.
  intros Hn Hl Hw Ew. unfold SerializeTransaction. cbn [vin vout vtxinwit tx_nVersion nLockTime].
  rewrite (proj2 (Z.ltb_ge _ _)), Hn, Hw by lia. cbn [negb andb].
  change (negb (1 =? 0)) with true. change (negb (1 & 1 =? 0)) with true. cbn iota.
  rewrite <- Hl, wit_resize_id, Ew. by rewrite obind_Some.
Qed.

(** Only what is written is accepted. *)
Lemma SerializeTransaction_Unserialize nVersion s tx s' :
  octets_ok s -> UnserializeTransaction nVersion s = Some (tx, s') ->
  tx_wf tx /\ exists b, SerializeTransaction nVersion tx = Some (b, tx) /\ s = b ++ s'.
Proof using All.
  intros Hs HU. unfold UnserializeTransaction in HU. ser_ungot int32 HU ver s1 Hver. apply Forall_app in Hs as [_ Hs].
  ser_ungot vin_ser HU vi s2 Hvi. apply Forall_app in Hs as [_ Hs].
  destruct ((len vi =? 0) && negb (no_witness nVersion)) eqn:E0.
  - apply andb_true_iff in E0 as [->%Z.eqb_eq%(Nat2Z.inj _ 0)%nil_length_inv Enw%negb_true_iff]. rewrite Enw in HU.
    apply bind_Some in HU as ([[[f vi2] vo] s3] & HF & HU).
    ser_ungot uint8 HF f' s4 Hf. apply Forall_app in Hs as [_ Hs]. destruct (Z.eqb_spec f' 0) as [->|Hne]; cbn [negb] in HF.
    + injection HF as <- <- <- <-. change (negb (0 & 1 =? 0)) with false in HU. cbn [andb] in HU. rewrite obind_Some in HU. cbn [Z.eqb negb] in HU.
      ser_ungot uint32 HU lock s5 Hlock. injection HU as <- <-. split.
      { by split; [| | split; [done | constructor] | constructor |]. }
      rewrite SerializeTransaction_basic. eexists. split; [done |]. by rewrite <- !app_assoc.
    + ser_ungot vin_ser HF vi3 s5 Hvi3. apply Forall_app in Hs as [_ Hs]. ser_ungot vout_ser HF vo3 s6 Hvo3.
      apply Forall_app in Hs as [_ Hs]. injection HF as <- <- <- <-.
      apply bind_Some in HU as ([[f2 wit] s7] & HF & HU). destruct (Z.eqb_spec f2 0) as [->|]; [| done]. cbn [negb] in HU.
      destruct (negb (f' & 1 =? 0)); cbn [andb negb] in HF; [| by injection HF as ? _ _].
      apply bind_Some in HF as ([wit' s8] & (Hw & Hl & Hn & w & Ew & ->)%CTxWitness_read_inv & HF); [| done].
      injection HF as Ef <- <-. apply Z.lxor_eq in Ef as ->. apply Forall_app in Hs as [_ Hs].
      ser_ungot uint32 HU lock s9 Hlock. injection HU as <- <-. split; [done |].
      rewrite (SerializeTransaction_extended _ _ _ _ _ w) by done. eexists. split; [done |]. by rewrite <- !app_assoc.
  - apply bind_Some in HU as ([[[f vi2] vo] s3] & HF & HU). ser_ungot vout_ser HF vo' s4 Hvo.
    apply Forall_app in Hs as [_ Hs]. injection HF as <- <- <- <-. change (negb (0 & 1 =? 0)) with false in HU. cbn [andb] in HU. rewrite obind_Some in HU.
    cbn [Z.eqb negb] in HU. ser_ungot uint32 HU lock s5 Hlock. injection HU as <- <-. split; [by split; [| | | constructor |] |].
    rewrite SerializeTransaction_basic. eexists. split; [done |]. by rewrite <- !app_assoc.
Qed.

End Tx.

(** * Serialization and transactions: theorems *)

#[local] Open Scope Z_scope.

(** ** Variable-length integers *)

(** variable-length integers.  Every value of an unsigned type, and every value that is
    not negative of a signed one, is written in as many octets as [GetSizeOfVarInt] says,
    inside the buffer, and read back. *)
Theorem varint_roundtrip (signed : bool) w n :
  0 < w -> 0 <= n < (if signed then 2 ^ (w - 1) else 2 ^ w) ->
  let I := if signed then signed_t w else unsigned_t w in
  exists ds, WriteVarInt I n = Some ds /\ GetSizeOfVarInt I n = len ds /\
    forall s, ReadVarInt I (ds ++ s) = Some (n, s).
Proof.
  intros Hw Hn. cbv zeta.
  destruct (WriteVarInt_total (if signed then signed_t w else unsigned_t w)
    (if signed then 2 ^ (w - 1) - 1 else 2 ^ w - 1) n) as (ds & ? & _ & ? & ?); [| | by exists ds].
  - destruct signed; [by apply signed_max | by apply unsigned_max].
  - destruct signed; lia.
Qed.

Lemma varint_roundtrip_witness :
  exists ds, WriteVarInt (unsigned_t 64) 16511 = Some ds /\ GetSizeOfVarInt (unsigned_t 64) 16511 = len ds /\
    forall s, ReadVarInt (unsigned_t 64) (ds ++ s) = Some (16511, s).
Proof. by apply (varint_roundtrip false 64 16511). Defined.

(** no redundancy.  As long as the accumulator does not overflow, any octets
    [ReadVarInt] accepts are the digits of the number it returns: each number has one
    encoding. *)
Theorem varint_unique s n s' :
  octets_ok s -> varint_read exact_t 0 s = Some (n, s') ->
  exists ds k, varint_digits k n true = Some (rev ds) /\ s = ds ++ s'.
Proof.
  intros Hs H. destruct (varint_read_exact s 0 [] n s' Hs) as (ds & k & E1 & E2); [by left | done |]. by exists ds, k.
Qed.

Lemma varint_unique_witness :
  exists ds k, varint_digits k 256 true = Some (rev ds) /\ [0x81; 0x00; 7] = ds ++ [7].
Proof. apply (varint_unique [0x81; 0x00; 7] 256 [7]); [by repeat constructor | done]. Defined.

(** at the width of a machine type an encoding is not unique, against the comment that
    every integer has exactly one encoding: overflow is silent, and a negative [int] is cut
    to its low seven bits. *)
Theorem varint_not_one_to_one :
  ReadVarInt (unsigned_t 32) [0x00] = Some (0, []) /\
  ReadVarInt (unsigned_t 32) [0x8E; 0xFE; 0xFE; 0xFF; 0x00] = Some (0, []) /\
  WriteVarInt (signed_t 32) (-1) = Some [0x7F] /\ ReadVarInt (signed_t 32) [0x7F] = Some (127, []).
Proof. done. Qed.

(** ** Transactions *)

(** Sizes such as those of a 64-bit platform. *)
Definition sample_abi : Abi := {| sizeof_CTxIn := 112; sizeof_CTxOut := 48; sizeof_valtype := 24 |}.
#[export] Instance sample_abi_ok : AbiOk sample_abi.
Proof. by split. Qed.

Definition sample_tx : CTransaction :=
  mkTx 1 [mkTxIn (mkOut (replicate 32 7) 0) [OP_1] SEQUENCE_FINAL []] [mkTxOut 5000 [OP_DUP] (-10)] [[[1; 2]]] 0.

Lemma sample_tx_wf : tx_wf sample_tx.
Proof.
  split; try done.
  - split; [done |]. constructor; [| constructor]. split_and!; [split; [split; [done | by repeat constructor] | done] | | done | done].
    split; [done | by repeat constructor].
  - split; [done |]. constructor; [| constructor]. split_and!; [done | split; [done | by repeat constructor] | done].
  - constructor; [| constructor]. split; [done |]. constructor; [split; [done | by repeat constructor] | constructor].
Qed.



(** one encoding.  Whatever octets are accepted as a transaction are exactly those the
    transaction is written as: no other sequence, with padded sizes, unknown flags or
    superfluous witnesses, is read as it, and reading then writing gives back the octets. *)
Theorem transaction_encoding_unique (A : Abi) (HA : AbiOk A) nVersion s tx s' :
  octets_ok s -> UnserializeTransaction nVersion s = Some (tx, s') ->
  tx_wf tx /\ exists b, SerializeTransaction nVersion tx = Some (b, tx) /\ s = b ++ s'.
Proof. apply SerializeTransaction_Unserialize. Qed.

Lemma transaction_encoding_unique_witness :
  let tx := mkTx 1 [] [] [] 0 in
  tx_wf tx /\ exists b, @SerializeTransaction sample_abi 0 tx = Some (b, tx) /\ [1; 0; 0; 0; 0; 0; 0; 0; 0; 0] = b ++ [].
Proof. apply (transaction_encoding_unique sample_abi _ 0); [by repeat constructor | by vm_compute]. Defined.

(** A transaction without inputs but with outputs is read back as something else: the count
    of its outputs is taken for the flags of the extended format. *)
Example transaction_without_inputs_unreadable :
  match @SerializeTransaction sample_abi 0 (mkTx 1 [] (vout sample_tx) [] 0) with
  | Some (b, _) => @UnserializeTransaction sample_abi 0 b = None
  | None => False
  end.
Proof. by vm_compute. Qed.

(** The transaction id does not depend on the witnesses. *)
Lemma GetHash_ignores_witness (A : Abi) g tx wit :
  len wit <= len (vin tx) -> len (vtxinwit tx) <= len (vin tx) ->
  GetHash g (mkTx (tx_nVersion tx) (vin tx) (vout tx) wit (nLockTime tx)) = GetHash g tx.
Proof.
  intros Hw Hl. unfold GetHash, tx_SerializeHash, SerializeTransaction. cbn [vin vout vtxinwit tx_nVersion nLockTime].
  rewrite !(proj2 (Z.ltb_ge _ _)) by done. done.
Qed.

(** ** Values and fees *)

Definition total_out (outs : list CTxOut) : Z := foldr Z.add 0 (nValue <$> outs).

Lemma value_out_sum outs acc :
  0 <= acc <= MAX_MONEY -> Forall (fun o => - 2 ^ 62 <= nValue o < 2 ^ 62) outs ->
  value_out outs acc =
    Ret (if forallb (fun o => MoneyRange (nValue o)) outs && MoneyRange (acc + total_out outs)
         then Some (acc + total_out outs) else None).
Proof.
  intros Hacc Ho. revert acc Hacc. assert (HM : MAX_MONEY = 999999900000000) by done. rewrite HM.
  induction Ho as [|o outs Hv Ho IH]; intros acc Hacc; cbn [value_out].
  - change (total_out []) with 0. unfold MoneyRange. rewrite HM, Z.add_0_r.
    by rewrite (proj2 (Z.leb_le _ _)), (proj2 (Z.leb_le _ _)) by lia.
  - unfold int64, int64_min, int64_max. rewrite (proj2 (Z.leb_le _ _)), (proj2 (Z.leb_le _ _)) by lia. cbn [andb obnd forallb].
    change (total_out (o :: outs)) with (nValue o + total_out outs).
    destruct (MoneyRange (nValue o)) eqn:E1; cbn [negb orb andb]; [| done]. unfold MoneyRange in E1. rewrite HM in E1.
    apply andb_true_iff in E1 as [?%Z.leb_le ?%Z.leb_le].
    destruct (MoneyRange (acc + nValue o)) eqn:E2; cbn [negb].
    + unfold MoneyRange in E2. rewrite HM in E2. apply andb_true_iff in E2 as [?%Z.leb_le ?%Z.leb_le].
      rewrite IH by lia. by rewrite Z.add_assoc.
    + destruct (forallb (fun o => MoneyRange (nValue o)) outs) eqn:EF; [| done]. cbn [andb].
      assert (0 <= total_out outs).
      { clear IH Ho. induction outs as [|x outs IH]; [done |]. cbn [forallb] in EF. apply andb_true_iff in EF as [Ex EF].
        unfold MoneyRange in Ex. apply andb_true_iff in Ex as [?%Z.leb_le _].
        change (total_out (x :: outs)) with (nValue x + total_out outs). specialize (IH EF). lia. }
      unfold MoneyRange in *. rewrite HM in *. rewrite (proj2 (Z.leb_le 0 (acc + nValue o))) in E2 by lia.
      cbn [andb] in E2. apply Z.leb_gt in E2. by rewrite (proj2 (Z.leb_gt _ 999999900000000)), andb_false_r by lia.
Qed.

(** [GetValueOut] adds up the outputs: it returns their exact sum when every value and
    the sum are amounts of money, and throws otherwise. *)
Theorem GetValueOut_sum tx :
  Forall (fun o => - 2 ^ 62 <= nValue o < 2 ^ 62) (vout tx) ->
  GetValueOut tx = Ret (if forallb (fun o => MoneyRange (nValue o)) (vout tx) && MoneyRange (total_out (vout tx))
    then Some (total_out (vout tx)) else None).
Proof. intros Ho. unfold GetValueOut. by rewrite value_out_sum. Qed.

Lemma GetValueOut_sum_witness :
  GetValueOut sample_tx = Ret (if forallb (fun o => MoneyRange (nValue o)) (vout sample_tx) &&
    MoneyRange (total_out (vout sample_tx)) then Some (total_out (vout sample_tx)) else None).
Proof. apply (GetValueOut_sum sample_tx). by repeat constructor. Defined.

(** the range check of [GetValueOut] comes too late for a value near the largest [int64_t]:
    adding it to the sum so far overflows, which is undefined, before it is found out of
    range. *)
Theorem GetValueOut_overflows :
  GetValueOut (mkTx 1 [] [mkTxOut 1 [] (-10); mkTxOut (2 ^ 63 - 1) [] (-10)] [] 0) = Stuck.
Proof. done. Qed.
