(* ===== verification/SigHash.v ===== *)
(** * Signature hashes: the end of script/interpreter.cpp

    What a signature signs ([SignatureHash]) and the signature checker of a transaction
    input ([TransactionSignatureChecker]).  Elliptic-curve verification is libsecp256k1's:
    a parameter.  The second part says what the serializer writes. *)

From S2P Require Import Prelude MdHash ShaSpec Hash Script Interpreter ScriptProofs InterpreterProofs Serialize Transaction TransactionTheorems.
#[local] Open Scope Z_scope.

(** The result of a [CHashWriter] to which the chunks were written. *)
Definition hash_chunks (g : list Z) (chunks : list (list Z)) : option (list Z) := Hash g chunks.

Section SigHash.
Context `{Abi} (g : list Z).

(** ** The signature serializer of scripts before segregated witness *)

Definition fAnyoneCanPay (nHashType : Z) : bool := negb (nHashType & SIGHASH_ANYONECANPAY =? 0).
Definition fHashSingle (nHashType : Z) : bool := nHashType & 0x1f =? SIGHASH_SINGLE.
Definition fHashNone (nHashType : Z) : bool := nHashType & 0x1f =? SIGHASH_NONE.

(** [while (scriptCode.GetOp(it, opcode))]: every turn moves the iterator. *)
Fixpoint count_separators (fuel : nat) (it : list Z) (nCodeSeparators : Z) : Z :=
  match fuel with
  | O => nCodeSeparators
  | S fuel =>
      let '(ok, it, opcode, _) := GetOp2 it in
      if (ok : bool) then
        count_separators fuel it (if opcode =? OP_CODESEPARATOR then u32 (nCodeSeparators + 1) else nCodeSeparators)
      else nCodeSeparators
  end.

(** The second loop: what has been written, [itBegin] and [it]. *)
Fixpoint write_between (fuel : nat) (itBegin it : list Z) (out : list Z) : list Z * list Z * list Z :=
  match fuel with
  | O => (out, itBegin, it)
  | S fuel =>
      let '(ok, it, opcode, _) := GetOp2 it in
      if (ok : bool) then
        if opcode =? OP_CODESEPARATOR
        then write_between fuel it it (out ++ take (length itBegin - length it - 1) itBegin)
        else write_between fuel itBegin it out
      else (out, itBegin, it)
  end.

Definition SerializeScriptCode (scriptCode : list Z) : list Z :=
  let nCodeSeparators := count_separators (S (length scriptCode)) scriptCode 0 in
  let '(out, itBegin, it) := write_between (S (length scriptCode)) scriptCode scriptCode [] in
  WriteCompactSize (u64 (len scriptCode - nCodeSeparators)) ++
  (if decide (itBegin = []) then out else out ++ take (length itBegin - length it) itBegin).

Section Serializer.
Context (txTo : CTransaction) (scriptCode : list Z) (nIn nHashType : Z).

Definition SerializeInput (nInput : Z) : option (list Z) :=
  let nInput := if fAnyoneCanPay nHashType then nIn else nInput in
  i ← vin txTo !! Z.to_nat nInput;
  Some (Serialize COutPoint_ser (prevout i) ++
        (if negb (nInput =? nIn) then Serialize byte_vector [] else SerializeScriptCode scriptCode) ++
        (if negb (nInput =? nIn) && (fHashSingle nHashType || fHashNone nHashType)
         then Serialize int32 0 else Serialize uint32 (nSequence i))).

Definition SerializeOutput (nOutput : Z) : option (list Z) :=
  if fHashSingle nHashType && negb (nOutput =? nIn) then Some (Serialize CTxOut_ser CTxOut_null)
  else Serialize CTxOut_ser <$> vout txTo !! Z.to_nat nOutput.

Definition sig_Serialize : option (list Z) :=
  let nInputs := if fAnyoneCanPay nHashType then 1 else len (vin txTo) in
  ins ← mapM SerializeInput (seqZ 0 nInputs);
  let nOutputs := if fHashNone nHashType then 0 else if fHashSingle nHashType then u32 (nIn + 1) else len (vout txTo) in
  outs ← mapM SerializeOutput (seqZ 0 nOutputs);
  Some (Serialize int32 (tx_nVersion txTo) ++ WriteCompactSize nInputs ++ concat ins ++
        WriteCompactSize nOutputs ++ concat outs ++ Serialize uint32 (nLockTime txTo)).

End Serializer.

(** ** Segregated witness *)

Definition GetPrevoutHash (txTo : CTransaction) : option (list Z) :=
  hash_chunks g ((fun i => Serialize COutPoint_ser (prevout i)) <$> vin txTo).
Definition GetSequenceHash (txTo : CTransaction) : option (list Z) :=
  hash_chunks g ((fun i => Serialize uint32 (nSequence i)) <$> vin txTo).
Definition GetOutputsHash (txTo : CTransaction) : option (list Z) :=
  hash_chunks g (Serialize CTxOut_ser <$> vout txTo).

Record PrecomputedTransactionData := mkTxData { hashPrevouts : list Z; hashSequence : list Z; hashOutputs : list Z }.

Definition Precompute (txTo : CTransaction) : option PrecomputedTransactionData :=
  a ← GetPrevoutHash txTo; b ← GetSequenceHash txTo; c ← GetOutputsHash txTo; Some (mkTxData a b c).

Definition SignatureHash_V0 (scriptCode : list Z) (txTo : CTransaction) (nIn nHashType amount : Z)
    (cache : option PrecomputedTransactionData) : option (list Z) :=
  hp ← (if negb (fAnyoneCanPay nHashType)
        then match cache with Some c => Some (hashPrevouts c) | None => GetPrevoutHash txTo end
        else Some uint256_null);
  hs ← (if negb (fAnyoneCanPay nHashType) && negb (fHashSingle nHashType) && negb (fHashNone nHashType)
        then match cache with Some c => Some (hashSequence c) | None => GetSequenceHash txTo end
        else Some uint256_null);
  ho ← (if negb (fHashSingle nHashType) && negb (fHashNone nHashType)
        then match cache with Some c => Some (hashOutputs c) | None => GetOutputsHash txTo end
        else if fHashSingle nHashType && (nIn <? len (vout txTo))
        then o ← vout txTo !! Z.to_nat nIn; hash_chunks g [Serialize CTxOut_ser o]
        else Some uint256_null);
  i ← vin txTo !! Z.to_nat nIn;
  hash_chunks g [Serialize int32 (tx_nVersion txTo); hp; hs; Serialize COutPoint_ser (prevout i);
    Serialize byte_vector scriptCode; Serialize sint64 amount; Serialize uint32 (nSequence i); ho;
    Serialize uint32 (nLockTime txTo); Serialize int32 nHashType].

(** [uint256S("00..01")]. *)
Definition uint256_one : list Z := 1 :: replicate 31 0.

Definition SignatureHash (scriptCode : list Z) (txTo : CTransaction) (nIn nHashType amount : Z)
    (sigversion : SigVersion) (cache : option PrecomputedTransactionData) : option (list Z) :=
  match sigversion with
  | SIGVERSION_WITNESS_V0 => SignatureHash_V0 scriptCode txTo nIn nHashType amount cache
  | SIGVERSION_BASE =>
      if len (vin txTo) <=? nIn then Some uint256_one
      else if fHashSingle nHashType && (len (vout txTo) <=? nIn) then Some uint256_one
      else
        b ← sig_Serialize txTo scriptCode nIn nHashType;
        hash_chunks g [b; Serialize int32 nHashType]
  end.

(** [CTransaction::GetNormalizedHash]. *)
Definition GetNormalizedHash (tx : CTransaction) : option (list Z) :=
  SignatureHash [] tx 0 SIGHASH_ALL 0 SIGVERSION_BASE None.

(** ** The checker of a transaction input *)

(** [CPubKey::GetLen] and [IsValid] of a key made from a vector. *)
Definition CPubKey_GetLen (chHeader : Z) : Z :=
  if (chHeader =? 2) || (chHeader =? 3) then 33
  else if (chHeader =? 4) || (chHeader =? 6) || (chHeader =? 7) then 65 else 0.
Definition CPubKey_IsValid (vch : list Z) : bool :=
  let l := match vch with [] => 0 | b :: _ => CPubKey_GetLen b end in
  negb (l =? 0) && (l =? len vch).

Context (Verify : list Z -> list Z -> list Z -> bool) (LowS : list Z -> bool).
Context (txTo : CTransaction) (nIn amount : Z) (txdata : option PrecomputedTransactionData).

Definition tx_CheckSig (vchSigIn vchPubKey scriptCode : list Z) (sigversion : SigVersion) : outcome bool :=
  if negb (CPubKey_IsValid vchPubKey) then Ret false
  else match vback vchSigIn with
  | None => Ret false
  | Some nHashType =>
      let vchSig := take (length vchSigIn - 1) vchSigIn in
      let* sighash := must (SignatureHash scriptCode txTo nIn nHashType amount sigversion txdata) in
      Ret (Verify vchPubKey sighash vchSig)
  end.

Definition tx_CheckLockTime (lockTime : Z) : outcome bool :=
  if negb (((nLockTime txTo <? LOCKTIME_THRESHOLD) && (lockTime <? LOCKTIME_THRESHOLD)) ||
           ((LOCKTIME_THRESHOLD <=? nLockTime txTo) && (LOCKTIME_THRESHOLD <=? lockTime))) then Ret false
  else if nLockTime txTo <? lockTime then Ret false
  else
    let* i := must (vin txTo !! Z.to_nat nIn) in
    Ret (negb (SEQUENCE_FINAL =? nSequence i)).

Definition tx_CheckSequence (sequence : Z) : outcome bool :=
  let* i := must (vin txTo !! Z.to_nat nIn) in
  let txToSequence := nSequence i in
  if u32 (tx_nVersion txTo) <? 2 then Ret false
  else if negb (txToSequence & SEQUENCE_LOCKTIME_DISABLE_FLAG =? 0) then Ret false
  else
    let nLockTimeMask := SEQUENCE_LOCKTIME_TYPE_FLAG .| SEQUENCE_LOCKTIME_MASK in
    let txToSequenceMasked := txToSequence & nLockTimeMask in
    let nSequenceMasked := sequence & nLockTimeMask in
    if negb (((txToSequenceMasked <? SEQUENCE_LOCKTIME_TYPE_FLAG) && (nSequenceMasked <? SEQUENCE_LOCKTIME_TYPE_FLAG)) ||
             ((SEQUENCE_LOCKTIME_TYPE_FLAG <=? txToSequenceMasked) && (SEQUENCE_LOCKTIME_TYPE_FLAG <=? nSequenceMasked)))
    then Ret false
    else Ret (negb (txToSequenceMasked <? nSequenceMasked)).

Definition TransactionSignatureChecker : BaseSignatureChecker := {|
  CheckSig := tx_CheckSig; CheckLockTime := tx_CheckLockTime; CheckSequence := tx_CheckSequence; CheckLowS := LowS |}.

End SigHash.

(** * Signature hashes: the serializer writes a transaction made for signing

    The copy of the transaction a signature signs, as the original protocol describes it:
    other inputs blanked, outputs dropped or kept, separators removed from the script.  The
    serializer that works in place writes that copy. *)

#[local] Open Scope Z_scope.

(** ** Scripts without separators *)

(** The instructions of a script other than [OP_CODESEPARATOR]. *)
Fixpoint without_separators_loop (fuel : nat) (pc : list Z) : list Z :=
  match fuel with
  | O => []
  | S fuel =>
      let '(ok, pc', opcode, _) := GetOp2 pc in
      if (ok : bool) then
        (if opcode =? OP_CODESEPARATOR then [] else take (length pc - length pc') pc) ++ without_separators_loop fuel pc'
      else []
  end.
Definition without_separators (script : list Z) : list Z := without_separators_loop (S (length script)) script.

(** Every instruction can be read. *)
Definition parses (script : list Z) : Prop := (parse script).2 = true.

Lemma parse_loop_step fuel pc ok pc' op d :
  GetOp2 pc = (ok, pc', op, d) -> pc <> [] -> (parse_loop (S fuel) pc).2 = true ->
  ok = true /\ (parse_loop fuel pc').2 = true.
Proof.
  intros E Hne. cbn [parse_loop]. destruct (decide _); [done |]. rewrite E.
  destruct ok; [| done]. by destruct (parse_loop fuel pc').
Qed.

Lemma GetOp2_separator pc pc' d :
  GetOp2 pc = (true, pc', OP_CODESEPARATOR, d) -> pc = OP_CODESEPARATOR :: pc'.
Proof.
  unfold GetOp2. destruct pc as [|b pc]; [done |]. unfold_ops. intros H.
  destruct (Z.leb_spec b 0x4e).
  - repeat (case_match; try discriminate); injection H as _ ->; lia.
  - destruct (_ || _) eqn:E; [| by injection H as -> ->]. injection H as _ -> _. discriminate E.
Qed.

(** Both loops run over the instructions. *)
Lemma separators_spec fuel fuel' itBegin pre it out n :
  itBegin = pre ++ it -> (length it < fuel)%nat -> (length it <= fuel')%nat -> (parse_loop fuel' it).2 = true ->
  n + len it < 2 ^ 32 -> 0 <= n ->
  (let '(out', b, e) := write_between fuel itBegin it out in out' ++ take (length b - length e) b) =
    out ++ pre ++ without_separators_loop fuel it /\
  count_separators fuel it n + len (without_separators_loop fuel it) = n + len it.
Proof.
  revert fuel' itBegin pre it out n. induction fuel as [|fuel IH]; intros fuel' itBegin pre it out n -> Hf Hf' Hp Hn Hn0; [lia |].
  cbn [write_between count_separators without_separators_loop].
  destruct (GetOp2 it) as [[[ok it'] op] d] eqn:E. destruct (decide (it = [])) as [->|Hne].
  { injection E as <- <- <- <-. rewrite !app_nil_r. cbn [length]. rewrite Nat.sub_0_r, take_ge by done. split; [done | lia]. }
  destruct fuel' as [|fuel']; [destruct it; [done | simpl in Hf'; lia] |].
  destruct (parse_loop_step _ _ _ _ _ _ E Hne Hp) as [-> Hp']. pose proof (GetOp2_shorter _ _ _ _ _ E Hne) as Hsh.
  destruct (GetOp2_suffix _ _ _ _ _ E) as (k & Ek & _).
  assert (Hit : it = take (length it - length it') it ++ it').
  { rewrite Ek, length_drop. destruct (decide (k <= length it)%nat).
    - replace (length it - (length it - k))%nat with k by lia. by rewrite take_drop.
    - rewrite drop_ge, take_ge by lia. by rewrite app_nil_r. }
  destruct (Z.eqb_spec op OP_CODESEPARATOR) as [->|Hop].
  - apply GetOp2_separator in E. rewrite wrap_id by (split; [lia | rewrite E in Hn; cbn [length] in Hn; lia]).
    destruct (IH fuel' it' [] it' (out ++ take (length (pre ++ it) - length it' - 1) (pre ++ it)) (n + 1)) as [E1 E2];
      [done | lia | lia | done | rewrite E in Hn; cbn [length] in Hn; lia | lia |].
    rewrite E1, !app_nil_l, E2, E. split; [| cbn [length]; lia].
    rewrite <- app_assoc. f_equal. f_equal. rewrite length_app. cbn [length].
    replace (length pre + S (length it') - length it' - 1)%nat with (length pre) by lia. by rewrite take_app_length.
  - destruct (IH fuel' (pre ++ it) (pre ++ take (length it - length it') it) it' out n) as [E1 E2];
      [by rewrite <- app_assoc, <- Hit | lia | lia | done | lia | lia |].
    rewrite E1. split; [by rewrite <- app_assoc |]. rewrite length_app, length_take. lia.
Qed.

Lemma count_separators_nonneg fuel it n : 0 <= n -> 0 <= count_separators fuel it n.
Proof.
  revert it n. induction fuel as [|fuel IH]; intros it n Hn; [done |]. cbn [count_separators].
  destruct (GetOp2 it) as [[[[] it'] op] d]; [| done]. apply IH. destruct (_ =? _); [| done]. apply wrap_fits. lia.
Qed.

Lemma SerializeScriptCode_spec code :
  parses code -> len code < 2 ^ 32 -> SerializeScriptCode code = Serialize byte_vector (without_separators code).
Proof.
  intros Hp Hl. unfold SerializeScriptCode, without_separators.
  destruct (separators_spec (S (length code)) (length code) code [] code [] 0) as [E1 E2]; [done | lia | lia | done | lia | lia |].
  destruct (write_between _ _ _ _) as [[out b] e]. cbn [app] in E1.
  replace (if decide (b = []) then out else out ++ take (length b - length e) b) with (out ++ take (length b - length e) b).
  - rewrite E1. cbn [Serialize byte_vector]. f_equal. f_equal. rewrite Z.add_0_l in E2.
    rewrite <- E2, Z.add_comm, Z.add_simpl_r. apply wrap_id. split; [lia |].
    pose proof (count_separators_nonneg (S (length code)) code 0). lia.
  - destruct (decide (b = [])) as [->|]; [| done]. by rewrite take_nil, app_nil_r.
Qed.

(** ** The copy that is signed *)

Definition signed_input (scriptCode : list Z) (nHashType : Z) (own : bool) (i : CTxIn) : CTxIn :=
  if own then mkTxIn (prevout i) (without_separators scriptCode) (nSequence i) []
  else mkTxIn (prevout i) [] (if fHashSingle nHashType || fHashNone nHashType then 0 else nSequence i) [].

Definition signed_vin (vi : list CTxIn) (scriptCode : list Z) (nIn nHashType : Z) : list CTxIn :=
  if fAnyoneCanPay nHashType
  then match vi !! Z.to_nat nIn with Some i => [signed_input scriptCode nHashType true i] | None => [] end
  else imap (fun k i => signed_input scriptCode nHashType (Z.of_nat k =? nIn) i) vi.

Definition signed_vout (vo : list CTxOut) (nIn nHashType : Z) : list CTxOut :=
  if fHashNone nHashType then []
  else if fHashSingle nHashType
  then replicate (Z.to_nat nIn) CTxOut_null ++ match vo !! Z.to_nat nIn with Some o => [o] | None => [] end
  else vo.

Definition signed_tx (tx : CTransaction) (scriptCode : list Z) (nIn nHashType : Z) : CTransaction :=
  mkTx (tx_nVersion tx) (signed_vin (vin tx) scriptCode nIn nHashType) (signed_vout (vout tx) nIn nHashType) []
    (nLockTime tx).

Lemma mapM_seqZ {B} (f : Z -> option B) (l : list B) n :
  len l = n -> (forall k x, l !! k = Some x -> f (Z.of_nat k) = Some x) -> mapM f (seqZ 0 n) = Some l.
Proof.
  intros <- Hf. apply mapM_Some, Forall2_same_length_lookup. split; [by rewrite length_seqZ, Nat2Z.id |].
  intros k z x Hz Hx. apply lookup_seqZ in Hz as [-> _]. by apply Hf.
Qed.

Section Copy.
Context {A : Abi} {HA : AbiOk A}.
Context (tx : CTransaction) (code : list Z) (nIn nHashType : Z).
Context (Htx : tx_wf tx) (Hcode : bytes_wf code) (Hparse : parses code) (HnIn : 0 <= nIn < len (vin tx)).
Context (Hht : signed_fits 32 nHashType).

Lemma SerializeInput_copy nInput own i :
  (own = true <-> (if fAnyoneCanPay nHashType then nIn else nInput) = nIn) ->
  vin tx !! Z.to_nat (if fAnyoneCanPay nHashType then nIn else nInput) = Some i ->
  SerializeInput tx code nIn nHashType nInput = Some (Serialize CTxIn_ser (signed_input code nHashType own i)).
Proof using All.
  intros Hown Hi. unfold SerializeInput. rewrite Hi, obind_Some.
  destruct Hcode as [Hl _]. unfold MAX_SIZE in Hl. rewrite SerializeScriptCode_spec by (done || lia).
  set (k := if fAnyoneCanPay nHashType then nIn else nInput) in *.
  destruct own; cbn [signed_input Serialize CTxIn_ser prevout scriptSig nSequence].
  - rewrite (proj2 (Z.eqb_eq k nIn)) by (by apply Hown). done.
  - rewrite (proj2 (Z.eqb_neq k nIn)) by (intros E; by apply Hown in E). cbn [negb andb].
    by destruct (fHashSingle nHashType || fHashNone nHashType).
Qed.

Lemma inputs_copy :
  mapM (SerializeInput tx code nIn nHashType) (seqZ 0 (if fAnyoneCanPay nHashType then 1 else len (vin tx))) =
    Some (Serialize CTxIn_ser <$> signed_vin (vin tx) code nIn nHashType).
Proof using All.
  apply mapM_seqZ.
  - rewrite length_fmap. unfold signed_vin. destruct (fAnyoneCanPay nHashType); [| by rewrite length_imap].
    destruct (lookup_lt_is_Some_2 (vin tx) (Z.to_nat nIn)) as [i ->]; [lia | done].
  - intros k x Hx. apply list_lookup_fmap_Some in Hx as (j & -> & Hj). unfold signed_vin in Hj.
    destruct (fAnyoneCanPay nHashType) eqn:Ea.
    + destruct (lookup_lt_is_Some_2 (vin tx) (Z.to_nat nIn)) as [i Hi]; [lia |]. rewrite Hi in Hj.
      destruct k as [|k]; [| done]. apply (inj Some) in Hj as <-. apply (SerializeInput_copy _ true); rewrite Ea; done.
    + rewrite list_lookup_imap in Hj. apply fmap_Some in Hj as (i & Hi & ->).
      apply SerializeInput_copy; rewrite Ea; [apply Z.eqb_eq | by rewrite Nat2Z.id].
Qed.

Lemma outputs_copy :
  (fHashSingle nHashType = true -> nIn < len (vout tx)) ->
  let nOutputs := if fHashNone nHashType then 0 else if fHashSingle nHashType then u32 (nIn + 1) else len (vout tx) in
  nOutputs = len (signed_vout (vout tx) nIn nHashType) /\
  mapM (SerializeOutput tx nIn nHashType) (seqZ 0 nOutputs) = Some (Serialize CTxOut_ser <$> signed_vout (vout tx) nIn nHashType).
Proof using All.
  intros Hs. cbv zeta.
  assert (Hlen : (if fHashNone nHashType then 0 else if fHashSingle nHashType then u32 (nIn + 1) else len (vout tx)) =
    len (signed_vout (vout tx) nIn nHashType)).
  { unfold signed_vout. destruct (fHashNone nHashType); [done |]. destruct (fHashSingle nHashType); [| done].
    destruct (lookup_lt_is_Some_2 (vout tx) (Z.to_nat nIn)) as [o ->]; [specialize (Hs eq_refl); lia |].
    destruct (wf_vin tx Htx) as [? _]. unfold MAX_SIZE in *.
    rewrite length_app, length_replicate, wrap_id by (split; lia). cbn [length]. lia. }
  split; [done |]. rewrite Hlen. apply mapM_seqZ; [by rewrite length_fmap |].
  intros k x Hx. apply list_lookup_fmap_Some in Hx as (o & -> & Ho). unfold signed_vout in Ho, Hlen.
  destruct (fHashNone nHashType); [done |]. unfold SerializeOutput. destruct (fHashSingle nHashType); cbn [andb].
  - destruct (decide (k < Z.to_nat nIn)%nat) as [Hk|Hk].
    + rewrite (proj2 (Z.eqb_neq _ _)) by lia. cbn [negb].
      rewrite lookup_app_l in Ho by (by rewrite length_replicate). by apply lookup_replicate in Ho as [-> _].
    + rewrite lookup_app_r in Ho by (rewrite length_replicate; lia). rewrite length_replicate in Ho.
      destruct (vout tx !! Z.to_nat nIn) as [o'|] eqn:Eo; [| done].
      destruct (k - Z.to_nat nIn)%nat as [|j] eqn:Ek; [| done]. injection Ho as <-.
      assert (k = Z.to_nat nIn) as -> by lia. rewrite Z2Nat.id, Z.eqb_refl by lia. cbn [negb]. by rewrite Eo.
  - by rewrite Nat2Z.id, Ho.
Qed.

(** The serializer writes the copy. *)
Lemma sig_Serialize_copy :
  (fHashSingle nHashType = true -> nIn < len (vout tx)) ->
  exists b, sig_Serialize tx code nIn nHashType = Some b /\
    SerializeTransaction SERIALIZE_TRANSACTION_NO_WITNESS (signed_tx tx code nIn nHashType) =
      Some (b, signed_tx tx code nIn nHashType).
Proof using All.
  intros Hs. destruct (outputs_copy Hs) as [Hn Ho]. unfold sig_Serialize. cbv zeta. rewrite inputs_copy, obind_Some, Ho, obind_Some.
  eexists. split; [done |]. unfold signed_tx. rewrite SerializeTransaction_basic. do 2 f_equal.
  cbn [Serialize vin_ser vout_ser vector]. rewrite <- !app_assoc. do 2 f_equal; [f_equal |].
  - pose proof (length_mapM _ _ _ inputs_copy) as Hl. rewrite length_seqZ, length_fmap in Hl.
    destruct (fAnyoneCanPay nHashType); lia.
  - do 2 f_equal. by rewrite Hn.
Qed.

Lemma without_separators_octets fuel pc : octets_ok pc -> octets_ok (without_separators_loop fuel pc).
Proof using.
  revert pc. induction fuel as [|fuel IH]; intros pc Hpc; [constructor |]. cbn [without_separators_loop].
  destruct (GetOp2 pc) as [[[ok pc'] op] d] eqn:E. apply GetOp2_octets in E as (? & _ & _); [| done].
  destruct ok; [| constructor]. apply octets_ok_app; [| by apply IH]. destruct (_ =? _); [constructor | by apply Forall_take].
Qed.

Lemma without_separators_wf : bytes_wf (without_separators code).
Proof using All.
  destruct Hcode as [Hl Ho]. split; [| by apply without_separators_octets]. unfold MAX_SIZE in *.
  destruct (separators_spec (S (length code)) (length code) code [] code [] 0) as [_ E2]; [done | lia | lia | done | lia | lia |].
  unfold without_separators. pose proof (count_separators_nonneg (S (length code)) code 0). lia.
Qed.

Lemma signed_input_wf own i : CTxIn_wf i -> CTxIn_wf (signed_input code nHashType own i).
Proof using All.
  intros (Ho & Hs & Hn & _). destruct own; split_and!; try done; [apply without_separators_wf |].
  cbn [signed_input nSequence]. by destruct (_ || _).
Qed.

Lemma signed_tx_wf : (fHashSingle nHashType = true -> nIn < len (vout tx)) -> tx_wf (signed_tx tx code nIn nHashType).
Proof using All.
  intros Hs. destruct Htx as [Hver [Hvl Hvin] [Hol Hvout] _ Hlock]. split; cbn [signed_tx tx_nVersion vin vout vtxinwit nLockTime]; try done.
  - unfold signed_vin. destruct (fAnyoneCanPay nHashType).
    + destruct (vin tx !! Z.to_nat nIn) as [i|] eqn:Ei; (split; [done |]); [| constructor].
      constructor; [| constructor]. apply signed_input_wf. by apply (Forall_lookup_1 _ _ _ _ Hvin Ei).
    + split; [by rewrite length_imap |]. apply Forall_lookup. intros k x Hx. rewrite list_lookup_imap in Hx.
      apply fmap_Some in Hx as (i & Hi & ->). apply signed_input_wf. by apply (Forall_lookup_1 _ _ _ _ Hvin Hi).
  - unfold signed_vout. destruct (fHashNone nHashType); [split; [done | constructor] |].
    destruct (fHashSingle nHashType); [| done]. specialize (Hs eq_refl).
    destruct (vout tx !! Z.to_nat nIn) as [o|] eqn:Eo; [| apply lookup_ge_None in Eo; lia]. split.
    + rewrite length_app, length_replicate. cbn [length]. lia.
    + apply Forall_app_2.
      * apply Forall_replicate. split_and!; [split; cbn; lia | split; [done | constructor] | done].
      * constructor; [| constructor]. by apply (Forall_lookup_1 _ _ _ _ Hvout Eo).
Qed.

End Copy.

(** ** Sizes: nothing is longer than a hasher can take *)

Lemma concat_bound {T} (f : T -> list Z) (l : list T) B :
  Forall (fun x => len (f x) <= B) l -> len (concat (f <$> l)) <= len l * B.
Proof.
  induction 1 as [|x l Hx Hl IH]; [done |]. rewrite fmap_cons. cbn [concat length]. rewrite length_app. lia.
Qed.

Lemma CompactSize_bound n : 0 <= n -> len (WriteCompactSize n) <= 9.
Proof. intros. cbv beta. rewrite length_WriteCompactSize by done. unfold GetSizeOfCompactSize. repeat case_match; lia. Qed.

Lemma byte_vector_bound v : bytes_wf v -> len (Serialize byte_vector v) <= 2 ^ 26.
Proof.
  intros [Hl _]. unfold MAX_SIZE in Hl. cbn [Serialize byte_vector]. rewrite length_app.
  pose proof (CompactSize_bound (len v)). lia.
Qed.

Lemma CTxIn_bound i : CTxIn_wf i -> len (Serialize CTxIn_ser i) <= 2 ^ 27.
Proof.
  intros ([[Hl _] _] & Hs & _ & _). cbn [Serialize CTxIn_ser COutPoint_ser uint256 uint32]. rewrite !length_app.
  unfold ser_writedata32. rewrite !length_le_bytes, Hl. pose proof (byte_vector_bound _ Hs). lia.
Qed.

Lemma CTxOut_bound o : CTxOut_wf o -> len (Serialize CTxOut_ser o) <= 2 ^ 27.
Proof.
  intros (_ & Hs & _). cbn [Serialize CTxOut_ser sint64]. rewrite length_app. unfold ser_writedata64.
  rewrite length_le_bytes. pose proof (byte_vector_bound _ Hs). lia.
Qed.

Lemma vector_bound {T} n (c : serializable T) wf B v :
  (forall x, wf x -> len (Serialize c x) <= B) -> 0 <= B -> vector_wf wf v -> len (Serialize (vector n c) v) <= 9 + 2 ^ 25 * B.
Proof.
  intros HB HB0 [Hl Hv]. cbn [Serialize vector]. rewrite length_app. unfold MAX_SIZE in Hl.
  pose proof (CompactSize_bound (len v) (Nat2Z.is_nonneg _)) as H1.
  pose proof (concat_bound (Serialize c) v B (list.Forall_impl _ _ _ Hv HB)) as H2. cbv beta in *.
  assert (Z.of_nat (length v) * B <= 2 ^ 25 * B) by (apply Z.mul_le_mono_nonneg_r; lia). lia.
Qed.

Lemma tx_basic_bound `{Abi} tx :
  tx_wf tx -> len (Serialize int32 (tx_nVersion tx) ++ Serialize vin_ser (vin tx) ++ Serialize vout_ser (vout tx) ++
    Serialize uint32 (nLockTime tx)) < 2 ^ 60.
Proof.
  intros [_ Hin Hout _ _]. rewrite !length_app.
  pose proof (vector_bound sizeof_CTxIn CTxIn_ser CTxIn_wf _ _ CTxIn_bound ltac:(lia) Hin).
  pose proof (vector_bound sizeof_CTxOut CTxOut_ser CTxOut_wf _ _ CTxOut_bound ltac:(lia) Hout).
  unfold vin_ser, vout_ser. cbn [Serialize int32 uint32]. unfold ser_writedata32. rewrite !length_le_bytes. lia.
Qed.
