(* ===== verification/SigHashTheorems.v ===== *)
(** * The signature checker of a transaction input, and the theorems on signature hashes

    Signature hashes are defined for every script the interpreter passes, so that
    [TransactionSignatureChecker] meets what the interpreter asks of a checker; and their
    values, for the copy of the transaction that is signed. *)

From S2P Require Import Prelude MdHash ShaSpec Hash Script Interpreter ScriptProofs InterpreterProofs SoftFork P2pkh Serialize Transaction TransactionTheorems SigHash.
#[local] Open Scope Z_scope.

Lemma hash_chunks_ok g chunks :
  length g = 64%nat -> octets_ok (concat chunks) -> len (concat chunks) < 2 ^ 61 ->
  hash_chunks g chunks = Some (dsha256 (concat chunks)).
Proof. intros. unfold hash_chunks, Hash. by apply (sh_run_ok (H := CHash256) (digest := dsha256)). Qed.

(** What is hashed: octets, fewer than a hasher can take. *)
Definition piece (B : Z) (b : list Z) : Prop := octets_ok b /\ len b <= B.

Lemma concat_piece B l : Forall (piece B) l -> 0 <= B -> piece (len l * B) (concat l).
Proof.
  intros Hl HB. induction Hl as [|b l [Ho Hb] Hl [IHo IH]]; [split; [constructor | done] |]. split.
  - by apply octets_ok_app.
  - cbn [concat length]. rewrite length_app. cbn beta in IH. lia.
Qed.

Lemma mapM_total {T U} (f : T -> option U) (P : U -> Prop) l :
  Forall (fun x => exists y, f x = Some y /\ P y) l ->
  exists k, mapM f l = Some k /\ Forall P k /\ length k = length l.
Proof.
  induction 1 as [|x l (y & Hy & HP) _ (k & Hk & HF & Hl)]; [by exists [] |].
  exists (y :: k). cbn [mapM]. rewrite Hy. cbn [mbind option_bind]. rewrite Hk. split_and!; [done | by constructor | simpl; lia].
Qed.

Lemma write_between_piece fuel itBegin it out :
  octets_ok itBegin -> octets_ok it -> octets_ok out -> (length it <= length itBegin)%nat ->
  let '(out', b, e) := write_between fuel itBegin it out in
  octets_ok out' /\ octets_ok b /\ (length out' + length b <= length out + length itBegin)%nat.
Proof.
  revert itBegin it out. induction fuel as [|fuel IH]; intros itBegin it out Hb Hi Ho Hle; [split_and!; [done | done | lia] |].
  cbn [write_between]. destruct (GetOp2 it) as [[[ok it'] op] d] eqn:E. pose proof (GetOp2_suffix _ _ _ _ _ E) as (k & Ek & _).
  apply GetOp2_octets in E as (Hi' & _ & _); [| done]. assert (length it' <= length it)%nat by (rewrite Ek, length_drop; lia).
  destruct ok; [| split_and!; [done | done | lia]]. destruct (op =? OP_CODESEPARATOR); [| apply IH; [done.. | lia]].
  specialize (IH it' it' (out ++ take (length itBegin - length it' - 1) itBegin)).
  destruct (write_between _ _ _ _) as [[out' b] e]. destruct IH as (? & ? & Hl); [done | done | | lia |].
  - apply octets_ok_app; [done | by apply Forall_take].
  - split_and!; [done | done |]. rewrite length_app, length_take in Hl. lia.
Qed.

Lemma SerializeScriptCode_piece code : bytes_wf code -> piece (2 ^ 26) (SerializeScriptCode code).
Proof.
  intros [Hl Ho]. unfold MAX_SIZE in Hl. unfold SerializeScriptCode.
  pose proof (write_between_piece (S (length code)) code code [] Ho Ho (Forall_nil _) (le_n _)) as HW.
  destruct (write_between _ _ _ _) as [[out b] e]. destruct HW as (Hout & Hb & Hlen). cbn [length] in Hlen.
  split.
  - apply octets_ok_app; [apply octets_WriteCompactSize |]. destruct (decide _); [done |].
    apply octets_ok_app; [done | by apply Forall_take].
  - rewrite length_app. pose proof (CompactSize_bound (u64 (len code - count_separators (S (length code)) code 0))) as HC.
    assert (HC' := HC ltac:(apply wrap_fits; lia)). cbv beta in HC'. destruct (decide _); rewrite ?length_app, ?length_take; lia.
Qed.

Section Total.
Context {A : Abi} {HA : AbiOk A} (tx : CTransaction) (Htx : tx_wf tx).

Lemma vin_lookup_wf k i : vin tx !! k = Some i -> CTxIn_wf i.
Proof using Htx. intros Hi. destruct (wf_vin tx Htx) as [_ Hv]. by apply (Forall_lookup_1 _ _ _ _ Hv Hi). Qed.

Lemma vout_lookup_wf k o : vout tx !! k = Some o -> CTxOut_wf o.
Proof using Htx. intros Ho. destruct (wf_vout tx Htx) as [_ Hv]. by apply (Forall_lookup_1 _ _ _ _ Hv Ho). Qed.

Lemma CTxOut_piece o : CTxOut_wf o -> piece (2 ^ 27) (Serialize CTxOut_ser o).
Proof using. intros Ho. split; [by apply (ser_octets (c := CTxOut_ser)) | by apply CTxOut_bound]. Qed.

Lemma int32_piece x : piece 4 (Serialize int32 x).
Proof using. split; [apply octets_le_bytes | by cbn [Serialize int32]; unfold ser_writedata32; rewrite length_le_bytes]. Qed.

Lemma uint32_piece x : piece 4 (Serialize uint32 x).
Proof using. split; [apply octets_le_bytes | by cbn [Serialize uint32]; unfold ser_writedata32; rewrite length_le_bytes]. Qed.

Lemma COutPoint_piece o : COutPoint_wf o -> piece 36 (Serialize COutPoint_ser o).
Proof using.
  intros Ho. split; [by apply (ser_octets (c := COutPoint_ser)) |]. destruct Ho as [[Hl _] _].
  cbn [Serialize COutPoint_ser uint256 uint32]. unfold ser_writedata32. rewrite length_app, length_le_bytes, Hl. done.
Qed.

Lemma piece_app B B' a b : piece B a -> piece B' b -> piece (B + B') (a ++ b).
Proof using. intros [? ?] [? ?]. split; [by apply octets_ok_app |]. rewrite length_app. lia. Qed.

Lemma piece_le B B' b : piece B b -> B <= B' -> piece B' b.
Proof using. intros [? ?] ?. split; [done | lia]. Qed.

Lemma CompactSize_piece n : 0 <= n -> piece 9 (WriteCompactSize n).
Proof using. intros. split; [apply octets_WriteCompactSize | by apply CompactSize_bound]. Qed.

Lemma SerializeInput_total code nIn ht nInput :
  bytes_wf code -> 0 <= nIn < len (vin tx) -> 0 <= nInput < len (vin tx) ->
  exists b, SerializeInput tx code nIn ht nInput = Some b /\ piece (2 ^ 27) b.
Proof using Htx.
  intros Hc Hn Hi. unfold SerializeInput. set (k := if fAnyoneCanPay ht then nIn else nInput).
  assert (Hk : 0 <= k < len (vin tx)) by (subst k; by destruct (fAnyoneCanPay ht)). clearbody k.
  destruct (lookup_lt_is_Some_2 (vin tx) (Z.to_nat k)) as [i Ei]; [lia |]. rewrite Ei, obind_Some. eexists. split; [done |].
  apply vin_lookup_wf in Ei as (Ho & _ & _ & _).
  eapply (piece_le (36 + (2 ^ 26 + 4))); [| lia]. apply piece_app; [by apply COutPoint_piece |]. apply piece_app.
  - destruct (negb _); [| by apply SerializeScriptCode_piece]. split; [by repeat constructor | done].
  - destruct (_ && _); [apply int32_piece | apply uint32_piece].
Qed.

Lemma SerializeOutput_total nIn ht nOutput :
  0 <= nOutput < len (vout tx) -> exists b, SerializeOutput tx nIn ht nOutput = Some b /\ piece (2 ^ 27) b.
Proof using Htx.
  intros Ho. unfold SerializeOutput. destruct (_ && _).
  - eexists. split; [done |]. apply CTxOut_piece. split_and!; [split; cbn; lia | split; [done | constructor] | done].
  - destruct (lookup_lt_is_Some_2 (vout tx) (Z.to_nat nOutput)) as [o Eo]; [lia |]. rewrite Eo. eexists. split; [done |].
    by apply CTxOut_piece, (vout_lookup_wf (Z.to_nat nOutput)).
Qed.

Lemma sig_Serialize_total code nIn ht :
  bytes_wf code -> 0 <= nIn < len (vin tx) -> (fHashSingle ht = true -> nIn < len (vout tx)) ->
  exists b, sig_Serialize tx code nIn ht = Some b /\ piece (2 ^ 60) b.
Proof using Htx.
  intros Hc Hn Hs. unfold sig_Serialize. cbv zeta. destruct (wf_vin tx Htx) as [Hvl _], (wf_vout tx Htx) as [Hol _].
  unfold MAX_SIZE in *. set (ni := if fAnyoneCanPay ht then 1 else _).
  assert (Hni : 0 <= ni <= len (vin tx)) by (subst ni; destruct (fAnyoneCanPay ht); lia). clearbody ni.
  destruct (mapM_total (SerializeInput tx code nIn ht) (piece (2 ^ 27)) (seqZ 0 ni)) as (ins & -> & Hins & Hil).
  { apply list.Forall_forall. intros x Hx%elem_of_seqZ. apply SerializeInput_total; [done | done | lia]. }
  rewrite obind_Some. set (no := if fHashNone ht then 0 else _).
  assert (Hno : 0 <= no <= len (vout tx)).
  { subst no. destruct (fHashNone ht); [lia |]. destruct (fHashSingle ht); [| lia]. specialize (Hs eq_refl).
    rewrite wrap_id by (split; lia). lia. }
  clearbody no.
  destruct (mapM_total (SerializeOutput tx nIn ht) (piece (2 ^ 27)) (seqZ 0 no)) as (outs & -> & Houts & Hou).
  { apply list.Forall_forall. intros x Hx%elem_of_seqZ. apply SerializeOutput_total. lia. }
  rewrite obind_Some. eexists. split; [done |]. rewrite length_seqZ in Hil, Hou.
  apply concat_piece in Hins; [| lia]. apply concat_piece in Houts; [| lia].
  eapply piece_le; [apply piece_app; [apply int32_piece |]; apply piece_app; [apply CompactSize_piece; lia |];
    apply piece_app; [exact Hins |]; apply piece_app; [apply CompactSize_piece; lia |];
    apply piece_app; [exact Houts | apply uint32_piece] |].
  rewrite Hil, Hou. lia.
Qed.

Lemma fmap_piece {T} (f : T -> list Z) (l : list T) B :
  Forall (fun x => piece B (f x)) l -> 0 <= B -> len l <= MAX_SIZE -> piece (2 ^ 25 * B) (concat (f <$> l)).
Proof using.
  intros Hf HB Hl. unfold MAX_SIZE in Hl. assert (HF : Forall (piece B) (f <$> l)) by by apply Forall_fmap.
  apply concat_piece in HF; [| done]. eapply piece_le; [exact HF |]. rewrite length_fmap.
  apply Z.mul_le_mono_nonneg_r; lia.
Qed.

(** ** Hashes *)

Context (g : list Z) (Hg : length g = 64%nat).

Lemma hash_piece B chunks :
  piece B (concat chunks) -> B <= 2 ^ 60 ->
  hash_chunks g chunks = Some (dsha256 (concat chunks)) /\ hash_wf (dsha256 (concat chunks)).
Proof using Hg.
  intros [Ho Hl] HB. split; [apply hash_chunks_ok; [done | done | lia] |].
  destruct (sh_digest_wf (H := CHash256) (digest := dsha256) (concat chunks) Ho) as [H1 H2]. by split.
Qed.

(** The three hashes of the whole transaction. *)
Lemma GetPrevoutHash_ok :
  GetPrevoutHash g tx = Some (dsha256 (concat ((fun i => Serialize COutPoint_ser (prevout i)) <$> vin tx))) /\
  hash_wf (dsha256 (concat ((fun i => Serialize COutPoint_ser (prevout i)) <$> vin tx))).
Proof using Hg Htx.
  destruct (wf_vin tx Htx) as [Hl Hv]. eapply hash_piece; [apply (fmap_piece _ _ 36) |]; [| done | done | done].
  eapply list.Forall_impl; [exact Hv |]. intros i (Ho & _). by apply COutPoint_piece.
Qed.

Lemma GetSequenceHash_ok :
  GetSequenceHash g tx = Some (dsha256 (concat ((fun i => Serialize uint32 (nSequence i)) <$> vin tx))) /\
  hash_wf (dsha256 (concat ((fun i => Serialize uint32 (nSequence i)) <$> vin tx))).
Proof using Hg Htx.
  destruct (wf_vin tx Htx) as [Hl Hv]. eapply hash_piece; [apply (fmap_piece _ _ 4) |]; [| done | done | done].
  eapply list.Forall_impl; [exact Hv |]. intros i _. apply uint32_piece.
Qed.

Lemma GetOutputsHash_ok :
  GetOutputsHash g tx = Some (dsha256 (concat (Serialize CTxOut_ser <$> vout tx))) /\
  hash_wf (dsha256 (concat (Serialize CTxOut_ser <$> vout tx))).
Proof using Hg Htx.
  destruct (wf_vout tx Htx) as [Hl Hv]. eapply hash_piece; [apply (fmap_piece _ _ (2 ^ 27)) |]; [| lia | done | lia].
  eapply list.Forall_impl; [exact Hv |]. intros o Ho. by apply CTxOut_piece.
Qed.

Lemma Precompute_ok : exists c, Precompute g tx = Some c.
Proof using Hg Htx.
  unfold Precompute. destruct GetPrevoutHash_ok as [-> _], GetSequenceHash_ok as [-> _], GetOutputsHash_ok as [-> _].
  rewrite !obind_Some. by eexists.
Qed.

(** The cache holds the hashes of this transaction. *)
Definition cache_ok (cache : option PrecomputedTransactionData) : Prop :=
  cache = None \/ cache = Precompute g tx.

(** The cache only saves work. *)
Lemma SignatureHash_cache code nIn ht amount sv cache :
  cache_ok cache -> SignatureHash g code tx nIn ht amount sv cache = SignatureHash g code tx nIn ht amount sv None.
Proof using Hg Htx.
  intros [-> | ->]; [done |]. unfold SignatureHash. destruct sv; [done |]. unfold SignatureHash_V0, Precompute.
  destruct GetPrevoutHash_ok as [-> _], GetSequenceHash_ok as [-> _], GetOutputsHash_ok as [-> _]. done.
Qed.

Lemma some_either {T} (P : T -> Prop) (b : bool) x y :
  P x -> P y -> exists h, (if b then Some x else Some y) = Some h /\ P h.
Proof using. destruct b; eauto. Qed.

Lemma bind_either {T U} (P : T -> Prop) (Q : U -> Prop) (m : option T) (k : T -> option U) :
  (exists h, m = Some h /\ P h) -> (forall h, P h -> exists r, k h = Some r /\ Q r) -> exists r, m ≫= k = Some r /\ Q r.
Proof using. intros (h & -> & Hh) Hk. rewrite obind_Some. by apply Hk. Qed.

Lemma SignatureHash_V0_total code nIn ht amount :
  bytes_wf code -> 0 <= nIn < len (vin tx) ->
  exists h, SignatureHash_V0 g code tx nIn ht amount None = Some h /\ hash_wf h.
Proof using Hg Htx.
  intros Hc Hn. unfold SignatureHash_V0.
  assert (Hnull : hash_wf uint256_null) by (split; [done | by repeat constructor]).
  destruct GetPrevoutHash_ok as [-> Hp], GetSequenceHash_ok as [-> Hs], GetOutputsHash_ok as [-> Ho].
  apply (bind_either hash_wf); [by apply some_either | intros h1 H1].
  apply (bind_either hash_wf); [by apply some_either | intros h2 H2].
  apply (bind_either hash_wf); [| intros h3 H3].
  { destruct (negb _ && negb _); [by apply (some_either _ true _ uint256_null) |].
    destruct (fHashSingle ht && _) eqn:ES; [| by apply (some_either _ true _ uint256_null)].
    apply andb_true_iff in ES as [_ ES%Z.ltb_lt].
    destruct (lookup_lt_is_Some_2 (vout tx) (Z.to_nat nIn)) as [o Eo]; [lia |]. rewrite Eo, obind_Some.
    eexists. eapply (hash_piece (2 ^ 27)); [| lia]. cbn [concat]. rewrite app_nil_r.
    by apply CTxOut_piece, (vout_lookup_wf (Z.to_nat nIn)). }
  destruct (lookup_lt_is_Some_2 (vin tx) (Z.to_nat nIn)) as [i Ei]; [lia |]. rewrite Ei, obind_Some.
  apply vin_lookup_wf in Ei as (Hi & _). eexists.
  assert (Hh : forall h, hash_wf h -> piece (2 ^ 26) h) by (intros h [Hl ?]; split; [done |]; rewrite Hl; lia).
  eapply hash_piece; [apply (concat_piece (2 ^ 26)); [| lia] | cbn [length]; lia].
  rewrite !Forall_cons_iff. split_and!; auto.
  - eapply piece_le; [apply int32_piece | lia].
  - eapply piece_le; [by apply COutPoint_piece | lia].
  - split; [by apply (ser_octets (c := byte_vector)) | by apply byte_vector_bound].
  - split; [apply octets_le_bytes | by cbn [Serialize sint64]; unfold ser_writedata64; rewrite length_le_bytes].
  - eapply piece_le; [apply uint32_piece | lia].
  - eapply piece_le; [apply uint32_piece | lia].
  - eapply piece_le; [apply int32_piece | lia].
Qed.

Lemma SignatureHash_total code nIn ht amount sv cache :
  cache_ok cache -> bytes_wf code -> 0 <= nIn < len (vin tx) ->
  exists h, SignatureHash g code tx nIn ht amount sv cache = Some h /\ hash_wf h.
Proof using Hg Htx.
  intros Hk Hc Hn. rewrite SignatureHash_cache by done. destruct sv; [| by apply SignatureHash_V0_total].
  unfold SignatureHash. assert (Hone : hash_wf uint256_one) by (split; [done | by repeat constructor]).
  rewrite (proj2 (Z.leb_gt _ _)) by lia. destruct (fHashSingle ht && (len (vout tx) <=? nIn)) eqn:ES; [by exists uint256_one |].
  destruct (sig_Serialize_total code nIn ht) as (b & -> & Hb); [done | done | |].
  { intros E. rewrite E in ES. cbn [andb] in ES. by apply Z.leb_gt in ES. }
  rewrite obind_Some. eexists. destruct Hb as [Hbo Hbl]. split.
  - apply hash_chunks_ok; [done | |]; cbn [concat]; rewrite app_nil_r.
    + apply octets_ok_app; [done | apply octets_le_bytes].
    + pose proof (int32_piece ht) as [_ ?]. rewrite length_app. lia.
  - destruct (sh_digest_wf (H := CHash256) (digest := dsha256) (concat [b; Serialize int32 ht])) as [H1 H2]; [| by split].
    cbn [concat]. rewrite app_nil_r. apply octets_ok_app; [done | apply octets_le_bytes].
Qed.

(** The hash of a signature of a script that parses: the octets of the copy and the type. *)
Lemma SignatureHash_copy code nIn ht amount cache :
  bytes_wf code -> parses code -> 0 <= nIn < len (vin tx) -> signed_fits 32 ht ->
  (fHashSingle ht = true -> nIn < len (vout tx)) ->
  exists b, SerializeTransaction SERIALIZE_TRANSACTION_NO_WITNESS (signed_tx tx code nIn ht) = Some (b, signed_tx tx code nIn ht) /\
    SignatureHash g code tx nIn ht amount SIGVERSION_BASE cache = Some (dsha256 (b ++ Serialize int32 ht)).
Proof using All.
  intros Hc Hp Hn Ht Hs. destruct (sig_Serialize_copy tx code nIn ht Htx Hc Hp Hn Ht Hs) as (b & E & Eb).
  exists b. split; [done |]. unfold SignatureHash. rewrite (proj2 (Z.leb_gt _ _)) by lia.
  replace (fHashSingle ht && (len (vout tx) <=? nIn)) with false.
  - rewrite E, obind_Some. destruct (sig_Serialize_total code nIn ht Hc Hn Hs) as (b' & E' & Hbo & Hbl).
    rewrite E in E'. injection E' as <-. rewrite hash_chunks_ok; cbn [concat]; rewrite ?app_nil_r; [done | done | |].
    + apply octets_ok_app; [done | apply octets_le_bytes].
    + pose proof (int32_piece ht) as [_ ?]. rewrite length_app. lia.
  - symmetry. destruct (fHashSingle ht); [| done]. apply Z.leb_gt. by apply Hs.
Qed.

(** ** The checker *)

Context (Verify : list Z -> list Z -> list Z -> bool) (LowS : list Z -> bool).
Context (nIn amount : Z) (cache : option PrecomputedTransactionData).
Context (HnIn : 0 <= nIn < len (vin tx)) (Hcache : cache_ok cache).

Lemma TransactionSignatureChecker_total : CheckerOk (TransactionSignatureChecker g Verify LowS tx nIn amount cache).
Proof using All.
  destruct (lookup_lt_is_Some_2 (vin tx) (Z.to_nat nIn)) as [i Ei]; [lia |]. split; cbn [CheckSig CheckLockTime CheckSequence TransactionSignatureChecker].
  - intros sig pub code sv [Hso _] _ Hco Hcl. unfold tx_CheckSig. destruct (negb _); [by eexists |].
    destruct (vback sig) as [ht|]; [| by eexists]. unfold MAX_SCRIPT_SIZE in Hcl.
    destruct (SignatureHash_total code nIn ht amount sv cache) as (h & -> & _); [done | | done | by eexists].
    split; [unfold MAX_SIZE; lia | done].
  - intros n. unfold tx_CheckLockTime. rewrite Ei. cbn [must obnd]. repeat case_match; by eexists.
  - intros n. unfold tx_CheckSequence. rewrite Ei. cbn [must obnd]. repeat case_match; by eexists.
Qed.

End Total.

(** * Signature hashes: theorems

    What a signature signs, that it commits to it, that the cache changes nothing, and the
    interpreter together with the checker of a transaction. *)

#[local] Open Scope Z_scope.

(** C20. the signature hash of a script before segregated witness is the double SHA-256 of a
    whole transaction, the copy with the other inputs blanked, the outputs the type leaves
    out dropped and the separators removed from the script, followed by the hash type; the
    serializer never builds that copy. *)
Theorem signature_hash_signs_copy (A : Abi) (HA : AbiOk A) g tx code nIn ht amount cache :
  length g = 64%nat -> tx_wf tx -> bytes_wf code -> parses code -> 0 <= nIn < len (vin tx) -> signed_fits 32 ht ->
  (fHashSingle ht = true -> nIn < len (vout tx)) ->
  exists b, SerializeTransaction SERIALIZE_TRANSACTION_NO_WITNESS (signed_tx tx code nIn ht) = Some (b, signed_tx tx code nIn ht) /\
    SignatureHash g code tx nIn ht amount SIGVERSION_BASE cache = Some (dsha256 (b ++ Serialize int32 ht)).
Proof. intros. by apply SignatureHash_copy. Qed.

Lemma signature_hash_signs_copy_witness :
  exists b, @SerializeTransaction sample_abi SERIALIZE_TRANSACTION_NO_WITNESS (signed_tx sample_tx [OP_CODESEPARATOR; OP_1] 0 SIGHASH_ALL) =
      Some (b, signed_tx sample_tx [OP_CODESEPARATOR; OP_1] 0 SIGHASH_ALL) /\
    SignatureHash (replicate 64 0) [OP_CODESEPARATOR; OP_1] sample_tx 0 SIGHASH_ALL 0 SIGVERSION_BASE None =
      Some (dsha256 (b ++ Serialize int32 SIGHASH_ALL)).
Proof.
  apply (signature_hash_signs_copy sample_abi _); try done; [apply sample_tx_wf |]. split; [done | by repeat constructor].
Defined.

(** ** Commitment *)

(** Equal octets are equal copies. *)
Lemma signed_copy_inj (A : Abi) (HA : AbiOk A) tx1 tx2 c1 c2 n1 n2 h1 h2 b1 b2 :
  tx_wf (signed_tx tx1 c1 n1 h1) -> tx_wf (signed_tx tx2 c2 n2 h2) -> signed_fits 32 h1 -> signed_fits 32 h2 ->
  SerializeTransaction SERIALIZE_TRANSACTION_NO_WITNESS (signed_tx tx1 c1 n1 h1) = Some (b1, signed_tx tx1 c1 n1 h1) ->
  SerializeTransaction SERIALIZE_TRANSACTION_NO_WITNESS (signed_tx tx2 c2 n2 h2) = Some (b2, signed_tx tx2 c2 n2 h2) ->
  b1 ++ Serialize int32 h1 = b2 ++ Serialize int32 h2 -> signed_tx tx1 c1 n1 h1 = signed_tx tx2 c2 n2 h2 /\ h1 = h2.
Proof.
  intros W1 W2 F1 F2 E1 E2 Eb.
  assert (R : forall tx, readable SERIALIZE_TRANSACTION_NO_WITNESS tx) by (intros; by right; right).
  pose proof (Unserialize_SerializeTransaction _ _ _ _ (Serialize int32 h1) W1 (R _) E1) as U1.
  pose proof (Unserialize_SerializeTransaction _ _ _ _ (Serialize int32 h2) W2 (R _) E2) as U2.
  rewrite Eb, U2 in U1. apply (Some_pair_inj (B := list Z)) in U1 as [Et Eh].
  assert (N : forall tx c n h, mkTx (tx_nVersion (signed_tx tx c n h)) (vin (signed_tx tx c n h)) (vout (signed_tx tx c n h))
    (norm_wit SERIALIZE_TRANSACTION_NO_WITNESS (signed_tx tx c n h)) (nLockTime (signed_tx tx c n h)) = signed_tx tx c n h) by done.
  rewrite !N in Et. split; [done |].
  destruct (Serialize_inj int32 (signed_fits 32) h1 h2 [] []) as [-> _]; rewrite ?app_nil_r; done.
Qed.

(** a signature commits to what it signs.  When the octets hashed for two signatures are
    equal, so are the hash types and the signed copies; with [SIGHASH_ALL] the two
    transactions have the same version, lock time, outputs, previous outputs and sequence
    numbers, and a signature for a script that is not empty is for the same input and the
    same script. *)
Theorem sighash_all_commits (A : Abi) (HA : AbiOk A) tx1 tx2 c1 c2 n1 n2 b1 b2 h2 :
  tx_wf tx1 -> tx_wf tx2 -> bytes_wf c1 -> bytes_wf c2 -> parses c1 -> parses c2 ->
  0 <= n1 < len (vin tx1) -> 0 <= n2 < len (vin tx2) -> signed_fits 32 h2 ->
  (fHashSingle h2 = true -> n2 < len (vout tx2)) ->
  sig_Serialize tx1 c1 n1 SIGHASH_ALL = Some b1 -> sig_Serialize tx2 c2 n2 h2 = Some b2 ->
  b1 ++ Serialize int32 SIGHASH_ALL = b2 ++ Serialize int32 h2 ->
  h2 = SIGHASH_ALL /\ tx_nVersion tx1 = tx_nVersion tx2 /\ nLockTime tx1 = nLockTime tx2 /\ vout tx1 = vout tx2 /\
  (fun i => (prevout i, nSequence i)) <$> vin tx1 = (fun i => (prevout i, nSequence i)) <$> vin tx2 /\
  (without_separators c1 <> [] -> n1 = n2 /\ without_separators c1 = without_separators c2).
Proof.
  intros W1 W2 C1 C2 P1 P2 N1 N2 F2 S2 E1 E2 Eb.
  assert (F1 : signed_fits 32 SIGHASH_ALL) by done. assert (S1 : fHashSingle SIGHASH_ALL = true -> n1 < len (vout tx1)) by done.
  destruct (sig_Serialize_copy tx1 c1 n1 SIGHASH_ALL W1 C1 P1 N1 F1 S1) as (b1' & E1' & T1). rewrite E1 in E1'. injection E1' as <-.
  destruct (sig_Serialize_copy tx2 c2 n2 h2 W2 C2 P2 N2 F2 S2) as (b2' & E2' & T2). rewrite E2 in E2'. injection E2' as <-.
  destruct (signed_copy_inj A HA tx1 tx2 c1 c2 n1 n2 SIGHASH_ALL h2 b1 b2) as [Et <-]; try done;
    [by apply signed_tx_wf | by apply signed_tx_wf |].
  unfold signed_tx in Et. injection Et as Ever Evin Evout Elock.
  change (signed_vout (vout tx1) n1 SIGHASH_ALL) with (vout tx1) in Evout.
  change (signed_vout (vout tx2) n2 SIGHASH_ALL) with (vout tx2) in Evout.
  change (signed_vin (vin tx1) c1 n1 SIGHASH_ALL) with (imap (fun k i => signed_input c1 SIGHASH_ALL (Z.of_nat k =? n1) i) (vin tx1)) in Evin.
  change (signed_vin (vin tx2) c2 n2 SIGHASH_ALL) with (imap (fun k i => signed_input c2 SIGHASH_ALL (Z.of_nat k =? n2) i) (vin tx2)) in Evin.
  split_and!; try done.
  - assert (Hp : forall c n vi, (fun i => (prevout i, nSequence i)) <$> imap (fun k i => signed_input c SIGHASH_ALL (Z.of_nat k =? n) i) vi =
      (fun i => (prevout i, nSequence i)) <$> vi).
    { intros c n vi. apply list_eq. intros k. rewrite !list_lookup_fmap, list_lookup_imap.
      destruct (vi !! k); [| done]. cbn. by destruct (_ =? n). }
    rewrite <- (Hp c1 n1), Evin. apply Hp.
  - intros Hne. apply (f_equal (fun l => scriptSig <$> l !! Z.to_nat n1)) in Evin. rewrite !list_lookup_imap in Evin.
    destruct (lookup_lt_is_Some_2 (vin tx1) (Z.to_nat n1)) as [i Ei]; [lia |]. rewrite Ei in Evin.
    destruct (vin tx2 !! Z.to_nat n1) as [j|]; [| done]. cbn [fmap option_fmap option_map] in Evin.
    rewrite Z2Nat.id, Z.eqb_refl in Evin by lia. cbn [signed_input scriptSig] in Evin.
    destruct (Z.eqb_spec n1 n2); [| by injection Evin]. injection Evin as Evin. done.
Qed.

Lemma sighash_all_commits_witness :
  SIGHASH_ALL = SIGHASH_ALL /\ tx_nVersion sample_tx = tx_nVersion sample_tx /\ nLockTime sample_tx = nLockTime sample_tx /\
  vout sample_tx = vout sample_tx /\
  (fun i => (prevout i, nSequence i)) <$> vin sample_tx = (fun i => (prevout i, nSequence i)) <$> vin sample_tx /\
  (without_separators [OP_1] <> [] -> 0 = 0 /\ without_separators [OP_1] = without_separators [OP_1; OP_CODESEPARATOR]).
Proof.
  apply (sighash_all_commits sample_abi _ sample_tx sample_tx [OP_1] [OP_1; OP_CODESEPARATOR] 0 0
    (default [] (@sig_Serialize sample_tx [OP_1] 0 SIGHASH_ALL))
    (default [] (@sig_Serialize sample_tx [OP_1; OP_CODESEPARATOR] 0 SIGHASH_ALL))); try apply sample_tx_wf; try done;
    split; done || by repeat constructor.
Defined.

(** the precomputed hashes of a transaction exist and only save work: every signature
    hash is the same with them and without. *)
Theorem precomputed_hashes_agree (A : Abi) (HA : AbiOk A) g tx code nIn ht amount sv :
  length g = 64%nat -> tx_wf tx ->
  exists c, Precompute g tx = Some c /\
    SignatureHash g code tx nIn ht amount sv (Some c) = SignatureHash g code tx nIn ht amount sv None.
Proof.
  intros Hg Htx. destruct (Precompute_ok tx Htx g Hg) as [c Ec]. exists c. split; [done |].
  apply SignatureHash_cache; [done | done |]. right. by rewrite Ec.
Qed.

Lemma precomputed_hashes_agree_witness :
  exists c, Precompute (replicate 64 0) sample_tx = Some c /\
    SignatureHash (replicate 64 0) [OP_1] sample_tx 0 SIGHASH_ALL 5 SIGVERSION_WITNESS_V0 (Some c) =
    SignatureHash (replicate 64 0) [OP_1] sample_tx 0 SIGHASH_ALL 5 SIGVERSION_WITNESS_V0 None.
Proof. apply (precomputed_hashes_agree sample_abi _); [done | apply sample_tx_wf]. Defined.

(** ** The interpreter with the checker of a transaction *)

(** verifying an input of a transaction always ends with a verdict: the checker of the
    input satisfies all the interpreter asks of a checker, for every script. *)
Theorem transaction_input_verdict (A : Abi) (HA : AbiOk A) g g' Verify LowS tx nIn amount cache flags pub witness i :
  length g = 64%nat -> length g' = 64%nat -> tx_wf tx -> cache_ok tx g cache -> flags_valid flags ->
  0 <= nIn -> vin tx !! Z.to_nat nIn = Some i -> octets_ok pub -> witness_ok (default [] witness) ->
  let CK := TransactionSignatureChecker g Verify LowS tx nIn amount cache in
  VerifyScript g g' (scriptSig i) pub witness flags = Ret tt \/
  exists e, VerifyScript g g' (scriptSig i) pub witness flags = Fail e.
Proof.
  intros Hg Hg' Htx Hc Hf Hn Hi Hp Hw CK. pose proof (lookup_lt_Some _ _ _ Hi).
  pose proof (TransactionSignatureChecker_total tx Htx g Hg Verify LowS nIn amount cache ltac:(lia) Hc) as OK.
  destruct (vin_lookup_wf tx Htx _ _ Hi) as (_ & [_ Hs] & _).
  destruct (VerifyScript_answers g g' Hg Hg' flags (scriptSig i) pub witness Hf Hs Hp Hw) as [([] & -> & _)|]; eauto.
Qed.

Lemma transaction_input_verdict_witness :
  let CK := TransactionSignatureChecker (replicate 64 0) (fun _ _ _ => true) (fun _ => true) sample_tx 0 5000 None in
  VerifyScript (replicate 64 0) (replicate 64 0) [OP_1] [OP_CHECKSIG] None 0 = Ret tt \/
  exists e, VerifyScript (replicate 64 0) (replicate 64 0) [OP_1] [OP_CHECKSIG] None 0 = Fail e.
Proof.
  apply (transaction_input_verdict sample_abi _ (replicate 64 0) (replicate 64 0) _ _ sample_tx 0 5000 None 0 [OP_CHECKSIG] None
    (mkTxIn (mkOut (replicate 32 7) 0) [OP_1] SEQUENCE_FINAL [])); try done; [apply sample_tx_wf | by left | by repeat constructor | constructor].
Defined.

Lemma parse_loop_op fuel b pc :
  OP_PUSHDATA4 < b -> b <> OP_SIGMASPEND -> b <> OP_SIGMAMINT -> (parse_loop (S fuel) (b :: pc)).2 = (parse_loop fuel pc).2.
Proof.
  intros. cbn [parse_loop]. destruct (decide _); [done |]. rewrite GetOp2_op by done. by destruct (parse_loop fuel pc).
Qed.

(** The scripts of addresses parse. *)
Lemma parses_p2pkh h : len h = 20 -> octets_ok h -> parses (p2pkh_script h) /\ bytes_wf (p2pkh_script h).
Proof.
  intros Hh Ho. assert (Hlen : length (p2pkh_script h) = 25%nat).
  { rewrite p2pkh_script_shape by done. rewrite !length_app. cbn [length]. lia. }
  split.
  - unfold parses, parse. rewrite Hlen. unfold p2pkh_script. cbn [app].
    rewrite !parse_loop_op by done. rewrite parse_loop_push by lia.
    assert (E : (parse_loop 22 [OP_EQUALVERIFY; OP_CHECKSIG]).2 = true) by (by rewrite !parse_loop_op).
    destruct (parse_loop 22 _) as [ops all]. done.
  - split; [rewrite Hlen; unfold MAX_SIZE; lia |]. rewrite p2pkh_script_shape by done.
    apply octets_ok_app; [by repeat constructor |]. apply octets_ok_app; [done | by repeat constructor].
Qed.



(** [OP_CHECKLOCKTIMEVERIFY] does what it is for.  If the checker accepts the operand
    [n] for an input, the transaction is final, and so can be mined, only in a block whose
    height or time, as the kind of [n] says, is past [n]. *)
Theorem locktime_enforced tx nIn n nBlockHeight nBlockTime :
  0 <= n -> fits 32 (nLockTime tx) -> tx_CheckLockTime tx nIn n = Ret true -> IsFinalTx tx nBlockHeight nBlockTime = true ->
  n = 0 \/ n < (if n <? LOCKTIME_THRESHOLD then nBlockHeight else nBlockTime).
Proof.
  intros Hn [? ?] HC HF. unfold tx_CheckLockTime in HC. unfold IsFinalTx in HF.
  destruct (negb _) eqn:Ek; [done |]. apply negb_false_iff, orb_true_iff in Ek. destruct (Z.ltb_spec (nLockTime tx) n); [done |].
  destruct (vin tx !! Z.to_nat nIn) as [i|] eqn:Ei; [| done]. cbn [must obnd] in HC.
  assert (HC' : negb (SEQUENCE_FINAL =? nSequence i) = true) by congruence. clear HC.
  destruct (Z.eqb_spec (nLockTime tx) 0); [left; lia |]. right. rewrite !andb_true_iff, !Z.ltb_lt, !Z.leb_le in Ek.
  assert (Es : (n <? LOCKTIME_THRESHOLD) = (nLockTime tx <? LOCKTIME_THRESHOLD)).
  { destruct Ek as [[? ?]|[? ?]]; [rewrite !(proj2 (Z.ltb_lt _ _)) | rewrite !(proj2 (Z.ltb_ge _ _))]; done. }
  rewrite Es. destruct (Z.ltb_spec (nLockTime tx) (if nLockTime tx <? LOCKTIME_THRESHOLD then nBlockHeight else nBlockTime)); [lia |].
  rewrite forallb_forall in HF. specialize (HF i ltac:(by apply list_elem_of_In, (list_elem_of_lookup_2 _ (Z.to_nat nIn)))).
  by rewrite Z.eqb_sym, HF in HC'.
Qed.

Lemma locktime_enforced_witness : 100 = 0 \/ 100 < (if 100 <? LOCKTIME_THRESHOLD then 151 else 0).
Proof.
  by apply (locktime_enforced (mkTx 1 [mkTxIn (mkOut (replicate 32 7) 0) [] 0 []] [] [] 150) 0 100 151 0).
Defined.
