(* ===== verification/Compressor.v ===== *)
(** * compressor.h, compressor.cpp and undo.h: compact outputs and undo data

    Points of the elliptic curve are libsecp256k1's: [parse] stands for
    [secp256k1_ec_pubkey_parse] followed by [secp256k1_ec_pubkey_serialize] of the
    uncompressed form, [None] when the octets are no point.  The round trips are the second
    part. *)

From S2P Require Import Prelude MdHash Hash Script Interpreter Serialize Transaction TransactionTheorems SigHash.
#[local] Open Scope Z_scope.

(** ** Amounts *)

(** [while (((n % 10) == 0) && e < 9)]: at most nine turns. *)
Fixpoint strip_zeros (fuel : nat) (n e : Z) : Z * Z :=
  match fuel with
  | O => (n, e)
  | S fuel => if (n mod 10 =? 0) && (e <? 9) then strip_zeros fuel (n / 10) (e + 1) else (n, e)
  end.

(** [uint64_t] arithmetic. *)
Definition CompressAmount (n : Z) : Z :=
  if n =? 0 then 0
  else
    let '(n, e) := strip_zeros 9 n 0 in
    if e <? 9 then
      let d := n mod 10 in
      let n := n / 10 in
      u64 (1 + (n * 9 + d - 1) * 10 + e)
    else u64 (1 + (n - 1) * 10 + 9).

(** [while (e) { n *= 10; e--; }]. *)
Fixpoint times_10 (e : nat) (n : Z) : Z := match e with O => n | S e => times_10 e (u64 (n * 10)) end.

Definition DecompressAmount (x : Z) : Z :=
  if x =? 0 then 0
  else
    let x := x - 1 in
    let e := x mod 10 in
    let x := x / 10 in
    let n := if e <? 9 then let d := x mod 9 + 1 in let x := x / 9 in u64 (x * 10 + d) else u64 (x + 1) in
    times_10 (Z.to_nat e) n.

(** ** Scripts *)

Definition nSpecialScripts : Z := 6.

Section Scripts.
Context (parse : list Z -> option (list Z)).

Definition IsToKeyID (script : list Z) : option (list Z) :=
  if (len script =? 25) && (oct script 0 =? OP_DUP) && (oct script 1 =? OP_HASH160) && (oct script 2 =? 20) &&
     (oct script 23 =? OP_EQUALVERIFY) && (oct script 24 =? OP_CHECKSIG)
  then Some (take 20 (drop 3 script)) else None.

Definition IsToScriptID (script : list Z) : option (list Z) :=
  if (len script =? 23) && (oct script 0 =? OP_HASH160) && (oct script 1 =? 20) && (oct script 22 =? OP_EQUAL)
  then Some (take 20 (drop 2 script)) else None.

(** [CPubKey::IsFullyValid] and [CPubKey::Decompress]. *)
Definition IsFullyValid (vch : list Z) : bool := CPubKey_IsValid vch && bool_decide (is_Some (parse vch)).
Definition CPubKey_Decompress (vch : list Z) : option (list Z) := if CPubKey_IsValid vch then parse vch else None.

Definition IsToPubKey (script : list Z) : option (list Z) :=
  if (len script =? 35) && (oct script 0 =? 33) && (oct script 34 =? OP_CHECKSIG) &&
     ((oct script 1 =? 0x02) || (oct script 1 =? 0x03))
  then Some (take 33 (drop 1 script))
  else if (len script =? 67) && (oct script 0 =? 65) && (oct script 66 =? OP_CHECKSIG) && (oct script 1 =? 0x04)
  then let pubkey := take 65 (drop 1 script) in if IsFullyValid pubkey then Some pubkey else None
  else None.

Definition Compress (script : list Z) : option (list Z) :=
  match IsToKeyID script with
  | Some keyID => Some (0x00 :: keyID)
  | None =>
    match IsToScriptID script with
    | Some scriptID => Some (0x01 :: scriptID)
    | None =>
      match IsToPubKey script with
      | Some pubkey =>
          let x := take 32 (drop 1 pubkey) in
          if (oct pubkey 0 =? 0x02) || (oct pubkey 0 =? 0x03) then Some (oct pubkey 0 :: x)
          else if oct pubkey 0 =? 0x04 then Some ((0x04 .| (oct pubkey 64 & 0x01)) :: x)
          else None
      | None => None
      end
    end
  end.

Definition GetSpecialSize (nSize : Z) : Z :=
  if (nSize =? 0) || (nSize =? 1) then 20
  else if (nSize =? 2) || (nSize =? 3) || (nSize =? 4) || (nSize =? 5) then 32 else 0.

(** [Decompress]: the script, [None] when it returns false and leaves it as it was. *)
Definition Decompress (nSize : Z) (inp : list Z) : option (list Z) :=
  if nSize =? 0x00 then Some ([OP_DUP; OP_HASH160; 20] ++ inp ++ [OP_EQUALVERIFY; OP_CHECKSIG])
  else if nSize =? 0x01 then Some ([OP_HASH160; 20] ++ inp ++ [OP_EQUAL])
  else if (nSize =? 0x02) || (nSize =? 0x03) then Some ([33; nSize] ++ inp ++ [OP_CHECKSIG])
  else if (nSize =? 0x04) || (nSize =? 0x05) then
    pubkey ← CPubKey_Decompress ((nSize - 2) :: inp);
    Some ([65] ++ pubkey ++ [OP_CHECKSIG])
  else None.

(** [CDataStream::ignore]: a size that is negative as an [int] throws. *)
Definition stream_ignore (nSize : Z) : reader unit := fun s =>
  if 2 ^ 31 <=? nSize then None else if len s <? nSize then None else Some (tt, drop (Z.to_nat nSize) s).

Definition script_write (script : list Z) : option (list Z) :=
  match Compress script with
  | Some compr => Some compr
  | None => n ← WriteVarInt (unsigned_t 32) (u32 (len script + nSpecialScripts)); Some (n ++ script)
  end.

(** Reading into the empty script of a new output. *)
Definition script_read : reader (list Z) := fun s =>
  '(nSize, s) ← ReadVarInt (unsigned_t 32) s;
  if nSize <? nSpecialScripts then
    '(vch, s) ← ser_read (GetSpecialSize nSize) s;
    Some (default [] (Decompress nSize vch), s)
  else
    let nSize := nSize - nSpecialScripts in
    if MAX_SCRIPT_SIZE <? nSize then '(_, s) ← stream_ignore nSize s; Some ([OP_RETURN], s)
    else ser_read nSize s.

(** ** Outputs *)

(** [CTxOutCompressor]; [nValue] is converted to [uint64_t] and back. *)
Definition txout_write (o : CTxOut) : option (list Z) :=
  n ← WriteVarInt (unsigned_t 64) (CompressAmount (u64 (nValue o)));
  sc ← script_write (scriptPubKey o);
  Some (n ++ sc).
Definition txout_read : reader CTxOut := fun s =>
  '(nVal, s) ← ReadVarInt (unsigned_t 64) s;
  '(sc, s) ← script_read s;
  Some (mkTxOut (to_signed 64 (DecompressAmount nVal)) sc (-10), s).

(** ** Undo data of an input *)

Record CTxInUndo := mkUndo { u_txout : CTxOut; u_fCoinBase : bool; u_nHeight : Z; u_nVersion : Z }.

Definition CTxInUndo_write (u : CTxInUndo) : option (list Z) :=
  c ← WriteVarInt (unsigned_t 32) (u32 (u_nHeight u * 2 + (if u_fCoinBase u then 1 else 0)));
  v ← (if 0 <? u_nHeight u then WriteVarInt (signed_t 32) (u_nVersion u) else Some []);
  o ← txout_write (u_txout u);
  Some (c ++ v ++ o).

(** A new [CTxInUndo] is read into: the version stays 0 when it is not read. *)
Definition CTxInUndo_read : reader CTxInUndo := fun s =>
  '(nCode, s) ← ReadVarInt (unsigned_t 32) s;
  let nHeight := nCode / 2 in
  let fCoinBase := negb (nCode & 1 =? 0) in
  '(nVersion, s) ← (if 0 <? nHeight then ReadVarInt (signed_t 32) s else Some (0, s));
  '(o, s) ← txout_read s;
  Some (mkUndo o fCoinBase nHeight nVersion, s).

End Scripts.

(** * Compact outputs: what is compressed is decompressed *)

#[local] Open Scope Z_scope.

(** ** Amounts *)

Lemma strip_zeros_spec fuel n e :
  0 < n -> 0 <= e -> e + Z.of_nat fuel = 9 ->
  let '(m, e') := strip_zeros fuel n e in
  n * 10 ^ e = m * 10 ^ e' /\ 0 < m /\ e <= e' <= 9 /\ (e' < 9 -> m mod 10 <> 0).
Proof.
  revert n e. induction fuel as [|fuel IH]; intros n e Hn He Hf; cbn [strip_zeros]; [split_and!; [done | done | lia | lia | lia] |].
  destruct (Z.eqb_spec (n mod 10) 0) as [E|E]; cbn [andb]; [| split_and!; [done | done | lia | lia | done]].
  destruct (Z.ltb_spec e 9); [| split_and!; [done | done | lia | lia | lia]].
  assert (En : n = 10 * (n / 10)) by (apply Z.div_exact; lia).
  specialize (IH (n / 10) (e + 1)). destruct (strip_zeros fuel (n / 10) (e + 1)) as [m e'].
  destruct IH as (E1 & E2 & E3 & E4); [lia | lia | lia |]. split_and!; [| done | lia | lia | done].
  rewrite <- E1, Z.pow_add_r by lia. change (10 ^ 1) with 10. rewrite En at 1. ring.
Qed.

Lemma times_10_spec e n : 0 <= n -> n * 10 ^ Z.of_nat e < 2 ^ 64 -> times_10 e n = n * 10 ^ Z.of_nat e.
Proof.
  revert n. induction e as [|e IH]; intros n Hn Hb; cbn [times_10]; [change (10 ^ Z.of_nat 0) with 1; lia |].
  assert (E : 10 ^ Z.of_nat (S e) = 10 * 10 ^ Z.of_nat e) by (rewrite Nat2Z.inj_succ, Z.pow_succ_r; lia).
  rewrite E in *. pose proof (Z.pow_pos_nonneg 10 (Z.of_nat e)).
  rewrite wrap_id by (split; [lia | nia]). rewrite IH; [ring | lia | nia].
Qed.

Lemma digit_div_mod b k r : 0 <= r < b -> (r + k * b) mod b = r /\ (r + k * b) / b = k.
Proof. intros. rewrite Z.mod_add, Z.div_add, Z.mod_small, Z.div_small by lia. lia. Qed.

Lemma DecompressAmount_Compress n :
  0 <= n < 2 ^ 60 -> DecompressAmount (CompressAmount n) = n /\ 0 <= CompressAmount n < 2 ^ 64.
Proof.
  intros Hn. unfold CompressAmount. destruct (Z.eqb_spec n 0) as [->|Hne]; [done |].
  pose proof (strip_zeros_spec 9 n 0) as HS. destruct (strip_zeros 9 n 0) as [m e].
  destruct HS as (E1 & Hm & He & Hd); [lia | lia | done |]. rewrite Z.mul_1_r in E1.
  pose proof (Z.pow_pos_nonneg 10 e). assert (Hmb : m <= n) by nia.
  assert (Ht : times_10 (Z.to_nat e) m = n) by (rewrite times_10_spec; rewrite ?Z2Nat.id by lia; lia).
  destruct (Z.ltb_spec e 9) as [Hlt|Hge].
  - specialize (Hd Hlt). pose proof (Z.div_mod m 10). pose proof (Z.mod_pos_bound m 10).
    set (q := m / 10) in *. set (d := m mod 10) in *. rewrite wrap_id by (split; lia). split; [| lia].
    unfold DecompressAmount. rewrite (proj2 (Z.eqb_neq _ _)) by lia.
    replace (1 + (q * 9 + d - 1) * 10 + e - 1) with (e + (q * 9 + d - 1) * 10) by ring.
    destruct (digit_div_mod 10 (q * 9 + d - 1) e) as [-> ->]; [lia |]. rewrite (proj2 (Z.ltb_lt e 9)) by done.
    replace (q * 9 + d - 1) with ((d - 1) + q * 9) by ring.
    destruct (digit_div_mod 9 q (d - 1)) as [-> ->]; [lia |].
    replace (u64 (q * 10 + (d - 1 + 1))) with m; [done |]. rewrite wrap_id by (split; lia). lia.
  - assert (e = 9) as -> by lia. rewrite wrap_id by (split; lia). split; [| lia].
    unfold DecompressAmount. rewrite (proj2 (Z.eqb_neq _ _)) by lia.
    replace (1 + (m - 1) * 10 + 9 - 1) with (9 + (m - 1) * 10) by ring.
    destruct (digit_div_mod 10 (m - 1) 9) as [-> ->]; [lia |]. rewrite (proj2 (Z.ltb_ge 9 9)) by done.
    replace (u64 (m - 1 + 1)) with m; [done |]. rewrite wrap_id by (split; lia). lia.
Qed.

(** The assertion of [CompressAmount] on the digit holds. *)
Lemma CompressAmount_digit n :
  0 < n -> let '(m, e) := strip_zeros 9 n 0 in e < 9 -> 1 <= m mod 10 <= 9.
Proof.
  intros Hn. pose proof (strip_zeros_spec 9 n 0 Hn) as HS. destruct (strip_zeros 9 n 0) as [m e].
  destruct HS as (_ & _ & _ & Hd); [lia | done |]. intros Hlt. specialize (Hd Hlt). pose proof (Z.mod_pos_bound m 10). lia.
Qed.

(** ** Scripts *)

(** Name the octets of a list of known length. *)
Tactic Notation "explode" ident(s) integer(n) :=
  do n (destruct s as [|? s]; [discriminate |]); destruct s; [| discriminate].

Lemma IsToKeyID_shape script h :
  IsToKeyID script = Some h -> script = [OP_DUP; OP_HASH160; 20] ++ h ++ [OP_EQUALVERIFY; OP_CHECKSIG] /\ length h = 20%nat.
Proof.
  unfold IsToKeyID. destruct (_ && _) eqn:E; [| done]. intros [= <-]. rewrite !andb_true_iff, !Z.eqb_eq in E.
  destruct E as [[[[[El E0] E1] E2] E3] E4]. apply (Nat2Z.inj _ 25) in El. explode script 25. cbn in *. by subst.
Qed.

Lemma IsToScriptID_shape script h :
  IsToScriptID script = Some h -> script = [OP_HASH160; 20] ++ h ++ [OP_EQUAL] /\ length h = 20%nat.
Proof.
  unfold IsToScriptID. destruct (_ && _) eqn:E; [| done]. intros [= <-]. rewrite !andb_true_iff, !Z.eqb_eq in E.
  destruct E as [[[El E0] E1] E2]. apply (Nat2Z.inj _ 23) in El. explode script 23. cbn in *. by subst.
Qed.

Lemma land_1 x : x & 1 = x mod 2.
Proof. apply (Z.land_ones x 1). lia. Qed.

Section Scripts.
Context (parse : list Z -> option (list Z)).

(** What the code relies on: the compressed form of a point is parsed as the point. *)
Definition parse_compressed : Prop := forall vch,
  length vch = 65%nat -> oct vch 0 = 4 -> is_Some (parse vch) ->
  parse ((0x02 .| (oct vch 64 & 0x01)) :: take 32 (drop 1 vch)) = Some vch.

Lemma IsToPubKey_shape script k :
  IsToPubKey parse script = Some k ->
  (exists b x, k = b :: x /\ (b = 2 \/ b = 3) /\ length x = 32%nat /\ script = [33; b] ++ x ++ [OP_CHECKSIG]) \/
  (length k = 65%nat /\ oct k 0 = 4 /\ is_Some (parse k) /\ script = [65] ++ k ++ [OP_CHECKSIG]).
Proof.
  unfold IsToPubKey. destruct (_ && _ && _ && _) eqn:E.
  - intros [= <-]. left. rewrite !andb_true_iff, !Z.eqb_eq, orb_true_iff, !Z.eqb_eq in E.
    destruct E as [[[El E0] E1] E2]. apply (Nat2Z.inj _ 35) in El. explode script 35. cbn in *. subst.
    by eexists _, _.
  - clear E. destruct (_ && _) eqn:E; [| done]. rewrite !andb_true_iff, !Z.eqb_eq in E. destruct E as [[[El E0] E1] E2].
    destruct (IsFullyValid parse (take 65 (drop 1 script))) eqn:EV; [| done]. intros [= <-]. right.
    apply andb_true_iff in EV as [_ EV%bool_decide_eq_true].
    apply (Nat2Z.inj _ 67) in El. explode script 67. cbn in *. subst. done.
Qed.

Lemma ReadVarInt_small I c s : it_conv I c = Some c -> fits 8 c -> c < 128 -> ReadVarInt I (c :: s) = Some (c, s).
Proof.
  intros Hc Hf Hlt. unfold ReadVarInt. cbn [varint_read]. rewrite land_0x7f, land_0x80 by done.
  rewrite (proj2 (Z.ltb_lt _ _)) by done. rewrite Z.shiftl_0_l, Z.lor_0_l, Hc, obind_Some. done.
Qed.

(** A special script: its code, data of the size the reader expects, and back. *)
Lemma Compress_spec script out :
  parse_compressed -> octets_ok script -> Compress parse script = Some out ->
  exists c d, out = c :: d /\ 0 <= c < nSpecialScripts /\ len d = GetSpecialSize c /\ Decompress parse c d = Some script.
Proof.
  intros Hpc Hok. unfold Compress. destruct (IsToKeyID script) as [h|] eqn:E1.
  { apply IsToKeyID_shape in E1 as [-> Hl]. intros [= <-]. exists 0, h. split_and!; [done | done | done | by rewrite Hl | done]. }
  destruct (IsToScriptID script) as [h|] eqn:E2.
  { apply IsToScriptID_shape in E2 as [-> Hl]. intros [= <-]. exists 1, h. split_and!; [done | done | done | by rewrite Hl | done]. }
  destruct (IsToPubKey parse script) as [k|] eqn:E3; [| done].
  apply IsToPubKey_shape in E3 as [(b & x & -> & Hb & Hl & ->)|(Hl & H4 & Hp & ->)].
  - change (drop 1 (b :: x)) with x. cbn [oct nth]. rewrite take_ge by lia.
    destruct Hb as [-> | ->]; intros [= <-]; (eexists _, _; split_and!; [done | done | done | by rewrite Hl | done]).
  - rewrite H4. cbn [Z.eqb orb]. change ((4 =? 2) || (4 =? 3)) with false. change (4 =? 4) with true. cbn iota. intros [= <-].
    eexists _, _. split; [done |]. assert (Hy : oct k 64 & 1 = 0 \/ oct k 64 & 1 = 1).
    { rewrite land_1. pose proof (Z.mod_pos_bound (oct k 64) 2). lia. }
    assert (Hx : length (take 32 (drop 1 k)) = 32%nat) by (rewrite length_take, length_drop; lia).
    assert (HV : forall b, (b = 2 \/ b = 3) -> CPubKey_IsValid (b :: take 32 (drop 1 k)) = true).
    { intros b Hb. unfold CPubKey_IsValid. cbn [length]. rewrite Hx. by destruct Hb as [-> | ->]. }
    specialize (Hpc k Hl H4 Hp).
    destruct Hy as [Ey|Ey]; rewrite Ey in *; split_and!; try done; try (by rewrite Hx).
    + change (Decompress parse (4 .| 0) (take 32 (drop 1 k))) with
        (pubkey ← CPubKey_Decompress parse (2 :: take 32 (drop 1 k)); Some ([65] ++ pubkey ++ [OP_CHECKSIG])).
      unfold CPubKey_Decompress. rewrite HV by auto. change (2 .| 0) with 2 in Hpc. rewrite Hpc. by rewrite obind_Some.
    + change (Decompress parse (4 .| 1) (take 32 (drop 1 k))) with
        (pubkey ← CPubKey_Decompress parse (3 :: take 32 (drop 1 k)); Some ([65] ++ pubkey ++ [OP_CHECKSIG])).
      unfold CPubKey_Decompress. rewrite HV by auto. change (2 .| 1) with 3 in Hpc. rewrite Hpc. by rewrite obind_Some.
Qed.

Lemma script_read_write script :
  parse_compressed -> octets_ok script -> len script <= MAX_SCRIPT_SIZE ->
  exists b, script_write parse script = Some b /\ forall s, script_read parse (b ++ s) = Some (script, s).
Proof.
  intros Hpc Hok Hl. unfold script_write. destruct (Compress parse script) as [out|] eqn:E.
  - destruct (Compress_spec script out Hpc Hok E) as (c & d & -> & Hc & Hd & HD). eexists. split; [done |]. intros s.
    unfold script_read, nSpecialScripts in *. cbn [app]. rewrite ReadVarInt_small;
      [| by cbn; rewrite wrap_id by (split; cbn; lia) | split; cbn; lia | lia].
    rewrite obind_Some, (proj2 (Z.ltb_lt _ _)) by lia. rewrite ser_read_app, obind_Some by done. by rewrite HD.
  - unfold MAX_SCRIPT_SIZE, nSpecialScripts in *. rewrite wrap_id by (split; cbn; lia).
    destruct (WriteVarInt_total (unsigned_t 32) (2 ^ 32 - 1) (len script + 6)) as (n & -> & _ & _ & HR);
      [by apply unsigned_max | lia |]. rewrite obind_Some. eexists. split; [done |]. intros s. unfold script_read, nSpecialScripts, MAX_SCRIPT_SIZE.
    rewrite <- app_assoc, HR, obind_Some, (proj2 (Z.ltb_ge _ _)) by lia. rewrite Z.add_simpl_r, (proj2 (Z.ltb_ge _ _)) by done.
    by apply ser_read_app.
Qed.

(** ** Outputs and undo data *)

(** Outputs a block may have: an amount of money and a script that may be spent. *)
Definition storable (o : CTxOut) : Prop :=
  0 <= nValue o < 2 ^ 60 /\ octets_ok (scriptPubKey o) /\ len (scriptPubKey o) <= MAX_SCRIPT_SIZE /\ nRounds o = -10.

Lemma txout_read_write o :
  parse_compressed -> storable o -> exists b, txout_write parse o = Some b /\ forall s, txout_read parse (b ++ s) = Some (o, s).
Proof.
  intros Hpc (Hv & Ho & Hl & Hr). unfold txout_write. rewrite wrap_id by (split; lia).
  destruct (DecompressAmount_Compress (nValue o) Hv) as [ED HB].
  destruct (WriteVarInt_total (unsigned_t 64) (2 ^ 64 - 1) (CompressAmount (nValue o))) as (n & -> & _ & _ & HR);
    [by apply unsigned_max | lia |]. rewrite obind_Some.
  destruct (script_read_write (scriptPubKey o) Hpc Ho Hl) as (b & -> & HS). rewrite obind_Some. eexists. split; [done |].
  intros s. unfold txout_read. rewrite <- app_assoc, HR, obind_Some, HS, obind_Some, ED.
  destruct o as [v sc r]. cbn in *. subst r. unfold to_signed. by rewrite (proj2 (Z.ltb_lt _ _)) by (cbn; lia).
Qed.

(** The version read back: [WriteVarInt] stops at once on a negative number, of which it
    writes the low seven bits. *)
Definition stored_version (v : Z) : Z := if v <? 0 then v & 0x7F else v.

Lemma stored_version_id v : 0 <= v -> stored_version v = v.
Proof using. intros H. unfold stored_version. by rewrite (proj2 (Z.ltb_ge v 0)) by lia. Qed.

Lemma version_read_write v :
  - 2 ^ 31 <= v < 2 ^ 31 ->
  exists b, WriteVarInt (signed_t 32) v = Some b /\ forall s, ReadVarInt (signed_t 32) (b ++ s) = Some (stored_version v, s).
Proof using.
  intros Hv. unfold stored_version. destruct (Z.ltb_spec v 0) as [Hneg|Hpos].
  - exists [v & 0x7F]. split.
    + unfold WriteVarInt. cbn [it_bits signed_t]. change (Z.to_nat _) with 5%nat. cbn [varint_digits].
      by rewrite (proj2 (Z.leb_le v 0x7F)), Z.lor_0_r by lia.
    + intros s. pose proof (digit_land v) as Hd. cbn [app]. apply ReadVarInt_small; [| split; cbn; lia | lia].
      cbn [it_conv signed_t]. by rewrite (proj2 (Z.leb_le _ _)), (proj2 (Z.ltb_lt _ _)) by (cbn; lia).
  - destruct (WriteVarInt_total (signed_t 32) (2 ^ 31 - 1) v) as (b & E & _ & _ & R); [by apply (signed_max 32) | lia |]. by exists b.
Qed.

Definition undo_wf (u : CTxInUndo) : Prop :=
  storable (u_txout u) /\ 0 <= u_nHeight u < 2 ^ 31 /\ - 2 ^ 31 <= u_nVersion u < 2 ^ 31 /\ (u_nHeight u = 0 -> u_nVersion u = 0).

(** The undo data as it is read back. *)
Definition stored_undo (u : CTxInUndo) : CTxInUndo := mkUndo (u_txout u) (u_fCoinBase u) (u_nHeight u) (stored_version (u_nVersion u)).

Lemma undo_read_write u :
  parse_compressed -> undo_wf u ->
  exists b, CTxInUndo_write parse u = Some b /\ forall s, CTxInUndo_read parse (b ++ s) = Some (stored_undo u, s).
Proof.
  intros Hpc (Ho & Hh & Hv & Hv0). unfold stored_undo. unfold CTxInUndo_write. set (c := u_nHeight u * 2 + (if u_fCoinBase u then 1 else 0)).
  assert (Hc : 0 <= c < 2 ^ 32 /\ c / 2 = u_nHeight u /\ (c & 1 =? 0) = negb (u_fCoinBase u)).
  { rewrite land_1. subst c.
    rewrite (Z.add_comm (_ * 2)), Z.div_add, Z.mod_add by lia. by destruct (u_fCoinBase u); split_and!; try lia. }
  clearbody c. destruct Hc as (Hc & Ec1 & Ec2). rewrite wrap_id by (split; lia).
  destruct (WriteVarInt_total (unsigned_t 32) (2 ^ 32 - 1) c) as (n & -> & _ & _ & HR); [by apply unsigned_max | lia |].
  rewrite obind_Some. destruct (txout_read_write (u_txout u) Hpc Ho) as (ob & -> & HO).
  destruct (version_read_write (u_nVersion u) Hv) as (v & EV & HV).
  unfold CTxInUndo_read. destruct u as [o cb h ver]. cbn [u_nHeight u_nVersion u_fCoinBase u_txout] in *.
  destruct (Z.ltb_spec 0 h) as [Hpos|Hnp].
  - rewrite EV, !obind_Some. eexists. split; [done |]. intros s. rewrite <- !app_assoc, HR, obind_Some, Ec1, Ec2.
    rewrite (proj2 (Z.ltb_lt 0 h)) by done. rewrite HV, obind_Some, HO, obind_Some. by rewrite negb_involutive.
  - rewrite !obind_Some. eexists. split; [done |]. intros s. rewrite <- !app_assoc, HR, obind_Some, Ec1, Ec2.
    rewrite (proj2 (Z.ltb_ge 0 h)) by done. cbn [app]. rewrite obind_Some, HO, obind_Some, negb_involutive.
    assert (h = 0) as -> by lia. by rewrite Hv0, (stored_version_id 0).
Qed.

End Scripts.
