(* ===== verification/Coins.v ===== *)
(** * The set of unspent outputs: coins.h, coins.cpp, CCoinsViewDB of txdb.cpp, and the
    functions of main.cpp that apply and undo a transaction

    A [CCoinsView] is a type of states with the virtual methods; methods that are [const]
    may still fill a cache, so that they return the state too.  [CCoinsViewCache] is a view
    over any view; [CCoinsViewDB] is the view of the database.  A hash map is a finite map;
    memory accounting is left out.  The second part relates views to one map of unspent
    outputs. *)

From stdpp Require Import gmap.
From S2P Require Import Prelude MdHash Hash Script Interpreter Serialize Transaction Compressor.
#[local] Open Scope Z_scope.

(** ** [CCoins] *)

Record CCoins := mkCoins { fCoinBase : bool; c_vout : list CTxOut; c_nHeight : Z; c_nVersion : Z }.

#[export] Instance CCoins_eq_dec : EqDecision CCoins.
Proof. solve_decision. Defined.

Definition CCoins_empty : CCoins := mkCoins false [] 0 0.

(** [while (vout.size() > 0 && vout.back().IsNull()) vout.pop_back()]: the spent outputs at
    the end go. *)
Definition Cleanup_vout : list CTxOut -> list CTxOut :=
  foldr (fun o l => match l with [] => if CTxOut_IsNull o then [] else [o] | _ => o :: l end) [].

Definition set_vout (c : CCoins) (v : list CTxOut) : CCoins := mkCoins (fCoinBase c) v (c_nHeight c) (c_nVersion c).
Definition Cleanup (c : CCoins) : CCoins := set_vout c (Cleanup_vout (c_vout c)).

Definition ClearUnspendable (c : CCoins) : CCoins :=
  Cleanup (set_vout c ((fun o => if IsUnspendable (scriptPubKey o) then CTxOut_null else o) <$> c_vout c)).

Definition FromTx (tx : CTransaction) (nHeightIn : Z) : CCoins :=
  ClearUnspendable (mkCoins (IsCoinBase tx) (vout tx) nHeightIn (tx_nVersion tx)).

Definition IsAvailable (c : CCoins) (nPos : Z) : bool :=
  match c_vout c !! Z.to_nat nPos with Some o => negb (CTxOut_IsNull o) | None => false end.

Definition IsPruned (c : CCoins) : bool := forallb CTxOut_IsNull (c_vout c).

(** [Spend]: false, or the coins with the output spent. *)
Definition Spend (c : CCoins) (nPos : Z) : bool * CCoins :=
  if IsAvailable c nPos then (true, Cleanup (set_vout c (<[Z.to_nat nPos := CTxOut_null]> (c_vout c)))) else (false, c).

(** [operator==]. *)
Definition CCoins_eqb (a b : CCoins) : bool :=
  if IsPruned a && IsPruned b then true
  else Bool.eqb (fCoinBase a) (fCoinBase b) && (c_nHeight a =? c_nHeight b) && (c_nVersion a =? c_nVersion b) &&
       bool_decide ((fun o => (nValue o, scriptPubKey o)) <$> c_vout a = (fun o => (nValue o, scriptPubKey o)) <$> c_vout b).

(** ** Serialization of [CCoins] *)

Definition avail (v : list CTxOut) (i : nat) : bool :=
  match v !! i with Some o => negb (CTxOut_IsNull o) | None => false end.

(** [for (b = 0; 2+b*8 < vout.size(); b++)]. *)
Definition mask_bytes (v : list CTxOut) : nat := (length v - 2 + 7) / 8.

(** [fZero]: none of the eight outputs is available. *)
Definition mask_zero (v : list CTxOut) (b : nat) : bool := forallb (fun i => negb (avail v (2 + b * 8 + i))) (seq 0 8).

(** [nBytes] and [nNonzeroBytes]. *)
Definition CalcMaskSize (v : list CTxOut) : nat * nat :=
  foldl (fun '(nLastUsedByte, nNonzeroBytes) b =>
    if mask_zero v b then (nLastUsedByte, nNonzeroBytes) else (S b, S nNonzeroBytes)) (0%nat, 0%nat) (seq 0 (mask_bytes v)).

(** [chAvail |= (1 << i)]. *)
Definition mask_octet (v : list CTxOut) (b : nat) : Z :=
  foldl (fun chAvail i => if avail v (2 + b * 8 + i) then chAvail .| (1 << Z.of_nat i) else chAvail) 0 (seq 0 8).

Section CoinsSer.
Context (parse : list Z -> option (list Z)).

Definition write_outs (v : list CTxOut) : option (list Z) :=
  @concat Z <$> mapM (fun o => if CTxOut_IsNull o then Some [] else txout_write parse o) v.

(** [None]: the assertion fails. *)
Definition CCoins_write (c : CCoins) : option (list Z) :=
  let '(nMaskSize, nMaskCode) := CalcMaskSize (c_vout c) in
  let fFirst := avail (c_vout c) 0 in
  let fSecond := avail (c_vout c) 1 in
  if negb (fFirst || fSecond || negb (Nat.eqb nMaskCode 0)) then None
  else
    let nCode := u32 (8 * (Z.of_nat nMaskCode - (if fFirst || fSecond then 0 else 1)) + (if fCoinBase c then 1 else 0) +
                      (if fFirst then 2 else 0) + (if fSecond then 4 else 0)) in
    ver ← WriteVarInt (signed_t 32) (c_nVersion c);
    code ← WriteVarInt (unsigned_t 32) nCode;
    outs ← write_outs (c_vout c);
    h ← WriteVarInt (signed_t 32) (c_nHeight c);
    Some (ver ++ code ++ (mask_octet (c_vout c) <$> seq 0 nMaskSize) ++ outs ++ h).

(** [while (nMaskCode > 0)]: the octets of the mask, pushed to [vAvail]. *)
Fixpoint read_mask (nMaskCode : Z) (vAvail : list bool) (s : list Z) : option (list bool * list Z) :=
  if 0 <? nMaskCode then
    match s with
    | [] => None
    | chAvail :: s =>
        let vAvail := vAvail ++ ((fun p => negb (chAvail & (1 << Z.of_nat p) =? 0)) <$> seq 0 8) in
        read_mask (if negb (chAvail =? 0) then nMaskCode - 1 else nMaskCode) vAvail s
    end
  else Some (vAvail, s).

Fixpoint read_outs (vAvail : list bool) (s : list Z) : option (list CTxOut * list Z) :=
  match vAvail with
  | [] => Some ([], s)
  | a :: vAvail =>
      '(o, s) ← (if (a : bool) then txout_read parse s else Some (CTxOut_null, s));
      '(v, s) ← read_outs vAvail s;
      Some (o :: v, s)
  end.

Definition CCoins_read : reader CCoins := fun s =>
  '(ver, s) ← ReadVarInt (signed_t 32) s;
  '(nCode, s) ← ReadVarInt (unsigned_t 32) s;
  let vAvail := [negb (nCode & 2 =? 0); negb (nCode & 4 =? 0)] in
  let nMaskCode := nCode / 8 + (if negb (nCode & 6 =? 0) then 0 else 1) in
  '(vAvail, s) ← read_mask nMaskCode vAvail s;
  '(v, s) ← read_outs vAvail s;
  '(h, s) ← ReadVarInt (signed_t 32) s;
  Some (Cleanup (mkCoins (negb (nCode & 1 =? 0)) v h ver), s).

End CoinsSer.

(** ** Views *)

Record CCoinsCacheEntry := mkEntry { coins : CCoins; DIRTY : bool; FRESH : bool }.

Abbreviation CCoinsMap := (gmap (list Z) CCoinsCacheEntry).

Class CCoinsView (V : Type) := {
  GetCoins : V -> list Z -> option CCoins * V;
  HaveCoins : V -> list Z -> bool * V;
  GetBestBlock : V -> list Z * V;
  BatchWrite : V -> CCoinsMap -> list Z -> option V;
}.

(** [CCoinsViewDB]: LevelDB as a map from transaction ids to coins. *)
Record CCoinsViewDB := mkDB { db_coins : gmap (list Z) CCoins; db_best : option (list Z) }.

Definition db_write (m : gmap (list Z) CCoins) (it : list Z * CCoinsCacheEntry) : gmap (list Z) CCoins :=
  if DIRTY it.2 then if IsPruned (coins it.2) then delete it.1 m else <[it.1 := coins it.2]> m else m.

#[export] Instance CCoinsViewDB_view : CCoinsView CCoinsViewDB := {|
  GetCoins v txid := (db_coins v !! txid, v);
  HaveCoins v txid := (bool_decide (is_Some (db_coins v !! txid)), v);
  GetBestBlock v := (default uint256_null (db_best v), v);
  BatchWrite v mapCoins hashBlock := Some (mkDB (foldl db_write (db_coins v) (map_to_list mapCoins))
    (if uint256_IsNull hashBlock then db_best v else Some hashBlock));
|}.

(** ** [CCoinsViewCache] *)

Record CCoinsViewCache (V : Type) := mkCache {
  base : V;
  hasModifier : bool;
  hashBlock : list Z;
  cacheCoins : CCoinsMap;
}.
Arguments mkCache {V}.
Arguments base {V}.
Arguments hasModifier {V}.
Arguments hashBlock {V}.
Arguments cacheCoins {V}.

Section Cache.
Context `{CCoinsView V}.

Definition set_cacheCoins (c : CCoinsViewCache V) (m : CCoinsMap) : CCoinsViewCache V :=
  mkCache (base c) (hasModifier c) (hashBlock c) m.

(** [FetchCoins]: the entry, [None] for [end()]. *)
Definition FetchCoins (c : CCoinsViewCache V) (txid : list Z) : option CCoinsCacheEntry * CCoinsViewCache V :=
  match cacheCoins c !! txid with
  | Some e => (Some e, c)
  | None =>
      let '(tmp, b) := GetCoins (base c) txid in
      let c := mkCache b (hasModifier c) (hashBlock c) (cacheCoins c) in
      match tmp with
      | None => (None, c)
      | Some tmp =>
          let e := mkEntry tmp false (IsPruned tmp) in
          (Some e, set_cacheCoins c (<[txid := e]> (cacheCoins c)))
      end
  end.

Definition cache_GetCoins (c : CCoinsViewCache V) (txid : list Z) : option CCoins * CCoinsViewCache V :=
  let '(it, c) := FetchCoins c txid in (coins <$> it, c).

(** [AccessCoins]: the pointer, [None] for [NULL]. *)
Definition AccessCoins : CCoinsViewCache V -> list Z -> option CCoins * CCoinsViewCache V := cache_GetCoins.

Definition cache_HaveCoins (c : CCoinsViewCache V) (txid : list Z) : bool * CCoinsViewCache V :=
  let '(it, c) := FetchCoins c txid in
  (match it with Some e => negb (bool_decide (c_vout (coins e) = [])) | None => false end, c).

Definition HaveCoinsInCache (c : CCoinsViewCache V) (txid : list Z) : bool := bool_decide (is_Some (cacheCoins c !! txid)).

Definition cache_GetBestBlock (c : CCoinsViewCache V) : list Z * CCoinsViewCache V :=
  if uint256_IsNull (hashBlock c) then
    let '(h, b) := GetBestBlock (base c) in (h, mkCache b (hasModifier c) h (cacheCoins c))
  else (hashBlock c, c).

Definition SetBestBlock (c : CCoinsViewCache V) (hashBlockIn : list Z) : CCoinsViewCache V :=
  mkCache (base c) (hasModifier c) hashBlockIn (cacheCoins c).

(** *** Modification

    [ModifyCoins] and [ModifyNewCoins] open a modifier on an entry, which is in the map
    while it is modified; its destructor closes it. *)

Definition ModifyCoins (c : CCoinsViewCache V) (txid : list Z) : option (CCoinsViewCache V) :=
  if hasModifier c then None
  else
    let '(e, b) :=
      match cacheCoins c !! txid with
      | Some e => (e, base c)
      | None =>
          match GetCoins (base c) txid with
          | (None, b) => (mkEntry CCoins_empty false true, b)
          | (Some tmp, b) => (mkEntry tmp false (IsPruned tmp), b)
          end
      end in
    Some (mkCache b true (hashBlock c) (<[txid := mkEntry (coins e) true (FRESH e)]> (cacheCoins c))).

Definition ModifyNewCoins (c : CCoinsViewCache V) (txid : list Z) (coinbase : bool) : option (CCoinsViewCache V) :=
  if hasModifier c then None
  else
    let e := default (mkEntry CCoins_empty false false) (cacheCoins c !! txid) in
    let fresh := if negb coinbase then true else FRESH e in
    Some (mkCache (base c) true (hashBlock c) (<[txid := mkEntry CCoins_empty true fresh]> (cacheCoins c))).

(** What is done through the modifier. *)
Definition modify (c : CCoinsViewCache V) (txid : list Z) (f : CCoins -> CCoins) : CCoinsViewCache V :=
  set_cacheCoins c (alter (fun e => mkEntry (f (coins e)) (DIRTY e) (FRESH e)) txid (cacheCoins c)).

(** [~CCoinsModifier]. *)
Definition close_modifier (c : CCoinsViewCache V) (txid : list Z) : option (CCoinsViewCache V) :=
  if negb (hasModifier c) then None
  else
    e ← cacheCoins c !! txid;
    let e := mkEntry (Cleanup (coins e)) (DIRTY e) (FRESH e) in
    Some (mkCache (base c) false (hashBlock c)
      (if FRESH e && IsPruned (coins e) then delete txid (cacheCoins c) else <[txid := e]> (cacheCoins c))).

(** The coins the open modifier refers to. *)
Definition modified (c : CCoinsViewCache V) (txid : list Z) : CCoins := default CCoins_empty (coins <$> cacheCoins c !! txid).

(** One iteration of [BatchWrite]. *)
Definition batch_step (m : CCoinsMap) (it : list Z * CCoinsCacheEntry) : CCoinsMap :=
  let '(txid, e) := it in
  if DIRTY e then
    match m !! txid with
    | None =>
        if FRESH e && IsPruned (coins e) then m else <[txid := mkEntry (coins e) true (FRESH e)]> m
    | Some us =>
        if FRESH us && IsPruned (coins e) then delete txid m
        else <[txid := mkEntry (coins e) true (FRESH us)]> m
    end
  else m.

Definition cache_BatchWrite (c : CCoinsViewCache V) (mapCoins : CCoinsMap) (hashBlockIn : list Z) : option (CCoinsViewCache V) :=
  if hasModifier c then None
  else Some (mkCache (base c) false hashBlockIn (foldl batch_step (cacheCoins c) (map_to_list mapCoins))).

(** [Flush]: the changes go to the base. *)
Definition Flush (c : CCoinsViewCache V) : option (CCoinsViewCache V) :=
  b ← BatchWrite (base c) (cacheCoins c) (hashBlock c);
  Some (mkCache b (hasModifier c) (hashBlock c) ∅).

Definition Uncache (c : CCoinsViewCache V) (txid : list Z) : CCoinsViewCache V :=
  match cacheCoins c !! txid with
  | Some e => if negb (DIRTY e) && negb (FRESH e) then set_cacheCoins c (delete txid (cacheCoins c)) else c
  | None => c
  end.

(** *** Queries on the inputs of a transaction *)

(** [None]: the assertion fails. *)
Definition GetOutputFor (c : CCoinsViewCache V) (input : CTxIn) : option (CTxOut * CCoinsViewCache V) :=
  let '(p, c) := AccessCoins c (out_hash (prevout input)) in
  cs ← p;
  if IsAvailable cs (out_n (prevout input)) then o ← c_vout cs !! Z.to_nat (out_n (prevout input)); Some (o, c) else None.

(** Transactions whose inputs are not outputs. *)
Definition no_coins (tx : CTransaction) : bool :=
  IsCoinBase tx || IsZerocoinSpend tx || IsSigmaSpend tx || IsZerocoinRemint tx.

Fixpoint HaveInputs_loop (c : CCoinsViewCache V) (ins : list CTxIn) : bool * CCoinsViewCache V :=
  match ins with
  | [] => (true, c)
  | i :: ins =>
      let '(p, c) := AccessCoins c (out_hash (prevout i)) in
      match p with
      | Some cs => if IsAvailable cs (out_n (prevout i)) then HaveInputs_loop c ins else (false, c)
      | None => (false, c)
      end
  end.

Definition HaveInputs (c : CCoinsViewCache V) (tx : CTransaction) : bool * CCoinsViewCache V :=
  if negb (no_coins tx) then HaveInputs_loop c (vin tx) else (true, c).

(** [nResult += ..]; overflow is undefined. *)
Fixpoint GetValueIn_loop (c : CCoinsViewCache V) (ins : list CTxIn) (nResult : Z) : outcome (Z * CCoinsViewCache V) :=
  match ins with
  | [] => Ret (nResult, c)
  | i :: ins =>
      let* (o, c) := must (GetOutputFor c i) in
      let* nResult := int64 (nResult + nValue o) in
      GetValueIn_loop c ins nResult
  end.

Definition GetValueIn (c : CCoinsViewCache V) (tx : CTransaction) : outcome (Z * CCoinsViewCache V) :=
  if no_coins tx then Ret (0, c) else GetValueIn_loop c (vin tx) 0.

(** ** Applying and undoing a transaction (main.cpp) *)

(** One turn of the loop of [UpdateCoins]: the input is spent.  [None]: an assertion. *)
Definition spend_input (c : CCoinsViewCache V) (txin : CTxIn) : option (CTxInUndo * CCoinsViewCache V) :=
  let txid := out_hash (prevout txin) in
  let nPos := out_n (prevout txin) in
  c ← ModifyCoins c txid;
  let cs := modified c txid in
  if IsAvailable cs nPos then
    o ← c_vout cs !! Z.to_nat nPos;
    let c := modify c txid (fun cs => (Spend cs nPos).2) in
    let cs := modified c txid in
    let undo := if decide (c_vout cs = []) then mkUndo o (fCoinBase cs) (u32 (c_nHeight cs)) (c_nVersion cs)
                else mkUndo o false 0 0 in
    c ← close_modifier c txid;
    Some (undo, c)
  else None.

Fixpoint spend_inputs (c : CCoinsViewCache V) (ins : list CTxIn) : option (list CTxInUndo * CCoinsViewCache V) :=
  match ins with
  | [] => Some ([], c)
  | i :: ins =>
      '(u, c) ← spend_input c i;
      '(us, c) ← spend_inputs c ins;
      Some (u :: us, c)
  end.

(** [hash] is [tx.GetHash()]; the undo data and the new state. *)
Definition UpdateCoins (tx : CTransaction) (hash : list Z) (inputs : CCoinsViewCache V) (nHeight : Z)
    : option (list CTxInUndo * CCoinsViewCache V) :=
  '(txundo, c) ← (if negb (no_coins tx) then spend_inputs inputs (vin tx) else Some ([], inputs));
  c ← ModifyNewCoins c hash (IsCoinBase tx);
  let c := modify c hash (fun _ => FromTx tx nHeight) in
  c ← close_modifier c hash;
  Some (txundo, c).

(** [coins->vout.resize(n)] when it is smaller. *)
Definition vout_grow (n : nat) (v : list CTxOut) : list CTxOut := v ++ replicate (n - length v) CTxOut_null.

(** [ApplyTxInUndo]: [fClean] and the new state; [None] is an assertion or an access out of
    range. *)
Definition ApplyTxInUndo (undo : CTxInUndo) (view : CCoinsViewCache V) (out : COutPoint) : option (bool * CCoinsViewCache V) :=
  c ← ModifyCoins view (out_hash out);
  let cs := modified c (out_hash out) in
  let fClean := if negb (u_nHeight undo =? 0) then IsPruned cs else negb (IsPruned cs) in
  let c := if negb (u_nHeight undo =? 0)
    then modify c (out_hash out) (fun _ => mkCoins (u_fCoinBase undo) [] (to_signed 32 (u_nHeight undo)) (u_nVersion undo)) else c in
  let cs := modified c (out_hash out) in
  let fClean := fClean && negb (IsAvailable cs (out_n out)) in
  let v := vout_grow (Z.to_nat (u32 (out_n out + 1))) (c_vout cs) in
  if len v <=? out_n out then None
  else
    let c := modify c (out_hash out) (fun cs => set_vout cs (<[Z.to_nat (out_n out) := u_txout undo]> v)) in
    c ← close_modifier c (out_hash out);
    Some (fClean, c).

(** The loop over the inputs, from the last to the first. *)
Fixpoint apply_undos (l : list (CTxIn * CTxInUndo)) (fClean : bool) (view : CCoinsViewCache V) : option (bool * CCoinsViewCache V) :=
  match l with
  | [] => Some (fClean, view)
  | (i, u) :: l =>
      '(ok, view) ← ApplyTxInUndo u view (prevout i);
      apply_undos l (fClean && ok) view
  end.

(** One turn of the loop of [DisconnectBlock] on the coins: the outputs are checked and
    removed, the inputs restored; [None] is an assertion, [Some None] an error returned. *)
Definition disconnect_tx (tx : CTransaction) (hash : list Z) (nHeight : Z) (txundo : list CTxInUndo)
    (fClean : bool) (view : CCoinsViewCache V) : option (option (bool * CCoinsViewCache V)) :=
  c ← ModifyCoins view hash;
  let c := modify c hash ClearUnspendable in
  let outsBlock := FromTx tx nHeight in
  let c := if c_nVersion outsBlock <? 0
    then modify c hash (fun cs => mkCoins (fCoinBase cs) (c_vout cs) (c_nHeight cs) (c_nVersion outsBlock)) else c in
  let fClean := fClean && CCoins_eqb (modified c hash) outsBlock in
  let c := modify c hash (fun _ => CCoins_empty) in
  c ← close_modifier c hash;
  if negb (no_coins tx) then
    if negb (Nat.eqb (length txundo) (length (vin tx))) then Some None
    else Some <$> apply_undos (rev (zip (vin tx) txundo)) fClean c
  else Some (Some (fClean, c)).

End Cache.

(** A cache is a view. *)
#[export] Instance CCoinsViewCache_view `{CCoinsView V} : CCoinsView (CCoinsViewCache V) := {|
  GetCoins := cache_GetCoins; HaveCoins := cache_HaveCoins; GetBestBlock := cache_GetBestBlock; BatchWrite := cache_BatchWrite |}.

(** * The coins cache refines a map of unspent outputs

    What a view promises ([CCoinsViewOk]): a map from transaction ids to the coins that have
    an unspent output, which reading does not change and which [BatchWrite] updates with the
    dirty entries.  The database view keeps the promise, and a cache over any view that keeps
    it keeps it too. *)

#[local] Open Scope Z_scope.

(** ** Coins *)

(** Spent outputs are exactly [CTxOut_null], and none is at the end. *)
Record coins_ok (c : CCoins) : Prop := {
  ok_clean : Cleanup_vout (c_vout c) = c_vout c;
  ok_null : Forall (fun o => CTxOut_IsNull o = true -> o = CTxOut_null) (c_vout c);
  ok_len : len (c_vout c) < 2 ^ 32;
}.

(** Coins with no unspent output are the same as none. *)
Definition norm (c : CCoins) : option CCoins := if IsPruned c then None else Some c.

Lemma Cleanup_vout_cons o l :
  Cleanup_vout (o :: l) = match Cleanup_vout l with [] => if CTxOut_IsNull o then [] else [o] | l' => o :: l' end.
Proof. unfold Cleanup_vout. cbn [foldr]. by destruct (foldr _ _ l). Qed.

(** What is removed is null. *)
Lemma Cleanup_vout_spec l :
  exists k, l = Cleanup_vout l ++ k /\ Forall (fun o => CTxOut_IsNull o = true) k.
Proof.
  induction l as [|o l (k & E & Hk)]; [by exists [] |]. rewrite Cleanup_vout_cons.
  destruct (Cleanup_vout l) as [|o' l'] eqn:EC.
  - cbn in E. subst k. destruct (CTxOut_IsNull o) eqn:En; [exists (o :: l); split; [done | by constructor] | by exists l].
  - exists k. rewrite E at 1. done.
Qed.

Lemma Cleanup_vout_idemp l : Cleanup_vout (Cleanup_vout l) = Cleanup_vout l.
Proof.
  induction l as [|o l IH]; [done |]. rewrite Cleanup_vout_cons. destruct (Cleanup_vout l) as [|o' l'] eqn:E.
  - destruct (CTxOut_IsNull o) eqn:En; [done |]. cbn. by rewrite En.
  - rewrite Cleanup_vout_cons, IH. done.
Qed.

Lemma IsPruned_Cleanup c : IsPruned (Cleanup c) = IsPruned c.
Proof.
  unfold IsPruned, Cleanup, set_vout. cbn [c_vout]. destruct (Cleanup_vout_spec (c_vout c)) as (k & E & Hk).
  rewrite E at 2. rewrite forallb_app. replace (forallb CTxOut_IsNull k) with true; [by rewrite andb_true_r |].
  symmetry. apply forallb_forall. intros x Hx%list_elem_of_In. by apply (proj1 (list.Forall_forall _ _) Hk).
Qed.

(** Pruned and clean is empty. *)
Lemma pruned_clean l : Cleanup_vout l = l -> forallb CTxOut_IsNull l = true -> l = [].
Proof.
  induction l as [|o l IH]; [done |]. rewrite Cleanup_vout_cons. intros E H. cbn [forallb] in H.
  apply andb_true_iff in H as [Ho Hl]. destruct (Cleanup_vout l) as [|o' l'] eqn:EC.
  - by rewrite Ho in E.
  - apply (inj (cons o)) in E. specialize (IH E Hl). by rewrite IH in E.
Qed.

Lemma IsPruned_ok c : coins_ok c -> IsPruned c = bool_decide (c_vout c = []).
Proof.
  intros [Hc _ _]. unfold IsPruned. destruct (forallb _ _) eqn:E.
  - symmetry. apply bool_decide_eq_true. by apply pruned_clean.
  - symmetry. apply bool_decide_eq_false. intros E'. by rewrite E' in E.
Qed.

Lemma Cleanup_id c : coins_ok c -> Cleanup c = c.
Proof. intros [Hc _ _]. unfold Cleanup, set_vout. rewrite Hc. by destruct c. Qed.

Lemma Cleanup_ok c :
  Forall (fun o => CTxOut_IsNull o = true -> o = CTxOut_null) (c_vout c) -> len (c_vout c) < 2 ^ 32 -> coins_ok (Cleanup c).
Proof.
  intros Hn Hl. destruct (Cleanup_vout_spec (c_vout c)) as (k & E & _). split; cbn [Cleanup set_vout c_vout].
  - apply Cleanup_vout_idemp.
  - rewrite E in Hn. by apply Forall_app in Hn as [? _].
  - rewrite E in Hl. rewrite length_app in Hl. lia.
Qed.

Lemma empty_ok : coins_ok CCoins_empty.
Proof. split; [done | constructor | done]. Qed.

Lemma norm_Some c c' : norm c = Some c' -> c' = c /\ IsPruned c = false.
Proof. unfold norm. destruct (IsPruned c); [done |]. by intros [= <-]. Qed.

(** ** The promise of a view *)

Abbreviation utxo_map := (list Z -> option CCoins).

(** The entries that may be written over [u]: a fresh one is not in it. *)
Definition batch_ok (u : utxo_map) (m : CCoinsMap) : Prop := forall t e,
  m !! t = Some e -> coins_ok (coins e) /\ (FRESH e = true -> u t = None).

Definition batch_utxo (u : utxo_map) (m : CCoinsMap) : utxo_map := fun t =>
  match m !! t with Some e => if DIRTY e then norm (coins e) else u t | None => u t end.

Class CCoinsViewOk (V : Type) {HV : CCoinsView V} := {
  view_ok : V -> Prop;
  utxo : V -> utxo_map;
  utxo_wf v t c : view_ok v -> utxo v t = Some c -> coins_ok c /\ IsPruned c = false;
  GetCoins_spec v t : view_ok v -> let '(r, v') := GetCoins v t in
    view_ok v' /\ (forall t', utxo v' t' = utxo v t') /\ (r ≫= norm) = utxo v t /\ (forall c, r = Some c -> coins_ok c);
  HaveCoins_spec v t : view_ok v -> let '(r, v') := HaveCoins v t in
    view_ok v' /\ (forall t', utxo v' t' = utxo v t') /\ r = bool_decide (is_Some (utxo v t));
  BatchWrite_spec v m h : view_ok v -> batch_ok (utxo v) m ->
    exists v', BatchWrite v m h = Some v' /\ view_ok v' /\ forall t, utxo v' t = batch_utxo (utxo v) m t;
}.

(** *** The database *)

Definition db_ok (v : CCoinsViewDB) : Prop := forall t c, db_coins v !! t = Some c -> coins_ok c /\ IsPruned c = false.

(** A fold of steps that each touch their own key. *)
Lemma fold_local {A B} (step : gmap (list Z) A -> list Z * B -> gmap (list Z) A) (l : list (list Z * B)) m :
  (forall m t e t', t' <> t -> step m (t, e) !! t' = m !! t') ->
  (forall m m' t e, m !! t = m' !! t -> step m (t, e) !! t = step m' (t, e) !! t) ->
  NoDup l.*1 -> forall t,
  foldl step m l !! t = match (list_to_map l : gmap (list Z) B) !! t with Some e => step m (t, e) !! t | None => m !! t end.
Proof.
  intros Hother Hown. revert m. induction l as [|[t0 e0] l IH]; intros m Hnd t; [done |].
  rewrite fmap_cons in Hnd. inversion_clear Hnd as [|? ? Hni Hnd']. cbn [foldl list_to_map foldr]. rewrite IH by done. clear IH.
  destruct (decide (t = t0)) as [->|Hne].
  - rewrite not_elem_of_list_to_map_1 by done. by rewrite lookup_insert_eq.
  - rewrite lookup_insert_ne by done. destruct (list_to_map l !! t) as [e|].
    + apply Hown. by apply Hother.
    + by apply Hother.
Qed.

Lemma fold_map_to_list {A B} (step : gmap (list Z) A -> list Z * B -> gmap (list Z) A) (b : gmap (list Z) B) m :
  (forall m t e t', t' <> t -> step m (t, e) !! t' = m !! t') ->
  (forall m m' t e, m !! t = m' !! t -> step m (t, e) !! t = step m' (t, e) !! t) ->
  forall t, foldl step m (map_to_list b) !! t = match b !! t with Some e => step m (t, e) !! t | None => m !! t end.
Proof.
  intros H1 H2 t. rewrite (fold_local step); [by rewrite list_to_map_to_list | done | done | apply NoDup_fst_map_to_list].
Qed.

#[export] Program Instance CCoinsViewDB_ok : CCoinsViewOk CCoinsViewDB := {|
  view_ok := db_ok;
  utxo v t := db_coins v !! t;
|}.
Next Obligation. intros v t c Hv Hc. by apply (Hv t). Qed.
Next Obligation.
  intros v t Hv. cbn. split_and!; [done | done | |].
  - destruct (db_coins v !! t) as [c|] eqn:E; [| done]. cbn. unfold norm. by rewrite (proj2 (Hv t c E)).
  - intros c E. by apply (Hv t c).
Qed.
Next Obligation. done. Qed.
Next Obligation.
  intros v m h Hv Hm. eexists. split; [done |].
  assert (HL : forall t, foldl db_write (db_coins v) (map_to_list m) !! t = batch_utxo (fun t => db_coins v !! t) m t).
  { intros t. rewrite fold_map_to_list.
    - unfold batch_utxo. destruct (m !! t) as [e|]; [| done]. unfold db_write, norm. cbn [fst snd].
      destruct (DIRTY e); [| done]. destruct (IsPruned (coins e)); [apply lookup_delete_eq | apply lookup_insert_eq].
    - intros m0 t0 e t' Hne. unfold db_write. cbn [fst snd]. repeat case_match; [by rewrite lookup_delete_ne | by rewrite lookup_insert_ne | done].
    - intros m0 m0' t0 e E. unfold db_write. cbn [fst snd]. repeat case_match; [by rewrite !lookup_delete_eq | by rewrite !lookup_insert_eq | done]. }
  split; [| done]. intros t c. cbn [db_coins]. rewrite HL. unfold batch_utxo. destruct (m !! t) as [e|] eqn:E; [| apply Hv].
  destruct (DIRTY e); [| apply Hv]. intros [-> Hp]%norm_Some. split; [by apply (Hm t e) | done].
Qed.

(** *** The cache *)

Section Cache.
Context {V : Type} {HV : CCoinsView V} {OK : CCoinsViewOk V}.
Implicit Types c : CCoinsViewCache V.

Definition cache_utxo c : utxo_map := fun t =>
  match cacheCoins c !! t with Some e => norm (coins e) | None => utxo (base c) t end.

(** A fresh entry is not in the base; one that is not dirty is as in the base. *)
Definition entry_ok (u : utxo_map) (t : list Z) (e : CCoinsCacheEntry) : Prop :=
  coins_ok (coins e) /\ (FRESH e = true -> u t = None) /\ (DIRTY e = false -> norm (coins e) = u t).

Definition entries_ok (u : utxo_map) (m : CCoinsMap) : Prop := forall t e, m !! t = Some e -> entry_ok u t e.

Record cache_ok c : Prop := {
  cok_base : view_ok (base c);
  cok_modifier : hasModifier c = false;
  cok_entries : entries_ok (utxo (base c)) (cacheCoins c);
}.

Lemma entries_ok_ext u u' m : (forall t, u' t = u t) -> entries_ok u m -> entries_ok u' m.
Proof using. intros E Hm t e He. specialize (Hm t e He). unfold entry_ok in *. by rewrite E. Qed.

Lemma entries_ok_insert u m t e : entries_ok u m -> entry_ok u t e -> entries_ok u (<[t := e]> m).
Proof using.
  intros Hm He t' e'. destruct (decide (t' = t)) as [->|Hne].
  - rewrite lookup_insert_eq. by intros [= <-].
  - rewrite lookup_insert_ne by done. apply Hm.
Qed.

Lemma entries_ok_delete u m t : entries_ok u m -> entries_ok u (delete t m).
Proof using. intros Hm t' e' [_ He]%lookup_delete_Some. by apply Hm. Qed.

(** An entry loaded from the base. *)
Lemma loaded_entry_ok u t tmp : coins_ok tmp -> norm tmp = u t -> entry_ok u t (mkEntry tmp false (IsPruned tmp)).
Proof using. intros Hok E. split_and!; [done | | done]. cbn. intros Hp. rewrite <- E. unfold norm. by rewrite Hp. Qed.

(** [FetchCoins] returns the coins of the map and changes nothing but what is cached. *)
Lemma FetchCoins_spec c t :
  cache_ok c -> let '(r, c') := FetchCoins c t in
  cache_ok c' /\ (forall t', cache_utxo c' t' = cache_utxo c t') /\ hashBlock c' = hashBlock c /\
  ((coins <$> r) ≫= norm) = cache_utxo c t /\ (forall e, r = Some e -> coins_ok (coins e)).
Proof using.
  intros [Hb Hm He]. unfold FetchCoins, cache_utxo. destruct (cacheCoins c !! t) as [e|] eqn:E.
  - split_and!; [done | done | done | done |]. intros e' [= <-]. by apply (He t e).
  - pose proof (GetCoins_spec (base c) t Hb) as HG. destruct (GetCoins (base c) t) as [[tmp|] b]; destruct HG as (Hb' & Hu & Hn & Hc).
    + cbn in Hn. specialize (Hc tmp eq_refl).
      assert (Hent : entry_ok (utxo b) t (mkEntry tmp false (IsPruned tmp))) by (apply loaded_entry_ok; [done | by rewrite Hn, Hu]).
      split_and!; [split; cbn; [done | done |] | | done | done | by intros e [= <-]].
      * apply entries_ok_insert; [| done]. by apply (entries_ok_ext (utxo (base c))).
      * intros t'. cbn [cacheCoins set_cacheCoins base]. destruct (decide (t' = t)) as [->|Hne].
        -- rewrite lookup_insert_eq, E. cbn [coins]. done.
        -- rewrite lookup_insert_ne by done. by destruct (cacheCoins c !! t').
    + cbn in Hn. split_and!; [split; cbn; [done | done |] | | done | done | done].
      * by apply (entries_ok_ext (utxo (base c))).
      * intros t'. cbn [cacheCoins base]. by destruct (cacheCoins c !! t').
Qed.

Lemma cache_utxo_wf c t cs : cache_ok c -> cache_utxo c t = Some cs -> coins_ok cs /\ IsPruned cs = false.
Proof using.
  intros [Hb _ He]. unfold cache_utxo. destruct (cacheCoins c !! t) as [e|] eqn:E; [| by apply utxo_wf].
  intros [-> Hp]%norm_Some. split; [by apply (He t e) | done].
Qed.

(** *** [BatchWrite] and [Flush] *)

Lemma batch_step_other m t e t' : t' <> t -> batch_step m (t, e) !! t' = m !! t'.
Proof using.
  intros Hne. unfold batch_step. repeat case_match; try done;
    first [by rewrite lookup_delete_ne | by rewrite lookup_insert_ne].
Qed.

Lemma batch_step_own m m' t e : m !! t = m' !! t -> batch_step m (t, e) !! t = batch_step m' (t, e) !! t.
Proof using.
  intros E. unfold batch_step. rewrite <- E. destruct (DIRTY e); [| done]. destruct (m !! t) as [us|] eqn:E1.
  - destruct (_ && _); [by rewrite !lookup_delete_eq | by rewrite !lookup_insert_eq].
  - destruct (_ && _); [by rewrite E1 | by rewrite !lookup_insert_eq].
Qed.

(** One entry of the child, merged. *)
Lemma batch_step_spec c m t e :
  cache_ok c -> coins_ok (coins e) -> (FRESH e = true -> cache_utxo c t = None) -> m = cacheCoins c ->
  (forall x, batch_step m (t, e) !! t = Some x -> entry_ok (utxo (base c)) t x) /\
  match batch_step m (t, e) !! t with Some x => norm (coins x) | None => utxo (base c) t end =
    if DIRTY e then norm (coins e) else cache_utxo c t.
Proof using.
  intros [Hb _ He] Hok Hf ->. unfold batch_step, cache_utxo in *. destruct (cacheCoins c !! t) as [us|] eqn:E.
  - destruct (DIRTY e); [| rewrite E; split; [intros x [= <-]; by apply He | done]].
    destruct (He t us E) as (_ & Hfus & _). destruct (FRESH us) eqn:Ef; cbn [andb].
    + destruct (IsPruned (coins e)) eqn:Ep.
      * rewrite lookup_delete_eq. split; [done |]. unfold norm. rewrite Ep. by apply Hfus.
      * rewrite lookup_insert_eq. split; [| done]. intros x [= <-]. by split_and!.
    + rewrite lookup_insert_eq. split; [| done]. intros x [= <-]. by split_and!.
  - destruct (DIRTY e); [| by rewrite E]. destruct (FRESH e) eqn:Ef; cbn [andb].
    + destruct (IsPruned (coins e)) eqn:Ep.
      * rewrite E. split; [done |]. unfold norm. rewrite Ep. by apply Hf.
      * rewrite lookup_insert_eq. split; [| done]. intros x [= <-]. split_and!; [done | | done]. intros _. by apply Hf.
    + rewrite lookup_insert_eq. split; [| done]. intros x [= <-]. by split_and!.
Qed.

Lemma cache_BatchWrite_spec c m h :
  cache_ok c -> batch_ok (cache_utxo c) m ->
  exists c', cache_BatchWrite c m h = Some c' /\ cache_ok c' /\ forall t, cache_utxo c' t = batch_utxo (cache_utxo c) m t.
Proof using.
  intros Hc Hm. unfold cache_BatchWrite. rewrite (cok_modifier c Hc). eexists. split; [done |].
  assert (HL : forall t, foldl batch_step (cacheCoins c) (map_to_list m) !! t =
    match m !! t with Some e => batch_step (cacheCoins c) (t, e) !! t | None => cacheCoins c !! t end).
  { apply fold_map_to_list; [apply batch_step_other | apply batch_step_own]. }
  split.
  - split; cbn [base hasModifier cacheCoins]; [by apply Hc | done |]. intros t x. rewrite HL. destruct (m !! t) as [e|] eqn:E.
    + destruct (Hm t e E) as [H1 H2]. apply (batch_step_spec c _ t e Hc H1 H2 eq_refl).
    + apply (cok_entries c Hc).
  - intros t. unfold cache_utxo at 1. cbn [cacheCoins base]. rewrite HL. unfold batch_utxo. destruct (m !! t) as [e|] eqn:E; [| done].
    destruct (Hm t e E) as [H1 H2]. apply (batch_step_spec c _ t e Hc H1 H2 eq_refl).
Qed.

(** Flushing loses nothing. *)
Lemma Flush_spec c :
  cache_ok c -> exists c', Flush c = Some c' /\ cache_ok c' /\ cacheCoins c' = ∅ /\ forall t, cache_utxo c' t = cache_utxo c t.
Proof using.
  intros [Hb Hm He]. unfold Flush.
  destruct (BatchWrite_spec (base c) (cacheCoins c) (hashBlock c) Hb) as (b & -> & Hb' & Hu).
  { intros t e E. destruct (He t e E) as (H1 & H2 & _). done. }
  rewrite obind_Some. eexists. split; [done |]. split_and!; [split; cbn; [done | done |] | done |].
  - intros t e. rewrite lookup_empty. done.
  - intros t. unfold cache_utxo. cbn [cacheCoins base]. rewrite lookup_empty, Hu. unfold batch_utxo.
    destruct (cacheCoins c !! t) as [e|] eqn:E; [| done]. destruct (He t e E) as (_ & _ & Hd).
    destruct (DIRTY e) eqn:Ed; [done |]. by rewrite Hd.
Qed.

Lemma Uncache_spec c t : cache_ok c -> cache_ok (Uncache c t) /\ forall t', cache_utxo (Uncache c t) t' = cache_utxo c t'.
Proof using.
  intros Hc. unfold Uncache. destruct (cacheCoins c !! t) as [e|] eqn:E; [| done].
  destruct (negb (DIRTY e) && negb (FRESH e)) eqn:Ef; [| done]. apply andb_true_iff in Ef as [Ed%negb_true_iff _].
  destruct Hc as [Hb Hm He]. split; [split; cbn; [done | done | by apply entries_ok_delete] |].
  intros t'. unfold cache_utxo. cbn [cacheCoins set_cacheCoins base]. destruct (decide (t' = t)) as [->|Hne].
  - rewrite lookup_delete_eq, E. destruct (He t e E) as (_ & _ & Hd). by rewrite Hd.
  - by rewrite lookup_delete_ne.
Qed.

End Cache.

(** A cache over a view that keeps the promise keeps it. *)
#[export] Program Instance CCoinsViewCache_ok {V} {HV : CCoinsView V} {OK : CCoinsViewOk V} : CCoinsViewOk (CCoinsViewCache V) := {|
  view_ok := cache_ok;
  utxo := cache_utxo;
|}.
Next Obligation. intros V HV OK c t cs. apply cache_utxo_wf. Qed.
Next Obligation.
  intros V HV OK c t Hc. cbn [GetCoins CCoinsViewCache_view]. unfold cache_GetCoins. pose proof (FetchCoins_spec c t Hc) as HF.
  destruct (FetchCoins c t) as [r c']. destruct HF as (H1 & H2 & _ & H3 & H4). split_and!; [done | done | done |].
  intros cs [e [-> He]]%fmap_Some. subst cs. by apply H4.
Qed.
Next Obligation.
  intros V HV OK c t Hc. cbn [HaveCoins CCoinsViewCache_view]. unfold cache_HaveCoins. pose proof (FetchCoins_spec c t Hc) as HF.
  destruct (FetchCoins c t) as [r c']. destruct HF as (H1 & H2 & _ & H3 & H4). split_and!; [done | done |]. rewrite <- H3.
  destruct r as [e|]; [| done]. specialize (H4 e eq_refl). cbn. unfold norm. rewrite (IsPruned_ok (coins e)) by done.
  by case_bool_decide.
Qed.
Next Obligation. intros V HV OK c m h. apply cache_BatchWrite_spec. Qed.
