(* ===== verification/CoinsUndo.v ===== *)
(** * Applying and undoing transactions on the coins cache

    The modifier of a cache as an update of the map of unspent outputs; [UpdateCoins] and
    the undo functions refine functions on that map, which are inverse to each other; the
    part of [DisconnectBlock] on coins undoes [UpdateCoins]. *)

From stdpp Require Import gmap.
From S2P Require Import Prelude MdHash Hash Script Interpreter Serialize Transaction Compressor Coins.
#[local] Open Scope Z_scope.

(** Updating a map at one id. *)
Definition upd (u : utxo_map) (t : list Z) (x : option CCoins) : utxo_map := fun t' => if decide (t' = t) then x else u t'.

Lemma upd_eq u t x : upd u t x t = x.
Proof. unfold upd. by rewrite decide_True. Qed.

Lemma upd_ne u t x t' : t' <> t -> upd u t x t' = u t'.
Proof. intros. unfold upd. by rewrite decide_False. Qed.

Section Modifier.
Context {V : Type} {HV : CCoinsView V} {OK : CCoinsViewOk V}.
Implicit Types c : CCoinsViewCache V.

(** A modifier is open on [t], with the coins [cs], in a cache that was [c0]. *)
Definition open_at c0 c (t : list Z) (cs : CCoins) : Prop := exists b fr,
  view_ok b /\ (forall t', utxo b t' = utxo (base c0) t') /\ (fr = true -> utxo (base c0) t = None) /\
  c = mkCache b true (hashBlock c0) (<[t := mkEntry cs true fr]> (cacheCoins c0)).

Lemma ModifyCoins_open c0 t :
  cache_ok c0 -> exists c cs, ModifyCoins c0 t = Some c /\ open_at c0 c t cs /\ coins_ok cs /\ norm cs = cache_utxo c0 t.
Proof using.
  intros [Hb Hm He]. unfold ModifyCoins, cache_utxo. rewrite Hm. destruct (cacheCoins c0 !! t) as [e|] eqn:E.
  - eexists _, (coins e). split; [done |]. destruct (He t e E) as (H1 & H2 & H3). split_and!; [| done | done].
    eexists _, _. by split_and!.
  - pose proof (GetCoins_spec (base c0) t Hb) as HG. destruct (GetCoins (base c0) t) as [[tmp|] b]; destruct HG as (Hb' & Hu & Hn & Hc); cbn in Hn.
    + eexists _, tmp. split; [done |]. split_and!; [| by apply Hc | done]. eexists _, _. split_and!; [done | done | | done].
      cbn. intros Hp. rewrite <- Hn. unfold norm. by rewrite Hp.
    + eexists _, CCoins_empty. split; [done |]. split_and!; [| apply empty_ok | done]. eexists _, _. by split_and!.
Qed.

(** New coins, when the base has none for the id; a coinbase may replace older ones. *)
Lemma ModifyNewCoins_open c0 t coinbase :
  cache_ok c0 -> (coinbase = false -> utxo (base c0) t = None) ->
  exists c, ModifyNewCoins c0 t coinbase = Some c /\ open_at c0 c t CCoins_empty.
Proof using.
  intros [Hb Hm He] Hnew. unfold ModifyNewCoins. rewrite Hm. eexists. split; [done |]. eexists _, _. split_and!; [done | done | | done].
  destruct coinbase; cbn [negb]; [| by intros; apply Hnew]. destruct (cacheCoins c0 !! t) as [e|] eqn:E; [| done].
  cbn. by apply (He t e).
Qed.

Lemma modify_open c0 c t cs f : open_at c0 c t cs -> open_at c0 (modify c t f) t (f cs).
Proof using.
  intros (b & fr & Hb & Hu & Hf & ->). exists b, fr. split_and!; [done | done | done |].
  unfold modify, set_cacheCoins. cbn. by rewrite alter_insert_eq.
Qed.

Lemma modified_open c0 c t cs : open_at c0 c t cs -> modified c t = cs.
Proof using. intros (b & fr & _ & _ & _ & ->). unfold modified. cbn [cacheCoins]. by rewrite lookup_insert_eq. Qed.

(** Closing writes the coins to the map. *)
Lemma close_open c0 c t cs :
  cache_ok c0 -> open_at c0 c t cs -> coins_ok (Cleanup cs) ->
  exists c', close_modifier c t = Some c' /\ cache_ok c' /\ (forall t', utxo (base c') t' = utxo (base c0) t') /\
    forall t', cache_utxo c' t' = upd (cache_utxo c0) t (norm (Cleanup cs)) t'.
Proof using.
  intros [Hb0 Hm0 He0] (b & fr & Hb & Hu & Hf & ->) Hok. unfold close_modifier. cbn [hasModifier negb cacheCoins].
  rewrite lookup_insert_eq, obind_Some. cbn [coins DIRTY FRESH].
  assert (He : entries_ok (utxo b) (cacheCoins c0)) by (by apply (entries_ok_ext (utxo (base c0)))).
  destruct (fr && IsPruned (Cleanup cs)) eqn:E; eexists; (split; [done |]); (split_and!; [split; cbn; [done | done |] | done |]).
  - rewrite delete_insert_eq. by apply entries_ok_delete.
  - intros t'. unfold cache_utxo, upd. cbn [cacheCoins base]. rewrite delete_insert_eq. apply andb_true_iff in E as [-> Ep].
    destruct (decide (t' = t)) as [->|Hne]; [rewrite lookup_delete_eq, Hu, Hf by done; unfold norm; by rewrite Ep |].
    rewrite lookup_delete_ne by done. by destruct (cacheCoins c0 !! t').
  - rewrite insert_insert_eq. apply entries_ok_insert; [done |]. split_and!; [done | intros Hfr; rewrite Hu; by apply Hf | done].
  - intros t'. unfold cache_utxo, upd. cbn [cacheCoins base]. rewrite insert_insert_eq.
    destruct (decide (t' = t)) as [->|Hne]; [by rewrite lookup_insert_eq |].
    rewrite lookup_insert_ne by done. by destruct (cacheCoins c0 !! t').
Qed.

(** ** Spending *)

(** Spending one output of coins, and the undo data. *)
Definition spend_undo (o : CTxOut) (cs : CCoins) : CTxInUndo :=
  if decide (c_vout cs = []) then mkUndo o (fCoinBase cs) (u32 (c_nHeight cs)) (c_nVersion cs) else mkUndo o false 0 0.

Definition utxo_spend (u : utxo_map) (i : CTxIn) : option (CTxInUndo * utxo_map) :=
  cs ← u (out_hash (prevout i));
  if IsAvailable cs (out_n (prevout i)) then
    o ← c_vout cs !! Z.to_nat (out_n (prevout i));
    let cs := (Spend cs (out_n (prevout i))).2 in
    Some (spend_undo o cs, upd u (out_hash (prevout i)) (norm cs))
  else None.

Lemma Spend_ok cs n : coins_ok cs -> coins_ok (Spend cs n).2.
Proof using.
  intros Hok. unfold Spend. destruct (IsAvailable cs n); [| done]. destruct Hok as [_ Hn Hl]. apply Cleanup_ok; cbn [set_vout c_vout snd].
  - apply Forall_insert; [done |]. done.
  - by rewrite length_insert.
Qed.

Lemma spend_input_refines c i :
  cache_ok c -> match utxo_spend (cache_utxo c) i with
  | Some (un, u') => exists c', spend_input c i = Some (un, c') /\ cache_ok c' /\
      (forall t, utxo (base c') t = utxo (base c) t) /\ forall t, cache_utxo c' t = u' t
  | None => spend_input c i = None
  end.
Proof using.
  intros Hc. unfold spend_input, utxo_spend. set (t := out_hash (prevout i)). set (n := out_n (prevout i)).
  destruct (ModifyCoins_open c t Hc) as (c1 & cs & -> & Ho & Hok & Hn). rewrite obind_Some, (modified_open _ _ _ _ Ho), <- Hn.
  change (norm cs) with (if IsPruned cs then None else Some cs). destruct (IsPruned cs) eqn:Ep.
  - cbn [mbind option_bind]. assert (Ea : IsAvailable cs n = false); [| by rewrite Ea]. rewrite (IsPruned_ok cs Hok) in Ep. apply bool_decide_eq_true in Ep.
    unfold IsAvailable. by rewrite Ep.
  - rewrite obind_Some. destruct (IsAvailable cs n) eqn:Ea; [| done]. destruct (c_vout cs !! Z.to_nat n) as [o|] eqn:Eo; [| done].
    rewrite !obind_Some. pose proof (modify_open _ _ _ _ (fun cs => (Spend cs n).2) Ho) as Ho'. rewrite (modified_open _ _ _ _ Ho').
    assert (Hok' := Spend_ok cs n Hok). destruct (close_open c _ t _ Hc Ho') as (c' & -> & Hc' & Hb' & Hu'); [by rewrite Cleanup_id |].
    rewrite obind_Some. exists c'. split_and!; [done | done | done |]. rewrite Cleanup_id in Hu' by done. done.
Qed.

Fixpoint utxo_spends (u : utxo_map) (ins : list CTxIn) : option (list CTxInUndo * utxo_map) :=
  match ins with
  | [] => Some ([], u)
  | i :: ins => '(un, u) ← utxo_spend u i; '(uns, u) ← utxo_spends u ins; Some (un :: uns, u)
  end.

(** The specification only looks at the map. *)
Lemma utxo_spend_ext u u' i :
  (forall t, u t = u' t) -> match utxo_spend u i, utxo_spend u' i with
  | Some (a, v), Some (a', v') => a = a' /\ forall t, v t = v' t | None, None => True | _, _ => False end.
Proof using.
  intros E. unfold utxo_spend. rewrite E. destruct (u' (out_hash (prevout i))) as [cs|]; [| done]. rewrite !obind_Some.
  destruct (IsAvailable cs _); [| done]. destruct (c_vout cs !! _) as [o|]; [| done]. rewrite !obind_Some. split; [done |].
  intros t. unfold upd. by destruct (decide _).
Qed.

Lemma utxo_spends_ext u u' ins :
  (forall t, u t = u' t) -> match utxo_spends u ins, utxo_spends u' ins with
  | Some (a, v), Some (a', v') => a = a' /\ forall t, v t = v' t | None, None => True | _, _ => False end.
Proof using.
  revert u u'. induction ins as [|i ins IH]; intros u u' E; cbn [utxo_spends]; [done |].
  pose proof (utxo_spend_ext u u' i E) as H1. destruct (utxo_spend u i) as [[a v]|], (utxo_spend u' i) as [[a' v']|]; try done.
  destruct H1 as [-> H1]. rewrite !obind_Some. specialize (IH v v' H1).
  destruct (utxo_spends v ins) as [[b w]|], (utxo_spends v' ins) as [[b' w']|]; try done. destruct IH as [-> IH]. by rewrite !obind_Some.
Qed.

Lemma spend_inputs_refines ins c :
  cache_ok c -> match utxo_spends (cache_utxo c) ins with
  | Some (uns, u') => exists c', spend_inputs c ins = Some (uns, c') /\ cache_ok c' /\
      (forall t, utxo (base c') t = utxo (base c) t) /\ forall t, cache_utxo c' t = u' t
  | None => spend_inputs c ins = None
  end.
Proof using.
  revert c. induction ins as [|i ins IH]; intros c Hc; cbn [utxo_spends spend_inputs]; [by exists c |].
  pose proof (spend_input_refines c i Hc) as H1. destruct (utxo_spend (cache_utxo c) i) as [[un u1]|]; [| by rewrite H1].
  destruct H1 as (c1 & -> & Hc1 & Hb1 & Hu1). rewrite !obind_Some. specialize (IH c1 Hc1).
  pose proof (utxo_spends_ext _ _ ins Hu1) as HE.
  destruct (utxo_spends (cache_utxo c1) ins) as [[uns u2]|], (utxo_spends u1 ins) as [[uns' u2']|]; try done.
  - destruct HE as [-> HE], IH as (c2 & -> & Hc2 & Hb2 & Hu2). rewrite !obind_Some. exists c2. split_and!; [done | done | |].
    + intros t. by rewrite Hb2.
    + intros t. by rewrite Hu2.
  - by rewrite IH.
Qed.

(** ** [UpdateCoins] *)

Definition utxo_update (u : utxo_map) (tx : CTransaction) (hash : list Z) (nHeight : Z) : option (list CTxInUndo * utxo_map) :=
  '(uns, u) ← (if negb (no_coins tx) then utxo_spends u (vin tx) else Some ([], u));
  Some (uns, upd u hash (norm (FromTx tx nHeight))).

(** Outputs a transaction of a block may have. *)
Definition outputs_ok (tx : CTransaction) : Prop :=
  Forall (fun o => CTxOut_IsNull o = false) (vout tx) /\ len (vout tx) < 2 ^ 32.

Lemma FromTx_ok tx h : outputs_ok tx -> coins_ok (FromTx tx h).
Proof using.
  intros [Hn Hl]. apply Cleanup_ok; cbn [set_vout c_vout].
  - apply Forall_fmap. eapply list.Forall_impl; [exact Hn |]. intros o Ho. cbn. destruct (IsUnspendable _); [done |]. by rewrite Ho.
  - by rewrite length_fmap.
Qed.

Lemma UpdateCoins_refines c tx hash h :
  cache_ok c -> outputs_ok tx -> (IsCoinBase tx = false -> utxo (base c) hash = None) ->
  match utxo_update (cache_utxo c) tx hash h with
  | Some (uns, u') => exists c', UpdateCoins tx hash c h = Some (uns, c') /\ cache_ok c' /\
      (forall t, utxo (base c') t = utxo (base c) t) /\ forall t, cache_utxo c' t = u' t
  | None => UpdateCoins tx hash c h = None
  end.
Proof using.
  intros Hc Ho Hnew. unfold utxo_update, UpdateCoins.
  assert (HS : match (if negb (no_coins tx) then utxo_spends (cache_utxo c) (vin tx) else Some ([], cache_utxo c)) with
    | Some (uns, u') => exists c', (if negb (no_coins tx) then spend_inputs c (vin tx) else Some ([], c)) = Some (uns, c') /\
        cache_ok c' /\ (forall t, utxo (base c') t = utxo (base c) t) /\ forall t, cache_utxo c' t = u' t
    | None => (if negb (no_coins tx) then spend_inputs c (vin tx) else Some ([], c)) = None end).
  { destruct (negb (no_coins tx)); [by apply spend_inputs_refines | by exists c]. }
  destruct (if negb (no_coins tx) then utxo_spends _ _ else _) as [[uns u']|]; [| by rewrite HS].
  destruct HS as (c1 & -> & Hc1 & Hb1 & Hu1). rewrite !obind_Some.
  destruct (ModifyNewCoins_open c1 hash (IsCoinBase tx) Hc1) as (c2 & -> & Ho2); [by intros; rewrite Hb1; apply Hnew |].
  rewrite obind_Some. pose proof (modify_open _ _ _ _ (fun _ => FromTx tx h) Ho2) as Ho3. pose proof (FromTx_ok tx h Ho) as Hf.
  destruct (close_open c1 _ hash _ Hc1 Ho3) as (c4 & -> & Hc4 & Hb4 & Hu4); [by rewrite Cleanup_id |]. rewrite obind_Some.
  exists c4. split_and!; [done | done | by intros t; rewrite Hb4 |]. intros t. rewrite Hu4, Cleanup_id by done. unfold upd. destruct (decide _); [done | apply Hu1].
Qed.

End Modifier.

(** * Undoing a transaction restores the unspent outputs *)

#[local] Open Scope Z_scope.

(** ** Outputs *)

Lemma Cleanup_snoc l x : CTxOut_IsNull x = false -> Cleanup_vout (l ++ [x]) = l ++ [x].
Proof.
  intros Hx. induction l as [|o l IH]; [cbn; by rewrite Hx |]. cbn [app]. rewrite Cleanup_vout_cons, IH.
  by destruct (l ++ [x]) eqn:E; [destruct l |].
Qed.

Lemma Cleanup_snoc_null l x : CTxOut_IsNull x = true -> Cleanup_vout (l ++ [x]) = Cleanup_vout l.
Proof.
  intros Hx. induction l as [|o l IH]; [cbn; by rewrite Hx |]. cbn [app]. by rewrite !Cleanup_vout_cons, IH.
Qed.

Lemma Cleanup_length l : (length (Cleanup_vout l) <= length l)%nat.
Proof. destruct (Cleanup_vout_spec l) as (k & E & _). rewrite E at 2. rewrite length_app. lia. Qed.

Lemma snoc_dec {A} (l : list A) : l = [] \/ exists l' x, l = l' ++ [x].
Proof. induction l as [|x l _] using rev_ind; [by left | right; by exists l, x]. Qed.

(** The last of the outputs that are kept is unspent. *)
Lemma clean_snoc l x : Cleanup_vout (l ++ [x]) = l ++ [x] -> CTxOut_IsNull x = false.
Proof.
  intros E. destruct (CTxOut_IsNull x) eqn:Hx; [| done]. rewrite Cleanup_snoc_null in E by done.
  pose proof (Cleanup_length l) as Hl. rewrite E, length_app in Hl. cbn [length] in Hl. lia.
Qed.

Lemma all_null k : Forall (fun o => CTxOut_IsNull o = true -> o = CTxOut_null) k ->
  Forall (fun o => CTxOut_IsNull o = true) k -> k = replicate (length k) CTxOut_null.
Proof. induction k as [|o k IH]; [done |]. intros [H1 H2]%Forall_cons_iff [H3 H4]%Forall_cons_iff. cbn. f_equal; auto. Qed.

(** Growing brings back the spent outputs that were dropped. *)
Lemma grow_cleanup v n o :
  Cleanup_vout v = v -> Forall (fun o => CTxOut_IsNull o = true -> o = CTxOut_null) v -> v !! n = Some o ->
  vout_grow (n + 1) (Cleanup_vout (<[n := CTxOut_null]> v)) = <[n := CTxOut_null]> v.
Proof.
  intros Hc Hn Ho. pose proof (lookup_lt_Some _ _ _ Ho) as Hlt. set (w := <[n := CTxOut_null]> v).
  assert (Hw : Forall (fun o => CTxOut_IsNull o = true -> o = CTxOut_null) w) by (apply Forall_insert; done).
  assert (Hlw : length w = length v) by apply length_insert. unfold vout_grow.
  destruct (Cleanup_vout_spec w) as (k & E & Hk). destruct (decide (n + 1 = length v)%nat) as [En|En].
  - rewrite E in Hw. apply Forall_app in Hw as [_ Hw]. rewrite E at 3. f_equal.
    assert (Ek : length k = (n + 1 - length (Cleanup_vout w))%nat).
    { apply (f_equal length) in E. rewrite length_app in E. lia. }
    rewrite <- Ek. symmetry. by apply all_null.
  - destruct (snoc_dec v) as [->|(l & x & ->)]; [done |]. apply clean_snoc in Hc. rewrite length_app in *. cbn [length] in *.
    assert (Ew : w = <[n := CTxOut_null]> l ++ [x]) by (subst w; apply insert_app_l; lia).
    rewrite Ew, Cleanup_snoc by done. rewrite length_app, length_insert. cbn [length].
    replace (n + 1 - (length l + 1))%nat with 0%nat by lia. by rewrite app_nil_r.
Qed.

Lemma restore_output v n o :
  Cleanup_vout v = v -> Forall (fun o => CTxOut_IsNull o = true -> o = CTxOut_null) v -> v !! n = Some o ->
  <[n := o]> (vout_grow (n + 1) (Cleanup_vout (<[n := CTxOut_null]> v))) = v.
Proof. intros Hc Hn Ho. rewrite grow_cleanup with (o := o) by done. rewrite list_insert_insert_eq. by apply list_insert_id. Qed.

(** ** Maps of unspent outputs *)

(** Coins of blocks after the first. *)
Definition utxo_good (u : utxo_map) : Prop := forall t cs,
  u t = Some cs -> coins_ok cs /\ IsPruned cs = false /\ 0 < c_nHeight cs < 2 ^ 31.

Lemma upd_good u t cs : utxo_good u -> coins_ok cs -> 0 < c_nHeight cs < 2 ^ 31 -> utxo_good (upd u t (norm cs)).
Proof.
  intros Hu Hok Hh t' cs'. unfold upd. destruct (decide (t' = t)); [| apply Hu]. intros [-> Hp]%norm_Some. done.
Qed.

Lemma Spend_height cs n : c_nHeight (Spend cs n).2 = c_nHeight cs.
Proof. unfold Spend. by destruct (IsAvailable cs n). Qed.

Lemma utxo_spend_good u i un u' : utxo_good u -> utxo_spend u i = Some (un, u') -> utxo_good u'.
Proof.
  intros Hu. unfold utxo_spend. intros (cs & Ecs & H)%bind_Some. destruct (IsAvailable cs _); [| done].
  apply bind_Some in H as (o & _ & [= <- <-]). destruct (Hu _ _ Ecs) as (Hok & _ & Hh).
  apply upd_good; [done | by apply Spend_ok | by rewrite Spend_height].
Qed.

Lemma utxo_spend_none u i un u' t : utxo_spend u i = Some (un, u') -> u t = None -> u' t = None.
Proof.
  unfold utxo_spend. intros (cs & Ecs & H)%bind_Some Hn. destruct (IsAvailable cs _); [| done].
  apply bind_Some in H as (o & _ & [= <- <-]). rewrite upd_ne; [done |]. intros ->. congruence.
Qed.

Lemma utxo_spends_none ins u uns u' t : utxo_spends u ins = Some (uns, u') -> u t = None -> u' t = None.
Proof.
  revert u uns u'. induction ins as [|i ins IH]; intros u uns u'; cbn [utxo_spends]; [by intros [= <- <-] |].
  intros ([un u1] & E1 & ([uns1 u2] & E2 & [= <- <-])%bind_Some)%bind_Some Hn.
  eapply IH; [exact E2 |]. by eapply utxo_spend_none.
Qed.

Section Undo.
Context {V : Type} {HV : CCoinsView V} {OK : CCoinsViewOk V}.
Implicit Types c : CCoinsViewCache V.

(** The coins after an output of [cs] is spent, before they are cleaned up. *)
Definition spent_vout (cs : CCoins) (n : Z) : list CTxOut := Cleanup_vout (<[Z.to_nat n := CTxOut_null]> (c_vout cs)).

Lemma spent_unavailable cs cs2 n o :
  c_vout cs !! Z.to_nat n = Some o -> c_vout cs2 = spent_vout cs n -> IsAvailable cs2 n = false.
Proof using.
  intros Eo Ev. unfold IsAvailable. rewrite Ev. unfold spent_vout.
  destruct (Cleanup_vout_spec (<[Z.to_nat n := CTxOut_null]> (c_vout cs))) as (k & E & _).
  destruct (Cleanup_vout _ !! Z.to_nat n) as [x|] eqn:Ex; [| done].
  apply (f_equal (fun l => l !! Z.to_nat n)) in E. rewrite list_lookup_insert_eq in E by (by apply lookup_lt_Some in Eo).
  rewrite (lookup_app_l_Some _ _ _ _ Ex) in E. by injection E as <-.
Qed.

(** Putting the output back and closing the modifier. *)
Lemma undo_close c t n c2 cs2 o cs fClean :
  cache_ok c -> open_at c c2 t cs2 -> coins_ok cs -> IsPruned cs = false -> c_vout cs !! Z.to_nat n = Some o -> 0 <= n ->
  c_vout cs2 = spent_vout cs n -> set_vout cs2 (c_vout cs) = cs ->
  exists c', (if len (vout_grow (Z.to_nat (u32 (n + 1))) (c_vout cs2)) <=? n then None
    else c' ← close_modifier (modify c2 t (fun cs => set_vout cs (<[Z.to_nat n := o]>
           (vout_grow (Z.to_nat (u32 (n + 1))) (c_vout cs2))))) t; Some (fClean, c')) = Some (fClean : bool, c') /\
    cache_ok c' /\ forall t', cache_utxo c' t' = upd (cache_utxo c) t (Some cs) t'.
Proof using.
  intros Hc Ho Hok Hp Eo Hn Ev Es. pose proof (lookup_lt_Some _ _ _ Eo) as Hlt. pose proof Hok as [Hcl Hnull Hlen]. cbv beta in Hlen.
  assert (Hn1 : Z.to_nat (u32 (n + 1)) = (Z.to_nat n + 1)%nat) by (rewrite wrap_id by (split; lia); lia). rewrite Hn1, Ev.
  pose proof (restore_output _ _ _ Hcl Hnull Eo) as HR. fold (spent_vout cs n) in HR.
  pose proof (f_equal length HR) as Hl. rewrite length_insert in Hl.
  rewrite Hl, (proj2 (Z.leb_gt _ _)) by lia.
  pose proof (modify_open _ _ _ _ (fun cs0 => set_vout cs0 (<[Z.to_nat n := o]> (vout_grow (Z.to_nat n + 1) (spent_vout cs n)))) Ho) as Ho3.
  cbv beta in Ho3. rewrite HR, Es in Ho3. rewrite HR.
  destruct (close_open c _ t _ Hc Ho3) as (c' & -> & Hc' & _ & Hu'); [by rewrite Cleanup_id |]. rewrite obind_Some.
  exists c'. split_and!; [done | done |]. intros t'. rewrite Hu', Cleanup_id by done. unfold norm. by rewrite Hp.
Qed.

(** Undoing one input. *)
Lemma ApplyTxInUndo_restores u i un u' c :
  utxo_good u -> utxo_spend u i = Some (un, u') -> 0 <= out_n (prevout i) -> cache_ok c -> (forall t, cache_utxo c t = u' t) ->
  exists c', ApplyTxInUndo un c (prevout i) = Some (true, c') /\ cache_ok c' /\ forall t, cache_utxo c' t = u t.
Proof using.
  intros Hu. unfold utxo_spend. set (t := out_hash (prevout i)). set (n := out_n (prevout i)). intros (cs & Ecs & HS)%bind_Some Hn Hc HE.
  destruct (Hu _ _ Ecs) as (Hok & Hpr & Hh). unfold Spend in HS. destruct (IsAvailable cs n) eqn:Ea; [| done].
  apply bind_Some in HS as (o & Eo & HS). cbn [snd] in HS.
  change (Cleanup (set_vout cs (<[Z.to_nat n := CTxOut_null]> (c_vout cs)))) with (set_vout cs (spent_vout cs n)) in HS.
  injection HS as <- <-. unfold ApplyTxInUndo. fold t n.
  destruct (ModifyCoins_open c t Hc) as (c1 & c0 & -> & Ho & Hok0 & En). rewrite obind_Some. rewrite HE, upd_eq in En.
  rewrite (modified_open _ _ _ _ Ho). unfold spend_undo. cbn [c_vout set_vout].
  assert (Hback : forall c', (forall t', cache_utxo c' t' = upd (cache_utxo c) t (Some cs) t') -> forall t', cache_utxo c' t' = u t').
  { intros c' Hc' t'. rewrite Hc'. unfold upd. destruct (decide (t' = t)) as [->|Hne]; [by rewrite Ecs |]. rewrite HE. by apply upd_ne. }
  assert (Hsp : IsPruned (set_vout cs (spent_vout cs n)) = bool_decide (spent_vout cs n = [])).
  { apply (IsPruned_ok (set_vout cs (spent_vout cs n))). pose proof (Spend_ok cs n Hok) as HO. unfold Spend in HO. by rewrite Ea in HO. }
  unfold norm in En. rewrite Hsp in En.
  destruct (decide (spent_vout cs n = [])) as [Ev|Ev]; cbn [u_nHeight u_fCoinBase u_nVersion u_txout set_vout fCoinBase c_nHeight c_nVersion].
  - rewrite (wrap_id _ (c_nHeight cs)) by (split; lia). rewrite (proj2 (Z.eqb_neq _ 0)) by lia. cbn [negb].
    rewrite bool_decide_eq_true_2 in En by done. destruct (IsPruned c0); [| done].
    pose proof (modify_open _ _ _ _ (fun _ => mkCoins (fCoinBase cs) [] (to_signed 32 (c_nHeight cs)) (c_nVersion cs)) Ho) as Ho2.
    rewrite (modified_open _ _ _ _ Ho2). cbn [c_vout]. change (IsAvailable (mkCoins _ [] _ _) n) with false. cbn [negb andb].
    edestruct (undo_close c t n _ _ o cs true Hc Ho2) as (c' & E & Hc' & Hu'); [done | done | done | done | by rewrite Ev | |].
    { unfold set_vout. cbn. unfold to_signed. rewrite (proj2 (Z.ltb_lt _ _)) by (cbn; lia). by destruct cs. }
    cbn [c_vout] in E. rewrite E. eauto.
  - rewrite bool_decide_eq_false_2 in En by done. change (0 =? 0) with true. cbn [negb]. destruct (IsPruned c0); [done |]. injection En as ->.
    rewrite (modified_open _ _ _ _ Ho). rewrite (spent_unavailable cs _ n o) by done. cbn [negb andb].
    edestruct (undo_close c t n _ _ o cs true Hc Ho) as (c' & E & Hc' & Hu'); [done | done | done | done | done | by destruct cs |].
    rewrite E. eauto.
Qed.

Lemma apply_undos_app l1 l2 b c :
  apply_undos (l1 ++ l2) b c = '(b', c') ← apply_undos l1 b c; apply_undos l2 b' c'.
Proof using.
  revert b c. induction l1 as [|[i un] l1 IH]; intros b c; [done |]. cbn [app apply_undos].
  destruct (ApplyTxInUndo un c (prevout i)) as [[ok c']|]; [| done]. rewrite !obind_Some. apply IH.
Qed.

(** Undoing all inputs, from the last. *)
Lemma apply_undos_restores ins u uns u' c :
  utxo_good u -> utxo_spends u ins = Some (uns, u') -> Forall (fun i => 0 <= out_n (prevout i)) ins -> cache_ok c ->
  (forall t, cache_utxo c t = u' t) ->
  length uns = length ins /\
  exists c', apply_undos (rev (zip ins uns)) true c = Some (true, c') /\ cache_ok c' /\ forall t, cache_utxo c' t = u t.
Proof using.
  revert u uns u'. induction ins as [|i ins IH]; intros u uns u' Hu; cbn [utxo_spends].
  { intros [= <- <-] _ Hc HE. split; [done |]. by exists c. }
  intros ([un u1] & E1 & ([uns1 u2] & E2 & [= <- <-])%bind_Some)%bind_Some [Hi Hins]%Forall_cons_iff Hc HE.
  destruct (IH u1 uns1 u2) as (Hl & c1 & Ea & Hc1 & HE1); [by eapply utxo_spend_good | done | done | done | done |].
  split; [cbn [length]; lia |]. cbn [zip zip_with rev]. rewrite apply_undos_app, Ea, obind_Some. cbn [apply_undos].
  destruct (ApplyTxInUndo_restores u i un u1 c1) as (c2 & -> & Hc2 & HE2); [done | done | done | done | done |].
  rewrite obind_Some. by exists c2.
Qed.

(** ** A whole transaction *)

Lemma Cleanup_fmap_id (f : CTxOut -> CTxOut) l :
  (forall o, f (f o) = f o) -> (forall o, CTxOut_IsNull o = true -> CTxOut_IsNull (f o) = true) ->
  Cleanup_vout (f <$> Cleanup_vout (f <$> l)) = Cleanup_vout (f <$> l).
Proof using.
  intros Hf Hn. assert (E : forall k, Cleanup_vout (f <$> Cleanup_vout k) = Cleanup_vout (f <$> k)).
  { induction k as [|x k IH] using rev_ind; [done |]. destruct (CTxOut_IsNull x) eqn:Ex.
    - rewrite Cleanup_snoc_null, IH, fmap_app by done. symmetry. apply Cleanup_snoc_null. by apply Hn.
    - by rewrite Cleanup_snoc. }
  rewrite E, <- list_fmap_compose. f_equal. apply list_fmap_ext. intros i o _. apply Hf.
Qed.

Lemma ClearUnspendable_idem cs : ClearUnspendable (ClearUnspendable cs) = ClearUnspendable cs.
Proof using.
  unfold ClearUnspendable, Cleanup, set_vout. cbn. f_equal. apply (Cleanup_fmap_id (fun o => _)); intros o.
  - destruct (IsUnspendable (scriptPubKey o)) eqn:E; [done |]. by rewrite E.
  - intros. by destruct (IsUnspendable (scriptPubKey o)).
Qed.

Lemma CCoins_eqb_refl cs : CCoins_eqb cs cs = true.
Proof using.
  unfold CCoins_eqb. destruct (_ && _); [done |]. rewrite Bool.eqb_reflx, !Z.eqb_refl. by rewrite bool_decide_eq_true_2.
Qed.

(** The outputs found are those of the transaction. *)
Lemma outputs_found cs tx h :
  coins_ok cs -> outputs_ok tx -> norm cs = norm (FromTx tx h) ->
  CCoins_eqb (let cs := ClearUnspendable cs in
    if c_nVersion (FromTx tx h) <? 0 then mkCoins (fCoinBase cs) (c_vout cs) (c_nHeight cs) (c_nVersion (FromTx tx h)) else cs) (FromTx tx h) = true.
Proof using.
  intros Hok Ho. pose proof (FromTx_ok tx h Ho) as Hf. unfold norm.
  destruct (IsPruned cs) eqn:Ep, (IsPruned (FromTx tx h)) eqn:Ef; try done; intros E.
  - rewrite (IsPruned_ok cs Hok) in Ep. apply bool_decide_eq_true in Ep. unfold CCoins_eqb. rewrite Ef.
    assert (Ec : c_vout (ClearUnspendable cs) = []) by (unfold ClearUnspendable, Cleanup; cbn; by rewrite Ep).
    cbn zeta. unfold IsPruned at 1. destruct (_ <? 0); cbn [c_vout]; by rewrite Ec.
  - injection E as ->. unfold FromTx at 1 3 4 5 6. rewrite ClearUnspendable_idem. fold (FromTx tx h). cbn zeta.
    destruct (_ <? 0); [| apply CCoins_eqb_refl].
    replace (mkCoins _ _ _ _) with (FromTx tx h) by (by destruct (FromTx tx h)). apply CCoins_eqb_refl.
Qed.

Lemma disconnect_restores u tx hash h uns u' c :
  utxo_good u -> outputs_ok tx -> u hash = None -> Forall (fun i => 0 <= out_n (prevout i)) (vin tx) ->
  utxo_update u tx hash h = Some (uns, u') -> cache_ok c -> (forall t, cache_utxo c t = u' t) ->
  exists c', disconnect_tx tx hash h uns true c = Some (Some (true, c')) /\ cache_ok c' /\ forall t, cache_utxo c' t = u t.
Proof using.
  intros Hu Ho Hnew Hi HU Hc HE. unfold utxo_update in HU. apply bind_Some in HU as ([uns1 u1] & HS & [= <- <-]).
  assert (Hn1 : u1 hash = None). { destruct (negb (no_coins tx)); [by eapply utxo_spends_none | by injection HS as <- <-]. }
  unfold disconnect_tx. destruct (ModifyCoins_open c hash Hc) as (c1 & cs & -> & Ho1 & Hok & En). rewrite obind_Some.
  rewrite HE, upd_eq in En. pose proof (outputs_found cs tx h Hok Ho En) as HF. cbn zeta in HF |- *.
  pose proof (modify_open _ _ _ _ ClearUnspendable Ho1) as Ho2.
  set (c2 := if c_nVersion (FromTx tx h) <? 0 then _ else _).
  assert (Ho3 : open_at c c2 hash (if c_nVersion (FromTx tx h) <? 0 then mkCoins (fCoinBase (ClearUnspendable cs))
    (c_vout (ClearUnspendable cs)) (c_nHeight (ClearUnspendable cs)) (c_nVersion (FromTx tx h)) else ClearUnspendable cs)).
  { subst c2. destruct (_ <? 0); [| done]. exact (modify_open _ _ _ _ (fun cs => mkCoins (fCoinBase cs) (c_vout cs) (c_nHeight cs) (c_nVersion (FromTx tx h))) Ho2). }
  rewrite (modified_open _ _ _ _ Ho3), HF. cbn [andb].
  pose proof (modify_open _ _ _ _ (fun _ => CCoins_empty) Ho3) as Ho4.
  destruct (close_open c _ hash _ Hc Ho4) as (c4 & -> & Hc4 & _ & Hu4); [apply empty_ok |]. rewrite obind_Some.
  assert (HE4 : forall t, cache_utxo c4 t = u1 t).
  { intros t. rewrite Hu4. unfold upd. destruct (decide (t = hash)) as [->|Hne]; [by rewrite Hn1 |]. rewrite HE. by apply upd_ne. }
  destruct (negb (no_coins tx)); [| injection HS as <- <-; by exists c4].
  destruct (apply_undos_restores (vin tx) u uns1 u1 c4) as (Hl & c5 & -> & Hc5 & HE5); [done | done | done | done | done |].
  rewrite Hl, Nat.eqb_refl. by exists c5.
Qed.

End Undo.
