(* ===== verification/CoinsStore.v ===== *)
(** * Coins in the database: the serialization of [CCoins] is read back

    The bits of the mask, its size, and the outputs that follow it. *)

From stdpp Require Import gmap.
From S2P Require Import Prelude MdHash Hash Script Interpreter Serialize Transaction Compressor Coins CoinsUndo.
#[local] Open Scope Z_scope.

(** ** The mask *)

(** The eight bits of an octet of the mask. *)
Definition bits (z : Z) : list bool := (fun p => negb (z & (1 << Z.of_nat p) =? 0)) <$> seq 0 8.

Lemma mask_octet_bits v b : bits (mask_octet v b) = (fun i => avail v (2 + b * 8 + i)) <$> seq 0 8 /\
  (mask_octet v b =? 0) = mask_zero v b.
Proof.
  unfold mask_octet, mask_zero. cbn [seq fmap list_fmap foldl forallb].
  generalize (avail v (2 + b * 8 + 0)) (avail v (2 + b * 8 + 1)) (avail v (2 + b * 8 + 2)) (avail v (2 + b * 8 + 3))
    (avail v (2 + b * 8 + 4)) (avail v (2 + b * 8 + 5)) (avail v (2 + b * 8 + 6)) (avail v (2 + b * 8 + 7)).
  intros [] [] [] [] [] [] [] []; by vm_compute.
Qed.

(** The used part of a sequence of octets, of which [z] says which are zero. *)
Definition used (z : nat -> bool) (n : nat) : nat * nat :=
  foldl (fun '(l, c) b => if z b then (l, c) else (S b, S c)) (0%nat, 0%nat) (seq 0 n).

Definition count_nonzero (z : nat -> bool) (l : list nat) : nat := length (filter (fun b => z b = false) l).

Lemma used_S z n : used z (S n) = let '(l, c) := used z n in if z n then (l, c) else (S n, S c).
Proof. unfold used. rewrite seq_S, foldl_app. cbn. by destruct (foldl _ _ _). Qed.

Lemma used_spec z n : let '(l, c) := used z n in
  (l <= n)%nat /\ c = count_nonzero z (seq 0 l) /\ (forall b, (l <= b < n)%nat -> z b = true) /\ (forall b, l = S b -> z b = false).
Proof.
  assert (HC : forall z n, count_nonzero z (seq 0 (S n)) = (count_nonzero z (seq 0 n) + if z n then 0 else 1)%nat).
  { intros z' n'. unfold count_nonzero. rewrite seq_S, list.filter_app, length_app. f_equal. rewrite Nat.add_0_l, filter_cons. by destruct (z' n'). }
  assert (HC0 : forall z l n, (l <= n)%nat -> (forall b, (l <= b < n)%nat -> z b = true) -> count_nonzero z (seq 0 n) = count_nonzero z (seq 0 l)).
  { intros z' l' n' Hl. induction Hl as [|n' Hl IH]; [done |]. intros Hz. rewrite HC, IH, (Hz n') by (try lia; intros; apply Hz; lia). lia. }
  induction n as [|n IH]; [split_and!; [done | done | lia | done] |]. rewrite used_S. destruct (used z n) as [l c]. destruct IH as (Hl & Hc & Hz & Hb).
  destruct (z n) eqn:En; split_and!; try (done || lia).
  - intros b Hb'. destruct (decide (b = n)) as [->|]; [done |]. apply Hz. lia.
  - by rewrite HC, En, (HC0 z l n), <- Hc, Nat.add_1_r.
  - by intros b [= <-].
Qed.

(** Reading octets until the last that is not zero. *)
Lemma read_mask_octets z (f : nat -> Z) l : forall acc s j,
  (forall b, (f b =? 0) = z b) -> (l <> 0%nat -> z (j + l - 1)%nat = false) ->
  read_mask (Z.of_nat (count_nonzero z (seq j l))) acc ((f <$> seq j l) ++ s) = Some (acc ++ concat ((fun b => bits (f b)) <$> seq j l), s).
Proof.
  induction l as [|l IH]; intros acc s j Hf Hlast; [cbn; rewrite app_nil_r; by destruct s |].
  assert (Hpos : (0 < count_nonzero z (seq j (S l)))%nat).
  { unfold count_nonzero. assert (Hin : (j + S l - 1)%nat ∈ filter (fun b => z b = false) (seq j (S l))).
    { rewrite list_elem_of_filter, elem_of_seq. split; [by apply Hlast | lia]. }
    destruct (filter _ _); [by apply not_elem_of_nil in Hin | cbn; lia]. }
  cbn [seq] in Hpos |- *. rewrite !fmap_cons. cbn [app concat read_mask]. rewrite (proj2 (Z.ltb_lt _ _)) by lia.
  change ((fun p => negb (f j & (1 << Z.of_nat p) =? 0)) <$> seq 0 8) with (bits (f j)).
  replace (if negb (f j =? 0) then Z.of_nat (count_nonzero z (j :: seq (S j) l)) - 1 else Z.of_nat (count_nonzero z (j :: seq (S j) l)))
    with (Z.of_nat (count_nonzero z (seq (S j) l))).
  - specialize (IH (acc ++ bits (f j)) s (S j) Hf). rewrite IH, <- app_assoc; [done |].
    intros Hl. replace (S j + l - 1)%nat with (j + S l - 1)%nat by lia. by apply Hlast.
  - unfold count_nonzero. rewrite filter_cons, Hf. destruct (z j) eqn:Ez; cbn [negb].
    + by rewrite decide_False.
    + rewrite decide_True by done. cbn [length]. lia.
Qed.

(** ** The outputs *)

Section Store.
Context (parse : list Z -> option (list Z)).

Definition stored_out (o : CTxOut) : Prop := if CTxOut_IsNull o then o = CTxOut_null else storable o.

Lemma read_outs_write v n :
  parse_compressed parse -> Forall stored_out v ->
  exists b, write_outs parse v = Some b /\ forall s, read_outs parse (((fun o => negb (CTxOut_IsNull o)) <$> v) ++ replicate n false) (b ++ s) =
    Some (v ++ replicate n CTxOut_null, s).
Proof using.
  intros Hpc. unfold write_outs. induction 1 as [|o v Ho Hv (b & EB & IH)].
  { exists []. split; [done |]. intros s. cbn [fmap list_fmap app]. induction n as [|n IH]; [done |]. cbn [replicate read_outs].
    by rewrite obind_Some, IH, obind_Some. }
  cbn [mapM]. apply fmap_Some in EB as (bs & EM & ->). rewrite EM. unfold stored_out in Ho. destruct (CTxOut_IsNull o) eqn:En.
  - subst o. rewrite !obind_Some. exists (concat bs). split; [done |]. intros s. rewrite fmap_cons. cbn [app read_outs negb CTxOut_IsNull nValue].
    change (negb (CTxOut_IsNull CTxOut_null)) with false. cbn iota. by rewrite obind_Some, IH, obind_Some.
  - destruct (txout_read_write parse o Hpc Ho) as (ob & -> & HO). rewrite !obind_Some. exists (ob ++ concat bs). split; [done |].
    intros s. rewrite fmap_cons, En. cbn [app read_outs negb]. by rewrite <- app_assoc, HO, obind_Some, IH, obind_Some.
Qed.

Lemma avail_lookup v i : avail v i = match v !! i with Some o => negb (CTxOut_IsNull o) | None => false end.
Proof using. done. Qed.

(** The availability of the first outputs, and of those past the end. *)
Lemma avail_list v n : (avail v) <$> seq 0 (length v + n) = ((fun o => negb (CTxOut_IsNull o)) <$> v) ++ replicate n false.
Proof using.
  rewrite seq_app, fmap_app. f_equal.
  - apply list_eq. intros i. rewrite !list_lookup_fmap. destruct (v !! i) as [o|] eqn:E.
    + rewrite lookup_seq_lt by (by eapply lookup_lt_Some). cbn. unfold avail. by rewrite E.
    + by rewrite lookup_seq_ge by (by apply lookup_ge_None).
  - apply list_eq. intros i. rewrite list_lookup_fmap. destruct (decide (i < n)%nat).
    + rewrite lookup_seq_lt, lookup_replicate_2 by done. cbn. unfold avail. by rewrite lookup_ge_None_2 by lia.
    + rewrite lookup_seq_ge by lia. symmetry. apply lookup_replicate_None. lia.
Qed.

(** The bits read for a mask of [k] octets. *)
Lemma mask_avail v k :
  [avail v 0; avail v 1] ++ concat ((fun b => bits (mask_octet v b)) <$> seq 0 k) = avail v <$> seq 0 (2 + 8 * k).
Proof using.
  induction k as [|k IH]; [done |].
  rewrite seq_S, fmap_app, concat_app, app_assoc, IH. replace (2 + 8 * S k)%nat with ((2 + 8 * k) + 8)%nat by lia. rewrite (seq_app (2 + 8 * k) 8), fmap_app. f_equal.
  cbn [fmap list_fmap concat]. rewrite app_nil_r, (proj1 (mask_octet_bits v _)). rewrite !Nat.add_0_l.
  replace (seq (2 + 8 * k) 8) with (Nat.add (2 + 8 * k) <$> seq 0 8) by (rewrite fmap_add_seq; f_equal; lia).
  rewrite <- list_fmap_compose. apply list_fmap_ext. intros _ i _. cbn [compose]. f_equal. lia.
Qed.

(** Coins that end with an unspent output: the mask reaches it. *)
Lemma mask_covers v : Cleanup_vout v = v -> (length v <= 2 + 8 * (CalcMaskSize v).1)%nat.
Proof using.
  intros Hc. change (CalcMaskSize v) with (used (mask_zero v) (mask_bytes v)).
  pose proof (used_spec (mask_zero v) (mask_bytes v)) as HU. destruct (used _ _) as [k c]. destruct HU as (Hk & _ & Hz & _). cbn [fst].
  destruct (snoc_dec v) as [->|(l & x & ->)]; [cbn; lia |]. apply clean_snoc in Hc. rewrite length_app. cbn [length].
  destruct (decide (length l + 1 <= 2 + 8 * k)%nat) as [|Hgt]; [done |]. exfalso.
  assert (Hb : mask_zero (l ++ [x]) ((length l - 2) / 8) = true).
  { apply Hz. unfold mask_bytes. rewrite length_app. cbn [length]. split; [apply Nat.div_le_lower_bound; lia |].
    apply Nat.div_lt_upper_bound; [lia |]. pose proof (Nat.div_mod (length l + 1 - 2 + 7) 8). pose proof (Nat.mod_upper_bound (length l + 1 - 2 + 7) 8). lia. }
  unfold mask_zero in Hb. rewrite forallb_forall in Hb. pose proof (Nat.div_mod (length l - 2) 8). pose proof (Nat.mod_upper_bound (length l - 2) 8).
  specialize (Hb ((length l - 2) mod 8)%nat). unfold avail in Hb.
  replace (2 + (length l - 2) / 8 * 8 + (length l - 2) mod 8)%nat with (length l) in Hb by lia.
  rewrite lookup_app_r, Nat.sub_diag in Hb by lia. cbn [lookup list_lookup] in Hb. rewrite Hc in Hb. discriminate Hb.
  apply in_seq. lia.
Qed.

(** ** The code of the header *)

Lemma land_low x m : 0 <= m < 8 -> x & m = (x mod 8) & m.
Proof using.
  intros Hm. change 8 with (2 ^ 3). rewrite <- Z.land_ones by lia. rewrite <- Z.land_assoc. f_equal.
  rewrite Z.land_comm, Z.land_ones, Z.mod_small by (cbn; lia). done.
Qed.

Definition b2z (b : bool) (w : Z) : Z := if b then w else 0.

Lemma code_fields k cb f1 f2 :
  let nCode := 8 * k + b2z cb 1 + b2z f1 2 + b2z f2 4 in
  nCode / 8 = k /\ negb (nCode & 1 =? 0) = cb /\ negb (nCode & 2 =? 0) = f1 /\ negb (nCode & 4 =? 0) = f2 /\ negb (nCode & 6 =? 0) = f1 || f2.
Proof using.
  cbv zeta. set (r := b2z cb 1 + b2z f1 2 + b2z f2 4). assert (Hr : 0 <= r < 8) by (subst r; destruct cb, f1, f2; cbn; lia).
  replace (8 * k + b2z cb 1 + b2z f1 2 + b2z f2 4) with (r + k * 8) by (subst r; lia).
  destruct (digit_div_mod 8 k r Hr) as [Em Ed]. rewrite !(land_low (r + k * 8)), Em, Ed by lia. subst r.
  destruct cb, f1, f2; by vm_compute.
Qed.

(** Coins the database may hold. *)
Definition coins_storable (cs : CCoins) : Prop :=
  coins_ok cs /\ IsPruned cs = false /\ Forall stored_out (c_vout cs) /\ len (c_vout cs) < 2 ^ 31 /\
  0 <= c_nHeight cs < 2 ^ 31 /\ - 2 ^ 31 <= c_nVersion cs < 2 ^ 31.

(** The coins as they are read back: a negative version is not, see [stored_version]. *)
Definition stored_coins (cs : CCoins) : CCoins :=
  mkCoins (fCoinBase cs) (c_vout cs) (c_nHeight cs) (stored_version (c_nVersion cs)).

Lemma Cleanup_nulls v n : Cleanup_vout v = v -> Cleanup_vout (v ++ replicate n CTxOut_null) = v.
Proof using.
  intros Hc. induction n as [|n IH]; [by rewrite app_nil_r |]. rewrite replicate_S_end, app_assoc, Cleanup_snoc_null; done.
Qed.

(** An unspent output is in the first two or in the mask. *)
Lemma some_available cs :
  coins_ok cs -> IsPruned cs = false -> avail (c_vout cs) 0 || avail (c_vout cs) 1 = true \/ (CalcMaskSize (c_vout cs)).2 <> 0%nat.
Proof using.
  intros Hok Hp. rewrite (IsPruned_ok cs Hok) in Hp. apply bool_decide_eq_false in Hp. destruct Hok as [Hc _ _].
  pose proof (mask_covers _ Hc) as Hm. revert Hm. change (CalcMaskSize ?v) with (used (mask_zero v) (mask_bytes v)).
  pose proof (used_spec (mask_zero (c_vout cs)) (mask_bytes (c_vout cs))) as HU. destruct (used _ _) as [k n]. destruct HU as (_ & -> & _ & Hb). cbn [fst snd].
  intros Hm. destruct k as [|k].
  - left. destruct (snoc_dec (c_vout cs)) as [|(l & x & E)]; [done |]. rewrite E in *. apply clean_snoc in Hc. rewrite length_app in Hm. cbn [length] in Hm.
    unfold avail. destruct l as [|a [|]]; cbn in *; [by rewrite Hc | rewrite Hc; apply orb_true_r | lia].
  - right. specialize (Hb k eq_refl). unfold count_nonzero. rewrite seq_S, list.filter_app, length_app, Nat.add_0_l, filter_cons, decide_True by done. cbn [length]. lia.
Qed.

Lemma CCoins_read_write cs :
  parse_compressed parse -> coins_storable cs ->
  exists b, CCoins_write parse cs = Some b /\ forall s, CCoins_read parse (b ++ s) = Some (stored_coins cs, s).
Proof using.
  intros Hpc (Hok & Hp & Ho & Hl & Hh & Hv). pose proof (some_available cs Hok Hp) as Ha. pose proof Hok as [Hc _ _].
  pose proof (mask_covers _ Hc) as Hm. revert Ha Hm. unfold CCoins_write. set (v := c_vout cs) in *.
  change (CalcMaskSize v) with (used (mask_zero v) (mask_bytes v)). pose proof (used_spec (mask_zero v) (mask_bytes v)) as HU.
  destruct (used _ _) as [k n]. destruct HU as (Hk & En & _ & Hb). cbn [fst snd]. intros Ha Hm.
  set (f12 := avail v 0 || avail v 1) in *.
  assert (Hassert : negb (f12 || negb (Nat.eqb n 0)) = false) by (destruct Ha as [->|Hn]; [done |]; rewrite (proj2 (Nat.eqb_neq _ _) Hn); by destruct f12).
  rewrite Hassert. clear Hassert.
  assert (Hn : (n <= k)%nat) by (rewrite En; unfold count_nonzero; rewrite length_filter, length_seq; lia).
  assert (Hkl : (8 * k <= length v + 7)%nat).
  { assert (8 * mask_bytes v <= length v - 2 + 7)%nat by (unfold mask_bytes; apply Nat.mul_div_le; lia). lia. }
  set (m := Z.of_nat n - (if f12 then 0 else 1)). assert (Hmb : 0 <= m <= Z.of_nat n) by (subst m; destruct f12; [lia |]; destruct Ha; [done | lia]).
  destruct (code_fields m (fCoinBase cs) (avail v 0) (avail v 1)) as (F1 & F2 & F3 & F4 & F5).
  set (code := 8 * m + b2z (fCoinBase cs) 1 + b2z (avail v 0) 2 + b2z (avail v 1) 4) in *.
  assert (Hcode : 0 <= code < 2 ^ 32) by (subst code; destruct (fCoinBase cs), (avail v 0), (avail v 1); cbn [b2z]; lia).
  change (8 * m + (if fCoinBase cs then 1 else 0) + (if avail v 0 then 2 else 0) + (if avail v 1 then 4 else 0)) with code. rewrite wrap_id by done.
  destruct (version_read_write (c_nVersion cs) Hv) as (bv & -> & RV).
  destruct (WriteVarInt_total (unsigned_t 32) (2 ^ 32 - 1) code) as (bc & -> & _ & _ & RC); [by apply unsigned_max | lia |].
  destruct (WriteVarInt_total (signed_t 32) (2 ^ 31 - 1) (c_nHeight cs)) as (bh & -> & _ & _ & RH); [by apply (signed_max 32) | lia |].
  destruct (read_outs_write v (2 + 8 * k - length v) Hpc Ho) as (bo & -> & RO). rewrite !obind_Some. eexists. split; [done |]. intros s.
  unfold CCoins_read. rewrite <- !app_assoc, RV, obind_Some, RC, obind_Some, F1, F2, F3, F4, F5. fold f12.
  replace (m + (if f12 then 0 else 1)) with (Z.of_nat (count_nonzero (mask_zero v) (seq 0 k))) by (subst m; rewrite <- En; destruct f12; lia).
  rewrite (read_mask_octets (mask_zero v) (mask_octet v) k); [| by intros b; apply mask_octet_bits | intros Hk0; apply Hb; lia].
  rewrite obind_Some, mask_avail. replace (2 + 8 * k)%nat with (length v + (2 + 8 * k - length v))%nat by lia.
  rewrite avail_list, RO, obind_Some, RH, obind_Some. do 2 f_equal. unfold Cleanup, set_vout. cbn [c_vout fCoinBase c_nHeight c_nVersion].
  by rewrite Cleanup_nulls by done.
Qed.

End Store.
