(* ===== verification/TxVerify.v ===== *)
(** * Checks of a transaction in main.cpp: CheckTransaction, Consensus::CheckTxInputs and the
    counts of signature operations

    A check returns a [verdict]: what the code goes on with, or the arguments of the call of
    [state.DoS] or [state.Invalid] that it returns with.  The second part proves what the
    checks decide. *)

From stdpp Require Import gmap.
From Stdlib Require Import String.
From S2P Require Import Prelude MdHash Hash Script Interpreter Serialize Transaction TransactionTheorems Compressor Coins CoinsUndo.
#[local] Open Scope Z_scope.

(** ** Verdicts *)

Record reject := mkReject { nDoS : Z; chRejectCode : Z; strRejectReason : string }.

Abbreviation verdict A := (outcome (reject + A)).

Definition REJECT_INVALID : Z := 0x10.

Definition DoS {A} (level code : Z) (reason : string) : verdict A := Ret (inl (mkReject level code reason)).
(** [state.Invalid]. *)
Definition Invalid {A} (code : Z) (reason : string) : verdict A := DoS 0 code reason.
Definition pass {A} (a : A) : verdict A := Ret (inr a).

Definition vbnd {A B} (m : verdict A) (k : A -> verdict B) : verdict B :=
  let* r := m in match r with inl e => Ret (inl e) | inr a => k a end.

Declare Scope verdict_scope.
Notation "'let!' x := m 'in' k" := (vbnd m (fun x => k))
  (at level 200, x pattern, m at level 100, k at level 200, only parsing) : verdict_scope.
#[local] Open Scope verdict_scope.
#[local] Open Scope string_scope.
#[local] Open Scope Z_scope.

(** ** [CheckTransaction] *)

Definition MAX_BLOCK_BASE_SIZE : Z := 2000000.

(** The values of the outputs. *)
Fixpoint check_outputs (outs : list CTxOut) (nValueOut : Z) : verdict Z :=
  match outs with
  | [] => pass nValueOut
  | txout :: outs =>
      if nValue txout <? 0 then DoS 100 REJECT_INVALID "bad-txns-vout-negative"
      else if MAX_MONEY <? nValue txout then DoS 100 REJECT_INVALID "bad-txns-vout-toolarge"
      else
        let* nValueOut := int64 (nValueOut + nValue txout) in
        if negb (MoneyRange nValueOut) then DoS 100 REJECT_INVALID "bad-txns-txouttotal-toolarge"
        else check_outputs outs nValueOut
  end.

(** Duplicate inputs; the sets as lists. *)
Fixpoint check_duplicates (tx : CTransaction) (ins : list CTxIn) (vInOutPoints : list COutPoint)
    (spendScripts spendV3Scripts : list (list Z)) : verdict unit :=
  match ins with
  | [] => pass tt
  | txin :: ins =>
      if IsZerocoinSpend tx then
        if bool_decide (scriptSig txin ∈ spendScripts) then DoS 100 REJECT_INVALID "bad-txns-spend-inputs-duplicate"
        else check_duplicates tx ins vInOutPoints (scriptSig txin :: spendScripts) spendV3Scripts
      else if IsSigmaSpend tx then
        if bool_decide (scriptSig txin ∈ spendV3Scripts) then DoS 100 REJECT_INVALID "bad-txns-inputs-duplicate"
        else check_duplicates tx ins vInOutPoints spendScripts (scriptSig txin :: spendV3Scripts)
      else
        if bool_decide (prevout txin ∈ vInOutPoints) then DoS 100 REJECT_INVALID "bad-txns-inputs-duplicate"
        else check_duplicates tx ins (prevout txin :: vInOutPoints) spendScripts spendV3Scripts
  end.

(** The checks that come before those of zerocoin and sigma transactions. *)
Definition CheckTransaction_common `{Abi} (tx : CTransaction) : verdict unit :=
  if len (vin tx) =? 0 then DoS 10 REJECT_INVALID "bad-txns-vin-empty"
  else if len (vout tx) =? 0 then DoS 10 REJECT_INVALID "bad-txns-vout-empty"
  else
    let* size := must (tx_GetSerializeSize (PROTOCOL_VERSION .| SERIALIZE_TRANSACTION_NO_WITNESS) tx) in
    if MAX_BLOCK_BASE_SIZE <? size then DoS 100 REJECT_INVALID "bad-txns-oversize"
    else
      let! _ := check_outputs (vout tx) 0 in
      let! _ := check_duplicates tx (vin tx) [] [] [] in
      if IsCoinBase tx then
        let* txin := must (head (vin tx)) in
        if (len (scriptSig txin) <? 2) || (100 <? len (scriptSig txin)) then DoS 100 REJECT_INVALID "bad-cb-length"
        else pass tt
      else if existsb (fun txin => COutPoint_IsNull (prevout txin) &&
                negb (script_IsZerocoinSpend (scriptSig txin) || txin_IsZerocoinRemint txin)) (vin tx)
      then DoS 10 REJECT_INVALID "bad-txns-prevout-null"
      else pass tt.

(** ** [Consensus::CheckTxInputs] *)

Definition COINBASE_MATURITY : Z := 100.

(** [int] arithmetic; overflow is undefined. *)
Definition int_ (x : Z) : outcome Z := if (- 2 ^ 31 <=? x) && (x <? 2 ^ 31) then Ret x else Stuck.

Section View.
Context `{CCoinsView V}.
Implicit Types inputs : CCoinsViewCache V.

(** The loop over the inputs: [nValueIn]. *)
Fixpoint check_inputs_loop (ins : list CTxIn) (nSpendHeight nValueIn : Z) inputs : verdict (Z * CCoinsViewCache V) :=
  match ins with
  | [] => pass (nValueIn, inputs)
  | i :: ins =>
      let '(coins, inputs) := AccessCoins inputs (out_hash (prevout i)) in
      let* coins := must coins in
      let* premature := (if fCoinBase coins
        then let* depth := int_ (nSpendHeight - c_nHeight coins) in Ret (depth <? COINBASE_MATURITY) else Ret false) in
      if premature
      then Invalid REJECT_INVALID "bad-txns-premature-spend-of-coinbase"
      else
        let* o := must (c_vout coins !! Z.to_nat (out_n (prevout i))) in
        let* nValueIn := int64 (nValueIn + nValue o) in
        if negb (MoneyRange (nValue o)) || negb (MoneyRange nValueIn)
        then DoS 100 REJECT_INVALID "bad-txns-inputvalues-outofrange"
        else check_inputs_loop ins nSpendHeight nValueIn inputs
  end.

(** The fee and the cache; the exception [GetValueOut] throws is not caught. *)
Definition CheckTxInputs (tx : CTransaction) inputs (nSpendHeight : Z) : verdict (Z * CCoinsViewCache V) :=
  let '(have, inputs) := HaveInputs inputs tx in
  if negb have then Invalid 0 ""
  else
    let! (nValueIn, inputs) := check_inputs_loop (vin tx) nSpendHeight 0 inputs in
    let* nValueOut := GetValueOut tx in
    let* nValueOut := must nValueOut in
    if nValueIn <? nValueOut then DoS 100 REJECT_INVALID "bad-txns-in-belowout"
    else
      let* nTxFee := int64 (nValueIn - nValueOut) in
      if nTxFee <? 0 then DoS 100 REJECT_INVALID "bad-txns-fee-negative"
      else
        let* nFees := int64 (0 + nTxFee) in
        if negb (MoneyRange nFees) then DoS 100 REJECT_INVALID "bad-txns-fee-outofrange" else pass (nFees, inputs).

(** ** Signature operations *)

Definition GetLegacySigOpCount (tx : CTransaction) : Z :=
  let nSigOps := foldl (fun n i => u32 (n + GetSigOpCount (scriptSig i) false)) 0 (vin tx) in
  foldl (fun n o => u32 (n + GetSigOpCount (scriptPubKey o) false)) nSigOps (vout tx).

Fixpoint p2sh_sigops (ins : list CTxIn) (nSigOps : Z) inputs : outcome (Z * CCoinsViewCache V) :=
  match ins with
  | [] => Ret (nSigOps, inputs)
  | i :: ins =>
      let* (prevout, inputs) := must (GetOutputFor inputs i) in
      p2sh_sigops ins (if IsPayToScriptHash (scriptPubKey prevout)
        then u32 (nSigOps + GetSigOpCount_P2SH (scriptPubKey prevout) (scriptSig i)) else nSigOps) inputs
  end.

Definition GetP2SHSigOpCount (tx : CTransaction) inputs : outcome (Z * CCoinsViewCache V) :=
  if IsCoinBase tx || IsZerocoinSpend tx || IsSigmaSpend tx then Ret (0, inputs) else p2sh_sigops (vin tx) 0 inputs.

Fixpoint witness_sigops (ins : list CTxIn) (i : nat) (wit : list CTxInWitness) (flags nSigOps : Z) inputs
    : outcome (Z * CCoinsViewCache V) :=
  match ins with
  | [] => Ret (nSigOps, inputs)
  | txin :: ins =>
      let* (prevout, inputs) := must (GetOutputFor inputs txin) in
      let* n := CountWitnessSigOps (scriptSig txin) (scriptPubKey prevout) (@rev _ <$> wit !! i) flags in
      witness_sigops ins (S i) wit flags (to_signed 64 (u64 (nSigOps + n))) inputs
  end.

(** The products are of an [unsigned int] and an [int]. *)
Definition GetTransactionSigOpCost (tx : CTransaction) inputs (flags : Z) : outcome (Z * CCoinsViewCache V) :=
  let nSigOps := u32 (GetLegacySigOpCount tx * WITNESS_SCALE_FACTOR) in
  if no_coins tx then Ret (nSigOps, inputs)
  else
    let* (nSigOps, inputs) :=
      (if has flags SCRIPT_VERIFY_P2SH then
         let* (n, inputs) := GetP2SHSigOpCount tx inputs in
         let* nSigOps := int64 (nSigOps + u32 (n * WITNESS_SCALE_FACTOR)) in Ret (nSigOps, inputs)
       else Ret (nSigOps, inputs)) in
    witness_sigops (vin tx) 0 (vtxinwit tx) flags nSigOps inputs.

End View.

(** * Checking the inputs of a transaction against the map of unspent outputs

    [out_at] is the unspent output an input refers to.  The checks of main.cpp decide a
    condition on these outputs; spending them takes their value out of the supply. *)

#[local] Open Scope Z_scope.

(** ** The output of an input *)

Definition out_at (u : utxo_map) (p : COutPoint) : option CTxOut :=
  cs ← u (out_hash p); if IsAvailable cs (out_n p) then c_vout cs !! Z.to_nat (out_n p) else None.

Lemma IsAvailable_out cs n : IsAvailable cs n = true <-> exists o, c_vout cs !! Z.to_nat n = Some o /\ CTxOut_IsNull o = false.
Proof.
  unfold IsAvailable. destruct (c_vout cs !! Z.to_nat n) as [o|]; [| naive_solver]. rewrite negb_true_iff. naive_solver.
Qed.

Lemma out_at_Some u p o :
  out_at u p = Some o <-> exists cs, u (out_hash p) = Some cs /\ c_vout cs !! Z.to_nat (out_n p) = Some o /\ CTxOut_IsNull o = false.
Proof.
  unfold out_at. split.
  - intros (cs & Ecs & H)%bind_Some. destruct (IsAvailable cs (out_n p)) eqn:Ea; [| done].
    apply IsAvailable_out in Ea as (o' & Eo & Hn). exists cs. naive_solver.
  - intros (cs & -> & Eo & Hn). rewrite obind_Some. rewrite (proj2 (IsAvailable_out cs (out_n p))) by eauto. done.
Qed.

Lemma out_at_ext u u' p : (forall t, u t = u' t) -> out_at u p = out_at u' p.
Proof. intros E. unfold out_at. by rewrite E. Qed.

(** The outputs of coins, without the spent ones that end the list. *)
Lemma Cleanup_lookup l n o : CTxOut_IsNull o = false -> Cleanup_vout l !! n = Some o <-> l !! n = Some o.
Proof.
  intros Ho. destruct (Cleanup_vout_spec l) as (k & E & Hk). split; intros H.
  - rewrite E. by apply lookup_app_l_Some.
  - rewrite E in H. apply lookup_app_Some in H as [H|[_ H]]; [done |]. rewrite Forall_lookup in Hk. by rewrite (Hk _ _ H) in Ho.
Qed.

Lemma Spend_lookup cs n n' o :
  0 <= n -> 0 <= n' -> n' <> n -> CTxOut_IsNull o = false ->
  c_vout (Spend cs n).2 !! Z.to_nat n' = Some o <-> c_vout cs !! Z.to_nat n' = Some o.
Proof.
  intros Hn Hn' Hne Ho. unfold Spend. destruct (IsAvailable cs n); [| done]. cbn [snd Cleanup set_vout c_vout].
  rewrite Cleanup_lookup by done. rewrite list_lookup_insert_ne by lia. done.
Qed.

(** A null output is none. *)
Lemma out_norm cs n o : CTxOut_IsNull o = false -> c_vout cs !! n = Some o -> norm cs = Some cs.
Proof.
  intros Ho Hl. unfold norm, IsPruned. destruct (forallb CTxOut_IsNull (c_vout cs)) eqn:E; [| done].
  rewrite forallb_forall in E. specialize (E o). rewrite E in Ho; [done |]. by apply list_elem_of_In, (list_elem_of_lookup_2 _ n).
Qed.

(** Spending one input leaves the outputs of the others. *)
Lemma utxo_spend_out u i un u' p :
  utxo_spend u i = Some (un, u') -> 0 <= out_n (prevout i) -> 0 <= out_n p -> p <> prevout i -> out_at u' p = out_at u p.
Proof.
  unfold utxo_spend. intros (cs & Ecs & H)%bind_Some Hi Hp Hne. destruct (IsAvailable cs _); [| done].
  apply bind_Some in H as (o & _ & [= <- <-]). apply option_eq. intros o'. rewrite !out_at_Some. unfold upd.
  destruct (decide (out_hash p = out_hash (prevout i))) as [E|E]; [| done]. rewrite E, Ecs.
  assert (Hn : out_n p <> out_n (prevout i)) by (intros En; apply Hne; destruct p, (prevout i); cbn in *; congruence).
  split.
  - intros (cs' & Ec & Hl & Ho). apply norm_Some in Ec as [-> _]. rewrite Spend_lookup in Hl by done. eauto.
  - intros (cs' & [= <-] & Hl & Ho). exists (Spend cs (out_n (prevout i))).2. split_and!; [| by rewrite Spend_lookup | done].
    apply (out_norm _ (Z.to_nat (out_n p)) o'); [done | by rewrite Spend_lookup].
Qed.

Lemma utxo_spend_Some u i o :
  out_at u (prevout i) = Some o -> exists un u', utxo_spend u i = Some (un, u') /\ u_txout un = o.
Proof.
  intros (cs & Ecs & Hl & Ho)%out_at_Some. unfold utxo_spend. rewrite Ecs, obind_Some.
  rewrite (proj2 (IsAvailable_out cs _)) by eauto. rewrite Hl, obind_Some. eexists _, _. split; [done |].
  unfold spend_undo. by destruct (decide _).
Qed.

(** Distinct unspent outputs can all be spent; the undo data has them. *)
Lemma utxo_spends_Some ins u outs :
  Forall (fun i => 0 <= out_n (prevout i)) ins -> NoDup (prevout <$> ins) -> mapM (fun i => out_at u (prevout i)) ins = Some outs ->
  exists uns u', utxo_spends u ins = Some (uns, u') /\ u_txout <$> uns = outs.
Proof.
  revert u outs. induction ins as [|i ins IH]; intros u outs HF HN HM; [by injection HM as <-; exists [], u |].
  apply Forall_cons_iff in HF as [Hi HF]. inversion HN as [|? ? Hni HN']; subst. cbn in HM.
  apply bind_Some in HM as (o & Eo & (outs' & EM & [= <-])%bind_Some).
  destruct (utxo_spend_Some u i o Eo) as (un & u1 & E1 & <-). cbn [utxo_spends]. rewrite E1, obind_Some.
  destruct (IH u1 outs') as (uns & u2 & -> & <-); [done | done | |].
  { rewrite <- EM. symmetry. apply Forall_mapM_ext, list.Forall_forall. intros j Hj. symmetry. apply (utxo_spend_out u i un u1); try done.
    - by apply (proj1 (list.Forall_forall _ _) HF).
    - intros E. apply Hni. rewrite <- E. by apply list_elem_of_fmap_2. }
  rewrite obind_Some. by exists (un :: uns), u2.
Qed.

(** ** Supply *)

Definition out_value (o : CTxOut) : Z := if CTxOut_IsNull o then 0 else nValue o.
Definition outs_value (l : list CTxOut) : Z := foldr (fun o s => out_value o + s) 0 l.

(** The value of all unspent outputs. *)
Definition supply (m : gmap (list Z) CCoins) : Z := map_fold (fun _ cs s => outs_value (c_vout cs) + s) 0 m.

Definition maybe_value (x : option CCoins) : Z := match x with Some cs => outs_value (c_vout cs) | None => 0 end.

Lemma supply_insert m t cs : m !! t = None -> supply (<[t := cs]> m) = outs_value (c_vout cs) + supply m.
Proof. intros H. unfold supply. rewrite map_fold_insert_L; [done | intros; lia | done]. Qed.

Lemma supply_upd m t x : supply (partial_alter (fun _ => x) t m) = supply m - maybe_value (m !! t) + maybe_value x.
Proof.
  assert (E : forall x m, m !! t = None -> supply (partial_alter (fun _ => x) t m) = supply m + maybe_value x).
  { intros [cs|] m' Hm; [change (partial_alter (fun _ => Some cs) t m') with (<[t := cs]> m'); rewrite (supply_insert m' t cs Hm); cbn; lia |]. change (partial_alter (fun _ => None) t m') with (delete t m').
    rewrite delete_id by done. cbn. lia. }
  destruct (m !! t) as [cs|] eqn:Em; [| rewrite E by done; cbn; lia].
  rewrite <- (insert_delete_id m t cs Em) at 2. rewrite supply_insert by apply lookup_delete_eq.
  transitivity (supply (partial_alter (fun _ => x) t (delete t m))); [| rewrite E by apply lookup_delete_eq; cbn; lia].
  f_equal. apply map_eq. intros t'. destruct (decide (t' = t)) as [->|Hne]; [by rewrite !lookup_partial_alter_eq |].
  by rewrite !lookup_partial_alter_ne, lookup_delete_ne.
Qed.

(** [m] is the finite map of [u]. *)
Definition represents (m : gmap (list Z) CCoins) (u : utxo_map) : Prop := forall t, m !! t = u t.

Lemma represents_upd m u t x : represents m u -> represents (partial_alter (fun _ => x) t m) (upd u t x).
Proof.
  intros H t'. unfold upd. destruct (decide (t' = t)) as [->|Hne]; [by rewrite lookup_partial_alter_eq |].
  by rewrite lookup_partial_alter_ne by done.
Qed.

Lemma total_out_cons o l : total_out (o :: l) = nValue o + total_out l.
Proof. done. Qed.

Lemma outs_value_cons o l : outs_value (o :: l) = out_value o + outs_value l.
Proof. done. Qed.

Lemma outs_value_app l k : outs_value (l ++ k) = outs_value l + outs_value k.
Proof. induction l as [|o l IH]; [done |]. cbn [app]. rewrite !outs_value_cons, IH. lia. Qed.

Lemma outs_value_null k : Forall (fun o => CTxOut_IsNull o = true) k -> outs_value k = 0.
Proof. induction 1 as [|o k Ho Hk IH]; [done |]. rewrite outs_value_cons, IH. unfold out_value. by rewrite Ho. Qed.

Lemma outs_value_Cleanup l : outs_value (Cleanup_vout l) = outs_value l.
Proof. destruct (Cleanup_vout_spec l) as (k & E & Hk). rewrite E at 2. rewrite outs_value_app, (outs_value_null k) by done. lia. Qed.

Lemma outs_value_insert l n o o' : l !! n = Some o -> outs_value (<[n := o']> l) = outs_value l - out_value o + out_value o'.
Proof.
  intros E. rewrite <- (take_drop_middle l n o E) at 2. rewrite insert_take_drop by (by eapply lookup_lt_Some).
  rewrite !outs_value_app, !outs_value_cons. lia.
Qed.

Lemma coins_norm_value cs : maybe_value (norm cs) = outs_value (c_vout cs).
Proof.
  unfold norm, IsPruned. destruct (forallb _ _) eqn:E; [| done]. symmetry. apply outs_value_null, list.Forall_forall.
  rewrite forallb_forall in E. intros o Ho. by apply E, list_elem_of_In.
Qed.

Lemma utxo_spend_supply u i un u' m :
  represents m u -> utxo_spend u i = Some (un, u') ->
  exists m', represents m' u' /\ supply m' = supply m - nValue (u_txout un).
Proof.
  intros Hm. unfold utxo_spend. intros (cs & Ecs & H)%bind_Some. destruct (IsAvailable cs _) eqn:Ea; [| done].
  apply bind_Some in H as (o & Eo & H). injection H as <- <-. eexists. split; [by apply represents_upd |].
  rewrite supply_upd, coins_norm_value, (Hm _), Ecs. cbn [maybe_value]. unfold Spend. rewrite Ea. cbn [snd Cleanup set_vout c_vout].
  rewrite outs_value_Cleanup, (outs_value_insert _ _ o) by done. apply IsAvailable_out in Ea as (o' & Eo' & Hn).
  assert (o' = o) as -> by congruence. unfold out_value at 1. rewrite Hn. change (out_value CTxOut_null) with 0.
  assert (Eu : forall cs', u_txout (spend_undo o cs') = o) by (intros; unfold spend_undo; by destruct (decide _)).
  rewrite Eu. lia.
Qed.

Lemma utxo_spends_supply ins u uns u' m :
  represents m u -> utxo_spends u ins = Some (uns, u') ->
  exists m', represents m' u' /\ supply m' = supply m - total_out (u_txout <$> uns).
Proof.
  revert u uns u' m. induction ins as [|i ins IH]; intros u uns u' m Hm; cbn [utxo_spends].
  { intros [= <- <-]. exists m. split; [done |]. cbn. lia. }
  intros ([un u1] & E1 & ([uns1 u2] & E2 & [= <- <-])%bind_Some)%bind_Some.
  destruct (utxo_spend_supply u i un u1 m Hm E1) as (m1 & Hm1 & E3). destruct (IH u1 uns1 u2 m1 Hm1 E2) as (m2 & Hm2 & E4).
  exists m2. split; [done |]. rewrite E4, E3, fmap_cons. rewrite total_out_cons. lia.
Qed.

(** The outputs that enter the map, and those that cannot be spent. *)
Definition unspendable_out (tx : CTransaction) : Z := total_out (filter (fun o => IsUnspendable (scriptPubKey o) = true) (vout tx)).

Lemma FromTx_value tx h :
  Forall (fun o => CTxOut_IsNull o = false) (vout tx) -> outs_value (c_vout (FromTx tx h)) = total_out (vout tx) - unspendable_out tx.
Proof.
  intros Hn. unfold FromTx, ClearUnspendable, unspendable_out. cbn [Cleanup set_vout c_vout]. rewrite outs_value_Cleanup.
  induction Hn as [|o l Ho Hl IH]; [done |]. rewrite fmap_cons, filter_cons. rewrite total_out_cons.
  rewrite outs_value_cons, IH. destruct (IsUnspendable (scriptPubKey o)) eqn:E.
  - rewrite decide_True by done. rewrite total_out_cons. change (out_value CTxOut_null) with 0. lia.
  - rewrite decide_False by done. unfold out_value. rewrite Ho. lia.
Qed.

Lemma utxo_update_supply u tx hash h uns u' m :
  represents m u -> u hash = None -> no_coins tx = false -> Forall (fun o => CTxOut_IsNull o = false) (vout tx) ->
  utxo_update u tx hash h = Some (uns, u') ->
  exists m', represents m' u' /\ supply m' = supply m - total_out (u_txout <$> uns) + (total_out (vout tx) - unspendable_out tx).
Proof.
  intros Hm Hn Hc Ho. unfold utxo_update. rewrite Hc. cbn [negb]. intros ([uns1 u1] & E1 & [= <- <-])%bind_Some.
  destruct (utxo_spends_supply _ _ _ _ m Hm E1) as (m1 & Hm1 & E2). eexists. split; [by apply represents_upd |].
  rewrite supply_upd, coins_norm_value, FromTx_value by done. rewrite (Hm1 hash), (utxo_spends_none _ _ _ _ hash E1 Hn), E2. cbn. lia.
Qed.

(** ** The condition that is checked *)

Definition mature (u : utxo_map) (nSpendHeight : Z) (i : CTxIn) : bool :=
  match u (out_hash (prevout i)) with
  | Some cs => negb (fCoinBase cs && (nSpendHeight - c_nHeight cs <? COINBASE_MATURITY))
  | None => false
  end.

(** The fee of a transaction whose inputs may be spent. *)
Definition inputs_fee (u : utxo_map) (tx : CTransaction) (nSpendHeight : Z) : option Z :=
  outs ← mapM (fun i => out_at u (prevout i)) (vin tx);
  if forallb (mature u nSpendHeight) (vin tx) && forallb (fun o => MoneyRange (nValue o)) outs && MoneyRange (total_out outs) &&
     (total_out (vout tx) <=? total_out outs)
  then Some (total_out outs - total_out (vout tx)) else None.

(** Coins whose height is an [int] and whose values are far from overflow. *)
Definition utxo_bounded (u : utxo_map) : Prop := forall t cs, u t = Some cs ->
  0 <= c_nHeight cs < 2 ^ 31 /\ Forall (fun o => - 2 ^ 62 <= nValue o < 2 ^ 62) (c_vout cs).

Section Checks.
Context {V : Type} {HV : CCoinsView V} {OK : CCoinsViewOk V}.
Implicit Types c : CCoinsViewCache V.

(** What reading through a cache leaves unchanged. *)
Definition same_coins c c' : Prop :=
  cache_ok c' /\ (forall t, cache_utxo c' t = cache_utxo c t) /\ (forall t, utxo (base c') t = utxo (base c) t).

Lemma same_refl c : cache_ok c -> same_coins c c.
Proof using. intros Hc. unfold same_coins. by split_and!. Qed.

Lemma same_trans c1 c2 c3 : same_coins c1 c2 -> same_coins c2 c3 -> same_coins c1 c3.
Proof using. intros (? & A & B) (? & C & D). unfold same_coins. split_and!; [done | |]; intros t; by rewrite ?C, ?D, ?A, ?B. Qed.

Lemma FetchCoins_same c t : cache_ok c -> same_coins c (FetchCoins c t).2.
Proof using.
  intros Hc. pose proof (FetchCoins_spec c t Hc) as HF. destruct (FetchCoins c t) as [r c'] eqn:E. cbn [snd].
  destruct HF as (H1 & H2 & _). unfold same_coins. split_and!; [done | done |]. unfold FetchCoins in E. destruct Hc as [Hb _ _].
  pose proof (GetCoins_spec (base c) t Hb) as HG. destruct (cacheCoins c !! t); [by injection E as <- <- |].
  destruct (GetCoins (base c) t) as [[tmp|] b]; destruct HG as (_ & HG & _); injection E as <- <-; exact HG.
Qed.

Lemma AccessCoins_out c p r c' :
  cache_ok c -> AccessCoins c (out_hash p) = (r, c') ->
  same_coins c c' /\ match out_at (cache_utxo c) p with
  | Some o => exists cs, r = Some cs /\ cache_utxo c (out_hash p) = Some cs /\ IsAvailable cs (out_n p) = true /\ c_vout cs !! Z.to_nat (out_n p) = Some o
  | None => forall cs, r = Some cs -> IsAvailable cs (out_n p) = false
  end.
Proof using.
  intros Hc. unfold AccessCoins, cache_GetCoins. pose proof (FetchCoins_same c (out_hash p) Hc) as HS.
  pose proof (FetchCoins_spec c (out_hash p) Hc) as HF. destruct (FetchCoins c (out_hash p)) as [e c1]. intros [= <- <-].
  destruct HF as (_ & _ & _ & HN & Hok). split; [done |]. unfold out_at. rewrite <- HN. destruct e as [e|]; [| done].
  cbn [fmap option_fmap option_map]. rewrite obind_Some. specialize (Hok e eq_refl).
  change (norm (coins e)) with (if IsPruned (coins e) then None else Some (coins e)). destruct (IsPruned (coins e)) eqn:Ep.
  - cbn [mbind option_bind]. intros cs [= <-]. rewrite (IsPruned_ok _ Hok) in Ep. apply bool_decide_eq_true in Ep.
    unfold IsAvailable. by rewrite Ep.
  - rewrite obind_Some. destruct (IsAvailable (coins e) (out_n p)) eqn:Ea; [| by intros cs [= <-]].
    pose proof Ea as (o & Eo & _)%IsAvailable_out. rewrite Eo. by exists (coins e).
Qed.

Lemma HaveInputs_loop_spec ins c :
  cache_ok c -> exists c', HaveInputs_loop c ins = (bool_decide (is_Some (mapM (fun i => out_at (cache_utxo c) (prevout i)) ins)), c') /\ same_coins c c'.
Proof using.
  revert c. induction ins as [|i ins IH]; intros c Hc; [exists c; split; [done | by apply same_refl] |].
  cbn [HaveInputs_loop mapM]. destruct (AccessCoins c (out_hash (prevout i))) as [r c1] eqn:E.
  destruct (AccessCoins_out c (prevout i) r c1 Hc E) as [HS HO]. destruct (out_at (cache_utxo c) (prevout i)) as [o|].
  - destruct HO as (cs & -> & _ & -> & _). rewrite obind_Some. destruct (IH c1) as (c2 & -> & HS2); [by apply HS |]. exists c2.
    split; [| by eapply same_trans]. f_equal.
    rewrite (mapM_ext _ (fun i => out_at (cache_utxo c) (prevout i))) by (intros j; apply out_at_ext, HS).
    destruct (mapM _ ins); [by rewrite !bool_decide_eq_true_2 | by rewrite !bool_decide_eq_false_2].
  - exists c1. split; [| done]. destruct r as [cs|]; [rewrite (HO cs eq_refl) |]; by rewrite bool_decide_eq_false_2.
Qed.

Lemma forallb_ext {A} (f g : A -> bool) l : (forall x, f x = g x) -> forallb f l = forallb g l.
Proof using. intros E. induction l as [|x l IH]; [done |]. cbn. by rewrite E, IH. Qed.

(** Sums of amounts. *)
Lemma total_range acc outs :
  0 <= acc -> forallb (fun o => MoneyRange (nValue o)) outs = true -> acc <= acc + total_out outs.
Proof using.
  revert acc. induction outs as [|o outs IH]; intros acc Ha HF; [cbn; lia |]. cbn [forallb] in HF. rewrite total_out_cons.
  apply andb_true_iff in HF as [Ho HF]. unfold MoneyRange in Ho. apply andb_true_iff in Ho as [?%Z.leb_le _].
  specialize (IH (acc + nValue o) ltac:(lia) HF). lia.
Qed.

Lemma int64_ok x : - 2 ^ 63 <= x < 2 ^ 63 -> int64 x = Ret x.
Proof using. intros. unfold int64, int64_min, int64_max. by rewrite !(proj2 (Z.leb_le _ _)) by lia. Qed.

Lemma int_ok x : - 2 ^ 31 <= x < 2 ^ 31 -> int_ x = Ret x.
Proof using. intros. unfold int_. by rewrite (proj2 (Z.leb_le _ _)), (proj2 (Z.ltb_lt _ _)) by lia. Qed.

Lemma check_inputs_loop_spec ins h acc c outs :
  cache_ok c -> utxo_bounded (cache_utxo c) -> 0 <= h < 2 ^ 31 -> 0 <= acc <= MAX_MONEY ->
  mapM (fun i => out_at (cache_utxo c) (prevout i)) ins = Some outs ->
  if forallb (mature (cache_utxo c) h) ins && forallb (fun o => MoneyRange (nValue o)) outs && MoneyRange (acc + total_out outs)
  then exists c', check_inputs_loop ins h acc c = pass (acc + total_out outs, c') /\ same_coins c c'
  else exists e, check_inputs_loop ins h acc c = Ret (inl e).
Proof using.
  revert acc c outs. induction ins as [|i ins IH]; intros acc c outs Hc Hu Hh Ha HM.
  { injection HM as <-. change (total_out []) with 0. rewrite Z.add_0_r. unfold MoneyRange.
    rewrite !(proj2 (Z.leb_le _ _)) by lia. exists c. split; [done | by apply same_refl]. }
  cbn in HM. apply bind_Some in HM as (o & Eo & (outs' & EM & [= <-])%bind_Some).
  cbn [check_inputs_loop forallb]. destruct (AccessCoins c (out_hash (prevout i))) as [r c1] eqn:E.
  destruct (AccessCoins_out c (prevout i) r c1 Hc E) as [HS HO]. rewrite Eo in HO. destruct HO as (cs & -> & Ecs & _ & Hl).
  destruct (Hu _ _ Ecs) as [Hcs Hv]. rewrite Forall_lookup in Hv. specialize (Hv _ _ Hl). cbn [must obnd].
  assert (Em : mature (cache_utxo c) h i = negb (fCoinBase cs && (h - c_nHeight cs <? COINBASE_MATURITY))) by (unfold mature; by rewrite Ecs).
  rewrite Em, int_ok by lia. cbn [obnd]. rewrite total_out_cons.
  replace (if fCoinBase cs then Ret (h - c_nHeight cs <? COINBASE_MATURITY) else Ret false)
    with (Ret (fCoinBase cs && (h - c_nHeight cs <? COINBASE_MATURITY))) by (by destruct (fCoinBase cs)). cbn [obnd].
  destruct (fCoinBase cs && _); cbn [negb andb]; [by eexists |]. rewrite Hl. cbn [must obnd].
  assert (HMM : MAX_MONEY = 999999900000000) by done. rewrite int64_ok by lia. cbn [obnd].
  destruct (MoneyRange (nValue o)) eqn:E1; cbn [negb orb andb]; [| rewrite andb_false_r; by eexists].
  pose proof E1 as E1'. unfold MoneyRange in E1'. apply andb_true_iff in E1' as [H0%Z.leb_le H1%Z.leb_le].
  destruct (MoneyRange (acc + nValue o)) eqn:E2; cbn [negb].
  - pose proof E2 as E2'. unfold MoneyRange in E2'. apply andb_true_iff in E2' as [H2%Z.leb_le H3%Z.leb_le].
    specialize (IH (acc + nValue o) c1 outs'). replace (acc + (nValue o + total_out outs')) with (acc + nValue o + total_out outs') by lia.
    assert (Eu : forall j, mature (cache_utxo c1) h j = mature (cache_utxo c) h j) by (intros j; unfold mature; by rewrite (proj1 (proj2 HS))).
    rewrite (forallb_ext _ (mature (cache_utxo c) h)) in IH by done.
    destruct (forallb (mature (cache_utxo c) h) ins && _ && _); [destruct IH as (c2 & E3 & HS2) | destruct IH as [e E3]];
      try (apply HS || done || lia || (intros t x; rewrite (proj1 (proj2 HS)); apply Hu) ||
        (rewrite <- EM; apply mapM_ext; intros j; apply out_at_ext, HS)).
    + exists c2. split; [done | by eapply same_trans].
    + by exists e.
  - rewrite (andb_comm _ (MoneyRange _)). destruct (forallb (fun o => MoneyRange (nValue o)) outs') eqn:EF.
    + pose proof (total_range (acc + nValue o) outs' ltac:(lia) EF). unfold MoneyRange in E2 |- *.
      rewrite (proj2 (Z.leb_le 0 (acc + nValue o))) in E2 by lia. cbn [andb] in E2. apply Z.leb_gt in E2.
      rewrite (proj2 (Z.leb_gt (acc + (nValue o + total_out outs')) MAX_MONEY)), andb_false_r by lia. by eexists.
    + rewrite !andb_false_r. by eexists.
Qed.

(** [CheckTxInputs] decides the condition, with no assertion or overflow. *)
Lemma CheckTxInputs_spec tx c h :
  cache_ok c -> utxo_bounded (cache_utxo c) -> 0 <= h < 2 ^ 31 -> no_coins tx = false ->
  forallb (fun o => MoneyRange (nValue o)) (vout tx) && MoneyRange (total_out (vout tx)) = true ->
  match inputs_fee (cache_utxo c) tx h with
  | Some fee => exists c', CheckTxInputs tx c h = pass (fee, c') /\ same_coins c c'
  | None => exists e, CheckTxInputs tx c h = Ret (inl e)
  end.
Proof using.
  intros Hc Hu Hh Hn Hout. unfold CheckTxInputs, HaveInputs, inputs_fee. rewrite Hn. cbn [negb].
  destruct (HaveInputs_loop_spec (vin tx) c Hc) as (c1 & -> & HS).
  destruct (mapM (fun i => out_at (cache_utxo c) (prevout i)) (vin tx)) as [outs|] eqn:EM; [| rewrite bool_decide_eq_false_2 by (by intros []); by eexists].
  rewrite obind_Some, bool_decide_eq_true_2 by done. cbn [negb].
  assert (EM1 : mapM (fun i => out_at (cache_utxo c1) (prevout i)) (vin tx) = Some outs).
  { rewrite <- EM. apply mapM_ext. intros j. apply out_at_ext, HS. }
  pose proof (check_inputs_loop_spec (vin tx) h 0 c1 outs (proj1 HS)) as HL.
  rewrite (forallb_ext _ (mature (cache_utxo c) h)) in HL by (intros j; unfold mature; by rewrite (proj1 (proj2 HS))).
  rewrite Z.add_0_l in HL.
  assert (HV' : GetValueOut tx = Ret (Some (total_out (vout tx)))).
  { unfold GetValueOut. rewrite value_out_sum, Z.add_0_l, Hout; [done | done |]. apply andb_true_iff in Hout as [HF _].
    apply list.Forall_forall. intros o Ho%list_elem_of_In. rewrite forallb_forall in HF. specialize (HF o Ho).
    unfold MoneyRange in HF. change MAX_MONEY with 999999900000000 in HF. apply andb_true_iff in HF as [?%Z.leb_le ?%Z.leb_le]. lia. }
  apply andb_true_iff in Hout as [_ Ht]. unfold MoneyRange in Ht. apply andb_true_iff in Ht as [Ht0%Z.leb_le Ht1%Z.leb_le].
  assert (HMM : MAX_MONEY = 999999900000000) by done.
  destruct (forallb (mature (cache_utxo c) h) (vin tx) && _ && MoneyRange (total_out outs)) eqn:EV; cbn [andb].
  - destruct HL as (c2 & -> & HS2); [intros t x; rewrite (proj1 (proj2 HS)); apply Hu | done | done | done |].
    unfold vbnd, pass. cbn [obnd]. rewrite HV'. cbn [obnd must].
    rewrite !andb_true_iff in EV. destruct EV as [_ EV]. unfold MoneyRange in EV. apply andb_true_iff in EV as [Ho0%Z.leb_le Ho1%Z.leb_le].
    rewrite Z.ltb_antisym. destruct (Z.leb_spec (total_out (vout tx)) (total_out outs)); cbn [negb]; [| by eexists].
    rewrite int64_ok by lia. cbn [obnd]. rewrite (proj2 (Z.ltb_ge _ 0)) by lia. rewrite Z.add_0_l, int64_ok by lia. cbn [obnd].
    unfold MoneyRange. rewrite !(proj2 (Z.leb_le _ _)) by lia. cbn [andb negb]. exists c2. split; [done | by eapply same_trans].
  - destruct HL as [e ->]; [intros t x; rewrite (proj1 (proj2 HS)); apply Hu | done | done | done |]. by eexists.
Qed.

End Checks.

(** ** [CheckTransaction] *)

Definition outputs_in_range (outs : list CTxOut) (acc : Z) : bool :=
  forallb (fun o => MoneyRange (nValue o)) outs && MoneyRange (acc + total_out outs).

Lemma check_outputs_spec outs acc :
  0 <= acc <= MAX_MONEY ->
  if outputs_in_range outs acc then check_outputs outs acc = pass (acc + total_out outs) else exists e, check_outputs outs acc = Ret (inl e).
Proof.
  assert (HMM : MAX_MONEY = 999999900000000) by done. unfold outputs_in_range.
  revert acc. induction outs as [|o outs IH]; intros acc Ha; cbn [check_outputs forallb].
  { change (total_out []) with 0. rewrite Z.add_0_r. unfold MoneyRange. by rewrite !(proj2 (Z.leb_le _ _)) by lia. }
  rewrite total_out_cons. change (MoneyRange (nValue o)) with ((0 <=? nValue o) && (nValue o <=? MAX_MONEY)).
  rewrite (Z.ltb_antisym 0 (nValue o)), (Z.ltb_antisym (nValue o) MAX_MONEY).
  destruct (Z.leb_spec 0 (nValue o)); cbn [negb andb]; [| by eexists].
  destruct (Z.leb_spec (nValue o) MAX_MONEY); cbn [negb andb]; [| by eexists]. rewrite int64_ok by lia. cbn [obnd].
  destruct (MoneyRange (acc + nValue o)) eqn:E2; cbn [negb].
  - unfold MoneyRange in E2. apply andb_true_iff in E2 as [?%Z.leb_le ?%Z.leb_le]. specialize (IH (acc + nValue o)).
    replace (acc + (nValue o + total_out outs)) with (acc + nValue o + total_out outs) by lia. by apply IH.
  - destruct (forallb (fun o => MoneyRange (nValue o)) outs) eqn:EF; cbn [andb]; [| by eexists].
    pose proof (total_range (acc + nValue o) outs ltac:(lia) EF). unfold MoneyRange in E2 |- *.
    rewrite (proj2 (Z.leb_le 0 (acc + nValue o))) in E2 by lia. cbn [andb] in E2. apply Z.leb_gt in E2.
    rewrite (proj2 (Z.leb_gt (acc + (nValue o + total_out outs)) MAX_MONEY)), andb_false_r by lia. by eexists.
Qed.

(** What the inputs of a transaction must differ in. *)
Definition distinct_inputs (tx : CTransaction) : Prop :=
  if IsZerocoinSpend tx || IsSigmaSpend tx then NoDup (scriptSig <$> vin tx) else NoDup (prevout <$> vin tx).

#[export] Instance distinct_inputs_dec tx : Decision (distinct_inputs tx).
Proof. unfold distinct_inputs. destruct (_ || _); apply _. Defined.

(** A loop that looks each key up in the set of those before it. *)
Lemma NoDup_seen {K} `{EqDecision K} (x : K) (l seen : list K) :
  NoDup (x :: l) /\ (forall y, y ∈ x :: l -> y ∉ seen) <-> x ∉ seen /\ NoDup l /\ (forall y, y ∈ l -> y ∉ x :: seen).
Proof. rewrite list.NoDup_cons. set_solver. Qed.

Lemma check_duplicates_spec tx ins s1 s2 s3 :
  let ok := if IsZerocoinSpend tx then NoDup (scriptSig <$> ins) /\ (forall y, y ∈ scriptSig <$> ins -> y ∉ s2)
            else if IsSigmaSpend tx then NoDup (scriptSig <$> ins) /\ (forall y, y ∈ scriptSig <$> ins -> y ∉ s3)
            else NoDup (prevout <$> ins) /\ (forall y, y ∈ prevout <$> ins -> y ∉ s1) in
  (ok /\ check_duplicates tx ins s1 s2 s3 = pass tt) \/ (~ ok /\ exists e, check_duplicates tx ins s1 s2 s3 = Ret (inl e)).
Proof.
  cbv zeta. revert s1 s2 s3. induction ins as [|i ins IH]; intros s1 s2 s3; cbn [check_duplicates].
  { left. split; [| done]. destruct (IsZerocoinSpend tx), (IsSigmaSpend tx); (split; [constructor | set_solver]). }
  rewrite !fmap_cons.
  destruct (IsZerocoinSpend tx); [| destruct (IsSigmaSpend tx)]; rewrite NoDup_seen; case_bool_decide as Hin; try (right; split; [naive_solver | by eexists]).
  - destruct (IH s1 (scriptSig i :: s2) s3) as [[H1 ->]|[H1 (e & ->)]]; [left; naive_solver | right; split; [naive_solver | by eexists]].
  - destruct (IH s1 s2 (scriptSig i :: s3)) as [[H1 ->]|[H1 (e & ->)]]; [left; naive_solver | right; split; [naive_solver | by eexists]].
  - destruct (IH (prevout i :: s1) s2 s3) as [[H1 ->]|[H1 (e & ->)]]; [left; naive_solver | right; split; [naive_solver | by eexists]].
Qed.

Lemma check_duplicates_distinct tx :
  (distinct_inputs tx /\ check_duplicates tx (vin tx) [] [] [] = pass tt) \/
  (~ distinct_inputs tx /\ exists e, check_duplicates tx (vin tx) [] [] [] = Ret (inl e)).
Proof.
  pose proof (check_duplicates_spec tx (vin tx) [] [] []) as H. unfold distinct_inputs. cbv zeta in H.
  destruct (IsZerocoinSpend tx), (IsSigmaSpend tx); cbn [orb] in *; destruct H as [[H1 ->]|[H1 H2]]; 
    first [left; naive_solver | right; split; [| done]; intros H3; apply H1; split; [done | set_solver]].
Qed.

(** The conditions of [CheckTransaction], before those of zerocoin and sigma transactions. *)
Record tx_checked (tx : CTransaction) : Prop := {
  tc_vin : vin tx <> [];
  tc_vout : vout tx <> [];
  tc_values : Forall (fun o => 0 <= nValue o <= MAX_MONEY) (vout tx);
  tc_total : total_out (vout tx) <= MAX_MONEY;
  tc_distinct : distinct_inputs tx;
  tc_coinbase : IsCoinBase tx = true -> Forall (fun i => 2 <= len (scriptSig i) <= 100) (vin tx);
  tc_null : IsCoinBase tx = false -> Forall (fun i => COutPoint_IsNull (prevout i) = true ->
    script_IsZerocoinSpend (scriptSig i) = true \/ script_IsZerocoinRemint (scriptSig i) = true) (vin tx);
}.

Lemma outputs_in_range_iff outs :
  outputs_in_range outs 0 = true <-> Forall (fun o => 0 <= nValue o <= MAX_MONEY) outs /\ total_out outs <= MAX_MONEY.
Proof.
  unfold outputs_in_range. rewrite Z.add_0_l, andb_true_iff.
  assert (E : forallb (fun o => MoneyRange (nValue o)) outs = true <-> Forall (fun o => 0 <= nValue o <= MAX_MONEY) outs).
  { rewrite forallb_forall, list.Forall_forall. unfold MoneyRange. setoid_rewrite andb_true_iff. setoid_rewrite Z.leb_le.
    setoid_rewrite list_elem_of_In. done. }
  unfold MoneyRange in *. split.
  - intros [H1 H2]. rewrite andb_true_iff, !Z.leb_le in H2. tauto.
  - intros [H1 H2]. apply E in H1. split; [done |]. pose proof (total_range 0 outs ltac:(lia) H1). by rewrite !(proj2 (Z.leb_le _ _)) by lia.
Qed.

(** A coinbase has one input. *)
Lemma coinbase_input tx : IsCoinBase tx = true -> exists i, vin tx = [i].
Proof. unfold IsCoinBase. destruct (vin tx) as [|i [|]]; [done | by exists i | done]. Qed.

Lemma prevouts_ok tx :
  existsb (fun txin => COutPoint_IsNull (prevout txin) && negb (script_IsZerocoinSpend (scriptSig txin) || txin_IsZerocoinRemint txin)) (vin tx) = false <->
  Forall (fun i => COutPoint_IsNull (prevout i) = true ->
    script_IsZerocoinSpend (scriptSig i) = true \/ script_IsZerocoinRemint (scriptSig i) = true) (vin tx).
Proof.
  induction (vin tx) as [|i l IH]; [by split |]. cbn [existsb]. rewrite orb_false_iff, IH, Forall_cons_iff. apply and_iff_compat_r.
  unfold txin_IsZerocoinRemint, script_IsZerocoinRemint.
  destruct (COutPoint_IsNull (prevout i)), (script_IsZerocoinSpend (scriptSig i)), (first_is _ (scriptSig i)); cbn; naive_solver.
Qed.

Lemma CheckTransaction_spec `{Abi} tx size :
  tx_GetSerializeSize (PROTOCOL_VERSION .| SERIALIZE_TRANSACTION_NO_WITNESS) tx = Some size ->
  (CheckTransaction_common tx = pass tt /\ tx_checked tx /\ size <= MAX_BLOCK_BASE_SIZE) \/
  ((exists e, CheckTransaction_common tx = Ret (inl e)) /\ ~ (tx_checked tx /\ size <= MAX_BLOCK_BASE_SIZE)).
Proof.
  intros Es. unfold CheckTransaction_common.
  destruct (Z.eqb_spec (len (vin tx)) 0) as [Ei|Ei]; [right; split; [by eexists | intros [[H1 _ _ _ _ _ _] _]; apply H1, length_zero_iff_nil; lia] |].
  destruct (Z.eqb_spec (len (vout tx)) 0) as [Eo|Eo]; [right; split; [by eexists | intros [[_ H1 _ _ _ _ _] _]; apply H1, length_zero_iff_nil; lia] |].
  assert (Hi : vin tx <> []) by (intros E; by rewrite E in Ei). assert (Ho : vout tx <> []) by (intros E; by rewrite E in Eo).
  rewrite Es. cbn [must obnd]. destruct (Z.ltb_spec MAX_BLOCK_BASE_SIZE size); [right; split; [by eexists | lia] |].
  pose proof (check_outputs_spec (vout tx) 0 ltac:(done)) as HO. pose proof (outputs_in_range_iff (vout tx)) as HR.
  destruct (outputs_in_range (vout tx) 0); [| destruct HO as [e ->]; right; split; [by eexists | intros [[_ _ H1 H2 _ _ _] _]; naive_solver]].
  rewrite HO. unfold vbnd, pass at 1. cbn [obnd]. destruct (proj1 HR eq_refl) as [HR1 HR2].
  destruct (check_duplicates_distinct tx) as [[HD ->]|[HD [e ->]]]; [| right; split; [by eexists | by intros [[_ _ _ _ H1 _ _] _]]].
  cbn [obnd pass]. destruct (IsCoinBase tx) eqn:EC.
  - destruct (coinbase_input tx EC) as [i Ei']. rewrite Ei'. cbn [head must obnd].
    destruct ((len (scriptSig i) <? 2) || (100 <? len (scriptSig i))) eqn:El.
    + right. split; [by eexists |]. intros [[_ _ _ _ _ HB _] _]. specialize (HB EC). rewrite Ei' in HB. inversion HB; subst.
      rewrite orb_true_iff, !Z.ltb_lt in El. cbv beta in *. lia.
    + left. rewrite orb_false_iff, !Z.ltb_ge in El. split_and!; [done | | done]. split; try (done || congruence).
      intros _. rewrite Ei'. constructor; [cbv beta in *; lia | constructor].
  - pose proof (prevouts_ok tx) as HP. destruct (existsb _ (vin tx)).
    + right. split; [by eexists |]. intros [[_ _ _ _ _ _ HB] _]. specialize (HB EC). naive_solver.
    + left. split_and!; [done | | done]. split; try (done || congruence). naive_solver.
Qed.
