(* ===== verification/CoinsTheorems.v ===== *)
(** * Theorems on the coins views

    Any sequence of queries, updates and flushes of a cache answers as the map of unspent
    outputs would; undoing a transaction restores that map; what is stored is read back. *)

From stdpp Require Import gmap.
From S2P Require Import Prelude MdHash Hash Script Interpreter Serialize Transaction TransactionTheorems Compressor Coins CoinsUndo CoinsStore TxVerify.
#[local] Open Scope Z_scope.

(** ** Operations on a view *)

Inductive coins_op :=
  | OpGet (txid : list Z)
  | OpHave (txid : list Z)
  | OpHaveInputs (tx : CTransaction)
  | OpUpdate (tx : CTransaction) (hash : list Z) (nHeight : Z)
  | OpUncache (txid : list Z)
  | OpFlush.

Inductive coins_answer :=
  | AGet (r : option CCoins)
  | AHave (b : bool)
  | AUndo (u : list CTxInUndo)
  | ADone.

(** On a cache; pruned coins are no coins. *)
Definition cache_do `{CCoinsView V} (op : coins_op) (c : CCoinsViewCache V) : option (coins_answer * CCoinsViewCache V) :=
  match op with
  | OpGet t => let '(r, c) := cache_GetCoins c t in Some (AGet (r ≫= norm), c)
  | OpHave t => let '(b, c) := cache_HaveCoins c t in Some (AHave b, c)
  | OpHaveInputs tx => let '(b, c) := HaveInputs c tx in Some (AHave b, c)
  | OpUpdate tx hash h => '(u, c) ← UpdateCoins tx hash c h; Some (AUndo u, c)
  | OpUncache t => Some (ADone, Uncache c t)
  | OpFlush => c ← Flush c; Some (ADone, c)
  end.

Fixpoint cache_run `{CCoinsView V} (ops : list coins_op) (c : CCoinsViewCache V) : option (list coins_answer * CCoinsViewCache V) :=
  match ops with
  | [] => Some ([], c)
  | op :: ops => '(a, c) ← cache_do op c; '(l, c) ← cache_run ops c; Some (a :: l, c)
  end.

(** On a map, and the map of the last flush; [None]: the operation is not allowed.  A
    transaction that is not a coinbase must be new to the view below. *)
Definition map_do (op : coins_op) (s : utxo_map * utxo_map) : option (coins_answer * (utxo_map * utxo_map)) :=
  let '(u, b) := s in
  match op with
  | OpGet t => Some (AGet (u t), s)
  | OpHave t => Some (AHave (bool_decide (is_Some (u t))), s)
  | OpHaveInputs tx => Some (AHave (no_coins tx || bool_decide (is_Some (mapM (fun i => out_at u (prevout i)) (vin tx)))), s)
  | OpUpdate tx hash h =>
      if decide (outputs_ok tx /\ (IsCoinBase tx = false -> b hash = None)) then '(uns, u) ← utxo_update u tx hash h; Some (AUndo uns, (u, b)) else None
  | OpUncache t => Some (ADone, s)
  | OpFlush => Some (ADone, (u, u))
  end.

Fixpoint map_run (ops : list coins_op) (s : utxo_map * utxo_map) : option (list coins_answer * (utxo_map * utxo_map)) :=
  match ops with
  | [] => Some ([], s)
  | op :: ops => '(a, s) ← map_do op s; '(l, s) ← map_run ops s; Some (a :: l, s)
  end.

Section Refinement.
Context {V : Type} {HV : CCoinsView V} {OK : CCoinsViewOk V}.
Implicit Types c : CCoinsViewCache V.

Definition refines c (s : utxo_map * utxo_map) : Prop :=
  cache_ok c /\ (forall t, cache_utxo c t = s.1 t) /\ (forall t, utxo (base c) t = s.2 t).

Lemma same_refines c c' s : refines c s -> same_coins c c' -> refines c' s.
Proof using. intros (_ & A & B) (C & D & E). split_and!; [done | |]; intros t; by rewrite ?D, ?E. Qed.

Lemma utxo_update_ext u u' tx hash h :
  (forall t, u t = u' t) -> match utxo_update u tx hash h, utxo_update u' tx hash h with
  | Some (a, v), Some (a', v') => a = a' /\ forall t, v t = v' t | None, None => True | _, _ => False end.
Proof using.
  intros E. unfold utxo_update. pose proof (utxo_spends_ext u u' (vin tx) E) as HE.
  assert (HU : forall v v', (forall t, v t = v' t) -> forall t, upd v hash (norm (FromTx tx h)) t = upd v' hash (norm (FromTx tx h)) t).
  { intros v v' Hv t. unfold upd. by destruct (decide _). }
  destruct (negb (no_coins tx)); [| rewrite !obind_Some; split; [done | by apply HU]].
  destruct (utxo_spends u (vin tx)) as [[a v]|], (utxo_spends u' (vin tx)) as [[a' v']|]; try done.
  destruct HE as [-> HE]. rewrite !obind_Some. split; [done | by apply HU].
Qed.

Lemma cache_do_refines op c s a s' :
  refines c s -> map_do op s = Some (a, s') -> exists c', cache_do op c = Some (a, c') /\ refines c' s'.
Proof using.
  intros HR. destruct s as [u b]. pose proof HR as (Hc & Hu & Hb). cbn [fst snd] in Hu, Hb.
  destruct op as [t|t|tx|tx hash h|t|]; cbn [map_do cache_do].
  - intros [= <- <-]. unfold cache_GetCoins. pose proof (FetchCoins_same c t Hc) as HS. pose proof (FetchCoins_spec c t Hc) as HF.
    destruct (FetchCoins c t) as [r c']. destruct HF as (_ & _ & _ & -> & _). exists c'. split; [by rewrite Hu | by eapply same_refines].
  - intros [= <- <-]. pose proof (HaveCoins_spec (V := CCoinsViewCache V) c t Hc) as HH. cbn [HaveCoins CCoinsViewCache_view] in HH.
    assert (HS : same_coins c (cache_HaveCoins c t).2).
    { unfold cache_HaveCoins. pose proof (FetchCoins_same c t Hc) as HS. by destruct (FetchCoins c t). }
    destruct (cache_HaveCoins c t) as [r c']. destruct HH as (_ & _ & ->). exists c'. cbn [utxo CCoinsViewCache_ok].
    split; [by rewrite Hu | by eapply same_refines].
  - intros [= <- <-]. unfold HaveInputs. destruct (no_coins tx); cbn [negb orb]; [by exists c |].
    destruct (HaveInputs_loop_spec (vin tx) c Hc) as (c' & -> & HS). exists c'. split; [| by eapply same_refines].
    by rewrite (mapM_ext _ (fun i => out_at u (prevout i))) by (intros i; by apply out_at_ext).
  - destruct (decide _) as [[Ho Hnew]|]; [| done]. intros ([uns u'] & EU & [= <- <-])%bind_Some.
    pose proof (UpdateCoins_refines c tx hash h Hc Ho) as HU. pose proof (utxo_update_ext _ _ tx hash h Hu) as HE. rewrite EU in HE.
    destruct (utxo_update (cache_utxo c) tx hash h) as [[uns1 u1]|]; [| done]. destruct HE as [-> HE].
    destruct HU as (c' & -> & Hc' & Hb' & Hu'); [by rewrite Hb |]. rewrite obind_Some. exists c'. split; [done |].
    split_and!; [done | |]; intros t; cbn; [by rewrite Hu' | by rewrite Hb'].
  - intros [= <- <-]. destruct (Uncache_spec c t Hc) as [H1 H2]. exists (Uncache c t). split; [done |].
    split_and!; [done | |]; intros t'; cbn; [by rewrite H2 |]. rewrite <- Hb. unfold Uncache. by repeat case_match.
  - intros [= <- <-]. destruct (Flush_spec c Hc) as (c' & -> & Hc' & He & Hu'). rewrite obind_Some. exists c'. split; [done |].
    split_and!; [done | |]; intros t; cbn; [by rewrite Hu' |]. rewrite <- Hu, <- Hu'. unfold cache_utxo. by rewrite He, lookup_empty.
Qed.

Lemma cache_run_refines ops c s l s' :
  refines c s -> map_run ops s = Some (l, s') -> exists c', cache_run ops c = Some (l, c') /\ refines c' s'.
Proof using.
  revert c s l. induction ops as [|op ops IH]; intros c s l HR; cbn [map_run cache_run]; [intros [= <- <-]; by exists c |].
  intros ([a s1] & E1 & ([l2 s2] & E2 & [= <- <-])%bind_Some)%bind_Some.
  destruct (cache_do_refines op c s a s1 HR E1) as (c1 & -> & HR1). destruct (IH c1 s1 l2 HR1 E2) as (c2 & EC & HR2).
  rewrite obind_Some, EC. by exists c2.
Qed.

End Refinement.

(** C12. a cache of the unspent outputs, over a cache over the database, is the map of unspent
    outputs: whatever sequence of queries, applied transactions, evictions and flushes the
    map allows, the cache gives the map's answers, no assertion fails, and when the last
    operation is a flush the view below holds the map. *)
Theorem coins_views_refine_map (c : CCoinsViewCache (CCoinsViewCache CCoinsViewDB)) ops answers u b :
  cache_ok c -> map_run ops (cache_utxo c, cache_utxo (base c)) = Some (answers, (u, b)) ->
  exists c', cache_run ops c = Some (answers, c') /\ cache_ok c' /\
    (forall t, cache_utxo c' t = u t) /\ (forall t, cache_utxo (base c') t = b t).
Proof.
  intros Hc E. destruct (cache_run_refines ops c (cache_utxo c, cache_utxo (base c)) answers (u, b)) as (c' & E' & HR).
  - split; [exact Hc | by split].
  - exact E.
  - exists c'. by split.
Qed.

(** Samples: an output in the database, a transaction that spends it. *)
Definition sample_coins : CCoins := mkCoins false [mkTxOut 5000 [OP_1] (-10); mkTxOut 7000 [OP_1] (-10)] 90 1.
Definition sample_db : CCoinsViewDB := mkDB {[ replicate 32 7 := sample_coins ]} None.
Definition cache_over {V} (v : V) : CCoinsViewCache V := mkCache v false uint256_null ∅.
Definition sample_spend : CTransaction :=
  mkTx 1 [mkTxIn (mkOut (replicate 32 7) 0) [] SEQUENCE_FINAL []] [mkTxOut 3000 [OP_1] (-10); mkTxOut 500 [OP_RETURN] (-10)] [] 0.

Definition sample_ops : list coins_op :=
  [OpHaveInputs sample_spend; OpUpdate sample_spend (replicate 32 9) 91; OpHave (replicate 32 9); OpFlush; OpHaveInputs sample_spend].

Lemma cache_over_ok {V} `{CCoinsViewOk V} (v : V) : view_ok v -> cache_ok (cache_over v).
Proof. intros Hv. split; [done | done |]. intros t e E. done. Qed.

Lemma sample_db_ok : db_ok sample_db.
Proof.
  intros t c H. cbn in H. apply lookup_singleton_Some in H as [<- <-]. split; [| done]. split; [done | by repeat constructor | done].
Qed.

Lemma coins_views_refine_map_witness :
  exists c', cache_run sample_ops (cache_over (cache_over sample_db)) =
      Some ([AHave true; AUndo [mkUndo (mkTxOut 5000 [OP_1] (-10)) false 0 0]; AHave true; ADone; AHave false], c') /\
    cache_ok c' /\ cache_utxo c' (replicate 32 9) = Some (mkCoins false [mkTxOut 3000 [OP_1] (-10)] 91 1).
Proof.
  set (c := cache_over (cache_over sample_db)). set (r := map_run sample_ops (cache_utxo c, cache_utxo (base c))).
  assert (EA : fst <$> r = Some [AHave true; AUndo [mkUndo (mkTxOut 5000 [OP_1] (-10)) false 0 0]; AHave true; ADone; AHave false]) by (by vm_compute).
  assert (EU : (fun x => x.2.1 (replicate 32 9)) <$> r = Some (Some (mkCoins false [mkTxOut 3000 [OP_1] (-10)] 91 1))) by (by vm_compute).
  destruct r as [[l [u b]]|] eqn:E; [| done]. cbn in EA, EU. injection EA as ->. apply (inj Some) in EU.
  assert (Hc : cache_ok c) by (do 2 apply cache_over_ok; apply sample_db_ok).
  destruct (coins_views_refine_map c sample_ops _ u b Hc E) as (c' & E' & Hc' & Hu & _). exists c'.
  split; [exact E' | split; [exact Hc' | rewrite Hu; exact EU]].
Defined.

(** C13. undoing a transaction gives back the unspent outputs there were.  If [UpdateCoins]
    applies a new transaction and returns undo data, then [DisconnectBlock]'s code for it,
    run with that data on any cache that holds the updated map, finds everything as it
    should be ([fClean]) and leaves the map from before, metadata of coins that were fully
    spent included. *)
Theorem disconnect_undoes_update {V} {HV : CCoinsView V} {OK : CCoinsViewOk V} (c c1 c2 : CCoinsViewCache V) tx hash h undo :
  cache_ok c -> utxo_good (cache_utxo c) -> outputs_ok tx -> Forall (fun i => 0 <= out_n (prevout i)) (vin tx) ->
  cache_utxo c hash = None -> utxo (base c) hash = None ->
  UpdateCoins tx hash c h = Some (undo, c1) -> cache_ok c2 -> (forall t, cache_utxo c2 t = cache_utxo c1 t) ->
  exists c3, disconnect_tx tx hash h undo true c2 = Some (Some (true, c3)) /\ cache_ok c3 /\
    forall t, cache_utxo c3 t = cache_utxo c t.
Proof.
  intros Hc Hu Ho Hi Hn Hb EU Hc2 H12. pose proof (UpdateCoins_refines c tx hash h Hc Ho (fun _ => Hb)) as HU.
  destruct (utxo_update (cache_utxo c) tx hash h) as [[uns u']|] eqn:E; [| congruence].
  destruct HU as (c' & EU' & _ & _ & Hu'). assert (uns = undo /\ c' = c1) as [-> ->] by (split; congruence).
  eapply disconnect_restores; [exact Hu | exact Ho | exact Hn | exact Hi | exact E | exact Hc2 |]. intros t. by rewrite H12, Hu'.
Qed.

(** Spends both outputs of the coins of the database. *)
Definition sample_spend2 : CTransaction := mkTx 1
  [mkTxIn (mkOut (replicate 32 7) 1) [] SEQUENCE_FINAL []; mkTxIn (mkOut (replicate 32 7) 0) [] SEQUENCE_FINAL []]
  [mkTxOut 3000 [OP_1] (-10); mkTxOut 500 [OP_RETURN] (-10)] [] 0.

Lemma sample_utxo t cs : cache_utxo (cache_over sample_db) t = Some cs -> cs = sample_coins.
Proof. unfold cache_utxo. cbn [cache_over cacheCoins base]. rewrite lookup_empty. intros H. change (({[ replicate 32 7 := sample_coins ]} : gmap (list Z) CCoins) !! t = Some cs) in H. by apply lookup_singleton_Some in H as [_ <-]. Qed.

Lemma sample_good : utxo_good (cache_utxo (cache_over sample_db)).
Proof.
  intros t cs ->%sample_utxo. split_and!; [| done | done | done].
  split; [done | by repeat constructor | done].
Qed.

Lemma disconnect_undoes_update_witness :
  exists undo c1 c3, UpdateCoins sample_spend2 (replicate 32 9) (cache_over sample_db) 91 = Some (undo, c1) /\
    disconnect_tx sample_spend2 (replicate 32 9) 91 undo true c1 = Some (Some (true, c3)) /\
    cache_utxo c3 (replicate 32 7) = Some sample_coins.
Proof.
  destruct (UpdateCoins sample_spend2 (replicate 32 9) (cache_over sample_db) 91) as [[undo c1]|] eqn:E; [| by vm_compute in E].
  assert (Hok : cache_ok (cache_over sample_db)) by (apply cache_over_ok, sample_db_ok).
  assert (Hout : outputs_ok sample_spend2) by (split; [by repeat constructor | done]).
  assert (Hnew : cache_utxo (cache_over sample_db) (replicate 32 9) = None) by (by vm_compute).
  assert (H1 : cache_ok c1).
  { pose proof (UpdateCoins_refines (cache_over sample_db) sample_spend2 (replicate 32 9) 91 Hok Hout (fun _ => Hnew)) as HU.
    destruct (utxo_update _ _ _ _) as [[uns u']|]; [| congruence]. destruct HU as (c' & E' & Hc' & _). congruence. }
  destruct (disconnect_undoes_update (cache_over sample_db) c1 c1 sample_spend2 (replicate 32 9) 91 undo) as (c3 & E3 & _ & H3);
    [exact Hok | exact sample_good | exact Hout | by repeat constructor | exact Hnew | exact Hnew | exact E | exact H1 | reflexivity |].
  exists undo, c1, c3. split; [reflexivity | split; [exact E3 |]]. rewrite H3. by vm_compute.
Defined.

(** C15. [CheckTransaction], up to the rules of zerocoin and sigma, accepts a transaction if and
    only if it has inputs and outputs, is not too large, each output and their sum is an
    amount of money, no two inputs are the same, the script of a coinbase has 2 to 100 octets
    and other transactions have no null input but zerocoin ones.  It returns in every case. *)
Theorem CheckTransaction_decides `{Abi} tx size :
  tx_GetSerializeSize (PROTOCOL_VERSION .| SERIALIZE_TRANSACTION_NO_WITNESS) tx = Some size ->
  (CheckTransaction_common tx = pass tt /\ tx_checked tx /\ size <= MAX_BLOCK_BASE_SIZE) \/
  ((exists e, CheckTransaction_common tx = Ret (inl e)) /\ ~ (tx_checked tx /\ size <= MAX_BLOCK_BASE_SIZE)).
Proof. apply CheckTransaction_spec. Qed.

Lemma CheckTransaction_decides_witness : @CheckTransaction_common sample_abi sample_spend = pass tt /\ tx_checked sample_spend.
Proof.
  destruct (@CheckTransaction_decides sample_abi sample_spend 71 ltac:(by vm_compute)) as [(E & HC & _)|[[e E] _]]; [done |].
  by vm_compute in E.
Defined.

(** C14. [CheckTxInputs] accepts the inputs of a transaction with [fee] if and only if each
    refers to an unspent output, no coinbase among them is less than 100 blocks deep, their
    values and sum are amounts of money and the outputs are worth [fee] less; it returns in
    every other case too, with no failed assertion and no overflow, and the cache holds the
    same map after it. *)
Theorem CheckTxInputs_decides {V} {HV : CCoinsView V} {OK : CCoinsViewOk V} tx (c : CCoinsViewCache V) h :
  cache_ok c -> utxo_bounded (cache_utxo c) -> 0 <= h < 2 ^ 31 -> no_coins tx = false -> tx_checked tx ->
  match inputs_fee (cache_utxo c) tx h with
  | Some fee => exists c', CheckTxInputs tx c h = pass (fee, c') /\ same_coins c c'
  | None => exists e, CheckTxInputs tx c h = Ret (inl e)
  end.
Proof.
  intros Hc Hu Hh Hn [_ _ Hv Ht _ _ _]. apply CheckTxInputs_spec; [done | done | done | done |].
  by apply (proj2 (outputs_in_range_iff (vout tx))).
Qed.

Lemma sample_bounded : utxo_bounded (cache_utxo (cache_over sample_db)).
Proof. intros t cs ->%sample_utxo. split; [done | by repeat constructor]. Qed.

Lemma sample_checked : tx_checked sample_spend2.
Proof.
  split; [done | done | by repeat constructor | done | by apply (bool_decide_unpack (NoDup _)); vm_compute | done | by repeat constructor].
Qed.

Lemma CheckTxInputs_decides_witness :
  exists c', CheckTxInputs sample_spend2 (cache_over sample_db) 91 = pass (8500, c') /\ same_coins (cache_over sample_db) c'.
Proof.
  pose proof (CheckTxInputs_decides sample_spend2 (cache_over sample_db) 91 ltac:(apply cache_over_ok, sample_db_ok) sample_bounded
    ltac:(done) ltac:(done) sample_checked) as H.
  replace (inputs_fee (cache_utxo (cache_over sample_db)) sample_spend2 91) with (Some 8500) in H by (by vm_compute). exact H.
Defined.

(** C11. no money from nothing.  Take a transaction that passes [CheckTransaction] and whose
    inputs [CheckTxInputs] accepts with [fee].  Then [UpdateCoins] cannot fail (the inputs
    are distinct, so that none is spent twice), and the value of all unspent outputs drops
    by exactly the fee and the outputs that can never be spent. *)
Theorem transaction_conserves_money `{Abi} {V} {HV : CCoinsView V} {OK : CCoinsViewOk V} tx hash h fee size
    (c c1 : CCoinsViewCache V) m :
  cache_ok c -> utxo_bounded (cache_utxo c) -> (forall t, m !! t = cache_utxo c t) -> 0 <= h < 2 ^ 31 -> no_coins tx = false ->
  Forall (fun i => 0 <= out_n (prevout i)) (vin tx) -> len (vout tx) < 2 ^ 32 ->
  cache_utxo c hash = None -> utxo (base c) hash = None ->
  tx_GetSerializeSize (PROTOCOL_VERSION .| SERIALIZE_TRANSACTION_NO_WITNESS) tx = Some size ->
  CheckTransaction_common tx = pass tt -> CheckTxInputs tx c h = pass (fee, c1) ->
  exists undo c2 m', UpdateCoins tx hash c1 h = Some (undo, c2) /\ cache_ok c2 /\ (forall t, m' !! t = cache_utxo c2 t) /\
    0 <= fee /\ supply m' + fee + unspendable_out tx = supply m.
Proof.
  intros Hc Hb Hm Hh Hn Hi Hl Hnew Hbase Es ET EI.
  destruct (CheckTransaction_spec tx size Es) as [(_ & HT & _)|[[e E] _]]; [| by rewrite ET in E].
  destruct HT as [_ _ Hv Ht Hd _ _].
  pose proof (CheckTxInputs_spec tx c h Hc Hb Hh Hn (proj2 (outputs_in_range_iff _) (conj Hv Ht))) as HI.
  destruct (inputs_fee (cache_utxo c) tx h) as [fee'|] eqn:EF; [| destruct HI as [e E]; by rewrite EI in E].
  destruct HI as (c' & E & HS). assert (fee' = fee /\ c' = c1) as [-> ->] by (unfold pass in *; split; congruence).
  unfold inputs_fee in EF. apply bind_Some in EF as (outs & EM & EF). destruct (_ && _) eqn:EB in EF; [| done]. injection EF as <-.
  apply andb_true_iff in EB as [_ EB%Z.leb_le]. destruct HS as (Hc1 & Hu1 & Hb1).
  unfold distinct_inputs in Hd. unfold no_coins in Hn. rewrite !orb_false_iff in Hn. destruct Hn as [[[Hn1 Hn2] Hn3] Hn4].
  rewrite Hn2, Hn3 in Hd. cbn [orb] in Hd.
  destruct (utxo_spends_Some (vin tx) (cache_utxo c) outs Hi Hd EM) as (uns & u1 & ES & Eu).
  assert (Ho : outputs_ok tx).
  { split; [| done]. eapply list.Forall_impl; [exact Hv |]. intros o [? _]. apply Z.eqb_neq. lia. }
  assert (EU : utxo_update (cache_utxo c) tx hash h = Some (uns, upd u1 hash (norm (FromTx tx h)))).
  { unfold utxo_update, no_coins. rewrite Hn1, Hn2, Hn3, Hn4. cbn [orb negb]. by rewrite ES. }
  pose proof (utxo_update_ext (cache_utxo c1) (cache_utxo c) tx hash h Hu1) as HE. rewrite EU in HE.
  pose proof (UpdateCoins_refines c1 tx hash h Hc1 Ho ltac:(intros _; by rewrite Hb1)) as HU.
  destruct (utxo_update (cache_utxo c1) tx hash h) as [[a v]|]; [| done]. destruct HE as [-> HE], HU as (c2 & -> & Hc2 & _ & Hu2).
  destruct (utxo_update_supply (cache_utxo c) tx hash h uns (upd u1 hash (norm (FromTx tx h))) m Hm Hnew) as (m' & Hm' & Esup);
    [unfold no_coins; by rewrite Hn1, Hn2, Hn3, Hn4 | apply Ho | exact EU |].
  exists uns, c2, m'. split_and!; [done | done | by intros t; rewrite Hm', Hu2, HE | lia |]. rewrite Esup, Eu. lia.
Qed.

Lemma transaction_conserves_money_witness :
  exists fee undo c1 c2 m', CheckTxInputs sample_spend2 (cache_over sample_db) 91 = pass (fee, c1) /\
    UpdateCoins sample_spend2 (replicate 32 9) c1 91 = Some (undo, c2) /\ (forall t, m' !! t = cache_utxo c2 t) /\
    supply m' + fee + 500 = 12000.
Proof.
  assert (Hc : cache_ok (cache_over sample_db)) by (apply cache_over_ok, sample_db_ok).
  destruct (CheckTxInputs_spec sample_spend2 (cache_over sample_db) 91 Hc sample_bounded ltac:(done) ltac:(done) ltac:(done)) as (c1 & E1 & _).
  assert (ET : @CheckTransaction_common sample_abi sample_spend2 = pass tt) by (by vm_compute).
  destruct (@transaction_conserves_money sample_abi CCoinsViewDB _ _ sample_spend2 (replicate 32 9) 91 8500 112 (cache_over sample_db) c1 (db_coins sample_db)
    Hc sample_bounded ltac:(reflexivity) ltac:(done) ltac:(done) ltac:(by repeat constructor) ltac:(done) ltac:(by vm_compute) ltac:(by vm_compute)
    ltac:(by vm_compute) ET E1) as (undo & c2 & m' & E2 & _ & Hm & _ & Es).
  exists 8500, undo, c1, c2, m'. split_and!; [exact E1 | exact E2 | exact Hm | exact Es].
Defined.

(** C23. what the database and the undo files hold is read back.  Coins with an unspent output,
    written with their mask and compressed outputs, and the undo data of an input, are read
    as they were, whatever follows them, but for a negative version: the encoding keeps the
    low seven bits of it only, and they are what is read.  The heights are below 2^31, the
    amounts below 2^60, the scripts within the limit, and undo data of height 0 has version
    0, which is not written then; that a compressed public key is parsed as the point is what
    this relies on libsecp256k1 for. *)
Theorem stored_coins_roundtrip parse cs un :
  parse_compressed parse -> coins_storable cs -> undo_wf un ->
  exists b b', CCoins_write parse cs = Some b /\ (forall s, CCoins_read parse (b ++ s) = Some (stored_coins cs, s)) /\
    CTxInUndo_write parse un = Some b' /\ (forall s, CTxInUndo_read parse (b' ++ s) = Some (stored_undo un, s)) /\
    (0 <= c_nVersion cs -> stored_coins cs = cs) /\ (0 <= u_nVersion un -> stored_undo un = un).
Proof.
  intros Hp Hc Hu. destruct (CCoins_read_write parse cs Hp Hc) as (b & E1 & R1). destruct (undo_read_write parse un Hp Hu) as (b' & E2 & R2).
  exists b, b'. split_and!; [done.. | |]; intros H; [unfold stored_coins | unfold stored_undo]; rewrite stored_version_id by done; [by destruct cs | by destruct un].
Qed.

(** An uncompressed key on a toy curve, whose points have [y = x]. *)
Definition toy_parse (vch : list Z) : option (list Z) :=
  if bool_decide (vch = 2 :: replicate 32 0) || bool_decide (vch = 4 :: replicate 64 0) then Some (4 :: replicate 64 0) else None.

Definition stored_sample : CCoins := mkCoins true
  ([CTxOut_null; mkTxOut 7000 ([65] ++ (4 :: replicate 64 0) ++ [OP_CHECKSIG]) (-10)] ++ replicate 9 CTxOut_null ++ [mkTxOut 150 [OP_1] (-10)]) 90 1.

Lemma stored_coins_roundtrip_witness :
  exists b b', CCoins_write toy_parse stored_sample = Some b /\ (length b = 43)%nat /\ CCoins_read toy_parse (b ++ [1; 2]) = Some (stored_sample, [1; 2]) /\
    CTxInUndo_write toy_parse (mkUndo (mkTxOut 5000 [OP_1] (-10)) true 90 (-2)) = Some b' /\
    CTxInUndo_read toy_parse (b' ++ [1; 2]) = Some (mkUndo (mkTxOut 5000 [OP_1] (-10)) true 90 126, [1; 2]).
Proof.
  edestruct (stored_coins_roundtrip toy_parse stored_sample (mkUndo (mkTxOut 5000 [OP_1] (-10)) true 90 (-2))) as (b & b' & E & R & E' & R' & _).
  - intros vch Hl H4 [x Hx]. unfold toy_parse in Hx. rewrite (bool_decide_eq_false_2 (vch = 2 :: _)) in Hx by (intros ->; done).
    case_bool_decide as Ev; [subst vch; by vm_compute | done].
  - split_and!; try done; [split; [by vm_compute | by repeat constructor | done] |].
    repeat (constructor; [first [reflexivity | split_and!; [done | done | by apply (bool_decide_unpack (Forall (fits 8) _)); vm_compute | done | done]] |]). constructor.
  - split_and!; try done. split_and!; try done. by repeat constructor.
  - exists b, b'. split; [exact E |]. split; [| split; [exact (R _) | split; [exact E' | exact (R' _)]]].
    vm_compute in E. apply (inj Some) in E. by rewrite <- E.
Defined.

(** [ModifyNewCoins] marks the coins of a transaction that is not a coinbase as fresh even
    when the cache has a dirty, spent entry for it over coins of the view below: the output
    of the database, spent in the cache and created again, is unspent again once the
    new one is spent. *)
Example new_coins_over_spent_entry :
  let t := replicate 32 7 in
  let c := cache_over (mkDB {[ t := mkCoins false [mkTxOut 5000 [OP_1] (-10)] 90 1 ]} None) in
  (c ← ModifyCoins c t; c ← close_modifier (modify c t (fun cs => (Spend cs 0).2)) t;
   let before := (AccessCoins c t).1 ≫= norm in
   c ← ModifyNewCoins c t false; c ← close_modifier (modify c t (fun _ => mkCoins false [mkTxOut 5000 [OP_1] (-10)] 91 1)) t;
   c ← ModifyCoins c t; c ← close_modifier (modify c t (fun cs => (Spend cs 0).2)) t;
   Some (before, (AccessCoins c t).1 ≫= norm)) = Some (None, Some (mkCoins false [mkTxOut 5000 [OP_1] (-10)] 90 1)).
Proof. by vm_compute. Qed.
