(* ===== verification/SeqLocks.v ===== *)
(** * Relative lock times (BIP 68): CalculateSequenceLocks, EvaluateSequenceLocks and
    SequenceLocks of main.cpp

    The functions and the theorems on them.  [prevHeights] is passed by pointer and changed; the new vector is returned. *)

From stdpp Require Import gmap.
From stdpp Require Import gmap sorting.
From S2P Require Import Prelude MdHash Hash ArithUint Pow BlockIndex BlockIndexProofs BlockIndexTheorems MedianTime Script Interpreter Serialize Transaction SigHash Compressor Coins TxVerify.
#[local] Open Scope Z_scope.

Definition LOCKTIME_VERIFY_SEQUENCE : Z := 1 << 0.
Definition SEQUENCE_LOCKTIME_GRANULARITY : Z := 9.

Section Locks.
Context (H : heap).

(** [block.GetAncestor(h)->GetMedianTimePast()]; dereferencing [NULL] is undefined. *)
Definition ancestor_time (block : positive) (h : Z) : outcome Z :=
  let* a := must (GetAncestor H block h) in
  let* a := must a in
  must (GetMedianTimePast H a).

(** The loop over the inputs. *)
Fixpoint sequence_loop (block : positive) (ins : list CTxIn) (prevHeights : list Z) (nMinHeight nMinTime : Z)
    : outcome (list Z * (Z * Z)) :=
  match ins, prevHeights with
  | txin :: ins, nCoinHeight :: prevHeights =>
      if negb (nSequence txin & SEQUENCE_LOCKTIME_DISABLE_FLAG =? 0) then
        let* (hs, p) := sequence_loop block ins prevHeights nMinHeight nMinTime in Ret (0 :: hs, p)
      else if negb (nSequence txin & SEQUENCE_LOCKTIME_TYPE_FLAG =? 0) then
        let* nCoinTime := ancestor_time block (Z.max (nCoinHeight - 1) 0) in
        let* t := int64 (nCoinTime + u32 ((nSequence txin & SEQUENCE_LOCKTIME_MASK) << SEQUENCE_LOCKTIME_GRANULARITY)) in
        let* t := int64 (t - 1) in
        let* (hs, p) := sequence_loop block ins prevHeights nMinHeight (Z.max nMinTime t) in Ret (nCoinHeight :: hs, p)
      else
        let* h := int_ (nCoinHeight + (nSequence txin & SEQUENCE_LOCKTIME_MASK)) in
        let* h := int_ (h - 1) in
        let* (hs, p) := sequence_loop block ins prevHeights (Z.max nMinHeight h) nMinTime in Ret (nCoinHeight :: hs, p)
  | _, _ => Ret (prevHeights, (nMinHeight, nMinTime))
  end.

Definition CalculateSequenceLocks (tx : CTransaction) (flags : Z) (prevHeights : list Z) (block : positive)
    : outcome (list Z * (Z * Z)) :=
  if negb (Nat.eqb (length prevHeights) (length (vin tx))) then Stuck
  else
    let fEnforceBIP68 := (2 <=? u32 (tx_nVersion tx)) && negb (flags & LOCKTIME_VERIFY_SEQUENCE =? 0) in
    if negb fEnforceBIP68 then Ret (prevHeights, (-1, -1)) else sequence_loop block (vin tx) prevHeights (-1) (-1).

Definition EvaluateSequenceLocks (block : positive) (lockPair : Z * Z) : outcome bool :=
  let* b := must (H !! block) in
  let* prev := must (pprev b) in
  let* nBlockTime := must (GetMedianTimePast H prev) in
  Ret (negb ((BlockIndex.nHeight b <=? lockPair.1) || (nBlockTime <=? lockPair.2))).

Definition SequenceLocks (tx : CTransaction) (flags : Z) (prevHeights : list Z) (block : positive) : outcome (bool * list Z) :=
  let* (hs, lockPair) := CalculateSequenceLocks tx flags prevHeights block in
  let* r := EvaluateSequenceLocks block lockPair in
  Ret (r, hs).

End Locks.

(** * Theorems on relative lock times *)

#[local] Open Scope Z_scope.

Section Locks.
Context (H : heap) (Hwf : chain_wf H) (Htimes : map_Forall (fun _ b => 0 <= nTime b < 2 ^ 32) H).

(** ** Median times *)

Lemma window_times n p : Forall (fun t => 0 <= t < 2 ^ 32) (window H n p).
Proof using Htimes.
  revert p. induction n as [|n IH]; intros p; cbn [window]; [constructor |]. destruct (deref H p) as [b|] eqn:E; [| constructor].
  unfold deref in E. apply bind_Some in E as (q & _ & E). constructor; [by apply (Htimes q) | apply IH].
Qed.

Lemma mtp_bound p b : H !! p = Some b -> exists m, GetMedianTimePast H p = Some m /\ 0 <= m < 2 ^ 32.
Proof using All.
  intros Hp. destruct (mtp_some H Hwf p b Hp) as [m Em]. exists m. split; [done |]. rewrite (GetMedianTimePast_ok H Hwf p b Hp) in Em.
  unfold median in Em. apply list_elem_of_lookup_2 in Em. rewrite merge_sort_Permutation in Em.
  exact (proj1 (list.Forall_forall _ _) (window_times 11 (Some p)) m Em).
Qed.

(** The median time past of the block before the one at height [h], of the chain that ends
    with [block]. *)
Definition coin_time (block : positive) (h : Z) : Z :=
  default 0 (a ← ancestor H block (Z.max (h - 1) 0); GetMedianTimePast H a).

Lemma ancestor_time_ok block b h :
  H !! block = Some b -> 0 <= h <= nHeight b ->
  ancestor_time H block (Z.max (h - 1) 0) = Ret (coin_time block h) /\ 0 <= coin_time block h < 2 ^ 32.
Proof using All.
  intros Hb Hh. unfold ancestor_time, coin_time.
  destruct (ancestor_in H Hwf block b (Z.max (h - 1) 0) Hb ltac:(lia)) as (q & bq & Ea & Hq & _). destruct (mtp_bound q bq Hq) as (m & Em & Hm).
  rewrite (GetAncestor_ok H Hwf block b) by done. rewrite Ea, obind_Some. cbn [must obnd]. rewrite Em. done.
Qed.

(** ** The locks *)

Definition disabled (i : CTxIn) : bool := negb (nSequence i & SEQUENCE_LOCKTIME_DISABLE_FLAG =? 0).
Definition timed (i : CTxIn) : bool := negb (nSequence i & SEQUENCE_LOCKTIME_TYPE_FLAG =? 0).
Definition lock_value (i : CTxIn) : Z := nSequence i & SEQUENCE_LOCKTIME_MASK.

(** The first height and the first median time at which an input may be spent. *)
Definition lock_height (i : CTxIn) (h : Z) : Z := if disabled i || timed i then 0 else h + lock_value i.
Definition lock_time (block : positive) (i : CTxIn) (h : Z) : Z :=
  if disabled i || negb (timed i) then 0 else coin_time block h + 512 * lock_value i.

Lemma lock_value_bound i : 0 <= lock_value i < 2 ^ 16.
Proof using. unfold lock_value. change SEQUENCE_LOCKTIME_MASK with (Z.ones 16). rewrite Z.land_ones by lia. by apply Z.mod_pos_bound. Qed.

Lemma sequence_loop_spec block b ins heights mh mt :
  H !! block = Some b -> nHeight b < 2 ^ 31 - 2 ^ 16 -> length heights = length ins -> Forall (fun h => 0 <= h <= nHeight b) heights ->
  -1 <= mh -> -1 <= mt ->
  exists hs mh' mt', sequence_loop H block ins heights mh mt = Ret (hs, (mh', mt')) /\
    (forall n, 0 <= n -> mh' < n <-> mh < n /\ Forall (fun p => lock_height p.1 p.2 <= n) (zip ins heights)) /\
    (forall n, 0 <= n -> mt' < n <-> mt < n /\ Forall (fun p => lock_time block p.1 p.2 <= n) (zip ins heights)).
Proof using All.
  intros Hb Hbh. revert heights mh mt. induction ins as [|i ins IH]; intros heights mh mt Hl Hh H1 H2.
  { destruct heights; [| done]. exists [], mh, mt. split; [done |]. split; intros n Hn; cbn; (split; [intros; split; [lia | constructor] | tauto]). }
  destruct heights as [|h heights]; [done |]. apply (inj S) in Hl. apply Forall_cons_iff in Hh as [Hh Hhs].
  pose proof (lock_value_bound i) as Hv. cbn [sequence_loop zip zip_with]. fold (disabled i) (timed i) (lock_value i).
  destruct (disabled i) eqn:Ed; cbn [orb].
  - destruct (IH heights mh mt Hl Hhs H1 H2) as (hs & mh' & mt' & -> & A & B). cbn [obnd]. exists (0 :: hs), mh', mt'.
    split; [done |]. split; intros n Hn; rewrite ?A, ?B, Forall_cons_iff by done; cbn [fst snd]; [unfold lock_height at 2 | unfold lock_time at 2];
      rewrite Ed; cbn [orb]; tauto.
  - destruct (timed i) eqn:Et; cbn [negb].
    + destruct (ancestor_time_ok block b h Hb Hh) as [-> Hc]. cbn [obnd].
      assert (E9 : lock_value i << SEQUENCE_LOCKTIME_GRANULARITY = 512 * lock_value i) by (unfold SEQUENCE_LOCKTIME_GRANULARITY; rewrite Z.shiftl_mul_pow2 by lia; lia).
      rewrite E9, wrap_id by (split; lia). rewrite int64_ok by lia. cbn [obnd]. rewrite int64_ok by lia. cbn [obnd].
      destruct (IH heights mh (Z.max mt (coin_time block h + 512 * lock_value i - 1)) Hl Hhs H1 ltac:(lia)) as (hs & mh' & mt' & -> & A & B).
      cbn [obnd]. exists (h :: hs), mh', mt'. split; [done |].
      split; intros n Hn; rewrite ?A, ?B, Forall_cons_iff by done; cbn [fst snd]; [unfold lock_height at 2 | unfold lock_time at 2]; rewrite Ed, Et; cbn [orb negb].
      * tauto.
      * rewrite Z.max_lub_lt_iff. split; [intros [[? ?] ?] | intros [? [? ?]]]; split_and!; (done || lia).
    + rewrite int_ok by lia. cbn [obnd]. rewrite int_ok by lia. cbn [obnd].
      destruct (IH heights (Z.max mh (h + lock_value i - 1)) mt Hl Hhs ltac:(lia) H2) as (hs & mh' & mt' & -> & A & B).
      cbn [obnd]. exists (h :: hs), mh', mt'. split; [done |].
      split; intros n Hn; rewrite ?A, ?B, Forall_cons_iff by done; cbn [fst snd]; [unfold lock_height at 2 | unfold lock_time at 2]; rewrite Ed, Et; cbn [orb negb].
      * rewrite Z.max_lub_lt_iff. split; [intros [[? ?] ?] | intros [? [? ?]]]; split_and!; (done || lia).
      * tauto.
Qed.

(** Whether the rule is in force for a transaction. *)
Definition bip68 (tx : CTransaction) (flags : Z) : bool :=
  (2 <=? u32 (tx_nVersion tx)) && negb (flags & LOCKTIME_VERIFY_SEQUENCE =? 0).

Lemma SequenceLocks_spec tx flags heights block b q m :
  H !! block = Some b -> pprev b = Some q -> GetMedianTimePast H q = Some m -> nHeight b < 2 ^ 31 - 2 ^ 16 ->
  length heights = length (vin tx) -> Forall (fun h => 0 <= h <= nHeight b) heights ->
  exists r hs, SequenceLocks H tx flags heights block = Ret (r, hs) /\
    (r = true <-> (bip68 tx flags = true -> Forall (fun p => lock_height p.1 p.2 <= nHeight b /\ lock_time block p.1 p.2 <= m) (zip (vin tx) heights))).
Proof using All.
  intros Hb Hq Em Hbh Hl Hh. unfold SequenceLocks, CalculateSequenceLocks. rewrite Hl, Nat.eqb_refl. cbn [negb]. fold (bip68 tx flags).
  assert (Hm : 0 <= m).
  { pose proof (eo_prev _ _ _ (entry H Hwf block b Hb)) as Hp. rewrite Hq in Hp. destruct Hp as (bq & Hbq & _).
    destruct (mtp_bound q bq Hbq) as (m' & Em' & ?). assert (m' = m) by congruence. lia. }
  pose proof (eo_height _ _ _ (entry H Hwf block b Hb)) as Hnn.
  assert (EE : forall p, EvaluateSequenceLocks H block p = Ret (negb ((nHeight b <=? p.1) || (m <=? p.2)))).
  { intros p. unfold EvaluateSequenceLocks. rewrite Hb. cbn [must obnd]. rewrite Hq. cbn [must obnd]. by rewrite Em. }
  destruct (bip68 tx flags); cbn [negb].
  - destruct (sequence_loop_spec block b (vin tx) heights (-1) (-1) Hb Hbh Hl Hh ltac:(lia) ltac:(lia)) as (hs & mh & mt & -> & A & B).
    cbn [obnd]. rewrite EE. cbn [obnd fst snd]. eexists _, hs. split; [done |]. rewrite negb_true_iff, orb_false_iff, !Z.leb_gt, A, B by lia.
    rewrite list.Forall_and. intuition lia.
  - cbn [obnd]. rewrite EE. cbn [obnd fst snd]. eexists _, heights. split; [done |]. rewrite !(proj2 (Z.leb_gt _ _)) by lia. done.
Qed.

End Locks.

(** C21. relative lock times.  For a transaction of version 2 or more and with the flag,
    [SequenceLocks] is true if and only if every input without the disable flag has waited
    long enough: the block's height is at least the coin's plus the value, or the median
    time past before the block is at least that before the coin plus 512 seconds times the
    value; other transactions pass.  It returns in every case. *)
Theorem sequence_locks_enforced H tx flags heights block b q m :
  chain_wf H -> map_Forall (fun _ b => 0 <= nTime b < 2 ^ 32) H ->
  H !! block = Some b -> pprev b = Some q -> GetMedianTimePast H q = Some m -> nHeight b < 2 ^ 31 - 2 ^ 16 ->
  length heights = length (vin tx) -> Forall (fun h => 0 <= h <= nHeight b) heights ->
  exists r hs, SequenceLocks H tx flags heights block = Ret (r, hs) /\
    (r = true <-> (bip68 tx flags = true ->
       Forall (fun p => lock_height p.1 p.2 <= nHeight b /\ lock_time H block p.1 p.2 <= m) (zip (vin tx) heights))).
Proof. intros. by apply SequenceLocks_spec with (q := q). Qed.

(** One input waits for a block, one has no lock. *)
Definition locked_tx : CTransaction :=
  mkTx 2 [mkTxIn (mkOut (replicate 32 7) 0) [] 1 []; mkTxIn (mkOut (replicate 32 8) 0) [] SEQUENCE_FINAL []] [] [] 0.

Lemma toy_heap_times : map_Forall (fun _ b => 0 <= nTime b < 2 ^ 32) toy_heap.
Proof. unfold toy_heap. repeat apply map_Forall_insert_2; (done || apply map_Forall_empty). Qed.

Lemma sequence_locks_enforced_witness : exists hs, SequenceLocks toy_heap locked_tx LOCKTIME_VERIFY_SEQUENCE [1; 2] 3 = Ret (true, hs).
Proof.
  destruct (sequence_locks_enforced toy_heap locked_tx LOCKTIME_VERIFY_SEQUENCE [1; 2] 3 (toy_entry 12 (Some 2%positive) (Some 1%positive) 2 300)
    2%positive 200) as (r & hs & E & HR);
    [exact toy_wf | exact toy_heap_times | reflexivity | reflexivity | by vm_compute | done | done | by repeat constructor |].
  exists hs. rewrite E. do 2 f_equal. apply HR. intros _. repeat (constructor; [by vm_compute |]). constructor.
Defined.

(** ** [OP_CHECKSEQUENCEVERIFY] *)

Lemma land_bit x k : 0 <= k -> x & 2 ^ k = if Z.testbit x k then 2 ^ k else 0.
Proof.
  intros Hk. apply Z.bits_inj'. intros n Hn. rewrite Z.land_spec, Z.pow2_bits_eqb by done.
  destruct (Z.eqb_spec k n) as [->|Hne].
  - rewrite andb_true_r. destruct (Z.testbit x n); [by rewrite Z.pow2_bits_true | by rewrite Z.testbit_0_l].
  - rewrite andb_false_r. destruct (Z.testbit x k); [by rewrite Z.pow2_bits_false | by rewrite Z.testbit_0_l].
Qed.

(** The type flag and the value of a sequence number. *)
Lemma mask_split x :
  x & (SEQUENCE_LOCKTIME_TYPE_FLAG .| SEQUENCE_LOCKTIME_MASK) =
  (if Z.testbit x 22 then 2 ^ 22 else 0) + (x & SEQUENCE_LOCKTIME_MASK) /\ 0 <= x & SEQUENCE_LOCKTIME_MASK < 2 ^ 16.
Proof.
  assert (HM : 0 <= x & SEQUENCE_LOCKTIME_MASK < 2 ^ 16).
  { change SEQUENCE_LOCKTIME_MASK with (Z.ones 16). rewrite Z.land_ones by lia. by apply Z.mod_pos_bound. }
  split; [| done]. rewrite Z.land_lor_distr_r. change SEQUENCE_LOCKTIME_TYPE_FLAG with (2 ^ 22). rewrite land_bit by lia.
  destruct (Z.testbit x 22); [| by rewrite Z.lor_0_l].
  change (2 ^ 22) with (1 << 22). rewrite lor_shift_add; [done | lia | split; lia].
Qed.

Lemma timed_bit i : timed i = Z.testbit (nSequence i) 22.
Proof.
  unfold timed. change SEQUENCE_LOCKTIME_TYPE_FLAG with (2 ^ 22). rewrite land_bit by lia. by destruct (Z.testbit (nSequence i) 22).
Qed.

(** [OP_CHECKSEQUENCEVERIFY] does what it is for.  If the checker accepts the operand [n]
    for an input and the transaction is in a block that passes [SequenceLocks], then that
    block is at least as many blocks, or as many times 512 seconds of median time, after the
    coin as the low 16 bits of [n] say. *)
Theorem csv_enforced H tx nIn n i h heights hs block b q m :
  chain_wf H -> map_Forall (fun _ b => 0 <= nTime b < 2 ^ 32) H ->
  H !! block = Some b -> pprev b = Some q -> GetMedianTimePast H q = Some m -> nHeight b < 2 ^ 31 - 2 ^ 16 ->
  length heights = length (vin tx) -> Forall (fun h => 0 <= h <= nHeight b) heights ->
  vin tx !! Z.to_nat nIn = Some i -> heights !! Z.to_nat nIn = Some h ->
  tx_CheckSequence tx nIn n = Ret true -> SequenceLocks H tx LOCKTIME_VERIFY_SEQUENCE heights block = Ret (true, hs) ->
  if Z.testbit n 22 then coin_time H block h + 512 * (n & SEQUENCE_LOCKTIME_MASK) <= m
  else h + (n & SEQUENCE_LOCKTIME_MASK) <= nHeight b.
Proof.
  intros Hwf Ht Hb Hq Em Hbh Hl Hh Ei Eh HC HS.
  destruct (SequenceLocks_spec H Hwf Ht tx LOCKTIME_VERIFY_SEQUENCE heights block b q m Hb Hq Em Hbh Hl Hh) as (r & hs' & E & HR).
  assert (r = true) as -> by congruence. unfold tx_CheckSequence in HC. rewrite Ei in HC. cbn [must obnd] in HC.
  destruct (Z.ltb_spec (u32 (tx_nVersion tx)) 2) as [|Hver]; [done |]. fold (disabled i) in HC. destruct (disabled i) eqn:Ed; [done |].
  assert (HB : bip68 tx LOCKTIME_VERIFY_SEQUENCE = true) by (unfold bip68; by rewrite (proj2 (Z.leb_le _ _)) by lia).
  specialize (proj1 HR eq_refl HB) as HF. rewrite Forall_lookup in HF. specialize (HF (Z.to_nat nIn) (i, h)).
  rewrite lookup_zip_with, Ei, Eh in HF. specialize (HF eq_refl). cbn [fst snd] in HF. destruct HF as [HF1 HF2].
  unfold lock_height in HF1. unfold lock_time in HF2. rewrite Ed, timed_bit in *. unfold lock_value in *. cbn [orb] in HF1, HF2.
  destruct (mask_split (nSequence i)) as [Es Hs1], (mask_split n) as [En Hn1]. cbv zeta in HC. rewrite Es, En in HC.
  change SEQUENCE_LOCKTIME_TYPE_FLAG with (2 ^ 22) in HC.
  destruct (negb _) eqn:Ek in HC; [done |]. apply negb_false_iff, orb_true_iff in Ek. rewrite !andb_true_iff, !Z.ltb_lt, !Z.leb_le in Ek.
  destruct (Z.ltb_spec ((if Z.testbit (nSequence i) 22 then 2 ^ 22 else 0) + (nSequence i & SEQUENCE_LOCKTIME_MASK))
    ((if Z.testbit n 22 then 2 ^ 22 else 0) + (n & SEQUENCE_LOCKTIME_MASK))); [done |].
  destruct (Z.testbit (nSequence i) 22), (Z.testbit n 22); cbn [negb] in *; lia.
Qed.

Lemma csv_enforced_witness : 1 + (1 & SEQUENCE_LOCKTIME_MASK) <= 2.
Proof.
  destruct (SequenceLocks toy_heap locked_tx LOCKTIME_VERIFY_SEQUENCE [1; 2] 3) as [[[] hs]| | |] eqn:E; try (vm_compute in E; discriminate E).
  exact (csv_enforced toy_heap locked_tx 0 1 (mkTxIn (mkOut (replicate 32 7) 0) [] 1 []) 1 [1; 2] hs 3
    (toy_entry 12 (Some 2%positive) (Some 1%positive) 2 300) 2%positive 200 toy_wf toy_heap_times eq_refl eq_refl ltac:(by vm_compute) ltac:(done) eq_refl
    ltac:(by repeat constructor) eq_refl eq_refl ltac:(by vm_compute) E).
Defined.
