(* ===== verification/Block.v ===== *)
(** * Blocks in main.cpp: CheckTransaction, CheckBlock, ContextualCheckBlock, the witness commitment

    A transaction of a block comes with its hash, which [CTransaction] computes when it is
    made.  What the code of zerocoin, sigma, instantsend and xnode payments answers is an
    argument ([OtherRules]): the theorems hold for whatever it answers.  Writing undo data
    and indexes to disk, orphan transactions, notifications and timing are not represented. *)

From stdpp Require Import gmap.
From Stdlib Require Import String.
From S2P Require Import Prelude Lyra2 MdHash Hash Merkle ArithUint Pow BlockIndex VersionBits BlockPow Script Interpreter Serialize Transaction SigHash Compressor Coins TxVerify SeqLocks.
#[local] Open Scope verdict_scope.
#[local] Open Scope string_scope.
#[local] Open Scope Z_scope.

(** ** Blocks (primitives/block.h) *)

Record block_tx := mkBtx { btx : CTransaction; btx_hash : list Z }.
Record CBlock := mkBlock { blk_header : CBlockHeader; vtx : list block_tx }.

(** [::GetSerializeSize(block, SER_NETWORK, nVersion)]. *)
Definition block_GetSerializeSize `{Abi} (nVersion : Z) (block : CBlock) : option Z :=
  sizes ← mapM (fun t => tx_GetSerializeSize nVersion (btx t)) (vtx block);
  Some (u64 (len (concat (SerializationOp (blk_header block))) + GetSizeOfCompactSize (len (vtx block)) + foldr Z.add 0 sizes)).

Definition GetBlockWeight `{Abi} (block : CBlock) : option Z := block_GetSerializeSize PROTOCOL_VERSION block.

(** ** Parameters *)

(** The consensus parameters that are read here. *)
Record ChainParams := mkChainParams {
  hashGenesisBlock : list Z;
  cp_powLimit : list Z;
  nMajorityWindow : Z;
  nMajorityEnforceBlockUpgrade : Z;
  cp_versionbits : Params;
  cp_fTestNet : bool;
}.

Definition DEPLOYMENT_CSV : nat := 1.
Definition DEPLOYMENT_SEGWIT : nat := 2.
Definition MAX_BLOCK_WEIGHT : Z := 2000000.
Definition MAX_BLOCK_SIGOPS_COST : Z := 400000.
Definition HF_XNODE_HEIGHT : Z := 66550.
Definition REJECT_NONSTANDARD : Z := 0x40.

(** The answers of code that is not modelled; [tx_info] is what it keeps about the
    transactions of a block. *)
Class OtherRules := {
  tx_info : Type;
  new_info : tx_info;
  CheckSigmaTransaction (tx : CTransaction) (hashTx : list Z) (isVerifyDB : bool) (nHeight : Z)
    (isCheckWallet fStatefulZerocoinCheck : bool) : option tx_info -> verdict (option tx_info);
  CheckZerocoinTransaction (tx : CTransaction) (hashTx : list Z) (isVerifyDB : bool) (nHeight : Z)
    (isCheckWallet fStatefulZerocoinCheck : bool) : option tx_info -> verdict (option tx_info);
  CheckZerocoinFoundersInputs (tx : CTransaction) (nHeight : Z) : verdict unit;
  CheckSigmaBlock : CBlock -> verdict unit;
  GetLockedOutPointTxHash : COutPoint -> option (list Z);
  GetSigmaSpendInput : CTransaction -> Z;
  IsBlockValueValid (block : CBlock) (nHeight blockReward : Z) : bool;
  IsBlockPayeeValid (tx : CTransaction) (nHeight blockReward : Z) : bool;
  ConnectBlockZC (block : CBlock) (info : option tx_info) : verdict unit;
  ConnectBlockSigma (block : CBlock) (info : option tx_info) : verdict unit;
}.

(** ** [CheckTransaction] *)

Definition CheckTransaction `{Abi} `{OtherRules} (tx : CTransaction) (hashTx : list Z) (isVerifyDB : bool) (nHeight : Z)
    (isCheckWallet fStatefulZerocoinCheck : bool) (info : option tx_info) : verdict (option tx_info) :=
  let! _ := CheckTransaction_common tx in
  if IsCoinBase tx then pass info
  else
    let! info := (if IsZerocoinV3SigmaTransaction tx
      then CheckSigmaTransaction tx hashTx isVerifyDB nHeight isCheckWallet fStatefulZerocoinCheck info
      else pass info) in
    CheckZerocoinTransaction tx hashTx isVerifyDB nHeight isCheckWallet fStatefulZerocoinCheck info.

(** ** [CheckBlock] *)

(** The handlers around the body: an exception is a rejection without a reason. *)
Definition catch_all {A} (m : verdict A) : verdict A :=
  match m with Throw _ => Ret (inl (mkReject 0 0 "")) | _ => m end.

(** The Merkle root of the header. *)
Definition check_merkle_root (g : list Z) (block : CBlock) : verdict unit :=
  let* (hashMerkleRoot2, mutated) := must (BlockMerkleRoot btx_hash g (vtx block)) in
  if negb (bool_decide (h_hashMerkleRoot (blk_header block) = hashMerkleRoot2)) then DoS 100 REJECT_INVALID "bad-txnmrklroot"
  else if mutated then DoS 100 REJECT_INVALID "bad-txns-duplicate"
  else pass tt.

(** The first transaction, and only it, is a coinbase. *)
Definition check_coinbases (block : CBlock) : verdict unit :=
  match vtx block with
  | [] => DoS 100 REJECT_INVALID "bad-cb-missing"
  | t :: ts =>
      if negb (IsCoinBase (btx t)) then DoS 100 REJECT_INVALID "bad-cb-missing"
      else if existsb (fun t => IsCoinBase (btx t)) ts then DoS 100 REJECT_INVALID "bad-cb-multiple"
      else pass tt
  end.

(** An input that is locked by another transaction. *)
Definition lock_conflict `{OtherRules} (t : block_tx) : bool :=
  negb (IsCoinBase (btx t)) &&
  existsb (fun i => match GetLockedOutPointTxHash (prevout i) with
                    | Some h => negb (bool_decide (h = btx_hash t)) | None => false end) (vin (btx t)).

(** [state.Invalid(false, state.GetRejectCode(), state.GetRejectReason(), ..)]: the level of
    the rejection stays. *)
Fixpoint check_transactions `{Abi} `{OtherRules} (ts : list block_tx) (isVerifyDB : bool) (nHeight : Z) : verdict unit :=
  match ts with
  | [] => pass tt
  | t :: ts =>
      let! _ := CheckTransaction (btx t) (btx_hash t) isVerifyDB nHeight false false None in
      check_transactions ts isVerifyDB nHeight
  end.

Definition block_rules `{Abi} `{OtherRules} (g : list Z) (ix : index) (block : CBlock) (fCheckMerkleRoot : bool)
    (nHeight : Z) (isVerifyDB : bool) : verdict unit :=
  let! _ := (if fCheckMerkleRoot then check_merkle_root g block else pass tt) in
  let* size := must (block_GetSerializeSize PROTOCOL_VERSION block) in
  if (len (vtx block) =? 0) || (MAX_BLOCK_BASE_SIZE <? len (vtx block)) || (MAX_BLOCK_BASE_SIZE <? size)
  then DoS 100 REJECT_INVALID "bad-blk-length"
  else
    let! _ := check_coinbases block in
    if existsb lock_conflict (vtx block) then DoS 0 REJECT_INVALID "conflict-tx-lock"
    else
      let* nHeight := (if nHeight =? 2 ^ 31 - 1 then must (ZerocoinGetNHeight ix (blk_header block)) else Ret nHeight) in
      let* coinbase := must (head (vtx block)) in
      let! _ := CheckZerocoinFoundersInputs (btx coinbase) nHeight in
      let! _ := check_transactions (vtx block) isVerifyDB nHeight in
      let nSigOps := foldl (fun n t => u32 (n + GetLegacySigOpCount (btx t))) 0 (vtx block) in
      if MAX_BLOCK_SIGOPS_COST <? u32 (nSigOps * WITNESS_SCALE_FACTOR) then DoS 100 REJECT_INVALID "bad-blk-sigops"
      else pass tt.

(** The result, the cache of proof-of-work hashes and [block.fChecked]. *)
Definition CheckBlock `{Abi} `{OtherRules} (g : list Z) (a : allocs) (params : ChainParams) (ix : index) (block : CBlock)
    (fCheckPOW fCheckMerkleRoot : bool) (nHeight : Z) (isVerifyDB : bool) (fChecked : bool) (mapPoWHash : pow_cache)
    : outcome ((reject + unit) * (pow_cache * bool)) :=
  if fChecked then Ret (inr tt, (mapPoWHash, fChecked))
  else
    let* (ok, mapPoWHash) := must (CheckBlockHeader a (cp_fTestNet params) ix (blk_header block) (cp_powLimit params) fCheckPOW mapPoWHash) in
    if negb ok then Ret (inl (mkReject 50 REJECT_INVALID "high-hash"), (mapPoWHash, fChecked))
    else
      let* r := catch_all (block_rules g ix block fCheckMerkleRoot nHeight isVerifyDB) in
      match r with
      | inl e => Ret (inl e, (mapPoWHash, fChecked))
      | inr _ =>
          let fChecked := fCheckPOW && fCheckMerkleRoot in
          let* r := catch_all (CheckSigmaBlock block) in
          Ret (r, (mapPoWHash, fChecked))
      end.

(** ** Deployments *)

Section Contextual.
Context `{Abi} (g : list Z) (params : ChainParams) (ix : index).

Definition version_state (pindexPrev : option positive) (pos : nat) (caches : VersionBitsCache) : outcome (bool * VersionBitsCache) :=
  let* (s, caches) := must (VersionBitsState (ix_heap ix) pindexPrev (cp_versionbits params) pos caches) in
  Ret (bool_decide (s = THRESHOLD_ACTIVE), caches).

Definition IsWitnessEnabled (pindexPrev : option positive) (caches : VersionBitsCache) : outcome (bool * VersionBitsCache) :=
  version_state pindexPrev DEPLOYMENT_SEGWIT caches.

(** [IsSuperMajority]: of the last [nMajorityWindow] blocks; [nFound] is unsigned. *)
Fixpoint majority_loop (n : nat) (minVersion : Z) (pstart : option positive) (nRequired nFound : Z) : option Z :=
  match n with
  | O => Some nFound
  | S n =>
      if nFound <? nRequired then
        match pstart with
        | None => Some nFound
        | Some q =>
            b ← ix_heap ix !! q;
            majority_loop n minVersion (pprev b) nRequired (if minVersion <=? nVersion b then u32 (nFound + 1) else nFound)
        end
      else Some nFound
  end.

Definition IsSuperMajority (minVersion : Z) (pstart : option positive) (nRequired : Z) : option bool :=
  nFound ← majority_loop (Z.to_nat (nMajorityWindow params)) minVersion pstart nRequired 0;
  Some (nRequired <=? nFound).

(** ** The witness commitment *)

(** [OP_RETURN], a push of 36 octets and the header of the commitment. *)
Definition commitment_header : list Z := [OP_RETURN; 0x24; 0xaa; 0x21; 0xa9; 0xed].
Definition is_commitment (s : list Z) : bool :=
  (38 <=? len s) && bool_decide (take 6 s = commitment_header).

(** The last output that has it, or -1. *)
Definition GetWitnessCommitmentIndex (vout : list CTxOut) : Z :=
  snd (foldl (fun '(o, commitpos) out => (o + 1, if is_commitment (scriptPubKey out) then o else commitpos)) (0, -1) vout).

(** The hash of the witness Merkle root and the nonce. *)
Definition witness_hash (block : CBlock) (nonce : list Z) : option (list Z) :=
  ws ← mapM (fun t => GetWitnessHash g (btx t)) (tail (vtx block));
  match vtx block with
  | [] => None
  | _ =>
      '(hashWitness, _) ← BlockWitnessMerkleRoot id g ([] :: ws);
      Hash g [hashWitness; nonce]
  end.

Definition set_coinbase (block : CBlock) (f : CTransaction -> CTransaction) : option CBlock :=
  match vtx block with
  | [] => None
  | t :: ts =>
      let tx := f (btx t) in
      hash ← Transaction.GetHash g tx;
      Some (mkBlock (blk_header block) (mkBtx tx hash :: ts))
  end.

Definition set_wit (wit : list CTxInWitness) (tx : CTransaction) : CTransaction :=
  mkTx (tx_nVersion tx) (vin tx) (vout tx) wit (nLockTime tx).
Definition push_out (o : CTxOut) (tx : CTransaction) : CTransaction :=
  mkTx (tx_nVersion tx) (vin tx) (vout tx ++ [o])%list (vtxinwit tx) (nLockTime tx).

(** The hash of a transaction does not cover its witness, so that it stays. *)
Definition UpdateUncommittedBlockStructures (block : CBlock) (pindexPrev : option positive) (caches : VersionBitsCache)
    : outcome (CBlock * VersionBitsCache) :=
  let* t := must (head (vtx block)) in
  let commitpos := GetWitnessCommitmentIndex (vout (btx t)) in
  if commitpos =? -1 then Ret (block, caches)
  else
    let* (enabled, caches) := IsWitnessEnabled pindexPrev caches in
    if enabled && (len (vtxinwit (btx t)) =? 0)
    then Ret (mkBlock (blk_header block) (mkBtx (set_wit [[replicate 32 0]] (btx t)) (btx_hash t) :: tail (vtx block)), caches)
    else Ret (block, caches).

Definition GenerateCoinbaseCommitment (block : CBlock) (pindexPrev : option positive) (caches : VersionBitsCache)
    : outcome (list Z * CBlock * VersionBitsCache) :=
  let* t := must (head (vtx block)) in
  let* d := must (vDeployments (cp_versionbits params) !! DEPLOYMENT_SEGWIT) in
  let* (commitment, block) :=
    (if negb (d_nTimeout d =? 0) && (GetWitnessCommitmentIndex (vout (btx t)) =? -1) then
       let* witnessroot := must (witness_hash block (replicate 32 0)) in
       let commitment := (commitment_header ++ witnessroot)%list in
       let* block := must (set_coinbase block (push_out (mkTxOut 0 commitment (-10)))) in
       Ret (commitment, block)
     else Ret ([], block)) in
  let* (block, caches) := UpdateUncommittedBlockStructures block pindexPrev caches in
  Ret (commitment, block, caches).

(** ** [ContextualCheckBlock] *)

Definition LOCKTIME_MEDIAN_TIME_PAST : Z := 1 << 1.

(** The commitment of a block once witnesses are enabled: whether there is one. *)
Definition check_commitment (block : CBlock) : verdict bool :=
  let* t := must (head (vtx block)) in
  let commitpos := GetWitnessCommitmentIndex (vout (btx t)) in
  if commitpos =? -1 then pass false
  else
    match vtxinwit (btx t) with
    | [[nonce]] =>
        if negb (len nonce =? 32) then DoS 100 REJECT_INVALID "bad-witness-nonce-size"
        else
          let* hashWitness := must (witness_hash block nonce) in
          let* o := must (vout (btx t) !! Z.to_nat commitpos) in
          if negb (bool_decide (hashWitness = take 32 (drop 6 (scriptPubKey o))))
          then DoS 100 REJECT_INVALID "bad-witness-merkle-match"
          else pass true
    | _ => DoS 100 REJECT_INVALID "bad-witness-nonce-size"
    end.

(** The coinbase starts with the height, from height 222665. *)
Definition check_cb_height (block : CBlock) (nHeight : Z) : verdict unit :=
  if 222665 <=? nHeight then
    let expect := push_int64 nHeight in
    let* t := must (head (vtx block)) in
    let* i := must (head (vin (btx t))) in
    if bool_decide (take (length expect) (scriptSig i) = expect) then pass tt
    else DoS 100 REJECT_INVALID "bad-cb-height"
  else pass tt.

Definition ContextualCheckBlock (block : CBlock) (pindexPrev : option positive) (caches : VersionBitsCache)
    : outcome ((reject + unit) * VersionBitsCache) :=
  let* nHeight := (match pindexPrev with None => Ret 0 | Some q => let* b := must (ix_heap ix !! q) in int_ (BlockIndex.nHeight b + 1) end) in
  let* (csv, caches) := version_state pindexPrev DEPLOYMENT_CSV caches in
  let* nLockTimeCutoff :=
    (if csv then let* q := must pindexPrev in must (GetMedianTimePast (ix_heap ix) q) else Ret (h_nTime (blk_header block))) in
  if negb (forallb (fun t => IsFinalTx (btx t) nHeight nLockTimeCutoff) (vtx block))
  then Ret (inl (mkReject 10 REJECT_INVALID "bad-txns-nonfinal"), caches)
  else
    let* r := check_cb_height block nHeight in
    match r with
    | inl e => Ret (inl e, caches)
    | inr _ =>
        let* (witness, caches) := IsWitnessEnabled pindexPrev caches in
        let* r := (
          let! fHaveWitness := (if witness then check_commitment block else pass false) in
          if negb fHaveWitness && existsb (fun t => negb (CTxWitness_IsNull (vtxinwit (btx t)))) (vtx block)
          then DoS 100 REJECT_INVALID "unexpected-witness"
          else
            let* weight := must (GetBlockWeight block) in
            if MAX_BLOCK_WEIGHT <? weight then DoS 100 REJECT_INVALID "bad-blk-weight" else pass tt) in
        Ret (r, caches)
    end.

End Contextual.
