(* ===== verification/BlockTheorems.v ===== *)
(** * Theorems about blocks: CheckBlock and the witness commitment *)

From stdpp Require Import gmap.
From Stdlib Require Import String.
From S2P Require Import Prelude Lyra2 MdHash ShaSpec Hash Merkle MerkleProofs MerkleTheorems BlockIndex BlockIndexProofs BlockIndexTheorems VersionBits Pow BlockPow Script ScriptProofs Interpreter InterpreterProofs SoftFork P2pkh Serialize Transaction TransactionTheorems SigHash SigHashTheorems Compressor Coins TxVerify SeqLocks Block.
#[local] Open Scope verdict_scope.
#[local] Open Scope Z_scope.

(** ** [CheckBlock] *)

(** One coinbase, in front, and every transaction as [CheckTransaction] wants it. *)
Record block_checked (block : CBlock) : Prop := {
  bc_coinbase : exists t ts, vtx block = t :: ts /\ IsCoinBase (btx t) = true /\ Forall (fun t => IsCoinBase (btx t) = false) ts;
  bc_txs : Forall (fun t => tx_checked (btx t)) (vtx block);
}.

Lemma vbnd_pass {A B} (m : verdict A) (k : A -> verdict B) y : vbnd m k = pass y -> exists x, m = pass x /\ k x = pass y.
Proof. destruct m as [[e|x]| | |]; cbn; try done. by exists x. Qed.

Lemma obnd_ret {A B} (m : outcome A) (k : A -> outcome B) y : obnd m k = Ret y -> exists x, m = Ret x /\ k x = Ret y.
Proof. destruct m as [x| | |]; cbn; try done. by exists x. Qed.

Lemma must_ret {A} (o : option A) x : must o = Ret x -> o = Some x.
Proof. destruct o; cbn; [by intros [= ->] | done]. Qed.

Lemma common_checked `{Abi} tx : CheckTransaction_common tx = pass tt -> tx_checked tx.
Proof.
  intros E. destruct (tx_GetSerializeSize (PROTOCOL_VERSION .| SERIALIZE_TRANSACTION_NO_WITNESS) tx) as [size|] eqn:Es.
  - destruct (CheckTransaction_spec tx size Es) as [(_ & HT & _)|[[e E2] _]]; [done | by rewrite E in E2].
  - unfold CheckTransaction_common in E. rewrite Es in E. repeat (destruct (_ =? _); [done |]). done.
Qed.

Lemma check_transactions_checked `{Abi} `{OtherRules} ts v n :
  check_transactions ts v n = pass tt -> Forall (fun t => tx_checked (btx t)) ts.
Proof.
  induction ts as [|t ts IH]; [constructor |]. cbn [check_transactions]. intros (i & E & E2)%vbnd_pass. constructor; [| by apply IH].
  unfold CheckTransaction in E. apply vbnd_pass in E as ([] & E & _). by apply common_checked.
Qed.

(** What [CheckBlock] asks of the transactions of a block, and of their root. *)
Record block_valid `{Abi} `{OtherRules} (g : list Z) (ix : index) (block : CBlock) (nHeight : Z) (isVerifyDB : bool) : Prop := {
  bv_root : BlockMerkleRoot btx_hash g (vtx block) = Some (h_hashMerkleRoot (blk_header block), false);
  bv_size : exists size, block_GetSerializeSize PROTOCOL_VERSION block = Some size /\ size <= MAX_BLOCK_BASE_SIZE /\ len (vtx block) <= MAX_BLOCK_BASE_SIZE;
  bv_coinbase : exists t ts, vtx block = t :: ts /\ IsCoinBase (btx t) = true /\ Forall (fun t => IsCoinBase (btx t) = false) ts;
  bv_locks : Forall (fun t => lock_conflict t = false) (vtx block);
  bv_txs : exists n t, (if nHeight =? 2 ^ 31 - 1 then ZerocoinGetNHeight ix (blk_header block) else Some nHeight) = Some n /\ head (vtx block) = Some t /\
    CheckZerocoinFoundersInputs (btx t) n = pass tt /\
    Forall (fun t => exists info, CheckTransaction (btx t) (btx_hash t) isVerifyDB n false false None = pass info) (vtx block);
  bv_sigops : u32 (foldl (fun n t => u32 (n + GetLegacySigOpCount (btx t))) 0 (vtx block) * WITNESS_SCALE_FACTOR) <= MAX_BLOCK_SIGOPS_COST;
}.

Lemma check_merkle_root_passes g block :
  check_merkle_root g block = pass tt <-> BlockMerkleRoot btx_hash g (vtx block) = Some (h_hashMerkleRoot (blk_header block), false).
Proof.
  unfold check_merkle_root. destruct (BlockMerkleRoot btx_hash g (vtx block)) as [[root mutated]|]; cbn [must obnd]; [| by split].
  case_bool_decide as E; cbn [negb]; [| split; [done | intros [= Er _]; by destruct E]].
  rewrite E. by destruct mutated; split.
Qed.

Lemma existsb_none {X} (f : X -> bool) l : existsb f l = false <-> Forall (fun x => f x = false) l.
Proof.
  induction l as [|x l IH]; [by split |]. cbn [existsb]. rewrite orb_false_iff, IH. by rewrite Forall_cons_iff.
Qed.

Lemma check_coinbases_passes block :
  check_coinbases block = pass tt <-> exists t ts, vtx block = t :: ts /\ IsCoinBase (btx t) = true /\ Forall (fun t => IsCoinBase (btx t) = false) ts.
Proof.
  unfold check_coinbases. destruct (vtx block) as [|t ts]; [split; [done | by intros (? & ? & ? & _)] |].
  destruct (IsCoinBase (btx t)) eqn:Et; cbn [negb]; [| split; [done |]; intros (t' & ts' & [= <- <-] & Ht' & _); congruence].
  destruct (existsb (fun t => IsCoinBase (btx t)) ts) eqn:Ee.
  - split; [done |]. intros (? & ? & [= <- <-] & _ & HF). apply existsb_none in HF. congruence.
  - split; [| done]. intros _. exists t, ts. split_and!; [done | done | by apply existsb_none].
Qed.

Lemma check_transactions_passes `{Abi} `{OtherRules} ts v n :
  check_transactions ts v n = pass tt <-> Forall (fun t => exists info, CheckTransaction (btx t) (btx_hash t) v n false false None = pass info) ts.
Proof.
  induction ts as [|t ts IH]; [by split |]. cbn [check_transactions]. rewrite Forall_cons_iff, <- IH. split.
  - intros (i & E & E2)%vbnd_pass. split; [by exists i | done].
  - intros [[i ->] E]. exact E.
Qed.

(** The body of [CheckBlock] passes these blocks and no others. *)
Lemma block_rules_decides `{Abi} `{OtherRules} g ix block n v : block_rules g ix block true n v = pass tt <-> block_valid g ix block n v.
Proof.
  unfold block_rules. split.
  - intros ([] & EM & (size & Es%must_ret & E)%obnd_ret)%vbnd_pass. destruct (_ || _) eqn:EB; [done |].
    rewrite !orb_false_iff, !Z.ltb_ge in EB. destruct EB as [[_ EB1] EB2]. apply vbnd_pass in E as ([] & EC & E). destruct (existsb lock_conflict _) eqn:EL; [done |].
    apply obnd_ret in E as (n' & En & (cb & Ecb%must_ret & ([] & EF & ([] & ET & E)%vbnd_pass)%vbnd_pass)%obnd_ret).
    split; [by apply check_merkle_root_passes | by exists size | by apply check_coinbases_passes | by apply existsb_none | | ].
    + exists n', cb. split_and!; [by destruct (n =? 2 ^ 31 - 1); [apply must_ret | injection En as ->] | done | done | by apply check_transactions_passes].
    + destruct (Z.ltb_spec MAX_BLOCK_SIGOPS_COST (u32 (foldl (fun n t => u32 (n + GetLegacySigOpCount (btx t))) 0 (vtx block) * WITNESS_SCALE_FACTOR))); [done | lia].
  - intros [H1 (size & Es & H2 & H3) H4 H5 (n' & cb & En & Ecb & EF & ET) H6]. rewrite (proj2 (check_merkle_root_passes g block) H1). cbn [vbnd pass obnd].
    rewrite Es. cbn [must obnd]. rewrite (proj2 (Z.ltb_ge _ _) H3), (proj2 (Z.ltb_ge _ _) H2). rewrite (proj2 (check_coinbases_passes block) H4).
    destruct (Z.eqb_spec (len (vtx block)) 0) as [E0|_]; [by rewrite (nil_length_inv _ (Nat2Z.inj _ 0 E0)) in Ecb |]. cbn [orb vbnd pass obnd].
    rewrite (proj2 (existsb_none _ _) H5), Ecb. assert ((if n =? 2 ^ 31 - 1 then must (ZerocoinGetNHeight ix (blk_header block)) else Ret n) = Ret n') as ->.
    { destruct (n =? 2 ^ 31 - 1); [by rewrite En | by injection En as ->]. }
    cbn [must obnd]. rewrite EF. cbn [vbnd pass obnd]. rewrite (proj2 (check_transactions_passes _ _ _) ET). cbn [vbnd pass obnd]. by rewrite (proj2 (Z.ltb_ge _ _) H6).
Qed.

Lemma block_valid_checked `{Abi} `{OtherRules} g ix block n v : block_valid g ix block n v -> block_checked block.
Proof.
  intros [_ _ H3 _ (n' & t & _ & _ & _ & HT) _]. split; [done |]. by apply check_transactions_passes, check_transactions_checked in HT.
Qed.

#[local] Opaque pow_hash header_digest.

(** Once the header has passed, the rest decides; the mark is set when the rules are met. *)
Lemma CheckBlock_runs `{Abi} `{OtherRules} g a params ix block n v m h :
  header_ok (blk_header block) -> ZerocoinGetNHeight ix (blk_header block) = Some h ->
  exists ok m', (ok = true <-> header_work a (cp_fTestNet params) ix (blk_header block) (cp_powLimit params) m) /\
    CheckBlock g a params ix block true true n v false m =
      if negb ok then Ret (inl (mkReject 50 REJECT_INVALID "high-hash"), (m', false))
      else let* r := catch_all (block_rules g ix block true n v) in
        match r with
        | inl e => Ret (inl e, (m', false))
        | inr _ => let* r := catch_all (CheckSigmaBlock block) in Ret (r, (m', true))
        end.
Proof.
  intros Hb Hh. destruct (CheckBlockHeader_work a (cp_fTestNet params) ix (blk_header block) h (cp_powLimit params) m Hb Hh) as (ok & m' & E & Hok).
  exists ok, m'. split; [done |]. unfold CheckBlock. by rewrite E.
Qed.

Lemma catch_pass {X} (o : verdict X) x : catch_all o = pass x <-> o = pass x.
Proof. destruct o; by cbn. Qed.

(** A call that sets the mark has found the header and the rules in order. *)
Lemma CheckBlock_marks `{Abi} `{OtherRules} g a params ix block n v m r m' :
  CheckBlock g a params ix block true true n v false m = Ret (r, (m', true)) ->
  block_valid g ix block n v /\ (r = inr tt -> CheckSigmaBlock block = pass tt) /\
  (header_ok (blk_header block) -> header_work a (cp_fTestNet params) ix (blk_header block) (cp_powLimit params) m).
Proof.
  unfold CheckBlock. intros ([ok m1] & EH%must_ret & E)%obnd_ret. destruct ok; cbn [negb] in E; [| done].
  apply obnd_ret in E as (r1 & ER & E). destruct r1 as [e|[]]; [done |]. apply obnd_ret in E as (r2 & ES & [= <- <-]). split_and!.
  - by apply block_rules_decides, catch_pass.
  - intros ->. by apply catch_pass.
  - intros Hb. destruct (ZerocoinGetNHeight ix (blk_header block)) as [h|] eqn:Eh; [| by unfold CheckBlockHeader in EH; rewrite Eh in EH].
    destruct (CheckBlockHeader_work a (cp_fTestNet params) ix (blk_header block) h (cp_powLimit params) m Hb Eh) as (ok & m'' & E2 & Hok).
    rewrite E2 in EH. injection EH as -> ->. by apply Hok.
Qed.

Lemma CheckBlock_passed `{Abi} `{OtherRules} g a params ix block n v m r mc :
  CheckBlock g a params ix block true true n v false m = Ret (inr r, mc) -> mc.2 = true /\ r = tt.
Proof.
  unfold CheckBlock. intros ([ok m1] & _ & E)%obnd_ret. destruct ok; cbn [negb] in E; [| done].
  apply obnd_ret in E as (r1 & _ & E). destruct r1 as [e|[]]; [done |]. apply obnd_ret in E as (r2 & _ & [= -> <-]). by destruct r.
Qed.

(** What is known of a block that [CheckBlock] has let through: [a], [ix0], [n], [v] and [m] are
    those of the call that checked it. *)
Record block_accepted `{Abi} `{OtherRules} (g : list Z) (params : ChainParams) (block : CBlock) (a : allocs) (ix : index) (n : Z) (v : bool) (m : pow_cache) : Prop := {
  ba_work : header_work a (cp_fTestNet params) ix (blk_header block) (cp_powLimit params) m;
  ba_valid : block_valid g ix block n v;
}.

(** A mark comes from an earlier call of [CheckBlock] on the block, whatever that call answered. *)
Definition marked_block `{Abi} `{OtherRules} (g : list Z) (params : ChainParams) (block : CBlock) : Prop :=
  exists a ix n v m r m', CheckBlock g a params ix block true true n v false m = Ret (r, (m', true)).

Lemma CheckBlock_accepted `{Abi} `{OtherRules} g a params ix block n fChecked m r mc :
  header_ok (blk_header block) -> (fChecked = true -> marked_block g params block) ->
  CheckBlock g a params ix block true true n false fChecked m = Ret (inr r, mc) ->
  if fChecked then exists a0 ix0 n0 v0 m0, block_accepted g params block a0 ix0 n0 v0 m0
  else block_accepted g params block a ix n false m /\ CheckSigmaBlock block = pass tt.
Proof.
  intros Hb Hmark E. destruct fChecked.
  - destruct (Hmark eq_refl) as (a0 & ix0 & n0 & v0 & m0 & r0 & m' & E0). destruct (CheckBlock_marks _ _ _ _ _ _ _ _ _ _ E0) as (HV & _ & HW).
    exists a0, ix0, n0, v0, m0. split; [by apply HW | done].
  - destruct mc as [m1 fc]. destruct (CheckBlock_passed _ _ _ _ _ _ _ _ _ _ E) as [Hfc ->]. cbn in Hfc. subst fc.
    destruct (CheckBlock_marks _ _ _ _ _ _ _ _ _ _ E) as (HV & HS & HW). split; [split; [by apply HW | done] | by apply HS].
Qed.

(** ** [CheckBlock] returns *)

Lemma returns_obnd {X Y} (m : outcome X) (k : X -> outcome Y) : (exists x, m = Ret x) -> (forall x, m = Ret x -> exists y, k x = Ret y) -> exists y, obnd m k = Ret y.
Proof. intros [x E] Hk. rewrite E. by apply Hk. Qed.

Lemma returns_vbnd {X Y} (m : verdict X) (k : X -> verdict Y) : (exists r, m = Ret r) -> (forall x, exists r, k x = Ret r) -> exists r, vbnd m k = Ret r.
Proof. intros [[e|x] ->] Hk; [by eexists | apply Hk]. Qed.

Lemma returns_catch {X} (m : verdict X) : (exists r, m = Ret r) -> exists r, catch_all m = Ret r.
Proof. intros [r ->]. by exists r. Qed.

(** What is needed of the code that is not modelled: that it returns. *)
Record others_return `{OtherRules} (block : CBlock) : Prop := {
  or_founders : forall tx n, exists r, CheckZerocoinFoundersInputs tx n = Ret r;
  or_sigmatx : forall tx hash v n info, exists r, CheckSigmaTransaction tx hash v n false false info = Ret r;
  or_zctx : forall tx hash v n info, exists r, CheckZerocoinTransaction tx hash v n false false info = Ret r;
  or_sigmablock : exists r, CheckSigmaBlock block = Ret r;
  or_connectzc : forall info, exists r, ConnectBlockZC block info = Ret r;
  or_connectsigma : forall info, exists r, ConnectBlockSigma block info = Ret r;
}.

(** A transaction has no more witnesses than inputs; writing it asserts that. *)
Definition witnesses_fit (tx : CTransaction) : Prop := (length (vtxinwit tx) <= length (vin tx))%nat.

Lemma tx_size_total `{Abi} nVersion tx : witnesses_fit tx -> exists size, tx_GetSerializeSize nVersion tx = Some size.
Proof.
  intros Hw. unfold witnesses_fit in Hw. unfold tx_GetSerializeSize, SerializeTransaction. destruct (Z.ltb_spec (len (vin tx)) (len (vtxinwit tx))); [lia |]. cbv zeta.
  destruct (negb (no_witness nVersion) && negb (CTxWitness_IsNull (vtxinwit tx))) eqn:E.
  - change (negb (1 & 1 =? 0)) with true. cbv iota. apply andb_true_iff in E as [_ E%negb_true_iff]. unfold CTxWitness_write, wit_resize. rewrite take_ge by lia.
    replace (CTxWitness_IsNull _) with false by (unfold CTxWitness_IsNull in *; by rewrite forallb_app, E). rewrite !obind_Some. by eexists.
  - change (negb (0 & 1 =? 0)) with false. cbv iota. rewrite !obind_Some. by eexists.
Qed.

Lemma block_size_total `{Abi} nVersion block : Forall (fun t => witnesses_fit (btx t)) (vtx block) -> exists size, block_GetSerializeSize nVersion block = Some size.
Proof.
  intros HF. unfold block_GetSerializeSize. assert (HM : is_Some (mapM (fun t => tx_GetSerializeSize nVersion (btx t)) (vtx block))).
  { apply mapM_is_Some. eapply list.Forall_impl; [exact HF |]. intros t Ht. destruct (tx_size_total nVersion (btx t) Ht) as [size E]. by exists size. }
  destruct HM as [sizes ->]. rewrite obind_Some. by eexists.
Qed.

Lemma merkle_root_total g (ts : list block_tx) : len ts <= 2 ^ 31 -> exists r, BlockMerkleRoot btx_hash g ts = Some r.
Proof.
  intros Hl. unfold BlockMerkleRoot, ComputeMerkleRoot. destruct ts as [|t ts].
  - unfold MerkleComputation. cbn [fmap list_fmap length]. rewrite decide_True by done. rewrite obind_Some. by eexists.
  - destruct (MerkleComputation_ok zero256 (hash_pair g) (btx_hash <$> t :: ts) false 0 (u32 (-1))) as (mutated & branch & -> & _);
      [rewrite length_fmap; cbn; lia | apply small_nat; rewrite length_fmap; done | done |]. rewrite obind_Some. by eexists.
Qed.

Lemma CheckTransaction_total `{Abi} `{OtherRules} block tx hash v n : others_return block -> witnesses_fit tx -> exists r, CheckTransaction tx hash v n false false None = Ret r.
Proof.
  intros HO Hw. unfold CheckTransaction. apply returns_vbnd.
  - destruct (tx_size_total (PROTOCOL_VERSION .| SERIALIZE_TRANSACTION_NO_WITNESS) tx Hw) as [size Es].
    destruct (CheckTransaction_spec tx size Es) as [(-> & _)|[[e ->] _]]; by eexists.
  - intros _. destruct (IsCoinBase tx); [by eexists |]. apply returns_vbnd; [| intros info; apply HO].
    destruct (IsZerocoinV3SigmaTransaction tx); [apply HO | by eexists].
Qed.

Lemma block_rules_total `{Abi} `{OtherRules} g ix block n v h : others_return block -> Forall (fun t => witnesses_fit (btx t)) (vtx block) -> len (vtx block) <= 2 ^ 31 ->
  ZerocoinGetNHeight ix (blk_header block) = Some h -> exists r, block_rules g ix block true n v = Ret r.
Proof.
  intros HO HW Hl Hh. unfold block_rules. apply returns_vbnd.
  { unfold check_merkle_root. destruct (merkle_root_total g (vtx block) Hl) as [[root mutated] ->]. cbn [must obnd].
    destruct (negb _); [by eexists |]. destruct mutated; by eexists. }
  intros _. destruct (block_size_total PROTOCOL_VERSION block HW) as [size ->]. cbn [must obnd]. destruct (_ || _); [by eexists |].
  assert (HC : exists r, check_coinbases block = Ret r).
  { unfold check_coinbases. destruct (vtx block); [by eexists |]. destruct (negb _); [by eexists |]. destruct (existsb _ _); by eexists. }
  destruct HC as [[e|[]] EC]; rewrite EC; cbn [vbnd obnd]; [by eexists |]. destruct (existsb lock_conflict _); [by eexists |].
  apply returns_obnd; [destruct (n =? 2 ^ 31 - 1); [rewrite Hh |]; by eexists |]. intros n' _.
  destruct (proj1 (check_coinbases_passes block) EC) as (t & ts & Et & _). assert (Eh : head (vtx block) = Some t) by (by rewrite Et). rewrite Eh. cbn [must obnd].
  apply returns_vbnd; [apply HO |]. intros _. apply returns_vbnd; [| intros _; destruct (_ <? _); by eexists]. clear -HO HW.
  induction (vtx block) as [|x l IH]; [by eexists |]. cbn [check_transactions]. apply Forall_cons_iff in HW as [Hx HW].
  apply returns_vbnd; [by eapply CheckTransaction_total |]. intros _. by apply IH.
Qed.

Lemma CheckBlock_total `{Abi} `{OtherRules} g a params ix block n v fChecked m h : others_return block -> Forall (fun t => witnesses_fit (btx t)) (vtx block) ->
  len (vtx block) <= 2 ^ 31 -> header_ok (blk_header block) -> ZerocoinGetNHeight ix (blk_header block) = Some h ->
  exists r, CheckBlock g a params ix block true true n v fChecked m = Ret r.
Proof.
  intros HO HW Hl Hb Hh. destruct fChecked; [by eexists |]. destruct (CheckBlock_runs g a params ix block n v m h Hb Hh) as (ok & m' & _ & ->).
  destruct (negb ok); [by eexists |]. destruct (returns_catch _ (block_rules_total g ix block n v h HO HW Hl Hh)) as [[e|[]] ->]; cbn [obnd]; [by eexists |].
  destruct (returns_catch _ (or_sigmablock _ HO)) as [r ->]. by eexists.
Qed.

(** C25. [CheckBlock] decides, for a block not marked as checked and with memory for Lyra2.  It
    passes the block exactly when the Lyra2 hash of its header meets the target (or, outside
    the test network, some hash cached for its height does), its transactions are the ones
    the Merkle root of the header names and not a mutation of them, they fit in the size
    limits, the first is a coinbase and no other, none conflicts with a locked transaction,
    the founders' payment and each transaction pass their checks, the signature operations
    are below the limit, and the sigma limits hold.  Then each transaction has inputs and
    outputs, amounts and totals in range and no input twice, and the block is marked.  A
    block that is marked passes with no check at all. *)
Theorem check_block_decides {A : Abi} {R : OtherRules} g params ix block nHeight isVerifyDB m h :
  header_ok (blk_header block) -> ZerocoinGetNHeight ix (blk_header block) = Some h ->
  let target hash := CheckProofOfWork hash (h_nBits (blk_header block)) (cp_powLimit params) = true in
  let check fChecked := CheckBlock g (Allocs true true true) params ix block true true nHeight isVerifyDB fChecked m in
  ((exists m' fc, check false = Ret (inr tt, (m', fc))) <->
    (target (pow_hash (blk_header block)) \/ cp_fTestNet params = false /\ exists ph, m !! h = Some ph /\ target ph) /\
    block_valid g ix block nHeight isVerifyDB /\ CheckSigmaBlock block = pass tt) /\
  (forall m' fc, check false = Ret (inr tt, (m', fc)) -> fc = true /\ Forall (fun t => tx_checked (btx t)) (vtx block)) /\
  check true = Ret (inr tt, (m, true)).
Proof.
  intros Hb Hh target check. split_and!; [| | done].
  - destruct (CheckBlock_runs g (Allocs true true true) params ix block nHeight isVerifyDB m h Hb Hh) as (ok & m1 & Hok & E). unfold check.
    assert (HW : header_work (Allocs true true true) (cp_fTestNet params) ix (blk_header block) (cp_powLimit params) m <->
      (target (pow_hash (blk_header block)) \/ cp_fTestNet params = false /\ exists ph, m !! h = Some ph /\ target ph)).
    { unfold header_work. rewrite header_digest_all. unfold target. split; [intros (h' & Eh & HW); rewrite Hh in Eh; injection Eh as <-; exact HW |].
      intros HW. exists h. split; [exact Hh | exact HW]. }
    rewrite <- HW, <- Hok, <- block_rules_decides. clear Hok HW. split.
    + intros (m' & fc & EC). split; [| destruct (CheckBlock_passed _ _ _ _ _ _ _ _ _ _ EC) as [Hfc _]; cbn in Hfc; subst fc;
        destruct (CheckBlock_marks _ _ _ _ _ _ _ _ _ _ EC) as (HB & HS & _); split; [by apply block_rules_decides | by apply HS]].
      rewrite E in EC. by destruct ok.
    + intros (-> & ER & ES). rewrite E, ER, ES. cbn. by eexists _, _.
  - intros m' fc EC. destruct (CheckBlock_passed _ _ _ _ _ _ _ _ _ _ EC) as [Hfc _]. cbn in Hfc. subst fc. split; [done |].
    apply (block_valid_checked g ix block nHeight isVerifyDB). by destruct (CheckBlock_marks _ _ _ _ _ _ _ _ _ _ EC).
Qed.

(** C26. The mark that a block was checked is set before the sigma limits are looked at: a block
    over these limits is rejected, but when the same object is checked again it passes. *)
Theorem rejected_block_passes_again {A : Abi} {R : OtherRules} g a params ix block nHeight isVerifyDB m m' e :
  CheckBlockHeader a (cp_fTestNet params) ix (blk_header block) (cp_powLimit params) true m = Some (true, m') ->
  block_rules g ix block true nHeight isVerifyDB = pass tt -> CheckSigmaBlock block = Ret (inl e) ->
  exists fc, CheckBlock g a params ix block true true nHeight isVerifyDB false m = Ret (inl e, (m', fc)) /\
    CheckBlock g a params ix block true true nHeight isVerifyDB fc m' = Ret (inr tt, (m', fc)).
Proof. intros EH ER ES. exists true. unfold CheckBlock. rewrite EH. cbn [must obnd negb]. rewrite ER, ES. by cbn. Qed.

(** A coinbase may be a sigma spend too: its outpoint counts as a group of sigma coins and
    the opcode of a sigma spend is not excluded. *)
Example coinbase_can_be_sigma_spend :
  let tx := mkTx 1 [mkTxIn (mkOut (replicate 32 0) 4294967295) [OP_SIGMASPEND; 0] SEQUENCE_FINAL []] [mkTxOut 1000 [OP_1] (-10)] [] 0 in
  IsCoinBase tx = true /\ IsSigmaSpend tx = true.
Proof. by vm_compute. Qed.

(** ** Counting versions *)

(** The versions of the last [n] blocks. *)
Fixpoint last_versions (ix : index) (n : nat) (p : option positive) : list Z :=
  match n, p with
  | S n, Some q => match ix_heap ix !! q with Some b => nVersion b :: last_versions ix n (pprev b) | None => [] end
  | _, _ => []
  end.

Definition count_from (minVersion : Z) (vs : list Z) : Z := len (filter (fun v => minVersion <= v) vs).

Lemma majority_loop_count ix n minVersion p nRequired nFound :
  chain_wf (ix_heap ix) -> (forall q, p = Some q -> is_Some (ix_heap ix !! q)) -> 0 <= nFound -> nFound + Z.of_nat n < 2 ^ 32 ->
  exists r, majority_loop ix n minVersion p nRequired nFound = Some r /\
    (nRequired <=? r) = (nRequired <=? nFound + count_from minVersion (last_versions ix n p)).
Proof.
  intros Hwf. revert p nFound. induction n as [|n IH]; intros p nFound Hp H0 Hn; cbn [majority_loop last_versions].
  { exists nFound. split; [done |]. unfold count_from. cbn. by rewrite Z.add_0_r. }
  assert (HC : forall vs, 0 <= count_from minVersion vs) by (intros; unfold count_from; lia).
  destruct (Z.ltb_spec nFound nRequired) as [Hlt|Hge].
  - destruct p as [q|]; [| exists nFound; by rewrite Z.add_0_r]. destruct (Hp q eq_refl) as [b Hb]. rewrite Hb, obind_Some.
    assert (Hprev : forall q', pprev b = Some q' -> is_Some (ix_heap ix !! q')).
    { intros q' E. pose proof (eo_prev _ _ _ (entry _ Hwf q b Hb)) as HP. rewrite E in HP. destruct HP as (b' & ? & _). by exists b'. }
    unfold count_from. rewrite filter_cons. destruct (Z.leb_spec minVersion (nVersion b)) as [Hv|Hv].
    + rewrite decide_True by done. rewrite wrap_id by (split; lia).
      destruct (IH (pprev b) (nFound + 1) Hprev ltac:(lia) ltac:(lia)) as (r & E & Er). exists r. split; [done |]. rewrite Er. unfold count_from. cbn [length]. f_equal. lia.
    + rewrite decide_False by lia. destruct (IH (pprev b) nFound Hprev H0 ltac:(lia)) as (r & E & Er). by exists r.
  - exists nFound. split; [done |]. pose proof (HC (match p with Some q => match ix_heap ix !! q with Some b => nVersion b :: last_versions ix n (pprev b) | None => [] end | None => [] end)) as HC'.
    rewrite !(proj2 (Z.leb_le _ _)); [done | lia | lia].
Qed.

(** [IsSuperMajority], which stops as soon as it has seen enough blocks, says whether at
    least [nRequired] of the last [nMajorityWindow] blocks have the version or a later one. *)
Theorem supermajority_counts params ix minVersion p nRequired :
  chain_wf (ix_heap ix) -> (forall q, p = Some q -> is_Some (ix_heap ix !! q)) -> 0 <= nMajorityWindow params < 2 ^ 32 ->
  IsSuperMajority params ix minVersion p nRequired =
    Some (nRequired <=? count_from minVersion (last_versions ix (Z.to_nat (nMajorityWindow params)) p)).
Proof.
  intros Hwf Hp Hw. unfold IsSuperMajority.
  destruct (majority_loop_count ix (Z.to_nat (nMajorityWindow params)) minVersion p nRequired 0 Hwf Hp ltac:(lia) ltac:(lia)) as (r & -> & E).
  rewrite obind_Some, E. by rewrite Z.add_0_l.
Qed.

(** ** The witness commitment *)

Lemma commitpos_app outs o k :
  foldl (fun '(o, commitpos) (out : CTxOut) => (o + 1, if is_commitment (scriptPubKey out) then o else commitpos)) k (outs ++ [o]) =
  let '(n, c) := foldl (fun '(o, commitpos) (out : CTxOut) => (o + 1, if is_commitment (scriptPubKey out) then o else commitpos)) k outs in
  (n + 1, if is_commitment (scriptPubKey o) then n else c).
Proof. rewrite foldl_app. cbn [foldl]. by destruct (foldl _ k outs). Qed.

Lemma commitpos_count outs : forall k c,
  (foldl (fun '(o, commitpos) (out : CTxOut) => (o + 1, if is_commitment (scriptPubKey out) then o else commitpos)) (k, c) outs).1 = k + len outs.
Proof. induction outs as [|o outs IH]; intros k c; [cbn; lia |]. cbn [foldl length]. rewrite IH. lia. Qed.

(** A commitment at the end is the one that counts. *)
Lemma commitment_last outs o : is_commitment (scriptPubKey o) = true -> GetWitnessCommitmentIndex (outs ++ [o]) = len outs.
Proof.
  intros Ho. unfold GetWitnessCommitmentIndex. rewrite commitpos_app. pose proof (commitpos_count outs 0 (-1)) as HC.
  destruct (foldl _ (0, -1) outs) as [n c]. cbn [fst snd] in *. rewrite Ho. lia.
Qed.

Lemma is_commitment_header root : length root = 32%nat -> is_commitment (commitment_header ++ root) = true.
Proof.
  intros Hr. unfold is_commitment. rewrite length_app, Hr. change (length commitment_header) with 6%nat. cbn [Z.leb Nat.add].
  rewrite take_app_length' by done. by rewrite bool_decide_eq_true_2.
Qed.

Lemma mapM_id {X} (l : list X) : mapM Some l = Some l.
Proof. induction l as [|x l IH]; [done |]. cbn. by rewrite IH. Qed.

Lemma root_of_wf fuel l : Forall blob256 l -> blob256 (root_of zero256 dpair fuel l).
Proof.
  revert l. induction fuel as [|fuel IH]; intros [|x [|y l]] Hl; cbn [root_of]; try apply zero256_blob;
    try by apply Forall_cons_iff in Hl as [? _].
  apply IH. by apply (pair_up_wf dpair blob256 dpair_blob).
Qed.

Lemma Hash_pair g a b : length g = 64%nat -> blob256 a -> blob256 b -> Hash g [a; b] = Some (dpair a b).
Proof.
  intros Hg [La Ha] [Lb Hb]. unfold Hash.
  rewrite (sh_run_ok (H := CHash256) (digest := dsha256)); cbn [concat]; rewrite ?app_nil_r; try done.
  - by apply Forall_app_2.
  - rewrite length_app. lia.
Qed.

(** The hashes of the witnesses of the transactions after the coinbase. *)
Definition witness_hashes (A : Abi) (g : list Z) (block : CBlock) (ws : list (list Z)) : Prop :=
  mapM (fun t => GetWitnessHash g (btx t)) (tail (vtx block)) = Some ws /\ Forall blob256 ws.

Lemma witness_hash_some {A : Abi} g block ws nonce :
  length g = 64%nat -> vtx block <> [] -> len (vtx block) <= 2 ^ 31 -> witness_hashes A g block ws -> blob256 nonce ->
  exists root, witness_hash g block nonce = Some root /\ blob256 root.
Proof.
  intros Hg Hne Hl [HM Hws] Hn. unfold witness_hash. rewrite HM, obind_Some. destruct (vtx block) as [|t ts]; [done |]. cbn [tail] in HM.
  apply length_mapM in HM. cbn [length] in Hl. unfold BlockWitnessMerkleRoot.
  destruct (root_run g (zero256 :: (id <$> ws))) as (mut & E & _); [done | | cbn; lia | cbn [length]; rewrite length_fmap; lia |].
  { constructor; [apply zero256_blob |]. by rewrite list_fmap_id. }
  rewrite E, obind_Some.
  assert (HR : blob256 (merkle_root zero256 dpair (zero256 :: (id <$> ws)))).
  { apply root_of_wf. constructor; [apply zero256_blob |]. by rewrite list_fmap_id. }
  exists (dpair (merkle_root zero256 dpair (zero256 :: (id <$> ws))) nonce). split; [| by apply dpair_blob].
  by apply Hash_pair.
Qed.

(** The id of a transaction without witnesses exists. *)
Lemma CTxIn_piece {A : Abi} {HA : AbiOk A} i : CTxIn_wf i -> piece (2 ^ 26) (Serialize CTxIn_ser i).
Proof.
  intros Hi. pose proof Hi as (Ho & [Hl _] & _ & _). split; [by apply (ser_octets (c := CTxIn_ser)) |]. unfold MAX_SIZE in Hl.
  cbn [Serialize CTxIn_ser byte_vector]. rewrite !length_app. destruct (COutPoint_piece _ Ho) as [_ H1], (uint32_piece (nSequence i)) as [_ H2].
  destruct (CompactSize_piece (len (scriptSig i)) ltac:(lia)) as [_ H3]. lia.
Qed.

Lemma GetHash_total {A : Abi} {HA : AbiOk A} g ver vi vo lock :
  length g = 64%nat -> vector_wf CTxIn_wf vi -> vector_wf CTxOut_wf vo -> exists h, Transaction.GetHash g (mkTx ver vi vo [] lock) = Some h.
Proof.
  intros Hg [Hli Hi] [Hlo Ho]. unfold Transaction.GetHash, tx_SerializeHash. rewrite SerializeTransaction_basic, obind_Some.
  set (b := _ ++ _). destruct (hash_piece g Hg (2 ^ 60) [b]) as [E _]; [| done |].
  - subst b. cbn [concat]. rewrite app_nil_r. eapply piece_le.
    + apply piece_app; [apply int32_piece |]. apply piece_app; [apply piece_app; [apply CompactSize_piece; lia | apply (fmap_piece _ _ (2 ^ 26)); [| done | done]] |].
      * eapply list.Forall_impl; [exact Hi |]. apply CTxIn_piece.
      * apply piece_app; [apply piece_app; [apply CompactSize_piece; lia | apply (fmap_piece _ _ (2 ^ 27)); [| done | done]] | apply uint32_piece].
        eapply list.Forall_impl; [exact Ho |]. apply CTxOut_piece.
    + lia.
  - unfold hash_chunks in E. eexists. exact E.
Qed.

(** C24. [GenerateCoinbaseCommitment] makes what [ContextualCheckBlock] asks for: when witnesses
    are enabled and the coinbase has neither commitment nor witness, it adds one output with
    the commitment to the witnesses of all other transactions and the witness nonce, and the
    resulting block passes the check of the commitment. *)
Theorem generated_commitment_accepted (A : Abi) (HA : AbiOk A) g params ix block cb ts ws d pindexPrev caches caches' :
  length g = 64%nat -> vtx block = cb :: ts -> tx_wf (btx cb) -> vtxinwit (btx cb) = [] ->
  GetWitnessCommitmentIndex (vout (btx cb)) = -1 -> len (vout (btx cb)) < MAX_SIZE -> len (vtx block) <= 2 ^ 31 ->
  witness_hashes A g block ws ->
  vDeployments (cp_versionbits params) !! DEPLOYMENT_SEGWIT = Some d -> d_nTimeout d <> 0 ->
  IsWitnessEnabled params ix pindexPrev caches = Ret (true, caches') ->
  exists commitment block' cb', GenerateCoinbaseCommitment g params ix block pindexPrev caches = Ret (commitment, block', caches') /\
    vtx block' = cb' :: ts /\ vout (btx cb') = vout (btx cb) ++ [mkTxOut 0 commitment (-10)] /\
    check_commitment g block' = pass true.
Proof.
  intros Hg Ev Hw Hwit Hpos Hlo Hl HW Ed Hd HE.
  assert (Hnonce : blob256 (replicate 32 0)) by (apply zero256_blob).
  destruct (witness_hash_some g block ws (replicate 32 0) Hg ltac:(by rewrite Ev) Hl HW Hnonce) as (root & Er & [Hrl Hro]).
  pose proof (is_commitment_header root Hrl) as Hic.
  set (commitment := commitment_header ++ root) in *. set (o := mkTxOut 0 commitment (-10)).
  destruct cb as [cb hcb]. cbn [btx] in *. destruct Hw as [Hver Hin [_ Hout] _ Hlock].
  destruct (GetHash_total g (tx_nVersion cb) (vin cb) (vout cb ++ [o]) (nLockTime cb) Hg Hin) as [h Eh].
  { split; [rewrite length_app; cbn [length]; lia |]. apply Forall_app. split; [done |]. constructor; [| constructor].
    subst o commitment. split_and!; [done | | done]. cbn [scriptPubKey]. split; [rewrite length_app, Hrl; done |].
    apply Forall_app. split; [by repeat constructor | done]. }
  assert (Eh' : Transaction.GetHash g (push_out o cb) = Some h) by (unfold push_out; by rewrite Hwit).
  exists commitment, (mkBlock (blk_header block) (mkBtx (set_wit [[replicate 32 0]] (push_out o cb)) h :: ts)), (mkBtx (set_wit [[replicate 32 0]] (push_out o cb)) h).
  pose proof (commitment_last (vout cb) o Hic) as Hlast.
  split_and!; [| done | done |].
  - unfold GenerateCoinbaseCommitment. rewrite Ev. cbn [head must obnd btx]. rewrite Ed. cbn [must obnd]. rewrite Hpos.
    rewrite (proj2 (Z.eqb_neq _ _) Hd). change (-1 =? -1) with true. cbn [negb andb].
    rewrite Er. cbn [must obnd]. unfold set_coinbase. rewrite Ev. cbn [btx]. fold commitment. fold o.
    rewrite Eh', obind_Some. cbn [must obnd].
    unfold UpdateUncommittedBlockStructures. cbn [vtx head must obnd btx push_out vout]. rewrite Hlast.
    rewrite (proj2 (Z.eqb_neq _ _)) by lia. rewrite HE. cbn [obnd andb].
    replace (vtxinwit (push_out o cb)) with (vtxinwit cb) by done. by rewrite Hwit.
  - unfold check_commitment. cbn [vtx head must obnd btx set_wit push_out vout vtxinwit]. rewrite Hlast.
    rewrite (proj2 (Z.eqb_neq _ _)) by lia. change (len (replicate 32 0) =? 32) with true. cbn [negb].
    replace (witness_hash g _ (replicate 32 0)) with (Some root).
    2: { rewrite <- Er. unfold witness_hash. cbn [vtx tail]. by rewrite Ev. }
    cbn [must obnd]. rewrite Nat2Z.id, list_lookup_middle by done. cbn [must obnd scriptPubKey o].
    unfold commitment. rewrite drop_app_length' by done. rewrite take_ge by lia. by rewrite bool_decide_eq_true_2.
Qed.

(** Five blocks that signal for segwit, with periods of one block. *)
Module Signal.
Definition entry (hash : Z) (prev : option positive) (height : Z) : CBlockIndex :=
  mkIndex (replicate 32 hash) prev None height (ArithUint.arith_uint256_of (2 * height + 2)) 2 0x20000002 (replicate 32 0) (1500000000 + 600 * height) 0x207fffff 0 0.
Definition ix : index := mkIdx
  (<[1%positive := entry 1 None 0]> (<[2%positive := entry 2 (Some 1%positive) 1]> (<[3%positive := entry 3 (Some 2%positive) 2]>
    (<[4%positive := entry 4 (Some 3%positive) 3]> (<[5%positive := entry 5 (Some 4%positive) 4]> ∅))))) ∅ (Some 5%positive) ∅.
Definition segwit : BIP9Deployment := mkDeployment 1 1462060800 1893456000.
Definition params : ChainParams := mkChainParams (replicate 32 1) (replicate 8 0) 100 51
  (mkParams 1 1 [mkDeployment 28 1199145601 1230767999; mkDeployment 0 1462060800 1493596800; segwit]) false.
Definition coinbase : CTransaction :=
  mkTx 1 [mkTxIn (mkOut (replicate 32 0) 4294967295) [OP_1; OP_1] SEQUENCE_FINAL []] [mkTxOut 1000 [OP_1] (-10)] [] 0.
Definition spend : CTransaction :=
  mkTx 1 [mkTxIn (mkOut (replicate 32 7) 0) [] SEQUENCE_FINAL []] [mkTxOut 4000 [OP_1] (-10)] [[[1; 2; 3]]] 0.
Definition block : CBlock := mkBlock (mkHeader 0x20000002 (replicate 32 5) (replicate 32 0) 1500003000 0x207fffff 0)
  [mkBtx coinbase (replicate 32 8); mkBtx spend (replicate 32 9)].
Definition g : list Z := replicate 64 0.
Definition ws : list (list Z) := default [] (mapM (fun t => @GetWitnessHash sample_abi g (btx t)) (tail (vtx block))).

Lemma witnesses : @witness_hashes sample_abi g block ws.
Proof.
  assert (E : exists w, @GetWitnessHash sample_abi g spend = Some w /\ blob256 w).
  { destruct (@GetWitnessHash sample_abi g spend) as [w|] eqn:E; [| by vm_compute in E]. exists w. split; [done |]. vm_compute in E. injection E as <-.
    split; [done |]. by repeat constructor. }
  destruct E as (w & E & Hw). assert (EM : mapM (fun t => @GetWitnessHash sample_abi g (btx t)) (tail (vtx block)) = Some [w]) by (change (tail (vtx block)) with [mkBtx spend (replicate 32 9)]; unfold mapM; cbn [btx]; by rewrite E).
  unfold witness_hashes, ws. rewrite EM. split; [done |]. constructor; [exact Hw | constructor].
Qed.
End Signal.

Lemma generated_commitment_accepted_witness : exists commitment block' caches',
  @GenerateCoinbaseCommitment sample_abi Signal.g Signal.params Signal.ix Signal.block (Some 5%positive) [∅; ∅; ∅] = Ret (commitment, block', caches') /\
  @check_commitment sample_abi Signal.g block' = pass true.
Proof.
  assert (EW : exists caches', IsWitnessEnabled Signal.params Signal.ix (Some 5%positive) [∅; ∅; ∅] = Ret (true, caches')).
  { destruct (IsWitnessEnabled Signal.params Signal.ix (Some 5%positive) [∅; ∅; ∅]) as [[[|] c]| | |] eqn:E; [by exists c | | | |];
      apply (f_equal (fun o => match o with Ret (true, _) => true | _ => false end)) in E; vm_compute in E; discriminate E. }
  destruct EW as [caches' EW].
  destruct (generated_commitment_accepted sample_abi _ Signal.g Signal.params Signal.ix Signal.block (mkBtx Signal.coinbase (replicate 32 8))
    [mkBtx Signal.spend (replicate 32 9)] Signal.ws Signal.segwit (Some 5%positive) [∅; ∅; ∅] caches') as (commitment & block' & cb' & E & _ & _ & EC);
    [reflexivity | reflexivity | by repeat first [done | constructor] | reflexivity | by vm_compute | done | done | exact Signal.witnesses | reflexivity | done | exact EW |].
  exists commitment, block', caches'. exact (conj E EC).
Defined.

(** A block with a coinbase alone; the cache knows a hash for its height. *)
Module Lone.
Definition rules (sigma : verdict unit) : OtherRules := {|
  tx_info := unit; new_info := tt;
  CheckSigmaTransaction _ _ _ _ _ _ info := pass info;
  CheckZerocoinTransaction _ _ _ _ _ _ info := pass info;
  CheckZerocoinFoundersInputs _ _ := pass tt;
  CheckSigmaBlock _ := sigma;
  GetLockedOutPointTxHash _ := None;
  GetSigmaSpendInput _ := 0;
  IsBlockValueValid _ _ _ := true;
  IsBlockPayeeValid _ _ _ := true;
  ConnectBlockZC _ _ := pass tt;
  ConnectBlockSigma _ _ := pass tt |}.
Definition block : CBlock := mkBlock (mkHeader 2 (replicate 32 0) (replicate 32 8) 1500003000 0x1d00ffff 0) [mkBtx Signal.coinbase (replicate 32 8)].
Definition params : ChainParams := mkChainParams (replicate 32 1) toy_limit 100 51 (cp_versionbits Signal.params) false.
Definition check (sigma : verdict unit) (fChecked : bool) := @CheckBlock sample_abi (rules sigma) Signal.g (Allocs true true true) params empty_index block
  true true 0 false fChecked {[ 0 := replicate 32 0 ]}.
End Lone.

Lemma check_block_decides_witness : exists m' fc, Lone.check (pass tt) false = Ret (inr tt, (m', fc)) /\
  block_valid (H0 := Lone.rules (pass tt)) (H := sample_abi) Signal.g empty_index Lone.block 0 false /\ fc = true.
Proof.
  destruct (@check_block_decides sample_abi (Lone.rules (pass tt)) Signal.g Lone.params empty_index Lone.block 0 false {[ 0 := replicate 32 0 ]} 0)
    as ([HD _] & HT & _); [by repeat first [done | constructor] | reflexivity |].
  destruct (Lone.check (pass tt) false) as [[[e|[]] [m' fc]]| | |] eqn:E.
  2: { exists m', fc. split; [reflexivity |]. destruct HD as (_ & HB & _); [by exists m', fc |]. split; [exact HB | exact (proj1 (HT m' fc E))]. }
  all: apply (f_equal (fun o => match o with Ret (inr _, _) => true | _ => false end)) in E; vm_compute in E; discriminate E.
Defined.

Lemma rejected_block_passes_again_witness : exists fc,
  Lone.check (DoS 100 REJECT_INVALID "bad-txns-sigma") false = Ret (inl (mkReject 100 REJECT_INVALID "bad-txns-sigma"), ({[ 0 := replicate 32 0 ]}, fc)) /\
  Lone.check (DoS 100 REJECT_INVALID "bad-txns-sigma") fc = Ret (inr tt, ({[ 0 := replicate 32 0 ]}, fc)).
Proof.
  apply (@rejected_block_passes_again sample_abi (Lone.rules (DoS 100 REJECT_INVALID "bad-txns-sigma")));
    [vm_compute; reflexivity | vm_compute; reflexivity | reflexivity].
Defined.

Lemma supermajority_counts_witness : IsSuperMajority Signal.params Signal.ix 2 (Some 5%positive) 5 = Some true.
Proof.
  rewrite (supermajority_counts Signal.params Signal.ix 2 (Some 5%positive) 5); [reflexivity | | intros q [= <-]; by eexists | done].
  intros p b H. cbn [Signal.ix ix_heap] in H.
  do 5 (apply lookup_insert_Some in H as [[<- <-]|[_ H]]; [split; [done | by try eexists | done] |]). by rewrite lookup_empty in H.
Defined.
