(* ===== verification/Connect.v ===== *)
(** * Connecting and disconnecting blocks: CheckInputs, ConnectBlock, DisconnectBlock,
    ConnectTip and DisconnectTip of main.cpp

    The state is the view of the coins, the active chain and the caches that live beside it.
    Mempool, wallet and zerocoin updates of the tip functions, disk writes and
    notifications are not represented. *)

From stdpp Require Import gmap.
From Stdlib Require Import String.
From S2P Require Import Prelude Lyra2 MdHash Hash BlockIndex VersionBits BlockPow Script Interpreter Serialize Transaction SigHash Compressor Coins TxVerify SeqLocks Block.
#[local] Open Scope verdict_scope.
#[local] Open Scope string_scope.
#[local] Open Scope Z_scope.

(** ** The reward *)

(** The products with a [double] are exact. *)
Definition GetBlockSubsidy (nHeight : Z) : Z :=
  if nHeight =? 0 then 0
  else if nHeight =? 1 then 996714 * COIN
  else if nHeight <=? 8064 then 1 * COIN
  else if nHeight <=? 12096 then 3125 * COIN / 1000
  else if nHeight <=? 16128 then 625 * COIN / 100
  else if nHeight <=? 24191 then 125 * COIN / 10
  else if nHeight <=? 48383 then 625 * COIN / 100
  else if nHeight <=? 72575 then 3125 * COIN / 1000
  else if nHeight <=? 96767 then 15625 * COIN / 10000
  else if nHeight <=? 222664 then 1 * COIN
  else if nHeight <=? 485819 then 2 * COIN
  else 9 * COIN.

(** ** Script errors (script/script_error.cpp) *)

Definition ScriptErrorString (serror : ScriptError) : string :=
  match serror with
  | SCRIPT_ERR_OK => "No error"
  | SCRIPT_ERR_EVAL_FALSE => "Script evaluated without error but finished with a false/empty top stack element"
  | SCRIPT_ERR_VERIFY => "Script failed an OP_VERIFY operation"
  | SCRIPT_ERR_EQUALVERIFY => "Script failed an OP_EQUALVERIFY operation"
  | SCRIPT_ERR_CHECKMULTISIGVERIFY => "Script failed an OP_CHECKMULTISIGVERIFY operation"
  | SCRIPT_ERR_CHECKSIGVERIFY => "Script failed an OP_CHECKSIGVERIFY operation"
  | SCRIPT_ERR_NUMEQUALVERIFY => "Script failed an OP_NUMEQUALVERIFY operation"
  | SCRIPT_ERR_SCRIPT_SIZE => "Script is too big"
  | SCRIPT_ERR_PUSH_SIZE => "Push value size limit exceeded"
  | SCRIPT_ERR_OP_COUNT => "Operation limit exceeded"
  | SCRIPT_ERR_STACK_SIZE => "Stack size limit exceeded"
  | SCRIPT_ERR_SIG_COUNT => "Signature count negative or greater than pubkey count"
  | SCRIPT_ERR_PUBKEY_COUNT => "Pubkey count negative or limit exceeded"
  | SCRIPT_ERR_BAD_OPCODE => "Opcode missing or not understood"
  | SCRIPT_ERR_DISABLED_OPCODE => "Attempted to use a disabled opcode"
  | SCRIPT_ERR_INVALID_STACK_OPERATION => "Operation not valid with the current stack size"
  | SCRIPT_ERR_INVALID_ALTSTACK_OPERATION => "Operation not valid with the current altstack size"
  | SCRIPT_ERR_OP_RETURN => "OP_RETURN was encountered"
  | SCRIPT_ERR_UNBALANCED_CONDITIONAL => "Invalid OP_IF construction"
  | SCRIPT_ERR_NEGATIVE_LOCKTIME => "Negative locktime"
  | SCRIPT_ERR_UNSATISFIED_LOCKTIME => "Locktime requirement not satisfied"
  | SCRIPT_ERR_SIG_HASHTYPE => "Signature hash type missing or not understood"
  | SCRIPT_ERR_SIG_DER => "Non-canonical DER signature"
  | SCRIPT_ERR_MINIMALDATA => "Data push larger than necessary"
  | SCRIPT_ERR_SIG_PUSHONLY => "Only non-push operators allowed in signatures"
  | SCRIPT_ERR_SIG_HIGH_S => "Non-canonical signature: S value is unnecessarily high"
  | SCRIPT_ERR_SIG_NULLDUMMY => "Dummy CHECKMULTISIG argument must be zero"
  | SCRIPT_ERR_MINIMALIF => "OP_IF/NOTIF argument must be minimal"
  | SCRIPT_ERR_SIG_NULLFAIL => "Signature must be zero for failed CHECK(MULTI)SIG operation"
  | SCRIPT_ERR_DISCOURAGE_UPGRADABLE_NOPS => "NOPx reserved for soft-fork upgrades"
  | SCRIPT_ERR_DISCOURAGE_UPGRADABLE_WITNESS_PROGRAM => "Witness version reserved for soft-fork upgrades"
  | SCRIPT_ERR_PUBKEYTYPE => "Public key is neither compressed or uncompressed"
  | SCRIPT_ERR_WITNESS_PROGRAM_WRONG_LENGTH => "Witness program has incorrect length"
  | SCRIPT_ERR_WITNESS_PROGRAM_WITNESS_EMPTY => "Witness program was passed an empty witness"
  | SCRIPT_ERR_WITNESS_PROGRAM_MISMATCH => "Witness program hash mismatch"
  | SCRIPT_ERR_WITNESS_MALLEATED => "Witness requires empty scriptSig"
  | SCRIPT_ERR_WITNESS_MALLEATED_P2SH => "Witness requires only-redeemscript scriptSig"
  | SCRIPT_ERR_WITNESS_UNEXPECTED => "Witness provided for non-witness script"
  | SCRIPT_ERR_WITNESS_PUBKEYTYPE => "Using non-compressed keys in segwit"
  | SCRIPT_ERR_UNKNOWN_ERROR | SCRIPT_ERR_CLEANSTACK => "unknown error"
  end.

(** ** Script checks (main.h) *)

Record CScriptCheck := mkCheck {
  ck_scriptPubKey : list Z;
  ck_amount : Z;
  ck_txTo : CTransaction;
  ck_nIn : nat;
  ck_nFlags : Z;
  ck_txdata : PrecomputedTransactionData;
}.

Section Connect.
Context `{Abi} `{OtherRules}.
Context (g g' : list Z) (Verify : list Z -> list Z -> list Z -> bool) (LowS : list Z -> bool).
Context (a : allocs) (params : ChainParams) (ix : index).
Context {V : Type} {HV : CCoinsView V}.
Implicit Types view inputs : CCoinsViewCache V.

(** [operator()]: the script error, if any.  The cache of signatures is not represented. *)
Definition CScriptCheck_run (ck : CScriptCheck) : outcome (option ScriptError) :=
  let* i := must (vin (ck_txTo ck) !! ck_nIn ck) in
  let witness := @rev _ <$> vtxinwit (ck_txTo ck) !! ck_nIn ck in
  match @VerifyScript (TransactionSignatureChecker g Verify LowS (ck_txTo ck) (Z.of_nat (ck_nIn ck)) (ck_amount ck) (Some (ck_txdata ck)))
          g g' (scriptSig i) (ck_scriptPubKey ck) witness (ck_nFlags ck) with
  | Ret _ => Ret None
  | Fail e => Ret (Some e)
  | Throw x => Throw x
  | Stuck => Stuck
  end.

(** The loop over the inputs, from input [nIn]: with [pvChecks] the checks are left to the
    caller. *)
Fixpoint check_scripts (tx : CTransaction) (ins : list CTxIn) (nIn : nat) (flags : Z) (txdata : PrecomputedTransactionData)
    (pvChecks : bool) inputs : verdict (list CScriptCheck * CCoinsViewCache V) :=
  match ins with
  | [] => pass ([], inputs)
  | i :: ins =>
      let '(coins, inputs) := AccessCoins inputs (out_hash (prevout i)) in
      let* coins := must coins in
      let* o := must (c_vout coins !! Z.to_nat (out_n (prevout i))) in
      let check f := mkCheck (scriptPubKey o) (nValue o) tx nIn f txdata in
      if pvChecks then
        let! (checks, inputs) := check_scripts tx ins (S nIn) flags txdata pvChecks inputs in
        pass (check flags :: checks, inputs)
      else
        let* r := CScriptCheck_run (check flags) in
        match r with
        | None => check_scripts tx ins (S nIn) flags txdata pvChecks inputs
        | Some e =>
            let* r2 := (if has flags SCRIPT_VERIFY_STRICTENC
                        then CScriptCheck_run (check (Z.ldiff flags SCRIPT_VERIFY_STRICTENC)) else Ret (Some e)) in
            match r2 with
            | None => Invalid REJECT_NONSTANDARD ("non-mandatory-script-verify-flag (" ++ ScriptErrorString e ++ ")")
            | Some _ => DoS 100 REJECT_INVALID ("mandatory-script-verify-flag-failed (" ++ ScriptErrorString e ++ ")")
            end
        end
  end.

Definition GetSpendHeight inputs : outcome (Z * CCoinsViewCache V) :=
  let '(hash, inputs) := cache_GetBestBlock inputs in
  let* pindexPrev := must (mapBlockIndex ix !! hash) in
  let* b := must (ix_heap ix !! pindexPrev) in
  let* h := int_ (BlockIndex.nHeight b + 1) in
  Ret (h, inputs).

(** [CheckInputs] of a transaction that spends coins, the only ones [ConnectBlock] calls it
    for. *)
Definition CheckInputs_coins (tx : CTransaction) (fScriptChecks : bool) (flags : Z) (txdata : PrecomputedTransactionData)
    (pvChecks : bool) inputs : verdict (list CScriptCheck * CCoinsViewCache V) :=
  let* (nSpendHeight, inputs) := GetSpendHeight inputs in
  let! (_, inputs) := CheckTxInputs tx inputs nSpendHeight in
  if fScriptChecks then check_scripts tx (vin tx) 0 flags txdata pvChecks inputs else pass ([], inputs).

(** ** One transaction of [ConnectBlock] *)

Record connect_state := mkConn {
  cn_view : CCoinsViewCache V;
  cn_txIds : list (list Z);
  cn_nFees : Z;
  cn_nSigOpsCost : Z;
  cn_vtxundo : list (list CTxInUndo);
  cn_checks : list CScriptCheck;
  cn_info : option tx_info;
}.

(** [prevheights[j] = view.AccessCoins(..)->nHeight]. *)
Fixpoint prev_heights (ins : list CTxIn) view : outcome (list Z * CCoinsViewCache V) :=
  match ins with
  | [] => Ret ([], view)
  | i :: ins =>
      let '(coins, view) := AccessCoins view (out_hash (prevout i)) in
      let* coins := must coins in
      let* (hs, view) := prev_heights ins view in
      Ret (c_nHeight coins :: hs, view)
  end.

(** Inputs that are there and relative lock times that have passed. *)
Definition connect_inputs (tx : CTransaction) (pindex : positive) (nLockTimeFlags : Z) view : verdict (CCoinsViewCache V) :=
  if no_coins tx then pass view
  else
    let '(have, view) := HaveInputs view tx in
    if negb have then DoS 100 REJECT_INVALID "bad-txns-inputs-missingorspent"
    else
      let* (prevheights, view) := prev_heights (vin tx) view in
      let* (final, _) := SequenceLocks (ix_heap ix) tx nLockTimeFlags prevheights pindex in
      if negb final then DoS 100 REJECT_INVALID "bad-txns-nonfinal" else pass view.

(** Zerocoin and sigma transactions: their fees and their checks, whose levels add up. *)
Definition connect_zerocoin (t : block_tx) (nHeight nFees : Z) (info : option tx_info) : verdict (Z * option tx_info) :=
  let tx := btx t in
  if IsZerocoinSpend tx || tx_IsZerocoinMint tx || IsSigmaSpend tx || tx_IsSigmaMint tx || IsZerocoinRemint tx then
    let* nFees := (if IsSigmaSpend tx then
        let* out := GetValueOut tx in
        let* out := must out in
        let* d := int64 (GetSigmaSpendInput tx - out) in
        int64 (nFees + d)
      else Ret nFees) in
    let* r := CheckTransaction tx (btx_hash t) false nHeight false true info in
    match r with
    | inl e => DoS (nDoS e + 100) REJECT_INVALID "bad-txns-zerocoin"
    | inr info => pass (nFees, info)
    end
  else pass (nFees, info).

(** The fee and the checks of a transaction that spends coins. *)
Definition connect_fees (tx : CTransaction) (fScriptChecks threads : bool) (flags nFees : Z) (txdata : PrecomputedTransactionData) view
    : verdict (Z * list CScriptCheck * CCoinsViewCache V) :=
  if no_coins tx then pass (nFees, [], view)
  else
    let* (value_in, view) := GetValueIn view tx in
    let* out := GetValueOut tx in
    let* out := must out in
    let* d := int64 (value_in - out) in
    let* nFees := int64 (nFees + d) in
    let! (checks, view) := CheckInputs_coins tx fScriptChecks flags txdata threads view in
    pass (nFees, checks, view).

Definition connect_tx (pindex : positive) (nHeight : Z) (fScriptChecks threads : bool) (flags nLockTimeFlags : Z)
    (first : bool) (t : block_tx) (s : connect_state) : verdict connect_state :=
  let tx := btx t in
  if bool_decide (btx_hash t ∈ cn_txIds s) && (cp_fTestNet params || (HF_XNODE_HEIGHT <=? nHeight))
  then DoS 100 REJECT_INVALID "bad-txns-duplicatetxid"
  else
    let txIds := btx_hash t :: cn_txIds s in
    let! view := connect_inputs tx pindex nLockTimeFlags (cn_view s) in
    let! (nFees, info) := connect_zerocoin t nHeight (cn_nFees s) (cn_info s) in
    let* (cost, view) := GetTransactionSigOpCost tx view flags in
    let* nSigOpsCost := int64 (cn_nSigOpsCost s + cost) in
    if MAX_BLOCK_SIGOPS_COST <? nSigOpsCost then DoS 100 REJECT_INVALID "bad-blk-sigops"
    else
      let* txdata := must (Precompute g tx) in
      let! (nFees, checks, view) := connect_fees tx fScriptChecks threads flags nFees txdata view in
      let* (txundo, view) := must (UpdateCoins tx (btx_hash t) view nHeight) in
      let vtxundo := (if first then cn_vtxundo s else cn_vtxundo s ++ [txundo])%list in
      pass (mkConn view txIds nFees nSigOpsCost vtxundo (cn_checks s ++ checks)%list info).

Fixpoint connect_txs (pindex : positive) (nHeight : Z) (fScriptChecks threads : bool) (flags nLockTimeFlags : Z)
    (first : bool) (ts : list block_tx) (s : connect_state) : verdict connect_state :=
  match ts with
  | [] => pass s
  | t :: ts =>
      let! s := connect_tx pindex nHeight fScriptChecks threads flags nLockTimeFlags first t s in
      connect_txs pindex nHeight fScriptChecks threads flags nLockTimeFlags false ts s
  end.

(** ** [ConnectBlock] *)

(** The caches beside the chain state. *)
Record chain_caches := mkCaches { ch_powhash : pow_cache; ch_versionbits : VersionBitsCache }.

Definition SCRIPT_VERIFY_NONE : Z := 0.

(** The rules that depend on the block's place: script flags and lock-time flags. *)
Definition block_flags (block : CBlock) (b : CBlockIndex) (caches : VersionBitsCache) : outcome (Z * Z * VersionBitsCache) :=
  let flags := if 1349049600 <=? GetBlockTime b then SCRIPT_VERIFY_P2SH else SCRIPT_VERIFY_NONE in
  let nVersion := h_nVersion (blk_header block) in
  let* der := (if 3 <=? nVersion then must (IsSuperMajority params ix 3 (pprev b) (nMajorityEnforceBlockUpgrade params)) else Ret false) in
  let flags := if der then flags .| SCRIPT_VERIFY_DERSIG else flags in
  let* cltv := (if 4 <=? nVersion then must (IsSuperMajority params ix 4 (pprev b) (nMajorityEnforceBlockUpgrade params)) else Ret false) in
  let flags := if cltv then flags .| SCRIPT_VERIFY_CHECKLOCKTIMEVERIFY else flags in
  let* (csv, caches) := version_state params ix (pprev b) DEPLOYMENT_CSV caches in
  let '(flags, nLockTimeFlags) :=
    (if csv then (flags .| SCRIPT_VERIFY_CHECKSEQUENCEVERIFY, 0 .| LOCKTIME_VERIFY_SEQUENCE) else (flags, 0)) in
  let* (wit, caches) := IsWitnessEnabled params ix (pprev b) caches in
  let flags := if wit then (flags .| SCRIPT_VERIFY_WITNESS) .| SCRIPT_VERIFY_NULLDUMMY else flags in
  Ret (flags, nLockTimeFlags, caches).

(** [Checkpoints::GetLastCheckpoint] (checkpoints.cpp); the map as a list by height. *)
Definition GetLastCheckpoint (mapCheckpoints : list (Z * list Z)) : option positive :=
  foldl (fun r '(_, hash) => match mapBlockIndex ix !! hash with Some q => Some q | None => r end) None mapCheckpoints.

(** Scripts are not checked below a checkpoint. *)
Definition script_checks (fCheckpointsEnabled : bool) (mapCheckpoints : list (Z * list Z)) (pindex : positive) (nHeight : Z) : outcome bool :=
  if fCheckpointsEnabled then
    match GetLastCheckpoint mapCheckpoints with
    | Some q => let* a := must (GetAncestor (ix_heap ix) q nHeight) in Ret (negb (bool_decide (a = Some pindex)))
    | None => Ret true
    end
  else Ret true.

(** BIP30: no transaction of the block has unspent outputs already. *)
Fixpoint bip30 (ts : list block_tx) view : verdict (CCoinsViewCache V) :=
  match ts with
  | [] => pass view
  | t :: ts =>
      let '(coins, view) := AccessCoins view (btx_hash t) in
      match coins with
      | Some cs => if negb (IsPruned cs) then DoS 100 REJECT_INVALID "bad-txns-BIP30" else bip30 ts view
      | None => bip30 ts view
      end
  end.

(** [control.Wait()]: whether every check succeeds; see [CheckQueue]. *)
Fixpoint run_checks (checks : list CScriptCheck) : outcome bool :=
  match checks with
  | [] => Ret true
  | ck :: checks =>
      let* e := CScriptCheck_run ck in
      let* ok := run_checks checks in
      Ret (bool_decide (e = None) && ok)
  end.

(** What follows the loop over the transactions. *)
Definition block_reward (block : CBlock) (nHeight : Z) (s : connect_state) : verdict unit :=
  let* blockReward := int64 (cn_nFees s + GetBlockSubsidy nHeight) in
  let* t := must (head (vtx block)) in
  let* out := GetValueOut (btx t) in
  let* out := must out in
  if blockReward <? out then DoS 100 REJECT_INVALID "bad-cb-amount"
  else if negb (IsBlockValueValid block nHeight blockReward) then DoS 0 REJECT_INVALID "bad-cb-amount"
  else if negb (IsBlockPayeeValid (btx t) nHeight blockReward) then DoS 0 REJECT_INVALID "bad-cb-payee"
  else
    let* ok := run_checks (cn_checks s) in
    if negb ok then DoS 100 0 ""
    else
      let! _ := ConnectBlockZC block (cn_info s) in
      ConnectBlockSigma block (cn_info s).

(** From the check against overwriting to the end of validation. *)
Definition connect_body (block : CBlock) (pindex : positive) (nHeight : Z) (fScriptChecks threads : bool)
    (flags nLockTimeFlags : Z) view : verdict (list (list CTxInUndo) * CCoinsViewCache V) :=
  let! s := connect_txs pindex nHeight fScriptChecks threads flags nLockTimeFlags true (vtx block)
              (mkConn view [] 0 0 [] [] (Some new_info)) in
  let! _ := block_reward block nHeight s in
  pass (cn_vtxundo s, cn_view s).

(** The undo data and the view of an accepted block, and the caches. *)
Definition ConnectBlock (block : CBlock) (fChecked : bool) (pindex : positive) view (fJustCheck fCheckpointsEnabled threads : bool)
    (mapCheckpoints : list (Z * list Z)) (caches : chain_caches)
    : outcome ((reject + (list (list CTxInUndo) * CCoinsViewCache V)) * chain_caches) :=
  let* b := must (ix_heap ix !! pindex) in
  let nHeight := BlockIndex.nHeight b in
  let* (r, (powhash, _)) := CheckBlock g a params ix block (negb fJustCheck) (negb fJustCheck) nHeight false fChecked (ch_powhash caches) in
  let caches := mkCaches powhash (ch_versionbits caches) in
  match r with
  | inl e => Ret (inl e, caches)
  | inr _ =>
      let* hashPrev := (match pprev b with None => Ret uint256_null | Some q => let* p := must (ix_heap ix !! q) in Ret (phashBlock p) end) in
      let '(best, view) := cache_GetBestBlock view in
      if negb (bool_decide (hashPrev = best)) then Stuck
      else
        let* hash := must (BlockIndex.GetHash g (blk_header block)) in
        if bool_decide (hash = hashGenesisBlock params)
        then Ret (inr ([], if fJustCheck then view else SetBestBlock view (phashBlock b)), caches)
        else
          let* fScriptChecks := script_checks fCheckpointsEnabled mapCheckpoints pindex nHeight in
          let* r := bip30 (vtx block) view in
          match r with
          | inl e => Ret (inl e, caches)
          | inr view =>
              let* (flags, nLockTimeFlags, vb) := block_flags block b (ch_versionbits caches) in
              let* r := connect_body block pindex nHeight fScriptChecks threads flags nLockTimeFlags view in
              let r := (match r with
                | inl e => inl e
                | inr (undo, view) => inr (undo, if fJustCheck then view else SetBestBlock view (phashBlock b))
                end) in
              Ret (r, mkCaches powhash vb)
          end
  end.

(** ** [DisconnectBlock] *)

(** The loop from the last transaction to the first, each with its undo data; the fees only
    go to an index.  [Ret None]: an error is returned. *)
Fixpoint disconnect_txs (ts : list (block_tx * option (list CTxInUndo))) (nHeight nFees : Z) (fClean : bool) view
    : outcome (option (bool * CCoinsViewCache V)) :=
  match ts with
  | [] => Ret (Some (fClean, view))
  | (t, txundo) :: ts =>
      let tx := btx t in
      let* txundo := (if no_coins tx then Ret [] else must txundo) in
      let* r := must (disconnect_tx tx (btx_hash t) nHeight txundo fClean view) in
      match r with
      | None => Ret None
      | Some (fClean, view) =>
          let* (nFees, view) :=
            (if negb (no_coins tx) then
               let* (v, view) := GetValueIn view tx in
               let* out := GetValueOut tx in
               let* out := must out in
               let* d := int64 (v - out) in
               let* nFees := int64 (nFees + d) in
               Ret (nFees, view)
             else Ret (nFees, view)) in
          let* nFees := (if IsSigmaSpend tx then
               let* out := GetValueOut tx in
               let* out := must out in
               let* d := int64 (GetSigmaSpendInput tx - out) in
               int64 (nFees + d)
             else Ret nFees) in
          disconnect_txs ts nHeight nFees fClean view
      end
  end.

(** [vtxundo] is what was read from disk; the result of the call without [pfClean]. *)
Definition DisconnectBlock (block : CBlock) (vtxundo : list (list CTxInUndo)) (pindex : positive) view (powhash : pow_cache)
    : outcome (bool * CCoinsViewCache V * pow_cache) :=
  let* b := must (ix_heap ix !! pindex) in
  let '(best, view) := cache_GetBestBlock view in
  if negb (bool_decide (phashBlock b = best)) then Stuck
  else
    let* q := must (pprev b) in
    let* p := must (ix_heap ix !! q) in
    if negb (Nat.eqb (length vtxundo + 1) (length (vtx block))) then Ret (false, view, powhash)
    else
      let* r := disconnect_txs (rev (zip (vtx block) (None :: (Some <$> vtxundo)))) (BlockIndex.nHeight b) 0 true view in
      match r with
      | None => Ret (false, view, powhash)
      | Some (fClean, view) =>
          Ret (fClean, SetBestBlock view (phashBlock p), InvalidateCachedPoWHash (BlockIndex.nHeight b) powhash)
      end.

End Connect.

(** ** The tip of the active chain *)

Section Tip.
Context `{Abi} `{OtherRules}.
Context (g g' : list Z) (Verify : list Z -> list Z -> list Z -> bool) (LowS : list Z -> bool).
Context (a : allocs) (params : ChainParams) (ix : index).
Context {V : Type} {HV : CCoinsView V}.

Record chain_state := mkChain {
  pcoinsTip : CCoinsViewCache V;
  chainActive : list (option positive);
  ch_caches : chain_caches;
}.

(** [CCoinsViewCache view(pcoinsTip)]. *)
Definition new_view (c : CCoinsViewCache V) : CCoinsViewCache (CCoinsViewCache V) := mkCache c false uint256_null ∅.

(** A rejection leaves coins and chain as they are, but for entries cached by reading. *)
Definition ConnectTip (pindexNew : positive) (block : CBlock) (fChecked fCheckpointsEnabled threads : bool)
    (mapCheckpoints : list (Z * list Z)) (st : chain_state) : outcome ((reject + list (list CTxInUndo)) * chain_state) :=
  let* b := must (ix_heap ix !! pindexNew) in
  if negb (bool_decide (pprev b = Tip (chainActive st))) then Stuck
  else
    let* (r, caches) := ConnectBlock g g' Verify LowS a params ix block fChecked pindexNew (new_view (pcoinsTip st))
                          false fCheckpointsEnabled threads mapCheckpoints (ch_caches st) in
    match r with
    | inl e => Ret (inl e, mkChain (pcoinsTip st) (chainActive st) caches)
    | inr (vtxundo, view) =>
        let* view := must (Flush view) in
        let* chain := must (SetTip (ix_heap ix) (chainActive st) (Some pindexNew)) in
        Ret (inr vtxundo, mkChain (base view) chain caches)
    end.

(** [block] and [vtxundo] are what is read from disk for the tip. *)
Definition DisconnectTip (block : CBlock) (vtxundo : list (list CTxInUndo)) (st : chain_state) : outcome (bool * chain_state) :=
  let* pindexDelete := must (Tip (chainActive st)) in
  let* b := must (ix_heap ix !! pindexDelete) in
  let* (ok, view, powhash) := DisconnectBlock ix block vtxundo pindexDelete (new_view (pcoinsTip st)) (ch_powhash (ch_caches st)) in
  if negb ok then Ret (false, mkChain (pcoinsTip st) (chainActive st) (mkCaches powhash (ch_versionbits (ch_caches st))))
  else
    let* view := must (Flush view) in
    let* chain := must (SetTip (ix_heap ix) (chainActive st) (pprev b)) in
    Ret (true, mkChain (base view) chain (mkCaches powhash (ch_versionbits (ch_caches st)))).

End Tip.
