(* ===== verification/ConnectProofs.v ===== *)
(** * Connecting a block: the loop over its transactions

    [vsafe bad P m]: the check [m] rejects or goes on with a value in [P]; it fails in
    another way only if [bad].  The loop of [ConnectBlock] follows a run on the map of unspent
    outputs ([block_run]), which [DisconnectBlock] takes back. *)

From stdpp Require Import gmap.
From Stdlib Require Import String.
From S2P Require Import Prelude MdHash Hash BlockIndex BlockIndexProofs Script ScriptProofs Interpreter InterpreterProofs SoftFork P2pkh Serialize Transaction TransactionTheorems SigHash SigHashTheorems Compressor Coins CoinsUndo TxVerify CoinsTheorems SeqLocks Block Connect.
#[local] Open Scope verdict_scope.
#[local] Open Scope Z_scope.

(** ** Safe checks *)

Definition vsafe {A} (bad : Prop) (P : A -> Prop) (m : verdict A) : Prop :=
  match m with Ret (inr a) => P a | Ret (inl _) => True | _ => bad end.

Definition osafe {A} (bad : Prop) (P : A -> Prop) (m : outcome A) : Prop :=
  match m with Ret a => P a | _ => bad end.

Lemma vsafe_bind {A B} bad (P : A -> Prop) (Q : B -> Prop) m k :
  vsafe bad P m -> (forall a, P a -> vsafe bad Q (k a)) -> vsafe bad Q (vbnd m k).
Proof. destruct m as [[e|a]| | |]; cbn; auto. Qed.

Lemma vsafe_obnd {A B} bad (P : A -> Prop) (Q : B -> Prop) (m : outcome A) (k : A -> verdict B) :
  osafe bad P m -> (forall a, P a -> vsafe bad Q (k a)) -> vsafe bad Q (obnd m k).
Proof. destruct m; cbn; auto. Qed.

Lemma osafe_obnd {A B} bad (P : A -> Prop) (Q : B -> Prop) (m : outcome A) (k : A -> outcome B) :
  osafe bad P m -> (forall a, P a -> osafe bad Q (k a)) -> osafe bad Q (obnd m k).
Proof. destruct m; cbn; auto. Qed.

Lemma vsafe_impl {A} bad (P Q : A -> Prop) m : vsafe bad P m -> (forall a, P a -> Q a) -> vsafe bad Q m.
Proof. destruct m as [[e|a]| | |]; cbn; auto. Qed.

Lemma osafe_impl {A} bad (P Q : A -> Prop) m : osafe bad P m -> (forall a, P a -> Q a) -> osafe bad Q m.
Proof. destruct m; cbn; auto. Qed.

Lemma osafe_must {A} bad (P : A -> Prop) o a : o = Some a -> P a -> osafe bad P (must o).
Proof. by intros -> Ha. Qed.

Lemma osafe_int64 (bad : Prop) x : bad \/ - 2 ^ 63 <= x < 2 ^ 63 -> osafe bad (fun y => y = x) (int64 x).
Proof. intros [?|?]; [| by rewrite int64_ok]. unfold int64. by destruct (_ && _). Qed.

Lemma int64_cases x : int64 x = Ret x /\ - 2 ^ 63 <= x < 2 ^ 63 \/ int64 x = Stuck /\ ~ - 2 ^ 63 <= x < 2 ^ 63.
Proof.
  destruct (decide (- 2 ^ 63 <= x < 2 ^ 63)); [left; by rewrite int64_ok | right]. split; [| done]. unfold int64, int64_min, int64_max.
  destruct (Z.leb_spec (- 2 ^ 63) x), (Z.leb_spec x (2 ^ 63 - 1)); cbn [andb]; (done || lia).
Qed.

Lemma vsafe_accepts {A} bad (P : A -> Prop) m a : vsafe bad P m -> m = pass a -> P a.
Proof. intros Hm ->. exact Hm. Qed.

(** ** Signature operations *)

Lemma parse_loop_octets fuel s : octets_ok s -> Forall (fun o => octets_ok o.2) (parse_loop fuel s).1.
Proof.
  revert s. induction fuel as [|fuel IH]; intros s Hs; cbn [parse_loop]; [constructor |]. destruct (decide _); [constructor |].
  destruct (GetOp2 s) as [[[ok pc] op] data] eqn:E. destruct (GetOp2_octets _ _ _ _ _ E Hs) as (Hpc & Hd & _).
  destruct ok; [| constructor]. specialize (IH pc Hpc). destruct (parse_loop fuel pc). by constructor.
Qed.

Lemma last_push_octets s : octets_ok s -> octets_ok (default [] (snd <$> vback (parse s).1)).
Proof.
  intros Hs. pose proof (parse_loop_octets (length s) s Hs) as HF. unfold parse, vback.
  destruct ((parse_loop (length s) s).1 !! _) as [[op d]|] eqn:E; [| constructor]. exact (Forall_lookup_1 _ _ _ _ HF E).
Qed.

Lemma u32_fits x : 0 <= u32 x < 2 ^ 32.
Proof. by apply wrap_fits. Qed.

Lemma GetSigOpCount_bound s a : 0 <= GetSigOpCount s a < 2 ^ 32.
Proof.
  unfold GetSigOpCount. assert (G : forall l p, 0 <= p.1 < 2 ^ 32 -> 0 <= (foldl (sigop_step a) p l).1 < 2 ^ 32); [| by apply G].
  induction l as [|op l IH]; intros [n last] Hn; [done |]. cbn [foldl]. apply IH. cbn [sigop_step fst].
  repeat case_match; try apply u32_fits; done.
Qed.

Lemma foldl_u32_bound {A} (f : A -> Z) l n : 0 <= n < 2 ^ 32 -> 0 <= foldl (fun n x => u32 (n + f x)) n l < 2 ^ 32.
Proof. revert n. induction l as [|x l IH]; intros n Hn; [done |]. cbn [foldl]. apply IH, u32_fits. Qed.

Lemma CountWitnessSigOps_safe bad sig pub wit flags :
  flags_valid flags -> octets_ok sig -> octets_ok pub -> osafe bad (fun n => 0 <= n < 2 ^ 32) (CountWitnessSigOps sig pub wit flags).
Proof.
  intros [_ Hf] Hs Hp. unfold CountWitnessSigOps. destruct (has flags SCRIPT_VERIFY_WITNESS) eqn:E; cbn [negb]; [| done].
  rewrite (Hf eq_refl). cbn [negb].
  assert (HW : forall v pr, 0 <= WitnessSigOps v pr (default [] wit) < 2 ^ 32).
  { intros v pr. unfold WitnessSigOps. repeat case_match; try done; apply GetSigOpCount_bound. }
  assert (HP : forall s k, octets_ok s -> (forall wp, osafe bad (fun n => 0 <= n < 2 ^ 32) (k wp)) ->
    osafe bad (fun n => 0 <= n < 2 ^ 32) (obnd (IsWitnessProgram s) k)).
  { intros s k Hok Hk. assert (exists wp, IsWitnessProgram s = Ret wp) as [wp ->]; [| apply Hk].
    clear k Hk. unfold IsWitnessProgram, DecodeOP_N. destruct (_ || _); [by eexists |].
    destruct (Z.eqb_spec (oct s 0) OP_0) as [E0|E0]; cbn [negb andb].
    - destruct (_ =? _); by eexists.
    - destruct (_ || _) eqn:E1; [by eexists |]. apply orb_false_iff in E1 as [?%Z.ltb_ge ?%Z.ltb_ge].
      destruct (_ =? _); [| by eexists].
      rewrite (proj2 (Z.leb_le _ _)), (proj2 (Z.leb_le _ _)) by done. cbn [andb obnd]. by eexists. }
  apply HP; [done |]. intros [[v pr]|]; [by cbn |]. destruct (_ && _); [| done].
  apply HP; [by apply last_push_octets |]. intros [[v pr]|]; by cbn.
Qed.

(** ** Reading through a view keeps its best block *)

Section Reading.
Context {V : Type} {HV : CCoinsView V} {OK : CCoinsViewOk V}.
Implicit Types c : CCoinsViewCache V.

(** The same coins and the same best block. *)
Definition unchanged c c' : Prop := same_coins c c' /\ hashBlock c' = hashBlock c.

Lemma unchanged_refl c : cache_ok c -> unchanged c c.
Proof using. intros. split; [by apply same_refl | done]. Qed.

Lemma unchanged_trans c1 c2 c3 : unchanged c1 c2 -> unchanged c2 c3 -> unchanged c1 c3.
Proof using. intros [A1 B1] [A2 B2]. split; [by eapply same_trans | congruence]. Qed.

Lemma unchanged_ok c c' : unchanged c c' -> cache_ok c'.
Proof using. by intros [[? _] _]. Qed.

Lemma unchanged_utxo c c' t : unchanged c c' -> cache_utxo c' t = cache_utxo c t.
Proof using. by intros [(_ & ? & _) _]. Qed.

Lemma AccessCoins_hash c t : hashBlock (AccessCoins c t).2 = hashBlock c.
Proof using.
  unfold AccessCoins, cache_GetCoins, FetchCoins. destruct (cacheCoins c !! t); [done |].
  by destruct (GetCoins (base c) t) as [[tmp|] b].
Qed.

Lemma AccessCoins_spec c p r c' :
  cache_ok c -> AccessCoins c (out_hash p) = (r, c') ->
  unchanged c c' /\ match out_at (cache_utxo c) p with
  | Some o => exists cs, r = Some cs /\ cache_utxo c (out_hash p) = Some cs /\ IsAvailable cs (out_n p) = true /\ c_vout cs !! Z.to_nat (out_n p) = Some o
  | None => forall cs, r = Some cs -> IsAvailable cs (out_n p) = false
  end.
Proof using.
  intros Hc E. destruct (AccessCoins_out c p r c' Hc E) as [HS HO]. split; [split; [done |] | done].
  by rewrite <- (AccessCoins_hash c (out_hash p)), E.
Qed.

(** [AccessCoins] of any transaction: the coins of the map. *)
Lemma AccessCoins_norm c t : cache_ok c -> unchanged c (AccessCoins c t).2 /\ (AccessCoins c t).1 ≫= norm = cache_utxo c t.
Proof using.
  intros Hc. pose proof (FetchCoins_same c t Hc) as HS. pose proof (FetchCoins_spec c t Hc) as HF.
  pose proof (AccessCoins_hash c t) as HH. unfold AccessCoins, cache_GetCoins in *.
  destruct (FetchCoins c t) as [r c']. destruct HF as (_ & _ & _ & HF & _). cbn [fst snd] in *. done.
Qed.

Lemma GetOutputFor_spec c i o :
  cache_ok c -> out_at (cache_utxo c) (prevout i) = Some o -> exists c', GetOutputFor c i = Some (o, c') /\ unchanged c c'.
Proof using.
  intros Hc Eo. unfold GetOutputFor. destruct (AccessCoins c (out_hash (prevout i))) as [r c'] eqn:E.
  destruct (AccessCoins_spec c (prevout i) r c' Hc E) as [HU HO]. rewrite Eo in HO. destruct HO as (cs & -> & _ & Ha & Hl).
  exists c'. rewrite obind_Some, Ha, Hl. by split.
Qed.

Lemma HaveInputs_loop_hash ins c : hashBlock (HaveInputs_loop c ins).2 = hashBlock c.
Proof using.
  revert c. induction ins as [|i ins IH]; intros c; [done |]. cbn [HaveInputs_loop].
  pose proof (AccessCoins_hash c (out_hash (prevout i))) as HA.
  destruct (AccessCoins c (out_hash (prevout i))) as [[cs|] c1]; cbn [snd] in HA; [| done].
  destruct (IsAvailable cs (out_n (prevout i))); [by rewrite IH | done].
Qed.

Lemma HaveInputs_spec c tx :
  cache_ok c -> no_coins tx = false ->
  exists c', HaveInputs c tx = (bool_decide (is_Some (mapM (fun i => out_at (cache_utxo c) (prevout i)) (vin tx))), c') /\ unchanged c c'.
Proof using.
  intros Hc Hn. unfold HaveInputs. rewrite Hn. cbn [negb]. destruct (HaveInputs_loop_spec (vin tx) c Hc) as (c' & E & HS).
  exists c'. split; [done |]. split; [done |]. by rewrite <- (HaveInputs_loop_hash (vin tx) c), E.
Qed.

Lemma check_inputs_loop_hash ins h acc c v c' : check_inputs_loop ins h acc c = pass (v, c') -> hashBlock c' = hashBlock c.
Proof using.
  revert acc c. induction ins as [|i ins IH]; intros acc c; cbn [check_inputs_loop]; [by intros [= <- <-] |].
  pose proof (AccessCoins_hash c (out_hash (prevout i))) as HA.
  destruct (AccessCoins c (out_hash (prevout i))) as [[cs|] c1]; cbn [snd must obnd] in *; [| done].
  destruct (if fCoinBase cs then _ else _) as [[]| | |]; cbn [obnd]; try done.
  destruct (c_vout cs !! _) as [o|]; cbn [must obnd]; [| done].
  destruct (int64 _) as [x| | |]; cbn [obnd]; try done. destruct (_ || _); [done |]. intros E. by rewrite <- HA, (IH _ _ E).
Qed.

Lemma CheckTxInputs_hash tx c h fee c' : no_coins tx = false -> CheckTxInputs tx c h = pass (fee, c') -> hashBlock c' = hashBlock c.
Proof using.
  intros Hn. unfold CheckTxInputs, HaveInputs. rewrite Hn. cbn [negb]. pose proof (HaveInputs_loop_hash (vin tx) c) as HH.
  destruct (HaveInputs_loop c (vin tx)) as [[] c1]; cbn [negb snd] in *; [| done].
  destruct (check_inputs_loop (vin tx) h 0 c1) as [[e|[v c2]]| | |] eqn:E; cbn [vbnd obnd]; try done.
  apply check_inputs_loop_hash in E. intros E2. assert (c2 = c') as <-; [| congruence]. revert E2.
  destruct (GetValueOut tx) as [[out|]| | |]; cbn [obnd must]; try done. destruct (_ <? _); [done |].
  destruct (int64 _) as [x| | |]; cbn [obnd]; try done. destruct (_ <? _); [done |].
  destruct (int64 _) as [y| | |]; cbn [obnd]; try done. destruct (negb _); [done |]. by intros [= _ ?].
Qed.

(** ** Sums and counts over the inputs *)

Lemma mapM_unchanged c c' (ins : list CTxIn) :
  unchanged c c' -> mapM (fun i => out_at (cache_utxo c') (prevout i)) ins = mapM (fun i => out_at (cache_utxo c) (prevout i)) ins.
Proof using. intros HU. apply mapM_ext. intros i. apply out_at_ext. intros t. by apply unchanged_utxo. Qed.

Lemma total_out_nonneg outs : Forall (fun o => 0 <= nValue o) outs -> 0 <= total_out outs.
Proof using. induction 1 as [|o outs Ho _ IH]; [done |]. rewrite total_out_cons. lia. Qed.

Lemma GetValueIn_loop_safe (bad : Prop) ins c outs acc :
  cache_ok c -> mapM (fun i => out_at (cache_utxo c) (prevout i)) ins = Some outs -> Forall (fun o => 0 <= nValue o) outs ->
  bad \/ 0 <= acc /\ acc + total_out outs < 2 ^ 63 ->
  osafe bad (fun r => r.1 = acc + total_out outs /\ unchanged c r.2) (GetValueIn_loop c ins acc).
Proof using.
  revert c outs acc. induction ins as [|i ins IH]; intros c outs acc Hc HM HF Hb.
  { injection HM as <-. cbn. change (total_out []) with 0. split; [lia | by apply unchanged_refl]. }
  cbn in HM. apply bind_Some in HM as (o & Eo & (outs' & EM & [= <-])%bind_Some). apply Forall_cons_iff in HF as [Ho HF].
  cbn [GetValueIn_loop]. destruct (GetOutputFor_spec c i o Hc Eo) as (c1 & -> & HU). cbn [must obnd]. rewrite total_out_cons in *.
  pose proof (total_out_nonneg outs' HF) as Hn.
  eapply osafe_obnd; [apply (osafe_int64 bad); destruct Hb as [?|?]; [by left | right; lia] |]. intros x ->.
  eapply osafe_impl; [apply (IH c1 outs' (acc + nValue o)); [by eapply unchanged_ok | by rewrite (mapM_unchanged c c1) | done |] |].
  - destruct Hb as [?|?]; [by left | right; lia].
  - intros [v c2] [-> HU2]. cbn [fst snd] in *. split; [lia | by eapply unchanged_trans].
Qed.

(** The heights of the coins an input list refers to. *)
Definition input_heights (u : utxo_map) (ins : list CTxIn) : list Z :=
  (fun i => match u (out_hash (prevout i)) with Some cs => c_nHeight cs | None => 0 end) <$> ins.

Lemma prev_heights_safe (bad : Prop) ins c outs :
  cache_ok c -> mapM (fun i => out_at (cache_utxo c) (prevout i)) ins = Some outs ->
  osafe bad (fun r => r.1 = input_heights (cache_utxo c) ins /\ unchanged c r.2) (prev_heights ins c).
Proof using.
  revert c outs. induction ins as [|i ins IH]; intros c outs Hc HM; [cbn; split; [done | by apply unchanged_refl] |].
  cbn in HM. apply bind_Some in HM as (o & Eo & (outs' & EM & [= <-])%bind_Some). cbn [prev_heights].
  destruct (AccessCoins c (out_hash (prevout i))) as [r c1] eqn:E.
  destruct (AccessCoins_spec c (prevout i) r c1 Hc E) as [HU HO]. rewrite Eo in HO. destruct HO as (cs & -> & Ecs & _). cbn [must obnd].
  eapply osafe_obnd; [apply (IH c1 outs'); [by eapply unchanged_ok | by rewrite (mapM_unchanged c c1)] |].
  intros [hs c2] [Eh HU2]. cbn [fst snd] in *. subst hs. split; [| by eapply unchanged_trans].
  cbn [fst]. unfold input_heights. rewrite fmap_cons, Ecs. f_equal. apply list_fmap_ext. intros k j _. by rewrite (unchanged_utxo c c1).
Qed.

(** Counting signature operations reads the outputs. *)
Lemma p2sh_sigops_safe bad ins c outs n :
  cache_ok c -> mapM (fun i => out_at (cache_utxo c) (prevout i)) ins = Some outs -> 0 <= n < 2 ^ 32 ->
  osafe bad (fun r => 0 <= r.1 < 2 ^ 32 /\ unchanged c r.2) (p2sh_sigops ins n c).
Proof using.
  revert c outs n. induction ins as [|i ins IH]; intros c outs n Hc HM Hn; [cbn; split; [done | by apply unchanged_refl] |].
  cbn in HM. apply bind_Some in HM as (o & Eo & (outs' & EM & [= <-])%bind_Some). cbn [p2sh_sigops].
  destruct (GetOutputFor_spec c i o Hc Eo) as (c1 & -> & HU). cbn [must obnd].
  eapply osafe_impl; [apply (IH c1 outs'); [by eapply unchanged_ok | by rewrite (mapM_unchanged c c1) |] |].
  - destruct (IsPayToScriptHash _); [apply u32_fits | done].
  - intros r [? HU2]. split; [done | by eapply unchanged_trans].
Qed.

Lemma to_signed_small x : 0 <= x < 2 ^ 63 -> to_signed 64 (u64 x) = x.
Proof using. intros Hx. rewrite wrap_id by (unfold fits; lia). unfold to_signed. by rewrite (proj2 (Z.ltb_lt _ _)) by lia. Qed.

Lemma witness_sigops_safe bad ins k wit flags n c outs :
  cache_ok c -> flags_valid flags -> mapM (fun i => out_at (cache_utxo c) (prevout i)) ins = Some outs ->
  Forall (fun i => octets_ok (scriptSig i)) ins -> Forall (fun o => octets_ok (scriptPubKey o)) outs ->
  0 <= n -> n + len ins * 2 ^ 32 < 2 ^ 63 ->
  osafe bad (fun r => 0 <= r.1 <= n + len ins * 2 ^ 32 /\ unchanged c r.2) (witness_sigops ins k wit flags n c).
Proof using.
  revert k n c outs. induction ins as [|i ins IH]; intros k n c outs Hc Hf HM Hs Ho Hn Hb.
  { cbn. split; [lia | by apply unchanged_refl]. }
  cbn in HM. apply bind_Some in HM as (o & Eo & (outs' & EM & [= <-])%bind_Some). cbn [witness_sigops].
  apply Forall_cons_iff in Hs as [Hsi Hs], Ho as [Hoo Ho].
  destruct (GetOutputFor_spec c i o Hc Eo) as (c1 & -> & HU). cbn [must obnd].
  eapply osafe_obnd; [by apply (CountWitnessSigOps_safe bad) |]. intros m Hm. cbn [length] in *.
  rewrite to_signed_small by lia.
  eapply osafe_impl; [apply (IH (S k) (n + m) c1 outs'); [by eapply unchanged_ok | done | by rewrite (mapM_unchanged c c1) | done | done | lia | lia] |].
  intros r [? HU2]. split; [lia | by eapply unchanged_trans].
Qed.

Lemma GetTransactionSigOpCost_safe bad tx c flags :
  cache_ok c -> flags_valid flags -> tx_wf tx ->
  (no_coins tx = false -> exists outs, mapM (fun i => out_at (cache_utxo c) (prevout i)) (vin tx) = Some outs /\
    Forall (fun o => octets_ok (scriptPubKey o)) outs) ->
  osafe bad (fun r => 0 <= r.1 < 2 ^ 60 /\ unchanged c r.2) (GetTransactionSigOpCost tx c flags).
Proof using.
  intros Hc Hf [_ [Hlen Hin] _ _ _] Hout. unfold GetTransactionSigOpCost.
  pose proof (u32_fits (GetLegacySigOpCount tx * WITNESS_SCALE_FACTOR)) as Hl. set (l := u32 (GetLegacySigOpCount tx * _)) in *.
  destruct (no_coins tx) eqn:En; [cbn; split; [lia | by apply unchanged_refl] |]. destruct (Hout eq_refl) as (outs & HM & Ho). clear Hout.
  assert (Hs : Forall (fun i => octets_ok (scriptSig i)) (vin tx)) by (eapply list.Forall_impl; [exact Hin |]; by intros i (_ & [_ ?] & _)).
  eapply (osafe_obnd bad (fun r => 0 <= r.1 < 2 ^ 34 /\ unchanged c r.2)).
  - destruct (has flags SCRIPT_VERIFY_P2SH); [| cbn; split; [lia | by apply unchanged_refl]]. unfold GetP2SHSigOpCount.
    unfold no_coins in En. rewrite !orb_false_iff in En. destruct En as [[[-> ->] ->] _]. cbn [orb].
    eapply osafe_obnd; [by apply (p2sh_sigops_safe bad _ c outs 0) |]. intros [n c1] [_ HU]. cbn [fst snd] in *.
    pose proof (u32_fits (n * WITNESS_SCALE_FACTOR)) as Hu. rewrite int64_ok by lia. cbn. split; [lia | done].
  - intros [n c1] [Hn HU]. cbn [fst snd] in *. unfold MAX_SIZE in Hlen.
    eapply osafe_impl; [apply (witness_sigops_safe bad (vin tx) 0 (vtxinwit tx) flags n c1 outs); try done; try lia |].
    + by eapply unchanged_ok.
    + by rewrite (mapM_unchanged c c1).
    + intros r [? HU2]. split; [lia | by eapply unchanged_trans].
Qed.

End Reading.

(** ** What is known of every unspent output *)

Definition out_good (o : CTxOut) : Prop := CTxOut_wf o /\ 0 <= nValue o <= MAX_MONEY.

Definition coins_good (h : Z) (cs : CCoins) : Prop :=
  coins_ok cs /\ 0 < c_nHeight cs <= h /\ Forall (fun o => CTxOut_IsNull o = false -> out_good o) (c_vout cs).

Definition utxo_inv (h : Z) (u : utxo_map) : Prop := forall t cs, u t = Some cs -> coins_good h cs /\ IsPruned cs = false.

Lemma utxo_inv_ext h u u' : (forall t, u' t = u t) -> utxo_inv h u -> utxo_inv h u'.
Proof. intros E Hu t cs. rewrite E. apply Hu. Qed.

Lemma utxo_inv_mono h h' u : h <= h' -> utxo_inv h u -> utxo_inv h' u.
Proof. intros Hh Hu t cs E. destruct (Hu t cs E) as [(H1 & H2 & H3) H4]. unfold coins_good. split_and!; [done | lia | lia | done | done]. Qed.

Lemma utxo_inv_good h u : h < 2 ^ 31 -> utxo_inv h u -> utxo_good u.
Proof. intros Hh Hu t cs E. destruct (Hu t cs E) as [(H1 & H2 & _) H4]. split_and!; [done | done | lia | lia]. Qed.

Lemma utxo_inv_bounded h u : h < 2 ^ 31 -> utxo_inv h u -> utxo_bounded u.
Proof.
  intros Hh Hu t cs E. destruct (Hu t cs E) as [([_ Hn _] & H2 & H3) _]. split; [lia |]. apply list.Forall_forall. intros o Ho.
  rewrite list.Forall_forall in Hn, H3. specialize (Hn o Ho). specialize (H3 o Ho). destruct (CTxOut_IsNull o).
  - rewrite (Hn eq_refl). done.
  - destruct (H3 eq_refl) as [_ H4]. change MAX_MONEY with 999999900000000 in H4. lia.
Qed.

Lemma out_at_good h u p o : utxo_inv h u -> out_at u p = Some o -> out_good o.
Proof.
  intros Hu (cs & E & Hl & Hn)%out_at_Some. destruct (Hu _ _ E) as [(_ & _ & HF) _].
  exact (Forall_lookup_1 _ _ _ _ HF Hl Hn).
Qed.

Lemma mapM_Forall_out {A B} (f : A -> option B) (P : B -> Prop) l k :
  (forall x y, f x = Some y -> P y) -> mapM f l = Some k -> Forall P k.
Proof.
  intros Hf. revert k. induction l as [|x l IH]; intros k; [by intros [= <-] |]. cbn.
  intros (y & Ey & (k' & Ek & [= <-])%bind_Some)%bind_Some. constructor; [by eapply Hf | by apply IH].
Qed.

Lemma mapM_outs_good h u (ins : list CTxIn) outs :
  utxo_inv h u -> mapM (fun i => out_at u (prevout i)) ins = Some outs -> Forall out_good outs.
Proof. intros Hu. apply mapM_Forall_out. intros i o. by apply (out_at_good h). Qed.

Lemma input_heights_bound h u ins : 0 <= h -> utxo_inv h u -> Forall (fun x => 0 <= x <= h) (input_heights u ins).
Proof.
  intros Hh Hu. unfold input_heights. apply Forall_fmap, list.Forall_forall. intros i _. cbn.
  destruct (u (out_hash (prevout i))) as [cs|] eqn:E; [| lia]. destruct (Hu _ _ E) as [(_ & ? & _) _]. lia.
Qed.

Lemma Cleanup_Forall (P : CTxOut -> Prop) l : Forall P l -> Forall P (Cleanup_vout l).
Proof. destruct (Cleanup_vout_spec l) as (k & E & _). rewrite E at 1. by intros [? _]%Forall_app. Qed.

Lemma upd_inv h u t cs : utxo_inv h u -> coins_good h cs -> utxo_inv h (upd u t (norm cs)).
Proof.
  intros Hu Hc t' cs'. unfold upd. destruct (decide (t' = t)); [| apply Hu]. intros [-> Hp]%norm_Some. done.
Qed.

Lemma Spend_good h cs n : coins_good h cs -> coins_good h (Spend cs n).2.
Proof.
  intros (H1 & H2 & H3). split; [by apply Spend_ok |]. rewrite Spend_height. split; [done |]. unfold Spend.
  destruct (IsAvailable cs n); [| done]. cbn [snd Cleanup set_vout c_vout]. apply Cleanup_Forall, Forall_insert; [done |]. done.
Qed.

Lemma utxo_spend_inv h u i un u' : utxo_inv h u -> utxo_spend u i = Some (un, u') -> utxo_inv h u'.
Proof.
  intros Hu. unfold utxo_spend. intros (cs & Ecs & H)%bind_Some. destruct (IsAvailable cs _); [| done].
  apply bind_Some in H as (o & _ & [= _ <-]). apply upd_inv; [done |]. apply Spend_good. by apply (Hu _ _ Ecs).
Qed.

Lemma utxo_spends_inv h ins u uns u' : utxo_inv h u -> utxo_spends u ins = Some (uns, u') -> utxo_inv h u'.
Proof.
  revert u uns. induction ins as [|i ins IH]; intros u uns Hu; cbn [utxo_spends]; [by intros [= _ <-] |].
  intros ([un u1] & E1 & ([uns1 u2] & E2 & [= _ <-])%bind_Some)%bind_Some. eapply IH; [| exact E2]. by eapply utxo_spend_inv.
Qed.

Lemma FromTx_good h tx : 0 < h -> outputs_ok tx -> Forall out_good (vout tx) -> coins_good h (FromTx tx h).
Proof.
  intros Hh Ho HF. split; [by apply FromTx_ok |]. split; [cbn; lia |]. unfold FromTx, ClearUnspendable. cbn [Cleanup set_vout c_vout].
  apply Cleanup_Forall, Forall_fmap. eapply list.Forall_impl; [exact HF |]. intros o Hg. cbn. by destruct (IsUnspendable _).
Qed.

Lemma utxo_update_inv h u tx hash uns u' :
  0 < h -> utxo_inv h u -> outputs_ok tx -> Forall out_good (vout tx) -> utxo_update u tx hash h = Some (uns, u') -> utxo_inv h u'.
Proof.
  intros Hh Hu Ho HF. unfold utxo_update. intros ([uns1 u1] & E1 & [= _ <-])%bind_Some. apply upd_inv; [| by apply FromTx_good].
  destruct (negb (no_coins tx)); [by eapply utxo_spends_inv |]. by injection E1 as _ <-.
Qed.

(** What a transaction that passes [CheckTransaction] writes. *)
Lemma checked_outputs tx : tx_wf tx -> tx_checked tx -> outputs_ok tx /\ Forall out_good (vout tx).
Proof.
  intros [_ _ [Hl Hw] _ _] [_ _ Hv _ _ _ _]. unfold MAX_SIZE in Hl. split.
  - split; [| lia]. eapply list.Forall_impl; [exact Hv |]. intros o [? _]. apply Z.eqb_neq. lia.
  - rewrite list.Forall_forall in Hv, Hw |- *. intros o Ho. split; [by apply Hw | by apply Hv].
Qed.

(** ** Applying a transaction keeps the best block *)

Section Update.
Context {V : Type} {HV : CCoinsView V}.
Implicit Types c : CCoinsViewCache V.

Lemma ModifyCoins_hash c t c' : ModifyCoins c t = Some c' -> hashBlock c' = hashBlock c.
Proof using. unfold ModifyCoins. destruct (hasModifier c); [done |]. repeat case_match; by intros [= <-]. Qed.

Lemma close_hash c t c' : close_modifier c t = Some c' -> hashBlock c' = hashBlock c.
Proof using. unfold close_modifier. destruct (negb _); [done |]. by intros (e & _ & [= <-])%bind_Some. Qed.

Lemma spend_input_hash c i u c' : spend_input c i = Some (u, c') -> hashBlock c' = hashBlock c.
Proof using.
  unfold spend_input. intros (c1 & E1 & H)%bind_Some. apply ModifyCoins_hash in E1. destruct (IsAvailable _ _); [| done].
  apply bind_Some in H as (o & _ & (c2 & E2 & [= _ <-])%bind_Some). apply close_hash in E2. by rewrite E2.
Qed.

Lemma spend_inputs_hash ins c u c' : spend_inputs c ins = Some (u, c') -> hashBlock c' = hashBlock c.
Proof using.
  revert c u. induction ins as [|i ins IH]; intros c u; cbn [spend_inputs]; [by intros [= _ <-] |].
  intros ([un c1] & E1 & ([us c2] & E2 & [= _ <-])%bind_Some)%bind_Some. rewrite (IH _ _ E2). by eapply spend_input_hash.
Qed.

Lemma UpdateCoins_hash tx hash c h u c' : UpdateCoins tx hash c h = Some (u, c') -> hashBlock c' = hashBlock c.
Proof using.
  unfold UpdateCoins. intros ([un c1] & E1 & (c2 & E2 & (c3 & E3 & [= _ <-])%bind_Some)%bind_Some)%bind_Some.
  apply close_hash in E3. rewrite E3. cbn [modify set_cacheCoins hashBlock].
  assert (hashBlock c1 = hashBlock c) as <-.
  { destruct (negb (no_coins tx)); [by eapply spend_inputs_hash | by injection E1 as _ <-]. }
  unfold ModifyNewCoins in E2. destruct (hasModifier c1); [done |]. by injection E2 as <-.
Qed.

End Update.

(** ** Script checks *)

Section Scripts.
Context {A : Abi} {HA : AbiOk A} (g g' : list Z) (Hg : length g = 64%nat) (Hg' : length g' = 64%nat).
Context (Verify : list Z -> list Z -> list Z -> bool) (LowS : list Z -> bool).

Abbreviation run := (CScriptCheck_run g g' Verify LowS).

(** The checks of the inputs from [k] on that spend [outs]. *)
Fixpoint input_checks (tx : CTransaction) (k : nat) (flags : Z) (txdata : PrecomputedTransactionData) (outs : list CTxOut) : list CScriptCheck :=
  match outs with
  | [] => []
  | o :: outs => mkCheck (scriptPubKey o) (nValue o) tx k flags txdata :: input_checks tx (S k) flags txdata outs
  end.

Lemma run_total tx k flags txdata o :
  tx_wf tx -> (k < length (vin tx))%nat -> Precompute g tx = Some txdata -> flags_valid flags -> out_good o ->
  exists e, run (mkCheck (scriptPubKey o) (nValue o) tx k flags txdata) = Ret e.
Proof using All.
  intros Htx Hk Hd Hf [(_ & [_ Hp] & _) _]. unfold CScriptCheck_run. cbn [ck_txTo ck_nIn ck_amount ck_txdata ck_scriptPubKey ck_nFlags].
  destruct (lookup_lt_is_Some_2 (vin tx) k Hk) as [i Ei]. rewrite Ei. cbn [must obnd].
  destruct (wf_vin tx Htx) as [_ Hin]. destruct (Forall_lookup_1 _ _ _ _ Hin Ei) as (_ & [_ Hs] & _).
  pose proof (TransactionSignatureChecker_total tx Htx g Hg Verify LowS (Z.of_nat k) (nValue o) (Some txdata) ltac:(lia) ltac:(by right)) as HC.
  assert (Hw : witness_ok (default [] (@rev _ <$> vtxinwit tx !! k))).
  { destruct (vtxinwit tx !! k) as [w|] eqn:Ew; [| constructor]. cbn. apply Forall_rev.
    destruct (Forall_lookup_1 _ _ _ _ (wf_wit tx Htx) Ew) as [_ HF]. eapply list.Forall_impl; [exact HF |].
    intros v [Hv ?]. unfold MAX_SIZE in Hv. split; [done | lia]. }
  destruct (@VerifyScript_answers _ HC g g' Hg Hg' flags (scriptSig i) (scriptPubKey o) _ Hf Hs Hp Hw) as [(x & -> & _)|(e & ->)]; by eexists.
Qed.

Context {V : Type} {HV : CCoinsView V} {OK : CCoinsViewOk V}.
Implicit Types c : CCoinsViewCache V.

Lemma check_scripts_safe bad tx ins k flags txdata (pv : bool) c outs :
  cache_ok c -> tx_wf tx -> Precompute g tx = Some txdata -> flags_valid flags -> has flags SCRIPT_VERIFY_STRICTENC = false ->
  mapM (fun i => out_at (cache_utxo c) (prevout i)) ins = Some outs -> Forall out_good outs ->
  (k + length ins = length (vin tx))%nat ->
  vsafe bad (fun r => r.1 = (if pv then input_checks tx k flags txdata outs else []) /\
      (pv = false -> Forall (fun ck => run ck = Ret None) (input_checks tx k flags txdata outs)) /\ unchanged c r.2)
    (check_scripts g g' Verify LowS tx ins k flags txdata pv c).
Proof using All.
  intros Hc Htx Hd Hf Hst. revert k c outs Hc. induction ins as [|i ins IH]; intros k c outs Hc HM Ho Hk.
  { injection HM as <-. cbn. split_and!; [by destruct pv | constructor | by apply unchanged_refl]. }
  cbn in HM. apply bind_Some in HM as (o & Eo & (outs' & EM & [= <-])%bind_Some). apply Forall_cons_iff in Ho as [Hoo Ho].
  cbn [check_scripts]. destruct (AccessCoins c (out_hash (prevout i))) as [r c1] eqn:E.
  destruct (AccessCoins_spec c (prevout i) r c1 Hc E) as [HU HO]. rewrite Eo in HO. destruct HO as (cs & -> & _ & _ & Hl).
  cbn [must obnd]. rewrite Hl. cbn [must obnd length] in *.
  specialize (IH (S k) c1 outs' (unchanged_ok _ _ HU)). rewrite (mapM_unchanged c c1) in IH by done. specialize (IH EM Ho ltac:(lia)).
  destruct pv.
  - eapply vsafe_bind; [exact IH |]. intros [l c2] (E1 & _ & HU2). cbn [fst snd] in *. subst l.
    cbn. split_and!; [done | done | by eapply unchanged_trans].
  - destruct (run_total tx k flags txdata o Htx ltac:(lia) Hd Hf Hoo) as [e Ee]. rewrite Ee. cbn [obnd]. destruct e as [e|].
    + rewrite Hst. done.
    + eapply vsafe_impl; [exact IH |]. intros [l c2] (E1 & H2 & HU2). cbn [fst snd] in *. subst l.
      split_and!; [done | | by eapply unchanged_trans]. intros _. cbn [input_checks]. constructor; [done | by apply H2].
Qed.

End Scripts.

(** ** Money *)

Lemma inputs_fee_ext u u' tx h : (forall t, u t = u' t) -> inputs_fee u tx h = inputs_fee u' tx h.
Proof.
  intros E. unfold inputs_fee. rewrite (mapM_ext _ (fun i => out_at u' (prevout i))) by (intros i; by apply out_at_ext).
  destruct (mapM _ _) as [outs|]; [| done]. rewrite !obind_Some.
  by rewrite (forallb_ext (mature u h) (mature u' h)) by (intros i; unfold mature; by rewrite E).
Qed.

Lemma outs_value_nonneg cs h : coins_good h cs -> 0 <= outs_value (c_vout cs).
Proof.
  intros (_ & _ & HF). induction HF as [|o l Ho _ IH]; [done |]. rewrite outs_value_cons. unfold out_value.
  destruct (CTxOut_IsNull o); [lia |]. destruct (Ho eq_refl) as [_ ?]. lia.
Qed.

Lemma supply_nonneg h m u : represents m u -> utxo_inv h u -> 0 <= supply m.
Proof.
  intros Hm Hu. assert (HF : map_Forall (fun _ cs => coins_good h cs) m).
  { intros t cs E. rewrite Hm in E. by apply (Hu t cs). }
  clear Hm Hu. revert m HF. refine (map_ind _ _ _); [done |]. intros t cs m Ht IH HF. rewrite supply_insert by done.
  apply map_Forall_insert in HF as [Hc HF]; [| done]. pose proof (outs_value_nonneg cs h Hc). specialize (IH HF). lia.
Qed.

Lemma unspendable_nonneg tx : Forall out_good (vout tx) -> 0 <= unspendable_out tx.
Proof.
  intros HF. unfold unspendable_out. apply total_out_nonneg. apply list.Forall_forall. intros o [_ Ho]%list_elem_of_filter.
  rewrite list.Forall_forall in HF. by destruct (HF o Ho) as [_ [? _]].
Qed.

(** A transaction without coin inputs only adds its outputs. *)
Lemma utxo_issue_supply u tx hash h uns u' m :
  represents m u -> u hash = None -> no_coins tx = true -> Forall (fun o => CTxOut_IsNull o = false) (vout tx) ->
  utxo_update u tx hash h = Some (uns, u') ->
  exists m', represents m' u' /\ supply m' = supply m + (total_out (vout tx) - unspendable_out tx).
Proof.
  intros Hm Hn Hc Ho. unfold utxo_update. rewrite Hc. cbn [negb]. intros ([uns1 u1] & [= <- <-] & [= <- <-])%bind_Some.
  eexists. split; [by apply represents_upd |]. rewrite supply_upd, coins_norm_value, Hm, Hn, FromTx_value by done. cbn [maybe_value]. lia.
Qed.

(** The outputs a transaction spends are worth no more than there is. *)
Lemma spent_le_supply h u m ins outs :
  represents m u -> utxo_inv h u -> Forall (fun i => 0 <= out_n (prevout i)) ins -> NoDup (prevout <$> ins) ->
  mapM (fun i => out_at u (prevout i)) ins = Some outs -> total_out outs <= supply m.
Proof.
  intros Hm Hu Hi Hd HM. destruct (utxo_spends_Some ins u outs Hi Hd HM) as (uns & u' & ES & <-).
  destruct (utxo_spends_supply ins u uns u' m Hm ES) as (m' & Hm' & E).
  pose proof (supply_nonneg h m' u' Hm' (utxo_spends_inv h _ _ _ _ Hu ES)). lia.
Qed.

Lemma checked_value tx : tx_checked tx -> GetValueOut tx = Ret (Some (total_out (vout tx))) /\ 0 <= total_out (vout tx) <= MAX_MONEY.
Proof.
  intros [_ _ Hv Ht _ _ _].
  assert (Hp : 0 <= total_out (vout tx)) by (apply total_out_nonneg; eapply list.Forall_impl; [exact Hv |]; intros o [? _]; done).
  split; [| lia]. unfold GetValueOut. rewrite value_out_sum, Z.add_0_l; [| done |].
  - pose proof (proj2 (outputs_in_range_iff (vout tx)) (conj Hv Ht)) as HR. unfold outputs_in_range in HR. rewrite Z.add_0_l in HR. by rewrite HR.
  - eapply list.Forall_impl; [exact Hv |]. intros o Ho. cbn beta in *. change MAX_MONEY with 999999900000000 in Ho. lia.
Qed.

Lemma subsidy_bound n : 0 <= GetBlockSubsidy n <= 2 ^ 60.
Proof. unfold GetBlockSubsidy. repeat (destruct (_ =? _); [done |]). repeat (destruct (_ <=? _); [done |]). done. Qed.

(** ** One transaction *)

Section Loop.
Context {A : Abi} {HA : AbiOk A} {R : OtherRules}.
Context (g g' : list Z) (Hg : length g = 64%nat) (Hg' : length g' = 64%nat).
Context (Verify : list Z -> list Z -> list Z -> bool) (LowS : list Z -> bool).
Context (params : ChainParams) (ix : index) (pindex : positive) (b : CBlockIndex) (q : positive) (bq : CBlockIndex).
Context (Hwf : chain_wf (ix_heap ix)) (Htimes : map_Forall (fun _ b => 0 <= nTime b < 2 ^ 32) (ix_heap ix)).
Context (Hb : ix_heap ix !! pindex = Some b) (Hq : pprev b = Some q) (Hbq : ix_heap ix !! q = Some bq).
Context (Hmap : mapBlockIndex ix !! phashBlock bq = Some q) (Hnn : uint256_IsNull (phashBlock bq) = false).
Context (Hh : 0 < BlockIndex.nHeight b < 2 ^ 31 - 2 ^ 16).
Context (fScriptChecks threads : bool) (flags lockflags : Z).
Context (Hf : flags_valid flags) (Hst : has flags SCRIPT_VERIFY_STRICTENC = false).
Context {V : Type} {HV : CCoinsView V} {OK : CCoinsViewOk V}.

Abbreviation h := (BlockIndex.nHeight b).
Abbreviation run := (CScriptCheck_run g g' Verify LowS).

(** Zerocoin and sigma transactions. *)
Definition zc (t : block_tx) : bool :=
  let tx := btx t in
  IsZerocoinSpend tx || tx_IsZerocoinMint tx || IsSigmaSpend tx || tx_IsSigmaMint tx || IsZerocoinRemint tx.

(** What a transaction without coin inputs brings in. *)
Definition issued (t : block_tx) : Z :=
  let tx := btx t in
  if no_coins tx then if IsSigmaSpend tx then GetSigmaSpendInput tx else total_out (vout tx) else 0.

(** What a transaction leaves to the miner. *)
Definition tx_fee (u : utxo_map) (t : block_tx) : Z :=
  let tx := btx t in
  if no_coins tx then if IsSigmaSpend tx then GetSigmaSpendInput tx - total_out (vout tx) else 0 else default 0 (inputs_fee u tx h).

(** A transaction connects to the map [u]: its undo data, the checks of its scripts and the
    map after it. *)
Record tx_step (u : utxo_map) (t : block_tx) (un : list CTxInUndo) (cks : list CScriptCheck) (u' : utxo_map) : Prop := {
  st_update : exists u1, utxo_update u (btx t) (btx_hash t) h = Some (un, u1) /\ forall i, u' i = u1 i;
  st_new : u (btx_hash t) = None;
  st_free : no_coins (btx t) = true -> cks = [];
  st_coins : no_coins (btx t) = false -> exists outs txdata hs,
    mapM (fun i => out_at u (prevout i)) (vin (btx t)) = Some outs /\ is_Some (inputs_fee u (btx t) h) /\
    SequenceLocks (ix_heap ix) (btx t) lockflags (input_heights u (vin (btx t))) pindex = Ret (true, hs) /\
    Precompute g (btx t) = Some txdata /\
    cks = (if fScriptChecks then input_checks (btx t) 0 flags txdata outs else []);
}.

(** The checks are queued, or they have passed. *)
Definition checked (before cks after : list CScriptCheck) : Prop :=
  if threads then after = before ++ cks else after = before /\ Forall (fun ck => run ck = Ret None) cks.

Lemma spend_height (c : CCoinsViewCache V) :
  hashBlock c = phashBlock bq -> GetSpendHeight ix c = Ret (h, c).
Proof using All.
  intros E. unfold GetSpendHeight, cache_GetBestBlock. rewrite E, Hnn. rewrite Hmap. cbn [must obnd]. rewrite Hbq. cbn [must obnd].
  pose proof (eo_prev _ _ _ (entry _ Hwf pindex b Hb)) as HP. rewrite Hq in HP. destruct HP as (b' & Hb' & Eh).
  assert (b' = bq) as -> by congruence. replace (BlockIndex.nHeight bq + 1) with h by lia. by rewrite int_ok by lia.
Qed.

(** Inputs and lock times. *)
Lemma connect_inputs_safe bad tx (c : CCoinsViewCache V) :
  cache_ok c -> utxo_inv h (cache_utxo c) ->
  vsafe bad (fun c' => unchanged c c' /\ (no_coins tx = false -> exists outs hs,
      mapM (fun i => out_at (cache_utxo c) (prevout i)) (vin tx) = Some outs /\
      SequenceLocks (ix_heap ix) tx lockflags (input_heights (cache_utxo c) (vin tx)) pindex = Ret (true, hs)))
    (connect_inputs ix tx pindex lockflags c).
Proof using All.
  intros Hc Hu. unfold connect_inputs. destruct (no_coins tx) eqn:En; [cbn; split; [by apply unchanged_refl | done] |].
  destruct (HaveInputs_spec c tx Hc En) as (c1 & -> & HU1). case_bool_decide as HS; cbn [negb]; [| done].
  destruct HS as [outs HM]. eapply vsafe_obnd.
  { apply (prev_heights_safe bad (vin tx) c1 outs); [by eapply unchanged_ok | by rewrite (mapM_unchanged c c1)]. }
  intros [hs c2] [E HU2]. cbn [fst snd] in *. subst hs.
  destruct (mtp_bound (ix_heap ix) Hwf Htimes q bq Hbq) as (m & Em & _).
  assert (EH : input_heights (cache_utxo c1) (vin tx) = input_heights (cache_utxo c) (vin tx)).
  { unfold input_heights. apply list_fmap_ext. intros k i _. by rewrite (unchanged_utxo c c1). }
  rewrite EH. destruct (SequenceLocks_spec (ix_heap ix) Hwf Htimes tx lockflags (input_heights (cache_utxo c) (vin tx)) pindex b q m)
    as (r & hs & E & _); [done | done | done | lia | by unfold input_heights; rewrite length_fmap | by apply input_heights_bound; [lia |] |].
  rewrite E. cbn [obnd]. destruct r; cbn [negb]; [| done]. split; [by eapply unchanged_trans |]. intros _. by exists outs, hs.
Qed.

(** Fees and scripts. *)
Lemma connect_fees_safe (bad : Prop) tx nFees txdata (c : CCoinsViewCache V) outs :
  cache_ok c -> utxo_inv h (cache_utxo c) -> hashBlock c = phashBlock bq -> tx_wf tx -> tx_checked tx -> no_coins tx = false ->
  Precompute g tx = Some txdata ->
  mapM (fun i => out_at (cache_utxo c) (prevout i)) (vin tx) = Some outs ->
  bad \/ 0 <= nFees /\ nFees + total_out outs < 2 ^ 63 ->
  vsafe bad (fun r => r.1.1 = nFees + (total_out outs - total_out (vout tx)) /\ is_Some (inputs_fee (cache_utxo c) tx h) /\
      checked [] (if fScriptChecks then input_checks tx 0 flags txdata outs else []) r.1.2 /\ unchanged c r.2)
    (connect_fees g g' Verify LowS ix tx fScriptChecks threads flags nFees txdata c).
Proof using All.
  intros Hc Hu Hbest Htx Hck Hn Hd HM Hbnd. unfold connect_fees. rewrite Hn.
  pose proof (mapM_outs_good h _ _ _ Hu HM) as Hgood.
  assert (Hpos : Forall (fun o => 0 <= nValue o) outs) by (eapply list.Forall_impl; [exact Hgood |]; by intros o [_ [? _]]).
  pose proof (total_out_nonneg outs Hpos) as Hp. destruct (checked_value tx Hck) as [EV Hv]. change MAX_MONEY with 999999900000000 in Hv.
  unfold GetValueIn. rewrite Hn. eapply vsafe_obnd.
  { apply (GetValueIn_loop_safe bad (vin tx) c outs 0); [done | done | done |]. destruct Hbnd; [by left | right; lia]. }
  intros [v c1] [E HU1]. cbn [fst snd] in *. rewrite Z.add_0_l in E. subst v. rewrite EV. cbn [obnd must].
  eapply vsafe_obnd; [apply (osafe_int64 bad); destruct Hbnd as [?|?]; [by left | right; lia] |]. intros d ->.
  eapply vsafe_obnd; [apply (osafe_int64 bad); destruct Hbnd as [?|?]; [by left | right; lia] |]. intros f ->.
  unfold CheckInputs_coins. rewrite spend_height by (rewrite <- Hbest; apply HU1). cbn [obnd].
  pose proof (CheckTxInputs_spec tx c1 h (unchanged_ok _ _ HU1)) as HI. destruct Hck as [_ _ Hvals Htot _ _ _].
  rewrite (inputs_fee_ext (cache_utxo c1) (cache_utxo c)) in HI by (intros t; by apply unchanged_utxo).
  specialize (HI ltac:(eapply utxo_inv_bounded; [| eapply utxo_inv_ext; [intros t; by apply unchanged_utxo | exact Hu]]; lia) ltac:(lia) Hn).
  specialize (HI (proj2 (outputs_in_range_iff (vout tx)) (conj Hvals Htot))).
  destruct (inputs_fee (cache_utxo c) tx h) as [fee|]; [| destruct HI as [e ->]; done].
  destruct HI as (c2 & EC & HS2). assert (HU2 : unchanged c1 c2) by (split; [done | by eapply CheckTxInputs_hash]).
  rewrite EC. cbn [vbnd obnd pass]. pose proof (unchanged_trans _ _ _ HU1 HU2) as HU.
  destruct fScriptChecks.
  - eapply (vsafe_bind bad); [eapply (check_scripts_safe g g' Hg Hg' Verify LowS bad tx (vin tx) 0 flags txdata threads c2 outs); try done |].
    + by eapply unchanged_ok.
    + by rewrite (mapM_unchanged c c2).
    + intros [l c3] (E1 & E2 & HU3). cbn [fst snd] in *. cbn. split_and!; [done | done | | by eapply unchanged_trans].
      unfold checked. destruct threads; [done |]. split; [done | by apply E2].
  - cbn. split_and!; [done | done | | done]. unfold checked. by destruct threads.
Qed.

(** Zerocoin transactions. *)
Lemma connect_zerocoin_safe (bad : Prop) t nFees info :
  tx_checked (btx t) -> (zc t = true -> bad) ->
  vsafe bad (fun r => r.1 = nFees + (if IsSigmaSpend (btx t) then GetSigmaSpendInput (btx t) - total_out (vout (btx t)) else 0))
    (connect_zerocoin t h nFees info).
Proof using All.
  intros Hck Hz. unfold connect_zerocoin. fold (zc t). destruct (zc t) eqn:Ez.
  - specialize (Hz eq_refl). destruct (checked_value _ Hck) as [EV _].
    eapply (vsafe_obnd bad (fun f => f = nFees + (if IsSigmaSpend (btx t) then GetSigmaSpendInput (btx t) - total_out (vout (btx t)) else 0))).
    + destruct (IsSigmaSpend (btx t)); [| cbn; lia]. rewrite EV. cbn [obnd must].
      eapply osafe_obnd; [apply (osafe_int64 bad); by left |]. intros d ->. apply osafe_int64. by left.
    + intros f ->. destruct (CheckTransaction _ _ _ _ _ _ _) as [[e|i]| | |]; by cbn.
  - assert (IsSigmaSpend (btx t) = false) as ->; [| cbn; lia]. unfold zc in Ez. rewrite !orb_false_iff in Ez. by destruct Ez as [[[_ ?] _] _].
Qed.

(** ** The invariant of the loop *)

(** Ids are checked for duplicates. *)
Definition dup_check : bool := cp_fTestNet params || (HF_XNODE_HEIGHT <=? h).

Definition issued_all (ts : list block_tx) : Z := foldr (fun t n => issued t + n) 0 ts.

(** What is asked of a transaction before it is connected. *)
Definition tx_ready (t : block_tx) : Prop := tx_wf (btx t) /\ tx_checked (btx t).

Record conn_inv (bad : Prop) (S : Z) (ts : list block_tx) (s : connect_state (V := V)) : Prop := {
  ci_ok : cache_ok (cn_view s);
  ci_inv : utxo_inv h (cache_utxo (cn_view s));
  ci_best : hashBlock (cn_view s) = phashBlock bq;
  ci_new : forall t, t ∈ ts -> btx_hash t ∉ cn_txIds s ->
    cache_utxo (cn_view s) (btx_hash t) = None /\ utxo (base (cn_view s)) (btx_hash t) = None;
  ci_dup : dup_check = true \/ NoDup (btx_hash <$> ts) /\ forall t, t ∈ ts -> btx_hash t ∉ cn_txIds s;
  ci_money : exists m, represents m (cache_utxo (cn_view s)) /\ supply m + cn_nFees s <= S;
  ci_fees : bad \/ 0 <= cn_nFees s /\ Forall (fun t => tx_ready t /\ zc t = false) ts /\ S + issued_all ts < 2 ^ 62;
  ci_sigops : 0 <= cn_nSigOpsCost s <= MAX_BLOCK_SIGOPS_COST;
}.

Lemma issued_nonneg t : tx_ready t -> zc t = false -> 0 <= issued t.
Proof using All.
  intros [_ Hc] Hz. unfold issued. destruct (no_coins _); [| done]. unfold zc in Hz. rewrite !orb_false_iff in Hz.
  destruct Hz as [[[_ ->] _] _]. by destruct (checked_value _ Hc) as [_ [? _]].
Qed.

Lemma issued_all_nonneg ts : Forall (fun t => tx_ready t /\ zc t = false) ts -> 0 <= issued_all ts.
Proof using All.
  induction 1 as [|t ts [Ht Hz] _ IH]; [done |]. cbn [issued_all foldr].
  pose proof (issued_nonneg t Ht Hz). unfold issued_all in IH. lia.
Qed.

Lemma ready_inputs tx : tx_wf tx -> Forall (fun i => 0 <= out_n (prevout i)) (vin tx).
Proof using All. intros [_ [_ Hv] _ _ _]. eapply list.Forall_impl; [exact Hv |]. by intros i [[_ [? _]] _]. Qed.

Lemma ready_distinct tx : tx_checked tx -> no_coins tx = false -> NoDup (prevout <$> vin tx).
Proof using All.
  intros [_ _ _ _ Hd _ _]. unfold distinct_inputs, no_coins in *. rewrite !orb_false_iff. intros [[[_ H1] H2] _]. by rewrite H1, H2 in Hd.
Qed.

(** Applying the transaction. *)
Lemma update_step (c : CCoinsViewCache V) t :
  cache_ok c -> tx_ready t -> utxo (base c) (btx_hash t) = None ->
  (no_coins (btx t) = false -> is_Some (mapM (fun i => out_at (cache_utxo c) (prevout i)) (vin (btx t)))) ->
  exists un u1 c', UpdateCoins (btx t) (btx_hash t) c h = Some (un, c') /\
    utxo_update (cache_utxo c) (btx t) (btx_hash t) h = Some (un, u1) /\ (forall i, cache_utxo c' i = u1 i) /\
    cache_ok c' /\ hashBlock c' = hashBlock c /\ forall i, utxo (base c') i = utxo (base c) i.
Proof using All.
  intros Hc [Hw Hck] Hbase Hin. destruct (checked_outputs _ Hw Hck) as [Ho _].
  pose proof (UpdateCoins_refines c (btx t) (btx_hash t) h Hc Ho (fun _ => Hbase)) as HU.
  assert (exists un u1, utxo_update (cache_utxo c) (btx t) (btx_hash t) h = Some (un, u1)) as (un & u1 & E).
  { unfold utxo_update. destruct (no_coins (btx t)) eqn:En; cbn [negb]; [rewrite obind_Some; by do 2 eexists |].
    destruct (Hin eq_refl) as [outs HM]. destruct (utxo_spends_Some _ _ _ (ready_inputs _ Hw) (ready_distinct _ Hck En) HM) as (un & u1 & -> & _).
    rewrite obind_Some. by do 2 eexists. }
  rewrite E in HU. destruct HU as (c' & EU & Hc' & Hb' & Hu'). exists un, u1, c'. split_and!; try done. by eapply UpdateCoins_hash.
Qed.

(** What the outputs gain and the miner may take is what was issued. *)
Lemma step_money u t un u1 m :
  represents m u -> tx_ready t -> u (btx_hash t) = None -> utxo_update u (btx t) (btx_hash t) h = Some (un, u1) ->
  (no_coins (btx t) = false -> is_Some (inputs_fee u (btx t) h)) ->
  exists m', represents m' u1 /\ supply m' + tx_fee u t <= supply m + issued t.
Proof using All.
  intros Hm [Hw Hck] Hn EU Hfee. destruct (checked_outputs _ Hw Hck) as [[Ho _] Hg1]. pose proof (unspendable_nonneg _ Hg1) as Hu.
  unfold tx_fee, issued. destruct (no_coins (btx t)) eqn:En.
  - destruct (utxo_issue_supply _ _ _ _ _ _ _ Hm Hn En Ho EU) as (m' & Hm' & E). exists m'. split; [done |].
    destruct (IsSigmaSpend (btx t)); lia.
  - destruct (utxo_update_supply _ _ _ _ _ _ _ Hm Hn En Ho EU) as (m' & Hm' & E). exists m'. split; [done |].
    destruct (Hfee eq_refl) as [fee Efee]. unfold inputs_fee in Efee |- *. apply bind_Some in Efee as (outs & HM & EF).
    rewrite HM, obind_Some. destruct (_ && _); [| done]. cbn [from_option id]. unfold utxo_update in EU. rewrite En in EU. cbn [negb] in EU.
    apply bind_Some in EU as ([un1 u2] & ES & [= <- <-]).
    destruct (utxo_spends_Some _ _ _ (ready_inputs _ Hw) (ready_distinct _ Hck En) HM) as (un2 & u3 & ES2 & Eo).
    rewrite ES in ES2. injection ES2 as <- <-. rewrite Eo in E. lia.
Qed.

Lemma update_new u t un u1 t' : utxo_update u (btx t) (btx_hash t) h = Some (un, u1) -> t' <> btx_hash t -> u t' = None -> u1 t' = None.
Proof using All.
  unfold utxo_update. intros ([un1 u2] & E & [= <- <-])%bind_Some Hne Hn. rewrite upd_ne by done.
  destruct (negb (no_coins (btx t))); [by eapply utxo_spends_none | by injection E as _ <-].
Qed.

Lemma coins_no_sigma tx : no_coins tx = false -> IsSigmaSpend tx = false.
Proof using All. unfold no_coins. rewrite !orb_false_iff. by intros [[_ ?] _]. Qed.

Lemma inputs_fee_value u tx n outs :
  is_Some (inputs_fee u tx n) -> mapM (fun i => out_at u (prevout i)) (vin tx) = Some outs ->
  inputs_fee u tx n = Some (total_out outs - total_out (vout tx)).
Proof using All. unfold inputs_fee. intros [f E] HM. rewrite HM, obind_Some in E |- *. by destruct (_ && _). Qed.

Lemma inputs_fee_range u tx n outs :
  is_Some (inputs_fee u tx n) -> mapM (fun i => out_at u (prevout i)) (vin tx) = Some outs ->
  0 <= total_out outs <= MAX_MONEY /\ total_out (vout tx) <= total_out outs.
Proof using All.
  unfold inputs_fee. intros [f E] HM. rewrite HM, obind_Some in E. destruct (_ && _) eqn:EB in E; [| done].
  rewrite !andb_true_iff in EB. destruct EB as [[_ ER] ?%Z.leb_le]. unfold MoneyRange in ER. rewrite andb_true_iff, !Z.leb_le in ER. lia.
Qed.

Lemma checked_app before cks l : checked [] cks l -> checked before cks (before ++ l).
Proof using All. unfold checked. destruct threads; [by intros -> |]. intros [-> ?]. by rewrite app_nil_r. Qed.

(** The invariant after the transaction. *)
Lemma conn_inv_step (bad : Prop) S t ts s un u1 (c' : CCoinsViewCache V) cost undos cks info :
  conn_inv bad S (t :: ts) s -> tx_ready t -> (zc t = true -> bad) -> btx_hash t ∉ cn_txIds s ->
  utxo_update (cache_utxo (cn_view s)) (btx t) (btx_hash t) h = Some (un, u1) -> (forall i, cache_utxo c' i = u1 i) ->
  cache_ok c' -> hashBlock c' = phashBlock bq -> (forall i, utxo (base c') i = utxo (base (cn_view s)) i) ->
  (no_coins (btx t) = false -> is_Some (inputs_fee (cache_utxo (cn_view s)) (btx t) h)) ->
  0 <= cost <= MAX_BLOCK_SIGOPS_COST ->
  conn_inv bad (S + issued t) ts
    (mkConn c' (btx_hash t :: cn_txIds s) (cn_nFees s + tx_fee (cache_utxo (cn_view s)) t) cost undos cks info).
Proof using All.
  intros [Hok Hinv Hbest Hnew Hdup (m & Hm & Hs) Hfees Hsig] Hr Hz Hni EU Hu' Hok' Hb' Hbase Hfee Hcost.
  destruct (Hnew t ltac:(by left) Hni) as [Hn _]. destruct (step_money _ _ _ _ _ Hm Hr Hn EU Hfee) as (m' & Hm' & Es).
  split; cbn [cn_view cn_txIds cn_nFees cn_nSigOpsCost]; try done.
  - eapply utxo_inv_ext; [exact Hu' |]. destruct Hr as [Hw Hck]. destruct (checked_outputs _ Hw Hck) as [Ho Hgd].
    by eapply (utxo_update_inv h); [lia | exact Hinv | exact Ho | exact Hgd | exact EU].
  - intros t' Ht' [Hne Hni']%not_elem_of_cons. destruct (Hnew t' ltac:(by right) Hni') as [H1 H2].
    rewrite Hu', Hbase. split; [| done]. eapply update_new; [exact EU | done | done].
  - destruct Hdup as [?|[Hnd Hall]]; [by left |]. right. inversion Hnd as [|? ? Hx Hy]; subst. split; [done |]. intros t' Ht'.
    apply not_elem_of_cons. split; [| apply Hall; by right]. intros E. apply Hx. rewrite <- E. by apply list_elem_of_fmap_2.
  - exists m'. split; [by intros i; rewrite Hm', Hu' | lia].
  - destruct Hfees as [?|(H1 & [[_ Ez] H2]%Forall_cons_iff & H3)]; [by left |]. right. cbn [issued_all foldr] in H3.
    unfold issued_all. split_and!; [| done | lia]. unfold tx_fee. destruct (no_coins (btx t)).
    + unfold zc in Ez. rewrite !orb_false_iff in Ez. destruct Ez as [[[_ ->] _] _]. lia.
    + destruct (Hfee eq_refl) as [fee E]. rewrite E. cbn [from_option id]. unfold inputs_fee in E. apply bind_Some in E as (outs & _ & E).
      destruct (_ && _) eqn:EB; [| done]. injection E as <-. apply andb_true_iff in EB as [_ ?%Z.leb_le]. lia.
Qed.

Abbreviation connect1 := (connect_tx g g' Verify LowS params ix pindex h fScriptChecks threads flags lockflags).

(** What is known after fees and scripts. *)
Definition fees_post s t txdata (r : Z * list CScriptCheck * CCoinsViewCache V) : Prop :=
  r.1.1 = cn_nFees s + tx_fee (cache_utxo (cn_view s)) t /\ unchanged (cn_view s) r.2 /\
  (no_coins (btx t) = false -> is_Some (inputs_fee (cache_utxo (cn_view s)) (btx t) h)) /\
  exists cks, checked [] cks r.1.2 /\ (no_coins (btx t) = true -> cks = []) /\ (no_coins (btx t) = false -> exists outs,
    mapM (fun i => out_at (cache_utxo (cn_view s)) (prevout i)) (vin (btx t)) = Some outs /\
    cks = if fScriptChecks then input_checks (btx t) 0 flags txdata outs else []).

Lemma fees_step (bad : Prop) S t ts s f1 c2 txdata :
  conn_inv bad S (t :: ts) s -> tx_ready t -> unchanged (cn_view s) c2 -> Precompute g (btx t) = Some txdata ->
  f1 = cn_nFees s + (if IsSigmaSpend (btx t) then GetSigmaSpendInput (btx t) - total_out (vout (btx t)) else 0) ->
  (no_coins (btx t) = false -> exists outs hs, mapM (fun i => out_at (cache_utxo (cn_view s)) (prevout i)) (vin (btx t)) = Some outs /\
    SequenceLocks (ix_heap ix) (btx t) lockflags (input_heights (cache_utxo (cn_view s)) (vin (btx t))) pindex = Ret (true, hs)) ->
  vsafe bad (fees_post s t txdata) (connect_fees g g' Verify LowS ix (btx t) fScriptChecks threads flags f1 txdata c2).
Proof using All.
  intros [Hok Hinv Hbest _ _ (m & Hm & Hs) Hfees _] [Hw Hck] HU12 Ed Ef Hin. destruct (no_coins (btx t)) eqn:En.
  - unfold connect_fees. rewrite En. cbn. unfold fees_post. rewrite En. split_and!; [unfold tx_fee; rewrite En; exact Ef | done | done |].
    exists []. split_and!; try done. unfold checked. by destruct threads.
  - destruct (Hin eq_refl) as (outs & hs & HM & _). eapply vsafe_impl.
    { apply (connect_fees_safe bad (btx t) f1 txdata c2 outs); try done; try (by eapply unchanged_ok).
      - eapply utxo_inv_ext; [| exact Hinv]. intros i. by apply unchanged_utxo.
      - rewrite <- Hbest. apply HU12.
      - by rewrite (mapM_unchanged (cn_view s) c2).
      - destruct Hfees as [?|(H1 & HF & H3)]; [by left |]. right. pose proof (issued_all_nonneg _ HF).
        rewrite (coins_no_sigma _ En) in Ef. subst f1.
        pose proof (spent_le_supply h _ m _ _ Hm Hinv (ready_inputs _ Hw) (ready_distinct _ Hck En) HM). lia. }
    intros [[f2 cks] c3] (E1 & E2 & E3 & HU3). unfold fees_post. cbn [fst snd] in *. rewrite En.
    rewrite (inputs_fee_ext (cache_utxo c2) (cache_utxo (cn_view s))) in E2 by (intros i; by apply unchanged_utxo).
    split_and!; [| by eapply unchanged_trans | done |].
    + rewrite E1, Ef, (coins_no_sigma _ En). unfold tx_fee. rewrite En, (inputs_fee_value _ _ _ _ E2 HM). cbn [from_option id]. lia.
    + eexists. split_and!; [exact E3 | done |]. intros _. by exists outs.
Qed.

Lemma connect_tx_safe (bad : Prop) S (first : bool) t ts s :
  conn_inv bad S (t :: ts) s -> tx_ready t -> (zc t = true -> bad) ->
  vsafe bad (fun s' : connect_state (V := V) => conn_inv bad (S + issued t) ts s' /\ exists un cks,
      tx_step (cache_utxo (cn_view s)) t un cks (cache_utxo (cn_view s')) /\
      cn_vtxundo s' = (if first then cn_vtxundo s else cn_vtxundo s ++ [un]) /\
      checked (cn_checks s) cks (cn_checks s') /\
      cn_nFees s' = cn_nFees s + tx_fee (cache_utxo (cn_view s)) t)
    (connect1 first t s).
Proof using All.
  intros HI Hr Hz. pose proof HI as [Hok Hinv Hbest Hnew Hdup (m & Hm & Hs) Hfees Hsig]. pose proof Hr as [Hw Hck]. unfold connect_tx.
  fold dup_check. destruct (bool_decide _ && dup_check) eqn:ED; [done |].
  assert (Hni : btx_hash t ∉ cn_txIds s).
  { apply andb_false_iff in ED as [?%bool_decide_eq_false|ED]; [done |]. destruct Hdup as [?|[_ Hd]]; [congruence | apply Hd; by left]. }
  destruct (Hnew t ltac:(by left) Hni) as [Hn Hbase].
  eapply vsafe_bind; [by apply (connect_inputs_safe bad (btx t) (cn_view s)) |]. intros c1 [HU1 Hin].
  eapply vsafe_bind; [by apply (connect_zerocoin_safe bad t (cn_nFees s) (cn_info s)) |]. intros [f1 info] Ef. cbn [fst] in Ef.
  eapply vsafe_obnd.
  { apply (GetTransactionSigOpCost_safe bad (btx t) c1 flags); [by eapply unchanged_ok | done | done |]. intros En.
    destruct (Hin En) as (outs & hs & HM & _). exists outs. rewrite (mapM_unchanged (cn_view s) c1) by done. split; [done |].
    eapply list.Forall_impl; [by eapply (mapM_outs_good h) |]. by intros o [(_ & [_ ?] & _) _]. }
  intros [cost c2] [Hc HU2]. cbn [fst snd] in *. pose proof (unchanged_trans _ _ _ HU1 HU2) as HU12.
  change MAX_BLOCK_SIGOPS_COST with 400000 in *. rewrite int64_ok by lia. cbn [obnd].
  destruct (Z.ltb_spec 400000 (cn_nSigOpsCost s + cost)) as [?|Hcost]; [done |].
  destruct (Precompute_ok (btx t) Hw g Hg) as [txdata Ed]. rewrite Ed. cbn [must obnd].
  eapply vsafe_bind; [by apply (fees_step bad S t ts s f1 c2 txdata) |].
  intros [[f2 cks] c3] (E1 & HU3 & Hfee & ck & Hck1 & Hck2 & Hck3). cbn [fst snd] in *. subst f2.
  destruct (update_step c3 t) as (un & u1 & c' & -> & EU & Hu' & Hok' & Hh' & Hb'); [by eapply unchanged_ok | done | | |].
  { destruct HU3 as [(_ & _ & HB) _]. by rewrite HB. }
  { intros En. destruct (Hin En) as (outs & hs & HM & _). rewrite (mapM_unchanged (cn_view s) c3) by done. by exists outs. }
  cbn [must obnd vsafe pass].
  pose proof (utxo_update_ext (cache_utxo c3) (cache_utxo (cn_view s)) (btx t) (btx_hash t) h (fun i => unchanged_utxo _ _ i HU3)) as HE.
  rewrite EU in HE. destruct (utxo_update (cache_utxo (cn_view s)) _ _ _) as [[un' u1']|] eqn:EU'; [| done]. destruct HE as [<- HE].
  split.
  - apply (conn_inv_step bad S t ts s un u1'); try done; [by intros i; rewrite Hu' | | | unfold MAX_BLOCK_SIGOPS_COST; lia].
    + rewrite Hh', <- Hbest. apply HU3.
    + intros i. rewrite Hb'. destruct HU3 as [(_ & _ & HB) _]. apply HB.
  - exists un, ck. cbn [cn_view cn_vtxundo cn_checks cn_nFees]. split_and!; [| done | by apply checked_app | done].
    split; [exists u1'; split; [done | by intros i; rewrite Hu'] | done | done |]. intros En.
    destruct (Hin En) as (outs & hs & HM & HL), (Hck3 En) as (outs' & HM' & Ec). exists outs, txdata, hs.
    assert (outs' = outs) as -> by congruence. by split_and!; [| apply Hfee | | |].
Qed.

(** ** All transactions *)

(** The transactions connect one after the other: undo data, script checks, fees. *)
Inductive block_run : utxo_map -> list block_tx -> list (list CTxInUndo) -> list CScriptCheck -> Z -> utxo_map -> Prop :=
| run_nil u u' : (forall i, u' i = u i) -> block_run u [] [] [] 0 u'
| run_cons u t un cks u1 ts uns ckss fees u' :
    tx_step u t un cks u1 -> block_run u1 ts uns ckss fees u' ->
    block_run u (t :: ts) (un :: uns) (cks ++ ckss) (tx_fee u t + fees) u'.

Lemma checked_trans l0 c1 l1 c2 l2 : checked l0 c1 l1 -> checked l1 c2 l2 -> checked l0 (c1 ++ c2) l2.
Proof using All.
  unfold checked. destruct threads; [intros -> ->; by rewrite <- app_assoc |]. intros [-> H1] [-> H2]. split; [done | by apply Forall_app].
Qed.

Abbreviation connect_all := (connect_txs g g' Verify LowS params ix pindex h fScriptChecks threads flags lockflags).

Lemma connect_txs_safe (bad : Prop) ts S (first : bool) s :
  conn_inv bad S ts s -> Forall tx_ready ts -> (Exists (fun t => zc t = true) ts -> bad) ->
  vsafe bad (fun s' : connect_state (V := V) => conn_inv bad (S + issued_all ts) [] s' /\ exists uns cks fees,
      block_run (cache_utxo (cn_view s)) ts uns cks fees (cache_utxo (cn_view s')) /\
      cn_vtxundo s' = cn_vtxundo s ++ (if first then tail uns else uns) /\
      checked (cn_checks s) cks (cn_checks s') /\ cn_nFees s' = cn_nFees s + fees)
    (connect_all first ts s).
Proof using All.
  revert S first s. induction ts as [|t ts IH]; intros S first s HI HR Hz; cbn [connect_txs].
  { change (issued_all []) with 0. rewrite Z.add_0_r. split; [done |]. exists [], [], 0.
    split_and!; [by apply run_nil | by destruct first; rewrite app_nil_r | unfold checked; destruct threads; [by rewrite app_nil_r | done] | lia]. }
  apply Forall_cons_iff in HR as [Hr HR].
  eapply vsafe_bind; [apply (connect_tx_safe bad S first t ts s HI Hr); intros; apply Hz; by left |].
  intros s1 (HI1 & un & cks & Hstep & Eu & Hck & Ef).
  eapply vsafe_impl; [apply (IH (S + issued t) false s1 HI1 HR); intros; apply Hz; by right |].
  intros s2 (HI2 & uns & ckss & fees & Hrun & Eu2 & Hck2 & Ef2). unfold issued_all in *. cbn [foldr].
  replace (S + (issued t + foldr (fun t n => issued t + n) 0 ts)) with (S + issued t + foldr (fun t n => issued t + n) 0 ts) by lia.
  split; [done |]. exists (un :: uns), (cks ++ ckss), (tx_fee (cache_utxo (cn_view s)) t + fees).
  split_and!; [by econstructor | | by eapply checked_trans | lia]. rewrite Eu2, Eu. destruct first; [done |]. by rewrite <- app_assoc.
Qed.

(** Maps that agree. *)
Lemma tx_fee_ext u v t : (forall i, v i = u i) -> tx_fee v t = tx_fee u t.
Proof using. intros E. unfold tx_fee. by rewrite (inputs_fee_ext v u). Qed.

Lemma tx_step_ext u v t un cks u' : (forall i, v i = u i) -> tx_step u t un cks u' -> tx_step v t un cks u'.
Proof using.
  intros E [(u1 & EU & E1) Hn H1 H2].
  assert (EM : mapM (fun i => out_at v (prevout i)) (vin (btx t)) = mapM (fun i => out_at u (prevout i)) (vin (btx t))).
  { apply mapM_ext. intros i. by apply out_at_ext. }
  assert (EH : input_heights v (vin (btx t)) = input_heights u (vin (btx t))).
  { unfold input_heights. apply list_fmap_ext. intros k i _. by rewrite E. }
  split; [| by rewrite E | done | by rewrite EM, EH, (inputs_fee_ext v u)].
  pose proof (utxo_update_ext v u (btx t) (btx_hash t) h E) as HE. rewrite EU in HE.
  destruct (utxo_update v _ _ _) as [[un1 u2]|]; [| done]. destruct HE as [-> HE]. exists u2. split; [done |]. intros i. by rewrite HE, E1.
Qed.

Lemma block_run_ext u v ts uns cks fees u' : (forall i, v i = u i) -> block_run u ts uns cks fees u' -> block_run v ts uns cks fees u'.
Proof using.
  intros E Hrun. destruct Hrun as [u u' E0|u t un cks u1 ts uns ckss fees u' Hstep Hrun].
  - apply run_nil. intros i. by rewrite E0, E.
  - rewrite <- (tx_fee_ext u v t E). eapply run_cons; [by eapply tx_step_ext | done].
Qed.

Lemma block_run_ext_r u ts uns cks fees u' w : (forall i, w i = u' i) -> block_run u ts uns cks fees u' -> block_run u ts uns cks fees w.
Proof using.
  intros E Hrun. induction Hrun as [u u' E0|u t un cks u1 ts uns ckss fees u' Hstep Hrun IH].
  - apply run_nil. intros i. by rewrite E, E0.
  - eapply run_cons; [done | by apply IH].
Qed.

(** What a run keeps. *)
Lemma step_inv u t un cks u' : utxo_inv h u -> tx_ready t -> tx_step u t un cks u' -> utxo_inv h u'.
Proof using All.
  intros Hu [Hw Hck] [(u1 & EU & E) _ _ _]. destruct (checked_outputs _ Hw Hck) as [Ho Hgd].
  eapply utxo_inv_ext; [exact E |]. by eapply (utxo_update_inv h); [lia | exact Hu | exact Ho | exact Hgd | exact EU].
Qed.

Lemma input_checks_total tx k txdata outs :
  tx_wf tx -> Precompute g tx = Some txdata -> Forall out_good outs -> (k + length outs = length (vin tx))%nat ->
  Forall (fun ck => exists e, run ck = Ret e) (input_checks tx k flags txdata outs).
Proof using All.
  intros Htx Ed. revert k. induction outs as [|o outs IH]; intros k Ho Hk; [constructor |]. apply Forall_cons_iff in Ho as [Hoo Ho].
  cbn [input_checks length] in *. constructor; [by apply (run_total g g' Hg Hg' Verify LowS); try done; lia | apply IH; [done | lia]].
Qed.

Lemma step_total u t un cks u' : utxo_inv h u -> tx_ready t -> tx_step u t un cks u' -> Forall (fun ck => exists e, run ck = Ret e) cks.
Proof using All.
  intros Hu [Hw _] [_ _ H1 H2]. destruct (no_coins (btx t)); [by rewrite (H1 eq_refl); constructor |].
  destruct (H2 eq_refl) as (outs & txdata & hs & HM & _ & _ & Ed & ->). destruct fScriptChecks; [| constructor].
  apply input_checks_total; [done | done | by eapply (mapM_outs_good h) |]. apply length_mapM in HM. lia.
Qed.

Lemma block_run_inv u ts uns cks fees u' :
  block_run u ts uns cks fees u' -> utxo_inv h u -> Forall tx_ready ts ->
  utxo_inv h u' /\ Forall (fun ck => exists e, run ck = Ret e) cks /\ length uns = length ts.
Proof using All.
  induction 1 as [u u' E0|u t un cks u1 ts uns ckss fees u' Hstep _ IH]; intros Hu HR; [split_and!; [by eapply utxo_inv_ext | constructor | done] |].
  apply Forall_cons_iff in HR as [Hr HR]. destruct (IH (step_inv _ _ _ _ _ Hu Hr Hstep) HR) as (H1 & H2 & H3).
  split_and!; [done | apply Forall_app; split; [exact (step_total _ _ _ _ _ Hu Hr Hstep) | done] | cbn; lia].
Qed.

Lemma run_checks_spec cks :
  Forall (fun ck => exists e, run ck = Ret e) cks ->
  exists r : bool, run_checks g g' Verify LowS cks = Ret r /\ (r = true -> Forall (fun ck => run ck = Ret None) cks).
Proof using All.
  induction 1 as [|ck cks [e E] _ (r & Er & IH)]; cbn [run_checks]; [by exists true |]. rewrite E, Er. cbn [obnd]. eexists. split; [done |].
  intros [->%bool_decide_eq_true ->]%andb_true_iff. constructor; [done | by apply IH].
Qed.

(** ** The way back *)

(** A sigma spend is worth at least its outputs. *)
Definition sigma_covered (t : block_tx) : Prop :=
  IsSigmaSpend (btx t) = true -> total_out (vout (btx t)) <= GetSigmaSpendInput (btx t).

Lemma tx_fee_nonneg u t un cks u' : sigma_covered t -> tx_step u t un cks u' -> 0 <= tx_fee u t.
Proof using All.
  intros Hs [_ _ _ H2]. unfold tx_fee, sigma_covered in *. destruct (no_coins (btx t)).
  - destruct (IsSigmaSpend (btx t)); [specialize (Hs eq_refl) |]; lia.
  - destruct (H2 eq_refl) as (outs & _ & _ & HM & HF & _). rewrite (inputs_fee_value _ _ _ _ HF HM). cbn [from_option id].
    destruct (inputs_fee_range _ _ _ _ HF HM). lia.
Qed.

Lemma block_run_fees u ts uns cks fees u' : block_run u ts uns cks fees u' -> Forall sigma_covered ts -> 0 <= fees.
Proof using All.
  induction 1 as [u u' E0|u t un cks u1 ts uns ckss fees u' Hstep _ IH]; intros HS; [done |]. apply Forall_cons_iff in HS as [Hs HS].
  pose proof (tx_fee_nonneg _ _ _ _ _ Hs Hstep). specialize (IH HS). lia.
Qed.

(** The undo data of a transaction that spends coins is there. *)
Definition undo_matches (t : block_tx) (un : list CTxInUndo) (o : option (list CTxInUndo)) : Prop := no_coins (btx t) = false -> o = Some un.

Lemma disconnect_step u t un o cks u' nF rest (c : CCoinsViewCache V) :
  utxo_inv h u -> tx_ready t -> sigma_covered t -> tx_step u t un cks u' -> undo_matches t un o ->
  cache_ok c -> (forall i, cache_utxo c i = u' i) -> 0 <= nF -> nF + tx_fee u t < 2 ^ 63 ->
  exists c', disconnect_txs ((t, o) :: rest) h nF true c = disconnect_txs rest h (nF + tx_fee u t) true c' /\
    cache_ok c' /\ forall i, cache_utxo c' i = u i.
Proof using All.
  intros Hu [Hw Hck] Hs Hstep Hm Hc E Hn Hf'. pose proof (tx_fee_nonneg _ _ _ _ _ Hs Hstep) as Hpos.
  destruct Hstep as [(u1 & EU & E1) Hnew _ H2]. destruct (checked_outputs _ Hw Hck) as [Ho _]. destruct (checked_value _ Hck) as [EV Hv].
  change MAX_MONEY with 999999900000000 in Hv.
  assert (Hun : (if no_coins (btx t) then Ret [] else must o) = Ret un).
  { destruct (no_coins (btx t)) eqn:En; [| by rewrite (Hm En)]. unfold utxo_update in EU. rewrite En in EU. by injection EU as <- _. }
  cbn [disconnect_txs]. rewrite Hun. cbn [obnd].
  destruct (disconnect_restores u (btx t) (btx_hash t) h un u1 c) as (c1 & -> & Hc1 & Hu1); try done.
  { by apply (utxo_inv_good h); [lia |]. }
  { by apply ready_inputs. }
  { intros i. by rewrite E, E1. }
  cbn [must obnd]. unfold tx_fee in Hpos, Hf' |- *. destruct (no_coins (btx t)) eqn:En; cbn [negb obnd].
  - exists c1. destruct (IsSigmaSpend (btx t)) eqn:Es; [| by rewrite Z.add_0_r]. rewrite EV. cbn [obnd must].
    rewrite int64_ok by lia. cbn [obnd]. rewrite int64_ok by lia. done.
  - destruct (H2 eq_refl) as (outs & _ & _ & HM & HF & _). pose proof (inputs_fee_range _ _ _ _ HF HM) as [Hmr _].
    change MAX_MONEY with 999999900000000 in Hmr. rewrite (inputs_fee_value _ _ _ _ HF HM) in Hpos, Hf' |- *. cbn [from_option id] in *.
    assert (HM1 : mapM (fun i => out_at (cache_utxo c1) (prevout i)) (vin (btx t)) = Some outs).
    { rewrite <- HM. apply mapM_ext. intros i. by apply out_at_ext. }
    pose proof (mapM_outs_good h _ _ _ Hu HM) as Hgood.
    assert (Hp : Forall (fun o => 0 <= nValue o) outs) by (eapply list.Forall_impl; [exact Hgood |]; by intros ? [_ [? _]]).
    pose proof (total_out_nonneg outs Hp). unfold GetValueIn. rewrite En.
    pose proof (GetValueIn_loop_safe False (vin (btx t)) c1 outs 0 Hc1 HM1 Hp ltac:(right; lia)) as HV1.
    destruct (GetValueIn_loop c1 (vin (btx t)) 0) as [[v c2]| | |]; cbn [osafe fst snd] in HV1; try done. destruct HV1 as [-> HU].
    cbn [obnd]. rewrite EV. cbn [obnd must]. rewrite int64_ok by lia. cbn [obnd]. rewrite int64_ok by lia. cbn [obnd].
    rewrite (coins_no_sigma _ En). cbn [obnd]. exists c2. split_and!; [f_equal; lia | by eapply unchanged_ok |].
    intros i. by rewrite (unchanged_utxo c1 c2).
Qed.

Lemma disconnect_run u ts uns cks fees u' :
  block_run u ts uns cks fees u' -> utxo_inv h u -> Forall tx_ready ts -> Forall sigma_covered ts ->
  forall os rest nF (c : CCoinsViewCache V), Forall3 undo_matches ts uns os ->
  cache_ok c -> (forall i, cache_utxo c i = u' i) -> 0 <= nF -> nF + fees < 2 ^ 63 ->
  exists c', disconnect_txs (rev (zip ts os) ++ rest) h nF true c = disconnect_txs rest h (nF + fees) true c' /\
    cache_ok c' /\ forall i, cache_utxo c' i = u i.
Proof using All.
  induction 1 as [u u' E0|u t un cks u1 ts uns ckss fees u' Hstep Hrun IH]; intros Hu HR HS os rest nF c H3 Hc E Hn Hb'; inversion H3; subst.
  { exists c. rewrite Z.add_0_r. split_and!; [done | done |]. intros i. by rewrite E, E0. }
  apply Forall_cons_iff in HR as [Hr HR], HS as [Hs HS]. pose proof (tx_fee_nonneg _ _ _ _ _ Hs Hstep) as Hp.
  pose proof (block_run_fees _ _ _ _ _ _ Hrun HS) as Hp2. cbn [zip rev]. rewrite <- app_assoc.
  match goal with |- context [[(t, ?o)] ++ rest] => change ([(t, o)] ++ rest) with ((t, o) :: rest); destruct (IH (step_inv _ _ _ _ _ Hu Hr Hstep) HR HS k' ((t, o) :: rest) nF c) as (c1 & -> & Hc1 & E1); try done; [lia |];
    destruct (disconnect_step u t un o cks u1 (nF + fees) rest c1) as (c2 & -> & Hc2 & E2); try done; [lia | lia |] end.
  exists c2. split; [f_equal; lia | done].
Qed.

(** ** The whole block *)

(** The block connects: the undo data, the view after it. *)
Record body_post (S : Z) (block : CBlock) (u : utxo_map) (undo : list (list CTxInUndo)) (view' : CCoinsViewCache V)
    (uns : list (list CTxInUndo)) (cks : list CScriptCheck) (fees : Z) : Prop := {
  bp_run : block_run u (vtx block) uns cks fees (cache_utxo view');
  bp_undo : undo = tail uns;
  bp_scripts : Forall (fun ck => run ck = Ret None) cks;
  bp_ok : cache_ok view';
  bp_best : hashBlock view' = phashBlock bq;
  bp_inv : utxo_inv h (cache_utxo view');
  bp_reward : exists t, head (vtx block) = Some t /\ total_out (vout (btx t)) <= fees + GetBlockSubsidy h < 2 ^ 63;
  bp_money : exists m', represents m' (cache_utxo view') /\ supply m' + fees <= S + issued_all (vtx block);
}.

Definition start (view : CCoinsViewCache V) : connect_state := mkConn view [] 0 0 [] [] (Some new_info).

Lemma connect_body_safe (bad : Prop) S block view :
  conn_inv bad S (vtx block) (start view) -> Forall tx_ready (vtx block) -> (Exists (fun t => zc t = true) (vtx block) -> bad) ->
  is_Some (head (vtx block)) ->
  (forall info, vsafe bad (fun _ => True) (ConnectBlockZC block info)) -> (forall info, vsafe bad (fun _ => True) (ConnectBlockSigma block info)) ->
  vsafe bad (fun r => exists uns cks fees, body_post S block (cache_utxo view) r.1 r.2 uns cks fees)
    (connect_body g g' Verify LowS params ix block pindex h fScriptChecks threads flags lockflags view).
Proof using All.
  intros HI HR Hz [t0 Et0] HZ HS. unfold connect_body. eapply vsafe_bind; [by apply (connect_txs_safe bad (vtx block) S true (start view)) |].
  intros s (HI' & uns & cks & fees & Hrun & Eu & Hck & Ef). cbn [start cn_view cn_vtxundo cn_checks cn_nFees] in *. rewrite Z.add_0_l in Ef.
  destruct HI' as [Hok Hinv Hbest _ _ (m' & Hm' & Hs') Hfees _]. pose proof (supply_nonneg h m' _ Hm' Hinv) as Hnn'.
  pose proof (subsidy_bound h) as Hsub. destruct (block_run_inv _ _ _ _ _ _ Hrun (ci_inv _ _ _ _ HI) HR) as (_ & Htot & _).
  unfold block_reward. rewrite Ef in *.
  destruct (int64_cases (fees + GetBlockSubsidy h)) as [[-> Hlt]|[-> Hno]];
    [| destruct Hfees as [?|(? & _ & ?)]; [done | change (issued_all []) with 0 in *; lia]].
  cbn [obnd]. rewrite Et0. cbn [must obnd].
  assert (tx_checked (btx t0)) as Hck0. { destruct (vtx block) as [|x l]; [done |]. injection Et0 as ->. apply Forall_cons_iff in HR as [[_ ?] _]. done. }
  destruct (checked_value _ Hck0) as [EV _]. rewrite EV. cbn [obnd must].
  destruct (Z.ltb_spec (fees + GetBlockSubsidy h) (total_out (vout (btx t0)))) as [?|Hle]; [done |].
  destruct (negb (IsBlockValueValid _ _ _)); [done |]. destruct (negb (IsBlockPayeeValid _ _ _)); [done |].
  assert (HT : Forall (fun ck => exists e, run ck = Ret e) (cn_checks s)).
  { unfold checked in Hck. destruct threads; [by rewrite Hck | destruct Hck as [-> _]; constructor]. }
  destruct (run_checks_spec (cn_checks s) HT) as (r & -> & HC). cbn [obnd]. destruct r; [| done]. cbn [negb].
  eapply (vsafe_bind bad (fun _ => True)); [eapply vsafe_bind; [apply HZ |]; intros [] _; apply HS |]. intros [] _. cbn.
  exists uns, cks, fees. split; try done; [| exists t0; split; [done | lia] | by exists m'].
  unfold checked in Hck. destruct threads; [rewrite Hck in HC; by apply HC | apply Hck].
Qed.

End Loop.

(** ** BIP30 *)

Lemma bip30_spec {V} {HV : CCoinsView V} {OK : CCoinsViewOk V} ts (view : CCoinsViewCache V) :
  cache_ok view ->
  vsafe False (fun view' => unchanged view view' /\ forall t, t ∈ ts -> cache_utxo view (btx_hash t) = None) (bip30 ts view).
Proof.
  revert view. induction ts as [|t ts IH]; intros view Hc; cbn [bip30].
  { split; [by apply unchanged_refl |]. by intros t ?%not_elem_of_nil. }
  destruct (AccessCoins_norm view (btx_hash t) Hc) as [HU HN]. destruct (AccessCoins view (btx_hash t)) as [r view1]. cbn [fst snd] in *.
  assert (HG : cache_utxo view (btx_hash t) = None -> vsafe False (fun view' => unchanged view view' /\
    forall t', t' ∈ t :: ts -> cache_utxo view (btx_hash t') = None) (bip30 ts view1)).
  { intros Hn. eapply vsafe_impl; [apply IH; by eapply unchanged_ok |]. intros view2 [HU2 Hts]. split; [by eapply unchanged_trans |].
    intros t' [->|Ht']%elem_of_cons; [done |]. rewrite <- (unchanged_utxo view view1) by done. by apply Hts. }
  destruct r as [cs|]; [| by apply HG]. destruct (IsPruned cs) eqn:Ep; cbn [negb]; [| done]. apply HG. rewrite <- HN. cbn. unfold norm. by rewrite Ep.
Qed.
