(* ===== verification/ConnectTheorems.v ===== *)
(** * Theorems about blocks: what an accepted block satisfies, and how the tip moves *)

From stdpp Require Import gmap.
From Stdlib Require Import String.
From S2P Require Import Prelude Lyra2 MdHash Hash Merkle ArithUint Pow BlockIndex BlockIndexProofs BlockIndexTheorems MedianTime VersionBits VersionBitsTheorems BlockPow Script ScriptProofs Interpreter InterpreterProofs SoftFork P2pkh Serialize Transaction TransactionTheorems SigHash SigHashTheorems Compressor Coins CoinsUndo TxVerify CoinsTheorems SeqLocks Block BlockTheorems Connect ConnectProofs.
#[local] Open Scope verdict_scope.
#[local] Open Scope Z_scope.

(** ** The rules that apply *)

Lemma block_flags_valid params ix block b vb flags lockflags vb' :
  1349049600 <= GetBlockTime b -> block_flags params ix block b vb = Ret (flags, lockflags, vb') ->
  flags_valid flags /\ has flags SCRIPT_VERIFY_STRICTENC = false.
Proof.
  intros Ht. unfold block_flags. rewrite (proj2 (Z.leb_le _ _) Ht).
  intros (der & _ & (cltv & _ & ([csv vb1] & _ & E)%obnd_ret)%obnd_ret)%obnd_ret. revert E.
  destruct csv; intros ([wit vb2] & _ & E)%obnd_ret; injection E as <- _ _; destruct der, cltv, wit; (split; [split |]; vm_compute; done).
Qed.

(** ** The tip *)

Section Tip.
Context {A : Abi} {HA : AbiOk A} {R : OtherRules}.
Context (g g' : list Z) (Hg : length g = 64%nat) (Hg' : length g' = 64%nat).
Context (Verify : list Z -> list Z -> list Z -> bool) (LowS : list Z -> bool).
Context (al : allocs) (params : ChainParams) (ix : index).
Context {V : Type} {HV : CCoinsView V} {OK : CCoinsViewOk V}.

(** The index as [AddToBlockIndex] keeps it, with 32-bit times and hashes that are not zero. *)
Record index_good : Prop := {
  ig_ok : index_ok ix;
  ig_times : map_Forall (fun _ b => 0 <= nTime b < 2 ^ 32) (ix_heap ix);
  ig_null : map_Forall (fun _ b => uint256_IsNull (phashBlock b) = false) (ix_heap ix);
}.
Context (Hix : index_good).

(** The chain ends in [q], and the coins are those after [q]. *)
Record at_tip (st : chain_state (V := V)) (q : positive) (bq : CBlockIndex) : Prop := {
  at_entry : ix_heap ix !! q = Some bq;
  at_chain : chain_of (ix_heap ix) (chainActive st) (Some q);
  at_best : hashBlock (pcoinsTip st) = phashBlock bq;
  at_ok : cache_ok (pcoinsTip st);
  at_inv : utxo_inv (BlockIndex.nHeight bq) (cache_utxo (pcoinsTip st));
  at_finite : exists m, represents m (cache_utxo (pcoinsTip st));
}.

(** The next block: its transactions are in range, its ids distinct or checked to be. *)
Record next_block (q : positive) (block : CBlock) (fChecked : bool) (pindex : positive) (b : CBlockIndex) : Prop := {
  nb_entry : ix_heap ix !! pindex = Some b;
  nb_prev : pprev b = Some q;
  nb_height : BlockIndex.nHeight b < 2 ^ 31 - 2 ^ 16;
  nb_time : 1349049600 <= GetBlockTime b;
  nb_genesis : BlockIndex.GetHash g (blk_header block) <> Some (hashGenesisBlock params);
  nb_wf : Forall (fun t => tx_wf (btx t)) (vtx block);
  nb_ids : NoDup (btx_hash <$> vtx block) \/ cp_fTestNet params || (HF_XNODE_HEIGHT <=? BlockIndex.nHeight b) = true;
  nb_checked : fChecked = true -> block_checked block;
}.

Lemma chain_tip v q : chain_of (ix_heap ix) v (Some q) -> BlockIndex.Tip v = Some q.
Proof using All.
  intros (bq & Hq & ->). pose proof (io_wf _ (ig_ok Hix)) as Hwf. pose proof (eo_height _ _ _ (entry _ Hwf q bq Hq)) as Hnn.
  unfold BlockIndex.Tip. assert (HL : length (path (ix_heap ix) q (Z.to_nat (BlockIndex.nHeight bq))) = S (Z.to_nat (BlockIndex.nHeight bq))).
  { unfold path. by rewrite length_fmap, length_seq. }
  rewrite HL. cbn [Nat.ltb Nat.leb]. replace (S _ - 1)%nat with (Z.to_nat (BlockIndex.nHeight bq)) by lia.
  rewrite path_lookup by lia. cbn. rewrite Z2Nat.id by lia. by apply (ancestor_self (ix_heap ix)).
Qed.

Lemma new_view_ok (c : CCoinsViewCache V) : cache_ok c -> cache_ok (new_view c).
Proof using All. intros Hc. split; [exact Hc | done |]. intros t e. cbn [new_view cacheCoins]. by rewrite lookup_empty. Qed.

Lemma new_view_utxo (c : CCoinsViewCache V) t : cache_utxo (new_view c) t = cache_utxo c t.
Proof using All. unfold cache_utxo at 1. cbn [new_view cacheCoins base]. by rewrite lookup_empty. Qed.

Lemma new_view_best (c : CCoinsViewCache V) :
  uint256_IsNull (hashBlock c) = false ->
  cache_GetBestBlock (new_view c) = (hashBlock c, mkCache c false (hashBlock c) ∅).
Proof using All. intros Hn. unfold cache_GetBestBlock at 1. cbn. unfold cache_GetBestBlock. by rewrite Hn. Qed.

(** Nothing is pending in [c], as far as [u] goes. *)
Lemma start_inv (bad : Prop) q bq block fChecked pindex b (c0 : CCoinsViewCache V) (view : CCoinsViewCache (CCoinsViewCache V)) m :
  ix_heap ix !! q = Some bq -> next_block q block fChecked pindex b -> cache_ok c0 -> utxo_inv (BlockIndex.nHeight bq) (cache_utxo c0) ->
  unchanged (mkCache c0 false (phashBlock bq) ∅) view ->
  (forall t, t ∈ vtx block -> cache_utxo c0 (btx_hash t) = None) -> represents m (cache_utxo c0) ->
  bad \/ Forall (fun t => tx_ready t /\ zc t = false) (vtx block) /\ supply m + issued_all (vtx block) < 2 ^ 62 ->
  conn_inv params b bq bad (supply m) (vtx block) (start view).
Proof using All.
  intros Hq [Hb Hp Hht _ _ _ Hids _] Hc0 Hinv HU Hnew Hm Hbad.
  pose proof (io_wf _ (ig_ok Hix)) as Hwf. pose proof (eo_prev _ _ _ (entry _ Hwf pindex b Hb)) as HP. rewrite Hp in HP.
  destruct HP as (bq' & Hq' & Eh). assert (bq' = bq) as -> by congruence.
  assert (Hu : forall t, cache_utxo view t = cache_utxo c0 t).
  { intros t. rewrite (unchanged_utxo _ _ t HU). unfold cache_utxo at 1. cbn [cacheCoins base]. by rewrite lookup_empty. }
  split; cbn [start cn_view cn_txIds cn_nFees cn_nSigOpsCost].
  - by eapply unchanged_ok.
  - eapply utxo_inv_ext; [exact Hu |]. eapply utxo_inv_mono; [| exact Hinv]. lia.
  - by destruct HU as [_ ->].
  - intros t Ht _. rewrite Hu. split; [by apply Hnew |]. destruct HU as [(_ & _ & HB) _]. rewrite HB. by apply Hnew.
  - destruct Hids as [Hnd|Hd]; [right | by left]. split; [done |]. intros t _. by apply not_elem_of_nil.
  - exists m. split; [by intros t; rewrite Hm, Hu | lia].
  - destruct Hbad as [?|[? ?]]; [by left | by right].
  - done.
Qed.

Abbreviation run_of b pindex fsc flags lockflags := (block_run g ix pindex b fsc flags lockflags).

(** The flags of a block, and whether its scripts are checked. *)
Definition rules_of (cpe : bool) (cps : list (Z * list Z)) (block : CBlock) (pindex : positive) (b : CBlockIndex) (vb : VersionBitsCache)
    (fsc : bool) (flags lockflags : Z) : Prop :=
  script_checks ix cpe cps pindex (BlockIndex.nHeight b) = Ret fsc /\ exists vb', block_flags params ix block b vb = Ret (flags, lockflags, vb').

(** The height of the new block is positive. *)
Lemma next_height q bq block fChecked pindex b :
  ix_heap ix !! q = Some bq -> next_block q block fChecked pindex b -> BlockIndex.nHeight b = BlockIndex.nHeight bq + 1 /\ 0 < BlockIndex.nHeight b.
Proof using All.
  intros Hq [Hb Hp _ _ _ _ _ _]. pose proof (io_wf _ (ig_ok Hix)) as Hwf. pose proof (eo_prev _ _ _ (entry _ Hwf pindex b Hb)) as HP. rewrite Hp in HP.
  destruct HP as (bq' & Hq' & Eh). assert (bq' = bq) as -> by congruence. pose proof (eo_height _ _ _ (entry _ Hwf q bq Hq)). lia.
Qed.

Lemma block_ready q block fChecked pindex b : next_block q block fChecked pindex b -> block_checked block -> Forall tx_ready (vtx block) /\ is_Some (head (vtx block)).
Proof using All.
  intros [_ _ _ _ _ Hwf _ _] [(t & ts & E & _) Hck]. split; [| by rewrite E; exists t].
  rewrite list.Forall_forall in Hwf, Hck |- *. intros x Hx. split; [by apply Hwf | by apply Hck].
Qed.

(** The part of [ConnectBlock] after [CheckBlock]. *)
Lemma connect_body_next (bad : Prop) q bq block fChecked pindex b (st : chain_state (V := V)) cpe cps threads vb fsc flags lockflags view m :
  at_tip st q bq -> next_block q block fChecked pindex b -> block_checked block -> rules_of cpe cps block pindex b vb fsc flags lockflags ->
  unchanged (mkCache (pcoinsTip st) false (phashBlock bq) ∅) view ->
  (forall t, t ∈ vtx block -> cache_utxo (pcoinsTip st) (btx_hash t) = None) -> represents m (cache_utxo (pcoinsTip st)) ->
  bad \/ Forall (fun t => zc t = false) (vtx block) /\ supply m + issued_all (vtx block) < 2 ^ 62 ->
  (forall info, vsafe bad (fun _ => True) (ConnectBlockZC block info)) -> (forall info, vsafe bad (fun _ => True) (ConnectBlockSigma block info)) ->
  vsafe bad (fun r => exists uns cks fees,
      body_post g g' Verify LowS ix pindex b bq fsc flags lockflags (supply m) block (cache_utxo (pcoinsTip st)) r.1 r.2 uns cks fees)
    (connect_body g g' Verify LowS params ix block pindex (BlockIndex.nHeight b) fsc threads flags lockflags view).
Proof using All.
  intros [Hq Hch Hbest Hok Hinv _] Hnb Hbc [_ [vb' HF]] HU Hnew Hm Hbad HZ HS.
  pose proof (next_height _ _ _ _ _ _ Hq Hnb) as [_ Hpos]. destruct (block_ready _ _ _ _ _ Hnb Hbc) as [HR Hhd].
  destruct (block_flags_valid _ _ _ _ _ _ _ _ (nb_time _ _ _ _ _ Hnb) HF) as [Hfv Hse].
  assert (HI : conn_inv params b bq bad (supply m) (vtx block) (start view)).
  { apply (start_inv bad q bq block fChecked pindex b (pcoinsTip st)); try done. destruct Hbad as [?|[Hz Hs]]; [by left | right]. split; [| done].
    rewrite list.Forall_forall in HR, Hz |- *. intros t Ht. split; [by apply HR | by apply Hz]. }
  pose proof Hnb as [Hb Hp Hht _ _ _ _ _]. pose proof (proj2 (io_map _ (ig_ok Hix) _ q) (ex_intro _ bq (conj Hq eq_refl))) as Hmap.
  eapply vsafe_impl.
  { eapply (connect_body_safe g g' Hg Hg' Verify LowS params ix pindex b q bq (io_wf _ (ig_ok Hix)) (ig_times Hix) Hb Hp Hq Hmap
      (ig_null Hix q bq Hq) (conj Hpos Hht) fsc threads flags lockflags Hfv Hse bad (supply m) block view); try done.
    intros HE. destruct Hbad as [?|[Hz _]]; [done |]. apply list.Exists_exists in HE as (t & Ht & E). rewrite list.Forall_forall in Hz. by rewrite (Hz t Ht) in E. }
  intros r (uns & cks & fees & [H1 H2 H3 H4 H5 H5i H6 H7]). exists uns, cks, fees. split; try done.
  eapply block_run_ext; [| exact H1]. intros i. rewrite (unchanged_utxo _ _ i HU). unfold cache_utxo at 2. cbn [cacheCoins base]. by rewrite lookup_empty.
Qed.

Lemma SetBestBlock_ok {W} {HW : CCoinsView W} {OKW : CCoinsViewOk W} (c : CCoinsViewCache W) x : cache_ok c -> cache_ok (SetBestBlock c x).
Proof using All. intros [H1 H2 H3]. by split. Qed.

Lemma Flush_base (view : CCoinsViewCache (CCoinsViewCache V)) :
  cache_ok view -> exists v, Flush view = Some v /\ cache_ok (base v) /\ hashBlock (base v) = hashBlock view /\
    forall t, cache_utxo (base v) t = cache_utxo view t.
Proof using All.
  intros Hc. destruct (Flush_spec view Hc) as (v & E & Hv & He & Hu). exists v. split_and!; [done | apply Hv | |].
  - unfold Flush in E. apply bind_Some in E as (c & Ec & [= <-]). cbn [base]. cbn in Ec. unfold cache_BatchWrite in Ec.
    destruct (hasModifier (base view)); [done |]. by injection Ec as <-.
  - intros t. rewrite <- Hu. unfold cache_utxo at 2. by rewrite He, lookup_empty.
Qed.

(** What is known of a block that became the tip. *)
Record connected (cpe : bool) (cps : list (Z * list Z)) (st : chain_state (V := V)) (block : CBlock) (pindex : positive) (b : CBlockIndex)
    (undo : list (list CTxInUndo)) (st1 : chain_state (V := V))
    (fsc : bool) (flags lockflags : Z) (uns : list (list CTxInUndo)) (cks : list CScriptCheck) (fees : Z) : Prop := {
  cd_checked : block_checked block;
  cd_rules : rules_of cpe cps block pindex b (ch_versionbits (ch_caches st)) fsc flags lockflags;
  cd_run : block_run g ix pindex b fsc flags lockflags (cache_utxo (pcoinsTip st)) (vtx block) uns cks fees (cache_utxo (pcoinsTip st1));
  cd_undo : undo = tail uns;
  cd_scripts : Forall (fun ck => CScriptCheck_run g g' Verify LowS ck = Ret None) cks;
  cd_reward : exists t, head (vtx block) = Some t /\ total_out (vout (btx t)) <= fees + GetBlockSubsidy (BlockIndex.nHeight b) < 2 ^ 63;
  cd_money : forall m, represents m (cache_utxo (pcoinsTip st)) ->
    exists m', represents m' (cache_utxo (pcoinsTip st1)) /\ supply m' + fees <= supply m + issued_all (vtx block);
  cd_tip : at_tip st1 pindex b;
}.

(** From the end of [ConnectBlock] to the new state. *)
Lemma connected_flush cpe cps st q bq block fChecked pindex b fsc flags lockflags m undo view uns cks fees v chain caches :
  at_tip st q bq -> next_block q block fChecked pindex b -> block_checked block ->
  rules_of cpe cps block pindex b (ch_versionbits (ch_caches st)) fsc flags lockflags -> represents m (cache_utxo (pcoinsTip st)) ->
  body_post g g' Verify LowS ix pindex b bq fsc flags lockflags (supply m) block (cache_utxo (pcoinsTip st)) undo view uns cks fees ->
  Flush (SetBestBlock view (phashBlock b)) = Some v -> SetTip (ix_heap ix) (chainActive st) (Some pindex) = Some chain ->
  connected cpe cps st block pindex b undo (mkChain (base v) chain caches) fsc flags lockflags uns cks fees.
Proof using All.
  intros [Hq Hch _ _ Hinv _] Hnb Hbc Hrules Hm [H1 H2 H3 H4 H5 H5i H6 H7] EF EC.
  destruct (Flush_base (SetBestBlock view (phashBlock b)) (SetBestBlock_ok _ _ H4)) as (v' & EF' & Hok & Hbest & Hu).
  assert (v' = v) as -> by congruence. change (cache_utxo (SetBestBlock view (phashBlock b))) with (cache_utxo view) in Hu.
  pose proof (io_wf _ (ig_ok Hix)) as Hwf. pose proof Hnb as [Hb Hp Hht _ _ _ _ _]. destruct (next_height _ _ _ _ _ _ Hq Hnb) as [Eh Hpos].
  destruct H7 as (m' & Hm' & Hs). destruct (block_ready _ _ _ _ _ Hnb Hbc) as [HR _].
  assert (HRep : represents m' (cache_utxo (base v))) by (intros t; by rewrite Hm', Hu).
  split; cbn [pcoinsTip]; try done.
  - eapply block_run_ext_r; [exact Hu | exact H1].
  - intros m2 Hm2. assert (m2 = m) as -> by (apply map_eq; intros t; by rewrite Hm2, Hm). by exists m'.
  - split; cbn [pcoinsTip chainActive]; try done; [| | by exists m'].
    + rewrite (SetTip_ok _ Hwf _ _ _ _ Hch Hb) in EC. injection EC as <-. by exists b.
    + eapply utxo_inv_ext; [exact Hu |]. exact H5i.
Qed.

Abbreviation connect_tip := (ConnectTip g g' Verify LowS al params ix).

(** ** No undefined behaviour *)

(** What the deployments ask of the parameters and of the caches. *)
Record deployments_good (vb : VersionBitsCache) : Prop := {
  dg_times : times_ok (ix_heap ix);
  dg_window : 0 < nMinerConfirmationWindow (cp_versionbits params) < 2 ^ 31;
  dg_deps : forall pos, pos = DEPLOYMENT_CSV \/ pos = DEPLOYMENT_SEGWIT ->
    exists d, vDeployments (cp_versionbits params) !! pos = Some d /\ deployment_ok d /\ (pos < length vb)%nat;
  dg_caches : caches_ok (ix_heap ix) (cp_versionbits params) vb;
}.

Lemma version_state_total p pos vb :
  deployments_good vb -> pos = DEPLOYMENT_CSV \/ pos = DEPLOYMENT_SEGWIT -> (forall q, p = Some q -> is_Some (ix_heap ix !! q)) ->
  exists r vb', version_state params ix p pos vb = Ret (r, vb') /\ deployments_good vb'.
Proof using Hix.
  intros [Ht Hw Hd Hc] Hpos Hp. destruct (Hd pos Hpos) as (d & Ed & Hok & Hl).
  destruct (VersionBitsState_ok (ix_heap ix) (cp_versionbits params) pos d p vb (io_wf _ (ig_ok Hix)) Ht Hw Ed Hok Hl Hp Hc) as (mask & vb' & _ & E & Hc' & Hl').
  unfold version_state. rewrite E. cbn [must obnd]. do 2 eexists. split; [done |]. split; try done. intros pos' H'.
  destruct (Hd pos' H') as (d' & ? & ? & ?). exists d'. by rewrite Hl'.
Qed.

Lemma majority_total n minVersion p nRequired nFound :
  (forall q, p = Some q -> is_Some (ix_heap ix !! q)) -> exists r, majority_loop ix n minVersion p nRequired nFound = Some r.
Proof using Hix.
  revert p nFound. induction n as [|n IH]; intros p nFound Hp; cbn [majority_loop]; [by eexists |]. destruct (_ <? _); [| by eexists].
  destruct p as [q|]; [| by eexists]. destruct (Hp q eq_refl) as [b Hb]. rewrite Hb, obind_Some. apply IH. intros q' E.
  pose proof (eo_prev _ _ _ (entry _ (io_wf _ (ig_ok Hix)) q b Hb)) as HP. rewrite E in HP. destruct HP as (b' & ? & _). by exists b'.
Qed.

Lemma supermajority_total minVersion p nRequired :
  (forall q, p = Some q -> is_Some (ix_heap ix !! q)) -> exists r, IsSuperMajority params ix minVersion p nRequired = Some r.
Proof using Hix.
  intros Hp. unfold IsSuperMajority. destruct (majority_total (Z.to_nat (nMajorityWindow params)) minVersion p nRequired 0 Hp) as [r ->].
  rewrite obind_Some. by eexists.
Qed.

Lemma block_flags_total block b vb :
  deployments_good vb -> (forall q, pprev b = Some q -> is_Some (ix_heap ix !! q)) -> exists r, block_flags params ix block b vb = Ret r.
Proof using Hix.
  intros Hd Hp. unfold block_flags.
  assert (HM : forall n (v : bool), exists r, (if v then must (IsSuperMajority params ix n (pprev b) (nMajorityEnforceBlockUpgrade params)) else Ret false) = Ret r).
  { intros n [|]; [| by eexists]. destruct (supermajority_total n (pprev b) (nMajorityEnforceBlockUpgrade params) Hp) as [r ->]. by exists r. }
  destruct (HM 3 (3 <=? h_nVersion (blk_header block))) as [der ->]. cbn [obnd]. destruct (HM 4 (4 <=? h_nVersion (blk_header block))) as [cltv ->]. cbn [obnd].
  destruct (version_state_total (pprev b) DEPLOYMENT_CSV vb Hd ltac:(by left) Hp) as (csv & vb1 & -> & Hd1). cbn [obnd]. unfold IsWitnessEnabled.
  destruct (version_state_total (pprev b) DEPLOYMENT_SEGWIT vb1 Hd1 ltac:(by right) Hp) as (wit & vb2 & E & _).
  destruct csv; rewrite E; cbn [obnd]; by eexists.
Qed.

Lemma script_checks_total cpe cps pindex h : exists r, script_checks ix cpe cps pindex h = Ret r.
Proof using Hix.
  unfold script_checks. destruct cpe; [| by eexists]. destruct (GetLastCheckpoint ix cps) as [q|] eqn:E; [| by eexists].
  assert (exists b, ix_heap ix !! q = Some b) as [b Hb].
  { unfold GetLastCheckpoint in E. assert (HG : forall (l : list (Z * list Z)) (r : option positive), (forall q, r = Some q -> exists b, ix_heap ix !! q = Some b) ->
      foldl (fun r '(_, hash) => match mapBlockIndex ix !! hash with Some q => Some q | None => r end) r l = Some q -> exists b, ix_heap ix !! q = Some b).
    { induction l as [|[z hash] l IH]; intros r Hr; [by apply Hr |]. cbn [foldl]. apply IH. intros q'. destruct (mapBlockIndex ix !! hash) as [q2|] eqn:Eh; [| apply Hr].
      intros [= <-]. apply (io_map _ (ig_ok Hix)) in Eh as (b & ? & _). by exists b. }
    by eapply HG; [| exact E]. }
  rewrite (GetAncestor_ok _ (io_wf _ (ig_ok Hix)) q b) by done. cbn [must obnd]. by eexists.
Qed.

Lemma issued_small block :
  block_checked block -> Forall (fun t => zc t = false) (vtx block) -> issued_all (vtx block) <= MAX_MONEY.
Proof using All.
  intros [(t & ts & E & Hcb & Hts) Hck] Hz. rewrite E in *. unfold issued_all. cbn [foldr].
  change (foldr (fun t n => issued t + n) 0 ts) with (issued_all ts).
  apply Forall_cons_iff in Hck as [Hc _], Hz as [Hzt Hz]. destruct (checked_value _ Hc) as [_ Hv].
  assert (issued_all ts = 0) as ->.
  { clear E. induction ts as [|x ts IH]; [done |]. apply Forall_cons_iff in Hts as [Hx Hts], Hz as [Hzx Hz]. unfold issued_all in *. cbn [foldr].
    rewrite IH by done. unfold issued. unfold zc in Hzx. rewrite !orb_false_iff in Hzx. destruct Hzx as [[[[H1 _] H2] _] H3].
    unfold no_coins. by rewrite Hx, H1, H2, H3. }
  unfold issued. unfold no_coins. rewrite Hcb. cbn [orb]. unfold zc in Hzt. rewrite !orb_false_iff in Hzt. destruct Hzt as [[[_ ->] _] _]. lia.
Qed.

(** What a block without zerocoin and sigma transactions needs for its checks to end: a header
    whose fields have their widths, at most 2^31 transactions with no more witnesses than
    inputs, coins and deployments within bounds; and the code of zerocoin and sigma, which
    is not modelled, returns. *)
Record quiet (st : chain_state (V := V)) (block : CBlock) (m : gmap (list Z) CCoins) : Prop := {
  qu_zc : Forall (fun t => zc t = false) (vtx block);
  qu_supply : supply m < 2 ^ 61;
  qu_header : header_ok (blk_header block);
  qu_deps : deployments_good (ch_versionbits (ch_caches st));
  qu_count : len (vtx block) <= 2 ^ 31;
  qu_wit : Forall (fun t => witnesses_fit (btx t)) (vtx block);
  qu_others : others_return block;
}.

Lemma height_total block : exists h, ZerocoinGetNHeight ix block = Some h.
Proof using Hix.
  unfold ZerocoinGetNHeight. destruct (mapBlockIndex ix !! hashPrevBlock block) as [q|] eqn:E; [| by eexists].
  apply (io_map _ (ig_ok Hix)) in E as (b & -> & _). rewrite obind_Some. by eexists.
Qed.

Lemma quiet_check st block fChecked b m m0 : quiet st block m ->
  exists r, CheckBlock g al params ix block true true (BlockIndex.nHeight b) false fChecked m0 = Ret r.
Proof using Hix.
  intros [_ _ Hh _ Hl Hw Ho]. destruct (height_total (blk_header block)) as [h E]. by eapply CheckBlock_total.
Qed.

Lemma quiet_osafe {X} (bad : Prop) (P : X -> Prop) (m : outcome X) : bad \/ (exists x, m = Ret x) -> (forall x, m = Ret x -> P x) -> osafe bad P m.
Proof using. intros H HP. destruct m; cbn; [by apply HP | | |]; by destruct H as [?|[? ?]]. Qed.

Lemma CheckBlock_next q block fChecked pindex b m0 r mc :
  next_block q block fChecked pindex b ->
  CheckBlock g al params ix block true true (BlockIndex.nHeight b) false fChecked m0 = Ret (inr r, mc) -> block_checked block.
Proof using All.
  intros Hnb E. destruct fChecked; [by apply (nb_checked _ _ _ _ _ Hnb) |]. destruct mc as [m1 fc].
  destruct (CheckBlock_passed _ _ _ _ _ _ _ _ _ _ E) as [Hfc ->]. cbn in Hfc. subst fc.
  destruct (CheckBlock_marks _ _ _ _ _ _ _ _ _ _ E) as (HBV & _). by eapply block_valid_checked.
Qed.

(** The answer of [ConnectBlock]. *)
Definition block_post (cpe : bool) (cps : list (Z * list Z)) (st : chain_state (V := V)) (bq : CBlockIndex) (block : CBlock) (pindex : positive) (b : CBlockIndex)
    (m : gmap (list Z) CCoins) (x : (reject + (list (list CTxInUndo) * CCoinsViewCache (CCoinsViewCache V))) * chain_caches) : Prop :=
  match x.1 with inl _ => True | inr (undo, view) => block_checked block /\
    exists fsc flags lockflags view1 uns cks fees, rules_of cpe cps block pindex b (ch_versionbits (ch_caches st)) fsc flags lockflags /\
      view = SetBestBlock view1 (phashBlock b) /\
      body_post g g' Verify LowS ix pindex b bq fsc flags lockflags (supply m) block (cache_utxo (pcoinsTip st)) undo view1 uns cks fees end.

(** After BIP30 and the flags. *)
Lemma connect_body_quiet (bad : Prop) cpe cps threads st q bq block fChecked pindex b m fsc flags lockflags view0 :
  at_tip st q bq -> next_block q block fChecked pindex b -> represents m (cache_utxo (pcoinsTip st)) -> bad \/ quiet st block m ->
  block_checked block -> rules_of cpe cps block pindex b (ch_versionbits (ch_caches st)) fsc flags lockflags ->
  unchanged (mkCache (pcoinsTip st) false (phashBlock bq) ∅) view0 ->
  (forall t, t ∈ vtx block -> cache_utxo (mkCache (pcoinsTip st) false (phashBlock bq) ∅) (btx_hash t) = None) ->
  vsafe bad (fun r => exists uns cks fees,
      body_post g g' Verify LowS ix pindex b bq fsc flags lockflags (supply m) block (cache_utxo (pcoinsTip st)) r.1 r.2 uns cks fees)
    (connect_body g g' Verify LowS params ix block pindex (BlockIndex.nHeight b) fsc threads flags lockflags view0).
Proof using All.
  intros Hat Hnb Hm Hquiet Hbc Hrules HU Hnew.
  apply (connect_body_next bad q bq block fChecked pindex b st cpe cps threads (ch_versionbits (ch_caches st))); try done.
  - destruct Hquiet as [?|[Hz Hs _ _ _ _ _]]; [by left | right]. split; [done |]. pose proof (issued_small block Hbc Hz) as Hi.
    change MAX_MONEY with 999999900000000 in Hi. lia.
  - intros info. destruct Hquiet as [?|Hqu]; [by destruct (ConnectBlockZC block info) as [[]| | |] |].
    destruct (or_connectzc _ (qu_others _ _ _ Hqu) info) as [[] ->]; done.
  - intros info. destruct Hquiet as [?|Hqu]; [by destruct (ConnectBlockSigma block info) as [[]| | |] |].
    destruct (or_connectsigma _ (qu_others _ _ _ Hqu) info) as [[] ->]; done.
Qed.

Lemma ConnectBlock_safe (bad : Prop) cpe cps threads st q bq block fChecked pindex b m :
  at_tip st q bq -> next_block q block fChecked pindex b -> represents m (cache_utxo (pcoinsTip st)) -> bad \/ quiet st block m ->
  osafe bad (block_post cpe cps st bq block pindex b m)
    (ConnectBlock g g' Verify LowS al params ix block fChecked pindex (new_view (pcoinsTip st)) false cpe threads cps (ch_caches st)).
Proof using All.
  intros Hat Hnb Hm Hquiet. pose proof Hat as [Hq Hch Hbest Hok Hinv _]. pose proof Hnb as [Hb Hp Hht _ Hgen _ _ Hfc].
  pose proof (ig_null Hix q bq Hq) as Hnn. cbn beta in Hnn.
  unfold ConnectBlock. rewrite Hb. cbn [must obnd negb].
  eapply (osafe_obnd bad (fun x => match x.1 with inl _ => True | inr _ => block_checked block end)).
  { apply quiet_osafe; [destruct Hquiet as [?|Hqu]; [by left | right; by eapply quiet_check] |]. intros [[e|r] mc] E; [done |]. by eapply CheckBlock_next. }
  intros [[e|r] [powhash fc]] Hbc; [done |]. cbn [fst] in Hbc. rewrite Hp. cbn [obnd]. rewrite Hq. cbn [must obnd].
  rewrite new_view_best, Hbest, bool_decide_eq_true_2 by (try done; by rewrite Hbest). cbn [negb ch_versionbits].
  eapply (osafe_obnd bad (fun hash => hash <> hashGenesisBlock params)).
  { apply quiet_osafe; [destruct Hquiet as [?|Hqu]; [by left | right; rewrite (GetHash_ok g _ Hg (qu_header _ _ _ Hqu)); by eexists] |].
    intros x E%must_ret ->. by apply Hgen. }
  intros hash Hne. rewrite bool_decide_eq_false_2 by done. destruct (script_checks_total cpe cps pindex (BlockIndex.nHeight b)) as [fsc Efsc].
  rewrite Efsc. cbn [obnd].
  assert (Hc0 : cache_ok (mkCache (pcoinsTip st) false (phashBlock bq) ∅)) by (destruct (new_view_ok _ Hok) as [? ? ?]; by split).
  pose proof (bip30_spec (vtx block) _ Hc0) as H30. destruct (bip30 _ _) as [[e|view0]| | |]; cbn [vsafe obnd] in *; try done.
  destruct H30 as [HU Hnew].
  eapply (osafe_obnd bad (fun x => block_flags params ix block b (ch_versionbits (ch_caches st)) = Ret x)).
  { apply quiet_osafe; [destruct Hquiet as [?|Hqu]; [by left | right] | done]. apply block_flags_total; [apply Hqu |].
    intros q' E. assert (q' = q) as -> by congruence. by exists bq. }
  intros [[flags lockflags] vb] Efl.
  assert (Hrules : rules_of cpe cps block pindex b (ch_versionbits (ch_caches st)) fsc flags lockflags) by (split; [done | by exists vb]).
  pose proof (connect_body_quiet bad cpe cps threads st q bq block fChecked pindex b m fsc flags lockflags view0 Hat Hnb Hm Hquiet Hbc Hrules HU Hnew) as HB.
  destruct (connect_body _ _ _ _ _ _ _ _ _ _ _ _ _ _) as [[e|[un view1]]| | |]; cbn [vsafe obnd osafe] in *; try done.
  split; [done |]. destruct HB as (uns & cks & fees & HB). by exists fsc, flags, lockflags, view1, uns, cks, fees.
Qed.

(** [ConnectTip] rejects or connects; it fails in another way only if [bad]. *)
Lemma ConnectTip_safe (bad : Prop) cpe cps threads st q bq block fChecked pindex b m :
  at_tip st q bq -> next_block q block fChecked pindex b -> represents m (cache_utxo (pcoinsTip st)) -> bad \/ quiet st block m ->
  osafe bad (fun '(r, st1) => match r with
    | inl _ => pcoinsTip st1 = pcoinsTip st /\ chainActive st1 = chainActive st
    | inr undo => exists fsc flags lockflags uns cks fees, connected cpe cps st block pindex b undo st1 fsc flags lockflags uns cks fees
    end) (connect_tip pindex block fChecked cpe threads cps st).
Proof using All.
  intros Hat Hnb Hm Hquiet. pose proof Hat as [_ Hch _ _ _ _]. pose proof Hnb as [Hb Hp _ _ _ _ _ _].
  unfold ConnectTip. rewrite Hb. cbn [must obnd]. rewrite (chain_tip _ q Hch), Hp, bool_decide_eq_true_2 by done. cbn [negb].
  eapply osafe_obnd; [by apply (ConnectBlock_safe bad cpe cps threads st q bq block fChecked pindex b m) |].
  intros [[e|[undo view]] caches] HB; [done |]. destruct HB as (Hbc & fsc & flags & lockflags & view1 & uns & cks & fees & Hrules & -> & HB).
  destruct (Flush_base (SetBestBlock view1 (phashBlock b)) (SetBestBlock_ok _ _ (bp_ok _ _ _ _ _ _ _ _ _ _ _ _ _ _ _ _ _ _ _ HB))) as (v & EF & _).
  rewrite EF. cbn [must obnd]. rewrite (SetTip_ok _ (io_wf _ (ig_ok Hix)) _ _ _ _ Hch Hb). cbn [must obnd osafe].
  exists fsc, flags, lockflags, uns, cks, fees. eapply connected_flush; try done. by apply (SetTip_ok _ (io_wf _ (ig_ok Hix)) _ _ _ _ Hch Hb).
Qed.

Lemma ConnectTip_accepted cpe cps threads st q bq block fChecked pindex b undo st1 :
  at_tip st q bq -> next_block q block fChecked pindex b ->
  connect_tip pindex block fChecked cpe threads cps st = Ret (inr undo, st1) ->
  exists fsc flags lockflags uns cks fees, connected cpe cps st block pindex b undo st1 fsc flags lockflags uns cks fees.
Proof using All.
  intros Hat Hnb E. pose proof Hat as [_ _ _ _ _ [m Hm]].
  pose proof (ConnectTip_safe True cpe cps threads st q bq block fChecked pindex b m Hat Hnb Hm ltac:(by left)) as HT. by rewrite E in HT.
Qed.

(** The call of [CheckBlock] that [ConnectTip] makes. *)
Lemma ConnectTip_checks cpe cps threads st pindex b block fChecked undo st1 : ix_heap ix !! pindex = Some b ->
  connect_tip pindex block fChecked cpe threads cps st = Ret (inr undo, st1) ->
  exists mc, CheckBlock g al params ix block true true (BlockIndex.nHeight b) false fChecked (ch_powhash (ch_caches st)) = Ret (inr tt, mc).
Proof using.
  intros Hb. unfold ConnectTip. rewrite Hb. cbn [must obnd]. destruct (negb _); [done |]. intros ([r caches] & E & E2)%obnd_ret.
  destruct r as [e|[un view]]; [done |]. unfold ConnectBlock in E. rewrite Hb in E. cbn [must obnd negb] in E.
  apply obnd_ret in E as ([r (powhash & fc)] & EC & E). destruct r as [e|[]]; [done |]. by exists (powhash, fc).
Qed.

(** ** Disconnecting the tip *)

Lemma undo_matches_some ts uns : length uns = length ts -> Forall3 undo_matches ts uns (Some <$> uns).
Proof using All. revert ts. induction uns as [|un uns IH]; intros [|t ts]; try done; [constructor |]. intros [= E]. constructor; [done | by apply IH]. Qed.

Lemma undo_matches_block block uns :
  block_checked block -> length uns = length (vtx block) -> Forall3 undo_matches (vtx block) uns (None :: (Some <$> tail uns)).
Proof using All.
  intros [(t & ts & -> & Hcb & _) _] HL. destruct uns as [|un uns]; [done |]. cbn [tail]. constructor; [| apply undo_matches_some; by injection HL].
  intros Hn. unfold no_coins in Hn. by rewrite Hcb in Hn.
Qed.

Lemma connected_undo cpe cps st q bq block fChecked pindex b undo st1 fsc flags lockflags uns cks fees :
  at_tip st q bq -> next_block q block fChecked pindex b -> connected cpe cps st block pindex b undo st1 fsc flags lockflags uns cks fees ->
  Forall sigma_covered (vtx block) -> forall c : CCoinsViewCache (CCoinsViewCache V),
  cache_ok c -> (forall t, cache_utxo c t = cache_utxo (pcoinsTip st1) t) ->
  (length undo + 1 = length (vtx block))%nat /\
  exists c', disconnect_txs (rev (zip (vtx block) (None :: (Some <$> undo)))) (BlockIndex.nHeight b) 0 true c = Ret (Some (true, c')) /\
    cache_ok c' /\ forall t, cache_utxo c' t = cache_utxo (pcoinsTip st) t.
Proof using All.
  intros [Hq Hch Hbest Hok Hinv _] Hnb [Hbc Hrules Hrun -> _ (t0 & _ & Hrw) _ _] HS c Hc E.
  pose proof (next_height _ _ _ _ _ _ Hq Hnb) as [Eh Hpos]. destruct (block_ready _ _ _ _ _ Hnb Hbc) as [HR Hhd]. destruct Hrules as [_ [vb HF]].
  destruct (block_flags_valid _ _ _ _ _ _ _ _ (nb_time _ _ _ _ _ Hnb) HF) as [Hfv Hse].
  pose proof Hnb as [Hb Hp Hht _ _ _ _ _]. pose proof (proj2 (io_map _ (ig_ok Hix) _ q) (ex_intro _ bq (conj Hq eq_refl))) as Hmap.
  assert (Hinv' : utxo_inv (BlockIndex.nHeight b) (cache_utxo (pcoinsTip st))) by (eapply utxo_inv_mono; [| exact Hinv]; lia).
  destruct (block_run_inv g g' Hg Hg' Verify LowS params ix pindex b q bq (io_wf _ (ig_ok Hix)) (ig_times Hix) Hb Hp Hq Hmap
      (ig_null Hix q bq Hq) (conj Hpos Hht) fsc true flags lockflags Hfv Hse _ _ _ _ _ _ Hrun Hinv' HR) as (_ & _ & HL).
  split. { destruct uns; [destruct (vtx block); [by destruct Hhd | done] |]. cbn [tail length] in *. lia. }
  destruct (disconnect_run g g' Hg Hg' Verify LowS params ix pindex b q bq (io_wf _ (ig_ok Hix)) (ig_times Hix) Hb Hp Hq Hmap
      (ig_null Hix q bq Hq) (conj Hpos Hht) fsc true flags lockflags Hfv Hse _ _ _ _ _ _ Hrun Hinv' HR HS (None :: (Some <$> tail uns)) [] 0 c)
    as (c' & ED & Hc' & Hu'); [by apply undo_matches_block | done | done | done | |].
  - pose proof (subsidy_bound (BlockIndex.nHeight b)). lia.
  - rewrite app_nil_r in ED. exists c'. split_and!; done.
Qed.

Lemma DisconnectTip_restores cpe cps st q bq block fChecked pindex b undo st1 fsc flags lockflags uns cks fees :
  at_tip st q bq -> next_block q block fChecked pindex b -> connected cpe cps st block pindex b undo st1 fsc flags lockflags uns cks fees ->
  Forall sigma_covered (vtx block) ->
  exists st2, DisconnectTip ix block undo st1 = Ret (true, st2) /\ at_tip st2 q bq /\ chainActive st2 = chainActive st /\
    forall t, cache_utxo (pcoinsTip st2) t = cache_utxo (pcoinsTip st) t.
Proof using All.
  intros Hat Hnb Hcd HS. pose proof Hat as [Hq Hch Hbest Hok Hinv [m Hm]]. pose proof Hnb as [Hb Hp _ _ _ _ _ _].
  pose proof (cd_tip _ _ _ _ _ _ _ _ _ _ _ _ _ _ Hcd) as [_ Hch1 Hbest1 Hok1 _ _]. pose proof (ig_null Hix pindex b Hb) as Hnn. cbn beta in Hnn.
  unfold DisconnectTip. rewrite (chain_tip _ _ Hch1). cbn [must obnd]. rewrite Hb. cbn [must obnd]. unfold DisconnectBlock. rewrite Hb. cbn [must obnd].
  rewrite new_view_best, Hbest1, bool_decide_eq_true_2 by (try done; by rewrite Hbest1). cbn [negb]. rewrite Hp. cbn [must obnd]. rewrite Hq. cbn [must obnd].
  assert (Hc0 : cache_ok (mkCache (pcoinsTip st1) false (phashBlock b) ∅)) by (destruct (new_view_ok _ Hok1) as [? ? ?]; by split).
  destruct (connected_undo _ _ _ _ _ _ _ _ _ _ _ _ _ _ _ _ _ Hat Hnb Hcd HS _ Hc0) as (HL & c' & -> & Hc' & Hu').
  { intros t. unfold cache_utxo at 1. cbn [cacheCoins base]. by rewrite lookup_empty. }
  rewrite HL, Nat.eqb_refl. cbn [negb obnd].
  destruct (Flush_base (SetBestBlock c' (phashBlock bq)) (SetBestBlock_ok _ _ Hc')) as (v & -> & Hokv & Hbv & Huv). cbn [must obnd].
  change (cache_utxo (SetBestBlock c' (phashBlock bq))) with (cache_utxo c') in Huv.
  rewrite (SetTip_ok _ (io_wf _ (ig_ok Hix)) _ _ _ _ Hch1 Hq). cbn [must obnd].
  assert (Hu : forall t, cache_utxo (base v) t = cache_utxo (pcoinsTip st) t) by (intros t; by rewrite Huv, Hu').
  eexists. split; [done |]. split_and!; [| | done].
  - split; cbn [pcoinsTip chainActive]; try done; [by exists bq | by eapply utxo_inv_ext |]. exists m. intros t. by rewrite Hm, Hu.
  - cbn [chainActive]. destruct Hch as (bq' & Hq' & ->). by assert (bq' = bq) as -> by congruence.
Qed.

(** ** Several blocks *)

(** Blocks are connected one after the other; each leaves its undo data. *)
Inductive connects : chain_state (V := V) -> list (CBlock * list (list CTxInUndo)) -> chain_state (V := V) -> Prop :=
| cs_nil st : connects st [] st
| cs_cons st q bq block fChecked pindex b cpe threads cps undo st1 l st2 :
    at_tip st q bq -> next_block q block fChecked pindex b -> Forall sigma_covered (vtx block) ->
    connect_tip pindex block fChecked cpe threads cps st = Ret (inr undo, st1) -> connects st1 l st2 ->
    connects st ((block, undo) :: l) st2.

(** The tips are disconnected, as [ActivateBestChainStep] does down to the fork. *)
Fixpoint disconnect_tips (l : list (CBlock * list (list CTxInUndo))) (st : chain_state (V := V)) : outcome (bool * chain_state) :=
  match l with
  | [] => Ret (true, st)
  | (block, undo) :: l =>
      let* (ok, st) := DisconnectTip ix block undo st in
      if negb ok then Ret (false, st) else disconnect_tips l st
  end.

Lemma disconnect_tips_app l1 l2 st st1 : disconnect_tips l1 st = Ret (true, st1) -> disconnect_tips (l1 ++ l2) st = disconnect_tips l2 st1.
Proof using.
  revert st. induction l1 as [|[block undo] l1 IH]; intros st; [by intros [= ->] |]. cbn [disconnect_tips app].
  intros ([ok st2] & -> & E)%obnd_ret. cbn [obnd]. destruct ok; [by apply IH | done].
Qed.

(** States with the same coins. *)
Definition same_chain (st st' : chain_state (V := V)) : Prop :=
  chainActive st' = chainActive st /\ hashBlock (pcoinsTip st') = hashBlock (pcoinsTip st) /\
  forall t, cache_utxo (pcoinsTip st') t = cache_utxo (pcoinsTip st) t.

Lemma connected_same cpe cps st block pindex b undo st1 st1' fsc flags lockflags uns cks fees :
  at_tip st1' pindex b -> same_chain st1 st1' ->
  connected cpe cps st block pindex b undo st1 fsc flags lockflags uns cks fees ->
  connected cpe cps st block pindex b undo st1' fsc flags lockflags uns cks fees.
Proof using All.
  intros Hat (_ & _ & E) [H1 H2 H3 H4 H5 H6 H7 H8]. split; try done; [by eapply block_run_ext_r |].
  intros m Hm. destruct (H7 m Hm) as (m' & Hm' & Hs). exists m'. split; [| done]. intros t. by rewrite Hm', E.
Qed.

Lemma disconnect_after_connects st l st' : connects st l st' -> forall q bq, at_tip st q bq ->
  exists st'', disconnect_tips (rev l) st' = Ret (true, st'') /\ at_tip st'' q bq /\ same_chain st st''.
Proof using All.
  induction 1 as [st|st q' bq' block fChecked pindex b cpe threads cps undo st1 l st2 Hat Hnb HS EC Hrest IH]; intros q bq Hq.
  { exists st. split_and!; [done | done |]. done. }
  assert (q' = q) as ->. { pose proof (chain_tip _ _ (at_chain _ _ _ Hat)). pose proof (chain_tip _ _ (at_chain _ _ _ Hq)). congruence. }
  assert (bq' = bq) as -> by (pose proof (at_entry _ _ _ Hat); pose proof (at_entry _ _ _ Hq); congruence).
  destruct (ConnectTip_accepted cpe cps threads st q bq block fChecked pindex b undo st1 Hat Hnb EC) as (fsc & fl & lf & uns & cks & fees & Hcd).
  destruct (IH pindex b (cd_tip _ _ _ _ _ _ _ _ _ _ _ _ _ _ Hcd)) as (st3 & ED & Hat3 & HSC).
  destruct (DisconnectTip_restores _ _ _ _ _ _ _ _ _ _ _ _ _ _ _ _ _ Hat Hnb (connected_same _ _ _ _ _ _ _ _ _ _ _ _ _ _ _ Hat3 HSC Hcd) HS)
    as (st4 & ED4 & Hat4 & Hch4 & Hu4).
  exists st4. cbn [rev]. rewrite (disconnect_tips_app _ _ _ _ ED). cbn [disconnect_tips]. rewrite ED4. cbn [obnd negb].
  split_and!; [done | done |]. split_and!; [done | | done]. by rewrite (at_best _ _ _ Hat4), (at_best _ _ _ Hat).
Qed.

(** ** Money *)

(** What a transaction brings back from zerocoin and sigma. *)
Definition shielded_in (t : block_tx) : Z :=
  let tx := btx t in
  if no_coins tx then if IsSigmaSpend tx then GetSigmaSpendInput tx else if IsCoinBase tx then 0 else total_out (vout tx) else 0.
Definition block_shielded (block : CBlock) : Z := foldr (fun t n => shielded_in t + n) 0 (vtx block).

Lemma issued_rest ts : Forall (fun t => IsCoinBase (btx t) = false) ts -> issued_all ts = foldr (fun t n => shielded_in t + n) 0 ts.
Proof using All.
  induction 1 as [|t ts Ht _ IH]; [done |]. unfold issued_all in *. cbn [foldr]. rewrite IH. unfold issued, shielded_in. rewrite Ht. by repeat case_match.
Qed.

Lemma connected_supply cpe cps st block pindex b undo st1 fsc flags lockflags uns cks fees m :
  connected cpe cps st block pindex b undo st1 fsc flags lockflags uns cks fees -> represents m (cache_utxo (pcoinsTip st)) ->
  exists m1, represents m1 (cache_utxo (pcoinsTip st1)) /\ supply m1 <= supply m + GetBlockSubsidy (BlockIndex.nHeight b) + block_shielded block.
Proof using All.
  intros [[(t & ts & E & Hcb & Hts) Hck] _ _ _ _ (t0 & Et0 & Hrw) Hmon _] Hm. destruct (Hmon m Hm) as (m1 & Hm1 & Hs). exists m1. split; [done |].
  rewrite E in Et0. injection Et0 as <-. unfold block_shielded. rewrite E in *. cbn [foldr]. unfold issued_all in Hs. cbn [foldr] in Hs.
  change (foldr (fun t n => issued t + n) 0 ts) with (issued_all ts) in Hs. rewrite (issued_rest ts Hts) in Hs.
  apply Forall_cons_iff in Hck as [Hc _]. destruct (checked_value _ Hc) as [_ Hv].
  unfold issued in Hs. unfold shielded_in at 1. assert (no_coins (btx t) = true) as Hn by (unfold no_coins; by rewrite Hcb).
  rewrite Hn in Hs |- *. rewrite Hcb. destruct (IsSigmaSpend (btx t)); lia.
Qed.

(** Rewards of [n] blocks after height [h]. *)
Fixpoint subsidies (h : Z) (n : nat) : Z := match n with O => 0 | S n => GetBlockSubsidy (h + 1) + subsidies (h + 1) n end.

Lemma connects_supply st l st' : connects st l st' -> forall q bq m, at_tip st q bq -> represents m (cache_utxo (pcoinsTip st)) ->
  exists m', represents m' (cache_utxo (pcoinsTip st')) /\
    supply m' <= supply m + subsidies (BlockIndex.nHeight bq) (length l) + foldr (fun p n => block_shielded p.1 + n) 0 l.
Proof using All.
  induction 1 as [st|st q' bq' block fChecked pindex b cpe threads cps undo st1 l st2 Hat Hnb HS EC Hrest IH]; intros q bq m Hq Hm.
  { exists m. split; [done |]. cbn. lia. }
  assert (q' = q) as ->. { pose proof (chain_tip _ _ (at_chain _ _ _ Hat)). pose proof (chain_tip _ _ (at_chain _ _ _ Hq)). congruence. }
  destruct (ConnectTip_accepted cpe cps threads st q bq block fChecked pindex b undo st1 Hq Hnb EC) as (fsc & fl & lf & uns & cks & fees & Hcd).
  destruct (connected_supply _ _ _ _ _ _ _ _ _ _ _ _ _ _ m Hcd Hm) as (m1 & Hm1 & Hs1).
  destruct (IH pindex b m1 (cd_tip _ _ _ _ _ _ _ _ _ _ _ _ _ _ Hcd) Hm1) as (m2 & Hm2 & Hs2). exists m2. split; [done |].
  destruct (next_height _ _ _ _ _ _ (at_entry _ _ _ Hq) Hnb) as [Eh _]. cbn [length subsidies foldr fst]. rewrite <- Eh. lia.
Qed.


End Tip.

(** ** A chain of two blocks and the next one *)

Module Sample.

(** Everything that is not modelled accepts. *)
Definition rules : OtherRules := {|
  tx_info := unit; new_info := tt;
  CheckSigmaTransaction _ _ _ _ _ _ info := pass info;
  CheckZerocoinTransaction _ _ _ _ _ _ info := pass info;
  CheckZerocoinFoundersInputs _ _ := pass tt;
  CheckSigmaBlock _ := pass tt;
  GetLockedOutPointTxHash _ := None;
  GetSigmaSpendInput _ := 0;
  IsBlockValueValid _ _ _ := true;
  IsBlockPayeeValid _ _ _ := true;
  ConnectBlockZC _ _ := pass tt;
  ConnectBlockSigma _ _ := pass tt |}.

Definition entry (hash : Z) (prev : option positive) (height : Z) : CBlockIndex :=
  mkIndex (replicate 32 hash) prev None height (arith_uint256_of (2 * height + 2)) 2 1 (replicate 32 0) (1500000000 + 600 * height) 0x207fffff 0 0.

Definition ix : index := mkIdx
  (<[1%positive := entry 1 None 0]> (<[2%positive := entry 2 (Some 1%positive) 1]> (<[3%positive := entry 3 (Some 2%positive) 2]> ∅)))
  (<[replicate 32 1 := 1%positive]> (<[replicate 32 2 := 2%positive]> (<[replicate 32 3 := 3%positive]> ∅)))
  (Some 3%positive) ∅.

Definition params : ChainParams := mkChainParams (replicate 32 1) (replicate 31 255 ++ [127]) 100 51
  (mkParams 1916 2016 [mkDeployment 28 1199145601 1230767999; mkDeployment 0 1462060800 1493596800; mkDeployment 1 1462060800 1493596800]) false.

Definition coins7 : CCoins := mkCoins false [mkTxOut 5000 [OP_1] (-10)] 1 1.
Definition db : CCoinsViewDB := mkDB {[ replicate 32 7 := coins7 ]} None.
Definition tip_coins : CCoinsViewCache CCoinsViewDB := mkCache db false (replicate 32 2) ∅.
Definition state : chain_state (V := CCoinsViewDB) := mkChain tip_coins [Some 1%positive; Some 2%positive] (mkCaches {[ 2 := replicate 32 0 ]} [∅; ∅; ∅]).

(** A coinbase that takes the reward and the fee, and a transaction that leaves a fee. *)
Definition coinbase : CTransaction :=
  mkTx 1 [mkTxIn (mkOut (replicate 32 0) 4294967295) [OP_1; OP_1] SEQUENCE_FINAL []] [mkTxOut (COIN + 1000) [OP_1] (-10)] [] 0.
Definition spend : CTransaction :=
  mkTx 1 [mkTxIn (mkOut (replicate 32 7) 0) [] SEQUENCE_FINAL []] [mkTxOut 4000 [OP_1] (-10)] [] 0.
Definition g : list Z := replicate 64 0.
Definition txs : list block_tx := [mkBtx coinbase (replicate 32 8); mkBtx spend (replicate 32 9)].
Definition root : list Z := Eval vm_compute in match BlockMerkleRoot btx_hash g txs with Some (r, _) => r | None => [] end.
Definition block : CBlock := mkBlock (mkHeader 1 (replicate 32 2) root 1500001200 0x207fffff 0) txs.

Definition Verify (vchPubKey sigdata hash : list Z) : bool := false.
Definition LowS (vchSig : list Z) : bool := true.

Definition connect (st : chain_state (V := CCoinsViewDB)) : outcome ((reject + list (list CTxInUndo)) * chain_state) :=
  @ConnectTip sample_abi rules g g Verify LowS (Allocs true true true) params ix CCoinsViewDB _ 3 block false false true [] st.

Lemma connect_ok : exists undo st1, connect state = Ret (inr undo, st1).
Proof.
  assert (E : match connect state with Ret (inr _, _) => true | _ => false end = true) by (by vm_compute).
  destruct (connect state) as [[[e|undo] st1]| | |]; try done. by exists undo, st1.
Qed.

Lemma heap_cases p b : ix_heap ix !! p = Some b ->
  p = 1%positive /\ b = entry 1 None 0 \/ p = 2%positive /\ b = entry 2 (Some 1%positive) 1 \/ p = 3%positive /\ b = entry 3 (Some 2%positive) 2.
Proof.
  cbn [ix ix_heap]. intros H. apply lookup_insert_Some in H as [[<- <-]|[? H]]; [by left |].
  apply lookup_insert_Some in H as [[<- <-]|[? H]]; [by right; left |]. apply lookup_insert_Some in H as [[<- <-]|[? H]]; [by right; right |].
  by rewrite lookup_empty in H.
Qed.

Lemma index_is_ok : index_ok ix.
Proof.
  split.
  - intros p b H. destruct (heap_cases p b H) as [[-> ->]|[[-> ->]|[-> ->]]]; (split; [done | | done]); [done | by eexists | by eexists].
  - intros hash p. split.
    + cbn [ix mapBlockIndex]. intros H. apply lookup_insert_Some in H as [[<- <-]|[? H]]; [by eexists |].
      apply lookup_insert_Some in H as [[<- <-]|[? H]]; [by eexists |]. apply lookup_insert_Some in H as [[<- <-]|[? H]]; [by eexists |].
      by rewrite lookup_empty in H.
    + intros (b & H & <-). destruct (heap_cases p b H) as [[-> ->]|[[-> ->]|[-> ->]]]; by vm_compute.
  - intros p b H. destruct (heap_cases p b H) as [[-> ->]|[[-> ->]|[-> ->]]]; (split; [by repeat constructor | by eexists; split; [vm_compute; reflexivity |]]).
  - exists (entry 3 (Some 2%positive) 2). split; [done |]. intros p b H. destruct (heap_cases p b H) as [[-> ->]|[[-> ->]|[-> ->]]]; by vm_compute.
Qed.

Lemma index_is_good : index_good ix.
Proof. split; [exact index_is_ok | |]; intros p b H; destruct (heap_cases p b H) as [[-> ->]|[[-> ->]|[-> ->]]]; by vm_compute. Qed.

Lemma coins_of t cs : cache_utxo tip_coins t = Some cs -> cs = coins7.
Proof.
  unfold cache_utxo. cbn [tip_coins cacheCoins base]. rewrite lookup_empty. cbn. intros H. by apply lookup_singleton_Some in H as [_ <-].
Qed.

Lemma state_at_tip : at_tip ix state 2 (entry 2 (Some 1%positive) 1).
Proof.
  split; [done | by exists (entry 2 (Some 1%positive) 1) | done | | |].
  - split; [| done |]; cbn [tip_coins base cacheCoins pcoinsTip state].
    + intros t cs H. cbn [db db_coins] in H. apply lookup_singleton_Some in H as [_ <-]. split; [| done]. split; [done | by repeat constructor | done].
    + intros t e. by rewrite lookup_empty.
  - intros t cs ->%coins_of. split; [| done]. split; [split; [done | by repeat constructor | done] |]. split; [done |].
    constructor; [| constructor]. intros _. split; [| done]. split; [done |]. split; [| done]. split; [done |]. by repeat constructor.
  - exists {[ replicate 32 7 := coins7 ]}. intros t. unfold cache_utxo. cbn [state pcoinsTip tip_coins cacheCoins base]. by rewrite lookup_empty.
Qed.

Lemma txs_wf : Forall (fun t => tx_wf (btx t)) (vtx block).
Proof. by repeat first [done | constructor]. Qed.

Lemma block_is_next : next_block g params ix 2 block false 3 (entry 3 (Some 2%positive) 2).
Proof.
  split; [done | done | done | done | | exact txs_wf | | done].
  - intros E. assert (EB : match BlockIndex.GetHash g (blk_header block) with Some (x :: _) => x =? 1 | _ => true end = false) by (by vm_compute).
    rewrite E in EB. by vm_compute in EB.
  - left. apply (bool_decide_unpack _). by vm_compute.
Qed.

Lemma times : times_ok (ix_heap ix).
Proof.
  intros p b q m H. destruct (heap_cases p b H) as [[-> ->]|[[-> ->]|[-> ->]]]; [done | |]; intros [= <-] E; vm_compute in E; by injection E as <-.
Qed.

Lemma state_coins : represents {[ replicate 32 7 := coins7 ]} (cache_utxo (pcoinsTip state)).
Proof. intros t. unfold cache_utxo. cbn [state pcoinsTip tip_coins cacheCoins base]. by rewrite lookup_empty. Qed.

Lemma deployments : deployments_good params ix (ch_versionbits (ch_caches state)).
Proof.
  split; [exact times | done | |].
  - intros pos [->| ->]; eexists; (split; [reflexivity |]); (split; [split; done | by apply Nat.ltb_lt]).
  - intros pos d mask cache _ _ Hc p s Hs. assert (cache = ∅) as ->; [| by rewrite lookup_empty in Hs].
    cbn in Hc. do 3 (destruct pos as [|pos]; [by injection Hc as <- |]). done.
Qed.

Lemma block_is_quiet :
  @quiet rules params ix CCoinsViewDB state block {[ replicate 32 7 := coins7 ]}.
Proof.
  split; [by repeat constructor | by vm_compute | | exact deployments | done | repeat constructor; vm_compute; lia |].
  - by repeat first [done | constructor].
  - split; intros; by eexists.
Qed.

End Sample.

(** ** The theorems *)



(** C2. Every block [ConnectTip] accepts is valid.  [CheckBlock] has found its header and its
    rules in order ([block_accepted]: proof of work, where a hash cached for the height may
    stand for that of the header; Merkle root; sizes; coinbase; locks; every transaction;
    signature operations), in this call with the index and height of the block and the sigma
    limits, or, for a block marked as checked, in the earlier call that marked it.  Its
    transactions are new, apply one after the other to the unspent outputs, spend outputs
    that exist, are mature and worth at least what the transaction creates, after their
    relative lock times; all the scripts of the inputs verify under the flags of the block,
    unless a checkpoint lies above it; the coinbase takes at most the reward and the fees;
    and the coins are then those of the new tip ([connected]). *)
Theorem accepted_block_valid {A : Abi} {HA : AbiOk A} {R : OtherRules} g g' Verify LowS al params ix
    {V} {HV : CCoinsView V} {OK : CCoinsViewOk V} cpe cps threads (st st1 : chain_state (V := V)) q bq block fChecked pindex b undo :
  length g = 64%nat -> length g' = 64%nat -> index_good ix -> at_tip ix st q bq -> next_block g params ix q block fChecked pindex b ->
  header_ok (blk_header block) -> (fChecked = true -> marked_block g params block) ->
  ConnectTip g g' Verify LowS al params ix pindex block fChecked cpe threads cps st = Ret (inr undo, st1) ->
  (if fChecked then exists a0 ix0 n0 v0 m0, block_accepted g params block a0 ix0 n0 v0 m0
   else block_accepted g params block al ix (BlockIndex.nHeight b) false (ch_powhash (ch_caches st)) /\ CheckSigmaBlock block = pass tt) /\
  exists fsc flags lockflags uns cks fees, (cpe = false -> fsc = true) /\
    connected g g' Verify LowS params ix cpe cps st block pindex b undo st1 fsc flags lockflags uns cks fees.
Proof.
  intros Hg Hg' Hix Hat Hnb Hh Hmark E. split.
  - destruct (ConnectTip_checks g g' Verify LowS al params ix cpe cps threads st pindex b block fChecked undo st1 (nb_entry _ _ _ _ _ _ _ _ Hnb) E) as [mc EC].
    by apply (CheckBlock_accepted g al params ix block (BlockIndex.nHeight b) fChecked _ _ _ Hh Hmark EC).
  - destruct (ConnectTip_accepted g g' Hg Hg' Verify LowS al params ix Hix cpe cps threads st q bq block fChecked pindex b undo st1 Hat Hnb E)
      as (fsc & flags & lockflags & uns & cks & fees & HC).
    exists fsc, flags, lockflags, uns, cks, fees. split; [| done]. intros ->. destruct HC as [_ [ES _] _ _ _ _ _ _]. by injection ES.
Qed.

Lemma accepted_block_valid_witness : exists undo st1 flags lockflags uns cks fees,
  Sample.connect Sample.state = Ret (inr undo, st1) /\
  BlockMerkleRoot btx_hash Sample.g (vtx Sample.block) = Some (h_hashMerkleRoot (blk_header Sample.block), false) /\
  @connected Sample.rules Sample.g Sample.g Sample.Verify Sample.LowS Sample.params Sample.ix CCoinsViewDB _ _ false [] Sample.state Sample.block 3
    (Sample.entry 3 (Some 2%positive) 2) undo st1 true flags lockflags uns cks fees.
Proof.
  destruct Sample.connect_ok as (undo & st1 & E).
  destruct (@accepted_block_valid sample_abi _ Sample.rules Sample.g Sample.g Sample.Verify Sample.LowS (Allocs true true true) Sample.params Sample.ix
    CCoinsViewDB _ _ false [] true Sample.state st1 2 (Sample.entry 2 (Some 1%positive) 1) Sample.block false 3 (Sample.entry 3 (Some 2%positive) 2) undo)
    as ([[_ HV] _] & fsc & flags & lockflags & uns & cks & fees & Hf & HC);
    [reflexivity | reflexivity | exact Sample.index_is_good | exact Sample.state_at_tip | exact Sample.block_is_next
    | exact (qu_header _ _ _ _ _ Sample.block_is_quiet) | discriminate | exact E |].
  rewrite (Hf eq_refl) in HC. exists undo, st1, flags, lockflags, uns, cks, fees. exact (conj E (conj (bv_root _ _ _ _ _ HV) HC)).
Defined.



(** C5. No undefined behaviour, under what [quiet] says: a block without zerocoin and sigma
    transactions, of at most 2^31 transactions with no more witnesses than inputs, on a chain
    whose unspent outputs are worth less than 2^61 and with the deployments of the parameters
    and sound caches of their states, is rejected or becomes the tip, as long as the code of
    zerocoin and sigma, which is not modelled, returns.  [CheckBlock] returns; no assertion
    fails, no input that was not found is used, no index is out of range and no [int64_t]
    or [int] overflows in the checks of inputs, fees, lock times, signature operations and
    scripts; a rejected block leaves chain and coins as they were. *)
Theorem connect_tip_defined {A : Abi} {HA : AbiOk A} {R : OtherRules} g g' Verify LowS al params ix
    {V} {HV : CCoinsView V} {OK : CCoinsViewOk V} cpe cps threads (st : chain_state (V := V)) q bq block fChecked pindex b m :
  length g = 64%nat -> length g' = 64%nat -> index_good ix -> at_tip ix st q bq -> next_block g params ix q block fChecked pindex b ->
  represents m (cache_utxo (pcoinsTip st)) -> quiet params ix st block m ->
  exists r st1, ConnectTip g g' Verify LowS al params ix pindex block fChecked cpe threads cps st = Ret (r, st1) /\
    match r with
    | inl _ => pcoinsTip st1 = pcoinsTip st /\ chainActive st1 = chainActive st
    | inr _ => at_tip ix st1 pindex b
    end.
Proof.
  intros Hg Hg' Hix Hat Hnb Hm Hq.
  pose proof (ConnectTip_safe g g' Hg Hg' Verify LowS al params ix Hix False cpe cps threads st q bq block fChecked pindex b m Hat Hnb Hm ltac:(by right)) as HT.
  destruct (ConnectTip _ _ _ _ _ _ _ _ _ _ _ _ _ _) as [[r st1]| | |]; try done. exists r, st1. split; [done |].
  destruct r as [e|undo]; [done |]. destruct HT as (? & ? & ? & ? & ? & ? & HC). apply HC.
Qed.

Lemma connect_tip_defined_witness : exists r st1, Sample.connect Sample.state = Ret (r, st1) /\
  match r with
  | inl _ => pcoinsTip st1 = pcoinsTip Sample.state /\ chainActive st1 = chainActive Sample.state
  | inr _ => at_tip Sample.ix st1 3 (Sample.entry 3 (Some 2%positive) 2)
  end.
Proof.
  destruct (@connect_tip_defined sample_abi _ Sample.rules Sample.g Sample.g Sample.Verify Sample.LowS (Allocs true true true) Sample.params Sample.ix
    CCoinsViewDB _ _ false [] true Sample.state 2 (Sample.entry 2 (Some 1%positive) 1) Sample.block false 3 (Sample.entry 3 (Some 2%positive) 2)
    {[ replicate 32 7 := Sample.coins7 ]}) as (r & st1 & E & H);
    [reflexivity | reflexivity | exact Sample.index_is_good | exact Sample.state_at_tip | exact Sample.block_is_next | exact Sample.state_coins | exact Sample.block_is_quiet |].
  exists r, st1. unfold Sample.connect. exact (conj E H).
Defined.
