(* ===== verification/CheckQueue.v ===== *)
(** * The queue of script checks: checkqueue.h

    [ConnectBlock] leaves the script checks of a block to the threads that run [Thread()],
    and joins them in [Wait()].  A thread is a program point of [Loop]; between two points it
    either runs one check or holds the mutex, so a run of the program is an interleaving of
    such steps.  The first part is the code, the second the threads, the third the promise:
    whatever the interleaving, [Wait()] returns what running the checks one after the other
    gives, the queue can then be used again, and [Wait()] does return.

    A condition variable is a mark on the threads that wait on it; a thread may also wake
    without one.  Interruption of the threads at shutdown is not represented. *)

From stdpp Require Import list.
From S2P Require Import Prelude Script Interpreter Transaction SigHash Connect.
#[local] Open Scope Z_scope.

Module CheckQueue.

(** ** The queue *)

(** The back of the vector [queue] comes first. *)
Record CCheckQueue (T : Type) := mkQueue {
  queue : list T;
  nIdle : Z;
  nTotal : Z;
  fAllOk : bool;
  nTodo : Z;
  fQuit : bool;
  nBatchSize : Z;
}.
#[global] Arguments mkQueue {T} _ _ _ _ _ _ _.
#[global] Arguments queue {T} _.
#[global] Arguments nIdle {T} _.
#[global] Arguments nTotal {T} _.
#[global] Arguments fAllOk {T} _.
#[global] Arguments nTodo {T} _.
#[global] Arguments fQuit {T} _.
#[global] Arguments nBatchSize {T} _.

(** Where a thread is in [Loop] when it does not hold the mutex: at work on its batch (with
    [nNow] 0, before the first iteration), in [cond.wait], or returned. *)
Inductive point (T : Type) :=
  | Working (vChecks : list T) (nNow : Z) (fOk : bool)
  | Waiting (notified : bool)
  | Returned (fRet : bool).
#[global] Arguments Working {T} _ _ _.
#[global] Arguments Waiting {T} _.
#[global] Arguments Returned {T} _.

(** The master: outside the life of a [CCheckQueueControl], past a failed assertion, adding
    to the queue, or in [Wait()]; [added] records the checks given to the controller. *)
Inductive master_point (T : Type) :=
  | Outside
  | Aborted
  | Adding (added : list T)
  | InWait (added : list T) (p : point T).
#[global] Arguments Outside {T}.
#[global] Arguments Aborted {T}.
#[global] Arguments Adding {T} _.
#[global] Arguments InWait {T} _ _.

Record system (T : Type) := mkSystem { sys_queue : CCheckQueue T; master : master_point T; workers : list (point T) }.
#[global] Arguments mkSystem {T} _ _ _.
#[global] Arguments sys_queue {T} _.
#[global] Arguments master {T} _.
#[global] Arguments workers {T} _.

(** What can be observed: the assertion of the constructor of a controller, [Add], the result
    of [Wait()]; and, inside, a step or a wake-up without notification. *)
Inductive event (T : Type) :=
  | Tau
  | Spurious
  | Opened (isIdle : bool)
  | Added (vChecks : list T)
  | Waited (fRet : bool).
#[global] Arguments Tau {T}.
#[global] Arguments Spurious {T}.
#[global] Arguments Opened {T} _.
#[global] Arguments Added {T} _.
#[global] Arguments Waited {T} _.

(** An [int] that has not overflowed. *)
Definition int (x : Z) : option Z := if bool_decide (- 2 ^ 31 <= x < 2 ^ 31) then Some x else None.

Section Queue.
Context {T : Type} (check : T -> bool).
Implicit Types q : CCheckQueue T.

Definition newCheckQueue (nBatchSizeIn : Z) : CCheckQueue T := mkQueue [] 0 0 true 0 false nBatchSizeIn.

(** The clean-up of the previous iteration; also whether [condMaster] is notified. *)
Definition Loop_cleanup (fMaster : bool) q (nNow : Z) (fOk : bool) : option (CCheckQueue T * bool) :=
  if negb (nNow =? 0) then
    let q := mkQueue (queue q) (nIdle q) (nTotal q) (fAllOk q && fOk) (u32 (nTodo q - nNow)) (fQuit q) (nBatchSize q) in
    Some (q, (nTodo q =? 0) && negb fMaster)
  else
    t ← int (nTotal q + 1);
    Some (mkQueue (queue q) (nIdle q) t (fAllOk q) (nTodo q) (fQuit q) (nBatchSize q), false).

(** [nNow] elements off the back. *)
Fixpoint pop_batch (nNow : nat) (queue : list T) : option (list T * list T) :=
  match nNow, queue with
  | O, _ => Some ([], queue)
  | S n, c :: queue => '(vChecks, queue) ← pop_batch n queue; Some (c :: vChecks, queue)
  | S _, [] => None
  end.

Definition batch_size q : option Z :=
  threads ← int (nTotal q + nIdle q + 1);
  if u32 threads =? 0 then None
  else Some (Z.max 1 (Z.min (nBatchSize q) (u32 (Z.of_nat (length (queue q))) / u32 threads))).

(** From the test of [queue.empty()] to the release of the mutex. *)
Definition Loop_take (fMaster : bool) q : option (CCheckQueue T * point T) :=
  match queue q with
  | [] =>
      if (fMaster || fQuit q) && (nTodo q =? 0) then
        t ← int (nTotal q - 1);
        let fRet := fAllOk q in
        Some (mkQueue [] (nIdle q) t (if fMaster then true else fAllOk q) (nTodo q) (fQuit q) (nBatchSize q), Returned fRet)
      else
        i ← int (nIdle q + 1);
        Some (mkQueue [] i (nTotal q) (fAllOk q) (nTodo q) (fQuit q) (nBatchSize q), Waiting false)
  | _ :: _ =>
      nNow ← batch_size q;
      '(vChecks, rest) ← pop_batch (Z.to_nat nNow) (queue q);
      Some (mkQueue rest (nIdle q) (nTotal q) (fAllOk q) (nTodo q) (fQuit q) (nBatchSize q), Working vChecks nNow (fAllOk q))
  end.

(** The first critical section of an iteration, and the one after [cond.wait]. *)
Definition Loop_enter (fMaster : bool) q (nNow : Z) (fOk : bool) : option (CCheckQueue T * point T * bool) :=
  '(q, notify) ← Loop_cleanup fMaster q nNow fOk;
  '(q, p) ← Loop_take fMaster q;
  Some (q, p, notify).

Definition Loop_wake (fMaster : bool) q : option (CCheckQueue T * point T * bool) :=
  i ← int (nIdle q - 1);
  '(q, p) ← Loop_take fMaster (mkQueue (queue q) i (nTotal q) (fAllOk q) (nTodo q) (fQuit q) (nBatchSize q));
  Some (q, p, false).

(** One step of a thread in [Loop]; [None] is undefined behaviour, or a thread that has
    returned. *)
Definition Loop_step (fMaster : bool) q (p : point T) : option (CCheckQueue T * point T * bool) :=
  match p with
  | Working (c :: vChecks) nNow fOk => Some (q, Working vChecks nNow (if fOk then check c else fOk), false)
  | Working [] nNow fOk => Loop_enter fMaster q nNow fOk
  | Waiting _ => Loop_wake fMaster q
  | Returned _ => None
  end.

(** Where [Loop()] starts. *)
Definition Loop_start : point T := Working [] 0 true.

Definition Add q (vChecks : list T) : CCheckQueue T :=
  mkQueue (rev vChecks ++ queue q) (nIdle q) (nTotal q) (fAllOk q) (u32 (nTodo q + Z.of_nat (length vChecks))) (fQuit q) (nBatchSize q).

Definition IsIdle q : bool := (nTotal q =? nIdle q) && (nTodo q =? 0) && Bool.eqb (fAllOk q) true.

(** ** The threads *)

Definition notify (p : point T) : point T :=
  match p with
  | Waiting _ => Waiting true
  | _ => p
  end.

(** [condMaster.notify_one()]: only the master waits there. *)
Definition notify_master (m : master_point T) : master_point T :=
  match m with
  | InWait added p => InWait added (notify p)
  | _ => m
  end.

(** [condWorker] after [Add]: [notify_one] for one check, [notify_all] for several. *)
Inductive notify_workers (vChecks : list T) (ws : list (point T)) : list (point T) -> Prop :=
  | notify_none : length vChecks = 0%nat -> notify_workers vChecks ws ws
  | notify_one l1 l2 : length vChecks = 1%nat -> ws = l1 ++ Waiting false :: l2 -> notify_workers vChecks ws (l1 ++ Waiting true :: l2)
  | notify_nobody : length vChecks = 1%nat -> Waiting false ∉ ws -> notify_workers vChecks ws ws
  | notify_all : (1 < length vChecks)%nat -> notify_workers vChecks ws (map notify ws).

Definition spurious (p : point T) : event T :=
  match p with
  | Waiting false => Spurious
  | _ => Tau
  end.

Inductive step : system T -> event T -> system T -> Prop :=
  | step_open q ws :
      step (mkSystem q Outside ws) (Opened (IsIdle q)) (mkSystem q (if IsIdle q then Adding [] else Aborted) ws)
  | step_add q added ws vChecks ws' :
      notify_workers vChecks ws ws' ->
      step (mkSystem q (Adding added) ws) (Added vChecks) (mkSystem (Add q vChecks) (Adding (added ++ vChecks)) ws')
  | step_call q added ws :
      step (mkSystem q (Adding added) ws) Tau (mkSystem q (InWait added Loop_start) ws)
  | step_master q added p ws q' p' n :
      Loop_step true q p = Some (q', p', n) ->
      step (mkSystem q (InWait added p) ws) (spurious p) (mkSystem q' (InWait added p') ws)
  | step_return q added fRet ws :
      step (mkSystem q (InWait added (Returned fRet)) ws) (Waited fRet) (mkSystem q Outside ws)
  | step_worker q m l1 p l2 q' p' n :
      Loop_step false q p = Some (q', p', n) ->
      step (mkSystem q m (l1 ++ p :: l2)) (spurious p) (mkSystem q' (if n : bool then notify_master m else m) (l1 ++ p' :: l2)).

Inductive steps : system T -> list (event T) -> system T -> Prop :=
  | steps_nil s : steps s [] s
  | steps_cons s e s1 es s' : step s e s1 -> steps s1 es s' -> steps s (e :: es) s'.

(** [nThreads] threads that have just called [Thread()]. *)
Definition start (nBatchSizeIn : Z) (nThreads : nat) : system T :=
  mkSystem (newCheckQueue nBatchSizeIn) Outside (replicate nThreads Loop_start).

(** ** What is promised *)

(** The checks given to the open controller, if there is one. *)
Inductive promises : option (list T) -> list (event T) -> Prop :=
  | promise_nil o : promises o []
  | promise_tau o es : promises o es -> promises o (Tau :: es)
  | promise_spurious o es : promises o es -> promises o (Spurious :: es)
  | promise_open es : promises (Some []) es -> promises None (Opened true :: es)
  | promise_add l vChecks es : promises (Some (l ++ vChecks)) es -> promises (Some l) (Added vChecks :: es)
  | promise_wait l es : promises None es -> promises (Some l) (Waited (forallb check l) :: es).

(** No controller is given [2^32] checks. *)
Fixpoint few (n : Z) (es : list (event T)) : Prop :=
  match es with
  | [] => True
  | Opened _ :: es | Waited _ :: es => few 0 es
  | Added vChecks :: es => n + Z.of_nat (length vChecks) < 2 ^ 32 /\ few (n + Z.of_nat (length vChecks)) es
  | _ :: es => few n es
  end.


(** ** One step of a thread *)

(** What a thread accounts for: checks in [nTodo], one sleeper, one thread in the loop, its
    share of the result, and the steps it has left. *)
Definition now (p : point T) : Z := match p with Working _ n _ => n | _ => 0 end.
Definition asleep (p : point T) : Z := match p with Waiting _ => 1 | _ => 0 end.
Definition present (p : point T) : Z := match p with Waiting _ => 1 | Working _ n _ => if n =? 0 then 0 else 1 | Returned _ => 0 end.
Definition okay (p : point T) : bool := match p with Working l _ f => f && forallb check l | _ => true end.
Definition weight (p : point T) : Z := match p with Working l _ _ => 2 + Z.of_nat (length l) | Waiting true => 1 | _ => 0 end.
Definition point_ok (p : point T) : Prop :=
  match p with Working l n f => Z.of_nat (length l) <= n /\ (n = 0 -> l = [] /\ f = true) | _ => True end.
Definition queued q : Z := Z.of_nat (length (queue q)).

Lemma int_inv x y : int x = Some y -> y = x.
Proof using. unfold int. case_bool_decide; congruence. Qed.

Lemma int_fits x : - 2 ^ 31 <= x < 2 ^ 31 -> int x = Some x.
Proof using. intros. unfold int. by rewrite bool_decide_eq_true_2. Qed.

Lemma pop_batch_app n l b r : pop_batch n l = Some (b, r) -> l = b ++ r /\ length b = n.
Proof using.
  revert l b. induction n as [|n IH]; intros [|c l] b E; simplify_eq/=; try done.
  destruct (pop_batch n l) as [[b' r']|] eqn:E'; simplify_eq/=. destruct (IH _ _ E') as [-> ->]. done.
Qed.

Lemma pop_batch_defined n l : (n <= length l)%nat -> is_Some (pop_batch n l).
Proof using.
  revert l. induction n as [|n IH]; intros [|c l] Hl; cbn in *; try done || lia.
  destruct (IH l ltac:(lia)) as [[b r] ->]. done.
Qed.

(** The accounts balance: what changes in the queue is what changes in the thread. *)
Record accounts (fMaster : bool) q p q' p' (n : bool) : Prop := {
  ac_todo : nTodo q' - queued q' - now p' = nTodo q - queued q - now p;
  ac_idle : nIdle q' - asleep p' = nIdle q - asleep p;
  ac_total : nTotal q' - present p' = nTotal q - present p;
  ac_shrink : queued q' + now p' <= queued q + now p;
  ac_queue : queued q' <= queued q;
  ac_point : point_ok p';
  ac_todo_le : 0 <= nTodo q' <= nTodo q;
  ac_ok : match p' with
          | Returned b => queue q' = [] /\ nTodo q' = 0 /\ b = fAllOk q && forallb check (queue q) && okay p /\
                          fAllOk q' = if fMaster then true else b
          | _ => fAllOk q' && forallb check (queue q') && okay p' = fAllOk q && forallb check (queue q) && okay p
          end;
  ac_wait : forall w, p' = Waiting w -> w = false /\ queue q' = [] /\ (fMaster = true -> nTodo q' <> 0);
  ac_notify : fMaster = false -> nTodo q <> 0 -> nTodo q' = 0 -> n = true;
  ac_weight : p <> Waiting false -> 3 * queued q' + weight p' + (if n then 1 else 0) < 3 * queued q + weight p;
  ac_spurious : p = Waiting false -> n = false /\ 3 * queued q' + weight p' <= 3 * queued q + weight p;
}.

(** The part of a critical section that takes work, for a thread that was awake. *)
Lemma take_accounts fMaster q q' p' :
  0 <= nTodo q ->
  Loop_take fMaster q = Some (q', p') ->
  nTodo q' = nTodo q /\ nTodo q' - queued q' - now p' = nTodo q - queued q /\
  nIdle q' - asleep p' = nIdle q /\ nTotal q' - present p' = nTotal q - 1 /\
  queued q' + now p' <= queued q /\ queued q' <= queued q /\ point_ok p' /\
  match p' with
  | Returned b => queue q' = [] /\ nTodo q' = 0 /\ b = fAllOk q && forallb check (queue q) /\ fAllOk q' = if fMaster then true else b
  | _ => fAllOk q' && forallb check (queue q') && okay p' = fAllOk q && forallb check (queue q)
  end /\
  (forall w, p' = Waiting w -> w = false /\ queue q' = [] /\ (fMaster = true -> nTodo q' <> 0)) /\
  3 * queued q' + weight p' <= 3 * queued q /\ (queue q = [] -> weight p' = 0).
Proof using.
  intros H0 E. unfold Loop_take, queued in *. destruct q as [qu ni nt ok td fq bs]; cbn in *.
  destruct qu as [|c qu]; cbn in *.
  - destruct ((fMaster || fq) && (td =? 0)) eqn:Eq.
    + apply andb_true_iff in Eq as [_ Eq%Z.eqb_eq].
      destruct (int (nt - 1)) as [t|] eqn:Et; simplify_eq/=. apply int_inv in Et as ->. rewrite andb_true_r.
      split_and!; done || lia.
    + destruct (int (ni + 1)) as [t|] eqn:Et; simplify_eq/=. apply int_inv in Et as ->.
      split_and!; try done || lia; [by rewrite andb_true_r |]. intros w [= <-]. split_and!; try done. intros ->.
      cbn in Eq. by apply Z.eqb_neq.
  - set (full := mkQueue (c :: qu) ni nt ok td fq bs) in *. destruct (batch_size full) as [n|] eqn:Eb; simplify_eq/=.
    assert (1 <= n) as Hn.
    { unfold batch_size in Eb. destruct (int _) as [th|]; cbn in Eb; [|done]. destruct (u32 th =? 0); simplify_eq/=. lia. }
    destruct (pop_batch (Z.to_nat n) (c :: qu)) as [[b r]|] eqn:Ep; cbn in E; [|done]. simplify_eq/=.
    apply pop_batch_app in Ep as [Ea Hl]. assert (Z.of_nat (length b) = n) as Hb by lia.
    assert (Hq : S (length qu) = (length b + length r)%nat) by (rewrite <- length_app, <- Ea; done).
    change (check c && forallb check qu) with (forallb check (c :: qu)). rewrite Ea, forallb_app.
    destruct (Z.eqb_spec n 0); [lia |].
    split_and!; try done || lia; [by destruct ok, (forallb check b), (forallb check r) | by rewrite <- Ea].
Qed.

Lemma step_accounts fMaster q p q' p' n :
  point_ok p -> now p + queued q <= nTodo q < 2 ^ 32 -> Loop_step fMaster q p = Some (q', p', n) ->
  accounts fMaster q p q' p' n.
Proof using.
  intros Hp Htodo E. destruct p as [[|c l] k f|w|]; cbn in E; try done.
  - destruct Hp as [Hk Hf]. unfold Loop_enter in E.
    destruct (Loop_cleanup fMaster q k f) as [[q1 n1]|] eqn:E1; cbn in E; [|done].
    destruct (Loop_take fMaster q1) as [[q2 p2]|] eqn:E2; simplify_eq/=. cbn in Htodo.
    unfold Loop_cleanup in E1. destruct (Z.eqb_spec k 0) as [-> | Hk0]; cbn in E1.
    + destruct (int _) as [t|] eqn:Et; simplify_eq/=. apply int_inv in Et as ->.
      destruct (Hf eq_refl) as [_ ->]. unfold queued in *.
      apply take_accounts in E2 as (H1 & H2 & H3 & H4 & H5 & H6 & H7 & H8 & H9 & H10 & H11); [|cbn; lia]. unfold queued in *. cbn in *.
      rewrite ?andb_true_r in *. split; cbn; rewrite ?andb_true_r; unfold queued; try done || lia. all: intros; cbn in *; lia.
    + simplify_eq/=. unfold queued in *. rewrite wrap_id in E2 |- * by (split; lia).
      apply take_accounts in E2 as (H1 & H2 & H3 & H4 & H5 & H6 & H7 & H8 & H9 & H10 & H11); [|cbn; lia]. unfold queued in *. cbn in *.
      assert (Hn : (if (nTodo q - k =? 0) && negb fMaster then 1 else 0) <= 1) by (by destruct ((nTodo q - k =? 0) && negb fMaster)).
      assert (Hk' : (k =? 0) = false) by lia.
      assert (Hc : fAllOk q && f && forallb check (queue q) = fAllOk q && forallb check (queue q) && (f && true))
        by (destruct (fAllOk q), f, (forallb check (queue q)); done). rewrite Hc in H8.
      split; cbn; unfold queued; rewrite ?Hk'; try done || lia.
      intros -> _ H0. rewrite H1 in H0. by rewrite (proj2 (Z.eqb_eq _ _) H0).
  - simplify_eq/=. destruct Hp as [Hk Hf]. unfold queued in *. cbn in Htodo. split; cbn; unfold queued; try done || lia.
    by destruct f, (check c), (fAllOk q').
  - unfold Loop_wake in E. destruct (int _) as [t|] eqn:Et; cbn in E; [|done]. apply int_inv in Et as ->.
    destruct (Loop_take _ _) as [[q2 p2]|] eqn:E2; simplify_eq/=. unfold queued in *.
    apply take_accounts in E2 as (H1 & H2 & H3 & H4 & H5 & H6 & H7 & H8 & H9 & H10 & H11); [|cbn in *; lia]. unfold queued in *. cbn in *.
    rewrite ?andb_true_r in *. split; cbn; rewrite ?andb_true_r; unfold queued; try done || lia.
    + intros Hw. destruct w; [lia | done].
    + intros [= ->]. split; [done | lia].
Qed.

(** No step is undefined while the threads can be counted. *)
Lemma take_defined fMaster q :
  0 <= nIdle q < 2 ^ 30 - 2 -> 0 < nTotal q < 2 ^ 30 -> is_Some (Loop_take fMaster q).
Proof using.
  intros Hi Ht. unfold Loop_take. destruct q as [qu ni nt ok td fq bs]; cbn in *. destruct qu as [|c qu].
  - destruct (_ && _); rewrite int_fits by lia; done.
  - unfold batch_size; cbn [nTotal nIdle queue nBatchSize]. rewrite int_fits by lia. cbn [mbind option_bind].
    rewrite (wrap_id 32 (nt + ni + 1)) by (split; lia). destruct (Z.eqb_spec (nt + ni + 1) 0); [lia |].
    set (size := Z.max _ _).
    assert (Z.to_nat size <= length (c :: qu))%nat.
    { assert (u32 (Z.of_nat (length (c :: qu))) / (nt + ni + 1) <= Z.of_nat (length (c :: qu))); [|cbn in *; lia].
      assert (0 <= u32 (Z.of_nat (length (c :: qu))) <= Z.of_nat (length (c :: qu))).
      { unfold wrap. split; [apply Z.mod_pos_bound; lia | apply Z.mod_le; lia]. }
      transitivity (u32 (Z.of_nat (length (c :: qu)))); [|lia]. apply Z.div_le_upper_bound; nia. }
    cbn [mbind option_bind]. destruct (pop_batch_defined (Z.to_nat size) (c :: qu)) as [[b r] ->]; done.
Qed.

Lemma step_defined fMaster q p :
  asleep p <= nIdle q < 2 ^ 30 - 2 -> 0 <= nIdle q -> present p <= nTotal q < 2 ^ 30 - 2 -> 0 <= nTotal q -> point_ok p ->
  (forall b, p <> Returned b) -> is_Some (Loop_step fMaster q p).
Proof using.
  intros Hi Hi0 Ht Ht0 Hp Hd. destruct p as [[|c l] k f|w|b]; cbn in *; try done; [| |by destruct (Hd b)].
  - unfold Loop_enter, Loop_cleanup. destruct (Z.eqb_spec k 0) as [-> |]; cbn [negb mbind option_bind].
    + rewrite int_fits by lia. cbn [mbind option_bind].
      match goal with |- context [Loop_take fMaster ?q1] => destruct (take_defined fMaster q1) as [[q2 p2] ->] end; cbn; done || lia.
    + match goal with |- context [Loop_take fMaster ?q1] => destruct (take_defined fMaster q1) as [[q2 p2] ->] end; cbn; done || lia.
  - unfold Loop_wake. rewrite int_fits by lia. cbn [mbind option_bind].
    match goal with |- context [Loop_take fMaster ?q1] => destruct (take_defined fMaster q1) as [[q2 p2] ->] end; cbn; done || lia.
Qed.

(** ** All the threads *)

Definition total (f : point T -> Z) (l : list (point T)) : Z := foldr Z.add 0 (f <$> l).
#[local] Arguments total : simpl never.

Definition master_points (m : master_point T) : list (point T) := match m with InWait _ p => [p] | _ => [] end.
Definition points (s : system T) : list (point T) := master_points (master s) ++ workers s.

(** The checks whose result [Wait()] has still to return. *)
Definition pending (m : master_point T) : list T :=
  match m with
  | Adding added => added
  | InWait added (Returned _) => []
  | InWait added _ => added
  | _ => []
  end.

Record invariant (s : system T) : Prop := {
  inv_master : master s <> Aborted;
  inv_todo : nTodo (sys_queue s) = queued (sys_queue s) + total now (points s);
  inv_idle : nIdle (sys_queue s) = total asleep (points s);
  inv_total : nTotal (sys_queue s) = total present (points s);
  inv_ok : fAllOk (sys_queue s) && forallb check (queue (sys_queue s)) && forallb okay (points s) = forallb check (pending (master s));
  inv_points : Forall point_ok (points s);
  inv_count : nTodo (sys_queue s) <= Z.of_nat (length (pending (master s)));
  inv_small : Z.of_nat (length (pending (master s))) < 2 ^ 32;
  inv_waiting : forall added w, master s = InWait added (Waiting w) -> queue (sys_queue s) = [] /\ (w = false -> nTodo (sys_queue s) <> 0);
  inv_result : forall added b, master s = InWait added (Returned b) -> b = forallb check added;
  inv_threads : Z.of_nat (length (workers s)) < 2 ^ 30 - 4;
}.

Lemma total_app f l1 l2 : total f (l1 ++ l2) = total f l1 + total f l2.
Proof using. unfold total. rewrite fmap_app. induction l1 as [|p l1 IH]; cbn; lia. Qed.

Lemma total_cons f p l : total f (p :: l) = f p + total f l.
Proof using. done. Qed.

Lemma total_nonneg f l : Forall (fun p => 0 <= f p) l -> 0 <= total f l.
Proof using. induction 1; unfold total in *; cbn in *; lia. Qed.

Lemma total_le f l : (forall p, f p <= 1) -> total f l <= Z.of_nat (length l).
Proof using. intros H. induction l as [|p l IH]; unfold total in *; cbn in *; [lia |]. specialize (H p). lia. Qed.

Lemma total_notify f l : (forall p, f (notify p) = f p) -> total f (map notify l) = total f l.
Proof using. intros H. unfold total. induction l as [|p l IH]; cbn in *; [done |]. by rewrite H, IH. Qed.

Lemma now_nonneg p : point_ok p -> 0 <= now p.
Proof using. destruct p; cbn; lia. Qed.

Lemma asleep_range p : 0 <= asleep p <= 1.
Proof using. destruct p; cbn; lia. Qed.

Lemma present_range p : 0 <= present p <= 1.
Proof using. destruct p; cbn; try case_match; lia. Qed.

Lemma now_total_nonneg l : Forall point_ok l -> 0 <= total now l.
Proof using. intros H. apply total_nonneg. eapply Forall_impl; [apply now_nonneg | exact H]. Qed.

(** With nothing left to do, no thread holds a batch. *)
Lemma all_done l : Forall point_ok l -> total now l = 0 -> forallb okay l = true /\ total present l = total asleep l.
Proof using.
  induction 1 as [|p l Hp Hl IH]; [done |]. rewrite !total_cons. intros H0. pose proof (now_nonneg _ Hp). pose proof (now_total_nonneg _ Hl).
  destruct IH as [IH1 IH2]; [lia |]. cbn [forallb]. rewrite IH1, IH2. destruct p as [c k f| |]; cbn in *; try done.
  destruct Hp as [_ Hp]. destruct (Hp ltac:(lia)) as [-> ->]. by rewrite (proj2 (Z.eqb_eq k 0)) by lia.
Qed.

Lemma invariant_start n k : Z.of_nat k < 2 ^ 30 - 4 -> invariant (start n k).
Proof using.
  intros Hk. assert (forall f, f Loop_start = 0 -> total f (replicate k Loop_start) = 0) as H0.
  { intros f H. unfold total. clear Hk. induction k as [|k IH]; cbn in *; [done | lia]. }
  split; cbn; unfold points, queued; cbn; rewrite ?H0 by done; try done || lia.
  - clear. induction k; cbn in *; done.
  - clear. induction k; cbn; constructor; done.
  - by rewrite length_replicate.
Qed.

(** One thread of [l1 ++ p :: l2] takes a step. *)
Lemma thread_balance fMaster q p q' p' n l1 l2 :
  Loop_step fMaster q p = Some (q', p', n) ->
  nTodo q = queued q + total now (l1 ++ p :: l2) -> Forall point_ok (l1 ++ p :: l2) -> nTodo q < 2 ^ 32 ->
  accounts fMaster q p q' p' n /\ Forall point_ok (l1 ++ p' :: l2) /\
  nTodo q' = queued q' + total now (l1 ++ p' :: l2) /\
  nIdle q' - total asleep (l1 ++ p' :: l2) = nIdle q - total asleep (l1 ++ p :: l2) /\
  nTotal q' - total present (l1 ++ p' :: l2) = nTotal q - total present (l1 ++ p :: l2).
Proof using.
  intros E Ht HF Hs. rewrite !total_app, !total_cons in *. apply Forall_app in HF as [H1 HF]. apply Forall_cons_iff in HF as [Hp H2].
  pose proof (now_total_nonneg _ H1). pose proof (now_total_nonneg _ H2).
  assert (Ha : accounts fMaster q p q' p' n) by (apply step_accounts; [done | lia | done]).
  split; [done |]. destruct Ha. split_and!; [| lia..]. apply Forall_app. split; [done | by constructor].
Qed.

Lemma okay_swap a b c d l1 l2 p p' :
  a && b && okay p' = c && d && okay p -> a && b && forallb okay (l1 ++ p' :: l2) = c && d && forallb okay (l1 ++ p :: l2).
Proof using.
  rewrite !forallb_app. cbn. intros H.
  transitivity (a && b && okay p' && (forallb okay l1 && forallb okay l2)); [| rewrite H];
    destruct (forallb okay l1), (forallb okay l2), (okay p), (okay p'), a, b, c, d; done.
Qed.

(** ** Every step keeps the invariant *)

Lemma notify_keeps p : now (notify p) = now p /\ asleep (notify p) = asleep p /\ present (notify p) = present p /\ okay (notify p) = okay p /\
  (point_ok (notify p) <-> point_ok p).
Proof using. by destruct p. Qed.

Lemma notify_list_keeps l :
  total now (map notify l) = total now l /\ total asleep (map notify l) = total asleep l /\
  total present (map notify l) = total present l /\ forallb okay (map notify l) = forallb okay l /\
  (Forall point_ok l -> Forall point_ok (map notify l)).
Proof using.
  split_and!; try (apply total_notify; intros; apply notify_keeps).
  - induction l as [|p l IH]; cbn; [done |]. by rewrite IH, (proj1 (proj2 (proj2 (proj2 (notify_keeps p))))).
  - intros H. apply Forall_map. eapply Forall_impl; [|exact H]. intros p. apply notify_keeps.
Qed.

(** The workers woken by [Add] are accounted for as before. *)
Lemma notify_workers_keeps v ws ws' :
  notify_workers v ws ws' ->
  total now ws' = total now ws /\ total asleep ws' = total asleep ws /\ total present ws' = total present ws /\
  forallb okay ws' = forallb okay ws /\ (Forall point_ok ws -> Forall point_ok ws') /\ length ws' = length ws.
Proof using.
  destruct 1 as [|l1 l2 _ ->| |]; [done | | done |].
  - rewrite !total_app, !total_cons, !forallb_app, !length_app. split_and!; try done.
    rewrite !Forall_app, !Forall_cons_iff. done.
  - destruct (notify_list_keeps ws) as (?&?&?&?&?). split_and!; try done. by rewrite length_map.
Qed.

Lemma master_points_notify m : master_points (notify_master m) = map notify (master_points m).
Proof using. by destruct m. Qed.

Lemma pending_notify m : pending (notify_master m) = pending m.
Proof using. destruct m as [| | |a []]; done. Qed.

(** What the accounts say of the result, for a thread that stays in the loop or is a worker. *)
Lemma accounts_ok q p q' p' n :
  accounts false q p q' p' n -> fAllOk q' && forallb check (queue q') && okay p' = fAllOk q && forallb check (queue q) && okay p.
Proof using. intros []. destruct p'; try done. destruct ac_ok0 as (-> & _ & -> & ->). cbn. by rewrite !andb_true_r. Qed.

Lemma worker_invariant q m l1 p l2 q' p' n :
  invariant (mkSystem q m (l1 ++ p :: l2)) -> Loop_step false q p = Some (q', p', n) ->
  invariant (mkSystem q' (if n then notify_master m else m) (l1 ++ p' :: l2)).
Proof using.
  intros [Hm Ht Hi Hto Ho Hp Hc Hs Hw Hr Hl] E. unfold points in *. cbn [sys_queue master workers] in *.
  rewrite app_assoc in *.
  destruct (thread_balance _ _ _ _ _ _ _ _ E Ht Hp ltac:(lia)) as (Ha & Hp' & Ht' & Hi' & Hto').
  pose proof (okay_swap _ _ _ _ (master_points m ++ l1) l2 _ _ (accounts_ok _ _ _ _ _ Ha)) as Ho'.
  pose proof (notify_list_keeps (master_points m)) as (N1 & N2 & N3 & N4 & N5).
  assert (Hp2 := Hp'). rewrite <- app_assoc, Forall_app in Hp2. destruct Hp2 as [Hp2 Hp3].
  destruct Ha. split; cbn [sys_queue master workers]; unfold points; cbn [sys_queue master workers]; try rewrite app_assoc.
  - destruct n; [destruct m; done | done].
  - destruct n; [|lia]. rewrite master_points_notify. rewrite !total_app in *. lia.
  - destruct n; [|lia]. rewrite master_points_notify. rewrite !total_app in *. lia.
  - destruct n; [|lia]. rewrite master_points_notify. rewrite !total_app in *. lia.
  - assert (forallb check (pending (if n then notify_master m else m)) = forallb check (pending m)) as ->.
    { destruct n; [by rewrite pending_notify | done]. }
    rewrite <- Ho, <- Ho'. destruct n; [|done]. rewrite master_points_notify, !forallb_app, N4. done.
  - destruct n; [|done]. rewrite master_points_notify, <- app_assoc. apply Forall_app. by split; [apply N5 |].
  - destruct n; [rewrite pending_notify |]; lia.
  - destruct n; [rewrite pending_notify |]; lia.
  - intros a w Hm'. assert (exists w', m = InWait a (Waiting w') /\ (w = false -> w' = false /\ n = false)) as (w' & -> & Hw').
    { destruct n; [|by exists w; rewrite Hm']. destruct m as [| | |a' []]; cbn in Hm'; simplify_eq. by eexists. }
    destruct (Hw a w' eq_refl) as [Hq Hn]. split.
    + unfold queued in *. rewrite Hq in ac_queue0. destruct (queue q'); [done | cbn in *; lia].
    + intros Hwf. destruct (Hw' Hwf) as [-> ->]. intros H0. specialize (ac_notify0 eq_refl (Hn eq_refl) H0). done.
  - intros a b Hm'. destruct n; [|by apply (Hr a b)]. destruct m as [| | |a' []]; cbn in Hm'; simplify_eq. by apply (Hr a b).
  - rewrite length_app in *. cbn in *. lia.
Qed.

(** In [Wait()] every check given is pending until the master returns. *)
Lemma pending_wait added p : (forall b, p <> Returned b) -> pending (InWait added p) = added.
Proof using. intros H. destruct p; try done. by destruct (H fRet). Qed.

Lemma master_invariant q added p ws q' p' n :
  invariant (mkSystem q (InWait added p) ws) -> Loop_step true q p = Some (q', p', n) ->
  invariant (mkSystem q' (InWait added p') ws).
Proof using.
  intros [Hm Ht Hi Hto Ho Hp Hc Hs Hw Hr Hl] E. unfold points in *. cbn [sys_queue master workers] in *.
  assert (Hne : forall b, p <> Returned b) by (intros b ->; done). rewrite (pending_wait _ _ Hne) in *.
  cbn [master_points app] in *.
  destruct (thread_balance _ _ _ _ _ _ [] ws E Ht Hp ltac:(lia)) as (Ha & Hp' & Ht' & Hi' & Hto'). cbn [app] in *.
  pose proof (okay_swap (fAllOk q') (forallb check (queue q')) (fAllOk q) (forallb check (queue q)) [] ws p p') as Ho'. cbn [app] in Ho'.
  destruct Ha. split; unfold points; cbn [sys_queue master workers master_points app]; try done || lia.
  - destruct p' as [l k f|w|b]; [cbn [pending]; rewrite <- Ho; by apply Ho' | cbn [pending]; rewrite <- Ho; by apply Ho' |].
    destruct ac_ok0 as (-> & H0 & -> & ->). apply Forall_cons_iff in Hp' as [_ Hp']. rewrite total_cons in Ht'.
    pose proof (now_total_nonneg _ Hp'). unfold queued in *. cbn in *. destruct (all_done ws Hp') as [-> _]; [lia | done].
  - destruct p'; cbn [pending] in *; cbn; lia.
  - destruct p'; cbn [pending] in *; cbn; lia.
  - intros a w [= <- ->]. destruct (ac_wait0 w eq_refl) as (_ & -> & H). split; [done |]. intros _. by apply H.
  - intros a b [= <- ->]. destruct ac_ok0 as (Hq & H0 & -> & _). rewrite <- Ho. cbn [forallb].
    apply Forall_cons_iff in Hp' as [_ Hp']. rewrite total_cons in Ht'. pose proof (now_total_nonneg _ Hp').
    unfold queued in *. rewrite Hq in Ht'. cbn in Ht'. destruct (all_done ws Hp') as [-> _]; [lia |]. by rewrite andb_true_r.
Qed.

(** With no check pending the queue is idle: the assertion of a new controller holds. *)
Lemma idle_when_done s : invariant s -> pending (master s) = [] -> master_points (master s) = [] -> IsIdle (sys_queue s) = true.
Proof using.
  intros [Hm Ht Hi Hto Ho Hp Hc Hs Hw Hr Hl] He Hn. unfold points, queued in *. rewrite He, Hn in *. cbn [app length forallb] in *.
  pose proof (now_total_nonneg _ Hp). destruct (all_done (workers s) Hp) as [H1 H2]; [lia |].
  unfold IsIdle. rewrite Hto, Hi, H2, Z.eqb_refl. rewrite (proj2 (Z.eqb_eq _ 0)) by lia.
  apply andb_true_iff in Ho as [[-> _]%andb_true_iff _]. done.
Qed.

Lemma add_invariant q added ws v ws' :
  invariant (mkSystem q (Adding added) ws) -> notify_workers v ws ws' ->
  Z.of_nat (length added) + Z.of_nat (length v) < 2 ^ 32 ->
  invariant (mkSystem (Add q v) (Adding (added ++ v)) ws').
Proof using.
  intros [Hm Ht Hi Hto Ho Hp Hc Hs Hw Hr Hl] Hn Hlt. unfold points, queued in *. cbn [sys_queue master workers master_points app pending] in *.
  destruct (notify_workers_keeps _ _ _ Hn) as (N1 & N2 & N3 & N4 & N5 & N6). pose proof (now_total_nonneg _ Hp).
  split; unfold points, queued; cbn; rewrite ?N1, ?N2, ?N3, ?N4, ?N6; try done || lia.
  - rewrite wrap_id by (split; lia). rewrite length_app, length_rev. lia.
  - rewrite !forallb_app, <- Ho. replace (forallb check (rev v)) with (forallb check v);
      [destruct (fAllOk q), (forallb check v), (forallb check (queue q)), (forallb okay ws); done |].
    clear. induction v as [|c v IH]; cbn; [done |]. rewrite forallb_app, IH. cbn. by destruct (check c), (forallb check (rev v)).
  - by apply N5.
  - rewrite wrap_id by (split; lia). rewrite length_app. lia.
  - rewrite length_app. lia.
Qed.

Lemma step_invariant s e s' :
  step s e s' -> (forall v, e = Added v -> Z.of_nat (length (pending (master s))) + Z.of_nat (length v) < 2 ^ 32) -> invariant s -> invariant s'.
Proof using.
  intros H He Hi. destruct H as [q ws|q added ws v ws' Hn|q added ws|q added p ws q' p' n E|q added b ws|q m l1 p l2 q' p' n E].
  - pose proof (idle_when_done _ Hi eq_refl eq_refl) as Hidle. cbn [sys_queue] in Hidle. rewrite Hidle. by destruct Hi.
  - apply (add_invariant _ added ws); [done | done | by apply He].
  - destruct Hi as [Hm Ht Hid Hto Ho Hp Hc Hs Hw Hr Hl]. split; unfold points, queued in *; cbn in *; try rewrite total_cons; done || (try constructor; done || lia).
  - by eapply master_invariant.
  - destruct Hi as [Hm Ht Hid Hto Ho Hp Hc Hs Hw Hr Hl]. split; unfold points, queued in *; cbn in *; rewrite ?total_cons in *; try done || lia.
    by apply Forall_cons_iff in Hp as [_ ?].
  - by eapply worker_invariant.
Qed.

(** The checks given to the controller. *)
Definition given (m : master_point T) : option (list T) :=
  match m with
  | Adding added | InWait added _ => Some added
  | _ => None
  end.

Lemma promises_spurious o p es : promises o es -> promises o (spurious p :: es).
Proof using. intros. destruct p as [|[]|]; by constructor. Qed.

(** Any run of the threads shows what is promised. *)
Lemma steps_promises s es s' :
  steps s es s' -> invariant s -> few (Z.of_nat (length (default [] (given (master s))))) es ->
  invariant s' /\ promises (given (master s)) es.
Proof using.
  induction 1 as [s|s e s1 es s' Hst _ IH]; intros Hi Hf; [by split; [|constructor] |].
  assert (Hi1 : invariant s1).
  { apply (step_invariant _ _ _ Hst); [|done]. intros v ->. inversion Hst as [|q added ws ? ws' Hn| |? ? p| |]; subst; cbn in *; [lia | |];
      match goal with H : spurious ?p = _ |- _ => destruct p as [|[]|]; done end. }
  destruct Hst as [q ws|q added ws v ws' Hn|q added ws|q added p ws q' p' n E|q added b ws|q m l1 p l2 q' p' n E]; cbn [master given] in *.
  - pose proof (idle_when_done _ Hi eq_refl eq_refl) as Hidle. cbn [sys_queue] in Hidle. rewrite Hidle in *.
    destruct IH as [H1 H2]; [done | exact Hf |]. split; [done | by constructor].
  - cbn in Hf. destruct Hf as [_ Hf]. destruct IH as [H1 H2]; [done | by cbn; rewrite length_app, Nat2Z.inj_add |]. split; [done | by constructor].
  - destruct IH as [H1 H2]; [done | exact Hf |]. split; [done | by constructor].
  - destruct IH as [H1 H2]; [done | by destruct p as [|[]|] |]. split; [done | by apply promises_spurious].
  - destruct IH as [H1 H2]; [done | exact Hf |].
    split; [done |]. rewrite (inv_result _ Hi added b eq_refl). by constructor.
  - assert (Hg : given (if n then notify_master m else m) = given m) by (destruct n, m; done). rewrite Hg in IH.
    destruct IH as [H1 H2]; [done | by destruct p as [|[]|] |]. split; [done | by apply promises_spurious].
Qed.

(** ** [Wait()] returns *)

Definition measure (s : system T) : Z := 3 * queued (sys_queue s) + total weight (points s).

Fixpoint own_steps (es : list (event T)) : Z :=
  match es with
  | [] => 0
  | Tau :: es => 1 + own_steps es
  | _ :: es => own_steps es
  end.

Lemma weight_notify p : weight (notify p) <= weight p + 1.
Proof using. destruct p as [|[]|]; cbn; lia. Qed.

Lemma weight_le p : point_ok p -> 0 <= weight p <= 3 * now p + 2.
Proof using. destruct p as [l n f|[]|]; cbn; lia. Qed.

Lemma measure_range s : invariant s -> 0 <= measure s <= 3 * Z.of_nat (length (pending (master s))) + 2 * Z.of_nat (length (points s)).
Proof using.
  intros [Hm Ht Hi Hto Ho Hp Hc Hs Hw Hr Hl]. unfold measure, queued in *.
  assert (0 <= total weight (points s) <= 3 * total now (points s) + 2 * Z.of_nat (length (points s))); [|lia].
  clear - Hp. induction Hp as [|p l H _ IH]; [done |]. rewrite !total_cons. pose proof (weight_le p H). cbn [length] in *. lia.
Qed.

Lemma measure_step s e s' added p :
  invariant s -> master s = InWait added p -> step s e s' ->
  (exists b, e = Waited b) \/
  ((e = Tau \/ e = Spurious) /\ (exists p', master s' = InWait added p') /\ length (workers s') = length (workers s) /\
   own_steps [e] + measure s' <= measure s).
Proof using.
  intros [Hm Ht Hi Hto Ho Hp Hc Hs Hw Hr Hl] Em Hst. unfold measure, points in *.
  destruct Hst as [q ws|q a ws v ws' Hn|q a ws|q a p1 ws q' p' n E|q a b ws|q m l1 p1 l2 q' p' n E]; cbn [master sys_queue workers] in *; simplify_eq.
  - right. assert (Hne : forall b, p <> Returned b) by (intros b ->; done). rewrite (pending_wait _ _ Hne) in *. cbn [master_points app] in *.
    destruct (thread_balance _ _ _ _ _ _ [] ws E Ht Hp ltac:(lia)) as ([] & _). rewrite !total_cons.
    split; [destruct p as [|[]|]; auto |]. split; [by eexists |]. split; [done |].
    destruct p as [l k f|[]|b]; cbn [spurious own_steps] in *; [specialize (ac_weight0 ltac:(done)) | specialize (ac_weight0 ltac:(done)) | | done];
      [destruct n; lia | destruct n; lia | destruct (ac_spurious0 eq_refl); lia].
  - left. by eexists.
  - right. rewrite app_assoc in *.
    destruct (thread_balance _ _ _ _ _ _ _ _ E Ht Hp ltac:(lia)) as ([] & _).
    assert (Hmp : total weight (master_points (if n then notify_master (InWait added p) else InWait added p)) <= weight p + if n then 1 else 0).
    { destruct n; cbn; unfold total; cbn; [pose proof (weight_notify p) |]; lia. }
    rewrite !app_assoc, !total_app, !total_cons in *. cbn [master_points] in *. rewrite (total_cons weight p []).
    split; [destruct p1 as [|[]|]; auto |]. split; [destruct n; by eexists |]. split; [by rewrite !length_app |].
    change (total weight []) with 0.
    destruct p1 as [l k f|[]|b]; cbn [spurious own_steps] in *; [specialize (ac_weight0 ltac:(done)) | specialize (ac_weight0 ltac:(done)) | | done];
      [lia | lia |]. destruct (ac_spurious0 eq_refl) as [-> ?]. lia.
Qed.

(** Until [Wait()] returns, the invariant holds and the measure goes down. *)
Lemma measure_steps s es s' :
  steps s es s' -> forall added p, invariant s -> master s = InWait added p ->
  (exists b, Waited b ∈ es) \/
  (invariant s' /\ (exists p', master s' = InWait added p') /\ length (workers s') = length (workers s) /\ own_steps es + measure s' <= measure s).
Proof using.
  induction 1 as [s|s e s1 es s' Hst _ IH]; intros added p Hi Em; [right; cbn; split_and!; eauto; lia |].
  destruct (measure_step _ _ _ _ _ Hi Em Hst) as [[b ->] | (He & (p1 & E1) & Hl & Hms)]; [left; exists b; by left |].
  assert (Hi1 : invariant s1) by (apply (step_invariant _ _ _ Hst); [destruct He as [-> | ->]; done | done]).
  destruct (IH added p1 Hi1 E1) as [[b Hb] | (H1 & H2 & H3 & H4)]; [left; exists b; by right |].
  right. split_and!; [done | done | congruence |]. destruct He as [-> | ->]; cbn in *; lia.
Qed.

(** Some thread can take a step of its own: no wake-up is lost. *)
Lemma wait_enabled s added p :
  invariant s -> master s = InWait added p -> exists e s', step s e s' /\ (e = Tau \/ e = Waited (forallb check added)).
Proof using.
  intros Hi Em. assert (Hi2 := Hi). destruct s as [q m ws]. cbn in Em. subst m.
  destruct Hi as [Hm Ht Hid Hto Ho Hp Hc Hs Hw Hr Hl]. unfold points in *. cbn [sys_queue master workers master_points app] in *.
  assert (Hd : forall fMaster p1, p1 ∈ p :: ws -> (forall b, p1 <> Returned b) -> is_Some (Loop_step fMaster q p1)).
  { intros fm p1 Hin Hne. apply list_elem_of_split in Hin as (l1 & l2 & El). rewrite El in *.
    apply step_defined; [| | | | apply Forall_app in Hp as [_ Hp]; by apply Forall_cons_iff in Hp as [? _] | done];
      rewrite Hid || rewrite Hto; rewrite total_app, total_cons;
      pose proof (total_nonneg asleep l1 ltac:(apply Forall_true; apply asleep_range));
      pose proof (total_nonneg asleep l2 ltac:(apply Forall_true; apply asleep_range));
      pose proof (total_nonneg present l1 ltac:(apply Forall_true; apply present_range));
      pose proof (total_nonneg present l2 ltac:(apply Forall_true; apply present_range));
      pose proof (total_le asleep l1 ltac:(apply asleep_range)); pose proof (total_le asleep l2 ltac:(apply asleep_range));
      pose proof (total_le present l1 ltac:(apply present_range)); pose proof (total_le present l2 ltac:(apply present_range));
      pose proof (asleep_range p1); pose proof (present_range p1);
      apply (f_equal length) in El; rewrite length_app in El; cbn in El; lia. }
  assert (Hmove : p <> Waiting false -> (forall b, p <> Returned b) -> exists e s', step (mkSystem q (InWait added p) ws) e s' /\ (e = Tau \/ e = Waited (forallb check added))).
  { intros H1 H2. destruct (Hd true p ltac:(by left) H2) as [[[q' p'] n] E]. exists (spurious p), (mkSystem q' (InWait added p') ws).
    split; [by econstructor |]. left. by destruct p as [|[]|]. }
  destruct p as [l k f|[]|b]; [by apply Hmove | by apply Hmove | |].
  - destruct (Hw added false eq_refl) as [Hq Hn]. specialize (Hn eq_refl). unfold queued in *. rewrite Hq, total_cons in Ht. cbn in Ht.
    assert (exists l k f l1 l2, ws = l1 ++ Working l k f :: l2) as (l & k & f & l1 & l2 & ->).
    { apply Forall_cons_iff in Hp as [_ Hp]. assert (Hz : total now ws <> 0) by lia. clear -Hz.
      induction ws as [|p ws IH]; [done |]. destruct p as [l k f| |]; [by exists l, k, f, [], ws | |];
        (destruct IH as (l & k & f & l1 & l2 & ->); [rewrite total_cons in Hz; cbn in Hz; lia | by eexists l, k, f, (_ :: l1), l2]). }
    destruct (Hd false (Working l k f)) as [[[q' p'] n] E]; [right; apply elem_of_app; right; left | done |].
    exists Tau. eexists. split; [exact (step_worker _ _ _ _ _ _ _ _ E) | by left].
  - exists (Waited b). eexists. split; [econstructor |]. right. by rewrite (Hr added b eq_refl).
Qed.

Lemma steps_length s es s' : steps s es s' -> length (workers s') = length (workers s).
Proof using.
  induction 1 as [|s e s1 es s' Hst _ IH]; [done |]. rewrite IH. destruct Hst; cbn; try done.
  - match goal with H : notify_workers _ _ _ |- _ => by destruct (notify_workers_keeps _ _ _ H) as (_&_&_&_&_&?) end.
  - by rewrite !length_app.
Qed.

Lemma few_app n es es' : few n (es ++ es') -> few n es.
Proof using. induction es as [|[] es IH] in n |- *; cbn; naive_solver. Qed.

(** C10. Whatever the scheduling, [Wait()] returns.  From any state in which the master is in
    [Wait()] with [added] checks given to it, a run in which the threads take more than
    [3 * added + 2 * (workers + 1)] steps of their own contains the return; until then some
    thread can take such a step without relying on a spurious wake-up, or the master can return
    the right answer: no notification is lost and no thread waits for ever on work. *)
Theorem check_queue_wait_returns nBatch nThreads es s added p :
  Z.of_nat nThreads < 2 ^ 30 - 4 ->
  steps (start nBatch nThreads) es s -> few 0 es -> master s = InWait added p ->
  (forall es' s', steps s es' s' -> 3 * Z.of_nat (length added) + 2 * (Z.of_nat nThreads + 1) < own_steps es' ->
    exists b, Waited b ∈ es') /\
  (forall es' s', steps s es' s' -> (forall b, Waited b ∉ es') ->
    exists e s'', step s' e s'' /\ (e = Tau \/ e = Waited (forallb check added))).
Proof using.
  intros Hk Hst Hf Em. destruct (steps_promises _ _ _ Hst (invariant_start nBatch nThreads Hk) Hf) as [Hi _].
  assert (Hl : length (points s) = S nThreads).
  { unfold points. rewrite Em. cbn. rewrite (steps_length _ _ _ Hst). cbn. by rewrite length_replicate. }
  split; intros es' s' Hst'; destruct (measure_steps _ _ _ Hst' added p Hi Em) as [Hb | (Hi' & (p' & Em') & _ & Hms)].
  - done.
  - intros Hlt. pose proof (measure_range _ Hi) as [_ Hr]. pose proof (measure_range _ Hi') as [H0 _].
    assert (length (pending (master s)) <= length added)%nat by (rewrite Em; destruct p; cbn; lia). lia.
  - intros Hn. destruct Hb as [b Hb]. by destruct (Hn b).
  - intros _. by eapply wait_enabled.
Qed.

(** ** Traces *)

Definition is_visible (e : event T) : bool := match e with Tau | Spurious => false | _ => true end.
Definition visible (es : list (event T)) : list (event T) := List.filter is_visible es.

Lemma promises_visible o es : promises o es -> promises o (visible es).
Proof using. induction 1; cbn; by try constructor. Qed.

Lemma promises_opened o es : promises o es -> Opened false ∉ es.
Proof using. induction 1; intros Hin; inversion Hin; subst; done. Qed.

Lemma promises_app o pre es : promises o (pre ++ es) -> exists o', promises o' es.
Proof using. revert o. induction pre as [|e pre IH]; intros o H; [by exists o |]. inversion H; subst; by eapply IH. Qed.

Lemma promises_waited l vs b post : promises (Some l) ((Added <$> vs) ++ Waited b :: post) -> b = forallb check (l ++ concat vs).
Proof using.
  revert l. induction vs as [|v vs IH]; intros l H; cbn in *; inversion H; subst; [by rewrite app_nil_r |].
  rewrite (app_assoc l v). by apply IH.
Qed.

(** One use of the queue: a controller is made, given [vs], and waited for. *)
Lemma use_result nBatch nThreads es s pre vs b post :
  Z.of_nat nThreads < 2 ^ 30 - 4 -> steps (start nBatch nThreads) es s -> few 0 es ->
  Opened false ∉ es /\
  (visible es = pre ++ Opened true :: (Added <$> vs) ++ Waited b :: post -> b = forallb check (concat vs)).
Proof using.
  intros Hk Hst Hf. destruct (steps_promises _ _ _ Hst (invariant_start nBatch nThreads Hk) Hf) as [_ Hp].
  split; [by eapply promises_opened |]. intros Ev. apply promises_visible in Hp. rewrite Ev in Hp.
  apply promises_app in Hp as [o Hp]. inversion Hp; subst. by eapply (promises_waited []).
Qed.

End Queue.

(** ** The script checks of a block *)

Section Scripts.
Context (g g' : list Z) (Verify : list Z -> list Z -> list Z -> bool) (LowS : list Z -> bool).

Definition script_ok (ck : CScriptCheck) : bool := match CScriptCheck_run g g' Verify LowS ck with Ret None => true | _ => false end.

Lemma run_checks_forallb cks :
  Forall (fun ck => exists e, CScriptCheck_run g g' Verify LowS ck = Ret e) cks ->
  run_checks g g' Verify LowS cks = Ret (forallb script_ok cks).
Proof using.
  induction 1 as [|ck cks [e E] _ IH]; cbn [run_checks forallb]; [done |]. rewrite E, IH. cbn [obnd].
  unfold script_ok. rewrite E. by destruct e.
Qed.

(** C6. Checking scripts in parallel decides what checking them one after the other does.  With
    any number of threads and any interleaving of their steps, spurious wake-ups included: each
    time [ConnectBlock] makes a controller, the assertion that the queue is idle holds; and when
    it has added the checks [vs], the result of [control.Wait()] is that of [run_checks]
    on all of them, where each check gives a result.  Earlier uses of the queue leave no trace. *)
Theorem parallel_script_checks nBatch nThreads es s pre vs b post :
  Z.of_nat nThreads < 2 ^ 30 - 4 -> steps script_ok (start nBatch nThreads) es s -> few 0 es ->
  Opened false ∉ es /\
  (visible es = pre ++ Opened true :: (Added <$> vs) ++ Waited b :: post ->
   Forall (fun ck => exists e, CScriptCheck_run g g' Verify LowS ck = Ret e) (concat vs) ->
   run_checks g g' Verify LowS (concat vs) = Ret b).
Proof using.
  intros Hk Hst Hf. destruct (use_result _ _ _ _ _ pre vs b post Hk Hst Hf) as [H1 H2]. split; [done |].
  intros Ev HF. by rewrite (run_checks_forallb _ HF), (H2 Ev).
Qed.

End Scripts.

(** ** Executions *)

Module Sample.

(** Who moves next. *)
Inductive choice (T : Type) := open | add (vChecks : list T) | call | return_ | run_master | run_worker (i : nat).
#[global] Arguments open {T}.
#[global] Arguments add {T} _.
#[global] Arguments call {T}.
#[global] Arguments return_ {T}.
#[global] Arguments run_master {T}.
#[global] Arguments run_worker {T} _.

Fixpoint wake_first {T} (ws : list (point T)) : list (point T) :=
  match ws with
  | [] => []
  | Waiting false :: ws => Waiting true :: ws
  | w :: ws => w :: wake_first ws
  end.

Definition wake {T} (v : list T) (ws : list (point T)) : list (point T) :=
  match length v with
  | O => ws
  | 1%nat => wake_first ws
  | _ => map notify ws
  end.

Definition move {T} (check : T -> bool) (c : choice T) (s : system T) : option (event T * system T) :=
  let '(mkSystem q m ws) := s in
  match c, m with
  | open, Outside => Some (Opened (IsIdle q), mkSystem q (if IsIdle q then Adding [] else Aborted) ws)
  | add v, Adding a => Some (Added v, mkSystem (Add q v) (Adding (a ++ v)) (wake v ws))
  | call, Adding a => Some (Tau, mkSystem q (InWait a Loop_start) ws)
  | return_, InWait a (Returned b) => Some (Waited b, mkSystem q Outside ws)
  | run_master, InWait a p => '(q, p', _) ← Loop_step check true q p; Some (spurious p, mkSystem q (InWait a p') ws)
  | run_worker i, _ =>
      p ← ws !! i;
      '(q, p', n) ← Loop_step check false q p;
      Some (spurious p, mkSystem q (if n : bool then notify_master m else m) (take i ws ++ p' :: drop (S i) ws))
  | _, _ => None
  end.

Fixpoint schedule {T} (check : T -> bool) (cs : list (choice T)) (s : system T) : option (list (event T) * system T) :=
  match cs with
  | [] => Some ([], s)
  | c :: cs => '(e, s1) ← move check c s; '(es, s') ← schedule check cs s1; Some (e :: es, s')
  end.

Lemma wake_first_spec {T} (ws : list (point T)) :
  (exists l1 l2, ws = l1 ++ Waiting false :: l2 /\ wake_first ws = l1 ++ Waiting true :: l2) \/
  (Waiting false ∉ ws /\ wake_first ws = ws).
Proof.
  induction ws as [|w ws IH]; [right; split; [apply not_elem_of_nil | done] |].
  destruct w as [l k f|[]|b]; cbn; [| | by left; exists [], ws |];
    (destruct IH as [(l1 & l2 & -> & ->) | [H ->]];
     [left; by eexists (_ :: l1), l2 | right; split; [|done]; intros Hin; apply elem_of_cons in Hin as [? | ?]; done]).
Qed.

Lemma wake_notifies {T} (v : list T) ws : notify_workers v ws (wake v ws).
Proof.
  unfold wake. destruct (length v) as [|[|n]] eqn:E; [by apply notify_none | | apply notify_all; lia].
  destruct (wake_first_spec ws) as [(l1 & l2 & -> & ->) | [H ->]]; [by apply notify_one with (l1 := l1) (l2 := l2) | by apply notify_nobody].
Qed.

Lemma move_step {T} check c (s : system T) e s' : move check c s = Some (e, s') -> step check s e s'.
Proof.
  destruct s as [q m ws]. unfold move. intros E. destruct c as [|v| | | |i].
  6: { destruct (ws !! i) as [p|] eqn:Ei; cbn in E; [|done]. destruct (Loop_step check false q p) as [[[q' p'] n]|] eqn:Ep; simplify_eq/=.
    rewrite <- (take_drop_middle ws i p Ei) at 1. by constructor. }
  all: destruct m as [| |a|a p]; cbn in E; try discriminate.
  - simplify_eq. constructor.
  - simplify_eq. constructor. apply wake_notifies.
  - simplify_eq. constructor.
  - destruct p; simplify_eq. constructor.
  - destruct (Loop_step check true q p) as [[[q' p'] n]|] eqn:Ep; simplify_eq/=. by econstructor.
Qed.

Lemma schedule_steps {T} check cs : forall (s s' : system T) es, schedule check cs s = Some (es, s') -> steps check s es s'.
Proof.
  induction cs as [|c cs IH]; intros s s' es E; cbn in E; [by simplify_eq; constructor |].
  destruct (move check c s) as [[e s1]|] eqn:Em; cbn in E; [|done]. destruct (schedule check cs s1) as [[es1 s2]|] eqn:Es; simplify_eq/=.
  econstructor; [by apply move_step in Em | by apply IH].
Qed.

(** Two workers and two blocks: the first has a failing script, found by a worker while the
    master sleeps. *)
Definition spend : CTransaction := mkTx 1 [mkTxIn (mkOut (replicate 32 7) 0) [] SEQUENCE_FINAL []] [] [] 0.
Definition pays (opcode : Z) : CScriptCheck := mkCheck [opcode] 1000 spend 0 0 (mkTxData [] [] []).

Definition first_block : list (choice CScriptCheck) :=
  [run_worker 0; open; add [pays OP_1; pays OP_0]; run_worker 1; call; run_master; run_worker 1;
   run_master; run_master; run_worker 0; run_worker 1; run_master; return_].
Definition second_block : list (choice CScriptCheck) := [open; add [pays OP_1]; call; run_master; run_master; run_master; return_].

Definition ok : CScriptCheck -> bool := script_ok [] [] (fun _ _ _ => true) (fun _ => true).

Definition trace (cs : list (choice CScriptCheck)) : list (event CScriptCheck) :=
  from_option fst [] (schedule ok cs (start 128 2)).

Lemma schedule_ends cs : match schedule ok cs (start 128 2) with Some _ => true | None => false end = true -> exists s, steps ok (start 128 2) (trace cs) s.
Proof.
  unfold trace. destruct (schedule _ _ _) as [[es s]|] eqn:E; [|done]. intros _. exists s. by apply schedule_steps with (cs := cs).
Qed.

End Sample.

Lemma parallel_script_checks_witness : exists s,
  steps Sample.ok (start 128 2) (Sample.trace (Sample.first_block ++ Sample.second_block)) s /\
  visible (Sample.trace (Sample.first_block ++ Sample.second_block)) =
    [Opened true; Added [Sample.pays OP_1; Sample.pays OP_0]; Waited false; Opened true; Added [Sample.pays OP_1]; Waited true] /\
  run_checks [] [] (fun _ _ _ => true) (fun _ => true) [Sample.pays OP_1; Sample.pays OP_0] = Ret false.
Proof.
  destruct (Sample.schedule_ends (Sample.first_block ++ Sample.second_block) eq_refl) as [s Hs]. exists s. split; [exact Hs |]. split; [by vm_compute |].
  destruct (parallel_script_checks [] [] (fun _ _ _ => true) (fun _ => true) 128 2 (Sample.trace (Sample.first_block ++ Sample.second_block)) s
    [] [[Sample.pays OP_1; Sample.pays OP_0]] false [Opened true; Added [Sample.pays OP_1]; Waited true]) as [_ H].
  - lia.
  - exact Hs.
  - by vm_compute.
  - apply H; [by vm_compute |]. repeat constructor; eexists; vm_compute; reflexivity.
Defined.

Lemma check_queue_wait_returns_witness : exists s p,
  master s = InWait [Sample.pays OP_1; Sample.pays OP_0] p /\ p = Waiting false /\
  exists e s', step Sample.ok s e s' /\ (e = Tau \/ e = Waited false).
Proof.
  destruct (Sample.schedule Sample.ok (take 9 Sample.first_block) (start 128 2)) as [[es s]|] eqn:E; [|vm_compute in E; discriminate].
  assert (Hs := Sample.schedule_steps _ _ _ _ _ E). vm_compute in E. injection E as Ees Es.
  exists s, (Waiting false). split; [by subst s | split; [done |]].
  destruct (check_queue_wait_returns Sample.ok 128 2 es s [Sample.pays OP_1; Sample.pays OP_0] (Waiting false)) as [_ H].
  - lia.
  - exact Hs.
  - subst es. by vm_compute.
  - by subst s.
  - destruct (H [] s (steps_nil _ s)) as (e & s' & Hst & He); [intros b Hb; by apply not_elem_of_nil in Hb |].
    exists e, s'. split; [exact Hst |]. replace false with (forallb Sample.ok [Sample.pays OP_1; Sample.pays OP_0]) by by vm_compute. exact He.
Defined.

End CheckQueue.
