(* ===== verification/BestChain.v ===== *)
(** * Choosing the active chain: FindMostWorkChain, ActivateBestChainStep,
    ActivateBestChain, InvalidateBlock and ReconsiderBlock of main.cpp

    Which chain is made active is decided here, block by block; connecting one block and
    disconnecting one are the operations of the class [TipOps], which [ConnectTip] and
    [DisconnectTip] of [Connect] implement.  The ordered set of candidates is its list in
    ascending order.  [None] is undefined behaviour, a failed assertion or a loop that
    has not ended.  Requests to shut down, pruning of block files, the mempool, warnings and
    notifications are not represented. *)

From stdpp Require Import gmap sorting.
From Stdlib Require Import String.
From S2P Require Import Prelude Lyra2 ArithUint ArithUintProofs Pow BlockIndex BlockIndexProofs BlockIndexTheorems VersionBits BlockPow Script Interpreter Transaction SigHash Compressor Coins TxVerify SeqLocks Block BlockTheorems Connect.
#[local] Open Scope string_scope.
#[local] Open Scope Z_scope.

Module BestChain.

(** ** The tip, one block at a time *)

(** What became of a block: connected; rejected, with the flag of [CorruptionPossible()]; a
    system error; or the call did not return. *)
Inductive tip_result := Connected | Rejected (corruption : bool) | SystemError | Crashed.

(** [tip_connect] is [ConnectTip] up to a rejection's [InvalidBlockFound], [tip_disconnect] is
    [DisconnectTip]; the blocks are on disk. *)
Class TipOps (T : Type) := {
  tip_chain : T -> list (option positive);
  tip_connect : index -> positive -> T -> tip_result * T;
  tip_disconnect : index -> T -> tip_result * T;
}.

(** A block that is connected becomes the tip, one that is disconnected uncovers its parent;
    anything else leaves the chain. *)
Class TipMoves (T : Type) `{TipOps T} : Prop := {
  connect_moves ix p t t' : tip_connect ix p t = (Connected, t') ->
    (exists b, ix_heap ix !! p = Some b /\ pprev b = Tip (tip_chain t)) /\
    SetTip (ix_heap ix) (tip_chain t) (Some p) = Some (tip_chain t');
  connect_stays ix p t r t' : tip_connect ix p t = (r, t') -> r <> Connected -> tip_chain t' = tip_chain t;
  disconnect_moves ix t t' : tip_disconnect ix t = (Connected, t') ->
    exists q b, Tip (tip_chain t) = Some q /\ ix_heap ix !! q = Some b /\ SetTip (ix_heap ix) (tip_chain t) (pprev b) = Some (tip_chain t');
  disconnect_stays ix t r t' : tip_disconnect ix t = (r, t') -> r <> Connected -> tip_chain t' = tip_chain t;
  disconnect_accepted ix t c t' : tip_disconnect ix t <> (Rejected c, t');
}.

(** ** The state *)

Record manager (T : Type) := mkManager {
  ix : index;
  nChainTx : gmap positive Z;
  setBlockIndexCandidates : list positive;
  pindexBestInvalid : option positive;
  mapBlocksUnlinked : list (option positive * positive);
  tip : T;
}.
#[global] Arguments mkManager {T} _ _ _ _ _ _.
#[global] Arguments ix {T} _.
#[global] Arguments nChainTx {T} _.
#[global] Arguments setBlockIndexCandidates {T} _.
#[global] Arguments pindexBestInvalid {T} _.
#[global] Arguments mapBlocksUnlinked {T} _.
#[global] Arguments tip {T} _.

Definition BLOCK_HAVE_DATA : Z := 8.
Definition BLOCK_FAILED_VALID : Z := 32.
Definition BLOCK_FAILED_CHILD : Z := 64.

(** The order of [setBlockIndexCandidates]; an address is a [positive]. *)
Definition CBlockIndexWorkComparator (H : heap) (pa pb : positive) : option bool :=
  a ← H !! pa;
  b ← H !! pb;
  Some (if op_gt 8 (nChainWork a) (nChainWork b) then false
        else if op_lt 8 (nChainWork a) (nChainWork b) then true
        else if nSequenceId a <? nSequenceId b then false
        else if nSequenceId b <? nSequenceId a then true
        else if (pa <? pb)%positive then false
        else if (pb <? pa)%positive then true
        else false).

Section Manager.
Context {T : Type} `{TipOps T}.
Implicit Types m : manager T.

Definition active m : list (option positive) := tip_chain (tip m).

Definition erase (p : positive) (l : list positive) : list positive := filter (fun q => q <> p) l.

Definition set_candidates m l : manager T := mkManager (ix m) (nChainTx m) l (pindexBestInvalid m) (mapBlocksUnlinked m) (tip m).
Definition set_invalid m p : manager T := mkManager (ix m) (nChainTx m) (setBlockIndexCandidates m) p (mapBlocksUnlinked m) (tip m).
Definition set_tip m t : manager T := mkManager (ix m) (nChainTx m) (setBlockIndexCandidates m) (pindexBestInvalid m) (mapBlocksUnlinked m) t.
Definition add_unlinked m e : manager T := mkManager (ix m) (nChainTx m) (setBlockIndexCandidates m) (pindexBestInvalid m) (mapBlocksUnlinked m ++ [e]) (tip m).
Definition set_heap (i : index) (H : heap) : index := mkIdx H (mapBlockIndex i) (pindexBestHeader i) (setDirtyBlockIndex i).
Definition set_dirty (i : index) (d : gset positive) : index := mkIdx (ix_heap i) (mapBlockIndex i) (pindexBestHeader i) d.
Definition set_ix m i : manager T := mkManager i (nChainTx m) (setBlockIndexCandidates m) (pindexBestInvalid m) (mapBlocksUnlinked m) (tip m).

(** [p->nStatus |= bits]. *)
Definition mark m (p : positive) (bits : Z) : option (manager T) :=
  b ← ix_heap (ix m) !! p;
  Some (set_ix m (set_heap (ix m) (<[p := set_status b (Z.lor (nStatus b) bits)]> (ix_heap (ix m))))).

(** ** [FindMostWorkChain] *)

(** The path from the candidate to the active chain: the first block that failed, or whose data
    is missing, and whether it failed. *)
Fixpoint test_path (fuel : nat) m (pindexTest : option positive) : option (option (positive * bool)) :=
  match pindexTest with
  | None => Some None
  | Some t =>
      c ← Contains (ix_heap (ix m)) (active m) t;
      if c : bool then Some None
      else
        b ← ix_heap (ix m) !! t;
        if (default 0 (nChainTx m !! t) =? 0) && negb (nHeight b =? 0) then None
        else
          let fFailedChain := negb (Z.land (nStatus b) BLOCK_FAILED_MASK =? 0) in
          let fMissingData := Z.land (nStatus b) BLOCK_HAVE_DATA =? 0 in
          if fFailedChain || fMissingData then Some (Some (t, fFailedChain))
          else match fuel with
               | O => None
               | S fuel => test_path fuel m (pprev b)
               end
  end.

(** [pindexNew->nChainWork > pindexBestInvalid->nChainWork], or there is no [pindexBestInvalid]. *)
Definition beats_invalid m (p : positive) : option bool :=
  match pindexBestInvalid m with
  | None => Some true
  | Some q => a ← ix_heap (ix m) !! p; b ← ix_heap (ix m) !! q; Some (op_gt 8 (nChainWork a) (nChainWork b))
  end.

(** [while (pindexTest != pindexFailed)]. *)
Fixpoint remove_chain (fuel : nat) m (pindexTest : positive) (fFailedChain : bool) (pindexFailed : positive) : option (manager T) :=
  if bool_decide (pindexTest = pindexFailed) then Some m
  else match fuel with
       | O => None
       | S fuel =>
           b ← ix_heap (ix m) !! pindexFailed;
           m ← (if fFailedChain then mark m pindexFailed BLOCK_FAILED_CHILD
                else Some (add_unlinked m (pprev b, pindexFailed)));
           let m := set_candidates m (erase pindexFailed (setBlockIndexCandidates m)) in
           q ← pprev b;
           remove_chain fuel m pindexTest fFailedChain q
       end.

Fixpoint find_loop (fuel : nat) m : option (option positive * manager T) :=
  match list.last (setBlockIndexCandidates m) with
  | None => Some (None, m)
  | Some pindexNew =>
      b ← ix_heap (ix m) !! pindexNew;
      r ← test_path (S (Z.to_nat (nHeight b))) m (Some pindexNew);
      match r with
      | None => Some (Some pindexNew, m)
      | Some (pindexTest, fFailedChain) =>
          worse ← beats_invalid m pindexNew;
          let m := if fFailedChain && worse then set_invalid m (Some pindexNew) else m in
          m ← remove_chain (Z.to_nat (nHeight b)) m pindexTest fFailedChain pindexNew;
          let m := set_candidates m (erase pindexTest (setBlockIndexCandidates m)) in
          match fuel with
          | O => None
          | S fuel => find_loop fuel m
          end
      end
  end.

Definition FindMostWorkChain m : option (option positive * manager T) := find_loop (length (setBlockIndexCandidates m)) m.

(** ** Moving the tip *)

(** From the beginning of the set on. *)
Fixpoint prune (H : heap) (t : option positive) (l : list positive) : option (list positive) :=
  match l with
  | [] => Some []
  | p :: l' =>
      t' ← t;
      less ← CBlockIndexWorkComparator H p t';
      if less : bool then prune H t l' else Some l
  end.

Definition PruneBlockIndexCandidates m : option (manager T) :=
  l ← prune (ix_heap (ix m)) (Tip (active m)) (setBlockIndexCandidates m);
  if bool_decide (l = []) then None else Some (set_candidates m l).

Definition InvalidChainFound m (pindexNew : positive) : option (manager T) :=
  worse ← beats_invalid m pindexNew;
  let m := if worse : bool then set_invalid m (Some pindexNew) else m in
  match Tip (active m) with None => None | Some _ => Some m end.

(** [InvalidBlockFound], without what concerns the peer that sent the block. *)
Definition InvalidBlockFound m (pindex : positive) (corruption : bool) : option (manager T) :=
  if corruption then Some m
  else
    m ← mark m pindex BLOCK_FAILED_VALID;
    let m := set_ix m (set_dirty (ix m) ({[pindex]} ∪ setDirtyBlockIndex (ix m))) in
    InvalidChainFound (set_candidates m (erase pindex (setBlockIndexCandidates m))) pindex.

(** [ConnectTip], with what it does when the block is rejected. *)
Definition connect_or_reject m (pindexNew : positive) : option (tip_result * manager T) :=
  let '(r, t) := tip_connect (ix m) pindexNew (tip m) in
  let m := set_tip m t in
  match r with
  | Rejected corruption => m ← InvalidBlockFound m pindexNew corruption; Some (r, m)
  | _ => Some (r, m)
  end.

(** [while (chainActive.Tip() && chainActive.Tip() != pindexFork)]: the last result. *)
Fixpoint disconnect_loop (fuel : nat) m (pindexFork : option positive) : option (tip_result * manager T) :=
  if bool_decide (Tip (active m) = None \/ Tip (active m) = pindexFork) then Some (Connected, m)
  else match fuel with
       | O => None
       | S fuel =>
           let '(r, t) := tip_disconnect (ix m) (tip m) in
           match r with
           | Connected => disconnect_loop fuel (set_tip m t) pindexFork
           | _ => Some (r, set_tip m t)
           end
       end.

(** The entries from [pindexIter] back to above [nHeight]: [vpindexToConnect], the lowest last. *)
Fixpoint to_connect (fuel : nat) (H : heap) (pindexIter : option positive) (nHeight : Z) : option (list positive) :=
  match pindexIter with
  | None => Some []
  | Some p =>
      b ← H !! p;
      if BlockIndex.nHeight b =? nHeight then Some []
      else match fuel with
           | O => None
           | S fuel => l ← to_connect fuel H (pprev b) nHeight; Some (p :: l)
           end
  end.

(** How [ActivateBestChainStep] goes on after a batch, or ends. *)
Inductive batch_end :=
  | Continue
  | Stop (fInvalidFound : bool)
  | ReturnFalse
  | NoReturn.

(** [BOOST_REVERSE_FOREACH] over a batch, given from the lowest block on; [lowest] is
    [vpindexToConnect.back()]. *)
Fixpoint connect_batch (l : list positive) m (pindexOldTip : option positive) (lowest : positive) : option (batch_end * manager T) :=
  match l with
  | [] => Some (Continue, m)
  | pindexConnect :: l =>
      '(r, m) ← connect_or_reject m pindexConnect;
      match r with
      | Connected =>
          m ← PruneBlockIndexCandidates m;
          better ← match pindexOldTip with
                   | None => Some true
                   | Some o =>
                       q ← Tip (active m); a ← ix_heap (ix m) !! q; b ← ix_heap (ix m) !! o;
                       Some (op_gt 8 (nChainWork a) (nChainWork b))
                   end;
          if better : bool then Some (Stop false, m) else connect_batch l m pindexOldTip lowest
      | Rejected corruption =>
          m ← (if corruption then Some m else InvalidChainFound m lowest);
          Some (Stop true, m)
      | SystemError => Some (ReturnFalse, m)
      | Crashed => Some (NoReturn, m)
      end
  end.

(** [while (fContinue && nHeight != pindexMostWork->nHeight)]. *)
Fixpoint connect_loop (fuel : nat) m (pindexOldTip : option positive) (pindexMostWork : positive) (nHeight : Z)
    : option (batch_end * manager T) :=
  b ← ix_heap (ix m) !! pindexMostWork;
  if nHeight =? BlockIndex.nHeight b then Some (Stop false, m)
  else match fuel with
       | O => None
       | S fuel =>
           let nTargetHeight := Z.min (nHeight + 32) (BlockIndex.nHeight b) in
           pindexIter ← GetAncestor (ix_heap (ix m)) pindexMostWork nTargetHeight;
           l ← to_connect 32 (ix_heap (ix m)) pindexIter nHeight;
           lowest ← list.last l;
           '(r, m) ← connect_batch (rev l) m pindexOldTip lowest;
           match r with
           | Continue => connect_loop fuel m pindexOldTip pindexMostWork nTargetHeight
           | _ => Some (r, m)
           end
       end.

Definition ActivateBestChainStep m (pindexMostWork : positive) : option (batch_end * manager T) :=
  let pindexOldTip := Tip (active m) in
  pindexFork ← FindFork (ix_heap (ix m)) (active m) (Some pindexMostWork);
  '(r, m) ← disconnect_loop (length (active m)) m pindexFork;
  match r with
  | Connected =>
      nHeight ← match pindexFork with None => Some (-1) | Some f => b ← ix_heap (ix m) !! f; Some (BlockIndex.nHeight b) end;
      b ← ix_heap (ix m) !! pindexMostWork;
      connect_loop (Z.to_nat (BlockIndex.nHeight b + 1)) m pindexOldTip pindexMostWork nHeight
  | Crashed => Some (NoReturn, m)
  | _ => Some (ReturnFalse, m)
  end.

(** ** [ActivateBestChain] *)

(** [pindexMostWork] is kept from one step to the next, until an invalid block is found. *)
Fixpoint activate_loop (fuel : nat) m (pindexMostWork : option positive) : option (batch_end * manager T) :=
  match fuel with
  | O => None
  | S fuel =>
      '(most, m) ← match pindexMostWork with None => FindMostWorkChain m | Some _ => Some (pindexMostWork, m) end;
      match most with
      | None => Some (Stop false, m)
      | Some p =>
          if bool_decide (most = Tip (active m)) then Some (Stop false, m)
          else
            '(r, m) ← ActivateBestChainStep m p;
            match r with
            | ReturnFalse | NoReturn => Some (r, m)
            | Continue => None
            | Stop fInvalidFound =>
                let most := if fInvalidFound then None else Some p in
                if bool_decide (Tip (active m) = most) then Some (Stop false, m)
                else activate_loop fuel m most
            end
      end
  end.

Definition ActivateBestChain (fuel : nat) m : option (batch_end * manager T) := activate_loop fuel m None.

(** ** [InvalidateBlock] *)

Definition BLOCK_VALID_TRANSACTIONS : Z := 3.

Definition IsValid (nUpTo : Z) (b : CBlockIndex) : bool :=
  if negb (Z.land (nStatus b) BLOCK_FAILED_MASK =? 0) then false
  else nUpTo <=? Z.land (nStatus b) BLOCK_VALID_MASK.

(** [setBlockIndexCandidates.insert]. *)
Fixpoint insert_candidate (H : heap) (p : positive) (l : list positive) : option (list positive) :=
  match l with
  | [] => Some [p]
  | q :: l' =>
      below ← CBlockIndexWorkComparator H q p;
      if below : bool then l' ← insert_candidate H p l'; Some (q :: l')
      else
        above ← CBlockIndexWorkComparator H p q;
        Some (if above : bool then p :: l else l)
  end.

(** [while (chainActive.Contains(pindex))]. *)
Fixpoint invalidate_loop (fuel : nat) m (pindex : positive) : option (tip_result * manager T) :=
  c ← Contains (ix_heap (ix m)) (active m) pindex;
  if c : bool then
    match fuel with
    | O => None
    | S fuel =>
        pindexWalk ← Tip (active m);
        m ← mark m pindexWalk BLOCK_FAILED_CHILD;
        let m := set_ix m (set_dirty (ix m) ({[pindexWalk]} ∪ setDirtyBlockIndex (ix m))) in
        let m := set_candidates m (erase pindexWalk (setBlockIndexCandidates m)) in
        let '(r, t) := tip_disconnect (ix m) (tip m) in
        match r with
        | Connected => invalidate_loop fuel (set_tip m t) pindex
        | _ => Some (r, set_tip m t)
        end
    end
  else Some (Connected, m).

(** The entries of [mapBlockIndex] that are as good as the tip become candidates. *)
Fixpoint add_candidates (l : list positive) m : option (manager T) :=
  match l with
  | [] => Some m
  | p :: l =>
      b ← ix_heap (ix m) !! p;
      m ← (if IsValid BLOCK_VALID_TRANSACTIONS b && negb (default 0 (nChainTx m !! p) =? 0) then
             t ← Tip (active m);
             worse ← CBlockIndexWorkComparator (ix_heap (ix m)) p t;
             if worse : bool then Some m
             else l ← insert_candidate (ix_heap (ix m)) p (setBlockIndexCandidates m); Some (set_candidates m l)
           else Some m);
      add_candidates l m
  end.

(** [Stop false] is the return of [true]. *)
Definition InvalidateBlock m (pindex : positive) : option (batch_end * manager T) :=
  m ← mark m pindex BLOCK_FAILED_VALID;
  let m := set_ix m (set_dirty (ix m) ({[pindex]} ∪ setDirtyBlockIndex (ix m))) in
  let m := set_candidates m (erase pindex (setBlockIndexCandidates m)) in
  '(r, m) ← invalidate_loop (length (active m)) m pindex;
  match r with
  | Connected =>
      m ← add_candidates (map snd (map_to_list (mapBlockIndex (ix m)))) m;
      m ← InvalidChainFound m pindex;
      Some (Stop false, m)
  | Crashed => Some (NoReturn, m)
  | _ => Some (ReturnFalse, m)
  end.

(** ** [ReconsiderBlock] *)

(** [p->nStatus &= ~BLOCK_FAILED_MASK; setDirtyBlockIndex.insert(p)]. *)
Definition clear_failed m (p : positive) : option (manager T) :=
  b ← ix_heap (ix m) !! p;
  let i := set_heap (ix m) (<[p := set_status b (Z.land (nStatus b) (Z.lnot BLOCK_FAILED_MASK))]> (ix_heap (ix m))) in
  Some (set_ix m (set_dirty i ({[p]} ∪ setDirtyBlockIndex i))).

(** One entry that is not valid and descends from the block. *)
Definition reconsider_one m (p : positive) : option (manager T) :=
  m ← clear_failed m p;
  b ← ix_heap (ix m) !! p;
  m ← (if IsValid BLOCK_VALID_TRANSACTIONS b && negb (default 0 (nChainTx m !! p) =? 0) then
         t ← Tip (active m);
         better ← CBlockIndexWorkComparator (ix_heap (ix m)) t p;
         if better : bool then l ← insert_candidate (ix_heap (ix m)) p (setBlockIndexCandidates m); Some (set_candidates m l)
         else Some m
       else Some m);
  Some (if bool_decide (Some p = pindexBestInvalid m) then set_invalid m None else m).

Fixpoint reconsider_loop (l : list positive) m (pindex : positive) (nHeight : Z) : option (manager T) :=
  match l with
  | [] => Some m
  | p :: l =>
      b ← ix_heap (ix m) !! p;
      m ← (if IsValid BLOCK_VALID_TRANSACTIONS b then Some m
           else
             a ← GetAncestor (ix_heap (ix m)) p nHeight;
             if bool_decide (a = Some pindex) then reconsider_one m p else Some m);
      reconsider_loop l m pindex nHeight
  end.

(** [while (pindex != NULL)]. *)
Fixpoint clear_ancestors (fuel : nat) m (pindex : option positive) : option (manager T) :=
  match pindex with
  | None => Some m
  | Some p =>
      match fuel with
      | O => None
      | S fuel =>
          b ← ix_heap (ix m) !! p;
          m ← (if Z.land (nStatus b) BLOCK_FAILED_MASK =? 0 then Some m else clear_failed m p);
          clear_ancestors fuel m (pprev b)
      end
  end.

(** It returns [true]. *)
Definition ReconsiderBlock m (pindex : positive) : option (manager T) :=
  b ← ix_heap (ix m) !! pindex;
  m ← reconsider_loop (map snd (map_to_list (mapBlockIndex (ix m)))) m pindex (nHeight b);
  clear_ancestors (S (Z.to_nat (nHeight b))) m (Some pindex).

End Manager.

(** ** The order of the candidates *)

(** An index whose work grows from parent to child, and with one genesis. *)
Record tree_ok (H : heap) : Prop := {
  to_wf : chain_wf H;
  to_limbs : forall p b, H !! p = Some b -> limbs 8 (nChainWork b);
  to_work : forall p b q b', H !! p = Some b -> pprev b = Some q -> H !! q = Some b' -> val (nChainWork b') < val (nChainWork b);
  to_genesis : forall p b q b', H !! p = Some b -> H !! q = Some b' -> nHeight b = 0 -> nHeight b' = 0 -> p = q;
}.

(** The work added by a valid target is positive, so that the index of [AddToBlockIndex] is such
    a tree while the total stays below [2^256]. *)
Lemma index_tree i :
  index_ok i ->
  (forall p b, ix_heap i !! p = Some b -> exists proof, GetBlockProof (nBits b) = Some proof /\
     0 < val proof /\ work_of (ix_heap i) (pprev b) + val proof < 2 ^ 256) ->
  (forall p b q b', ix_heap i !! p = Some b -> ix_heap i !! q = Some b' -> nHeight b = 0 -> nHeight b' = 0 -> p = q) ->
  tree_ok (ix_heap i).
Proof.
  intros [Hwf _ Hw _] Hp Hg. split; [done | by intros p b Hb; apply Hw in Hb as [? _] | | done].
  intros p b q b' Hb Eq Hb'. destruct (Hw _ _ Hb) as (_ & proof & E1 & Ev). destruct (Hp _ _ Hb) as (proof' & E2 & H0 & Hlt).
  assert (proof' = proof) as -> by congruence. destruct (Hw _ _ Hb') as [Hl _].
  unfold work_of, deref in *. rewrite Eq in *. cbn in *. rewrite Hb' in *.
  rewrite Ev, wrap_id; [lia |]. split; [|lia]. destruct (val_fits 8 _ Hl). lia.
Qed.

Section Order.
Context (H : heap) (Ht : tree_ok H).

Definition less (p q : positive) : Prop := CBlockIndexWorkComparator H p q = Some true.

(** The key the comparator compares. *)
Lemma less_key p a q b :
  H !! p = Some a -> H !! q = Some b ->
  CBlockIndexWorkComparator H p q = Some (bool_decide
    (val (nChainWork a) < val (nChainWork b) \/
     val (nChainWork a) = val (nChainWork b) /\ (nSequenceId b < nSequenceId a \/ nSequenceId a = nSequenceId b /\ (q < p)%positive))).
Proof using Ht.
  intros Ha Hb. unfold CBlockIndexWorkComparator. rewrite Ha, Hb. cbn.
  rewrite op_gt_ok, op_lt_ok by (by eapply to_limbs). f_equal.
  repeat match goal with
  | |- context [Z.ltb ?x ?y] => destruct (Z.ltb_spec x y)
  | |- context [Pos.ltb ?x ?y] => destruct (Pos.ltb_spec x y)
  end; symmetry; first [apply bool_decide_eq_true | apply bool_decide_eq_false]; lia.
Qed.

Lemma less_in p q : less p q -> is_Some (H !! p) /\ is_Some (H !! q).
Proof using. unfold less, CBlockIndexWorkComparator. destruct (H !! p), (H !! q); cbn; done. Qed.

Lemma less_irrefl p : ~ less p p.
Proof using Ht.
  intros Hl. destruct (less_in _ _ Hl) as [[a Ha] _]. unfold less in Hl. rewrite (less_key _ _ _ _ Ha Ha) in Hl. injection Hl as Hl. apply bool_decide_eq_true in Hl. lia.
Qed.

Lemma less_trans p q r : less p q -> less q r -> less p r.
Proof using Ht.
  intros H1 H2. destruct (less_in _ _ H1) as [[a Ha] [b Hb]]. destruct (less_in _ _ H2) as [_ [c Hc]].
  unfold less in *. rewrite (less_key _ _ _ _ Ha Hb) in H1. rewrite (less_key _ _ _ _ Hb Hc) in H2. rewrite (less_key _ _ _ _ Ha Hc).
  injection H1 as H1. injection H2 as H2. apply bool_decide_eq_true in H1, H2. f_equal. apply bool_decide_eq_true. lia.
Qed.

Lemma less_total p q : is_Some (H !! p) -> is_Some (H !! q) -> less p q \/ p = q \/ less q p.
Proof using Ht.
  intros [a Ha] [b Hb]. unfold less. rewrite (less_key _ _ _ _ Ha Hb), (less_key _ _ _ _ Hb Ha).
  destruct (decide (p = q)) as [|Hn]; [auto |].
  repeat case_bool_decide; auto. lia.
Qed.

Lemma less_decides p q : is_Some (H !! p) -> is_Some (H !! q) -> exists c, CBlockIndexWorkComparator H p q = Some c.
Proof using Ht. intros [a Ha] [b Hb]. rewrite (less_key _ _ _ _ Ha Hb). by eexists. Qed.

(** A block is never behind its ancestors. *)
Lemma back_work n : forall p b q b', H !! p = Some b -> back H n p = Some q -> H !! q = Some b' -> q = p \/ val (nChainWork b') < val (nChainWork b).
Proof using Ht.
  induction n as [|n IH]; intros p b q b' Hb Eb Hq; cbn in Eb; [left; congruence |]. rewrite Hb in Eb. cbn in Eb.
  destruct (pprev b) as [r|] eqn:Er; cbn in Eb; [|done].
  pose proof (eo_prev _ _ _ (to_wf _ Ht _ _ Hb)) as Hp. rewrite Er in Hp. destruct Hp as (c & Hc & _).
  pose proof (to_work _ Ht _ _ _ _ Hb Er Hc). destruct (IH _ _ _ _ Hc Eb Hq) as [-> | ?]; [|right; lia]. right. assert (b' = c) as -> by congruence. lia.
Qed.

Lemma ancestor_back p h q : ancestor H p h = Some q -> exists b, H !! p = Some b /\ 0 <= h <= nHeight b /\ back H (Z.to_nat (nHeight b - h)) p = Some q.
Proof using.
  unfold ancestor. destruct (H !! p) as [b|]; cbn; [|done]. destruct (Z.ltb_spec (nHeight b) h), (Z.ltb_spec h 0); cbn; try done.
  intros. exists b. split_and!; done || lia.
Qed.

Lemma ancestor_height p h q : ancestor H p h = Some q -> exists b b', H !! p = Some b /\ H !! q = Some b' /\ nHeight b' = h /\ 0 <= h <= nHeight b.
Proof using Ht.
  intros E. destruct (ancestor_back p h q E) as (b & Hb & Hh & _). destruct (ancestor_in H (to_wf H Ht) p b h Hb Hh) as (q' & b' & E' & Hb' & Eh & _).
  rewrite E in E'. injection E' as <-. by exists b, b'.
Qed.

Lemma ancestor_antisym p q h h' : ancestor H p h = Some q -> ancestor H q h' = Some p -> p = q.
Proof using Ht.
  intros E E'. destruct (ancestor_height p h q E) as (b & c & Hb & Hc & <- & H1). destruct (ancestor_height q h' p E') as (c' & b' & Hc' & Hb' & <- & H2).
  simplify_eq. assert (nHeight c = nHeight b) as Eh by lia. rewrite Eh, (ancestor_self H (to_wf H Ht) p b Hb) in E. by injection E.
Qed.

Lemma not_less_ancestor p h q : ancestor H p h = Some q -> ~ less p q.
Proof using Ht.
  intros Ha Hl. destruct (less_in _ _ Hl) as [_ [b' Hb']]. destruct (ancestor_back _ _ _ Ha) as (b & Hb & _ & Eb).
  destruct (back_work _ _ _ _ _ Hb Eb Hb') as [-> | Hlt]; [by eapply less_irrefl |].
  unfold less in Hl. rewrite (less_key _ _ _ _ Hb Hb') in Hl. injection Hl as Hl. apply bool_decide_eq_true in Hl. lia.
Qed.

End Order.

(** ** Marking entries *)

(** All but the status. *)
Definition forget (b : CBlockIndex) : CBlockIndex := set_status b 0.

Definition failed (b : CBlockIndex) : Prop := Z.land (nStatus b) BLOCK_FAILED_MASK <> 0.
Definition has_data (b : CBlockIndex) : Prop := Z.land (nStatus b) BLOCK_HAVE_DATA <> 0.
Definition level (b : CBlockIndex) : Z := Z.land (nStatus b) BLOCK_VALID_MASK.

(** [H'] differs from [H] in blocks marked as failed. *)
Definition marked (H H' : heap) : Prop :=
  forget <$> H = forget <$> H' /\
  forall p b b', H !! p = Some b -> H' !! p = Some b' -> (has_data b <-> has_data b') /\ (failed b -> failed b') /\ level b' = level b.

Lemma forget_inj b b' : forget b = forget b' -> phashBlock b = phashBlock b' /\ pprev b = pprev b' /\ pskip b = pskip b' /\ nHeight b = nHeight b' /\
  nChainWork b = nChainWork b' /\ nBits b = nBits b' /\ nSequenceId b = nSequenceId b'.
Proof. unfold forget, set_status. destruct b, b'; cbn. intros [=]; subst. done. Qed.

Section Same.
Context (H H' : heap) (E : forget <$> H = forget <$> H').

Lemma same_lookup p b : H !! p = Some b -> exists b', H' !! p = Some b' /\ forget b = forget b'.
Proof using E.
  intros Hb. assert (Hf : (forget <$> H) !! p = Some (forget b)) by (by rewrite lookup_fmap, Hb).
  rewrite E, lookup_fmap in Hf. destruct (H' !! p) as [b'|]; [|done]. exists b'. split; [done |]. cbn in Hf. congruence.
Qed.

Lemma same_back n : forall p q, back H n p = Some q -> back H' n p = Some q.
Proof using E.
  induction n as [|n IH]; intros p q; cbn; [done |]. destruct (H !! p) as [b|] eqn:Hb; cbn; [|done].
  destruct (same_lookup _ _ Hb) as (b' & Hb' & Ef). apply forget_inj in Ef as (_ & Ep & _). rewrite Hb'. cbn. rewrite <- Ep.
  destruct (pprev b) as [r|]; cbn; [apply IH | done].
Qed.

Lemma same_ancestor p h q : ancestor H p h = Some q -> ancestor H' p h = Some q.
Proof using E.
  unfold ancestor. destruct (H !! p) as [b|] eqn:Hb; cbn; [|done]. destruct (same_lookup _ _ Hb) as (b' & Hb' & Ef).
  apply forget_inj in Ef as (_ & _ & _ & Eh & _). rewrite Hb'. cbn. rewrite <- Eh. destruct (_ || _); [done | apply same_back].
Qed.

End Same.

Lemma same_ancestor_eq H H' p h : forget <$> H = forget <$> H' -> ancestor H p h = ancestor H' p h.
Proof.
  intros E. destruct (ancestor H p h) as [q|] eqn:E1; [by rewrite (same_ancestor _ _ E _ _ _ E1) |].
  destruct (ancestor H' p h) as [q|] eqn:E2; [|done]. by rewrite (same_ancestor _ _ (eq_sym E) _ _ _ E2) in E1.
Qed.

Lemma same_wf H H' : forget <$> H = forget <$> H' -> chain_wf H -> chain_wf H'.
Proof.
  intros E Hwf p b Hb. destruct (same_lookup _ _ (eq_sym E) _ _ Hb) as (b0 & Hb0 & Ef). apply forget_inj in Ef as (_ & Ep & Es & Eh & _).
  destruct (Hwf _ _ Hb0) as [H1 H2 H3]. split; rewrite ?Ep, ?Es, ?Eh; [done | |].
  - destruct (pprev b0) as [q|]; [|done]. destruct H2 as (c & Hc & E2). destruct (same_lookup _ _ E _ _ Hc) as (c' & Hc' & Ec).
    apply forget_inj in Ec as (_ & _ & _ & Ech & _). exists c'. split; [done | congruence].
  - intros x Hx. apply (same_back _ _ E). by apply H3.
Qed.

Lemma same_tree H H' : forget <$> H = forget <$> H' -> tree_ok H -> tree_ok H'.
Proof.
  intros E [Hwf Hl Hw Hg]. assert (E' := eq_sym E). split.
  - by eapply same_wf.
  - intros p b Hb. destruct (same_lookup _ _ E' _ _ Hb) as (b0 & Hb0 & Ef). apply forget_inj in Ef as (_ & _ & _ & _ & -> & _). by eapply Hl.
  - intros p b q b' Hb Ep Hb'. destruct (same_lookup _ _ E' _ _ Hb) as (b0 & Hb0 & Ef). destruct (same_lookup _ _ E' _ _ Hb') as (b1 & Hb1 & Ef').
    apply forget_inj in Ef as (_ & Ep0 & _ & _ & -> & _). apply forget_inj in Ef' as (_ & _ & _ & _ & -> & _). apply (Hw p b0 q b1); [exact Hb0 | congruence | exact Hb1].
  - intros p b q b' Hb Hb' E1 E2. destruct (same_lookup _ _ E' _ _ Hb) as (b0 & Hb0 & Ef). destruct (same_lookup _ _ E' _ _ Hb') as (b1 & Hb1 & Ef').
    apply forget_inj in Ef as (_ & _ & _ & Eh & _). apply forget_inj in Ef' as (_ & _ & _ & Eh' & _). apply (Hg p b0 q b1); [exact Hb0 | exact Hb1 | congruence..].
Qed.

Lemma same_less H H' p q : forget <$> H = forget <$> H' -> CBlockIndexWorkComparator H p q = CBlockIndexWorkComparator H' p q.
Proof.
  intros E. unfold CBlockIndexWorkComparator.
  assert (forall x, match H !! x with Some b => exists b', H' !! x = Some b' /\ forget b = forget b' | None => H' !! x = None end) as Hx.
  { intros x. destruct (H !! x) as [b|] eqn:Hb; [by apply (same_lookup _ _ E) |].
    destruct (H' !! x) as [b|] eqn:Hb'; [|done]. destruct (same_lookup _ _ (eq_sym E) _ _ Hb') as (? & ? & _). congruence. }
  pose proof (Hx p) as Hp. pose proof (Hx q) as Hq. destruct (H !! p) as [a|], (H !! q) as [b|].
  - destruct Hp as (a' & -> & Ea), Hq as (b' & -> & Eb). apply forget_inj in Ea as (_&_&_&_&Ea1&_&Ea2). apply forget_inj in Eb as (_&_&_&_&Eb1&_&Eb2).
    cbn. by rewrite Ea1, Eb1, Ea2, Eb2.
  - destruct Hp as (a' & -> & _). by rewrite Hq.
  - by rewrite Hp.
  - by rewrite Hp.
Qed.

Lemma same_path H H' p n : forget <$> H = forget <$> H' -> path H p n = path H' p n.
Proof. intros E. unfold path. apply list_fmap_ext. intros. by apply same_ancestor_eq. Qed.

Lemma same_chain H H' v t : forget <$> H = forget <$> H' -> chain_of H v (Some t) -> chain_of H' v (Some t).
Proof.
  intros E (b & Hb & ->). destruct (same_lookup _ _ E _ _ Hb) as (b' & Hb' & Ef). apply forget_inj in Ef as (_ & _ & _ & -> & _).
  exists b'. split; [done | by apply same_path].
Qed.

Lemma marked_refl H : marked H H.
Proof. split; [done |]. intros p b b' E1 E2. simplify_eq. done. Qed.

Lemma marked_trans H1 H2 H3 : marked H1 H2 -> marked H2 H3 -> marked H1 H3.
Proof.
  intros [E1 F1] [E2 F2]. split; [congruence |]. intros p b b' Hb Hb'. destruct (same_lookup _ _ E1 _ _ Hb) as (c & Hc & _).
  destruct (F1 _ _ _ Hb Hc) as (D1 & G1 & L1), (F2 _ _ _ Hc Hb') as (D2 & G2 & L2). split_and!; [by rewrite D1 | auto | congruence].
Qed.

(** ** The invariant *)

Definition entry_clean (H : heap) (q : positive) : Prop := exists b, H !! q = Some b /\ ~ failed b /\ has_data b.

(** Neither the block nor an ancestor failed or lacks its data. *)
Definition clean (H : heap) (p : positive) : Prop := is_Some (H !! p) /\ forall h q, ancestor H p h = Some q -> entry_clean H q.

Section Invariant.
Context {T : Type} {O : TipOps T} (valid : positive -> Prop) (tip_inv : heap -> T -> Prop).
Implicit Types m : manager T.

Abbreviation H_ m := (ix_heap (ix m)).

(** A block whose whole chain can be connected. *)
Definition accepted (H : heap) (p : positive) : Prop := clean H p /\ forall h q, ancestor H p h = Some q -> valid q.

(** The transactions of a block and of its ancestors have been received. *)
Definition chained m (p : positive) : Prop :=
  is_Some (H_ m !! p) /\
  forall h q b, ancestor (H_ m) p h = Some q -> H_ m !! q = Some b -> default 0 (nChainTx m !! q) <> 0 \/ nHeight b = 0.

Definition invalid_ok m : Prop := forall q, pindexBestInvalid m = Some q -> is_Some (H_ m !! q).

Record manager_ok m : Prop := {
  mo_tree : tree_ok (H_ m);
  mo_sorted : StronglySorted (less (H_ m)) (setBlockIndexCandidates m);
  mo_cands : Forall (chained m) (setBlockIndexCandidates m);
  mo_tip : exists t, chain_of (H_ m) (active m) (Some t) /\ accepted (H_ m) t /\ chained m t;
  mo_invalid : invalid_ok m;
  mo_inv : tip_inv (H_ m) (tip m);
}.

(** Every block that can be connected is at most one that is a candidate. *)
Definition covers m : Prop :=
  forall x, accepted (H_ m) x -> chained m x ->
    exists w, w ∈ setBlockIndexCandidates m /\ accepted (H_ m) w /\ (x = w \/ less (H_ m) x w).

(** What the search and the rejection of a block do: blocks that cannot be connected are marked
    or lose their candidacy. *)
Record drops m m' : Prop := {
  dr_tip : tip m' = tip m;
  dr_tx : nChainTx m' = nChainTx m;
  dr_heap : marked (H_ m) (H_ m');
  dr_accepted : forall p, accepted (H_ m) p -> accepted (H_ m') p;
  dr_sub : setBlockIndexCandidates m' `sublist_of` setBlockIndexCandidates m;
  dr_erased : forall p, p ∈ setBlockIndexCandidates m -> accepted (H_ m) p -> p ∈ setBlockIndexCandidates m';
  dr_invalid : invalid_ok m -> invalid_ok m';
}.

Lemma drops_refl m : drops m m.
Proof using. split; try done. apply marked_refl. Qed.

Lemma drops_trans m1 m2 m3 : drops m1 m2 -> drops m2 m3 -> drops m1 m3.
Proof using.
  intros [] []. split; try congruence; eauto.
  - by eapply marked_trans.
  - by etrans.
Qed.

Lemma marked_in H H' p : marked H H' -> is_Some (H !! p) -> is_Some (H' !! p).
Proof using. intros [E _] [b Hb]. destruct (same_lookup _ _ E _ _ Hb) as (b' & ? & _). by exists b'. Qed.

(** What is clean after marking was clean before. *)
Lemma marked_accepted H H' p : marked H H' -> accepted H' p -> accepted H p.
Proof using.
  intros [E F] [[[b' Hp] Hc] Hv]. assert (E' := eq_sym E). destruct (same_lookup _ _ E' _ _ Hp) as (b & Hb & _).
  split; [split; [by exists b |] |]; intros h q Hq; rewrite (same_ancestor_eq _ _ p h E) in Hq; [| by eapply Hv].
  destruct (Hc _ _ Hq) as (c' & Hc' & Hnf & Hd). destruct (same_lookup _ _ E' _ _ Hc') as (c & Hcc & _).
  destruct (F _ _ _ Hcc Hc') as (F1 & F2 & _). exists c. split_and!; [done | by intros ?; apply Hnf, F2 | by apply F1].
Qed.

Lemma drops_accepted m m' p : drops m m' -> accepted (H_ m') p <-> accepted (H_ m) p.
Proof using. intros D. split; [apply marked_accepted, D | apply D]. Qed.

Lemma same_chained m m' p : forget <$> H_ m = forget <$> H_ m' -> nChainTx m' = nChainTx m -> chained m p -> chained m' p.
Proof using.
  intros E Htx [[b Hb] Hc]. split; [destruct (same_lookup _ _ E _ _ Hb) as (b' & ? & _); by exists b' |].
  intros h q b' Hq Hb'. rewrite Htx. rewrite <- (same_ancestor_eq _ _ p h E) in Hq. destruct (same_lookup _ _ (eq_sym E) _ _ Hb') as (c & Hc' & Ef).
  apply forget_inj in Ef as (_ & _ & _ & -> & _). by eapply Hc.
Qed.

Lemma drops_chained m m' p : drops m m' -> chained m p <-> chained m' p.
Proof using. intros [_ Htx [E _] _ _ _ _]. split; by apply same_chained. Qed.

Lemma sublist_sorted (R : positive -> positive -> Prop) l l' : l' `sublist_of` l -> StronglySorted R l -> StronglySorted R l'.
Proof using.
  induction 1 as [|x l1 l2 Hs IH|x l1 l2 Hs IH]; intros HS; [done | |]; inversion HS; subst; [|by apply IH].
  constructor; [by apply IH |]. rewrite list.Forall_forall in *. intros y Hy. by eauto using sublist_subseteq, elem_of_sublist.
Qed.

Lemma sublist_shorter (l l' : list positive) p : l' `sublist_of` l -> p ∈ l -> p ∉ l' -> (length l' < length l)%nat.
Proof using.
  induction 1 as [|x l1 l2 Hs IH|x l1 l2 Hs IH]; intros Hp Hn; [done | |]; cbn.
  - apply elem_of_cons in Hp as [-> | Hp]; [by destruct Hn; left |]. apply Nat.succ_lt_mono in IH; [done.. |]. intros ?. apply Hn. by right.
  - apply sublist_length in Hs. lia.
Qed.

Lemma sorted_mono (R R' : positive -> positive -> Prop) l : (forall x y, R x y -> R' x y) -> StronglySorted R l -> StronglySorted R' l.
Proof using. intros HR. induction 1; constructor; [done |]. eapply Forall_impl; [|done]. auto. Qed.

(** What the state of the tip relies on does not depend on the marks. *)
Context (Hmarks : forall H H' t, marked H H' -> tip_inv H t -> tip_inv H' t).

Lemma drops_ok m m' : drops m m' -> manager_ok m -> manager_ok m'.
Proof using Hmarks.
  intros D [H1 H2 H3 (t & Ht & Ha & Hc) H4 H5]. assert (D' := D). destruct D' as [Dt _ [E F] Da Ds _ Di]. split.
  - by eapply same_tree.
  - eapply sublist_sorted; [exact Ds |]. eapply sorted_mono; [|exact H2]. intros x y. unfold less. by rewrite (same_less _ _ x y E).
  - rewrite list.Forall_forall in *. intros x Hx. apply (drops_chained _ _ x D), H3. by eapply elem_of_sublist.
  - exists t. unfold active. rewrite Dt. split_and!; [by eapply same_chain | by apply Da | by apply (drops_chained _ _ t D)].
  - by apply Di.
  - rewrite Dt. by eapply Hmarks.
Qed.

Lemma drops_covers m m' : drops m m' -> covers m -> covers m'.
Proof using.
  intros D Hc x Hx Hch. apply (drops_accepted _ _ _ D) in Hx. apply (drops_chained _ _ _ D) in Hch.
  destruct (Hc x Hx Hch) as (w & Hw & Haw & Hlw). exists w. split; [by apply D | split; [by apply D |]].
  destruct Hlw as [|Hlw]; [by left | right]. unfold less. by rewrite <- (same_less _ _ x w (proj1 (dr_heap _ _ D))).
Qed.

(** ** Marking and erasing *)

Lemma accepted_ancestor H p h q : chain_wf H -> accepted H p -> ancestor H p h = Some q -> accepted H q.
Proof using.
  intros Hwf [[[b Hp] Hc] Hv] Hq. destruct (ancestor_back H p h q Hq) as (b1 & Hb1 & Hh & _).
  destruct (ancestor_in H Hwf p b1 h Hb1 Hh) as (q' & bq & E & Hbq & Eh & _). rewrite Hq in E. injection E as <-.
  assert (Htr : forall h' x, ancestor H q h' = Some x -> ancestor H p h' = Some x).
  { intros h' x Hx. destruct (ancestor_back H q h' x Hx) as (b2 & Hb2 & Hh' & _). rewrite <- Hx. symmetry. eapply ancestor_trans; [done | exact Hb1 | done |].
    assert (b2 = bq) as -> by congruence. lia. }
  split; [split; [by exists bq |] |]; intros h' x Hx; [eapply Hc | eapply Hv]; by apply Htr.
Qed.

Lemma status_lor s bits : bits = BLOCK_FAILED_VALID \/ bits = BLOCK_FAILED_CHILD ->
  Z.land (Z.lor s bits) BLOCK_HAVE_DATA = Z.land s BLOCK_HAVE_DATA /\
  (Z.land s BLOCK_FAILED_MASK <> 0 -> Z.land (Z.lor s bits) BLOCK_FAILED_MASK <> 0) /\
  Z.land (Z.lor s bits) BLOCK_VALID_MASK = Z.land s BLOCK_VALID_MASK /\ Z.land (Z.lor s bits) BLOCK_FAILED_MASK <> 0.
Proof using.
  intros Hb. rewrite !Z.land_lor_distr_l. split_and!.
  - destruct Hb as [-> | ->]; unfold BLOCK_FAILED_VALID, BLOCK_FAILED_CHILD, BLOCK_HAVE_DATA; cbn [Z.land Pos.land]; apply Z.lor_0_r.
  - intros Hs E. by apply Z.lor_eq_0_iff in E as [? _].
  - destruct Hb as [-> | ->]; unfold BLOCK_FAILED_VALID, BLOCK_FAILED_CHILD, BLOCK_VALID_MASK; cbn [Z.land Pos.land]; apply Z.lor_0_r.
  - intros E. apply Z.lor_eq_0_iff in E as [_ E]. by destruct Hb as [-> | ->].
Qed.

(** Marking one entry. *)
Lemma mark_spec m p bits : is_Some (H_ m !! p) -> bits = BLOCK_FAILED_VALID \/ bits = BLOCK_FAILED_CHILD ->
  exists H', mark m p bits = Some (set_ix m (set_heap (ix m) H')) /\ marked (H_ m) H' /\
    (exists b', H' !! p = Some b' /\ failed b') /\ forall q, q <> p -> H' !! q = H_ m !! q.
Proof using.
  intros [b Hb] Hbits. unfold mark. rewrite Hb. cbn. eexists. split; [done |].
  destruct (status_lor (nStatus b) bits Hbits) as (S1 & S2 & S4 & S3). set (b' := set_status b _).
  split; [split | split; [exists b'; by rewrite lookup_insert_eq | intros q Hq; by rewrite lookup_insert_ne]].
  - rewrite fmap_insert. symmetry. apply insert_id. by rewrite lookup_fmap, Hb.
  - intros q c c' Hc Hc'. destruct (decide (q = p)) as [-> |].
    + rewrite lookup_insert_eq in Hc'. injection Hc' as <-. assert (c = b) as -> by congruence. unfold has_data, failed, level. cbn. by rewrite S1, S4.
    + rewrite lookup_insert_ne in Hc' by done. by simplify_eq.
Qed.

Lemma mark_drops m p bits :
  chain_wf (H_ m) -> is_Some (H_ m !! p) -> ~ accepted (H_ m) p -> bits = BLOCK_FAILED_VALID \/ bits = BLOCK_FAILED_CHILD ->
  exists m', mark m p bits = Some m' /\ drops m m' /\ setBlockIndexCandidates m' = setBlockIndexCandidates m /\
    exists b', H_ m' !! p = Some b' /\ failed b' /\ forall q, q <> p -> H_ m' !! q = H_ m !! q.
Proof using.
  intros Hwf Hp Hna Hbits. destruct (mark_spec m p bits Hp Hbits) as (H' & E & Hm & (b' & Hb' & Hf) & Hother).
  eexists. split; [exact E |]. pose proof (proj1 Hm) as Ef.
  split; [| split; [done | by exists b'; split_and!]]. split; cbn; try done.
  - intros q Hq. assert (Hnp : forall h x, ancestor (H_ m) q h = Some x -> x <> p).
    { intros h x Hx ->. apply Hna. by eapply accepted_ancestor. }
    destruct Hq as [[[c Hc] Hcl] Hv]. split; [split |].
    + destruct (same_lookup _ _ Ef _ _ Hc) as (c' & ? & _). by exists c'.
    + intros h x Hx. rewrite <- (same_ancestor_eq _ _ q h Ef) in Hx. destruct (Hcl _ _ Hx) as (d & Hd & Hd2). exists d.
      split; [|done]. rewrite Hother; [done |]. by eapply Hnp.
    + intros h x Hx. rewrite <- (same_ancestor_eq _ _ q h Ef) in Hx. by eapply Hv.
  - intros Hi q Hq. cbn in Hq. destruct (Hi q Hq) as [c Hc]. destruct (same_lookup _ _ Ef _ _ Hc) as (c' & ? & _). by exists c'.
Qed.

Lemma erase_drops m p : ~ accepted (H_ m) p -> drops m (set_candidates m (erase p (setBlockIndexCandidates m))).
Proof using.
  intros Hna. split; try done; cbn.
  - apply marked_refl.
  - unfold erase. apply sublist_filter.
  - intros q Hq Ha. apply list_elem_of_filter. split; [|done]. intros ->. done.
Qed.

Lemma erased p l : p ∉ erase p l.
Proof using. unfold erase. intros Hp. apply list_elem_of_filter in Hp as [? _]. done. Qed.

Lemma erase_sub p q l : q ∈ erase p l -> q ∈ l.
Proof using. unfold erase. intros Hp. by apply list_elem_of_filter in Hp as [_ ?]. Qed.

(** A chain with a block that is not clean. *)
Lemma not_accepted H p b n x : chain_wf H -> H !! p = Some b -> back H n p = Some x -> ~ entry_clean H x -> ~ accepted H p.
Proof using.
  intros Hwf Hb Hx Hn [[_ Hc] _]. destruct (back_height H Hwf n p b x Hb Hx) as [Hle _].
  apply Hn, (Hc (nHeight b - Z.of_nat n)). unfold ancestor. rewrite Hb. cbn.
  rewrite (proj2 (Z.ltb_ge _ _)), (proj2 (Z.ltb_ge _ _)) by lia. cbn. by replace (Z.to_nat _) with n by lia.
Qed.

Lemma marked_unclean H H' x : marked H H' -> is_Some (H !! x) -> ~ entry_clean H x -> ~ entry_clean H' x.
Proof using.
  intros [E F] [b Hb] Hn (b' & Hb' & Hf & Hd). destruct (F _ _ _ Hb Hb') as [F1 F2]. apply Hn. exists b. split_and!; [done | by intros ?; apply Hf, F2 | by apply F1].
Qed.

Lemma remove_chain_ok f x : forall fuel m y b n,
  chain_wf (H_ m) -> H_ m !! y = Some b -> back (H_ m) n y = Some x -> (n <= fuel)%nat -> ~ entry_clean (H_ m) x ->
  exists m', remove_chain fuel m x f y = Some m' /\ drops m m' /\ (y = x \/ y ∉ setBlockIndexCandidates m').
Proof using.
  induction fuel as [|fuel IH]; intros m y b n Hwf Hb Hx Hn Hcl; cbn [remove_chain].
  - destruct n; [|lia]. injection Hx as <-. rewrite bool_decide_eq_true_2 by done. exists m. split_and!; [done | apply drops_refl | by left].
  - destruct (decide (x = y)) as [-> | Hxy].
    { rewrite bool_decide_eq_true_2 by done. exists m. split_and!; [done | apply drops_refl | by left]. }
    rewrite bool_decide_eq_false_2 by done. rewrite Hb. cbn [mbind option_bind].
    assert (Hna : ~ accepted (H_ m) y) by (by eapply not_accepted).
    destruct n as [|n]; [cbn in Hx; congruence |]. cbn in Hx. rewrite Hb in Hx. cbn in Hx.
    destruct (pprev b) as [q|] eqn:Eq; cbn in Hx; [|done].
    assert (exists m1, (if f then mark m y BLOCK_FAILED_CHILD else Some (add_unlinked m (Some q, y))) = Some m1 /\ drops m m1 /\
      setBlockIndexCandidates m1 = setBlockIndexCandidates m) as (m1 & -> & D1 & Ec).
    { destruct f.
      - destruct (mark_drops m y BLOCK_FAILED_CHILD Hwf ltac:(by exists b) Hna ltac:(by right)) as (m1 & E & D & Ec & _). by exists m1.
      - eexists. split_and!; [done | | done]. split; try done. apply marked_refl. }
    cbn [mbind option_bind]. set (m2 := set_candidates m1 _).
    assert (D2 : drops m1 m2) by (apply erase_drops; intros Ha; apply Hna; by apply (drops_accepted _ _ _ D1)).
    pose proof (drops_trans _ _ _ D1 D2) as D12. pose proof (dr_heap _ _ D12) as [E12 _].
    pose proof (eo_prev _ _ _ (Hwf _ _ Hb)) as Hq. rewrite Eq in Hq. destruct Hq as (bq & Hbq & _).
    destruct (same_lookup _ _ E12 _ _ Hbq) as (bq' & Hbq' & _).
    destruct (back_height _ Hwf n q bq x Hbq Hx) as (_ & bx & Hbx & _).
    destruct (IH m2 q bq' n) as (m3 & E3 & D3 & _).
    + by eapply same_wf.
    + done.
    + by apply (same_back _ _ E12).
    + lia.
    + eapply marked_unclean; [exact (dr_heap _ _ D12) | by exists bx | done].
    + exists m3. split_and!; [done | by eapply drops_trans | right]. intros Hy. apply (erased y (setBlockIndexCandidates m1)).
      eapply elem_of_sublist; [exact Hy | exact (dr_sub _ _ D3)].
Qed.

(** ** The search *)

Lemma chained_ancestor m p h q : chain_wf (H_ m) -> chained m p -> ancestor (H_ m) p h = Some q -> chained m q.
Proof using.
  intros Hwf [[b Hp] Hc] Hq. destruct (ancestor_back _ p h q Hq) as (b1 & Hb1 & Hh & _).
  destruct (ancestor_in _ Hwf p b1 h Hb1 Hh) as (q' & bq & E & Hbq & Eh & _). rewrite Hq in E. injection E as <-.
  split; [by exists bq |]. intros h' x bx Hx Hbx. eapply Hc; [|exact Hbx].
  destruct (ancestor_back _ q h' x Hx) as (b2 & Hb2 & Hh' & _). rewrite <- Hx. symmetry. eapply ancestor_trans; [done | exact Hb1 | done |].
  assert (b2 = bq) as -> by congruence. lia.
Qed.

Lemma clean_step H x b : chain_wf H -> H !! x = Some b -> entry_clean H x ->
  match pprev b with Some q => clean H q | None => True end -> clean H x.
Proof using.
  intros Hwf Hb Hx Hq. split; [by exists b |]. intros h y Hy. destruct (ancestor_back _ _ _ _ Hy) as (b1 & Hb1 & Hh & _). assert (b1 = b) as -> by congruence.
  destruct (decide (h = nHeight b)) as [-> |]; [rewrite (ancestor_self H Hwf x b Hb) in Hy; by injection Hy as <- |].
  pose proof (ancestor_pprev H Hwf x b Hb) as Ep. pose proof (eo_prev _ _ _ (Hwf _ _ Hb)) as Hprev. destruct (pprev b) as [q|]; [|lia].
  destruct Hq as [_ Hq]. apply (Hq h). rewrite <- Hy. symmetry in Ep. eapply ancestor_trans; [done | exact Hb | exact Ep | lia].
Qed.

Lemma active_clean m x b : manager_ok m -> H_ m !! x = Some b -> chain_at (active m) (nHeight b) = Some x -> accepted (H_ m) x.
Proof using.
  intros [Ht _ _ (t & Hc & Ha & _) _ _] Hb E. rewrite (chain_at_ok _ (to_wf _ Ht) _ (Some t) Hc) in E. eapply accepted_ancestor; [apply Ht | exact Ha | exact E].
Qed.

Lemma test_path_ok m fuel : manager_ok m -> forall x b,
  H_ m !! x = Some b -> nHeight b < Z.of_nat fuel -> chained m x ->
  exists r, test_path fuel m (Some x) = Some r /\
    match r with
    | None => clean (H_ m) x
    | Some (y, f) => (exists n, back (H_ m) n x = Some y /\ (n <= Z.to_nat (nHeight b))%nat) /\ ~ entry_clean (H_ m) y
    end.
Proof using.
  intros Hok. pose proof (to_wf _ (mo_tree _ Hok)) as Hwf. induction fuel as [|fuel IH]; intros x b Hb Hf Hc; [pose proof (eo_height _ _ _ (Hwf _ _ Hb)); lia |].
  cbn [test_path]. rewrite (Contains_ok _ _ x b Hb). cbn [mbind option_bind].
  case_bool_decide as Ec; [exists None; split; [done |]; by apply (active_clean m x b) |].
  rewrite Hb. cbn [mbind option_bind].
  assert ((default 0 (nChainTx m !! x) =? 0) && negb (nHeight b =? 0) = false) as ->.
  { destruct Hc as [_ Hc]. destruct (Hc (nHeight b) x b (ancestor_self _ Hwf x b Hb) Hb) as [Hn | ->]; [|by rewrite andb_false_r].
    by rewrite (proj2 (Z.eqb_neq _ _) Hn). }
  destruct (negb (Z.land (nStatus b) BLOCK_FAILED_MASK =? 0) || (Z.land (nStatus b) BLOCK_HAVE_DATA =? 0)) eqn:Es.
  - eexists. split; [done |]. split; [exists 0%nat; split; [done | lia] |]. intros (b' & Hb' & Hnf & Hd). assert (b' = b) as -> by congruence.
    apply orb_true_iff in Es as [Es | Es]; [apply Hnf; intros E0; by rewrite E0 in Es | by apply Z.eqb_eq in Es].
  - apply orb_false_iff in Es as [Es1 Es2]. apply negb_false_iff, Z.eqb_eq in Es1. apply Z.eqb_neq in Es2.
    assert (Hx : entry_clean (H_ m) x) by (exists b; split_and!; [done | by intros ? | done]).
    pose proof (eo_prev _ _ _ (Hwf _ _ Hb)) as Hprev. pose proof (ancestor_pprev _ Hwf x b Hb) as Ep.
    destruct (pprev b) as [q|] eqn:Eq.
    + destruct Hprev as (bq & Hbq & Eh). destruct (IH q bq Hbq ltac:(lia) (chained_ancestor _ _ _ _ Hwf Hc (eq_sym Ep))) as (r & -> & Hr).
      exists r. split; [done |]. destruct r as [[y f]|].
      * destruct Hr as [(n & Hn & Hle) Hy]. split; [|done]. exists (S n). split; [cbn; rewrite Hb; cbn; by rewrite Eq |].
        pose proof (eo_height _ _ _ (Hwf _ _ Hbq)). lia.
      * eapply clean_step; [done | exact Hb | done |]. by rewrite Eq.
    + exists None. split; [by destruct fuel |]. eapply clean_step; [done | exact Hb | done |]. by rewrite Eq.
Qed.

Lemma last_sorted (R : positive -> positive -> Prop) l p q : StronglySorted R l -> list.last l = Some p -> q ∈ l -> q = p \/ R q p.
Proof using.
  intros HS Hl. induction HS as [|x l HS IH HF]; intros Hq; [by apply not_elem_of_nil in Hq |].
  destruct l as [|y l].
  - cbn in Hl. injection Hl as ->. apply elem_of_cons in Hq as [-> | Hq]; [by left | by apply not_elem_of_nil in Hq].
  - change (list.last (y :: l) = Some p) in Hl. apply elem_of_cons in Hq as [-> | Hq]; [|by apply IH].
    right. rewrite list.Forall_forall in HF. apply HF. by apply last_Some_elem_of.
Qed.

Lemma beats_invalid_ok m p : invalid_ok m -> is_Some (H_ m !! p) -> exists w, beats_invalid m p = Some w.
Proof using.
  intros Hi [b Hb]. unfold beats_invalid. destruct (pindexBestInvalid m) as [q|] eqn:Eq; [|by exists true].
  destruct (Hi q Eq) as [c Hc]. rewrite Hb, Hc. by eexists.
Qed.

Lemma set_invalid_drops m p : is_Some (H_ m !! p) -> drops m (set_invalid m (Some p)).
Proof using. intros Hp. split; try done; [apply marked_refl |]. intros _ q [= <-]. done. Qed.

(** One candidate is tried. *)
Lemma find_loop_ok fuel : forall m, manager_ok m -> (length (setBlockIndexCandidates m) <= fuel)%nat ->
  exists r m', find_loop fuel m = Some (r, m') /\ drops m m' /\
    match r with
    | Some p => list.last (setBlockIndexCandidates m') = Some p /\ clean (H_ m') p
    | None => setBlockIndexCandidates m' = []
    end.
Proof using Hmarks.
  induction fuel as [|fuel IH]; intros m Hok Hf.
  { destruct (setBlockIndexCandidates m) as [|] eqn:Ec; [|cbn in Hf; lia]. exists None, m. cbn. rewrite Ec. split_and!; done || apply drops_refl. }
  cbn [find_loop]. destruct (list.last (setBlockIndexCandidates m)) as [p|] eqn:El.
  2: { exists None, m. split_and!; [done | apply drops_refl | by apply last_None]. }
  pose proof (to_wf _ (mo_tree _ Hok)) as Hwf. assert (Hin : p ∈ setBlockIndexCandidates m) by (by apply last_Some_elem_of).
  assert (Hch : chained m p) by (pose proof (mo_cands _ Hok) as HF; rewrite list.Forall_forall in HF; by apply HF).
  destruct (proj1 Hch) as [b Hb]. rewrite Hb. cbn [mbind option_bind].
  destruct (test_path_ok m (S (Z.to_nat (nHeight b))) Hok p b Hb) as (r & -> & Hr); [pose proof (eo_height _ _ _ (Hwf _ _ Hb)); lia | done |].
  cbn [mbind option_bind]. destruct r as [[y f]|]; [| exists (Some p), m; split_and!; [done | apply drops_refl | done..]].
  destruct Hr as [(n & Hn & Hle) Hy]. destruct (beats_invalid_ok m p (mo_invalid _ Hok) ltac:(by exists b)) as [w ->]. cbn [mbind option_bind].
  set (m1 := if f && w then _ else m).
  assert (D1 : drops m m1) by (unfold m1; destruct (f && w); [apply set_invalid_drops; by exists b | apply drops_refl]).
  assert (E1 : H_ m1 = H_ m /\ setBlockIndexCandidates m1 = setBlockIndexCandidates m) by (unfold m1; by destruct (f && w)). destruct E1 as [E1 E1'].
  destruct (remove_chain_ok f y (Z.to_nat (nHeight b)) m1 p b n) as (m2 & -> & D2 & Hgone); rewrite ?E1; try done.
  cbn [mbind option_bind]. set (m3 := set_candidates m2 _).
  assert (Hna : ~ accepted (H_ m) p) by (by eapply not_accepted).
  pose proof (drops_trans _ _ _ D1 D2) as D12. destruct (back_height _ Hwf n p b y Hb Hn) as (_ & by_ & Hby & _).
  assert (Hny : ~ accepted (H_ m2) y).
  { intros Ha. apply (drops_accepted _ _ _ D12) in Ha. eapply (not_accepted (H_ m) y by_ 0); [done | done | done | exact Hy | done]. }
  pose proof (drops_trans _ _ _ D12 (erase_drops m2 y Hny)) as D3. fold m3 in D3.
  assert (Hlen : (length (setBlockIndexCandidates m3) <= fuel)%nat).
  { assert (p ∉ setBlockIndexCandidates m3) as Hp.
    { intros Hp. destruct Hgone as [-> | Hgone]; [by apply (erased y (setBlockIndexCandidates m2)) | by apply Hgone, (erase_sub y)]. }
    pose proof (sublist_shorter _ _ p (dr_sub _ _ D3) Hin Hp). lia. }
  destruct (IH m3 (drops_ok _ _ D3 Hok) Hlen) as (r & m' & -> & D4 & Hr). exists r, m'. split_and!; [done | by eapply drops_trans | done].
Qed.

Lemma FindMostWorkChain_ok m : manager_ok m ->
  exists r m', FindMostWorkChain m = Some (r, m') /\ drops m m' /\
    match r with
    | Some p => list.last (setBlockIndexCandidates m') = Some p /\ clean (H_ m') p
    | None => setBlockIndexCandidates m' = []
    end.
Proof using Hmarks. intros Hok. by apply find_loop_ok. Qed.

End Invariant.
(** ** Steps of the activation *)

(** What the comment above [setBlockIndexCandidates] promises: the tip and every usable block that
    is not worse. *)
Definition candidates_complete {T} {O : TipOps T} (m : manager T) : Prop :=
  exists t, Tip (active m) = Some t /\ t ∈ setBlockIndexCandidates m /\
    forall x, clean (ix_heap (ix m)) x -> chained m x -> x ∈ setBlockIndexCandidates m \/ less (ix_heap (ix m)) x t.

(** What [ReceivedBlockTransactions] leaves: the index lists its entries, a block with data has
    its transactions checked, and [nChainTx] is set when all ancestors have theirs. *)
Record received {T} {O : TipOps T} (m : manager T) : Prop := {
  rc_listed : forall p, is_Some (ix_heap (ix m) !! p) <-> exists h, mapBlockIndex (ix m) !! h = Some p;
  rc_valid : forall p b, ix_heap (ix m) !! p = Some b -> has_data b -> BLOCK_VALID_TRANSACTIONS <= level b;
  rc_chained : forall p, is_Some (ix_heap (ix m) !! p) -> default 0 (nChainTx m !! p) <> 0 -> chained m p;
  rc_genesis : forall p b, ix_heap (ix m) !! p = Some b -> nHeight b = 0 -> default 0 (nChainTx m !! p) <> 0;
}.

Lemma listed {T} {O : TipOps T} (m : manager T) : received m ->
  forall x, x ∈ map snd (map_to_list (mapBlockIndex (ix m))) <-> is_Some (ix_heap (ix m) !! x).
Proof.
  intros Hrc x. rewrite (rc_listed _ Hrc), list_elem_of_fmap. split.
  - intros ([h y] & -> & Hy). exists h. by apply elem_of_map_to_list in Hy.
  - intros [h Hy]. exists (h, x). split; [done |]. by apply elem_of_map_to_list.
Qed.

(** What [CheckBlockIndex] asserts of every block with its transactions that has not itself been
    marked. *)
Definition all_candidates {T} {O : TipOps T} (m : manager T) : Prop :=
  exists t, Tip (active m) = Some t /\ t ∈ setBlockIndexCandidates m /\
    forall x b, ix_heap (ix m) !! x = Some b -> IsValid BLOCK_VALID_TRANSACTIONS b = true -> default 0 (nChainTx m !! x) <> 0 ->
      x ∈ setBlockIndexCandidates m \/ less (ix_heap (ix m)) x t.

Lemma all_candidates_complete {T} {O : TipOps T} (m : manager T) :
  chain_wf (ix_heap (ix m)) -> received m -> all_candidates m -> candidates_complete m.
Proof.
  intros Hwf Hrc (t & Et & Hin & Hall). exists t. split_and!; [done | done |]. intros x [[b Hb] Hcl] [_ Hcx].
  pose proof (ancestor_self _ Hwf x b Hb) as Ea. destruct (Hcl _ _ Ea) as (b' & Hb' & Hnf & Hd). assert (b' = b) as -> by congruence.
  apply (Hall x b Hb).
  - unfold IsValid. destruct (Z.eqb_spec (Z.land (nStatus b) BLOCK_FAILED_MASK) 0) as [E0 | E0]; [cbn [negb] | by destruct Hnf].
    by apply Z.leb_le, (rc_valid _ Hrc x b).
  - destruct (Hcx _ _ _ Ea Hb) as [? | H0]; [done |]. by eapply (rc_genesis _ Hrc x b).
Qed.

Lemma marked_received {T} {O : TipOps T} (m m' : manager T) :
  marked (ix_heap (ix m)) (ix_heap (ix m')) -> mapBlockIndex (ix m') = mapBlockIndex (ix m) -> nChainTx m' = nChainTx m -> received m -> received m'.
Proof.
  intros [E F] Em Et [H1 H2 H3 H4]. assert (E' := eq_sym E). split.
  - intros p. rewrite Em, <- H1. split; intros [b Hb]; [destruct (same_lookup _ _ E' _ _ Hb) as (c & ? & _) | destruct (same_lookup _ _ E _ _ Hb) as (c & ? & _)]; by exists c.
  - intros p b Hb Hd. destruct (same_lookup _ _ E' _ _ Hb) as (c & Hc & _). destruct (F _ _ _ Hc Hb) as (F1 & _ & ->). by apply (H2 p c Hc), F1.
  - intros p [b Hb] Htx. rewrite Et in Htx. destruct (same_lookup _ _ E' _ _ Hb) as (c & Hc & _). apply (same_chained m m' p E Et), H3; [by exists c | done].
  - intros p b Hb Hh. rewrite Et. destruct (same_lookup _ _ E' _ _ Hb) as (c & Hc & Ef). apply forget_inj in Ef as (_ & _ & _ & Eh & _).
    apply (H4 p c Hc). congruence.
Qed.

Section Activation.
Context {T : Type} {O : TipOps T} {M : TipMoves T} (valid : positive -> Prop) (tip_inv : heap -> T -> Prop).
Implicit Types m : manager T.

Abbreviation H_ m := (ix_heap (ix m)).
Abbreviation ok m := (manager_ok valid tip_inv m).
Abbreviation acc m p := (accepted valid (H_ m) p).

(** The verdict on a block does not change: the blocks that are connected are [valid], those that
    are rejected are not; and what was read from disk is not corrupted. *)
Record verdicts : Prop := {
  vd_connect i p b t t' : tip_inv (ix_heap i) t -> ix_heap i !! p = Some b -> pprev b = Tip (tip_chain t) ->
    tip_connect i p t = (Connected, t') -> valid p /\ tip_inv (ix_heap i) t';
  vd_reject i p b t c t' : tip_inv (ix_heap i) t -> ix_heap i !! p = Some b -> pprev b = Tip (tip_chain t) ->
    tip_connect i p t = (Rejected c, t') -> ~ valid p /\ c = false /\ tip_inv (ix_heap i) t';
  vd_disconnect i t t' : tip_inv (ix_heap i) t -> tip_disconnect i t = (Connected, t') -> tip_inv (ix_heap i) t';
  vd_marked H H' t : marked H H' -> tip_inv H t -> tip_inv H' t;
}.
Context (Hv : verdicts).

(** A call that ended so, on a block that could be the next one or on the tip. *)
Definition trouble (r : tip_result) : Prop :=
  (exists i p b t t', tip_inv (ix_heap i) t /\ ix_heap i !! p = Some b /\ pprev b = Tip (tip_chain t) /\ tip_connect i p t = (r, t')) \/
  (exists i t t', tip_inv (ix_heap i) t /\ tip_disconnect i t = (r, t')).

Lemma tip_of_chain H v t : chain_wf H -> chain_of H v (Some t) -> Tip v = Some t.
Proof using.
  intros Hwf (b & Hb & ->). pose proof (eo_height _ _ _ (Hwf _ _ Hb)).
  assert (HL : length (path H t (Z.to_nat (nHeight b))) = S (Z.to_nat (nHeight b))) by (unfold path; by rewrite length_fmap, length_seq).
  unfold Tip. rewrite HL. cbn [Nat.ltb Nat.leb]. replace (S _ - 1)%nat with (Z.to_nat (nHeight b)) by lia.
  rewrite path_lookup by lia. cbn. rewrite Z2Nat.id by lia. by apply ancestor_self.
Qed.

Lemma set_tip_chain H v t q v' b : chain_wf H -> chain_of H v (Some t) -> H !! q = Some b -> SetTip H v (Some q) = Some v' -> chain_of H v' (Some q).
Proof using. intros Hwf Hc Hb E. rewrite (SetTip_ok H Hwf v (Some t) q b Hc Hb) in E. injection E as <-. by exists b. Qed.

Lemma tip_ok m t' q : ok m -> chain_of (H_ m) (tip_chain t') (Some q) -> acc m q -> chained m q -> tip_inv (H_ m) t' -> ok (set_tip m t').
Proof using. intros [H1 H2 H3 _ H4 _] Hc Ha Hq Hi. split; try done. by exists q. Qed.

Lemma disconnect_loop_ok fuel f : forall m t b hf,
  ok m -> chain_of (H_ m) (active m) (Some t) -> H_ m !! t = Some b -> ancestor (H_ m) t hf = Some f -> nHeight b - hf <= Z.of_nat fuel ->
  exists r m', disconnect_loop fuel m (Some f) = Some (r, m') /\
    match r with
    | Connected => exists t', m' = set_tip m t' /\ chain_of (H_ m) (tip_chain t') (Some f) /\ ok m'
    | Rejected _ => False
    | _ => trouble r
    end.
Proof using All.
  induction fuel as [|fuel IH]; intros m t b hf Hok Hc Hb Hf Hfu; pose proof (to_wf _ (mo_tree _ _ _ Hok)) as Hwf;
    pose proof (tip_of_chain _ _ _ Hwf Hc) as Et; destruct (ancestor_back _ _ _ _ Hf) as (b1 & Hb1 & Hh & Ebk);
    assert (b1 = b) as -> by congruence; cbn [disconnect_loop]; rewrite Et.
  - assert (hf = nHeight b) as -> by lia. rewrite (ancestor_self _ Hwf t b Hb) in Hf. injection Hf as ->.
    rewrite bool_decide_eq_true_2 by auto. exists Connected, m. split; [done |]. exists (tip m). split_and!; [by destruct m | done | done].
  - case_bool_decide as Ed.
    { destruct Ed as [|[= ->]]; [done |]. exists Connected, m. split; [done |]. exists (tip m). split_and!; [by destruct m | done | done]. }
    destruct (tip_disconnect (ix m) (tip m)) as [r t'] eqn:E. destruct r as [|c| |]; [| by destruct (disconnect_accepted _ _ _ _ E) | |];
      try (eexists _, _; split; [done |]; right; exists (ix m), (tip m), t'; split; [apply mo_inv in Hok; exact Hok | exact E]).
    destruct (disconnect_moves _ _ _ E) as (q & bq & Eq & Hbq & Es). unfold active in Et. rewrite Et in Eq. injection Eq as <-. assert (bq = b) as -> by congruence.
    assert (hf <> nHeight b) as Hne. { intros ->. rewrite (ancestor_self _ Hwf t b Hb) in Hf. injection Hf as ->. apply Ed. auto. }
    pose proof (ancestor_pprev _ Hwf t b Hb) as Ep. destruct (ancestor_in _ Hwf t b (nHeight b - 1) Hb ltac:(lia)) as (q & bq & Eq & Hq & Ehq & _).
    rewrite Eq in Ep. rewrite Ep in Es. pose proof (set_tip_chain _ _ _ _ _ _ Hwf Hc Hq Es) as Hc'.
    assert (Hok' : ok (set_tip m t')).
    { destruct (mo_tip _ _ _ Hok) as (t0 & Hc0 & Ha0 & Hch0). assert (t0 = t) as -> by (pose proof (tip_of_chain _ _ _ Hwf Hc0) as E0; unfold active in E0; congruence).
      apply (tip_ok m t' q); [done | done | by eapply accepted_ancestor | by eapply chained_ancestor | by eapply (vd_disconnect Hv), E; apply mo_inv in Hok]. }
    destruct (IH (set_tip m t') q bq hf Hok' Hc' Hq) as (r & m' & E' & Hr).
    + cbn. rewrite <- Hf. eapply ancestor_trans; [done | exact Hb | done | lia].
    + lia.
    + exists r, m'. split; [done |]. by destruct r.
Qed.

(** ** Connecting *)

Lemma accepted_step H q b t : chain_wf H -> H !! q = Some b -> pprev b = Some t -> accepted valid H t -> entry_clean H q -> valid q -> accepted valid H q.
Proof using.
  intros Hwf Hb Ep [Hc Hva] Hq Hvq. split; [eapply clean_step; [done | exact Hb | done | by rewrite Ep] |].
  intros h x Hx. destruct (ancestor_back _ _ _ _ Hx) as (b1 & Hb1 & Hh & _). assert (b1 = b) as -> by congruence.
  destruct (decide (h = nHeight b)) as [-> |]; [rewrite (ancestor_self H Hwf q b Hb) in Hx; by injection Hx as <- |].
  apply (Hva h). rewrite <- Hx. pose proof (ancestor_pprev H Hwf q b Hb) as Ea. rewrite Ep in Ea. symmetry in Ea.
  eapply ancestor_trans; [done | exact Hb | exact Ea | lia].
Qed.

Lemma dirty_drops m d : drops valid m (set_ix m (set_dirty (ix m) d)).
Proof using. split; try done. apply marked_refl. Qed.

Lemma InvalidChainFound_ok m p : ok m -> is_Some (H_ m !! p) ->
  exists m', InvalidChainFound m p = Some m' /\ drops valid m m' /\ H_ m' = H_ m /\ setBlockIndexCandidates m' = setBlockIndexCandidates m.
Proof using.
  intros Hok Hp. destruct (beats_invalid_ok m p (mo_invalid _ _ _ Hok) Hp) as [w Ew]. unfold InvalidChainFound. rewrite Ew. cbn [mbind option_bind].
  destruct (mo_tip _ _ _ Hok) as (t & Hc & _). pose proof (tip_of_chain _ _ _ (to_wf _ (mo_tree _ _ _ Hok)) Hc) as Et. unfold active in *.
  destruct w; cbn [set_invalid tip]; rewrite Et; eexists; (split; [done | split; [|by split]]); [by apply set_invalid_drops | apply drops_refl].
Qed.

(** A new failure. *)
Definition fails m m' : Prop :=
  marked (H_ m) (H_ m') /\ exists q b b', H_ m !! q = Some b /\ ~ failed b /\ H_ m' !! q = Some b' /\ failed b'.

Lemma InvalidBlockFound_ok m q b : ok m -> H_ m !! q = Some b -> ~ failed b -> ~ valid q ->
  exists m', InvalidBlockFound m q false = Some m' /\ drops valid m m' /\ fails m m'.
Proof using Hv.
  intros Hok Hb Hnf Hnv. pose proof (to_wf _ (mo_tree _ _ _ Hok)) as Hwf.
  assert (Hna : ~ acc m q) by (intros [_ Ha]; apply Hnv, (Ha (nHeight b)); by apply ancestor_self).
  destruct (mark_drops valid m q BLOCK_FAILED_VALID Hwf ltac:(by exists b) Hna ltac:(by left)) as (m1 & E1 & D1 & _ & b' & Hb' & Hf' & _).
  unfold InvalidBlockFound. rewrite E1. cbn [mbind option_bind]. set (m2 := set_ix m1 _).
  assert (D2 : drops valid m m2) by (eapply drops_trans; [exact D1 | apply dirty_drops]).
  assert (Hna2 : ~ acc m2 q) by (intros Ha; apply Hna; by apply (drops_accepted _ _ _ _ D2)).
  pose proof (drops_trans _ _ _ _ D2 (erase_drops valid m2 q Hna2)) as D3. set (m3 := set_candidates m2 _) in *.
  destruct (InvalidChainFound_ok m3 q (drops_ok _ _ (vd_marked Hv) _ _ D3 Hok)) as (m' & -> & D4 & E4 & _); [by exists b' |].
  exists m'. pose proof (drops_trans _ _ _ _ D3 D4) as D. split_and!; [done | done |]. split; [apply D |]. exists q, b, b'. rewrite E4. done.
Qed.

(** The next block of a chain. *)
Lemma connect_or_reject_ok m t q b : ok m -> chain_of (H_ m) (active m) (Some t) -> H_ m !! q = Some b -> pprev b = Some t -> entry_clean (H_ m) q -> chained m q ->
  exists r m', connect_or_reject m q = Some (r, m') /\
    match r with
    | Connected => exists t', m' = set_tip m t' /\ chain_of (H_ m) (active m') (Some q) /\ ok m' /\ acc m' q
    | Rejected c => c = false /\ exists t', drops valid (set_tip m t') m' /\ fails m m' /\ ok (set_tip m t')
    | _ => trouble r
    end.
Proof using All.
  intros Hok Hc Hb Ep Hcl Hch. pose proof (to_wf _ (mo_tree _ _ _ Hok)) as Hwf.
  destruct (mo_tip _ _ _ Hok) as (t0 & Hc0 & Ha0 & Hch0). assert (t0 = t) as -> by (pose proof (tip_of_chain _ _ _ Hwf Hc0); pose proof (tip_of_chain _ _ _ Hwf Hc); congruence).
  assert (Htip : pprev b = Tip (tip_chain (tip m))) by (rewrite Ep; symmetry; by eapply tip_of_chain).
  unfold connect_or_reject. destruct (tip_connect (ix m) q (tip m)) as [r t'] eqn:E.
  assert (Htr : trouble r) by (left; exists (ix m), q, b, (tip m), t'; split_and!; [apply mo_inv in Hok; exact Hok | done..]).
  destruct r as [|c| |]; [| | by eexists _, _ | by eexists _, _].
  - destruct (connect_moves _ _ _ _ E) as [_ Es]. destruct (vd_connect Hv _ _ _ _ _ (mo_inv _ _ _ Hok) Hb Htip E) as [Hvq Hi].
    pose proof (set_tip_chain _ _ _ _ _ _ Hwf Hc Hb Es) as Hc'. assert (acc m q) by (by eapply accepted_step).
    eexists _, _. split; [done |]. exists t'. split_and!; [done | done | by apply (tip_ok m t' q) | done].
  - destruct (vd_reject Hv _ _ _ _ _ _ (mo_inv _ _ _ Hok) Hb Htip E) as (Hnv & -> & Hi). pose proof (connect_stays _ _ _ _ _ E ltac:(done)) as Es.
    assert (Hok' : ok (set_tip m t')) by (apply (tip_ok m t' t); [done | by rewrite Es | done..]).
    destruct Hcl as (b' & Hb' & Hnf & _). assert (b' = b) as -> by congruence.
    destruct (InvalidBlockFound_ok (set_tip m t') q b Hok' Hb Hnf Hnv) as (m' & -> & D & F). cbn [mbind option_bind].
    eexists _, _. split; [done |]. split; [done |]. by exists t'.
Qed.

(** ** Pruning the candidates *)

Lemma prune_ok H q l : tree_ok H -> is_Some (H !! q) -> Forall (fun x => is_Some (H !! x)) l ->
  exists l', prune H (Some q) l = Some l' /\ l' `suffix_of` l /\ forall x, x ∈ l -> x ∈ l' \/ less H x q.
Proof using.
  intros Ht Hq. induction 1 as [|x l Hx HF IH]; cbn [prune]; [exists []; split_and!; [done | done | by left] |].
  destruct (less_decides H Ht x q Hx Hq) as [c Ec]. cbn [mbind option_bind]. rewrite Ec. cbn [mbind option_bind]. destruct c.
  - destruct IH as (l' & -> & Hs & Hl). exists l'. split_and!; [done | by apply suffix_cons_r |].
    intros y Hy. apply elem_of_cons in Hy as [-> | Hy]; [by right | by apply Hl].
  - exists (x :: l). split_and!; [done | done | by left].
Qed.

Lemma suffix_last (l l' : list positive) : l' `suffix_of` l -> l' <> [] -> list.last l' = list.last l.
Proof using. intros [k ->] Hn. rewrite list.last_app. destruct l'; [done |]. by destruct (list.last (p :: l')) eqn:E; [| apply last_None in E]. Qed.

(** The search is on the way to [p], the best candidate, and has connected the chain up to height [h]. *)
Record climbing m (p : positive) (h : Z) : Prop := {
  cl_ok : ok m;
  cl_covers : covers valid m;
  cl_last : list.last (setBlockIndexCandidates m) = Some p;
  cl_clean : clean (H_ m) p;
  cl_tip : exists t, ancestor (H_ m) p h = Some t /\ chain_of (H_ m) (active m) (Some t);
}.

Lemma cl_chained m p h : climbing m p h -> chained m p.
Proof using. intros []. pose proof (mo_cands _ _ _ cl_ok0) as HF. rewrite list.Forall_forall in HF. apply HF. by apply last_Some_elem_of. Qed.

(** The tip of a state on the way is accepted and has its transactions. *)
Lemma tip_accepted m t : ok m -> chain_of (H_ m) (active m) (Some t) -> acc m t /\ chained m t.
Proof using.
  intros Hok Hc. pose proof (to_wf _ (mo_tree _ _ _ Hok)) as Hwf. destruct (mo_tip _ _ _ Hok) as (t0 & Hc0 & Ha & Hch).
  assert (t0 = t) as -> by (pose proof (tip_of_chain _ _ _ Hwf Hc0); pose proof (tip_of_chain _ _ _ Hwf Hc); congruence). done.
Qed.

(** The same index, as far as the choice goes. *)
Definition same_index m m' : Prop := ix m' = ix m /\ nChainTx m' = nChainTx m.

Lemma Prune_ok m p h : climbing m p h -> exists m', PruneBlockIndexCandidates m = Some m' /\ climbing m' p h /\ same_index m m' /\ tip m' = tip m.
Proof using.
  intros Hcl. assert (Hc := Hcl). destruct Hc as [Hok Hcov Hlast Hclean (q & Hq & Hch)]. pose proof (mo_tree _ _ _ Hok) as Ht. pose proof (to_wf _ Ht) as Hwf.
  destruct (tip_accepted m q Hok Hch) as [Haq Hcq]. pose proof (proj1 Hcq) as Hinq.
  unfold PruneBlockIndexCandidates. rewrite (tip_of_chain _ _ _ Hwf Hch).
  destruct (prune_ok _ q (setBlockIndexCandidates m) Ht Hinq) as (l' & E & Hs & Hl).
  { eapply Forall_impl; [|exact (mo_cands _ _ _ Hok)]. intros x Hx. apply Hx. }
  rewrite E. cbn [mbind option_bind].
  assert (Hp : p ∈ l'). { destruct (Hl p) as [|Hlt]; [by apply last_Some_elem_of | done |]. exfalso. by eapply not_less_ancestor. }
  assert (l' <> []) by (intros ->; by apply not_elem_of_nil in Hp). rewrite bool_decide_eq_false_2 by done.
  eexists. split; [done |]. split; [| by split; [|]].
  split; cbn; [| | by rewrite (suffix_last _ _ Hs) | done | by exists q].
  - destruct Hok as [H1 H2 H3 H4 H5 H6]. split; try done; cbn.
    + eapply sublist_sorted; [|exact H2]. destruct Hs as [k ->]. by apply sublist_inserts_l.
    + rewrite list.Forall_forall in *. intros x Hx. apply H3. destruct Hs as [k ->]. apply elem_of_app. by right.
  - intros x Hx Hcx. destruct (Hcov q Haq Hcq) as (w2 & Hw2 & Ha2 & Hl2).
    assert (Hin2 : w2 ∈ l'). { destruct (Hl w2 Hw2) as [|Hlt]; [done |]. exfalso. destruct Hl2 as [<- | Hl2]; [by apply (less_irrefl _ Ht q) |].
      apply (less_irrefl _ Ht q). by eapply less_trans. }
    destruct (Hcov x Hx Hcx) as (w & Hw & Haw & Hlw). destruct (Hl w Hw) as [|Hlt]; [by exists w |].
    exists w2. split_and!; [done | done | right]. assert (Hxq : less (H_ m) x q) by (destruct Hlw as [-> |]; [done | by eapply less_trans]).
    destruct Hl2 as [<- |]; [done | by eapply less_trans].
Qed.

(** ** Batches *)

(** The blocks of the chain of [p] above height [h], in ascending order. *)
Fixpoint climbs (H : heap) (p : positive) (h : Z) (l : list positive) : Prop :=
  match l with
  | [] => True
  | x :: l => ancestor H p (h + 1) = Some x /\ climbs H p (h + 1) l
  end.

Lemma climbs_snoc H p h l x : climbs H p h l -> ancestor H p (h + Z.of_nat (length l) + 1) = Some x -> climbs H p h (l ++ [x]).
Proof using.
  revert h. induction l as [|y l IH]; intros h; cbn; [rewrite Z.add_0_r; auto |].
  intros [H1 H2] H3. split; [done |]. apply IH; [done |]. rewrite <- H3. f_equal. lia.
Qed.

Lemma to_connect_ok H p b fuel h : chain_wf H -> H !! p = Some b -> 0 <= h -> forall k,
  h <= k <= nHeight b -> k - h <= Z.of_nat fuel ->
  exists l, to_connect fuel H (ancestor H p k) h = Some l /\ Z.of_nat (length l) = k - h /\ climbs H p h (rev l).
Proof using.
  intros Hwf Hb Hh. induction fuel as [|fuel IH]; intros k Hk Hf; destruct (ancestor_in H Hwf p b k Hb ltac:(lia)) as (x & bx & Ex & Hx & Ehx & _);
    rewrite Ex; cbn [to_connect]; rewrite Hx; cbn [mbind option_bind]; rewrite Ehx.
  - assert (k = h) as -> by lia. rewrite Z.eqb_refl. exists []. split_and!; done || (cbn; lia).
  - destruct (Z.eqb_spec k h) as [-> |]; [exists []; split_and!; done || (cbn; lia) |].
    rewrite (ancestor_pprev H Hwf x bx Hx), Ehx, (ancestor_trans H Hwf p b k (k - 1) x Hb Ex) by lia.
    destruct (IH (k - 1) ltac:(lia) ltac:(lia)) as (l & -> & Hl & Hc). cbn [mbind option_bind]. eexists. split; [done |].
    split; [cbn; lia |]. cbn [rev]. apply climbs_snoc; [done |]. rewrite length_rev, Hl. rewrite <- Ex. f_equal. lia.
Qed.

(** How a batch, a loop or a step ends, from height [h] on. *)
Definition ends m (p : positive) (h : Z) (done_ : Z -> Prop) (r : batch_end) m' : Prop :=
  match r with
  | Continue => False
  | Stop false => same_index m m' /\ exists h', done_ h' /\ climbing m' p h'
  | Stop true => ok m' /\ covers valid m' /\ nChainTx m' = nChainTx m /\ fails m m' /\ (forall x, acc m x -> acc m' x)
  | ReturnFalse => trouble SystemError
  | NoReturn => trouble Crashed
  end.

(** One block: the next of the chain of [p]. *)
Lemma climb_one m p h q : climbing m p h -> ancestor (H_ m) p (h + 1) = Some q -> 0 <= h ->
  exists r m', connect_or_reject m q = Some (r, m') /\
    match r with
    | Connected => climbing m' p (h + 1) /\ same_index m m'
    | Rejected c => c = false /\ ends m p h (fun _ => True) (Stop true) m' /\ ok m'
    | _ => trouble r
    end.
Proof using All.
  intros Hcl Hq Hh. assert (Hc := Hcl). destruct Hc as [Hok Hcov Hlast Hclean (t & Et & Hch)]. pose proof (mo_tree _ _ _ Hok) as Ht. pose proof (to_wf _ Ht) as Hwf.
  pose proof (cl_chained _ _ _ Hcl) as Hcp.
  destruct (ancestor_back _ _ _ _ Hq) as (b & Hb & Hhb & _). destruct (ancestor_in _ Hwf p b (h + 1) Hb Hhb) as (q' & bq & E & Hbq & Ehq & _). rewrite Hq in E. injection E as <-.
  assert (Ep : pprev bq = Some t).
  { rewrite (ancestor_pprev _ Hwf q bq Hbq), Ehq. replace (h + 1 - 1) with h by lia. rewrite <- Et. eapply ancestor_trans; [done | exact Hb | exact Hq | lia]. }
  destruct (connect_or_reject_ok m t q bq Hok Hch Hbq Ep) as (r & m' & -> & Hr); [by eapply Hclean | by eapply chained_ancestor |].
  exists r, m'. split; [done |]. destruct r as [|c| |]; try done.
  - destruct Hr as (t' & -> & Hch' & Hok' & _). split; [| by split]. split; try done. by exists q.
  - destruct Hr as (-> & t' & D & F & Hok'). split; [done |]. assert (Hok2 := drops_ok _ _ (vd_marked Hv) _ _ D Hok'). split; [| done].
    split_and!; [done | eapply drops_covers; [exact D | done] | by rewrite (dr_tx _ _ _ D) | done | by intros x Hx; apply (dr_accepted _ _ _ D)].
Qed.

Lemma better_ok m o q : ok m -> is_Some (H_ m !! o) -> chain_of (H_ m) (active m) (Some q) ->
  exists b : bool, (q0 ← Tip (active m); a ← H_ m !! q0; b ← H_ m !! o; Some (op_gt 8 (nChainWork a) (nChainWork b))) = Some b.
Proof using.
  intros Hok [b Hb] Hch. rewrite (tip_of_chain _ _ _ (to_wf _ (mo_tree _ _ _ Hok)) Hch). cbn. destruct Hch as (a & -> & _). rewrite Hb. by eexists.
Qed.

Lemma connect_batch_ok o lowest p : forall l m h,
  climbing m p h -> 0 <= h -> climbs (H_ m) p h l -> is_Some (H_ m !! o) -> is_Some (H_ m !! lowest) ->
  exists r m', connect_batch l m (Some o) lowest = Some (r, m') /\
    match r with
    | Continue => same_index m m' /\ climbing m' p (h + Z.of_nat (length l))
    | _ => ends m p h (fun h' => h < h') r m'
    end.
Proof using All.
  induction l as [|q l IH]; intros m h Hcl Hh Hl Ho Hlow; cbn [connect_batch].
  { exists Continue, m. split; [done |]. split; [by split | by replace (h + Z.of_nat (length [])) with h by (cbn; lia)]. }
  destruct Hl as [Hq Hl]. destruct (climb_one m p h q Hcl Hq Hh) as (r & m1 & -> & Hr). cbn [mbind option_bind].
  destruct r as [|c| |]; [| | by eexists _, _ | by eexists _, _].
  - destruct Hr as [Hcl1 [Ei1 Etx1]]. destruct (Prune_ok m1 p (h + 1) Hcl1) as (m2 & -> & Hcl2 & [Ei2 Etx2] & _). cbn [mbind option_bind].
    assert (Hsame : same_index m m2) by (split; congruence).
    destruct (cl_tip _ _ _ Hcl2) as (t2 & Ht2 & Hch2). assert (Ho2 : is_Some (H_ m2 !! o)) by (by rewrite Ei2, Ei1).
    destruct (better_ok m2 o t2 (cl_ok _ _ _ Hcl2) Ho2 Hch2) as [better ->]. cbn [mbind option_bind]. destruct better.
    + exists (Stop false), m2. split; [done |]. split; [done |]. exists (h + 1). split; [lia | done].
    + destruct (IH m2 (h + 1) Hcl2 ltac:(lia)) as (r & m' & -> & Hr); [by rewrite Ei2, Ei1 | done | by rewrite Ei2, Ei1 |].
      exists r, m'. split; [done |]. destruct Hsame as [Es1 Es2]. destruct r as [|[]| |]; try done.
      * destruct Hr as [[E1 E2] Hc]. split; [split; congruence |]. replace (h + Z.of_nat (length (q :: l))) with (h + 1 + Z.of_nat (length l)) by (cbn; lia). done.
      * destruct Hr as (H1 & H2 & H3 & [F1 F2] & H5). unfold ends, fails. rewrite Es1 in F1, F2, H5. split_and!; try done. congruence.
      * destruct Hr as [[E1 E2] (h' & Hh' & Hc)]. split; [split; congruence |]. exists h'. split; [lia | done].
  - destruct Hr as (-> & Hends & Hok1). destruct Hends as (H1 & H2 & H3 & [F1 F2] & H5).
    destruct (InvalidChainFound_ok m1 lowest Hok1) as (m2 & -> & D & Eh & _); [by eapply marked_in; [exact F1 | exact Hlow] |]. cbn [mbind option_bind].
    exists (Stop true), m2. split; [done |]. split_and!.
    + by eapply (drops_ok _ _ (vd_marked Hv)).
    + by eapply drops_covers.
    + by rewrite (dr_tx _ _ _ D).
    + unfold fails. rewrite Eh. done.
    + intros x Hx. by apply (dr_accepted _ _ _ D), H5.
Qed.

Lemma connect_loop_ok o p b fuel : forall m h,
  climbing m p h -> H_ m !! p = Some b -> 0 <= h <= nHeight b -> nHeight b - h <= Z.of_nat fuel -> is_Some (H_ m !! o) ->
  exists r m', connect_loop fuel m (Some o) p h = Some (r, m') /\ ends m p h (fun h' => h < h' \/ h' = nHeight b) r m'.
Proof using All.
  induction fuel as [|fuel IH]; intros m h Hcl Hb Hh Hf Ho; cbn [connect_loop]; rewrite Hb; cbn [mbind option_bind].
  { assert (h = nHeight b) as -> by lia. rewrite Z.eqb_refl. exists (Stop false), m. split; [done |]. split; [by split |]. exists (nHeight b). auto. }
  destruct (Z.eqb_spec h (nHeight b)) as [-> | Hne].
  { exists (Stop false), m. split; [done |]. split; [by split |]. exists (nHeight b). auto. }
  pose proof (to_wf _ (mo_tree _ _ _ (cl_ok _ _ _ Hcl))) as Hwf. set (k := Z.min (h + 32) (nHeight b)).
  rewrite (GetAncestor_ok _ Hwf p b k Hb). cbn [mbind option_bind].
  destruct (to_connect_ok _ p b 32 h Hwf Hb ltac:(lia) k ltac:(lia) ltac:(lia)) as (l & El & Hlen & Hl). rewrite El. cbn [mbind option_bind].
  destruct (list.last l) as [lowest|] eqn:Elow; [| apply last_None in Elow as ->; cbn in Hlen; lia]. cbn [mbind option_bind].
  assert (Hlow : is_Some (H_ m !! lowest)).
  { destruct (rev l) as [|x l'] eqn:Er; [apply last_Some_elem_of in Elow; rewrite <- (rev_involutive l), Er in Elow; by apply not_elem_of_nil in Elow |].
    assert (lowest = x) as -> by (rewrite <- (rev_involutive l), Er in Elow; cbn in Elow; rewrite list.last_snoc in Elow; by injection Elow).
    destruct Hl as [Hx _]. destruct (ancestor_back _ _ _ _ Hx) as (b1 & Hb1 & Hhx & _). destruct (ancestor_in _ Hwf p b1 (h + 1) Hb1 Hhx) as (x' & bx & E & Hbx & _).
    rewrite Hx in E. injection E as <-. by exists bx. }
  destruct (connect_batch_ok o lowest p (rev l) m h Hcl ltac:(lia) Hl Ho Hlow) as (r & m1 & -> & Hr). cbn [mbind option_bind]. rewrite length_rev, Hlen in Hr.
  destruct r as [|[]| |]; try (by eexists _, _).
  - destruct Hr as [[Ei Etx] Hcl1]. replace (h + (k - h)) with k in Hcl1 by lia.
    destruct (IH m1 k Hcl1) as (r & m' & -> & Hr); [by rewrite Ei | lia | lia | by rewrite Ei |]. exists r, m'. split; [done |].
    destruct r as [|[]| |]; try done.
    + destruct Hr as (H1 & H2 & H3 & [F1 F2] & H5). unfold ends, fails. rewrite Ei in F1, F2, H5. split_and!; try done. congruence.
    + destruct Hr as [[E1 E2] (h' & Hh' & Hc)]. split; [split; congruence |]. exists h'. split; [lia | done].
  - eexists _, _. split; [done |]. destruct Hr as [Hs (h' & Hh' & Hc)]. split; [done |]. exists h'. auto.
Qed.

(** The fork of the tip and a candidate exists, and is the tip when the candidate builds on it. *)
Lemma fork_ok m t p b : ok m -> chain_of (H_ m) (active m) (Some t) -> H_ m !! p = Some b ->
  exists f h, FindFork (H_ m) (active m) (Some p) = Some (Some f) /\ ancestor (H_ m) p h = Some f /\ ancestor (H_ m) t h = Some f /\
    forall ht, ancestor (H_ m) p ht = Some t -> ht <= h.
Proof using.
  intros Hok Hc Hb. pose proof (mo_tree _ _ _ Hok) as Ht. pose proof (to_wf _ Ht) as Hwf.
  destruct (FindFork_ok _ Hwf (active m) p b Hb) as (r & E & Hr).
  assert (Hat : forall h, chain_at (active m) h = ancestor (H_ m) t h) by (intros h; exact (chain_at_ok _ Hwf _ (Some t) Hc h)).
  destruct Hc as (bt & Hbt & _). destruct r as [f|].
  - destruct Hr as (h & Hp & Hat' & Hmax). exists f, h. split_and!; [done | done | by rewrite <- Hat |]. intros ht Hpt. destruct (decide (ht <= h)); [done |].
    exfalso. apply (Hmax ht ltac:(lia)). exists t. split; [done |]. rewrite Hat.
    destruct (ancestor_back _ _ _ _ Hpt) as (b1 & Hb1 & Hh & _). destruct (ancestor_in _ Hwf p b1 ht Hb1 Hh) as (t' & bt' & E' & Hbt' & Eh & _).
    rewrite Hpt in E'. injection E' as <-. assert (bt' = bt) as -> by congruence. rewrite <- Eh. by apply ancestor_self.
  - exfalso. apply (Hr 0). pose proof (eo_height _ _ _ (Hwf _ _ Hb)). pose proof (eo_height _ _ _ (Hwf _ _ Hbt)).
    destruct (ancestor_in _ Hwf p b 0 Hb ltac:(lia)) as (g & bg & Eg & Hbg & E0 & _). destruct (ancestor_in _ Hwf t bt 0 Hbt ltac:(lia)) as (g' & bg' & Eg' & Hbg' & E0' & _).
    exists g. split; [done |]. rewrite Hat, Eg'. f_equal. by apply (to_genesis _ Ht g' bg' g bg).
Qed.

Lemma step_ok m p : ok m -> covers valid m -> list.last (setBlockIndexCandidates m) = Some p -> clean (H_ m) p ->
  exists r m', ActivateBestChainStep m p = Some (r, m') /\
    forall t b, Tip (active m) = Some t -> H_ m !! p = Some b ->
      ends m p 0 (fun h' => 0 <= h' <= nHeight b /\ (h' = nHeight b \/ forall ht, ancestor (H_ m) p ht = Some t -> ht < h')) r m'.
Proof using All.
  intros Hok Hcov Hlast Hclean. pose proof (mo_tree _ _ _ Hok) as Ht. pose proof (to_wf _ Ht) as Hwf. destruct (proj1 Hclean) as [b Hb].
  destruct (mo_tip _ _ _ Hok) as (t & Hch & Hat & Hct). pose proof (tip_of_chain _ _ _ Hwf Hch) as Et.
  destruct (fork_ok m t p b Hok Hch Hb) as (f & h & Ef & Hpf & Htf & Hmax).
  unfold ActivateBestChainStep. rewrite Et, Ef. cbn [mbind option_bind]. destruct (proj1 Hct) as [bt Hbt].
  pose proof (ancestor_back _ _ _ _ Hpf) as (b1 & Hb1 & Hhp & _). assert (b1 = b) as -> by congruence.
  destruct (disconnect_loop_ok (length (active m)) f m t bt h Hok Hch Hbt Htf) as (r & m1 & -> & Hr).
  { assert (length (active m) = S (Z.to_nat (nHeight bt))) as ->; [| pose proof (eo_height _ _ _ (Hwf _ _ Hbt)); lia].
    destruct Hch as (bt' & Hbt' & ->). assert (bt' = bt) as -> by congruence. unfold path. by rewrite length_fmap, length_seq. }
  cbn [mbind option_bind]. destruct r as [|c| |]; [| done | by eexists _, _ | by eexists _, _]. destruct Hr as (t' & -> & Hch1 & Hok1). cbn [ix set_tip].
  destruct (ancestor_in _ Hwf p b h Hb Hhp) as (f' & bf & E & Hbf & Ehf & _). rewrite Hpf in E. injection E as <-. rewrite Hbf. cbn [mbind option_bind]. rewrite Hb, Ehf. cbn [mbind option_bind].
  assert (Hcl : climbing (set_tip m t') p h) by (split; try done; by exists f).
  destruct (connect_loop_ok t p b (Z.to_nat (nHeight b + 1)) (set_tip m t') h Hcl Hb Hhp ltac:(lia) ltac:(by exists bt)) as (r & m' & E & Hends).
  exists r, m'. split; [exact E |]. intros t0 b0 E0 Hb0. assert (t0 = t) as -> by congruence. assert (b0 = b) as -> by congruence.
  destruct r as [|[]| |]; try done. destruct Hends as [Hs (h' & Hh' & Hc)]. split; [done |]. exists h'. split; [| done].
  assert (h' <= nHeight b). { destruct (cl_tip _ _ _ Hc) as (x & Hx & _). destruct Hs as [Ei _]. rewrite Ei in Hx. destruct (ancestor_back _ _ _ _ Hx) as (b2 & Hb2 & ? & _). cbn in Hb2. assert (b2 = b) as -> by congruence. lia. }
  split; [lia |]. destruct Hh' as [Hlt | ->]; [right | by left]. intros ht Hpt. specialize (Hmax ht Hpt). lia.
Qed.

(** ** The whole activation *)

#[export] Instance failed_dec b : Decision (failed b).
Proof using. unfold failed. apply _. Defined.

Definition unfailed (H : heap) : nat := size (dom (filter (fun kb => ~ failed kb.2) H) : gset positive).

Lemma fails_less m m' : fails m m' -> (unfailed (H_ m') < unfailed (H_ m))%nat.
Proof using.
  intros [[E F] (q & b & b' & Hb & Hnf & Hb' & Hf)]. unfold unfailed. apply (subset_size (C := gset positive)). split.
  - intros x Hx. apply elem_of_dom in Hx as [c' Hc']. apply map_lookup_filter_Some in Hc' as [Hc' Hn]. cbn in Hn.
    destruct (same_lookup _ _ (eq_sym E) _ _ Hc') as (c & Hc & _). apply elem_of_dom. exists c. apply map_lookup_filter_Some. split; [done |].
    cbn. intros Hfc. by apply Hn, (F x c c').
  - intros Hsub. assert (Hq : q ∈ (dom (filter (fun kb => ~ failed kb.2) (H_ m')) : gset positive)).
    { apply Hsub, elem_of_dom. exists b. by apply map_lookup_filter_Some. }
    apply elem_of_dom in Hq as [c Hc]. apply map_lookup_filter_Some in Hc as [Hc Hn]. assert (c = b') as -> by congruence. by apply Hn.
Qed.

(** What is known before each turn of the loop. *)
Definition target m (most : option positive) (left_ : Z) (B : Z) : Prop :=
  match most with
  | None => left_ = B + 2
  | Some p => list.last (setBlockIndexCandidates m) = Some p /\ clean (H_ m) p /\
      exists h t, ancestor (H_ m) p h = Some t /\ Tip (active m) = Some t /\ left_ = B + 1 - h
  end.

(** The tip is the best candidate, and nothing but failures changed in the index. *)
Definition settled m m' : Prop :=
  ok m' /\ covers valid m' /\ nChainTx m' = nChainTx m /\ marked (H_ m) (H_ m') /\ (forall x, acc m x -> acc m' x) /\
  exists p, Tip (active m') = Some p /\ list.last (setBlockIndexCandidates m') = Some p.

Lemma settled_trans m m1 m' : nChainTx m1 = nChainTx m -> marked (H_ m) (H_ m1) -> (forall x, acc m x -> acc m1 x) -> settled m1 m' -> settled m m'.
Proof using.
  intros Htx Hm Ha (H1 & H2 & H3 & H4 & H5 & H6). split_and!; [done | done | congruence | by eapply marked_trans | auto | done].
Qed.

Lemma activate_loop_ok B fuel : forall m most left_,
  ok m -> covers valid m -> (forall p b, H_ m !! p = Some b -> nHeight b <= B) ->
  target m most left_ B -> Z.of_nat (unfailed (H_ m)) * (B + 3) + left_ < Z.of_nat fuel ->
  exists r m', activate_loop fuel m most = Some (r, m') /\ (r = ReturnFalse /\ trouble SystemError \/ r = NoReturn /\ trouble Crashed \/ r = Stop false /\ settled m m').
Proof using All.
  induction fuel as [|fuel IH]; intros m most left_ Hok Hcov HB Htg Hf.
  { exfalso. pose proof (mo_tip _ _ _ Hok) as (t & _ & _ & [[bt Hbt] _]). pose proof (HB _ _ Hbt). pose proof (eo_height _ _ _ (to_wf _ (mo_tree _ _ _ Hok) _ _ Hbt)).
    assert (0 <= left_); [|nia]. destruct most as [p|]; [|cbn in Htg; lia]. destruct Htg as (_ & _ & h & x & Hx & _ & ->).
    destruct (ancestor_back _ _ _ _ Hx) as (b & Hb & Hh & _). pose proof (HB _ _ Hb). lia. }
  cbn [activate_loop].
  (* the candidate *)
  assert (exists p m1, match most with None => FindMostWorkChain m | Some _ => Some (most, m) end = Some (Some p, m1) /\
    ok m1 /\ covers valid m1 /\ drops valid m m1 /\ list.last (setBlockIndexCandidates m1) = Some p /\ clean (H_ m1) p /\
    (most = None /\ left_ = B + 2 \/ exists h t, ancestor (H_ m1) p h = Some t /\ Tip (active m1) = Some t /\ left_ = B + 1 - h)) as (p & m1 & -> & Hok1 & Hcov1 & D & Hlast & Hclean & Hleft).
  { destruct most as [p|].
    - destruct Htg as (H1 & H2 & H3). exists p, m. split_and!; try done; [apply drops_refl | by right].
    - destruct (FindMostWorkChain_ok valid tip_inv (vd_marked Hv) m Hok) as (r & m1 & E & D & Hr). pose proof (drops_ok _ _ (vd_marked Hv) _ _ D Hok) as Hok1. pose proof (drops_covers _ _ _ D Hcov) as Hcov1.
      destruct r as [p|]; [destruct Hr; exists p, m1; split_and!; try done; left; done |].
      exfalso. destruct (mo_tip _ _ _ Hok1) as (t & _ & Ha & Hc). destruct (Hcov1 t Ha Hc) as (w & Hw & _). rewrite Hr in Hw. by apply not_elem_of_nil in Hw. }
  cbn [mbind option_bind].
  assert (Hmono : forall x, acc m x -> acc m1 x) by apply D. pose proof (dr_heap _ _ _ D) as Hm. pose proof (dr_tx _ _ _ D) as Htx.
  assert (Hun : (unfailed (H_ m1) <= unfailed (H_ m))%nat).
  { unfold unfailed. apply (subseteq_size (C := gset positive)). intros x Hx. apply elem_of_dom in Hx as [c' Hc']. apply map_lookup_filter_Some in Hc' as [Hc' Hn]. cbn in Hn.
    destruct Hm as [E F]. destruct (same_lookup _ _ (eq_sym E) _ _ Hc') as (c & Hc & _). apply elem_of_dom. exists c. apply map_lookup_filter_Some. split; [done |].
    cbn. intros Hfc. by apply Hn, (F x c c'). }
  assert (HB1 : forall q b, H_ m1 !! q = Some b -> nHeight b <= B).
  { intros q b Hb. destruct Hm as [E _]. destruct (same_lookup _ _ (eq_sym E) _ _ Hb) as (c & Hc & Ef). apply forget_inj in Ef as (_ & _ & _ & -> & _). by eapply HB. }
  case_bool_decide as Etip.
  { exists (Stop false), m1. split; [done |]. right; right. split; [done |]. split_and!; try done. by exists p. }
  destruct (step_ok m1 p Hok1 Hcov1 Hlast Hclean) as (r & m2 & -> & Hends). cbn [mbind option_bind].
  destruct (mo_tip _ _ _ Hok1) as (t & Hcht & _). pose proof (tip_of_chain _ _ _ (to_wf _ (mo_tree _ _ _ Hok1)) Hcht) as Et. destruct (proj1 Hclean) as [b Hb].
  specialize (Hends t b Et Hb). destruct r as [|inv| |]; [done | | eexists _, _; split; [done |]; auto | eexists _, _; split; [done |]; auto].
  destruct inv; cbn [ends] in Hends.
  - destruct Hends as (Hok2 & Hcov2 & Htx2 & HF & Hmono2). destruct (mo_tip _ _ _ Hok2) as (t2 & Hch2 & _).
    pose proof (tip_of_chain _ _ _ (to_wf _ (mo_tree _ _ _ Hok2)) Hch2) as Et2. rewrite Et2, bool_decide_eq_false_2 by done.
    pose proof (fails_less _ _ HF) as Hlt. pose proof (proj1 HF) as Hm2. destruct HF as [[E2 _] _].
    destruct (IH m2 None (B + 2)) as (r & m' & -> & Hr); [done | done | | done | |].
    + intros q c Hc. destruct (same_lookup _ _ (eq_sym E2) _ _ Hc) as (c1 & Hc1 & Ef). apply forget_inj in Ef as (_ & _ & _ & -> & _). by eapply HB1.
    + pose proof (HB1 _ _ Hb). pose proof (eo_height _ _ _ (to_wf _ (mo_tree _ _ _ Hok1) _ _ Hb)).
      assert (-1 <= left_ - 1); [|nia]. destruct Hleft as [[_ ->] | (h & x & Hx & _ & ->)]; [lia |].
      destruct (ancestor_back _ _ _ _ Hx) as (b1 & Hb1 & Hh & _). pose proof (HB1 _ _ Hb1). lia.
    + exists r, m'. split; [done |]. destruct Hr as [|[|[-> Hs]]]; [auto.. |]. right; right. split; [done |].
      eapply settled_trans; [| | |exact Hs]; [congruence | by eapply marked_trans | auto].
  - destruct Hends as [[Ei Etx] (h' & [Hh' Hprog] & Hcl)]. assert (Hcl2 := Hcl). destruct Hcl2 as [Hok2 Hcov2 Hlast2 Hclean2 (t2 & Ht2 & Hch2)].
    pose proof (tip_of_chain _ _ _ (to_wf _ (mo_tree _ _ _ Hok2)) Hch2) as Et2. rewrite Et2.
    case_bool_decide as Ep.
    + injection Ep as ->. exists (Stop false), m2. split; [done |]. right; right. split; [done |]. split_and!; [done | done | congruence | by rewrite Ei | by rewrite Ei | by exists p].
    + assert (Hne : h' <> nHeight b).
      { intros ->. rewrite Ei, (ancestor_self _ (to_wf _ (mo_tree _ _ _ Hok1)) p b Hb) in Ht2. congruence. }
      destruct Hprog as [|Hprog]; [done |].
      destruct (IH m2 (Some p) (B + 1 - h')) as (r & m' & -> & Hr); [done | done | by rewrite Ei | | |].
      * split_and!; [done | done |]. exists h', t2. done.
      * rewrite Ei. pose proof (HB1 _ _ Hb). assert (B + 1 - h' < left_); [|nia].
        destruct Hleft as [[_ ->] | (h & x & Hx & Ex & ->)]; [lia |]. assert (x = t) as -> by congruence. specialize (Hprog h Hx). lia.
      * exists r, m'. split; [done |]. destruct Hr as [|[|[-> Hs]]]; [auto.. |]. right; right. split; [done |].
        eapply settled_trans; [| | |exact Hs]; [congruence | by rewrite Ei | by rewrite Ei].
Qed.

(** ** Invalidating a block *)

Lemma insert_candidate_ok H p l : tree_ok H -> is_Some (H !! p) -> Forall (fun x => is_Some (H !! x)) l -> StronglySorted (less H) l ->
  exists l', insert_candidate H p l = Some l' /\ StronglySorted (less H) l' /\ forall x, x ∈ l' <-> x = p \/ x ∈ l.
Proof using.
  intros Ht Hp HF HS. induction HS as [|q l HS IH Hq]; cbn [insert_candidate].
  { exists [p]. split_and!; [done | by repeat constructor | intros x; by rewrite elem_of_cons]. }
  apply Forall_cons_iff in HF as [Hinq HF]. destruct (IH HF) as (l' & El & HS' & Hl'). rewrite list.Forall_forall in Hq.
  destruct (less_decides H Ht q p Hinq Hp) as [c1 E1], (less_decides H Ht p q Hp Hinq) as [c2 E2]. rewrite E1, E2. cbn [mbind option_bind].
  destruct c1; [| destruct c2].
  - rewrite El. cbn. eexists. split; [done |]. split.
    + constructor; [done |]. rewrite list.Forall_forall. intros x Hx. apply Hl' in Hx as [-> | Hx]; [done | by apply Hq].
    + intros x. rewrite !elem_of_cons, Hl'. tauto.
  - eexists. split; [done |]. split; [| intros x; by rewrite !elem_of_cons]. constructor.
    + constructor; [done | by rewrite list.Forall_forall].
    + apply Forall_cons_2; [done |]. rewrite list.Forall_forall. intros x Hx. eapply less_trans; [done | exact E2 | by apply Hq].
  - destruct (less_total H Ht p q Hp Hinq) as [Hl | [-> | Hl]]; [unfold less in Hl; congruence | | unfold less in Hl; congruence].
    eexists. split; [done |]. split; [by constructor; [|rewrite list.Forall_forall] |]. intros x. rewrite elem_of_cons. tauto.
Qed.

Lemma add_candidates_ok t l : forall m,
  tree_ok (H_ m) -> chain_of (H_ m) (active m) (Some t) -> Forall (fun x => is_Some (H_ m !! x)) (setBlockIndexCandidates m) ->
  StronglySorted (less (H_ m)) (setBlockIndexCandidates m) -> Forall (fun x => is_Some (H_ m !! x)) l ->
  exists l', add_candidates l m = Some (set_candidates m l') /\ StronglySorted (less (H_ m)) l' /\
    (forall x, x ∈ l' -> x ∈ setBlockIndexCandidates m \/ is_Some (H_ m !! x) /\ default 0 (nChainTx m !! x) <> 0) /\
    (forall x, x ∈ setBlockIndexCandidates m -> x ∈ l') /\
    (forall x b, x ∈ l -> H_ m !! x = Some b -> IsValid BLOCK_VALID_TRANSACTIONS b = true -> default 0 (nChainTx m !! x) <> 0 -> x ∈ l' \/ less (H_ m) x t).
Proof using.
  induction l as [|p l IH]; intros m Ht Hc HF HS Hl; cbn [add_candidates].
  { exists (setBlockIndexCandidates m). split_and!; [by destruct m | done | auto | done |]. intros x b Hx. by apply not_elem_of_nil in Hx. }
  apply Forall_cons_iff in Hl as [[b Hb] Hl]. rewrite Hb. cbn [mbind option_bind].
  assert (Hskip : exists l1, (if IsValid BLOCK_VALID_TRANSACTIONS b && negb (default 0 (nChainTx m !! p) =? 0) then
             t ← Tip (active m);
             worse ← CBlockIndexWorkComparator (H_ m) p t;
             if worse : bool then Some m
             else l ← insert_candidate (H_ m) p (setBlockIndexCandidates m); Some (set_candidates m l)
           else Some m) = Some (set_candidates m l1) /\ StronglySorted (less (H_ m)) l1 /\
     (forall x, x ∈ l1 -> x ∈ setBlockIndexCandidates m \/ is_Some (H_ m !! x) /\ default 0 (nChainTx m !! x) <> 0) /\
     (forall x, x ∈ setBlockIndexCandidates m -> x ∈ l1) /\
     (IsValid BLOCK_VALID_TRANSACTIONS b = true -> default 0 (nChainTx m !! p) <> 0 -> p ∈ l1 \/ less (H_ m) p t)).
  { destruct (IsValid BLOCK_VALID_TRANSACTIONS b) eqn:EV; cbn [andb]; [| by exists (setBlockIndexCandidates m); split_and!; auto; by destruct m].
    destruct (Z.eqb_spec (default 0 (nChainTx m !! p)) 0) as [E0 | E0]; cbn [negb]; [by exists (setBlockIndexCandidates m); split_and!; auto; by destruct m |].
    rewrite (tip_of_chain _ _ _ (to_wf _ Ht) Hc). cbn [mbind option_bind]. destruct Hc as (bt & Hbt & _).
    destruct (less_decides _ Ht p t ltac:(by exists b) ltac:(by exists bt)) as [c Ec]. rewrite Ec. cbn [mbind option_bind]. destruct c.
    { exists (setBlockIndexCandidates m). split_and!; auto; by destruct m. }
    destruct (insert_candidate_ok _ p _ Ht ltac:(by exists b) HF HS) as (l1 & -> & HS1 & Hl1). exists l1. split_and!; [done | done | | |].
    - intros x Hx. apply Hl1 in Hx as [-> | Hx]; [right; split; [by exists b | done] | by left].
    - intros x Hx. apply Hl1. by right.
    - intros _ _. left. apply Hl1. by left. }
  destruct Hskip as (l1 & -> & HS1 & H1 & H2 & H3). cbn [mbind option_bind].
  destruct (IH (set_candidates m l1)) as (l' & -> & HS' & H1' & H2' & H3'); try done.
  { rewrite list.Forall_forall in *. intros x Hx. destruct (H1 x Hx) as [? | [? _]]; [by apply HF | done]. }
  exists l'. cbn [set_candidates setBlockIndexCandidates nChainTx ix] in *. split_and!; [done | done | | by intros x Hx; apply H2', H2 |].
  - intros x Hx. destruct (H1' x Hx) as [Hx1 | ?]; [by apply H1 | by right].
  - intros x bx Hx Hbx HV Htx. apply elem_of_cons in Hx as [-> | Hx]; [| by eapply H3'].
    assert (bx = b) as -> by congruence. destruct (H3 HV Htx) as [|]; [left; by apply H2' | by right].
Qed.

(** While the chain that contains the block is taken back. *)
Record taking_back (H0 : heap) m0 (pindex : positive) m (t : positive) : Prop := {
  tb_marked : marked H0 (H_ m);
  tb_failed : exists b, H_ m !! pindex = Some b /\ failed b;
  tb_other : forall q, (forall h, ancestor H0 q h <> Some pindex) -> H_ m !! q = H0 !! q;
  tb_map : mapBlockIndex (ix m) = mapBlockIndex (ix m0);
  tb_tx : nChainTx m = nChainTx m0;
  tb_chain : chain_of (H_ m) (active m) (Some t);
  tb_tip : exists t0 h, chain_of H0 (active m0) (Some t0) /\ ancestor H0 t0 h = Some t /\
    forall q k, ancestor H0 t0 k = Some q -> h < k -> exists h', ancestor H0 q h' = Some pindex;
  tb_sub : setBlockIndexCandidates m `sublist_of` setBlockIndexCandidates m0;
  tb_invalid : pindexBestInvalid m = pindexBestInvalid m0;
  tb_inv : tip_inv (H_ m) (tip m);
}.

(** Marking, and erasing, a block that descends from [pindex]. *)
Lemma taking_back_mark m0 pindex m t p bits :
  taking_back (H_ m0) m0 pindex m t -> tree_ok (H_ m0) -> is_Some (H_ m0 !! p) -> (exists h, ancestor (H_ m0) p h = Some pindex) ->
  bits = BLOCK_FAILED_VALID \/ bits = BLOCK_FAILED_CHILD ->
  exists m1, mark m p bits = Some m1 /\ tip m1 = tip m /\
    taking_back (H_ m0) m0 pindex (set_candidates (set_ix m1 (set_dirty (ix m1) ({[p]} ∪ setDirtyBlockIndex (ix m1)))) (erase p (setBlockIndexCandidates m1))) t.
Proof using Hv.
  intros [] Ht0 Hp [h Ha] Hbits. destruct (mark_spec m p bits ltac:(by eapply marked_in) Hbits) as (H' & E & Hm & (b' & Hb' & Hf) & Hother).
  eexists. split; [exact E |]. split; [done |]. split; cbn [set_candidates set_ix set_dirty set_heap ix ix_heap tip nChainTx setBlockIndexCandidates mapBlockIndex pindexBestInvalid] in *; try done.
  - by eapply marked_trans.
  - destruct tb_failed0 as (b & Hb & Hfb). destruct (decide (pindex = p)) as [-> |]; [by exists b' |]. exists b. by rewrite Hother.
  - intros q Hq. rewrite Hother; [by apply tb_other0 |]. intros ->. by apply (Hq h).
  - eapply same_chain; [exact (proj1 Hm) | done].
  - etrans; [|exact tb_sub0]. unfold erase. apply sublist_filter.
  - by eapply (vd_marked Hv).
Qed.

Lemma invalidate_loop_ok m0 pindex bp fuel : forall m t b,
  ok m0 -> taking_back (H_ m0) m0 pindex m t -> H_ m0 !! pindex = Some bp -> 0 < nHeight bp ->
  H_ m !! t = Some b -> nHeight b < Z.of_nat fuel ->
  exists r m', invalidate_loop fuel m pindex = Some (r, m') /\
    match r with
    | Connected => exists t', taking_back (H_ m0) m0 pindex m' t' /\ forall h, ancestor (H_ m0) t' h <> Some pindex
    | Rejected _ => False
    | _ => trouble r
    end.
Proof using All.
  induction fuel as [|fuel IH]; intros m t b Hok Htb Hbp Hpos Hb Hf; pose proof (mo_tree _ _ _ Hok) as Ht0;
    pose proof (same_tree _ _ (proj1 (tb_marked _ _ _ _ _ Htb)) Ht0) as Ht; pose proof (to_wf _ Ht) as Hwf; pose proof (eo_height _ _ _ (Hwf _ _ Hb)) as Hnn; [lia |].
  pose proof (proj1 (tb_marked _ _ _ _ _ Htb)) as Eh. destruct (same_lookup _ _ Eh _ _ Hbp) as (bp' & Hbp' & Ef). apply forget_inj in Ef as (_ & _ & _ & Ehp & _).
  pose proof (tb_chain _ _ _ _ _ Htb) as Hc. cbn [invalidate_loop]. rewrite (Contains_ok _ _ pindex bp' Hbp'). cbn [mbind option_bind].
  rewrite (chain_at_ok _ Hwf _ (Some t) Hc). case_bool_decide as Ea.
  2: { exists Connected, m. split; [done |]. exists t. split; [done |]. intros h Hh. apply Ea. rewrite <- (same_ancestor_eq _ _ t _ Eh).
    destruct (ancestor_back _ _ _ _ Hh) as (b1 & Hb1 & Hh1 & _). destruct (ancestor_in _ (to_wf _ Ht0) t b1 h Hb1 Hh1) as (q & bq & E & Hq & Ehq & _).
    rewrite Hh in E. injection E as <-. assert (bq = bp) as -> by congruence. rewrite <- Ehp, Ehq. done. }
  rewrite (tip_of_chain _ _ _ Hwf Hc). cbn [mbind option_bind].
  assert (Ha0 : ancestor (H_ m0) t (nHeight bp') = Some pindex) by (by rewrite (same_ancestor_eq _ _ t _ Eh)).
  destruct (ancestor_back _ _ _ _ Ha0) as (bt0 & Hbt0 & Hht & _).
  destruct (taking_back_mark m0 pindex m t t BLOCK_FAILED_CHILD Htb Ht0 ltac:(by exists bt0) ltac:(by eexists) ltac:(by right)) as (m1 & -> & Et1 & Htb1).
  cbn [mbind option_bind]. set (m2 := set_candidates _ _) in *.
  destruct (tip_disconnect (ix m2) (tip m2)) as [r t'] eqn:Er. assert (Etip : tip m2 = tip m) by exact Et1.
  destruct r as [|c| |]; [| by destruct (disconnect_accepted _ _ _ _ Er) | |];
    try (eexists _, _; split; [done |]; right; exists (ix m2), (tip m2), t'; split; [exact (tb_inv _ _ _ _ _ Htb1) | exact Er]).
  destruct (disconnect_moves _ _ _ Er) as (q & bq & Eq & Hbq & Es).
  pose proof (same_tree _ _ (proj1 (tb_marked _ _ _ _ _ Htb1)) Ht0) as Ht2. pose proof (to_wf _ Ht2) as Hwf2.
  pose proof (tip_of_chain _ _ _ Hwf2 (tb_chain _ _ _ _ _ Htb1)) as Etip2. unfold active in Etip2. rewrite Etip2 in Eq. injection Eq as <-.
  pose proof (eo_prev _ _ _ (Hwf2 _ _ Hbq)) as Hprev. pose proof (ancestor_pprev _ Hwf2 t bq Hbq) as Ep.
  pose proof (proj1 (tb_marked _ _ _ _ _ Htb1)) as Eh2. destruct (same_lookup _ _ Eh2 _ _ Hbt0) as (bq' & Hbq' & Ef2).
  assert (bq' = bq) as -> by congruence. apply forget_inj in Ef2 as (_ & _ & _ & Ehq & _).
  destruct (pprev bq) as [u|]; [| lia]. destruct Hprev as (bu & Hbu & Ehu).
  assert (Htb3 : taking_back (H_ m0) m0 pindex (set_tip m2 t') u).
  { destruct Htb1. split; try done.
    - eapply set_tip_chain; [exact Hwf2 | exact tb_chain0 | exact Hbu | exact Es].
    - destruct tb_tip0 as (t0 & h & Hc0 & Hh & Habove). exists t0, (nHeight bu). split; [done |].
      destruct (ancestor_back _ _ _ _ Hh) as (b0 & Hb0 & Hh0 & _). destruct (ancestor_in _ (to_wf _ Ht0) t0 b0 h Hb0 Hh0) as (x & bx & E & Hx & Ehx & _).
      rewrite Hh in E. injection E as <-. assert (bx = bt0) as -> by congruence.
      split.
      + rewrite <- (ancestor_trans _ (to_wf _ Ht0) t0 b0 h (nHeight bu) t Hb0 Hh) by lia.
        rewrite (same_ancestor_eq _ _ t _ Eh2). symmetry. rewrite Ep. f_equal. lia.
      + intros y k Hy Hk. destruct (Z.eq_dec k h) as [-> |]; [| apply (Habove y k Hy); lia].
        assert (y = t) as -> by congruence. by eexists.
    - by eapply (vd_disconnect Hv), Er. }
  destruct (IH (set_tip m2 t') u bu Hok Htb3 Hbp Hpos Hbu) as (r & m' & E & Hr); [| by exists r, m'].
  destruct (same_lookup _ _ (eq_sym Eh) _ _ Hb) as (b0 & Hb0 & Ef0). apply forget_inj in Ef0 as (_ & _ & _ & Eb & _).
  assert (b0 = bt0) as -> by congruence. lia.
Qed.

(** After the way back, what has to be known again. *)
Lemma taken_back_ok m0 pindex m t : ok m0 -> taking_back (H_ m0) m0 pindex m t -> (forall h, ancestor (H_ m0) t h <> Some pindex) -> ok m.
Proof using.
  intros [H1 H2 H3 (t0 & Hc0 & Ha0 & Hch0) H4 _] [] Hno. pose proof (to_wf _ H1) as Hwf0. pose proof (proj1 tb_marked0) as Eh.
  assert (Hch : forall x, chained m0 x -> chained m x) by (intros x; by apply same_chained).
  destruct tb_tip0 as (t0' & h & Hc0' & Hh & _). assert (t0' = t0) as -> by (pose proof (tip_of_chain _ _ _ Hwf0 Hc0); pose proof (tip_of_chain _ _ _ Hwf0 Hc0'); congruence).
  pose proof (accepted_ancestor _ _ _ _ _ Hwf0 Ha0 Hh) as [[[b Hb] Hcl] Hva].
  split; [by eapply same_tree | | | | |].
  - eapply sublist_sorted; [exact tb_sub0 |]. eapply sorted_mono; [|exact H2]. intros x y. unfold less. by rewrite (same_less _ _ x y Eh).
  - rewrite list.Forall_forall in *. intros x Hx. by apply Hch, H3, (elem_of_sublist _ _ _ Hx).
  - exists t. split_and!; [done | split; [split |] | by apply Hch; eapply chained_ancestor].
    + destruct (same_lookup _ _ Eh _ _ Hb) as (c & ? & _). by exists c.
    + intros h' x Hx. rewrite <- (same_ancestor_eq _ _ t h' Eh) in Hx. destruct (Hcl _ _ Hx) as (c & Hc & Hc2). exists c. split; [|done].
      rewrite tb_other0; [done |]. intros h2 Hp. destruct (ancestor_back _ _ _ _ Hx) as (b1 & Hb1 & Hh1 & _). destruct (ancestor_back _ _ _ _ Hp) as (b2 & Hb2 & Hh2 & _).
      destruct (ancestor_in _ Hwf0 t b1 h' Hb1 Hh1) as (x' & bx & E & Hbx & Ehx & _). rewrite Hx in E. injection E as <-. assert (b2 = bx) as -> by congruence.
      apply (Hno h2). rewrite <- Hp. symmetry. eapply ancestor_trans; [done | exact Hb1 | exact Hx | lia].
    + intros h' x Hx. rewrite <- (same_ancestor_eq _ _ t h' Eh) in Hx. by eapply Hva.
  - intros q Hq. rewrite tb_invalid0 in Hq. destruct (H4 q Hq) as [c Hc]. destruct (same_lookup _ _ Eh _ _ Hc) as (c' & ? & _). by exists c'.
  - done.
Qed.

(** The new tip, and what is as good, are candidates again. *)
Lemma candidates_again m0 pindex m t :
  ok m0 -> received m0 -> taking_back (H_ m0) m0 pindex m t -> (forall h, ancestor (H_ m0) t h <> Some pindex) ->
  exists l, add_candidates (map snd (map_to_list (mapBlockIndex (ix m)))) m = Some (set_candidates m l) /\
    ok (set_candidates m l) /\ received (set_candidates m l) /\ all_candidates (set_candidates m l).
Proof using.
  intros Hok0 Hrc0 Htb Hno. pose proof (taken_back_ok _ _ _ _ Hok0 Htb Hno) as Hok. pose proof (mo_tree _ _ _ Hok) as Ht. pose proof (tb_chain _ _ _ _ _ Htb) as Hc.
  assert (Hrc : received m) by (eapply marked_received; [apply Htb | apply Htb | apply Htb | done]).
  set (l := map snd (map_to_list (mapBlockIndex (ix m)))).
  pose proof (listed m Hrc) as Hl. fold l in Hl.
  destruct (add_candidates_ok t l m Ht Hc) as (l' & E & HS & H1 & H2 & H3).
  { eapply Forall_impl; [|exact (mo_cands _ _ _ Hok)]. intros x Hx. apply Hx. }
  { exact (mo_sorted _ _ _ Hok). }
  { rewrite list.Forall_forall. intros x. apply Hl. }
  exists l'. split; [exact E |]. split; [| split].
  - destruct Hok as [O1 O2 O3 O4 O5 O6]. split; try done. rewrite list.Forall_forall in *.
    intros x Hx. destruct (H1 x Hx) as [? | [? ?]]; [by apply O3 | by apply Hrc].
  - eapply (marked_received m); [apply marked_refl | done..].
  - exists t. split; [exact (tip_of_chain _ _ _ (to_wf _ Ht) Hc) |].
    assert (Hall : forall x b, H_ m !! x = Some b -> IsValid BLOCK_VALID_TRANSACTIONS b = true -> default 0 (nChainTx m !! x) <> 0 -> x ∈ l' \/ less (H_ m) x t).
    { intros x b Hb. apply (H3 x b); [apply Hl; by exists b | done]. }
    split; [| exact Hall]. destruct (tip_accepted m t Hok Hc) as [[[[b Hb] Hcl] _] [_ Hcx]].
    pose proof (ancestor_self _ (to_wf _ Ht) t b Hb) as Ea. destruct (Hcl _ _ Ea) as (b' & Hb' & Hnf & Hd). assert (b' = b) as -> by congruence.
    destruct (Hall t b Hb) as [|Hl0]; [| | done | by destruct (less_irrefl _ Ht t)].
    + unfold IsValid. destruct (Z.eqb_spec (Z.land (nStatus b) BLOCK_FAILED_MASK) 0) as [E0 | E0]; [by apply Z.leb_le, (rc_valid _ Hrc t b) | by destruct Hnf].
    + destruct (Hcx _ _ _ Ea Hb) as [? | H0]; [done | by eapply (rc_genesis _ Hrc t b)].
Qed.

(** What [InvalidateBlock] leaves, when it returns [true]. *)
Record invalidated m (pindex : positive) m' : Prop := {
  iv_ok : ok m';
  iv_received : received m';
  iv_all : all_candidates m';
  iv_marked : marked (H_ m) (H_ m');
  iv_tx : nChainTx m' = nChainTx m;
  iv_failed : exists b, H_ m' !! pindex = Some b /\ failed b;
  iv_other : forall q, (forall h, ancestor (H_ m) q h <> Some pindex) -> H_ m' !! q = H_ m !! q;
  iv_tip : exists t0 t h, chain_of (H_ m) (active m) (Some t0) /\ ancestor (H_ m) t0 h = Some t /\ Tip (active m') = Some t /\
    (forall h', ancestor (H_ m) t h' <> Some pindex) /\
    forall q k, ancestor (H_ m) t0 k = Some q -> h < k -> exists h', ancestor (H_ m) q h' = Some pindex;
}.

(** The end of [InvalidateBlock]. *)
Lemma invalidate_end m pindex m2 t2 : ok m -> received m ->
  taking_back (H_ m) m pindex m2 t2 -> (forall h, ancestor (H_ m) t2 h <> Some pindex) ->
  exists m3 m', add_candidates (map snd (map_to_list (mapBlockIndex (ix m2)))) m2 = Some m3 /\ InvalidChainFound m3 pindex = Some m' /\ invalidated m pindex m'.
Proof using Hv.
  intros Hok Hrc Htb Hno. destruct (candidates_again _ _ _ _ Hok Hrc Htb Hno) as (l & E & Hok3 & Hrc3 & Hall).
  destruct (tb_failed _ _ _ _ _ Htb) as (bf & Hbf & Hff). exists (set_candidates m2 l).
  destruct (InvalidChainFound_ok (set_candidates m2 l) pindex Hok3) as (m' & E' & D & Eh & Ec); [by exists bf |]. exists m'. split_and!; [done | done |].
  assert (Et : active m' = active m2) by (unfold active; by rewrite (dr_tip _ _ _ D)).
  pose proof (mo_tree _ _ _ Hok3) as Ht3. pose proof (tip_of_chain _ _ _ (to_wf _ Ht3) (tb_chain _ _ _ _ _ Htb)) as Etip.
  assert (Em : mapBlockIndex (ix m') = mapBlockIndex (ix m2)).
  { revert E'. unfold InvalidChainFound. destruct (beats_invalid _ _) as [[]|]; [| |done]; cbn; destruct (Tip _); intros [= <-]; done. }
  split.
  - by eapply (drops_ok _ _ (vd_marked Hv)).
  - eapply marked_received; [exact (dr_heap _ _ _ D) | exact Em | exact (dr_tx _ _ _ D) | exact Hrc3].
  - destruct Hall as (t & Et' & Hin & Hx). exists t. rewrite Et, Ec, Eh, (dr_tx _ _ _ D). done.
  - rewrite Eh. exact (tb_marked _ _ _ _ _ Htb).
  - rewrite (dr_tx _ _ _ D). exact (tb_tx _ _ _ _ _ Htb).
  - rewrite Eh. by exists bf.
  - intros q Hq. rewrite Eh. by apply (tb_other _ _ _ _ _ Htb).
  - destruct (tb_tip _ _ _ _ _ Htb) as (t0 & h & Hc0 & Hh & Habove). exists t0, t2, h. by rewrite Et.
Qed.

Lemma InvalidateBlock_ok m pindex bp : ok m -> received m -> H_ m !! pindex = Some bp -> 0 < nHeight bp ->
  exists r m', InvalidateBlock m pindex = Some (r, m') /\
    (r = ReturnFalse /\ trouble SystemError \/ r = NoReturn /\ trouble Crashed \/ r = Stop false /\ invalidated m pindex m').
Proof using All.
  intros Hok Hrc Hbp Hpos. pose proof (mo_tree _ _ _ Hok) as Ht0. pose proof (to_wf _ Ht0) as Hwf0. destruct (mo_tip _ _ _ Hok) as (t & Hc & _).
  destruct (mark_spec m pindex BLOCK_FAILED_VALID ltac:(by exists bp) ltac:(by left)) as (H1 & E1 & Hm1 & Hf1 & Ho1).
  unfold InvalidateBlock. rewrite E1. cbn [mbind option_bind]. set (m1 := set_candidates _ _).
  assert (Htb : taking_back (H_ m) m pindex m1 t).
  { split; try done; cbn.
    - intros q Hq. apply Ho1. intros ->. apply (Hq (nHeight bp)). by apply ancestor_self.
    - eapply same_chain; [exact (proj1 Hm1) | exact Hc].
    - destruct Hc as (bt & Hbt & Ec). exists t, (nHeight bt). split_and!; [by exists bt | by apply ancestor_self |].
      intros q k Hq Hk. destruct (ancestor_back _ _ _ _ Hq) as (bt' & Hbt' & Hh & _). assert (bt' = bt) as -> by congruence. lia.
    - unfold erase. apply sublist_filter.
    - eapply (vd_marked Hv); [exact Hm1 | exact (mo_inv _ _ _ Hok)]. }
  destruct (tb_chain _ _ _ _ _ Htb) as (bt & Hbt & Ea).
  destruct (invalidate_loop_ok m pindex bp (length (active m1)) m1 t bt Hok Htb Hbp Hpos Hbt) as (r & m2 & -> & Hr).
  { rewrite Ea. unfold path. rewrite length_fmap, length_seq. pose proof (eo_height _ _ _ (to_wf _ (same_tree _ _ (proj1 Hm1) Ht0) _ _ Hbt)). lia. }
  cbn [mbind option_bind]. destruct r as [|c| |]; [| done | eexists _, _; split; [done | by left; split] | eexists _, _; split; [done | by right; left; split]].
  destruct Hr as (t2 & Htb2 & Hno). destruct (invalidate_end _ _ _ _ Hok Hrc Htb2 Hno) as (m3 & m' & -> & E & Hiv). cbn [mbind option_bind]. rewrite E.
  exists (Stop false), m'. split; [done |]. right; right. by split.
Qed.

End Activation.

(** ** Reconsidering a block *)

Section Reconsider.
Context {T : Type} {O : TipOps T} (valid : positive -> Prop) (tip_inv : heap -> T -> Prop).
Implicit Types m : manager T.

Abbreviation H_ m := (ix_heap (ix m)).
Abbreviation ok m := (manager_ok valid tip_inv m).

Definition unfail (b : CBlockIndex) : CBlockIndex := set_status b (Z.land (nStatus b) (Z.lnot BLOCK_FAILED_MASK)).

Lemma land_unfail s x : Z.land x (Z.lnot BLOCK_FAILED_MASK) = x -> Z.land (Z.land s (Z.lnot BLOCK_FAILED_MASK)) x = Z.land s x.
Proof using. intros E. by rewrite <- Z.land_assoc, (Z.land_comm _ x), E. Qed.

Lemma unfail_spec b : ~ failed (unfail b) /\ (has_data (unfail b) <-> has_data b) /\ level (unfail b) = level b /\ forget (unfail b) = forget b.
Proof using.
  unfold failed, has_data, level, unfail. cbn [nStatus set_status]. split_and!.
  - rewrite <- Z.land_assoc, (Z.land_comm (Z.lnot _)), Z.land_lnot_diag, Z.land_0_r. by intros [].
  - by rewrite land_unfail.
  - by rewrite land_unfail.
  - by destruct b.
Qed.

Lemma unfail_id b : ~ failed b -> unfail b = b.
Proof using.
  intros Hf. unfold unfail. replace (Z.land _ _) with (nStatus b); [by destruct b |]. unfold failed in Hf.
  destruct (Z.eq_dec (Z.land (nStatus b) BLOCK_FAILED_MASK) 0) as [E | E]; [| by destruct Hf]. apply Z.bits_inj'. intros n Hn.
  rewrite Z.land_spec, Z.lnot_spec by lia. pose proof (f_equal (fun z => Z.testbit z n) E) as Eb. cbn beta in Eb. rewrite Z.land_spec, Z.bits_0 in Eb.
  by destruct (Z.testbit (nStatus b) n), (Z.testbit BLOCK_FAILED_MASK n).
Qed.

Lemma IsValid_unfail b : IsValid BLOCK_VALID_TRANSACTIONS (unfail b) = (BLOCK_VALID_TRANSACTIONS <=? level b).
Proof using.
  destruct (unfail_spec b) as (Hf & _ & El & _). unfold IsValid, failed, level in *.
  destruct (Z.eqb_spec (Z.land (nStatus (unfail b)) BLOCK_FAILED_MASK) 0) as [E | E]; [by rewrite El | by destruct Hf].
Qed.

(** The candidates are listed in order, and exist. *)
Definition sorted_ok m : Prop := StronglySorted (less (H_ m)) (setBlockIndexCandidates m) /\ Forall (fun x => is_Some (H_ m !! x)) (setBlockIndexCandidates m).

(** Clearing the marks of some of the blocks of [D], and adding candidates. *)
Record clearing (D : positive -> Prop) m m' : Prop := {
  cg_entry : forall p b, H_ m !! p = Some b -> H_ m' !! p = Some b \/ D p /\ H_ m' !! p = Some (unfail b);
  cg_none : forall p, H_ m !! p = None -> H_ m' !! p = None;
  cg_tip : tip m' = tip m;
  cg_tx : nChainTx m' = nChainTx m;
  cg_map : mapBlockIndex (ix m') = mapBlockIndex (ix m);
  cg_sorted : sorted_ok m';
  cg_new : forall x, x ∈ setBlockIndexCandidates m' -> x ∈ setBlockIndexCandidates m \/ default 0 (nChainTx m !! x) <> 0;
  cg_sub : forall x, x ∈ setBlockIndexCandidates m -> x ∈ setBlockIndexCandidates m';
  cg_invalid : pindexBestInvalid m' = pindexBestInvalid m \/ pindexBestInvalid m' = None;
}.

Lemma clearing_refl D m : sorted_ok m -> clearing D m m.
Proof using. intros Hs. split; auto. Qed.

Lemma clearing_trans D m1 m2 m3 : clearing D m1 m2 -> clearing D m2 m3 -> clearing D m1 m3.
Proof using.
  intros [] []. split; try congruence; try done; auto.
  - intros p b Hb. destruct (cg_entry0 p b Hb) as [H2 | [HD H2]]; destruct (cg_entry1 _ _ H2) as [H3 | [HD' H3]]; auto.
    right. split; [done |]. rewrite H3. f_equal. apply unfail_id, unfail_spec.
  - intros x Hx. destruct (cg_new1 x Hx) as [Hx2 | Hx2]; [by apply cg_new0 | rewrite <- cg_tx0; by right].
  - destruct cg_invalid1; [| by right]. destruct cg_invalid0; [left | right]; congruence.
Qed.

Lemma clearing_heap D m m' : clearing D m m' -> forget <$> H_ m = forget <$> H_ m'.
Proof using.
  intros []. apply map_eq. intros p. rewrite !lookup_fmap. destruct (H_ m !! p) as [b|] eqn:Hb; [| by rewrite cg_none0].
  destruct (cg_entry0 p b Hb) as [-> | [_ ->]]; [done |]. cbn. by rewrite (proj2 (proj2 (proj2 (unfail_spec b)))).
Qed.

Lemma sorted_heap m m' : forget <$> H_ m = forget <$> H_ m' -> setBlockIndexCandidates m' = setBlockIndexCandidates m -> sorted_ok m -> sorted_ok m'.
Proof using.
  intros E Ec [HS HF]. split; rewrite Ec.
  - eapply sorted_mono; [|exact HS]. intros x y. unfold less. by rewrite (same_less _ _ x y E).
  - eapply Forall_impl; [|exact HF]. intros x [b Hb]. destruct (same_lookup _ _ E _ _ Hb) as (c & ? & _). by exists c.
Qed.

Lemma clear_failed_ok D m p b : sorted_ok m -> H_ m !! p = Some b -> D p ->
  exists m', clear_failed m p = Some m' /\ clearing D m m' /\ H_ m' !! p = Some (unfail b) /\ setBlockIndexCandidates m' = setBlockIndexCandidates m /\
    forall q, q <> p -> H_ m' !! q = H_ m !! q.
Proof using.
  intros Hs Hb HD. unfold clear_failed. rewrite Hb. cbn [mbind option_bind]. eexists. split; [done |].
  assert (He : forall q, <[p:=unfail b]> (H_ m) !! q = if decide (q = p) then Some (unfail b) else H_ m !! q).
  { intros q. destruct (decide (q = p)) as [-> |]; [by rewrite lookup_insert_eq | by rewrite lookup_insert_ne]. }
  split_and!; [split | cbn; apply lookup_insert_eq | done | intros q Hq; cbn; by apply lookup_insert_ne]; try done; auto; cbn [set_ix set_dirty set_heap ix ix_heap].
  - intros q c Hc. rewrite He. case_decide as Eq; [subst; right; split; [done |]; congruence | by left].
  - intros q Hq. rewrite He. case_decide as Eq; [congruence | done].
  - eapply (sorted_heap m); [| done | exact Hs]. cbn. fold (unfail b). rewrite fmap_insert, (proj2 (proj2 (proj2 (unfail_spec b)))). symmetry. apply insert_id. by rewrite lookup_fmap, Hb.
Qed.

Lemma insert_sorted m p : tree_ok (H_ m) -> sorted_ok m -> is_Some (H_ m !! p) ->
  exists l, insert_candidate (H_ m) p (setBlockIndexCandidates m) = Some l /\ sorted_ok (set_candidates m l) /\ forall x, x ∈ l <-> x = p \/ x ∈ setBlockIndexCandidates m.
Proof using.
  intros Ht [HS HF] Hp. destruct (insert_candidate_ok (H_ m) p _ Ht Hp HF HS) as (l & E & HS' & Hl). exists l. split_and!; [done | | done].
  split; [exact HS' |]. cbn. rewrite list.Forall_forall in *. intros x Hx. apply Hl in Hx as [-> | Hx]; [done | by apply HF].
Qed.

Lemma reset_invalid D m p : sorted_ok m -> clearing D m (if bool_decide (Some p = pindexBestInvalid m) then set_invalid m None else m).
Proof using. intros Hs. case_bool_decide; [| by apply clearing_refl]. split; auto. Qed.

Lemma reset_invalid_same m (c : bool) : H_ (if c then set_invalid m None else m) = H_ m /\
  setBlockIndexCandidates (if c then set_invalid m None else m) = setBlockIndexCandidates m.
Proof using. by destruct c. Qed.

Lemma reconsider_one_ok D m p b t :
  tree_ok (H_ m) -> sorted_ok m -> chain_of (H_ m) (active m) (Some t) -> H_ m !! p = Some b -> D p ->
  exists m', reconsider_one m p = Some m' /\ clearing D m m' /\ H_ m' !! p = Some (unfail b) /\
    (forall q, q <> p -> H_ m' !! q = H_ m !! q) /\
    (IsValid BLOCK_VALID_TRANSACTIONS (unfail b) = true -> default 0 (nChainTx m !! p) <> 0 -> p ∈ setBlockIndexCandidates m' \/ ~ less (H_ m) t p).
Proof using.
  intros Ht Hs Hc Hb HD. destruct (clear_failed_ok D m p b Hs Hb HD) as (m1 & E1 & C1 & Hb1 & _ & Ho1). pose proof (clearing_heap _ _ _ C1) as Eh.
  unfold reconsider_one. rewrite E1. cbn [mbind option_bind]. rewrite Hb1. cbn [mbind option_bind]. rewrite (cg_tx _ _ _ C1).
  enough (exists m2, (if IsValid BLOCK_VALID_TRANSACTIONS (unfail b) && negb (default 0 (nChainTx m !! p) =? 0) then
             t ← Tip (active m1);
             better ← CBlockIndexWorkComparator (H_ m1) t p;
             if better : bool then l ← insert_candidate (H_ m1) p (setBlockIndexCandidates m1); Some (set_candidates m1 l)
             else Some m1
           else Some m1) = Some m2 /\ clearing D m m2 /\ H_ m2 = H_ m1 /\
    (IsValid BLOCK_VALID_TRANSACTIONS (unfail b) = true -> default 0 (nChainTx m !! p) <> 0 -> p ∈ setBlockIndexCandidates m2 \/ ~ less (H_ m) t p)) as (m2 & -> & C2 & Eh2 & Hp2).
  { cbn [mbind option_bind]. eexists. split; [done |]. destruct (reset_invalid_same m2 (bool_decide (Some p = pindexBestInvalid m2))) as [-> ->].
    rewrite Eh2. split_and!; [|done.. ]. eapply clearing_trans; [exact C2 |]. apply reset_invalid, C2. }
  destruct (IsValid BLOCK_VALID_TRANSACTIONS (unfail b)) eqn:EV; cbn [andb]; [| by exists m1].
  destruct (Z.eqb_spec (default 0 (nChainTx m !! p)) 0) as [E0 | E0]; cbn [negb]; [by exists m1 |].
  assert (Hc1 : chain_of (H_ m1) (active m1) (Some t)) by (unfold active; rewrite (cg_tip _ _ _ C1); by eapply same_chain).
  pose proof (same_tree _ _ Eh Ht) as Ht1. rewrite (tip_of_chain _ _ _ (to_wf _ Ht1) Hc1). cbn [mbind option_bind]. destruct Hc1 as (bt & Hbt & _).
  destruct (less_decides _ Ht1 t p ltac:(by exists bt) ltac:(by eexists)) as [c Ec]. rewrite Ec. cbn [mbind option_bind]. destruct c.
  2: { exists m1. split_and!; [done.. |]. intros _ _. right. unfold less. rewrite (same_less _ _ t p Eh), Ec. discriminate. }
  destruct (insert_sorted m1 p Ht1 (cg_sorted _ _ _ C1) ltac:(by eexists)) as (l & -> & Hs' & Hl). cbn [mbind option_bind].
  exists (set_candidates m1 l). split; [done |]. split_and!; [| done | intros _ _; left; apply Hl; by left]. eapply clearing_trans; [exact C1 |].
  split; auto; try done; cbn; intros x Hx; [apply Hl in Hx as [-> | Hx]; [right; by rewrite (cg_tx _ _ _ C1) | by left] | apply Hl; by right].
Qed.

Lemma clearing_unfailed D m m' x b : clearing D m m' -> H_ m !! x = Some b -> ~ failed b -> H_ m' !! x = Some b.
Proof using. intros C Hb Hf. destruct (cg_entry _ _ _ C x b Hb) as [? | [_ ->]]; [done | by rewrite unfail_id]. Qed.

Lemma IsValid_failed n b : IsValid n b = true -> ~ failed b.
Proof using. unfold IsValid, failed. by destruct (Z.eqb_spec (Z.land (nStatus b) BLOCK_FAILED_MASK) 0) as [-> |]; [intros _ [] |]. Qed.

(** Whether a descendant of the block is as it has to be. *)
Definition settled_one m m' (t x : positive) : Prop :=
  forall b, H_ m !! x = Some b -> H_ m' !! x = Some (unfail b) /\
    (IsValid BLOCK_VALID_TRANSACTIONS b = false -> IsValid BLOCK_VALID_TRANSACTIONS (unfail b) = true -> default 0 (nChainTx m !! x) <> 0 ->
     x ∈ setBlockIndexCandidates m' \/ ~ less (H_ m) t x).

Lemma settled_after D m m1 m' t x : clearing D m m1 -> clearing D m1 m' -> settled_one m m1 t x -> settled_one m m' t x.
Proof using.
  intros C1 C2 Hs b Hb. destruct (Hs b Hb) as [H1 H2]. split.
  - eapply clearing_unfailed; [exact C2 | done | apply unfail_spec].
  - intros V1 V2 Htx. destruct (H2 V1 V2 Htx) as [? | ?]; [left; by apply C2 | by right].
Qed.

Lemma settled_before D m m1 m' t x : clearing D m m1 -> clearing D m1 m' ->
  H_ m1 !! x = H_ m !! x -> settled_one m1 m' t x -> settled_one m m' t x.
Proof using.
  intros C1 C2 H1 H2 b Hb. rewrite <- H1 in Hb. destruct (H2 b Hb) as [H3 H4]. split; [done |]. intros V1 V2 Htx. rewrite (cg_tx _ _ _ C1) in H4. destruct (H4 V1 V2 Htx) as [| Hl]; [by left | right].
  unfold less in *. by rewrite (same_less _ _ t x (clearing_heap _ _ _ C1)).
Qed.

Lemma reconsider_loop_ok D pindex h t l : forall m,
  tree_ok (H_ m) -> sorted_ok m -> chain_of (H_ m) (active m) (Some t) -> Forall (fun x => is_Some (H_ m !! x)) l ->
  (forall x, ancestor (H_ m) x h = Some pindex -> D x) ->
  exists m', reconsider_loop l m pindex h = Some m' /\ clearing D m m' /\
    forall x, x ∈ l -> ancestor (H_ m) x h = Some pindex -> settled_one m m' t x.
Proof using.
  induction l as [|p l IH]; intros m Ht Hs Hc HF HD; cbn [reconsider_loop].
  { exists m. split_and!; [done | by apply clearing_refl |]. intros x Hx. by apply not_elem_of_nil in Hx. }
  apply Forall_cons_iff in HF as [[b Hb] HF]. rewrite Hb. cbn [mbind option_bind].
  assert (Hone : exists m1, (if IsValid BLOCK_VALID_TRANSACTIONS b then Some m
           else
             a ← GetAncestor (H_ m) p h;
             if bool_decide (a = Some pindex) then reconsider_one m p else Some m) = Some m1 /\ clearing D m m1 /\
    (forall q, q <> p -> H_ m1 !! q = H_ m !! q) /\ (ancestor (H_ m) p h = Some pindex -> settled_one m m1 t p)).
  { destruct (IsValid BLOCK_VALID_TRANSACTIONS b) eqn:EV.
    { exists m. split_and!; [done | by apply clearing_refl | done |]. intros _ c Hc'. assert (c = b) as -> by congruence. rewrite unfail_id by (by eapply IsValid_failed).
      split; [done | congruence]. }
    rewrite (GetAncestor_ok _ (to_wf _ Ht) p b h Hb). cbn [mbind option_bind]. case_bool_decide as Ea; [| exists m; split_and!; [done | by apply clearing_refl | done | done]].
    destruct (reconsider_one_ok D m p b t Ht Hs Hc Hb (HD p Ea)) as (m1 & -> & C1 & Hb1 & Ho1 & Hp1). exists m1. split_and!; [done | done | done |].
    intros _ c Hc'. assert (c = b) as -> by congruence. split; [done | intros _; exact Hp1]. }
  destruct Hone as (m1 & -> & C1 & Ho1 & Hp1). cbn [mbind option_bind]. pose proof (clearing_heap _ _ _ C1) as Eh.
  destruct (IH m1) as (m' & -> & C2 & Hl); [by eapply same_tree | apply C1 | unfold active; rewrite (cg_tip _ _ _ C1); by eapply same_chain | | |].
  { eapply Forall_impl; [|exact HF]. intros x [c Hx]. destruct (same_lookup _ _ Eh _ _ Hx) as (c' & ? & _). by exists c'. }
  { intros x. rewrite <- (same_ancestor_eq _ _ x h Eh). apply HD. }
  exists m'. split_and!; [done | by eapply clearing_trans |]. intros x Hx Ha. destruct (decide (x = p)) as [-> | Hne]; [eapply settled_after; [exact C1 | exact C2 | by apply Hp1] |].
  apply elem_of_cons in Hx as [|Hx]; [done |]. eapply settled_before; [exact C1 | exact C2 | by apply Ho1 | apply Hl; [done | by rewrite <- (same_ancestor_eq _ _ x h Eh)]].
Qed.

Lemma clear_ancestors_ok D fuel : forall m p b,
  tree_ok (H_ m) -> sorted_ok m -> H_ m !! p = Some b -> nHeight b < Z.of_nat fuel -> (forall q h, ancestor (H_ m) p h = Some q -> D q) ->
  exists m', clear_ancestors fuel m (Some p) = Some m' /\ clearing D m m' /\ setBlockIndexCandidates m' = setBlockIndexCandidates m /\
    forall q h c, ancestor (H_ m) p h = Some q -> H_ m !! q = Some c -> H_ m' !! q = Some (unfail c).
Proof using.
  induction fuel as [|fuel IH]; intros m p b Ht Hs Hb Hf HD; pose proof (to_wf _ Ht) as Hwf; pose proof (eo_height _ _ _ (Hwf _ _ Hb)) as Hnn; [lia |].
  cbn [clear_ancestors]. rewrite Hb. cbn [mbind option_bind].
  assert (Hone : exists m1, (if Z.land (nStatus b) BLOCK_FAILED_MASK =? 0 then Some m else clear_failed m p) = Some m1 /\ clearing D m m1 /\
    H_ m1 !! p = Some (unfail b) /\ setBlockIndexCandidates m1 = setBlockIndexCandidates m /\ forall q, q <> p -> H_ m1 !! q = H_ m !! q).
  { destruct (Z.eqb_spec (Z.land (nStatus b) BLOCK_FAILED_MASK) 0) as [E0 | E0].
    - exists m. split_and!; try done; [by apply clearing_refl |]. rewrite unfail_id; [done |]. by intros Hb0; destruct Hb0.
    - apply clear_failed_ok; [done.. |]. by eapply HD, ancestor_self. }
  destruct Hone as (m1 & -> & C1 & Hb1 & Ec1 & Ho1). cbn [mbind option_bind]. pose proof (clearing_heap _ _ _ C1) as Eh.
  pose proof (eo_prev _ _ _ (Hwf _ _ Hb)) as Hpv. pose proof (ancestor_pprev _ Hwf p b Hb) as Epp.
  assert (Hself : forall q h, ancestor (H_ m) p h = Some q -> q = p \/ exists u bu, pprev b = Some u /\ H_ m !! u = Some bu /\ ancestor (H_ m) u h = Some q).
  { intros q h Ha. destruct (ancestor_back _ _ _ _ Ha) as (b' & Hb' & Hh & _). assert (b' = b) as -> by congruence.
    destruct (Z.eq_dec h (nHeight b)) as [-> |]; [left; pose proof (ancestor_self _ Hwf p b Hb); congruence | right].
    destruct (ancestor_in _ Hwf p b (nHeight b - 1) Hb ltac:(lia)) as (u & bu & Eu & Hbu & _). exists u, bu. split_and!; [congruence | done |].
    rewrite <- Ha. eapply ancestor_trans; [done | exact Hb | exact Eu | lia]. }
  destruct (pprev b) as [u|] eqn:Eu.
  2: { exists m1. split_and!; [by destruct fuel | done | done |]. intros q h c Ha Hc. destruct (Hself q h Ha) as [-> | (? & ? & ? & _)]; [congruence | done]. }
  destruct Hpv as (bu & Hbu & Ehu). destruct (same_lookup _ _ Eh _ _ Hbu) as (bu1 & Hbu1 & Ef). apply forget_inj in Ef as (_ & _ & _ & Ehu1 & _).
  destruct (IH m1 u bu1) as (m' & -> & C2 & Ec2 & Hall); [by eapply same_tree | apply C1 | done | lia | |].
  { intros q h. rewrite <- (same_ancestor_eq _ _ u h Eh). intros Ha. apply (HD q h). rewrite <- Ha. symmetry.
    destruct (ancestor_back _ _ _ _ Ha) as (bu' & Hbu' & Hh & _). eapply ancestor_trans; [done | exact Hb | symmetry; exact Epp | assert (bu' = bu) as -> by congruence; lia]. }
  exists m'. split_and!; [done | by eapply clearing_trans | congruence |]. intros q h c Ha Hc. destruct (decide (q = p)) as [-> | Hne].
  - assert (c = b) as -> by congruence. eapply clearing_unfailed; [exact C2 | done | apply unfail_spec].
  - destruct (Hself q h Ha) as [-> | (u' & bu' & [= <-] & _ & Ha')]; [done |]. apply (Hall q h c); [by rewrite <- (same_ancestor_eq _ _ u h Eh) | by rewrite Ho1].
Qed.

(** On the chain of the block, or above it. *)
Definition related (H : heap) (pindex q : positive) : Prop :=
  (exists h, ancestor H q h = Some pindex) \/ (exists h, ancestor H pindex h = Some q).

(** Clearing marks keeps the tip and what is known of the transactions. *)
Context (Hsame : forall H H' t, forget <$> H = forget <$> H' -> tip_inv H t -> tip_inv H' t).

Lemma clearing_accepted D m m' p : clearing D m m' -> accepted valid (H_ m) p -> accepted valid (H_ m') p.
Proof using.
  intros C [[[b Hb] Hcl] Hva]. pose proof (clearing_heap _ _ _ C) as Eh.
  split; [split |]; [destruct (same_lookup _ _ Eh _ _ Hb) as (c & ? & _); by exists c | |]; intros h q Hq; rewrite <- (same_ancestor_eq _ _ p h Eh) in Hq; [| by eapply Hva].
  destruct (Hcl _ _ Hq) as (c & Hc & Hf & Hd). exists c. split; [by eapply clearing_unfailed | done].
Qed.

Lemma clearing_received D m m' : clearing D m m' -> received m -> received m'.
Proof using.
  intros C [H1 H2 H3 H4]. pose proof (clearing_heap _ _ _ C) as E. assert (E' := eq_sym E). split.
  - intros p. rewrite (cg_map _ _ _ C), <- H1. split; intros [b Hb]; [destruct (same_lookup _ _ E' _ _ Hb) as (c & ? & _) | destruct (same_lookup _ _ E _ _ Hb) as (c & ? & _)]; by exists c.
  - intros p b Hb Hd. destruct (same_lookup _ _ E' _ _ Hb) as (c & Hc & _).
    destruct (cg_entry _ _ _ C p c Hc) as [Hb' | [_ Hb']]; rewrite Hb in Hb'; injection Hb' as ->; [by apply (H2 p) |].
    destruct (unfail_spec c) as (_ & Hd' & -> & _). by apply (H2 p), Hd'.
  - intros p [b Hb] Htx. rewrite (cg_tx _ _ _ C) in Htx. destruct (same_lookup _ _ E' _ _ Hb) as (c & Hc & _).
    apply (same_chained m m' p E (cg_tx _ _ _ C)), H3; [by exists c | done].
  - intros p b Hb Hh. rewrite (cg_tx _ _ _ C). destruct (same_lookup _ _ E' _ _ Hb) as (c & Hc & Ef). apply forget_inj in Ef as (_ & _ & _ & Eh & _).
    apply (H4 p c Hc). congruence.
Qed.

Lemma clearing_ok D m m' : clearing D m m' -> received m -> ok m -> ok m'.
Proof using Hsame.
  intros C Hrc [H1 H2 H3 (t & Ht & Ha & Hc) H4 H5]. pose proof (clearing_heap _ _ _ C) as E. split.
  - by eapply same_tree.
  - apply C.
  - destruct (cg_sorted _ _ _ C) as [_ HF]. rewrite list.Forall_forall in *. intros x Hx. apply (same_chained m m' x E (cg_tx _ _ _ C)).
    destruct (cg_new _ _ _ C x Hx) as [? | Htx]; [by apply H3 |]. destruct (HF x Hx) as [b Hb]. destruct (same_lookup _ _ (eq_sym E) _ _ Hb) as (c & ? & _).
    apply Hrc; [by exists c | done].
  - exists t. unfold active. rewrite (cg_tip _ _ _ C). split_and!; [by eapply same_chain | by eapply clearing_accepted | by eapply same_chained; [| apply C |]].
  - intros q Hq. destruct (cg_invalid _ _ _ C) as [Ei | Ei]; rewrite Ei in Hq; [|done]. destruct (H4 q Hq) as [c Hcq]. destruct (same_lookup _ _ E _ _ Hcq) as (c' & ? & _). by exists c'.
  - rewrite (cg_tip _ _ _ C). by eapply Hsame.
Qed.

(** What [ReconsiderBlock] leaves. *)
Record reconsidered m (pindex : positive) m' : Prop := {
  rd_ok : ok m';
  rd_received : received m';
  rd_heap : forget <$> H_ m = forget <$> H_ m';
  rd_entry : forall q b, H_ m !! q = Some b -> H_ m' !! q = Some b \/ H_ m' !! q = Some (unfail b);
  rd_tip : tip m' = tip m;
  rd_tx : nChainTx m' = nChainTx m;
  rd_related : forall q b, related (H_ m) pindex q -> H_ m !! q = Some b -> H_ m' !! q = Some (unfail b);
  rd_other : forall q, ~ related (H_ m) pindex q -> H_ m' !! q = H_ m !! q;
  rd_all : (forall q h b, ancestor (H_ m) pindex h = Some q -> H_ m !! q = Some b -> q = pindex \/ ~ failed b) -> all_candidates m';
}.

Lemma ReconsiderBlock_ok m pindex bp : ok m -> received m -> all_candidates m -> H_ m !! pindex = Some bp ->
  exists m', ReconsiderBlock m pindex = Some m' /\ reconsidered m pindex m'.
Proof using Hsame.
  intros Hok Hrc (t & Et & Hin & Hall) Hbp. pose proof (mo_tree _ _ _ Hok) as Ht. pose proof (to_wf _ Ht) as Hwf. set (D := related (H_ m) pindex).
  destruct (mo_tip _ _ _ Hok) as (t' & Hc & _). assert (t' = t) as -> by (pose proof (tip_of_chain _ _ _ Hwf Hc); congruence).
  assert (Hs : sorted_ok m) by (split; [apply Hok | eapply Forall_impl; [|exact (mo_cands _ _ _ Hok)]; intros x Hx; apply Hx]).
  set (l := map snd (map_to_list (mapBlockIndex (ix m)))).
  pose proof (listed m Hrc) as Hl. fold l in Hl.
  destruct (reconsider_loop_ok D pindex (nHeight bp) t l m Ht Hs Hc) as (m1 & E1 & C1 & Hd).
  { rewrite list.Forall_forall. intros x. apply Hl. }
  { intros x Hx. left. by eexists. }
  pose proof (clearing_heap _ _ _ C1) as Eh. destruct (same_lookup _ _ Eh _ _ Hbp) as (bp1 & Hbp1 & Ef). apply forget_inj in Ef as (_ & _ & _ & Ehp & _).
  destruct (clear_ancestors_ok D (S (Z.to_nat (nHeight bp))) m1 pindex bp1) as (m' & E2 & C2 & Ec & Ha); [by eapply same_tree | apply C1 | done | | |].
  { pose proof (eo_height _ _ _ (Hwf _ _ Hbp)). lia. }
  { intros q h Hq. right. exists h. by rewrite (same_ancestor_eq _ _ pindex h Eh). }
  pose proof (clearing_trans _ _ _ _ C1 C2) as C. pose proof (clearing_heap _ _ _ C) as Eh'. exists m'. split.
  { unfold ReconsiderBlock. rewrite Hbp. cbn [mbind option_bind]. fold l. by rewrite E1. }
  assert (Hdown : forall x h, ancestor (H_ m) x h = Some pindex -> is_Some (H_ m !! x) /\ settled_one m m' t x).
  { intros x h Hx. destruct (ancestor_back _ _ _ _ Hx) as (b & Hb & Hh & _). destruct (ancestor_in _ Hwf x b h Hb Hh) as (q & bq & Eq & Hbq & Ehq & _).
    rewrite Hx in Eq. injection Eq as <-. assert (bq = bp) as -> by congruence. subst h. split; [by exists b |].
    eapply settled_after; [exact C1 | exact C2 |]. apply Hd; [apply Hl; by exists b | done]. }
  split; [by eapply clearing_ok | by eapply clearing_received | done | | apply C | apply C | | |].
  - intros q b Hb. destruct (cg_entry _ _ _ C q b Hb) as [? | [_ ?]]; [by left | by right].
  - intros q b [[h Hq] | [h Hq]] Hb; [by apply (Hdown q h Hq) |]. rewrite (same_ancestor_eq _ _ pindex h Eh) in Hq.
    destruct (cg_entry _ _ _ C1 q b Hb) as [Hb1 | [_ Hb1]]; [by apply (Ha q h b) |]. rewrite (Ha q h _ Hq Hb1). f_equal. apply unfail_id, unfail_spec.
  - intros q Hq. destruct (H_ m !! q) as [b|] eqn:Hb; [| by apply C]. by destruct (cg_entry _ _ _ C q b Hb) as [? | [HD _]].
  - intros Hanc. exists t. unfold active in *. rewrite (cg_tip _ _ _ C). split_and!; [done | by apply C |]. intros x b' Hb' HV Htx. rewrite (cg_tx _ _ _ C) in Htx.
    assert (Hlt : ~ less (H_ m) t x -> x ∈ setBlockIndexCandidates m' \/ less (H_ m') x t).
    { intros Hn. destruct (same_lookup _ _ (eq_sym Eh') _ _ Hb') as (c & Hbx & _).
      destruct (less_total _ Ht t x) as [? | [<- | Hl0]]; [by destruct Hc as (bt & ? & _); exists bt | by exists c | done | left; by apply C | right].
      unfold less in *. by rewrite <- (same_less _ _ x t Eh'). }
    destruct (same_lookup _ _ (eq_sym Eh') _ _ Hb') as (b & Hb & _). destruct (cg_entry _ _ _ C x b Hb) as [Hs' | [HD Hs']]; rewrite Hb' in Hs'; injection Hs' as ->.
    + destruct (Hall x b Hb HV Htx) as [? | Hl0]; [left; by apply C | right]. unfold less in *. by rewrite <- (same_less _ _ x t Eh').
    + destruct (IsValid BLOCK_VALID_TRANSACTIONS b) eqn:EV.
      { destruct (Hall x b Hb EV Htx) as [? | Hl0]; [left; by apply C | right]. unfold less in *. by rewrite <- (same_less _ _ x t Eh'). }
      assert (Hx : exists h, ancestor (H_ m) x h = Some pindex).
      { destruct HD as [? | [h Hh]]; [done |]. destruct (Hanc x h b Hh Hb) as [-> | Hnf]; [exists (nHeight bp); by apply ancestor_self |]. rewrite unfail_id in HV by done. congruence. }
      destruct Hx as [h Hx]. destruct (proj2 (Hdown x h Hx) b Hb) as [_ Hset]. destruct (Hset EV HV Htx) as [? | Hn]; [by left | by apply Hlt].
Qed.

End Reconsider.

(** ** The operations of [Connect] *)

Section Node.
Context `{Abi} `{OtherRules}.
Context (g g' : list Z) (Verify : list Z -> list Z -> list Z -> bool) (LowS : list Z -> bool).
Context (a : allocs) (params : ChainParams).
Context {V : Type} {HV : CCoinsView V}.
Context (fCheckpointsEnabled threads : bool) (mapCheckpoints : list (Z * list Z)).

(** [ReadBlockFromDisk], or the block at hand, and whether it has passed [CheckBlock]. *)
Context (block_of : positive -> option (CBlock * bool)).

(** The chain state, and the undo data on disk. *)
Record node := mkNode { nd_chain : chain_state (V := V); nd_undo : gmap positive (list (list CTxInUndo)) }.

(** [CorruptionPossible()] after a rejection by [ConnectBlock]: the checks of the Merkle root. *)
Definition corruption_possible (e : reject) : bool :=
  bool_decide (strRejectReason e = "bad-txnmrklroot" \/ strRejectReason e = "bad-txns-duplicate").

Definition node_connect (i : index) (pindexNew : positive) (nd : node) : tip_result * node :=
  match block_of pindexNew with
  | None => (SystemError, nd)
  | Some (block, fChecked) =>
      match Connect.ConnectTip g g' Verify LowS a params i pindexNew block fChecked fCheckpointsEnabled threads mapCheckpoints (nd_chain nd) with
      | Ret (inr vtxundo, st) => (Connected, mkNode st (<[pindexNew := vtxundo]> (nd_undo nd)))
      | Ret (inl e, st) => (Rejected (corruption_possible e), mkNode st (nd_undo nd))
      | _ => (Crashed, nd)
      end
  end.

Definition node_disconnect (i : index) (nd : node) : tip_result * node :=
  match Tip (chainActive (nd_chain nd)) with
  | None => (Crashed, nd)
  | Some q =>
      match block_of q, nd_undo nd !! q with
      | Some (block, _), Some vtxundo =>
          match Connect.DisconnectTip i block vtxundo (nd_chain nd) with
          | Ret (true, st) => (Connected, mkNode st (nd_undo nd))
          | Ret (false, st) => (SystemError, mkNode st (nd_undo nd))
          | _ => (Crashed, nd)
          end
      | _, _ => (SystemError, nd)
      end
  end.

#[export] Instance node_ops : TipOps node := {|
  tip_chain nd := chainActive (nd_chain nd);
  tip_connect := node_connect;
  tip_disconnect := node_disconnect |}.

#[export] Instance node_moves : TipMoves node.
Proof using.
  split; cbn [tip_chain tip_connect tip_disconnect node_ops].
  - intros i p t t'. unfold node_connect. destruct (block_of p) as [[block fc]|]; [|done].
    destruct (Connect.ConnectTip _ _ _ _ _ _ _ _ _ _ _ _ _ _) as [[[e|u] st]| | |] eqn:E; intros [= <-].
    unfold Connect.ConnectTip in E. apply obnd_ret in E as (b & Hb%must_ret & E). case_bool_decide as Ep; cbn [negb] in E; [|done].
    apply obnd_ret in E as ([r caches] & _ & E). destruct r as [e|[vtxundo view]]; [done |].
    apply obnd_ret in E as (view' & _ & E). apply obnd_ret in E as (chain & Hs%must_ret & [= <- <-]). split; [by exists b | done].
  - intros i p t r t'. unfold node_connect. destruct (block_of p) as [[block fc]|]; [|by intros [= <- <-]].
    destruct (Connect.ConnectTip _ _ _ _ _ _ _ _ _ _ _ _ _ _) as [[[e|u] st]| | |] eqn:E; intros [= <- <-]; try done. intros _. cbn.
    unfold Connect.ConnectTip in E. apply obnd_ret in E as (b & _ & E). case_bool_decide; cbn [negb] in E; [|done].
    apply obnd_ret in E as ([r caches] & _ & E). destruct r as [e'|[vtxundo view]]; [by injection E as _ <- |].
    apply obnd_ret in E as (view' & _ & E). by apply obnd_ret in E as (chain & _ & E).
  - intros i t t'. unfold node_disconnect. destruct (Tip _) as [q|] eqn:Eq; [|done]. destruct (block_of q) as [[block fc]|], (nd_undo t !! q) as [u|]; try done.
    destruct (Connect.DisconnectTip _ _ _ _) as [[[] st]| | |] eqn:E; intros [= <-].
    unfold Connect.DisconnectTip in E. apply obnd_ret in E as (q' & Hq%must_ret & E). assert (q' = q) as -> by congruence.
    apply obnd_ret in E as (b & Hb%must_ret & E). apply obnd_ret in E as ([[ok view] powhash] & _ & E). destruct ok; cbn [negb] in E; [|done].
    apply obnd_ret in E as (view' & _ & E). apply obnd_ret in E as (chain & Hs%must_ret & [= <-]). by exists q, b.
  - intros i t r t'. unfold node_disconnect. destruct (Tip _) as [q|] eqn:Eq; [|by intros [= <- <-]].
    destruct (block_of q) as [[block fc]|], (nd_undo t !! q) as [u|]; try by intros [= <- <-].
    destruct (Connect.DisconnectTip _ _ _ _) as [[[] st]| | |] eqn:E; intros [= <- <-]; try done. intros _. cbn.
    unfold Connect.DisconnectTip in E. apply obnd_ret in E as (q' & _ & E). apply obnd_ret in E as (b & _ & E).
    apply obnd_ret in E as ([[ok view] powhash] & _ & E). destruct ok; cbn [negb] in E; [|by injection E as <-].
    apply obnd_ret in E as (view' & _ & E). by apply obnd_ret in E as (chain & _ & E).
  - intros i t c t'. unfold node_disconnect. destruct (Tip _) as [q|]; [|done].
    destruct (block_of q) as [[block fc]|], (nd_undo t !! q) as [u|]; try done. by destruct (Connect.DisconnectTip _ _ _ _) as [[[] st]| | |].
Qed.

End Node.
(** ** A fork with an invalid block *)

Module Sample.

(** A node that only keeps its chain, and rejects [6]. *)
Definition toy := list (option positive).

Definition toy_connect (i : index) (p : positive) (t : toy) : tip_result * toy :=
  match ix_heap i !! p with
  | Some b =>
      if bool_decide (pprev b = Tip t) then
        if bool_decide (p = 6%positive) then (Rejected false, t)
        else match SetTip (ix_heap i) t (Some p) with Some t' => (Connected, t') | None => (Crashed, t) end
      else (Crashed, t)
  | None => (Crashed, t)
  end.

Definition toy_disconnect (i : index) (t : toy) : tip_result * toy :=
  match Tip t with
  | Some q =>
      match ix_heap i !! q with
      | Some b => match SetTip (ix_heap i) t (pprev b) with Some t' => (Connected, t') | None => (Crashed, t) end
      | None => (Crashed, t)
      end
  | None => (Crashed, t)
  end.

#[global] Instance toy_ops : TipOps toy := {| tip_chain t := t; tip_connect := toy_connect; tip_disconnect := toy_disconnect |}.

#[global] Instance toy_moves : TipMoves toy.
Proof.
  split; cbn [tip_chain tip_connect tip_disconnect toy_ops]; unfold toy_connect, toy_disconnect.
  - intros i p t t' E. destruct (ix_heap i !! p) as [b|] eqn:Hb; [|done]. case_bool_decide as Ep; [|done]. case_bool_decide; [done |].
    destruct (SetTip _ _ _) as [t2|] eqn:Es; [|done]. injection E as ->. split; [by exists b | done].
  - intros i p t r t' E Hr. repeat case_match; simplify_eq; done.
  - intros i t t' E. destruct (Tip t) as [q|] eqn:Eq; [|done]. destruct (ix_heap i !! q) as [b|] eqn:Hb; [|done].
    destruct (SetTip _ _ _) as [t2|] eqn:Es; [|done]. injection E as ->. by exists q, b.
  - intros i t r t' E Hr. repeat case_match; simplify_eq; done.
  - intros i t c t' E. repeat case_match; simplify_eq; done.
Qed.

Definition valid (p : positive) : Prop := p <> 6%positive.

Lemma toy_verdicts : verdicts valid (fun _ _ => True).
Proof.
  split; cbn [tip_connect toy_ops]; unfold toy_connect, valid; [| | done | done].
  - intros i p b t t' _ _ _ E. destruct (ix_heap i !! p); [|done]. case_bool_decide; [|done]. by case_bool_decide.
  - intros i p b t c t' _ _ _ E. destruct (ix_heap i !! p); [|done]. case_bool_decide; [|done].
    case_bool_decide as Ep; [injection E as <- _ | by case_match]. split_and!; [by intros Hn | done..].
Qed.

(** The active chain 1, 2, 3, and a fork 1, 4, 5, 6 with more work; 3 came before 5. *)
Definition entry (prev : option positive) (height work sequence : Z) : CBlockIndex :=
  mkIndex (replicate 32 0) prev None height (arith_uint256_of work) 13 1 (replicate 32 0) 0 0x207fffff 0 sequence.

Definition heap6 : heap :=
  <[1%positive := entry None 0 2 1]> (<[2%positive := entry (Some 1%positive) 1 4 2]> (<[3%positive := entry (Some 2%positive) 2 6 3]>
  (<[4%positive := entry (Some 1%positive) 1 4 4]> (<[5%positive := entry (Some 4%positive) 2 6 5]> (<[6%positive := entry (Some 5%positive) 3 8 6]> ∅))))).

Definition chain3 : toy := [Some 1%positive; Some 2%positive; Some 3%positive].

Definition state : manager toy :=
  mkManager (mkIdx heap6 (list_to_map ((fun p => ([Zpos p], p)) <$> [1; 2; 3; 4; 5; 6]%positive)) None ∅) (list_to_map ((fun p => (p, 1)) <$> [1; 2; 3; 4; 5; 6]%positive)) [5; 3; 6]%positive None [] chain3.

Definition numbered (p : positive) (b : CBlockIndex) : Prop :=
  p = 1%positive /\ b = entry None 0 2 1 \/ p = 2%positive /\ b = entry (Some 1%positive) 1 4 2 \/ p = 3%positive /\ b = entry (Some 2%positive) 2 6 3 \/
  p = 4%positive /\ b = entry (Some 1%positive) 1 4 4 \/ p = 5%positive /\ b = entry (Some 4%positive) 2 6 5 \/ p = 6%positive /\ b = entry (Some 5%positive) 3 8 6.

Lemma heap6_cases p b : heap6 !! p = Some b -> numbered p b.
Proof.
  unfold heap6, numbered. intros H. do 6 (apply lookup_insert_Some in H as [[<- <-]|[_ H]]; [tauto |]). by rewrite lookup_empty in H.
Qed.

Ltac each H := apply heap6_cases in H; destruct H as [[-> ->]|[[-> ->]|[[-> ->]|[[-> ->]|[[-> ->]|[-> ->]]]]]].

Lemma tree6 : tree_ok heap6.
Proof.
  split.
  - intros p b H. each H; (split; [done | | done]); first [done | by eexists].
  - intros p b H. each H; by repeat constructor.
  - intros p b q b' H Ep H'. each H; cbn in Ep; try discriminate; injection Ep as <-; vm_compute in H'; by injection H' as <-.
  - intros p b q b' H H' E E'. each H; try done; each H'; done.
Qed.

Lemma clean6 p b : heap6 !! p = Some b -> entry_clean heap6 p.
Proof. intros H. exists b. split; [done |]. each H; (split; [intros Hf; by apply Hf | done]). Qed.

Lemma tx6 p : is_Some (heap6 !! p) -> default 0 (nChainTx state !! p) <> 0.
Proof. intros [b H]. each H; done. Qed.

Lemma chained6 p : is_Some (heap6 !! p) -> chained state p.
Proof. intros H. split; [done |]. intros h q b _ Hq. left. apply tx6. by exists b. Qed.

Lemma accepted3 (v : positive -> Prop) : (forall p, p <> 6%positive -> v p) -> accepted v heap6 3.
Proof.
  intros Hv. assert (H1 : accepted v heap6 1).
  { split; [eapply (clean_step heap6 1); [apply tree6 | reflexivity | by eapply clean6 | done] |].
    intros h q Hq. destruct (ancestor_back _ _ _ _ Hq) as (b & Hb & Hh & _). assert (b = entry None 0 2 1) as -> by (vm_compute in Hb; by injection Hb as <-). cbn in Hh. assert (h = 0) as -> by lia.
    vm_compute in Hq. injection Hq as <-. by apply Hv. }
  eapply (accepted_step v heap6 3); [apply tree6 | done | done | | by eapply clean6 | by apply Hv].
  eapply (accepted_step v heap6 2); [apply tree6 | done | done | exact H1 | by eapply clean6 | by apply Hv].
Qed.

Lemma state_ok (v : positive -> Prop) : (forall p, p <> 6%positive -> v p) -> manager_ok v (fun _ _ => True) state.
Proof.
  intros Hv. split; [exact tree6 | | | | done | done].
  - repeat constructor; by vm_compute.
  - repeat first [apply Forall_nil_2 | apply Forall_cons_2; [apply chained6; by eexists |]].
  - exists 3%positive. split; [by eexists | split; [by apply accepted3 | by apply chained6; eexists]].
Qed.

Lemma state_received : received state.
Proof.
  split; [| | intros p H _; by apply chained6 | intros p b H _; apply tx6; by exists b].
  - intros p. split; [intros [b H]; exists [Zpos p]; each H; by vm_compute |]. intros [h H]. apply elem_of_list_to_map_2 in H.
    repeat (apply elem_of_cons in H as [[= -> ->] | H]; [by eexists |]). by apply not_elem_of_nil in H.
  - intros p b H _. each H; done.
Qed.

Lemma state_complete : candidates_complete state.
Proof.
  exists 3%positive. split; [done |]. split; [by right; left |]. intros x [[b H] _] _. cbn in H. 
  each H; first [by right; vm_compute | left; cbn; rewrite !elem_of_cons; tauto].
Qed.

(** After 2 has been invalidated. *)
Definition without2 : manager toy := match InvalidateBlock state 2 with Some (_, m) => m | None => state end.

(** The tip 1, a child 2 that has been invalidated, and the header 3 of a child of 2. *)
Definition headers : manager toy :=
  let status b s := set_status b s in
  mkManager (mkIdx (<[1%positive := entry None 0 2 1]> (<[2%positive := status (entry (Some 1%positive) 1 4 2) (13 + 32)]>
      (<[3%positive := status (entry (Some 2%positive) 2 6 0) (2 + 64)]> ∅)))
    (list_to_map ((fun p => ([Zpos p], p)) <$> [1; 2; 3]%positive)) None ∅)
    (list_to_map ((fun p => (p, 1)) <$> [1; 2]%positive)) [1]%positive (Some 2%positive) [] [Some 1%positive].

End Sample.

(** ** The theorems *)

(** C7. [FindMostWorkChain] finds the candidate to work towards.  Among the candidates whose whole
    chain down to genesis has its data and no failed block it returns the best one in the order of
    work, then earliest arrival; none when there is no such candidate.  On the way it only marks
    as failed descendants of failed blocks and only gives up candidates that are not usable, so
    that which blocks are usable does not change.  No assertion fails and the loops end. *)
Theorem find_most_work_chain_best {T} {O : TipOps T} (m : manager T) :
  manager_ok (fun _ => True) (fun _ _ => True) m ->
  exists r m', FindMostWorkChain m = Some (r, m') /\ tip m' = tip m /\ marked (ix_heap (ix m)) (ix_heap (ix m')) /\
    (forall q, clean (ix_heap (ix m')) q <-> clean (ix_heap (ix m)) q) /\
    setBlockIndexCandidates m' `sublist_of` setBlockIndexCandidates m /\
    match r with
    | Some p => p ∈ setBlockIndexCandidates m' /\ clean (ix_heap (ix m)) p /\
        forall q, q ∈ setBlockIndexCandidates m -> clean (ix_heap (ix m)) q -> q = p \/ less (ix_heap (ix m)) q p
    | None => setBlockIndexCandidates m' = [] /\ forall q, q ∈ setBlockIndexCandidates m -> ~ clean (ix_heap (ix m)) q
    end.
Proof.
  intros Hok. destruct (FindMostWorkChain_ok (fun _ => True) (fun _ _ => True) ltac:(done) m Hok) as (r & m' & E & D & Hr).
  assert (Hcl : forall H q, accepted (fun _ => True) H q <-> clean H q) by (intros H q; split; [by intros [? _] | by split]).
  exists r, m'. split_and!; [done | apply D | apply D | | apply D |].
  - intros q. rewrite <- !Hcl. by apply drops_accepted.
  - pose proof (mo_sorted _ _ _ (drops_ok (fun _ => True) (fun _ _ => True) ltac:(done) _ _ D Hok)) as HS. destruct r as [p|].
    + destruct Hr as [Hl Hc]. split_and!; [by apply last_Some_elem_of | apply Hcl, (drops_accepted _ _ _ _ D); by apply Hcl |].
      intros q Hq Hcq. destruct (last_sorted _ _ _ q HS Hl) as [-> | Hlt]; [apply D; [done | by apply Hcl] | by left | right].
      unfold less in *. by rewrite (same_less _ _ q p (proj1 (dr_heap _ _ _ D))).
    + split; [done |]. intros q Hq Hcq. assert (Hin : q ∈ setBlockIndexCandidates m') by (apply D; [done | by apply Hcl]).
      rewrite Hr in Hin. by apply not_elem_of_nil in Hin.
Qed.

(** C3. The node settles on the best valid chain, and gets there.  Where the verdict on a block does
    not depend on when it is connected, [ActivateBestChain] ends, within a number of steps bounded by
    the blocks that have not failed times the height: unless connecting or disconnecting ran
    into a system error or did not return, it returns with a tip that is valid with all its
    ancestors, and no block of the index, whose chain is valid and has been received, comes after
    it in the order of work and arrival.  This holds whatever invalid blocks, better by work, are
    tried and given up on the way, and however far the chain has to be disconnected. *)
Theorem activate_best_chain_selects {T} {O : TipOps T} {M : TipMoves T} valid tip_inv (Hv : verdicts valid tip_inv) (m : manager T) B fuel :
  manager_ok valid tip_inv m -> candidates_complete m ->
  (forall p b, ix_heap (ix m) !! p = Some b -> nHeight b <= B) ->
  (Z.of_nat (unfailed (ix_heap (ix m))) + 1) * (B + 3) <= Z.of_nat fuel ->
  exists r m', ActivateBestChain fuel m = Some (r, m') /\
    (r = ReturnFalse /\ trouble tip_inv SystemError \/ r = NoReturn /\ trouble tip_inv Crashed \/
     r = Stop false /\ manager_ok valid tip_inv m' /\ marked (ix_heap (ix m)) (ix_heap (ix m')) /\
     exists p, Tip (active m') = Some p /\ accepted valid (ix_heap (ix m)) p /\
       forall x, accepted valid (ix_heap (ix m)) x -> chained m x -> CBlockIndexWorkComparator (ix_heap (ix m)) p x = Some false).
Proof.
  intros Hok (t & Et & Hin & Hcomp) HB Hf. pose proof (mo_tree _ _ _ Hok) as Ht.
  assert (Hcov : covers valid m).
  { intros x Hx Hcx. destruct (Hcomp x (proj1 Hx) Hcx) as [|Hlt]; [by exists x; auto |]. exists t. split_and!; [done | | by right].
    destruct (mo_tip _ _ _ Hok) as (t' & Hc' & Ha & _). pose proof (tip_of_chain _ _ _ (to_wf _ Ht) Hc'). congruence. }
  destruct (activate_loop_ok valid tip_inv Hv B fuel m None (B + 2) Hok Hcov HB eq_refl ltac:(lia)) as (r & m' & E & Hr).
  exists r, m'. split; [exact E |]. destruct Hr as [|[|(-> & Hok' & Hcov' & Htx & Hm & Hacc & p & Hp & Hlast)]]; [auto.. |]. right; right.
  split_and!; [done | done | done |]. exists p. destruct (mo_tip _ _ _ Hok') as (p' & Hc' & Ha' & _).
  pose proof (tip_of_chain _ _ _ (to_wf _ (mo_tree _ _ _ Hok')) Hc') as Ep. assert (p' = p) as -> by congruence.
  split_and!; [done | by eapply marked_accepted |]. intros x Hx Hcx. pose proof (mo_tree _ _ _ Hok') as Ht'. destruct Hm as [Eh _].
  assert (Hcx' : chained m' x) by (by eapply same_chained).
  destruct (Hcov' x (Hacc x Hx) Hcx') as (w & Hw & _ & Hlw). rewrite (same_less _ _ p x Eh).
  destruct (less_decides _ Ht' p x) as [[] Hc]; [by destruct Hc' as (b & ? & _); exists b | by apply Hcx' | | done]. exfalso.
  assert (Hpw : less (ix_heap (ix m')) p w) by (destruct Hlw as [<- |]; [done | by eapply less_trans]).
  destruct (last_sorted _ _ _ w (mo_sorted _ _ _ Hok') Hlast Hw) as [-> | Hlt]; [by apply (less_irrefl _ Ht' p) |].
  apply (less_irrefl _ Ht' p). by eapply less_trans.
Qed.

(** C8. [InvalidateBlock] takes a block that is not genesis, and all that builds on it, out of the
    active chain.  Unless a disconnection failed it returns [true]; then the block is marked as
    failed, the tip is the last block of the old chain that does not build on it, blocks that do
    not build on it are as before, and all that is required of the state holds again: every block
    whose own status allows it and that is not worse than the new tip is a candidate, so that the
    next [ActivateBestChain] finds the best of the others. *)
Theorem invalidate_block_correct {T} {O : TipOps T} {M : TipMoves T} valid tip_inv (Hv : verdicts valid tip_inv) (m : manager T) pindex b :
  manager_ok valid tip_inv m -> received m -> ix_heap (ix m) !! pindex = Some b -> 0 < nHeight b ->
  exists r m', InvalidateBlock m pindex = Some (r, m') /\
    (r = ReturnFalse /\ trouble tip_inv SystemError \/ r = NoReturn /\ trouble tip_inv Crashed \/
     r = Stop false /\ manager_ok valid tip_inv m' /\ received m' /\ all_candidates m' /\ candidates_complete m' /\
     (exists b', ix_heap (ix m') !! pindex = Some b' /\ failed b') /\
     (forall q, (forall h, ancestor (ix_heap (ix m)) q h <> Some pindex) -> ix_heap (ix m') !! q = ix_heap (ix m) !! q) /\
     exists t0 t h, Tip (active m) = Some t0 /\ ancestor (ix_heap (ix m)) t0 h = Some t /\ Tip (active m') = Some t /\
       (forall h', ancestor (ix_heap (ix m)) t h' <> Some pindex) /\
       forall q k, ancestor (ix_heap (ix m)) t0 k = Some q -> h < k -> exists h', ancestor (ix_heap (ix m)) q h' = Some pindex).
Proof.
  intros Hok Hrc Hb Hpos. destruct (InvalidateBlock_ok valid tip_inv Hv m pindex b Hok Hrc Hb Hpos) as (r & m' & E & Hr).
  exists r, m'. split; [exact E |]. destruct Hr as [?|[?|[-> [H1 H2 H3 _ _ H5 H6 (t0 & t & h & Hc & Ha & Et & Hno & Habove)]]]]; [by left | by right; left | right; right].
  pose proof (mo_tree _ _ _ H1) as Ht'. split_and!; try done; [by eapply all_candidates_complete; [apply Ht' | |] |].
  pose proof (to_wf _ (mo_tree _ _ _ Hok)) as Hwf. exists t0, t, h. split_and!; try done; by eapply tip_of_chain.
Qed.

(** C9. What [InvalidateBlock] took away, [ReconsiderBlock] gives back.  Where no ancestor of the
    block had failed, [ReconsiderBlock] of the block just invalidated returns, all that is required
    of the state holds, the tip stays, every block that could be connected before can be
    connected again, and each of them is a candidate unless it is worse than the tip: the next
    [ActivateBestChain] is back on the best chain there was. *)
Theorem reconsider_block_restores {T} {O : TipOps T} {M : TipMoves T} valid tip_inv (Hv : verdicts valid tip_inv)
    (Hsame : forall H H' t, forget <$> H = forget <$> H' -> tip_inv H t -> tip_inv H' t) (m m1 : manager T) pindex b :
  manager_ok valid tip_inv m -> received m -> ix_heap (ix m) !! pindex = Some b -> 0 < nHeight b ->
  (forall q h c, ancestor (ix_heap (ix m)) pindex h = Some q -> ix_heap (ix m) !! q = Some c -> q = pindex \/ ~ failed c) ->
  InvalidateBlock m pindex = Some (Stop false, m1) ->
  exists m2, ReconsiderBlock m1 pindex = Some m2 /\ manager_ok valid tip_inv m2 /\ received m2 /\ all_candidates m2 /\ candidates_complete m2 /\
    tip m2 = tip m1 /\ nChainTx m2 = nChainTx m /\
    forall x, accepted valid (ix_heap (ix m)) x -> accepted valid (ix_heap (ix m2)) x.
Proof.
  intros Hok Hrc Hb Hpos Hanc E. destruct (InvalidateBlock_ok valid tip_inv Hv m pindex b Hok Hrc Hb Hpos) as (r & m' & E' & Hr).
  rewrite E in E'. injection E' as <- <-. destruct Hr as [[[=] _]|[[[=] _]|[_ [H1 H2 H3 [Eh Hm] Htx (b1 & Hb1 & Hf1) Ho _]]]].
  destruct (ReconsiderBlock_ok valid tip_inv Hsame m1 pindex b1 H1 H2 H3 Hb1) as (m2 & E2 & [R1 R2 Eh2 Re R3 R4 R5 R6 R7]). exists m2.
  pose proof (to_wf _ (mo_tree _ _ _ Hok)) as Hwf.
  assert (Hall : all_candidates m2).
  { apply R7. intros q h c Hq Hc. destruct (decide (q = pindex)) as [-> | Hne]; [by left | right]. rewrite <- (same_ancestor_eq _ _ pindex h Eh) in Hq.
    rewrite Ho in Hc; [by destruct (Hanc q h c Hq Hc) as [? | ?] |]. intros h' Hq'.
    by apply Hne, (ancestor_antisym _ (mo_tree _ _ _ Hok) q pindex h' h). }
  split_and!; try done; [by eapply all_candidates_complete; [apply R1 | |] | congruence |].
  assert (Hent : forall q, entry_clean (ix_heap (ix m)) q -> entry_clean (ix_heap (ix m2)) q).
  { intros q (c & Hc & Hf & Hd). destruct (same_lookup _ _ Eh _ _ Hc) as (c1 & Hc1 & _). destruct (Hm q c c1 Hc Hc1) as (Hd1 & _).
    destruct (unfail_spec c1) as (U1 & U2 & _). destruct (Re q c1 Hc1) as [Hq | Hq].
    - exists c1. split_and!; [done | | by apply Hd1]. intros Hf2. rewrite Ho in Hc1; [by replace c1 with c in Hf2 by congruence |].
      intros h Hh. rewrite (R5 q c1) in Hq; [| left; exists h; by rewrite <- (same_ancestor_eq _ _ q h Eh) | done]. by replace (unfail c1) with c1 in U1 by congruence.
    - exists (unfail c1). split_and!; [done | done | by apply U2, Hd1]. }
  intros x [[[bx Hx] Hcl] Hva]. assert (Eh' : forget <$> ix_heap (ix m) = forget <$> ix_heap (ix m2)) by congruence.
  split; [split |]; [destruct (same_lookup _ _ Eh' _ _ Hx) as (c & ? & _); by exists c | |]; intros h q Hq; rewrite <- (same_ancestor_eq _ _ x h Eh') in Hq; [by eapply Hent, Hcl | by eapply Hva].
Qed.

Lemma find_most_work_chain_best_witness : exists m',
  FindMostWorkChain Sample.state = Some (Some 6%positive, m') /\ 5%positive ∈ setBlockIndexCandidates Sample.state /\
  less (ix_heap (ix Sample.state)) 5 6.
Proof.
  destruct (find_most_work_chain_best Sample.state) as (r & m' & E & _ & _ & _ & _ & Hr); [by apply Sample.state_ok |].
  assert (Hc : match FindMostWorkChain Sample.state with Some (Some 6%positive, _) => true | _ => false end = true) by (by vm_compute).
  rewrite E in Hc. destruct r as [p|]; [|done]. assert (p = 6%positive) as -> by (by repeat (destruct p as [p|p|]; try done)).
  exists m'. split; [exact E |]. split; [by left |]. destruct Hr as (_ & _ & Hr). destruct (Hr 5%positive) as [|]; [by left | | done | done].
  eapply (clean_step Sample.heap6 5); [apply Sample.tree6 | reflexivity | by eapply Sample.clean6 | cbn].
  eapply (clean_step Sample.heap6 4); [apply Sample.tree6 | reflexivity | by eapply Sample.clean6 | cbn].
  apply (accepted_ancestor (fun _ => True) Sample.heap6 3 0 1); [apply Sample.tree6 | by apply Sample.accepted3 | by vm_compute].
Defined.

Lemma activate_best_chain_selects_witness : exists m',
  ActivateBestChain 42 Sample.state = Some (Stop false, m') /\ Tip (active m') = Some 3%positive /\
  CBlockIndexWorkComparator (ix_heap (ix Sample.state)) 3 5 = Some false.
Proof.
  destruct (activate_best_chain_selects Sample.valid (fun _ _ => True) Sample.toy_verdicts Sample.state 3 42) as (r & m' & E & Hr).
  - by apply Sample.state_ok.
  - exact Sample.state_complete.
  - intros p b H. cbn in H. Sample.each H; done.
  - by vm_compute.
  - assert (Hc : match ActivateBestChain 42 Sample.state with Some (Stop false, m) => bool_decide (Tip (active m) = Some 3%positive) | _ => false end = true)
      by (by vm_compute).
    rewrite E in Hc. destruct r as [|[]| |]; try discriminate Hc. apply bool_decide_eq_true in Hc. exists m'. split; [exact E |]. split; [exact Hc |]. clear E.
    destruct Hr as [[Hd _]|[[Hd _]|(_ & _ & _ & p & Hp & _ & Hx)]]; [discriminate Hd | discriminate Hd |]. rewrite Hc in Hp. injection Hp as <-. apply Hx; [| apply Sample.chained6; by eexists].
    eapply (accepted_step Sample.valid Sample.heap6 5); [apply Sample.tree6 | reflexivity | reflexivity | | by eapply Sample.clean6 | done].
    eapply (accepted_step Sample.valid Sample.heap6 4); [apply Sample.tree6 | reflexivity | reflexivity | | by eapply Sample.clean6 | done].
    eapply (accepted_ancestor Sample.valid Sample.heap6 3 0); [apply Sample.tree6 | by apply Sample.accepted3 | by vm_compute].
Defined.

Lemma invalidate_block_correct_witness : exists m',
  InvalidateBlock Sample.state 2 = Some (Stop false, m') /\ Tip (active m') = Some 1%positive /\ candidates_complete m' /\
  ix_heap (ix m') !! 5%positive = ix_heap (ix Sample.state) !! 5%positive.
Proof.
  destruct (invalidate_block_correct Sample.valid (fun _ _ => True) Sample.toy_verdicts Sample.state 2 (Sample.entry (Some 1%positive) 1 4 2)) as (r & m' & E & Hr).
  - by apply Sample.state_ok.
  - exact Sample.state_received.
  - reflexivity.
  - by vm_compute.
  - assert (Hc : match InvalidateBlock Sample.state 2 with Some (Stop false, m) => bool_decide (Tip (active m) = Some 1%positive) | _ => false end = true)
      by (by vm_compute).
    rewrite E in Hc. destruct r as [|[]| |]; try discriminate Hc. apply bool_decide_eq_true in Hc. exists m'. split; [exact E |]. split; [exact Hc |]. clear E.
    destruct Hr as [[Hd _]|[[Hd _]|(_ & _ & _ & _ & Hcc & _ & Ho & _)]]; [discriminate Hd | discriminate Hd |]. split; [exact Hcc |]. apply Ho.
    intros h Hh. destruct (ancestor_height _ Sample.tree6 5 h 2 Hh) as (b5 & b2 & Hb5 & Hb2 & Eh & _). assert (b2 = Sample.entry (Some 1%positive) 1 4 2) as -> by (vm_compute in Hb2; by injection Hb2 as <-). cbn in Eh. subst h. vm_compute in Hh. discriminate Hh.
Defined.

Lemma reconsider_block_restores_witness : exists m2,
  ReconsiderBlock Sample.without2 2 = Some m2 /\ candidates_complete m2 /\ accepted Sample.valid (ix_heap (ix m2)) 3.
Proof.
  destruct (reconsider_block_restores Sample.valid (fun _ _ => True) Sample.toy_verdicts ltac:(done) Sample.state Sample.without2 2 (Sample.entry (Some 1%positive) 1 4 2))
    as (m2 & E & _ & _ & _ & Hcc & _ & _ & Hacc).
  - by apply Sample.state_ok.
  - exact Sample.state_received.
  - reflexivity.
  - by vm_compute.
  - intros q h c _ Hc. right. destruct (Sample.clean6 q c Hc) as (c' & Hc' & Hf & _). assert (c = c') as -> by (cbn in Hc; congruence). exact Hf.
  - unfold Sample.without2. vm_compute. reflexivity.
  - exists m2. split; [exact E | split; [exact Hcc |]]. apply Hacc. by apply Sample.accepted3.
Defined.

(** [ReconsiderBlock] clears the ancestors of the block but does not make them candidates: if the
    transactions of the block itself have not been received, a usable block that is better than
    the tip is then missing among the candidates, against what [CheckBlockIndex] asserts. *)
Lemma reconsider_misses_ancestor : exists m', ReconsiderBlock Sample.headers 3 = Some m' /\
  setBlockIndexCandidates m' = [1%positive] /\ CBlockIndexWorkComparator (ix_heap (ix m')) 1 2 = Some true /\
  all_candidates Sample.headers /\ ~ all_candidates m'.
Proof.
  destruct (ReconsiderBlock Sample.headers 3) as [m'|] eqn:E; [| by vm_compute in E]. exists m'. split; [done |].
  assert (Hc : match ReconsiderBlock Sample.headers 3 with
    | Some m => bool_decide (setBlockIndexCandidates m = [1%positive]) && bool_decide (Tip (active m) = Some 1%positive) &&
        bool_decide (CBlockIndexWorkComparator (ix_heap (ix m)) 1 2 = Some true) && bool_decide (CBlockIndexWorkComparator (ix_heap (ix m)) 2 1 = Some false) &&
        match ix_heap (ix m) !! 2%positive with Some b => IsValid BLOCK_VALID_TRANSACTIONS b | None => false end && negb (default 0 (nChainTx m !! 2%positive) =? 0)
    | None => false end = true) by (by vm_compute).
  rewrite E in Hc. clear E. rewrite !andb_true_iff, !bool_decide_eq_true in Hc. destruct Hc as (((((H1 & H2) & H3) & H4) & H5) & H6).
  split_and!; [done | done | |].
  - exists 1%positive. split_and!; [done | by left |]. intros x b Hx HV Htx. left. cbn in Hx.
    repeat (apply lookup_insert_Some in Hx as [[<- <-]|[_ Hx]]; [by first [left | discriminate HV] |]). by rewrite lookup_empty in Hx.
  - intros (t & Et & _ & Hall). rewrite H2 in Et. injection Et as <-. destruct (ix_heap (ix m') !! 2%positive) as [b|] eqn:Hb; [|done].
    destruct (Hall 2%positive b Hb H5) as [Hin | Hl]; [by apply negb_true_iff, Z.eqb_neq in H6 | | unfold less in Hl; congruence].
    rewrite H1 in Hin. by apply list_elem_of_singleton in Hin.
Qed.

(** A block rejected with [CorruptionPossible()] is neither marked nor given up: while it is the
    best candidate and a child of the tip, [ActivateBestChain] tries it again without end. *)
Lemma corrupted_block_is_retried {T} {O : TipOps T} (m : manager T) t p b fuel :
  tree_ok (ix_heap (ix m)) -> chain_of (ix_heap (ix m)) (active m) (Some t) ->
  ix_heap (ix m) !! p = Some b -> pprev b = Some t ->
  FindMostWorkChain m = Some (Some p, m) -> tip_connect (ix m) p (tip m) = (Rejected true, tip m) ->
  ActivateBestChain fuel m = None.
Proof.
  intros Ht Hc Hb Ep HF HR. pose proof (to_wf _ Ht) as Hwf. pose proof (tip_of_chain _ _ _ Hwf Hc) as Et.
  assert (Hst : ActivateBestChainStep m p = Some (Stop true, m)); [|induction fuel as [|fuel IH]; [done |]].
  2: { unfold ActivateBestChain in *. cbn [activate_loop]. rewrite HF. cbn [mbind option_bind]. rewrite Et. rewrite bool_decide_eq_false_2.
    - rewrite Hst. cbn [mbind option_bind]. rewrite Et, bool_decide_eq_false_2 by done. exact IH.
    - intros [= ->]. pose proof (eo_prev _ _ _ (Hwf _ _ Hb)) as Hpv. rewrite Ep in Hpv. destruct Hpv as (b' & Hb' & Eh). assert (b' = b) as -> by congruence. lia. }
  pose proof (eo_prev _ _ _ (Hwf _ _ Hb)) as Hpv. rewrite Ep in Hpv. destruct Hpv as (bt & Hbt & Eh). pose proof (eo_height _ _ _ (Hwf _ _ Hbt)) as Hnn.
  pose proof (ancestor_pprev _ Hwf p b Hb) as Ea. rewrite Ep in Ea. replace (nHeight b - 1) with (nHeight bt) in Ea by lia. symmetry in Ea.
  assert (Hfork : FindFork (ix_heap (ix m)) (active m) (Some p) = Some (Some t)).
  { destruct (FindFork_ok _ Hwf (active m) p b Hb) as (r & E & Hr). rewrite E. f_equal.
    assert (Hat : forall h, chain_at (active m) h = ancestor (ix_heap (ix m)) t h) by (intros h; exact (chain_at_ok _ Hwf _ (Some t) Hc h)).
    assert (Hcom : common (ix_heap (ix m)) (active m) p (nHeight bt)) by (exists t; rewrite Hat; split; [done | by apply ancestor_self]).
    destruct r as [f|]; [|by destruct (Hr _ Hcom)]. destruct Hr as (h & Hp & Hat' & Hmax). rewrite Hat in Hat'.
    destruct (ancestor_back _ _ _ _ Hat') as (b2 & Hb2 & Hh & _). assert (b2 = bt) as -> by congruence.
    destruct (decide (h = nHeight bt)) as [-> |]; [congruence |]. by destruct (Hmax (nHeight bt) ltac:(lia)). }
  unfold ActivateBestChainStep. rewrite Et, Hfork. cbn [mbind option_bind].
  assert (Hdis : disconnect_loop (length (active m)) m (Some t) = Some (Connected, m)).
  { destruct (length (active m)); cbn [disconnect_loop]; rewrite Et, bool_decide_eq_true_2 by auto; done. }
  rewrite Hdis. cbn [mbind option_bind]. rewrite Hbt. cbn [mbind option_bind]. rewrite Hb. cbn [mbind option_bind].
  replace (Z.to_nat (nHeight b + 1)) with (S (Z.to_nat (nHeight b))) by lia. cbn [connect_loop]. rewrite Hb. cbn [mbind option_bind].
  rewrite (proj2 (Z.eqb_neq _ _)) by lia. replace (Z.min (nHeight bt + 32) (nHeight b)) with (nHeight b) by lia.
  rewrite (GetAncestor_ok _ Hwf p b _ Hb). cbn [mbind option_bind]. rewrite (ancestor_self _ Hwf p b Hb).
  cbn [to_connect]. rewrite Hb. cbn [mbind option_bind]. rewrite (proj2 (Z.eqb_neq _ _)) by lia. rewrite Ep. cbn [to_connect]. rewrite Hbt. cbn [mbind option_bind].
  rewrite Z.eqb_refl. cbn [mbind option_bind list.last rev app connect_batch]. unfold connect_or_reject. rewrite HR. cbn [InvalidBlockFound mbind option_bind].
  by destruct m.
Qed.

End BestChain.
